(* ===== verification/_CoqProject ===== *)
-Q . S2P
Prelude.v
Endian.v
Format.v
StringPiece.v
StdMap.v
StdSet.v
LogStream.v
AsyncLogging.v
Date.v
Timestamp.v
TimeZone.v
LogFile.v
Monitor.v
BlockingQueue.v
CountDownLatch.v
Thread.v
ThreadPool.v
Logging.v
TimerQueue.v
Sockets.v
Channel.v
Poller.v
EventLoop.v
EventLoopThread.v
EventLoopThreadPool.v
Buffer.v
TcpConnection.v
Connector.v
TcpClient.v
TcpServer.v
Codec.v
Http.v
Rpc.v
Inspector.v
DancingLinks.v
Sudoku.v
Lines.v
Conn.v
MemcacheStore.v
Memcache.v
MemcacheServer.v
Packet.v
Multiplexer.v
Demux.v
Multiplex.v
Hub.v
HubRun.v
IdleWheel.v
Framing.v
ProtoCodec.v
FastCgi.v
SudokuStat.v
SudokuServer.v
Balancer.v
Chat.v
IdleList.v
FileTransfer.v
Socks4a.v
