(* ===== verification/Prelude.v ===== *)
(** * Verification of the muduo network library

    muduo (src/muduo/muduo) is a reactor library in C++: an [EventLoop] waits in a
    [Poller], dispatches events to [Channel]s, runs timers and the functors that
    other threads queue; [TcpServer] and [TcpConnection] build buffered TCP
    connections on it, [Connector] and [TcpClient] the client side, and codecs, an
    HTTP server, remote calls, a logging library, time zones, threads and
    queues between threads complete it. This library models that code as executable definitions, one file per
    component, and proves the properties below about them.

    ** How the code is modelled

    An operation of the C++ is a function with the same name. It returns an
    [outcome]: [Ret], or [Stop] with the reason ([AssertFailed] for a failed
    [assert], [OutOfRange] for an access outside an object or a use of freed
    memory, [LengthError] and [BadAlloc] of containers, [LogFatal] for
    [assertInLoopThread] on the wrong thread, [NoFuel] for the fuel of a loop). The
    notations [let*], [assert*] and [inloop*] read like the source. Integers are
    [Z] with the wrap-around of their width written out ([u64], [i32], ...);
    bytes are [Byte.byte]; pointers into a buffer are offsets, and the memory
    behind a pointer is the list of bytes that may be read from it. Objects that
    are shared and freed (timers, channels) live in a store indexed by address.
    Threads are transition systems with one step per access to shared state.
    What the kernel, protobuf, zlib and application callbacks answer are arguments of
    the definitions; what is assumed of them are named hypotheses, and every
    theorem with hypotheses has a witness that instantiates them.

    ** Files

    - [Prelude]: outcomes and their notations, machine integers, bytes, lists
      with [Z] lengths and their rewrite database [zlist], the functions of the C
      and C++ libraries that the sources use. [Format]: [%d] and its relatives.
      [StdMap], [StdSet]: [std::map] with string keys, [std::set] of pairs.
    - [Endian] (net/Endian.h), [StringPiece] (base/StringPiece.h), [Timestamp]
      (base/Timestamp.h, .cc), [Date] (base/Date.h, .cc), [TimeZone] (base/TimeZone.h, .cc).
    - [LogStream] (base/LogStream.h, .cc), [AsyncLogging] (base/AsyncLogging.h, .cc),
      [LogFile] (base/LogFile.h, .cc, FileUtil.h, .cc), [Logging] (base/Logging.h, .cc): the
      statement with its macro, on top of [LogStream], [TimeZone] and [Thread].
    - [Monitor] (base/Mutex.h, Condition.h): threads that run critical sections of
      one mutex and wait on its conditions, under every schedule and with spurious
      wakeups. The classes [SafeClient] and [WakingClient] state what a
      component has to show of its critical sections, and the file proves of every instance that no
      assertion fails, that the threads come to rest and who can be left waiting.
      [BlockingQueue] (base/BlockingQueue.h, BoundedBlockingQueue.h), [CountDownLatch]
      (base/CountDownLatch.h, .cc), [Thread] (base/Thread.h, .cc, CurrentThread.h,
      Atomic.h) and [ThreadPool] (base/ThreadPool.h, .cc) are instances.
    - [Buffer] (net/Buffer.h, .cc): the record has the vector and both indices; [content]
      is the readable part.
    - [TimerQueue] (net/Timer.h, TimerId.h, TimerQueue.h, .cc): both ordered sets, the
      heap of timers, the timer descriptor, the calls posted by other threads.
    - [Channel] (net/Channel.h, .cc), [Poller] (net/Poller.h, net/poller/PollPoller.cc,
      EPollPoller.cc): the type class [Poller] has the virtual functions and
      [PollerSpec] what they promise; both implementations are instances.
    - [EventLoop] (net/EventLoop.h, .cc): [LoopChannels] registers channels over any
      [PollerSpec]; [Functors] is the queue of functors, [wakeup] and [quit].
      [EventLoopThread] (net/EventLoopThread.h, .cc): the owner and the thread as a
      transition system of which all reachable states are computed.
      [EventLoopThreadPool] (net/EventLoopThreadPool.h, .cc).
    - [Sockets] (net/InetAddress.h, .cc, SocketsOps.cc): addresses, and the wrappers of
      system calls that decide about errors.
    - [TcpConnection], [Connector], [TcpClient] (over the whole of [Connector]),
      [TcpServer] (with [Acceptor]): the classes of the same names under net/. A handler of the loop is
      one step; a call of another thread on a [TcpConnection] is split into the test of [state_], the
      setting of it and the posting, since the code has no compare-and-swap.
    - [Codec] (net/protobuf/ProtobufCodecLite.h, .cc), [Http] (net/http/): protocols over
      [Buffer]. [Rpc] (net/protorpc/RpcChannel.h, .cc, RpcServer.cc): a caller and a
      callee, with the steps of [CallMethod] in many threads. [Inspector]
      (net/inspect/Inspector.h, .cc): commands behind the HTTP server.
    - The programs under src/muduo/examples. They use a connection through [Conn] (what was
      sent, and whether it is up; a string is sent with a length that is an [int]); [Lines] takes lines from a [Buffer], and [Framing] says
      once for all codecs what it means to handle every message of a stream
      once and in order, however its bytes are cut and whatever happens in between.
      [DancingLinks], [Sudoku] (sudoku/sudoku.cc): the solver with its linked lists;
      [SudokuStat] (sudoku/stat.h, percentile.h); [SudokuServer] (sudoku/server_*.cc).
      [MemcacheStore], [Memcache], [MemcacheServer] (memcached/server): items and shards, the session
      that reads commands, all sessions over one store, on one IO thread. [Packet], [Multiplexer], [Demux], [Multiplex]
      (multiplexer/multiplexer_simple.cc, demux.cc): packets, both programs, and the two of them connected.
      [Hub], [HubRun] (hub/hub.cc, pubsub.cc, codec.cc): topics and subscribers. [IdleWheel]
      (idleconnection/echo.cc): the timing wheel. [ProtoCodec] (protobuf/codec): the codec with
      type names and both dispatchers. [FastCgi] (fastcgi). [Balancer] (protobuf/rpcbalancer): both RPC
      balancers over one interface of messages. [Chat] (asio/chat): the codec and four servers, the threaded ones as
      transition systems. [IdleList] (idleconnection/sortedlist.cc). [FileTransfer] (filetransfer). [Socks4a]
      (socks4a/socks4a.cc).

    ** What the theorems show

    - Buffer: every sequence of operations is that of a byte queue, and stops on an assertion where
      the queue rejects one ([buffer_refines_queue]); [readFd] appends what was read ([readFd_appends]);
      integers survive the network byte order ([int_roundtrip]); [shrink] loses
      data from 2^32 bytes on ([shrink_truncates]).
    - Codec and HTTP: any cutting of a stream of encoded messages is decoded to the
      same messages ([codec_stream_roundtrip]), no input makes the decoder fail or
      loop ([onMessage_total]) and bad frames are reported with their error
      ([onMessage_rejects]); a printed request parses back
      ([parseRequest_roundtrip]), in any chunks ([parseRequest_chunks]), the parser
      always returns ([parseRequest_total]) and the server answers
      ([onMessage_answers]); a rejected request line makes the next bytes
      fail an assertion ([onMessage_bad_request_asserts]).
    - TimerQueue, with a wall clock that can be set and the clock of the descriptor: no run of the queue fails
      an assertion or touches a freed timer ([timerqueue_safe]), except that another thread reads the number of the timer
      it has added too late ([late_read_dangles]); due timers run once, in order ([handleRead_runs_due]);
      a timer that is in the queue when it is cancelled never runs again ([cancelled_never_runs]), one that a callback
      cancels is not inserted again ([cancel_from_callback]), and a cancel that overtakes the addition another thread
      posted is lost ([early_cancel_is_lost]); the descriptor is armed whenever a timer is pending, and in time
      ([timerfd_armed]) unless the wall clock is set forward ([forward_step_delays]).
    - EventLoop: over any poller that keeps the contract, the poller monitors what
      each channel asks for, if every operation is allowed where it comes ([channels_are_monitored]), so poll and epoll agree
      ([pollers_equivalent]), except for a channel that is removed without ever
      being enabled ([disable_remove_diverges]); queued functors run once and in
      order ([functors_fifo]) and no wakeup is lost ([no_lost_wakeup]).
      Connections are spread round robin ([round_robin]). A loop in its own thread is
      there when [startLoop] returns ([startLoop_returns]); but a quit
      that comes before [loop()] is lost ([early_destructor_hangs]), a loop that ends early
      leaves [startLoop] waiting ([startLoop_can_hang]), and [quit()] can touch a
      loop that is gone ([quit_can_outlive_loop]).
    - TcpConnection, as long as no other thread sets [state_] after the loop has closed the connection: nothing is lost or
      reordered between [send] and the kernel ([stream_in_order]), the half close waits for the output and is not
      forgotten ([shutdown_after_flush]) unless the peer hangs up ([hang_up_loses_output]), the callbacks follow the
      life cycle ([lifecycle]); with such a race they run twice ([late_set_closes_twice]). A writable socket is flushed
      ([handleWrite_flushes]); a half-closed connection cannot be destroyed ([destroy_half_closed_fails]).
    - TcpServer: every connection is established, removed and destroyed once
      ([connections_accounted]), but destroying a server with a half-closed one fails an assertion ([destroy_half_closed]).
      Connector: no assertion fails when it is used properly and no retry timer fires while a reset is queued
      ([connector_safe], [early_timer_asserts]), no socket is leaked or closed
      twice ([sockets_accounted]), retries back off ([retry_backoff]); a stale
      retry timer fails an assertion ([stale_retry_asserts]). TcpClient: under conditions on when it connects and is
      destroyed each socket the connector gives becomes one connection, which is destroyed once
      ([client_connections], [destroy_asserts], [destroy_dangles]); connecting again after a connection closed fails an
      assertion ([reconnect_asserts]).
    - Rpc: every call is answered with the answer to its own request, at most
      once ([rpc_calls_match]), and all of them come to an end ([rpc_calls_end]); a
      response without content ends the process ([empty_response_asserts]).
      Inspector: requests run what is registered ([inspector_serves]). Sockets: an
      address prints as the text it was made from ([address_roundtrip]).
    - Threads: the queues are first in, first out and leave no thread waiting for what
      is there ([bounded_queue_fifo], [bounded_queue_progress],
      [blocking_queue_correct]); the latch opens for everyone and not early
      ([latch_correct]); starting and joining a thread is safe
      ([thread_start_join]); the pool runs each task once
      ([pool_tasks], [pool_wakeups]) and its [stop] returns
      ([pool_stop_returns]), but a thread that waits for a slot then waits for
      ever ([stop_leaves_run_waiting]).
    - Logging: [convert] and [convertHex] print like the C library
      ([convert_prints]), a stream never overruns its buffer ([stream_appends]);
      the asynchronous log writes every line shorter than a buffer, in order ([log_in_order]), but drops longer ones
      ([oversize_line_dropped]) and can
      lose the last ones when it is stopped ([stop_loses_lines]); the files a log
      rolls through keep every line whole ([log_files_keep_lines]); every statement
      logs one line, whose time is right in spite of the cache ([log_lines]) unless the zone
      is changed ([stale_after_setTimeZone]).
    - Date: the Julian day conversions count the days of the calendar and are inverse
      to each other ([julian_counts_days]). TimeZone: conversions to and from UTC and
      local time are inverse ([utc_roundtrip], [local_time_roundtrip]), and a zone
      file is read back as written ([tzfile_roundtrip]), but a file that is
      none makes a zone that claims to be valid ([bad_file_is_valid]).
    - Examples: [solveSudoku] returns a solution exactly if there is one
      ([solveSudoku_correct]); the servers answer every request exactly once, or refuse it, or have it in
      the queue, and the connection is shut down when 10 MB of output wait ([requests_answered], [basic_answers], [pool_answers], [hybrid_answers]), and their statistics have the
      responses of each second ([stat_window]) but are not all reset ([reset_keeps_dropped]). The memcached sessions of many
      connections have the effect of their commands one after the other on one map
      ([sessions_linearize]) if there is one IO thread; with several a [get] of two keys is not atomic ([get_of_two_keys]). The multiplexer and the demultiplexer give each client a
      connection of its own ([multiplex_tunnels]). The hub sends each publication to the subscribers
      of its topic, in order ([hub_delivers]). The timing wheel closes the connections that are idle and no
      others ([wheel_closes_idle]). Messages reach the callback of their type ([protobuf_dispatched]). FastCGI
      requests in any records reach the application ([fastcgi_requests]), but requests that arrive
      together become one ([pipelined_requests_merge]) and large responses are sent without
      records ([respond_large]). The RPC balancer gives clients exactly the answers to their own requests,
      except to those that come while no backend is connected ([balancer_transparent]), and the one that changes bytes does what the one that parses does
      ([raw_equivalent]). The chat servers send each message to all ([chat_broadcasts]), never use a list that
      is freed or changed under them ([cow_broadcasts]), and with a set per loop keep one order for all
      ([chat_total_order]). The sorted list closes idle connections in spite of its two clocks ([list_closes_idle]). The
      file servers send the whole file (one of them only up to two gigabytes: [download_large]; [download_ok], [download2_complete], [download3_complete]); one of them can read a closed
      file ([download2_reads_closed]). The SOCKS proxy understands requests in any pieces ([socks_granted]).

    ** Bounds and fuel

    Loops of the source that are not structural take fuel: the receive loops of
    [Codec] and [Http] one round per byte of the buffer and one more (each round
    consumes a byte), the digit loops twenty rounds for 64 bits in decimal and
    sixteen in hexadecimal, the thread pool one round per thread, the loops of the examples'
    codecs one round per readable byte and one more, the sudoku solver a number of rounds that
    is shown to be enough for every puzzle. The theorems
    about these functions state that they return, so that [NoFuel] does not occur.
    Sizes are bounded where the code is: buffers below [max_size], a connection's
    traffic below 2^62 bytes, fewer than 2^31 connections per server, years from
    -4799 to 1000000; in the examples the traffic of a memcached connection is below 2^30 bytes, of the
    multiplexer and FastCGI at most 2^50, of the hub and the wheel at most 2^60; a publication is
    shorter than 2^31 bytes, and one [readv] transfers at most 0x7ffff000.

    ** Not modelled

    System calls and their wrappers (Socket, ProcessInfo, the rest of SocketsOps),
    C++ idioms without logic of their own (Singleton, ThreadLocal, WeakCallback,
    Exception), the commands of the inspector that read /proc, the zlib and protobuf
    adapters, contrib and tests. Of the examples, those that only call the library (echo, discard,
    time, finger, pingpong), print what /proc has (procmon), measure (the load tests and
    benchmarks) or wrap another library (curl, cdns, zeromq), and the tunnel of the SOCKS proxy. *)

From Stdlib Require Export ZArith Lia.
From Stdlib Require Strings.Byte.
From stdpp Require Export base list gmap strings numbers relations.

Declare Scope muduo_scope.
Delimit Scope muduo_scope with muduo.

Open Scope Z_scope.

(** ** Outcomes

    A C++ operation either returns, or leaves the normal path: an [assert]
    fails, a container throws, memory is accessed out of range, or
    [operator new] fails, or [LOG_FATAL]/[LOG_SYSFATAL] aborts the process. *)

Inductive failure :=
  | AssertFailed
  | LengthError
  | OutOfRange
  | LogFatal
  | BadAlloc
  (** the fuel of a modelled loop ran out; every use is shown not to *)
  | NoFuel.

Inductive outcome (A : Type) :=
  | Ret (a : A)
  | Stop (f : failure).

Arguments Ret {A} a.
Arguments Stop {A} f.

Definition obind {A B} (m : outcome A) (k : A -> outcome B) : outcome B :=
  match m with
  | Ret a => k a
  | Stop f => Stop f
  end.

Definition omap {A B} (g : A -> B) (m : outcome A) : outcome B :=
  obind m (fun a => Ret (g a)).

(** [assert(c); k] *)
Definition check {A} (c : bool) (k : outcome A) : outcome A :=
  if c then k else Stop AssertFailed.

(** [assertInLoopThread(); k]: the log line of a call from another thread is fatal. *)
Definition assertInLoopThread {A} (inLoop : bool) (k : outcome A) : outcome A :=
  if inLoop then k else Stop LogFatal.

Notation "'let*' x ':=' m 'in' k" := (obind m (fun x => k))
  (at level 10, x pattern, m at level 100, k at level 200) : muduo_scope.
Notation "'assert*' c 'in' k" := (check c k)
  (at level 10, c at level 100, k at level 200) : muduo_scope.
Notation "'inloop*' c 'in' k" := (assertInLoopThread c k)
  (at level 10, c at level 100, k at level 200) : muduo_scope.

Open Scope muduo_scope.

Lemma obind_ret {A B} (m : outcome A) (k : A -> outcome B) (b : B) :
  obind m k = Ret b <-> exists a, m = Ret a /\ k a = Ret b.
Proof. destruct m; cbn; split; intros H; [eauto | by destruct H as (? & [= <-] & ?) | done | by destruct H as (? & ? & ?)]. Qed.

Lemma obind_assoc {A B C} (m : outcome A) (k : A -> outcome B) (h : B -> outcome C) :
  obind (obind m k) h = obind m (fun a => obind (k a) h).
Proof. by destruct m. Qed.

Lemma check_true {A} (c : bool) (k : outcome A) : c = true -> check c k = k.
Proof. by intros ->. Qed.

Lemma check_ret {A} (c : bool) (k : outcome A) (a : A) :
  check c k = Ret a <-> c = true /\ k = Ret a.
Proof. destruct c; cbn; split; intros H; [done | by destruct H | done | by destruct H]. Qed.

Definition returns {A} (m : outcome A) : Prop := exists a, m = Ret a.

(** ** Machine integers

    A [w]-bit integer is a [Z]; [wrap] and [swrap] are the conversions to the
    unsigned and the two's complement signed type of width [w]. *)

Definition wrap (w : Z) (x : Z) : Z := x mod 2 ^ w.
Definition swrap (w : Z) (x : Z) : Z := (x + 2 ^ (w - 1)) mod 2 ^ w - 2 ^ (w - 1).

Abbreviation u8 := (wrap 8).
Abbreviation u16 := (wrap 16).
Abbreviation u32 := (wrap 32).
Abbreviation u64 := (wrap 64).
Abbreviation i8 := (swrap 8).
Abbreviation i16 := (swrap 16).
Abbreviation i32 := (swrap 32).
Abbreviation i64 := (swrap 64).

Lemma wrap_range w x : 0 <= w -> 0 <= wrap w x < 2 ^ w.
Proof. intros. apply Z.mod_pos_bound. lia. Qed.

Lemma wrap_small w x : 0 <= x < 2 ^ w -> wrap w x = x.
Proof. apply Z.mod_small. Qed.

Lemma wrap_wrap w x : wrap w (wrap w x) = wrap w x.
Proof. apply Zmod_mod. Qed.

Lemma swrap_range w x : 0 < w -> - 2 ^ (w - 1) <= swrap w x < 2 ^ (w - 1).
Proof.
  intros. unfold swrap.
  assert (2 ^ w = 2 * 2 ^ (w - 1)) as E by (rewrite <- Z.pow_succ_r; [f_equal|]; lia).
  pose proof (Z.mod_pos_bound (x + 2 ^ (w - 1)) (2 ^ w)). lia.
Qed.

Lemma swrap_small w x : 0 < w -> - 2 ^ (w - 1) <= x < 2 ^ (w - 1) -> swrap w x = x.
Proof.
  intros. unfold swrap.
  assert (2 ^ w = 2 * 2 ^ (w - 1)) as E by (rewrite <- Z.pow_succ_r; [f_equal|]; lia).
  rewrite Z.mod_small; lia.
Qed.

Lemma swrap_wrap w x : swrap w (wrap w x) = swrap w x.
Proof. unfold swrap, wrap. by rewrite Zplus_mod_idemp_l. Qed.

Lemma wrap_swrap w x : wrap w (swrap w x) = wrap w x.
Proof.
  unfold swrap, wrap. rewrite Zminus_mod_idemp_l. f_equal. lia.
Qed.

Lemma swrap_add w x y : swrap w (swrap w x + y) = swrap w (x + y).
Proof.
  rewrite <- (swrap_wrap w (swrap w x + y)), <- (swrap_wrap w (x + y)). f_equal. unfold wrap.
  rewrite <- (Zplus_mod_idemp_l (swrap w x)), <- (Zplus_mod_idemp_l x). do 2 f_equal. apply wrap_swrap.
Qed.

(** C's [/] and [%] on signed integers truncate toward zero. *)
Notation "x '/c' y" := (Z.quot x y) (at level 40, left associativity) : muduo_scope.
Notation "x '%c' y" := (Z.rem x y) (at level 40, left associativity) : muduo_scope.

(** ** Bytes *)

Abbreviation byte := Byte.byte.

Definition b2z (b : byte) : Z := Z.of_N (Byte.to_N b).
Definition z2b (z : Z) : byte :=
  match Byte.of_N (Z.to_N (z mod 256)) with
  | Some b => b
  | None => Byte.x00
  end.

Definition bytes (s : string) : list byte := String.list_byte_of_string s.
Arguments bytes s%_string.

Lemma b2z_range b : 0 <= b2z b < 256.
Proof. unfold b2z. pose proof (Byte.to_N_bounded b). lia. Qed.

Lemma b2z_z2b z : b2z (z2b z) = z mod 256.
Proof.
  unfold b2z, z2b. pose proof (Z.mod_pos_bound z 256 ltac:(lia)).
  destruct (Byte.of_N (Z.to_N (z mod 256))) as [b|] eqn:E.
  - apply Byte.to_of_N in E. rewrite E. lia.
  - apply Byte.of_N_None_iff in E. lia.
Qed.

Lemma z2b_b2z b : z2b (b2z b) = b.
Proof.
  unfold z2b. rewrite Z.mod_small by apply b2z_range.
  unfold b2z. by rewrite N2Z.id, Byte.of_to_N.
Qed.

Lemma z2b_mod z : z2b (z mod 256) = z2b z.
Proof. unfold z2b. by rewrite Zmod_mod. Qed.

#[export] Instance b2z_inj : Inj (=) (=) b2z.
Proof. intros x y H. by rewrite <- (z2b_b2z x), H, z2b_b2z. Qed.

#[export] Instance byte_eq_dec : EqDecision byte := Byte.byte_eq_dec.

(** ** Lists indexed by [Z] *)

Definition zlen {A} (l : list A) : Z := Z.of_nat (length l).
Definition ztake {A} (n : Z) (l : list A) : list A := take (Z.to_nat n) l.
Definition zdrop {A} (n : Z) (l : list A) : list A := drop (Z.to_nat n) l.
(** The elements of [l] at indices [i <= k < j]. *)
Definition slice {A} (l : list A) (i j : Z) : list A := ztake (j - i) (zdrop i l).
(** [std::copy] of [d] onto the positions [i, i + zlen d) of [l]. *)
Definition overwrite {A} (l : list A) (i : Z) (d : list A) : list A :=
  ztake i l ++ d ++ zdrop (i + zlen d) l.

Lemma zlen_nonneg {A} (l : list A) : 0 <= zlen l.
Proof. unfold zlen. lia. Qed.

Lemma zlen_nil {A} : zlen (@nil A) = 0.
Proof. done. Qed.

Lemma zlen_cons {A} (x : A) l : zlen (x :: l) = 1 + zlen l.
Proof. unfold zlen. cbn [length]. lia. Qed.

Lemma zlen_app {A} (l k : list A) : zlen (l ++ k) = zlen l + zlen k.
Proof. unfold zlen. rewrite length_app. lia. Qed.

Lemma zlen_ztake {A} n (l : list A) : 0 <= n <= zlen l -> zlen (ztake n l) = n.
Proof. unfold zlen, ztake. rewrite length_take. lia. Qed.

Lemma zlen_zdrop {A} n (l : list A) : 0 <= n <= zlen l -> zlen (zdrop n l) = zlen l - n.
Proof. unfold zlen, zdrop. rewrite length_drop. lia. Qed.

Lemma zlen_replicate {A} n (x : A) : 0 <= n -> zlen (replicate (Z.to_nat n) x) = n.
Proof. unfold zlen. rewrite length_replicate. lia. Qed.

Lemma zlen_slice {A} (l : list A) i j :
  0 <= i <= j -> j <= zlen l -> zlen (slice l i j) = j - i.
Proof.
  intros. unfold slice. rewrite zlen_ztake; [lia|]. rewrite zlen_zdrop; lia.
Qed.

Lemma zlen_overwrite {A} (l : list A) i d :
  0 <= i -> i + zlen d <= zlen l -> zlen (overwrite l i d) = zlen l.
Proof.
  intros. pose proof (zlen_nonneg d). unfold overwrite.
  rewrite !zlen_app, zlen_ztake, zlen_zdrop by lia. lia.
Qed.

Lemma zlen_0 {A} (l : list A) : zlen l = 0 -> l = [].
Proof. destruct l; unfold zlen; cbn; [done|lia]. Qed.

Lemma ztake_app_l {A} n (l k : list A) : 0 <= n <= zlen l -> ztake n (l ++ k) = ztake n l.
Proof. unfold zlen, ztake. intros. rewrite take_app_le by lia. done. Qed.

Lemma ztake_app_r {A} n (l k : list A) :
  zlen l <= n -> ztake n (l ++ k) = l ++ ztake (n - zlen l) k.
Proof.
  unfold zlen, ztake. intros. rewrite take_app_ge by lia. f_equal. f_equal. lia.
Qed.

Lemma zdrop_app_l {A} n (l k : list A) : 0 <= n <= zlen l -> zdrop n (l ++ k) = zdrop n l ++ k.
Proof. unfold zlen, zdrop. intros. rewrite drop_app_le by lia. done. Qed.

Lemma zdrop_app_r {A} n (l k : list A) : zlen l <= n -> zdrop n (l ++ k) = zdrop (n - zlen l) k.
Proof. unfold zlen, zdrop. intros. rewrite drop_app_ge by lia. f_equal. lia. Qed.

Lemma ztake_all {A} n (l : list A) : zlen l <= n -> ztake n l = l.
Proof. unfold zlen, ztake. intros. apply take_ge. lia. Qed.

Lemma zdrop_all {A} n (l : list A) : zlen l <= n -> zdrop n l = [].
Proof. unfold zlen, zdrop. intros. apply drop_ge. lia. Qed.

Lemma ztake_0 {A} n (l : list A) : n <= 0 -> ztake n l = [].
Proof. unfold ztake. intros. by rewrite Z2Nat.nonpos. Qed.

Lemma zdrop_0 {A} n (l : list A) : n <= 0 -> zdrop n l = l.
Proof. unfold zdrop. intros. by rewrite Z2Nat.nonpos. Qed.

Lemma ztake_zdrop {A} n (l : list A) : ztake n l ++ zdrop n l = l.
Proof. apply take_drop. Qed.

Lemma zdrop_zdrop {A} n m (l : list A) : 0 <= n -> 0 <= m -> zdrop n (zdrop m l) = zdrop (m + n) l.
Proof. intros. unfold zdrop. rewrite drop_drop. f_equal. lia. Qed.

Lemma ztake_ztake {A} n m (l : list A) : 0 <= n <= m -> ztake n (ztake m l) = ztake n l.
Proof. intros. unfold ztake. rewrite take_take. f_equal. lia. Qed.

Lemma zdrop_ztake {A} n m (l : list A) :
  0 <= n <= m -> zdrop n (ztake m l) = ztake (m - n) (zdrop n l).
Proof.
  intros. unfold zdrop, ztake. rewrite skipn_firstn_comm. f_equal. lia.
Qed.

Lemma slice_split {A} (l : list A) i j :
  0 <= i <= j -> l = ztake i l ++ slice l i j ++ zdrop j l.
Proof.
  intros. unfold slice. rewrite <- (ztake_zdrop i l) at 1. f_equal.
  rewrite <- (ztake_zdrop (j - i) (zdrop i l)) at 1. f_equal.
  rewrite zdrop_zdrop by lia. f_equal. lia.
Qed.

Lemma slice_app {A} (p m q : list A) i j :
  zlen p = i -> zlen m = j - i -> slice (p ++ m ++ q) i j = m.
Proof.
  intros Hp Hm. pose proof (zlen_nonneg p). unfold slice.
  rewrite zdrop_app_r, Hp, Z.sub_diag, zdrop_0 by lia.
  by rewrite ztake_app_l, ztake_all by (pose proof (zlen_nonneg m); lia).
Qed.

Lemma overwrite_app {A} (p m q d : list A) i :
  zlen p = i -> zlen d = zlen m -> overwrite (p ++ m ++ q) i d = p ++ d ++ q.
Proof.
  intros Hp Hd. pose proof (zlen_nonneg p). pose proof (zlen_nonneg d). unfold overwrite.
  rewrite ztake_app_l, ztake_all by lia. f_equal. f_equal.
  rewrite zdrop_app_r by lia. rewrite zdrop_app_r by lia. apply zdrop_0. lia.
Qed.

Lemma slice_slice {A} (l : list A) i j a b :
  0 <= i -> 0 <= a <= b -> b <= j - i -> slice (slice l i j) a b = slice l (i + a) (i + b).
Proof.
  intros. unfold slice. rewrite zdrop_ztake, zdrop_zdrop, ztake_ztake by lia. f_equal. lia.
Qed.

Lemma zdrop_slice {A} (l : list A) i j n :
  0 <= i -> 0 <= n <= j - i -> zdrop n (slice l i j) = slice l (i + n) j.
Proof.
  intros. unfold slice. rewrite zdrop_ztake, zdrop_zdrop by lia. f_equal. lia.
Qed.

Lemma ztake_slice {A} (l : list A) i j n :
  0 <= n <= j - i -> ztake n (slice l i j) = slice l i (i + n).
Proof. intros. unfold slice. rewrite ztake_ztake by lia. f_equal. lia. Qed.

Lemma slice_empty {A} (l : list A) i : slice l i i = [].
Proof. unfold slice. apply ztake_0. lia. Qed.

(** Rewriting of lengths with the side conditions left to [lia]. *)
Create Rewrite HintDb zlist.
#[export] Hint Rewrite @zlen_nil @zlen_cons @zlen_app : zlist.
#[export] Hint Rewrite @zlen_ztake @zlen_zdrop @zlen_replicate @zlen_slice @zlen_overwrite
  using lia : zlist.

(** Adds the non-negativity of every length in sight. *)
Ltac zlen_pos :=
  repeat match goal with
  | |- context [zlen ?l] =>
      lazymatch goal with
      | _ : 0 <= zlen l |- _ => fail
      | _ => pose proof (zlen_nonneg l)
      end
  | _ : context [zlen ?l] |- _ =>
      lazymatch goal with
      | _ : 0 <= zlen l |- _ => fail
      | _ => pose proof (zlen_nonneg l)
      end
  end.

Ltac zlia := zlen_pos; autorewrite with zlist in *; zlen_pos; lia.

(** ** The parts of the C and C++ standard libraries the sources call *)

(** [SIZE_MAX + 1] and the largest size of a [std::vector<char>] or
    [std::string] on a 64-bit target. *)
Definition size_max : Z := 2 ^ 64 - 1.
Definition max_size : Z := 2 ^ 63 - 1.

(** [std::find]: offset of the first element equal to [x], or the length. *)
Fixpoint std_find (x : byte) (l : list byte) : Z :=
  match l with
  | [] => 0
  | y :: l => if decide (x = y) then 0 else 1 + std_find x l
  end.

Fixpoint is_prefix (p l : list byte) : bool :=
  match p, l with
  | [], _ => true
  | _ :: _, [] => false
  | x :: p, y :: l => bool_decide (x = y) && is_prefix p l
  end.

(** [std::search]: offset of the first occurrence of [p], or the length. *)
Fixpoint std_search (p l : list byte) : Z :=
  if is_prefix p l then 0
  else match l with
       | [] => 0
       | _ :: l => 1 + std_search p l
       end.

(** [memchr]: offset of the first [x], or NULL. *)
Definition memchr (x : byte) (l : list byte) : option Z :=
  let i := std_find x l in if decide (i = zlen l) then None else Some i.

(** The sign of [memcmp] on two regions of [n] bytes, compared as unsigned chars. *)
Fixpoint memcmp (l k : list byte) : comparison :=
  match l, k with
  | [], _ | _, [] => Eq
  | x :: l, y :: k => match Z.compare (b2z x) (b2z y) with Eq => memcmp l k | c => c end
  end.

(** [vector<char>::resize] *)
Definition vector_resize (n : Z) (l : list byte) : outcome (list byte) :=
  if decide (n <= max_size)
  then Ret (ztake n l ++ replicate (Z.to_nat (n - zlen l)) Byte.x00)
  else Stop LengthError.

(** Reading [n] bytes from the start of a region, and writing [d] at offset
    [i] of one: undefined behaviour outside the region. *)
Definition load (n : Z) (mem : list byte) : outcome (list byte) :=
  if decide (0 <= n <= zlen mem) then Ret (ztake n mem) else Stop OutOfRange.
Definition store (i : Z) (d mem : list byte) : outcome (list byte) :=
  if decide (0 <= i /\ i + zlen d <= zlen mem) then Ret (overwrite mem i d) else Stop OutOfRange.

(** The C locale's [isspace]. *)
Definition isspace (b : byte) : bool :=
  bool_decide (b2z b = 32) || (bool_decide (9 <= b2z b) && bool_decide (b2z b <= 13)).

Lemma std_find_range x l : 0 <= std_find x l <= zlen l.
Proof.
  induction l as [|y l IH]; cbn; [done|]. rewrite zlen_cons. case_decide; lia.
Qed.

Lemma std_find_before x l : x ∉ ztake (std_find x l) l.
Proof.
  induction l as [|y l IH]; cbn [std_find]; [apply not_elem_of_nil|].
  pose proof (std_find_range x l). case_decide as E; [apply not_elem_of_nil|].
  unfold ztake in *. replace (Z.to_nat (1 + _)) with (S (Z.to_nat (std_find x l))) by lia.
  cbn. by rewrite not_elem_of_cons.
Qed.

Lemma std_find_at x l : std_find x l <> zlen l -> l !! Z.to_nat (std_find x l) = Some x.
Proof.
  induction l as [|y l IH]; cbn [std_find]; [done|].
  rewrite zlen_cons. pose proof (std_find_range x l). case_decide as E; [by subst|].
  intros. replace (Z.to_nat (1 + _)) with (S (Z.to_nat (std_find x l))) by lia.
  cbn. apply IH. lia.
Qed.

Lemma std_find_absent x l : x ∉ l -> std_find x l = zlen l.
Proof.
  induction l as [|y l IH]; cbn; [done|]. rewrite not_elem_of_cons, zlen_cons.
  intros [? ?]. rewrite decide_False, IH by done. lia.
Qed.

Lemma std_find_app x l k : x ∉ l -> std_find x (l ++ x :: k) = zlen l.
Proof.
  induction l as [|y l IH]; cbn; [by rewrite decide_True|].
  rewrite not_elem_of_cons, zlen_cons. intros [? ?]. rewrite decide_False, IH by done. lia.
Qed.

Lemma is_prefix_spec p l : is_prefix p l = true <-> exists k, l = p ++ k.
Proof.
  revert l; induction p as [|x p IH]; intros l; cbn; [split; [by eexists|done]|].
  destruct l as [|y l]; cbn.
  - split; [done|]. by intros (k & ?).
  - rewrite andb_true_iff, bool_decide_eq_true, IH. split.
    + intros [-> (k & ->)]. by exists k.
    + intros (k & [= -> ->]). eauto.
Qed.

Lemma std_search_range p l : 0 <= std_search p l <= zlen l.
Proof.
  induction l as [|y l IH]; cbn; [case_match; unfold zlen; cbn; lia|].
  rewrite zlen_cons. pose proof (zlen_nonneg l). case_match; lia.
Qed.

(** A hit of [std::search] really is an occurrence, and none starts earlier. *)
Lemma std_search_hit p l :
  p <> [] -> std_search p l <> zlen l ->
  exists k, l = ztake (std_search p l) l ++ p ++ k.
Proof.
  intros Hp. induction l as [|y l IH]; cbn [std_search].
  - case_match; done.
  - destruct (is_prefix p (y :: l)) eqn:E.
    + apply is_prefix_spec in E as (k & ->). intros _. by exists k.
    + rewrite zlen_cons. intros H. pose proof (std_search_range p l).
      destruct IH as (k & Hk); [lia|]. exists k.
      unfold ztake in *. replace (Z.to_nat (1 + _)) with (S (Z.to_nat (std_search p l))) by lia.
      cbn. by f_equal.
Qed.

Lemma std_search_first p l i :
  0 <= i < std_search p l -> is_prefix p (zdrop i l) = false.
Proof.
  revert i; induction l as [|y l IH]; intros i; cbn [std_search].
  - case_match; lia.
  - destruct (is_prefix p (y :: l)) eqn:E; [lia|]. intros H.
    destruct (decide (i = 0)) as [->|]; [done|].
    unfold zdrop in *. replace (Z.to_nat i) with (S (Z.to_nat (i - 1))) by lia. cbn.
    apply IH. lia.
Qed.

Lemma load_ok n mem : 0 <= n <= zlen mem -> load n mem = Ret (ztake n mem).
Proof. intros. unfold load. by rewrite decide_True. Qed.

Lemma store_ok i d mem :
  0 <= i -> i + zlen d <= zlen mem -> store i d mem = Ret (overwrite mem i d).
Proof. intros. unfold store. by rewrite decide_True. Qed.

Lemma zdrop_app_eq {A} n (l k : list A) : zlen l = n -> zdrop n (l ++ k) = k.
Proof. intros <-. rewrite zdrop_app_r, Z.sub_diag by lia. by apply zdrop_0. Qed.
Lemma load_app n (l k : list byte) : zlen l = n -> load n (l ++ k) = Ret l.
Proof. intros <-. pose proof (zlen_nonneg l). pose proof (zlen_nonneg k). rewrite load_ok by (rewrite zlen_app; lia). by rewrite ztake_app_l, ztake_all by lia. Qed.

Lemma vector_resize_grow n l :
  zlen l <= n <= max_size ->
  vector_resize n l = Ret (l ++ replicate (Z.to_nat (n - zlen l)) Byte.x00).
Proof. intros. unfold vector_resize. by rewrite decide_True, ztake_all by lia. Qed.
