(* ===== verification/Endian.v ===== *)
(** * Byte order (src/muduo/muduo/net/Endian.h)

    Integers in memory, [htobe*]/[be*toh] for a host of either byte order, and
    the conversions [hostToNetwork*]/[networkToHost*] built on them. *)

From S2P Require Import Prelude.

Inductive endian := LittleEndian | BigEndian.

(** The [n] low-order bytes of [z], least significant first. *)
Fixpoint le_bytes (n : nat) (z : Z) : list byte :=
  match n with
  | O => []
  | S n => z2b z :: le_bytes n (z / 256)
  end.

Fixpoint le_value (l : list byte) : Z :=
  match l with
  | [] => 0
  | b :: l => b2z b + 256 * le_value l
  end.

Definition be_bytes (n : nat) (z : Z) : list byte := rev (le_bytes n z).
Definition be_value (l : list byte) : Z := le_value (rev l).

(** The object representation of an [n]-byte integer, and the unsigned value
    an object representation denotes. *)
Definition int_to_mem (e : endian) (n : nat) (z : Z) : list byte :=
  match e with LittleEndian => le_bytes n z | BigEndian => be_bytes n z end.
Definition int_of_mem (e : endian) (l : list byte) : Z :=
  match e with LittleEndian => le_value l | BigEndian => be_value l end.

(** [htobeNN] and [beNNtoh]: a byte swap on a little-endian host, the identity
    on a big-endian one. *)
Definition bswap (n : nat) (z : Z) : Z := be_value (le_bytes n z).
Definition htobe (e : endian) (n : nat) (z : Z) : Z :=
  match e with LittleEndian => bswap n z | BigEndian => wrap (8 * Z.of_nat n) z end.

Definition hostToNetwork64 (e : endian) (host64 : Z) : Z := htobe e 8 host64.
Definition hostToNetwork32 (e : endian) (host32 : Z) : Z := htobe e 4 host32.
Definition hostToNetwork16 (e : endian) (host16 : Z) : Z := htobe e 2 host16.
Definition networkToHost64 (e : endian) (net64 : Z) : Z := htobe e 8 net64.
Definition networkToHost32 (e : endian) (net32 : Z) : Z := htobe e 4 net32.
Definition networkToHost16 (e : endian) (net16 : Z) : Z := htobe e 2 net16.

(** ** Bytes of an integer and back *)

Lemma pow256_succ n : 2 ^ (8 * Z.of_nat (S n)) = 256 * 2 ^ (8 * Z.of_nat n).
Proof.
  replace (8 * Z.of_nat (S n)) with (8 + 8 * Z.of_nat n) by lia.
  by rewrite Z.pow_add_r by lia.
Qed.

Lemma length_le_bytes n z : length (le_bytes n z) = n.
Proof. revert z; induction n; intros z; cbn; auto. Qed.

Lemma zlen_le_bytes n z : zlen (le_bytes n z) = Z.of_nat n.
Proof. unfold zlen. by rewrite length_le_bytes. Qed.

Lemma zlen_be_bytes n z : zlen (be_bytes n z) = Z.of_nat n.
Proof. unfold zlen, be_bytes. by rewrite length_rev, length_le_bytes. Qed.

Lemma zlen_int_to_mem e n z : zlen (int_to_mem e n z) = Z.of_nat n.
Proof. destruct e; [apply zlen_le_bytes|apply zlen_be_bytes]. Qed.

#[export] Hint Rewrite zlen_le_bytes zlen_be_bytes zlen_int_to_mem : zlist.

Lemma le_value_bytes n z : le_value (le_bytes n z) = wrap (8 * Z.of_nat n) z.
Proof.
  revert z; induction n as [|n IH]; intros z; unfold wrap in *; cbn [le_bytes le_value].
  - cbn. by rewrite Z.mod_1_r.
  - rewrite pow256_succ, IH, b2z_z2b.
    by rewrite Z.rem_mul_r by (lia || (apply Z.pow_pos_nonneg; lia)).
Qed.

Lemma le_value_range l : 0 <= le_value l < 2 ^ (8 * zlen l).
Proof.
  induction l as [|b l IH]; cbn [le_value]; [done|].
  unfold zlen in *. cbn [length]. rewrite pow256_succ. pose proof (b2z_range b). lia.
Qed.

Lemma le_bytes_value l : le_bytes (length l) (le_value l) = l.
Proof.
  induction l as [|b l IH]; cbn [length le_value le_bytes]; [done|].
  f_equal.
  - rewrite <- z2b_mod, (Z.mul_comm 256), Z_mod_plus_full, z2b_mod. apply z2b_b2z.
  - rewrite (Z.mul_comm 256), Z_div_plus_full, (Z.div_small (b2z b)) by (lia || apply b2z_range).
    by rewrite Z.add_0_l.
Qed.

Lemma le_bytes_inj l k : length l = length k -> le_value l = le_value k -> l = k.
Proof. intros Hl E. by rewrite <- (le_bytes_value l), <- (le_bytes_value k), Hl, E. Qed.

Lemma le_bytes_wrap n z : le_bytes n (wrap (8 * Z.of_nat n) z) = le_bytes n z.
Proof.
  apply le_bytes_inj; [by rewrite !length_le_bytes|].
  by rewrite !le_value_bytes, wrap_wrap.
Qed.

Lemma le_bytes_value_n n l : length l = n -> le_bytes n (le_value l) = l.
Proof. intros <-. apply le_bytes_value. Qed.

Lemma length_rev_le_bytes n z : length (rev (le_bytes n z)) = n.
Proof. by rewrite length_rev, length_le_bytes. Qed.

Lemma bswap_wrap n z : wrap (8 * Z.of_nat n) (bswap n z) = bswap n z.
Proof.
  apply wrap_small. unfold bswap, be_value.
  pose proof (le_value_range (rev (le_bytes n z))) as H.
  unfold zlen in H. by rewrite length_rev_le_bytes in H.
Qed.

Lemma htobe_wrap e n z : wrap (8 * Z.of_nat n) (htobe e n z) = htobe e n z.
Proof. destruct e; cbn; [apply bswap_wrap|apply wrap_wrap]. Qed.

Lemma int_of_mem_range e l : 0 <= int_of_mem e l < 2 ^ (8 * zlen l).
Proof.
  destruct e; cbn; [apply le_value_range|].
  unfold be_value. pose proof (le_value_range (rev l)) as H.
  unfold zlen in *. by rewrite length_rev in H.
Qed.

(** Whatever the host's byte order, the memory of [htobe z] holds the bytes of
    [z] most significant first. *)
Lemma int_to_mem_htobe e n z : int_to_mem e n (htobe e n z) = be_bytes n z.
Proof.
  destruct e; cbn.
  - unfold bswap, be_value, be_bytes.
    apply le_bytes_value_n. apply length_rev_le_bytes.
  - unfold be_bytes. by rewrite le_bytes_wrap.
Qed.

Lemma htobe_int_of_mem e n l :
  length l = n -> htobe e n (int_of_mem e l) = be_value l.
Proof.
  intros <-. destruct e; cbn.
  - unfold bswap. by rewrite le_bytes_value.
  - apply wrap_small. apply (int_of_mem_range BigEndian).
Qed.

Lemma be_value_bytes n z : be_value (be_bytes n z) = wrap (8 * Z.of_nat n) z.
Proof. unfold be_value, be_bytes. by rewrite rev_involutive, le_value_bytes. Qed.

Lemma be_bytes_value l : be_bytes (length l) (be_value l) = l.
Proof.
  unfold be_value, be_bytes. rewrite <- (length_rev l), le_bytes_value. apply rev_involutive.
Qed.

Lemma be_bytes_wrap n z : be_bytes n (wrap (8 * Z.of_nat n) z) = be_bytes n z.
Proof. unfold be_bytes. by rewrite le_bytes_wrap. Qed.

Lemma int_to_mem_wrap e n z : int_to_mem e n (wrap (8 * Z.of_nat n) z) = int_to_mem e n z.
Proof. destruct e; [apply le_bytes_wrap|apply be_bytes_wrap]. Qed.

(** [networkToHost] undoes [hostToNetwork] on every value of the width. *)
Lemma htobe_htobe e n z : htobe e n (htobe e n z) = wrap (8 * Z.of_nat n) z.
Proof.
  destruct e; cbn; [|apply wrap_wrap].
  assert (E : le_bytes n (bswap n z) = rev (le_bytes n z)).
  { unfold bswap, be_value. apply le_bytes_value_n, length_rev_le_bytes. }
  unfold bswap at 1. rewrite E. unfold be_value. by rewrite rev_involutive, le_value_bytes.
Qed.
