(* ===== verification/Format.v ===== *)
(** * Decimal formatting

    The integer conversions of [snprintf] that the sources use ([%d], [%0Nd],
    [%Nd], [%zd]), and the reading of decimal digits that inverts them. *)

From S2P Require Import Prelude.

Definition digit (d : Z) : byte := z2b (48 + d).
Definition is_digit (b : byte) : bool := bool_decide (48 <= b2z b <= 57).
Definition minus : byte := Byte.x2d.

(** The decimal digits of [n >= 0], least significant first. *)
Fixpoint udec_rev (fuel : nat) (n : Z) : list byte :=
  match fuel with
  | O => []
  | S fuel => digit (n mod 10) :: (if decide (n / 10 = 0) then [] else udec_rev fuel (n / 10))
  end.

(** One digit per binary digit is more than enough. *)
Definition dec_fuel (n : Z) : nat := S (Z.to_nat (Z.log2 n)).
Definition udec (n : Z) : list byte := rev (udec_rev (dec_fuel n) n).

Definition fmt_d (z : Z) : list byte := if decide (z < 0) then minus :: udec (- z) else udec z.

(** [%0wd] and [%wd] *)
Definition fmt_0d (w : nat) (z : Z) : list byte :=
  if decide (z < 0) then minus :: replicate (w - 1 - length (udec (- z))) (digit 0) ++ udec (- z)
  else replicate (w - length (udec z)) (digit 0) ++ udec z.
Definition fmt_pd (w : nat) (z : Z) : list byte :=
  replicate (w - length (fmt_d z)) Byte.x20 ++ fmt_d z.

(** [snprintf(buf, size, ...)]: what the C string in [buf] holds afterwards. *)
Definition snprintf (size : Z) (s : list byte) : list byte := ztake (size - 1) s.

Fixpoint undec_rev (l : list byte) : Z :=
  match l with
  | [] => 0
  | b :: l => (b2z b - 48) + 10 * undec_rev l
  end.
Definition undec (l : list byte) : Z := undec_rev (rev l).

(** Decimal text with an optional minus sign. *)
Definition parse_d (l : list byte) : Z :=
  match l with
  | [] => 0
  | b :: l' => if decide (b = minus) then - undec l' else undec l
  end.

Lemma b2z_digit d : 0 <= d < 10 -> b2z (digit d) = 48 + d.
Proof. intros. unfold digit. rewrite b2z_z2b, Z.mod_small; lia. Qed.

Lemma is_digit_digit d : 0 <= d < 10 -> is_digit (digit d) = true.
Proof. intros. apply bool_decide_eq_true. rewrite b2z_digit; lia. Qed.

Lemma udec_rev_spec fuel n :
  0 <= n < 2 ^ Z.of_nat fuel -> (0 < fuel)%nat ->
  undec_rev (udec_rev fuel n) = n /\ Forall (fun b => is_digit b = true) (udec_rev fuel n) /\
  udec_rev fuel n <> [].
Proof.
  revert n; induction fuel as [|fuel IH]; intros n Hn Hf; [lia|]. cbn [udec_rev undec_rev].
  pose proof (Z.mod_pos_bound n 10 ltac:(lia)). pose proof (Z.div_mod n 10 ltac:(lia)).
  rewrite b2z_digit by lia. case_decide as D; cbn [undec_rev].
  - split_and!; [lia| |done]. constructor; [|constructor]. apply is_digit_digit. lia.
  - assert (0 <= n / 10) by (apply Z.div_pos; lia).
    rewrite Nat2Z.inj_succ, Z.pow_succ_r in Hn by lia.
    assert (n / 10 < 2 ^ Z.of_nat fuel) by (apply Z.div_lt_upper_bound; lia).
    destruct fuel as [|fuel']; [cbn in *; lia|].
    destruct (IH (n / 10)) as (E & F & _); [lia|lia|]. rewrite E. split_and!; [lia| |done].
    constructor; [|done]. apply is_digit_digit. lia.
Qed.

Lemma dec_fuel_enough n : 0 <= n -> 0 <= n < 2 ^ Z.of_nat (dec_fuel n).
Proof.
  intros H. unfold dec_fuel. rewrite Nat2Z.inj_succ.
  destruct (decide (n = 0)) as [->|]; [done|].
  rewrite Z2Nat.id by apply Z.log2_nonneg. pose proof (Z.log2_spec n). lia.
Qed.

Lemma undec_udec n : 0 <= n -> undec (udec n) = n.
Proof.
  intros H. unfold undec, udec. rewrite rev_involutive.
  apply udec_rev_spec; [by apply dec_fuel_enough|unfold dec_fuel; lia].
Qed.

Lemma udec_digits n : 0 <= n -> Forall (fun b => is_digit b = true) (udec n).
Proof.
  intros H. unfold udec. apply Forall_rev.
  apply udec_rev_spec; [by apply dec_fuel_enough|unfold dec_fuel; lia].
Qed.

Lemma udec_nonempty n : 0 <= n -> exists b l, udec n = b :: l /\ is_digit b = true.
Proof.
  intros H. pose proof (udec_digits n H) as F. destruct (udec n) as [|b l] eqn:E.
  - exfalso. unfold udec in E. apply (f_equal (@rev byte)) in E. rewrite rev_involutive in E. cbn in E. done.
  - apply Forall_cons in F as [F _]. by exists b, l.
Qed.

(** A number below [10^k] takes at most [k] digits. *)
Lemma udec_rev_length fuel n k :
  0 <= n < 10 ^ Z.of_nat k -> (0 < k)%nat -> (length (udec_rev fuel n) <= k)%nat.
Proof.
  revert fuel n; induction k as [|k IH]; intros fuel n H Hk; [lia|].
  destruct fuel as [|fuel]; cbn; [lia|]. case_decide as D; cbn; [lia|].
  rewrite Nat2Z.inj_succ, Z.pow_succ_r in H by lia.
  assert (0 <= n / 10) by (apply Z.div_pos; lia).
  assert (n / 10 < 10 ^ Z.of_nat k) by (apply Z.div_lt_upper_bound; lia).
  destruct k as [|k']; [cbn in *; lia|]. apply le_n_S, IH; lia.
Qed.

Lemma udec_length n k : 0 <= n < 10 ^ Z.of_nat k -> (0 < k)%nat -> (length (udec n) <= k)%nat.
Proof. intros. unfold udec. rewrite length_rev. by apply udec_rev_length. Qed.

Lemma digit_not_minus b : is_digit b = true -> b <> minus.
Proof. intros H ->. by vm_compute in H. Qed.

Lemma parse_fmt_d z : parse_d (fmt_d z) = z.
Proof.
  unfold fmt_d. case_decide; unfold parse_d.
  - rewrite decide_True by done. rewrite undec_udec; lia.
  - destruct (udec_nonempty z) as (b & l & E & D); [lia|]. rewrite E.
    rewrite decide_False by (by apply digit_not_minus). rewrite <- E. apply undec_udec. lia.
Qed.

Lemma undec_rev_zeros n l : undec_rev (l ++ replicate n (digit 0)) = undec_rev l.
Proof.
  induction l as [|b l IH]; cbn; [|by rewrite IH].
  induction n as [|n IH]; cbn; [done|]. by rewrite IH.
Qed.

Lemma undec_zeros n l : undec (replicate n (digit 0) ++ l) = undec l.
Proof.
  unfold undec. rewrite rev_app_distr.
  replace (rev (replicate n (digit 0))) with (replicate n (digit 0)); [apply undec_rev_zeros|].
  induction n as [|n IH]; cbn [replicate rev]; [done|]. rewrite <- IH.
  by rewrite <- replicate_S_end.
Qed.

Lemma fmt_0d_length w z : 0 <= z < 10 ^ Z.of_nat w -> (0 < w)%nat -> length (fmt_0d w z) = w.
Proof.
  intros H Hw. unfold fmt_0d. rewrite decide_False by lia. rewrite length_app, length_replicate.
  pose proof (udec_length z w H Hw). lia.
Qed.

Lemma undec_fmt_0d w z : 0 <= z -> undec (fmt_0d w z) = z.
Proof. intros H. unfold fmt_0d. rewrite decide_False by lia. rewrite undec_zeros. by apply undec_udec. Qed.

(** A number read digit by digit, as the C library does *)
Lemma undec_fold l : fold_left (fun a d => a * 10 + (b2z d - 48)) l 0 = undec l.
Proof.
  unfold undec. induction l as [|d l IH] using rev_ind; [done|]. rewrite fold_left_app, rev_app_distr. cbn [fold_left rev app undec_rev]. lia.
Qed.
Lemma digit_plain b : is_digit b = true -> isspace b = false /\ b <> minus /\ b <> Byte.x2b.
Proof.
  intros H. apply bool_decide_eq_true in H. split_and!.
  - apply not_true_iff_false. unfold isspace. rewrite orb_true_iff, andb_true_iff, !bool_decide_eq_true. lia.
  - intros ->. assert (b2z minus = 45) by done. lia.
  - intros ->. assert (b2z Byte.x2b = 43) by done. lia.
Qed.
