(* ===== verification/StringPiece.v ===== *)
(** * StringPiece (src/muduo/muduo/base/StringPiece.h)

    A pointer and an [int] length into memory owned by somebody else. The
    pointer is modelled by the bytes that may be read from it ([NULL] by none),
    so an access past them is an [OutOfRange]. *)

From S2P Require Import Prelude.

Record StringPiece := mkStringPiece {
  ptr_ : list byte;
  length_ : Z
}.

Definition sp_empty_ctor : StringPiece := mkStringPiece [] 0.
(** From a [string]: [length_(static_cast<int>(str.size()))]. *)
Definition sp_of_string (s : list byte) : StringPiece := mkStringPiece s (i32 (zlen s)).
(** From a NUL-terminated [const char*]: [mem] is the memory from [str] on. *)
Definition strlen (mem : list byte) : outcome Z :=
  match memchr Byte.x00 mem with Some n => Ret n | None => Stop OutOfRange end.
Definition sp_of_cstr (mem : list byte) : outcome StringPiece :=
  let* n := strlen mem in Ret (mkStringPiece mem (i32 n)).
Definition sp_of_ptr (offset : list byte) (len : Z) : StringPiece := mkStringPiece offset len.

Definition sp_data (s : StringPiece) : list byte := ptr_ s.
Definition sp_size (s : StringPiece) : Z := length_ s.
Definition sp_empty (s : StringPiece) : bool := bool_decide (length_ s = 0).
Definition sp_clear (s : StringPiece) : StringPiece := mkStringPiece [] 0.
Definition sp_set (buffer : list byte) (len : Z) (s : StringPiece) : StringPiece :=
  mkStringPiece buffer len.

Definition sp_at (s : StringPiece) (i : Z) : outcome byte :=
  match (if decide (0 <= i) then ptr_ s !! Z.to_nat i else None) with
  | Some b => Ret b
  | None => Stop OutOfRange
  end.

Definition remove_prefix (n : Z) (s : StringPiece) : StringPiece :=
  mkStringPiece (zdrop n (ptr_ s)) (i32 (length_ s - n)).
Definition remove_suffix (n : Z) (s : StringPiece) : StringPiece :=
  mkStringPiece (ptr_ s) (i32 (length_ s - n)).

(** [memcmp(ptr_, x.ptr_, n)]: both regions must be readable. *)
Definition sp_memcmp (s x : StringPiece) (n : Z) : outcome comparison :=
  let* a := load n (ptr_ s) in
  let* b := load n (ptr_ x) in
  Ret (memcmp a b).

Definition sp_eq (s x : StringPiece) : outcome bool :=
  if decide (length_ s = length_ x) then
    let* c := sp_memcmp s x (length_ s) in
    Ret (match c with Eq => true | _ => false end)
  else Ret false.
Definition sp_ne (s x : StringPiece) : outcome bool := omap negb (sp_eq s x).

(** [STRINGPIECE_BINARY_PREDICATE(cmp, auxcmp)] *)
Definition sp_binary_predicate (cmp : Z -> Z -> bool) (auxcmp : comparison -> bool)
    (s x : StringPiece) : outcome bool :=
  let* r := sp_memcmp s x (if decide (length_ s < length_ x) then length_ s else length_ x) in
  Ret (auxcmp r || (match r with Eq => true | _ => false end && cmp (length_ s) (length_ x))).

Definition is_lt (c : comparison) : bool := match c with Lt => true | _ => false end.
Definition is_gt (c : comparison) : bool := match c with Gt => true | _ => false end.

Definition sp_lt := sp_binary_predicate Z.ltb is_lt.
Definition sp_le := sp_binary_predicate Z.leb is_lt.
Definition sp_ge := sp_binary_predicate Z.geb is_gt.
Definition sp_gt := sp_binary_predicate Z.gtb is_gt.

(** The sign of [compare]'s result. *)
Definition sp_compare (s x : StringPiece) : outcome comparison :=
  let* r := sp_memcmp s x (if decide (length_ s < length_ x) then length_ s else length_ x) in
  Ret (match r with
       | Eq => if decide (length_ s < length_ x) then Lt
               else if decide (length_ s > length_ x) then Gt else Eq
       | _ => r
       end).

(** [string(data(), size())]: the [int] size converts to [size_t]. *)
Definition as_string (s : StringPiece) : outcome (list byte) :=
  let n := u64 (length_ s) in
  if decide (n <= max_size) then load n (ptr_ s) else Stop LengthError.

Definition starts_with (s x : StringPiece) : outcome bool :=
  if decide (length_ s >= length_ x) then
    let* c := sp_memcmp s x (length_ x) in
    Ret (match c with Eq => true | _ => false end)
  else Ret false.

(** ** Well-formed pieces and what they denote *)

Definition sp_wf (s : StringPiece) : Prop := 0 <= length_ s <= zlen (ptr_ s) /\ length_ s < 2 ^ 31.
Definition sp_chars (s : StringPiece) : list byte := ztake (length_ s) (ptr_ s).

(** Lexicographic order on unsigned bytes, a proper prefix being smaller. *)
Fixpoint lex (l k : list byte) : comparison :=
  match l, k with
  | [], [] => Eq
  | [], _ :: _ => Lt
  | _ :: _, [] => Gt
  | x :: l, y :: k => match Z.compare (b2z x) (b2z y) with Eq => lex l k | c => c end
  end.

Lemma sp_chars_len s : sp_wf s -> zlen (sp_chars s) = length_ s.
Proof. intros [? ?]. apply zlen_ztake. lia. Qed.

Lemma memcmp_Eq l k : length l = length k -> memcmp l k = Eq <-> l = k.
Proof.
  revert k; induction l as [|x l IH]; intros [|y k] Hl; cbn; try done.
  injection Hl as Hl. destruct (Z.compare_spec (b2z x) (b2z y)) as [E|E|E].
  - apply (inj b2z) in E as ->. rewrite IH by done. by split; [intros ->|intros [=]].
  - split; [done|]. intros [= -> _]. lia.
  - split; [done|]. intros [= -> _]. lia.
Qed.

(** [memcmp] over the common length, then the lengths, is the lexicographic
    order. *)
Lemma lex_memcmp l k :
  lex l k = match memcmp (take (length l `min` length k) l) (take (length l `min` length k) k) with
            | Eq => Nat.compare (length l) (length k)
            | c => c
            end.
Proof.
  revert k; induction l as [|x l IH]; intros [|y k]; cbn; try done.
  by destruct (Z.compare (b2z x) (b2z y)).
Qed.

Lemma lex_refl l : lex l l = Eq.
Proof. induction l; cbn; [done|]. by rewrite Z.compare_refl. Qed.

Lemma lex_Eq l k : lex l k = Eq <-> l = k.
Proof.
  split; [|intros ->; apply lex_refl].
  revert k; induction l as [|x l IH]; intros [|y k]; cbn; try done.
  destruct (Z.compare_spec (b2z x) (b2z y)) as [E|E|E]; try done.
  apply (inj b2z) in E as ->. intros H. by f_equal; apply IH.
Qed.

Lemma lex_antisym l k : lex k l = CompOpp (lex l k).
Proof.
  revert k; induction l as [|x l IH]; intros [|y k]; cbn; try done.
  rewrite (Z.compare_antisym (b2z x) (b2z y)).
  destruct (Z.compare (b2z x) (b2z y)); cbn; auto.
Qed.

Lemma lex_trans l k m : lex l k = Lt -> lex k m = Lt -> lex l m = Lt.
Proof.
  revert k m; induction l as [|x l IH]; intros [|y k] [|z m]; cbn; try done.
  destruct (Z.compare_spec (b2z x) (b2z y)), (Z.compare_spec (b2z y) (b2z z)),
    (Z.compare_spec (b2z x) (b2z z)); intros; (done || lia || eauto).
Qed.

Lemma sp_memcmp_ok s x n :
  0 <= n -> n <= zlen (ptr_ s) -> n <= zlen (ptr_ x) ->
  sp_memcmp s x n = Ret (memcmp (ztake n (ptr_ s)) (ztake n (ptr_ x))).
Proof. intros. unfold sp_memcmp. by rewrite !load_ok by lia. Qed.

(** The common computation of [compare] and the four predicates. *)
Lemma sp_memcmp_min s x :
  sp_wf s -> sp_wf x ->
  exists r,
    sp_memcmp s x (if decide (length_ s < length_ x) then length_ s else length_ x) = Ret r /\
    lex (sp_chars s) (sp_chars x) =
      match r with Eq => Z.compare (length_ s) (length_ x) | c => c end.
Proof.
  intros Hs Hx. pose proof Hs as [? ?]. pose proof Hx as [? ?].
  eexists. rewrite sp_memcmp_ok by (case_decide; lia). split; [done|].
  rewrite lex_memcmp. pose proof (sp_chars_len s Hs) as Ls. pose proof (sp_chars_len x Hx) as Lx.
  unfold zlen in *.
  replace (Nat.compare (length (sp_chars s)) (length (sp_chars x)))
    with (Z.compare (length_ s) (length_ x)) by (rewrite <- Ls, <- Lx; apply Nat2Z.inj_compare).
  set (n := if decide (length_ s < length_ x) then length_ s else length_ x).
  assert (E : (length (sp_chars s) `min` length (sp_chars x))%nat = Z.to_nat n)
    by (unfold n; case_decide; lia).
  assert (0 <= n <= length_ s /\ n <= length_ x) as [? ?] by (unfold n; case_decide; lia).
  rewrite E. change (take (Z.to_nat n) ?l) with (ztake n l). unfold sp_chars.
  rewrite !ztake_ztake by lia. by destruct (memcmp _ _).
Qed.

Lemma sp_eq_ok s x :
  sp_wf s -> sp_wf x -> sp_eq s x = Ret (bool_decide (sp_chars s = sp_chars x)).
Proof.
  intros Hs Hx. unfold sp_eq. case_decide as E.
  - pose proof Hs as [? ?]. pose proof Hx as [? ?]. rewrite sp_memcmp_ok by lia. cbn.
    unfold sp_chars. rewrite <- E.
    assert (length (ztake (length_ s) (ptr_ s)) = length (ztake (length_ s) (ptr_ x))) as HL.
    { apply Nat2Z.inj. change (zlen (ztake (length_ s) (ptr_ s)) = zlen (ztake (length_ s) (ptr_ x))).
      rewrite !zlen_ztake by lia. done. }
    pose proof (memcmp_Eq _ _ HL) as M.
    case_bool_decide as D; [by rewrite (proj2 M)|].
    destruct (memcmp _ _) eqn:R; [|done..]. exfalso. apply D. by apply M.
  - rewrite bool_decide_eq_false_2; [done|].
    intros EQ. apply E. rewrite <- (sp_chars_len s), <- (sp_chars_len x), EQ; done.
Qed.

(** Shared by the properties of the comparison operators: each is the
    lexicographic order on the characters. *)
Lemma sp_predicates_ok s x :
  sp_wf s -> sp_wf x ->
  let c := lex (sp_chars s) (sp_chars x) in
  sp_compare s x = Ret c /\
  sp_lt s x = Ret (is_lt c) /\ sp_le s x = Ret (negb (is_gt c)) /\
  sp_gt s x = Ret (is_gt c) /\ sp_ge s x = Ret (negb (is_lt c)).
Proof.
  intros Hs Hx. cbn. destruct (sp_memcmp_min s x Hs Hx) as (r & E & L).
  unfold sp_compare, sp_lt, sp_le, sp_gt, sp_ge, sp_binary_predicate. rewrite E, L. cbn.
  rewrite Z.geb_leb, Z.gtb_ltb.
  destruct r; cbn; repeat split; try done.
  all: destruct (Z.compare_spec (length_ s) (length_ x)); cbn; repeat case_decide; try done; try lia.
  all: f_equal; lia.
Qed.

(** [remove_prefix] and [remove_suffix] drop characters from the two ends. *)
Lemma remove_prefix_ok n s :
  sp_wf s -> 0 <= n <= length_ s ->
  sp_wf (remove_prefix n s) /\ sp_chars (remove_prefix n s) = zdrop n (sp_chars s).
Proof.
  intros [? ?] ?. unfold sp_wf, sp_chars, remove_prefix. cbn.
  rewrite swrap_small, zlen_zdrop, zdrop_ztake by lia. split; [lia|done].
Qed.

Lemma remove_suffix_ok n s :
  sp_wf s -> 0 <= n <= length_ s ->
  sp_wf (remove_suffix n s) /\ sp_chars (remove_suffix n s) = ztake (length_ s - n) (sp_chars s).
Proof.
  intros [? ?] ?. unfold sp_wf, sp_chars, remove_suffix. cbn.
  rewrite swrap_small, ztake_ztake by lia. split; [lia|done].
Qed.

Lemma as_string_ok s : sp_wf s -> as_string s = Ret (sp_chars s).
Proof.
  intros [? ?]. unfold as_string. rewrite wrap_small by lia.
  rewrite decide_True by (unfold max_size; lia). by rewrite load_ok by lia.
Qed.

Lemma sp_of_string_wf l : zlen l < 2 ^ 31 -> sp_wf (sp_of_string l) /\ sp_chars (sp_of_string l) = l.
Proof.
  intros. pose proof (zlen_nonneg l). unfold sp_wf, sp_chars, sp_of_string. cbn.
  rewrite swrap_small by lia. split; [lia|]. apply ztake_all. lia.
Qed.

Lemma starts_with_ok s x :
  sp_wf s -> sp_wf x -> starts_with s x = Ret (is_prefix (sp_chars x) (sp_chars s)).
Proof.
  intros Hs Hx. pose proof Hs as [? ?]. pose proof Hx as [? ?]. unfold starts_with.
  case_decide as E.
  - rewrite sp_memcmp_ok by lia. cbn. f_equal.
    assert (HL : length (ztake (length_ x) (ptr_ s)) = length (ztake (length_ x) (ptr_ x))).
    { apply Nat2Z.inj. change (zlen (ztake (length_ x) (ptr_ s)) = zlen (ztake (length_ x) (ptr_ x))).
      rewrite !zlen_ztake by lia. done. }
    pose proof (memcmp_Eq _ _ HL) as M. unfold sp_chars.
    assert (P : is_prefix (ztake (length_ x) (ptr_ x)) (ztake (length_ s) (ptr_ s)) = true
              <-> ztake (length_ x) (ptr_ s) = ztake (length_ x) (ptr_ x)).
    { rewrite is_prefix_spec. split.
      - intros (k & Ek). rewrite <- (ztake_ztake (length_ x) (length_ s)) by lia. rewrite Ek.
        rewrite ztake_app_l, ztake_ztake by (rewrite ?zlen_ztake; lia). done.
      - intros Ek. exists (zdrop (length_ x) (ztake (length_ s) (ptr_ s))).
        rewrite <- Ek, <- (ztake_ztake (length_ x) (length_ s)) by lia. symmetry. apply ztake_zdrop. }
    destruct (memcmp _ _) eqn:R; destruct (is_prefix _ _); try done; exfalso; naive_solver.
  - destruct (is_prefix _ _) eqn:P; [|done]. apply is_prefix_spec in P as (k & Ek).
    apply (f_equal zlen) in Ek. rewrite zlen_app, !sp_chars_len in Ek by done.
    pose proof (zlen_nonneg k). lia.
Qed.
