(* ===== verification/StdMap.v ===== *)
(** * std::map<string, V>

    The ordered map with byte-string keys that the sources use for headers:
    an association list sorted by the lexicographic order of the keys, so that
    iteration is the source's iteration. *)

From S2P Require Import Prelude StringPiece.

Section StdMap.
Context {V : Type}.

(** [m[k] = v] *)
Fixpoint map_set (k : list byte) (v : V) (m : list (list byte * V)) : list (list byte * V) :=
  match m with
  | [] => [(k, v)]
  | (k', v') :: m' =>
      match lex k k' with
      | Lt => (k, v) :: m
      | Eq => (k, v) :: m'
      | Gt => (k', v') :: map_set k v m'
      end
  end.

(** [m.find(k)] *)
Fixpoint map_find (k : list byte) (m : list (list byte * V)) : option V :=
  match m with
  | [] => None
  | (k', v') :: m' => if decide (k = k') then Some v' else map_find k m'
  end.

(** [m.erase(k)], with the number of elements erased *)
Fixpoint map_erase (k : list byte) (m : list (list byte * V)) : list (list byte * V) :=
  match m with
  | [] => []
  | (k', v') :: m' => if decide (k = k') then m' else (k', v') :: map_erase k m'
  end.

(** Strictly increasing keys. *)
Fixpoint sorted (m : list (list byte * V)) : Prop :=
  match m with
  | [] => True
  | (k, _) :: m' => Forall (fun kv => lex k kv.1 = Lt) m' /\ sorted m'
  end.

Lemma map_set_keys k v m kv : kv ∈ map_set k v m -> kv = (k, v) \/ kv ∈ m.
Proof.
  induction m as [|[k' v'] m IH]; cbn; [rewrite list_elem_of_singleton; auto|].
  destruct (lex k k'); rewrite !elem_of_cons; naive_solver.
Qed.

Lemma map_set_sorted k v m : sorted m -> sorted (map_set k v m).
Proof.
  induction m as [|[k' v'] m IH]; cbn; [done|]. intros [F S].
  destruct (lex k k') eqn:E; cbn.
  - apply lex_Eq in E as ->. done.
  - split; [|done]. constructor; [done|]. eapply Forall_impl; [done|]. cbn. intros x Hx.
    by eapply lex_trans.
  - split; [|by apply IH]. apply Forall_forall. intros kv H.
    apply map_set_keys in H as [->|H]; cbn.
    + by rewrite lex_antisym, E.
    + by apply (proj1 (Forall_forall _ _) F).
Qed.

Lemma map_find_set k v m : map_find k (map_set k v m) = Some v.
Proof.
  induction m as [|[k' v'] m IH]; cbn; [by rewrite decide_True|].
  destruct (lex k k') eqn:E; cbn; try by rewrite decide_True.
  rewrite decide_False; [done|]. intros ->. by rewrite lex_refl in E.
Qed.

Lemma map_find_set_ne k k2 v m : k2 <> k -> map_find k2 (map_set k v m) = map_find k2 m.
Proof.
  intros N. induction m as [|[k' v'] m IH]; cbn; [by rewrite decide_False|].
  destruct (lex k k') eqn:E; cbn.
  - apply lex_Eq in E as ->. by rewrite decide_False, decide_False by done.
  - by rewrite decide_False by done.
  - by case_decide.
Qed.

Lemma map_find_erase k m : sorted m -> map_find k (map_erase k m) = None.
Proof.
  induction m as [|[k' v'] m IH]; cbn; [done|]. intros [F S]. case_decide as D; cbn.
  - subst. clear IH S. induction F as [|[k2 v2] m H F IH]; cbn; [done|].
    rewrite decide_False; [done|]. intros ->. cbn in H. by rewrite lex_refl in H.
  - rewrite decide_False by done. auto.
Qed.

Lemma map_find_erase_ne k k2 m : k2 <> k -> map_find k2 (map_erase k m) = map_find k2 m.
Proof.
  intros N. induction m as [|[k' v'] m IH]; cbn; [done|]. case_decide; cbn.
  - by subst; rewrite decide_False by done.
  - by case_decide.
Qed.

(** The keys, as a set kept in a list. *)
Definition map_keys (m : list (list byte * V)) : list (list byte) := map fst m.

Lemma map_set_new k v m : k ∉ map_keys m -> map_keys (map_set k v m) ≡ₚ k :: map_keys m.
Proof.
  induction m as [|[k' v'] m IH]; cbn; [done|]. rewrite not_elem_of_cons. intros [N1 N2].
  destruct (lex k k') eqn:E; cbn; [by apply lex_Eq in E|done|]. rewrite IH by done. apply Permutation_swap.
Qed.

Lemma map_erase_old k m : k ∈ map_keys m -> map_keys m ≡ₚ k :: map_keys (map_erase k m).
Proof.
  induction m as [|[k' v'] m IH]; cbn; [by intros ?%not_elem_of_nil|]. rewrite elem_of_cons. intros H.
  case_decide as D; [by subst|]. destruct H as [H|H]; [done|]. cbn. rewrite (IH H) at 1. apply Permutation_swap.
Qed.

Lemma map_erase_elem k m kv : kv ∈ map_erase k m -> kv ∈ m.
Proof.
  induction m as [|[k' v'] m IH]; cbn; [done|]. case_decide; rewrite ?elem_of_cons; naive_solver.
Qed.
End StdMap.
