(* ===== verification/StdSet.v ===== *)
(** * std::set of pairs

    The ordered sets of [TimerQueue] hold pairs of integers (a time and a
    pointer, a pointer and a sequence number): strictly increasing lists in the
    lexicographic order of [std::pair]. *)

From Stdlib Require Import Sorted.
From S2P Require Import Prelude.

Definition pair_lt (a b : Z * Z) : Prop := a.1 < b.1 \/ (a.1 = b.1 /\ a.2 < b.2).

#[export] Instance pair_lt_dec a b : Decision (pair_lt a b).
Proof. unfold pair_lt. apply _. Defined.

#[export] Instance pair_lt_trans : Transitive pair_lt.
Proof. intros [??] [??] [??]; unfold pair_lt; cbn. lia. Qed.

Lemma pair_lt_irrefl a : ~ pair_lt a a.
Proof. unfold pair_lt. lia. Qed.

Lemma pair_lt_total a b : ~ pair_lt a b -> ~ pair_lt b a -> a = b.
Proof. destruct a, b. unfold pair_lt. cbn. intros. f_equal; lia. Qed.

(** [s.insert(a)], with its [second] *)
Fixpoint set_insert (a : Z * Z) (l : list (Z * Z)) : list (Z * Z) * bool :=
  match l with
  | [] => ([a], true)
  | y :: l' =>
      if decide (pair_lt a y) then (a :: l, true)
      else if decide (pair_lt y a) then let '(r, b) := set_insert a l' in (y :: r, b)
      else (l, false)
  end.

(** [s.erase(a)], with the number of elements erased *)
Fixpoint set_erase (a : Z * Z) (l : list (Z * Z)) : list (Z * Z) * Z :=
  match l with
  | [] => ([], 0)
  | y :: l' => if decide (a = y) then (l', 1) else let '(r, n) := set_erase a l' in (y :: r, n)
  end.

(** [s.find(a) != s.end()] *)
Definition set_mem (a : Z * Z) (l : list (Z * Z)) : bool := bool_decide (a ∈ l).

(** [s.lower_bound(a)]: the elements before it and from it on *)
Fixpoint lower_bound (a : Z * Z) (l : list (Z * Z)) : list (Z * Z) * list (Z * Z) :=
  match l with
  | [] => ([], [])
  | y :: l' => if decide (pair_lt y a) then let '(p, q) := lower_bound a l' in (y :: p, q) else ([], l)
  end.

Definition ordered (l : list (Z * Z)) : Prop := StronglySorted pair_lt l.

Lemma ordered_NoDup l : ordered l -> NoDup l.
Proof.
  induction 1 as [|a l S IH F]; constructor; [|done]. intros H.
  rewrite Forall_forall in F. apply F, pair_lt_irrefl in H. done.
Qed.

Lemma set_insert_elem a l x : x ∈ (set_insert a l).1 <-> x = a \/ x ∈ l.
Proof.
  induction l as [|y l IH]; cbn; [by rewrite list_elem_of_singleton, elem_of_nil; naive_solver|].
  case_decide as D1; [cbn; by rewrite elem_of_cons|]. case_decide as D2.
  - destruct (set_insert a l) as [r b]. cbn in *. rewrite !elem_of_cons, IH. naive_solver.
  - rewrite (pair_lt_total a y) by done. cbn. rewrite elem_of_cons. naive_solver.
Qed.

Lemma set_insert_ordered a l : ordered l -> ordered (set_insert a l).1.
Proof.
  unfold ordered. induction 1 as [|y l S IH F]; cbn; [repeat constructor|].
  case_decide as D1.
  - cbn. constructor; [by constructor|]. constructor; [done|].
    eapply Forall_impl; [done|]. intros z Hz. by transitivity y.
  - case_decide as D2; [|by constructor].
    pose proof (set_insert_elem a l) as E. destruct (set_insert a l) as [r b]. cbn in *.
    constructor; [done|]. apply Forall_forall. intros z Hz. apply E in Hz as [->|Hz]; [done|].
    rewrite Forall_forall in F. auto.
Qed.

Lemma set_insert_new a l : a ∉ l -> (set_insert a l).2 = true /\ length (set_insert a l).1 = S (length l).
Proof.
  induction l as [|y l IH]; cbn; [done|]. rewrite not_elem_of_cons. intros [N1 N2].
  case_decide as D1; [done|]. case_decide as D2.
  - destruct (IH N2) as [H1 H2]. destruct (set_insert a l). cbn in *. by rewrite H2.
  - destruct N1. by apply pair_lt_total.
Qed.

Lemma set_erase_elem a l x : ordered l -> x ∈ (set_erase a l).1 <-> x ∈ l /\ x <> a.
Proof.
  intros S%ordered_NoDup. induction S as [|y l N S IH]; cbn; [rewrite elem_of_nil; naive_solver|].
  case_decide as D.
  - subst. cbn. rewrite elem_of_cons. naive_solver.
  - destruct (set_erase a l) as [r n]. cbn in *. rewrite !elem_of_cons, IH. naive_solver.
Qed.

Lemma set_erase_ordered a l : ordered l -> ordered (set_erase a l).1.
Proof.
  unfold ordered. intros S. pose proof S as S'. induction S' as [|y l S' IH F]; cbn; [done|].
  case_decide; [done|]. pose proof (fun x => set_erase_elem a l x S') as E.
  destruct (set_erase a l) as [r n]. cbn in *. constructor; [by apply IH|].
  apply Forall_forall. intros z Hz. apply E in Hz as [Hz _]. rewrite Forall_forall in F. auto.
Qed.

Lemma set_erase_present a l :
  a ∈ l -> (set_erase a l).2 = 1 /\ S (length (set_erase a l).1) = length l.
Proof.
  induction l as [|y l IH]; cbn; [by rewrite elem_of_nil|]. rewrite elem_of_cons. intros H.
  case_decide as D; [done|]. destruct H as [H|H]; [done|]. destruct (IH H) as [E1 E2].
  destruct (set_erase a l). cbn in *. by rewrite E2.
Qed.

Lemma lower_bound_spec a l :
  ordered l ->
  let '(p, q) := lower_bound a l in
  l = p ++ q /\ Forall (fun x => pair_lt x a) p /\ Forall (fun x => ~ pair_lt x a) q.
Proof.
  induction 1 as [|y l S IH F]; cbn; [done|]. case_decide as D.
  - destruct (lower_bound a l) as [p q]. destruct IH as (-> & ? & ?). split_and!; [done|by constructor|done].
  - split_and!; [done|constructor|]. constructor; [done|].
    eapply Forall_impl; [done|]. intros z Hz Ha. apply D. by transitivity z.
Qed.

Lemma ordered_app l k :
  ordered (l ++ k) <-> ordered l /\ ordered k /\ forall x y, x ∈ l -> y ∈ k -> pair_lt x y.
Proof.
  induction l as [|x l IH]; cbn.
  - split; [|tauto]. intros S. split_and!; [constructor|done|]. intros ?? Hx. by apply elem_of_nil in Hx.
  - split.
    + intros H. apply StronglySorted_inv in H as [H F]. apply IH in H as (H1 & H2 & H3).
      rewrite Forall_app in F. destruct F as [F1 F2]. split_and!; [by constructor|done|].
      intros a b [->|Ha]%elem_of_cons Hb; [by rewrite Forall_forall in F2; auto|auto].
    + intros (H1 & H2 & H3). apply StronglySorted_inv in H1 as [H1 F]. constructor.
      * apply IH. split_and!; [done|done|]. intros. apply H3; [by apply elem_of_cons; right|done].
      * rewrite Forall_app. split; [done|]. apply Forall_forall. intros. apply H3; [|done].
        apply elem_of_cons. by left.
Qed.
