(* ===== verification/LogStream.v ===== *)
(** * LogStream (src/muduo/muduo/base/LogStream.h, LogStream.cc)

    Formatting log lines into a buffer of fixed size: the integer conversions
    write into memory byte by byte, and a write outside the array is an
    [OutOfRange]. What [snprintf] prints for a double is an argument. *)

From S2P Require Import Prelude Format StringPiece.

Definition kSmallBuffer : Z := 4000.
Definition kLargeBuffer : Z := 4000 * 1000.

(** ** FixedBuffer *)

(** The array, with its size and whatever it holds, and the offset of [cur_]. *)
Record FixedBuffer := mkFixedBuffer {
  data_ : list byte;
  cur_ : Z
}.

Module FixedBuf.

Definition new (mem : list byte) : FixedBuffer := mkFixedBuffer mem 0.
Definition length (b : FixedBuffer) : Z := i32 (cur_ b).
Definition current (b : FixedBuffer) : Z := cur_ b.
Definition avail (b : FixedBuffer) : Z := i32 (zlen (data_ b) - cur_ b).
Definition add (len : Z) (b : FixedBuffer) : FixedBuffer := mkFixedBuffer (data_ b) (cur_ b + len).
Definition reset (b : FixedBuffer) : FixedBuffer := mkFixedBuffer (data_ b) 0.
Definition bzero (b : FixedBuffer) : FixedBuffer := mkFixedBuffer (replicate (Datatypes.length (data_ b)) Byte.x00) (cur_ b).

(** [append(buf, len)]; [buf] is the memory readable from the pointer. *)
Definition append (buf : list byte) (len : Z) (b : FixedBuffer) : outcome FixedBuffer :=
  if decide (u64 (avail b) > len) then
    let* d := load len buf in
    let* v := store (cur_ b) d (data_ b) in
    Ret (mkFixedBuffer v (cur_ b + len))
  else Ret b.

Definition toString (b : FixedBuffer) : outcome (list byte) := load (u64 (length b)) (data_ b).
Definition toStringPiece (b : FixedBuffer) : StringPiece := sp_of_ptr (data_ b) (length b).
Definition debugString (b : FixedBuffer) : outcome FixedBuffer :=
  let* v := store (cur_ b) [Byte.x00] (data_ b) in Ret (mkFixedBuffer v (cur_ b)).

End FixedBuf.

(** ** Integers *)

Definition digits : list byte := bytes "9876543210123456789".
Definition digitsHex : list byte := bytes "0123456789ABCDEF".

(** [zero[lsd]], with [zero = digits + 9] *)
Definition zero_at (lsd : Z) : outcome byte :=
  match digits !! Z.to_nat (9 + lsd) with Some c => Ret c | None => Stop OutOfRange end.
Definition digitsHex_at (lsd : Z) : outcome byte :=
  match digitsHex !! Z.to_nat lsd with Some c => Ret c | None => Stop OutOfRange end.

(** The loop of [convert]: [p] is the offset of the pointer in [mem]. *)
Fixpoint convert_loop (fuel : nat) (i p : Z) (mem : list byte) : outcome (Z * list byte) :=
  match fuel with
  | O => Stop NoFuel
  | S fuel =>
      let lsd := i %c 10 in
      let i := i /c 10 in
      let* c := zero_at lsd in
      let* mem := store p [c] mem in
      if decide (i <> 0) then convert_loop fuel i (p + 1) mem else Ret (p + 1, mem)
  end.

Definition std_reverse (first last : Z) (mem : list byte) : list byte :=
  overwrite mem first (rev (slice mem first last)).

(** [convert(buf, value)] for any of the integer types: an integer of 64 bits has
    at most twenty digits. *)
Definition convert (buf : Z) (value : Z) (mem : list byte) : outcome (Z * list byte) :=
  let* (p, mem) := convert_loop 20 value buf mem in
  let* (p, mem) := (if decide (value < 0) then let* mem := store p [minus] mem in Ret (p + 1, mem) else Ret (p, mem)) in
  let* mem := store p [Byte.x00] mem in
  Ret (p - buf, std_reverse buf p mem).

Fixpoint convertHex_loop (fuel : nat) (i p : Z) (mem : list byte) : outcome (Z * list byte) :=
  match fuel with
  | O => Stop NoFuel
  | S fuel =>
      let lsd := i mod 16 in
      let i := i / 16 in
      let* c := digitsHex_at lsd in
      let* mem := store p [c] mem in
      if decide (i <> 0) then convertHex_loop fuel i (p + 1) mem else Ret (p + 1, mem)
  end.

Definition convertHex (buf : Z) (value : Z) (mem : list byte) : outcome (Z * list byte) :=
  let* (p, mem) := convertHex_loop 16 value buf mem in
  let* mem := store p [Byte.x00] mem in
  Ret (p - buf, std_reverse buf p mem).

(** ** LogStream *)

Definition kMaxNumericSize : Z := 32.

(** The stream is its buffer. *)
Definition LogStream : Type := FixedBuffer.

Definition resetBuffer (s : LogStream) : LogStream := FixedBuf.reset s.

Definition formatInteger (v : Z) (s : LogStream) : outcome LogStream :=
  if decide (FixedBuf.avail s >= kMaxNumericSize) then
    let* (len, mem) := convert (FixedBuf.current s) v (data_ s) in
    Ret (FixedBuf.add len (mkFixedBuffer mem (cur_ s)))
  else Ret s.

(** [operator<<] of a pointer *)
Definition put_pointer (v : Z) (s : LogStream) : outcome LogStream :=
  if decide (FixedBuf.avail s >= kMaxNumericSize) then
    let buf := FixedBuf.current s in
    let* mem := store buf [Byte.x30] (data_ s) in
    let* mem := store (buf + 1) [Byte.x78] mem in
    let* (len, mem) := convertHex (buf + 2) v mem in
    Ret (FixedBuf.add (len + 2) (mkFixedBuffer mem (cur_ s)))
  else Ret s.

(** [append] of a pointer and an [int]: the length converts to [size_t] *)
Definition append (data : list byte) (len : Z) (s : LogStream) : outcome LogStream :=
  FixedBuf.append data (u64 len) s.

Definition put_bool (v : bool) (s : LogStream) : outcome LogStream :=
  FixedBuf.append (if v then bytes "1" else bytes "0") 1 s.
Definition put_char (v : byte) (s : LogStream) : outcome LogStream := FixedBuf.append [v] 1 s.
(** [operator<<] of a C string, a null pointer or the memory it points to *)
Definition put_cstr (str : option (list byte)) (s : LogStream) : outcome LogStream :=
  match str with
  | Some mem => let* n := strlen mem in FixedBuf.append mem n s
  | None => FixedBuf.append (bytes "(null)") 6 s
  end.
Definition put_string (v : list byte) (s : LogStream) : outcome LogStream := FixedBuf.append v (zlen v) s.
Definition put_piece (v : StringPiece) (s : LogStream) : outcome LogStream :=
  FixedBuf.append (sp_data v) (u64 (sp_size v)) s.
Definition put_buffer (v : FixedBuffer) (s : LogStream) : outcome LogStream := put_piece (FixedBuf.toStringPiece v) s.

(** [Fmt]: [printed] is what [snprintf] would print for the value. *)
Record Fmt := mkFmt { buf_ : list byte; length_ : Z }.
Definition newFmt (printed : list byte) : outcome Fmt :=
  let len := zlen printed in
  assert* bool_decide (u64 (i32 len) < 32) in
  Ret (mkFmt (snprintf 32 printed) (i32 len)).
Definition put_fmt (fmt : Fmt) (s : LogStream) : outcome LogStream := append (buf_ fmt) (length_ fmt) s.

Section Stream.
(** What [%.12g] prints for a double. *)
Context {double : Type} (print_g : double -> list byte).

(** [operator<<(double)]: [snprintf] writes at most [kMaxNumericSize] bytes with
    the terminator and returns the length of the whole text. *)
Definition put_double (v : double) (s : LogStream) : outcome LogStream :=
  if decide (FixedBuf.avail s >= kMaxNumericSize) then
    let text := print_g v in
    let* mem := store (FixedBuf.current s) (snprintf kMaxNumericSize text ++ [Byte.x00]) (data_ s) in
    Ret (FixedBuf.add (zlen text) (mkFixedBuffer mem (cur_ s)))
  else Ret s.

Inductive item :=
  | IBool (v : bool)
  | IInteger (v : Z)
  | IPointer (v : Z)
  | IDouble (v : double)
  | IChar (v : byte)
  | ICStr (str : option (list byte))
  | IString (v : list byte)
  | IPiece (v : StringPiece)
  | IBuffer (v : FixedBuffer)
  | IFmt (v : Fmt).

(** The overloads of [operator<<]. *)
Definition put (it : item) (s : LogStream) : outcome LogStream :=
  match it with
  | IBool v => put_bool v s
  | IInteger v => formatInteger v s
  | IPointer v => put_pointer v s
  | IDouble v => put_double v s
  | IChar v => put_char v s
  | ICStr str => put_cstr str s
  | IString v => put_string v s
  | IPiece v => put_piece v s
  | IBuffer v => put_buffer v s
  | IFmt v => put_fmt v s
  end.

Fixpoint put_all (its : list item) (s : LogStream) : outcome LogStream :=
  match its with
  | [] => Ret s
  | it :: its => let* s := put it s in put_all its s
  end.
End Stream.

(** ** Writing into memory *)

Lemma split_at {A} (l : list A) p n m :
  0 <= p -> 0 <= n -> 0 <= m -> p + n + m <= zlen l ->
  exists P N M Q, l = P ++ N ++ M ++ Q /\ zlen P = p /\ zlen N = n /\ zlen M = m.
Proof.
  intros. exists (ztake p l), (ztake n (zdrop p l)), (ztake m (zdrop (p + n) l)), (zdrop (p + n + m) l).
  split.
  - rewrite <- (ztake_zdrop p l) at 1. f_equal. rewrite <- (ztake_zdrop n (zdrop p l)) at 1. f_equal.
    rewrite zdrop_zdrop by lia. rewrite <- (ztake_zdrop m (zdrop (p + n) l)) at 1. f_equal. by rewrite zdrop_zdrop by lia.
  - split_and!; rewrite zlen_ztake; rewrite ?zlen_zdrop; lia.
Qed.

Lemma overwrite_overwrite {A} (mem : list A) p a d :
  0 <= p -> p + zlen a + zlen d <= zlen mem ->
  overwrite (overwrite mem p a) (p + zlen a) d = overwrite mem p (a ++ d).
Proof.
  intros Hp H. destruct (split_at mem p (zlen a) (zlen d)) as (P & N & M & Q & -> & <- & En & Em); [zlen_pos; lia..|].
  rewrite (overwrite_app P N (M ++ Q) a) by done.
  rewrite (app_assoc P a), (overwrite_app (P ++ a) M Q d) by (rewrite ?zlen_app; lia).
  rewrite (app_assoc N M Q), (overwrite_app P (N ++ M) Q (a ++ d)) by (rewrite ?zlen_app; lia). by rewrite <- !app_assoc.
Qed.

Lemma reverse_overwrite (mem ds : list byte) p c :
  0 <= p -> p + zlen ds + 1 <= zlen mem ->
  std_reverse p (p + zlen ds) (overwrite mem p (ds ++ [c])) = overwrite mem p (rev ds ++ [c]).
Proof.
  intros Hp H. unfold std_reverse. destruct (split_at mem p (zlen ds) 1) as (P & N & M & Q & -> & <- & En & Em); [zlen_pos; lia..|].
  assert (zlen (rev ds) = zlen ds) as Er by (unfold zlen; by rewrite length_rev).
  rewrite (app_assoc N M Q), !(overwrite_app P (N ++ M) Q) by (rewrite ?zlen_app, ?Er; change (zlen [c]) with 1; lia).
  rewrite <- !app_assoc. rewrite (slice_app P ds ([c] ++ Q)) by lia. by rewrite (overwrite_app P ds ([c] ++ Q)) by lia.
Qed.

(** ** Digits *)

(** The digits of [n >= 0] in base [b], least significant first. *)
Fixpoint radix_rev (b : Z) (dg : Z -> byte) (fuel : nat) (n : Z) : list byte :=
  match fuel with
  | O => []
  | S fuel => dg (n mod b) :: (if decide (n / b = 0) then [] else radix_rev b dg fuel (n / b))
  end.

Lemma radix_rev_dec fuel n : radix_rev 10 digit fuel n = udec_rev fuel n.
Proof. revert n. induction fuel as [|fuel IH]; intros n; cbn; [done|]. by rewrite IH. Qed.

Lemma radix_step b fuel n : 1 < b -> 0 <= n < b ^ Z.of_nat (S fuel) -> 0 <= n / b < b ^ Z.of_nat fuel.
Proof.
  intros Hb H. rewrite Nat2Z.inj_succ, Z.pow_succ_r in H by lia.
  split; [apply Z.div_pos; lia|apply Z.div_lt_upper_bound; lia].
Qed.

Lemma radix_rev_fuel b dg f g n :
  1 < b -> 0 <= n < b ^ Z.of_nat f -> 0 <= n < b ^ Z.of_nat g -> (0 < f)%nat -> (0 < g)%nat ->
  radix_rev b dg f n = radix_rev b dg g n.
Proof.
  intros Hb. revert g n. induction f as [|f IH]; intros g n Hf Hg Pf Pg; [lia|]. destruct g as [|g]; [lia|]. cbn.
  case_decide as D; [done|]. f_equal. apply radix_step in Hf, Hg; [|lia..].
  apply IH; [done..| |]; [destruct f|destruct g]; cbn in *; lia.
Qed.

Lemma radix_rev_length b dg f n : (length (radix_rev b dg f n) <= f)%nat.
Proof. revert n. induction f as [|f IH]; intros n; cbn; [lia|]. case_decide; cbn; [lia|]. specialize (IH (n / b)). lia. Qed.

Lemma udec_radix n : 0 <= n < 10 ^ 20 -> rev (radix_rev 10 digit 20 n) = udec n.
Proof.
  intros H. unfold udec. rewrite <- radix_rev_dec. f_equal. pose proof (dec_fuel_enough n ltac:(lia)) as F.
  apply radix_rev_fuel; [lia|done| |lia|unfold dec_fuel; lia].
  split; [lia|]. eapply Z.lt_le_trans; [apply F|]. apply Z.pow_le_mono_l. lia.
Qed.

Lemma zero_at_ok i : zero_at (i %c 10) = Ret (digit (Z.abs i mod 10)).
Proof.
  assert (Z.abs i mod 10 = Z.abs (i %c 10)) as ->.
  { rewrite <- Z.rem_mod_nonneg by lia. by rewrite <- Z.rem_abs. }
  assert (-9 <= i %c 10 <= 9) as H by (pose proof (Z.rem_bound_abs i 10); lia).
  generalize dependent (i %c 10). intros r H. unfold zero_at.
  assert (forallb (fun k => bool_decide (digits !! k = Some (digit (Z.abs (Z.of_nat k - 9))))) (seq 0 19) = true) as K by by vm_compute.
  rewrite forallb_forall in K. specialize (K (Z.to_nat (9 + r))). rewrite in_seq in K.
  specialize (K ltac:(lia)). apply bool_decide_eq_true in K. rewrite K.
  by replace (Z.of_nat (Z.to_nat (9 + r)) - 9) with r by lia.
Qed.

Definition hex_digit (d : Z) : byte := if decide (d < 10) then digit d else z2b (55 + d).

Lemma digitsHex_at_ok d : 0 <= d < 16 -> digitsHex_at d = Ret (hex_digit d).
Proof.
  intros H. unfold digitsHex_at.
  assert (forallb (fun k => bool_decide (digitsHex !! k = Some (hex_digit (Z.of_nat k)))) (seq 0 16) = true) as K by by vm_compute.
  rewrite forallb_forall in K. specialize (K (Z.to_nat d)). rewrite in_seq in K.
  specialize (K ltac:(lia)). apply bool_decide_eq_true in K. rewrite K. by rewrite Z2Nat.id by lia.
Qed.

(** Both loops write the digits of the absolute value, least significant first. *)
Lemma convert_loop_ok fuel i p mem :
  (0 < fuel)%nat -> Z.abs i < 10 ^ Z.of_nat fuel -> 0 <= p -> p + Z.of_nat fuel <= zlen mem ->
  let ds := radix_rev 10 digit fuel (Z.abs i) in
  convert_loop fuel i p mem = Ret (p + zlen ds, overwrite mem p ds).
Proof.
  revert i p mem. induction fuel as [|fuel IH]; intros i p mem Pf Hi Hp Hl; [lia|]. cbn [convert_loop radix_rev]. cbv zeta.
  rewrite zero_at_ok. cbn [obind]. rewrite store_ok by (rewrite ?zlen_cons, ?zlen_nil; lia). cbn [obind].
  assert (Z.abs (i /c 10) = Z.abs i / 10) as Eq.
  { rewrite <- Z.quot_div_nonneg by lia. by rewrite <- Z.quot_abs. }
  pose proof (radix_step 10 fuel (Z.abs i) ltac:(lia) ltac:(lia)) as St.
  destruct (decide (Z.abs i / 10 = 0)) as [D|D].
  - rewrite decide_False by lia. by rewrite zlen_cons, zlen_nil.
  - rewrite decide_True by lia.
    assert (0 < fuel)%nat as Pf' by (destruct fuel; cbn in *; lia).
    rewrite IH; [|done|lia|lia|rewrite zlen_overwrite; rewrite ?zlen_cons, ?zlen_nil; lia].
    rewrite Eq, zlen_cons. set (ds := radix_rev 10 digit fuel (Z.abs i / 10)).
    pose proof (radix_rev_length 10 digit fuel (Z.abs i / 10)) as Ld. fold ds in Ld.
    change (digit (Z.abs i mod 10) :: ds) with ([digit (Z.abs i mod 10)] ++ ds).
    rewrite <- (overwrite_overwrite mem p [digit (Z.abs i mod 10)] ds); [|done|rewrite zlen_cons, zlen_nil; unfold zlen in *; lia].
    f_equal. f_equal. lia.
Qed.

Lemma convertHex_loop_ok fuel i p mem :
  (0 < fuel)%nat -> 0 <= i < 16 ^ Z.of_nat fuel -> 0 <= p -> p + Z.of_nat fuel <= zlen mem ->
  let ds := radix_rev 16 hex_digit fuel i in
  convertHex_loop fuel i p mem = Ret (p + zlen ds, overwrite mem p ds).
Proof.
  revert i p mem. induction fuel as [|fuel IH]; intros i p mem Pf Hi Hp Hl; [lia|]. cbn [convertHex_loop radix_rev]. cbv zeta.
  rewrite digitsHex_at_ok by (apply Z.mod_pos_bound; lia). cbn [obind].
  rewrite store_ok by (rewrite ?zlen_cons, ?zlen_nil; lia). cbn [obind].
  pose proof (radix_step 16 fuel i ltac:(lia) ltac:(lia)) as St.
  destruct (decide (i / 16 = 0)) as [D|D].
  - rewrite decide_False by lia. by rewrite zlen_cons, zlen_nil.
  - rewrite decide_True by lia.
    assert (0 < fuel)%nat as Pf' by (destruct fuel; cbn in *; lia).
    rewrite IH; [|done|lia|lia|rewrite zlen_overwrite; rewrite ?zlen_cons, ?zlen_nil; lia].
    rewrite zlen_cons. set (ds := radix_rev 16 hex_digit fuel (i / 16)).
    pose proof (radix_rev_length 16 hex_digit fuel (i / 16)) as Ld. fold ds in Ld.
    change (hex_digit (i mod 16) :: ds) with ([hex_digit (i mod 16)] ++ ds).
    rewrite <- (overwrite_overwrite mem p [hex_digit (i mod 16)] ds); [|done|rewrite zlen_cons, zlen_nil; unfold zlen in *; lia].
    f_equal. f_equal. lia.
Qed.

(** [%X] *)
Definition fmt_X (n : Z) : list byte := rev (radix_rev 16 hex_digit 16 n).

Lemma zlen_rev {A} (l : list A) : zlen (rev l) = zlen l.
Proof. unfold zlen. by rewrite length_rev. Qed.

Lemma convert_spec buf v mem :
  Z.abs v < 10 ^ 20 -> 0 <= buf -> buf + 22 <= zlen mem ->
  convert buf v mem = Ret (zlen (fmt_d v), overwrite mem buf (fmt_d v ++ [Byte.x00])) /\ zlen (fmt_d v) <= 21.
Proof.
  intros Hv Hb Hl. unfold convert. rewrite convert_loop_ok by lia. cbn [obind].
  set (ds := radix_rev 10 digit 20 (Z.abs v)).
  assert (zlen ds <= 20) as Ld by (pose proof (radix_rev_length 10 digit 20 (Z.abs v)); unfold zlen, ds; lia).
  assert (rev ds = udec (Z.abs v)) as Er by (apply udec_radix; lia). zlen_pos.
  assert (zlen [Byte.x00] = 1) as L1 by done. assert (zlen [minus] = 1) as L2 by done.
  unfold fmt_d. case_decide as D.
  - rewrite store_ok by (rewrite ?zlen_overwrite; lia). cbn [obind].
    rewrite overwrite_overwrite by lia.
    replace (buf + zlen ds + 1) with (buf + zlen (ds ++ [minus])) by (rewrite zlen_app; lia).
    rewrite store_ok by (rewrite ?zlen_overwrite; rewrite ?zlen_app; lia). cbn [obind].
    rewrite overwrite_overwrite, reverse_overwrite by (rewrite ?zlen_app; lia).
    rewrite rev_app_distr, Er. cbn [rev app]. replace (- v) with (Z.abs v) by lia.
    rewrite zlen_cons, zlen_app, <- Er, zlen_rev. split; [|lia]. f_equal. f_equal. lia.
  - cbn [obind]. rewrite store_ok by (rewrite ?zlen_overwrite; lia). cbn [obind].
    rewrite overwrite_overwrite, reverse_overwrite by lia. rewrite Er. replace (Z.abs v) with v in * by lia.
    rewrite <- Er, zlen_rev. split; [|lia]. f_equal. f_equal. lia.
Qed.

Lemma convertHex_spec buf v mem :
  0 <= v < 2 ^ 64 -> 0 <= buf -> buf + 17 <= zlen mem ->
  convertHex buf v mem = Ret (zlen (fmt_X v), overwrite mem buf (fmt_X v ++ [Byte.x00])) /\ zlen (fmt_X v) <= 16.
Proof.
  intros Hv Hb Hl. unfold convertHex. rewrite convertHex_loop_ok by (cbn; lia). cbn [obind].
  set (ds := radix_rev 16 hex_digit 16 v).
  assert (zlen ds <= 16) as Ld by (pose proof (radix_rev_length 16 hex_digit 16 v); unfold zlen, ds; lia). zlen_pos.
  assert (zlen [Byte.x00] = 1) as L1 by done.
  rewrite store_ok by (rewrite ?zlen_overwrite; lia). cbn [obind].
  rewrite overwrite_overwrite, reverse_overwrite by lia. unfold fmt_X. fold ds. rewrite zlen_rev.
  split; [|lia]. f_equal. f_equal. lia.
Qed.

(** The digits of [fmt_X] are hexadecimal and read back as the number. *)
Definition hex_value (b : byte) : Z := if decide (b2z b < 65) then b2z b - 48 else b2z b - 55.
Definition parse_X (l : list byte) : Z := fold_left (fun n b => n * 16 + hex_value b) l 0.

Lemma hex_value_digit d : 0 <= d < 16 -> hex_value (hex_digit d) = d.
Proof.
  intros H. unfold hex_value, hex_digit. destruct (decide (d < 10)).
  - rewrite b2z_digit by lia. rewrite decide_True by lia. lia.
  - rewrite b2z_z2b, Z.mod_small by lia. rewrite decide_False by lia. lia.
Qed.

Lemma parse_X_rev fuel n : 0 <= n < 16 ^ Z.of_nat fuel -> parse_X (rev (radix_rev 16 hex_digit fuel n)) = n.
Proof.
  revert n. induction fuel as [|fuel IH]; intros n Hn; [cbn in *; lia|]. cbn [radix_rev rev].
  pose proof (Z.mod_pos_bound n 16 ltac:(lia)). pose proof (Z.div_mod n 16 ltac:(lia)).
  pose proof (radix_step 16 fuel n ltac:(lia) Hn) as St.
  unfold parse_X in *. rewrite fold_left_app. cbn [fold_left]. rewrite hex_value_digit by lia.
  case_decide as D; cbn; [lia|]. rewrite IH by lia. lia.
Qed.

(** [convert] prints any integer of the C++ integer types in decimal, the
    smallest negative ones included, and [convertHex] any address in upper-case
    hexadecimal: with 32 bytes of room neither writes outside the array, both
    terminate the text with a NUL and return its length, and nothing else of the
    memory changes. *)
Theorem convert_prints buf v mem :
  - 2 ^ 63 <= v < 2 ^ 64 -> 0 <= buf -> buf + kMaxNumericSize <= zlen mem ->
  convert buf v mem = Ret (zlen (fmt_d v), overwrite mem buf (fmt_d v ++ [Byte.x00])) /\ parse_d (fmt_d v) = v /\
  (0 <= v -> convertHex buf v mem = Ret (zlen (fmt_X v), overwrite mem buf (fmt_X v ++ [Byte.x00])) /\ parse_X (fmt_X v) = v).
Proof.
  unfold kMaxNumericSize. intros Hv Hb Hl. split; [apply convert_spec; lia|]. split; [apply parse_fmt_d|].
  intros Hp. split; [apply convertHex_spec; lia|]. apply parse_X_rev. cbn. lia.
Qed.

Lemma convert_prints_witness :
  convert 1 (-9223372036854775808) (replicate 40 Byte.x2e) =
    Ret (20, bytes "." ++ bytes "-9223372036854775808" ++ [Byte.x00] ++ replicate 18 Byte.x2e).
Proof.
  destruct (convert_prints 1 (-9223372036854775808) (replicate 40 Byte.x2e)) as [E _]; [lia|lia|by vm_compute|].
  rewrite E. reflexivity.
Defined.

(** ** The stream *)

(** A buffer of [size] bytes, and what was written to it. *)
Definition fixed_ok (size : Z) (b : FixedBuffer) : Prop := 0 <= cur_ b <= size /\ zlen (data_ b) = size.
Definition contents (b : FixedBuffer) : list byte := ztake (cur_ b) (data_ b).
Definition stream_ok (s : LogStream) : Prop := fixed_ok kSmallBuffer s.

Lemma avail_fixed size b : fixed_ok size b -> size < 2 ^ 31 -> FixedBuf.avail b = size - cur_ b.
Proof. intros [H E] L. unfold FixedBuf.avail. rewrite E. rewrite swrap_small; lia. Qed.

Lemma contents_fixed size b : fixed_ok size b -> zlen (contents b) = cur_ b.
Proof. intros [H E]. unfold contents. rewrite zlen_ztake; lia. Qed.

(** Writing [t] and some more at [cur_] and moving [cur_] past [t]. *)
Lemma write_fixed size b t k :
  fixed_ok size b -> zlen t + zlen k <= size - cur_ b ->
  let b' := mkFixedBuffer (overwrite (data_ b) (cur_ b) (t ++ k)) (cur_ b + zlen t) in
  fixed_ok size b' /\ contents b' = contents b ++ t.
Proof.
  intros [H E] L b'. zlen_pos. unfold fixed_ok, contents, b'. cbn [data_ cur_].
  rewrite zlen_overwrite by (rewrite ?zlen_app; lia). split; [split; [lia|done]|].
  unfold overwrite. rewrite ztake_app_r by (rewrite zlen_ztake; lia). f_equal.
  rewrite zlen_ztake by lia. rewrite <- app_assoc, ztake_app_l by lia. apply ztake_all. lia.
Qed.

Lemma append_fixed size b buf len :
  fixed_ok size b -> size < 2 ^ 31 -> 0 <= len <= zlen buf ->
  exists b', FixedBuf.append buf len b = Ret b' /\ fixed_ok size b' /\
    contents b' = if decide (len < size - cur_ b) then contents b ++ ztake len buf else contents b.
Proof.
  intros W L H. unfold FixedBuf.append. rewrite (avail_fixed size) by done. pose proof W as [C E].
  rewrite wrap_small by lia.
  destruct (decide (len < size - cur_ b)) as [D|D].
  - rewrite decide_True by lia. rewrite load_ok by lia. cbn [obind].
    rewrite store_ok by (rewrite ?zlen_ztake; lia). cbn [obind]. eexists. split; [reflexivity|].
    pose proof (write_fixed size b (ztake len buf) [] W) as K. rewrite zlen_ztake, app_nil_r, zlen_nil in K by lia.
    apply K. lia.
  - rewrite decide_False by lia. by eexists.
Qed.

Lemma reset_fixed size b : fixed_ok size b -> fixed_ok size (FixedBuf.reset b) /\ contents (FixedBuf.reset b) = [].
Proof. intros [H E]. split; [split; [cbn; lia|done]|]. by apply ztake_0. Qed.

Section Spec.
Context {double : Type} (print_g : double -> list byte).
(** A double printed with twelve significant digits has at most a sign, a point,
    thirteen digits and an exponent of five characters. *)
Context (print_g_short : forall v, zlen (print_g v) <= 24).

(** The text of an item, and the items that are formatted as numbers. *)
Definition text (it : item (double := double)) : list byte :=
  match it with
  | IBool v => if v then bytes "1" else bytes "0"
  | IInteger v => fmt_d v
  | IPointer v => bytes "0x" ++ fmt_X v
  | IDouble v => print_g v
  | IChar v => [v]
  | ICStr (Some mem) => ztake (std_find Byte.x00 mem) mem
  | ICStr None => bytes "(null)"
  | IString v => v
  | IPiece v => ztake (sp_size v) (sp_data v)
  | IBuffer v => contents v
  | IFmt v => ztake (length_ v) (buf_ v)
  end.
Definition numeric (it : item (double := double)) : bool :=
  match it with IInteger _ | IPointer _ | IDouble _ => true | _ => false end.

(** What may be printed. *)
Definition printable (it : item (double := double)) : Prop :=
  match it with
  | IInteger v => - 2 ^ 63 <= v < 2 ^ 64
  | IPointer v => 0 <= v < 2 ^ 64
  | ICStr (Some mem) => Byte.x00 ∈ mem
  | IString v => zlen v < 2 ^ 64
  | IPiece v => 0 <= sp_size v <= zlen (sp_data v) /\ sp_size v < 2 ^ 31
  | IBuffer v => stream_ok v
  | IFmt v => 0 <= length_ v < 32 /\ length_ v <= zlen (buf_ v)
  | _ => True
  end.

(** The stream as a text of limited length: an item that does not fit is dropped
    as a whole, a number when fewer than [kMaxNumericSize] bytes are left. *)
Definition add_text (it : item (double := double)) (t : list byte) : list byte :=
  let room := kSmallBuffer - zlen t in
  if (if numeric it then bool_decide (kMaxNumericSize <= room) else bool_decide (zlen (text it) < room))
  then t ++ text it else t.

Lemma avail_ok s : stream_ok s -> FixedBuf.avail s = kSmallBuffer - cur_ s.
Proof. intros W. by apply avail_fixed. Qed.

Lemma contents_len s : stream_ok s -> zlen (contents s) = cur_ s.
Proof. apply contents_fixed. Qed.

Lemma append_put s buf len t :
  stream_ok s -> 0 <= len <= zlen buf -> t = ztake len buf ->
  exists s', FixedBuf.append buf len s = Ret s' /\ stream_ok s' /\
    contents s' = (if bool_decide (zlen t < kSmallBuffer - zlen (contents s)) then contents s ++ t else contents s).
Proof.
  intros W H ->. destruct (append_fixed kSmallBuffer s buf len W ltac:(done) H) as (s' & E & W' & C). exists s'. split_and!; [done|done|].
  rewrite C, (contents_len s W), zlen_ztake by done. case_decide; by case_bool_decide.
Qed.

(** Both numeric conversions, and [snprintf], once there is room. *)
Lemma number_put s t (k : outcome LogStream) :
  stream_ok s -> zlen t < kMaxNumericSize ->
  (kMaxNumericSize <= kSmallBuffer - cur_ s ->
   k = Ret (mkFixedBuffer (overwrite (data_ s) (cur_ s) (t ++ [Byte.x00])) (cur_ s + zlen t))) ->
  exists s', (if decide (FixedBuf.avail s >= kMaxNumericSize) then k else Ret s) = Ret s' /\ stream_ok s' /\
    contents s' = (if bool_decide (kMaxNumericSize <= kSmallBuffer - zlen (contents s)) then contents s ++ t else contents s).
Proof.
  intros W Lt K. rewrite avail_ok, contents_len by done. case_decide as D.
  - rewrite K by lia. eexists. split; [reflexivity|]. rewrite bool_decide_eq_true_2 by lia.
    apply (write_fixed kSmallBuffer s t); [done|]. rewrite zlen_cons, zlen_nil. lia.
  - eexists. split; [reflexivity|]. by rewrite bool_decide_eq_false_2 by lia.
Qed.

Lemma fmt_d_short v : - 2 ^ 63 <= v < 2 ^ 64 -> zlen (fmt_d v) < kMaxNumericSize.
Proof.
  intros H. destruct (convert_spec 0 v (replicate (Z.to_nat 22) Byte.x00)) as [_ L]; [lia|lia|by vm_compute|].
  unfold kMaxNumericSize. lia.
Qed.
Lemma fmt_X_short v : zlen (fmt_X v) <= 16.
Proof. unfold fmt_X. rewrite zlen_rev. pose proof (radix_rev_length 16 hex_digit 16 v). unfold zlen. lia. Qed.

Lemma put_ok it s :
  stream_ok s -> printable it ->
  exists s', put print_g it s = Ret s' /\ stream_ok s' /\ contents s' = add_text it (contents s).
Proof.
  intros W P. destruct it as [v|v|v|v|v|[mem|]|v|v|v|v]; cbn [put printable] in *; unfold add_text; cbn [numeric text].
  - unfold put_bool. apply append_put; [done|by destruct v|by destruct v].
  - unfold formatInteger. apply number_put; [done|by apply fmt_d_short|]. intros R. destruct W as [C E].
    unfold FixedBuf.current. destruct (convert_spec (cur_ s) v (data_ s)) as [-> _]; [lia|lia|unfold kMaxNumericSize in *; lia|].
    done.
  - unfold put_pointer. pose proof (fmt_X_short v) as L. apply number_put; [done|rewrite zlen_app; change (zlen (bytes "0x")) with 2; unfold kMaxNumericSize; lia|].
    intros R. destruct W as [C E]. unfold FixedBuf.current, kMaxNumericSize in *.
    rewrite store_ok by (rewrite ?zlen_cons, ?zlen_nil; lia). cbn [obind].
    rewrite store_ok by (rewrite ?zlen_overwrite; rewrite ?zlen_cons, ?zlen_nil; lia). cbn [obind].
    change (cur_ s + 1) with (cur_ s + zlen [Byte.x30]).
    rewrite (overwrite_overwrite (data_ s) (cur_ s) [Byte.x30] [Byte.x78]) by (rewrite ?zlen_cons, ?zlen_nil; lia).
    cbn [app]. change [Byte.x30; Byte.x78] with (bytes "0x").
    assert (zlen (bytes "0x") = 2) as L2 by done. zlen_pos.
    destruct (convertHex_spec (cur_ s + 2) v (overwrite (data_ s) (cur_ s) (bytes "0x"))) as [-> _];
      [done|lia|rewrite zlen_overwrite; lia|]. cbn [obind]. unfold FixedBuf.add. cbn [data_ cur_].
    rewrite <- L2 at 1. rewrite overwrite_overwrite by (rewrite ?zlen_app, ?zlen_cons, ?zlen_nil; lia).
    rewrite <- app_assoc, zlen_app, L2. do 2 f_equal. lia.
  - unfold put_double. pose proof (print_g_short v) as L. apply number_put; [done|unfold kMaxNumericSize; lia|].
    intros R. destruct W as [C E]. unfold FixedBuf.current, snprintf, kMaxNumericSize in *.
    rewrite ztake_all by lia. rewrite store_ok by (rewrite ?zlen_app, ?zlen_cons, ?zlen_nil; lia). done.
  - unfold put_char. by apply append_put.
  - unfold put_cstr, strlen, memchr. pose proof (std_find_range Byte.x00 mem) as Rg.
    rewrite decide_False. 2: { intros Eq. apply (std_find_before Byte.x00 mem). rewrite Eq. by rewrite ztake_all by lia. }
    cbn [obind]. by apply append_put.
  - unfold put_cstr. by apply append_put.
  - unfold put_string. apply append_put; [done|zlen_pos; lia|]. by rewrite ztake_all by lia.
  - destruct P as [P1 P2]. unfold put_piece. rewrite wrap_small by lia. by apply append_put.
  - unfold put_buffer, put_piece, FixedBuf.toStringPiece, FixedBuf.length. cbn [sp_data sp_size sp_of_ptr StringPiece.length_ ptr_].
    destruct P as [P1 P2]. rewrite swrap_small, wrap_small by (unfold kSmallBuffer in *; lia). apply append_put; [done|lia|done].
  - destruct P as [P1 P2]. unfold put_fmt, append. rewrite wrap_small by lia. apply append_put; [done|lia|done].
Qed.

Lemma put_all_ok its s :
  stream_ok s -> Forall printable its ->
  exists s', put_all print_g its s = Ret s' /\ stream_ok s' /\ contents s' = fold_left (fun t it => add_text it t) its (contents s).
Proof.
  intros W F. revert s W. induction F as [|it its P F IH]; intros s W; cbn [put_all fold_left]; [by eexists|].
  destruct (put_ok it s W P) as (s1 & E1 & W1 & C1). rewrite E1. cbn [obind].
  destruct (IH s1 W1) as (s' & E & W' & C). exists s'. by rewrite <- C1.
Qed.
(** Nothing is dropped as long as there is room for one more number. *)
Lemma add_texts its t : zlen t + zlen (concat (map text its)) + kMaxNumericSize <= kSmallBuffer -> fold_left (fun t it => add_text it t) its t = t ++ concat (map text its).
Proof.
  revert t. induction its as [|it its IH]; intros t L; cbn [fold_left map concat] in *; [by rewrite app_nil_r|]. rewrite zlen_app in L. zlen_pos. unfold kMaxNumericSize in *. unfold add_text at 2, kMaxNumericSize.
  destruct (numeric it); rewrite bool_decide_true by lia; (rewrite IH by (rewrite zlen_app; lia)); by rewrite <- app_assoc.
Qed.

(** C36. A log stream is a text of at most 4000 bytes: for every sequence of
    insertions it never writes outside its buffer and never fails; an item
    is appended whole or dropped whole, and what was written before stays. *)
Theorem stream_appends its s :
  stream_ok s -> Forall printable its ->
  exists s', put_all print_g its s = Ret s' /\ stream_ok s' /\
    contents s' = fold_left (fun t it => add_text it t) its (contents s).
Proof. apply put_all_ok. Qed.
End Spec.

Lemma stream_appends_witness : exists s',
  put_all (fun t : list byte => ztake 24 t) [ICStr (Some (bytes "n=" ++ [Byte.x00])); IInteger (-42); IChar Byte.x20; IPointer 48879]
    (FixedBuf.new (replicate (Z.to_nat 4000) Byte.x00)) = Ret s' /\ contents s' = bytes "n=-42 0xBEEF".
Proof.
  destruct (stream_appends (fun t : list byte => ztake 24 t)
    ltac:(intros v; unfold zlen, ztake; rewrite length_take; lia)
    [ICStr (Some (bytes "n=" ++ [Byte.x00])); IInteger (-42); IChar Byte.x20; IPointer 48879]
    (FixedBuf.new (replicate (Z.to_nat 4000) Byte.x00))) as (s' & E & _ & C).
  - split; [by vm_compute|by vm_compute].
  - repeat constructor; try done.
  - exists s'. split; [exact E|]. rewrite C. by vm_compute.
Defined.
