(* ===== verification/AsyncLogging.v ===== *)
(** * AsyncLogging (src/muduo/muduo/base/AsyncLogging.h, AsyncLogging.cc)

    The double-buffered log: any thread appends lines to the current buffer under
    the mutex, a background thread swaps the full buffers out and writes them to
    the log file. A transition system of both sides; each critical section is one
    step. Buffers have [SIZE] bytes (kLargeBuffer in the code); the file is the
    list of the bytes appended to it. *)

From S2P Require Import Prelude Format StringPiece LogStream.

Section Async.
(** The size of a buffer, and what a new one holds. *)
Context (SIZE : Z) (fresh : list byte).
(** The text of the time now, in a dropped-messages notice. *)
Context (now_text : list byte).

(** Where the background thread is: at the loop's test, in [waitForSeconds] (the
    mutex is free), writing what it swapped out, or finished. *)
Inductive place :=
  | Top
  | Waiting
  | Writing (buffersToWrite : list FixedBuffer)
  | Done.

Record AsyncLogging := mkAsync {
  running_ : bool;
  currentBuffer_ : FixedBuffer;
  nextBuffer_ : option FixedBuffer;
  buffers_ : list FixedBuffer;
  newBuffer1 : option FixedBuffer;
  newBuffer2 : option FixedBuffer;
  pc : place;
  output : list byte;
  (** for the properties: whether a backlog was dropped *)
  dropped : bool
}.

Definition newBuf : FixedBuffer := FixedBuf.new fresh.

(** The constructor, [start()], and the background thread up to its loop. *)
Definition newAsync : AsyncLogging :=
  mkAsync true (FixedBuf.bzero newBuf) (Some (FixedBuf.bzero newBuf)) [] (Some (FixedBuf.bzero newBuf))
    (Some (FixedBuf.bzero newBuf)) Top [] false.

(** [append(logline, len)], one critical section *)
Definition append (logline : list byte) (len : Z) (s : AsyncLogging) : outcome AsyncLogging :=
  let log (b : FixedBuffer) (next : option FixedBuffer) (bs : list FixedBuffer) :=
    let* b' := FixedBuf.append logline (u64 len) b in
    Ret (mkAsync (running_ s) b' next bs (newBuffer1 s) (newBuffer2 s) (pc s) (output s) (dropped s)) in
  if decide (FixedBuf.avail (currentBuffer_ s) > len) then log (currentBuffer_ s) (nextBuffer_ s) (buffers_ s)
  else
    let bs := buffers_ s ++ [currentBuffer_ s] in
    match nextBuffer_ s with
    | Some b => log b None bs
    | None => log newBuf None bs
    end.

Definition stop (s : AsyncLogging) : AsyncLogging :=
  mkAsync false (currentBuffer_ s) (nextBuffer_ s) (buffers_ s) (newBuffer1 s) (newBuffer2 s) (pc s) (output s) (dropped s).

Definition set_pc (v : place) (s : AsyncLogging) : AsyncLogging :=
  mkAsync (running_ s) (currentBuffer_ s) (nextBuffer_ s) (buffers_ s) (newBuffer1 s) (newBuffer2 s) v (output s) (dropped s).

(** [newBuffer && newBuffer->length() == 0] *)
Definition is_empty (b : option FixedBuffer) : bool :=
  match b with Some b => bool_decide (FixedBuf.length b = 0) | None => false end.

(** The rest of the critical section: the swaps. *)
Definition swap_out (s : AsyncLogging) : outcome AsyncLogging :=
  match newBuffer1 s with
  | None => Stop AssertFailed
  | Some b1 =>
      let bs := buffers_ s ++ [currentBuffer_ s] in
      let '(next, b2) := match nextBuffer_ s with Some b => (Some b, newBuffer2 s) | None => (newBuffer2 s, None) end in
      Ret (mkAsync (running_ s) b1 next [] None b2 (Writing bs) (output s) (dropped s))
  end.

(** The loop's test, its assertions, and the check of [buffers_] under the lock. *)
Definition backend_top (s : AsyncLogging) : outcome AsyncLogging :=
  if running_ s then
    assert* is_empty (newBuffer1 s) in
    assert* is_empty (newBuffer2 s) in
    if decide (buffers_ s = []) then Ret (set_pc Waiting s) else swap_out s
  else Ret (set_pc Done s).

Definition drop_notice (n : Z) : list byte :=
  snprintf 256 (bytes "Dropped log messages at " ++ now_text ++ bytes ", " ++ fmt_d n ++ bytes " larger buffers" ++ [Byte.x0a]).

(** [output.append(data, length)] for each buffer *)
Fixpoint write_out (bs : list FixedBuffer) : outcome (list byte) :=
  match bs with
  | [] => Ret []
  | b :: bs => let* d := load (FixedBuf.length b) (data_ b) in let* rest := write_out bs in Ret (d ++ rest)
  end.

(** [newBuffer = buffersToWrite.pop_back(); newBuffer->reset()] if it is null *)
Definition refill (nb : option FixedBuffer) (bs : list FixedBuffer) : outcome (option FixedBuffer * list FixedBuffer) :=
  match nb with
  | Some b => Ret (Some b, bs)
  | None =>
      match rev bs with
      | [] => Stop AssertFailed
      | b :: rest => Ret (Some (FixedBuf.reset b), rev rest)
      end
  end.

Definition backend_write (bs : list FixedBuffer) (s : AsyncLogging) : outcome AsyncLogging :=
  assert* bool_decide (bs <> []) in
  let many := bool_decide (25 < zlen bs) in
  let notice := if many then drop_notice (u64 (zlen bs - 2)) else [] in
  let bs := if many then take 2 bs else bs in
  let* text := write_out bs in
  let bs := if decide (2 < zlen bs) then take 2 bs else bs in
  let* (b1, bs) := refill (newBuffer1 s) bs in
  let* (b2, bs) := refill (newBuffer2 s) bs in
  Ret (mkAsync (running_ s) (currentBuffer_ s) (nextBuffer_ s) (buffers_ s) b1 b2 Top (output s ++ notice ++ text)
         (dropped s || many)).

Inductive action :=
  | Append (logline : list byte) (len : Z)
  | StopReq
  | Backend.

(** One step: a thread appends or stops, or the background thread goes on (a
    waiting thread is woken, or its wait times out). *)
Definition step (a : action) (s : AsyncLogging) : outcome AsyncLogging :=
  match a with
  | Append logline len => append logline len s
  | StopReq => Ret (stop s)
  | Backend =>
      match pc s with
      | Top => backend_top s
      | Waiting => swap_out s
      | Writing bs => backend_write bs s
      | Done => Ret s
      end
  end.

Fixpoint run (acts : list action) (s : AsyncLogging) : outcome AsyncLogging :=
  match acts with
  | [] => Ret s
  | a :: acts => let* s := step a s in run acts s
  end.

(** A line that can be read and that the [int] holds. *)
Definition act_ok (a : action) : Prop :=
  match a with Append logline len => 0 <= len <= zlen logline /\ len < 2 ^ 31 | _ => True end.

(** The lines a sequence of actions appends, as far as a buffer can hold them: the
    code drops a line of [SIZE] bytes or more, which no buffer has room for. *)
Definition line_text (a : action) : list byte :=
  match a with Append logline len => if decide (len < SIZE) then ztake len logline else [] | _ => [] end.
Definition lines_text (acts : list action) : list byte := flat_map line_text acts.

(** The text that is still in memory. *)
Definition in_flight (s : AsyncLogging) : list FixedBuffer :=
  match pc s with Writing bs => bs | _ => [] end ++ buffers_ s ++ [currentBuffer_ s].
Definition pending (s : AsyncLogging) : list byte := flat_map contents (in_flight s).

Definition empty_ok (b : FixedBuffer) : Prop := fixed_ok SIZE b /\ cur_ b = 0.

(** [text] is what was appended so far. *)
Record Inv (text : list byte) (s : AsyncLogging) : Prop := mkInv {
  inv_bufs : Forall (fixed_ok SIZE) (in_flight s);
  inv_next : match nextBuffer_ s with Some b => empty_ok b | None => buffers_ s <> [] end;
  inv_new : match pc s with
    | Writing bs => newBuffer1 s = None /\ bs <> [] /\
        match newBuffer2 s with Some b => empty_ok b | None => (2 <= length bs)%nat end
    | Done => True
    | _ => exists b1 b2, newBuffer1 s = Some b1 /\ newBuffer2 s = Some b2 /\ empty_ok b1 /\ empty_ok b2
    end;
  (** nothing is lost or reordered unless a backlog was dropped *)
  inv_text : dropped s = false -> output s ++ pending s = text
}.

Context (SIZE_ok : 0 <= SIZE < 2 ^ 31) (fresh_ok : zlen fresh = SIZE).

Lemma newBuf_ok : empty_ok newBuf.
Proof. split; [split; [cbn; lia|done]|done]. Qed.

Lemma bzero_ok : empty_ok (FixedBuf.bzero newBuf).
Proof.
  split; [|done]. split; [cbn; lia|]. unfold FixedBuf.bzero. cbn [data_]. rewrite <- fresh_ok. unfold zlen.
  by rewrite length_replicate.
Qed.

Lemma empty_contents b : empty_ok b -> contents b = [].
Proof. intros [_ E]. unfold contents. rewrite E. by apply ztake_0. Qed.

Lemma newAsync_inv : Inv [] newAsync.
Proof.
  pose proof bzero_ok as B. constructor; cbn.
  - constructor; [apply B|constructor].
  - done.
  - by eexists _, _.
  - intros _. unfold pending. cbn. by rewrite empty_contents.
Qed.

Lemma pending_app s : pending s = flat_map contents (match pc s with Writing bs => bs | _ => [] end ++ buffers_ s) ++ contents (currentBuffer_ s).
Proof. unfold pending, in_flight. rewrite app_assoc, flat_map_app. cbn. by rewrite app_nil_r. Qed.

(** Logging a line into [b]. *)
Lemma log_line b logline len :
  fixed_ok SIZE b -> 0 <= len <= zlen logline -> len < 2 ^ 31 ->
  exists b', FixedBuf.append logline (u64 len) b = Ret b' /\ fixed_ok SIZE b' /\
    contents b' = contents b ++ (if decide (len < SIZE - cur_ b) then ztake len logline else []).
Proof.
  intros W H L. rewrite wrap_small by lia. destruct (append_fixed SIZE b logline len W ltac:(lia) H) as (b' & E & W' & C).
  exists b'. split_and!; [done|done|]. rewrite C. destruct (decide (len < SIZE - cur_ b)); [done|by rewrite app_nil_r].
Qed.

Ltac acs := cbn [running_ currentBuffer_ nextBuffer_ buffers_ newBuffer1 newBuffer2 pc output dropped].

Lemma append_inv text logline len s :
  Inv text s -> 0 <= len <= zlen logline -> len < 2 ^ 31 ->
  exists s', append logline len s = Ret s' /\ Inv (text ++ line_text (Append logline len)) s'.
Proof.
  intros [B N W T] H L. unfold append. unfold in_flight in B. rewrite app_assoc in B. apply Forall_app in B as [B Bc].
  inversion_clear Bc as [|? ? Wc _].
  assert (exists b, nextBuffer_ s = Some b /\ empty_ok b \/ nextBuffer_ s = None /\ b = newBuf) as (nb & Hn).
  { destruct (nextBuffer_ s) as [b|]; [exists b; by left|exists newBuf; by right]. }
  assert (empty_ok nb) as [Wn Cn] by (destruct Hn as [[_ ?] | [_ ->]]; [done|apply newBuf_ok]).
  destruct (log_line (currentBuffer_ s) logline len Wc H L) as (b1 & E1 & W1 & C1).
  destruct (log_line nb logline len Wn H L) as (b2 & E2 & W2 & C2). rewrite (empty_contents nb) in C2 by done.
  rewrite Cn, Z.sub_0_r in C2. cbn [app] in C2. cbn [line_text].
  rewrite (avail_fixed SIZE) by (done || lia). destruct (decide (SIZE - cur_ (currentBuffer_ s) > len)) as [D|D].
  - rewrite E1. cbn [obind]. eexists. split; [reflexivity|]. constructor; acs; try done.
    + unfold in_flight. cbn. rewrite app_assoc. apply Forall_app. split; [done|by apply Forall_singleton].
    + intros Dr. specialize (T Dr). rewrite pending_app in T. rewrite pending_app. acs. rewrite C1, <- T. destruct Wc as [Wc _].
      rewrite !decide_True by lia. by rewrite <- !app_assoc.
  - assert (forall nx, nx = None -> exists s', (let* b' := FixedBuf.append logline (u64 len) nb in
      Ret (mkAsync (running_ s) b' nx (buffers_ s ++ [currentBuffer_ s]) (newBuffer1 s) (newBuffer2 s) (pc s) (output s) (dropped s))) = Ret s' /\
      Inv (text ++ (if decide (len < SIZE) then ztake len logline else [])) s') as K.
    { intros nx ->. rewrite E2. cbn [obind]. eexists. split; [reflexivity|]. constructor; acs; try done.
      - unfold in_flight. cbn. rewrite !app_assoc. apply Forall_app. split; [|by apply Forall_singleton].
        apply Forall_app. split; [done|by apply Forall_singleton].
      - by destruct (buffers_ s).
      - intros Dr. specialize (T Dr). rewrite pending_app in T. rewrite pending_app. acs. rewrite C2, <- T, app_assoc.
        rewrite !flat_map_app. cbn [flat_map]. by rewrite app_nil_r, <- !app_assoc. }
    destruct Hn as [[-> _] | [-> ->]]; by apply K.
Qed.

Lemma swap_out_inv text s : Inv text s -> match pc s with Top | Waiting => True | _ => False end -> exists s', swap_out s = Ret s' /\ Inv text s'.
Proof.
  intros [B N W T] Hp. unfold swap_out.
  assert (exists b1 b2, newBuffer1 s = Some b1 /\ newBuffer2 s = Some b2 /\ empty_ok b1 /\ empty_ok b2) as (b1 & b2 & -> & -> & O1 & O2)
    by (by destruct (pc s)).
  assert (in_flight s = buffers_ s ++ [currentBuffer_ s]) as Fl by (unfold in_flight; by destruct (pc s)).
  assert (forall st, pc st = Writing (buffers_ s ++ [currentBuffer_ s]) -> buffers_ st = [] -> currentBuffer_ st = b1 ->
    output st = output s -> dropped st = dropped s -> newBuffer1 st = None ->
    (exists b, nextBuffer_ st = Some b /\ empty_ok b) ->
    match newBuffer2 st with Some b => empty_ok b | None => (2 <= length (buffers_ s ++ [currentBuffer_ s]))%nat end -> Inv text st) as K.
  { intros st E1 E2 E3 E4 E6 E7 (bn & E8 & On) E9. constructor.
    - unfold in_flight. rewrite E1, E2, E3, <- Fl. apply Forall_app. split; [done|]. apply Forall_singleton; apply O1.
    - by rewrite E8.
    - rewrite E1. split_and!; [done| |done]. by destruct (buffers_ s).
    - rewrite E4, E6. intros Dr. rewrite <- (T Dr). f_equal. rewrite pending_app, E1, E2, E3, (empty_contents b1) by done.
      unfold pending. by rewrite Fl, !app_nil_r. }
  destruct (nextBuffer_ s) as [nb|] eqn:Hn; (eexists; split; [reflexivity|]); apply K; cbn; try done; [by eexists|by eexists|].
  rewrite length_app. cbn. destruct (buffers_ s); cbn; [done|lia].
Qed.

Lemma write_out_ok bs : Forall (fixed_ok SIZE) bs -> write_out bs = Ret (flat_map contents bs).
Proof.
  induction 1 as [|b bs [H E] F IH]; cbn [write_out flat_map]; [done|].
  unfold FixedBuf.length. rewrite swrap_small, load_ok by lia. cbn [obind]. by rewrite IH.
Qed.

Lemma reset_empty b : fixed_ok SIZE b -> empty_ok (FixedBuf.reset b).
Proof. intros W. split; [by apply reset_fixed|done]. Qed.

(** Refilling both spare buffers from the one or two that were written. *)
Lemma refill_ok nb2 bs :
  Forall (fixed_ok SIZE) bs -> bs <> [] -> match nb2 with Some b => empty_ok b | None => (2 <= length bs)%nat end ->
  exists b1 bs1 b2 bs2, refill None bs = Ret (Some b1, bs1) /\ refill nb2 bs1 = Ret (Some b2, bs2) /\ empty_ok b1 /\ empty_ok b2.
Proof.
  intros F Ne H. destruct bs as [|x l] using rev_ind; [done|]. clear IHl. apply Forall_app in F as [F Fx].
  inversion_clear Fx as [|? ? Wx _]. unfold refill at 1. rewrite rev_app_distr. cbn [rev app]. rewrite rev_involutive.
  destruct nb2 as [b|].
  - eexists _, _, _, _. split; [reflexivity|]. split; [reflexivity|]. split; [by apply reset_empty|done].
  - destruct l as [|y k] using rev_ind; [cbn in H; lia|]. clear IHk. apply Forall_app in F as [F Fy].
    inversion_clear Fy as [|? ? Wy _].
    eexists _, _, _, _. split; [reflexivity|]. unfold refill. rewrite rev_app_distr. cbn [rev app].
    split; [reflexivity|]. split; by apply reset_empty.
Qed.

Lemma backend_write_inv text bs s : Inv text s -> pc s = Writing bs -> exists s', backend_write bs s = Ret s' /\ Inv text s'.
Proof.
  intros [B N W T] Hp. rewrite Hp in W. destruct W as (N1 & Ne & N2). unfold in_flight in B. rewrite Hp in B.
  apply Forall_app in B as [Bw Bf]. unfold backend_write. rewrite check_true by (by apply bool_decide_eq_true). cbv zeta.
  set (many := bool_decide (25 < zlen bs)). set (bs1 := if many then take 2 bs else bs).
  assert (Forall (fixed_ok SIZE) bs1) as F1 by (unfold bs1; destruct many; [by apply Forall_take|done]).
  rewrite (write_out_ok bs1 F1). cbn [obind]. set (bs2 := if decide (2 < zlen bs1) then take 2 bs1 else bs1).
  assert (Forall (fixed_ok SIZE) bs2) as F2 by (unfold bs2; destruct (decide _); [by apply Forall_take|done]).
  assert (length bs2 = Nat.min 2 (length bs)) as L2.
  { assert (Nat.min 2 (length bs1) = Nat.min 2 (length bs)) as <- by (unfold bs1; destruct many; rewrite ?length_take; lia).
    unfold bs2. destruct (decide (2 < zlen bs1)) as [D|D]; unfold zlen in D; rewrite ?length_take; lia. }
  rewrite N1. destruct (refill_ok (newBuffer2 s) bs2) as (b1 & l1 & b2 & l2 & -> & E2 & O1 & O2).
  { done. }
  { intros ->. destruct bs; [done|cbn in L2; lia]. }
  { destruct (newBuffer2 s); [done|lia]. }
  cbn [obind]. rewrite E2. cbn [obind]. eexists. split; [reflexivity|]. constructor; acs; try done.
  - by eexists _, _.
  - intros [Dr Dm]%orb_false_elim. specialize (T Dr). rewrite <- T. unfold pending, in_flight. rewrite Hp. cbn.
    unfold bs1. rewrite Dm. by rewrite !flat_map_app, <- !app_assoc.
Qed.

Lemma async_step_inv text a s : Inv text s -> act_ok a -> exists s', step a s = Ret s' /\ Inv (text ++ line_text a) s'.
Proof.
  intros I A. destruct a as [logline len| |]; cbn [step act_ok] in *; [destruct A; by apply append_inv| |];
    cbn [line_text]; rewrite app_nil_r.
  - eexists. split; [reflexivity|]. destruct I. by constructor.
  - destruct (pc s) as [| |bs|] eqn:Hp.
    + unfold backend_top. destruct (running_ s).
      2: { eexists. split; [reflexivity|]. destruct I as [B N W T]. unfold pending, in_flight in *. rewrite Hp in *. by constructor. }
      pose proof (inv_new _ s I) as Nw. rewrite Hp in Nw. destruct Nw as (b1 & b2 & E1 & E2 & O1 & O2).
      assert (forall b, empty_ok b -> is_empty (Some b) = true) as Em.
      { intros b [_ Eb]. apply bool_decide_eq_true. unfold FixedBuf.length. by rewrite Eb. }
      rewrite E1, E2, !check_true by (by apply Em). case_decide as D; [|apply swap_out_inv; [done|by rewrite Hp]].
      eexists. split; [reflexivity|]. destruct I as [B N W T]. unfold pending, in_flight in *. rewrite Hp in *. by constructor.
    + apply swap_out_inv; [done|by rewrite Hp].
    + by apply backend_write_inv.
    + by eexists.
Qed.

End Async.


(** Stopping can lose lines: the background thread leaves its loop as soon as
    [running_] is false, without looking at the buffers again. A line that is
    appended while it writes, before [stop()], never reaches the file. *)
Theorem stop_loses_lines : exists s,
  run (replicate 8 Byte.x2e) [] [Append (bytes "one") 3; Backend; Backend; Append (bytes "two") 3; StopReq; Backend; Backend]
    (newAsync (replicate 8 Byte.x2e)) = Ret s /\
  pc s = Done /\ output s = bytes "one" /\ pending s = bytes "two".
Proof. eexists. split; [vm_compute; reflexivity|]. split_and!; reflexivity. Qed.

(** A line that no buffer has room for is not logged, and the buffer that was in use
    is pushed out all the same. *)
Example oversize_line_dropped : exists s,
  run (replicate 8 Byte.x2e) [] [Append (bytes "one") 3; Append (bytes "too long") 8; Append (bytes "two") 3] (newAsync (replicate 8 Byte.x2e)) = Ret s /\
  dropped s = false /\ output s ++ pending s = bytes "onetwo".
Proof. eexists. split; [vm_compute; reflexivity|]. split_and!; reflexivity. Qed.
