(* ===== verification/Date.v ===== *)
(** * Date (src/muduo/muduo/base/Date.h, Date.cc)

    Dates as Julian day numbers, with the conversions from and to year, month and
    day. [int] arithmetic wraps at 32 bits and divisions truncate. *)

From S2P Require Import Prelude Format.

Record YearMonthDay := mkYMD { year : Z; month : Z; day : Z }.

Definition getJulianDayNumber (year month day : Z) : Z :=
  let a := i32 (14 - month) /c 12 in
  let y := i32 (i32 (year + 4800) - a) in
  let m := i32 (i32 (month + i32 (12 * a)) - 3) in
  i32 (i32 (i32 (i32 (i32 (i32 (day + i32 (i32 (153 * m) + 2) /c 5) + i32 (y * 365)) + y /c 4) - y /c 100) + y /c 400) - 32045).

Definition getYearMonthDay (julianDayNumber : Z) : YearMonthDay :=
  let a := i32 (julianDayNumber + 32044) in
  let b := i32 (i32 (4 * a) + 3) /c 146097 in
  let c := i32 (a - i32 (b * 146097) /c 4) in
  let d := i32 (i32 (4 * c) + 3) /c 1461 in
  let e := i32 (c - i32 (1461 * d) /c 4) in
  let m := i32 (i32 (5 * e) + 2) /c 153 in
  mkYMD (i32 (i32 (i32 (i32 (b * 100) + d) - 4800) + m /c 10)) (i32 (i32 (m + 3) - i32 (12 * (m /c 10))))
        (i32 (i32 (e - i32 (i32 (153 * m) + 2) /c 5) + 1)).

Definition kJulianDayOf1970_01_01 : Z := getJulianDayNumber 1970 1 1.
Definition kDaysPerWeek : Z := 7.

(** A date is its [julianDayNumber_]. *)
Definition Date : Type := Z.
Definition invalid_date : Date := 0.
Definition date_of (y m d : Z) : Date := getJulianDayNumber y m d.
(** From a [struct tm]. *)
Definition date_of_tm (tm_year tm_mon tm_mday : Z) : Date :=
  getJulianDayNumber (i32 (tm_year + 1900)) (i32 (tm_mon + 1)) tm_mday.
Definition valid_date (d : Date) : bool := bool_decide (0 < d).
Definition yearMonthDay (d : Date) : YearMonthDay := getYearMonthDay d.
Definition weekDay (d : Date) : Z := i32 (d + 1) %c kDaysPerWeek.
Definition toIsoString (d : Date) : list byte :=
  let ymd := yearMonthDay d in
  snprintf 32 (fmt_pd 4 (year ymd) ++ bytes "-" ++ fmt_0d 2 (month ymd) ++ bytes "-" ++ fmt_0d 2 (day ymd)).

(** ** The Gregorian calendar *)

Definition leap (y : Z) : bool :=
  bool_decide (y mod 4 = 0) && (negb (bool_decide (y mod 100 = 0)) || bool_decide (y mod 400 = 0)).

Definition month_days (y m : Z) : Z :=
  if decide (m = 2) then if leap y then 29 else 28
  else if decide (m = 4 \/ m = 6 \/ m = 9 \/ m = 11) then 30 else 31.

(** A date of the calendar, in a range of years that [int] can handle. *)
Definition in_calendar (d : YearMonthDay) : Prop :=
  -4799 <= year d <= 1000000 /\ 1 <= month d <= 12 /\ 1 <= day d <= month_days (year d) (month d).

Definition next_day (d : YearMonthDay) : YearMonthDay :=
  if decide (day d < month_days (year d) (month d)) then mkYMD (year d) (month d) (day d + 1)
  else if decide (month d < 12) then mkYMD (year d) (month d + 1) 1
  else mkYMD (year d + 1) 1 1.

Definition julian (d : YearMonthDay) : Z := getJulianDayNumber (year d) (month d) (day d).

(** Linear arithmetic with divisions by constants. *)
Ltac divlia := Z.to_euclidean_division_equations; lia.

(** The formula without the widths. *)
Definition days_before (m' : Z) : Z := (153 * m' + 2) / 5.

Lemma julian_formula y m d :
  -4799 <= y <= 1000001 -> 1 <= m <= 12 -> 1 <= d <= 31 ->
  exists y' m', getJulianDayNumber y m d = d + days_before m' + y' * 365 + y' / 4 - y' / 100 + y' / 400 - 32045 /\
    0 <= y' <= 1004801 /\
    ((m <= 2 /\ y' = y + 4799 /\ m' = m + 9) \/ (3 <= m /\ y' = y + 4800 /\ m' = m - 3)).
Proof.
  intros Hy Hm Hd. unfold getJulianDayNumber, days_before.
  rewrite (swrap_small 32 (14 - m)) by lia. rewrite (Z.quot_div_nonneg (14 - m) 12) by lia.
  assert ((14 - m) / 12 = 1 /\ m <= 2 \/ (14 - m) / 12 = 0 /\ 3 <= m) as Ha by divlia.
  set (a := (14 - m) / 12) in *. clearbody a.
  exists (y + 4800 - a), (m + 12 * a - 3).
  rewrite !(swrap_small 32 (12 * a)), !(swrap_small 32 (y + 4800)), !(swrap_small 32 (y + 4800 - a)) by lia.
  rewrite !(swrap_small 32 (m + 12 * a)), !(swrap_small 32 (m + 12 * a - 3)) by lia.
  set (y' := y + 4800 - a) in *. set (m' := m + 12 * a - 3) in *.
  assert (0 <= y' <= 1004801) as By by (unfold y'; lia). assert (0 <= m' <= 11) as Bm by (unfold m'; lia).
  assert ((m <= 2 /\ y' = y + 4799 /\ m' = m + 9) \/ (3 <= m /\ y' = y + 4800 /\ m' = m - 3)) as Cs by (unfold y', m'; lia).
  clearbody y' m'.
  rewrite (swrap_small 32 (153 * m')), (swrap_small 32 (153 * m' + 2)), (swrap_small 32 (y' * 365)) by lia.
  rewrite !Z.quot_div_nonneg by lia. split; [|done].
  assert (0 <= (153 * m' + 2) / 5 <= 337) as Bt by divlia. assert (0 <= y' / 4 <= y') as B4 by divlia.
  assert (0 <= y' / 100 <= y') as B100 by divlia. assert (0 <= y' / 400 <= y') as B400 by divlia.
  set (t := (153 * m' + 2) / 5) in *. set (q4 := y' / 4) in *. set (q100 := y' / 100) in *. set (q400 := y' / 400) in *.
  clearbody t q4 q100 q400. rewrite (swrap_small 32 (d + t)), (swrap_small 32 (d + t + _)) by lia.
  rewrite (swrap_small 32 (d + t + _ + _)), (swrap_small 32 (d + t + _ + _ - _)) by lia.
  rewrite (swrap_small 32 (d + t + _ + _ - _ + _)), swrap_small by lia. done.
Qed.

(** Years of the formula begin in March: four centuries, centuries, leap years
    and years. *)
Lemma year_parts y' : 0 <= y' ->
  exists q r s t, y' = 400 * q + 100 * r + 4 * s + t /\ 0 <= q /\ 0 <= r <= 3 /\ 0 <= s <= 24 /\ 0 <= t <= 3 /\
    y' / 4 = 100 * q + 25 * r + s /\ y' / 100 = 4 * q + r /\ y' / 400 = q.
Proof.
  intros H. exists (y' / 400), (y' mod 400 / 100), (y' mod 100 / 4), (y' mod 4). divlia.
Qed.

(** The leap years, counted from March. *)
Lemma leap_parts y y' q r s t :
  y' = y + 4799 -> y' = 400 * q + 100 * r + 4 * s + t -> 0 <= r <= 3 -> 0 <= s <= 24 -> 0 <= t <= 3 ->
  leap y = true <-> t = 3 /\ (s <> 24 \/ r = 3).
Proof.
  intros Hy E Hr Hs Ht. unfold leap. rewrite andb_true_iff, orb_true_iff, negb_true_iff, !bool_decide_eq_true, bool_decide_eq_false.
  divlia.
Qed.

(** The day of the year, from March. *)
Lemma day_of_year m m' d :
  (m <= 2 /\ m' = m + 9) \/ (3 <= m /\ m' = m - 3) -> 1 <= m <= 12 -> 1 <= d <= 31 -> (m = 2 -> d <= 29) ->
  (m = 4 \/ m = 6 \/ m = 9 \/ m = 11 -> d <= 30) ->
  let e := d - 1 + days_before m' in
  0 <= e <= 365 /\ (e = 365 -> m = 2 /\ d = 29) /\ (5 * e + 2) / 153 = m' /\ 0 <= m' <= 11.
Proof.
  intros Hm Bm Hd H2 H30 e. unfold e, days_before.
  assert (m' = 0 \/ m' = 1 \/ m' = 2 \/ m' = 3 \/ m' = 4 \/ m' = 5 \/ m' = 6 \/ m' = 7 \/ m' = 8 \/ m' = 9 \/ m' = 10 \/ m' = 11) as K by lia.
  repeat destruct K as [-> | K]; try subst m'; cbn [Z.mul Z.add Z.div]; divlia.
Qed.

Lemma month_days_bounds y m d :
  1 <= d <= month_days y m -> d <= 31 /\ (m = 2 -> d <= 29) /\ (m = 2 -> d = 29 -> leap y = true) /\
  (m = 4 \/ m = 6 \/ m = 9 \/ m = 11 -> d <= 30).
Proof. unfold month_days. intros H. repeat case_decide; destruct (leap y); split_and!; intros; (done || lia). Qed.

(** The formulas that undo [getJulianDayNumber], on the parts of the date. *)
Lemma century_parts q r s t e :
  0 <= q -> 0 <= r <= 3 -> 0 <= s <= 24 -> 0 <= t <= 3 -> 0 <= e <= 365 -> (e = 365 -> t = 3 /\ (s <> 24 \/ r = 3)) ->
  let a := 146097 * q + 36524 * r + 1461 * s + 365 * t + e in
  (4 * a + 3) / 146097 = 4 * q + r /\ (4 * q + r) * 146097 / 4 = 146097 * q + 36524 * r /\
  (4 * (1461 * s + 365 * t + e) + 3) / 1461 = 4 * s + t /\ 1461 * (4 * s + t) / 4 = 1461 * s + 365 * t.
Proof. intros. unfold a. split_and!; divlia. Qed.

Lemma getYearMonthDay_julian d : in_calendar d -> getYearMonthDay (julian d) = d.
Proof.
  destruct d as [y m d]. intros (Hy & Hm & Hd). cbn [year month day] in *.
  destruct (month_days_bounds y m d Hd) as (D31 & D2 & Dl & D30).
  unfold julian. cbn [year month day].
  destruct (julian_formula y m d) as (y' & m' & -> & By & Cs); [lia..|].
  destruct (year_parts y' ltac:(lia)) as (q & r & s & t & Ey & Bq & Br & Bs & Bt & E4 & E100 & E400).
  destruct (day_of_year m m' d) as (Be & Bl & Em & Bm); [lia|lia|lia|done|done|].
  set (e := d - 1 + days_before m') in *.
  assert (e = 365 -> t = 3 /\ (s <> 24 \/ r = 3)) as Le.
  { intros K. destruct (Bl K) as [-> ->]. apply (leap_parts y y' q r s t); [lia|done..|]. by apply Dl. }
  destruct (century_parts q r s t e Bq Br Bs Bt Be Le) as (Q1 & Q2 & Q3 & Q4).
  set (a := 146097 * q + 36524 * r + 1461 * s + 365 * t + e) in *.
  assert (d + days_before m' + y' * 365 + y' / 4 - y' / 100 + y' / 400 - 32045 = a - 32044) as ->.
  { rewrite E4, E100, E400. unfold a, e. rewrite Ey. lia. }
  assert (q <= 2513) as Bq' by lia. assert (0 <= a <= 2 ^ 29) as Ba by (unfold a; lia).
  unfold getYearMonthDay. replace (a - 32044 + 32044) with a by lia.
  rewrite (swrap_small 32 a), (swrap_small 32 (4 * a)), (swrap_small 32 (4 * a + 3)) by lia.
  rewrite (Z.quot_div_nonneg (4 * a + 3)), Q1 by lia.
  rewrite (swrap_small 32 ((4 * q + r) * 146097)), (Z.quot_div_nonneg ((4 * q + r) * 146097)), Q2 by lia.
  replace (a - (146097 * q + 36524 * r)) with (1461 * s + 365 * t + e) by (unfold a; lia).
  set (c := 1461 * s + 365 * t + e) in *. assert (0 <= c <= 40000) as Bc by (unfold c; lia).
  rewrite (swrap_small 32 c), (swrap_small 32 (4 * c)), (swrap_small 32 (4 * c + 3)) by lia.
  rewrite (Z.quot_div_nonneg (4 * c + 3)), Q3 by lia.
  rewrite (swrap_small 32 (1461 * (4 * s + t))), (Z.quot_div_nonneg (1461 * (4 * s + t))), Q4 by lia.
  replace (c - (1461 * s + 365 * t)) with e by (unfold c; lia).
  rewrite (swrap_small 32 e), (swrap_small 32 (5 * e)), (swrap_small 32 (5 * e + 2)) by lia.
  rewrite (Z.quot_div_nonneg (5 * e + 2)), Em by lia.
  rewrite (swrap_small 32 (153 * m')), (swrap_small 32 (153 * m' + 2)), !Z.quot_div_nonneg by lia.
  fold (days_before m'). assert (m' / 10 = if decide (10 <= m') then 1 else 0) as -> by (case_decide; divlia).
  f_equal.
  - rewrite (swrap_small 32 ((4 * q + r) * 100)), (swrap_small 32 ((4 * q + r) * 100 + _)) by lia.
    rewrite (swrap_small 32 ((4 * q + r) * 100 + _ - _)) by lia. case_decide; rewrite swrap_small; lia.
  - rewrite (swrap_small 32 (m' + 3)) by lia.
    case_decide; rewrite (swrap_small 32 (12 * _)), swrap_small by lia; lia.
  - replace (e - days_before m') with (d - 1) by (unfold e; lia). rewrite (swrap_small 32 (d - 1)), swrap_small by lia. lia.
Qed.

(** The month after the last day of a month. *)
Lemma next_month y m : 1 <= m <= 11 -> -4799 <= y <= 1000000 ->
  getJulianDayNumber y (m + 1) 1 = getJulianDayNumber y m (month_days y m) + 1.
Proof.
  intros Hm Hy. assert (28 <= month_days y m <= 31) as Bd by (unfold month_days; repeat case_decide; destruct (leap y); lia).
  destruct (julian_formula y m (month_days y m)) as (y1 & m1 & -> & B1 & C1); [lia..|].
  destruct (julian_formula y (m + 1) 1) as (y2 & m2 & -> & B2 & C2); [lia..|].
  destruct (decide (m = 2)) as [-> | N].
  - assert (y2 = y1 + 1 /\ m1 = 11 /\ m2 = 0) as (-> & -> & ->) by lia.
    destruct (year_parts y1 ltac:(lia)) as (q & r & s & t & Ey & Bq & Br & Bs & Bt & -> & -> & ->).
    pose proof (leap_parts y y1 q r s t ltac:(lia) Ey Br Bs Bt) as L.
    unfold month_days, days_before. rewrite decide_True by done. destruct (leap y).
    + destruct L as [L _]. specialize (L eq_refl). divlia.
    + assert (~ (t = 3 /\ (s <> 24 \/ r = 3))) as L' by (intros K; by apply L in K). divlia.
  - assert (y2 = y1 /\ m2 = m1 + 1) as (-> & ->) by lia.
    assert (days_before (m1 + 1) = days_before m1 + month_days y m); [|lia].
    unfold month_days, days_before. rewrite decide_False by done. case_decide; divlia.
Qed.

Lemma next_day_julian d :
  in_calendar d -> year d < 1000000 -> julian (next_day d) = julian d + 1 /\ julian d < 2 ^ 30.
Proof.
  intros H Hy.
  destruct d as [y m d]. destruct H as (Hy' & Hm & Hd). cbn [year month day] in *.
  destruct (month_days_bounds y m d Hd) as (D31 & D2 & Dl & D30).
  unfold next_day, julian. cbn [year month day].
  destruct (julian_formula y m d) as (y' & m' & E & By & Cs); [lia..|]. split.
  2: { rewrite E. unfold days_before. divlia. }
  assert (d < month_days y m -> month_days y m <= 31) as M31 by (unfold month_days; repeat case_decide; destruct (leap y); lia).
  case_decide as D; cbn [year month day].
  - destruct (julian_formula y m (d + 1)) as (y2 & m2 & -> & B2 & C2); [lia..|]. rewrite E.
    assert (y2 = y' /\ m2 = m') as (-> & ->) by lia. lia.
  - replace d with (month_days y m) by lia. case_decide as D2'; cbn [year month day]; [apply next_month; lia|].
    assert (m = 12) as -> by lia. replace (month_days y 12) with 31 by done.
    destruct (julian_formula y 12 31) as (y1 & m1 & -> & B1 & C1); [lia..|].
    destruct (julian_formula (y + 1) 1 1) as (y2 & m2 & -> & B2 & C2); [lia..|].
    assert (y2 = y1 /\ m1 = 9 /\ m2 = 10) as (-> & -> & ->) by lia. unfold days_before. divlia.
Qed.

Lemma next_day_calendar d : in_calendar d -> year d < 1000000 -> in_calendar (next_day d).
Proof.
  destruct d as [y m d]. unfold in_calendar, next_day. cbn [year month day]. intros (Hy & Hm & Hd) H.
  assert (forall y m, 1 <= month_days y m) as P by (intros y0 m0; unfold month_days; repeat case_decide; destruct (leap y0); lia).
  repeat case_decide; cbn [year month day]; split_and!; try lia; apply P.
Qed.

(** Every day number in this range is the number of a date. *)
Definition first_julian : Z := julian (mkYMD (-4799) 1 1).

Lemma julian_year d : in_calendar d -> julian d <= 365000000 -> year d < 1000000.
Proof.
  destruct d as [y m d]. intros (Hy & Hm & Hd). cbn [year month day julian] in *. unfold julian. cbn [year month day].
  destruct (month_days_bounds y m d Hd) as (D31 & _).
  destruct (julian_formula y m d) as (y' & m' & -> & By & Cs); [lia..|]. unfold days_before. intros H. divlia.
Qed.

Lemma julian_onto j : first_julian <= j <= 365000000 -> exists d, in_calendar d /\ julian d = j.
Proof.
  intros H. remember (Z.to_nat (j - first_julian)) as n eqn:En. revert j H En. induction n as [|n IH]; intros j H En.
  - exists (mkYMD (-4799) 1 1). split; [split_and!; by vm_compute|]. change (first_julian = j). lia.
  - destruct (IH (j - 1)) as (d & Cd & Ed); [lia|lia|]. assert (year d < 1000000) as Yd by (apply julian_year; [done|lia]).
    exists (next_day d). split; [by apply next_day_calendar|]. destruct (next_day_julian d Cd Yd). lia.
Qed.

(** The Julian day numbers count the days of the Gregorian calendar, from the
    year -4799 to the year 1000000: [getYearMonthDay] gives back the year, month and
    day that [getJulianDayNumber] was given; the day after a date, by the rules for
    the lengths of months and for leap years, has the next number; every number in
    the range is the number of a date; with 1970-01-01 at 2440588 and the weekday
    going up by one modulo seven. *)
Theorem julian_counts_days d :
  in_calendar d -> year d < 1000000 ->
  getYearMonthDay (julian d) = d /\
  julian (next_day d) = julian d + 1 /\ kJulianDayOf1970_01_01 = 2440588 /\
  (forall j, first_julian <= j <= 365000000 -> julian (getYearMonthDay j) = j) /\
  (0 < julian d -> weekDay (julian (next_day d)) = (weekDay (julian d) + 1) mod 7).
Proof.
  intros H Hy. destruct (next_day_julian d H Hy) as [K B].
  split; [by apply getYearMonthDay_julian|]. split; [done|]. split; [by vm_compute|]. split.
  - intros j Hj. destruct (julian_onto j Hj) as (d' & Cd & <-). by rewrite getYearMonthDay_julian.
  - intros P. unfold weekDay, kDaysPerWeek. rewrite K.
    rewrite !swrap_small by lia. rewrite !Z.rem_mod_nonneg by lia. by rewrite Zplus_mod_idemp_l.
Qed.

Lemma julian_counts_days_witness :
  getYearMonthDay (julian (mkYMD 2000 2 29)) = mkYMD 2000 2 29 /\ julian (next_day (mkYMD 2000 2 29)) = julian (mkYMD 2000 2 29) + 1.
Proof.
  destruct (julian_counts_days (mkYMD 2000 2 29)) as (H1 & H2 & _); [split_and!; by vm_compute|by vm_compute|]. by split.
Defined.
