(* ===== verification/Timestamp.v ===== *)
(** * Timestamp (src/muduo/muduo/base/Timestamp.h, Timestamp.cc)

    A timestamp is the number of microseconds since the epoch, an [int64_t].
    [double] is IEEE binary64 by the Standard Library's executable
    specification. *)

From Stdlib Require Import Floats.SpecFloat.
From S2P Require Import Prelude Format.

(** ** double *)

Definition double := spec_float.
Definition dmul : double -> double -> double := SFmul 53 1024.
Definition ddiv : double -> double -> double := SFdiv 53 1024.
Definition dlt : double -> double -> bool := SFltb.
(** The double nearest to an integer. *)
Definition double_of_Z (z : Z) : double := binary_normalize 53 1024 z 0 false.

(** The integer part; NaN and the infinities have none. *)
Definition double_trunc (d : double) : option Z :=
  match d with
  | S754_zero _ => Some 0
  | S754_finite s m e =>
      let a := if decide (0 <= e) then Z.pos m * 2 ^ e else Z.pos m / 2 ^ (- e) in
      Some (if s then - a else a)
  | S754_infinity _ | S754_nan => None
  end.

(** [static_cast<int64_t>(d)] truncates; where the result does not fit, which
    the language leaves undefined, cvttsd2si gives [INT64_MIN]. *)
Definition int64_of_double (d : double) : Z :=
  match double_trunc d with
  | Some z => if decide (- 2 ^ 63 <= z < 2 ^ 63) then z else - 2 ^ 63
  | None => - 2 ^ 63
  end.

(** ** Timestamp *)

Definition kMicroSecondsPerSecond : Z := 1000 * 1000.

Definition invalid : Z := 0.
Definition valid (t : Z) : bool := bool_decide (0 < t).
Definition secondsSinceEpoch (t : Z) : Z := t /c kMicroSecondsPerSecond.
Definition fromUnixTime (t microseconds : Z) : Z := i64 (t * kMicroSecondsPerSecond + microseconds).
(** [now], from what [gettimeofday] stored *)
Definition now_of (tv_sec tv_usec : Z) : Z := i64 (tv_sec * kMicroSecondsPerSecond + tv_usec).
Definition timestamp_lt (lhs rhs : Z) : bool := bool_decide (lhs < rhs).
Definition timestamp_eq (lhs rhs : Z) : bool := bool_decide (lhs = rhs).

Definition timeDifference (high low : Z) : double :=
  ddiv (double_of_Z (i64 (high - low))) (double_of_Z kMicroSecondsPerSecond).

Definition addTime (timestamp : Z) (seconds : double) : Z :=
  let delta := int64_of_double (dmul seconds (double_of_Z kMicroSecondsPerSecond)) in
  i64 (timestamp + delta).

Definition toString (t : Z) : list byte :=
  let seconds := t /c kMicroSecondsPerSecond in
  let microseconds := t %c kMicroSecondsPerSecond in
  snprintf 31 (fmt_d seconds ++ bytes "." ++ fmt_0d 6 microseconds).

(** The fields of [struct tm] that are printed. *)
Record tm := mkTm { tm_year : Z; tm_mon : Z; tm_mday : Z; tm_hour : Z; tm_min : Z; tm_sec : Z }.

Definition format_tm (t : tm) : list byte :=
  fmt_pd 4 (tm_year t + 1900) ++ fmt_0d 2 (tm_mon t + 1) ++ fmt_0d 2 (tm_mday t) ++ bytes " " ++
  fmt_0d 2 (tm_hour t) ++ bytes ":" ++ fmt_0d 2 (tm_min t) ++ bytes ":" ++ fmt_0d 2 (tm_sec t).

Definition toFormattedString (gmtime_r : Z -> tm) (t : Z) (showMicroseconds : bool) : list byte :=
  let seconds := t /c kMicroSecondsPerSecond in
  let tm_time := gmtime_r seconds in
  if showMicroseconds then
    let microseconds := t %c kMicroSecondsPerSecond in
    snprintf 32 (format_tm tm_time ++ bytes "." ++ fmt_0d 6 microseconds)
  else snprintf 32 (format_tm tm_time).

Example addTime_half : addTime 1000000 (ddiv (double_of_Z 3) (double_of_Z 2)) = 2500000.
Proof. by vm_compute. Qed.
Example addTime_tenth : addTime 0 (ddiv (double_of_Z 1) (double_of_Z 10)) = 100000.
Proof. by vm_compute. Qed.
Example toString_sample : toString 1000005 = bytes "1.000005".
Proof. by vm_compute. Qed.
