(* ===== verification/TimeZone.v ===== *)
(** * TimeZone (src/muduo/muduo/base/TimeZone.h, TimeZone.cc)

    Zones as tables of transitions, read from a zoneinfo file: the reader with
    its exceptions, the binary search for the local time in force, and the
    conversions between seconds and broken-down times. [time_t] has 64 bits.
    [gmtime_r] and [timegm] are arguments where the code calls them. *)

From S2P Require Import Prelude Endian Date.

(** ** Broken-down time *)

Record ctm := mkCtm {
  t_sec : Z; t_min : Z; t_hour : Z; t_mday : Z; t_mon : Z; t_year : Z; t_wday : Z; t_yday : Z;
  t_isdst : Z; t_gmtoff : Z;
  (** the bytes [tm_zone] points to *)
  t_zone : list byte
}.

Definition kSecondsPerDay : Z := 24 * 60 * 60.

(** [fillHMS]: seconds, minutes and hours *)
Definition fillHMS (seconds : Z) : Z * Z * Z :=
  let minutes := seconds / 60 in
  (seconds mod 60, minutes mod 60, minutes / 60).

Definition toUtcTime (secondsSinceEpoch : Z) (yday : bool) : ctm :=
  let seconds := i32 (secondsSinceEpoch %c kSecondsPerDay) in
  let days := i32 (secondsSinceEpoch /c kSecondsPerDay) in
  let '(seconds, days) := if decide (seconds < 0) then (seconds + kSecondsPerDay, days - 1) else (seconds, days) in
  let '(sec, min, hour) := fillHMS (u32 seconds) in
  let date := i32 (days + kJulianDayOf1970_01_01) in
  let ymd := yearMonthDay date in
  mkCtm sec min hour (day ymd) (i32 (month ymd - 1)) (i32 (year ymd - 1900)) (weekDay date)
    (if yday then i32 (date - date_of (year ymd) 1 1) else 0) 0 0 (bytes "GMT").

(** [fromUtcTime(year, month, day, hour, minute, seconds)] *)
Definition fromUtcTime_fields (year month day hour minute seconds : Z) : Z :=
  let date := date_of year month day in
  let secondsInDay := i32 (i32 (i32 (hour * 3600) + i32 (minute * 60)) + seconds) in
  let days := i32 (date - kJulianDayOf1970_01_01) in
  i64 (i64 (days * kSecondsPerDay) + secondsInDay).

Definition fromUtcTime (utc : ctm) : Z :=
  fromUtcTime_fields (i32 (t_year utc + 1900)) (i32 (t_mon utc + 1)) (t_mday utc) (t_hour utc) (t_min utc) (t_sec utc).

(** ** Zones *)

Record Transition := mkTransition { gmttime : Z; localtime : Z; localtimeIdx : Z }.
Record Localtime := mkLocaltime { gmtOffset : Z; isDst : bool; arrbIdx : Z }.

(** [names] of the structure is never used. *)
Record Data := mkData {
  transitions : list Transition;
  localtimes : list Localtime;
  abbreviation : list byte
}.

Definition newData : Data := mkData [] [] [].

(** [Comp(compareGmt)] and its [equal] *)
Definition comp (compareGmt : bool) (lhs rhs : Transition) : bool :=
  if compareGmt then bool_decide (gmttime lhs < gmttime rhs) else bool_decide (localtime lhs < localtime rhs).
Definition comp_equal (compareGmt : bool) (lhs rhs : Transition) : bool :=
  if compareGmt then bool_decide (gmttime lhs = gmttime rhs) else bool_decide (localtime lhs = localtime rhs).

(** [std::lower_bound] over [less(element)]: the loop of the library, with [len]
    elements left from [first] on; each round makes [len] smaller. *)
Fixpoint lower_bound_loop {A} (less : A -> bool) (l : list A) (fuel first len : nat) : outcome nat :=
  match fuel with
  | O => if decide (len = 0%nat) then Ret first else Stop NoFuel
  | S fuel =>
      if decide (0 < len)%nat then
        let half := Nat.div2 len in
        match l !! (first + half)%nat with
        | None => Stop OutOfRange
        | Some x =>
            if less x then lower_bound_loop less l fuel (first + half + 1) (len - half - 1)
            else lower_bound_loop less l fuel first half
        end
      else Ret first
  end.
Definition lower_bound {A} (less : A -> bool) (l : list A) : outcome nat :=
  lower_bound_loop less l (length l) 0 (length l).

(** [v[i]], and [v.front()] and [v.back()] *)
Definition vec_at {A} (l : list A) (i : Z) : outcome A :=
  match (if decide (0 <= i) then l !! Z.to_nat i else None) with Some x => Ret x | None => Stop OutOfRange end.
Definition vec_front {A} (l : list A) : outcome A := vec_at l 0.
Definition vec_back {A} (l : list A) : outcome A := vec_at l (zlen l - 1).

Definition findLocaltime (data : Data) (sentry : Transition) (gmt : bool) : outcome Localtime :=
  let* before := (if decide (transitions data = []) then Ret true
                  else let* t := vec_front (transitions data) in Ret (comp gmt sentry t)) in
  if before then vec_front (localtimes data)
  else
    let* transI := lower_bound (fun t => comp gmt t sentry) (transitions data) in
    if decide (transI <> length (transitions data)) then
      let* t := vec_at (transitions data) (Z.of_nat transI) in
      if negb (comp_equal gmt sentry t) then
        assert* bool_decide (transI <> 0%nat) in
        let* t := vec_at (transitions data) (Z.of_nat transI - 1) in
        vec_at (localtimes data) (localtimeIdx t)
      else vec_at (localtimes data) (localtimeIdx t)
    else
      let* t := vec_back (transitions data) in
      vec_at (localtimes data) (localtimeIdx t).

(** A zone is its data, or none. *)
Definition TimeZone : Type := option Data.
Definition tz_valid (tz : TimeZone) : bool := match tz with Some _ => true | None => false end.
(** [TimeZone(eastOfUtc, name)] *)
Definition fixedZone (eastOfUtc : Z) (name : list byte) : TimeZone :=
  Some (mkData [] [mkLocaltime eastOfUtc false 0] name).

Section Conversions.
Context (gmtime_r : Z -> ctm) (timegm : ctm -> Z).

Definition toLocalTime (seconds : Z) (tz : TimeZone) : outcome ctm :=
  assert* tz_valid tz in
  match tz with
  | None => Stop AssertFailed
  | Some data =>
      let* local := findLocaltime data (mkTransition seconds 0 0) true in
      let localSeconds := i64 (seconds + gmtOffset local) in
      let t := gmtime_r localSeconds in
      if decide (0 <= arrbIdx local <= zlen (abbreviation data)) then
        Ret (mkCtm (t_sec t) (t_min t) (t_hour t) (t_mday t) (t_mon t) (t_year t) (t_wday t) (t_yday t)
               (if isDst local then 1 else 0) (gmtOffset local) (zdrop (arrbIdx local) (abbreviation data)))
      else Stop OutOfRange
  end.

Definition fromLocalTime (localTm : ctm) (tz : TimeZone) : outcome Z :=
  assert* tz_valid tz in
  match tz with
  | None => Stop AssertFailed
  | Some data =>
      let seconds := timegm localTm in
      let* local := findLocaltime data (mkTransition 0 seconds 0) false in
      let* seconds :=
        (if decide (t_isdst localTm <> 0) then
           let* tryTm := toLocalTime (i64 (seconds - gmtOffset local)) tz in
           Ret (if bool_decide (t_isdst tryTm = 0) && bool_decide (t_hour tryTm = t_hour localTm) &&
                   bool_decide (t_min tryTm = t_min localTm)
                then i64 (seconds - 3600) else seconds)
         else Ret seconds) in
      Ret (i64 (seconds - gmtOffset local))
  end.
End Conversions.

(** ** Reading a zoneinfo file *)

(** Code that reads the file [list byte], changes the data, and may throw a
    [logic_error]: the data changed so far stay. *)
Definition reader (A : Type) : Type := Data * list byte -> outcome (option A * (Data * list byte)).

Definition rret {A} (a : A) : reader A := fun s => Ret (Some a, s).
Definition rthrow {A} : reader A := fun s => Ret (None, s).
Definition rstop {A} (f : failure) : reader A := fun s => Stop f.
Definition rbind {A B} (m : reader A) (k : A -> reader B) : reader B :=
  fun s => match m s with
           | Ret (Some a, s') => k a s'
           | Ret (None, s') => Ret (None, s')
           | Stop f => Stop f
           end.
Notation "'read*' x ':=' m 'in' k" := (rbind m (fun x => k))
  (at level 10, x binder, m at level 100, k at level 200) : muduo_scope.

Section Reading.
Context (host : endian).

(** [fread] of [n] bytes, less at the end of the file. *)
Definition readBytes (n : Z) : reader (list byte) := fun s =>
  if decide (n < 0) then Stop OutOfRange
  else if decide (zlen s.2 < n) then Ret (None, (s.1, [])) else Ret (Some (ztake n s.2), (s.1, zdrop n s.2)).

Definition readInt32 : reader Z := fun s =>
  if decide (zlen s.2 < 4) then Ret (None, (s.1, []))
  else Ret (Some (i32 (htobe host 4 (int_of_mem host (ztake 4 s.2)))), (s.1, zdrop 4 s.2)).

Definition readUInt8 : reader Z := fun s =>
  match s.2 with
  | [] => Ret (None, s)
  | b :: f => Ret (Some (b2z b), (s.1, f))
  end.

(** [for (i = 0; i < n; ++i) v.push_back(read())] *)
Fixpoint read_each {A} (n : nat) (m : reader A) : reader (list A) :=
  match n with
  | O => rret []
  | S n => read* x := m in read* l := read_each n m in rret (x :: l)
  end.

(** [trans.reserve(n)] throws [length_error], a [logic_error], for a negative [n]. *)
Definition reserve (n : Z) : reader unit := if decide (n < 0) then rthrow else rret tt.

Definition push_localtime (l : Localtime) : reader unit := fun s =>
  Ret (Some tt, (mkData (transitions s.1) (localtimes s.1 ++ [l]) (abbreviation s.1), s.2)).
Definition read_localtime : reader unit :=
  read* gmtoff := readInt32 in
  read* isdst := readUInt8 in
  read* abbrind := readUInt8 in
  push_localtime (mkLocaltime gmtoff (bool_decide (isdst <> 0)) abbrind).

Definition push_transition (t : Transition) : reader unit := fun s =>
  Ret (Some tt, (mkData (transitions s.1 ++ [t]) (localtimes s.1) (abbreviation s.1), s.2)).
(** [data->localtimes[localIdx]] *)
Definition get_localtime (i : Z) : reader Localtime := fun s =>
  match vec_at (localtimes s.1) i with Ret l => Ret (Some l, s) | Stop f => Stop f end.
Fixpoint push_transitions (trans locals : list Z) : reader unit :=
  match trans, locals with
  | t :: trans, localIdx :: locals =>
      read* l := get_localtime localIdx in
      read* _ := push_transition (mkTransition t (i64 (t + gmtOffset l)) localIdx) in
      push_transitions trans locals
  | _, _ => rret tt
  end.
Definition set_abbreviation (a : list byte) : reader unit := fun s =>
  Ret (Some tt, (mkData (transitions s.1) (localtimes s.1) a, s.2)).

(** The body of the [try]. *)
Definition read_zone : reader unit :=
  read* head := readBytes 4 in
  if decide (head <> bytes "TZif") then rthrow else
  read* version := readBytes 1 in
  read* _ := readBytes 15 in
  read* isgmtcnt := readInt32 in
  read* isstdcnt := readInt32 in
  read* leapcnt := readInt32 in
  read* timecnt := readInt32 in
  read* typecnt := readInt32 in
  read* charcnt := readInt32 in
  read* _ := reserve timecnt in
  read* trans := read_each (Z.to_nat timecnt) readInt32 in
  read* locals := read_each (Z.to_nat timecnt) readUInt8 in
  read* _ := read_each (Z.to_nat typecnt) read_localtime in
  read* _ := push_transitions trans locals in
  read* abbr := readBytes charcnt in
  set_abbreviation abbr.

(** [readTimeZoneFile]: [file] is [None] when it cannot be opened. *)
Definition readTimeZoneFile (file : option (list byte)) (data : Data) : outcome (bool * Data) :=
  match file with
  | None => Ret (true, data)
  | Some f => let* (_, s) := read_zone (data, f) in Ret (true, s.1)
  end.

(** [TimeZone(zonefile)] *)
Definition zoneOfFile (file : option (list byte)) : outcome TimeZone :=
  let* (ok, data) := readTimeZoneFile file newData in
  Ret (if ok then Some data else None).
End Reading.

(** ** Binary search *)

(** On a list whose first [k] elements are less and whose others are not,
    [lower_bound] returns [k]; in particular it terminates. *)
Lemma lower_bound_loop_part {A} (less : A -> bool) l k fuel first len :
  (forall i x, l !! i = Some x -> less x = bool_decide (i < k)%nat) ->
  (first <= k <= first + len)%nat -> (first + len <= length l)%nat -> (len <= fuel)%nat ->
  lower_bound_loop less l fuel first len = Ret k.
Proof.
  intros P. revert first len. induction fuel as [|fuel IH]; intros first len Hk Hl Hf; cbn [lower_bound_loop].
  - rewrite decide_True by lia. f_equal. lia.
  - case_decide as D; [|f_equal; lia].
    assert (Nat.div2 len < len)%nat as Hlt by (apply Nat.lt_div2; lia).
    set (half := Nat.div2 len) in *. clearbody half.
    destruct (l !! (first + half)%nat) as [x|] eqn:E; [|apply lookup_ge_None in E; lia].
    rewrite (P _ _ E). case_bool_decide as B; apply IH; lia.
Qed.

Lemma lower_bound_part {A} (less : A -> bool) l k :
  (k <= length l)%nat -> (forall i x, l !! i = Some x -> less x = bool_decide (i < k)%nat) ->
  lower_bound less l = Ret k.
Proof. intros Hk P. apply lower_bound_loop_part; [done|lia..]. Qed.

(** ** The local time in force *)

Definition key (gmt : bool) (t : Transition) : Z := if gmt then gmttime t else localtime t.

(** The number of transitions up to [s]. *)
Definition period (gmt : bool) (data : Data) (s : Z) : nat :=
  length (filter (fun t => key gmt t <= s) (transitions data)).

(** What is in force after [k] transitions: the first local time before any. *)
Definition zone_local (data : Data) (k : nat) : option Localtime :=
  match k with
  | O => head (localtimes data)
  | S j => match transitions data !! j with Some t => localtimes data !! Z.to_nat (localtimeIdx t) | None => None end
  end.

(** Strictly increasing keys. *)
Definition increasing (gmt : bool) (l : list Transition) : Prop :=
  forall i j t t', (i < j)%nat -> l !! i = Some t -> l !! j = Some t' -> key gmt t < key gmt t'.

Lemma filter_prefix {A} (P : A -> Prop) `{!forall x, Decision (P x)} (l : list A) k :
  (k <= length l)%nat -> (forall i x, l !! i = Some x -> P x <-> (i < k)%nat) -> length (filter P l) = k.
Proof.
  revert k. induction l as [|x l IH]; intros k Hk Hp; cbn in Hk; [cbn; lia|].
  destruct k as [|k].
  - rewrite filter_cons_False by (rewrite (Hp 0%nat x eq_refl); lia). apply (IH 0%nat); [lia|].
    intros i y E. rewrite (Hp (S i) y E). lia.
  - rewrite filter_cons_True by (rewrite (Hp 0%nat x eq_refl); lia). cbn. f_equal. apply IH; [lia|].
    intros i y E. rewrite (Hp (S i) y E). lia.
Qed.

(** A number of transitions is the period if the transition before is not later
    and the one after is. *)
Lemma period_at gmt data s k :
  increasing gmt (transitions data) -> (k <= length (transitions data))%nat ->
  (forall j t, k = S j -> transitions data !! j = Some t -> key gmt t <= s) ->
  (forall t, transitions data !! k = Some t -> s < key gmt t) ->
  period gmt data s = k.
Proof.
  intros I Hk Lo Hi. apply filter_prefix; [done|]. intros i t E. split.
  - intros Le. destruct (decide (i < k)%nat) as [|N]; [done|]. exfalso.
    destruct (decide (i = k)) as [-> | Ne]; [specialize (Hi t E); lia|].
    pose proof (lookup_lt_Some _ _ _ E) as Lt. destruct (transitions data !! k) as [t'|] eqn:E'.
    + pose proof (I k i t' t ltac:(lia) E' E). specialize (Hi t' eq_refl). lia.
    + apply lookup_ge_None in E'. lia.
  - intros Lt. destruct k as [|j]; [lia|]. destruct (transitions data !! j) as [t'|] eqn:E'.
    + specialize (Lo j t' eq_refl E'). destruct (decide (i = j)) as [-> | Ne]; [congruence|].
      pose proof (I i j t t' ltac:(lia) E E'). lia.
    + apply lookup_ge_None in E'. lia.
Qed.

Lemma period_spec gmt data s :
  increasing gmt (transitions data) ->
  let k := period gmt data s in
  (k <= length (transitions data))%nat /\
  (forall i t, transitions data !! i = Some t -> key gmt t <= s <-> (i < k)%nat).
Proof.
  intros I k. unfold k, period. clear k. generalize dependent (transitions data). intros l I.
  induction l as [|x l IH]; [cbn; split; [lia|done]|].
  destruct IH as [L H].
  { intros i j t t' Hij Hi Hj. apply (I (S i) (S j) t t'); [lia|done..]. }
  destruct (decide (key gmt x <= s)) as [D|D].
  - rewrite filter_cons_True by done. cbn [length]. split; [lia|]. intros [|i] t E; cbn in E.
    + injection E as <-. split; [lia|done].
    + rewrite (H i t E). lia.
  - rewrite filter_cons_False by done. assert (filter (fun t => key gmt t <= s) l = []) as ->.
    { destruct (filter (fun t => key gmt t <= s) l) as [|y f] eqn:F; [done|]. exfalso.
      assert (y ∈ filter (fun t => key gmt t <= s) l) as Hy by (rewrite F; by left).
      apply list_elem_of_filter in Hy as [Hy Hl]. apply list_elem_of_lookup in Hl as (i & Hi).
      pose proof (I 0%nat (S i) x y ltac:(lia) eq_refl Hi). lia. }
    cbn. split; [lia|]. intros [|i] t E; cbn in E; [injection E as <-; lia|].
    pose proof (I 0%nat (S i) x t ltac:(lia) eq_refl E). lia.
Qed.

(** The transition in force and what the search sees of it. *)
Lemma period_cases gmt data s :
  increasing gmt (transitions data) ->
  let k := period gmt data s in
  (k = 0%nat /\ forall t, transitions data !! 0%nat = Some t -> s < key gmt t) \/
  exists j t, k = S j /\ transitions data !! j = Some t /\ key gmt t <= s.
Proof.
  intros I k. destruct (period_spec gmt data s I) as [L H]. fold k in L, H. destruct k as [|j]; [left|right].
  - split; [done|]. intros t E. pose proof (H 0%nat t E). lia.
  - destruct (lookup_lt_is_Some_2 (transitions data) j ltac:(lia)) as [t E]. exists j, t. split_and!; [done..|].
    apply (H j t E). lia.
Qed.

Definition sentry_at (gmt : bool) (s : Z) : Transition :=
  if gmt then mkTransition s 0 0 else mkTransition 0 s 0.

Lemma comp_sentry gmt s t : comp gmt (sentry_at gmt s) t = bool_decide (s < key gmt t).
Proof. by destruct gmt. Qed.
Lemma comp_sentry_r gmt s t : comp gmt t (sentry_at gmt s) = bool_decide (key gmt t < s).
Proof. by destruct gmt. Qed.
Lemma comp_equal_sentry gmt s t : comp_equal gmt (sentry_at gmt s) t = bool_decide (s = key gmt t).
Proof. by destruct gmt. Qed.

Lemma vec_at_lookup {A} (l : list A) (i : nat) x : l !! i = Some x -> vec_at l (Z.of_nat i) = Ret x.
Proof. intros E. unfold vec_at. rewrite decide_True by lia. by rewrite Nat2Z.id, E. Qed.

(** The local time of a transition that is there. *)
Definition local_of (data : Data) (i : nat) (lt : Localtime) : Prop :=
  exists t, transitions data !! i = Some t /\ 0 <= localtimeIdx t /\ localtimes data !! Z.to_nat (localtimeIdx t) = Some lt.

Lemma local_of_at data i lt t :
  local_of data i lt -> transitions data !! i = Some t -> vec_at (localtimes data) (localtimeIdx t) = Ret lt.
Proof.
  intros (t' & E & P & L) E'. assert (t' = t) as -> by congruence. unfold vec_at. by rewrite decide_True, L by done.
Qed.

Lemma zone_local_vec data j lt :
  zone_local data (S j) = Some lt -> (forall t, t ∈ transitions data -> 0 <= localtimeIdx t) -> local_of data j lt.
Proof.
  cbn. destruct (transitions data !! j) as [t|] eqn:E; [|done]. intros L P. exists t. split_and!; [done| |done].
  apply P, list_elem_of_lookup. by exists j.
Qed.

(** The search finds the local time of the period. *)
Lemma findLocaltime_period gmt data s lt :
  increasing gmt (transitions data) -> (forall t, t ∈ transitions data -> 0 <= localtimeIdx t) ->
  zone_local data (period gmt data s) = Some lt ->
  findLocaltime data (sentry_at gmt s) gmt = Ret lt.
Proof.
  intros I P L. unfold findLocaltime. destruct (period_spec gmt data s I) as [Hk H].
  destruct (period_cases gmt data s I) as [[K F]|(j & t & K & E & Le)]; rewrite K in *.
  - assert (vec_front (localtimes data) = Ret lt) as Fr.
    { apply (vec_at_lookup _ 0%nat). cbn in L. by rewrite head_lookup in L. }
    case_decide as D; [done|]. destruct (transitions data) as [|t l] eqn:E; [done|].
    change (vec_front (t :: l)) with (Ret t). cbn [obind]. rewrite comp_sentry, bool_decide_true; [done|].
    by apply F.
  - pose proof (zone_local_vec data j lt L P) as Lt.
    assert (transitions data <> []) as Ne by (intros N; by rewrite N in E). rewrite decide_False by done.
    destruct (lookup_lt_is_Some_2 (transitions data) 0%nat) as [t0 E0].
    { apply lookup_lt_Some in E. lia. }
    unfold vec_front. rewrite (vec_at_lookup _ 0%nat t0 E0 : vec_at _ 0 = _). cbn [obind].
    rewrite comp_sentry, bool_decide_false by (pose proof (H 0%nat t0 E0); lia).
    (* the element not less than [s] is the transition itself or the next one *)
    set (p := if decide (key gmt t = s) then j else S j).
    rewrite (lower_bound_part _ _ p).
    + cbn [obind]. unfold p. clear p. destruct (decide (key gmt t = s)) as [Eq|Eq].
      * rewrite decide_True by (apply lookup_lt_Some in E; lia). rewrite (vec_at_lookup _ _ _ E). cbn [obind].
        rewrite comp_equal_sentry, bool_decide_true by done. cbn [negb]. by apply (local_of_at data j lt t).
      * case_decide as D.
        -- destruct (lookup_lt_is_Some_2 (transitions data) (S j) ltac:(lia)) as [t1 E1].
           rewrite (vec_at_lookup _ _ _ E1). cbn [obind].
           rewrite comp_equal_sentry, bool_decide_false by (pose proof (H (S j) t1 E1); lia). cbn [negb].
           rewrite check_true by (by rewrite bool_decide_true). replace (Z.of_nat (S j) - 1) with (Z.of_nat j) by lia.
           rewrite (vec_at_lookup _ _ _ E). cbn [obind]. by apply (local_of_at data j lt t).
        -- unfold vec_back, zlen. replace (Z.of_nat (length (transitions data)) - 1) with (Z.of_nat j) by lia.
           rewrite (vec_at_lookup _ _ _ E). cbn [obind]. by apply (local_of_at data j lt t).
    + unfold p. case_decide; lia.
    + intros i x Ex. rewrite comp_sentry_r. apply bool_decide_ext. pose proof (H i x Ex) as Hx. unfold p.
      case_decide as Eq.
      * split; intros Q; [destruct (decide (i = j)) as [-> | N]; [assert (x = t) by congruence; subst; lia|lia]|].
        pose proof (I i j x t ltac:(lia) Ex E). lia.
      * split; [lia|]. intros Q. assert (key gmt x <= s) by (apply Hx; lia).
        destruct (decide (i = j)) as [-> | N]; [assert (x = t) by congruence; subst; lia|].
        pose proof (I i j x t ltac:(lia) Ex E). lia.
Qed.

(** ** Coordinated universal time *)

(** The quotient and the remainder of C, adjusted as the code does it, are the
    floor division. *)
Lemma day_split t :
  - 2 ^ 46 <= t < 2 ^ 46 ->
  (if decide (i32 (t %c kSecondsPerDay) < 0)
   then (i32 (t %c kSecondsPerDay) + kSecondsPerDay, i32 (t /c kSecondsPerDay) - 1)
   else (i32 (t %c kSecondsPerDay), i32 (t /c kSecondsPerDay))) = (t mod kSecondsPerDay, t / kSecondsPerDay).
Proof.
  intros B. change kSecondsPerDay with 86400.
  assert (-86400 < t %c 86400 < 86400 /\ - 2 ^ 30 <= t /c 86400 < 2 ^ 30) as [R Q] by divlia.
  rewrite !swrap_small by lia. case_decide as D; f_equal; divlia.
Qed.

Lemma date_of_julian y m d : date_of y m d = julian (mkYMD y m d).
Proof. unfold date_of, julian. cbn [year month day]. reflexivity. Qed.

Lemma ymd_eta d : d = mkYMD (year d) (month d) (day d).
Proof. by destruct d. Qed.

(** What [toUtcTime] gives on a day [d] of the calendar. *)
Lemma toUtcTime_on t yday d :
  in_calendar d -> julian d = t / kSecondsPerDay + kJulianDayOf1970_01_01 -> 0 <= julian d <= 365000000 ->
  toUtcTime t yday =
    mkCtm (t mod 86400 mod 60) (t mod 86400 / 60 mod 60) (t mod 86400 / 3600) (day d) (month d - 1) (year d - 1900)
      ((julian d + 1) mod 7) (if yday then julian d - julian (mkYMD (year d) 1 1) else 0) 0 0 (bytes "GMT").
Proof.
  intros C J B. change kJulianDayOf1970_01_01 with 2440588 in J. change kSecondsPerDay with 86400 in J.
  assert (- 2 ^ 46 <= t < 2 ^ 46) as Bt by divlia.
  unfold toUtcTime. pose proof (day_split t Bt) as S. cbv zeta in S |- *. rewrite S. clear S.
  change kSecondsPerDay with 86400. change kJulianDayOf1970_01_01 with 2440588. rewrite <- J.
  assert (0 <= t mod 86400 < 86400) as Bs by divlia.
  unfold fillHMS. rewrite (wrap_small 32 (t mod 86400)) by lia. rewrite (swrap_small 32 (julian d)) by lia.
  unfold yearMonthDay. rewrite (getYearMonthDay_julian d C). pose proof C as (Hy & Hm & Hd).
  rewrite (swrap_small 32 (month d - 1)), (swrap_small 32 (year d - 1900)) by lia.
  unfold weekDay, kDaysPerWeek. rewrite (swrap_small 32 (julian d + 1)), Z.rem_mod_nonneg by lia.
  f_equal; [divlia|]. destruct yday; [|done]. rewrite (date_of_julian (year d) 1 1).
  apply swrap_small; [lia|]. rewrite <- (date_of_julian (year d) 1 1). unfold date_of.
  destruct (julian_formula (year d) 1 1) as (y' & m' & -> & By & Cs); [lia..|]. replace m' with 10 by lia. change (days_before 10) with 306.
  assert (0 <= y' / 4 <= y' /\ 0 <= y' / 100 <= y' /\ 0 <= y' / 400 <= y') as (B1 & B2 & B3) by divlia. lia.
Qed.

Lemma utc_day t :
  0 <= t / kSecondsPerDay + kJulianDayOf1970_01_01 <= 365000000 ->
  exists d, in_calendar d /\ julian d = t / kSecondsPerDay + kJulianDayOf1970_01_01.
Proof. intros B. apply julian_onto. assert (first_julian <= 0) by (by vm_compute). lia. Qed.

Lemma fromUtcTime_toUtcTime t yday :
  0 <= t / kSecondsPerDay + kJulianDayOf1970_01_01 <= 365000000 -> fromUtcTime (toUtcTime t yday) = t.
Proof.
  intros B. destruct (utc_day t B) as (d & C & J). rewrite <- J in B.
  rewrite (toUtcTime_on t yday d C J B). unfold fromUtcTime, fromUtcTime_fields. cbn [t_year t_mon t_mday t_hour t_min t_sec].
  pose proof C as (Hy & Hm & Hd). change kJulianDayOf1970_01_01 with 2440588 in *. change kSecondsPerDay with 86400 in *.
  replace (year d - 1900 + 1900) with (year d) by lia. replace (month d - 1 + 1) with (month d) by lia.
  rewrite (swrap_small 32 (year d)), (swrap_small 32 (month d)) by lia.
  rewrite date_of_julian. rewrite <- (ymd_eta d).
  assert (0 <= t mod 86400 / 3600 < 24 /\ 0 <= t mod 86400 / 60 mod 60 < 60 /\ 0 <= t mod 86400 mod 60 < 60) as (B1 & B2 & B3) by divlia.
  rewrite (swrap_small 32 (_ * 3600)), (swrap_small 32 (_ * 60)), (swrap_small 32 (_ + _ * 60)), !(swrap_small 32) by lia.
  assert (- 2 ^ 30 < t / 86400 < 2 ^ 30) as B4 by (rewrite J in B; lia). rewrite J.
  replace (t / 86400 + 2440588 - 2440588) with (t / 86400) by lia. rewrite !swrap_small by (rewrite ?swrap_small; lia). divlia.
Qed.

(** [toUtcTime] gives the calendar date of the day of [t], with the time of the
    day, the weekday and the day of the year in their ranges, and [fromUtcTime]
    takes its result back to [t]; for every second from the start of the Julian
    day numbers to the day 365000000, those before 1970 included. *)
Theorem utc_roundtrip t :
  0 <= t / kSecondsPerDay + kJulianDayOf1970_01_01 <= 365000000 ->
  exists d, in_calendar d /\ julian d = t / kSecondsPerDay + kJulianDayOf1970_01_01 /\
    let utc := toUtcTime t true in
    t_year utc = year d - 1900 /\ t_mon utc = month d - 1 /\ t_mday utc = day d /\
    0 <= t_hour utc < 24 /\ 0 <= t_min utc < 60 /\ 0 <= t_sec utc < 60 /\
    0 <= t_wday utc < 7 /\ t_yday utc = julian d - julian (mkYMD (year d) 1 1) /\
    forall yday, fromUtcTime (toUtcTime t yday) = t.
Proof.
  intros B. destruct (utc_day t B) as (d & C & J). exists d. split; [done|]. split; [done|].
  pose proof (fun yday => fromUtcTime_toUtcTime t yday B) as R. rewrite <- J in B.
  rewrite (toUtcTime_on t true d C J B). cbn [t_year t_mon t_mday t_hour t_min t_sec t_wday t_yday]. split_and!; try done; divlia.
Qed.

Lemma utc_roundtrip_witness : fromUtcTime (toUtcTime (-1) true) = -1.
Proof. destruct (utc_roundtrip (-1)) as (d & _ & _ & H); [split; by vm_compute|]. apply H. Defined.

(** ** Local time *)

(** A local time is in force after [k] transitions, within a day of UTC and with
    its abbreviation in the table. *)
Definition good_period (data : Data) (k : nat) : Prop :=
  match zone_local data k with
  | Some lt => -86400 <= gmtOffset lt <= 86400 /\ 0 <= arrbIdx lt <= zlen (abbreviation data)
  | None => False
  end.

(** A transition puts the clock forward, changes the name only, or ends daylight
    saving by an hour; the next one is at least an hour away on both clocks. *)
Definition good_transition (data : Data) (i : nat) : Prop :=
  match transitions data !! i, zone_local data i, zone_local data (S i) with
  | Some t, Some a, Some b =>
      0 <= localtimeIdx t /\ localtime t = gmttime t + gmtOffset b /\
      (gmtOffset a <= gmtOffset b \/ (gmtOffset b = gmtOffset a - 3600 /\ isDst a = true /\ isDst b = false)) /\
      match transitions data !! S i with
      | Some t' => gmttime t + 3600 <= gmttime t' /\ localtime t + 3600 <= localtime t'
      | None => True
      end
  | _, _, _ => False
  end.

Definition wf_zone (data : Data) : Prop :=
  Forall (good_period data) (seq 0 (S (length (transitions data)))) /\
  Forall (good_transition data) (seq 0 (length (transitions data))).

Lemma wf_zone_period data k :
  wf_zone data -> (k <= length (transitions data))%nat ->
  exists lt, zone_local data k = Some lt /\ -86400 <= gmtOffset lt <= 86400 /\ 0 <= arrbIdx lt <= zlen (abbreviation data).
Proof.
  intros [W _] Hk. rewrite Forall_forall in W. specialize (W k). unfold good_period in W.
  destruct (zone_local data k) as [lt|]; [exists lt; split; [done|]|exfalso]; apply W, elem_of_seq; lia.
Qed.

Lemma wf_zone_transition data i t :
  wf_zone data -> transitions data !! i = Some t ->
  exists a b, zone_local data i = Some a /\ zone_local data (S i) = Some b /\
      0 <= localtimeIdx t /\ localtime t = gmttime t + gmtOffset b /\
      (gmtOffset a <= gmtOffset b \/ (gmtOffset b = gmtOffset a - 3600 /\ isDst a = true /\ isDst b = false)) /\
      forall t', transitions data !! S i = Some t' -> gmttime t + 3600 <= gmttime t' /\ localtime t + 3600 <= localtime t'.
Proof.
  intros [_ W] E. rewrite Forall_forall in W. specialize (W i). unfold good_transition in W. rewrite E in W.
  assert (i ∈ seq 0 (length (transitions data))) as Hi by (apply elem_of_seq; apply lookup_lt_Some in E; lia).
  specialize (W Hi). destruct (zone_local data i) as [a|]; [|done]. destruct (zone_local data (S i)) as [b|]; [|done].
  exists a, b. destruct W as (W1 & W2 & W3 & W4). split_and!; try done.
  intros t' E'. by rewrite E' in W4.
Qed.

Lemma wf_increasing gmt data : wf_zone data -> increasing gmt (transitions data).
Proof.
  intros W i j t t' Hij E. remember (j - i - 1)%nat as n eqn:En. revert j Hij t' En.
  assert (forall m u u', transitions data !! m = Some u -> transitions data !! S m = Some u' -> key gmt u < key gmt u') as St.
  { intros m u u' Em Em'. destruct (wf_zone_transition data m u W Em) as (a & b & _ & _ & _ & _ & _ & G).
    specialize (G u' Em'). destruct gmt; cbn; lia. }
  induction n as [|n IH]; intros j Hij t' En E'.
  - replace j with (S i) in * by lia. by apply (St i).
  - destruct j as [|j]; [lia|]. destruct (lookup_lt_is_Some_2 (transitions data) j) as [u Eu].
    { apply lookup_lt_Some in E'. lia. }
    specialize (IH j ltac:(lia) u ltac:(lia) Eu). specialize (St j u t' Eu E'). lia.
Qed.

Lemma wf_idx data t : wf_zone data -> t ∈ transitions data -> 0 <= localtimeIdx t.
Proof.
  intros W [i E]%list_elem_of_lookup. destruct (wf_zone_transition data i t W E) as (a & b & _ & _ & H & _). done.
Qed.

(** In a good zone the search finds the local time of any period [k] that holds
    the second. *)
Lemma findLocaltime_wf gmt data s lt :
  wf_zone data -> zone_local data (period gmt data s) = Some lt -> findLocaltime data (sentry_at gmt s) gmt = Ret lt.
Proof. intros W. apply findLocaltime_period; [by apply wf_increasing|]. intros t. by apply wf_idx. Qed.

Lemma findLocaltime_gmt data s lt :
  wf_zone data -> zone_local data (period true data s) = Some lt -> findLocaltime data (mkTransition s 0 0) true = Ret lt.
Proof. apply (findLocaltime_wf true). Qed.
Lemma findLocaltime_local data s lt :
  wf_zone data -> zone_local data (period false data s) = Some lt -> findLocaltime data (mkTransition 0 s 0) false = Ret lt.
Proof. apply (findLocaltime_wf false). Qed.

(** The fields that name a second. *)
Definition same_time (a b : ctm) : Prop :=
  t_sec a = t_sec b /\ t_min a = t_min b /\ t_hour a = t_hour b /\ t_mday a = t_mday b /\ t_mon a = t_mon b /\ t_year a = t_year b.

Section LocalTime.
Context (gmtime_r : Z -> ctm) (timegm : ctm -> Z) (lo hi : Z).
Hypothesis timegm_gmtime : forall s c, lo <= s <= hi -> same_time c (gmtime_r s) -> timegm c = s.
Hypothesis range : - 2 ^ 62 <= lo /\ hi <= 2 ^ 62.

Lemma toLocalTime_wf data s lt :
  wf_zone data -> zone_local data (period true data s) = Some lt -> - 2 ^ 62 <= s <= 2 ^ 62 ->
  exists c, toLocalTime gmtime_r s (Some data) = Ret c /\ same_time c (gmtime_r (s + gmtOffset lt)) /\
    t_isdst c = (if isDst lt then 1 else 0).
Proof.
  intros W L B. destruct (wf_zone_period data (period true data s) W) as (lt' & L' & Bo & Ba).
  { by apply period_spec, wf_increasing. }
  assert (lt' = lt) as -> by congruence.
  unfold toLocalTime. rewrite check_true by done. rewrite (findLocaltime_gmt data s lt W L). cbn [obind].
  rewrite (swrap_small 64) by lia. rewrite decide_True by done. eexists. split; [done|]. by split_and!.
Qed.

(** A second of period [k] has its local time in period [k] too, or in the hour
    that the end of daylight saving repeats, in period [k + 1] of the local clock
    and an hour later of the other. *)
Lemma period_local data t k a :
  wf_zone data -> period true data t = k -> zone_local data k = Some a ->
  period false data (t + gmtOffset a) = k \/
  exists b, zone_local data (S k) = Some b /\ gmtOffset b = gmtOffset a - 3600 /\ isDst a = true /\ isDst b = false /\
    period false data (t + gmtOffset a) = S k /\ period true data (t + 3600) = S k.
Proof.
  intros W K A. destruct (period_spec true data t (wf_increasing true data W)) as [Lk H]. rewrite K in Lk, H.
  assert (forall j u, k = S j -> transitions data !! j = Some u -> gmttime u <= t /\ localtime u <= t + gmtOffset a) as Lo.
  { intros j u -> E. destruct (wf_zone_transition data j u W E) as (a' & b' & _ & Eb & _ & El & _).
    assert (key true u <= t) as G by (apply (H j u E); lia). cbn in G. assert (b' = a) as -> by congruence. lia. }
  destruct (transitions data !! k) as [u|] eqn:E.
  2: { left. apply period_at; [by apply wf_increasing|done| |congruence]. intros j u -> Eu. by apply (Lo j u). }
  destruct (wf_zone_transition data k u W E) as (a' & b & Ea & Eb & _ & El & St & G).
  assert (a' = a) as -> by congruence. assert (t < gmttime u) as Hu by (pose proof (H k u E) as X; cbn in X; lia).
  destruct (decide (t + gmtOffset a < localtime u)) as [D|D].
  - left. apply period_at; [by apply wf_increasing|done| |]; [intros j v -> Ev; by apply (Lo j v)|].
    intros v Ev. assert (v = u) as -> by congruence. done.
  - right. destruct St as [St|(Eo & Da & Db)]; [lia|]. exists b. apply lookup_lt_Some in E as Lt.
    split_and!; try done; (apply period_at; [by apply wf_increasing|lia| |]);
      [intros j v [= <-] Ev| |intros j v [= <-] Ev|]; try (assert (v = u) as -> by congruence; cbn; lia);
      intros v Ev; specialize (G v Ev); cbn; lia.
Qed.

(** In a zone whose transitions put the clock forward or end daylight saving
    by one hour, at least an hour apart, [fromLocalTime] takes the local time of
    every second back to that second: the hour that comes twice included, where
    [tm_isdst] tells the two apart. *)
Theorem local_time_roundtrip data t :
  wf_zone data -> lo + 90000 <= t <= hi - 90000 ->
  exists c, toLocalTime gmtime_r t (Some data) = Ret c /\ fromLocalTime gmtime_r timegm c (Some data) = Ret t.
Proof.
  intros W B. destruct (period_spec true data t (wf_increasing true data W)) as [Lk _].
  destruct (wf_zone_period data _ W Lk) as (a & A & Ba & _).
  destruct (toLocalTime_wf data t a W A) as (c & C & Sc & Dc); [lia|]. exists c. split; [done|].
  unfold fromLocalTime. rewrite check_true by done. rewrite (timegm_gmtime (t + gmtOffset a) c) by (done || lia).
  destruct (period_local data t _ a W eq_refl A) as [K|(b & Eb & Ob & Da & Db & K & K')].
  - rewrite (findLocaltime_local data (t + gmtOffset a) a W) by (by rewrite K). cbn [obind].
    replace (t + gmtOffset a - gmtOffset a) with t by lia. rewrite (swrap_small 64 t) by lia.
    case_decide as D; cbn [obind]; [|f_equal; rewrite swrap_small; lia].
    rewrite C. cbn [obind]. rewrite (bool_decide_false (t_isdst c = 0)) by done. cbn [andb].
    f_equal. rewrite swrap_small; lia.
  - rewrite (findLocaltime_local data (t + gmtOffset a) b W) by (by rewrite K). cbn [obind].
    rewrite decide_True by (rewrite Dc, Da; done). rewrite (swrap_small 64) by lia.
    replace (t + gmtOffset a - gmtOffset b) with (t + 3600) by lia.
    destruct (toLocalTime_wf data (t + 3600) b W) as (c' & -> & Sc' & Dc'); [by rewrite K'|lia|]. cbn [obind].
    replace (t + 3600 + gmtOffset b) with (t + gmtOffset a) in Sc' by lia.
    destruct Sc as (_ & M & H & _), Sc' as (_ & M' & H' & _). rewrite Dc', Db, H', M', H, M.
    rewrite !bool_decide_true by done. cbn [andb]. rewrite (swrap_small 64 (_ - 3600)), swrap_small by lia. f_equal. lia.
Qed.
End LocalTime.

(** Eastern time in 2016: standard time, daylight saving from 2016-03-13, standard
    time again from 2016-11-06. *)
Definition new_york_2016 : Data :=
  mkData [mkTransition 1457852400 (1457852400 - 14400) 1; mkTransition 1478412000 (1478412000 - 18000) 0]
    [mkLocaltime (-18000) false 4; mkLocaltime (-14400) true 0] (bytes "EDT" ++ [z2b 0] ++ bytes "EST" ++ [z2b 0]).

Lemma new_york_good : wf_zone new_york_2016.
Proof. split; cbn [new_york_2016 transitions length seq]; repeat apply Forall_cons_2; try apply Forall_nil_2; vm_compute; intuition congruence. Qed.

(** [toUtcTime] and [fromUtcTime] are such a pair. *)
Lemma utc_inverse s c : -200000000 <= s <= 3000000000 -> same_time c (toUtcTime s true) -> fromUtcTime c = s.
Proof.
  intros B (S1 & S2 & S3 & S4 & S5 & S6). transitivity (fromUtcTime (toUtcTime s true)).
  { unfold fromUtcTime. by rewrite S1, S2, S3, S4, S5, S6. }
  apply fromUtcTime_toUtcTime. change kJulianDayOf1970_01_01 with 2440588. unfold kSecondsPerDay. divlia.
Qed.

Lemma local_time_roundtrip_witness :
  exists c, toLocalTime (fun s => toUtcTime s true) 1478410200 (Some new_york_2016) = Ret c /\
    fromLocalTime (fun s => toUtcTime s true) fromUtcTime c (Some new_york_2016) = Ret 1478410200.
Proof.
  apply (local_time_roundtrip (fun s => toUtcTime s true) fromUtcTime (-200000000) 3000000000); [apply utc_inverse|lia|apply new_york_good|lia].
Defined.

(** ** The zoneinfo format *)

(** The file of a zone, after the 16 bytes whose values the reader does not use:
    the counts, the times and the types of the transitions, the local times and
    the abbreviations. *)
Definition encode_localtime (l : Localtime) : list byte :=
  be_bytes 4 (gmtOffset l) ++ [z2b (if isDst l then 1 else 0)] ++ [z2b (arrbIdx l)].
Definition encode_zone (skipped : list byte) (isgmtcnt isstdcnt leapcnt : Z) (data : Data) : list byte :=
  bytes "TZif" ++ skipped ++
  be_bytes 4 isgmtcnt ++ be_bytes 4 isstdcnt ++ be_bytes 4 leapcnt ++
  be_bytes 4 (zlen (transitions data)) ++ be_bytes 4 (zlen (localtimes data)) ++ be_bytes 4 (zlen (abbreviation data)) ++
  concat (map (fun t => be_bytes 4 (gmttime t)) (transitions data)) ++
  concat (map (fun t => [z2b (localtimeIdx t)]) (transitions data)) ++
  concat (map encode_localtime (localtimes data)) ++
  abbreviation data.

(** A zone the format can hold. *)
Definition encodable (data : Data) : Prop :=
  zlen (transitions data) < 2 ^ 31 /\ zlen (localtimes data) < 2 ^ 31 /\ zlen (abbreviation data) < 2 ^ 31 /\
  Forall (fun l => - 2 ^ 31 <= gmtOffset l < 2 ^ 31 /\ 0 <= arrbIdx l < 256) (localtimes data) /\
  Forall (fun t => - 2 ^ 31 <= gmttime t < 2 ^ 31 /\ 0 <= localtimeIdx t < 256 /\
                   match localtimes data !! Z.to_nat (localtimeIdx t) with
                   | Some l => localtime t = gmttime t + gmtOffset l
                   | None => False
                   end) (transitions data).

(** [m] reads the bytes [bs], returns [v] and changes the data from [d] to [d']. *)
Definition reads {A} (m : reader A) (d : Data) (bs : list byte) (v : A) (d' : Data) : Prop :=
  forall rest, m (d, bs ++ rest) = Ret (Some v, (d', rest)).

Lemma reads_bind {A B} (m : reader A) (k : A -> reader B) d bs v d1 bs' w d2 :
  reads m d bs v d1 -> reads (k v) d1 bs' w d2 -> reads (read* x := m in k x) d (bs ++ bs') w d2.
Proof. intros H K rest. unfold rbind. rewrite <- app_assoc, H. apply K. Qed.

Lemma reads_ret {A} (v : A) d : reads (rret v) d [] v d.
Proof. intros rest. done. Qed.

(** A step that reads nothing. *)
Lemma reads_skip {A B} (m : reader A) (k : A -> reader B) d v d1 bs w d2 :
  reads m d [] v d1 -> reads (k v) d1 bs w d2 -> reads (read* x := m in k x) d bs w d2.
Proof. apply (reads_bind m k d []). Qed.

Section Reads.
Context (host : endian).

Lemma reads_bytes n bs d : zlen bs = n -> reads (readBytes n) d bs bs d.
Proof.
  intros <- rest. unfold readBytes. rewrite decide_False by zlia. cbn [fst snd]. rewrite decide_False by zlia.
  by rewrite ztake_app_l, zdrop_app_l, ztake_all, zdrop_all by zlia.
Qed.

Lemma reads_int32 x d : - 2 ^ 31 <= x < 2 ^ 31 -> reads (readInt32 host) d (be_bytes 4 x) x d.
Proof.
  intros B rest. unfold readInt32. cbn [fst snd]. rewrite decide_False by zlia.
  rewrite ztake_app_l, zdrop_app_l, ztake_all, zdrop_all by zlia.
  rewrite htobe_int_of_mem by (unfold be_bytes; by rewrite length_rev_le_bytes).
  rewrite be_value_bytes, swrap_wrap. by rewrite swrap_small.
Qed.

Lemma reads_uint8 x d : 0 <= x < 256 -> reads readUInt8 d [z2b x] x d.
Proof. intros B rest. cbn. by rewrite b2z_z2b, Z.mod_small. Qed.

Lemma reads_each {A B} (m : reader A) (f : B -> A) (enc : B -> list byte) l d :
  Forall (fun x => reads m d (enc x) (f x) d) l ->
  reads (read_each (length l) m) d (concat (map enc l)) (map f l) d.
Proof.
  induction 1 as [|x l H _ IH]; cbn; [apply reads_ret|].
  apply (reads_bind m _ d (enc x) (f x) d); [done|]. rewrite <- (app_nil_r (concat _)).
  by apply (reads_bind _ _ d _ (map f l) d); [|apply reads_ret].
Qed.

(** The loop over the types appends the local times to the data. *)
Lemma reads_localtimes l d :
  Forall (fun l => - 2 ^ 31 <= gmtOffset l < 2 ^ 31 /\ 0 <= arrbIdx l < 256) l ->
  reads (read_each (length l) (read_localtime host)) d (concat (map encode_localtime l)) (map (fun _ => tt) l)
    (mkData (transitions d) (localtimes d ++ l) (abbreviation d)).
Proof.
  intros H. revert d. induction H as [|x l [Bo Ba] _ IH]; intros d; cbn.
  - rewrite app_nil_r. destruct d. apply reads_ret.
  - apply (reads_bind _ _ d (encode_localtime x) tt (mkData (transitions d) (localtimes d ++ [x]) (abbreviation d))).
    + unfold encode_localtime. eapply reads_bind; [by apply reads_int32|]. eapply reads_bind; [apply reads_uint8; by destruct (isDst x)|].
      rewrite <- (app_nil_r [z2b (arrbIdx x)]). eapply reads_bind; [by apply reads_uint8|]. intros rest.
      unfold push_localtime. cbn. destruct x as [o dst i]. by destruct dst.
    + rewrite <- (app_nil_r (concat _)). eapply reads_bind; [apply IH|]. cbn [transitions localtimes abbreviation].
      rewrite <- app_assoc. apply reads_ret.
Qed.

(** The loop over the transitions computes their local times. *)
Lemma reads_transitions l d :
  Forall (fun t => match vec_at (localtimes d) (localtimeIdx t) with
                   | Ret lt => localtime t = i64 (gmttime t + gmtOffset lt)
                   | Stop _ => False
                   end) l ->
  reads (push_transitions (map gmttime l) (map localtimeIdx l)) d [] tt (mkData (transitions d ++ l) (localtimes d) (abbreviation d)).
Proof.
  intros H. revert d H. induction l as [|t l IH]; intros d H; cbn.
  - rewrite app_nil_r. destruct d. apply reads_ret.
  - inversion_clear H as [|?? Ht Hl]. destruct (vec_at (localtimes d) (localtimeIdx t)) as [lt|] eqn:E; [|done].
    eapply reads_skip. { intros rest. unfold get_localtime. cbn [fst snd app]. by rewrite E. }
    eapply reads_skip. { intros rest. unfold push_transition. cbn [fst snd app]. reflexivity. }
    rewrite <- Ht. cbn [transitions localtimes abbreviation fst snd].
    pose proof (IH (mkData (transitions d ++ [t]) (localtimes d) (abbreviation d)) Hl) as IH'. cbn in IH'.
    rewrite <- app_assoc in IH'. by destruct t.
Qed.

Lemma reads_abbreviation a d : reads (read* abbr := readBytes (zlen a) in set_abbreviation abbr) d a tt (mkData (transitions d) (localtimes d) a).
Proof.
  rewrite <- (app_nil_r a) at 2. eapply reads_bind; [by apply reads_bytes|]. intros rest. done.
Qed.

(** Reading the zoneinfo file of a zone, on a host of either byte order and
    whatever follows it in the file, gives exactly the transitions, the local times
    and the abbreviations written, the local times of the transitions computed
    from the offsets. *)
Theorem tzfile_roundtrip skipped a b c data rest :
  encodable data -> zlen skipped = 16 -> - 2 ^ 31 <= a < 2 ^ 31 -> - 2 ^ 31 <= b < 2 ^ 31 -> - 2 ^ 31 <= c < 2 ^ 31 ->
  readTimeZoneFile host (Some (encode_zone skipped a b c data ++ rest)) newData = Ret (true, data) /\
  zoneOfFile host (Some (encode_zone skipped a b c data ++ rest)) = Ret (Some data).
Proof.
  intros (B1 & B2 & B3 & Hl & Ht) Hs Ba Bb Bc.
  assert (reads (read_zone host) newData (encode_zone skipped a b c data) tt data) as R.
  2: { unfold zoneOfFile, readTimeZoneFile. by rewrite R. }
  unfold read_zone, encode_zone. eapply reads_bind; [by apply reads_bytes|]. rewrite decide_False by (intros N; by apply N).
  rewrite <- (ztake_zdrop 1 skipped), <- app_assoc.
  do 2 (eapply reads_bind; [apply reads_bytes; zlia|]).
  do 6 (eapply reads_bind; [apply reads_int32; zlia|]).
  eapply reads_skip. { unfold reserve. rewrite decide_False by zlia. apply reads_ret. }
  unfold zlen. rewrite !Nat2Z.id.
  eapply reads_bind. { apply (reads_each _ gmttime). eapply Forall_impl; [exact Ht|]. intros t (H & _). by apply reads_int32. }
  eapply reads_bind. { apply (reads_each _ localtimeIdx). eapply Forall_impl; [exact Ht|]. intros t (_ & H & _). by apply reads_uint8. }
  eapply reads_bind; [by apply reads_localtimes|]. cbn [newData transitions localtimes abbreviation app].
  eapply reads_skip.
  - apply reads_transitions. eapply Forall_impl; [exact Ht|]. intros t (G & I & L). cbn [localtimes].
    destruct (localtimes data !! Z.to_nat (localtimeIdx t)) as [lt|] eqn:E; [|done].
    unfold vec_at. rewrite decide_True, E by lia. pose proof (Forall_lookup_1 _ _ _ _ Hl E) as [Bo _].
    rewrite L, swrap_small; lia.
  - cbn [transitions localtimes abbreviation app]. destruct data. apply reads_abbreviation.
Qed.
End Reads.

Lemma tzfile_roundtrip_witness :
  zoneOfFile LittleEndian (Some (encode_zone (replicate 16 (z2b 50)) 2 2 0 new_york_2016 ++ bytes "TZif")) = Ret (Some new_york_2016).
Proof.
  apply (tzfile_roundtrip LittleEndian); [|done|lia..].
  split_and!; [done..| |]; cbn [new_york_2016 transitions localtimes];
    repeat apply Forall_cons_2; try apply Forall_nil_2; vm_compute; intuition congruence.
Defined.

(** A file that cannot be opened, or is no zoneinfo file, gives a valid zone all
    the same, without a local time: [toLocalTime] then takes [front()] of an empty
    vector. *)
Theorem bad_file_is_valid host gmtime_r t :
  (exists tz, zoneOfFile host None = Ret tz /\ tz_valid tz = true /\ toLocalTime gmtime_r t tz = Stop OutOfRange) /\
  (exists tz, zoneOfFile host (Some (bytes "not a zone")) = Ret tz /\ tz_valid tz = true /\ toLocalTime gmtime_r t tz = Stop OutOfRange).
Proof. split; exists (Some newData); by split_and!. Qed.
