(* ===== verification/LogFile.v ===== *)
(** * LogFile (src/muduo/muduo/base/LogFile.h, LogFile.cc, FileUtil.h, FileUtil.cc)

    The files a log is written to: [AppendFile] over buffered output, whose loop
    deals with short writes, and [LogFile], which starts a new file when one is
    full or a day is over. [fwrite] and [time] answer by the number of the call. *)

From S2P Require Import Prelude Format StringPiece TimeZone.

Section Files.
(** What the [k]-th [fwrite_unlocked] of [len] bytes returns, and the [k]-th [time(NULL)]. *)
Context (fwrite : nat -> Z -> Z) (time : nat -> Z).
Context (gmtime_r : Z -> ctm) (hostname : list byte) (pid : Z).

(** ** AppendFile *)

(** A file opened for appending: the bytes given to it since it was opened, and how
    many of them have certainly left the buffer of the stream. *)
Record AppendFile := mkFile { filename : list byte; content : list byte; synced : Z; writtenBytes_ : Z }.

(** The calls of [fwrite] and of [time] so far. *)
Record calls := mkCalls { writes : nat; times : nat }.

Definition openFile (name : list byte) : AppendFile := mkFile name [] 0 0.
(** [fclose] in the destructor, and [flush] *)
Definition sync (f : AppendFile) : AppendFile := mkFile (filename f) (content f) (zlen (content f)) (writtenBytes_ f).

(** [write(logline, len)]: at most [len] bytes go to the stream. *)
Definition write (logline : list byte) (len : Z) (f : AppendFile) (c : calls) : outcome (Z * AppendFile * calls) :=
  let x := fwrite (writes c) len in
  let* data := load x logline in
  Ret (x, mkFile (filename f) (content f ++ data) (synced f) (writtenBytes_ f), mkCalls (S (writes c)) (times c)).

(** The loop of [append]: [n] bytes are written; every round writes some or ends it. *)
Fixpoint append_loop (fuel : nat) (logline : list byte) (len n : Z) (f : AppendFile) (c : calls) : outcome (AppendFile * calls) :=
  let remain := u64 (len - n) in
  if decide (remain > 0) then
    match fuel with
    | O => Stop NoFuel
    | S fuel =>
        let* (x, f, c) := write (zdrop n logline) remain f c in
        if decide (x = 0) then Ret (f, c) else append_loop fuel logline len (u64 (n + x)) f c
    end
  else Ret (f, c).

Definition file_append (logline : list byte) (len : Z) (f : AppendFile) (c : calls) : outcome (AppendFile * calls) :=
  let* (n, f, c) := write logline len f c in
  let* (f, c) := append_loop (Z.to_nat len) logline len n f c in
  Ret (mkFile (filename f) (content f) (synced f) (i64 (writtenBytes_ f + len)), c).

(** ** LogFile *)

Definition kRollPerSeconds_ : Z := 60 * 60 * 24.

(** [closed]: the files closed so far, in the order they were opened. *)
Record LogFile := mkLog {
  basename_ : list byte;
  rollSize_ : Z;
  flushInterval_ : Z;
  checkEveryN_ : Z;
  count_ : Z;
  startOfPeriod_ : Z;
  lastRoll_ : Z;
  lastFlush_ : Z;
  file_ : option AppendFile;
  closed : list AppendFile
}.

(** [time(NULL)] *)
Definition time_now (c : calls) : Z * calls := (time (times c), mkCalls (writes c) (S (times c))).

(** [strftime] of [".%Y%m%d-%H%M%S."] *)
Definition timebuf (t : ctm) : list byte :=
  bytes "." ++ fmt_d (t_year t + 1900) ++ fmt_0d 2 (t_mon t + 1) ++ fmt_0d 2 (t_mday t) ++ bytes "-" ++
  fmt_0d 2 (t_hour t) ++ fmt_0d 2 (t_min t) ++ fmt_0d 2 (t_sec t) ++ bytes ".".

Definition getLogFileName (basename : list byte) (c : calls) : list byte * Z * calls :=
  let '(now, c) := time_now c in
  (basename ++ timebuf (gmtime_r now) ++ hostname ++ snprintf 32 (bytes "." ++ fmt_d pid) ++ bytes ".log", now, c).

Definition rollFile (l : LogFile) (c : calls) : bool * LogFile * calls :=
  let '(name, now, c) := getLogFileName (basename_ l) c in
  let start := now /c kRollPerSeconds_ * kRollPerSeconds_ in
  if decide (now > lastRoll_ l) then
    (true,
     mkLog (basename_ l) (rollSize_ l) (flushInterval_ l) (checkEveryN_ l) (count_ l) start now now (Some (openFile name))
       (closed l ++ match file_ l with Some f => [sync f] | None => [] end), c)
  else (false, l, c).

Definition set_file (f : AppendFile) (l : LogFile) : LogFile :=
  mkLog (basename_ l) (rollSize_ l) (flushInterval_ l) (checkEveryN_ l) (count_ l) (startOfPeriod_ l) (lastRoll_ l) (lastFlush_ l) (Some f) (closed l).
Definition set_count (n : Z) (l : LogFile) : LogFile :=
  mkLog (basename_ l) (rollSize_ l) (flushInterval_ l) (checkEveryN_ l) n (startOfPeriod_ l) (lastRoll_ l) (lastFlush_ l) (file_ l) (closed l).
Definition set_lastFlush (t : Z) (l : LogFile) : LogFile :=
  mkLog (basename_ l) (rollSize_ l) (flushInterval_ l) (checkEveryN_ l) (count_ l) (startOfPeriod_ l) (lastRoll_ l) t (file_ l) (closed l).

(** The constructor, with [find('/')] for the assertion *)
Definition newLogFile (basename : list byte) (rollSize flushInterval checkEveryN : Z) (c : calls) : outcome (LogFile * calls) :=
  assert* bool_decide (std_find (z2b 47) basename = zlen basename) in
  let '(_, l, c) := rollFile (mkLog basename rollSize flushInterval checkEveryN 0 0 0 0 None []) c in
  Ret (l, c).

(** [file_->...]: there is no file before the first roll. *)
Definition with_file {A} (l : LogFile) (k : AppendFile -> outcome A) : outcome A :=
  match file_ l with Some f => k f | None => Stop OutOfRange end.

Definition flush (l : LogFile) : outcome LogFile := with_file l (fun f => Ret (set_file (sync f) l)).

Definition append_unlocked (logline : list byte) (len : Z) (l : LogFile) (c : calls) : outcome (LogFile * calls) :=
  with_file l (fun f =>
    let* (f, c) := file_append logline (u64 len) f c in
    let l := set_file f l in
    if decide (writtenBytes_ f > rollSize_ l) then let '(_, l, c) := rollFile l c in Ret (l, c)
    else
      let l := set_count (i32 (count_ l + 1)) l in
      if decide (count_ l >= checkEveryN_ l) then
        let l := set_count 0 l in
        let '(now, c) := time_now c in
        let thisPeriod_ := now /c kRollPerSeconds_ * kRollPerSeconds_ in
        if decide (thisPeriod_ <> startOfPeriod_ l) then let '(_, l, c) := rollFile l c in Ret (l, c)
        else if decide (now - lastFlush_ l > flushInterval_ l) then Ret (set_lastFlush now (set_file (sync f) l), c)
        else Ret (l, c)
      else Ret (l, c)).

(** What a thread asks of the log; with [threadSafe] each call is one critical section. *)
Inductive request := Append (logline : list byte) (len : Z) | Flush | Roll.

Definition serve (r : request) (l : LogFile) (c : calls) : outcome (LogFile * calls) :=
  match r with
  | Append logline len => append_unlocked logline len l c
  | Flush => let* l := flush l in Ret (l, c)
  | Roll => let '(_, l, c) := rollFile l c in Ret (l, c)
  end.
Fixpoint serve_all (rs : list request) (l : LogFile) (c : calls) : outcome (LogFile * calls) :=
  match rs with
  | [] => Ret (l, c)
  | r :: rs => let* (l, c) := serve r l c in serve_all rs l c
  end.

(** ** Nothing is lost *)

(** A stream without error takes at least one byte of those offered. *)
Hypothesis fwrite_some : forall k len, 0 < len -> 0 < fwrite k len <= len.
Hypothesis fwrite_none : forall k, fwrite k 0 = 0.

Lemma write_ok logline len f c :
  0 <= len <= zlen logline ->
  exists x, 0 <= x <= len /\ (0 < len -> 0 < x) /\
    write logline len f c = Ret (x, mkFile (filename f) (content f ++ ztake x logline) (synced f) (writtenBytes_ f), mkCalls (S (writes c)) (times c)).
Proof.
  intros B. exists (fwrite (writes c) len).
  assert (0 <= fwrite (writes c) len <= len /\ (0 < len -> 0 < fwrite (writes c) len)) as [B1 B2].
  { destruct (decide (0 < len)) as [P|P]; [pose proof (fwrite_some (writes c) len P); lia|].
    replace len with 0 by lia. rewrite fwrite_none. lia. }
  split; [done|]. split; [done|]. unfold write. by rewrite load_ok by lia.
Qed.

(** The loop ends, and writes the rest of the line. *)
Lemma append_loop_ok fuel logline len n f c :
  0 <= n <= len -> len <= zlen logline -> len < 2 ^ 63 -> len - n <= Z.of_nat fuel ->
  exists c', times c' = times c /\
    append_loop fuel logline len n f c = Ret (mkFile (filename f) (content f ++ slice logline n len) (synced f) (writtenBytes_ f), c').
Proof.
  revert n f c. induction fuel as [|fuel IH]; intros n f c Bn Bl B63 Hf; cbn [append_loop]; rewrite (wrap_small 64) by lia.
  - rewrite decide_False by lia. exists c. replace n with len by lia. rewrite slice_empty, app_nil_r. by destruct f.
  - case_decide as D.
    + destruct (write_ok (zdrop n logline) (len - n) f c) as (x & Bx & Px & ->); [rewrite zlen_zdrop; lia|]. cbn [obind].
      rewrite decide_False by lia. rewrite (wrap_small 64) by lia.
      destruct (IH (n + x) (mkFile (filename f) (content f ++ ztake x (zdrop n logline)) (synced f) (writtenBytes_ f))
        (mkCalls (S (writes c)) (times c))) as (c' & Tc & ->); [lia..|]. exists c'. split; [done|]. cbn [filename content synced writtenBytes_].
      do 3 f_equal. rewrite <- app_assoc. f_equal. rewrite <- (ztake_zdrop x (slice logline n len)), zdrop_slice by lia. f_equal.
      unfold slice. by rewrite ztake_ztake by lia.
    + exists c. replace n with len by lia. rewrite slice_empty, app_nil_r. by destruct f.
Qed.

Lemma file_append_ok logline len f c :
  0 <= len <= zlen logline -> len < 2 ^ 63 ->
  exists c', times c' = times c /\
    file_append logline len f c = Ret (mkFile (filename f) (content f ++ ztake len logline) (synced f) (i64 (writtenBytes_ f + len)), c').
Proof.
  intros B B63. unfold file_append. destruct (write_ok logline len f c B) as (x & Bx & _ & ->). cbn [obind].
  destruct (append_loop_ok (Z.to_nat len) logline len x (mkFile (filename f) (content f ++ ztake x logline) (synced f) (writtenBytes_ f))
    (mkCalls (S (writes c)) (times c))) as (c' & Tc & ->); [lia..|]. cbn [obind filename content synced writtenBytes_].
  exists c'. split; [done|]. do 3 f_equal. rewrite <- app_assoc. f_equal.
  unfold slice. rewrite <- (ztake_zdrop x (ztake len logline)). rewrite ztake_ztake by lia. f_equal. rewrite zdrop_ztake by lia. done.
Qed.

(** The lines that were asked for, in order. *)
Definition line_of (r : request) : list (list byte) := match r with Append logline len => [ztake len logline] | _ => [] end.
Definition request_ok (r : request) : Prop :=
  match r with Append logline len => 0 <= len <= zlen logline /\ len < 2 ^ 31 | _ => True end.

(** There is a current file; the closed files are on the disk; the files hold the
    lines in order, each line in one file. *)
Definition log_ok (lines : list (list byte)) (l : LogFile) : Prop :=
  exists f groups last, file_ l = Some f /\ Forall (fun g => synced g = zlen (content g)) (closed l) /\
    lines = concat groups ++ last /\ map content (closed l) = map (@concat byte) groups /\ content f = concat last.

Lemma log_ok_file lines l f : file_ l = Some f -> log_ok lines l -> forall g, content g = content f -> log_ok lines (set_file g l).
Proof. intros E (f' & groups & last & E' & H1 & H2 & H3 & H4) g Eg. exists g, groups, last. cbn. split_and!; congruence. Qed.

Lemma log_ok_line lines l f g line :
  file_ l = Some f -> log_ok lines l -> content g = content f ++ line -> log_ok (lines ++ [line]) (set_file g l).
Proof.
  intros E (f' & groups & last & E' & H1 & H2 & H3 & H4) Eg. exists g, groups, (last ++ [line]). cbn. split_and!; [done|done| |done|].
  - by rewrite H2, <- app_assoc.
  - rewrite Eg, concat_app. cbn. rewrite app_nil_r. congruence.
Qed.

Lemma rollFile_ok lines l c : log_ok lines l -> exists b l' c', rollFile l c = (b, l', c') /\ log_ok lines l'.
Proof.
  intros (f & groups & last & E & H1 & H2 & H3 & H4). unfold rollFile. destruct (getLogFileName (basename_ l) c) as [[name now] c1].
  case_decide as D; [|by eexists _, _, _; split; [done|exists f, groups, last]].
  eexists _, _, _. split; [done|]. exists (openFile name), (groups ++ [last]), []. cbn. rewrite E. split_and!; [done|..|done].
  - apply Forall_app. split; [done|by apply Forall_singleton].
  - rewrite H2, concat_app, app_nil_r. cbn. by rewrite app_nil_r.
  - rewrite !map_app, H3. cbn. by rewrite H4.
Qed.

Lemma log_ok_frame lines l l' : file_ l' = file_ l -> closed l' = closed l -> log_ok lines l -> log_ok lines l'.
Proof. intros E1 E2 (f & groups & last & H). exists f, groups, last. by rewrite E1, E2. Qed.

Lemma serve_ok lines r l c :
  request_ok r -> log_ok lines l -> exists l' c', serve r l c = Ret (l', c') /\ log_ok (lines ++ line_of r) l'.
Proof.
  intros R H. destruct r as [logline len| |]; cbn [serve line_of].
  - destruct R as [B B31]. pose proof H as (f & _ & _ & E & _). unfold append_unlocked, with_file. rewrite E, (wrap_small 64) by lia.
    destruct (file_append_ok logline len f c) as (c1 & _ & ->); [lia..|]. cbn [obind].
    set (g := mkFile (filename f) (content f ++ ztake len logline) (synced f) (i64 (writtenBytes_ f + len))).
    assert (log_ok (lines ++ [ztake len logline]) (set_file g l)) as H1 by (by apply (log_ok_line lines l f)).
    case_decide as D1.
    + destruct (rollFile_ok _ _ c1 H1) as (b & l' & c' & -> & H'). by exists l', c'.
    + case_decide as D2; [|eexists _, _; split; [done|]; by apply (log_ok_frame _ (set_file g l))].
      unfold time_now. case_decide as D3.
      * destruct (rollFile_ok (lines ++ [ztake len logline]) (set_count 0 (set_count (i32 (count_ (set_file g l) + 1)) (set_file g l)))
          (mkCalls (writes c1) (S (times c1)))) as (b & l' & c' & -> & H'); [by apply (log_ok_frame _ (set_file g l))|]. by exists l', c'.
      * case_decide as D4; (eexists _, _; split; [done|]); [|by apply (log_ok_frame _ (set_file g l))].
        apply (log_ok_frame _ (set_file (sync g) (set_file g l))); [done..|]. by apply (log_ok_file _ (set_file g l) g).
  - pose proof H as (f & _ & _ & E & _). unfold flush, with_file. rewrite E. cbn [obind]. eexists _, _. split; [done|].
    rewrite app_nil_r. by apply (log_ok_file _ l f).
  - rewrite app_nil_r. destruct (rollFile_ok lines l c H) as (b & l' & c' & -> & H'). by exists l', c'.
Qed.

Lemma serve_all_ok rs lines l c :
  Forall request_ok rs -> log_ok lines l -> exists l' c', serve_all rs l c = Ret (l', c') /\ log_ok (lines ++ flat_map line_of rs) l'.
Proof.
  intros F. revert lines l c. induction F as [|r rs R F IH]; intros lines l c H; cbn [serve_all flat_map].
  - exists l, c. by rewrite app_nil_r.
  - destruct (serve_ok lines r l c R H) as (l1 & c1 & -> & H1). cbn [obind].
    destruct (IH _ l1 c1 H1) as (l' & c' & -> & H'). exists l', c'. by rewrite app_assoc.
Qed.

(** The log files keep every line: from a clock that is past 0 and a stream that
    takes at least a byte at a time, any sequence of appends, flushes and rolls
    returns; the files, in the order they were opened, hold all the lines in order,
    each line whole in one file whatever [fwrite] split it into; and every file but
    the current one was flushed to its end. *)
Theorem log_files_keep_lines basename rollSize flushInterval checkEveryN rs :
  std_find (z2b 47) basename = zlen basename -> 0 < time 0 -> Forall request_ok rs ->
  exists l0 c0 l c, newLogFile basename rollSize flushInterval checkEveryN (mkCalls 0 0) = Ret (l0, c0) /\
    serve_all rs l0 c0 = Ret (l, c) /\ log_ok (flat_map line_of rs) l.
Proof.
  intros Hb Ht F. unfold newLogFile. rewrite check_true by (by apply bool_decide_eq_true). unfold rollFile. cbn.
  rewrite decide_True by lia. eexists _, _.
  match goal with |- exists l c, Ret (?l0, ?c0) = _ /\ _ =>
    destruct (serve_all_ok rs [] l0 c0 F) as (l & c & E & H) end.
  { by exists (openFile (getLogFileName basename (mkCalls 0 0)).1.1), [], []. }
  exists l, c. by split_and!.
Qed.

(** A full file is closed by the append that fills it, unless it was opened in the
    same second. *)
Theorem full_file_is_closed logline len l c f :
  file_ l = Some f -> 0 <= len <= zlen logline -> len < 2 ^ 31 -> 0 <= writtenBytes_ f < 2 ^ 62 ->
  writtenBytes_ f + len > rollSize_ l -> time (times c) > lastRoll_ l ->
  exists l' c' g, append_unlocked logline len l c = Ret (l', c') /\ closed l' = closed l ++ [g] /\
    content g = content f ++ ztake len logline /\ synced g = zlen (content g) /\
    option_map content (file_ l') = Some [] /\ lastRoll_ l' = time (times c).
Proof.
  intros E B B31 Bw Hr Ht. unfold append_unlocked, with_file. rewrite E, (wrap_small 64) by lia.
  destruct (file_append_ok logline len f c) as (c1 & Tc & ->); [lia..|]. cbn [obind]. cbn [writtenBytes_].
  rewrite (swrap_small 64) by lia. rewrite decide_True by done. unfold rollFile, getLogFileName, time_now. rewrite Tc.
  rewrite decide_True by done. eexists _, _, _. split; [done|]. cbn. split; [done|]. by split_and!.
Qed.
End Files.

(** *** Witness: a stream that takes two bytes at a time, a second per call of [time]. *)
Definition two_at_a_time (k : nat) (len : Z) : Z := Z.min 2 len.
Definition tick (k : nat) : Z := 1000 + Z.of_nat k.

Lemma log_files_keep_lines_witness : exists l0 c0 l c,
  newLogFile tick (fun s => toUtcTime s true) (bytes "host") 42 (bytes "app") 4 3 1024 (mkCalls 0 0) = Ret (l0, c0) /\
  serve_all two_at_a_time tick (fun s => toUtcTime s true) (bytes "host") 42
    [Append (bytes "hello") 5; Append (bytes "abc") 3; Flush] l0 c0 = Ret (l, c) /\ log_ok [bytes "hello"; bytes "abc"] l.
Proof.
  apply (log_files_keep_lines two_at_a_time tick (fun s => toUtcTime s true) (bytes "host") 42); try done.
  - intros k len P. unfold two_at_a_time. lia.
  - repeat constructor; by vm_compute.
Defined.

(** ** ReadSmallFile *)

(** What [fstat] tells. *)
Record stat := mkStat { is_regular : bool; is_directory : bool; st_size : Z; st_mtime : Z; st_ctime : Z }.

Section Read.
(** The file, [errno] of a failed call, what [fstat] answers ([None]: it fails), and
    how many bytes at most the [k]-th [read] gives ([None]: it fails). *)
Context (file : list byte) (errno : Z) (fstat : option stat) (read : nat -> option Z).

Definition kBufferSize : Z := 64 * 1024.
Definition EISDIR : Z := 21.

(** [fd_ >= 0] and [err_] *)
Record ReadSmallFile := mkRead { opened : bool; err_ : Z }.
Definition newReadSmallFile (opened : bool) : ReadSmallFile := mkRead opened (if opened then 0 else errno).

(** The bytes [read(fd_, buf_, toRead)] gives at the offset [off]; none at the end. *)
Definition read_at (k : nat) (off toRead : Z) : option (list byte) :=
  match read k with
  | Some n => Some (ztake (Z.min toRead (Z.max 1 n)) (zdrop off file))
  | None => None
  end.

(** The loop of [readToString], each round of which reads at least a byte. *)
Fixpoint read_loop (fuel k : nat) (maxSize err : Z) (content : list byte) : outcome (Z * list byte) :=
  if decide (zlen content < u64 maxSize) then
    match fuel with
    | O => Stop NoFuel
    | S fuel =>
        let toRead := Z.min (u64 maxSize - zlen content) kBufferSize in
        match read_at k (zlen content) toRead with
        | Some (x :: l) => read_loop fuel (S k) maxSize err (content ++ x :: l)
        | Some [] => Ret (err, content)
        | None => Ret (errno, content)
        end
    end
  else Ret (err, content).

(** What the caller gets for the size and the times it asks for; [reserve] throws
    for a negative size. *)
Record info := mkInfo { fileSize : option Z; modifyTime : option Z; createTime : option Z }.

Definition stat_step (maxSize err : Z) (wantSize wantModify wantCreate : bool) : outcome (Z * info) :=
  if wantSize then
    match fstat with
    | Some st =>
        assert* negb (is_regular st && bool_decide (Z.min maxSize (st_size st) < 0)) in
        Ret (if is_regular st then err else if is_directory st then EISDIR else err,
             mkInfo (if is_regular st then Some (st_size st) else None) (if wantModify then Some (st_mtime st) else None)
               (if wantCreate then Some (st_ctime st) else None))
    | None => Ret (errno, mkInfo None None None)
    end
  else Ret (err, mkInfo None None None).

Definition readToString (f : ReadSmallFile) (maxSize : Z) (content : list byte) (wantSize wantModify wantCreate : bool) :
  outcome (Z * list byte * info) :=
  let err := err_ f in
  if opened f then
    let* (err, i) := stat_step maxSize err wantSize wantModify wantCreate in
    let* (err, content) := read_loop (Z.to_nat (u64 maxSize)) 0 maxSize err [] in
    Ret (err, content, i)
  else Ret (err, content, mkInfo None None None).

(** [readToBuffer]: [pread] of at most [sizeof(buf_)-1] bytes, terminated by 0 *)
Definition readToBuffer (f : ReadSmallFile) : Z * option (Z * list byte) :=
  let err := err_ f in
  if opened f then
    match read_at 0 0 (kBufferSize - 1) with
    | Some d => (err, Some (i32 (zlen d), d ++ [z2b 0]))
    | None => (errno, None)
    end
  else (err, None).

Definition readFile (opened : bool) (maxSize : Z) (content : list byte) (wantSize wantModify wantCreate : bool) :
  outcome (Z * list byte * info) :=
  readToString (newReadSmallFile opened) maxSize content wantSize wantModify wantCreate.

Lemma read_loop_ok fuel k maxSize err n :
  (forall k, read k <> None) -> 0 <= maxSize < 2 ^ 31 -> 0 <= n <= zlen file -> n <= maxSize -> maxSize - n <= Z.of_nat fuel ->
  read_loop fuel k maxSize err (ztake n file) = Ret (err, ztake maxSize file).
Proof.
  intros Rd B. revert k n. induction fuel as [|fuel IH]; intros k n Bn Bm Hf; cbn [read_loop]; rewrite zlen_ztake, (wrap_small 64) by lia.
  - rewrite decide_False by lia. by replace n with maxSize by lia.
  - case_decide as D; [|by replace n with maxSize by lia]. unfold read_at. destruct (read k) as [r|] eqn:Er; [|by apply Rd in Er].
    set (m := Z.min (Z.min (maxSize - n) kBufferSize) (Z.max 1 r)).
    assert (1 <= m <= maxSize - n) as Bmm by (unfold m, kBufferSize; lia). clearbody m.
    destruct (ztake m (zdrop n file)) as [|x l] eqn:E.
    + assert (zlen (ztake m (zdrop n file)) = 0) as Z0 by (by rewrite E).
      assert (n = zlen file) as ->.
      { destruct (decide (m <= zlen file - n)) as [Lm|Gm]; [rewrite zlen_ztake in Z0 by (rewrite zlen_zdrop; lia); lia|].
        rewrite ztake_all, zlen_zdrop in Z0 by (rewrite ?zlen_zdrop; lia). lia. }
      by rewrite !ztake_all by lia.
    + assert (n < zlen file) as Ln.
      { destruct (decide (n < zlen file)) as [|N]; [done|]. rewrite (zdrop_all n file) in E by lia. unfold ztake in E. by rewrite take_nil in E. }
      rewrite <- E. clear E x l Er. set (q := Z.min m (zlen file - n)).
      assert (ztake n file ++ ztake m (zdrop n file) = ztake (n + q) file) as ->.
      { rewrite <- (ztake_zdrop n (ztake (n + q) file)), ztake_ztake, zdrop_ztake by lia. f_equal.
        replace (n + q - n) with q by lia. unfold q. destruct (decide (m <= zlen file - n)) as [Lm|Gm]; [by rewrite Z.min_l by lia|].
        rewrite Z.min_r by lia. rewrite !ztake_all by (rewrite zlen_zdrop; lia). done. }
      apply IH; unfold q; lia.
Qed.

(** A file that can be read is read up to [maxSize], however few bytes each [read]
    gives, and the errors of [open], [fstat] and [read] are returned. *)
Theorem readFile_prefix opened maxSize c wantSize wantModify wantCreate :
  (forall k, read k <> None) -> 0 <= maxSize < 2 ^ 31 -> (forall st, fstat = Some st -> 0 <= st_size st) ->
  exists err i, readFile opened maxSize c wantSize wantModify wantCreate = Ret (err, if opened then ztake maxSize file else c, i) /\
    (opened = false -> err = errno) /\
    (opened = true -> wantSize = false -> err = 0) /\
    (opened = true -> wantSize = true -> forall st, fstat = Some st -> is_regular st = true ->
       err = 0 /\ fileSize i = Some (st_size st)).
Proof.
  intros Rd B Sz. unfold readFile, readToString. destruct opened; cbn; [|by eexists _, _].
  assert (exists err i, stat_step maxSize 0 wantSize wantModify wantCreate = Ret (err, i) /\ (wantSize = false -> err = 0) /\
    (wantSize = true -> forall st, fstat = Some st -> is_regular st = true -> err = 0 /\ fileSize i = Some (st_size st))) as (err & i & -> & E1 & E2).
  { unfold stat_step. destruct wantSize; [|by eexists _, _]. destruct fstat as [st|]; [|by eexists _, _].
    rewrite bool_decide_false, andb_false_r by (specialize (Sz st eq_refl); lia). cbn. eexists _, _. split; [done|]. split; [done|].
    intros _ st' [= <-] R. by rewrite R. }
  cbn [obind]. assert (read_loop (Z.to_nat (u64 maxSize)) 0 maxSize err [] = Ret (err, ztake maxSize file)) as ->.
  { pose proof (zlen_nonneg file). pose proof (read_loop_ok (Z.to_nat maxSize) 0 maxSize err 0 Rd B) as K.
    rewrite (ztake_0 0 file) in K by lia. rewrite (wrap_small 64) by lia. apply K; lia. }
  cbn [obind]. by eexists _, _.
Qed.
End Read.
