(* ===== verification/Monitor.v ===== *)
(** * Mutexes and condition variables (src/muduo/muduo/base/Mutex.h, Condition.h)

    [MutexLock] with its holder, and threads that run critical sections of the
    form the library uses everywhere:
<<
    MutexLockGuard lock(mutex_);
    while (condition) cond_.wait();
    work; cond_.notify();
>>
    A client gives the critical sections and what its threads do between them; the
    threads are interleaved at the acquisition, the body, the wait and the release,
    with any waiter woken by a notification, and with spurious wakeups. *)

From S2P Require Import Prelude.

(** ** MutexLock *)

(** [CurrentThread::tid()] of the thread number [t]: never 0. *)
Definition tid_of (t : nat) : Z := Z.of_nat t + 1.

(** The owner of the [pthread_mutex_t], and [holder_]. *)
Record MutexLock := mkMutex { owner : option nat; holder_ : Z }.

Definition newMutex : MutexLock := mkMutex None 0.
Definition unassignHolder (m : MutexLock) : MutexLock := mkMutex (owner m) 0.
Definition assignHolder (t : nat) (m : MutexLock) : MutexLock := mkMutex (owner m) (tid_of t).
Definition isLockedByThisThread (t : nat) (m : MutexLock) : bool := bool_decide (holder_ m = tid_of t).

(** [pthread_mutex_lock] returns when the mutex is free; [None] until then. *)
Definition pthread_mutex_lock (t : nat) (m : MutexLock) : option MutexLock :=
  match owner m with None => Some (mkMutex (Some t) (holder_ m)) | Some _ => None end.
(** An error for a thread that does not own the mutex; [MCHECK] asserts there is none. *)
Definition pthread_mutex_unlock (t : nat) (m : MutexLock) : outcome MutexLock :=
  if decide (owner m = Some t) then Ret (mkMutex None (holder_ m)) else Stop AssertFailed.

Definition lock (t : nat) (m : MutexLock) : option MutexLock :=
  match pthread_mutex_lock t m with Some m => Some (assignHolder t m) | None => None end.
Definition unlock (t : nat) (m : MutexLock) : outcome MutexLock := pthread_mutex_unlock t (unassignHolder m).
(** [~MutexLock] *)
Definition mutex_destroy (m : MutexLock) : outcome unit := assert* bool_decide (holder_ m = 0) in Ret tt.

(** [Condition::wait], up to where [pthread_cond_wait] has given the mutex up, and
    from where it has it again. *)
Definition wait_release (t : nat) (m : MutexLock) : outcome MutexLock := pthread_mutex_unlock t (unassignHolder m).
Definition wait_reacquire (t : nat) (m : MutexLock) : option MutexLock :=
  match pthread_mutex_lock t m with Some m => Some (assignHolder t m) | None => None end.

(** ** Clients *)

Inductive signal (C : Type) := Notify (c : C) | NotifyAll (c : C).
Arguments Notify {C} c.
Arguments NotifyAll {C} c.

(** A pass over a critical section waits on a condition, to be run again, or gets
    to its end with a new state, the notifications it made and a result. *)
Inductive pass (S C R : Type) :=
  | Block (c : C)
  | Finish (s : S) (sigs : list (signal C)) (r : R).
Arguments Block {S C R} c.
Arguments Finish {S C R} s sigs r.

(** [local d t l s]: what thread [t] does outside the mutex, by decision [d], with
    the threads it starts; [None] when it cannot. *)
Record client (S C Op R L D : Type) := mkClient {
  body : nat -> MutexLock -> Op -> S -> outcome (pass S C R);
  callable : L -> Op -> bool;
  after : L -> Op -> R -> L;
  local : D -> nat -> L -> S -> option (outcome (L * S * list L))
}.
Arguments mkClient {S C Op R L D}.
Arguments body {S C Op R L D}.
Arguments callable {S C Op R L D}.
Arguments after {S C Op R L D}.
Arguments local {S C Op R L D}.

(** Where a thread is. *)
Inductive thread (C Op R L : Type) :=
  | Idle (l : L)
  | Entering (l : L) (op : Op)
  | Inside (l : L) (op : Op)
  | Waiting (c : C) (l : L) (op : Op)
  | Woken (l : L) (op : Op)
  | Leaving (l : L) (op : Op) (r : R).
Arguments Idle {C Op R L} l.
Arguments Entering {C Op R L} l op.
Arguments Inside {C Op R L} l op.
Arguments Waiting {C Op R L} c l op.
Arguments Woken {C Op R L} l op.
Arguments Leaving {C Op R L} l op r.

Section Monitor.
Context {S C Op R L D : Type} `{!EqDecision C} (M : client S C Op R L D).

Abbreviation thread := (thread C Op R L).

(** [history]: the critical sections that got to their end, in that order. *)
Record config := mkConfig {
  mutex : MutexLock;
  shared : S;
  threads : list thread;
  history : list (nat * Op * R)
}.

Inductive action :=
  | Call (t : nat) (op : Op)
  | Acquire (t : nat)
  | Exec (t : nat) (picks : list nat)
  | Release (t : nat)
  | Spurious (t : nat)
  | Local (t : nat) (d : D).

Definition waits_on (c : C) (x : thread) : bool :=
  match x with Waiting c' _ _ => bool_decide (c = c') | _ => false end.
Definition wake (c : C) (x : thread) : thread :=
  match x with Waiting c' l op => if decide (c = c') then Woken l op else x | _ => x end.

Definition count (f : thread -> bool) (l : list thread) : nat := length (List.filter f l).

(** [notify()] wakes the waiter [pick], any of those there are. *)
Definition notify_one (c : C) (pick : nat) (l : list thread) : option (list thread) :=
  if decide (count (waits_on c) l = 0%nat) then Some l
  else match l !! pick with
       | Some x => if waits_on c x then Some (<[pick := wake c x]> l) else None
       | None => None
       end.
Fixpoint deliver (sigs : list (signal C)) (picks : list nat) (l : list thread) : option (list thread) :=
  match sigs with
  | [] => Some l
  | Notify c :: sigs =>
      match notify_one c (default 0%nat (head picks)) l with Some l => deliver sigs (tail picks) l | None => None end
  | NotifyAll c :: sigs => deliver sigs picks (map (wake c) l)
  end.

Definition set_thread (t : nat) (x : thread) (l : list thread) : list thread := <[t := x]> l.

(** One step of one thread; [None] when it is not possible. *)
Definition perform (a : action) (cf : config) : option (outcome config) :=
  match a with
  | Call t op =>
      match threads cf !! t with
      | Some (Idle l) =>
          if callable M l op then Some (Ret (mkConfig (mutex cf) (shared cf) (set_thread t (Entering l op) (threads cf)) (history cf)))
          else None
      | _ => None
      end
  | Acquire t =>
      match threads cf !! t with
      | Some (Entering l op) =>
          match lock t (mutex cf) with
          | Some m => Some (Ret (mkConfig m (shared cf) (set_thread t (Inside l op) (threads cf)) (history cf)))
          | None => None
          end
      | Some (Woken l op) =>
          match wait_reacquire t (mutex cf) with
          | Some m => Some (Ret (mkConfig m (shared cf) (set_thread t (Inside l op) (threads cf)) (history cf)))
          | None => None
          end
      | _ => None
      end
  | Exec t picks =>
      match threads cf !! t with
      | Some (Inside l op) =>
          match body M t (mutex cf) op (shared cf) with
          | Stop f => Some (Stop f)
          | Ret (Block c) =>
              Some (let* m := wait_release t (mutex cf) in
                    Ret (mkConfig m (shared cf) (set_thread t (Waiting c l op) (threads cf)) (history cf)))
          | Ret (Finish s sigs r) =>
              match deliver sigs picks (set_thread t (Leaving l op r) (threads cf)) with
              | Some ths => Some (Ret (mkConfig (mutex cf) s ths (history cf ++ [(t, op, r)])))
              | None => None
              end
          end
      | _ => None
      end
  | Release t =>
      match threads cf !! t with
      | Some (Leaving l op r) =>
          Some (let* m := unlock t (mutex cf) in
                Ret (mkConfig m (shared cf) (set_thread t (Idle (after M l op r)) (threads cf)) (history cf)))
      | _ => None
      end
  | Spurious t =>
      match threads cf !! t with
      | Some (Waiting c l op) => Some (Ret (mkConfig (mutex cf) (shared cf) (set_thread t (Woken l op) (threads cf)) (history cf)))
      | _ => None
      end
  | Local t d =>
      match threads cf !! t with
      | Some (Idle l) =>
          match local M d t l (shared cf) with
          | Some (Ret (l', s, new)) =>
              Some (Ret (mkConfig (mutex cf) s (set_thread t (Idle l') (threads cf) ++ map Idle new) (history cf)))
          | Some (Stop f) => Some (Stop f)
          | None => None
          end
      | _ => None
      end
  end.

(** The steps a thread takes by itself inside a call. *)
Definition internal (a : action) : bool :=
  match a with Acquire _ | Exec _ _ | Release _ => true | _ => false end.

Definition step (a : action) (cf cf' : config) : Prop := perform a cf = Some (Ret cf').
Definition internal_step (cf cf' : config) : Prop := exists a, internal a = true /\ step a cf cf'.
Definition any_step (cf cf' : config) : Prop := exists a, step a cf cf'.
(** No assertion fails, whatever is done next. *)
Definition safe (cf : config) : Prop := forall a f, perform a cf <> Some (Stop f).

(** Nothing can happen any more but what is [free] to happen or not. *)
Definition stuck (free : action -> bool) (cf : config) : Prop := forall a cf', step a cf cf' -> free a = true.
Definition spurious (a : action) : bool := match a with Spurious _ => true | _ => false end.

Fixpoint run_actions (acts : list action) (cf : config) : option (outcome config) :=
  match acts with
  | [] => Some (Ret cf)
  | a :: acts =>
      match perform a cf with
      | Some (Ret cf) => run_actions acts cf
      | r => r
      end
  end.

(** The start: the mutex free, every thread outside. *)
Definition initial (s : S) (ls : list L) : config := mkConfig newMutex s (map Idle ls) [].
Definition reachable (s : S) (ls : list L) (cf : config) : Prop := rtc any_step (initial s ls) cf.

Lemma run_actions_rtc acts cf cf' : run_actions acts cf = Some (Ret cf') -> rtc any_step cf cf'.
Proof.
  revert cf. induction acts as [|a acts IH]; intros cf; cbn [run_actions].
  - intros [= ->]. constructor.
  - destruct (perform a cf) as [[cf1|f]|] eqn:E; [|done..]. intros H. eapply rtc_l; [by exists a|]. by apply IH.
Qed.

(** ** The steps as rules *)

Definition calling (x : thread) : option (L * Op) :=
  match x with Entering l op | Woken l op => Some (l, op) | _ => None end.
Definition holds (x : thread) : bool := match x with Inside _ _ | Leaving _ _ _ => true | _ => false end.

Definition held_by (t : nat) : MutexLock := mkMutex (Some t) (tid_of t).

(** The mutex is free with no holder, or a thread owns it and is its holder;
    exactly the owner is in its critical section. *)
Definition mutex_ok (cf : config) : Prop :=
  (mutex cf = newMutex \/ exists t, mutex cf = held_by t /\ (t < length (threads cf))%nat) /\
  forall t x, threads cf !! t = Some x -> holds x = true <-> owner (mutex cf) = Some t.

Inductive rule : bool -> config -> config -> Prop :=
  | r_call m s ths h t l op :
      ths !! t = Some (Idle l) -> callable M l op = true ->
      rule false (mkConfig m s ths h) (mkConfig m s (<[t := Entering l op]> ths) h)
  | r_acquire s ths h t x l op :
      ths !! t = Some x -> calling x = Some (l, op) ->
      rule true (mkConfig newMutex s ths h) (mkConfig (held_by t) s (<[t := Inside l op]> ths) h)
  | r_block s ths h t l op c :
      ths !! t = Some (Inside l op) -> body M t (held_by t) op s = Ret (Block c) ->
      rule true (mkConfig (held_by t) s ths h) (mkConfig newMutex s (<[t := Waiting c l op]> ths) h)
  | r_finish s ths h t l op s' sigs r picks ths' :
      ths !! t = Some (Inside l op) -> body M t (held_by t) op s = Ret (Finish s' sigs r) ->
      deliver sigs picks (<[t := Leaving l op r]> ths) = Some ths' ->
      rule true (mkConfig (held_by t) s ths h) (mkConfig (held_by t) s' ths' (h ++ [(t, op, r)]))
  | r_release s ths h t l op r :
      ths !! t = Some (Leaving l op r) ->
      rule true (mkConfig (held_by t) s ths h) (mkConfig newMutex s (<[t := Idle (after M l op r)]> ths) h)
  | r_spurious m s ths h t c l op :
      ths !! t = Some (Waiting c l op) ->
      rule false (mkConfig m s ths h) (mkConfig m s (<[t := Woken l op]> ths) h)
  | r_local m s ths h t d l l' s' new :
      ths !! t = Some (Idle l) -> local M d t l s = Some (Ret (l', s', new)) ->
      rule false (mkConfig m s ths h) (mkConfig m s' (<[t := Idle l']> ths ++ map Idle new) h).

Lemma mutex_holder cf t x :
  mutex_ok cf -> threads cf !! t = Some x -> holds x = true -> mutex cf = held_by t.
Proof.
  intros [Hm Ho] E Hx. apply (Ho t x E) in Hx. destruct Hm as [Hm|(t' & Hm & _)]; rewrite Hm in *; cbn in Hx; congruence.
Qed.

Lemma mutex_free cf : mutex_ok cf -> owner (mutex cf) = None -> mutex cf = newMutex.
Proof. intros [[Hm|(t & Hm & _)] _] E; [done|by rewrite Hm in E]. Qed.

(** With the mutex in order, a step is one of the rules. *)
Lemma step_rule a cf cf' : mutex_ok cf -> step a cf cf' -> rule (internal a) cf cf'.
Proof.
  destruct cf as [m s ths h]. intros Ok H. unfold step in H.
  assert (forall t x, ths !! t = Some x -> holds x = true -> m = held_by t) as Hold by (intros t x; by apply (mutex_holder (mkConfig m s ths h))).
  pose proof (mutex_free _ Ok) as Free. cbn [mutex] in Free.
  destruct a as [t op|t|t picks|t|t|t d]; cbn [perform mutex shared threads history internal] in *;
    destruct (ths !! t) as [x|] eqn:E; try done; destruct x as [l|l o|l o|c l o|l o|l o r]; try done.
  - destruct (callable M l op) eqn:Ec; [|done]. injection H as <-. by apply (r_call _ _ _ _ _ l).
  - unfold lock, pthread_mutex_lock in H. destruct (owner m) eqn:Em; [done|]. injection H as <-. rewrite (Free eq_refl).
    by apply (r_acquire _ _ _ t (Entering l o)).
  - unfold wait_reacquire, pthread_mutex_lock in H. destruct (owner m) eqn:Em; [done|]. injection H as <-. rewrite (Free eq_refl).
    by apply (r_acquire _ _ _ t (Woken l o)).
  - rewrite (Hold t _ E eq_refl) in *. destruct (body M t (held_by t) o s) as [[c|s' sigs r]|f] eqn:Eb; [| |done].
    + unfold wait_release, pthread_mutex_unlock in H. cbn in H. rewrite decide_True in H by done. injection H as <-.
      by apply r_block.
    + destruct (deliver sigs picks _) as [ths'|] eqn:Ed; [|done]. injection H as <-.
      by apply (r_finish _ _ _ t l o s' sigs r picks).
  - rewrite (Hold t _ E eq_refl) in *. unfold unlock, pthread_mutex_unlock in H. cbn in H. rewrite decide_True in H by done.
    injection H as <-. by apply r_release.
  - injection H as <-. by apply (r_spurious _ _ _ _ _ c).
  - destruct (local M d t l s) as [[[[l' s'] new]|f]|] eqn:El; [|done..]. injection H as <-. by apply (r_local _ _ _ _ _ d l).
Qed.

(** ** Counting threads *)

Lemma count_cons f x l : count f (x :: l) = (Nat.b2n (f x) + count f l)%nat.
Proof. unfold count. cbn. by destruct (f x). Qed.

Lemma count_app f l k : count f (l ++ k) = (count f l + count f k)%nat.
Proof. unfold count. by rewrite List.filter_app, length_app. Qed.

Lemma count_insert f t x y l :
  l !! t = Some x -> (count f (<[t := y]> l) + Nat.b2n (f x) = count f l + Nat.b2n (f y))%nat.
Proof.
  revert t. induction l as [|z l IH]; intros [|t] E; [done..| |]; cbn in E.
  - injection E as ->. change (<[0%nat := y]> (x :: l)) with (y :: l). rewrite !count_cons. lia.
  - change (<[Datatypes.S t := y]> (z :: l)) with (z :: <[t := y]> l). rewrite !count_cons. specialize (IH t E). lia.
Qed.

Lemma count_pos f l : (0 < count f l)%nat <-> exists t x, l !! t = Some x /\ f x = true.
Proof.
  induction l as [|z l IH]; [cbn; split; [lia|by intros (t & x & E & _)]|]. rewrite count_cons. split.
  - intros H. destruct (f z) eqn:Ez; [by exists 0%nat, z|]. cbn in H. apply IH in H as (t & x & E & Ex). by exists (Datatypes.S t), x.
  - intros ([|t] & x & E & Ex); cbn in E; [injection E as ->; rewrite Ex; cbn; lia|].
    assert (0 < count f l)%nat by (apply IH; by exists t, x). lia.
Qed.

Lemma count_zero f l : count f l = 0%nat <-> forall t x, l !! t = Some x -> f x = false.
Proof.
  split.
  - intros H t x E. destruct (f x) eqn:Ex; [|done]. assert (0 < count f l)%nat by (apply count_pos; by exists t, x). lia.
  - intros H. destruct (count f l) eqn:E; [done|]. assert (0 < count f l)%nat as (t & x & Ex & Fx)%count_pos by lia.
    by rewrite (H t x Ex) in Fx.
Qed.

Lemma count_map_idle f new : (forall l, f (Idle l) = false) -> count f (map Idle new) = 0%nat.
Proof. intros H. induction new as [|l new IH]; [done|]. cbn [map]. by rewrite count_cons, H, IH. Qed.

(** ** Notifications *)

(** A thread is left alone or woken. *)
Definition wakes (x y : thread) : Prop := y = x \/ exists c l op, x = Waiting c l op /\ y = Woken l op.

Lemma wake_wakes c x : wakes x (wake c x).
Proof. destruct x; cbn; try by left. case_decide; [right; by eexists _, _, _|by left]. Qed.

Lemma wakes_trans x y z : wakes x y -> wakes y z -> wakes x z.
Proof. intros [-> | (c & l & op & -> & ->)] [-> | (c' & l' & op' & E & ->)]; try done; [by left|right; by eexists _, _, _..]. Qed.

Lemma deliver_wakes sigs picks l l' : deliver sigs picks l = Some l' -> Forall2 wakes l l'.
Proof.
  assert (forall k : list thread, Forall2 wakes k k) as Rf by (intros k; apply Forall_Forall2_diag, Forall_true; by left).
  assert (forall a b c, Forall2 wakes a b -> Forall2 wakes b c -> Forall2 wakes a c) as Tr.
  { intros a b c H. revert c. induction H as [|x y a b Hxy H IH]; intros c Hc; [done|]. inversion_clear Hc.
    constructor; [by eapply wakes_trans|by apply IH]. }
  revert picks l. induction sigs as [|[c|c] sigs IH]; intros picks l; cbn [deliver].
  - intros [= <-]. apply Rf.
  - destruct (notify_one c _ l) as [l1|] eqn:E; [|done]. intros H. apply (Tr _ l1); [|by eapply IH].
    unfold notify_one in E. case_decide; [injection E as <-; apply Rf|].
    destruct (l !! _) as [x|] eqn:Ex; [|done]. destruct (waits_on c x); [|done]. injection E as <-.
    rewrite <- (list_insert_id l _ x Ex) at 1. apply Forall2_insert; [apply Rf|apply wake_wakes].
  - intros H. apply (Tr _ (map (wake c) l)); [|by eapply IH]. clear. induction l; constructor; [apply wake_wakes|done].
Qed.

Fixpoint notifies (c : C) (sigs : list (signal C)) : nat :=
  match sigs with
  | [] => 0
  | Notify c' :: sigs => Nat.b2n (bool_decide (c = c')) + notifies c sigs
  | NotifyAll _ :: sigs => notifies c sigs
  end.

Lemma wake_waits c c' x : waits_on c (wake c' x) = (waits_on c x && negb (bool_decide (c = c'))).
Proof.
  destruct x; try done. cbn. case_decide as E; cbn.
  - subst. destruct (bool_decide_reflect (c = c0)); done.
  - destruct (bool_decide_reflect (c = c0)), (bool_decide_reflect (c = c')); try done. congruence.
Qed.

Lemma count_wake c c' l : count (waits_on c) (map (wake c') l) = if decide (c = c') then 0%nat else count (waits_on c) l.
Proof.
  induction l as [|x l IH]; cbn [map]; [by case_decide|]. rewrite !count_cons, IH, wake_waits.
  case_decide as E; [rewrite bool_decide_true by done; by rewrite andb_false_r|]. rewrite bool_decide_false by done. by rewrite andb_true_r.
Qed.

(** Each notification takes one waiter off, while there are any. *)
Lemma deliver_waits c sigs picks l l' :
  deliver sigs picks l = Some l' ->
  count (waits_on c) l' = 0%nat \/ ((count (waits_on c) l' + notifies c sigs <= count (waits_on c) l)%nat /\ NotifyAll c ∉ sigs).
Proof.
  revert picks l. induction sigs as [|[c'|c'] sigs IH]; intros picks l; cbn [deliver notifies].
  - intros [= <-]. right. split; [lia|]. apply not_elem_of_nil.
  - destruct (notify_one c' _ l) as [l1|] eqn:E; [|done]. intros H. destruct (IH _ _ H) as [Z|[Le No]]; [by left|].
    assert (count (waits_on c) l1 + Nat.b2n (bool_decide (c = c')) <= count (waits_on c) l \/ count (waits_on c) l1 = 0)%nat as Q.
    { unfold notify_one in E. case_decide as Dz.
      - injection E as <-. case_bool_decide; cbn; [subst; by right|left; lia].
      - destruct (l !! _) as [x|] eqn:Ex; [|done]. destruct (waits_on c' x) eqn:Ew; [|done]. injection E as <-. left.
        pose proof (count_insert (waits_on c) _ x (wake c' x) l Ex) as K. rewrite wake_waits in K.
        case_bool_decide as Ec; [subst c'; rewrite Ew in K; cbn in *; lia|]. cbn [negb] in K. rewrite andb_true_r in K. cbn. lia. }
    destruct Q as [Q|Q]; [right|left; lia]. split; [lia|]. intros [N|N]%elem_of_cons; done.
  - intros H. destruct (IH _ _ H) as [Z|[Le No]]; [by left|]. rewrite count_wake in Le. case_decide as Ec; [left; lia|].
    right. split; [lia|]. intros [N|N]%elem_of_cons; [congruence|done].
Qed.

(** ** Mutual exclusion *)

Definition holders_ok (o : option nat) (ths : list thread) : Prop :=
  forall t x, ths !! t = Some x -> holds x = true <-> o = Some t.

(** A thread changes, the owner stays, becomes the thread, or was it. *)
Lemma holders_insert o o' t x y ths :
  holders_ok o ths -> ths !! t = Some x ->
  (o' = o /\ holds y = holds x) \/ (o = None /\ o' = Some t /\ holds y = true) \/ (o = Some t /\ o' = None /\ holds y = false) ->
  holders_ok o' (<[t := y]> ths).
Proof.
  intros H E Cs t' z Ez. apply list_lookup_insert_Some in Ez as [(<- & <- & _)|[Ne Ez]].
  - destruct Cs as [[-> ->]|[(-> & -> & Hy)|(-> & -> & Hy)]]; [by apply H|done|rewrite Hy; done].
  - rewrite (H t' z Ez). destruct Cs as [[-> _]|[(-> & -> & _)|(-> & -> & _)]]; [done|split; [done|congruence]|split; [congruence|done]].
Qed.

Lemma holders_wakes o ths ths' : holders_ok o ths -> Forall2 wakes ths ths' -> holders_ok o ths'.
Proof.
  intros H F t y Ey. destruct (Forall2_lookup_r _ _ _ _ _ F Ey) as (x & Ex & W). rewrite <- (H t x Ex).
  destruct W as [-> | (c & l & op & -> & ->)]; done.
Qed.

Lemma initial_mutex_ok s ls : mutex_ok (initial s ls).
Proof.
  split; [by left|]. intros t x E. cbn in E. rewrite list_lookup_fmap in E. destruct (ls !! t); [|done].
  injection E as <-. done.
Qed.

Lemma rule_mutex_ok b cf cf' : mutex_ok cf -> rule b cf cf' -> mutex_ok cf'.
Proof.
  intros [Hm Ho] H. change (holders_ok (owner (mutex cf)) (threads cf)) in Ho. unfold mutex_ok.
  fold (holders_ok (owner (mutex cf')) (threads cf')).
  destruct H as [m s ths h t l op E Hc|s ths h t x l op E Hc|s ths h t l op c E Hb|s ths h t l op s' sigs r picks ths' E Hb Hd
    |s ths h t l op r E|m s ths h t c l op E|m s ths h t d l l' s' new E Hl]; cbn [mutex threads] in *;
    pose proof (lookup_lt_Some _ _ _ E) as Lt.
  - split; [by rewrite length_insert|]. eapply holders_insert; [done..|by left].
  - split; [right; exists t; by rewrite length_insert|]. eapply holders_insert; [done..|]. right. left. by cbn.
  - split; [by left|]. eapply holders_insert; [done..|]. right. right. by cbn.
  - pose proof (deliver_wakes _ _ _ _ Hd) as F. split.
    + right. exists t. apply Forall2_length in F. rewrite length_insert in F. by rewrite <- F.
    + eapply holders_wakes; [|done]. eapply holders_insert; [done..|by left].
  - split; [by left|]. eapply holders_insert; [done..|]. right. right. by cbn.
  - split; [by rewrite length_insert|]. eapply holders_insert; [done..|by left].
  - split; [destruct Hm as [Hm|(t' & Hm & Hl')]; [by left|right; exists t'; split; [done|rewrite length_app, length_insert; lia]]|].
    intros t' x Ex. apply lookup_app_Some in Ex as [Ex|[Ge Ex]].
    + revert t' x Ex. fold (holders_ok (owner m) (<[t := Idle l']> ths)). eapply holders_insert; [done..|by left].
    + rewrite list_lookup_fmap in Ex. destruct (new !! _) eqn:En; [|done]. injection Ex as <-. cbn. split; [done|].
      intros Eo. destruct Hm as [-> | (t'' & -> & Hl')]; [done|]. injection Eo as ->.
      rewrite length_insert in Ge. lia.
Qed.

(** ** Invariants *)

Abbreviation hist := (list (nat * Op * R)).

(** The local state of a thread, and the call it is in. *)
Definition view (x : thread) : L :=
  match x with
  | Idle l | Entering l _ | Inside l _ | Waiting _ l _ | Woken l _ => l
  | Leaving l op r => after M l op r
  end.
Definition in_call (x : thread) : option (L * Op) :=
  match x with Entering l op | Inside l op | Waiting _ l op | Woken l op => Some (l, op) | _ => None end.

(** Waking a thread does not change its local state. *)
Lemma wakes_view x y : wakes x y -> view y = view x.
Proof. by intros [-> | (c & l & op & -> & ->)]. Qed.

(** Counting threads by their local state. *)
Definition count_view (g : L -> bool) (ths : list thread) : nat := count (fun x => g (view x)) ths.

Lemma count_view_wakes g ths ths' : Forall2 wakes ths ths' -> count_view g ths' = count_view g ths.
Proof. unfold count_view. induction 1 as [|x y l l' W _ IH]; [done|]. by rewrite !count_cons, IH, (wakes_view x y W). Qed.

Lemma count_view_insert g ths t x y :
  ths !! t = Some x -> (count_view g (<[t := y]> ths) + Nat.b2n (g (view x)) = count_view g ths + Nat.b2n (g (view y)))%nat.
Proof. apply (count_insert (fun x => g (view x))). Qed.

Lemma count_view_same g ths t x y : ths !! t = Some x -> g (view y) = g (view x) -> count_view g (<[t := y]> ths) = count_view g ths.
Proof. intros E V. pose proof (count_view_insert g ths t x y E) as K. rewrite V in K. lia. Qed.

Lemma count_view_idle g ls : count_view g (map Idle ls) = length (List.filter g ls).
Proof. unfold count_view. induction ls as [|l ls IH]; [done|]. cbn [map List.filter]. rewrite count_cons, IH. cbn. by destruct (g l). Qed.

(** The promise of a client: an invariant [I] of the shared state and the sections
    done, and one [J] of each thread's local state, which every section and every
    local step keeps, with no assertion failed. *)
Class SafeClient (I : S -> hist -> Prop) (J : nat -> L -> S -> hist -> Prop) : Prop := {
  body_safe t op s h : I s h -> exists p, body M t (held_by t) op s = Ret p;
  finish_inv t l op s h s' sigs r :
    I s h -> J t l s h -> callable M l op = true -> body M t (held_by t) op s = Ret (Finish s' sigs r) ->
    I s' (h ++ [(t, op, r)]) /\ J t (after M l op r) s' (h ++ [(t, op, r)]) /\
    forall t' l', t' <> t -> J t' l' s h -> J t' l' s' (h ++ [(t, op, r)]);
  local_inv d t l s h l' s' new :
    I s h -> J t l s h -> local M d t l s = Some (Ret (l', s', new)) ->
    I s' h /\ J t l' s' h /\ (forall t' l0, t' <> t -> J t' l0 s h -> J t' l0 s' h) /\
    forall t' l0, l0 ∈ new -> t' <> t -> (forall e, e ∈ h -> e.1.1 <> t') -> J t' l0 s' h;
  local_safe d t l s h f : I s h -> J t l s h -> local M d t l s <> Some (Stop f)
}.

Section Safe.
Context (I : S -> hist -> Prop) (J : nat -> L -> S -> hist -> Prop) `{!SafeClient I J}.

Definition thread_ok (s : S) (h : hist) (t : nat) (x : thread) : Prop :=
  J t (view x) s h /\ forall l op, in_call x = Some (l, op) -> callable M l op = true.

Definition threads_ok (cf : config) : Prop :=
  (forall t x, threads cf !! t = Some x -> thread_ok (shared cf) (history cf) t x) /\
  (forall e, e ∈ history cf -> (e.1.1 < length (threads cf))%nat).

Definition monitor_ok (cf : config) : Prop := mutex_ok cf /\ I (shared cf) (history cf) /\ threads_ok cf.

Lemma threads_ok_insert m m' s h ths t x y :
  threads_ok (mkConfig m s ths h) -> ths !! t = Some x -> thread_ok s h t y -> threads_ok (mkConfig m' s (<[t := y]> ths) h).
Proof.
  intros [Ht Hh] E Hy. split; cbn [threads shared history] in *.
  - intros t' z Ez. apply list_lookup_insert_Some in Ez as [(<- & <- & _)|[Ne Ez]]; [done|by apply Ht].
  - intros e He. rewrite length_insert. by apply Hh.
Qed.

Lemma wakes_thread_ok s h t x y : wakes x y -> thread_ok s h t x -> thread_ok s h t y.
Proof. by intros [-> | (c & l & op & -> & ->)]. Qed.

Lemma rule_monitor_ok b cf cf' : monitor_ok cf -> rule b cf cf' -> monitor_ok cf'.
Proof.
  intros (Hm & Hi & Hts) H. split; [by eapply rule_mutex_ok|]. pose proof Hts as [Ht Hh].
  destruct H as [m s ths h t l op E Hx|s ths h t x l op E Hx|s ths h t l op c E Hb|s ths h t l op s' sigs r picks ths' E Hb Hd
    |s ths h t l op r E|m s ths h t c l op E|m s ths h t d l l' s' new E Hl]; cbn [shared threads history] in *;
    destruct (Ht t _ E) as [Jt Ct].
  - split; [done|]. eapply threads_ok_insert; [done..|]. split; [done|]. by intros ? ? [= <- <-].
  - split; [done|]. eapply threads_ok_insert; [done..|]. destruct x; try done; injection Hx as -> ->; done.
  - split; [done|]. by eapply threads_ok_insert.
  - destruct (finish_inv t l op s h s' sigs r Hi Jt (Ct l op eq_refl) Hb) as (Hi' & Jt' & Jo). split; [done|].
    pose proof (deliver_wakes _ _ _ _ Hd) as F. split; cbn [shared threads history].
    + intros t' y Ey. destruct (Forall2_lookup_r _ _ _ _ _ F Ey) as (x & Ex & W). eapply wakes_thread_ok; [done|].
      apply list_lookup_insert_Some in Ex as [(<- & <- & _)|[Ne Ex]]; [done|]. destruct (Ht t' x Ex) as [Jx Cx].
      split; [by apply Jo|done].
    + intros e He. rewrite <- (Forall2_length _ _ _ F), length_insert. apply elem_of_app in He as [He|He]; [by apply Hh|].
      apply list_elem_of_singleton in He as ->. cbn. by eapply lookup_lt_Some.
  - split; [done|]. by eapply threads_ok_insert.
  - split; [done|]. by eapply threads_ok_insert.
  - destruct (local_inv d t l s h l' s' new Hi Jt Hl) as (Hi' & Jt' & Jo & Jn). split; [done|].
    split; cbn [shared threads history].
    + intros t' y Ey. apply lookup_app_Some in Ey as [Ey|[Ge Ey]].
      * apply list_lookup_insert_Some in Ey as [(<- & <- & _)|[Ne Ey]]; [done|]. destruct (Ht t' y Ey) as [Jy Cy].
        split; [by apply Jo|done].
      * rewrite length_insert in Ge, Ey. rewrite list_lookup_fmap in Ey. destruct (new !! _) as [l0|] eqn:En; [|done].
        injection Ey as <-. split; [|done]. apply Jn; [by eapply list_elem_of_lookup_2|apply lookup_lt_Some in E; lia|].
        intros e He Q. specialize (Hh e He). lia.
    + intros e He. specialize (Hh e He). rewrite length_app, length_insert. lia.
Qed.

Lemma initial_ok s ls : I s [] -> (forall t l, ls !! t = Some l -> J t l s []) -> monitor_ok (initial s ls).
Proof.
  intros Hi Hj. split; [apply initial_mutex_ok|]. split; [done|]. split; cbn [threads history initial].
  - intros t x E. rewrite list_lookup_fmap in E. destruct (ls !! t) as [l|] eqn:El; [|done]. injection E as <-.
    split; [by apply Hj|done].
  - intros e He. by apply elem_of_nil in He.
Qed.

Lemma reachable_ok s ls cf :
  I s [] -> (forall t l, ls !! t = Some l -> J t l s []) -> reachable s ls cf -> monitor_ok cf.
Proof.
  intros Hi Hj H. pose proof (initial_ok s ls Hi Hj) as H0. clear Hi Hj.
  induction H as [|x y z (a & Ha) _ IH]; [done|]. apply IH. eapply rule_monitor_ok; [done|]. apply (step_rule a); [apply H0|done].
Qed.

Lemma monitor_safe cf : monitor_ok cf -> safe cf.
Proof.
  intros (Hm & Hi & Hts) a f H. pose proof (mutex_holder cf) as Hold.
  destruct a as [t op|t|t picks|t|t|t d]; cbn [perform] in H; destruct (threads cf !! t) as [x|] eqn:E; try done;
    destruct x as [l|l o|l o|c l o|l o|l o r]; try done.
  - by destruct (callable M l op).
  - unfold lock, pthread_mutex_lock in H. by destruct (owner (mutex cf)).
  - unfold wait_reacquire, pthread_mutex_lock in H. by destruct (owner (mutex cf)).
  - rewrite (Hold t _ Hm E eq_refl) in H. destruct (body_safe t o (shared cf) (history cf) Hi) as ([c|s' sigs r] & Eb); rewrite Eb in H.
    + unfold wait_release, pthread_mutex_unlock in H. cbn in H. by rewrite decide_True in H.
    + by destruct (deliver _ _ _).
  - rewrite (Hold t _ Hm E eq_refl) in H. unfold unlock, pthread_mutex_unlock in H. cbn in H. by rewrite decide_True in H.
  - destruct (local M d t l (shared cf)) as [[[[l' s'] new]|f']|] eqn:El; [done| |done].
    apply (local_safe _ _ _ _ _ _ Hi) in El; [done|]. by apply Hts in E as [Jt _].
Qed.

(** ** Threads come to rest *)

Definition quiet (cf : config) : Prop := forall cf', ~ internal_step cf cf'.

Lemma stuck_quiet free cf : (forall a, internal a = true -> free a = false) -> stuck free cf -> quiet cf.
Proof. intros F H cf' (a & Ia & Ha). specialize (H a cf' Ha). by rewrite (F a Ia) in H. Qed.

Definition settled (x : thread) : bool := match x with Idle _ | Waiting _ _ _ => true | _ => false end.

Lemma deliver_total sigs l : exists picks l', deliver sigs picks l = Some l'.
Proof.
  revert l. induction sigs as [|[c|c] sigs IH]; intros l; [by exists [], l| |].
  - assert (exists pick l1, notify_one c pick l = Some l1) as (pick & l1 & E1).
    { unfold notify_one. case_decide as Z; [by exists 0%nat, l|].
      assert (0 < count (waits_on c) l)%nat as (t & x & Ex & Wx)%count_pos by lia. exists t. rewrite Ex, Wx. by eexists. }
    destruct (IH l1) as (picks & l' & E). exists (pick :: picks), l'. cbn. by rewrite E1.
  - destruct (IH (map (wake c) l)) as (picks & l' & E). by exists picks, l'.
Qed.

(** A thread in its critical section can go on, and with the mutex free every
    thread that wants it can. *)
Lemma unsettled_steps cf t x :
  monitor_ok cf -> threads cf !! t = Some x -> settled x = false -> exists cf', internal_step cf cf'.
Proof.
  intros (Hm & Hi & _).
  assert (forall t x, threads cf !! t = Some x -> holds x = true -> exists cf', internal_step cf cf') as Go.
  { clear t x. intros t x E Hx. pose proof (mutex_holder cf t x Hm E Hx) as Mt. destruct x as [| |l op| | |l op r]; try done.
    - destruct (body_safe t op (shared cf) (history cf) Hi) as ([c|s' sigs r] & Eb).
      + eexists. exists (Exec t []). split; [done|]. unfold step. cbn [perform]. rewrite E, Mt, Eb.
        unfold wait_release, pthread_mutex_unlock. cbn. by rewrite decide_True.
      + destruct (deliver_total sigs (set_thread t (Leaving l op r) (threads cf))) as (picks & l' & Ed).
        eexists. exists (Exec t picks). split; [done|]. unfold step. cbn [perform]. by rewrite E, Mt, Eb, Ed.
    - eexists. exists (Release t). split; [done|]. unfold step. cbn [perform]. rewrite E, Mt.
      unfold unlock, pthread_mutex_unlock. cbn. by rewrite decide_True. }
  intros E Sx. destruct (owner (mutex cf)) as [t'|] eqn:Eo.
  - destruct Hm as [Hm Ho]. destruct Hm as [Hm|(t0 & Hm & Lt)]; [by rewrite Hm in Eo|].
    assert (t0 = t') as -> by (rewrite Hm in Eo; by injection Eo). apply lookup_lt_is_Some in Lt as [y Ey].
    apply (Go t' y Ey). by apply (Ho t' y Ey).
  - destruct x as [|l op|l op| |l op|l op r]; try done; [|by apply (Go t _ E)| |by apply (Go t _ E)];
      (eexists; exists (Acquire t); split; [done|]; unfold step; cbn [perform]; rewrite E);
      unfold lock, wait_reacquire, pthread_mutex_lock; by rewrite Eo.
Qed.

Lemma quiet_settled cf :
  monitor_ok cf -> quiet cf ->
  forall t x, threads cf !! t = Some x -> (exists l, x = Idle l) \/ (exists c l op, x = Waiting c l op).
Proof.
  intros Ok Q t x E. destruct (settled x) eqn:Sx.
  - destruct x; try done; [left; by eexists|right; by eexists _, _, _].
  - destruct (unsettled_steps cf t x Ok E Sx) as (cf' & H). by apply Q in H.
Qed.

(** A measure that every step inside a call decreases: calls not yet at their end
    weigh more than waking everybody. *)
Definition unfinished (x : thread) : bool :=
  match x with Entering _ _ | Inside _ _ | Waiting _ _ _ | Woken _ _ => true | _ => false end.
Definition rank (x : thread) : nat :=
  match x with Idle _ | Waiting _ _ _ => 0 | Leaving _ _ _ => 1 | Inside _ _ => 2 | Entering _ _ | Woken _ _ => 3 end.
Definition total_rank (l : list thread) : nat := sum_list_with rank l.
Definition measure (cf : config) : nat :=
  (4 * (length (threads cf) + 1)) * count unfinished (threads cf) + total_rank (threads cf).

Lemma total_rank_insert t x y l :
  l !! t = Some x -> (total_rank (<[t := y]> l) + rank x = total_rank l + rank y)%nat.
Proof.
  unfold total_rank. revert t. induction l as [|z l IH]; intros [|t] E; [done..| |]; cbn in E.
  - injection E as ->. cbn. lia.
  - change (<[Datatypes.S t := y]> (z :: l)) with (z :: <[t := y]> l). specialize (IH t E). cbn [sum_list_with]. lia.
Qed.

Lemma wakes_rank l l' : Forall2 wakes l l' -> (total_rank l' <= total_rank l + 3 * length l)%nat /\ count unfinished l' = count unfinished l.
Proof.
  unfold total_rank. induction 1 as [|x y l l' Hxy _ [IH1 IH2]]; [done|]. rewrite !count_cons, IH2. cbn.
  destruct Hxy as [-> | (c & lo & op & -> & ->)]; cbn; split; lia.
Qed.

Lemma rule_measure cf cf' : rule true cf cf' -> (measure cf' < measure cf)%nat.
Proof.
  intros H. unfold measure. remember true as b. destruct H as [| s ths h t x l op E Hx|s ths h t l op c E Hb|s ths h t l op s' sigs r picks ths' E Hb Hd
    |s ths h t l op r E| |]; try done; cbn [threads].
  - rewrite length_insert. pose proof (count_insert unfinished t _ (Inside l op) ths E) as K1.
    pose proof (total_rank_insert t _ (Inside l op) ths E) as K2. destruct x; try done; cbn in K1, K2; nia.
  - rewrite length_insert. pose proof (count_insert unfinished t _ (Waiting c l op) ths E) as K1.
    pose proof (total_rank_insert t _ (Waiting c l op) ths E) as K2. cbn in K1, K2. nia.
  - pose proof (deliver_wakes _ _ _ _ Hd) as F. destruct (wakes_rank _ _ F) as [Rk ->].
    rewrite <- (Forall2_length _ _ _ F), !length_insert. rewrite length_insert in Rk.
    pose proof (count_insert unfinished t _ (Leaving l op r) ths E) as K1.
    pose proof (total_rank_insert t _ (Leaving l op r) ths E) as K2. cbn in K1, K2. nia.
  - rewrite length_insert. pose proof (count_insert unfinished t _ (Idle (after M l op r)) ths E) as K1.
    pose proof (total_rank_insert t _ (Idle (after M l op r)) ths E) as K2. cbn in K1, K2. nia.
Qed.

Lemma internal_step_ok cf cf' : monitor_ok cf -> internal_step cf cf' -> monitor_ok cf' /\ (measure cf' < measure cf)%nat.
Proof.
  intros Ok (a & Ia & Ha). assert (rule true cf cf') as Hr by (rewrite <- Ia; apply step_rule; [apply Ok|done]).
  split; [by eapply rule_monitor_ok|by apply rule_measure].
Qed.

(** Without new calls and spurious wakeups, the threads can take only so many
    steps, and they come to rest. *)
Lemma internal_bounded cf n cf' : monitor_ok cf -> nsteps internal_step n cf cf' -> (n <= measure cf)%nat.
Proof.
  intros Ok H. revert Ok. induction H as [x|n x y z Hxy _ IH]; intros Ok; [lia|].
  destruct (internal_step_ok x y Ok Hxy) as [Oy Lt]. specialize (IH Oy). lia.
Qed.

Lemma comes_to_rest cf : monitor_ok cf -> exists cf', rtc internal_step cf cf' /\ quiet cf'.
Proof.
  remember (measure cf) as n eqn:En. revert cf En. induction (lt_wf n) as [n _ IH]. intros cf -> Ok.
  destruct (decide (count (fun x => negb (settled x)) (threads cf) = 0%nat)) as [Z|N].
  - exists cf. split; [constructor|]. intros cf' (a & Ia & Ha).
    assert (rule true cf cf') as Hr by (rewrite <- Ia; apply step_rule; [apply Ok|done]).
    remember true as b. pose proof (proj1 (count_zero _ _) Z) as Hs. destruct Hr; try done; cbn [threads] in Hs;
      match goal with E : _ !! _ = Some _ |- _ => specialize (Hs _ _ E); first [done|by destruct x] end.
  - assert (0 < count (fun x => negb (settled x)) (threads cf))%nat as (t & x & E & Sx)%count_pos by lia.
    apply negb_true_iff in Sx. destruct (unsettled_steps cf t x Ok E Sx) as (cf1 & H1).
    destruct (internal_step_ok cf cf1 Ok H1) as [O1 L1]. destruct (IH _ L1 cf1 eq_refl O1) as (cf' & H' & Q).
    exists cf'. split; [by eapply rtc_l|done].
Qed.

(** ** No lost wakeups *)

(** A client that wakes waiters by counting: [avail c s] is how many sections that
    wait on [c] could get to their end in state [s] ([None]: any number), [needs op]
    the condition on which [op] may wait. A section waits only when nothing is
    available; whoever makes something available notifies as many waiters, or all. *)
Class WakingClient (avail : C -> S -> option nat) (needs : Op -> option C) : Prop := {
  block_avail t op s h c : I s h -> body M t (held_by t) op s = Ret (Block c) -> needs op = Some c /\ avail c s = Some 0%nat;
  finish_avail t op s h s' sigs r c :
    I s h -> body M t (held_by t) op s = Ret (Finish s' sigs r) ->
    NotifyAll c ∈ sigs \/ avail c s = None \/
    exists n n', avail c s = Some n /\ avail c s' = Some n' /\
      (n' + Nat.b2n (bool_decide (needs op = Some c)) <= n + notifies c sigs)%nat;
  local_avail d t l s h l' s' new c :
    I s h -> J t l s h -> local M d t l s = Some (Ret (l', s', new)) ->
    avail c s = None \/ exists n n', avail c s = Some n /\ avail c s' = Some n' /\ (n' <= n)%nat
}.

Section Waking.
Context (avail : C -> S -> option nat) (needs : Op -> option C) `{!WakingClient avail needs}.

(** Threads on their way to a section that may wait on [c]. *)
Definition on_the_way (c : C) (x : thread) : bool :=
  match x with Entering _ op | Inside _ op | Woken _ op => bool_decide (needs op = Some c) | _ => false end.

Definition waiters_ok (ths : list thread) : Prop :=
  forall t c l op, ths !! t = Some (Waiting c l op) -> needs op = Some c.

(** While a thread waits, there are as many threads on their way as sections could end. *)
Definition wake_inv (s : S) (ths : list thread) : Prop :=
  waiters_ok ths /\
  forall c, (0 < count (waits_on c) ths)%nat -> exists n, avail c s = Some n /\ (n <= count (on_the_way c) ths)%nat.

Lemma waiters_insert t x y ths :
  waiters_ok ths -> ths !! t = Some x -> (forall c l op, y = Waiting c l op -> needs op = Some c) -> waiters_ok (<[t := y]> ths).
Proof.
  intros H E Hy t' c l op Ez. apply list_lookup_insert_Some in Ez as [(<- & -> & _)|[Ne Ez]]; [by eapply Hy|by eapply H].
Qed.

Lemma waiters_wakes ths ths' : waiters_ok ths -> Forall2 wakes ths ths' -> waiters_ok ths'.
Proof.
  intros H F t c l op Ey. destruct (Forall2_lookup_r _ _ _ _ _ F Ey) as (x & Ex & W).
  destruct W as [E|(c' & l' & op' & _ & E)]; [|done]. subst x. by eapply H.
Qed.

(** Waking moves threads from the waiters to those on their way. *)
Lemma wakes_counts c ths ths' :
  waiters_ok ths -> Forall2 wakes ths ths' ->
  (count (waits_on c) ths' + count (on_the_way c) ths' = count (waits_on c) ths + count (on_the_way c) ths)%nat.
Proof.
  intros H F. induction F as [|x y ths ths' Hxy F IH]; [done|]. rewrite !count_cons.
  assert (waiters_ok ths) as Hw by (intros t c' l op E; by apply (H (Datatypes.S t) c' l op)). specialize (IH Hw).
  enough (Nat.b2n (waits_on c y) + Nat.b2n (on_the_way c y) = Nat.b2n (waits_on c x) + Nat.b2n (on_the_way c x))%nat by lia.
  destruct Hxy as [-> | (c' & l & op & -> & ->)]; [done|]. pose proof (H 0%nat c' l op eq_refl) as N. cbn. rewrite N.
  case_bool_decide as E1; case_bool_decide as E2; cbn; congruence.
Qed.

(** A thread that does not start to wait, and stays on its way if it was. *)
Lemma wake_inv_move s t x y ths :
  wake_inv s ths -> ths !! t = Some x -> (forall c, waits_on c y = false) ->
  (forall c, on_the_way c x = true -> on_the_way c y = true) -> wake_inv s (<[t := y]> ths).
Proof.
  intros [Hw Hc] E Wy Oy. split.
  { eapply waiters_insert; [done..|]. intros c l op ->. specialize (Wy c). cbn in Wy. by rewrite bool_decide_true in Wy. }
  intros c0 P. pose proof (count_insert (waits_on c0) t _ y ths E) as K1. rewrite Wy in K1. cbn in K1.
  pose proof (count_insert (on_the_way c0) t _ y ths E) as K2.
  assert (Nat.b2n (on_the_way c0 x) <= Nat.b2n (on_the_way c0 y))%nat as K3.
  { destruct (on_the_way c0 x) eqn:Ex; [by rewrite Oy|cbn; lia]. }
  destruct (Hc c0) as (n & En & Le); [lia|]. exists n. split; [done|lia].
Qed.

Lemma rule_wake_inv b cf cf' :
  monitor_ok cf -> rule b cf cf' -> wake_inv (shared cf) (threads cf) -> wake_inv (shared cf') (threads cf').
Proof.
  intros (_ & Hi & Hts & _) H W. pose proof W as [Hw Hc].
  destruct H as [m s ths h t l op E Hx|s ths h t x l op E Hx|s ths h t l op c E Hb|s ths h t l op s' sigs r picks ths' E Hb Hd
    |s ths h t l op r E|m s ths h t c l op E|m s ths h t d l l' s' new E Hl]; cbn [shared threads history] in *.
  - by eapply wake_inv_move.
  - eapply wake_inv_move; [done..|]. intros c0. destruct x; cbn in Hx; try done; by injection Hx as -> ->.
  - destruct (block_avail t op s h c Hi Hb) as [Nc Av]. split.
    { eapply waiters_insert; [done..|]. by intros c' l' op' [= <- <- <-]. }
    intros c0. pose proof (count_insert (waits_on c0) t _ (Waiting c l op) ths E) as K1.
    pose proof (count_insert (on_the_way c0) t _ (Waiting c l op) ths E) as K2. cbn in K1, K2. intros P.
    destruct (decide (c0 = c)) as [-> | Ne]; [exists 0%nat; split; [done|lia]|].
    rewrite bool_decide_false in K1 by done. rewrite Nc, bool_decide_false in K2 by congruence. cbn in K1, K2.
    destruct (Hc c0) as (n & En & Le); [lia|]. exists n. split; [done|lia].
  - set (ths1 := <[t := Leaving l op r]> ths) in *. assert (waiters_ok ths1) as W1 by (by eapply waiters_insert).
    pose proof (deliver_wakes _ _ _ _ Hd) as F. split; [by eapply waiters_wakes|]. intros c0 P.
    pose proof (count_insert (waits_on c0) t _ (Leaving l op r) ths E) as K1.
    pose proof (count_insert (on_the_way c0) t _ (Leaving l op r) ths E) as K2. cbn in K1, K2. fold ths1 in K1, K2.
    pose proof (wakes_counts c0 ths1 ths' W1 F) as K3.
    destruct (deliver_waits c0 _ _ _ _ Hd) as [Z|[Le No]]; [lia|]. destruct (Hc c0) as (n & En & Ln); [lia|].
    destruct (finish_avail t op s h s' sigs r c0 Hi Hb) as [?|[?|(n1 & n' & E1 & E2 & L2)]]; [done|congruence|].
    exists n'. split; [done|]. assert (n1 = n) as -> by congruence. lia.
  - by eapply wake_inv_move.
  - by eapply wake_inv_move.
  - assert (wake_inv s (<[t := Idle l']> ths)) as [Hw' Hc'] by (by eapply wake_inv_move). split.
    { intros t' c l0 op Ez. apply lookup_app_Some in Ez as [Ez|[_ Ez]]; [by eapply Hw'|].
      rewrite list_lookup_fmap in Ez. by destruct (new !! _). }
    intros c0. rewrite !count_app, !(count_map_idle _ new) by done. intros P. destruct (Hc' c0) as (n & En & Le); [lia|].
    destruct (local_avail d t l s h l' s' new c0 Hi (proj1 (Hts t _ E)) Hl) as [?|(n1 & n' & E1 & E2 & L2)]; [congruence|].
    exists n'. split; [done|]. assert (n1 = n) as -> by congruence. lia.
Qed.

Lemma reachable_wake_inv s ls cf :
  I s [] -> (forall t l, ls !! t = Some l -> J t l s []) -> reachable s ls cf -> wake_inv (shared cf) (threads cf).
Proof.
  intros Hi Hj H. pose proof (initial_ok s ls Hi Hj) as H0. clear Hi Hj.
  assert (wake_inv (shared (initial s ls)) (threads (initial s ls))) as W0.
  { split.
    - intros t c l op E. cbn in E. rewrite list_lookup_fmap in E. by destruct (ls !! t).
    - intros c. cbn [initial threads]. rewrite (count_map_idle _ ls) by done. lia. }
  induction H as [|x y z (a & Ha) _ IH]; [done|]. assert (rule (internal a) x y) as Hr by (apply step_rule; [apply H0|done]).
  apply IH; [by eapply rule_monitor_ok|by eapply rule_wake_inv].
Qed.

(** When no thread can go on by itself, whoever waits has nothing to take. *)
Lemma quiet_waiters s ls cf c :
  I s [] -> (forall t l, ls !! t = Some l -> J t l s []) -> reachable s ls cf -> quiet cf -> (0 < count (waits_on c) (threads cf))%nat -> avail c (shared cf) = Some 0%nat.
Proof.
  intros Hi Hj H Q P. destruct (reachable_wake_inv s ls cf Hi Hj H) as [_ W]. destruct (W c P) as (n & En & Le).
  assert (count (on_the_way c) (threads cf) = 0%nat) as Z; [|rewrite En; f_equal; lia].
  apply count_zero. intros t x E. destruct (quiet_settled cf (reachable_ok s ls cf Hi Hj H) Q t x E) as [(l & ->)|(c' & l & op & ->)]; done.
Qed.
End Waking.
End Safe.
End Monitor.

(** The arithmetic of waiters and notifications. *)
Ltac wakelia := cbn [notifies length]; repeat case_bool_decide; cbn in *; try congruence; lia.
