(* ===== verification/BlockingQueue.v ===== *)
(** * Blocking queues (src/muduo/muduo/base/BlockingQueue.h, BoundedBlockingQueue.h)

    The two queues as clients of the monitor: any number of threads, each of which
    may call any operation at any time. *)

From S2P Require Import Prelude Monitor.

(** The threads do nothing but call operations. *)
Definition no_local {S L D : Type} (d : D) (t : nat) (l : L) (s : S) : option (outcome (L * S * list L)) := None.

(** Nothing to say of a thread's own state. *)
Definition any_thread {S H L : Type} (t : nat) (l : L) (s : S) (h : H) : Prop := True.

Inductive queue_op (T : Type) := Put (x : T) | Take | Empty | Full | Size | Capacity.
Arguments Put {T} x.
Arguments Take {T}.
Arguments Empty {T}.
Arguments Full {T}.
Arguments Size {T}.
Arguments Capacity {T}.

Inductive queue_result (T : Type) := RVoid | RTaken (x : T) | RBool (b : bool) | RSize (n : Z).
Arguments RVoid {T}.
Arguments RTaken {T} x.
Arguments RBool {T} b.
Arguments RSize {T} n.

(** What was put and what was taken, in the order of the critical sections. *)
Definition was_put {T} (e : nat * queue_op T * queue_result T) : option T :=
  match e with (_, Put x, _) => Some x | _ => None end.
Definition was_taken {T} (e : nat * queue_op T * queue_result T) : option T :=
  match e with (_, _, RTaken x) => Some x | _ => None end.
Definition puts {T} (h : list (nat * queue_op T * queue_result T)) : list T := flat_map (fun e => option_list (was_put e)) h.
Definition takes {T} (h : list (nat * queue_op T * queue_result T)) : list T := flat_map (fun e => option_list (was_taken e)) h.

Lemma puts_snoc {T} (h : list (nat * queue_op T * queue_result T)) e : puts (h ++ [e]) = puts h ++ option_list (was_put e).
Proof. unfold puts. rewrite flat_map_app. cbn. by rewrite app_nil_r. Qed.
Lemma takes_snoc {T} (h : list (nat * queue_op T * queue_result T)) e : takes (h ++ [e]) = takes h ++ option_list (was_taken e).
Proof. unfold takes. rewrite flat_map_app. cbn. by rewrite app_nil_r. Qed.

(** ** BlockingQueue *)

Module Unbounded.
Section Queue.
Context {T : Type}.

(** [queue_], a deque; the condition [notEmpty_]. *)
Inductive cond := notEmpty_.
#[global] Instance cond_eq : EqDecision cond.
Proof. solve_decision. Defined.

Abbreviation result := (outcome (pass (list T) cond (queue_result T))).

Definition put (x : T) (queue_ : list T) : result := Ret (Finish (queue_ ++ [x]) [Notify notEmpty_] RVoid).

Definition take (queue_ : list T) : result :=
  if decide (length queue_ = 0%nat) then Ret (Block notEmpty_)
  else
    assert* negb (bool_decide (length queue_ = 0%nat)) in
    match queue_ with
    | front :: rest => Ret (Finish rest [] (RTaken front))
    | [] => Stop OutOfRange
    end.

Definition size (queue_ : list T) : result := Ret (Finish queue_ [] (RSize (u64 (zlen queue_)))).

(** This queue has no [empty], [full] and [capacity]. *)
Definition has (l : unit) (op : queue_op T) : bool := match op with Put _ | Take | Size => true | _ => false end.

Definition section (t : nat) (m : MutexLock) (op : queue_op T) (q : list T) : result :=
  match op with
  | Put x => put x q
  | Take => take q
  | _ => size q
  end.

Definition BlockingQueue : client (list T) cond (queue_op T) (queue_result T) unit unit :=
  mkClient section has (fun _ _ _ => tt) no_local.

(** First in, first out. *)
Definition fifo (q : list T) (h : list (nat * queue_op T * queue_result T)) : Prop := puts h = takes h ++ q.

#[global] Instance queue_safe : SafeClient BlockingQueue fifo any_thread.
Proof.
  constructor.
  - intros t op q h I. destruct op; try by eexists. cbn. unfold take. case_decide; [by eexists|].
    rewrite bool_decide_false by done. cbn. destruct q; [done|by eexists].
  - intros t [] op q h q' sigs r I _ _ H. split; [|done]. unfold fifo in *. rewrite puts_snoc, takes_snoc.
    destruct op; cbn in H; try (injection H as <- <- <-; cbn; by rewrite ?app_nil_r).
    + injection H as <- <- <-. cbn. rewrite I. by rewrite app_nil_r, app_assoc.
    + unfold take in H. case_decide as E; [done|]. rewrite bool_decide_false in H by done. cbn in H.
      destruct q as [|x q]; [done|]. injection H as <- <- <-. cbn. rewrite I, app_nil_r, <- app_assoc. done.
  - done.
  - done.
Qed.

Definition avail (c : cond) (q : list T) : option nat := Some (length q).
Definition needs (op : queue_op T) : option cond := match op with Take => Some notEmpty_ | _ => None end.

#[global] Instance queue_wakes : WakingClient BlockingQueue fifo any_thread avail needs.
Proof.
  constructor.
  - intros t op q h [] I H. destruct op; try done. cbn in H. unfold take in H. case_decide as E; [by rewrite <- E|].
    rewrite bool_decide_false in H by done. cbn in H. by destruct q.
  - intros t op q h q' sigs r [] I H. right. right. exists (length q), (length q'). split_and!; [done..|].
    destruct op; cbn in H; try (injection H as <- <- <-; wakelia).
    + injection H as <- <- <-. rewrite length_app. wakelia.
    + unfold take in H. case_decide as E; [done|]. rewrite bool_decide_false in H by done. cbn in H.
      destruct q as [|x q]; [done|]. injection H as <- <- <-. wakelia.
  - done.
Qed.

(** For any number of threads that put and take in any interleaving, with
    spurious wakeups: no assertion fails; what was taken followed by what is queued
    is what was put, in that order, so nothing is lost, duplicated or reordered; the
    threads come to rest after finitely many steps unless there are new calls; and
    then a thread waits in [take] only if the queue is empty (no wakeup is lost). *)
Theorem blocking_queue_correct ls cf :
  reachable BlockingQueue [] ls cf ->
  safe BlockingQueue cf /\ puts (history cf) = takes (history cf) ++ shared cf /\
  (forall n cf', nsteps (internal_step BlockingQueue) n cf cf' -> (n <= measure cf)%nat) /\
  (exists cf', rtc (internal_step BlockingQueue) cf cf' /\ quiet BlockingQueue cf') /\
  (quiet BlockingQueue cf -> (0 < count (waits_on notEmpty_) (threads cf))%nat -> shared cf = []).
Proof.
  intros H. pose proof (reachable_ok BlockingQueue fifo any_thread [] ls cf eq_refl (fun _ _ _ => Logic.I) H) as Ok. split_and!.
  - by apply (monitor_safe _ fifo any_thread).
  - apply Ok.
  - intros n cf'. by apply (internal_bounded _ fifo any_thread).
  - by apply (comes_to_rest _ fifo any_thread).
  - intros Q W. pose proof (quiet_waiters BlockingQueue fifo any_thread avail needs [] ls cf notEmpty_ eq_refl (fun _ _ _ => Logic.I) H Q W) as [= E].
    by destruct (shared cf).
Qed.
End Queue.

(** Two takers wait, one put wakes the second of them, the other waits on. *)
Definition two_takers : list (action (Op := queue_op Z) (D := unit)) :=
  [Call 0 Take; Acquire 0; Exec 0 []; Call 1 Take; Acquire 1; Exec 1 []; Call 2 (Put 7); Acquire 2; Exec 2 [1%nat]; Release 2;
   Acquire 1; Exec 1 []; Release 1].

Lemma blocking_queue_correct_witness : exists cf,
  run_actions BlockingQueue two_takers (initial [] [tt; tt; tt]) = Some (Ret cf) /\
  puts (history cf) = [7] /\ takes (history cf) = [7] /\ puts (history cf) = takes (history cf) ++ shared cf.
Proof.
  eexists. split; [vm_compute; reflexivity|]. split; [reflexivity|]. split; [reflexivity|].
  apply (blocking_queue_correct [tt; tt; tt]). apply (run_actions_rtc _ two_takers). vm_compute. reflexivity.
Defined.
End Unbounded.

(** ** BoundedBlockingQueue *)

Module Bounded.
Section Queue.
Context {T : Type}.

(** [boost::circular_buffer] of a fixed capacity; the constructor's [int] is
    converted to its [size_type]. *)
Record circular_buffer := mkCircular { capacity_ : Z; items : list T }.
Definition new_circular (maxSize : Z) : circular_buffer := mkCircular (u64 maxSize) [].
Definition cb_full (b : circular_buffer) : bool := bool_decide (capacity_ b = zlen (items b)).
Definition cb_empty (b : circular_buffer) : bool := bool_decide (zlen (items b) = 0).
(** A full buffer drops its first element. *)
Definition cb_push_back (x : T) (b : circular_buffer) : circular_buffer :=
  if cb_full b then if decide (capacity_ b = 0) then b else mkCircular (capacity_ b) (tail (items b) ++ [x])
  else mkCircular (capacity_ b) (items b ++ [x]).

Inductive cond := notEmpty_ | notFull_.
#[global] Instance cond_eq : EqDecision cond.
Proof. solve_decision. Defined.

Abbreviation result := (outcome (pass circular_buffer cond (queue_result T))).

Definition put (x : T) (queue_ : circular_buffer) : result :=
  if cb_full queue_ then Ret (Block notFull_)
  else
    assert* negb (cb_full queue_) in
    Ret (Finish (cb_push_back x queue_) [Notify notEmpty_] RVoid).

Definition take (queue_ : circular_buffer) : result :=
  if cb_empty queue_ then Ret (Block notEmpty_)
  else
    assert* negb (cb_empty queue_) in
    match items queue_ with
    | front :: rest => Ret (Finish (mkCircular (capacity_ queue_) rest) [Notify notFull_] (RTaken front))
    | [] => Stop OutOfRange
    end.

Definition empty (queue_ : circular_buffer) : result := Ret (Finish queue_ [] (RBool (cb_empty queue_))).
Definition full (queue_ : circular_buffer) : result := Ret (Finish queue_ [] (RBool (cb_full queue_))).
Definition size (queue_ : circular_buffer) : result := Ret (Finish queue_ [] (RSize (zlen (items queue_)))).
Definition capacity (queue_ : circular_buffer) : result := Ret (Finish queue_ [] (RSize (capacity_ queue_))).

Definition section (t : nat) (m : MutexLock) (op : queue_op T) (q : circular_buffer) : result :=
  match op with
  | Put x => put x q
  | Take => take q
  | Empty => empty q
  | Full => full q
  | Size => size q
  | Capacity => capacity q
  end.

Definition BoundedBlockingQueue : client circular_buffer cond (queue_op T) (queue_result T) unit unit :=
  mkClient section (fun _ _ => true) (fun _ _ _ => tt) no_local.

(** What is left after each kind of section. *)
Lemma put_finish x q q' sigs r :
  put x q = Ret (Finish q' sigs r) ->
  cb_full q = false /\ q' = mkCircular (capacity_ q) (items q ++ [x]) /\ sigs = [Notify notEmpty_] /\ r = RVoid.
Proof. unfold put, cb_push_back. destruct (cb_full q); [done|]. by intros [= <- <- <-]. Qed.

Lemma take_finish q q' sigs r :
  take q = Ret (Finish q' sigs r) ->
  exists x rest, items q = x :: rest /\ q' = mkCircular (capacity_ q) rest /\ sigs = [Notify notFull_] /\ r = RTaken x.
Proof.
  unfold take. destruct (cb_empty q); [done|]. cbn. destruct (items q) as [|x rest]; [done|]. intros [= <- <- <-].
  by exists x, rest.
Qed.

(** First in, first out, and never more than the capacity. *)
Definition fifo (cap : Z) (q : circular_buffer) (h : list (nat * queue_op T * queue_result T)) : Prop :=
  puts h = takes h ++ items q /\ capacity_ q = cap /\ zlen (items q) <= cap.

#[global] Instance queue_safe cap : SafeClient BoundedBlockingQueue (fifo cap) any_thread.
Proof.
  constructor; [| |done|done].
  - intros t op q h I. destruct op; try by eexists; cbn.
    + cbn. unfold put. destruct (cb_full q); by eexists.
    + cbn. unfold take. destruct (cb_empty q) eqn:E; [by eexists|]. cbn. apply bool_decide_eq_false in E.
      destruct (items q); [done|by eexists].
  - intros t [] op q h q' sigs r (F & Cp & L) _ _ H. split; [|done]. unfold fifo. rewrite puts_snoc, takes_snoc.
    destruct op; cbn in H; try (injection H as <- <- <-; cbn; by rewrite ?app_nil_r).
    + apply put_finish in H as (E & -> & -> & ->). apply bool_decide_eq_false in E. cbn.
      rewrite app_nil_r, F, app_assoc, zlen_app, zlen_cons, zlen_nil. split_and!; [done..|lia].
    + apply take_finish in H as (x & rest & E & -> & -> & ->). cbn. rewrite E in *. rewrite zlen_cons in L.
      rewrite F, app_nil_r, <- app_assoc. split_and!; [done..|lia].
Qed.

Definition avail (c : cond) (q : circular_buffer) : option nat :=
  match c with
  | notEmpty_ => Some (length (items q))
  | notFull_ => Some (Z.to_nat (capacity_ q - zlen (items q)))
  end.
Definition needs (op : queue_op T) : option cond :=
  match op with Take => Some notEmpty_ | Put _ => Some notFull_ | _ => None end.

#[global] Instance queue_wakes cap : WakingClient BoundedBlockingQueue (fifo cap) any_thread avail needs.
Proof.
  constructor; [| |done].
  - intros t op q h c I H. destruct op; try done; cbn in H.
    + unfold put in H. destruct (cb_full q) eqn:E; [|done]. injection H as <-. apply bool_decide_eq_true in E. cbn.
      split; [done|]. f_equal. lia.
    + unfold take in H. destruct (cb_empty q) eqn:E; [injection H as <-|by cbn in H; destruct (items q)].
      apply bool_decide_eq_true in E. unfold zlen in E. cbn. split; [done|]. f_equal. lia.
  - intros t op q h q' sigs r c (F & Cp & L) H. right. right.
    assert (exists n n', avail c q = Some n /\ avail c q' = Some n') as (n & n' & En & En') by (destruct c; by eexists _, _).
    exists n, n'. split_and!; [done..|]. destruct op; cbn in H;
      try (injection H as <- <- <-; assert (n' = n) as -> by congruence; wakelia).
    + apply put_finish in H as (E & -> & -> & ->). apply bool_decide_eq_false in E.
      destruct c; cbn in En, En'; injection En as <-; injection En' as <-; rewrite ?length_app, ?zlen_app, ?zlen_cons, ?zlen_nil; wakelia.
    + apply take_finish in H as (x & rest & E & -> & -> & ->).
      destruct c; cbn in En, En'; injection En as <-; injection En' as <-; rewrite ?E, ?zlen_cons in *; wakelia.
Qed.

(** For any number of threads, in any interleaving: no assertion of the queue
    fails, nothing is lost, duplicated or reordered, and there are never more items
    than [maxSize]: [push_back] never drops one. *)
Theorem bounded_queue_fifo maxSize ls cf :
  0 <= maxSize < 2 ^ 31 -> reachable BoundedBlockingQueue (new_circular maxSize) ls cf ->
  safe BoundedBlockingQueue cf /\ puts (history cf) = takes (history cf) ++ items (shared cf) /\
  zlen (items (shared cf)) <= maxSize.
Proof.
  intros B H. assert (fifo maxSize (new_circular maxSize) []) as I0 by (split_and!; cbn; [done|apply wrap_small; lia|rewrite zlen_nil; lia]).
  destruct (reachable_ok BoundedBlockingQueue (fifo maxSize) any_thread _ ls cf I0 (fun _ _ _ => Logic.I) H) as (Hm & (F & Cp & L) & Ht).
  split_and!; [|done..]. by apply (monitor_safe _ (fifo maxSize) any_thread).
Qed.

(** C31. Without new calls the threads come to rest, after finitely many steps
    whatever the schedule, and then a thread waits in [take] only if the queue is
    empty and in [put] only if it is full: one notification per item and per slot is
    enough, although any waiter may be woken and others may get in first. *)
Theorem bounded_queue_progress maxSize ls cf :
  0 <= maxSize < 2 ^ 31 -> reachable BoundedBlockingQueue (new_circular maxSize) ls cf ->
  (forall n cf', nsteps (internal_step BoundedBlockingQueue) n cf cf' -> (n <= measure cf)%nat) /\
  (exists cf', rtc (internal_step BoundedBlockingQueue) cf cf' /\ quiet BoundedBlockingQueue cf') /\
  (quiet BoundedBlockingQueue cf ->
   ((0 < count (waits_on notEmpty_) (threads cf))%nat -> items (shared cf) = []) /\
   ((0 < count (waits_on notFull_) (threads cf))%nat -> zlen (items (shared cf)) = maxSize)).
Proof.
  intros B H. assert (fifo maxSize (new_circular maxSize) []) as I0 by (split_and!; cbn; [done|apply wrap_small; lia|rewrite zlen_nil; lia]).
  pose proof (reachable_ok BoundedBlockingQueue (fifo maxSize) any_thread _ ls cf I0 (fun _ _ _ => Logic.I) H) as Ok. split_and!.
  - intros n cf'. by apply (internal_bounded _ (fifo maxSize) any_thread).
  - by apply (comes_to_rest _ (fifo maxSize) any_thread).
  - intros Q. split; intros W; pose proof (quiet_waiters _ (fifo maxSize) any_thread avail needs _ ls cf _ I0 (fun _ _ _ => Logic.I) H Q W) as [= E].
    + by destruct (items (shared cf)).
    + destruct Ok as (_ & (_ & Cp & L) & _). lia.
Qed.
End Queue.
Arguments circular_buffer : clear implicits.

(** A queue of one: the second put waits until the take. *)
Definition put_put_take : list (action (Op := queue_op Z) (D := unit)) :=
  [Call 0 (Put 1); Acquire 0; Exec 0 []; Release 0; Call 0 (Put 2); Acquire 0; Exec 0 []].

Definition full_config : config (Op := queue_op Z) (R := queue_result Z) :=
  mkConfig newMutex (mkCircular 1 [1]) [Waiting notFull_ tt (Put 2); Idle tt] [(0%nat, Put 1, RVoid (T := Z))].

Lemma full_reachable : reachable BoundedBlockingQueue (new_circular 1) [tt; tt] full_config.
Proof. apply (run_actions_rtc _ put_put_take). vm_compute. reflexivity. Qed.

Lemma bounded_queue_fifo_witness : puts (history full_config) = takes (history full_config) ++ items (shared full_config).
Proof. apply (bounded_queue_fifo 1 [tt; tt] full_config); [lia|apply full_reachable]. Defined.

Lemma bounded_queue_progress_witness :
  exists cf', rtc (internal_step BoundedBlockingQueue) full_config cf' /\ quiet BoundedBlockingQueue cf'.
Proof. apply (bounded_queue_progress 1 [tt; tt] full_config); [lia|apply full_reachable]. Defined.
End Bounded.
