(* ===== verification/CountDownLatch.v ===== *)
(** * CountDownLatch and Thread
    (src/muduo/muduo/base/CountDownLatch.h, CountDownLatch.cc, Atomic.h, Thread.h, Thread.cc)

    The latch as a client of the monitor, and a [Thread] that uses one to make
    [start()] return only when the new thread has stored its [tid_]. *)

From S2P Require Import Prelude Format Monitor BlockingQueue.

(** ** CountDownLatch *)

Inductive latch_op := Wait | CountDown | GetCount.
Inductive latch_result := LVoid | LCount (n : Z).
Inductive latch_cond := condition_.
#[global] Instance latch_cond_eq : EqDecision latch_cond.
Proof. solve_decision. Defined.

Abbreviation latch_pass := (outcome (pass Z latch_cond latch_result)).

Definition latch_wait (count_ : Z) : latch_pass :=
  if decide (count_ > 0) then Ret (Block condition_) else Ret (Finish count_ [] LVoid).
Definition countDown (count_ : Z) : latch_pass :=
  let count_ := i32 (count_ - 1) in
  Ret (Finish count_ (if decide (count_ = 0) then [NotifyAll condition_] else []) LVoid).
Definition getCount (count_ : Z) : latch_pass := Ret (Finish count_ [] (LCount count_)).

Definition latch_section (t : nat) (m : MutexLock) (op : latch_op) (count_ : Z) : latch_pass :=
  match op with
  | Wait => latch_wait count_
  | CountDown => countDown count_
  | GetCount => getCount count_
  end.

Definition CountDownLatch : client Z latch_cond latch_op latch_result unit unit :=
  mkClient latch_section (fun _ _ => true) (fun _ _ _ => tt) no_local.

Definition is_down (e : nat * latch_op * latch_result) : bool := match e with (_, CountDown, _) => true | _ => false end.
Definition is_wait (e : nat * latch_op * latch_result) : bool := match e with (_, Wait, _) => true | _ => false end.
(** The calls of [countDown] so far; whether a [wait] has returned. *)
Definition downs (h : list (nat * latch_op * latch_result)) : Z := zlen (List.filter is_down h).
Definition waited (h : list (nat * latch_op * latch_result)) : bool := existsb is_wait h.

Lemma downs_snoc h e : downs (h ++ [e]) = downs h + (if is_down e then 1 else 0).
Proof. unfold downs. rewrite List.filter_app, zlen_app. cbn. by destruct (is_down e). Qed.
Lemma downs_nonneg h : 0 <= downs h.
Proof. apply zlen_nonneg. Qed.
Lemma waited_snoc h e : waited (h ++ [e]) = waited h || is_wait e.
Proof. unfold waited. rewrite existsb_app. cbn. by rewrite orb_false_r. Qed.

(** The counter counts, and nobody passes before it has got to zero. *)
Definition latch_inv (n count_ : Z) (h : list (nat * latch_op * latch_result)) : Prop :=
  count_ = i32 (n - downs h) /\ (waited h = true -> n <= downs h).

(** What each section leaves of the invariant, for any client with a latch in it. *)
Lemma latch_section_inv n t m op c h c' sigs r :
  n < 2 ^ 31 -> latch_inv n c h -> latch_section t m op c = Ret (Finish c' sigs r) -> latch_inv n c' (h ++ [(t, op, r)]).
Proof.
  intros B [-> W] H. unfold latch_inv. rewrite downs_snoc, waited_snoc. destruct op; cbn in H.
  - unfold latch_wait in H. case_decide as D; [done|]. injection H as <- <- <-. cbn. rewrite Z.add_0_r. split; [done|].
    intros _. pose proof (downs_nonneg h). destruct (decide (n <= downs h)) as [|N]; [done|]. rewrite swrap_small in D by lia. lia.
  - injection H as <- <- <-. cbn. rewrite orb_false_r. split; [|intros Hw; specialize (W Hw); lia].
    rewrite <- (Z.add_opp_r _ 1), swrap_add. f_equal. lia.
  - injection H as <- <- <-. cbn. by rewrite Z.add_0_r, orb_false_r.
Qed.

Lemma latch_section_safe t m op c : exists p, latch_section t m op c = Ret p.
Proof. destruct op; cbn; [unfold latch_wait; case_decide|..]; by eexists. Qed.

(** Open for everybody, or shut for everybody. *)
Definition latch_avail (cond : latch_cond) (count_ : Z) : option nat := if decide (count_ > 0) then Some 0%nat else None.
Definition latch_needs (op : latch_op) : option latch_cond := match op with Wait => Some condition_ | _ => None end.

Lemma latch_block_avail t m op c cond :
  latch_section t m op c = Ret (Block cond) -> latch_needs op = Some cond /\ latch_avail cond c = Some 0%nat.
Proof.
  destruct op, cond; cbn; try done. unfold latch_wait, latch_avail. by case_decide.
Qed.

Lemma latch_finish_avail n t m op c h c' sigs r cond :
  latch_inv n c h -> latch_section t m op c = Ret (Finish c' sigs r) ->
  NotifyAll cond ∈ sigs \/ latch_avail cond c = None \/
  exists n n', latch_avail cond c = Some n /\ latch_avail cond c' = Some n' /\
    (n' + Nat.b2n (bool_decide (latch_needs op = Some cond)) <= n + notifies cond sigs)%nat.
Proof.
  intros [Ec _] H. unfold latch_avail. destruct (decide (c > 0)) as [P|]; [|by right; left].
  assert (c < 2 ^ 31) as B by (rewrite Ec; pose proof (swrap_range 32 (n - downs h)); lia). destruct cond.
  destruct op; cbn [latch_section] in H.
  - unfold latch_wait in H. by rewrite decide_True in H.
  - unfold countDown in H. cbv zeta in H. rewrite swrap_small in H by lia. injection H as <- <- <-. case_decide as Z.
    + left. by left.
    + right. right. exists 0%nat, 0%nat. rewrite decide_True by lia. by split_and!.
  - injection H as <- <- <-. right. right. exists 0%nat, 0%nat. rewrite decide_True by done. by split_and!.
Qed.

Definition latch_range (n count_ : Z) (h : list (nat * latch_op * latch_result)) : Prop := n < 2 ^ 31 /\ latch_inv n count_ h.

#[global] Instance latch_safe n : SafeClient CountDownLatch (latch_range n) any_thread.
Proof.
  constructor; [|..|done|done].
  - intros t op s h _. apply latch_section_safe.
  - intros t l op s h s' sigs r [B I] _ _ H. split; [|done]. split; [done|]. by eapply latch_section_inv.
Qed.

#[global] Instance latch_wakes n : WakingClient CountDownLatch (latch_range n) any_thread latch_avail latch_needs.
Proof.
  constructor; [|..|done].
  - intros t op s h c _. apply latch_block_avail.
  - intros t op s h s' sigs r c [_ I]. by eapply latch_finish_avail.
Qed.

(** For a latch made with [n]: no [wait] returns before [n] calls of
    [countDown]; the threads come to rest without new calls; and then a thread
    waits only if the count is still positive, so the one broadcast at zero wakes
    every waiter, however the calls interleave. *)
Theorem latch_correct n ls cf :
  - 2 ^ 31 <= n < 2 ^ 31 -> reachable CountDownLatch n ls cf ->
  safe CountDownLatch cf /\ shared cf = i32 (n - downs (history cf)) /\
  (waited (history cf) = true -> n <= downs (history cf)) /\
  (exists cf', rtc (internal_step CountDownLatch) cf cf' /\ quiet CountDownLatch cf') /\
  (quiet CountDownLatch cf -> (0 < count (waits_on condition_) (threads cf))%nat -> 0 < shared cf).
Proof.
  intros B H. assert (latch_range n n []) as I0 by (split; [lia|split; [rewrite swrap_small; change (downs []) with 0; lia|done]]).
  pose proof (reachable_ok CountDownLatch (latch_range n) any_thread _ ls cf I0 (fun _ _ _ => Logic.I) H) as Ok.
  pose proof Ok as (_ & (_ & Ec & W) & _). split_and!; [|done|done|..].
  - by apply (monitor_safe _ (latch_range n) any_thread).
  - by apply (comes_to_rest _ (latch_range n) any_thread).
  - intros Q P. pose proof (quiet_waiters _ (latch_range n) any_thread latch_avail latch_needs _ ls cf _ I0 (fun _ _ _ => Logic.I) H Q P) as A.
    unfold latch_avail in A. case_decide; [lia|done].
Qed.

(** Two waiters, two counts. *)
Definition latch_actions : list (action (Op := latch_op) (D := unit)) :=
  [Call 0 Wait; Acquire 0; Exec 0 []; Call 1 Wait; Acquire 1; Exec 1 []; Call 2 CountDown; Acquire 2; Exec 2 []; Release 2;
   Call 2 CountDown; Acquire 2; Exec 2 []; Release 2; Acquire 1; Exec 1 []; Release 1].

Lemma latch_correct_witness : exists cf,
  run_actions CountDownLatch latch_actions (initial 2 [tt; tt; tt]) = Some (Ret cf) /\
  waited (history cf) = true /\ 2 <= downs (history cf).
Proof.
  eexists. split; [vm_compute; reflexivity|]. split; [reflexivity|].
  apply (latch_correct 2 [tt; tt; tt]); [lia| |reflexivity]. apply (run_actions_rtc _ latch_actions). vm_compute. reflexivity.
Defined.
