(* ===== verification/Thread.v ===== *)
(** * Thread (src/muduo/muduo/base/Thread.h, Thread.cc, Atomic.h, CurrentThread.h)

    Atomic integers, the identity a thread caches, and [Thread]: the thread that
    owns the object and the thread it starts, as a client of the monitor of the
    latch between them. *)

From S2P Require Import Prelude Format Timestamp Monitor BlockingQueue CountDownLatch.

(** ** AtomicInt32 *)

(** An atomic operation on [value_]: what it returns and the new value. *)
Module Atomic.
Definition new : Z := 0.
Definition getAndAdd (x value_ : Z) : Z * Z := (value_, i32 (value_ + x)).
Definition addAndGet (x value_ : Z) : Z * Z := let '(old, v) := getAndAdd x value_ in (i32 (old + x), v).
Definition incrementAndGet (value_ : Z) : Z * Z := addAndGet 1 value_.
Definition decrementAndGet (value_ : Z) : Z * Z := addAndGet (-1) value_.
Definition add (x value_ : Z) : Z := (getAndAdd x value_).2.
Definition increment (value_ : Z) : Z := (incrementAndGet value_).2.
Definition decrement (value_ : Z) : Z := (decrementAndGet value_).2.
Definition getAndSet (newValue value_ : Z) : Z * Z := (value_, newValue).
(** A compare-and-swap of 0 by 0. *)
Definition get (value_ : Z) : Z * Z := (value_, if decide (value_ = 0) then 0 else value_).
End Atomic.

(** ** CurrentThread *)

Record CurrentThread := mkCurrent {
  t_cachedTid : Z;
  t_tidString : list byte;
  t_tidStringLength : Z;
  t_threadName : list byte
}.
Definition newCurrent : CurrentThread := mkCurrent 0 [] 6 (bytes "unknown").

Section Current.
(** [gettid()] and [getpid()] of the thread *)
Context (gettid getpid : Z).

Definition cacheTid (c : CurrentThread) : CurrentThread :=
  if decide (t_cachedTid c = 0) then
    let text := fmt_pd 5 gettid ++ bytes " " in
    mkCurrent gettid (snprintf 32 text) (zlen text) (t_threadName c)
  else c.
Definition tid (c : CurrentThread) : Z * CurrentThread :=
  let c := if decide (t_cachedTid c = 0) then cacheTid c else c in (t_cachedTid c, c).
Definition isMainThread (c : CurrentThread) : bool * CurrentThread :=
  let '(t, c) := tid c in (bool_decide (t = getpid), c).
Definition afterFork (c : CurrentThread) : CurrentThread :=
  (tid (mkCurrent 0 (t_tidString c) (t_tidStringLength c) (bytes "main"))).2.
End Current.

(** The [timespec] that [sleepUsec] gives to [nanosleep]. *)
Definition sleepUsec (usec : Z) : Z * Z :=
  (usec /c kMicroSecondsPerSecond, i64 (usec %c kMicroSecondsPerSecond * 1000)).

(** ** Thread *)

(** [latch_] is its count; [finished]: the new thread has left [startThread], and
    [pthread_join] returns. *)
Record Thread := mkThread {
  started_ : bool;
  joined_ : bool;
  tid_ : Z;
  name_ : list byte;
  latch_ : Z;
  finished : bool
}.

(** [setDefaultName] with [numCreated_], and the constructor *)
Definition setDefaultName (numCreated_ : Z) (name : list byte) : list byte * Z :=
  let '(num, numCreated_) := Atomic.incrementAndGet numCreated_ in
  (if decide (name = []) then snprintf 32 (bytes "Thread" ++ fmt_d num) else name, numCreated_).
Definition newThread (numCreated_ : Z) (n : list byte) : Thread * Z :=
  let '(name, numCreated_) := setDefaultName numCreated_ n in
  (mkThread false false 0 name 1 false, numCreated_).

(** Where the owner is: before [start], in it, after it, in [join], after it; and
    where the new thread is in [ThreadData::runInThread], with its [t_threadName]. *)
Inductive place :=
  | Before
  | StartWait
  | StartAssert
  | Started
  | Joining
  | Joined
  | RunTid
  | RunLatch
  | RunFunc (threadName : list byte)
  | RunDone (threadName : list byte).

Definition set_start (b : bool) (s : Thread) : Thread := mkThread b (joined_ s) (tid_ s) (name_ s) (latch_ s) (finished s).
Definition set_joined (s : Thread) : Thread := mkThread (started_ s) true (tid_ s) (name_ s) (latch_ s) (finished s).
Definition set_tid (v : Z) (s : Thread) : Thread := mkThread (started_ s) (joined_ s) v (name_ s) (latch_ s) (finished s).
Definition set_latch (v : Z) (s : Thread) : Thread := mkThread (started_ s) (joined_ s) (tid_ s) (name_ s) v (finished s).
Definition set_finished (s : Thread) : Thread := mkThread (started_ s) (joined_ s) (tid_ s) (name_ s) (latch_ s) true.

(** The critical sections are those of the latch. *)
Definition lift_pass (s : Thread) (p : pass Z latch_cond latch_result) : pass Thread latch_cond latch_result :=
  match p with Block c => Block c | Finish v sigs r => Finish (set_latch v s) sigs r end.
Definition thread_section (t : nat) (m : MutexLock) (op : latch_op) (s : Thread) : outcome (pass Thread latch_cond latch_result) :=
  let* p := latch_section t m op (latch_ s) in Ret (lift_pass s p).

(** [latch_.wait()] in [start], [latch_->countDown()] in [runInThread]. *)
Definition thread_callable (l : place) (op : latch_op) : bool :=
  match l, op with StartWait, Wait | RunLatch, CountDown => true | _, _ => false end.
Definition thread_after (name : list byte) (l : place) (op : latch_op) (r : latch_result) : place :=
  match l with
  | StartWait => StartAssert
  | RunLatch => RunFunc (if decide (name = []) then bytes "muduoThread" else name)
  | _ => l
  end.

(** [create]: what [pthread_create] returns. *)
Definition start (create : Z) (s : Thread) : outcome (place * Thread * list place) :=
  assert* negb (started_ s) in
  let s := set_start true s in
  if decide (create <> 0) then Stop LogFatal else Ret (StartWait, s, [RunTid]).
Definition join (s : Thread) : outcome (place * Thread * list place) :=
  assert* started_ s in
  assert* negb (joined_ s) in
  Ret (Joining, set_joined s, []).

Definition thread_local (create : Z) (d : unit) (t : nat) (l : place) (s : Thread) : option (outcome (place * Thread * list place)) :=
  match l with
  | Before => Some (start create s)
  | StartAssert => Some (assert* bool_decide (0 < tid_ s) in Ret (Started, s, []))
  | Started => Some (join s)
  | Joining => if finished s then Some (Ret (Joined, s, [])) else None
  | RunTid => Some (Ret (RunLatch, set_tid (tid_of t) s, []))
  | RunFunc name => Some (Ret (RunDone (bytes "finished"), set_finished s, []))
  | _ => None
  end.

Definition ThreadClient (name : list byte) (create : Z) : client Thread latch_cond latch_op latch_result place unit :=
  mkClient thread_section thread_callable (thread_after name) (thread_local create).

(** [~Thread]: whether it detaches the thread *)
Definition thread_destroy (s : Thread) : bool := started_ s && negb (joined_ s).

(** ** Invariant *)

(** The latch was counted down only after [tid_] was stored. *)
Definition thread_inv (s : Thread) (h : list (nat * latch_op * latch_result)) : Prop :=
  latch_inv 1 (latch_ s) h /\ (0 < downs h -> 0 < tid_ s).

(** The owner is thread 0. *)
Definition place_inv (t : nat) (l : place) (s : Thread) (h : list (nat * latch_op * latch_result)) : Prop :=
  match l with
  | Before => t = 0%nat /\ started_ s = false /\ joined_ s = false
  | StartWait => t = 0%nat /\ started_ s = true /\ joined_ s = false
  | StartAssert | Started => t = 0%nat /\ started_ s = true /\ joined_ s = false /\ 0 < downs h
  | Joining | Joined => t = 0%nat /\ 0 < downs h
  | RunTid => t <> 0%nat
  | RunLatch => t <> 0%nat /\ 0 < tid_ s
  | RunFunc _ | RunDone _ => t <> 0%nat /\ 0 < downs h
  end.

Section Thread.
Context (name : list byte).
Abbreviation M := (ThreadClient name 0).

Lemma thread_section_finish t m op s s' sigs r :
  thread_section t m op s = Ret (Finish s' sigs r) ->
  exists v, latch_section t m op (latch_ s) = Ret (Finish v sigs r) /\ s' = set_latch v s.
Proof.
  unfold thread_section. destruct (latch_section_safe t m op (latch_ s)) as ([c|v g q] & ->); cbn; [done|].
  intros [= <- <- <-]. by exists v.
Qed.

#[global] Instance thread_safe : SafeClient M thread_inv place_inv.
Proof.
  constructor.
  - intros t op s h _. cbn. unfold thread_section. destruct (latch_section_safe t (held_by t) op (latch_ s)) as (p & ->). by eexists.
  - intros t l op s h s' sigs r [Li Lt] Jt Cl H. cbn in Cl, H. apply thread_section_finish in H as (v & H & ->).
    pose proof (latch_section_inv 1 t (held_by t) op (latch_ s) h v sigs r ltac:(lia) Li H) as Li'.
    pose proof (downs_nonneg h) as Nn.
    split_and!.
    + split; [done|]. cbn [tid_ set_latch]. rewrite downs_snoc. destruct l, op; try done; cbn [is_down]; [lia|].
      intros _. by apply Jt.
    + destruct l, op; try done; cbn [after ThreadClient thread_after place_inv started_ joined_ tid_ set_latch] in *.
      * destruct Jt as (T0 & S1 & J1). split_and!; [done..|]. destruct Li' as [_ W]. rewrite waited_snoc, orb_true_r in W. specialize (W eq_refl). lia.
      * rewrite downs_snoc. cbn [is_down]. split; [apply Jt|lia].
    + intros t' l' Ne J'. destruct l'; cbn [place_inv started_ joined_ tid_ set_latch] in *; rewrite ?downs_snoc; try done;
        (split_and!; try apply J'; destruct (is_down (t, op, r)); lia).
  - intros [] t l s h l' s' new [Li Lt] Jt H. cbn in H. destruct l; cbn [thread_local] in H; cbn [place_inv] in Jt; try done.
    + destruct Jt as (-> & S0 & J0). unfold start in H. rewrite S0 in H. cbn in H. injection H as <- <- <-.
      split_and!; cbn; try done.
      * intros t' l0 Ne J'. destruct l0; cbn in *; try done; by destruct J'.
      * intros t' l0 E%list_elem_of_singleton Ne _. by subst l0.
    + destruct Jt as (-> & S1 & J1 & Dn). cbn in H. rewrite bool_decide_true in H by auto. injection H as <- <- <-.
      split_and!; try done. intros t' l0 E. by apply elem_of_nil in E.
    + destruct Jt as (-> & S1 & J1 & Dn). unfold join in H. rewrite S1, J1 in H. cbn in H. injection H as <- <- <-.
      split_and!; try done; [|intros t' l0 E; by apply elem_of_nil in E].
      intros t' l0 Ne J'. destruct l0; cbn in *; try done; by destruct J'.
    + destruct (finished s); [|done]. injection H as <- <- <-. split_and!; try done; [apply Jt..|].
      intros t' l0 E. by apply elem_of_nil in E.
    + injection H as <- <- <-. assert (0 < tid_of t) as Pt by (unfold tid_of; lia). split_and!; try done.
      * intros t' l0 Ne J'. destruct l0; cbn in *; try done. split; [apply J'|done].
      * intros t' l0 E. by apply elem_of_nil in E.
    + injection H as <- <- <-. split_and!; try done; [apply Jt..|]. intros t' l0 E. by apply elem_of_nil in E.
  - intros [] t l s h f [Li Lt] Jt H. cbn in H. destruct l; cbn [thread_local] in H; cbn [place_inv] in Jt; try done.
    + destruct Jt as (-> & S0 & J0). unfold start in H. by rewrite S0 in H.
    + destruct Jt as (-> & S1 & J1 & Dn). cbn in H. by rewrite bool_decide_true in H by auto.
    + destruct Jt as (-> & S1 & J1 & Dn). unfold join in H. by rewrite S1, J1 in H.
    + by destruct (finished s).
Qed.

Definition thread_avail (c : latch_cond) (s : Thread) : option nat := latch_avail c (latch_ s).

#[global] Instance thread_wakes : WakingClient M thread_inv place_inv thread_avail latch_needs.
Proof.
  constructor.
  - intros t op s h c _ H. cbn in H. unfold thread_section in H.
    destruct (latch_section_safe t (held_by t) op (latch_ s)) as ([c'|v g q] & E); rewrite E in H; cbn in H; [|done].
    destruct c, c'. by eapply latch_block_avail.
  - intros t op s h s' sigs r c [Li _] H. cbn in H. apply thread_section_finish in H as (v & H & ->).
    by eapply (latch_finish_avail 1).
  - intros [] t l s h l' s' new c _ _ H. unfold thread_avail.
    assert (latch_ s' = latch_ s) as ->.
    { destruct l; cbn in H; try done; unfold start, join in H; try (destruct (started_ s)); try (destruct (joined_ s));
        try (destruct (bool_decide _)); try (destruct (finished s)); try done; cbn in H; by injection H as <- <- <-. }
    unfold latch_avail. case_decide; [right; by exists 0%nat, 0%nat|by left].
Qed.

(** The owner alone, before [start]; or the owner and the thread it started. *)
Definition owner_place (l : place) : bool :=
  match l with StartWait | StartAssert | Started | Joining | Joined => true | _ => false end.
Definition run_place (l : place) : bool := match l with RunTid | RunLatch | RunFunc _ | RunDone _ => true | _ => false end.
Definition counted (l : place) : bool := match l with RunFunc _ | RunDone _ => true | _ => false end.
Definition is_done (l : place) : bool := match l with RunDone _ => true | _ => false end.

Definition two_threads (cf : config (C := latch_cond) (Op := latch_op) (R := latch_result) (L := place)) : Prop :=
  (threads cf = [Idle Before] /\ history cf = [] /\ finished (shared cf) = false) \/
  exists x y, threads cf = [x; y] /\ owner_place (view M x) = true /\ run_place (view M y) = true /\
    finished (shared cf) = is_done (view M y) /\ downs (history cf) = if counted (view M y) then 1 else 0.

(** A step that leaves the view of every thread. *)
Lemma two_threads_views m m' s h ths ths' :
  two_threads (mkConfig m s ths h) -> ths <> [Idle Before] -> Forall2 (fun x y => view M y = view M x) ths ths' ->
  two_threads (mkConfig m' s ths' h).
Proof.
  intros [(E & _)|(x & y & E & H)] Ne F; cbn in E; [done|]. right. cbn [threads shared history] in *. subst ths.
  inversion_clear F as [|? x' ? ? Hx F']. inversion_clear F' as [|? y' ? ? Hy F'']. inversion_clear F''. exists x', y'.
  rewrite Hx, Hy. done.
Qed.

Lemma insert_views t x y ths :
  ths !! t = Some x -> view M y = view M x -> Forall2 (fun x y => view M y = view M x) ths (<[t := y]> ths).
Proof.
  intros E V. rewrite <- (list_insert_id ths t x E) at 1. apply Forall2_insert; [|done]. by apply Forall_Forall2_diag, Forall_true.
Qed.

(** Only the one that is there is at [t]. *)
Lemma at_before t x (ths : list (thread latch_cond latch_op latch_result place)) :
  ths = [Idle Before] -> ths !! t = Some x -> t = 0%nat /\ x = Idle Before.
Proof. intros ->. destruct t as [|t]; cbn; [by intros [= <-]|done]. Qed.

Lemma at_pair t z (x y : thread latch_cond latch_op latch_result place) :
  [x; y] !! t = Some z -> (t = 0%nat /\ z = x) \/ (t = 1%nat /\ z = y).
Proof. destruct t as [|[|t]]; cbn; [intros [= <-]; by left|intros [= <-]; by right|done]. Qed.

Lemma finish_two_threads s h ths t l op s' sigs r picks ths' :
  monitor_ok M thread_inv place_inv (mkConfig (held_by t) s ths h) -> two_threads (mkConfig (held_by t) s ths h) ->
  ths !! t = Some (Inside l op) -> thread_section t (held_by t) op s = Ret (Finish s' sigs r) ->
  deliver sigs picks (<[t := Leaving l op r]> ths) = Some ths' ->
  two_threads (mkConfig (held_by t) s' ths' (h ++ [(t, op, r)])).
Proof.
  intros (_ & _ & Ht & _) K E Hb Hd. destruct (Ht t _ E) as [_ Cl]. specialize (Cl l op eq_refl). cbn in Cl.
  destruct K as [(E' & _)|(x & y & E' & Ox & Ry & Fi & Dn)]; cbn in E'; [by destruct (at_before t _ ths E' E)|].
  cbn [shared history] in Fi, Dn. apply thread_section_finish in Hb as (v & _ & ->). rewrite E' in E, Hd. pose proof (deliver_wakes _ _ _ _ Hd) as F.
  assert (Forall2 (fun x y => view M y = view M x) (<[t := Leaving l op r]> [x; y]) ths') as V
    by (eapply Forall2_impl; [exact F|intros ? ?; apply wakes_view]). clear F Hd.
  right. cbn [threads shared history finished set_latch]. rewrite downs_snoc. destruct (at_pair t _ x y E) as [[-> <-]|[-> <-]]; cbn in V;
    inversion_clear V as [|? x' ? ? Hx V']; inversion_clear V' as [|? y' ? ? Hy V'']; inversion_clear V''; exists x', y'; rewrite Hx, Hy, Fi, Dn.
  - destruct l, op; try done. cbn. rewrite Z.add_0_r. done.
  - destruct l, op; try done.
Qed.

Lemma local_two_threads m s h ths t l l' s' new :
  two_threads (mkConfig m s ths h) -> ths !! t = Some (Idle l) -> thread_local 0 tt t l s = Some (Ret (l', s', new)) ->
  two_threads (mkConfig m s' (<[t := Idle l']> ths ++ map Idle new) h).
Proof.
  intros [(E' & Eh & Fi)|(x & y & E' & Ox & Ry & Fi & Dn)] E H; cbn [threads history shared] in *; right; cbn [threads history shared].
  - destruct (at_before t _ ths E' E) as [-> [= ->]]. cbn in H. unfold start in H. destruct (started_ s); [done|]. cbn in H.
    injection H as <- <- <-. rewrite E', Eh. by exists (Idle StartWait), (Idle RunTid).
  - rewrite E' in E |- *. destruct (at_pair t _ x y E) as [[-> <-]|[-> <-]]; cbn in Ox, Ry, Fi, Dn.
    + exists (Idle l'), y. destruct l; try done; cbn in H.
      * destruct (bool_decide _); [|done]. by injection H as <- <- <-.
      * unfold join in H. destruct (started_ s), (joined_ s); try done. by injection H as <- <- <-.
      * destruct (finished s) eqn:Ef; [|done]. injection H as <- <- <-. by rewrite Ef.
    + exists x, (Idle l'). destruct l; try done; cbn in H; by injection H as <- <- <-.
Qed.

Lemma rule_two_threads b cf cf' :
  monitor_ok M thread_inv place_inv cf -> two_threads cf -> rule M b cf cf' -> two_threads cf'.
Proof.
  intros Ok K H.
  destruct H as [m s ths h t l op E Hx|s ths h t x l op E Hx|s ths h t l op c E Hb|s ths h t l op s' sigs r picks ths' E Hb Hd
    |s ths h t l op r E|m s ths h t c l op E|m s ths h t [] l l' s' new E Hl].
  4: by eapply finish_two_threads.
  6: by eapply local_two_threads.
  all: eapply two_threads_views; [done| |eapply insert_views; [done|]]; try done;
    try (intros Eb; destruct (at_before t _ ths Eb E) as [_ Eq]; try done; by injection Eq as ->).
  - intros Eb. destruct (at_before t _ ths Eb E) as [_ ->]. done.
  - by destruct x; try done; injection Hx as -> ->.
Qed.

Lemma thread_initial num n :
  thread_inv (newThread num n).1 [] /\ forall t l, [Before] !! t = Some l -> place_inv t l (newThread num n).1 [].
Proof.
  split.
  - split; [split; [by vm_compute|done]|]. change (downs []) with 0. lia.
  - intros [|t] l E; [injection E as <-|done]. done.
Qed.

Lemma thread_wake_inv num n cf :
  reachable M (newThread num n).1 [Before] cf -> wake_inv thread_avail latch_needs (shared cf) (threads cf).
Proof. destruct (thread_initial num n) as [I0 J0]. exact (reachable_wake_inv M thread_inv place_inv thread_avail latch_needs _ _ cf I0 J0). Qed.

Lemma thread_reachable_ok num n cf :
  reachable M (newThread num n).1 [Before] cf -> monitor_ok M thread_inv place_inv cf /\ two_threads cf.
Proof.
  intros H. assert (monitor_ok M thread_inv place_inv (initial (newThread num n).1 [Before])) as H0
    by (destruct (thread_initial num n); by apply initial_ok).
  assert (two_threads (initial (newThread num n).1 [Before])) as K0 by (by left).
  induction H as [|x y z (a & Ha) _ IH]; [done|]. assert (rule M (internal a) x y) as Hr by (apply step_rule; [apply H0|done]).
  apply IH; [exact (rule_monitor_ok M thread_inv place_inv _ _ _ H0 Hr)|exact (rule_two_threads _ _ _ H0 K0 Hr)].
Qed.

(** Outside a call, a thread that is not at its end can go on. *)
Lemma idle_goes_on cf t l :
  monitor_ok M thread_inv place_inv cf -> threads cf !! t = Some (Idle l) -> stuck M spurious cf ->
  match l with Joined | RunDone _ => True | Joining => finished (shared cf) = false | _ => False end.
Proof.
  intros Ok E St.
  assert (forall op, callable M l op = true -> False) as Nc.
  { intros op Cl. enough (spurious (D := unit) (Call t op) = true) by done. eapply St. unfold step. cbn [perform]. by rewrite E, Cl. }
  assert (forall o, local M tt t l (shared cf) = Some o -> False) as Nl.
  { intros [[[l' s'] new]|f] El.
    - enough (spurious (Op := latch_op) (Local t tt) = true) by done. eapply St. unfold step. cbn [perform]. by rewrite E, El.
    - apply (monitor_safe M thread_inv place_inv cf Ok (Local t tt) f). cbn [perform]. by rewrite E, El. }
  destruct l; try done; try (by apply (Nc Wait)); try (by apply (Nc CountDown)); try (by eapply Nl).
  cbn in Nl. destruct (finished (shared cf)); [exfalso; by eapply Nl|done].
Qed.

(** [Thread::start()] and [join()], for every interleaving of the thread that
    calls them and the thread they start: no assertion fails, [tid_] is set when
    [start()] has returned, and when nothing more can happen, both calls have
    returned and the new thread has run to its end: [start()] cannot hang on the
    latch, nor [join()]. *)
Theorem thread_start_join num n cf :
  reachable M (newThread num n).1 [Before] cf ->
  safe M cf /\
  (forall l, threads cf !! 0%nat = Some (Idle l) -> match l with Started | Joining | Joined => 0 < tid_ (shared cf) | _ => True end) /\
  (stuck M spurious cf -> exists nm, threads cf = [Idle Joined; Idle (RunDone nm)]).
Proof.
  intros H. destruct (thread_reachable_ok num n cf H) as [Ok K]. pose proof Ok as (_ & (_ & Td) & Ht & _). split_and!.
  - by apply (monitor_safe _ thread_inv place_inv).
  - intros l E. destruct (Ht _ _ E) as [Jl _]. cbn in Jl. destruct l; try done; apply Td, Jl.
  - intros St. pose proof (stuck_quiet M spurious cf ltac:(by intros []) St) as Q. destruct K as [(E & _)|(x & y & E & Ox & Ry & Fi & Dn)].
    { by destruct (idle_goes_on cf 0%nat Before Ok ltac:(by rewrite E) St). }
    assert (threads cf !! 1%nat = Some y) as Ey by (by rewrite E). assert (threads cf !! 0%nat = Some x) as Ex by (by rewrite E).
    destruct (thread_wake_inv num n cf H) as [Wt Wc].
    assert (exists nm, y = Idle (RunDone nm)) as [nm ->].
    { destruct (quiet_settled M _ _ cf Ok Q _ _ Ey) as [(l & ->)|(c & l & op & ->)].
      - pose proof (idle_goes_on cf 1%nat l Ok Ey St). destruct l; try done. by eexists.
      - destruct (Ht _ _ Ey) as [_ Cl]. specialize (Cl l op eq_refl). specialize (Wt _ _ _ _ Ey). cbn in Ry. by destruct l, op. }
    cbn in Fi, Dn. exists nm. rewrite E. f_equal.
    destruct (quiet_settled M _ _ cf Ok Q _ _ Ex) as [(l & ->)|(c & l & op & ->)].
    + pose proof (idle_goes_on cf 0%nat l Ok Ex St) as G. destruct l; try done. by rewrite Fi in G.
    + exfalso. destruct (Wc c) as (n0 & Av & _). { apply count_pos. exists 0%nat, (Waiting c l op). split; [done|]. cbn. by apply bool_decide_eq_true. }
      unfold thread_avail, latch_avail in Av. pose proof Ok as (_ & ([El _] & _) & _). rewrite El, Dn in Av. by vm_compute in Av.
Qed.
End Thread.

(** A whole life: the owner waits on the latch before the new thread has run. *)
Definition thread_actions : list (action (Op := latch_op) (D := unit)) :=
  [Local 0 tt; Call 0 Wait; Acquire 0; Exec 0 []; Local 1 tt; Call 1 CountDown; Acquire 1; Exec 1 []; Release 1;
   Acquire 0; Exec 0 []; Release 0; Local 0 tt].

Lemma thread_start_join_witness : exists cf,
  run_actions (ThreadClient (bytes "io") 0) thread_actions (initial (newThread 0 (bytes "io")).1 [Before]) = Some (Ret cf) /\
  0 < tid_ (shared cf).
Proof.
  eexists. split; [vm_compute; reflexivity|].
  refine (proj1 (proj2 (thread_start_join (bytes "io") 0 (bytes "io") _ _)) Started _); [|reflexivity].
  apply (run_actions_rtc _ thread_actions). vm_compute. reflexivity.
Defined.
