(* ===== verification/ThreadPool.v ===== *)
(** * ThreadPool (src/muduo/muduo/base/ThreadPool.h, ThreadPool.cc)

    The pool as a client of the monitor: the owner that starts and stops it, any
    number of threads that submit tasks, and the workers. Tasks are values of any
    type [T]; a task that runs returns (one that throws ends the process). *)

From S2P Require Import Prelude Monitor.

Section Pool.
Context {T : Type}.

(** [threads_] by the number of threads in it and whether they were joined. For the
    properties: who ran what, in the workers and in [run] itself, which threads ran
    the init callback, and which workers have returned from [runInThread]. *)
Record ThreadPool := mkPool {
  maxQueueSize_ : Z;
  threadInitCallback_ : bool;
  running_ : bool;
  queue_ : list T;
  threads_ : Z;
  joined : bool;
  executed : list (nat * T);
  inline : list (nat * T);
  inits : list nat;
  exited : list nat
}.

(** The constructor, [setMaxQueueSize] (an [int], kept as a [size_t]) and
    [setThreadInitCallback]. *)
Definition newPool : ThreadPool := mkPool 0 false false [] 0 false [] [] [] [].
Definition setMaxQueueSize (maxSize : Z) (s : ThreadPool) : ThreadPool :=
  mkPool (u64 maxSize) (threadInitCallback_ s) (running_ s) (queue_ s) (threads_ s) (joined s) (executed s) (inline s) (inits s) (exited s).
Definition setThreadInitCallback (s : ThreadPool) : ThreadPool :=
  mkPool (maxQueueSize_ s) true (running_ s) (queue_ s) (threads_ s) (joined s) (executed s) (inline s) (inits s) (exited s).

Definition set_running (b : bool) (s : ThreadPool) : ThreadPool :=
  mkPool (maxQueueSize_ s) (threadInitCallback_ s) b (queue_ s) (threads_ s) (joined s) (executed s) (inline s) (inits s) (exited s).
Definition set_queue (q : list T) (s : ThreadPool) : ThreadPool :=
  mkPool (maxQueueSize_ s) (threadInitCallback_ s) (running_ s) q (threads_ s) (joined s) (executed s) (inline s) (inits s) (exited s).
Definition add_thread (s : ThreadPool) : ThreadPool :=
  mkPool (maxQueueSize_ s) (threadInitCallback_ s) (running_ s) (queue_ s) (threads_ s + 1) (joined s) (executed s) (inline s) (inits s) (exited s).
Definition set_joined (s : ThreadPool) : ThreadPool :=
  mkPool (maxQueueSize_ s) (threadInitCallback_ s) (running_ s) (queue_ s) (threads_ s) true (executed s) (inline s) (inits s) (exited s).
Definition add_executed (t : nat) (x : T) (s : ThreadPool) : ThreadPool :=
  mkPool (maxQueueSize_ s) (threadInitCallback_ s) (running_ s) (queue_ s) (threads_ s) (joined s) (executed s ++ [(t, x)]) (inline s) (inits s) (exited s).
Definition add_inline (t : nat) (x : T) (s : ThreadPool) : ThreadPool :=
  mkPool (maxQueueSize_ s) (threadInitCallback_ s) (running_ s) (queue_ s) (threads_ s) (joined s) (executed s) (inline s ++ [(t, x)]) (inits s) (exited s).
Definition run_init (t : nat) (s : ThreadPool) : ThreadPool :=
  if threadInitCallback_ s then
    mkPool (maxQueueSize_ s) (threadInitCallback_ s) (running_ s) (queue_ s) (threads_ s) (joined s) (executed s) (inline s) (inits s ++ [t]) (exited s)
  else s.
Definition add_exited (t : nat) (s : ThreadPool) : ThreadPool :=
  mkPool (maxQueueSize_ s) (threadInitCallback_ s) (running_ s) (queue_ s) (threads_ s) (joined s) (executed s) (inline s) (inits s) (exited s ++ [t]).

Inductive cond := notEmpty_ | notFull_.
#[global] Instance pool_cond_eq : EqDecision cond.
Proof. solve_decision. Defined.

Inductive pool_op := Run (task : T) | TakeTask | StopPool | QueueSize.
Inductive pool_result := PVoid | PTask (task : option T) | PSize (n : Z).

Abbreviation result := (outcome (pass ThreadPool cond pool_result)).

Definition isFull (t : nat) (m : MutexLock) (s : ThreadPool) : outcome bool :=
  assert* isLockedByThisThread t m in
  Ret (bool_decide (maxQueueSize_ s > 0) && bool_decide (zlen (queue_ s) >= maxQueueSize_ s)).

(** [run], where there are threads *)
Definition run (t : nat) (m : MutexLock) (task : T) (s : ThreadPool) : result :=
  let* full := isFull t m s in
  if full then Ret (Block notFull_)
  else
    let* full := isFull t m s in
    assert* negb full in
    Ret (Finish (set_queue (queue_ s ++ [task]) s) [Notify notEmpty_] PVoid).

Definition take (s : ThreadPool) : result :=
  if decide (queue_ s = []) then
    if running_ s then Ret (Block notEmpty_) else Ret (Finish s [] (PTask None))
  else
    match queue_ s with
    | task :: rest =>
        Ret (Finish (set_queue rest s) (if decide (maxQueueSize_ s > 0) then [Notify notFull_] else []) (PTask (Some task)))
    | [] => Stop OutOfRange
    end.

(** [stop], the critical section *)
Definition stop (s : ThreadPool) : result := Ret (Finish (set_running false s) [NotifyAll notEmpty_] PVoid).
Definition queueSize (s : ThreadPool) : result := Ret (Finish s [] (PSize (zlen (queue_ s)))).

Definition pool_section (t : nat) (m : MutexLock) (op : pool_op) (s : ThreadPool) : result :=
  match op with
  | Run task => run t m task s
  | TakeTask => take s
  | StopPool => stop s
  | QueueSize => queueSize s
  end.

(** Where a thread is. The owner: before [start], in its loop, started, in [stop]
    before the lock, joining, stopped. A thread that submits tasks, before the lock
    of [run]. A worker in [runInThread]: at its start, at the loop's test, before
    [take], with what it took, at the end. *)
Inductive place :=
  | Fresh
  | Starting (i numThreads : Z)
  | Owner
  | WantStop
  | StopJoin
  | Stopped
  | Client
  | WantRun (task : T)
  | WInit
  | WTest
  | WTake
  | WGot (task : option T)
  | WExit.

Inductive decision := DStart (numThreads : Z) | DStop | DRun (task : T) | DStep.

Definition pool_callable (l : place) (op : pool_op) : bool :=
  match l, op with
  | WantRun _, Run _ => true
  | WTake, TakeTask => true
  | WantStop, StopPool => true
  | Owner, QueueSize | Client, QueueSize | Stopped, QueueSize => true
  | _, _ => false
  end.

Definition pool_after (l : place) (op : pool_op) (r : pool_result) : place :=
  match l, r with
  | WantRun _, _ => Client
  | WTake, PTask task => WGot task
  | WantStop, _ => StopJoin
  | _, _ => l
  end.

Definition start (s : ThreadPool) (numThreads : Z) : outcome (place * ThreadPool * list place) :=
  assert* bool_decide (threads_ s = 0) in
  Ret (Starting 0 numThreads, set_running true s, []).

(** What is done outside the mutex: [start]; its loop; the joins of [stop]; the test
    of [threads_] in [run]; [runInThread]. *)
Definition pool_local (d : decision) (t : nat) (l : place) (s : ThreadPool) : option (outcome (place * ThreadPool * list place)) :=
  match l, d with
  | Fresh, DStart numThreads => Some (start s numThreads)
  | Starting i numThreads, DStep =>
      if decide (i < numThreads) then Some (Ret (Starting (i + 1) numThreads, add_thread s, [WInit]))
      else Some (Ret (Owner, if decide (numThreads = 0) then run_init t s else s, []))
  | Owner, DStop => Some (Ret (WantStop, s, []))
  | StopJoin, DStep =>
      if joined s then Some (Stop AssertFailed)
      else if decide (zlen (exited s) = threads_ s) then Some (Ret (Stopped, set_joined s, [])) else None
  | Client, DRun task =>
      if decide (threads_ s = 0) then Some (Ret (Client, add_inline t task s, []))
      else Some (Ret (WantRun task, s, []))
  | WInit, DStep => Some (Ret (WTest, run_init t s, []))
  | WTest, DStep => if running_ s then Some (Ret (WTake, s, [])) else Some (Ret (WExit, add_exited t s, []))
  | WGot task, DStep =>
      Some (Ret (WTest, match task with Some task => add_executed t task s | None => s end, []))
  | _, _ => None
  end.

Definition PoolClient : client ThreadPool cond pool_op pool_result place decision :=
  mkClient pool_section pool_callable pool_after pool_local.

(** ** Invariant *)

Abbreviation hist := (list (nat * pool_op * pool_result)).

(** The tasks submitted and the tasks taken, in order; and those a thread took. *)
Definition e_submitted (e : nat * pool_op * pool_result) : list T := match e with (_, Run x, _) => [x] | _ => [] end.
Definition e_taken (e : nat * pool_op * pool_result) : list T := match e with (_, _, PTask (Some x)) => [x] | _ => [] end.
Definition submitted (h : hist) : list T := flat_map e_submitted h.
Definition taken (h : hist) : list T := flat_map e_taken h.
Definition taken_by (t : nat) (h : hist) : list T := flat_map e_taken (List.filter (fun e => bool_decide (e.1.1 = t)) h).
Definition executed_by (t : nat) (s : ThreadPool) : list T :=
  flat_map (fun e => if decide (e.1 = t) then [e.2] else []) (executed s).

(** The task a worker has taken and not yet run. *)
Definition in_hand (l : place) : list T := match l with WGot (Some x) => [x] | _ => [] end.

Definition pool_inv (max : Z) (s : ThreadPool) (h : hist) : Prop :=
  maxQueueSize_ s = max /\ 0 <= max /\ submitted h = taken h ++ queue_ s /\ (0 < max -> zlen (queue_ s) <= max) /\
  forall t, exists rest, taken_by t h = executed_by t s ++ rest.

(** What the place of a thread says of the pool; thread 0 is the owner. *)
Definition place_fact (t : nat) (l : place) (s : ThreadPool) : Prop :=
  match l with
  | Fresh => t = 0%nat /\ threads_ s = 0 /\ running_ s = false /\ joined s = false
  | Starting _ _ => t = 0%nat /\ joined s = false
  | Owner | WantStop => t = 0%nat /\ joined s = false
  | StopJoin => t = 0%nat /\ joined s = false /\ running_ s = false
  | Stopped => t = 0%nat /\ running_ s = false
  | _ => t <> 0%nat
  end.

(** A thread ran what it took but for the task in its hand. *)
Definition place_ok (t : nat) (l : place) (s : ThreadPool) (h : hist) : Prop :=
  taken_by t h = executed_by t s ++ in_hand l /\ place_fact t l s.

Lemma submitted_snoc h e : submitted (h ++ [e]) = submitted h ++ e_submitted e.
Proof. unfold submitted. rewrite flat_map_app. cbn. by rewrite app_nil_r. Qed.
Lemma taken_snoc h e : taken (h ++ [e]) = taken h ++ e_taken e.
Proof. unfold taken. rewrite flat_map_app. cbn. by rewrite app_nil_r. Qed.
Lemma taken_by_snoc t h e : taken_by t (h ++ [e]) = taken_by t h ++ if decide (e.1.1 = t) then e_taken e else [].
Proof.
  unfold taken_by. rewrite List.filter_app, flat_map_app. f_equal. cbn. case_decide as D.
  - rewrite bool_decide_true by done. cbn. by rewrite app_nil_r.
  - by rewrite bool_decide_false.
Qed.
Lemma taken_by_fresh t h : (forall e, e ∈ h -> e.1.1 <> t) -> taken_by t h = [].
Proof.
  intros H. unfold taken_by. induction h as [|e h IH]; [done|]. cbn. rewrite bool_decide_false by (apply H; by left).
  apply IH. intros e' He. apply H. by right.
Qed.
Lemma executed_by_add t t' x s : executed_by t (add_executed t' x s) = executed_by t s ++ if decide (t' = t) then [x] else [].
Proof. unfold executed_by. cbn. rewrite flat_map_app. cbn. by rewrite app_nil_r. Qed.

Lemma executed_by_init t t' s : executed_by t (run_init t' s) = executed_by t s.
Proof. unfold run_init. by destruct (threadInitCallback_ s). Qed.

(** What a section that got to its end did. *)
Lemma run_pass t task s :
  exists full, isFull t (held_by t) s = Ret full /\
    run t (held_by t) task s = if full then Ret (Block notFull_) else Ret (Finish (set_queue (queue_ s ++ [task]) s) [Notify notEmpty_] PVoid).
Proof.
  eexists. unfold run, isFull. rewrite check_true by (by apply bool_decide_eq_true). split; [reflexivity|]. cbn [obind].
  by destruct (_ && _).
Qed.

Lemma isFull_true t s : isFull t (held_by t) s = Ret true -> 0 < maxQueueSize_ s <= zlen (queue_ s).
Proof.
  unfold isFull. rewrite check_true by (by apply bool_decide_eq_true). intros [= H]. apply andb_true_iff in H as [H1 H2].
  apply bool_decide_eq_true in H1, H2. lia.
Qed.
Lemma isFull_false t s : isFull t (held_by t) s = Ret false -> 0 < maxQueueSize_ s -> zlen (queue_ s) < maxQueueSize_ s.
Proof.
  unfold isFull. rewrite check_true by (by apply bool_decide_eq_true). intros [= H] P. apply andb_false_iff in H as [H|H];
    apply bool_decide_eq_false in H; lia.
Qed.

Inductive finished (s : ThreadPool) : pool_op -> ThreadPool -> list (signal cond) -> pool_result -> Prop :=
  | f_run x : (0 < maxQueueSize_ s -> zlen (queue_ s) < maxQueueSize_ s) ->
      finished s (Run x) (set_queue (queue_ s ++ [x]) s) [Notify notEmpty_] PVoid
  | f_take x rest : queue_ s = x :: rest ->
      finished s TakeTask (set_queue rest s) (if decide (maxQueueSize_ s > 0) then [Notify notFull_] else []) (PTask (Some x))
  | f_none : queue_ s = [] -> running_ s = false -> finished s TakeTask s [] (PTask None)
  | f_stop : finished s StopPool (set_running false s) [NotifyAll notEmpty_] PVoid
  | f_size : finished s QueueSize s [] (PSize (zlen (queue_ s))).

Lemma pool_section_finish t op s s' sigs r :
  pool_section t (held_by t) op s = Ret (Finish s' sigs r) -> finished s op s' sigs r.
Proof.
  destruct op as [x| | |]; cbn [pool_section].
  - destruct (run_pass t x s) as (full & Ef & ->). destruct full; [done|]. intros [= <- <- <-]. constructor. by eapply isFull_false.
  - unfold take. case_decide as Eq.
    + destruct (running_ s) eqn:Er; [done|]. intros [= <- <- <-]. by constructor.
    + destruct (queue_ s) as [|x rest] eqn:E; [done|]. intros [= <- <- <-]. by constructor.
  - intros [= <- <- <-]. constructor.
  - intros [= <- <- <-]. constructor.
Qed.

(** What a section does not change. *)
Lemma finished_frame s op s' sigs r :
  finished s op s' sigs r ->
  maxQueueSize_ s' = maxQueueSize_ s /\ threads_ s' = threads_ s /\ joined s' = joined s /\ executed s' = executed s /\
  exited s' = exited s /\ (running_ s = false -> running_ s' = false).
Proof. by intros []. Qed.

Ltac frame_tac Nn := split_and!; try done; try (by left); try (intros l0; apply Nn).

(** What the local steps do not change; only a new worker is started, by thread 0. *)
Lemma pool_local_frame d t l s l' s' new :
  pool_local d t l s = Some (Ret (l', s', new)) ->
  maxQueueSize_ s' = maxQueueSize_ s /\ queue_ s' = queue_ s /\
  ((executed s' = executed s /\ in_hand l = in_hand l') \/ (exists x, l = WGot (Some x) /\ l' = WTest /\ s' = add_executed t x s)) /\
  (forall l0, l0 ∈ new -> l0 = WInit /\ exists i n, l = Starting i n).
Proof.
  assert (forall (P : Prop) (l0 : place), l0 ∈ [] -> P) as Nn by (intros P l0 E; by apply elem_of_nil in E).
  assert (forall t s, maxQueueSize_ (run_init t s) = maxQueueSize_ s /\ queue_ (run_init t s) = queue_ s /\ executed (run_init t s) = executed s) as Ri
    by (intros t0 s0; unfold run_init; by destruct (threadInitCallback_ s0)).
  destruct l; destruct d; try done; cbn.
  - unfold start. destruct (bool_decide _); [|done]. intros [= <- <- <-]. frame_tac Nn.
  - case_decide; intros [= <- <- <-].
    + frame_tac Nn. intros l0 E%list_elem_of_singleton. subst. split; [done|by eexists _, _].
    + case_decide; [destruct (Ri t s) as (-> & -> & ->)|]; frame_tac Nn.
  - intros [= <- <- <-]. frame_tac Nn.
  - destruct (joined s); [done|]. case_decide; [|done]. intros [= <- <- <-]. frame_tac Nn.
  - case_decide; intros [= <- <- <-]; frame_tac Nn.
  - intros [= <- <- <-]. destruct (Ri t s) as (-> & -> & ->). frame_tac Nn.
  - destruct (running_ s); intros [= <- <- <-]; frame_tac Nn.
  - destruct task as [x|]; intros [= <- <- <-]; frame_tac Nn. right. by exists x.
Qed.

(** Where the local steps lead, and what they leave to the other threads. *)
Lemma pool_local_place d t l s l' s' new :
  pool_local d t l s = Some (Ret (l', s', new)) -> place_fact t l s -> place_fact t l' s'.
Proof.
  assert (joined (run_init t s) = joined s) as Ri by (unfold run_init; by destruct (threadInitCallback_ s)).
  destruct l; destruct d; try done; cbn.
  - unfold start. destruct (bool_decide _); [|done]. by intros [= <- <- <-] (-> & _ & _ & E).
  - case_decide; intros [= <- <- <-]; [done|]. case_decide; cbn; by rewrite ?Ri.
  - by intros [= <- <- <-].
  - destruct (joined s); [done|]. case_decide; [|done]. by intros [= <- <- <-] (-> & _ & E).
  - case_decide; by intros [= <- <- <-].
  - by intros [= <- <- <-].
  - destruct (running_ s); by intros [= <- <- <-].
  - destruct task; by intros [= <- <- <-].
Qed.

Lemma pool_local_other d t l s l' s' new t' l0 :
  pool_local d t l s = Some (Ret (l', s', new)) -> place_fact t l s -> t' <> t -> place_fact t' l0 s -> place_fact t' l0 s'.
Proof.
  intros H P Ne P0.
  assert (t = 0%nat \/ (threads_ s' = threads_ s /\ running_ s' = running_ s /\ joined s' = joined s)) as [-> | (E1 & E2 & E3)].
  - destruct l; destruct d; try done; cbn in H, P; try (left; by apply P); right.
    + case_decide; by injection H as <- <- <-.
    + injection H as <- <- <-. unfold run_init. by destruct (threadInitCallback_ s).
    + destruct (running_ s) eqn:E; injection H as <- <- <-; cbn; by rewrite ?E.
    + destruct task; by injection H as <- <- <-.
  - destruct l0; cbn in *; try done; by destruct P0.
  - destruct l0; cbn in *; rewrite ?E1, ?E2, ?E3; done.
Qed.

#[global] Instance pool_safe max : SafeClient PoolClient (pool_inv max) place_ok.
Proof.
  constructor.
  - intros t op s h _. cbn. destruct op as [x| | |]; cbn [pool_section]; try by eexists.
    + destruct (run_pass t x s) as ([|] & _ & ->); by eexists.
    + unfold take. case_decide; [destruct (running_ s); by eexists|]. destruct (queue_ s); [done|by eexists].
  - intros t l op s h s' sigs r (Mx & Pm & Sb & Bd & Ex) [Jt Jl] Cl H. cbn in Cl, H. apply pool_section_finish in H.
    destruct (finished_frame _ _ _ _ _ H) as (F1 & F2 & F3 & F4 & F5 & F6).
    assert (forall t', executed_by t' s' = executed_by t' s) as Eb by (intros t'; unfold executed_by; by rewrite F4).
    split; [|split].
    + split_and!; [by rewrite F1|done|..].
      * rewrite submitted_snoc, taken_snoc, Sb. destruct H as [x _|x rest E|E _| |]; cbn; rewrite ?app_nil_r, ?E, <- ?app_assoc; done.
      * destruct H as [x Lt|x rest E|E _| |]; cbn; try done; intros P; specialize (Bd P).
        -- rewrite zlen_app, zlen_cons, zlen_nil. rewrite Mx in Lt. specialize (Lt P). lia.
        -- rewrite E, zlen_cons in Bd. lia.
      * intros t'. destruct (Ex t') as (rest & E'). rewrite taken_by_snoc, Eb, E'. rewrite <- app_assoc. by eexists.
    + unfold place_ok. rewrite taken_by_snoc, Eb, Jt. cbn [fst]. rewrite decide_True by done.
      destruct H as [x Lt|x rest E|E Er| |]; destruct l; try done; cbn; rewrite ?app_nil_r; cbn in Jl; intuition.
    + intros t' l' Ne [Jt' Jl']. split.
      * rewrite taken_by_snoc, Eb, Jt'. cbn [fst]. rewrite decide_False by done. by rewrite app_nil_r.
      * destruct l'; cbn in *; rewrite ?F2, ?F3; try done; intuition.
  - intros d t l s h l' s' new (Mx & Pm & Sb & Bd & Ex) [Jt Jl] H. cbn in H.
    destruct (pool_local_frame d t l s l' s' new H) as (F1 & F2 & Fe & Fn).
    assert (taken_by t h = executed_by t s' ++ in_hand l') as Jt'.
    { destruct Fe as [[Ee <-]|(x & -> & -> & ->)]; [unfold executed_by; by rewrite Ee|].
      rewrite executed_by_add, decide_True, Jt by done. cbn. by rewrite app_nil_r. }
    assert (forall t', t' <> t -> executed_by t' s' = executed_by t' s) as Eb.
    { intros t' Ne. destruct Fe as [[Ee _]|(x & _ & _ & ->)]; [unfold executed_by; by rewrite Ee|].
      rewrite executed_by_add, decide_False by done. by rewrite app_nil_r. }
    split_and!.
    + split_and!; rewrite ?F1, ?F2; try done. intros t'. destruct (decide (t' = t)) as [-> | Ne]; [by exists (in_hand l')|]. rewrite Eb by done. apply Ex.
    + split; [done|]. by apply (pool_local_place d t l s l' s' new H).
    + intros t' l0 Ne [J1 J2]. split; [by rewrite Eb|]. by apply (pool_local_other d t l s l' s' new t' l0).
    + intros t' l0 Hn Ne Fr. destruct (Fn l0 Hn) as (-> & i & n & ->). split; [|destruct Jl as [T0 _]; cbn; lia]. rewrite Eb by done. cbn.
      destruct (Ex t') as (rest & Er). rewrite (taken_by_fresh t' h Fr) in Er |- *. symmetry in Er. apply app_eq_nil in Er as [-> _]. done.
  - intros d t l s h f (Mx & Pm & Sb & Bd & Ex) [Jt Jl] H. cbn in H.
    destruct l; destruct d; try done; cbn in H.
    + unfold start in H. destruct Jl as (_ & E & _). rewrite E in H. by cbn in H.
    + by case_decide.
    + destruct Jl as (_ & Ej & _). rewrite Ej in H. by case_decide.
    + by case_decide.
    + by destruct (running_ s).
Qed.

(** ** Wakeups *)

Definition pool_avail (c : cond) (s : ThreadPool) : option nat :=
  match c with
  | notEmpty_ => if running_ s then Some (length (queue_ s)) else None
  | notFull_ => if decide (0 < maxQueueSize_ s) then Some (Z.to_nat (maxQueueSize_ s - zlen (queue_ s))) else None
  end.
Definition pool_needs (op : pool_op) : option cond :=
  match op with TakeTask => Some notEmpty_ | Run _ => Some notFull_ | _ => None end.

Lemma pool_local_running d t l s l' s' new :
  pool_local d t l s = Some (Ret (l', s', new)) -> running_ s' = running_ s \/ (exists n, l = Fresh /\ d = DStart n).
Proof.
  assert (running_ (run_init t s) = running_ s) as Ri by (unfold run_init; by destruct (threadInitCallback_ s)).
  destruct l; destruct d; try done; cbn; try (by intros [= <- <- <-]; left).
  - right. by eexists.
  - case_decide; intros [= <- <- <-]; left; [done|]. case_decide; by rewrite ?Ri.
  - destruct (joined s); [done|]. case_decide; [|done]. intros [= <- <- <-]. by left.
  - case_decide; intros [= <- <- <-]; by left.
  - destruct (running_ s) eqn:E; intros [= <- <- <-]; left; cbn; by rewrite ?E.
  - destruct task; intros [= <- <- <-]; by left.
Qed.

#[global] Instance pool_wakes max : WakingClient PoolClient (pool_inv max) place_ok pool_avail pool_needs.
Proof.
  constructor.
  - intros t op s h c I H. cbn in H. destruct op as [x| | |]; cbn [pool_section] in H; try done.
    + destruct (run_pass t x s) as (full & Ef & Er). rewrite Er in H. destruct full; [|done]. injection H as <-.
      apply isFull_true in Ef. cbn. rewrite decide_True by lia. split; [done|]. f_equal. lia.
    + unfold take in H. case_decide as E; [|by destruct (queue_ s)]. destruct (running_ s) eqn:Er; [|done]. injection H as <-.
      cbn. by rewrite Er, E.
  - intros t op s h s' sigs r c (Mx & Pm & Sb & Bd & _) H. cbn in H. apply pool_section_finish in H.
    destruct c; cbn [pool_avail].
    + destruct (running_ s) eqn:Er; [|by right; left]. destruct H as [x Lt|x rest E|E E'| |]; try congruence.
      * right. right. exists (length (queue_ s)), (length (queue_ s) + 1)%nat. cbn. rewrite Er, length_app. split_and!; [done..|]. wakelia.
      * right. right. exists (length (queue_ s)), (length rest). cbn. rewrite Er, E. split_and!; [done..|]. wakelia.
      * left. by left.
      * right. right. rewrite Er. exists (length (queue_ s)), (length (queue_ s)). split_and!; [done..|]. wakelia.
    + case_decide as D; [|by right; left]. right. right. destruct H as [x Lt|x rest E|E E'| |]; cbn [maxQueueSize_ set_queue set_running queue_]; rewrite decide_True by done.
      * eexists _, _. split_and!; [reflexivity..|]. specialize (Lt D). rewrite zlen_app, zlen_cons, zlen_nil. wakelia.
      * eexists _, _. split_and!; [reflexivity..|]. rewrite (decide_True (P := maxQueueSize_ s > 0)) by lia. rewrite E, zlen_cons. wakelia.
      * eexists _, _. split_and!; [reflexivity..|]. wakelia.
      * eexists _, _. split_and!; [reflexivity..|]. wakelia.
      * eexists _, _. split_and!; [reflexivity..|]. wakelia.
  - intros d t l s h l' s' new c I [_ Jl] H. cbn in H. destruct (pool_local_frame d t l s l' s' new H) as (F1 & F2 & _).
    destruct c; cbn [pool_avail].
    + destruct (pool_local_running d t l s l' s' new H) as [-> | (n & -> & ->)].
      * destruct (running_ s); [right; exists (length (queue_ s)), (length (queue_ s)); by rewrite F2|by left].
      * left. destruct Jl as (_ & _ & -> & _). done.
    + rewrite F1, F2. case_decide; [right; by eexists _, _|by left].
Qed.

(** ** The workers *)

Definition is_worker (l : place) : bool := match l with WInit | WTest | WTake | WGot _ | WExit => true | _ => false end.
Definition is_exited (l : place) : bool := match l with WExit => true | _ => false end.

(** [threads_] counts the workers, [exited] those that are done. *)
Definition workers_ok (s : ThreadPool) (ths : list (thread cond pool_op pool_result place)) : Prop :=
  threads_ s = Z.of_nat (count_view PoolClient is_worker ths) /\ zlen (exited s) = Z.of_nat (count_view PoolClient is_exited ths).

Lemma after_worker l op r : pool_callable l op = true -> is_worker (pool_after l op r) = is_worker l /\ is_exited (pool_after l op r) = is_exited l.
Proof. by destruct l, op, r. Qed.

Lemma local_workers d t l s l' s' new ths :
  pool_local d t l s = Some (Ret (l', s', new)) -> ths !! t = Some (Idle l) -> workers_ok s ths ->
  workers_ok s' (<[t := Idle l']> ths ++ map Idle new).
Proof.
  intros H E [W X]. unfold workers_ok, count_view. rewrite !count_app. fold (count_view PoolClient is_worker (<[t := Idle l']> ths)).
  fold (count_view PoolClient is_exited (<[t := Idle l']> ths)).
  fold (count_view PoolClient is_worker (map Idle new)). fold (count_view PoolClient is_exited (map Idle new)). rewrite !count_view_idle.
  pose proof (count_view_insert PoolClient is_worker ths t _ (Idle l') E) as K1.
  pose proof (count_view_insert PoolClient is_exited ths t _ (Idle l') E) as K2. cbn [view] in K1, K2.
  assert (threads_ (run_init t s) = threads_ s /\ exited (run_init t s) = exited s) as [R1 R2] by (unfold run_init; by destruct (threadInitCallback_ s)).
  destruct l; destruct d; try done; cbn in H.
  - unfold start in H. destruct (bool_decide _); [|done]. injection H as <- <- <-. cbn in *. lia.
  - destruct (decide (_ < _)) in H; [injection H as <- <- <-; cbn in *; lia|].
    injection H as <- <- <-. cbn in K1, K2. case_decide; cbn; rewrite ?R1, ?R2; lia.
  - injection H as <- <- <-. cbn in *. lia.
  - destruct (joined s); [done|]. case_decide; [|done]. injection H as <- <- <-. cbn in *. lia.
  - case_decide; injection H as <- <- <-; cbn in *; lia.
  - injection H as <- <- <-. rewrite R1, R2. cbn in *. lia.
  - destruct (running_ s); injection H as <- <- <-; cbn in *; [lia|]. rewrite zlen_app, zlen_cons, zlen_nil. lia.
  - destruct task; injection H as <- <- <-; cbn in *; lia.
Qed.

Lemma rule_workers max b cf cf' :
  monitor_ok PoolClient (pool_inv max) place_ok cf -> rule PoolClient b cf cf' ->
  workers_ok (shared cf) (threads cf) -> workers_ok (shared cf') (threads cf').
Proof.
  intros (_ & _ & Ht & _) H W.
  destruct H as [m s ths h t l op E Hx|s ths h t x l op E Hx|s ths h t l op c E Hb|s ths h t l op s' sigs r picks ths' E Hb Hd
    |s ths h t l op r E|m s ths h t c l op E|m s ths h t d l l' s' new E Hl]; cbn [shared threads] in *.
  4: { cbn in Hb. apply pool_section_finish, finished_frame in Hb as (_ & F2 & _ & _ & F5 & _).
    destruct (Ht t _ E) as [_ Cl]. specialize (Cl l op eq_refl). destruct (after_worker l op r Cl) as [A1 A2].
    pose proof (deliver_wakes _ _ _ _ Hd) as F. unfold workers_ok.
    rewrite F2, F5, !(count_view_wakes PoolClient _ _ _ F), !(count_view_same PoolClient _ ths t _ _ E) by done. apply W. }
  6: by eapply local_workers.
  all: unfold workers_ok; rewrite !(count_view_same PoolClient _ ths t _ _ E); try done; by destruct x; try done; injection Hx as -> ->.
Qed.

(** The start: the owner, and [n] threads that submit tasks. *)
Definition pool_start (n : nat) : list place := Fresh :: replicate n Client.

Definition made (maxSize : Z) (cb : bool) : ThreadPool :=
  let s := setMaxQueueSize maxSize newPool in if cb then setThreadInitCallback s else s.

Lemma pool_initial maxSize cb n :
  0 <= maxSize < 2 ^ 31 ->
  pool_inv maxSize (made maxSize cb) [] /\ forall t l, pool_start n !! t = Some l -> place_ok t l (made maxSize cb) [].
Proof.
  intros B. assert (u64 maxSize = maxSize) as Eu by (apply wrap_small; lia). unfold made. split.
  - split_and!; [by destruct cb|lia|by destruct cb|intros _; destruct cb; apply B|].
    intros t. exists []. by destruct cb.
  - intros [|t] l E; cbn in E; [injection E as <-; by destruct cb|]. apply lookup_replicate in E as [-> _]. by destruct cb.
Qed.

Lemma filter_start (g : place -> bool) n : g Fresh = false -> g Client = false -> List.filter g (pool_start n) = [].
Proof. intros G1 G2. cbn. rewrite G1. induction n as [|n IHn]; [done|]. cbn. by rewrite G2. Qed.

Lemma pool_reachable_ok maxSize cb n cf :
  0 <= maxSize < 2 ^ 31 -> reachable PoolClient (made maxSize cb) (pool_start n) cf ->
  monitor_ok PoolClient (pool_inv maxSize) place_ok cf /\ workers_ok (shared cf) (threads cf).
Proof.
  intros B H. destruct (pool_initial maxSize cb n B) as [I0 J0].
  pose proof (initial_ok PoolClient (pool_inv maxSize) place_ok _ _ I0 J0) as H0.
  assert (workers_ok (shared (initial (C := cond) (Op := pool_op) (R := pool_result) (made maxSize cb) (pool_start n)))
    (threads (initial (made maxSize cb) (pool_start n)))) as W0.
  { unfold workers_ok. cbn [initial shared threads]. rewrite !count_view_idle.
    rewrite !filter_start by done. by destruct cb. }
  clear I0 J0. induction H as [|x y z (a & Ha) _ IH]; [done|].
  assert (rule PoolClient (internal a) x y) as Hr by (apply step_rule; [apply H0|done]).
  apply IH; [exact (rule_monitor_ok PoolClient (pool_inv maxSize) place_ok _ _ _ H0 Hr)|exact (rule_workers maxSize _ _ _ H0 Hr W0)].
Qed.

(** C30. The pool is safe and loses no task: for every interleaving of the owner, the
    threads that submit tasks and the workers, no assertion fails ([isFull] is
    called with the mutex held); the tasks taken followed by those queued are the
    tasks submitted, in order; a bounded queue keeps to its bound; and every thread
    has run exactly the tasks it took, once and in order, but for one it is about to
    run. *)
Theorem pool_tasks maxSize cb n cf :
  0 <= maxSize < 2 ^ 31 -> reachable PoolClient (made maxSize cb) (pool_start n) cf ->
  safe PoolClient cf /\ submitted (history cf) = taken (history cf) ++ queue_ (shared cf) /\
  (0 < maxSize -> zlen (queue_ (shared cf)) <= maxSize) /\
  forall t x, threads cf !! t = Some x ->
    taken_by t (history cf) = executed_by t (shared cf) ++ in_hand (view PoolClient x).
Proof.
  intros B H. destruct (pool_reachable_ok maxSize cb n cf B H) as [Ok _]. pose proof Ok as (_ & (_ & _ & Sb & Bd & _) & Ht & _).
  split_and!; [by apply (monitor_safe _ (pool_inv maxSize) place_ok)|done|done|].
  intros t x E. by destruct (Ht t x E) as [[Jt _] _].
Qed.

(** No wakeup of the pool is lost: when no thread can go on inside a call, a
    worker waits only while the pool runs and the queue is empty, and [run] waits
    only on a full queue. *)
Theorem pool_wakeups maxSize cb n cf :
  0 <= maxSize < 2 ^ 31 -> reachable PoolClient (made maxSize cb) (pool_start n) cf -> quiet PoolClient cf ->
  ((0 < count (waits_on notEmpty_) (threads cf))%nat -> queue_ (shared cf) = [] /\ running_ (shared cf) = true) /\
  ((0 < count (waits_on notFull_) (threads cf))%nat -> 0 < maxSize /\ zlen (queue_ (shared cf)) = maxSize).
Proof.
  intros B H Q. destruct (pool_initial maxSize cb n B) as [I0 J0].
  destruct (pool_reachable_ok maxSize cb n cf B H) as [(_ & (Mx & _ & _ & Bd & _) & _) _].
  split; intros W; pose proof (quiet_waiters _ (pool_inv maxSize) place_ok pool_avail pool_needs _ _ cf _ I0 J0 H Q W) as A; cbn in A.
  - destruct (running_ (shared cf)); [|done]. injection A as A. by destruct (queue_ (shared cf)).
  - rewrite Mx in A. case_decide as D; [|done]. injection A as A. specialize (Bd D). lia.
Qed.

(** What nobody has to do: start or stop the pool, submit a task, ask for the size;
    and wake up for no reason. *)
Definition voluntary (a : action) : bool :=
  match a with
  | Spurious _ => true
  | Call _ QueueSize => true
  | Local _ (DStart _) | Local _ DStop | Local _ (DRun _) => true
  | _ => false
  end.

(** Outside a call, a worker goes on until it has left [runInThread]. *)
Lemma worker_goes_on cf t l max :
  monitor_ok PoolClient (pool_inv max) place_ok cf -> threads cf !! t = Some (Idle l) -> stuck PoolClient voluntary cf ->
  is_worker l = true -> l = WExit.
Proof.
  intros Ok E St.
  assert (pool_callable l TakeTask = true -> False) as Nc.
  { intros Cl. enough (voluntary (Call t TakeTask) = true) by done. eapply St. unfold step. cbn [perform]. rewrite E. cbn [callable PoolClient]. by rewrite Cl. }
  assert (forall o, pool_local DStep t l (shared cf) = Some (Ret o) -> False) as Nl.
  { intros [[l' s'] new] El. enough (voluntary (Local t DStep) = true) by done. eapply St. unfold step. cbn [perform]. rewrite E. cbn [local PoolClient]. by rewrite El. }
  destruct l; try done; cbn in Nl; intros _; exfalso; try (by eapply Nl); try (by apply Nc).
  destruct (running_ (shared cf)); by eapply Nl.
Qed.

(** When nothing more has to happen after [stop()] has cleared [running_], every worker
    has left. *)
Lemma stopped_workers_exit maxSize cb n cf :
  0 <= maxSize < 2 ^ 31 -> reachable PoolClient (made maxSize cb) (pool_start n) cf -> stuck PoolClient voluntary cf ->
  running_ (shared cf) = false ->
  forall t x, threads cf !! t = Some x -> is_worker (view PoolClient x) = true -> x = Idle WExit.
Proof.
  intros B H St Nr t x E Wk. destruct (pool_reachable_ok maxSize cb n cf B H) as [Ok _]. pose proof Ok as (_ & _ & Ht & _).
  destruct (pool_initial maxSize cb n B) as [I0 J0].
  destruct (reachable_wake_inv PoolClient (pool_inv maxSize) place_ok pool_avail pool_needs _ _ cf I0 J0 H) as [Wt Wc].
  destruct (quiet_settled PoolClient _ _ cf Ok (stuck_quiet _ voluntary cf ltac:(by intros []) St) t x E) as [(l & ->)|(c & l & op & ->)].
  - by rewrite (worker_goes_on cf t l maxSize Ok E St Wk).
  - destruct (Ht t _ E) as [_ Cl]. specialize (Cl l op eq_refl). specialize (Wt _ _ _ _ E). cbn in Wk.
    destruct l; try done; destruct op; try done. cbn in Wt. injection Wt as <-.
    destruct (Wc notEmpty_) as (n0 & A & _); [apply count_pos; exists t; eexists; split; [exact E|done]|]. cbn in A. by rewrite Nr in A.
Qed.

(** [stop()] returns: in every state in which nothing more has to happen and in
    which the owner has got past the critical section of [stop()], all workers have
    left [runInThread] and the owner has joined them. *)
Theorem pool_stop_returns maxSize cb n cf l :
  0 <= maxSize < 2 ^ 31 -> reachable PoolClient (made maxSize cb) (pool_start n) cf -> stuck PoolClient voluntary cf ->
  threads cf !! 0%nat = Some (Idle l) -> l = StopJoin \/ l = Stopped ->
  l = Stopped /\ forall t x, threads cf !! t = Some x -> is_worker (view PoolClient x) = true -> x = Idle WExit.
Proof.
  intros B H St E Hl. destruct (pool_reachable_ok maxSize cb n cf B H) as [Ok [W X]]. pose proof Ok as (_ & _ & Ht & _).
  destruct (Ht _ _ E) as [[_ Jl] _]. cbn in Jl.
  assert (running_ (shared cf) = false) as Nr by (destruct Hl as [-> | ->]; apply Jl).
  pose proof (stopped_workers_exit maxSize cb n cf B H St Nr) as Al. split; [|done]. destruct Hl as [-> | ->]; [|done]. exfalso.
  assert (zlen (exited (shared cf)) = threads_ (shared cf)) as Eq.
  { rewrite W, X. f_equal. unfold count_view. clear W X St H E Ht Ok. induction (threads cf) as [|x ths IH]; [done|].
    rewrite !count_cons. rewrite IH by (intros t y Ey; apply (Al (S t) y Ey)). f_equal. f_equal.
    destruct (is_worker (view PoolClient x)) eqn:Wx; [by rewrite (Al 0%nat x eq_refl Wx)|].
    destruct (view PoolClient x); done. }
  enough (voluntary (Local 0 DStep) = true) by done. eapply St. unfold step. cbn [perform]. rewrite E. cbn [local PoolClient pool_local].
  destruct Jl as (_ & -> & _). by rewrite decide_True.
Qed.
End Pool.

(** *** Witnesses: a queue of one, a worker, a thread that submits tasks. *)
Definition pool_day : list (action (Op := @pool_op Z) (D := @decision Z)) :=
  [Local 0 (DStart 1); Local 0 DStep; Local 0 DStep; Local 1 (DRun 7); Call 1 (Run 7); Acquire 1; Exec 1 []; Release 1;
   Local 2 DStep; Local 2 DStep; Call 2 TakeTask; Acquire 2; Exec 2 []; Release 2; Local 2 DStep].
Definition pool_end : list (action (Op := @pool_op Z) (D := @decision Z)) :=
  pool_day ++ [Local 0 DStop; Call 0 StopPool; Acquire 0; Exec 0 []; Release 0; Local 2 DStep; Local 0 DStep].

Definition ended_pool : ThreadPool := mkPool 1 false false [] 1 true [(2%nat, 7)] [] [] [2%nat].
Definition ended : config (C := cond) (Op := @pool_op Z) (R := @pool_result Z) (L := @place Z) :=
  mkConfig newMutex ended_pool [Idle Stopped; Idle Client; Idle WExit]
    [(1%nat, Run 7, PVoid); (2%nat, TakeTask, PTask (Some 7)); (0%nat, StopPool, PVoid)].

Lemma ended_reachable : reachable PoolClient (made 1 false) (pool_start 1) ended.
Proof. apply (run_actions_rtc _ pool_end). vm_compute. reflexivity. Qed.

(** Threads outside a call whose local steps are all voluntary. *)
Lemma ended_stuck : stuck PoolClient voluntary ended.
Proof.
  intros a cf' H. unfold step in H.
  destruct a as [t op|t|t p|t|t|t d]; destruct t as [|[|[|t]]]; try done; (destruct op || destruct d); done.
Qed.

Lemma pool_tasks_witness :
  submitted (history ended) = [7] /\ submitted (history ended) = taken (history ended) ++ queue_ (shared ended).
Proof. split; [reflexivity|]. apply (pool_tasks 1 false 1 ended); [lia|apply ended_reachable]. Defined.

(** A worker with nothing to do. *)
Definition pool_idle : list (action (Op := @pool_op Z) (D := @decision Z)) :=
  [Local 0 (DStart 1); Local 0 DStep; Local 0 DStep; Local 2 DStep; Local 2 DStep; Call 2 TakeTask; Acquire 2; Exec 2 []].
Definition idle : config (C := cond) (Op := @pool_op Z) (R := @pool_result Z) (L := @place Z) :=
  mkConfig newMutex (mkPool (T := Z) 1 false true [] 1 false [] [] [] []) [Idle Owner; Idle Client; Waiting notEmpty_ WTake TakeTask] [].

Lemma idle_reachable : reachable PoolClient (made 1 false) (pool_start 1) idle.
Proof. apply (run_actions_rtc _ pool_idle). vm_compute. reflexivity. Qed.

Lemma pool_wakeups_witness : queue_ (shared idle) = [] /\ running_ (shared idle) = true.
Proof.
  apply (pool_wakeups 1 false 1 idle); [lia|apply idle_reachable| |vm_compute; lia].
  intros cf' (a & Ia & H). unfold step in H. destruct a as [t op|t|t p|t|t|t d]; try done; by destruct t as [|[|[|t]]].
Defined.

Lemma pool_stop_returns_witness : exists x, threads ended !! 2%nat = Some x /\ x = Idle WExit.
Proof.
  eexists. split; [reflexivity|].
  apply (pool_stop_returns 1 false 1 ended Stopped) with (t := 2%nat);
    [lia|apply ended_reachable|apply ended_stuck|reflexivity|by right|reflexivity..].
Defined.

(** [stop()] does not wake the threads that wait in [run] for a slot of a full
    queue, and no worker will ever take a task again: such a thread waits for ever,
    in a state in which nothing more has to happen. *)
Definition pool_hang : list (action (Op := @pool_op Z) (D := @decision Z)) :=
  [Local 0 (DStart 1); Local 0 DStep; Local 0 DStep; Local 2 DStep; Local 1 (DRun 7); Call 1 (Run 7); Acquire 1; Exec 1 []; Release 1;
   Local 1 (DRun 8); Call 1 (Run 8); Acquire 1; Exec 1 [];
   Local 0 DStop; Call 0 StopPool; Acquire 0; Exec 0 []; Release 0; Local 2 DStep; Local 0 DStep].

Theorem stop_leaves_run_waiting : exists cf,
  reachable PoolClient (made 1 false) (pool_start 1) cf /\ stuck PoolClient voluntary cf /\
  threads cf = [Idle Stopped; Waiting notFull_ (WantRun 8) (Run 8); Idle WExit] /\ queue_ (shared cf) = [7].
Proof.
  eexists. split; [apply (run_actions_rtc _ pool_hang); vm_compute; reflexivity|]. split; [|by split].
  intros a cf' H. unfold step in H.
  destruct a as [t op|t|t p|t|t|t d]; destruct t as [|[|[|t]]]; try done; (destruct op || destruct d); done.
Qed.
