(* ===== verification/Logging.v ===== *)
(** * Logging (src/muduo/muduo/base/Logging.h, Logging.cc)

    Loggers: one statement makes one line with the time, the thread, the level, what
    was inserted and the place in the source. Each thread caches the text of the
    last second it logged in. The clock, [errno] and its messages, [gmtime_r] and
    [gettid] are arguments. *)

From S2P Require Import Prelude Format StringPiece Timestamp TimeZone LogStream Thread.

(** ** Levels and source files *)

Inductive LogLevel := TRACE | DEBUG | INFO | WARN | ERROR | FATAL.
#[export] Instance LogLevel_eq_dec : EqDecision LogLevel.
Proof. solve_decision. Defined.

Definition level_number (l : LogLevel) : Z :=
  match l with TRACE => 0 | DEBUG => 1 | INFO => 2 | WARN => 3 | ERROR => 4 | FATAL => 5 end.

(** Whether the two variables are in the environment. *)
Definition initLogLevel (MUDUO_LOG_TRACE MUDUO_LOG_DEBUG : bool) : LogLevel :=
  if MUDUO_LOG_TRACE then TRACE else if MUDUO_LOG_DEBUG then DEBUG else INFO.

Definition LogLevelName (l : LogLevel) : list byte :=
  match l with
  | TRACE => bytes "TRACE "
  | DEBUG => bytes "DEBUG "
  | INFO => bytes "INFO  "
  | WARN => bytes "WARN  "
  | ERROR => bytes "ERROR "
  | FATAL => bytes "FATAL "
  end.

(** A C string in memory *)
Definition c_str (s : list byte) : list byte := s ++ [Byte.x00].

(** [strrchr(mem, c)] for a [c] that is not the terminator: the offset of the last one *)
Definition strrchr (mem : list byte) (c : byte) : outcome (option Z) :=
  let* n := strlen mem in
  let k := std_find c (rev (ztake n mem)) in
  Ret (if decide (k = n) then None else Some (n - 1 - k)).

(** [sf_data]: the bytes from [data_] on. *)
Record SourceFile := mkSource { sf_data : list byte; sf_size : Z }.

(** From an array of [N] characters and from a pointer. *)
Definition sourceFile_of_array (arr : list byte) : outcome SourceFile :=
  let* slash := strrchr arr (z2b 47) in
  Ret (match slash with
       | Some i => mkSource (zdrop (i + 1) arr) (i32 (i32 (zlen arr - 1) - i32 (i + 1)))
       | None => mkSource arr (i32 (zlen arr - 1))
       end).
Definition sourceFile_of_ptr (filename : list byte) : outcome SourceFile :=
  let* slash := strrchr filename (z2b 47) in
  let data := match slash with Some i => zdrop (i + 1) filename | None => filename end in
  let* n := strlen data in
  Ret (mkSource data (i32 n)).

(** ** The logger *)

(** The thread-local variables; [t_time] is the array of 32 characters. *)
Record Tls := mkTls { t_time : list byte; t_lastSecond : Z; current : CurrentThread }.
Definition newTls : Tls := mkTls (replicate 32 Byte.x00) 0 newCurrent.

(** The global variables, what [g_output] was given, and the calls of [g_flush]. *)
Record Globals := mkGlobals { g_logLevel : LogLevel; g_logTimeZone : TimeZone; output : list (list byte); flushes : nat }.
Definition setLogLevel (l : LogLevel) (g : Globals) : Globals := mkGlobals l (g_logTimeZone g) (output g) (flushes g).
Definition setTimeZone (tz : TimeZone) (g : Globals) : Globals := mkGlobals (g_logLevel g) tz (output g) (flushes g).

(** [T(str, len)] and its insertion *)
Definition put_T (str : list byte) (len : Z) (s : LogStream) : outcome LogStream :=
  let* n := strlen str in
  assert* bool_decide (n = len) in
  LogStream.append str len s.
Definition put_SourceFile (v : SourceFile) (s : LogStream) : outcome LogStream := LogStream.append (sf_data v) (sf_size v) s.

Definition format_ctm (t : ctm) : list byte :=
  format_tm (mkTm (t_year t) (t_mon t) (t_mday t) (t_hour t) (t_min t) (t_sec t)).

Create HintDb nul.

Section Logger.
Context {double : Type} (print_g : double -> list byte).
Context (gmtime_r : Z -> ctm) (strerror : Z -> list byte).
(** [gettid()] of a thread *)
Context (gettid : nat -> Z).
(** what is in the memory of a new stream *)
Context (memory : list byte).

(** The broken-down time of a second. *)
Definition broken_down (tz : TimeZone) (seconds : Z) : outcome ctm :=
  if tz_valid tz then toLocalTime gmtime_r seconds tz else Ret (gmtime_r seconds).

Definition refresh (tz : TimeZone) (seconds : Z) (t : Tls) : outcome Tls :=
  if decide (seconds <> t_lastSecond t) then
    let* tm := broken_down tz seconds in
    let text := format_ctm tm in
    let* mem := store 0 (c_str (snprintf 32 text)) (t_time t) in
    assert* bool_decide (i32 (zlen text) = 17) in
    Ret (mkTls mem seconds (current t))
  else Ret t.

Definition formatTime (tz : TimeZone) (time_ : Z) (t : Tls) (s : LogStream) : outcome (Tls * LogStream) :=
  let seconds := time_ /c kMicroSecondsPerSecond in
  let microseconds := i32 (time_ %c kMicroSecondsPerSecond) in
  let* t := refresh tz seconds t in
  if tz_valid tz then
    let* us := newFmt (bytes "." ++ fmt_0d 6 microseconds ++ bytes " ") in
    assert* bool_decide (length_ us = 8) in
    let* s := put_T (t_time t) 17 s in
    let* s := put_T (c_str (buf_ us)) 8 s in
    Ret (t, s)
  else
    let* us := newFmt (bytes "." ++ fmt_0d 6 microseconds ++ bytes "Z ") in
    assert* bool_decide (length_ us = 9) in
    let* s := put_T (t_time t) 17 s in
    let* s := put_T (c_str (buf_ us)) 9 s in
    Ret (t, s).

Record Impl := mkImpl { stream_ : LogStream; level_ : LogLevel; line_ : Z; basename_ : SourceFile }.
Definition set_stream (s : LogStream) (i : Impl) : Impl := mkImpl s (level_ i) (line_ i) (basename_ i).

Definition put_errno (savedErrno : Z) (s : LogStream) : outcome LogStream :=
  if decide (savedErrno <> 0) then
    let* s := put_cstr (Some (c_str (strerror savedErrno))) s in
    let* s := put_cstr (Some (c_str (bytes " (errno="))) s in
    let* s := formatInteger savedErrno s in
    put_cstr (Some (c_str (bytes ") "))) s
  else Ret s.

(** [Impl(level, savedErrno, file, line)] in thread [th] at time [now] *)
Definition newImpl (th : nat) (now : Z) (tz : TimeZone) (level : LogLevel) (savedErrno : Z) (file : SourceFile) (line : Z) (t : Tls) :
    outcome (Impl * Tls) :=
  let* (t, s) := formatTime tz now t (FixedBuf.new memory) in
  let t := mkTls (t_time t) (t_lastSecond t) (tid (gettid th) (current t)).2 in
  let* s := put_T (c_str (t_tidString (current t))) (t_tidStringLength (current t)) s in
  let* s := put_T (c_str (LogLevelName level)) 6 s in
  let* s := put_errno savedErrno s in
  Ret (mkImpl s level line file, t).

Definition finish (i : Impl) : outcome Impl :=
  let* s := put_cstr (Some (c_str (bytes " - "))) (stream_ i) in
  let* s := put_SourceFile (basename_ i) s in
  let* s := put_char (z2b 58) s in
  let* s := formatInteger (line_ i) s in
  let* s := put_char (z2b 10) s in
  Ret (set_stream s i).

(** The macros; [func] is [__func__]. *)
Inductive macro :=
  | LOG_TRACE (func : list byte) | LOG_DEBUG (func : list byte) | LOG_INFO | LOG_WARN | LOG_ERROR | LOG_FATAL | LOG_SYSERR | LOG_SYSFATAL.

Definition macro_level (k : macro) : LogLevel :=
  match k with
  | LOG_TRACE _ => TRACE | LOG_DEBUG _ => DEBUG | LOG_INFO => INFO | LOG_WARN => WARN
  | LOG_ERROR | LOG_SYSERR => ERROR
  | LOG_FATAL | LOG_SYSFATAL => FATAL
  end.
(** The condition in front of the logger. *)
Definition macro_enabled (k : macro) (logLevel : LogLevel) : bool :=
  match k with
  | LOG_TRACE _ | LOG_DEBUG _ | LOG_INFO => bool_decide (level_number logLevel <= level_number (macro_level k))
  | _ => true
  end.

(** The constructors of [Logger]. *)
Definition newLogger (k : macro) (th : nat) (now errno : Z) (tz : TimeZone) (file : SourceFile) (line : Z) (t : Tls) : outcome (Impl * Tls) :=
  match k with
  | LOG_TRACE func | LOG_DEBUG func =>
      let* (i, t) := newImpl th now tz (macro_level k) 0 file line t in
      let* s := put_cstr (Some (c_str func)) (stream_ i) in
      let* s := put_char (z2b 32) s in
      Ret (set_stream s i, t)
  | LOG_SYSERR | LOG_SYSFATAL => newImpl th now tz (macro_level k) errno file line t
  | LOG_INFO | LOG_WARN | LOG_ERROR | LOG_FATAL => newImpl th now tz (macro_level k) 0 file line t
  end.

(** [~Logger]: whether it aborts *)
Definition destroyLogger (i : Impl) (g : Globals) : outcome (bool * Globals) :=
  let* i := finish i in
  let* msg := load (FixedBuf.length (stream_ i)) (data_ (stream_ i)) in
  let g := mkGlobals (g_logLevel g) (g_logTimeZone g) (output g ++ [msg]) (flushes g) in
  if decide (level_ i = FATAL) then
    Ret (true, mkGlobals (g_logLevel g) (g_logTimeZone g) (output g) (S (flushes g)))
  else Ret (false, g).

(** A statement: [macro << item << ... << item;] at a line of a file, in a thread. *)
Record statement := mkStatement {
  s_thread : nat; s_now : Z; s_errno : Z; s_macro : macro; s_file : list byte; s_line : Z; s_items : list (item (double := double))
}.

Definition LOG (st : statement) (g : Globals) (t : Tls) : outcome (bool * Globals * Tls) :=
  if macro_enabled (s_macro st) (g_logLevel g) then
    let* file := sourceFile_of_array (c_str (s_file st)) in
    let* (i, t) := newLogger (s_macro st) (s_thread st) (s_now st) (s_errno st) (g_logTimeZone g) file (s_line st) t in
    let* s := put_all print_g (s_items st) (stream_ i) in
    let* (aborts, g) := destroyLogger (set_stream s i) g in
    Ret (aborts, g, t)
  else Ret (false, g, t).

(** Statements of many threads, one after the other, until one aborts the process. *)
Fixpoint log_all (sts : list statement) (g : Globals) (tls : gmap nat Tls) : outcome (bool * Globals * gmap nat Tls) :=
  match sts with
  | [] => Ret (false, g, tls)
  | st :: sts =>
      let* (aborts, g, t) := LOG st g (default newTls (tls !! s_thread st)) in
      let tls := <[s_thread st := t]> tls in
      if aborts : bool then Ret (true, g, tls) else log_all sts g tls
  end.

(** ** What a line should be *)

(** The name after the last slash. *)
Fixpoint basename (f : list byte) : list byte :=
  match f with
  | [] => []
  | _ :: f' => if decide (z2b 47 ∈ f) then basename f' else f
  end.

Definition time_text (tz : TimeZone) (seconds : Z) : list byte :=
  match broken_down tz seconds with Ret c => format_ctm c | Stop _ => [] end.
Definition micro_text (tz : TimeZone) (now : Z) : list byte :=
  bytes "." ++ fmt_0d 6 (now mod kMicroSecondsPerSecond) ++ (if tz_valid tz then bytes " " else bytes "Z ").
Definition tid_text (th : nat) : list byte := fmt_pd 5 (gettid th) ++ bytes " ".
Definition errno_items (e : Z) : list (item (double := double)) :=
  if decide (e <> 0) then [IString (strerror e); IString (bytes " (errno="); IInteger e; IString (bytes ") ")] else [].
Definition macro_items (k : macro) (errno : Z) : list (item (double := double)) :=
  match k with
  | LOG_TRACE func | LOG_DEBUG func => [IString func; IChar (z2b 32)]
  | LOG_SYSERR | LOG_SYSFATAL => errno_items errno
  | _ => []
  end.

(** Everything that is inserted into the stream of a statement. *)
Definition line_items (tz : TimeZone) (st : statement) : list (item (double := double)) :=
  [IString (time_text tz (s_now st / kMicroSecondsPerSecond)); IString (micro_text tz (s_now st));
   IString (tid_text (s_thread st)); IString (LogLevelName (macro_level (s_macro st)))] ++
  macro_items (s_macro st) (s_errno st) ++ s_items st ++
  [IString (bytes " - "); IString (basename (s_file st)); IChar (z2b 58); IInteger (s_line st); IChar (z2b 10)].

(** The line, within the 4000 bytes of the stream. *)
Definition add_all (its : list (item (double := double))) (t : list byte) : list byte :=
  fold_left (fun t it => add_text print_g it t) its t.
Definition line (tz : TimeZone) (st : statement) : list byte := add_all (line_items tz st) [].

Fixpoint up_to_fatal (sts : list statement) : list statement :=
  match sts with
  | [] => []
  | st :: sts => if decide (macro_level (s_macro st) = FATAL) then [st] else st :: up_to_fatal sts
  end.

(** ** C strings *)

Definition nul_free (l : list byte) : Prop := Byte.x00 ∉ l.

Lemma nul_free_app l k : nul_free l -> nul_free k -> nul_free (l ++ k).
Proof. unfold nul_free. rewrite not_elem_of_app. tauto. Qed.

Lemma strlen_nul s rest : nul_free s -> strlen (s ++ Byte.x00 :: rest) = Ret (zlen s).
Proof.
  intros N. unfold strlen, memchr. rewrite std_find_app by done. rewrite decide_False; [done|].
  rewrite zlen_app, zlen_cons. zlen_pos. lia.
Qed.

Lemma nul_free_digits l : Forall (fun b => is_digit b = true) l -> nul_free l.
Proof. intros F E. rewrite Forall_forall in F. specialize (F _ E). by vm_compute in F. Qed.

Lemma nul_free_replicate n b : b <> Byte.x00 -> nul_free (replicate n b).
Proof. intros N E. apply elem_of_replicate in E as [<- _]. done. Qed.

Lemma nul_free_fmt_d z : nul_free (fmt_d z).
Proof.
  unfold fmt_d. case_decide; [|apply nul_free_digits, udec_digits; lia].
  intros [E|E]%elem_of_cons; [done|]. revert E. apply nul_free_digits, udec_digits. lia.
Qed.
Lemma nul_free_fmt_0d w z : nul_free (fmt_0d w z).
Proof.
  unfold fmt_0d. case_decide; [|apply nul_free_app; [by apply nul_free_replicate|apply nul_free_digits, udec_digits; lia]].
  intros [E|E]%elem_of_cons; [done|]. revert E. apply nul_free_app; [by apply nul_free_replicate|apply nul_free_digits, udec_digits; lia].
Qed.
Lemma nul_free_fmt_pd w z : nul_free (fmt_pd w z).
Proof. apply nul_free_app; [by apply nul_free_replicate|apply nul_free_fmt_d]. Qed.
Lemma nul_free_bool l : bool_decide (Byte.x00 ∉ l) = true -> nul_free l.
Proof. apply bool_decide_eq_true. Qed.

#[local] Hint Resolve nul_free_app nul_free_fmt_d nul_free_fmt_0d nul_free_fmt_pd : nul.
#[local] Hint Extern 1 (nul_free (bytes _)) => apply nul_free_bool; vm_compute; reflexivity : nul.

Lemma nul_free_ctm c : nul_free (format_ctm c).
Proof. unfold format_ctm, format_tm. auto 20 with nul. Qed.

(** The fields that have as many digits as the format gives them. *)
Definition tm_ok (c : ctm) : Prop :=
  0 <= t_year c + 1900 < 10000 /\ 0 <= t_mon c + 1 < 100 /\ 0 <= t_mday c < 100 /\ 0 <= t_hour c < 100 /\ 0 <= t_min c < 100 /\ 0 <= t_sec c < 100.

Lemma fmt_pd_length w z : 0 <= z < 10 ^ Z.of_nat w -> (0 < w)%nat -> length (fmt_pd w z) = w.
Proof.
  intros R W. unfold fmt_pd. rewrite length_app, length_replicate. unfold fmt_d. rewrite decide_False by lia.
  pose proof (udec_length z w R W). lia.
Qed.

Lemma format_ctm_17 c : tm_ok c -> zlen (format_ctm c) = 17.
Proof.
  intros (Y & Mo & D & H & Mi & S). unfold format_ctm, format_tm, zlen. cbn [tm_year tm_mon tm_mday tm_hour tm_min tm_sec].
  rewrite !length_app, fmt_pd_length, !fmt_0d_length by (cbn; lia). done.
Qed.

(** ** The base name *)

Lemma basename_no_slash f : z2b 47 ∉ f -> basename f = f.
Proof. destruct f as [|x f]; [done|]. intros N. cbn. by rewrite decide_False. Qed.

Lemma basename_split f : z2b 47 ∈ f -> exists a, f = a ++ z2b 47 :: basename f /\ z2b 47 ∉ basename f.
Proof.
  induction f as [|x f IH]; intros E; [by apply elem_of_nil in E|]. cbn [basename]. rewrite decide_True by done.
  destruct (decide (z2b 47 ∈ f)) as [E'|N].
  - destruct (IH E') as (a & Ea & N). exists (x :: a). split; [by rewrite Ea at 1|done].
  - rewrite (basename_no_slash f N). apply elem_of_cons in E as [<-|E]; [|done]. by exists [].
Qed.

Lemma basename_short f : zlen (basename f) <= zlen f.
Proof.
  destruct (decide (z2b 47 ∈ f)) as [E|E]; [|by rewrite basename_no_slash].
  destruct (basename_split f E) as (a & Ef & _). rewrite Ef at 2. rewrite zlen_app, zlen_cons. zlen_pos. lia.
Qed.

Lemma strrchr_ok f : nul_free f -> strrchr (c_str f) (z2b 47) =
  Ret (if decide (z2b 47 ∈ f) then Some (zlen f - zlen (basename f) - 1) else None).
Proof.
  intros N. pose proof (zlen_nonneg f). unfold strrchr, c_str. rewrite strlen_nul by done. cbn [obind].
  rewrite ztake_app_l, ztake_all by lia. f_equal. destruct (decide (z2b 47 ∈ f)) as [E|E].
  - destruct (basename_split f E) as (a & Ef & Nb). assert (zlen f = zlen a + 1 + zlen (basename f)) as L.
    { rewrite Ef at 1. rewrite zlen_app, zlen_cons. lia. }
    assert (std_find (z2b 47) (rev f) = zlen (basename f)) as ->.
    { rewrite Ef at 1. rewrite rev_app_distr. cbn [rev]. rewrite <- app_assoc. cbn [app]. rewrite std_find_app; [apply zlen_rev|].
      by rewrite <- Permutation_rev. }
    zlen_pos. rewrite decide_False by lia. f_equal. lia.
  - rewrite std_find_absent by (by rewrite <- Permutation_rev). by rewrite zlen_rev, decide_True.
Qed.

(** Both constructors find it. *)
Lemma sourceFile_ok f : nul_free f -> zlen f < 2 ^ 31 - 1 ->
  sourceFile_of_array (c_str f) = Ret (mkSource (c_str (basename f)) (zlen (basename f))) /\
  sourceFile_of_ptr (c_str f) = Ret (mkSource (c_str (basename f)) (zlen (basename f))).
Proof.
  intros N B. unfold sourceFile_of_array, sourceFile_of_ptr. rewrite strrchr_ok by done. cbn [obind].
  assert (forall b, zlen (c_str b) = zlen b + 1) as Lc by (intros b; unfold c_str; by rewrite zlen_app).
  rewrite Lc. destruct (decide (z2b 47 ∈ f)) as [E|E].
  - destruct (basename_split f E) as (a & Ef & Nb). assert (zlen f = zlen a + 1 + zlen (basename f)) as L.
    { rewrite Ef at 1. rewrite zlen_app, zlen_cons. lia. }
    zlen_pos. assert (zdrop (zlen f - zlen (basename f) - 1 + 1) (c_str f) = c_str (basename f)) as ->.
    { assert (c_str f = (a ++ [z2b 47]) ++ c_str (basename f)) as -> by (rewrite Ef at 1; unfold c_str; by rewrite <- !app_assoc).
      assert (zlen (a ++ [z2b 47]) = zlen a + 1) as La by (by rewrite zlen_app).
      rewrite zdrop_app_r, La by lia. replace (_ - _) with 0 by lia. by rewrite zdrop_0. }
    split.
    + do 2 f_equal. rewrite !swrap_small by (rewrite ?swrap_small; lia). lia.
    + unfold c_str at 1. rewrite strlen_nul.
      * cbn [obind]. rewrite swrap_small by lia. done.
      * intros Eb. apply N. rewrite Ef. apply elem_of_app. right. by apply elem_of_cons; right.
  - rewrite basename_no_slash by done. zlen_pos. split.
    + do 2 f_equal. rewrite swrap_small; lia.
    + unfold c_str at 1. rewrite strlen_nul by done. cbn [obind]. rewrite swrap_small by lia. done.
Qed.

(** ** Operations that insert items *)

Hypothesis print_g_short : forall v, zlen (print_g v) <= 24.

Definition acts (op : LogStream -> outcome LogStream) (its : list (item (double := double))) : Prop :=
  forall s, stream_ok s -> exists s', op s = Ret s' /\ stream_ok s' /\ contents s' = add_all its (contents s).

Lemma add_all_app its its' t : add_all (its ++ its') t = add_all its' (add_all its t).
Proof. apply fold_left_app. Qed.

Lemma acts_ret : acts (fun s => Ret s) [].
Proof. intros s W. by exists s. Qed.
Lemma acts_bind op op' its its' : acts op its -> acts op' its' -> acts (fun s => let* s := op s in op' s) (its ++ its').
Proof.
  intros A A' s W. destruct (A s W) as (s1 & -> & W1 & C1). cbn [obind]. destruct (A' s1 W1) as (s2 & -> & W2 & C2).
  exists s2. by rewrite add_all_app, <- C1.
Qed.
Lemma acts_put it : printable it -> acts (put print_g it) [it].
Proof. intros P s W. by apply put_ok. Qed.
Lemma acts_put_all its : Forall printable its -> acts (put_all print_g its) its.
Proof.
  induction 1 as [|it its P F IH]; [apply acts_ret|]. apply (acts_bind _ _ [it] its); [by apply acts_put|done].
Qed.

Lemma acts_append str rest len : len = zlen str -> len < 2 ^ 31 -> acts (LogStream.append (str ++ rest) len) [IString str].
Proof.
  intros -> B s W. unfold LogStream.append. zlen_pos. rewrite wrap_small by lia.
  destruct (append_put s (str ++ rest) (zlen str) str W) as (s' & E & W' & C); [rewrite zlen_app; zlen_pos; lia|by rewrite ztake_app_l, ztake_all by lia|].
  exists s'. by split_and!.
Qed.
Lemma acts_T str rest len : nul_free str -> len = zlen str -> len < 2 ^ 31 -> acts (put_T (str ++ Byte.x00 :: rest) len) [IString str].
Proof.
  intros N E B s W. unfold put_T. rewrite strlen_nul by done. cbn [obind]. rewrite check_true by (by apply bool_decide_eq_true).
  by apply (acts_append str (Byte.x00 :: rest) len).
Qed.
Lemma acts_T_cstr str len : nul_free str -> len = zlen str -> len < 2 ^ 31 -> acts (put_T (c_str str) len) [IString str].
Proof. apply acts_T. Qed.
Lemma acts_cstr str : nul_free str -> acts (put_cstr (Some (c_str str))) [IString str].
Proof.
  intros N s W. destruct (acts_put (ICStr (Some (c_str str)))) with (s := s) as (s' & E & W' & C); [|done|].
  { cbn. apply elem_of_app. right. by apply list_elem_of_singleton. }
  exists s'. split_and!; [done|done|]. rewrite C. unfold add_all, c_str. cbn [fold_left]. unfold add_text. cbn [numeric text].
  rewrite std_find_app by done. pose proof (zlen_nonneg str). by rewrite ztake_app_l, ztake_all by lia.
Qed.

(** ** Loggers *)

(** A zone in which every second of a range has a date of four digits for the year; the
    cache starts at second 0, which the range leaves out. *)
Context (tz : TimeZone) (lo hi : Z).
Hypothesis range_ok : 0 < lo /\ hi < 2 ^ 40.
Hypothesis clock_ok : forall s, lo <= s <= hi -> exists c, broken_down tz s = Ret c /\ tm_ok c.
Hypothesis gettid_ok : forall th, 0 < gettid th < 2 ^ 31.
Hypothesis strerror_ok : forall e, nul_free (strerror e).
Hypothesis memory_ok : zlen memory = kSmallBuffer.

Definition cached_time (t : Tls) : Prop :=
  t_lastSecond t = 0 \/
  lo <= t_lastSecond t <= hi /\ exists rest, t_time t = time_text tz (t_lastSecond t) ++ Byte.x00 :: rest.
Definition cached_tid (th : nat) (c : CurrentThread) : Prop :=
  t_cachedTid c = 0 \/ t_tidString c = tid_text th /\ t_tidStringLength c = zlen (tid_text th).
Definition tls_ok (th : nat) (t : Tls) : Prop := zlen (t_time t) = 32 /\ cached_time t /\ cached_tid th (current t).

Lemma time_text_ok s : lo <= s <= hi -> exists c, broken_down tz s = Ret c /\ tm_ok c /\ time_text tz s = format_ctm c.
Proof. intros R. destruct (clock_ok s R) as (c & E & O). exists c. unfold time_text. by rewrite E. Qed.

(** After [refresh] the cache holds the text of the second, wherever it came from. *)
Lemma refresh_ok th s t : tls_ok th t -> lo <= s <= hi ->
  exists t' rest, refresh tz s t = Ret t' /\ tls_ok th t' /\ t_time t' = time_text tz s ++ Byte.x00 :: rest /\ current t' = current t.
Proof.
  intros (L & C & T) R. unfold refresh. destruct (decide (s <> t_lastSecond t)) as [D|D].
  - destruct (time_text_ok s R) as (c & -> & O & Et). cbn [obind]. pose proof (format_ctm_17 c O) as L17.
    unfold snprintf. rewrite ztake_all by lia. rewrite store_ok by (unfold c_str; zlia). cbn [obind].
    rewrite L17, check_true by done. unfold overwrite, c_str. rewrite ztake_0 by lia. cbn [app]. rewrite <- app_assoc. cbn [app].
    eexists _, _. split; [reflexivity|]. rewrite Et. cbn [t_time current]. split; [|done]. split; [|split; [|done]]; cbn [t_time].
    + rewrite zlen_app, zlen_cons, zlen_zdrop by zlia. zlia.
    + right. cbn. split; [done|]. rewrite Et. by eexists.
  - destruct C as [C|(C & rest & E)]; [lia|]. exists t, rest. replace s with (t_lastSecond t) by lia. split_and!; [done|split_and!; [done|right; eauto|done]|done|done].
Qed.

Lemma micro_ok now : 0 <= now -> i32 (now %c kMicroSecondsPerSecond) = now mod kMicroSecondsPerSecond /\
  0 <= now mod kMicroSecondsPerSecond < 10 ^ 6 /\ now /c kMicroSecondsPerSecond = now / kMicroSecondsPerSecond.
Proof.
  intros P. unfold kMicroSecondsPerSecond. rewrite Z.rem_mod_nonneg, Z.quot_div_nonneg by lia.
  pose proof (Z.mod_pos_bound now (1000 * 1000) ltac:(lia)). rewrite swrap_small by lia. lia.
Qed.

Lemma newFmt_ok us : zlen us < 32 -> newFmt us = Ret (mkFmt us (zlen us)).
Proof.
  intros B. zlen_pos. unfold newFmt, snprintf. rewrite swrap_small, wrap_small by lia.
  rewrite check_true by (by apply bool_decide_eq_true). by rewrite ztake_all by lia.
Qed.

Definition in_range (now : Z) : Prop := lo <= now / kMicroSecondsPerSecond <= hi.

Lemma formatTime_ok th now t s : tls_ok th t -> in_range now -> stream_ok s ->
  exists t' s', formatTime tz now t s = Ret (t', s') /\ tls_ok th t' /\ stream_ok s' /\
    contents s' = add_all [IString (time_text tz (now / kMicroSecondsPerSecond)); IString (micro_text tz now)] (contents s).
Proof.
  intros T R W. unfold in_range in R. assert (0 <= now) as P.
  { destruct (decide (0 <= now)); [done|]. pose proof (Z.div_lt_upper_bound now kMicroSecondsPerSecond 0). unfold kMicroSecondsPerSecond in *. lia. }
  unfold formatTime. destruct (micro_ok now P) as (-> & B & ->).
  destruct (refresh_ok th _ t T R) as (t' & rest & -> & T' & Et & _). cbn [obind]. rewrite Et.
  destruct (time_text_ok _ R) as (c & _ & O & Ec).
  assert (nul_free (time_text tz (now / kMicroSecondsPerSecond))) as N17 by (rewrite Ec; apply nul_free_ctm).
  pose proof (format_ctm_17 c O) as L17. rewrite <- Ec in L17.
  assert (zlen (fmt_0d 6 (now mod kMicroSecondsPerSecond)) = 6) as L6 by (unfold zlen; rewrite fmt_0d_length; [done|lia|lia]).
  assert (forall us n, nul_free us -> zlen us = n -> n < 32 -> exists s',
    (let* us := newFmt us in assert* bool_decide (length_ us = n) in
     let* s := put_T (time_text tz (now / kMicroSecondsPerSecond) ++ Byte.x00 :: rest) 17 s in
     let* s := put_T (c_str (buf_ us)) n s in Ret (t', s)) = Ret (t', s') /\
    stream_ok s' /\ contents s' = add_all [IString (time_text tz (now / kMicroSecondsPerSecond)); IString us] (contents s)) as K.
  { intros us n Nu Ln Bn. rewrite newFmt_ok by lia. cbn [obind length_ buf_]. rewrite check_true by (by apply bool_decide_eq_true).
    destruct (acts_T _ rest 17 N17 ltac:(done) ltac:(done) s W) as (s1 & -> & W1 & C1). cbn [obind].
    destruct (acts_T_cstr us n Nu ltac:(done) ltac:(lia) s1 W1) as (s2 & -> & W2 & C2). cbn [obind].
    exists s2. split_and!; [done|done|]. by rewrite C2, C1. }
  unfold micro_text. destruct (tz_valid tz);
    match goal with |- context [newFmt ?us] => destruct (K us (zlen us)) as (s' & E & Ws & Cs);
      [auto 10 with nul|done|rewrite !zlen_app, L6; done|rewrite !zlen_app, L6 in E] end;
    exists t', s'; by split_and!.
Qed.

Lemma tid_text_ok th : nul_free (tid_text th) /\ zlen (tid_text th) < 32.
Proof.
  unfold tid_text. split; [auto with nul|]. pose proof (gettid_ok th) as B. unfold fmt_pd, fmt_d. rewrite decide_False by lia.
  pose proof (udec_length (gettid th) 10 ltac:(cbn; lia) ltac:(lia)). unfold zlen. rewrite !length_app, length_replicate. change (length (bytes " ")) with 1%nat. lia.
Qed.

Lemma tid_ok th c : cached_tid th c ->
  let c' := (tid (gettid th) c).2 in t_tidString c' = tid_text th /\ t_tidStringLength c' = zlen (tid_text th) /\ cached_tid th c'.
Proof.
  intros C. unfold tid, cacheTid. destruct (tid_text_ok th) as [_ L]. cbn [snd]. destruct (decide (t_cachedTid c = 0)) as [D|D].
  - cbn [t_tidString t_tidStringLength]. change (fmt_pd 5 (gettid th) ++ bytes " ") with (tid_text th). unfold snprintf.
    rewrite ztake_all by lia. split_and!; [done|done|by right].
  - destruct C as [C|[C1 C2]]; [done|]. split_and!; [done|done|by right].
Qed.

Lemma acts_level l : acts (put_T (c_str (LogLevelName l)) 6) [IString (LogLevelName l)].
Proof. apply acts_T_cstr; [|by destruct l|done]. destruct l; cbn [LogLevelName]; auto with nul. Qed.

Lemma acts_errno e : - 2 ^ 31 <= e < 2 ^ 31 -> acts (put_errno e) (errno_items e).
Proof.
  intros B. unfold put_errno, errno_items. destruct (decide (e <> 0)); [|apply acts_ret].
  apply (acts_bind _ _ [_] [_; _; _]); [apply acts_cstr, strerror_ok|].
  apply (acts_bind _ _ [_] [_; _]); [apply acts_cstr; auto with nul|].
  apply (acts_bind _ _ [_] [_]); [apply (acts_put (IInteger e)); cbn; lia|apply acts_cstr; auto with nul].
Qed.

Lemma new_stream_ok : stream_ok (FixedBuf.new memory) /\ contents (FixedBuf.new memory) = [].
Proof. split; [split; [unfold kSmallBuffer; cbn; lia|done]|]. by apply ztake_0. Qed.

Definition head_items (th : nat) (now : Z) (l : LogLevel) : list (item (double := double)) :=
  [IString (time_text tz (now / kMicroSecondsPerSecond)); IString (micro_text tz now); IString (tid_text th); IString (LogLevelName l)].

Lemma newImpl_ok th now l e file line t : tls_ok th t -> in_range now -> - 2 ^ 31 <= e < 2 ^ 31 ->
  exists s t', newImpl th now tz l e file line t = Ret (mkImpl s l line file, t') /\ tls_ok th t' /\ stream_ok s /\
    contents s = add_all (head_items th now l ++ errno_items e) [].
Proof.
  intros T R B. unfold newImpl. destruct new_stream_ok as [W0 C0].
  destruct (formatTime_ok th now t _ T R W0) as (t1 & s1 & -> & T1 & W1 & C1). cbn [obind].
  destruct T1 as (L1 & Ct & Ci). destruct (tid_ok th (current t1) Ci) as (E1 & E2 & Ci'). cbn [current]. rewrite E1, E2.
  destruct (tid_text_ok th) as [Nt Lt].
  destruct (acts_T_cstr _ _ Nt eq_refl ltac:(lia) s1 W1) as (s2 & -> & W2 & C2). cbn [obind].
  destruct (acts_bind _ _ _ _ (acts_level l) (acts_errno e B) s2 W2) as (s3 & E3 & W3 & C3).
  destruct (put_T (c_str (LogLevelName l)) 6 s2) as [s2'|] eqn:El; [|done]. cbn [obind] in *. rewrite E3. cbn [obind].
  eexists _, _. split; [reflexivity|]. split; [|split; [done|]].
  - split_and!; [done|exact Ct|done].
  - rewrite C3, C2, C1, C0. unfold head_items. by rewrite <- !add_all_app.
Qed.

(** What a statement may ask for. *)
Definition macro_ok (k : macro) : Prop := match k with LOG_TRACE func | LOG_DEBUG func => nul_free func | _ => True end.
Record statement_ok (st : statement) : Prop := mkStatementOk {
  so_now : in_range (s_now st);
  so_errno : - 2 ^ 31 <= s_errno st < 2 ^ 31;
  so_macro : macro_ok (s_macro st);
  so_file : nul_free (s_file st) /\ zlen (s_file st) < 2 ^ 31 - 1;
  so_line : - 2 ^ 31 <= s_line st < 2 ^ 31;
  so_items : Forall printable (s_items st)
}.

Lemma newLogger_ok k th now e file line t : tls_ok th t -> in_range now -> - 2 ^ 31 <= e < 2 ^ 31 -> macro_ok k ->
  exists s t', newLogger k th now e tz file line t = Ret (mkImpl s (macro_level k) line file, t') /\ tls_ok th t' /\ stream_ok s /\
    contents s = add_all (head_items th now (macro_level k) ++ macro_items k e) [].
Proof.
  intros T R B M.
  assert (forall func l, nul_free func -> exists s t', (let* (i, t) := newImpl th now tz l 0 file line t in
      let* s := put_cstr (Some (c_str func)) (stream_ i) in let* s := put_char (z2b 32) s in Ret (set_stream s i, t)) =
      Ret (mkImpl s l line file, t') /\ tls_ok th t' /\ stream_ok s /\
      contents s = add_all (head_items th now l ++ [IString func; IChar (z2b 32)]) []) as K.
  { intros func l N. destruct (newImpl_ok th now l 0 file line t T R ltac:(lia)) as (s & t' & -> & T' & W & C). cbn [obind stream_].
    destruct (acts_cstr func N s W) as (s1 & -> & W1 & C1). cbn [obind].
    destruct (acts_put (IChar (z2b 32)) Logic.I s1 W1) as (s2 & E2 & W2 & C2). cbn [put] in E2. rewrite E2. cbn [obind].
    eexists _, _. split; [reflexivity|]. split_and!; [done|done|]. rewrite C2, C1, C, app_nil_r. by rewrite <- !add_all_app. }
  destruct k; cbn [newLogger macro_level macro_items]; [by apply K|by apply K|..]; apply newImpl_ok; done || lia.
Qed.

Lemma finish_ok i : stream_ok (stream_ i) -> - 2 ^ 31 <= line_ i < 2 ^ 31 ->
  (exists b, basename_ i = mkSource (c_str b) (zlen b) /\ zlen b < 2 ^ 31) ->
  exists s b, basename_ i = mkSource (c_str b) (zlen b) /\ finish i = Ret (set_stream s i) /\ stream_ok s /\
    contents s = add_all [IString (bytes " - "); IString b; IChar (z2b 58); IInteger (line_ i); IChar (z2b 10)] (contents (stream_ i)).
Proof.
  intros W B (b & Eb & Lb). unfold finish. rewrite Eb.
  destruct (acts_cstr (bytes " - ") ltac:(auto with nul) _ W) as (s1 & -> & W1 & C1). cbn [obind].
  destruct (acts_append b [Byte.x00] _ eq_refl Lb s1 W1) as (s2 & E2 & W2 & C2). unfold put_SourceFile. cbn [sf_data sf_size].
  change (c_str b) with (b ++ [Byte.x00]). rewrite E2. cbn [obind].
  destruct (acts_put (IChar (z2b 58)) Logic.I s2 W2) as (s3 & E3 & W3 & C3). cbn [put] in E3. rewrite E3. cbn [obind].
  destruct (acts_put (IInteger (line_ i)) ltac:(cbn; lia) s3 W3) as (s4 & E4 & W4 & C4). cbn [put] in E4. rewrite E4. cbn [obind].
  destruct (acts_put (IChar (z2b 10)) Logic.I s4 W4) as (s5 & E5 & W5 & C5). cbn [put] in E5. rewrite E5. cbn [obind].
  exists s5, b. split_and!; [done|done|done|]. by rewrite C5, C4, C3, C2, C1, <- !add_all_app.
Qed.

Lemma LOG_ok st g t : g_logTimeZone g = tz -> statement_ok st -> tls_ok (s_thread st) t -> macro_enabled (s_macro st) (g_logLevel g) = true ->
  exists t', LOG st g t = Ret (bool_decide (macro_level (s_macro st) = FATAL),
      mkGlobals (g_logLevel g) tz (output g ++ [line tz st]) (flushes g + (if decide (macro_level (s_macro st) = FATAL) then 1 else 0)), t') /\
    tls_ok (s_thread st) t'.
Proof.
  intros Ez [Rn Re Rm [Nf Lf] Rl Ri] T En. unfold LOG. rewrite En, Ez.
  destruct (sourceFile_ok (s_file st) Nf Lf) as [-> _]. cbn [obind].
  destruct (newLogger_ok (s_macro st) (s_thread st) (s_now st) (s_errno st) (mkSource (c_str (basename (s_file st))) (zlen (basename (s_file st))))
    (s_line st) t T Rn Re Rm) as (s & t' & -> & T' & W & C). cbn [obind stream_].
  destruct (acts_put_all (s_items st) Ri s W) as (s1 & -> & W1 & C1). cbn [obind]. unfold destroyLogger.
  destruct (finish_ok (set_stream s1 (mkImpl s (macro_level (s_macro st)) (s_line st)
    (mkSource (c_str (basename (s_file st))) (zlen (basename (s_file st))))))) as (s2 & b & Eb & E2 & W2 & C2); [done|done| |].
  { eexists. split; [reflexivity|]. pose proof (basename_short (s_file st)). lia. }
  rewrite E2. cbn [obind set_stream stream_ level_]. injection Eb as Eb _. apply app_inj_tail in Eb as [<- _].
  destruct W2 as [W2 L2]. unfold FixedBuf.length. rewrite swrap_small by (unfold kSmallBuffer in *; lia). rewrite load_ok by lia. cbn [obind].
  assert (ztake (cur_ s2) (data_ s2) = line tz st) as ->.
  { change (ztake (cur_ s2) (data_ s2)) with (contents s2). rewrite C2. cbn [set_stream stream_ line_]. rewrite C1, C.
    unfold line, line_items. by rewrite !add_all_app. }
  exists t'. split; [|done]. cbn [g_logLevel g_logTimeZone output flushes]. rewrite Ez. destruct (decide (macro_level (s_macro st) = FATAL)) as [F|F].
  - rewrite bool_decide_eq_true_2 by done. cbn [obind]. do 4 f_equal. lia.
  - rewrite bool_decide_eq_false_2 by done. cbn [obind]. do 4 f_equal. lia.
Qed.

Definition all_ok (tls : gmap nat Tls) : Prop := forall th t, tls !! th = Some t -> tls_ok th t.

Lemma newTls_ok th : tls_ok th newTls.
Proof. split_and!; [done|by left|by left]. Qed.

Lemma log_all_ok sts g tls : g_logTimeZone g = tz -> Forall statement_ok sts -> all_ok tls ->
  let logged := up_to_fatal (filter (fun st => macro_enabled (s_macro st) (g_logLevel g) = true) sts) in
  exists aborts tls', log_all sts g tls =
    Ret (aborts, mkGlobals (g_logLevel g) tz (output g ++ map (line tz) logged) (flushes g + (if aborts : bool then 1 else 0)), tls') /\
    (aborts = true <-> exists st, last logged = Some st /\ macro_level (s_macro st) = FATAL).
Proof.
  intros Ez F. revert g tls Ez. induction F as [|st sts S F IH]; intros g tls Ez A logged; cbn [log_all].
  - exists false, tls. subst logged. cbn. destruct g; cbn in *. rewrite Ez, app_nil_r, Nat.add_0_r. split; [done|].
    split; [done|]. by intros (st & E & _).
  - assert (tls_ok (s_thread st) (default newTls (tls !! s_thread st))) as T.
    { destruct (tls !! s_thread st) as [t|] eqn:Et; [by apply A|apply newTls_ok]. }
    subst logged. rewrite filter_cons. destruct (decide (macro_enabled (s_macro st) (g_logLevel g) = true)) as [En|En].
    + destruct (LOG_ok st g _ Ez S T En) as (t' & -> & T'). cbn [obind up_to_fatal].
      destruct (decide (macro_level (s_macro st) = FATAL)) as [Fa|Fa].
      * rewrite bool_decide_eq_true_2 by done. eexists true, _. split; [reflexivity|]. split; [|done]. intros _. by exists st.
      * rewrite bool_decide_eq_false_2 by done. rewrite Nat.add_0_r.
        destruct (IH (mkGlobals (g_logLevel g) tz (output g ++ [line tz st]) (flushes g)) (<[s_thread st := t']> tls)) as (ab & tls' & -> & Hab); [done| |].
        { intros th t. rewrite lookup_insert_Some. intros [[<- <-]|[_ E]]; [done|by apply A]. }
        cbn [g_logLevel output flushes] in *. exists ab, tls'. rewrite <- app_assoc. split; [done|]. rewrite Hab.
        split; intros (x & E & Fx); exists x; (split; [|done]).
        -- by rewrite last_cons, E.
        -- rewrite last_cons in E. destruct (last _); [done|]. congruence.
    + unfold LOG at 1. destruct (macro_enabled (s_macro st) (g_logLevel g)); [done|]. cbn [obind].
      apply IH; [done|]. intros th t. rewrite lookup_insert_Some. intros [[<- <-]|[_ E]]; [done|by apply A].
Qed.

(** A line that fits is the text of all its items. *)
Lemma add_all_fits its t : zlen t + zlen (concat (map (text print_g) its)) + kMaxNumericSize <= kSmallBuffer ->
  add_all its t = t ++ concat (map (text print_g) its).
Proof.
  revert t. induction its as [|it its IH]; intros t B; cbn [map concat] in *; [by rewrite app_nil_r|].
  rewrite zlen_app in B. unfold add_all. cbn [fold_left]. unfold add_text at 2. zlen_pos.
  assert ((if numeric it then bool_decide (kMaxNumericSize <= kSmallBuffer - zlen t)
           else bool_decide (zlen (text print_g it) < kSmallBuffer - zlen t)) = true) as ->.
  { unfold kMaxNumericSize in *. destruct (numeric it); apply bool_decide_eq_true; lia. }
  change (fold_left _ its ?x) with (add_all its x). rewrite IH by (rewrite zlen_app; lia). by rewrite app_assoc.
Qed.

(** C32. Every statement logs its own line. With one time zone throughout, for any
    statements of any threads: the statements whose level is enabled, up to the first
    fatal one, each give [g_output] exactly one line, in order; the line has the time of the
    statement in the zone (as [formatTime] would print it without its cache), the
    number of the thread, the level, the error, the items inserted and the base name and line of the
    source, and is the text of all of them when it fits in the buffer; a fatal statement flushes and aborts, and nothing else does. *)
Theorem log_lines sts g : g_logTimeZone g = tz -> Forall statement_ok sts ->
  let logged := up_to_fatal (filter (fun st => macro_enabled (s_macro st) (g_logLevel g) = true) sts) in
  exists aborts tls, log_all sts g ∅ =
      Ret (aborts, mkGlobals (g_logLevel g) tz (output g ++ map (line tz) logged) (flushes g + (if aborts : bool then 1 else 0)), tls) /\
    (aborts = true <-> exists st, last logged = Some st /\ macro_level (s_macro st) = FATAL) /\
    (forall st, let whole := concat (map (text print_g) (line_items tz st)) in zlen whole + kMaxNumericSize <= kSmallBuffer -> line tz st = whole).
Proof.
  intros Ez F. destruct (log_all_ok sts g ∅ Ez F) as (ab & tls & E & H); [by intros th t Et; rewrite lookup_empty in Et|].
  exists ab, tls. split_and!; [done|done|]. intros st whole B. by apply (add_all_fits (line_items tz st) []).
Qed.
End Logger.

(** ** Examples *)

Definition w_print (_ : Empty_set) : list byte := [].
Definition w_gmtime (s : Z) : ctm := toUtcTime s true.
Definition w_tid (th : nat) : Z := 4000 + Z.of_nat (th `mod` 2).
Definition w_strerror (_ : Z) : list byte := bytes "No such file or directory".
Definition w_memory : list byte := replicate 4000 Byte.x00.
Definition w_globals (tz : TimeZone) : Globals := mkGlobals INFO tz [] 0.
(** Two threads in the same second: an error, a trace that is not enabled, a fatal
    error, and a statement that is never reached. *)
Definition w_statements : list (statement (double := Empty_set)) :=
  [mkStatement 0 1000000000000001 0 LOG_INFO (bytes "src/net/Acceptor.cc") 12 [IString (bytes "n = "); IInteger 42];
   mkStatement 1 1000000000000002 2 LOG_SYSERR (bytes "a.cc") 7 [IString (bytes "open")];
   mkStatement 0 1000000000999999 0 (LOG_TRACE (bytes "f")) (bytes "a.cc") 8 [];
   mkStatement 0 1000000001000000 0 LOG_FATAL (bytes "/x/b.cc") 9 [IBool true];
   mkStatement 1 1000000001000000 0 LOG_WARN (bytes "a.cc") 10 []].

Lemma log_lines_witness : exists tls, log_all w_print w_gmtime w_strerror w_tid w_memory w_statements (w_globals None) ∅ =
  Ret (true, mkGlobals INFO None
    [bytes "20010909 01:46:40.000001Z  4000 INFO  n = 42 - Acceptor.cc:12" ++ [z2b 10];
     bytes "20010909 01:46:40.000002Z  4001 ERROR No such file or directory (errno=2) open - a.cc:7" ++ [z2b 10];
     bytes "20010909 01:46:41.000000Z  4000 FATAL 1 - b.cc:9" ++ [z2b 10]] 1, tls).
Proof.
  destruct (log_lines w_print w_gmtime w_strerror w_tid w_memory ltac:(done) None 1000000000 1000000001 ltac:(lia)) with
    (sts := w_statements) (g := w_globals None) as (ab & tls & E & H & _).
  - intros s R. assert (s = 1000000000 \/ s = 1000000001) as [-> | ->] by lia; eexists; (split; [reflexivity|]);
      repeat split; apply Z.leb_le || apply Z.ltb_lt; vm_compute; reflexivity.
  - intros th. unfold w_tid. pose proof (Nat.mod_upper_bound th 2 ltac:(lia)). lia.
  - intros e. apply nul_free_bool. vm_compute. reflexivity.
  - vm_compute. reflexivity.
  - reflexivity.
  - repeat constructor; try (vm_compute; (reflexivity || discriminate)); apply nul_free_bool; vm_compute; reflexivity.
  - exists tls. rewrite E. destruct ab; [reflexivity|]. destruct H as [_ H]. discriminate H.
    eexists. split; [vm_compute; reflexivity|reflexivity].
Defined.

(** [setTimeZone] leaves the texts that threads have cached: until the second is over a
    thread goes on printing the time of the old zone, now without its Z. *)
Theorem stale_after_setTimeZone : exists g t g' t',
  LOG w_print w_gmtime w_strerror w_tid w_memory (mkStatement 0 1000000000000001 0 LOG_WARN (bytes "a.cc") 1 []) (w_globals None) newTls = Ret (false, g, t) /\
  LOG w_print w_gmtime w_strerror w_tid w_memory (mkStatement 0 1000000000000002 0 LOG_WARN (bytes "a.cc") 2 []) (setTimeZone (fixedZone 28800 (bytes "CST")) g) t = Ret (false, g', t') /\
  last (output g') = Some (bytes "20010909 01:46:40.000002  4000 WARN   - a.cc:2" ++ [z2b 10]).
Proof. eexists _, _, _, _. split; [vm_compute; reflexivity|]. split; vm_compute; reflexivity. Qed.
