(* ===== verification/TimerQueue.v ===== *)
(** * TimerQueue (src/muduo/muduo/net/Timer.h, Timer.cc, TimerId.h, TimerQueue.cc)

    A timer is an object on the heap, a pointer its address; [new] and [delete]
    add and remove it, and dereferencing an address where no timer lives is
    [OutOfRange]. The state holds the members of the queue, the heap, the timer
    descriptor, the two clocks and the calls that other threads posted to the
    loop. What a callback does is an arbitrary function of the state: a list of
    requests to the queue it makes, and the time they take.

    There are two clocks, as in the code: [Timestamp::now] reads the wall clock,
    which can be set, and the descriptor counts on CLOCK_MONOTONIC, which
    cannot. A call of [addTimer] by another thread is two steps: it posts the
    timer to the loop, and only then reads [timer->sequence()] for the
    [TimerId], when the loop may have run and deleted the timer. *)

From Stdlib Require Import Sorted.
From S2P Require Import Prelude StdSet Timestamp.

Module TimerQueue.

(** ** Timer *)

Record Timer := mkTimer {
  callback_ : Z;
  expiration_ : Z;
  interval_ : double;
  repeat_ : bool;
  sequence_ : Z
}.

(** [Timer(cb, when, interval)], given the next value of [s_numCreated_] *)
Definition newTimer (cb when : Z) (interval : double) (seq : Z) : Timer :=
  mkTimer cb when interval (dlt (double_of_Z 0) interval) seq.

Definition restart (now : Z) (t : Timer) : Timer :=
  mkTimer (callback_ t) (if repeat_ t then addTime now (interval_ t) else invalid)
    (interval_ t) (repeat_ t) (sequence_ t).

Record TimerId := mkTimerId { timer_ : Z; id_sequence_ : Z }.

(** ** The clocks *)

(** The wall clock and CLOCK_MONOTONIC (counted from the start); for the
    properties, the lowest and the highest time the wall clock has shown, and by
    how much it was set forward in all. *)
Record Clocks := mkClocks { wall : Z; mono : Z; lowest : Z; highest : Z; ahead : Z }.

Definition elapse (us : Z) (c : Clocks) : Clocks :=
  mkClocks (wall c + us) (mono c + us) (lowest c) (Z.max (highest c) (wall c + us)) (ahead c).
Definition settime (us : Z) (c : Clocks) : Clocks :=
  mkClocks (wall c + us) (mono c) (Z.min (lowest c) (wall c + us)) (Z.max (highest c) (wall c + us)) (ahead c + Z.max 0 us).

(** ** The queue *)

Inductive call :=
  | AddTimerInLoop (timer : Z)
  | CancelInLoop (timerId : TimerId).

Record State := mkState {
  (** members of [TimerQueue] *)
  timers_ : list (Z * Z);
  activeTimers_ : list (Z * Z);
  callingExpiredTimers_ : bool;
  cancelingTimers_ : list (Z * Z);
  (** the timers that live on the heap, and how often [Timer::s_numCreated_]
      was incremented (the variable holds this number as an [int64_t]) *)
  heap : gmap Z Timer;
  s_numCreated_ : Z;
  (** when the timer descriptor will become readable, on CLOCK_MONOTONIC *)
  timerfd : option Z;
  clocks : Clocks;
  (** calls of this queue in [EventLoop::pendingFunctors_] *)
  posted : list call;
  (** the timers whose sequence number a call of [addTimer] on another thread is
      still to read *)
  reading : list Z;
  (** the sequence numbers of the timers whose callback ran *)
  ran : list Z
}.

Definition set_timers l s := mkState l (activeTimers_ s) (callingExpiredTimers_ s) (cancelingTimers_ s)
  (heap s) (s_numCreated_ s) (timerfd s) (clocks s) (posted s) (reading s) (ran s).
Definition set_active l s := mkState (timers_ s) l (callingExpiredTimers_ s) (cancelingTimers_ s)
  (heap s) (s_numCreated_ s) (timerfd s) (clocks s) (posted s) (reading s) (ran s).
Definition set_calling b s := mkState (timers_ s) (activeTimers_ s) b (cancelingTimers_ s)
  (heap s) (s_numCreated_ s) (timerfd s) (clocks s) (posted s) (reading s) (ran s).
Definition set_canceling l s := mkState (timers_ s) (activeTimers_ s) (callingExpiredTimers_ s) l
  (heap s) (s_numCreated_ s) (timerfd s) (clocks s) (posted s) (reading s) (ran s).
Definition set_heap h s := mkState (timers_ s) (activeTimers_ s) (callingExpiredTimers_ s) (cancelingTimers_ s)
  h (s_numCreated_ s) (timerfd s) (clocks s) (posted s) (reading s) (ran s).
Definition set_numCreated n s := mkState (timers_ s) (activeTimers_ s) (callingExpiredTimers_ s) (cancelingTimers_ s)
  (heap s) n (timerfd s) (clocks s) (posted s) (reading s) (ran s).
Definition set_timerfd f s := mkState (timers_ s) (activeTimers_ s) (callingExpiredTimers_ s) (cancelingTimers_ s)
  (heap s) (s_numCreated_ s) f (clocks s) (posted s) (reading s) (ran s).
Definition set_clocks c s := mkState (timers_ s) (activeTimers_ s) (callingExpiredTimers_ s) (cancelingTimers_ s)
  (heap s) (s_numCreated_ s) (timerfd s) c (posted s) (reading s) (ran s).
Definition set_posted l s := mkState (timers_ s) (activeTimers_ s) (callingExpiredTimers_ s) (cancelingTimers_ s)
  (heap s) (s_numCreated_ s) (timerfd s) (clocks s) l (reading s) (ran s).
Definition set_ran l s := mkState (timers_ s) (activeTimers_ s) (callingExpiredTimers_ s) (cancelingTimers_ s)
  (heap s) (s_numCreated_ s) (timerfd s) (clocks s) (posted s) (reading s) l.
Definition set_reading l s := mkState (timers_ s) (activeTimers_ s) (callingExpiredTimers_ s) (cancelingTimers_ s)
  (heap s) (s_numCreated_ s) (timerfd s) (clocks s) (posted s) l (ran s).

Definition initial (now : Z) : State := mkState [] [] false [] ∅ 0 None (mkClocks now 0 now now 0) [] [] [].

(** [Timestamp::now] *)
Definition clock (s : State) : Z := wall (clocks s).

Definition UINTPTR_MAX : Z := 2 ^ 64 - 1.

(** [*p], [delete p] *)
Definition deref (p : Z) (s : State) : outcome Timer :=
  match heap s !! p with Some t => Ret t | None => Stop OutOfRange end.
Definition free (p : Z) (s : State) : outcome State :=
  let* _ := deref p s in Ret (set_heap (delete p (heap s)) s).

Definition sizes_agree (s : State) : bool := bool_decide (length (timers_ s) = length (activeTimers_ s)).

(** [struct timespec], as seconds and nanoseconds *)
Definition howMuchTimeFromNow (when now : Z) : Z * Z :=
  let microseconds := i64 (when - now) in
  let microseconds := if decide (microseconds < 100) then 100 else microseconds in
  (microseconds /c kMicroSecondsPerSecond, (microseconds %c kMicroSecondsPerSecond) * 1000).

(** [timerfd_settime] with a relative time and no interval *)
Definition resetTimerfd (expiration : Z) (s : State) : State :=
  let '(sec, nsec) := howMuchTimeFromNow expiration (clock s) in
  set_timerfd (Some (mono (clocks s) + sec * kMicroSecondsPerSecond + nsec / 1000)) s.

(** Reading an expired one-shot descriptor leaves it unarmed. *)
Definition readTimerfd (s : State) : State :=
  match timerfd s with
  | Some t => if decide (t <= mono (clocks s)) then set_timerfd None s else s
  | None => s
  end.

Definition insert (inLoop : bool) (timer : Z) (s : State) : outcome (bool * State) :=
  inloop* inLoop in
  assert* sizes_agree s in
  let* t := deref timer s in
  let when := expiration_ t in
  let earliestChanged := match timers_ s with [] => true | it :: _ => bool_decide (when < it.1) end in
  let '(l, second) := set_insert (when, timer) (timers_ s) in
  let s := set_timers l s in
  assert* second in
  let '(l, second) := set_insert (timer, sequence_ t) (activeTimers_ s) in
  let s := set_active l s in
  assert* second in
  assert* sizes_agree s in
  Ret (earliestChanged, s).

Definition addTimerInLoop (inLoop : bool) (timer : Z) (s : State) : outcome State :=
  inloop* inLoop in
  let* (earliestChanged, s) := insert inLoop timer s in
  if earliestChanged : bool then
    let* t := deref timer s in
    Ret (resetTimerfd (expiration_ t) s)
  else Ret s.

Definition cancelInLoop (inLoop : bool) (timerId : TimerId) (s : State) : outcome State :=
  inloop* inLoop in
  assert* sizes_agree s in
  let timer := (timer_ timerId, id_sequence_ timerId) in
  let* s :=
    (if set_mem timer (activeTimers_ s) then
       let* t := deref timer.1 s in
       let '(l, n) := set_erase (expiration_ t, timer.1) (timers_ s) in
       let s := set_timers l s in
       assert* bool_decide (n = 1) in
       let* s := free timer.1 s in
       Ret (set_active (set_erase timer (activeTimers_ s)).1 s)
     else if callingExpiredTimers_ s then
       Ret (set_canceling (set_insert timer (cancelingTimers_ s)).1 s)
     else Ret s) in
  assert* sizes_agree s in
  Ret s.

(** The loop of [getExpired] over the expired entries. *)
Fixpoint erase_expired (h : gmap Z Timer) (expired active : list (Z * Z)) : outcome (list (Z * Z)) :=
  match expired with
  | [] => Ret active
  | it :: expired =>
      match h !! it.2 with
      | Some t =>
          let '(active, n) := set_erase (it.2, sequence_ t) active in
          assert* bool_decide (n = 1) in erase_expired h expired active
      | None => Stop OutOfRange
      end
  end.

Definition getExpired (now : Z) (s : State) : outcome (list (Z * Z) * State) :=
  assert* sizes_agree s in
  let sentry := (now, UINTPTR_MAX) in
  let '(expired, rest) := lower_bound sentry (timers_ s) in
  assert* match rest with [] => true | e :: _ => bool_decide (now < e.1) end in
  let s := set_timers rest s in
  let* active := erase_expired (heap s) expired (activeTimers_ s) in
  let s := set_active active s in
  assert* sizes_agree s in
  Ret (expired, s).

(** The loop of [reset]. *)
Fixpoint reset_each (inLoop : bool) (expired : list (Z * Z)) (now : Z) (s : State) : outcome State :=
  match expired with
  | [] => Ret s
  | it :: expired =>
      let* t := deref it.2 s in
      let timer := (it.2, sequence_ t) in
      let* s :=
        (if repeat_ t && negb (set_mem timer (cancelingTimers_ s)) then
           let s := set_heap (<[it.2 := restart now t]> (heap s)) s in
           let* (_, s) := insert inLoop it.2 s in Ret s
         else free it.2 s) in
      reset_each inLoop expired now s
  end.

Definition reset (inLoop : bool) (expired : list (Z * Z)) (now : Z) (s : State) : outcome State :=
  let* s := reset_each inLoop expired now s in
  let* nextExpire :=
    match timers_ s with
    | [] => Ret invalid
    | it :: _ => let* t := deref it.2 s in Ret (expiration_ t)
    end in
  if valid nextExpire then Ret (resetTimerfd nextExpire s) else Ret s.

(** What a callback asks for, and what happens meanwhile: time passes, the wall
    clock is set. *)
Inductive request :=
  | ReqAdd (cb when : Z) (interval : double)
  | ReqCancel (timerId : TimerId)
  | ReqElapse (us : Z)
  | ReqSetTime (us : Z).

Section Loop.
(** [operator new], and what the callbacks do. *)
Context (malloc : gmap Z Timer -> option Z) (prog : Z -> State -> list request).

(** [addTimer]: [runInLoop] calls at once on the loop's thread and posts the
    call from another one. On the loop's thread [timer->sequence()] is read
    next; another thread reads it in a later step, [readSequence]. *)
Definition addTimer (inLoop : bool) (cb when : Z) (interval : double) (s : State)
    : outcome (option TimerId * State) :=
  match malloc (heap s) with
  | None => Stop BadAlloc
  | Some timer =>
      let created := s_numCreated_ s + 1 in
      let seq := i64 created in
      let s := set_numCreated created (set_heap (<[timer := newTimer cb when interval seq]> (heap s)) s) in
      if inLoop then
        let* s := addTimerInLoop inLoop timer s in
        let* t := deref timer s in
        Ret (Some (mkTimerId timer (sequence_ t)), s)
      else
        Ret (None, set_reading (reading s ++ [timer]) (set_posted (posted s ++ [AddTimerInLoop timer]) s))
  end.

(** The end of call [k] of [addTimer] on another thread. *)
Definition readSequence (k : nat) (s : State) : outcome (option TimerId * State) :=
  match reading s !! k with
  | None => Ret (None, s)
  | Some timer =>
      let* t := deref timer s in
      Ret (Some (mkTimerId timer (sequence_ t)), set_reading (delete k (reading s)) s)
  end.

Definition cancel (inLoop : bool) (timerId : TimerId) (s : State) : outcome State :=
  if inLoop then cancelInLoop inLoop timerId s
  else Ret (set_posted (posted s ++ [CancelInLoop timerId]) s).

Definition do_request (inLoop : bool) (r : request) (s : State) : outcome State :=
  match r with
  | ReqAdd cb when interval => let* (_, s) := addTimer inLoop cb when interval s in Ret s
  | ReqCancel timerId => cancel inLoop timerId s
  | ReqElapse us => Ret (set_clocks (elapse (Z.max 0 us) (clocks s)) s)
  | ReqSetTime us => Ret (set_clocks (settime us (clocks s)) s)
  end.

Fixpoint do_requests (inLoop : bool) (rs : list request) (s : State) : outcome State :=
  match rs with
  | [] => Ret s
  | r :: rs => let* s := do_request inLoop r s in do_requests inLoop rs s
  end.

(** [it->second->run()] for each expired entry *)
Fixpoint run_each (inLoop : bool) (expired : list (Z * Z)) (s : State) : outcome State :=
  match expired with
  | [] => Ret s
  | it :: expired =>
      let* t := deref it.2 s in
      let s := set_ran (ran s ++ [sequence_ t]) s in
      let* s := do_requests inLoop (prog (callback_ t) s) s in
      run_each inLoop expired s
  end.

Definition handleRead (inLoop : bool) (s : State) : outcome State :=
  inloop* inLoop in
  let now := clock s in
  let s := readTimerfd s in
  let* (expired, s) := getExpired now s in
  let s := set_canceling [] (set_calling true s) in
  let* s := run_each inLoop expired s in
  let s := set_calling false s in
  reset inLoop expired now s.

(** The loop runs the next posted call. *)
Definition run_posted (s : State) : outcome State :=
  match posted s with
  | [] => Ret s
  | AddTimerInLoop timer :: rest => addTimerInLoop true timer (set_posted rest s)
  | CancelInLoop timerId :: rest => cancelInLoop true timerId (set_posted rest s)
  end.

(** ** The queue and its environment as a transition system *)

Inductive event :=
  | Request (inLoop : bool) (r : request)
  | RunPosted
  | TimerReadable
  | ReadSequence (k : nat).

Definition do_event (e : event) (s : State) : outcome State :=
  match e with
  | Request inLoop r => do_request inLoop r s
  | RunPosted => run_posted s
  | TimerReadable => handleRead true s
  | ReadSequence k => let* (_, s) := readSequence k s in Ret s
  end.

(** The timer whose sequence number is read is still there. *)
Definition read_in_time (e : event) (s : State) : Prop :=
  match e with
  | ReadSequence k => match reading s !! k with Some timer => is_Some (heap s !! timer) | None => True end
  | _ => True
  end.

(** Runs from [s] whose events satisfy [P]. *)
Inductive reaches (P : event -> Prop) (s : State) : State -> Prop :=
  | reaches_refl : reaches P s s
  | reaches_step e s1 s2 : reaches P s s1 -> P e -> do_event e s1 = Ret s2 -> reaches P s s2.
End Loop.

(** ** The invariant *)

Fixpoint posted_ptrs (l : list call) : list Z :=
  match l with
  | [] => []
  | AddTimerInLoop p :: l => p :: posted_ptrs l
  | CancelInLoop _ :: l => posted_ptrs l
  end.

(** A timer on the heap that is not in the queue. *)
Definition detached (s : State) (p : Z) : Prop :=
  is_Some (heap s !! p) /\ forall q, (p, q) ∉ activeTimers_ s.

(** [timers_] and [activeTimers_] hold the same timers, which live; the timers
    of [held] (the ones [handleRead] has taken out) and the posted ones live
    too, are pairwise distinct and are not in the queue. *)
Record Inv (held : list Z) (s : State) : Prop := mkInv {
  inv_timers : ordered (timers_ s);
  inv_active : ordered (activeTimers_ s);
  inv_sizes : length (timers_ s) = length (activeTimers_ s);
  inv_match e p : (e, p) ∈ timers_ s <->
    exists t, heap s !! p = Some t /\ expiration_ t = e /\ (p, sequence_ t) ∈ activeTimers_ s;
  inv_seq p q : (p, q) ∈ activeTimers_ s -> exists t, heap s !! p = Some t /\ sequence_ t = q;
  inv_held : NoDup (held ++ posted_ptrs (posted s));
  inv_detached : Forall (detached s) (held ++ posted_ptrs (posted s));
  inv_addr p : is_Some (heap s !! p) -> 0 < p < UINTPTR_MAX
}.

(** The wall clock is within its span; the span only grows. *)
Definition in_span (c : Clocks) : Prop := lowest c <= wall c <= highest c /\ 0 <= ahead c.
Definition later (c c' : Clocks) : Prop :=
  lowest c' <= lowest c /\ highest c <= highest c' /\ (in_span c -> in_span c').

#[export] Instance later_preorder : PreOrder later.
Proof.
  split.
  - intros c. unfold later. split_and!; (done || lia).
  - intros c1 c2 c3 (? & ? & ?) (? & ? & ?). unfold later. split_and!; (lia || auto).
Qed.

Lemma later_elapse us c : 0 <= us -> later c (elapse us c).
Proof. intros. unfold later, in_span, elapse. cbn. lia. Qed.
Lemma later_settime us c : later c (settime us c).
Proof. unfold later, in_span, settime. cbn. lia. Qed.

Definition earliest_changed (when : Z) (s : State) : bool :=
  match timers_ s with [] => true | it :: _ => bool_decide (when < it.1) end.
Definition inserted (p : Z) (t : Timer) (s : State) : State :=
  set_active (set_insert (p, sequence_ t) (activeTimers_ s)).1
    (set_timers (set_insert (expiration_ t, p) (timers_ s)).1 s).
Definition removed (p : Z) (t : Timer) (s : State) : State :=
  set_active (set_erase (p, sequence_ t) (activeTimers_ s)).1
    (set_heap (delete p (heap s)) (set_timers (set_erase (expiration_ t, p) (timers_ s)).1 s)).

Ltac st := cbn [timers_ activeTimers_ callingExpiredTimers_ cancelingTimers_ heap s_numCreated_ timerfd
  clocks posted reading ran set_timers set_active set_calling set_canceling set_heap set_numCreated set_timerfd
  set_clocks set_posted set_reading set_ran inserted removed].
Tactic Notation "st" "in" hyp(H) := cbn [timers_ activeTimers_ callingExpiredTimers_ cancelingTimers_ heap s_numCreated_ timerfd
  clocks posted reading ran set_timers set_active set_calling set_canceling set_heap set_numCreated set_timerfd
  set_clocks set_posted set_reading set_ran inserted removed] in H.

Lemma insert_ok held p t s :
  Inv (p :: held) s -> heap s !! p = Some t ->
  insert true p s = Ret (earliest_changed (expiration_ t) s, inserted p t s) /\ Inv held (inserted p t s).
Proof.
  intros [Ot Oa Sz M Q N D A] E. rewrite <- app_comm_cons in N, D.
  apply Forall_cons in D as [[_ Dp] D]. apply NoDup_cons in N as [Np N].
  assert ((expiration_ t, p) ∉ timers_ s) as Nt.
  { intros (t' & _ & _ & H)%M. by apply Dp in H. }
  destruct (set_insert_new _ _ Nt) as [T1 T2]. destruct (set_insert_new _ _ (Dp (sequence_ t))) as [A1 A2].
  split.
  - unfold insert, deref, sizes_agree, inserted. rewrite bool_decide_eq_true_2, E by done. cbn [assertInLoopThread check obind].
    fold (earliest_changed (expiration_ t) s).
    destruct (set_insert (expiration_ t, p) (timers_ s)) as [l b]. cbn in T1, T2. subst. st. cbn [assertInLoopThread check].
    destruct (set_insert (p, sequence_ t) (activeTimers_ s)) as [k b]. cbn in A1, A2. subst. st. cbn [assertInLoopThread check].
    rewrite bool_decide_eq_true_2 by congruence. done.
  - constructor; st; rewrite ?T2, ?A2, ?Sz; try done; try by apply set_insert_ordered.
    + intros e q. rewrite set_insert_elem, M. split.
      * intros [[= -> ->]|(t' & ? & ? & ?)]; [exists t|exists t']; rewrite set_insert_elem; auto.
      * intros (t' & H1 & H2 & [[= -> ?]|H3]%set_insert_elem); [left; congruence|eauto].
    + intros q z [[= -> ->]|H]%set_insert_elem; eauto.
    + rewrite Forall_forall in D |- *. intros x Hx. destruct (D x Hx) as [H1 H2]. split; [done|]. st.
      intros z [[= -> ->]|H]%set_insert_elem; [done|by apply H2 in H].
Qed.

Lemma free_ok held p t s :
  Inv (p :: held) s -> heap s !! p = Some t ->
  free p s = Ret (set_heap (delete p (heap s)) s) /\ Inv held (set_heap (delete p (heap s)) s).
Proof.
  intros [Ot Oa Sz M Q N D A] E. rewrite <- app_comm_cons in N, D.
  apply Forall_cons in D as [[_ Dp] D]. apply NoDup_cons in N as [Np N].
  split; [by unfold free, deref; rewrite E|]. constructor; st; try done.
  - intros e q. rewrite M. split; intros (t' & H1 & H2 & H3); exists t'; split; try done.
    + rewrite lookup_delete_ne; [done|]. intros ->. by apply Dp in H3.
    + by apply lookup_delete_Some in H1 as [_ ?].
  - intros q z H. destruct (Q q z H) as (t' & ? & ?). exists t'. rewrite lookup_delete_ne; [done|].
    intros ->. by apply Dp in H.
  - rewrite Forall_forall in D |- *. intros x Hx. destruct (D x Hx) as [H1 H2]. split; [|done]. st.
    rewrite lookup_delete_ne; [done|]. by intros ->.
  - intros q [t' [_ ?]%lookup_delete_Some]. eauto.
Qed.

Lemma removed_ok held p t s :
  Inv held s -> heap s !! p = Some t -> (p, sequence_ t) ∈ activeTimers_ s -> Inv held (removed p t s).
Proof.
  intros [Ot Oa Sz M Q N D A] E I.
  assert ((expiration_ t, p) ∈ timers_ s) as It by (apply M; eauto).
  destruct (set_erase_present _ _ It) as [_ T2]. destruct (set_erase_present _ _ I) as [_ A2].
  assert (forall x z, (x, z) ∈ (set_erase (p, sequence_ t) (activeTimers_ s)).1 -> x <> p /\ (x, z) ∈ activeTimers_ s) as K.
  { intros x z [H1 H2]%set_erase_elem; [|done]. split; [|done]. intros ->. apply H2. f_equal.
    destruct (Q p z H1) as (t' & ? & ?). congruence. }
  constructor; st; try done; try (by apply set_erase_ordered); [lia|..].
  - intros e q. rewrite set_erase_elem, M by done. split.
    + intros [(t' & H1 & H2 & H3) H4]. exists t'. assert (q <> p) by congruence.
      rewrite lookup_delete_ne, set_erase_elem by done. split_and!; congruence.
    + intros (t' & [_ H1]%lookup_delete_Some & H2 & H3). apply K in H3 as [H3 H4].
      split; [eauto|]. congruence.
  - intros q z [H1 H2]%K. rewrite lookup_delete_ne by done. auto.
  - rewrite Forall_forall in D |- *. intros x Hx. destruct (D x Hx) as [H1 H2]. split; st.
    + rewrite lookup_delete_ne; [done|]. intros ->. by apply H2 in I.
    + intros z [_ H]%K. by apply H2 in H.
  - intros q [t' [_ ?]%lookup_delete_Some]. eauto.
Qed.

(** The three branches of [cancelInLoop]. *)
Lemma cancelInLoop_ok held id s :
  Inv held s ->
  exists s', cancelInLoop true id s = Ret s' /\ Inv held s' /\
    ((exists t, heap s !! timer_ id = Some t /\ sequence_ t = id_sequence_ id /\
        (timer_ id, sequence_ t) ∈ activeTimers_ s /\ s' = removed (timer_ id) t s) \/
     ((timer_ id, id_sequence_ id) ∉ activeTimers_ s /\ callingExpiredTimers_ s = true /\
        s' = set_canceling (set_insert (timer_ id, id_sequence_ id) (cancelingTimers_ s)).1 s) \/
     ((timer_ id, id_sequence_ id) ∉ activeTimers_ s /\ callingExpiredTimers_ s = false /\ s' = s)).
Proof.
  intros I. destruct id as [p q]. unfold cancelInLoop, sizes_agree. cbn [assertInLoopThread check timer_ id_sequence_ fst].
  rewrite (bool_decide_eq_true_2 (length _ = _)) by apply I. cbn [assertInLoopThread check]. unfold set_mem.
  case_bool_decide as H.
  - destruct (inv_seq _ _ I _ _ H) as (t & E & <-). pose proof (removed_ok held p t s I E H) as I'.
    exists (removed p t s). split; [|split; [done|left; by exists t]].
    assert ((expiration_ t, p) ∈ timers_ s) as It by (apply I; eauto).
    destruct (set_erase_present _ _ It) as [T1 _].
    unfold deref, free. rewrite E. cbn [obind]. pose proof (inv_sizes _ _ I') as Sz. unfold removed in Sz |- *.
    destruct (set_erase (expiration_ t, p) (timers_ s)) as [l n]. cbn in T1. subst n. rewrite (bool_decide_eq_true_2 (1 = 1)) by done. cbn [assertInLoopThread check].
    st in Sz. unfold deref. st. rewrite E. cbn [obind]. st. by rewrite bool_decide_eq_true_2.
  - destruct (callingExpiredTimers_ s) eqn:C; cbn [obind].
    + eexists. st. rewrite (bool_decide_eq_true_2 (length _ = _)) by apply I. cbn [assertInLoopThread check]. split; [done|]. split.
      * by destruct I; constructor.
      * right; left. done.
    + eexists. rewrite (bool_decide_eq_true_2 (length _ = _)) by apply I. cbn [assertInLoopThread check]. split; [done|]. split; [done|].
      right; right. done.
Qed.

(** The relative time of [howMuchTimeFromNow] added back to the clock. *)
Lemma resetTimerfd_alt e s :
  resetTimerfd e s = set_timerfd (Some (mono (clocks s) + Z.max 100 (i64 (e - clock s)))) s.
Proof.
  unfold resetTimerfd, howMuchTimeFromNow. cbv zeta. f_equal. f_equal.
  set (d := if decide (i64 (e - clock s) < 100) then 100 else i64 (e - clock s)).
  assert (d = Z.max 100 (i64 (e - clock s))) as <- by (unfold d; case_decide; lia).
  rewrite Z.div_mul by lia. pose proof (Z.quot_rem' d kMicroSecondsPerSecond). lia.
Qed.

(** The invariant reads only the sets, the heap and the posted calls. *)
Lemma Inv_ext held s s' :
  timers_ s' = timers_ s -> activeTimers_ s' = activeTimers_ s -> heap s' = heap s -> posted s' = posted s ->
  Inv held s -> Inv held s'.
Proof. intros E1 E2 E3 E4 []. constructor; unfold detached in *; rewrite ?E1, ?E2, ?E3, ?E4; done. Qed.

Lemma Inv_perm held held' s : held ≡ₚ held' -> Inv held s -> Inv held' s.
Proof. intros E []. constructor; rewrite <- ?E; done. Qed.

Definition added (p : Z) (t : Timer) (s : State) : State :=
  if earliest_changed (expiration_ t) s then resetTimerfd (expiration_ t) (inserted p t s) else inserted p t s.

Lemma added_heap p t s : heap (added p t s) = heap s.
Proof. unfold added. destruct (earliest_changed _ _); [by rewrite resetTimerfd_alt|done]. Qed.

Lemma addTimerInLoop_ok held p t s :
  Inv (p :: held) s -> heap s !! p = Some t ->
  addTimerInLoop true p s = Ret (added p t s) /\ Inv held (added p t s).
Proof.
  intros I E. destruct (insert_ok held p t s I E) as [H I']. unfold addTimerInLoop, added. rewrite H. cbn [assertInLoopThread check obind].
  unfold deref. st. rewrite E. cbn [obind]. destruct (earliest_changed _ _); split; try done.
  rewrite resetTimerfd_alt. revert I'. by apply Inv_ext.
Qed.

(** ** getExpired *)

Lemma erase_expired_ok h es active :
  ordered active -> NoDup es.*2 ->
  (forall p q, (p, q) ∈ active -> exists t, h !! p = Some t /\ sequence_ t = q) ->
  (forall p, p ∈ es.*2 -> exists t, h !! p = Some t /\ (p, sequence_ t) ∈ active) ->
  exists active', erase_expired h es active = Ret active' /\ ordered active' /\
    length active = (length es + length active')%nat /\
    forall p q, (p, q) ∈ active' <-> (p, q) ∈ active /\ p ∉ es.*2.
Proof.
  revert active. induction es as [|[e p] es IH]; intros active O N Q H; cbn [erase_expired].
  - exists active. split_and!; try done. intros. cbn. rewrite elem_of_nil. tauto.
  - cbn in N. apply NoDup_cons in N as [Np N]. destruct (H p) as (t & Ht & Hin); [by left|]. cbn [snd].
    rewrite Ht. destruct (set_erase_present _ _ Hin) as [E1 E2].
    pose proof (fun x => set_erase_elem (p, sequence_ t) active x O) as El.
    pose proof (set_erase_ordered (p, sequence_ t) active O) as O'.
    destruct (set_erase (p, sequence_ t) active) as [a1 n]. cbn in E1, E2, El, O'. subst n.
    rewrite bool_decide_eq_true_2 by done. cbn [assertInLoopThread check].
    destruct (IH a1) as (a2 & -> & O2 & L2 & M2); [done|done|..].
    + intros p' q' Hp. apply El in Hp as [Hp _]. auto.
    + intros p' Hp'. destruct (H p') as (t' & ? & ?); [by right|]. exists t'. split; [done|].
      apply El. split; [done|]. congruence.
    + exists a2. split_and!; [done|done|cbn; lia|]. intros p' q'. rewrite M2, El. cbn. rewrite not_elem_of_cons.
      split; [|naive_solver]. intros [[H1 H2] H3]. split_and!; try done. intros ->.
      destruct (Q _ _ H1) as (t' & ? & ?). congruence.
Qed.

(** [getExpired] takes out exactly the entries that are due, in order. *)
Lemma getExpired_ok held now s :
  Inv held s ->
  exists expired rest active,
    getExpired now s = Ret (expired, set_active active (set_timers rest s)) /\
    timers_ s = expired ++ rest /\
    Forall (fun it => it.1 <= now) expired /\ Forall (fun it => now < it.1) rest /\
    (forall p q, (p, q) ∈ active <-> (p, q) ∈ activeTimers_ s /\ p ∉ expired.*2) /\
    Inv (expired.*2 ++ held) (set_active active (set_timers rest s)).
Proof.
  intros I. destruct I as [Ot Oa Sz M Q N D A]. unfold getExpired, sizes_agree.
  rewrite bool_decide_eq_true_2 by done. cbn [assertInLoopThread check].
  pose proof (lower_bound_spec (now, UINTPTR_MAX) _ Ot) as B.
  destruct (lower_bound (now, UINTPTR_MAX) (timers_ s)) as [expired rest]. destruct B as (E & B1 & B2).
  assert (forall it, it ∈ timers_ s -> 0 < it.2 < UINTPTR_MAX) as Ad.
  { intros [e p] (t & ? & _)%M. cbn. eauto. }
  assert (Forall (fun it => now < it.1) rest) as Fr.
  { rewrite Forall_forall in B2 |- *. intros it Hit. specialize (B2 it Hit).
    specialize (Ad it). rewrite E, elem_of_app in Ad. specialize (Ad (or_intror Hit)).
    unfold pair_lt in B2. cbn in B2. lia. }
  assert (Forall (fun it => it.1 <= now) expired) as Fe.
  { eapply Forall_impl; [exact B1|]. unfold pair_lt. cbn. lia. }
  assert (match rest with [] => true | e :: _ => bool_decide (now < e.1) end = true) as ->.
  { destruct rest as [|e rest']; [done|]. apply Forall_cons in Fr as [? _]. by apply bool_decide_eq_true. }
  cbn [assertInLoopThread check]. st.
  assert (forall it, it ∈ expired -> exists t, heap s !! it.2 = Some t /\ expiration_ t = it.1 /\
            (it.2, sequence_ t) ∈ activeTimers_ s) as Me.
  { intros [e p] Hin. apply M. rewrite E, elem_of_app. by left. }
  assert (NoDup expired.*2) as Nd.
  { apply NoDup_fmap_2_strong.
    - intros [e1 p1] [e2 p2] H1 H2. cbn. intros ->. apply Me in H1 as (? & ? & ? & _), H2 as (? & ? & ? & _).
      cbn in *. congruence.
    - apply ordered_NoDup in Ot. rewrite E in Ot. by apply NoDup_app in Ot as [? _]. }
  destruct (erase_expired_ok (heap s) expired (activeTimers_ s) Oa Nd Q) as (active & Er & Oa' & L & Ma).
  { intros p (it & -> & Hit)%list_elem_of_fmap. destruct (Me it Hit) as (t & ? & _ & ?). eauto. }
  rewrite Er. cbn [obind].
  rewrite E in Sz, Ot. rewrite length_app in Sz. apply ordered_app in Ot as (_ & Or & _).
  exists expired, rest, active. st. rewrite bool_decide_eq_true_2 by lia. cbn [assertInLoopThread check].
  split_and!; try done. constructor; st; try done; [lia|..].
  - intros e p. split.
    + intros H. assert ((e, p) ∈ timers_ s) as Hin by (rewrite E, elem_of_app; by right).
      apply M in Hin as (t & H1 & H2 & H3). exists t. split_and!; try done. apply Ma. split; [done|].
      intros (it & -> & Hit)%list_elem_of_fmap. destruct (Me it Hit) as (t' & ? & ? & _).
      rewrite Forall_forall in Fe, Fr. specialize (Fe it Hit). specialize (Fr _ H). cbn in Fr.
      assert (t' = t) by congruence. subst. lia.
    + intros (t & H1 & H2 & [H3 H4]%Ma). assert ((e, p) ∈ timers_ s) as Hin by (apply M; eauto).
      rewrite E, elem_of_app in Hin. destruct Hin as [Hin|]; [|done]. destruct H4.
      apply list_elem_of_fmap. by exists (e, p).
  - intros p q [H _]%Ma. auto.
  - rewrite <- app_assoc. apply NoDup_app. split_and!; [done| |done].
    intros p (it & -> & Hit)%list_elem_of_fmap Hp. rewrite Forall_forall in D.
    destruct (D _ Hp) as [_ D2]. destruct (Me it Hit) as (t & _ & _ & H). by apply D2 in H.
  - rewrite <- app_assoc. apply Forall_app. split.
    + apply Forall_forall. intros p Hp. split; st.
      * apply list_elem_of_fmap in Hp as (it & -> & Hit). destruct (Me it Hit) as (t & ? & _). by eexists.
      * by intros q [_ H]%Ma.
    + eapply Forall_impl; [exact D|]. intros p [H1 H2]. split; st; [done|]. intros q [H _]%Ma. by apply H2 in H.
Qed.

Lemma heap_update_ok held p t t' s :
  Inv (p :: held) s -> heap s !! p = Some t -> Inv (p :: held) (set_heap (<[p := t']> (heap s)) s).
Proof.
  intros [Ot Oa Sz M Q N D A] E.
  assert (forall q, (p, q) ∉ activeTimers_ s) as Np.
  { rewrite <- app_comm_cons in D. by apply Forall_cons in D as [[_ ?] _]. }
  constructor; st; try done.
  - intros e q. rewrite M. split; intros (u & H1 & H2 & H3); exists u; split; try done.
    + rewrite lookup_insert_ne; [done|]. intros ->. by apply Np in H3.
    + apply lookup_insert_Some in H1 as [[-> ->]|[_ ?]]; [by apply Np in H3|done].
  - intros q z H. destruct (Q _ _ H) as (u & ? & ?). exists u. rewrite lookup_insert_ne; [done|].
    intros ->. by apply Np in H.
  - eapply Forall_impl; [exact D|]. intros x [H1 H2]. split; st; [|done]. by apply lookup_insert_is_Some'; right.
  - intros q H. apply lookup_insert_is_Some' in H as [<-|H]; [|auto]. apply A. by eexists.
Qed.

Section Safety.
Context (malloc : gmap Z Timer -> option Z) (prog : Z -> State -> list request).
(** [new] returns the address of no living object, neither null nor the last. *)
Context (malloc_fresh : forall h p, malloc h = Some p -> h !! p = None /\ 0 < p < UINTPTR_MAX).
(** A restriction [Adm] on the timers that are requested, and [Rst] on the times
    at which repeating timers are restarted. *)
Context (Adm : Z -> double -> Prop) (Rst : Z -> Prop).
Definition req_ok (r : request) : Prop :=
  match r with ReqAdd _ when interval => Adm when interval | _ => True end.
Context (prog_ok : forall cb s, Forall req_ok (prog cb s)).

(** A property of the heap and of the number of timers created that no
    operation of the queue can break: it survives [delete], the creation of a
    timer and the restart of one. *)
Record closed (Φ : gmap Z Timer -> Z -> Prop) : Prop := mkClosed {
  closed_delete h n p : Φ h n -> Φ (delete p h) n;
  closed_new h n p cb when interval : h !! p = None -> Adm when interval -> Φ h n ->
    Φ (<[p := newTimer cb when interval (i64 (n + 1))]> h) (n + 1);
  closed_restart h n p t now : h !! p = Some t -> repeat_ t = true -> Rst now -> Φ h n ->
    Φ (<[p := restart now t]> h) n
}.

(** What the calls of a callback leave alone: the timers that were taken out,
    the flag; [cancelingTimers_] only grows, and so does the span of the clock. *)
Record evolves (held : list Z) (s s' : State) : Prop := mkEvolves {
  ev_created : s_numCreated_ s <= s_numCreated_ s';
  ev_closed Φ : closed Φ -> Φ (heap s) (s_numCreated_ s) -> Φ (heap s') (s_numCreated_ s');
  ev_heap p : p ∈ held -> heap s' !! p = heap s !! p;
  ev_calling : callingExpiredTimers_ s' = callingExpiredTimers_ s;
  ev_canceling x : x ∈ cancelingTimers_ s -> x ∈ cancelingTimers_ s';
  ev_clock : later (clocks s) (clocks s');
  ev_ran : ran s' = ran s
}.

Lemma evolves_refl held s : evolves held s s.
Proof. constructor; (done || lia). Qed.

Lemma evolves_trans held s1 s2 s3 : evolves held s1 s2 -> evolves held s2 s3 -> evolves held s1 s3.
Proof.
  intros [? C1 H1 ? ? ? ?] [? C2 H2 ? ? ? ?]. constructor; [lia| | |congruence|auto|by etransitivity|congruence].
  { intros Φ CΦ HΦ. apply (C2 Φ CΦ), (C1 Φ CΦ), HΦ. }
  intros p Hp. by rewrite H2, H1.
Qed.

Lemma added_evolves held p t s : evolves held s (added p t s).
Proof.
  unfold added. destruct (earliest_changed _ _); [rewrite resetTimerfd_alt|]; constructor; st; (done || lia).
Qed.

Lemma cancelInLoop_evolves held id s s' :
  Inv held s -> cancelInLoop true id s = Ret s' -> evolves held s s'.
Proof.
  intros I E. destruct (cancelInLoop_ok held id s I) as (s1 & E1 & _ & H). rewrite E in E1. injection E1 as <-.
  destruct H as [(t & H1 & H2 & H3 & ->)|[(_ & _ & ->)|(_ & _ & ->)]]; [| |apply evolves_refl].
  - constructor; st; try (done || lia); [by intros; apply closed_delete|].
    intros p Hp. rewrite lookup_delete_ne; [done|]. intros <-.
    pose proof (inv_detached _ _ I) as D. rewrite Forall_forall in D.
    destruct (D (timer_ id)) as [_ D']; [apply elem_of_app; by left|]. by apply D' in H3.
  - constructor; st; try (done || lia). intros x Hx. apply set_insert_elem. by right.
Qed.

Definition result_ok (P : State -> Prop) (m : outcome State) : Prop :=
  match m with Ret s => P s | Stop f => f = BadAlloc end.

Lemma posted_ptrs_app l k : posted_ptrs (l ++ k) = posted_ptrs l ++ posted_ptrs k.
Proof. induction l as [|[] l IH]; cbn; by rewrite ?IH. Qed.

(** ** reset *)

(** The condition of [reset] for putting a timer back. *)
Definition restarts (s : State) (p : Z) (t : Timer) : bool :=
  repeat_ t && negb (set_mem (p, sequence_ t) (cancelingTimers_ s)).

Record reset_post (es : list (Z * Z)) (now : Z) (s s' : State) : Prop := mkResetPost {
  rp_same : timerfd s' = timerfd s /\ clocks s' = clocks s /\ ran s' = ran s /\ posted s' = posted s /\
    s_numCreated_ s' = s_numCreated_ s /\ callingExpiredTimers_ s' = callingExpiredTimers_ s /\
    cancelingTimers_ s' = cancelingTimers_ s;
  rp_closed Φ : closed Φ -> Rst now -> Φ (heap s) (s_numCreated_ s) -> Φ (heap s') (s_numCreated_ s');
  rp_other p : p ∉ es.*2 -> heap s' !! p = heap s !! p;
  rp_expired p t : p ∈ es.*2 -> heap s !! p = Some t ->
    if restarts s p t
    then heap s' !! p = Some (restart now t) /\ (p, sequence_ t) ∈ activeTimers_ s'
    else heap s' !! p = None;
  rp_kept x : x ∈ activeTimers_ s -> x ∈ activeTimers_ s';
  rp_timers e p : (e, p) ∈ timers_ s' -> (e, p) ∈ timers_ s \/
    exists t, p ∈ es.*2 /\ heap s !! p = Some t /\ repeat_ t = true /\ e = addTime now (interval_ t)
}.

Lemma reset_each_ok es held now s :
  Inv (es.*2 ++ held) s ->
  exists s', reset_each true es now s = Ret s' /\ Inv held s' /\ reset_post es now s s'.
Proof.
  revert s. induction es as [|[e p] es IH]; intros s I; cbn [reset_each].
  - exists s. split_and!; try done. constructor; try done; [|auto]. intros p t H. by apply elem_of_nil in H.
  - cbn in I. cbn [snd]. assert (detached s p) as [[t E] Np].
    { pose proof (inv_detached _ _ I) as D. by apply Forall_cons in D as [? _]. }
    assert (p ∉ es.*2) as Nes.
    { pose proof (inv_held _ _ I) as N. apply NoDup_cons in N as [N _]. intros H. apply N.
      apply elem_of_app. left. apply elem_of_app. by left. }
    unfold deref at 1. rewrite E. cbn [obind]. fold (restarts s p t).
    destruct (restarts s p t) eqn:Rs.
    + set (s1 := set_heap (<[p := restart now t]> (heap s)) s).
      assert (heap s1 !! p = Some (restart now t)) as E1 by (unfold s1; st; apply lookup_insert_eq).
      destruct (insert_ok (es.*2 ++ held) p (restart now t) s1) as [-> I2]; [by eapply heap_update_ok|done|].
      cbn [obind]. destruct (IH _ I2) as (s' & -> & I' & [Sm Cl Ot Ex Kp Tm]). exists s'. split_and!; try done.
      constructor.
      * destruct Sm as (?&?&?&?&?&?&?). split_and!; done.
      * intros Φ CΦ Rn HΦ. apply (Cl Φ CΦ Rn). unfold s1. st. apply andb_prop in Rs as [? _]. by eapply closed_restart.
      * cbn. intros q [Hq1 Hq2]%not_elem_of_cons. rewrite Ot by done. unfold s1. st. by rewrite lookup_insert_ne by done.
      * cbn. intros q u [->|Hq]%elem_of_cons Hu.
        -- replace u with t in * by congruence. rewrite Rs. split.
           ++ rewrite Ot by done. exact E1.
           ++ apply Kp. st. apply set_insert_elem. by left.
        -- apply Ex; [done|]. unfold s1. st. rewrite lookup_insert_ne; [done|]. by intros ->.
      * intros x Hx. apply Kp. st. apply set_insert_elem. by right.
      * intros a q [H|(u & H1 & H2 & H3)]%Tm.
        -- st in H. apply set_insert_elem in H as [[= -> ->]|H]; [|by left].
           right. exists t. cbn. apply andb_prop in Rs as [Rs _]. rewrite Rs. split_and!; try done. by left.
        -- right. exists u. cbn. unfold s1 in H2. st in H2. rewrite lookup_insert_ne in H2 by (by intros ->).
           split_and!; try done; [by right|tauto|tauto].
    + destruct (free_ok (es.*2 ++ held) p t s I E) as [-> I2]. cbn [obind].
      destruct (IH _ I2) as (s' & -> & I' & [Sm Cl Ot Ex Kp Tm]). exists s'. split_and!; try done. constructor.
      * destruct Sm as (?&?&?&?&?&?&?). split_and!; done.
      * intros Φ CΦ Rn HΦ. apply (Cl Φ CΦ Rn). by apply closed_delete.
      * cbn. intros q [Hq1 Hq2]%not_elem_of_cons. rewrite Ot by done. st. by rewrite lookup_delete_ne by done.
      * cbn. intros q u [->|Hq]%elem_of_cons Hu.
        -- replace u with t in * by congruence. rewrite Rs, Ot by done. st. apply lookup_delete_eq.
        -- apply Ex; [done|]. st. rewrite lookup_delete_ne; [done|]. by intros ->.
      * intros x Hx. by apply Kp.
      * intros a q [H|(u & H1 & H2 & H3)]%Tm; [by left|]. right. exists u. cbn. st in H2.
        rewrite lookup_delete_ne in H2 by (by intros ->). split_and!; try done; [by right|tauto|tauto].
Qed.

Lemma alloc_ok held p t n s :
  Inv held s -> heap s !! p = None -> 0 < p < UINTPTR_MAX ->
  Inv (p :: held) (set_numCreated n (set_heap (<[p := t]> (heap s)) s)).
Proof.
  intros [Ot Oa Sz M Q N D A] F B.
  assert (forall q, (p, q) ∉ activeTimers_ s) as Np by (intros q (t' & ? & _)%Q; congruence).
  constructor; st; try done; rewrite <- ?app_comm_cons.
  - intros e q. rewrite M. split; intros (t' & H1 & H2 & H3); exists t'; split; try done.
    + rewrite lookup_insert_ne; congruence.
    + apply lookup_insert_Some in H1 as [[-> ->]|[_ ?]]; [by apply Np in H3|done].
  - intros q z H. destruct (Q _ _ H) as (t' & ? & ?). exists t'. by rewrite lookup_insert_ne by congruence.
  - constructor; [|done]. intros H. rewrite Forall_forall in D. destruct (D p H) as [[? ?] _]. congruence.
  - constructor.
    + split; st; [by rewrite lookup_insert_eq; eexists|apply Np].
    + eapply Forall_impl; [exact D|]. intros x [H1 H2]. split; st; [|done].
      rewrite lookup_insert_ne; [done|]. intros ->. rewrite F in H1. by destruct H1.
  - intros q [t' [[<- _]|[_ H]]%lookup_insert_Some]; eauto.
Qed.

Lemma addTimer_ok inLoop held cb when interval s :
  Inv held s -> Adm when interval ->
  match addTimer malloc inLoop cb when interval s with
  | Ret (id, s') => Inv held s' /\ evolves held s s'
  | Stop f => f = BadAlloc
  end.
Proof.
  intros I Aw. unfold addTimer. destruct (malloc (heap s)) as [p|] eqn:E; [|done].
  apply malloc_fresh in E as [F B].
  set (seq := i64 _). set (t := newTimer cb when interval seq).
  pose proof (alloc_ok held p t (s_numCreated_ s + 1) s I F B) as I1. set (s1 := set_numCreated _ _) in *.
  assert (evolves held s s1) as V1.
  { constructor; unfold s1; st; try (done || lia); [by intros; apply closed_new|]. intros q Hq. unfold s1. st. rewrite lookup_insert_ne; [done|].
    intros ->. pose proof (inv_detached _ _ I) as D. rewrite Forall_forall in D.
    destruct (D q) as [[? ?] _]; [apply elem_of_app; by left|congruence]. }
  destruct inLoop.
  - destruct (addTimerInLoop_ok held p t s1 I1) as [-> I2]; [by unfold s1; st; rewrite lookup_insert_eq|].
    cbn [obind]. unfold deref. rewrite added_heap. unfold s1 at 1. st. rewrite lookup_insert_eq. cbn [obind].
    split; [done|]. eapply evolves_trans; [done|]. apply added_evolves.
  - split; [|by destruct V1; constructor].
    assert (p :: held ++ posted_ptrs (posted s1) ≡ₚ held ++ posted_ptrs (posted s1 ++ [AddTimerInLoop p])) as Pm.
    { rewrite posted_ptrs_app. cbn. by rewrite app_assoc, <- Permutation_cons_append. }
    destruct I1 as [Ot Oa Sz M Q N D A]. rewrite <- app_comm_cons in N, D. rewrite Pm in N, D. by constructor.
Qed.

Lemma do_request_ok inLoop held r s :
  Inv held s -> req_ok r -> result_ok (fun s' => Inv held s' /\ evolves held s s') (do_request malloc inLoop r s).
Proof.
  intros I Ar. destruct r as [cb when interval|id|us|us]; cbn [do_request].
  - pose proof (addTimer_ok inLoop held cb when interval s I Ar) as H.
    by destruct (addTimer malloc inLoop cb when interval s) as [[id s']|].
  - unfold cancel. destruct inLoop.
    + destruct (cancelInLoop_ok held id s I) as (s' & E & I' & _). rewrite E. cbn. split; [done|].
      by apply (cancelInLoop_evolves held id).
    + cbn. split; [|constructor; st; (done || lia)]. destruct I as [Ot Oa Sz M Q N D A].
      by constructor; st; rewrite ?posted_ptrs_app, ?app_nil_r.
  - cbn. split; [revert I; by apply Inv_ext|constructor; st; (done || (apply later_elapse; lia) || lia)].
  - cbn. split; [revert I; by apply Inv_ext|constructor; st; (done || apply later_settime || lia)].
Qed.

Lemma do_requests_ok inLoop held rs s :
  Inv held s -> Forall req_ok rs -> result_ok (fun s' => Inv held s' /\ evolves held s s') (do_requests malloc inLoop rs s).
Proof.
  revert s. induction rs as [|r rs IH]; intros s I F; cbn [do_requests]; [split; [done|apply evolves_refl]|].
  apply Forall_cons in F as [Fr F]. pose proof (do_request_ok inLoop held r s I Fr) as H. destruct (do_request malloc inLoop r s) as [s1|]; [|done].
  destruct H as [I1 V1]. cbn [obind]. specialize (IH s1 I1 F).
  destruct (do_requests malloc inLoop rs s1) as [s2|]; [|done]. destruct IH as [I2 V2]. cbn. split; [done|].
  by eapply evolves_trans.
Qed.

(** The sequence numbers of a list of entries. *)
Definition seqs (h : gmap Z Timer) (es : list (Z * Z)) : list Z :=
  map (fun it => match h !! it.2 with Some t => sequence_ t | None => 0 end) es.

(** After the callbacks of [es]: they all ran, in order, and each of them found
    its timer alive. *)
Record run_post (held : list Z) (es : list (Z * Z)) (s s' : State) : Prop := mkRunPost {
  rn_created : s_numCreated_ s <= s_numCreated_ s';
  rn_closed Φ : closed Φ -> Φ (heap s) (s_numCreated_ s) -> Φ (heap s') (s_numCreated_ s');
  rn_heap p : p ∈ held -> heap s' !! p = heap s !! p;
  rn_calling : callingExpiredTimers_ s' = callingExpiredTimers_ s;
  rn_canceling x : x ∈ cancelingTimers_ s -> x ∈ cancelingTimers_ s';
  rn_clock : later (clocks s) (clocks s');
  rn_ran : ran s' = ran s ++ seqs (heap s) es
}.

Lemma seqs_ext h h' es : (forall p, p ∈ es.*2 -> h' !! p = h !! p) -> seqs h' es = seqs h es.
Proof.
  intros H. unfold seqs. apply map_ext_in. intros it Hit%list_elem_of_In. rewrite H; [done|].
  apply list_elem_of_fmap. eauto.
Qed.

Lemma run_each_ok held es s :
  Inv held s -> (forall p, p ∈ es.*2 -> p ∈ held) ->
  result_ok (fun s' => Inv held s' /\ run_post held es s s') (run_each malloc prog true es s).
Proof.
  revert s. induction es as [|[e p] es IH]; intros s I Sub; cbn [run_each snd].
  - cbn. split; [done|]. constructor; try (done || lia). by rewrite app_nil_r.
  - assert (p ∈ held) as Hp by (apply Sub; by left).
    assert (is_Some (heap s !! p)) as [t E].
    { pose proof (inv_detached _ _ I) as D. rewrite Forall_forall in D. apply D, elem_of_app. by left. }
    unfold deref. rewrite E. cbn [obind]. set (s1 := set_ran _ s).
    assert (Inv held s1) as I1 by (revert I; by apply Inv_ext).
    pose proof (do_requests_ok true held (prog (callback_ t) s1) s1 I1 (prog_ok _ _)) as H.
    destruct (do_requests malloc true (prog (callback_ t) s1) s1) as [s2|]; [|done]. cbn [obind].
    destruct H as [I2 [V0 Vc V1 V2 V3 V4 V5]].
    specialize (IH s2 I2 (fun q Hq => Sub q (proj2 (elem_of_cons _ _ _) (or_intror Hq)))).
    destruct (run_each malloc prog true es s2) as [s3|]; [|done].
    destruct IH as [I3 [R0 Rc R1 R2 R3 R4 R5]]. cbn. split; [done|]. constructor; st.
    + etransitivity; [exact V0|exact R0].
    + intros Φ CΦ HΦ. apply Rc; [done|]. by apply Vc.
    + intros q Hq. rewrite R1, V1 by done. done.
    + by rewrite R2, V2.
    + intros x Hx. apply R3, V3, Hx.
    + etransitivity; [exact V4|exact R4].
    + rewrite R5, V5. unfold s1. st. rewrite <- app_assoc. f_equal. cbn. rewrite E. f_equal. apply seqs_ext.
      intros q Hq. rewrite V1; [done|]. apply Sub. by right.
Qed.

(** What [handleRead] does to the queue. *)
Record handled (s s' : State) (expired : list (Z * Z)) : Prop := mkHandled {
  hd_due : exists rest, timers_ s = expired ++ rest /\ Forall (fun it => it.1 <= clock s) expired /\
    Forall (fun it => clock s < it.1) rest;
  hd_ran : ran s' = ran s ++ seqs (heap s) expired;
  hd_expired p t : p ∈ expired.*2 -> heap s !! p = Some t ->
    if restarts s' p t
    then heap s' !! p = Some (restart (clock s) t) /\ (p, sequence_ t) ∈ activeTimers_ s'
    else heap s' !! p = None;
  hd_created : s_numCreated_ s <= s_numCreated_ s';
  hd_closed Φ : closed Φ -> Rst (clock s) -> Φ (heap s) (s_numCreated_ s) -> Φ (heap s') (s_numCreated_ s');
  hd_clock : later (clocks s) (clocks s');
  hd_calling : callingExpiredTimers_ s' = false
}.

Lemma readTimerfd_alt s : exists f, readTimerfd s = set_timerfd f s.
Proof.
  unfold readTimerfd. destruct (timerfd s) as [f|] eqn:E; [case_decide; [by exists None|]|].
  - exists (Some f). destruct s. cbn in *. by subst.
  - exists None. destruct s. cbn in *. by subst.
Qed.

Lemma reset_ok es held now s :
  Inv (es.*2 ++ held) s ->
  exists s1 f, reset true es now s = Ret (set_timerfd f s1) /\ Inv held s1 /\ reset_post es now s s1 /\
    f = match timers_ s1 with
        | [] => timerfd s1
        | it :: _ => if valid it.1 then Some (mono (clocks s1) + Z.max 100 (i64 (it.1 - clock s1))) else timerfd s1
        end.
Proof.
  intros I. destruct (reset_each_ok es held now s I) as (s1 & E & I1 & P). unfold reset. rewrite E. cbn [obind].
  assert (forall s, set_timerfd (timerfd s) s = s) as Id by (by intros []).
  destruct (timers_ s1) as [|[e p] l] eqn:T; cbn [obind fst snd].
  - exists s1, (timerfd s1). rewrite Id, T. done.
  - assert ((e, p) ∈ timers_ s1) as H by (rewrite T; by left).
    apply I1 in H as (t & Ht & Hte & _). unfold deref. rewrite Ht. cbn [obind]. rewrite Hte.
    destruct (valid e) eqn:V.
    + rewrite resetTimerfd_alt. eexists s1, _. rewrite T. cbn [fst]. by rewrite V.
    + exists s1, (timerfd s1). rewrite Id, T. cbn [fst]. by rewrite V.
Qed.

Lemma handleRead_ok s :
  Inv [] s ->
  result_ok (fun s' => Inv [] s' /\ exists expired, handled s s' expired) (handleRead malloc prog true s).
Proof.
  intros I. unfold handleRead. cbn [assertInLoopThread check]. destruct (readTimerfd_alt s) as [f ->].
  set (s0 := set_timerfd f s).
  assert (Inv [] s0) as I0 by (revert I; by apply Inv_ext).
  destruct (getExpired_ok [] (clock s) s0 I0) as (expired & rest & active & -> & T & F1 & F2 & Ma & I1).
  cbn [obind]. set (s1 := set_active active (set_timers rest s0)) in *. rewrite app_nil_r in I1.
  set (s2 := set_canceling [] (set_calling true s1)).
  assert (Inv expired.*2 s2) as I2 by (revert I1; by apply Inv_ext).
  pose proof (run_each_ok expired.*2 expired s2 I2 (fun p H => H)) as H.
  destruct (run_each malloc prog true expired s2) as [s3|]; [|done]. destruct H as [I3 [R0 Rc R1 R2 R3 R4 R5]].
  cbn [obind]. set (s4 := set_calling false s3).
  assert (Inv (expired.*2 ++ []) s4) as I4 by (rewrite app_nil_r; revert I3; by apply Inv_ext).
  destruct (reset_ok expired [] (clock s) s4 I4) as (s5 & g & -> & I5 & [Sm Cl Ot Ex Kp Tm] & _).
  cbn. split; [revert I5; by apply Inv_ext|]. destruct Sm as (S1 & S2 & S3 & S4 & S5 & S6 & S7). exists expired.
  constructor; st.
  - by exists rest.
  - rewrite S3. exact R5.
  - intros p t Hp Ht. assert (heap s4 !! p = Some t) as E by (unfold s4; st; rewrite R1 by done; exact Ht).
    specialize (Ex p t Hp E). unfold restarts in Ex |- *. st. rewrite S7. exact Ex.
  - rewrite S5. exact R0.
  - intros Φ CΦ Rn HΦ. apply (Cl Φ CΦ Rn), (Rc Φ CΦ), HΦ.
  - rewrite S2. exact R4.
  - by rewrite S6.
Qed.

Lemma run_posted_ok s :
  Inv [] s ->
  result_ok (fun s' => Inv [] s' /\ evolves [] s s') (run_posted s).
Proof.
  intros I. unfold run_posted. destruct (posted s) as [|[p|id] rest] eqn:P; [split; [done|apply evolves_refl]|..].
  - assert (Inv [p] (set_posted rest s)) as I1.
    { destruct I as [Ot Oa Sz M Q N D A]. rewrite P in N, D. by constructor. }
    assert (is_Some (heap s !! p)) as [t E].
    { pose proof (inv_detached _ _ I1) as D. by apply Forall_cons in D as [[? _] _]. }
    destruct (addTimerInLoop_ok [] p t _ I1 E) as [-> I2]. cbn. split; [done|].
    eapply evolves_trans; [|apply added_evolves]. constructor; st; (done || lia).
  - assert (Inv [] (set_posted rest s)) as I1.
    { destruct I as [Ot Oa Sz M Q N D A]. rewrite P in N, D. by constructor. }
    destruct (cancelInLoop_ok [] id _ I1) as (s' & E & I2 & _). rewrite E. split; [done|].
    eapply evolves_trans; [|by apply (cancelInLoop_evolves [] id _ _ I1)]. constructor; st; (done || lia).
Qed.

(** ** Runs *)

Definition event_ok (e : event) : Prop :=
  match e with Request _ r => req_ok r | _ => True end.

Lemma Inv_initial now : Inv [] (initial now).
Proof.
  constructor; cbn; try done; try constructor.
  - by intros ?%elem_of_nil.
  - by intros (? & ? & _).
  - intros p q H. by apply elem_of_nil in H.
  - destruct H. by rewrite lookup_empty in H.
  - destruct H. by rewrite lookup_empty in H.
Qed.

Lemma readSequence_ok k s :
  Inv [] s ->
  match readSequence k s with
  | Ret (_, s') => Inv [] s' /\ evolves [] s s'
  | Stop f => f = OutOfRange /\ ~ read_in_time (ReadSequence k) s
  end.
Proof.
  intros I. unfold readSequence, deref, read_in_time. destruct (reading s !! k) as [p|] eqn:E; [|split; [done|apply evolves_refl]].
  destruct (heap s !! p) as [t|] eqn:H; cbn [obind].
  - split; [revert I; by apply Inv_ext|constructor; st; (done || lia)].
  - split; [done|]. by intros [? ?].
Qed.

(** What an event gives: a call evolves the state, the descriptor runs
    [handleRead]; only a late read of a sequence number fails. *)
Definition event_post (e : event) (s s' : State) : Prop :=
  evolves [] s s' \/ (e = TimerReadable /\ exists expired, handled s s' expired).

Lemma do_event_ret e s s' : Inv [] s -> event_ok e -> do_event malloc prog e s = Ret s' -> Inv [] s' /\ event_post e s s'.
Proof.
  intros I E H. unfold event_post. destruct e as [inLoop r| | |k]; cbn [do_event] in H.
  - pose proof (do_request_ok inLoop [] r s I E) as K. rewrite H in K. cbn in *. tauto.
  - pose proof (run_posted_ok s I) as K. rewrite H in K. cbn in *. tauto.
  - pose proof (handleRead_ok s I) as K. rewrite H in K. destruct K as [? K]. split; [done|]. by right.
  - apply obind_ret in H as ([id s1] & H & [= <-]). pose proof (readSequence_ok k s I) as K. rewrite H in K. tauto.
Qed.

Lemma do_event_ok e s :
  Inv [] s -> event_ok e -> read_in_time e s ->
  result_ok (fun s' => Inv [] s' /\ event_post e s s') (do_event malloc prog e s).
Proof.
  intros I E In. destruct (do_event malloc prog e s) as [s'|f] eqn:H; [by apply do_event_ret|].
  destruct e as [inLoop r| | |k]; cbn [do_event] in H.
  - pose proof (do_request_ok inLoop [] r s I E) as K. by rewrite H in K.
  - pose proof (run_posted_ok s I) as K. by rewrite H in K.
  - pose proof (handleRead_ok s I) as K. by rewrite H in K.
  - pose proof (readSequence_ok k s I) as K. destruct (readSequence k s) as [[id s1]|f']; [done|]. by destruct K.
Qed.

Lemma reaches_ok s s' :
  Inv [] s -> reaches malloc prog event_ok s s' ->
  Inv [] s' /\ later (clocks s) (clocks s') /\ s_numCreated_ s <= s_numCreated_ s'.
Proof.
  intros I. induction 1 as [|e s1 s2 _ IH P E]; [split_and!; (done || lia)|]. destruct IH as (I1 & C1 & N1).
  destruct (do_event_ret e s1 s2 I1 P E) as [I2 [[]|(_ & ? & [])]]; split_and!; (done || lia || by etransitivity).
Qed.

(** A closed property holds along every run whose restarts are at times [Rst]. *)
Lemma reaches_closed Φ s s' :
  Inv [] s -> reaches malloc prog event_ok s s' -> closed Φ ->
  in_span (clocks s) -> (forall t, lowest (clocks s') <= t <= highest (clocks s') -> Rst t) ->
  Φ (heap s) (s_numCreated_ s) -> Φ (heap s') (s_numCreated_ s').
Proof.
  intros I H C Sp. induction H as [|e s1 s2 H IH P E]; intros T HΦ; [done|].
  destruct (reaches_ok s s1 I H) as (I1 & (C1 & C2 & C3) & _). destruct (C3 Sp) as [Sp1 _].
  destruct (do_event_ret e s1 s2 I1 P E) as (I2 & [[? V ? ? ? (L1 & L2 & _) ?]|(_ & ex & [? ? ? ? V (L1 & L2 & _) ?])]).
  - apply (V Φ C). apply IH; [|done]. intros t Ht. apply T. lia.
  - apply (V Φ C); [apply T; unfold clock; lia|]. apply IH; [|done]. intros t Ht. apply T. lia.
Qed.
End Safety.

(** ** Sequence numbers *)

(** While fewer than 2^63 timers were created, sequence numbers identify timers. *)
Definition seq_unique (h : gmap Z Timer) (n : Z) : Prop :=
  n < 2 ^ 63 -> 0 <= n /\ (forall p t, h !! p = Some t -> 0 < sequence_ t <= n) /\
  (forall p1 p2 t1 t2, h !! p1 = Some t1 -> h !! p2 = Some t2 -> sequence_ t1 = sequence_ t2 -> p1 = p2).

(** No timer has sequence number [q], and none will get it. *)
Definition gone (q : Z) (h : gmap Z Timer) (n : Z) : Prop :=
  n < 2 ^ 63 -> 0 <= n /\ q <= n /\ forall p t, h !! p = Some t -> sequence_ t <> q.

Lemma i64_small x : - 2 ^ 63 <= x < 2 ^ 63 -> i64 x = x.
Proof. intros. apply swrap_small; lia. Qed.

Lemma closed_seq_unique A R : closed A R seq_unique.
Proof.
  constructor; unfold seq_unique.
  - intros h n p H L. destruct (H L) as (H1 & H2 & H3). split_and!; [done|..].
    + intros q t [_ E]%lookup_delete_Some. eauto.
    + intros p1 p2 t1 t2 [_ E1]%lookup_delete_Some [_ E2]%lookup_delete_Some. eauto.
  - intros h n p cb when interval F _ H L. destruct H as (H1 & H2 & H3); [lia|]. rewrite i64_small by lia.
    split_and!; [lia|..].
    + intros q t [[<- <-]|[_ E]]%lookup_insert_Some; [cbn; lia|]. specialize (H2 _ _ E). lia.
    + intros p1 p2 t1 t2 [[<- <-]|[_ E1]]%lookup_insert_Some [[<- <-]|[_ E2]]%lookup_insert_Some; cbn; try done.
      * specialize (H2 _ _ E2). lia.
      * specialize (H2 _ _ E1). lia.
      * eauto.
  - intros h n p t now E Rp _ H L. destruct (H L) as (H1 & H2 & H3). split_and!; [done|..].
    + intros q u [[<- <-]|[_ E']]%lookup_insert_Some; cbn; eauto.
    + intros p1 p2 t1 t2 [[<- <-]|[_ E1]]%lookup_insert_Some [[<- <-]|[_ E2]]%lookup_insert_Some; cbn; eauto.
Qed.

Lemma closed_gone A R q : closed A R (gone q).
Proof.
  constructor; unfold gone.
  - intros h n p H L. destruct (H L) as (H1 & H2 & H3). split_and!; [done|done|].
    intros p' t [_ E]%lookup_delete_Some. eauto.
  - intros h n p cb when interval F _ H L. destruct H as (H1 & H2 & H3); [lia|]. rewrite i64_small by lia.
    split_and!; [lia|lia|]. intros p' t [[<- <-]|[_ E]]%lookup_insert_Some; [cbn; lia|]. eauto.
  - intros h n p t now E Rp _ H L. destruct (H L) as (H1 & H2 & H3). split_and!; [done|done|].
    intros p' u [[<- <-]|[_ E']]%lookup_insert_Some; cbn; eauto.
Qed.

Definition any_timer (when : Z) (interval : double) : Prop := True.
Definition any_time (t : Z) : Prop := True.
Definition any_event (e : event) : Prop := event_ok any_timer e.

Lemma any_prog (prog : Z -> State -> list request) cb s : Forall (req_ok any_timer) (prog cb s).
Proof. apply Forall_forall. by intros [] _. Qed.

Lemma any_event_ok e : any_event e.
Proof. by destruct e as [? []| | |]. Qed.

(** A timer whose sequence number is gone does not run. *)
Lemma gone_never_runs malloc prog q s s' :
  (forall h p, malloc h = Some p -> h !! p = None /\ 0 < p < UINTPTR_MAX) ->
  Inv [] s -> in_span (clocks s) -> gone q (heap s) (s_numCreated_ s) -> reaches malloc prog any_event s s' ->
  s_numCreated_ s' < 2 ^ 63 -> exists l, ran s' = ran s ++ l /\ q ∉ l.
Proof.
  intros M I Sp G H. induction H as [|e s1 s2 H IH P E]; intros L.
  - exists []. rewrite app_nil_r. split; [done|]. apply not_elem_of_nil.
  - destruct (reaches_ok malloc prog M any_timer any_time (any_prog prog) s s1 I H) as (I1 & _ & _).
    assert (gone q (heap s1) (s_numCreated_ s1)) as G1.
    { eapply (reaches_closed malloc prog M any_timer any_time (any_prog prog)); [exact I|exact H| |exact Sp|done|exact G].
      apply closed_gone. }
    destruct (do_event_ret malloc prog M any_timer any_time (any_prog prog) e s1 s2 I1 P E) as (I2 & [[N _ _ _ _ _ Rn]|(_ & ex & [(rest & T & _) Rn _ N _ _ _])]).
    + destruct IH as (l & R & Nl); [lia|]. exists l. by rewrite Rn.
    + destruct IH as (l & R & Nl); [lia|]. exists (l ++ seqs (heap s1) ex). rewrite Rn, R, <- app_assoc.
      split; [done|]. rewrite elem_of_app. intros [?|Hq]; [done|]. unfold seqs in Hq.
      apply list_elem_of_fmap in Hq as ([e1 p] & -> & Hin). cbn in *.
      assert ((e1, p) ∈ timers_ s1) as Hin' by (rewrite T, elem_of_app; by left).
      apply I1 in Hin' as (t & Ht & _). destruct G1 as (_ & _ & G1); [lia|]. rewrite Ht in G1.
      by apply (G1 p t).
Qed.

(** ** Cancelling from a callback *)

Section Callback.
Context (malloc : gmap Z Timer -> option Z) (prog : Z -> State -> list request).
Context (malloc_fresh : forall h p, malloc h = Some p -> h !! p = None /\ 0 < p < UINTPTR_MAX).

Lemma do_requests_cancels held rs id s s' :
  Inv held s -> callingExpiredTimers_ s = true -> timer_ id ∈ held -> ReqCancel id ∈ rs ->
  do_requests malloc true rs s = Ret s' -> (timer_ id, id_sequence_ id) ∈ cancelingTimers_ s'.
Proof.
  assert (forall rs, Forall (req_ok any_timer) rs) as Any by (intros ?; apply Forall_forall; by intros [] _).
  revert s. induction rs as [|r rs IH]; intros s I C Hh Hin; [by apply elem_of_nil in Hin|]. cbn [do_requests].
  intros (s1 & E1 & E)%obind_ret.
  pose proof (do_request_ok malloc malloc_fresh any_timer any_time true held r s I) as H. rewrite E1 in H.
  destruct H as [I1 V1]; [by destruct r|].
  pose proof (do_requests_ok malloc malloc_fresh any_timer any_time true held rs s1 I1 (Any rs)) as H.
  rewrite E in H. destruct H as [_ V2].
  apply elem_of_cons in Hin as [<-|Hin].
  - apply (ev_canceling _ _ _ _ _ V2). cbn [do_request] in E1. unfold cancel in E1.
    destruct (cancelInLoop_ok held id s I) as (s2 & E2 & _ & K). rewrite E1 in E2. injection E2 as <-.
    pose proof (inv_detached _ _ I) as D. rewrite Forall_forall in D.
    destruct (D (timer_ id)) as [_ D']; [apply elem_of_app; by left|].
    destruct K as [(t & _ & _ & K & _)|[(_ & _ & ->)|(_ & K & _)]].
    + by apply D' in K.
    + st. apply set_insert_elem. by left.
    + congruence.
  - eapply IH; try done. by rewrite (ev_calling _ _ _ _ _ V1).
Qed.

Lemma run_each_cancels held es id e1 p1 t1 s s' :
  Inv held s -> (forall p, p ∈ es.*2 -> p ∈ held) -> callingExpiredTimers_ s = true -> timer_ id ∈ held ->
  (e1, p1) ∈ es -> heap s !! p1 = Some t1 -> (forall st, ReqCancel id ∈ prog (callback_ t1) st) ->
  run_each malloc prog true es s = Ret s' -> (timer_ id, id_sequence_ id) ∈ cancelingTimers_ s'.
Proof.
  revert s. induction es as [|[e p] es IH]; intros s I Sub C Hh Hin Ht Hp; [by apply elem_of_nil in Hin|].
  cbn [run_each snd]. intros (t & Et & E)%obind_ret. apply obind_ret in E as (s2 & E2 & E).
  unfold deref in Et. destruct (heap s !! p) as [t0|] eqn:Ep; [|done]. injection Et as ->.
  set (s1 := set_ran _ s) in *. assert (Inv held s1) as I1 by (revert I; by apply Inv_ext).
  pose proof (do_requests_ok malloc malloc_fresh any_timer any_time true held _ s1 I1 (any_prog prog (callback_ t) s1)) as H.
  rewrite E2 in H. destruct H as [I2 V2].
  assert (forall q, q ∈ es.*2 -> q ∈ held) as Sub' by (intros q Hq; apply Sub; by right).
  apply elem_of_cons in Hin as [[= <- <-]|Hin].
  - replace t with t1 in * by congruence.
    pose proof (run_each_ok malloc prog malloc_fresh any_timer any_time (any_prog prog) held es s2 I2 Sub') as H.
    rewrite E in H. destruct H as [_ R]. apply (rn_canceling _ _ _ _ _ _ R).
    eapply (do_requests_cancels held _ id s1 s2 I1 C Hh); [|exact E2]. apply Hp.
  - eapply (IH s2); try done.
    + by rewrite (ev_calling _ _ _ _ _ V2).
    + rewrite (ev_heap _ _ _ _ _ V2); [done|]. apply Sub. right. apply list_elem_of_fmap. by exists (e1, p1).
Qed.

(** A timer of the batch that a callback of the batch cancels is deleted. *)
Lemma handleRead_cancels s s' e1 p1 t1 p t :
  Inv [] s -> handleRead malloc prog true s = Ret s' ->
  (e1, p1) ∈ timers_ s -> e1 <= clock s -> heap s !! p1 = Some t1 ->
  (forall st, ReqCancel (mkTimerId p (sequence_ t)) ∈ prog (callback_ t1) st) ->
  heap s !! p = Some t -> (expiration_ t, p) ∈ timers_ s -> expiration_ t <= clock s ->
  heap s' !! p = None.
Proof.
  intros I E Hin1 Hd1 Ht1 Hp Ht Hin Hd. unfold handleRead in E. cbn [assertInLoopThread check] in E.
  destruct (readTimerfd_alt s) as [f Hf]. rewrite Hf in E. set (s0 := set_timerfd f s) in *.
  assert (Inv [] s0) as I0 by (revert I; by apply Inv_ext).
  destruct (getExpired_ok [] (clock s) s0 I0) as (expired & rest & active & G & T & F1 & F2 & Ma & I1).
  rewrite G in E. cbn [obind] in E. set (s1 := set_active active (set_timers rest s0)) in *.
  rewrite app_nil_r in I1. set (s2 := set_canceling [] (set_calling true s1)) in *.
  assert (Inv expired.*2 s2) as I2 by (revert I1; by apply Inv_ext).
  assert (forall x, x ∈ timers_ s -> x.1 <= clock s -> x ∈ expired) as Due.
  { intros x Hx Hc. change (timers_ s0) with (timers_ s) in T. rewrite T, elem_of_app in Hx.
    destruct Hx as [?|Hx]; [done|]. rewrite Forall_forall in F2. specialize (F2 _ Hx). cbn in F2. lia. }
  apply obind_ret in E as (s3 & E3 & E).
  assert (p ∈ expired.*2) as Hpe by (apply list_elem_of_fmap; exists (expiration_ t, p); auto).
  pose proof (run_each_cancels expired.*2 expired (mkTimerId p (sequence_ t)) e1 p1 t1 s2 s3 I2 (fun _ H => H)
    eq_refl Hpe (Due _ Hin1 Hd1) Ht1 Hp E3) as Hc.
  pose proof (run_each_ok malloc prog malloc_fresh any_timer any_time (any_prog prog) expired.*2 expired s2 I2 (fun _ H => H)) as R.
  rewrite E3 in R. destruct R as [I3 R].
  assert (Inv (expired.*2 ++ []) (set_calling false s3)) as I4 by (rewrite app_nil_r; revert I3; by apply Inv_ext).
  destruct (reset_ok any_timer any_time expired [] (clock s) _ I4) as (s5 & g & E5 & I5 & P & _).
  rewrite E5 in E. injection E as <-. st. pose proof (rp_expired _ _ _ _ _ _ P p t Hpe) as Q. st in Q.
  rewrite (rn_heap _ _ _ _ _ _ R p Hpe) in Q. specialize (Q Ht). unfold restarts, set_mem in Q. st in Q.
  rewrite bool_decide_eq_true_2, andb_false_r in Q by done. done.
Qed.
End Callback.

(** ** The descriptor *)

(** When the descriptor must wake the loop: no later than the first expiration,
    or 100 microseconds from now if that is later, and later than that by at most
    what the wall clock was set forward. *)
Definition due (s : State) : Prop :=
  match timers_ s with
  | [] => True
  | it :: _ => exists a, timerfd s = Some a /\ a - mono (clocks s) <= Z.max (it.1 - clock s) 100 + ahead (clocks s)
  end.

(** Timers set for times after the epoch, with intervals below 2^62 us. *)
Definition sane_timer (when : Z) (interval : double) : Prop :=
  0 < when < 2 ^ 63 /\
  (dlt (double_of_Z 0) interval = true ->
   0 <= int64_of_double (dmul interval (double_of_Z kMicroSecondsPerSecond)) < 2 ^ 62).
Definition sane_time (now : Z) : Prop := 0 < now < 2 ^ 62.
Definition sane_heap (h : gmap Z Timer) (n : Z) : Prop :=
  forall p t, h !! p = Some t -> sane_timer (expiration_ t) (interval_ t) /\
    repeat_ t = dlt (double_of_Z 0) (interval_ t).

Lemma closed_sane_heap : closed sane_timer sane_time sane_heap.
Proof.
  constructor; unfold sane_heap.
  - intros h n p H q t [_ E]%lookup_delete_Some. eauto.
  - intros h n p cb when interval F S H q t [[<- <-]|[_ E]]%lookup_insert_Some; [done|eauto].
  - intros h n p t now E Rp T H q u [[<- <-]|[_ E']]%lookup_insert_Some; [|eauto].
    destruct (H _ _ E) as [[S1 S2] S3]. cbn [restart expiration_ interval_ repeat_]. rewrite Rp. split; [|congruence]. split; [|done].
    rewrite Rp in S3. specialize (S2 (eq_sym S3)). unfold sane_time in T. unfold addTime.
    rewrite i64_small; lia.
Qed.

Lemma set_insert_head a l :
  ordered l ->
  match (set_insert a l).1 with
  | [] => False
  | x :: _ => match l with [] => x = a | y :: _ => (x = a /\ ~ pair_lt y a) \/ (x = y /\ ~ pair_lt a y) end
  end.
Proof.
  intros O. destruct l as [|y l]; cbn; [done|]. case_decide as D1.
  - cbn. left. split; [done|]. intros H. apply (pair_lt_irrefl a). by transitivity y.
  - case_decide as D2; [destruct (set_insert a l)|]; cbn; right; done.
Qed.

Lemma added_due held p t s :
  Inv (p :: held) s -> heap s !! p = Some t -> 0 < expiration_ t < 2 ^ 63 -> sane_time (clock s) -> 0 <= ahead (clocks s) ->
  due s -> due (added p t s).
Proof.
  intros I E Hs Hc Ah D. unfold added, earliest_changed. pose proof (set_insert_head (expiration_ t, p) _ (inv_timers _ _ I)) as H.
  unfold due, sane_time, clock in *.
  assert (i64 (expiration_ t - wall (clocks s)) = expiration_ t - wall (clocks s)) as W by (apply i64_small; lia).
  destruct (timers_ s) as [|[e q] l] eqn:T.
  - rewrite resetTimerfd_alt. unfold clock. st. rewrite T. cbn [set_insert fst]. eexists. split; [done|]. rewrite W. lia.
  - cbn [fst]. case_bool_decide as B; [rewrite resetTimerfd_alt|]; unfold clock; st; rewrite T;
      destruct (set_insert (expiration_ t, p) ((e, q) :: l)).1 as [|[e' q'] k]; try done;
      destruct H as [[[= -> ->] H]|[[= -> ->] H]]; unfold pair_lt in H; cbn [fst snd] in *.
    + eexists. split; [done|]. rewrite W. lia.
    + lia.
    + destruct D as (a & D1 & D2). exists a. split; [done|]. lia.
    + done.
Qed.

Lemma removed_due held p t s : Inv held s -> due s -> due (removed p t s).
Proof.
  intros I D. unfold due, clock in *. st. pose proof (inv_timers _ _ I) as O. destruct (timers_ s) as [|x l]; [done|].
  cbn [set_erase]. case_decide as C.
  - destruct l as [|y l]; [done|]. apply StronglySorted_inv in O as [_ F]. apply Forall_cons in F as [F _].
    cbn [fst]. destruct D as (a & D1 & D2). exists a. split; [done|]. unfold pair_lt in F. lia.
  - by destruct (set_erase _ l).
Qed.

Lemma cancelInLoop_due held id s s' : Inv held s -> cancelInLoop true id s = Ret s' -> due s -> due s'.
Proof.
  intros I E D. destruct (cancelInLoop_ok held id s I) as (s1 & E1 & _ & H). rewrite E in E1. injection E1 as <-.
  destruct H as [(t & _ & _ & _ & ->)|[(_ & _ & ->)|(_ & _ & ->)]]; [by eapply removed_due|done|done].
Qed.

Section Due.
Context (malloc : gmap Z Timer -> option Z) (prog : Z -> State -> list request).
Context (malloc_fresh : forall h p, malloc h = Some p -> h !! p = None /\ 0 < p < UINTPTR_MAX).
Context (prog_sane : forall cb s, Forall (req_ok sane_timer) (prog cb s)).

Lemma handleRead_due s s' :
  Inv [] s -> handleRead malloc prog true s = Ret s' -> sane_heap (heap s') 0 -> sane_time (clock s') -> 0 <= ahead (clocks s') -> due s'.
Proof.
  intros I E Hs Hc' Ah. unfold handleRead in E. cbn [assertInLoopThread check] in E. destruct (readTimerfd_alt s) as [f Hf].
  rewrite Hf in E. set (s0 := set_timerfd f s) in *. assert (Inv [] s0) as I0 by (revert I; by apply Inv_ext).
  destruct (getExpired_ok [] (clock s) s0 I0) as (expired & rest & active & G & T & F1 & F2 & Ma & I1).
  rewrite G in E. cbn [obind] in E. set (s1 := set_active active (set_timers rest s0)) in *.
  rewrite app_nil_r in I1. set (s2 := set_canceling [] (set_calling true s1)) in *.
  assert (Inv expired.*2 s2) as I2 by (revert I1; by apply Inv_ext).
  apply obind_ret in E as (s3 & E3 & E).
  pose proof (run_each_ok malloc prog malloc_fresh any_timer any_time (any_prog prog) expired.*2 expired s2 I2 (fun _ H => H)) as R.
  rewrite E3 in R. destruct R as [I3 R].
  assert (Inv (expired.*2 ++ []) (set_calling false s3)) as I4 by (rewrite app_nil_r; revert I3; by apply Inv_ext).
  destruct (reset_ok any_timer any_time expired [] (clock s) _ I4) as (s5 & g & E5 & I5 & P & Hg).
  rewrite E5 in E. injection E as <-. st in Hs. unfold sane_time, due, clock in *. st in Hc'. st in Ah. st. subst g.
  destruct (timers_ s5) as [|[e p] l] eqn:T5; [done|]. cbn [fst].
  assert ((e, p) ∈ timers_ s5) as Hin by (rewrite T5; by left).
  apply I5 in Hin as (t & Ht & <- & _). destruct (Hs _ _ Ht) as [[Hw _] _].
  unfold valid. rewrite bool_decide_eq_true_2 by lia. eexists. split; [done|].
  rewrite i64_small by lia. lia.
Qed.

Lemma do_request_due inLoop r s s' :
  Inv [] s -> req_ok sane_timer r -> sane_time (clock s) -> 0 <= ahead (clocks s) ->
  do_request malloc inLoop r s = Ret s' -> due s -> due s'.
Proof.
  intros I Hr Hc Ah E D. destruct r as [cb when interval|id|us|us]; cbn [do_request] in E.
  - apply obind_ret in E as ([id s1] & E & [= <-]). unfold addTimer in E.
    destruct (malloc (heap s)) as [p|] eqn:M; [|done]. apply malloc_fresh in M as [F B]. destruct inLoop.
    + apply obind_ret in E as (s2 & E & (t2 & _ & [= _ <-])%obind_ret). pose proof (alloc_ok [] p (newTimer cb when interval (i64 (s_numCreated_ s + 1)))
        (s_numCreated_ s + 1) s I F B) as I1. set (s1 := set_numCreated _ _) in *.
      destruct (addTimerInLoop_ok [] p (newTimer cb when interval (i64 (s_numCreated_ s + 1))) s1 I1) as [E' _].
      { unfold s1. st. apply lookup_insert_eq. }
      rewrite E in E'. injection E' as ->. apply (added_due [] p _ s1 I1); [|apply Hr|done|done|done].
      unfold s1. st. apply lookup_insert_eq.
    + by injection E as _ <-.
  - unfold cancel in E. destruct inLoop; [by eapply cancelInLoop_due|by injection E as <-].
  - injection E as <-. unfold due, clock in *. st. destruct (timers_ s) as [|it l]; [done|].
    destruct D as (a & D1 & D2). exists a. split; [done|]. cbn. lia.
  - injection E as <-. unfold due, clock in *. st. destruct (timers_ s) as [|it l]; [done|].
    destruct D as (a & D1 & D2). exists a. split; [done|]. cbn. lia.
Qed.

Lemma run_posted_due s s' :
  Inv [] s -> sane_heap (heap s) 0 -> sane_time (clock s) -> 0 <= ahead (clocks s) -> run_posted s = Ret s' -> due s -> due s'.
Proof.
  intros I Hs Hc Ah E D. unfold run_posted in E. destruct (posted s) as [|[p|id] rest] eqn:P; [by injection E as <-|..].
  - assert (Inv [p] (set_posted rest s)) as I1.
    { destruct I as [Ot Oa Sz M Q N De A]. rewrite P in N, De. by constructor. }
    assert (is_Some (heap s !! p)) as [t Et].
    { pose proof (inv_detached _ _ I1) as De. by apply Forall_cons in De as [[? _] _]. }
    destruct (addTimerInLoop_ok [] p t _ I1 Et) as [E' _]. rewrite E in E'. injection E' as ->.
    apply (added_due [] p t _ I1); try done. by destruct (Hs _ _ Et) as [[? _] _].
  - assert (Inv [] (set_posted rest s)) as I1.
    { destruct I as [Ot Oa Sz M Q N De A]. rewrite P in N, De. by constructor. }
    by eapply (cancelInLoop_due [] id _ _ I1).
Qed.

Lemma reaches_due s s' :
  Inv [] s -> due s -> sane_heap (heap s) (s_numCreated_ s) -> in_span (clocks s) ->
  reaches malloc prog (event_ok sane_timer) s s' -> 0 < lowest (clocks s') -> highest (clocks s') < 2 ^ 62 -> due s'.
Proof.
  intros I D S C H. induction H as [|e s1 s2 H IH P E]; intros L1 L2; [done|].
  destruct (reaches_ok malloc prog malloc_fresh sane_timer sane_time prog_sane s s1 I H) as (I1 & C1 & _).
  assert (reaches malloc prog (event_ok sane_timer) s s2) as H2 by (by eapply reaches_step).
  destruct (reaches_ok malloc prog malloc_fresh sane_timer sane_time prog_sane s s2 I H2) as (I2 & (_ & _ & C2) & _).
  assert (later (clocks s1) (clocks s2)) as (C3 & C4 & _).
  { destruct (do_event_ret malloc prog malloc_fresh sane_timer sane_time prog_sane e s1 s2 I1 P E) as [_ [[]|(_ & ? & [])]]; done. }
  assert (forall s3, reaches malloc prog (event_ok sane_timer) s s3 -> lowest (clocks s2) <= lowest (clocks s3) ->
    highest (clocks s3) <= highest (clocks s2) -> sane_heap (heap s3) 0) as Sh.
  { intros s3 H3 C5 C6. apply (reaches_closed malloc prog malloc_fresh sane_timer sane_time prog_sane sane_heap s s3 I H3); try done.
    - apply closed_sane_heap.
    - intros t Ht. unfold sane_time. lia. }
  destruct C1 as (_ & _ & C1). destruct (C1 C) as [Sp1 Ah1], (C2 C) as [Sp2 Ah2].
  assert (sane_time (clock s1)) as St by (unfold sane_time, clock; lia).
  destruct e as [inLoop r| | |k]; cbn [do_event] in E.
  - apply (do_request_due inLoop r s1 s2 I1 P St Ah1 E). apply IH; lia.
  - apply (run_posted_due s1 s2 I1); try done; [by apply Sh|]. apply IH; lia.
  - apply (handleRead_due s1 s2 I1 E); [|unfold sane_time, clock; lia|done]. by apply Sh.
  - apply obind_ret in E as ([id s3] & E & [= <-]). unfold readSequence in E.
    assert (due s1) as D1 by (apply IH; lia).
    destruct (reading s1 !! k); [apply obind_ret in E as (t & _ & [= _ <-])|injection E as _ <-]; exact D1.
Qed.
End Due.

(** Only the timer at [p] can have sequence number [q]. *)
Definition only_at (p q : Z) (h : gmap Z Timer) (n : Z) : Prop :=
  n < 2 ^ 63 -> 0 <= n /\ q <= n /\ forall p' t, h !! p' = Some t -> sequence_ t = q -> p' = p.

Lemma closed_only_at A R p q : closed A R (only_at p q).
Proof.
  constructor; unfold only_at.
  - intros h n p0 H L. destruct (H L) as (H1 & H2 & H3). split_and!; [done|done|].
    intros p' t [_ E]%lookup_delete_Some. eauto.
  - intros h n p0 cb when interval F _ H L. destruct H as (H1 & H2 & H3); [lia|]. rewrite i64_small by lia.
    split_and!; [lia|lia|]. intros p' t [[<- <-]|[_ E]]%lookup_insert_Some; [cbn; lia|]. eauto.
  - intros h n p0 t now E Rp _ H L. destruct (H L) as (H1 & H2 & H3). split_and!; [done|done|].
    intros p' u [[<- <-]|[_ E']]%lookup_insert_Some; cbn; eauto.
Qed.

Lemma only_at_gone p q h n : only_at p q h n -> h !! p = None -> gone q h n.
Proof.
  intros H E L. destruct (H L) as (H1 & H2 & H3). split_and!; [done|done|]. intros p' t Ht Hq.
  rewrite (H3 p' t Ht Hq) in Ht. congruence.
Qed.

Lemma seq_unique_only p t h n : seq_unique h n -> h !! p = Some t -> only_at p (sequence_ t) h n.
Proof.
  intros H E L. destruct (H L) as (H1 & H2 & H3). specialize (H2 p t E) as Hb.
  split_and!; [done|lia|]. intros p' t' E' Q. by eapply H3.
Qed.

Lemma initial_seq_unique now : seq_unique (heap (initial now)) (s_numCreated_ (initial now)).
Proof. intros _. split_and!; [done|..]; intros *; cbn; by rewrite lookup_empty. Qed.

Definition malloc_ok (malloc : gmap Z Timer -> option Z) : Prop :=
  forall h p, malloc h = Some p -> h !! p = None /\ 0 < p < UINTPTR_MAX.

(** An allocator with four blocks and a program for examples: callback 1 asks
    for the cancellation of timer 2 at address 32. *)
Definition sample_malloc (h : gmap Z Timer) : option Z :=
  head (filter (fun p => h !! p = None) [16; 32; 48; 64]).
Definition sample_prog (cb : Z) (s : State) : list request :=
  if decide (cb = 1) then [ReqElapse 7; ReqCancel (mkTimerId 32 2)] else [].
Definition sample_interval : double := double_of_Z 2.

Lemma sample_malloc_ok : malloc_ok sample_malloc.
Proof.
  intros h p H. unfold sample_malloc in H.
  assert (p ∈ filter (fun p => h !! p = None) [16; 32; 48; 64]) as Hin.
  { destruct (filter _ _) as [|x l]; [done|]. injection H as ->. by left. }
  apply list_elem_of_filter in Hin as [H1 H2]. split; [done|].
  repeat (apply elem_of_cons in H2 as [->|H2]; [by vm_compute|]). by apply elem_of_nil in H2.
Qed.

Fixpoint run_events (es : list event) (s : State) : outcome State :=
  match es with
  | [] => Ret s
  | e :: es => let* s := do_event sample_malloc sample_prog e s in run_events es s
  end.

Lemma run_events_reaches (P : event -> Prop) es s0 s s' :
  reaches sample_malloc sample_prog P s0 s -> Forall P es -> run_events es s = Ret s' ->
  reaches sample_malloc sample_prog P s0 s'.
Proof.
  revert s. induction es as [|e es IH]; intros s R F E; cbn [run_events] in E; [by injection E as <-|].
  apply Forall_cons in F as [Fe F]. apply obind_ret in E as (s1 & E1 & E).
  eapply IH; [|done|done]. by eapply reaches_step.
Qed.

(** What the states of a run satisfy. *)
Lemma reachable_facts malloc prog now s :
  malloc_ok malloc -> reaches malloc prog any_event (initial now) s ->
  Inv [] s /\ in_span (clocks s) /\ seq_unique (heap s) (s_numCreated_ s).
Proof.
  intros M H. assert (in_span (clocks (initial now))) as Sp by (unfold in_span; cbn; lia).
  destruct (reaches_ok malloc prog M _ any_time (any_prog prog) _ _ (Inv_initial now) H) as (I & (_ & _ & L) & _).
  split; [done|]. split; [by apply L|].
  eapply (reaches_closed malloc prog M any_timer any_time (any_prog prog)); [apply Inv_initial|exact H| |done|done|].
  - apply closed_seq_unique.
  - apply initial_seq_unique.
Qed.

(** Two repeating timers that are due at 5000, at 5000 exactly. *)
Definition sample_events : list event :=
  [Request true (ReqAdd 1 5000 sample_interval); Request false (ReqAdd 2 5000 sample_interval);
   RunPosted; Request true (ReqElapse 4000)].
Definition sample_state : State :=
  match run_events sample_events (initial 1000) with Ret s => s | Stop _ => initial 0 end.

Lemma sample_reaches (P : event -> Prop) :
  Forall P sample_events -> reaches sample_malloc sample_prog P (initial 1000) sample_state.
Proof.
  intros F. apply (run_events_reaches P sample_events _ (initial 1000)); [apply reaches_refl|done|].
  vm_compute. reflexivity.
Qed.
End TimerQueue.

(** C7. Whatever the callbacks and the other threads do, no operation of the
    queue fails an assertion, follows a dangling timer pointer or deletes a
    timer twice: in every reachable state the two sets hold the same living
    timers, and every next event returns (unless memory is exhausted). The one
    exception is that of the code: [addTimer] on another thread reads the sequence
    number of the timer after it has handed the timer over, and for that event the
    timer must still be there ([late_read_dangles] shows what happens if not). *)
Theorem timerqueue_safe (malloc : gmap Z TimerQueue.Timer -> option Z)
    (prog : Z -> TimerQueue.State -> list TimerQueue.request) (now : Z) (s : TimerQueue.State) (e : TimerQueue.event) :
  TimerQueue.malloc_ok malloc ->
  TimerQueue.reaches malloc prog TimerQueue.any_event (TimerQueue.initial now) s ->
  TimerQueue.Inv [] s /\
  (TimerQueue.read_in_time e s -> TimerQueue.result_ok (TimerQueue.Inv []) (TimerQueue.do_event malloc prog e s)).
Proof.
  intros M H. destruct (TimerQueue.reachable_facts malloc prog now s M H) as (I & _).
  split; [done|]. intros In.
  pose proof (TimerQueue.do_event_ok malloc prog M _ TimerQueue.any_time (TimerQueue.any_prog prog) e s I
    (TimerQueue.any_event_ok e) In) as K.
  destruct (TimerQueue.do_event malloc prog e s); [|done]. by destruct K.
Qed.

Lemma timerqueue_safe_witness :
  TimerQueue.result_ok (TimerQueue.Inv [])
    (TimerQueue.do_event TimerQueue.sample_malloc TimerQueue.sample_prog (TimerQueue.ReadSequence 0) TimerQueue.sample_state).
Proof.
  apply (timerqueue_safe TimerQueue.sample_malloc TimerQueue.sample_prog 1000 TimerQueue.sample_state (TimerQueue.ReadSequence 0)).
  - exact TimerQueue.sample_malloc_ok.
  - apply TimerQueue.sample_reaches. apply Forall_forall. intros e _. apply TimerQueue.any_event_ok.
  - vm_compute. by eexists.
Defined.

(** A one-shot timer that another thread adds and that is due at once: the loop
    takes it over, runs it and deletes it before [addTimer] reads its sequence
    number, and the read follows a dangling pointer. *)
Example late_read_dangles : exists s,
  TimerQueue.run_events [TimerQueue.Request false (TimerQueue.ReqAdd 9 1000 (double_of_Z 0)); TimerQueue.RunPosted;
    TimerQueue.TimerReadable] (TimerQueue.initial 1000) = Ret s /\ TimerQueue.ran s = [1] /\
  TimerQueue.do_event TimerQueue.sample_malloc TimerQueue.sample_prog (TimerQueue.ReadSequence 0) s = Stop OutOfRange.
Proof. eexists. split; [vm_compute; reflexivity|]. by vm_compute. Qed.

(** C16. [handleRead] runs the callbacks of exactly the timers that are due, once
    each and in the order of their expirations; afterwards each of them is back
    in the queue, restarted from the time of the alarm, if it repeats and was
    not cancelled meanwhile, and is deleted otherwise. *)
Theorem handleRead_runs_due (malloc : gmap Z TimerQueue.Timer -> option Z)
    (prog : Z -> TimerQueue.State -> list TimerQueue.request) (s s' : TimerQueue.State) :
  TimerQueue.malloc_ok malloc -> TimerQueue.Inv [] s -> TimerQueue.handleRead malloc prog true s = Ret s' ->
  exists expired rest, TimerQueue.timers_ s = expired ++ rest /\
    Forall (fun it => it.1 <= TimerQueue.clock s) expired /\ Forall (fun it => TimerQueue.clock s < it.1) rest /\
    TimerQueue.ran s' = TimerQueue.ran s ++ TimerQueue.seqs (TimerQueue.heap s) expired /\
    forall p t, p ∈ expired.*2 -> TimerQueue.heap s !! p = Some t ->
      if TimerQueue.repeat_ t && negb (set_mem (p, TimerQueue.sequence_ t) (TimerQueue.cancelingTimers_ s'))
      then TimerQueue.heap s' !! p = Some (TimerQueue.restart (TimerQueue.clock s) t) /\
           (p, TimerQueue.sequence_ t) ∈ TimerQueue.activeTimers_ s'
      else TimerQueue.heap s' !! p = None.
Proof.
  intros M I E.
  pose proof (TimerQueue.handleRead_ok malloc prog M _ TimerQueue.any_time (TimerQueue.any_prog prog) s I) as H.
  rewrite E in H. destruct H as [_ (expired & [(rest & H1 & H2 & H3) H4 H5 _ _ _ _])].
  exists expired, rest. done.
Qed.

Lemma handleRead_runs_due_witness :
  exists s', TimerQueue.handleRead TimerQueue.sample_malloc TimerQueue.sample_prog true TimerQueue.sample_state = Ret s' /\
    (exists expired rest, TimerQueue.timers_ TimerQueue.sample_state = expired ++ rest /\
      TimerQueue.ran s' = TimerQueue.ran TimerQueue.sample_state ++ TimerQueue.seqs (TimerQueue.heap TimerQueue.sample_state) expired) /\
    TimerQueue.ran s' = [1; 2] /\ TimerQueue.activeTimers_ s' = [(16, 1)].
Proof.
  eexists. split; [vm_compute; reflexivity|]. split; [|by vm_compute].
  edestruct (handleRead_runs_due TimerQueue.sample_malloc TimerQueue.sample_prog TimerQueue.sample_state)
    as (expired & rest & H1 & _ & _ & H2 & _).
  - exact TimerQueue.sample_malloc_ok.
  - apply (TimerQueue.reaches_ok TimerQueue.sample_malloc TimerQueue.sample_prog TimerQueue.sample_malloc_ok
      TimerQueue.any_timer TimerQueue.any_time (TimerQueue.any_prog _) (TimerQueue.initial 1000)).
    + apply TimerQueue.Inv_initial.
    + apply TimerQueue.sample_reaches. apply Forall_forall. intros e _. apply TimerQueue.any_event_ok.
  - vm_compute. reflexivity.
  - exists expired, rest. split; [exact H1|exact H2].
Defined.

(** C38. Once a timer that is in the queue has been cancelled, its callback never
    runs again, whatever happens afterwards and even if its memory is reused
    (while fewer than 2^63 timers have been created). A timer that is not in the
    queue when [cancelInLoop] runs is outside the claim: before it is inserted
    the cancel is lost ([early_cancel_is_lost]), in the batch that is being run it
    only keeps the timer from being restarted ([cancel_from_callback]). *)
Theorem cancelled_never_runs (malloc : gmap Z TimerQueue.Timer -> option Z)
    (prog : Z -> TimerQueue.State -> list TimerQueue.request) (now : Z) (s s1 s2 : TimerQueue.State) (id : TimerQueue.TimerId) :
  TimerQueue.malloc_ok malloc ->
  TimerQueue.reaches malloc prog TimerQueue.any_event (TimerQueue.initial now) s ->
  (TimerQueue.timer_ id, TimerQueue.id_sequence_ id) ∈ TimerQueue.activeTimers_ s ->
  TimerQueue.cancelInLoop true id s = Ret s1 ->
  TimerQueue.reaches malloc prog TimerQueue.any_event s1 s2 -> TimerQueue.s_numCreated_ s2 < 2 ^ 63 ->
  exists l, TimerQueue.ran s2 = TimerQueue.ran s1 ++ l /\ TimerQueue.id_sequence_ id ∉ l.
Proof.
  intros M H A E H2 L. destruct (TimerQueue.reachable_facts malloc prog now s M H) as (I & Sp & U).
  destruct (TimerQueue.cancelInLoop_ok [] id s I) as (s' & E' & I1 & K). rewrite E in E'. injection E' as <-.
  destruct K as [(t & Ht & <- & _ & ->)|[(? & _)|(? & _)]]; [|done|done].
  eapply TimerQueue.gone_never_runs; [exact M|exact I1|exact Sp| |exact H2|done]. cbn.
  eapply TimerQueue.only_at_gone; [|apply lookup_delete_eq].
  eapply TimerQueue.closed_delete; [apply (TimerQueue.closed_only_at TimerQueue.any_timer TimerQueue.any_time)|].
  by apply TimerQueue.seq_unique_only.
Qed.

Lemma cancelled_never_runs_witness :
  exists s1 s2, TimerQueue.cancelInLoop true (TimerQueue.mkTimerId 16 1) TimerQueue.sample_state = Ret s1 /\
    TimerQueue.do_event TimerQueue.sample_malloc TimerQueue.sample_prog TimerQueue.TimerReadable s1 = Ret s2 /\
    exists l, TimerQueue.ran s2 = TimerQueue.ran s1 ++ l /\ 1 ∉ l.
Proof.
  eexists _, _. split; [vm_compute; reflexivity|]. split; [vm_compute; reflexivity|].
  eapply (cancelled_never_runs TimerQueue.sample_malloc TimerQueue.sample_prog 1000 TimerQueue.sample_state _ _
    (TimerQueue.mkTimerId 16 1)).
  - exact TimerQueue.sample_malloc_ok.
  - apply TimerQueue.sample_reaches. apply Forall_forall. intros e _. apply TimerQueue.any_event_ok.
  - eapply bool_decide_unpack. by vm_compute.
  - vm_compute. reflexivity.
  - eapply (TimerQueue.reaches_step _ _ _ _ TimerQueue.TimerReadable); [apply TimerQueue.reaches_refl|done|vm_compute; reflexivity].
  - by vm_compute.
Defined.

(** A callback may cancel timers that expired in the same batch, its own
    included: such a timer is not restarted, and after the batch it never runs
    again. *)
Theorem cancel_from_callback (malloc : gmap Z TimerQueue.Timer -> option Z)
    (prog : Z -> TimerQueue.State -> list TimerQueue.request) (now : Z) (s s1 s2 : TimerQueue.State)
    (e1 p1 p : Z) (t1 t : TimerQueue.Timer) :
  TimerQueue.malloc_ok malloc ->
  TimerQueue.reaches malloc prog TimerQueue.any_event (TimerQueue.initial now) s ->
  (e1, p1) ∈ TimerQueue.timers_ s -> e1 <= TimerQueue.clock s -> TimerQueue.heap s !! p1 = Some t1 ->
  (forall st, TimerQueue.ReqCancel (TimerQueue.mkTimerId p (TimerQueue.sequence_ t)) ∈ prog (TimerQueue.callback_ t1) st) ->
  TimerQueue.heap s !! p = Some t -> (TimerQueue.expiration_ t, p) ∈ TimerQueue.timers_ s ->
  TimerQueue.expiration_ t <= TimerQueue.clock s ->
  TimerQueue.handleRead malloc prog true s = Ret s1 ->
  TimerQueue.reaches malloc prog TimerQueue.any_event s1 s2 -> TimerQueue.s_numCreated_ s2 < 2 ^ 63 ->
  exists l, TimerQueue.ran s2 = TimerQueue.ran s1 ++ l /\ TimerQueue.sequence_ t ∉ l.
Proof.
  intros M H Hi1 Hd1 Ht1 Hp Ht Hi Hd E H2 L. destruct (TimerQueue.reachable_facts malloc prog now s M H) as (I & Sp & U).
  pose proof (TimerQueue.handleRead_cancels malloc prog M s s1 e1 p1 t1 p t I E Hi1 Hd1 Ht1 Hp Ht Hi Hd) as N.
  pose proof (TimerQueue.handleRead_ok malloc prog M _ TimerQueue.any_time (TimerQueue.any_prog prog) s I) as K.
  rewrite E in K. destruct K as [I1 (expired & [_ _ _ _ Cl (_ & _ & Sp1) _])].
  eapply TimerQueue.gone_never_runs; [exact M|exact I1|by apply Sp1| |exact H2|done].
  eapply TimerQueue.only_at_gone; [|exact N].
  apply (Cl (TimerQueue.only_at p (TimerQueue.sequence_ t))); [apply TimerQueue.closed_only_at|done|].
  by apply TimerQueue.seq_unique_only.
Qed.

Lemma cancel_from_callback_witness :
  exists s1 l, TimerQueue.handleRead TimerQueue.sample_malloc TimerQueue.sample_prog true TimerQueue.sample_state = Ret s1 /\
    TimerQueue.ran s1 = TimerQueue.ran s1 ++ l /\ 2 ∉ l.
Proof.
  eexists. edestruct (cancel_from_callback TimerQueue.sample_malloc TimerQueue.sample_prog 1000 TimerQueue.sample_state)
    with (e1 := 5000) (p1 := 16) (p := 32) (t := TimerQueue.newTimer 2 5000 TimerQueue.sample_interval 2) as (l & H1 & H2).
  - exact TimerQueue.sample_malloc_ok.
  - apply TimerQueue.sample_reaches. apply Forall_forall. intros e _. apply TimerQueue.any_event_ok.
  - eapply bool_decide_unpack. by vm_compute.
  - by vm_compute.
  - vm_compute. reflexivity.
  - intros st. change (TimerQueue.ReqCancel (TimerQueue.mkTimerId 32 2) ∈ [TimerQueue.ReqElapse 7; TimerQueue.ReqCancel (TimerQueue.mkTimerId 32 2)]).
    right. left.
  - by vm_compute.
  - eapply bool_decide_unpack. by vm_compute.
  - by vm_compute.
  - vm_compute. reflexivity.
  - apply TimerQueue.reaches_refl.
  - by vm_compute.
  - exists l. split; [vm_compute; reflexivity|]. split; [exact H1|exact H2].
Defined.

(** C39. The timer descriptor is not left behind the queue: in every reachable
    state with a timer waiting the descriptor is armed, and the time until it
    wakes the loop, on the monotonic clock it counts on, is at most the time until
    the earliest expiration by the wall clock (or 100 microseconds if that is
    closer or past) plus what the wall clock was set forward in all. So without
    forward steps of the wall clock it is never late; with them it can be, by no
    more than they are ([forward_step_delays]). The wall clock stays between 0 and
    2^62 microseconds and the timers are set for times in that epoch. *)
Theorem timerfd_armed (malloc : gmap Z TimerQueue.Timer -> option Z)
    (prog : Z -> TimerQueue.State -> list TimerQueue.request) (now : Z) (s : TimerQueue.State) :
  TimerQueue.malloc_ok malloc ->
  (forall cb st, Forall (TimerQueue.req_ok TimerQueue.sane_timer) (prog cb st)) ->
  TimerQueue.reaches malloc prog (TimerQueue.event_ok TimerQueue.sane_timer) (TimerQueue.initial now) s ->
  0 < TimerQueue.lowest (TimerQueue.clocks s) -> TimerQueue.highest (TimerQueue.clocks s) < 2 ^ 62 ->
  match TimerQueue.timers_ s with
  | [] => True
  | it :: _ => exists a, TimerQueue.timerfd s = Some a /\
      a - TimerQueue.mono (TimerQueue.clocks s) <=
        Z.max (it.1 - TimerQueue.clock s) 100 + TimerQueue.ahead (TimerQueue.clocks s)
  end.
Proof.
  intros M P H L1 L2.
  apply (TimerQueue.reaches_due malloc prog M P (TimerQueue.initial now)); try done.
  apply TimerQueue.Inv_initial.
Qed.

Lemma timerfd_armed_witness :
  exists a, TimerQueue.timerfd TimerQueue.sample_state = Some a /\ a - 4000 <= Z.max (5000 - 5000) 100 + 0.
Proof.
  apply (timerfd_armed TimerQueue.sample_malloc TimerQueue.sample_prog 1000 TimerQueue.sample_state).
  - exact TimerQueue.sample_malloc_ok.
  - intros cb st. unfold TimerQueue.sample_prog. case_decide; repeat constructor.
  - apply TimerQueue.sample_reaches. repeat (apply Forall_cons; split; [first [done | split; [lia | intros _; by vm_compute]]|]). constructor.
  - by vm_compute.
  - by vm_compute.
Defined.

(** The wall clock is set forward by 3 ms while a timer waits: the descriptor is
    then armed 3 ms after the expiration. *)
Example forward_step_delays : exists s,
  TimerQueue.run_events [TimerQueue.Request true (TimerQueue.ReqAdd 9 5000 (double_of_Z 0));
    TimerQueue.Request true (TimerQueue.ReqSetTime 3000)] (TimerQueue.initial 1000) = Ret s /\
  (TimerQueue.timers_ s).*1 = [5000] /\ TimerQueue.clock s = 4000 /\
  TimerQueue.timerfd s = Some (TimerQueue.mono (TimerQueue.clocks s) + 4000).
Proof. eexists. split; [vm_compute; reflexivity|]. by vm_compute. Qed.

(** A cancellation made on the loop's thread before the loop has taken over
    a timer that another thread added is lost: it changes nothing, and the
    timer enters the queue afterwards. *)
Theorem early_cancel_is_lost (s : TimerQueue.State) (p : Z) (t : TimerQueue.Timer) (rest : list TimerQueue.call) :
  TimerQueue.Inv [] s -> TimerQueue.callingExpiredTimers_ s = false ->
  TimerQueue.posted s = TimerQueue.AddTimerInLoop p :: rest -> TimerQueue.heap s !! p = Some t ->
  TimerQueue.cancel true (TimerQueue.mkTimerId p (TimerQueue.sequence_ t)) s = Ret s /\
  exists s', TimerQueue.run_posted s = Ret s' /\ (p, TimerQueue.sequence_ t) ∈ TimerQueue.activeTimers_ s'.
Proof.
  intros I C P E. assert (TimerQueue.detached s p) as [_ D].
  { pose proof (TimerQueue.inv_detached _ _ I) as D. rewrite P in D. by apply Forall_cons in D as [? _]. }
  split.
  - destruct (TimerQueue.cancelInLoop_ok [] (TimerQueue.mkTimerId p (TimerQueue.sequence_ t)) s I) as (s' & E' & _ & K).
    unfold TimerQueue.cancel. rewrite E'. destruct K as [(u & Hu & _ & K & _)|[(_ & K & _)|(_ & _ & ->)]]; [|congruence|done].
    by apply D in K.
  - assert (TimerQueue.Inv [p] (TimerQueue.set_posted rest s)) as I1.
    { destruct I as [Ot Oa Sz M Q N De A]. rewrite P in N, De. by constructor. }
    destruct (TimerQueue.addTimerInLoop_ok [] p t _ I1 E) as [E' _].
    eexists. unfold TimerQueue.run_posted. rewrite P. split; [exact E'|].
    unfold TimerQueue.added. destruct (TimerQueue.earliest_changed _ _); [rewrite TimerQueue.resetTimerfd_alt|];
      TimerQueue.st; apply set_insert_elem; by left.
Qed.

Lemma early_cancel_is_lost_witness :
  exists s, TimerQueue.run_events [TimerQueue.Request false (TimerQueue.ReqAdd 5 2000 TimerQueue.sample_interval)] (TimerQueue.initial 1000) = Ret s /\
    TimerQueue.cancel true (TimerQueue.mkTimerId 16 1) s = Ret s /\
    exists s', TimerQueue.run_posted s = Ret s' /\ (16, 1) ∈ TimerQueue.activeTimers_ s'.
Proof.
  eexists. split; [vm_compute; reflexivity|].
  apply (early_cancel_is_lost _ 16 (TimerQueue.newTimer 5 2000 TimerQueue.sample_interval 1) []).
  - eapply (TimerQueue.reachable_facts TimerQueue.sample_malloc TimerQueue.sample_prog 1000); [exact TimerQueue.sample_malloc_ok|].
    eapply (TimerQueue.run_events_reaches _ [TimerQueue.Request false (TimerQueue.ReqAdd 5 2000 TimerQueue.sample_interval)] _
      (TimerQueue.initial 1000)); [apply TimerQueue.reaches_refl| |vm_compute; reflexivity].
    apply Forall_forall. intros e _. apply TimerQueue.any_event_ok.
  - reflexivity.
  - reflexivity.
  - by vm_compute.
Defined.
