(* ===== verification/Sockets.v ===== *)
(** * Socket addresses (src/muduo/muduo/net/InetAddress.h, InetAddress.cc, SocketsOps.cc)

    The addresses of sockets, IPv4 and IPv6 in one union, with their conversions, and
    the wrappers of system calls that decide something about an error. [inet_pton],
    [inet_ntop] and [gethostbyname_r] are arguments. *)

From S2P Require Import Prelude Endian Format.

Definition AF_INET : Z := 2.
Definition AF_INET6 : Z := 10.
Definition INET_ADDRSTRLEN : Z := 16.
Definition INET6_ADDRSTRLEN : Z := 46.

(** The union of [sockaddr_in] and [sockaddr_in6]: family and port are at the same place in
    both; then [sin_addr], which is where [sin6_flowinfo] is; then [sin6_addr], which begins
    with the padding of [sockaddr_in]; then [sin6_scope_id]. The port is the value of
    the [uint16_t] in network order, as the host reads it. *)
Record InetAddress := mkAddr {
  sin_family : Z;
  sin_port : Z;
  sin_addr : list byte;
  sin6_addr : list byte;
  sin6_scope_id : list byte
}.

Definition zeros (n : Z) : list byte := replicate (Z.to_nat n) Byte.x00.

(** [bzero] of the 16 bytes of [addr_] and of the 28 of [addr6_] *)
Definition bzero4 (a : InetAddress) : InetAddress := mkAddr 0 0 (zeros 4) (zeros 8 ++ zdrop 8 (sin6_addr a)) (sin6_scope_id a).
Definition bzero6 (a : InetAddress) : InetAddress := mkAddr 0 0 (zeros 4) (zeros 16) (zeros 4).

Definition kInaddrAny : Z := 0.
Definition kInaddrLoopback : Z := 2130706433.
Definition in6addr_any : list byte := zeros 16.
Definition in6addr_loopback : list byte := zeros 15 ++ [Byte.x01].

Section Addresses.
Context (host : endian).
(** The bytes of a text, by family, and the text of the bytes *)
Context (inet_pton : Z -> list byte -> option (list byte)) (inet_ntop : Z -> list byte -> list byte).

(** [InetAddress(port, loopbackOnly, ipv6)], in memory that holds [a] *)
Definition newInetAddress (port : Z) (loopbackOnly ipv6 : bool) (a : InetAddress) : InetAddress :=
  if ipv6 then
    let a := bzero6 a in
    mkAddr AF_INET6 (hostToNetwork16 host port) (sin_addr a) (if loopbackOnly then in6addr_loopback else in6addr_any) (sin6_scope_id a)
  else
    let a := bzero4 a in
    let ip := if loopbackOnly then kInaddrLoopback else kInaddrAny in
    mkAddr AF_INET (hostToNetwork16 host port) (int_to_mem host 4 (hostToNetwork32 host ip)) (sin6_addr a) (sin6_scope_id a).

(** [sockets::fromIpPort] for both: an address that does not parse is logged *)
Definition fromIpPort4 (ip : list byte) (port : Z) (a : InetAddress) : InetAddress :=
  mkAddr AF_INET (hostToNetwork16 host port) (default (sin_addr a) (inet_pton AF_INET ip)) (sin6_addr a) (sin6_scope_id a).
Definition fromIpPort6 (ip : list byte) (port : Z) (a : InetAddress) : InetAddress :=
  mkAddr AF_INET6 (hostToNetwork16 host port) (sin_addr a) (default (sin6_addr a) (inet_pton AF_INET6 ip)) (sin6_scope_id a).

(** [InetAddress(ip, port, ipv6)] *)
Definition inetAddress_of_ip (ip : list byte) (port : Z) (ipv6 : bool) (a : InetAddress) : InetAddress :=
  if ipv6 then fromIpPort6 ip port (bzero6 a) else fromIpPort4 ip port (bzero4 a).

(** [sockets::toIp] into a buffer of [size] bytes that holds the C string [buf] *)
Definition sockets_toIp (size : Z) (a : InetAddress) (buf : list byte) : outcome (list byte) :=
  if decide (sin_family a = AF_INET) then
    assert* bool_decide (size >= INET_ADDRSTRLEN) in Ret (inet_ntop AF_INET (sin_addr a))
  else if decide (sin_family a = AF_INET6) then
    assert* bool_decide (size >= INET6_ADDRSTRLEN) in Ret (inet_ntop AF_INET6 (sin6_addr a))
  else Ret buf.

Definition sockets_toIpPort (size : Z) (a : InetAddress) (buf : list byte) : outcome (list byte) :=
  let* buf := sockets_toIp size a buf in
  let end_ := zlen buf in
  let port := networkToHost16 host (sin_port a) in
  assert* bool_decide (size > end_) in
  Ret (buf ++ snprintf (size - end_) (bytes ":" ++ fmt_d port)).

Definition toIpPort (a : InetAddress) : outcome (list byte) := sockets_toIpPort 64 a [].
Definition toIp (a : InetAddress) : outcome (list byte) := sockets_toIp 64 a [].
Definition family (a : InetAddress) : Z := sin_family a.
Definition portNetEndian (a : InetAddress) : Z := sin_port a.
Definition ipNetEndian (a : InetAddress) : outcome Z :=
  assert* bool_decide (family a = AF_INET) in Ret (int_of_mem host (sin_addr a)).
Definition toPort (a : InetAddress) : Z := networkToHost16 host (portNetEndian a).

(** [resolve]: what [gethostbyname_r] found, with the type and the bytes of the address *)
Definition resolve (he : option (Z * list byte)) (out : InetAddress) : outcome (bool * InetAddress) :=
  match he with
  | Some (h_addrtype, h_addr) =>
      assert* bool_decide (h_addrtype = AF_INET) && bool_decide (zlen h_addr = 4) in
      Ret (true, mkAddr (sin_family out) (sin_port out) h_addr (sin6_addr out) (sin6_scope_id out))
  | None => Ret (false, out)
  end.

(** [sockets::isSelfConnect] for the addresses of both ends *)
Definition isSelfConnect (localaddr peeraddr : InetAddress) : bool :=
  if decide (sin_family localaddr = AF_INET) then
    bool_decide (sin_port localaddr = sin_port peeraddr) && bool_decide (sin_addr localaddr = sin_addr peeraddr)
  else if decide (sin_family localaddr = AF_INET6) then
    bool_decide (sin_port localaddr = sin_port peeraddr) && bool_decide (sin6_addr localaddr = sin6_addr peeraddr)
  else false.

(** ** System calls that may fail *)

Definition EPERM : Z := 1.
Definition EINTR : Z := 4.
Definition EAGAIN : Z := 11.
Definition EMFILE : Z := 24.
Definition EPROTO : Z := 71.
Definition ECONNABORTED : Z := 103.

(** What the calls return, and [errno]: [Stop LogFatal] ends the process. *)
Definition createNonblockingOrDie (sockfd : Z) : outcome Z := if decide (sockfd < 0) then Stop LogFatal else Ret sockfd.
Definition bindOrDie (ret : Z) : outcome unit := if decide (ret < 0) then Stop LogFatal else Ret tt.
Definition listenOrDie (ret : Z) : outcome unit := if decide (ret < 0) then Stop LogFatal else Ret tt.
Definition accept (connfd errno : Z) : outcome Z :=
  if decide (connfd < 0) then
    if decide (errno ∈ [EAGAIN; ECONNABORTED; EINTR; EPROTO; EPERM; EMFILE]) then Ret connfd else Stop LogFatal
  else Ret connfd.
Definition getSocketError (ret optval errno : Z) : Z := if decide (ret < 0) then errno else optval.

(** ** Addresses and texts *)

(** The documented sizes of the texts and of the addresses. *)
Hypothesis ntop4_short : forall b, zlen (inet_ntop AF_INET b) < INET_ADDRSTRLEN.
Hypothesis ntop6_short : forall b, zlen (inet_ntop AF_INET6 b) < INET6_ADDRSTRLEN.

Lemma fmt_port_short port : 0 <= port < 2 ^ 16 -> zlen (fmt_d port) <= 5.
Proof.
  intros B. unfold fmt_d. rewrite decide_False by lia. pose proof (udec_length port 5 ltac:(cbn; lia) ltac:(lia)). unfold zlen. lia.
Qed.

Lemma port_roundtrip port : 0 <= port < 2 ^ 16 -> networkToHost16 host (hostToNetwork16 host port) = port.
Proof. intros B. unfold networkToHost16, hostToNetwork16. rewrite htobe_htobe. apply wrap_small. cbn. lia. Qed.

(** Any address of either family prints within the buffer of [toIpPort]. *)
Lemma toIpPort_ok a port : sin_port a = hostToNetwork16 host port -> 0 <= port < 2 ^ 16 ->
  (sin_family a = AF_INET \/ sin_family a = AF_INET6) ->
  let ip := inet_ntop (sin_family a) (if decide (sin_family a = AF_INET) then sin_addr a else sin6_addr a) in
  toIp a = Ret ip /\ toIpPort a = Ret (ip ++ bytes ":" ++ fmt_d port) /\ toPort a = port.
Proof.
  intros Ep B F ip.
  assert (toIp a = Ret ip /\ zlen ip < INET6_ADDRSTRLEN) as [E L].
  { unfold toIp, sockets_toIp, ip. pose proof (ntop4_short (sin_addr a)). destruct F as [F|F]; rewrite F.
    - rewrite !decide_True, check_true by done. split; [done|]. unfold INET_ADDRSTRLEN, INET6_ADDRSTRLEN in *. lia.
    - rewrite decide_False, decide_True, check_true by done. rewrite (decide_False (P := AF_INET6 = AF_INET)) by done.
      split; [done|apply ntop6_short]. }
  split; [done|]. split; [|unfold toPort, portNetEndian; rewrite Ep; by apply port_roundtrip].
  unfold toIpPort, sockets_toIpPort. change (sockets_toIp 64 a []) with (toIp a). rewrite E. cbn [obind]. unfold INET6_ADDRSTRLEN in L.
  rewrite check_true by (apply bool_decide_eq_true; lia). rewrite Ep, port_roundtrip by done. pose proof (fmt_port_short port B).
  unfold snprintf. rewrite ztake_all; [done|]. rewrite zlen_app. change (zlen (bytes ":")) with 1. lia.
Qed.

(** An address made from a text and a port prints as that text and that port, on a host
    of either byte order, whatever was in the memory before; the wildcard and the
    loopback address have their bytes in the order of the network. *)
Theorem address_roundtrip ip port ipv6 a b : let af := if ipv6 : bool then AF_INET6 else AF_INET in
  inet_pton af ip = Some b -> inet_ntop af b = ip -> 0 <= port < 2 ^ 16 ->
  let x := inetAddress_of_ip ip port ipv6 a in
  toIp x = Ret ip /\ toIpPort x = Ret (ip ++ bytes ":" ++ fmt_d port) /\ toPort x = port /\
  (forall loopback : bool, let y := newInetAddress port loopback ipv6 a in
     toPort y = port /\
     (if ipv6 then sin6_addr y else sin_addr y) =
       if ipv6 then zeros 15 ++ [if loopback then Byte.x01 else Byte.x00]
       else if loopback then [Byte.x7f; Byte.x00; Byte.x00; Byte.x01] else zeros 4).
Proof.
  intros af Ep En B x.
  assert (sin_family x = af /\ sin_port x = hostToNetwork16 host port /\ (if decide (sin_family x = AF_INET) then sin_addr x else sin6_addr x) = b) as (F & P & A).
  { subst x af. unfold inetAddress_of_ip. destruct ipv6; cbn; by rewrite Ep. }
  destruct (toIpPort_ok x port P B) as (E1 & E2 & E3); [rewrite F; destruct ipv6; auto|]. rewrite A, F, En in E1, E2.
  split_and!; [done|done|done|]. intros loopback y. subst y. split.
  - unfold toPort, portNetEndian, newInetAddress. destruct ipv6; cbn [sin_port]; by apply port_roundtrip.
  - unfold newInetAddress. destruct ipv6; cbn [sin_addr sin6_addr]; [by destruct loopback|].
    unfold hostToNetwork32. rewrite int_to_mem_htobe. by destruct loopback.
Qed.

(** [accept] keeps the process only for the errors that a peer or a lack of
    descriptors of this process causes; it dies for every other. *)
Lemma accept_dies connfd errno : accept connfd errno = Stop LogFatal <->
  connfd < 0 /\ errno ∉ [EAGAIN; ECONNABORTED; EINTR; EPROTO; EPERM; EMFILE].
Proof. unfold accept. repeat case_decide; naive_solver. Qed.
End Addresses.

(** Text is its own address for this example. *)
Lemma address_roundtrip_witness : toIpPort LittleEndian (fun _ b => ztake 15 b)
    (inetAddress_of_ip LittleEndian (fun _ t => Some t) (bytes "10.0.0.1") 8080 false (mkAddr 7 7 [] [] [])) = Ret (bytes "10.0.0.1:8080").
Proof.
  apply (address_roundtrip LittleEndian (fun _ t => Some t) (fun _ b => ztake 15 b)) with (b := bytes "10.0.0.1"); try done.
  - intros b. unfold zlen, ztake, INET_ADDRSTRLEN. rewrite length_take. lia.
  - intros b. unfold zlen, ztake, INET6_ADDRSTRLEN. rewrite length_take. lia.
Defined.
