(* ===== verification/Channel.v ===== *)
(** * Channel (src/muduo/muduo/net/Channel.h, Channel.cc)

    A channel's members and its event dispatch. Callbacks are named by their
    kind; whether one is set is a flag, what it does is a parameter. The calls
    that [update] and [remove] make on the loop are in [EventLoop]. *)

From S2P Require Import Prelude Format.

(** ** Events *)

Definition POLLIN : Z := 1.
Definition POLLPRI : Z := 2.
Definition POLLOUT : Z := 4.
Definition POLLERR : Z := 8.
Definition POLLHUP : Z := 16.
Definition POLLNVAL : Z := 32.
Definition POLLRDHUP : Z := 8192.

Definition kNoneEvent : Z := 0.
Definition kReadEvent : Z := Z.lor POLLIN POLLPRI.
Definition kWriteEvent : Z := POLLOUT.

(** [ev & mask] as a condition *)
Definition has (ev mask : Z) : bool := bool_decide (Z.land ev mask <> 0).

Record Channel := mkChannel {
  fd_ : Z;
  events_ : Z;
  revents_ : Z;
  index_ : Z;
  logHup_ : bool;
  (** [tied_], and whether the owner that [tie_] refers to is alive *)
  tied_ : bool;
  tie_alive : bool;
  eventHandling_ : bool;
  addedToLoop_ : bool;
  readCallback_ : bool;
  writeCallback_ : bool;
  closeCallback_ : bool;
  errorCallback_ : bool
}.

Definition newChannel (fd : Z) : Channel :=
  mkChannel fd 0 0 (-1) true false false false false false false false false.

Definition set_events (ev : Z) (c : Channel) := mkChannel (fd_ c) ev (revents_ c) (index_ c) (logHup_ c) (tied_ c)
  (tie_alive c) (eventHandling_ c) (addedToLoop_ c) (readCallback_ c) (writeCallback_ c) (closeCallback_ c) (errorCallback_ c).
Definition set_revents (ev : Z) (c : Channel) := mkChannel (fd_ c) (events_ c) ev (index_ c) (logHup_ c) (tied_ c)
  (tie_alive c) (eventHandling_ c) (addedToLoop_ c) (readCallback_ c) (writeCallback_ c) (closeCallback_ c) (errorCallback_ c).
Definition set_index (i : Z) (c : Channel) := mkChannel (fd_ c) (events_ c) (revents_ c) i (logHup_ c) (tied_ c)
  (tie_alive c) (eventHandling_ c) (addedToLoop_ c) (readCallback_ c) (writeCallback_ c) (closeCallback_ c) (errorCallback_ c).
Definition set_eventHandling (b : bool) (c : Channel) := mkChannel (fd_ c) (events_ c) (revents_ c) (index_ c) (logHup_ c) (tied_ c)
  (tie_alive c) b (addedToLoop_ c) (readCallback_ c) (writeCallback_ c) (closeCallback_ c) (errorCallback_ c).
Definition set_addedToLoop (b : bool) (c : Channel) := mkChannel (fd_ c) (events_ c) (revents_ c) (index_ c) (logHup_ c) (tied_ c)
  (tie_alive c) (eventHandling_ c) b (readCallback_ c) (writeCallback_ c) (closeCallback_ c) (errorCallback_ c).
Definition tie (c : Channel) := mkChannel (fd_ c) (events_ c) (revents_ c) (index_ c) (logHup_ c) true
  true (eventHandling_ c) (addedToLoop_ c) (readCallback_ c) (writeCallback_ c) (closeCallback_ c) (errorCallback_ c).
Definition doNotLogHup (c : Channel) := mkChannel (fd_ c) (events_ c) (revents_ c) (index_ c) false (tied_ c)
  (tie_alive c) (eventHandling_ c) (addedToLoop_ c) (readCallback_ c) (writeCallback_ c) (closeCallback_ c) (errorCallback_ c).
Definition setCallbacks (c : Channel) (rd wr cl er : bool) := mkChannel (fd_ c) (events_ c) (revents_ c) (index_ c) (logHup_ c) (tied_ c)
  (tie_alive c) (eventHandling_ c) (addedToLoop_ c) rd wr cl er.

Definition isNoneEvent (c : Channel) : bool := bool_decide (events_ c = kNoneEvent).
Definition isWriting (c : Channel) : bool := has (events_ c) kWriteEvent.
Definition isReading (c : Channel) : bool := has (events_ c) kReadEvent.

(** What [enableReading] and its siblings do to [events_] before [update]. *)
Inductive interest_op := EnableReading | DisableReading | EnableWriting | DisableWriting | DisableAll.

Definition apply_op (op : interest_op) (c : Channel) : Channel :=
  match op with
  | EnableReading => set_events (Z.lor (events_ c) kReadEvent) c
  | DisableReading => set_events (Z.land (events_ c) (Z.lnot kReadEvent)) c
  | EnableWriting => set_events (Z.lor (events_ c) kWriteEvent) c
  | DisableWriting => set_events (Z.land (events_ c) (Z.lnot kWriteEvent)) c
  | DisableAll => set_events kNoneEvent c
  end.

(** ** Dispatch *)

Inductive callback := CloseCallback | ErrorCallback | ReadCallback (receiveTime : Z) | WriteCallback.

Section Dispatch.
(** What a callback does to the rest of the program and to the channel. *)
Context {S : Type} (run : callback -> S * Channel -> outcome (S * Channel)).

(** [if (cb_) cb_();] under a condition on [revents_] *)
Definition run_if (cond : bool) (set : Channel -> bool) (cb : callback) (sc : S * Channel)
    : outcome (S * Channel) :=
  if cond && set sc.2 then run cb sc else Ret sc.

Definition handleEventWithGuard (receiveTime : Z) (sc : S * Channel) : outcome (S * Channel) :=
  let sc := (sc.1, set_eventHandling true sc.2) in
  let* sc := run_if (has (revents_ sc.2) POLLHUP && negb (has (revents_ sc.2) POLLIN)) closeCallback_ CloseCallback sc in
  let* sc := run_if (has (revents_ sc.2) (Z.lor POLLERR POLLNVAL)) errorCallback_ ErrorCallback sc in
  let* sc := run_if (has (revents_ sc.2) (Z.lor POLLIN (Z.lor POLLPRI POLLRDHUP))) readCallback_ (ReadCallback receiveTime) sc in
  let* sc := run_if (has (revents_ sc.2) POLLOUT) writeCallback_ WriteCallback sc in
  Ret (sc.1, set_eventHandling false sc.2).

Definition handleEvent (receiveTime : Z) (sc : S * Channel) : outcome (S * Channel) :=
  if tied_ sc.2 then
    if tie_alive sc.2 then handleEventWithGuard receiveTime sc else Ret sc
  else handleEventWithGuard receiveTime sc.
End Dispatch.

(** ** Printing *)

Definition flag_text (ev mask : Z) (s : string) : list byte := if has ev mask then bytes s else [].

Definition eventsToString (fd ev : Z) : list byte :=
  fmt_d fd ++ bytes ": " ++
  flag_text ev POLLIN "IN " ++ flag_text ev POLLPRI "PRI " ++ flag_text ev POLLOUT "OUT " ++
  flag_text ev POLLHUP "HUP " ++ flag_text ev POLLRDHUP "RDHUP " ++ flag_text ev POLLERR "ERR " ++
  flag_text ev POLLNVAL "NVAL ".

(** ** The events of a channel *)

(** The values [events_] takes. *)
Definition events_ok (c : Channel) : Prop := 0 <= events_ c <= 7.

Lemma apply_op_ok op c : events_ok c -> events_ok (apply_op op c).
Proof.
  unfold events_ok. intros H.
  assert (events_ c = 0 \/ events_ c = 1 \/ events_ c = 2 \/ events_ c = 3 \/ events_ c = 4 \/ events_ c = 5 \/
          events_ c = 6 \/ events_ c = 7) as K by lia.
  destruct op; cbn [apply_op set_events events_]; try (vm_compute; by split);
    repeat destruct K as [-> | K]; try rewrite K; vm_compute; by split.
Qed.

Lemma apply_op_reading op c :
  events_ok c ->
  isReading (apply_op op c) = match op with EnableReading => true | DisableReading | DisableAll => false | _ => isReading c end /\
  isWriting (apply_op op c) = match op with EnableWriting => true | DisableWriting | DisableAll => false | _ => isWriting c end.
Proof.
  unfold events_ok, isReading, isWriting. intros H.
  assert (events_ c = 0 \/ events_ c = 1 \/ events_ c = 2 \/ events_ c = 3 \/ events_ c = 4 \/ events_ c = 5 \/
          events_ c = 6 \/ events_ c = 7) as K by lia.
  destruct op; cbn [apply_op set_events events_]; try (by vm_compute);
    repeat destruct K as [-> | K]; try rewrite K; by vm_compute.
Qed.
