(* ===== verification/Poller.v ===== *)
(** * Poller (src/muduo/muduo/net/Poller.h, Poller.cc, poller/)

    The abstract base class as an interface, with what it promises to the loop,
    and its two implementations. Channels live in a store indexed by their
    addresses, since pollers write to them. *)

From S2P Require Import Prelude Channel.

Abbreviation channels := (gmap Z Channel).

(** Channels up to the index, which belongs to the poller. *)
Definition forget_index (cs : channels) : channels := set_index 0 <$> cs.

(** ** The interface *)

(** The virtual functions, [channels_] and the events that are monitored for a
    descriptor. *)
Class Poller (P : Type) := {
  channels_ : P -> gmap Z Z;
  interest : P -> Z -> option Z;
  updateChannel : bool -> Z -> channels -> P -> outcome (channels * P);
  removeChannel : bool -> Z -> channels -> P -> outcome (channels * P)
}.

Definition hasChannel `{Poller P} (inLoop : bool) (channel : Z) (cs : channels) (p : P) : outcome bool :=
  inloop* inLoop in
  match cs !! channel with
  | Some c => Ret (bool_decide (channels_ p !! fd_ c = Some channel))
  | None => Stop OutOfRange
  end.

(** What is asked of the events of a channel: none. *)
Definition wanted (c : Channel) : option Z := if decide (events_ c = kNoneEvent) then None else Some (events_ c).

(** The contract. A channel is new (index -1 and no channel for its descriptor)
    or registered; an update registers it and from then on exactly its events
    are monitored, provided the update asks for some event or withdraws one
    that was monitored. A registered channel that asks for nothing and is not
    monitored can be removed. The other channels keep what they had. *)
Class PollerSpec (P : Type) `{Poller P} := {
  poller_inv : channels -> P -> Prop;
  inv_channel cs p fd ptr : poller_inv cs p -> channels_ p !! fd = Some ptr ->
    exists c, cs !! ptr = Some c /\ fd_ c = fd;
  inv_interest cs p fd : poller_inv cs p -> channels_ p !! fd = None -> interest p fd = None;
  (** the invariant does not depend on what the poller does not use *)
  inv_frame cs p ptr c c' : poller_inv cs p -> cs !! ptr = Some c -> fd_ c' = fd_ c -> index_ c' = index_ c ->
    poller_inv (<[ptr := c']> cs) p;
  inv_new cs p ptr c : poller_inv cs p -> cs !! ptr = None -> poller_inv (<[ptr := c]> cs) p;
  update_spec cs p ptr c :
    poller_inv cs p -> cs !! ptr = Some c -> 0 <= fd_ c -> events_ok c ->
    Z.of_nat (size (channels_ p)) < 2 ^ 30 ->
    (index_ c = -1 /\ channels_ p !! fd_ c = None) \/ channels_ p !! fd_ c = Some ptr ->
    events_ c <> kNoneEvent \/ is_Some (interest p (fd_ c)) ->
    exists cs' p', updateChannel true ptr cs p = Ret (cs', p') /\ poller_inv cs' p' /\
      forget_index cs' = forget_index cs /\ channels_ p' = <[fd_ c := ptr]> (channels_ p) /\
      forall fd, interest p' fd = if decide (fd = fd_ c) then wanted c else interest p fd;
  remove_spec cs p ptr c :
    poller_inv cs p -> cs !! ptr = Some c -> channels_ p !! fd_ c = Some ptr ->
    events_ c = kNoneEvent -> interest p (fd_ c) = None ->
    exists cs' p', removeChannel true ptr cs p = Ret (cs', p') /\ poller_inv cs' p' /\
      forget_index cs' = forget_index cs /\ channels_ p' = delete (fd_ c) (channels_ p) /\
      forall fd, interest p' fd = interest p fd
}.

(** ** PollPoller *)

Record pollfd := mkPollfd { pfd_fd : Z; pfd_events : Z; pfd_revents : Z }.

Record PollPoller := mkPollPoller {
  pollfds_ : list pollfd;
  poll_channels_ : gmap Z Z
}.

Definition newPollPoller : PollPoller := mkPollPoller [] ∅.

Definition chan (ptr : Z) (cs : channels) : outcome Channel :=
  match cs !! ptr with Some c => Ret c | None => Stop OutOfRange end.

Module Poll.
Definition updateChannel (inLoop : bool) (channel : Z) (cs : channels) (p : PollPoller)
    : outcome (channels * PollPoller) :=
  inloop* inLoop in
  let* c := chan channel cs in
  if decide (index_ c < 0) then
    assert* bool_decide (poll_channels_ p !! fd_ c = None) in
    let pfd := mkPollfd (fd_ c) (i16 (events_ c)) 0 in
    let pollfds := pollfds_ p ++ [pfd] in
    let idx := i32 (zlen pollfds) - 1 in
    Ret (<[channel := set_index idx c]> cs, mkPollPoller pollfds (<[pfd_fd pfd := channel]> (poll_channels_ p)))
  else
    assert* bool_decide (is_Some (poll_channels_ p !! fd_ c)) in
    assert* bool_decide (poll_channels_ p !! fd_ c = Some channel) in
    let idx := index_ c in
    assert* bool_decide (0 <= idx /\ idx < i32 (zlen (pollfds_ p))) in
    match pollfds_ p !! Z.to_nat idx with
    | None => Stop OutOfRange
    | Some pfd =>
        assert* bool_decide (pfd_fd pfd = fd_ c \/ pfd_fd pfd = - fd_ c - 1) in
        let fd := if isNoneEvent c then - fd_ c - 1 else fd_ c in
        let pfd := mkPollfd fd (i16 (events_ c)) 0 in
        Ret (cs, mkPollPoller (<[Z.to_nat idx := pfd]> (pollfds_ p)) (poll_channels_ p))
    end.

Definition removeChannel (inLoop : bool) (channel : Z) (cs : channels) (p : PollPoller)
    : outcome (channels * PollPoller) :=
  inloop* inLoop in
  let* c := chan channel cs in
  assert* bool_decide (is_Some (poll_channels_ p !! fd_ c)) in
  assert* bool_decide (poll_channels_ p !! fd_ c = Some channel) in
  assert* isNoneEvent c in
  let idx := index_ c in
  assert* bool_decide (0 <= idx /\ idx < i32 (zlen (pollfds_ p))) in
  match pollfds_ p !! Z.to_nat idx, last (pollfds_ p) with
  | Some pfd, Some back =>
      assert* bool_decide (pfd_fd pfd = - fd_ c - 1 /\ pfd_events pfd = events_ c) in
      assert* bool_decide (is_Some (poll_channels_ p !! fd_ c)) in
      let chs := delete (fd_ c) (poll_channels_ p) in
      if decide (idx = zlen (pollfds_ p) - 1) then
        Ret (cs, mkPollPoller (take (length (pollfds_ p) - 1)%nat (pollfds_ p)) chs)
      else
        let channelAtEnd := pfd_fd back in
        (* iter_swap of the entry at idx with the last one *)
        let pollfds := <[(length (pollfds_ p) - 1)%nat := pfd]> (<[Z.to_nat idx := back]> (pollfds_ p)) in
        let channelAtEnd := if decide (channelAtEnd < 0) then - channelAtEnd - 1 else channelAtEnd in
        match chs !! channelAtEnd with
        | None => Stop OutOfRange
        | Some other =>
            let* oc := chan other cs in
            Ret (<[other := set_index idx oc]> cs, mkPollPoller (take (length pollfds - 1)%nat pollfds) chs)
        end
  | _, _ => Stop OutOfRange
  end.

(** [fillActiveChannels], over the entries that [::poll] filled in. *)
Fixpoint fillActiveChannels (numEvents : Z) (pollfds : list pollfd) (chs : gmap Z Z) (cs : channels)
    : outcome (list Z * channels) :=
  match pollfds with
  | [] => Ret ([], cs)
  | pfd :: pollfds =>
      if decide (0 < numEvents) then
        if decide (0 < pfd_revents pfd) then
          match chs !! pfd_fd pfd with
          | None => Stop AssertFailed
          | Some channel =>
              let* c := chan channel cs in
              assert* bool_decide (fd_ c = pfd_fd pfd) in
              let* (active, cs) := fillActiveChannels (numEvents - 1) pollfds chs
                                     (<[channel := set_revents (pfd_revents pfd) c]> cs) in
              Ret (channel :: active, cs)
          end
        else fillActiveChannels numEvents pollfds chs cs
      else Ret ([], cs)
  end.

(** What [::poll] stores in the entries: the descriptors that are not negative
    get their events, the others 0. *)
Definition sys_poll (ready : Z -> Z) (pfd : pollfd) : pollfd :=
  mkPollfd (pfd_fd pfd) (pfd_events pfd) (if decide (pfd_fd pfd < 0) then 0 else ready (pfd_fd pfd)).

(** [poll], given the result of the system call. *)
Definition poll (numEvents : Z) (ready : Z -> Z) (cs : channels) (p : PollPoller)
    : outcome (list Z * channels * PollPoller) :=
  let p := if decide (0 <= numEvents)
           then mkPollPoller (sys_poll ready <$> pollfds_ p) (poll_channels_ p) else p in
  if decide (0 < numEvents) then
    let* (active, cs) := fillActiveChannels numEvents (pollfds_ p) (poll_channels_ p) cs in
    Ret (active, cs, p)
  else Ret ([], cs, p).
End Poll.

(** ** EPollPoller *)

Definition kNew : Z := -1.
Definition kAdded : Z := 1.
Definition kDeleted : Z := 2.
Definition kInitEventListSize : Z := 16.

Inductive epoll_op := EPOLL_CTL_ADD | EPOLL_CTL_MOD | EPOLL_CTL_DEL.

(** The kernel's side of an epoll descriptor: what is registered, as events and
    [data.ptr], and [epoll_ctl], which fails or changes it as documented. *)
Class Epoll (K : Type) := {
  registered : K -> gmap Z (Z * Z);
  epoll_ctl : K -> epoll_op -> Z -> Z * Z -> option K;
  ctl_add k fd ev : 0 <= fd -> registered k !! fd = None ->
    exists k', epoll_ctl k EPOLL_CTL_ADD fd ev = Some k' /\ registered k' = <[fd := ev]> (registered k);
  ctl_mod k fd ev : is_Some (registered k !! fd) ->
    exists k', epoll_ctl k EPOLL_CTL_MOD fd ev = Some k' /\ registered k' = <[fd := ev]> (registered k);
  ctl_del k fd ev : is_Some (registered k !! fd) ->
    exists k', epoll_ctl k EPOLL_CTL_DEL fd ev = Some k' /\ registered k' = delete fd (registered k)
}.

Record EPollPoller (K : Type) := mkEPollPoller {
  epollfd_ : K;
  (** the size of [events_] *)
  events_size : Z;
  epoll_channels_ : gmap Z Z
}.
Arguments mkEPollPoller {K} _ _ _.
Arguments epollfd_ {K} _.
Arguments events_size {K} _.
Arguments epoll_channels_ {K} _.

Module EPoll.
Section EPoll.
Context `{Epoll K}.

Definition newEPollPoller (k : K) : EPollPoller K := mkEPollPoller k kInitEventListSize ∅.

(** [update(operation, channel)]: a failing deletion is only logged. *)
Definition update (operation : epoll_op) (channel : Z) (c : Channel) (p : EPollPoller K) : outcome (EPollPoller K) :=
  match epoll_ctl (epollfd_ p) operation (fd_ c) (events_ c, channel) with
  | Some k => Ret (mkEPollPoller k (events_size p) (epoll_channels_ p))
  | None => match operation with EPOLL_CTL_DEL => Ret p | _ => Stop LogFatal end
  end.

Definition updateChannel (inLoop : bool) (channel : Z) (cs : channels) (p : EPollPoller K)
    : outcome (channels * EPollPoller K) :=
  inloop* inLoop in
  let* c := chan channel cs in
  let index := index_ c in
  let fd := fd_ c in
  if decide (index = kNew \/ index = kDeleted) then
    let* p :=
      (if decide (index = kNew) then
         assert* bool_decide (epoll_channels_ p !! fd = None) in
         Ret (mkEPollPoller (epollfd_ p) (events_size p) (<[fd := channel]> (epoll_channels_ p)))
       else
         assert* bool_decide (is_Some (epoll_channels_ p !! fd)) in
         assert* bool_decide (epoll_channels_ p !! fd = Some channel) in
         Ret p) in
    let c := set_index kAdded c in
    let* p := update EPOLL_CTL_ADD channel c p in
    Ret (<[channel := c]> cs, p)
  else
    assert* bool_decide (is_Some (epoll_channels_ p !! fd)) in
    assert* bool_decide (epoll_channels_ p !! fd = Some channel) in
    assert* bool_decide (index = kAdded) in
    if isNoneEvent c then
      let* p := update EPOLL_CTL_DEL channel c p in
      Ret (<[channel := set_index kDeleted c]> cs, p)
    else
      let* p := update EPOLL_CTL_MOD channel c p in
      Ret (cs, p).

Definition removeChannel (inLoop : bool) (channel : Z) (cs : channels) (p : EPollPoller K)
    : outcome (channels * EPollPoller K) :=
  inloop* inLoop in
  let* c := chan channel cs in
  let fd := fd_ c in
  assert* bool_decide (is_Some (epoll_channels_ p !! fd)) in
  assert* bool_decide (epoll_channels_ p !! fd = Some channel) in
  assert* isNoneEvent c in
  let index := index_ c in
  assert* bool_decide (index = kAdded \/ index = kDeleted) in
  let p := mkEPollPoller (epollfd_ p) (events_size p) (delete fd (epoll_channels_ p)) in
  let* p := (if decide (index = kAdded) then update EPOLL_CTL_DEL channel c p else Ret p) in
  Ret (<[channel := set_index kNew c]> cs, p).

(** [fillActiveChannels], over the events that [epoll_wait] stored. *)
Fixpoint fill_each (events : list (Z * Z)) (chs : gmap Z Z) (cs : channels) : outcome (list Z * channels) :=
  match events with
  | [] => Ret ([], cs)
  | (ev, channel) :: events =>
      let* c := chan channel cs in
      assert* bool_decide (chs !! fd_ c = Some channel) in
      let* (active, cs) := fill_each events chs (<[channel := set_revents ev c]> cs) in
      Ret (channel :: active, cs)
  end.
Definition fillActiveChannels (events : list (Z * Z)) (cs : channels) (p : EPollPoller K) : outcome (list Z * channels) :=
  assert* bool_decide (zlen events <= events_size p) in
  fill_each events (epoll_channels_ p) cs.

(** [poll], given what [epoll_wait] returned: an error or the events. *)
Definition poll (result : option (list (Z * Z))) (cs : channels) (p : EPollPoller K)
    : outcome (list Z * channels * EPollPoller K) :=
  match result with
  | Some (_ :: _ as events) =>
      let* (active, cs) := fillActiveChannels events cs p in
      let size := if decide (zlen events = events_size p) then events_size p * 2 else events_size p in
      Ret (active, cs, mkEPollPoller (epollfd_ p) size (epoll_channels_ p))
  | Some [] | None => Ret ([], cs, p)
  end.
End EPoll.
End EPoll.

(** ** PollPoller implements the contract *)

(** An ignored entry holds [-fd-1]. *)
Definition real_fd (x : Z) : Z := if decide (x < 0) then - x - 1 else x.

Definition poll_interest (p : PollPoller) (fd : Z) : option Z :=
  if decide (fd < 0) then None
  else match list_find (fun e => pfd_fd e = fd) (pollfds_ p) with
       | Some (_, e) => Some (pfd_events e)
       | None => None
       end.

#[export] Instance PollPoller_Poller : Poller PollPoller := {
  channels_ := poll_channels_;
  interest := poll_interest;
  updateChannel := Poll.updateChannel;
  removeChannel := Poll.removeChannel
}.

(** Entries and channels point at each other. *)
Record poll_ok (cs : channels) (p : PollPoller) : Prop := mkPollOk {
  po_entry i e : pollfds_ p !! i = Some e ->
    exists ptr c, poll_channels_ p !! real_fd (pfd_fd e) = Some ptr /\ cs !! ptr = Some c /\
      fd_ c = real_fd (pfd_fd e) /\ index_ c = Z.of_nat i /\ (pfd_fd e < 0 -> pfd_events e = 0);
  po_channel fd ptr : poll_channels_ p !! fd = Some ptr ->
    exists c e, cs !! ptr = Some c /\ fd_ c = fd /\ 0 <= index_ c /\
      pollfds_ p !! Z.to_nat (index_ c) = Some e /\ real_fd (pfd_fd e) = fd;
  po_size : length (pollfds_ p) = size (poll_channels_ p);
  po_bound : zlen (pollfds_ p) <= 2 ^ 30
}.

Lemma poll_interest_none cs p fd : poll_ok cs p -> poll_channels_ p !! fd = None -> poll_interest p fd = None.
Proof.
  intros O N. unfold poll_interest. case_decide as D; [done|].
  destruct (list_find _ _) as [[i e]|] eqn:E; [|done]. apply list_find_Some in E as (H1 & H2 & _).
  destruct (po_entry _ _ O i e H1) as (ptr & c & K & _). unfold real_fd in K.
  rewrite decide_False in K by lia. congruence.
Qed.

Lemma poll_interest_at cs p fd ptr c e :
  poll_ok cs p -> poll_channels_ p !! fd = Some ptr -> cs !! ptr = Some c -> 0 <= fd ->
  pollfds_ p !! Z.to_nat (index_ c) = Some e ->
  poll_interest p fd = if decide (pfd_fd e < 0) then None else Some (pfd_events e).
Proof.
  intros O Hf Hp Hpos He.
  assert (real_fd (pfd_fd e) = fd) as Hr.
  { destruct (po_channel _ _ O _ _ Hf) as (c' & e' & ? & ? & ? & ? & ?). congruence. }
  assert (forall j e', pollfds_ p !! j = Some e' -> pfd_fd e' = fd -> j = Z.to_nat (index_ c)) as U.
  { intros j e' Hj Hfd. destruct (po_entry _ _ O j e' Hj) as (ptr' & c' & K1 & K2 & _ & K3 & _).
    unfold real_fd in K1. rewrite decide_False in K1 by lia. assert (ptr' = ptr) by congruence. subst.
    assert (c' = c) by congruence. subst. lia. }
  unfold poll_interest. rewrite decide_False by lia. unfold real_fd in Hr.
  destruct (list_find _ _) as [[j e']|] eqn:E.
  - apply list_find_Some in E as (H1 & H2 & _). specialize (U j e' H1 H2). subst j.
    assert (e' = e) by congruence. subst. by rewrite decide_False by lia.
  - case_decide as D; [done|]. apply list_find_None in E. rewrite Forall_forall in E.
    destruct (E e); [by eapply list_elem_of_lookup_2|]. done.
Qed.

(** The entries after the swap with the last one and the removal at the end. *)
Lemma swap_remove_lookup (l : list pollfd) idx e back i :
  l !! idx = Some e -> last l = Some back -> idx <> (length l - 1)%nat ->
  take (length l - 1)%nat (<[(length l - 1)%nat := e]> (<[idx := back]> l)) !! i =
    if decide (i = idx) then Some back else if decide (i < length l - 1)%nat then l !! i else None.
Proof.
  intros He Hb Hn. assert (idx < length l)%nat as L by by eapply lookup_lt_Some.
  rewrite lookup_take. destruct (decide (i < length l - 1)%nat) as [D|D], (decide (i = idx)) as [->|D']; [| |lia|done].
  - rewrite list_lookup_insert_ne by done. by rewrite list_lookup_insert_eq.
  - by rewrite !list_lookup_insert_ne by lia.
Qed.

Lemma forget_index_insert (cs : channels) ptr c i :
  cs !! ptr = Some c -> forget_index (<[ptr := set_index i c]> cs) = forget_index cs.
Proof.
  intros E. apply map_eq. intros q. unfold forget_index. rewrite !lookup_fmap.
  destruct (decide (q = ptr)) as [->|N]; [by rewrite lookup_insert_eq, E|by rewrite lookup_insert_ne].
Qed.

Lemma real_fd_nonneg x : 0 <= real_fd x.
Proof. unfold real_fd. case_decide; lia. Qed.

Lemma i32_zlen {A} (l : list A) : zlen l <= 2 ^ 30 -> i32 (zlen l) = zlen l.
Proof. intros. apply swrap_small; [lia|]. pose proof (zlen_nonneg l). lia. Qed.

Lemma i16_events c : events_ok c -> i16 (events_ c) = events_ c.
Proof. unfold events_ok. intros. apply swrap_small; lia. Qed.

Lemma poll_update_new cs p ptr c :
  poll_ok cs p -> cs !! ptr = Some c -> 0 <= fd_ c -> Z.of_nat (size (poll_channels_ p)) < 2 ^ 30 ->
  poll_channels_ p !! fd_ c = None ->
  poll_ok (<[ptr := set_index (zlen (pollfds_ p)) c]> cs)
    (mkPollPoller (pollfds_ p ++ [mkPollfd (fd_ c) (events_ c) 0]) (<[fd_ c := ptr]> (poll_channels_ p))).
Proof.
  intros O Hp Hf Hs Hn.
  assert (forall q d fd, poll_channels_ p !! fd = Some q -> cs !! q = Some d -> fd_ d = fd -> q <> ptr) as Ne.
  { intros q d fd H1 H2 H3 ->. congruence. }
  constructor; cbn [pollfds_ poll_channels_].
  - intros i e He. apply lookup_app_Some in He as [He|[Hl He]].
    + destruct (po_entry _ _ O i e He) as (q & d & H1 & H2 & H3 & H4 & H5). exists q, d.
      rewrite lookup_insert_ne by congruence. rewrite lookup_insert_ne; [done|]. intros <-. by eapply Ne.
    + apply list_lookup_singleton_Some in He as [Hi <-]. cbn [pfd_fd]. exists ptr, (set_index (zlen (pollfds_ p)) c).
      unfold real_fd. rewrite decide_False by lia. rewrite !lookup_insert_eq. cbn [index_ set_index fd_ pfd_events].
      unfold zlen. split_and!; try done; lia.
  - intros fd q H. apply lookup_insert_Some in H as [[<- <-]|[N H]].
    + exists (set_index (zlen (pollfds_ p)) c), (mkPollfd (fd_ c) (events_ c) 0). rewrite lookup_insert_eq.
      cbn [index_ set_index fd_ pfd_fd]. unfold zlen. rewrite Nat2Z.id, list_lookup_middle by done.
      unfold real_fd. rewrite decide_False by lia. split_and!; try done. lia.
    + destruct (po_channel _ _ O fd q H) as (d & e & H1 & H2 & H3 & H4 & H5). exists d, e.
      rewrite lookup_insert_ne by (intros <-; by eapply Ne). split_and!; try done. by apply lookup_app_l_Some.
  - rewrite length_app, map_size_insert_None, (po_size _ _ O) by done. cbn. lia.
  - rewrite zlen_app. unfold zlen at 1. rewrite (po_size _ _ O). unfold zlen. cbn. lia.
Qed.

Lemma poll_update_old cs p ptr c e fd :
  poll_ok cs p -> cs !! ptr = Some c -> poll_channels_ p !! fd_ c = Some ptr ->
  pollfds_ p !! Z.to_nat (index_ c) = Some e -> real_fd fd = fd_ c -> (fd < 0 -> events_ c = 0) ->
  poll_ok cs (mkPollPoller (<[Z.to_nat (index_ c) := mkPollfd fd (events_ c) 0]> (pollfds_ p)) (poll_channels_ p)).
Proof.
  intros O Hp Hc He Hr Hv. destruct (po_channel _ _ O _ _ Hc) as (c' & e' & H1 & _ & H2 & H3 & H4).
  assert (c' = c) by congruence. subst c'. assert (e' = e) by congruence. subst e'.
  constructor; cbn [pollfds_ poll_channels_].
  - intros i x Hx. apply list_lookup_insert_Some in Hx as [(<- & <- & L)|[N Hx]]; [|by apply (po_entry _ _ O)].
    cbn [pfd_fd pfd_events]. exists ptr, c. rewrite Hr. split_and!; try done. lia.
  - intros fd' q Hq. destruct (po_channel _ _ O fd' q Hq) as (d & x & K1 & K2 & K3 & K4 & K5). exists d.
    destruct (decide (Z.to_nat (index_ c) = Z.to_nat (index_ d))) as [E|N].
    + exists (mkPollfd fd (events_ c) 0). rewrite E, list_lookup_insert_eq by (by eapply lookup_lt_Some).
      split_and!; try done. cbn. rewrite Hr. rewrite <- E, He in K4. congruence.
    + exists x. by rewrite list_lookup_insert_ne by done.
  - rewrite length_insert. apply O.
  - unfold zlen. rewrite length_insert. apply O.
Qed.


(** The state after [removeChannel]: at [idx] now the entry that was last. *)
Lemma poll_remove_swap cs p ptr c e back other oc :
  poll_ok cs p -> cs !! ptr = Some c -> poll_channels_ p !! fd_ c = Some ptr ->
  pollfds_ p !! Z.to_nat (index_ c) = Some e -> last (pollfds_ p) = Some back ->
  index_ c <> zlen (pollfds_ p) - 1 ->
  poll_channels_ p !! real_fd (pfd_fd back) = Some other -> cs !! other = Some oc ->
  poll_ok (<[other := set_index (index_ c) oc]> cs)
    (mkPollPoller (take (length (pollfds_ p) - 1)%nat
        (<[(length (pollfds_ p) - 1)%nat := e]> (<[Z.to_nat (index_ c) := back]> (pollfds_ p))))
      (delete (fd_ c) (poll_channels_ p))).
Proof.
  intros O Hp Hc He Hb Hi Ho Hoc. destruct (po_channel _ _ O _ _ Hc) as (c' & e' & H1 & _ & H2 & H3 & H4).
  assert (c' = c) by congruence. subst c'. assert (e' = e) by congruence. subst e'.
  assert (0 < length (pollfds_ p))%nat as Hl by (apply lookup_lt_Some in He; lia).
  unfold zlen in Hi. assert (Z.to_nat (index_ c) <> length (pollfds_ p) - 1)%nat as Hi' by lia.
  pose proof (fun i => swap_remove_lookup (pollfds_ p) (Z.to_nat (index_ c)) e back i He Hb Hi') as L.
  assert (pollfds_ p !! (length (pollfds_ p) - 1)%nat = Some back) as Hb'.
  { rewrite last_lookup in Hb. by rewrite Nat.sub_1_r. }
  destruct (po_entry _ _ O _ _ Hb') as (o' & oc' & J1 & J2 & J3 & J4 & J5).
  assert (o' = other) by congruence. subst o'. assert (oc' = oc) by congruence. subst oc'.
  assert (real_fd (pfd_fd back) <> fd_ c) as Hne by (intros E; rewrite E in J1; assert (oc = c) by congruence; subst; lia).
  constructor; cbn [pollfds_ poll_channels_].
  - intros i x. rewrite L. case_decide as D; [|case_decide as D2; [|done]].
    + intros [= <-]. exists other, (set_index (index_ c) oc). rewrite lookup_delete_ne, lookup_insert_eq by done.
      cbn [fd_ set_index index_]. split_and!; try done. lia.
    + intros Hx. destruct (po_entry _ _ O i x Hx) as (q & d & K1 & K2 & K3 & K4 & K5). exists q, d.
      assert (real_fd (pfd_fd x) <> fd_ c).
      { intros E. rewrite E in K1. assert (d = c) by congruence. subst. lia. }
      rewrite lookup_delete_ne by done. rewrite lookup_insert_ne; [done|]. intros <-.
      assert (d = oc) by congruence. subst. lia.
  - intros fd q Hq. apply lookup_delete_Some in Hq as [N Hq].
    destruct (po_channel _ _ O fd q Hq) as (d & x & K1 & K2 & K3 & K4 & K5).
    destruct (decide (q = other)) as [->|Nq].
    + assert (d = oc) by congruence. subst d. exists (set_index (index_ c) oc), back.
      rewrite lookup_insert_eq. cbn [fd_ set_index index_]. rewrite L, decide_True by done. split_and!; try done.
      congruence.
    + exists d, x. rewrite lookup_insert_ne by done. split_and!; try done. rewrite L.
      assert (Z.to_nat (index_ d) < length (pollfds_ p))%nat as Lt by (by eapply lookup_lt_Some).
      rewrite decide_False by (intros E; rewrite E, He in K4; congruence).
      rewrite decide_True; [done|]. assert (Z.to_nat (index_ d) <> length (pollfds_ p) - 1)%nat; [|lia].
      intros E. rewrite E, Hb' in K4. congruence.
  - rewrite length_take, !length_insert, map_size_delete_Some, (po_size _ _ O) by (by eexists). lia.
  - unfold zlen. rewrite length_take, !length_insert. pose proof (po_bound _ _ O). unfold zlen in *. lia.
Qed.

Lemma poll_remove_last cs p ptr c :
  poll_ok cs p -> cs !! ptr = Some c -> poll_channels_ p !! fd_ c = Some ptr ->
  index_ c = zlen (pollfds_ p) - 1 ->
  poll_ok cs (mkPollPoller (take (length (pollfds_ p) - 1)%nat (pollfds_ p)) (delete (fd_ c) (poll_channels_ p))).
Proof.
  intros O Hp Hc Hi. destruct (po_channel _ _ O _ _ Hc) as (c' & e & H1 & _ & H2 & H3 & H4).
  assert (c' = c) by congruence. subst c'.
  constructor; cbn [pollfds_ poll_channels_].
  - intros i x Hx. apply lookup_take_Some in Hx as [Hx Li].
    destruct (po_entry _ _ O i x Hx) as (q & d & K1 & K2 & K3 & K4 & K5). exists q, d.
    rewrite lookup_delete_ne; [done|]. intros E. rewrite <- E in K1. assert (d = c) by congruence. subst.
    unfold zlen in Hi. lia.
  - intros fd q Hq. apply lookup_delete_Some in Hq as [N Hq].
    destruct (po_channel _ _ O fd q Hq) as (d & x & K1 & K2 & K3 & K4 & K5). exists d, x. split_and!; try done.
    apply lookup_take_Some. split; [done|].
    assert (Z.to_nat (index_ d) < length (pollfds_ p))%nat as Lt by (by eapply lookup_lt_Some).
    assert (Z.to_nat (index_ d) <> length (pollfds_ p) - 1)%nat; [|lia].
    intros E. rewrite E in K4. unfold zlen in Hi. rewrite Hi in H3.
    replace (Z.to_nat (Z.of_nat (length (pollfds_ p)) - 1)) with (length (pollfds_ p) - 1)%nat in H3 by lia. congruence.
  - rewrite length_take, map_size_delete_Some, (po_size _ _ O) by (by eexists). lia.
  - unfold zlen. rewrite length_take. pose proof (po_bound _ _ O). unfold zlen in *. lia.
Qed.

(** The entry of a descriptor, through the index of its channel. *)
Definition entry_of (cs : channels) (p : PollPoller) (fd : Z) : option pollfd :=
  ptr ← poll_channels_ p !! fd; c ← cs !! ptr; pollfds_ p !! Z.to_nat (index_ c).
Definition monitored (e : option pollfd) : option Z :=
  match e with Some e => if decide (pfd_fd e < 0) then None else Some (pfd_events e) | None => None end.

Lemma poll_interest_entry cs p fd : poll_ok cs p -> poll_interest p fd = monitored (entry_of cs p fd).
Proof.
  intros O. unfold entry_of. destruct (poll_channels_ p !! fd) as [ptr|] eqn:E; [|by eapply poll_interest_none].
  destruct (po_channel _ _ O _ _ E) as (c & e & H1 & H2 & H3 & H4 & H5). cbn. rewrite H1. cbn. rewrite H4.
  eapply poll_interest_at; try done. rewrite <- H5. apply real_fd_nonneg.
Qed.

(** Registered channels other than [ptr] keep their entry if their index and
    the entry at it are kept. *)
Lemma entry_of_frame cs p cs' p' fd :
  poll_ok cs p -> poll_channels_ p' !! fd = poll_channels_ p !! fd ->
  (forall ptr c e, poll_channels_ p !! fd = Some ptr -> cs !! ptr = Some c -> pollfds_ p !! Z.to_nat (index_ c) = Some e ->
     exists c', cs' !! ptr = Some c' /\ pollfds_ p' !! Z.to_nat (index_ c') = Some e) ->
  entry_of cs' p' fd = entry_of cs p fd.
Proof.
  intros O Hc H. unfold entry_of. rewrite Hc. destruct (poll_channels_ p !! fd) as [ptr|] eqn:E; [|done]. cbn.
  destruct (po_channel _ _ O _ _ E) as (c & e & H1 & H2 & H3 & H4 & H5).
  destruct (H ptr c e eq_refl H1 H4) as (c' & K1 & K2). by rewrite K1, H1; cbn; rewrite K2, H4.
Qed.

Lemma poll_update_spec cs p ptr c :
  poll_ok cs p -> cs !! ptr = Some c -> 0 <= fd_ c -> events_ok c ->
  Z.of_nat (size (poll_channels_ p)) < 2 ^ 30 ->
  (index_ c = -1 /\ poll_channels_ p !! fd_ c = None) \/ poll_channels_ p !! fd_ c = Some ptr ->
  events_ c <> kNoneEvent \/ is_Some (poll_interest p (fd_ c)) ->
  exists cs' p', Poll.updateChannel true ptr cs p = Ret (cs', p') /\ poll_ok cs' p' /\
    forget_index cs' = forget_index cs /\ poll_channels_ p' = <[fd_ c := ptr]> (poll_channels_ p) /\
    forall fd, poll_interest p' fd = if decide (fd = fd_ c) then wanted c else poll_interest p fd.
Proof.
  intros O Hp Hf Hv Hs Hr Hi. unfold Poll.updateChannel, chan. cbn [assertInLoopThread]. rewrite Hp. cbn [obind].
  rewrite i16_events by done. pose proof (po_bound _ _ O) as B.
  destruct Hr as [[Hx Hn]|Hr].
  - rewrite decide_True, bool_decide_eq_true_2 by (done || lia). cbn [check pfd_fd].
    assert (i32 (zlen (pollfds_ p ++ [mkPollfd (fd_ c) (events_ c) 0])) - 1 = zlen (pollfds_ p)) as ->.
    { unfold zlen in *. rewrite (po_size _ _ O) in B. rewrite swrap_small; rewrite ?length_app, ?(po_size _ _ O); cbn [length]; lia. }
    pose proof (poll_update_new cs p ptr c O Hp Hf Hs Hn) as O'. eexists _, _.
    split; [reflexivity|]. split; [done|]. split; [by apply forget_index_insert|]. split; [done|].
    intros fd. rewrite (poll_interest_entry _ _ _ O'). case_decide as D.
    + subst fd. unfold entry_of. cbn [poll_channels_ pollfds_]. rewrite lookup_insert_eq. cbn. rewrite lookup_insert_eq. cbn.
      unfold zlen. rewrite Nat2Z.id, list_lookup_middle by done. cbn. rewrite decide_False by lia. unfold wanted.
      destruct Hi as [Hi|[? Hi]]; [by rewrite decide_False|].
      by rewrite (poll_interest_none cs p) in Hi.
    + rewrite (poll_interest_entry _ _ _ O). f_equal. eapply entry_of_frame; [done|by cbn; rewrite lookup_insert_ne|].
      intros q d e H1 H2 H3. exists d. cbn. rewrite lookup_insert_ne; [split; [done|by apply lookup_app_l_Some]|].
      intros <-. destruct (po_channel _ _ O _ _ H1) as (d' & ? & ? & ? & _). congruence.
  - destruct (po_channel _ _ O _ _ Hr) as (c' & e & H1 & _ & H2 & H3 & H4). assert (c' = c) by congruence. subst c'.
    rewrite decide_False by lia. rewrite Hr. rewrite (bool_decide_eq_true_2 (is_Some (Some ptr))), (bool_decide_eq_true_2 (Some ptr = Some ptr)) by (done || by eexists). cbn [check].
    rewrite i32_zlen by done. pose proof (lookup_lt_Some _ _ _ H3) as L.
    rewrite bool_decide_eq_true_2 by (unfold zlen; lia). cbn [check]. rewrite H3.
    rewrite bool_decide_eq_true_2; [|unfold real_fd in H4; destruct (decide (pfd_fd e < 0)); lia]. cbn [check].
    set (fd := if isNoneEvent c then - fd_ c - 1 else fd_ c).
    assert (real_fd fd = fd_ c /\ (fd < 0 -> events_ c = 0)) as [Hfd Hneg].
    { unfold fd, isNoneEvent, real_fd. case_bool_decide; [rewrite decide_True by lia|rewrite decide_False by lia]; split; try done; lia. }
    pose proof (poll_update_old cs p ptr c e fd O Hp Hr H3 Hfd Hneg) as O'. eexists cs, _.
    split; [reflexivity|]. split; [done|]. split; [done|]. split; [cbn; by rewrite insert_id|].
    intros fd'. rewrite (poll_interest_entry _ _ _ O'). case_decide as D.
    + subst fd'. unfold entry_of. cbn [poll_channels_ pollfds_]. rewrite Hr. cbn. rewrite Hp. cbn.
      rewrite list_lookup_insert_eq by done. cbn. unfold wanted, fd, isNoneEvent.
      case_bool_decide as Hz; [rewrite !decide_True by (done || lia)|rewrite !decide_False by (done || lia)]; done.
    + rewrite (poll_interest_entry _ _ _ O). f_equal. eapply entry_of_frame; [done|done|].
      intros q d e' K1 K2 K3. exists d. split; [done|]. cbn. rewrite list_lookup_insert_ne; [done|].
      intros E. destruct (po_channel _ _ O _ _ K1) as (d' & e2 & J1 & J2 & J3 & J4 & J5).
      assert (d' = d) by congruence. subst. rewrite <- E, H3 in J4. congruence.
Qed.

Lemma poll_remove_spec cs p ptr c :
  poll_ok cs p -> cs !! ptr = Some c -> poll_channels_ p !! fd_ c = Some ptr ->
  events_ c = kNoneEvent -> poll_interest p (fd_ c) = None ->
  exists cs' p', Poll.removeChannel true ptr cs p = Ret (cs', p') /\ poll_ok cs' p' /\
    forget_index cs' = forget_index cs /\ poll_channels_ p' = delete (fd_ c) (poll_channels_ p) /\
    forall fd, poll_interest p' fd = poll_interest p fd.
Proof.
  intros O Hp Hr Hv Hi. unfold Poll.removeChannel, chan. cbn [assertInLoopThread]. rewrite Hp. cbn [obind].
  destruct (po_channel _ _ O _ _ Hr) as (c' & e & H1 & _ & H2 & H3 & H4). assert (c' = c) by congruence. subst c'.
  assert (0 <= fd_ c) as Hpos by (rewrite <- H4; apply real_fd_nonneg).
  rewrite (poll_interest_at cs p _ ptr c e O Hr Hp Hpos H3) in Hi. case_decide as Hneg; [|done].
  pose proof (lookup_lt_Some _ _ _ H3) as L. destruct (po_entry _ _ O _ _ H3) as (_ & _ & _ & _ & _ & _ & He).
  rewrite Hr.
  rewrite (bool_decide_eq_true_2 (is_Some (Some ptr))), (bool_decide_eq_true_2 (Some ptr = Some ptr)) by (done || by eexists).
  cbn [check]. unfold isNoneEvent.
  rewrite bool_decide_eq_true_2 by done. cbn [check]. rewrite i32_zlen by apply O.
  rewrite bool_decide_eq_true_2 by (unfold zlen; lia). cbn [check]. rewrite H3.
  assert (exists back, last (pollfds_ p) = Some back) as [back Hb].
  { destruct (last (pollfds_ p)) eqn:E; [by eexists|]. apply last_None in E. rewrite E in H3. done. }
  rewrite Hb. unfold real_fd in H4. rewrite decide_True in H4 by done.
  rewrite bool_decide_eq_true_2; [|split; [lia|rewrite He by done; done]]. cbn [check].
  assert (forall cs' p', poll_ok cs' p' -> poll_channels_ p' = delete (fd_ c) (poll_channels_ p) ->
    (forall fd, fd <> fd_ c -> entry_of cs' p' fd = entry_of cs p fd) ->
    forall fd, poll_interest p' fd = poll_interest p fd) as Fin.
  { intros cs' p' O' Hc' Hf fd. destruct (decide (fd = fd_ c)) as [->|N].
    - rewrite (poll_interest_at cs p _ ptr c e O Hr Hp Hpos H3), decide_True by done.
      eapply poll_interest_none; [done|]. rewrite Hc'. apply lookup_delete_eq.
    - rewrite (poll_interest_entry _ _ _ O'), (poll_interest_entry _ _ _ O). f_equal. auto. }
  case_decide as D.
  - pose proof (poll_remove_last cs p ptr c O Hp Hr D) as O'. eexists cs, _. split; [reflexivity|]. split; [done|].
    split; [done|]. split; [done|]. apply (Fin _ _ O'); [done|]. intros fd N. eapply entry_of_frame; [done|by cbn; rewrite lookup_delete_ne|].
    intros q d x K1 K2 K3. exists d. split; [done|]. cbn. apply lookup_take_Some. split; [done|].
    pose proof (lookup_lt_Some _ _ _ K3). assert (Z.to_nat (index_ d) <> Z.to_nat (index_ c)); [|unfold zlen in D; lia].
    intros E. destruct (po_channel _ _ O _ _ K1) as (d' & e2 & J1 & J2 & J3 & J4 & J5).
    assert (d' = d) by congruence. subst. rewrite E, H3 in J4. injection J4 as <-. unfold real_fd in J5.
    rewrite decide_True in J5 by done. lia.
  - set (cae := if decide (pfd_fd back < 0) then _ else _). change cae with (real_fd (pfd_fd back)).
    assert (pollfds_ p !! (length (pollfds_ p) - 1)%nat = Some back) as Hb' by (rewrite last_lookup in Hb; by rewrite Nat.sub_1_r).
    destruct (po_entry _ _ O _ _ Hb') as (other & oc & J1 & J2 & J3 & J4 & J5).
    assert (real_fd (pfd_fd back) <> fd_ c) as Hne.
    { intros E. rewrite E in J1. assert (oc = c) by congruence. subst. unfold zlen in D. lia. }
    rewrite lookup_delete_ne, J1 by done. rewrite J2. cbn [obind]. rewrite !length_insert.
    pose proof (poll_remove_swap cs p ptr c e back other oc O Hp Hr H3 Hb D J1 J2) as O'.
    eexists _, _. split; [reflexivity|]. split; [done|]. split; [by apply forget_index_insert|]. split; [done|].
    apply (Fin _ _ O'); [done|]. intros fd N. eapply entry_of_frame; [done|by cbn; rewrite lookup_delete_ne|].
    intros q d x K1 K2 K3. unfold zlen in D. assert (Z.to_nat (index_ c) <> length (pollfds_ p) - 1)%nat as D' by lia.
    pose proof (fun i => swap_remove_lookup (pollfds_ p) (Z.to_nat (index_ c)) e back i H3 Hb D') as Lk.
    cbn [pollfds_]. destruct (decide (q = other)) as [->|Nq].
    + assert (d = oc) by congruence. subst d. exists (set_index (index_ c) oc). rewrite lookup_insert_eq. cbn [index_ set_index].
      rewrite Lk, decide_True by done. split; [done|]. rewrite J4, Nat2Z.id in K3. congruence.
    + exists d. rewrite lookup_insert_ne by done. split; [done|]. rewrite Lk.
      destruct (po_channel _ _ O _ _ K1) as (d' & e2 & M1 & M2 & M3 & M4 & M5). assert (d' = d) by congruence. subst d'.
      pose proof (lookup_lt_Some _ _ _ K3). rewrite decide_False.
      * rewrite decide_True; [done|]. assert (Z.to_nat (index_ d) <> length (pollfds_ p) - 1)%nat; [|lia].
        intros E. rewrite E, Hb' in K3. injection K3 as <-. assert (fd = real_fd (pfd_fd back)) by congruence.
        subst fd. congruence.
      * intros E. rewrite E, H3 in M4. injection M4 as <-. unfold real_fd in M5. rewrite decide_True in M5 by done. lia.
Qed.

#[export] Instance PollPoller_Spec : PollerSpec PollPoller.
Proof.
  refine {| poller_inv := poll_ok |}.
  - intros cs p fd ptr O H. destruct (po_channel _ _ O _ _ H) as (c & e & ? & ? & _). eauto.
  - apply poll_interest_none.
  - intros cs p ptr c c' O E Hf Hx. constructor; [| |apply O|apply O].
    + intros i e He. destruct (po_entry _ _ O i e He) as (q & d & H1 & H2 & H3 & H4 & H5). exists q.
      destruct (decide (q = ptr)) as [->|N]; [exists c'; rewrite lookup_insert_eq|exists d; by rewrite lookup_insert_ne].
      split_and!; try done; congruence.
    + intros fd q Hq. destruct (po_channel _ _ O fd q Hq) as (d & e & H1 & H2 & H3 & H4 & H5).
      destruct (decide (q = ptr)) as [->|N]; [exists c', e; rewrite lookup_insert_eq|exists d, e; by rewrite lookup_insert_ne].
      assert (d = c) by congruence. subst. rewrite Hx. split_and!; try done; congruence.
  - intros cs p ptr c O E. constructor; [| |apply O|apply O].
    + intros i e He. destruct (po_entry _ _ O i e He) as (q & d & H1 & H2 & H3 & H4 & H5). exists q, d.
      by rewrite lookup_insert_ne by congruence.
    + intros fd q Hq. destruct (po_channel _ _ O fd q Hq) as (d & e & H1 & H2 & H3 & H4 & H5). exists d, e.
      by rewrite lookup_insert_ne by congruence.
  - apply poll_update_spec.
  - apply poll_remove_spec.
Defined.

(** ** EPollPoller implements the contract *)

Section EPollSpec.
Context `{Epoll K}.

Definition epoll_interest (p : EPollPoller K) (fd : Z) : option Z := fst <$> registered (epollfd_ p) !! fd.

#[export] Instance EPollPoller_Poller : Poller (EPollPoller K) := {
  channels_ := epoll_channels_;
  interest := epoll_interest;
  updateChannel := EPoll.updateChannel;
  removeChannel := EPoll.removeChannel
}.

(** The states of a channel: kAdded is in the kernel's set, kDeleted is not. *)
Definition chan_state (p : EPollPoller K) (ptr : Z) (c : Channel) : Prop :=
  (index_ c = kAdded /\ exists ev, registered (epollfd_ p) !! fd_ c = Some (ev, ptr)) \/
  (index_ c = kDeleted /\ registered (epollfd_ p) !! fd_ c = None).

Record epoll_ok (cs : channels) (p : EPollPoller K) : Prop := mkEpollOk {
  eo_channel fd ptr : epoll_channels_ p !! fd = Some ptr ->
    exists c, cs !! ptr = Some c /\ fd_ c = fd /\ chan_state p ptr c;
  eo_free fd : epoll_channels_ p !! fd = None -> registered (epollfd_ p) !! fd = None
}.

(** One channel changes its index, its registration changes with it. *)
Lemma epoll_step cs p ptr c i k chs :
  epoll_ok cs p -> cs !! ptr = Some c ->
  epoll_channels_ p !! fd_ c = None \/ epoll_channels_ p !! fd_ c = Some ptr ->
  chan_state (mkEPollPoller k (events_size p) chs) ptr (set_index i c) ->
  (forall fd, fd <> fd_ c -> registered k !! fd = registered (epollfd_ p) !! fd) ->
  chs = <[fd_ c := ptr]> (epoll_channels_ p) ->
  epoll_ok (<[ptr := set_index i c]> cs) (mkEPollPoller k (events_size p) chs).
Proof.
  intros O Hp Hc St Fr ->. constructor; cbn [epoll_channels_ epollfd_].
  - intros fd q Hq. apply lookup_insert_Some in Hq as [[<- <-]|[N Hq]].
    + exists (set_index i c). by rewrite lookup_insert_eq.
    + destruct (eo_channel _ _ O _ _ Hq) as (d & H1 & H2 & H3). exists d.
      rewrite lookup_insert_ne by (intros <-; congruence). split_and!; try done.
      unfold chan_state in *. cbn [epollfd_]. by rewrite Fr by congruence.
  - intros fd [Hn N]%lookup_insert_None. rewrite Fr by congruence. by apply (eo_free _ _ O).
Qed.

Lemma update_none_interest p fd c : registered (epollfd_ p) !! fd = None ->
  (events_ c <> kNoneEvent \/ is_Some (epoll_interest p fd)) -> wanted c = Some (events_ c).
Proof.
  intros N [E|[? E]]; unfold wanted; [by rewrite decide_False|].
  unfold epoll_interest in E. by rewrite N in E.
Qed.

Lemma epoll_update_spec cs p ptr c :
  epoll_ok cs p -> cs !! ptr = Some c -> 0 <= fd_ c ->
  (index_ c = -1 /\ epoll_channels_ p !! fd_ c = None) \/ epoll_channels_ p !! fd_ c = Some ptr ->
  events_ c <> kNoneEvent \/ is_Some (epoll_interest p (fd_ c)) ->
  exists cs' p', EPoll.updateChannel true ptr cs p = Ret (cs', p') /\ epoll_ok cs' p' /\
    forget_index cs' = forget_index cs /\ epoll_channels_ p' = <[fd_ c := ptr]> (epoll_channels_ p) /\
    forall fd, epoll_interest p' fd = if decide (fd = fd_ c) then wanted c else epoll_interest p fd.
Proof.
  intros O Hp Hf Hr Hi. unfold EPoll.updateChannel, chan. cbn [assertInLoopThread]. rewrite Hp. cbn [obind].
  destruct Hr as [[Hx Hn]|Hr].
  - pose proof (eo_free _ _ O _ Hn) as Hk. rewrite decide_True by (by left). rewrite decide_True by done.
    rewrite bool_decide_eq_true_2 by done. cbn [check obind]. unfold EPoll.update. cbn [fd_ set_index events_ epollfd_].
    destruct (ctl_add (epollfd_ p) (fd_ c) (events_ c, ptr) Hf Hk) as (k' & -> & Hk'). cbn [obind]. eexists _, _.
    split; [reflexivity|]. split; [|split; [by apply forget_index_insert|split; [done|]]].
    + apply (epoll_step cs p); try done; [by left|..].
      * left. cbn. split; [done|]. exists (events_ c). rewrite Hk'. apply lookup_insert_eq.
      * intros fd N. rewrite Hk'. by apply lookup_insert_ne.
    + intros fd. unfold epoll_interest at 1. cbn. rewrite Hk'. case_decide as D.
      * subst. rewrite lookup_insert_eq. cbn. symmetry. by eapply update_none_interest.
      * by rewrite lookup_insert_ne by done.
  - destruct (eo_channel _ _ O _ _ Hr) as (c' & H1 & _ & St). assert (c' = c) by congruence. subst c'.
    destruct St as [[Hx [ev Hk]]|[Hx Hk]]; rewrite Hx.
    + rewrite decide_False by (unfold kAdded, kNew, kDeleted; lia). rewrite Hr.
      rewrite (bool_decide_eq_true_2 (is_Some (Some ptr))), (bool_decide_eq_true_2 (Some ptr = Some ptr)) by (done || by eexists).
      rewrite bool_decide_eq_true_2 by done. cbn [check]. unfold isNoneEvent, EPoll.update. cbn [fd_ set_index events_ epollfd_].
      case_bool_decide as Hv.
      * destruct (ctl_del (epollfd_ p) (fd_ c) (events_ c, ptr)) as (k' & -> & Hk'); [by eexists|]. cbn [obind].
        eexists _, _. split; [reflexivity|]. split; [|split; [by apply forget_index_insert|split; [by cbn; rewrite insert_id|]]].
        -- apply (epoll_step cs p); try done; [by right|..].
           ++ right. cbn. split; [done|]. rewrite Hk'. apply lookup_delete_eq.
           ++ intros fd N. rewrite Hk'. by apply lookup_delete_ne.
           ++ by rewrite insert_id.
        -- intros fd. unfold epoll_interest at 1. cbn. rewrite Hk'. case_decide as D.
           ++ subst. rewrite lookup_delete_eq. unfold wanted. by rewrite decide_True.
           ++ by rewrite lookup_delete_ne by done.
      * destruct (ctl_mod (epollfd_ p) (fd_ c) (events_ c, ptr)) as (k' & -> & Hk'); [by eexists|]. cbn [obind].
        eexists _, _. split; [reflexivity|]. split; [|split; [done|split; [by cbn; rewrite insert_id|]]].
        -- replace cs with (<[ptr := set_index kAdded c]> cs) at 1.
           2: { apply insert_id. rewrite Hp. f_equal. rewrite <- Hx. by destruct c. }
           apply (epoll_step cs p); try done; [by right|..].
           ++ left. cbn. split; [done|]. exists (events_ c). rewrite Hk'. apply lookup_insert_eq.
           ++ intros fd N. rewrite Hk'. by apply lookup_insert_ne.
           ++ by rewrite insert_id.
        -- intros fd. unfold epoll_interest at 1. cbn. rewrite Hk'. case_decide as D.
           ++ subst. rewrite lookup_insert_eq. unfold wanted. by rewrite decide_False.
           ++ by rewrite lookup_insert_ne by done.
    + rewrite decide_True by (by right). rewrite decide_False by done. rewrite Hr.
      rewrite (bool_decide_eq_true_2 (is_Some (Some ptr))), (bool_decide_eq_true_2 (Some ptr = Some ptr)) by (done || by eexists).
      cbn [check obind]. unfold EPoll.update. cbn [fd_ set_index events_ epollfd_].
      destruct (ctl_add (epollfd_ p) (fd_ c) (events_ c, ptr) Hf Hk) as (k' & -> & Hk'). cbn [obind]. eexists _, _.
      split; [reflexivity|]. split; [|split; [by apply forget_index_insert|split; [by cbn; rewrite insert_id|]]].
      * apply (epoll_step cs p); try done; [by right|..].
        -- left. cbn. split; [done|]. exists (events_ c). rewrite Hk'. apply lookup_insert_eq.
        -- intros fd N. rewrite Hk'. by apply lookup_insert_ne.
        -- by rewrite insert_id.
      * intros fd. unfold epoll_interest at 1. cbn. rewrite Hk'. case_decide as D.
        -- subst. rewrite lookup_insert_eq. cbn. symmetry. by eapply update_none_interest.
        -- by rewrite lookup_insert_ne by done.
Qed.

Lemma epoll_remove_spec cs p ptr c :
  epoll_ok cs p -> cs !! ptr = Some c -> epoll_channels_ p !! fd_ c = Some ptr ->
  events_ c = kNoneEvent -> epoll_interest p (fd_ c) = None ->
  exists cs' p', EPoll.removeChannel true ptr cs p = Ret (cs', p') /\ epoll_ok cs' p' /\
    forget_index cs' = forget_index cs /\ epoll_channels_ p' = delete (fd_ c) (epoll_channels_ p) /\
    forall fd, epoll_interest p' fd = epoll_interest p fd.
Proof.
  intros O Hp Hr Hv Hi. unfold EPoll.removeChannel, chan. cbn [assertInLoopThread]. rewrite Hp. cbn [obind].
  destruct (eo_channel _ _ O _ _ Hr) as (c' & H1 & _ & St). assert (c' = c) by congruence. subst c'.
  destruct St as [[Hx [ev Hk]]|[Hx Hk]]; [unfold epoll_interest in Hi; by rewrite Hk in Hi|]. rewrite Hr, Hx.
  rewrite (bool_decide_eq_true_2 (is_Some (Some ptr))), (bool_decide_eq_true_2 (Some ptr = Some ptr)) by (done || by eexists).
  unfold isNoneEvent. rewrite bool_decide_eq_true_2 by done. cbn [check].
  rewrite bool_decide_eq_true_2 by (by right). cbn [check]. rewrite decide_False by done. cbn [obind].
  eexists _, _. split; [reflexivity|]. split; [|split; [by apply forget_index_insert|done]].
  constructor; cbn [epoll_channels_ epollfd_].
  - intros fd q [N Hq]%lookup_delete_Some. destruct (eo_channel _ _ O _ _ Hq) as (d & K1 & K2 & K3). exists d.
    rewrite lookup_insert_ne by (intros <-; congruence). done.
  - intros fd [<-|Hn]%lookup_delete_None; [done|]. by apply (eo_free _ _ O).
Qed.

#[export] Instance EPollPoller_Spec : PollerSpec (EPollPoller K).
Proof.
  refine {| poller_inv := epoll_ok |}.
  - intros cs p fd ptr O Hc. destruct (eo_channel _ _ O _ _ Hc) as (c & ? & ? & _). eauto.
  - intros cs p fd O Hc. cbn. unfold epoll_interest. by rewrite (eo_free _ _ O _ Hc).
  - intros cs p ptr c c' O E Hf Hx. constructor; [|apply O].
    intros fd q Hq. destruct (eo_channel _ _ O _ _ Hq) as (d & H1 & H2 & H3).
    destruct (decide (q = ptr)) as [->|N]; [exists c'; rewrite lookup_insert_eq|exists d; by rewrite lookup_insert_ne].
    assert (d = c) by congruence. subst. unfold chan_state in *. rewrite Hx, Hf. done.
  - intros cs p ptr c O E. constructor; [|apply O].
    intros fd q Hq. destruct (eo_channel _ _ O _ _ Hq) as (d & H1 & H2 & H3). exists d.
    by rewrite lookup_insert_ne by congruence.
  - intros cs p ptr c O E Hf Hv _. by apply epoll_update_spec.
  - apply epoll_remove_spec.
Defined.
End EPollSpec.

(** A kernel that satisfies the interface. *)
#[export] Instance gmap_Epoll : Epoll (gmap Z (Z * Z)).
Proof.
  refine {| registered := fun k => k;
            epoll_ctl := fun k op fd ev =>
              match op, k !! fd with
              | EPOLL_CTL_ADD, None => if decide (0 <= fd) then Some (<[fd := ev]> k) else None
              | EPOLL_CTL_MOD, Some _ => Some (<[fd := ev]> k)
              | EPOLL_CTL_DEL, Some _ => Some (delete fd k)
              | _, _ => None
              end |}.
  - intros k fd ev Hf E. rewrite E, decide_True by done. eauto.
  - intros k fd ev [? E]. rewrite E. eauto.
  - intros k fd ev [? E]. rewrite E. eauto.
Defined.
