(* ===== verification/EventLoop.v ===== *)
(** * EventLoop (src/muduo/muduo/net/EventLoop.h, EventLoop.cc)

    Two parts. The channels of a loop: what [Channel::update] and
    [Channel::remove] do through the loop to its poller, over any poller that
    keeps the contract of [Poller]. The functors of a loop: [queueInLoop],
    [runInLoop], [quit], [wakeup] and [loop] as a transition system of the loop's
    thread and other threads, one step per access to shared state. *)

From S2P Require Import Prelude Channel Poller.

(** ** The channels of a loop *)

Module LoopChannels.
Section Loop.
Context {P : Type} `{PollerSpec P}.

Record Loop := mkLoop {
  chans : channels;
  poller_ : P;
  eventHandling_ : bool;
  activeChannels_ : list Z;
  currentActiveChannel_ : option Z
}.

Definition loop_updateChannel (inLoop : bool) (channel : Z) (l : Loop) : outcome Loop :=
  inloop* inLoop in
  let* (cs, p) := updateChannel inLoop channel (chans l) (poller_ l) in
  Ret (mkLoop cs p (eventHandling_ l) (activeChannels_ l) (currentActiveChannel_ l)).

Definition loop_removeChannel (inLoop : bool) (channel : Z) (l : Loop) : outcome Loop :=
  inloop* inLoop in
  assert* (if eventHandling_ l
           then bool_decide (currentActiveChannel_ l = Some channel) || bool_decide (channel ∉ activeChannels_ l)
           else true) in
  let* (cs, p) := removeChannel inLoop channel (chans l) (poller_ l) in
  Ret (mkLoop cs p (eventHandling_ l) (activeChannels_ l) (currentActiveChannel_ l)).

Definition loop_hasChannel (inLoop : bool) (channel : Z) (l : Loop) : outcome bool :=
  inloop* inLoop in hasChannel inLoop channel (chans l) (poller_ l).

Definition set_chan (channel : Z) (c : Channel) (l : Loop) : Loop :=
  mkLoop (<[channel := c]> (chans l)) (poller_ l) (eventHandling_ l) (activeChannels_ l) (currentActiveChannel_ l).

(** [Channel::update] *)
Definition channel_update (inLoop : bool) (channel : Z) (l : Loop) : outcome Loop :=
  let* c := chan channel (chans l) in
  loop_updateChannel inLoop channel (set_chan channel (set_addedToLoop true c) l).

(** [Channel::enableReading] and its siblings *)
Definition channel_op (inLoop : bool) (op : interest_op) (channel : Z) (l : Loop) : outcome Loop :=
  let* c := chan channel (chans l) in
  channel_update inLoop channel (set_chan channel (apply_op op c) l).

(** [Channel::remove] *)
Definition channel_remove (inLoop : bool) (channel : Z) (l : Loop) : outcome Loop :=
  let* c := chan channel (chans l) in
  assert* isNoneEvent c in
  loop_removeChannel inLoop channel (set_chan channel (set_addedToLoop false c) l).

(** The constructor of a channel at a free address. *)
Definition channel_new (channel fd : Z) (l : Loop) : Loop := set_chan channel (newChannel fd) l.

(** The destructor's assertions, on the loop's thread. *)
Definition channel_destroy (channel : Z) (l : Loop) : outcome Loop :=
  let* c := chan channel (chans l) in
  assert* negb (Channel.eventHandling_ c) in
  assert* negb (addedToLoop_ c) in
  let* has := loop_hasChannel true channel l in
  assert* negb has in
  Ret (mkLoop (delete channel (chans l)) (poller_ l) (eventHandling_ l) (activeChannels_ l) (currentActiveChannel_ l)).

(** ** What the loop keeps *)

(** The poller monitors exactly what the registered channels ask for, and
    [addedToLoop_] tells which ones are registered. *)
Record agree (l : Loop) : Prop := mkAgree {
  ag_inv : poller_inv (chans l) (poller_ l);
  ag_events ptr c : chans l !! ptr = Some c -> events_ok c /\ 0 <= fd_ c;
  ag_added ptr c : chans l !! ptr = Some c ->
    addedToLoop_ c = bool_decide (channels_ (poller_ l) !! fd_ c = Some ptr);
  ag_interest ptr c : chans l !! ptr = Some c -> addedToLoop_ c = true ->
    interest (poller_ l) (fd_ c) = wanted c
}.

Lemma set_index_fields c i :
  fd_ (set_index i c) = fd_ c /\ events_ (set_index i c) = events_ c /\ addedToLoop_ (set_index i c) = addedToLoop_ c.
Proof. done. Qed.

(** Equal up to the index, two stores have the same channels otherwise. *)
Lemma forget_index_lookup cs cs' ptr c' :
  forget_index cs' = forget_index cs -> cs' !! ptr = Some c' ->
  exists c, cs !! ptr = Some c /\ fd_ c' = fd_ c /\ events_ c' = events_ c /\ addedToLoop_ c' = addedToLoop_ c.
Proof.
  intros E Hp. assert (forget_index cs' !! ptr = forget_index cs !! ptr) as K by by rewrite E.
  unfold forget_index in K. rewrite !lookup_fmap, Hp in K. destruct (cs !! ptr) as [c|] eqn:Ec; [|done].
  cbn in K. injection K as K1 K2 K3 K4 K5 K6 K7 K8 K9 K10 K11 K12. exists c. done.
Qed.

(** The conditions under which the code changes a channel's events: it is new
    or registered, and it asks for something or withdraws what it asked for. *)
Definition may_update (ptr : Z) (c c' : Channel) (l : Loop) : Prop :=
  (index_ c = -1 /\ channels_ (poller_ l) !! fd_ c = None \/ addedToLoop_ c = true) /\
  (events_ c' <> kNoneEvent \/ (addedToLoop_ c = true /\ events_ c <> kNoneEvent)) /\
  Z.of_nat (size (channels_ (poller_ l))) < 2 ^ 30.

Definition same_handling (l l' : Loop) : Prop :=
  eventHandling_ l' = eventHandling_ l /\ activeChannels_ l' = activeChannels_ l /\
  currentActiveChannel_ l' = currentActiveChannel_ l.

Lemma channel_op_ok op ptr c l :
  agree l -> chans l !! ptr = Some c -> may_update ptr c (apply_op op c) l ->
  exists l' c', channel_op true op ptr l = Ret l' /\ agree l' /\
    chans l' !! ptr = Some c' /\ events_ c' = events_ (apply_op op c) /\ addedToLoop_ c' = true /\
    (forall fd, interest (poller_ l') fd =
       if decide (fd = fd_ c) then wanted (apply_op op c) else interest (poller_ l) fd) /\
    forget_index (chans l') = forget_index (<[ptr := set_addedToLoop true (apply_op op c)]> (chans l)) /\
    channels_ (poller_ l') = <[fd_ c := ptr]> (channels_ (poller_ l)) /\ same_handling l l'.
Proof.
  intros A Hp (M1 & M2 & M3). destruct (ag_events _ A ptr c Hp) as [Ev Fd].
  set (c1 := set_addedToLoop true (apply_op op c)).
  assert (fd_ c1 = fd_ c /\ index_ c1 = index_ c /\ events_ c1 = events_ (apply_op op c) /\ addedToLoop_ c1 = true) as (F1 & F2 & F3 & F4)
    by (unfold c1; destruct op; done).
  assert (channel_op true op ptr l = loop_updateChannel true ptr (set_chan ptr c1 l)) as ->.
  { unfold channel_op, channel_update, chan. rewrite Hp. cbn [obind set_chan chans].
    rewrite lookup_insert_eq. cbn [obind]. unfold set_chan. cbn [chans]. by rewrite insert_insert_eq. }
  assert (channels_ (poller_ l) !! fd_ c = Some ptr <-> addedToLoop_ c = true) as Ad.
  { rewrite (ag_added _ A ptr c Hp). by rewrite bool_decide_eq_true. }
  assert (poller_inv (<[ptr := c1]> (chans l)) (poller_ l)) as Pi.
  { eapply inv_frame; [apply (ag_inv _ A)|done|done|done]. }
  destruct (update_spec (<[ptr := c1]> (chans l)) (poller_ l) ptr c1) as (cs' & p' & E & I' & Fo & Ch & In); try done.
  - apply lookup_insert_eq.
  - by rewrite F1.
  - unfold events_ok. rewrite F3. by apply apply_op_ok.
  - rewrite F1, F2. destruct M1 as [M1|M1]; [by left|right; by apply Ad].
  - rewrite F1, F3. destruct M2 as [M2|[M2 M2']]; [by left|right].
    rewrite (ag_interest _ A ptr c Hp M2). unfold wanted. rewrite decide_False by done. by eexists.
  - unfold loop_updateChannel, set_chan. cbn [assertInLoopThread chans poller_ eventHandling_ activeChannels_ currentActiveChannel_].
    rewrite E. cbn [obind]. rewrite F1 in Ch, In.
    assert (exists c', cs' !! ptr = Some c' /\ events_ c' = events_ c1 /\ addedToLoop_ c' = true) as (c' & C1 & C2 & C3).
    { assert (channels_ p' !! fd_ c = Some ptr) as Hr by (rewrite Ch; apply lookup_insert_eq).
      destruct (inv_channel cs' p' (fd_ c) ptr I' Hr) as (c' & Hc' & _).
      exists c'. destruct (forget_index_lookup _ _ _ _ Fo Hc') as (d & D1 & D2 & D3 & D4).
      rewrite lookup_insert_eq in D1. injection D1 as <-. by rewrite D3, D4. }
    eexists _, c'. split; [reflexivity|]. cbn [poller_ chans]. split_and!; try done.
    constructor; cbn [poller_ chans]; [done|..].
    + intros q d Hq. destruct (forget_index_lookup _ _ _ _ Fo Hq) as (d0 & D1 & D2 & D3 & D4).
        apply lookup_insert_Some in D1 as [[<- <-]|[N D1]]; unfold events_ok; rewrite D2, D3.
      * rewrite F1, F3. split; [by apply apply_op_ok|done].
      * by apply (ag_events _ A q).
    + intros q d Hq. destruct (forget_index_lookup _ _ _ _ Fo Hq) as (d0 & D1 & D2 & D3 & D4). rewrite Ch, D2, D4.
        apply lookup_insert_Some in D1 as [[<- <-]|[N D1]].
      * rewrite F1, F4. rewrite lookup_insert_eq. by rewrite bool_decide_eq_true_2.
      * rewrite (ag_added _ A q d0 D1). apply bool_decide_ext.
           destruct (decide (fd_ d0 = fd_ c)) as [Efd|Nfd]; [|by rewrite lookup_insert_ne by congruence].
           rewrite Efd, lookup_insert_eq. split; [|congruence]. intros Hch. exfalso.
           destruct M1 as [[_ M1]|M1]; [congruence|]. apply Ad in M1. congruence.
    + intros q d Hq. destruct (forget_index_lookup _ _ _ _ Fo Hq) as (d0 & D1 & D2 & D3 & D4). rewrite D2, D4, In.
        unfold wanted. rewrite D3. apply lookup_insert_Some in D1 as [[<- <-]|[N D1]].
      * rewrite F1, F3. intros _. rewrite decide_True by done. done.
      * intros Had. destruct (decide (fd_ d0 = fd_ c)) as [Efd|Nfd].
        -- exfalso. rewrite (ag_added _ A q d0 D1), bool_decide_eq_true, Efd in Had.
              destruct M1 as [[_ M1]|M1]; [congruence|]. apply Ad in M1. congruence.
        -- by apply (ag_interest _ A q).
Qed.

Lemma channel_remove_ok ptr c l :
  agree l -> chans l !! ptr = Some c -> addedToLoop_ c = true -> events_ c = kNoneEvent ->
  (eventHandling_ l = true -> currentActiveChannel_ l = Some ptr \/ ptr ∉ activeChannels_ l) ->
  exists l', channel_remove true ptr l = Ret l' /\ agree l' /\
    channels_ (poller_ l') = delete (fd_ c) (channels_ (poller_ l)) /\
    (forall fd, interest (poller_ l') fd = interest (poller_ l) fd) /\
    forget_index (chans l') = forget_index (<[ptr := set_addedToLoop false c]> (chans l)) /\ same_handling l l'.
Proof.
  intros A Hp Had Hev Hact. set (c1 := set_addedToLoop false c).
  assert (channels_ (poller_ l) !! fd_ c = Some ptr) as Hreg.
  { rewrite (ag_added _ A ptr c Hp) in Had. by apply bool_decide_eq_true in Had. }
  assert (poller_inv (<[ptr := c1]> (chans l)) (poller_ l)) as Pi.
  { eapply inv_frame; [apply (ag_inv _ A)|done|done|done]. }
  destruct (remove_spec (<[ptr := c1]> (chans l)) (poller_ l) ptr c1) as (cs' & p' & E & I' & Fo & Ch & In); try done.
  - apply lookup_insert_eq.
  - change (fd_ c1) with (fd_ c). rewrite (ag_interest _ A ptr c Hp Had). unfold wanted. by rewrite decide_True.
  - unfold channel_remove, chan. rewrite Hp. cbn [obind]. unfold isNoneEvent. rewrite bool_decide_eq_true_2 by done. cbn [check].
    fold c1. unfold loop_removeChannel, set_chan. cbn [assertInLoopThread chans poller_ eventHandling_ activeChannels_ currentActiveChannel_].
    rewrite check_true.
    2: { destruct (eventHandling_ l); [|done]. apply orb_true_iff. rewrite !bool_decide_eq_true. auto. }
    rewrite E. cbn [obind]. eexists. split; [reflexivity|]. cbn [poller_ chans]. change (fd_ c1) with (fd_ c) in Ch.
    split_and!; try done. constructor; cbn [poller_ chans]; [done|..].
    + intros q d Hq. destruct (forget_index_lookup _ _ _ _ Fo Hq) as (d0 & D1 & D2 & D3 & D4).
      unfold events_ok; rewrite D2, D3. apply lookup_insert_Some in D1 as [[<- <-]|[N D1]]; [exact (ag_events _ A ptr c Hp)|exact (ag_events _ A q d0 D1)].
    + intros q d Hq. destruct (forget_index_lookup _ _ _ _ Fo Hq) as (d0 & D1 & D2 & D3 & D4). rewrite Ch, D2, D4.
      apply lookup_insert_Some in D1 as [[<- <-]|[N D1]].
      * change (fd_ c1) with (fd_ c). rewrite lookup_delete_eq. by rewrite bool_decide_eq_false_2.
      * rewrite (ag_added _ A q d0 D1). apply bool_decide_ext.
        destruct (decide (fd_ d0 = fd_ c)) as [Efd|Nfd]; [|by rewrite lookup_delete_ne by congruence].
        rewrite Efd, lookup_delete_eq. split; [congruence|done].
    + intros q d Hq. destruct (forget_index_lookup _ _ _ _ Fo Hq) as (d0 & D1 & D2 & D3 & D4). rewrite D2, D4, In.
      unfold wanted. rewrite D3. apply lookup_insert_Some in D1 as [[<- <-]|[N D1]]; [done|]. by apply (ag_interest _ A q).
Qed.

(** ** Sequences of operations *)

Inductive cop :=
  | CNew (channel fd : Z)
  | COp (op : interest_op) (channel : Z)
  | CRemove (channel : Z).

Definition do_cop (o : cop) (l : Loop) : outcome Loop :=
  match o with
  | CNew channel fd => Ret (channel_new channel fd l)
  | COp op channel => channel_op true op channel l
  | CRemove channel => channel_remove true channel l
  end.

Definition allowed (o : cop) (l : Loop) : Prop :=
  match o with
  | CNew channel fd => chans l !! channel = None /\ 0 <= fd
  | COp op channel => exists c, chans l !! channel = Some c /\ may_update channel c (apply_op op c) l
  | CRemove channel => exists c, chans l !! channel = Some c /\ addedToLoop_ c = true /\ events_ c = kNoneEvent /\
      (eventHandling_ l = true -> currentActiveChannel_ l = Some channel \/ channel ∉ activeChannels_ l)
  end.

Fixpoint do_cops (os : list cop) (l : Loop) : outcome Loop :=
  match os with
  | [] => Ret l
  | o :: os => let* l := do_cop o l in do_cops os l
  end.

(** Every operation is allowed when its turn comes. *)
Fixpoint all_allowed (os : list cop) (l : Loop) : Prop :=
  match os with
  | [] => True
  | o :: os => allowed o l /\ forall l', do_cop o l = Ret l' -> all_allowed os l'
  end.

(** The same as executable tests. *)
Definition allowedb (o : cop) (l : Loop) : bool :=
  match o with
  | CNew channel fd => bool_decide (chans l !! channel = None) && bool_decide (0 <= fd)
  | COp op channel =>
      match chans l !! channel with
      | Some c => (bool_decide (index_ c = -1) && bool_decide (channels_ (poller_ l) !! fd_ c = None) || addedToLoop_ c) &&
          (bool_decide (events_ (apply_op op c) <> kNoneEvent) || (addedToLoop_ c && bool_decide (events_ c <> kNoneEvent))) &&
          bool_decide (Z.of_nat (size (channels_ (poller_ l))) < 2 ^ 30)
      | None => false
      end
  | CRemove channel =>
      match chans l !! channel with
      | Some c => addedToLoop_ c && bool_decide (events_ c = kNoneEvent) &&
          (negb (eventHandling_ l) || bool_decide (currentActiveChannel_ l = Some channel) ||
             bool_decide (channel ∉ activeChannels_ l))
      | None => false
      end
  end.
Fixpoint all_allowedb (os : list cop) (l : Loop) : bool :=
  match os with
  | [] => true
  | o :: os => allowedb o l && match do_cop o l with Ret l' => all_allowedb os l' | Stop _ => true end
  end.

Lemma allowedb_ok o l : allowedb o l = true -> allowed o l.
Proof.
  destruct o as [ptr fd|op ptr|ptr]; cbn [allowedb allowed].
  - rewrite andb_true_iff, !bool_decide_eq_true. done.
  - destruct (chans l !! ptr) as [c|]; [|done]. intros E. exists c. split; [done|]. unfold may_update.
    rewrite !andb_true_iff, !orb_true_iff, !andb_true_iff, !bool_decide_eq_true in E. tauto.
  - destruct (chans l !! ptr) as [c|]; [|done]. intros E. exists c. split; [done|].
    rewrite !andb_true_iff, !orb_true_iff, !bool_decide_eq_true in E. destruct (eventHandling_ l); naive_solver.
Qed.

Lemma all_allowedb_ok os l : all_allowedb os l = true -> all_allowed os l.
Proof.
  revert l. induction os as [|o os IH]; intros l; cbn [all_allowedb all_allowed]; [done|].
  intros [E1 E2]%andb_prop. split; [by apply allowedb_ok|]. intros l' El. rewrite El in E2. auto.
Qed.

Lemma channel_new_ok ptr fd l :
  agree l -> chans l !! ptr = None -> 0 <= fd -> agree (channel_new ptr fd l).
Proof.
  intros A N F.
  assert (forall fd', channels_ (poller_ l) !! fd' <> Some ptr) as Nr.
  { intros fd' Hr. destruct (inv_channel _ _ _ _ (ag_inv _ A) Hr) as (c & ? & _). congruence. }
  constructor; cbn [channel_new set_chan chans poller_].
  - apply inv_new; [apply A|done].
  - intros q c [[<- <-]|[_ Hq]]%lookup_insert_Some; [|by apply (ag_events _ A q)]. by split.
  - intros q c [[<- <-]|[_ Hq]]%lookup_insert_Some; [|by apply (ag_added _ A q)]. cbn.
    by rewrite bool_decide_eq_false_2.
  - intros q c [[<- <-]|[_ Hq]]%lookup_insert_Some; [done|by apply (ag_interest _ A q)].
Qed.

Lemma do_cop_ok o l : agree l -> allowed o l -> exists l', do_cop o l = Ret l' /\ agree l'.
Proof.
  intros A L. destruct o as [ptr fd|op ptr|ptr]; cbn [do_cop allowed] in *.
  - destruct L as [N F]. eexists. split; [reflexivity|]. by apply channel_new_ok.
  - destruct L as (c & Hc & M). destruct (channel_op_ok op ptr c l A Hc M) as (l' & c' & E & A' & _). eauto.
  - destruct L as (c & Hc & Ad & Ev & Act). destruct (channel_remove_ok ptr c l A Hc Ad Ev Act) as (l' & E & A' & _). eauto.
Qed.

Lemma do_cops_ok os l : agree l -> all_allowed os l -> exists l', do_cops os l = Ret l' /\ agree l'.
Proof.
  revert l. induction os as [|o os IH]; intros l A L; cbn [do_cops all_allowed] in *; [eauto|].
  destruct L as [L1 L2]. destruct (do_cop_ok o l A L1) as (l1 & E & A1). rewrite E. cbn [obind]. auto.
Qed.
End Loop.
Arguments Loop P : clear implicits.

(** ** Two pollers side by side *)

Section Two.
Context {P1 : Type} `{S1 : PollerSpec P1} {P2 : Type} `{S2 : PollerSpec P2}.

(** The two loops differ in nothing an application can see. *)
Record alike (l1 : Loop P1) (l2 : Loop P2) : Prop := mkAlike {
  al_chans : forget_index (chans l1) = forget_index (chans l2);
  al_channels : channels_ (poller_ l1) = channels_ (poller_ l2);
  al_interest fd : interest (poller_ l1) fd = interest (poller_ l2) fd
}.

Lemma forget_index_set (cs1 cs2 : channels) ptr (f : Channel -> Channel) c1 c2 :
  (forall c, set_index 0 (f c) = f (set_index 0 c)) ->
  forget_index cs1 = forget_index cs2 -> cs1 !! ptr = Some c1 -> cs2 !! ptr = Some c2 ->
  forget_index (<[ptr := f c1]> cs1) = forget_index (<[ptr := f c2]> cs2) /\
  fd_ c1 = fd_ c2 /\ events_ c1 = events_ c2 /\ addedToLoop_ c1 = addedToLoop_ c2.
Proof.
  intros Hf E E1 E2. destruct (forget_index_lookup cs2 cs1 ptr c1 E E1) as (c & Hc & H1 & H2 & H3).
  assert (c = c2) by congruence. subst. split; [|done]. unfold forget_index in *. rewrite !fmap_insert, !Hf.
  assert (set_index 0 c1 = set_index 0 c2) as ->; [|by rewrite E].
  assert ((set_index 0 <$> cs1) !! ptr = (set_index 0 <$> cs2) !! ptr) as K by by rewrite E.
  rewrite !lookup_fmap, E1, E2 in K. exact (inj Some _ _ K).
Qed.

Lemma do_cop_alike o (l1 : Loop P1) (l2 : Loop P2) :
  agree l1 -> agree l2 -> alike l1 l2 -> allowed o l1 -> allowed o l2 ->
  exists l1' l2', do_cop o l1 = Ret l1' /\ do_cop o l2 = Ret l2' /\ agree l1' /\ agree l2' /\ alike l1' l2'.
Proof.
  intros A1 A2 [Ac Ach Ai] L1 L2. destruct o as [ptr fd|op ptr|ptr]; cbn [do_cop allowed] in *.
  - destruct L1 as [N1 F], L2 as [N2 _]. eexists _, _. split; [reflexivity|]. split; [reflexivity|].
    split; [by apply channel_new_ok|]. split; [by apply channel_new_ok|].
    constructor; cbn; [|done|done]. unfold forget_index in *. rewrite !fmap_insert. by rewrite Ac.
  - destruct L1 as (c1 & H1 & M1), L2 as (c2 & H2 & M2).
    destruct (channel_op_ok op ptr c1 l1 A1 H1 M1) as (l1' & c1' & E1 & A1' & _ & _ & _ & I1 & F1 & C1 & _).
    destruct (channel_op_ok op ptr c2 l2 A2 H2 M2) as (l2' & c2' & E2 & A2' & _ & _ & _ & I2 & F2 & C2 & _).
    destruct (forget_index_set (chans l1) (chans l2) ptr (fun c => set_addedToLoop true (apply_op op c)) c1 c2) as (F & Hf & He & _);
      [by destruct op|done|done|done|].
    exists l1', l2'. split_and!; try done. constructor; [by rewrite F1, F2|by rewrite C1, C2, Ach, Hf|].
    intros fd. rewrite I1, I2, Hf, Ai. case_decide; [|done]. unfold wanted.
    assert (events_ (apply_op op c1) = events_ (apply_op op c2)) as -> by (destruct op; cbn; by rewrite ?He). done.
  - destruct L1 as (c1 & H1 & Ad1 & Ev1 & Act1), L2 as (c2 & H2 & Ad2 & Ev2 & Act2).
    destruct (channel_remove_ok ptr c1 l1 A1 H1 Ad1 Ev1 Act1) as (l1' & E1 & A1' & C1 & I1 & F1 & _).
    destruct (channel_remove_ok ptr c2 l2 A2 H2 Ad2 Ev2 Act2) as (l2' & E2 & A2' & C2 & I2 & F2 & _).
    destruct (forget_index_set (chans l1) (chans l2) ptr (set_addedToLoop false) c1 c2) as (F & Hf & He & _); try done.
    exists l1', l2'. split_and!; try done. constructor; [by rewrite F1, F2|by rewrite C1, C2, Ach, Hf|].
    intros fd. by rewrite I1, I2.
Qed.

Lemma do_cops_alike os (l1 : Loop P1) (l2 : Loop P2) :
  agree l1 -> agree l2 -> alike l1 l2 -> all_allowed os l1 -> all_allowed os l2 ->
  exists l1' l2', do_cops os l1 = Ret l1' /\ do_cops os l2 = Ret l2' /\ alike l1' l2'.
Proof.
  revert l1 l2. induction os as [|o os IH]; intros l1 l2 A1 A2 Al L1 L2; cbn [do_cops all_allowed] in *; [eauto|].
  destruct L1 as [L1 N1], L2 as [L2 N2].
  destruct (do_cop_alike o l1 l2 A1 A2 Al L1 L2) as (k1 & k2 & E1 & E2 & B1 & B2 & Al'). rewrite E1, E2. cbn [obind]. auto.
Qed.
End Two.

(** The loop before any channel exists. *)
Definition new_loop {P} (p : P) : Loop P := mkLoop ∅ p false [] None.

Lemma new_loop_agree {P} `{PollerSpec P} (p : P) :
  poller_inv ∅ p -> agree (new_loop p).
Proof. intros I. constructor; cbn; [done|..]; intros ptr c Hp; by rewrite lookup_empty in Hp. Qed.

Lemma poll_empty : poller_inv ∅ newPollPoller.
Proof.
  change (poll_ok ∅ newPollPoller).
  constructor; cbn; [done| |done|done]. intros fd ptr E. by rewrite lookup_empty in E.
Qed.

Lemma epoll_empty `{Epoll K} (k : K) : registered k = ∅ -> poller_inv ∅ (EPoll.newEPollPoller k).
Proof.
  intros E. change (epoll_ok ∅ (EPoll.newEPollPoller k)). constructor; cbn; [intros fd ptr Hc; by rewrite lookup_empty in Hc|].
  intros fd _. rewrite E. apply lookup_empty.
Qed.
End LoopChannels.

(** ** The functors of a loop *)

Module Functors.

(** What code on the loop's thread asks of the loop. *)
Inductive act :=
  | AQueue (f : Z)
  | ARun (f : Z)
  | AQuit.

(** In the event handlers also [EventLoop::handleRead], the callback of the
    wakeup channel. *)
Inductive hact := HAct (a : act) | HHandleRead.

(** Where the loop's thread is: before [loop()], at the condition of the while,
    in [poll], in an event handler with what it has left to do, before the swap
    of [doPendingFunctors], running functors (what the current one has left to
    do, and the ones after it), after the loop. *)
Inductive pc :=
  | Before
  | AtWhile
  | Polling
  | Handling (todo : list hact)
  | Swapping
  | Calling (todo : list act) (rest : list Z)
  | Exited.

Record State := mkState {
  looping_ : bool;
  quit_ : bool;
  callingPendingFunctors_ : bool;
  iteration_ : Z;
  pendingFunctors_ : list Z;
  (** the counter of the wakeup descriptor *)
  wakeupFd : Z;
  (** other threads between their push or their [quit_ = true] and [wakeup] *)
  inflight : Z;
  at_ : pc;
  (** what was queued and what ran from the queue, in order *)
  queued : list Z;
  executed : list Z;
  (** something was queued on the loop's thread before [loop()] *)
  early : bool
}.

Definition initial : State := mkState false false false 0 [] 0 0 Before [] [] false.

Definition set_pc (p : pc) (s : State) := mkState (looping_ s) (quit_ s) (callingPendingFunctors_ s) (iteration_ s)
  (pendingFunctors_ s) (wakeupFd s) (inflight s) p (queued s) (executed s) (early s).
Definition set_flags (l q c : bool) (s : State) := mkState l q c (iteration_ s)
  (pendingFunctors_ s) (wakeupFd s) (inflight s) (at_ s) (queued s) (executed s) (early s).
Definition set_quit (q : bool) (s : State) := set_flags (looping_ s) q (callingPendingFunctors_ s) s.
Definition set_calling (c : bool) (s : State) := set_flags (looping_ s) (quit_ s) c s.
Definition set_fd (w i : Z) (s : State) := mkState (looping_ s) (quit_ s) (callingPendingFunctors_ s) (iteration_ s)
  (pendingFunctors_ s) w i (at_ s) (queued s) (executed s) (early s).
Definition set_pending (l : list Z) (s : State) := mkState (looping_ s) (quit_ s) (callingPendingFunctors_ s) (iteration_ s)
  l (wakeupFd s) (inflight s) (at_ s) (queued s) (executed s) (early s).
Definition push (f : Z) (s : State) := mkState (looping_ s) (quit_ s) (callingPendingFunctors_ s) (iteration_ s)
  (pendingFunctors_ s ++ [f]) (wakeupFd s) (inflight s) (at_ s) (queued s ++ [f]) (executed s) (early s).
Definition next_iteration (s : State) := mkState (looping_ s) (quit_ s) (callingPendingFunctors_ s) (iteration_ s + 1)
  (pendingFunctors_ s) (wakeupFd s) (inflight s) (at_ s) (queued s) (executed s) (early s).
Definition run_one (f : Z) (s : State) := mkState (looping_ s) (quit_ s) (callingPendingFunctors_ s) (iteration_ s)
  (pendingFunctors_ s) (wakeupFd s) (inflight s) (at_ s) (queued s) (executed s ++ [f]) (early s).
Definition mark_early (s : State) := mkState (looping_ s) (quit_ s) (callingPendingFunctors_ s) (iteration_ s)
  (pendingFunctors_ s) (wakeupFd s) (inflight s) (at_ s) (queued s) (executed s) true.

(** [wakeup()]: eventfd adds what is written. *)
Definition wakeup (s : State) : State := set_fd (wakeupFd s + 1) (inflight s) s.
(** [handleRead()]: reading resets the counter. *)
Definition handleRead (s : State) : State := set_fd 0 (inflight s) s.

(** [queueInLoop(f)] on the loop's thread. *)
Definition queueInLoop (f : Z) (s : State) : State :=
  let s := push f s in
  if callingPendingFunctors_ s then wakeup s else s.

(** [loop()] up to the while, and the test of the while. *)
Definition loop_enter (s : State) : outcome State :=
  assert* negb (looping_ s) in
  Ret (set_pc AtWhile (set_flags true false (callingPendingFunctors_ s) s)).
Definition loop_test (s : State) : State :=
  if quit_ s then set_pc Exited (set_flags false true (callingPendingFunctors_ s) s) else set_pc Polling s.

(** [doPendingFunctors()] up to the swap, the swap, and its end. *)
Definition functors_begin (s : State) : State := set_pc Swapping (set_calling true s).
Definition functors_swap (s : State) : State :=
  set_pc (Calling [] (pendingFunctors_ s)) (set_pending [] s).
Definition functors_end (s : State) : State := set_pc AtWhile (set_calling false s).

Section Steps.
(** What a functor does when it runs. *)
Context (prog : Z -> list act).

(** One act on the loop's thread, and what it makes the thread do next:
    [runInLoop] calls its functor on the spot. *)
Definition do_act (a : act) (s : State) : State * list act :=
  match a with
  | AQueue f => (queueInLoop f s, [])
  | ARun f => (s, prog f)
  | AQuit => (set_quit true s, [])
  end.

Inductive step : State -> State -> Prop :=
  (** the loop's thread *)
  | step_early s f : at_ s = Before -> step s (mark_early (queueInLoop f s))
  | step_enter s s' : at_ s = Before -> loop_enter s = Ret s' -> step s s'
  | step_test s : at_ s = AtWhile -> step s (loop_test s)
  (* poll returns, for the wakeup descriptor, another one, or a timeout; the
     wakeup channel is among the active ones when its descriptor is readable *)
  | step_poll s todo : at_ s = Polling -> (0 < wakeupFd s -> HHandleRead ∈ todo) ->
      (wakeupFd s = 0 -> HHandleRead ∉ todo) ->
      step s (set_pc (Handling todo) (next_iteration s))
  | step_handle s a todo : at_ s = Handling (HAct a :: todo) ->
      step s (set_pc (Handling (map HAct (do_act a s).2 ++ todo)) (do_act a s).1)
  | step_read s todo : at_ s = Handling (HHandleRead :: todo) -> step s (set_pc (Handling todo) (handleRead s))
  | step_handled s : at_ s = Handling [] -> step s (functors_begin s)
  | step_swap s : at_ s = Swapping -> step s (functors_swap s)
  | step_call s f rest : at_ s = Calling [] (f :: rest) -> step s (set_pc (Calling (prog f) rest) (run_one f s))
  | step_act s a todo rest : at_ s = Calling (a :: todo) rest ->
      step s (set_pc (Calling ((do_act a s).2 ++ todo) rest) (do_act a s).1)
  | step_called s : at_ s = Calling [] [] -> step s (functors_end s)
  (** other threads *)
  | step_push s f : step s (set_fd (wakeupFd s) (inflight s + 1) (push f s))
  | step_quit s : step s (set_fd (wakeupFd s) (inflight s + 1) (set_quit true s))
  | step_wakeup s : 0 < inflight s -> step s (set_fd (wakeupFd s + 1) (inflight s - 1) s).

Inductive reachable : State -> Prop :=
  | reachable_initial : reachable initial
  | reachable_step s s' : reachable s -> step s s' -> reachable s'.

(** The functors taken out of the queue that have not run yet. *)
Definition taken (s : State) : list Z := match at_ s with Calling _ rest => rest | _ => [] end.

(** Is the thread where it will look at the queue before it polls again? *)
Definition will_swap (s : State) : bool :=
  match at_ s with Handling _ | Swapping => true | _ => false end.

Record Inv (s : State) : Prop := mkInv {
  inv_fifo : queued s = executed s ++ taken s ++ pendingFunctors_ s;
  inv_fd : 0 <= wakeupFd s /\ 0 <= inflight s /\ 0 <= iteration_ s;
  inv_calling : callingPendingFunctors_ s = match at_ s with Swapping | Calling _ _ => true | _ => false end;
  inv_looping : looping_ s = match at_ s with Before | Exited => false | _ => true end;
  inv_iteration : match at_ s with Before => iteration_ s = 0 | Handling _ | Swapping | Calling _ _ => 0 < iteration_ s | _ => True end;
  (** pending functors that nothing will look at have a wakeup under way *)
  inv_wake : pendingFunctors_ s <> [] -> will_swap s = false ->
    0 < wakeupFd s \/ 0 < inflight s \/ (iteration_ s = 0 /\ early s = true);
  (** so has a request to quit while the loop is in poll *)
  inv_quit : quit_ s = true -> at_ s = Polling -> 0 < wakeupFd s \/ 0 < inflight s
}.

Lemma inv_initial : Inv initial.
Proof. by constructor. Qed.

Ltac fs := cbn [looping_ quit_ callingPendingFunctors_ iteration_ pendingFunctors_ wakeupFd inflight at_ queued executed early
  set_pc set_flags set_quit set_calling set_fd set_pending push next_iteration run_one mark_early wakeup handleRead
  functors_begin functors_swap functors_end taken will_swap do_act fst snd] in *.

(** An act changes neither where the thread is nor what it took. *)
Lemma do_act_inv s a (p : pc) :
  Inv s -> match at_ s, p with
           | Handling _, Handling _ => True
           | Calling _ rest, Calling _ rest' => rest' = rest
           | _, _ => False
           end -> Inv (set_pc p (do_act a s).1).
Proof.
  intros [F [W1 [W2 W3]] C L It W Q] P.
  destruct (at_ s) eqn:A; try done; destruct p; try done; destruct a; cbn [do_act fst]; unfold queueInLoop; fs;
    rewrite ?C; constructor; unfold taken, will_swap in *; fs; rewrite ?A in *; subst; try done;
    try (rewrite F, <- ?app_assoc; done); try lia.
Qed.

Lemma step_inv s s' : Inv s -> step s s' -> Inv s'.
Proof.
  intros I S. destruct S as [s f A|s s' A E|s A|s todo A R1 R2|s a todo A|s todo A|s A|s A|s f rest A|s a todo rest A|s A|s f|s|s F0].
  - destruct I as [F [W1 [W2 W3]] C L It W Q]. unfold queueInLoop, taken, will_swap in *. fs. rewrite C, A in *. fs.
    constructor; unfold taken, will_swap in *; fs; rewrite ?A in *; try done; try tauto.
    rewrite F, <- !app_assoc. done.
  - unfold loop_enter in E. destruct I as [F [W1 [W2 W3]] C L It W Q]. rewrite L, A in E. cbn in E. injection E as <-.
    unfold taken, will_swap in *. rewrite A in *. constructor; unfold taken, will_swap; fs; try done.
  - unfold loop_test. destruct I as [F Wf C L It W Q]. unfold taken, will_swap in *. rewrite A in *.
    destruct (quit_ s) eqn:E; constructor; unfold taken, will_swap; fs; try done; congruence.
  - destruct I as [F [W1 [W2 W3]] C L It W Q]. unfold taken, will_swap in *. rewrite A in *.
    constructor; unfold taken, will_swap; fs; try done; lia.
  - apply (do_act_inv s a); [done|]. by rewrite A.
  - destruct I as [F [W1 [W2 W3]] C L It W Q]. unfold taken, will_swap in *. rewrite A in *.
    constructor; unfold taken, will_swap; fs; try done; lia.
  - destruct I as [F [W1 [W2 W3]] C L It W Q]. unfold taken, will_swap in *. rewrite A in *.
    constructor; unfold taken, will_swap; fs; done.
  - destruct I as [F [W1 [W2 W3]] C L It W Q]. unfold taken, will_swap in *. rewrite A in *.
    constructor; unfold taken, will_swap; fs; try done. by rewrite app_nil_r.
  - destruct I as [F [W1 [W2 W3]] C L It W Q]. unfold taken, will_swap in *. rewrite A in *.
    constructor; unfold taken, will_swap; fs; try done. by rewrite F, <- app_assoc.
  - apply (do_act_inv s a); [done|]. by rewrite A.
  - destruct I as [F [W1 [W2 W3]] C L It W Q]. unfold taken, will_swap in *. rewrite A in *.
    constructor; unfold taken, will_swap; fs; try done.
  - destruct I as [F [W1 [W2 W3]] C L It W Q]. constructor; unfold taken, will_swap in *; fs; try done; try lia.
    by rewrite F, <- !app_assoc.
  - destruct I as [F [W1 [W2 W3]] C L It W Q]. constructor; unfold taken, will_swap in *; fs; try done; try lia.
  - destruct I as [F [W1 [W2 W3]] C L It W Q]. constructor; unfold taken, will_swap in *; fs; try done; try lia.
Qed.

Lemma reachable_inv s : reachable s -> Inv s.
Proof. induction 1 as [|s s' _ IH S]; [apply inv_initial|by eapply step_inv]. Qed.
End Steps.
End Functors.

Import LoopChannels.

(** C13. Over any poller that keeps the interface's contract, every sequence of
    channel operations each of which is allowed where it comes ([all_allowed])
    succeeds, and afterwards the poller monitors exactly the events that each
    registered channel asks for. What is not allowed is to disable a channel that
    is not registered or asks for nothing already, to update a channel whose
    descriptor belongs to another one, and to remove a channel that is not
    registered, still asks for events, or is about to be handled: there the
    pollers fail or differ ([disable_remove_diverges]). *)
Theorem channels_are_monitored {P : Type} `{PollerSpec P} (l : Loop P) (os : list cop) :
  agree l -> all_allowed os l ->
  exists l', do_cops os l = Ret l' /\
    forall ptr c, chans l' !! ptr = Some c ->
      addedToLoop_ c = bool_decide (channels_ (poller_ l') !! fd_ c = Some ptr) /\
      (addedToLoop_ c = true -> interest (poller_ l') (fd_ c) = wanted c).
Proof.
  intros A L. destruct (do_cops_ok os l A L) as (l' & E & A'). exists l'. split; [done|].
  intros ptr c Hc. split; [by apply (ag_added _ A')|by apply (ag_interest _ A' ptr)].
Qed.

Definition sample_cops : list cop :=
  [CNew 100 5; CNew 200 6; COp EnableReading 100; COp EnableWriting 200; COp EnableWriting 100;
   COp DisableAll 100; CRemove 100].

Lemma channels_are_monitored_witness :
  exists l', do_cops sample_cops (new_loop newPollPoller) = Ret l' /\
    forall ptr c, chans l' !! ptr = Some c ->
      addedToLoop_ c = bool_decide (channels_ (poller_ l') !! fd_ c = Some ptr) /\
      (addedToLoop_ c = true -> interest (poller_ l') (fd_ c) = wanted c).
Proof.
  apply (channels_are_monitored (new_loop newPollPoller) sample_cops).
  - apply new_loop_agree. exact poll_empty.
  - apply all_allowedb_ok. by vm_compute.
Defined.

(** The two pollers are interchangeable: after any sequence of operations
    that is allowed on both, a loop over poll(2) and a loop over epoll(4) have
    the same channels, registered the same way, and monitor the same events. *)
Theorem pollers_equivalent `{Epoll K} (k : K) (os : list cop) :
  registered k = ∅ ->
  all_allowed os (new_loop newPollPoller) -> all_allowed os (new_loop (EPoll.newEPollPoller k)) ->
  exists l1 l2, do_cops os (new_loop newPollPoller) = Ret l1 /\
    do_cops os (new_loop (EPoll.newEPollPoller k)) = Ret l2 /\
    forget_index (chans l1) = forget_index (chans l2) /\
    poll_channels_ (poller_ l1) = epoll_channels_ (poller_ l2) /\
    forall fd, poll_interest (poller_ l1) fd = epoll_interest (poller_ l2) fd.
Proof.
  intros E L1 L2.
  assert (alike (new_loop newPollPoller) (new_loop (EPoll.newEPollPoller k))) as Al.
  { constructor; cbn; [done|done|]. intros fd. unfold epoll_interest. cbn. rewrite E, lookup_empty.
    unfold poll_interest. by case_decide. }
  destruct (do_cops_alike os _ _ (new_loop_agree newPollPoller poll_empty)
    (new_loop_agree _ (epoll_empty k E)) Al L1 L2) as (l1 & l2 & E1 & E2 & [H1 H2 H3]).
  exists l1, l2. done.
Qed.

Lemma pollers_equivalent_witness :
  exists l1 l2, do_cops sample_cops (new_loop newPollPoller) = Ret l1 /\
    do_cops sample_cops (new_loop (EPoll.newEPollPoller (∅ : gmap Z (Z * Z)))) = Ret l2 /\
    forall fd, poll_interest (poller_ l1) fd = epoll_interest (poller_ l2) fd.
Proof.
  destruct (pollers_equivalent (∅ : gmap Z (Z * Z)) sample_cops) as (l1 & l2 & E1 & E2 & _ & _ & E3).
  - reflexivity.
  - apply all_allowedb_ok. by vm_compute.
  - apply all_allowedb_ok. by vm_compute.
  - exists l1, l2. split; [exact E1|]. split; [exact E2|exact E3].
Defined.

(** A channel that is disabled and removed without ever having been enabled,
    as the destructor of an [Acceptor] that never listened does, fails an
    assertion of [PollPoller::removeChannel], while the epoll poller accepts it. *)
Theorem disable_remove_diverges `{Epoll K} (k : K) (channel fd : Z) :
  registered k = ∅ -> 0 <= fd ->
  do_cops [CNew channel fd; COp DisableAll channel; CRemove channel] (new_loop newPollPoller) = Stop AssertFailed /\
  exists l, do_cops [CNew channel fd; COp DisableAll channel; CRemove channel] (new_loop (EPoll.newEPollPoller k)) = Ret l.
Proof.
  intros E F. set (c1 := set_addedToLoop true (set_events kNoneEvent (newChannel fd))).
  assert (forall P `{Poller P} (p : P), do_cops [CNew channel fd; COp DisableAll channel; CRemove channel] (new_loop p) =
    let* (cs, p) := updateChannel true channel (<[channel := c1]> ∅) p in
    channel_remove true channel (mkLoop cs p false [] None)) as Red.
  { intros P HP p. cbn [do_cops do_cop obind]. unfold channel_op, channel_update, chan, loop_updateChannel, channel_new, new_loop, set_chan.
    cbn [chans poller_ eventHandling_ activeChannels_ currentActiveChannel_ assertInLoopThread].
    rewrite !lookup_insert_eq. cbn [obind]. rewrite !lookup_insert_eq. cbn [obind]. rewrite !insert_insert_eq.
    cbn [apply_op]. fold c1. destruct (updateChannel true channel _ p) as [[cs p']|]; [|done]. cbn [obind].
    by destruct (channel_remove true channel _). }
  assert (forall c : Channel, chan channel (<[channel := c]> (∅ : channels)) = Ret c) as Hch
    by (intros c; unfold chan; by rewrite lookup_insert_eq).
  split; rewrite Red.
  - cbn [updateChannel PollPoller_Poller]. unfold Poll.updateChannel. cbn [assertInLoopThread]. rewrite Hch. cbn [obind].
    rewrite decide_True by done. rewrite bool_decide_eq_true_2 by apply lookup_empty. cbn [check obind].
    match goal with |- context [set_index ?i c1] => change i with 0 end.
    rewrite insert_insert_eq. unfold channel_remove. cbn [chans]. rewrite Hch. cbn [obind].
    rewrite check_true by done. unfold loop_removeChannel, set_chan. cbn [assertInLoopThread chans poller_ eventHandling_ check].
    rewrite insert_insert_eq. cbn [removeChannel PollPoller_Poller]. unfold Poll.removeChannel. cbn [assertInLoopThread].
    rewrite Hch. cbn [obind poll_channels_ pfd_fd]. rewrite lookup_insert_eq.
    rewrite (bool_decide_eq_true_2 (is_Some _)), (bool_decide_eq_true_2 (Some channel = _)) by (done || by eexists).
    cbn [check]. rewrite check_true by done. rewrite check_true by done. cbn. change (Z.to_nat 0) with 0%nat. cbn [lookup list_lookup].
    rewrite bool_decide_eq_false_2; [done|]. cbn [pfd_fd]. lia.
  - destruct (ctl_add k fd (kNoneEvent, channel)) as (k' & E1 & R1); [done|by rewrite E, lookup_empty|].
    destruct (ctl_del k' fd (kNoneEvent, channel)) as (k2 & E2 & R2); [rewrite R1, lookup_insert_eq; by eexists|].
    cbn [updateChannel EPollPoller_Poller]. unfold EPoll.updateChannel. cbn [assertInLoopThread]. rewrite Hch. cbn [obind].
    rewrite decide_True by (by left). rewrite decide_True by done. rewrite bool_decide_eq_true_2 by apply lookup_empty.
    cbn [check obind]. unfold EPoll.update. cbn [epollfd_ EPoll.newEPollPoller fd_ set_index c1 events_ set_addedToLoop set_events newChannel].
    rewrite E1. cbn [obind]. rewrite insert_insert_eq. unfold channel_remove. cbn [chans]. rewrite Hch. cbn [obind].
    rewrite check_true by done. unfold loop_removeChannel, set_chan. cbn [assertInLoopThread chans poller_ eventHandling_ check].
    rewrite insert_insert_eq. cbn [removeChannel EPollPoller_Poller]. unfold EPoll.removeChannel. cbn [assertInLoopThread].
    rewrite Hch. cbn [obind epoll_channels_ fd_ set_addedToLoop set_index]. rewrite lookup_insert_eq.
    rewrite (bool_decide_eq_true_2 (is_Some _)), (bool_decide_eq_true_2 (Some channel = _)) by (done || by eexists).
    cbn [check]. rewrite check_true by done. rewrite check_true by done. rewrite decide_True by done.
    unfold EPoll.update. cbn [epollfd_ fd_ events_ set_addedToLoop set_index c1 set_events newChannel]. rewrite E2. cbn. by eexists.
Qed.

Lemma disable_remove_diverges_witness :
  do_cops [CNew 100 5; COp DisableAll 100; CRemove 100] (new_loop newPollPoller) = Stop AssertFailed /\
  exists l, do_cops [CNew 100 5; COp DisableAll 100; CRemove 100] (new_loop (EPoll.newEPollPoller (∅ : gmap Z (Z * Z)))) = Ret l.
Proof. apply (disable_remove_diverges (∅ : gmap Z (Z * Z)) 100 5); [reflexivity|lia]. Defined.

(** C29. The functors queued in a loop run exactly once and in the order in which
    they were queued, whichever threads queue them and whatever functors and
    handlers queue, run or call themselves: at every moment the functors queued so
    far are those that ran, followed by those the loop has taken out, followed by
    those still in the queue. *)
Theorem functors_fifo (prog : Z -> list Functors.act) (s : Functors.State) :
  Functors.reachable prog s ->
  Functors.queued s = Functors.executed s ++ Functors.taken s ++ Functors.pendingFunctors_ s.
Proof. intros H. apply (Functors.inv_fifo _ (Functors.reachable_inv prog s H)). Qed.

(** A run in which another thread queues a functor while the loop polls. *)
Definition sample_functors (f : Z) : list Functors.act := if decide (f = 1) then [Functors.AQueue 2] else [].

Definition sample_polling_state : Functors.State :=
  Functors.mkState true false false 0 [1] 0 1 Functors.Polling [1] [] false.

Lemma sample_polling : Functors.reachable sample_functors sample_polling_state.
Proof.
  eapply Functors.reachable_step; [eapply Functors.reachable_step; [eapply Functors.reachable_step;
    [apply Functors.reachable_initial|]|]|].
  - eapply Functors.step_enter; reflexivity.
  - apply Functors.step_test. reflexivity.
  - match goal with |- Functors.step _ ?s _ => exact (Functors.step_push sample_functors s 1) end.
Qed.

Lemma functors_fifo_witness :
  Functors.queued sample_polling_state = Functors.executed sample_polling_state ++
    Functors.taken sample_polling_state ++ Functors.pendingFunctors_ sample_polling_state.
Proof. exact (functors_fifo sample_functors _ sample_polling). Defined.

(** C8. No wakeup is lost: when the loop is in poll while functors are pending or
    [quit] was called, its wakeup descriptor is readable or a thread is about to
    write to it. The only exception is what the loop's own thread queued before it
    first called [loop()], which waits for the first event or timeout. *)
Theorem no_lost_wakeup (prog : Z -> list Functors.act) (s : Functors.State) :
  Functors.reachable prog s -> Functors.at_ s = Functors.Polling ->
  Functors.pendingFunctors_ s <> [] \/ Functors.quit_ s = true ->
  0 < Functors.wakeupFd s \/ 0 < Functors.inflight s \/ (Functors.iteration_ s = 0 /\ Functors.early s = true).
Proof.
  intros H P K. pose proof (Functors.reachable_inv prog s H) as I. destruct K as [K|K].
  - apply (Functors.inv_wake _ I K). unfold Functors.will_swap. by rewrite P.
  - destruct (Functors.inv_quit _ I K P); auto.
Qed.

Lemma no_lost_wakeup_witness :
  0 < Functors.wakeupFd sample_polling_state \/ 0 < Functors.inflight sample_polling_state \/
  (Functors.iteration_ sample_polling_state = 0 /\ Functors.early sample_polling_state = true).
Proof. apply (no_lost_wakeup sample_functors _ sample_polling); [reflexivity|by left]. Defined.
