(* ===== verification/EventLoopThread.v ===== *)
(** * EventLoopThread (src/muduo/muduo/net/EventLoopThread.h, EventLoopThread.cc)

    A thread that runs an [EventLoop] which lives on its stack, and the thread that
    starts it, gets the loop and destroys the object. The two are a transition
    system with finitely many states, so its properties are checked on all the
    states that can be reached. [thread_.start()] returns with the thread running
    and [thread_.join()] when it has ended, as shown in [Thread]; the loop is
    what its [loop()] and [quit()] do with [quit_] and the wakeup descriptor. *)

From S2P Require Import Prelude Monitor.

(** The owner: before [startLoop()], in its critical section and around it, with the
    loop it returned, in the destructor, after it (having joined or not). *)
Inductive owner_pc :=
  | OBefore | OEnter | OInside | OWaiting | OWoken | OLeave | OReturn | OHas (loop : bool)
  | ODestroy | OQuit | OWakeup | OJoin | OGone (joined : bool).
(** The thread: [EventLoop loop], the callback, the critical section, the parts of
    [loop()], [loop_ = NULL], and the end of the scope. *)
Inductive runner_pc :=
  | RNone | RCtor | RCallback | REnter | RInside | RLeave | RLoop | RTest | RPoll | RExit | RDtor | RDone.

Record State := mkState {
  opc : owner_pc;
  rpc : runner_pc;
  mutex_ : MutexLock;
  (** [loop_ != NULL] *)
  loop_ : bool;
  exiting_ : bool;
  (** [started_] and [joined_] of [thread_] *)
  started_ : bool;
  joined_ : bool;
  (** the [EventLoop] object: whether it exists, its [quit_], its descriptor *)
  alive : bool;
  quit_ : bool;
  wakeupFd_ : bool;
  (** for the properties: [loop()] was running when the destructor called [quit()];
      a member function was called on a loop that no longer exists *)
  in_loop_at_quit : bool;
  invalid_access : bool
}.

#[export] Instance owner_pc_eq : EqDecision owner_pc.
Proof. solve_decision. Defined.
#[export] Instance runner_pc_eq : EqDecision runner_pc.
Proof. solve_decision. Defined.
#[export] Instance MutexLock_eq : EqDecision MutexLock.
Proof. solve_decision. Defined.
#[export] Instance State_eq : EqDecision State.
Proof. solve_decision. Defined.

Definition newEventLoopThread : State :=
  mkState OBefore RNone newMutex false false false false false false false false false.

Definition set_opc p s := mkState p (rpc s) (mutex_ s) (loop_ s) (exiting_ s) (started_ s) (joined_ s) (alive s) (quit_ s) (wakeupFd_ s) (in_loop_at_quit s) (invalid_access s).
Definition set_rpc p s := mkState (opc s) p (mutex_ s) (loop_ s) (exiting_ s) (started_ s) (joined_ s) (alive s) (quit_ s) (wakeupFd_ s) (in_loop_at_quit s) (invalid_access s).
Definition set_mutex m s := mkState (opc s) (rpc s) m (loop_ s) (exiting_ s) (started_ s) (joined_ s) (alive s) (quit_ s) (wakeupFd_ s) (in_loop_at_quit s) (invalid_access s).
Definition set_loop b s := mkState (opc s) (rpc s) (mutex_ s) b (exiting_ s) (started_ s) (joined_ s) (alive s) (quit_ s) (wakeupFd_ s) (in_loop_at_quit s) (invalid_access s).
Definition set_alive b s := mkState (opc s) (rpc s) (mutex_ s) (loop_ s) (exiting_ s) (started_ s) (joined_ s) b (quit_ s) (wakeupFd_ s) (in_loop_at_quit s) (invalid_access s).
Definition set_quit b s := mkState (opc s) (rpc s) (mutex_ s) (loop_ s) (exiting_ s) (started_ s) (joined_ s) (alive s) b (wakeupFd_ s) (in_loop_at_quit s) (invalid_access s).
Definition set_wakeup b s := mkState (opc s) (rpc s) (mutex_ s) (loop_ s) (exiting_ s) (started_ s) (joined_ s) (alive s) (quit_ s) b (in_loop_at_quit s) (invalid_access s).
Definition set_exiting s := mkState (opc s) (rpc s) (mutex_ s) (loop_ s) true (started_ s) (joined_ s) (alive s) (quit_ s) (wakeupFd_ s) (in_loop_at_quit s) (invalid_access s).
Definition set_thread_started s := mkState (opc s) (rpc s) (mutex_ s) (loop_ s) (exiting_ s) true (joined_ s) (alive s) (quit_ s) (wakeupFd_ s) (in_loop_at_quit s) (invalid_access s).
Definition set_thread_joined s := mkState (opc s) (rpc s) (mutex_ s) (loop_ s) (exiting_ s) (started_ s) true (alive s) (quit_ s) (wakeupFd_ s) (in_loop_at_quit s) (invalid_access s).
Definition set_in_loop b s := mkState (opc s) (rpc s) (mutex_ s) (loop_ s) (exiting_ s) (started_ s) (joined_ s) (alive s) (quit_ s) (wakeupFd_ s) b (invalid_access s).
(** A member function of the loop is called. *)
Definition use_loop s := mkState (opc s) (rpc s) (mutex_ s) (loop_ s) (exiting_ s) (started_ s) (joined_ s) (alive s) (quit_ s) (wakeupFd_ s) (in_loop_at_quit s)
  (invalid_access s || negb (alive s)).

(** ** The owner *)

(** [None]: it cannot go on now. *)
Definition locked (t : nat) (s : State) (k : State -> State) : option (outcome State) :=
  match lock t (mutex_ s) with Some m => Some (Ret (k (set_mutex m s))) | None => None end.

Definition startLoop (s : State) : option (outcome State) :=
  match opc s with
  | OBefore => Some (assert* negb (started_ s) in Ret (set_opc OEnter (set_rpc RCtor (set_thread_started s))))
  | OEnter | OWoken => locked 0 s (set_opc OInside)
  | OInside =>
      if loop_ s then Some (Ret (set_opc OLeave s))
      else Some (let* m := wait_release 0 (mutex_ s) in Ret (set_opc OWaiting (set_mutex m s)))
  | OLeave => Some (let* m := unlock 0 (mutex_ s) in Ret (set_opc OReturn (set_mutex m s)))
  | OReturn => Some (Ret (set_opc (OHas (loop_ s)) s))
  | _ => None
  end.

(** [~EventLoopThread], from where it is called; [loop_->quit()] is a store and a write
    to the descriptor *)
Definition destroy (s : State) : option (outcome State) :=
  match opc s with
  | ODestroy => let s := set_exiting s in Some (Ret (set_opc (if loop_ s then OQuit else OGone false) s))
  | OQuit =>
      let running := match rpc s with RTest | RPoll => true | _ => false end in
      Some (Ret (set_opc OWakeup (set_in_loop running (set_quit true (use_loop s)))))
  | OWakeup => Some (assert* started_ s && negb (joined_ s) in Ret (set_opc OJoin (set_thread_joined (set_wakeup true (use_loop s)))))
  | OJoin => match rpc s with RDone => Some (Ret (set_opc (OGone true) s)) | _ => None end
  | _ => None
  end.

Definition owner_step (s : State) : option (outcome State) :=
  match startLoop s with Some o => Some o | None => destroy s end.

(** ** The thread *)

Definition threadFunc (s : State) : option (outcome State) :=
  match rpc s with
  | RCtor => Some (Ret (set_rpc RCallback (set_alive true (set_quit false (set_wakeup false s)))))
  | RCallback => Some (Ret (set_rpc REnter s))
  | REnter => locked 1 s (set_rpc RInside)
  | RInside => Some (Ret (set_rpc RLeave (set_opc (match opc s with OWaiting => OWoken | p => p end) (set_loop true s))))
  | RLeave => Some (let* m := unlock 1 (mutex_ s) in Ret (set_rpc RLoop (set_mutex m s)))
  | RLoop => Some (Ret (set_rpc RTest (set_quit false s)))
  | RTest => Some (Ret (set_rpc (if quit_ s then RExit else RPoll) s))
  | RPoll => if wakeupFd_ s then Some (Ret (set_rpc RTest (set_wakeup false s))) else None
  | RExit => Some (Ret (set_rpc RDtor (set_loop false s)))
  | RDtor => Some (Ret (set_rpc RDone (set_alive false s)))
  | RNone | RDone => None
  end.

(** ** All of it *)

Inductive event :=
  | Owner
  | Runner
  (** a spurious wakeup of the owner; some other event of the loop, whose callback may call
      [quit()]; the owner decides to destroy the object *)
  | SpuriousWakeup
  | Activity (quits : bool)
  | Destroy.

Definition event_step (e : event) (s : State) : option (outcome State) :=
  match e with
  | Owner => owner_step s
  | Runner => threadFunc s
  | SpuriousWakeup => match opc s with OWaiting => Some (Ret (set_opc OWoken s)) | _ => None end
  | Activity quits => match rpc s with RPoll => Some (Ret (set_rpc RTest (if quits then set_quit true s else s))) | _ => None end
  | Destroy => match opc s with OHas _ => Some (Ret (set_opc ODestroy s)) | _ => None end
  end.

Definition events (self_quit : bool) : list event :=
  [Owner; Runner; SpuriousWakeup; Activity false; Destroy] ++ (if self_quit then [Activity true] else []).

(** [self_quit]: callbacks of the loop call [quit()]. *)
Inductive reaches (self_quit : bool) : State -> Prop :=
  | reaches_new : reaches self_quit newEventLoopThread
  | reaches_step e s s' : reaches self_quit s -> e ∈ events self_quit -> event_step e s = Some (Ret s') -> reaches self_quit s'.

(** Neither thread can go on by itself. *)
Definition at_rest (s : State) : bool :=
  match owner_step s, threadFunc s with None, None => true | _, _ => false end.

(** ** Exploring the states *)

Definition nexts (self_quit : bool) (s : State) : list State :=
  flat_map (fun e => match event_step e s with Some (Ret s') => [s'] | _ => [] end) (events self_quit).
Definition fails (self_quit : bool) (s : State) : bool :=
  existsb (fun e => match event_step e s with Some (Stop _) => true | _ => false end) (events self_quit).

Fixpoint explore (fuel : nat) (self_quit : bool) (todo seen : list State) : list State :=
  match fuel, todo with
  | S fuel, s :: todo =>
      let new := filter (fun s' => s' ∉ seen ++ todo) (remove_dups (nexts self_quit s)) in
      explore fuel self_quit (todo ++ new) (seen ++ new)
  | _, _ => seen
  end.
Definition states (self_quit : bool) : list State := explore 2000 self_quit [newEventLoopThread] [newEventLoopThread].

Lemma states_closed self_quit : forallb (fun s => forallb (fun s' => bool_decide (s' ∈ states self_quit)) (nexts self_quit s)) (states self_quit) = true.
Proof. destruct self_quit; vm_compute; reflexivity. Qed.

Lemma reaches_states self_quit s : reaches self_quit s -> s ∈ states self_quit.
Proof.
  induction 1 as [|e s s' R IH He E].
  - apply (bool_decide_eq_true (newEventLoopThread ∈ states self_quit)). destruct self_quit; vm_compute; reflexivity.
  - pose proof (states_closed self_quit) as C. rewrite forallb_forall in C. specialize (C s (proj1 (list_elem_of_In _ _) IH)).
    rewrite forallb_forall in C. apply (bool_decide_eq_true (s' ∈ states self_quit)), C, in_flat_map.
    exists e. split; [by apply list_elem_of_In|]. rewrite E. by left.
Qed.

(** What holds of all states holds of those reached. *)
Lemma check_states self_quit (f : State -> bool) s : forallb f (states self_quit) = true -> reaches self_quit s -> f s = true.
Proof. rewrite forallb_forall. intros F R. by apply F, list_elem_of_In, reaches_states. Qed.

Lemma fails_false self_quit s e f : fails self_quit s = false -> e ∈ events self_quit -> event_step e s <> Some (Stop f).
Proof.
  intros H He E. unfold fails in H. enough (existsb (fun e => match event_step e s with Some (Stop _) => true | _ => false end) (events self_quit) = true) by congruence.
  apply existsb_exists. exists e. split; [by apply list_elem_of_In|]. by rewrite E.
Qed.

Definition in_startLoop (p : owner_pc) : bool :=
  match p with OBefore | OEnter | OInside | OWaiting | OWoken | OLeave | OReturn => true | _ => false end.

Definition start_check (s : State) : bool :=
  negb (fails false s) &&
  (match opc s with OReturn => loop_ s && alive s | OHas b => b && loop_ s && alive s | _ => true end) &&
  (negb (at_rest s) || negb (in_startLoop (opc s))) &&
  (negb (at_rest s && in_loop_at_quit s) || (bool_decide (opc s = OGone true) && bool_decide (rpc s = RDone))).

Lemma start_checked : forallb start_check (states false) = true.
Proof. vm_compute. reflexivity. Qed.

(** C34. [startLoop()] returns a loop that runs. For every interleaving of the owner and the
    thread, with spurious wakeups, while only the destructor calls [quit()]: no assertion fails;
    the pointer that [startLoop()] returns is not null and the loop exists until the
    destructor is called; [startLoop()] is not left waiting; and a destructor that calls [quit()]
    while [loop()] runs joins the thread, which has ended then. *)
Theorem startLoop_returns s : reaches false s ->
  (forall e f, e ∈ events false -> event_step e s <> Some (Stop f)) /\
  (forall loop, opc s = OHas loop -> loop = true /\ alive s = true) /\
  (at_rest s = true -> in_startLoop (opc s) = false) /\
  (at_rest s = true -> in_loop_at_quit s = true -> opc s = OGone true /\ rpc s = RDone).
Proof.
  intros R. pose proof (check_states false start_check s start_checked R) as C. unfold start_check in C.
  rewrite !andb_true_iff, !orb_true_iff, !negb_true_iff, andb_true_iff, !bool_decide_eq_true in C.
  destruct C as (((C1 & C2) & C3) & C4). split_and!.
  - intros e f. by apply fails_false.
  - intros b E. rewrite E in C2. apply andb_true_iff in C2 as [[C2 _]%andb_true_iff C2']. done.
  - intros A. destruct C3 as [C3|C3]; congruence.
  - intros A Q. rewrite A, Q in C4. by destruct C4.
Qed.

(** A run: the owner waits before the thread publishes its loop. *)
Fixpoint run_events (es : list event) (s : State) : option State :=
  match es with
  | [] => Some s
  | e :: es => match event_step e s with Some (Ret s) => run_events es s | _ => None end
  end.

Lemma run_reaches self_quit es s s' :
  forallb (fun e => match e with Activity true => self_quit | _ => true end) es = true ->
  reaches self_quit s -> run_events es s = Some s' -> reaches self_quit s'.
Proof.
  revert s. induction es as [|e es IH]; intros s F R E; cbn in *; [by injection E as <-|]. apply andb_true_iff in F as [Fe F].
  destruct (event_step e s) as [[s1|]|] eqn:Es; try done. apply (IH s1 F); [|done]. eapply reaches_step; [exact R| |exact Es].
  unfold events. destruct e as [| | |[]|]; destruct self_quit; try done; set_solver.
Qed.

Definition whole_life : list event :=
  [Owner; Owner; Owner; Runner; Runner; Runner; Runner; Runner; Owner; Owner; Owner; Owner; Runner; Runner; Destroy; Owner; Owner; Owner;
   Runner; Runner; Runner; Runner; Owner].

Lemma startLoop_returns_witness : exists s, run_events whole_life newEventLoopThread = Some s /\ opc s = OGone true /\ rpc s = RDone.
Proof.
  eexists. split; [vm_compute; reflexivity|]. apply startLoop_returns; [|reflexivity..].
  apply (run_reaches false whole_life newEventLoopThread); [reflexivity|constructor|vm_compute; reflexivity].
Defined.

(** [quit()] before the thread has entered [loop()] is undone by [quit_ = false] there: a
    destructor called right after [startLoop()] can wait for ever in [join()]. *)
Theorem early_destructor_hangs : exists s, reaches false s /\ at_rest s = true /\ opc s = OJoin /\ rpc s = RPoll /\ quit_ s = false.
Proof.
  eexists. split; [apply (run_reaches false
    [Owner; Runner; Runner; Runner; Runner; Runner; Owner; Owner; Owner; Owner; Destroy; Owner; Owner; Owner; Runner; Runner; Runner; Runner] newEventLoopThread);
    [reflexivity|apply reaches_new|vm_compute; reflexivity]|by vm_compute].
Qed.

(** Between the store and the write of the destructor's [quit()] the loop can end and be
    destroyed, and the write is to an object that no longer exists. *)
Theorem quit_can_outlive_loop : exists s, reaches false s /\ invalid_access s = true.
Proof.
  eexists. split; [apply (run_reaches false
    [Owner; Runner; Runner; Runner; Runner; Runner; Owner; Owner; Owner; Owner; Runner; Destroy; Owner; Owner; Runner; Runner; Runner; Owner] newEventLoopThread);
    [reflexivity|apply reaches_new|vm_compute; reflexivity]|by vm_compute].
Qed.

(** A loop that is quit from its own callbacks before the owner has looked at [loop_]
    leaves [startLoop()] waiting for ever. *)
Theorem startLoop_can_hang : exists s, reaches true s /\ at_rest s = true /\ opc s = OWaiting /\ rpc s = RDone.
Proof.
  eexists. split; [apply (run_reaches true
    [Owner; Runner; Runner; Runner; Runner; Runner; Runner; Runner; Activity true; Runner; Runner; Runner; Owner; Owner] newEventLoopThread);
    [reflexivity|apply reaches_new|vm_compute; reflexivity]|by vm_compute].
Qed.
