(* ===== verification/EventLoopThreadPool.v ===== *)
(** * EventLoopThreadPool (src/muduo/muduo/net/EventLoopThreadPool.cc)

    The distribution of connections over loops. A loop is named by a number;
    what [EventLoopThread::startLoop] returns for the i-th thread, and the init
    callback's calls, are recorded. *)

From S2P Require Import Prelude Format.

Record EventLoopThreadPool := mkPool {
  baseLoop_ : Z;
  name_ : list byte;
  started_ : bool;
  numThreads_ : Z;
  next_ : Z;
  (** the names of [threads_] *)
  threads_ : list (list byte);
  loops_ : list Z
}.

Definition newPool (baseLoop : Z) (name : list byte) : EventLoopThreadPool := mkPool baseLoop name false 0 0 [] [].
Definition setThreadNum (n : Z) (p : EventLoopThreadPool) : EventLoopThreadPool :=
  mkPool (baseLoop_ p) (name_ p) (started_ p) n (next_ p) (threads_ p) (loops_ p).

Section Start.
(** [startLoop()] of the thread with a given name. *)
Context (startLoop : list byte -> Z).

Definition thread_name (p : EventLoopThreadPool) (i : Z) : list byte :=
  snprintf (zlen (name_ p) + 32) (name_ p ++ fmt_d i).

Fixpoint start_loop (fuel : nat) (i : Z) (p : EventLoopThreadPool) : EventLoopThreadPool :=
  match fuel with
  | O => p
  | S fuel =>
      if decide (i < numThreads_ p) then
        let buf := thread_name p i in
        start_loop fuel (i + 1)
          (mkPool (baseLoop_ p) (name_ p) (started_ p) (numThreads_ p) (next_ p) (threads_ p ++ [buf]) (loops_ p ++ [startLoop buf]))
      else p
  end.

(** [start(cb)]: the pool and the loops on which [cb] was called here. *)
Definition start (inLoop : bool) (cb : bool) (p : EventLoopThreadPool) : outcome (EventLoopThreadPool * list Z) :=
  assert* negb (started_ p) in
  inloop* inLoop in
  let p := mkPool (baseLoop_ p) (name_ p) true (numThreads_ p) (next_ p) (threads_ p) (loops_ p) in
  let p := start_loop (Z.to_nat (numThreads_ p)) 0 p in
  Ret (p, if bool_decide (numThreads_ p = 0) && cb then [baseLoop_ p] else []).
End Start.

Definition getNextLoop (inLoop : bool) (p : EventLoopThreadPool) : outcome (Z * EventLoopThreadPool) :=
  inloop* inLoop in
  assert* started_ p in
  if decide (loops_ p = []) then Ret (baseLoop_ p, p)
  else
    match loops_ p !! Z.to_nat (next_ p) with
    | None => Stop OutOfRange
    | Some loop =>
        let next := i32 (next_ p + 1) in
        let next := if decide (zlen (loops_ p) <= u64 next) then 0 else next in
        Ret (loop, mkPool (baseLoop_ p) (name_ p) (started_ p) (numThreads_ p) next (threads_ p) (loops_ p))
    end.

Definition getLoopForHash (inLoop : bool) (hashCode : Z) (p : EventLoopThreadPool) : outcome Z :=
  inloop* inLoop in
  if decide (loops_ p = []) then Ret (baseLoop_ p)
  else match loops_ p !! Z.to_nat (hashCode mod zlen (loops_ p)) with
       | Some loop => Ret loop
       | None => Stop OutOfRange
       end.

Definition getAllLoops (inLoop : bool) (p : EventLoopThreadPool) : outcome (list Z) :=
  inloop* inLoop in
  assert* started_ p in
  Ret (if decide (loops_ p = []) then [baseLoop_ p] else loops_ p).

(** [n] calls of [getNextLoop] *)
Fixpoint getNextLoops (n : nat) (p : EventLoopThreadPool) : outcome (list Z * EventLoopThreadPool) :=
  match n with
  | O => Ret ([], p)
  | S n =>
      let* (loop, p) := getNextLoop true p in
      let* (loops, p) := getNextLoops n p in
      Ret (loop :: loops, p)
  end.

(** ** Properties *)

Definition pool_ok (p : EventLoopThreadPool) : Prop :=
  started_ p = true /\ zlen (loops_ p) < 2 ^ 31 /\ 0 <= next_ p < Z.max 1 (zlen (loops_ p)).

Definition at_next (n : Z) (p : EventLoopThreadPool) : EventLoopThreadPool :=
  mkPool (baseLoop_ p) (name_ p) (started_ p) (numThreads_ p) n (threads_ p) (loops_ p).

Lemma start_loop_spec sl fuel i p :
  0 <= i -> i + Z.of_nat fuel = Z.max i (numThreads_ p) ->
  let p' := start_loop sl fuel i p in
  let names := map (fun k => thread_name p (i + Z.of_nat k)) (seq 0 fuel) in
  p' = mkPool (baseLoop_ p) (name_ p) (started_ p) (numThreads_ p) (next_ p) (threads_ p ++ names) (loops_ p ++ map sl names).
Proof.
  revert i p. induction fuel as [|fuel IH]; intros i p Hi Hf; cbn [start_loop seq map].
  - rewrite !app_nil_r. by destruct p.
  - rewrite decide_True by lia. rewrite IH by (cbn [numThreads_]; lia).
    cbn [baseLoop_ name_ started_ numThreads_ next_ threads_ loops_]. rewrite <- !app_assoc. cbn [app].
    replace (i + Z.of_nat 0) with i by lia.
    assert (map (fun k => thread_name (mkPool (baseLoop_ p) (name_ p) (started_ p) (numThreads_ p) (next_ p)
        (threads_ p ++ [thread_name p i]) (loops_ p ++ [sl (thread_name p i)])) (i + 1 + Z.of_nat k)) (seq 0 fuel) =
      map (fun k => thread_name p (i + Z.of_nat k)) (seq 1 fuel)) as ->; [|done].
    rewrite <- seq_shift, map_map. apply map_ext. intros k. unfold thread_name. cbn [name_].
    by replace (i + 1 + Z.of_nat k) with (i + Z.of_nat (S k)) by lia.
Qed.

Lemma getNextLoop_ok p :
  pool_ok p -> loops_ p <> [] ->
  exists loop, loops_ p !! Z.to_nat (next_ p) = Some loop /\
    getNextLoop true p = Ret (loop, at_next ((next_ p + 1) mod zlen (loops_ p)) p).
Proof.
  intros (S & L & N) Ne. assert (0 < zlen (loops_ p)) as Pos.
  { destruct (loops_ p); [done|]. rewrite zlen_cons. pose proof (zlen_nonneg l). lia. }
  destruct (loops_ p !! Z.to_nat (next_ p)) as [loop|] eqn:E.
  2: { apply lookup_ge_None in E. unfold zlen in *. lia. }
  exists loop. split; [done|]. unfold getNextLoop. rewrite S. cbn [assertInLoopThread check]. rewrite decide_False by done.
  rewrite E. unfold at_next. rewrite S, swrap_small, wrap_small by lia.
  case_decide as D.
  - assert (next_ p + 1 = zlen (loops_ p)) as -> by lia. by rewrite Z_mod_same_full.
  - by rewrite Z.mod_small by lia.
Qed.

Lemma at_next_ok p n : pool_ok p -> loops_ p <> [] -> 0 <= n < zlen (loops_ p) -> pool_ok (at_next n p).
Proof. intros (S & L & N) Ne B. unfold pool_ok. cbn. split_and!; try done; lia. Qed.

Lemma getNextLoops_ok n p :
  pool_ok p -> loops_ p <> [] ->
  exists p', getNextLoops n p = Ret (map (fun k => nth (Z.to_nat ((next_ p + Z.of_nat k) mod zlen (loops_ p))) (loops_ p) 0) (seq 0 n), p') /\
    p' = at_next ((next_ p + Z.of_nat n) mod zlen (loops_ p)) p.
Proof.
  assert (loops_ p <> [] -> 0 < zlen (loops_ p)) as Pos.
  { destruct (loops_ p); [done|]. intros _. rewrite zlen_cons. pose proof (zlen_nonneg l). lia. }
  revert p Pos. induction n as [|n IH]; intros p Pos O Ne; cbn [getNextLoops seq map].
  - eexists. split; [reflexivity|]. destruct O as (_ & _ & N). specialize (Pos Ne).
    rewrite Z.add_0_r, Z.mod_small by lia. by destruct p.
  - destruct (getNextLoop_ok p O Ne) as (loop & E & ->). cbn [obind]. specialize (Pos Ne).
    pose proof (Z.mod_pos_bound (next_ p + 1) _ Pos) as B.
    destruct (IH (at_next ((next_ p + 1) mod zlen (loops_ p)) p)) as (p' & -> & ->);
      [by intros _|by apply at_next_ok|done|]. cbn [obind at_next loops_ next_].
    eexists. split.
    + f_equal. f_equal. f_equal.
      * rewrite Z.add_0_r, Z.mod_small by (destruct O as (_ & _ & ?); lia). symmetry.
        by apply nth_lookup_Some with (d := 0).
      * rewrite <- seq_shift, map_map. apply map_ext. intros k. rewrite Zplus_mod_idemp_l.
        by replace (next_ p + 1 + Z.of_nat k) with (next_ p + Z.of_nat (S k)) by lia.
    + rewrite Zplus_mod_idemp_l. unfold at_next. cbn. f_equal. f_equal. lia.
Qed.

(** After [start] with n threads the connections go round: the k-th call of
    [getNextLoop] gives the loop of thread k mod n, so every n calls in a row use
    each loop once; without threads it is always the base loop. *)
Theorem round_robin (startLoop : list byte -> Z) (base : Z) (name : list byte) (n : Z) (calls : nat) :
  0 <= n < 2 ^ 31 ->
  exists p cbs, start startLoop true true (setThreadNum n (newPool base name)) = Ret (p, cbs) /\
    length (loops_ p) = Z.to_nat n /\
    exists p', getNextLoops calls p = Ret (map (fun k =>
      if decide (n = 0) then base
      else startLoop (thread_name p (Z.of_nat k mod n))) (seq 0 calls), p').
Proof.
  intros Hn. unfold start. cbn [setThreadNum newPool started_ negb check assertInLoopThread baseLoop_ name_ numThreads_ next_ threads_ loops_].
  rewrite start_loop_spec by (cbn [numThreads_]; lia).
  cbn [baseLoop_ name_ started_ numThreads_ next_ threads_ loops_ app].
  eexists _, _. split; [reflexivity|]. cbn [loops_]. rewrite !length_map, length_seq. split; [done|].
  set (names := map _ (seq 0 (Z.to_nat n))). set (p := mkPool base name true n 0 names (map startLoop names)).
  assert (zlen (loops_ p) = n) as Ln by (cbn; unfold zlen, names; rewrite !length_map, length_seq; lia).
  destruct (decide (n = 0)) as [->|Nz].
  - clear Ln. induction calls as [|calls IH]; cbn [getNextLoops seq map]; [by eexists|].
    unfold getNextLoop at 1. cbn [assertInLoopThread check p started_ loops_ names map seq Z.to_nat].
    rewrite decide_True by done. cbn [obind baseLoop_]. destruct IH as (p' & ->). cbn [obind]. exists p'.
    rewrite <- seq_shift, map_map. done.
  - destruct (getNextLoops_ok calls p) as (p' & -> & _).
    + unfold pool_ok. rewrite Ln. cbn [next_ started_ p]. split_and!; try done; lia.
    + intros E. rewrite E in Ln. done.
    + exists p'. rewrite Ln. f_equal. f_equal. apply map_ext. intros k. cbn [next_ p loops_ names]. rewrite Z.add_0_l.
      pose proof (Z.mod_pos_bound (Z.of_nat k) n ltac:(lia)) as B.
      apply nth_lookup_Some. unfold names.
      change (map startLoop (map ?g ?l)) with (startLoop <$> (g <$> l)).
      rewrite list_lookup_fmap, list_lookup_fmap, lookup_seq_lt by lia.
      cbn. f_equal. f_equal. f_equal. lia.
Qed.

Lemma round_robin_witness :
  exists p cbs, start (fun nm => zlen nm) true true (setThreadNum 2 (newPool 7 (bytes "io"))) = Ret (p, cbs) /\
    length (loops_ p) = Z.to_nat 2 /\
    exists p', getNextLoops 3 p = Ret (map (fun k =>
      if decide (2 = 0) then 7 else zlen (thread_name p (Z.of_nat k mod 2))) (seq 0 3), p').
Proof. apply (round_robin (fun nm => zlen nm) 7 (bytes "io") 2 3). lia. Defined.
