(* ===== verification/Buffer.v ===== *)
(** * Buffer (src/muduo/muduo/net/Buffer.h, Buffer.cc)

    The [vector<char>] with a reader and a writer index. Pointers into the
    buffer are offsets from [begin()]; [size_t] arithmetic wraps at 64 bits;
    every [assert] and every access to the vector is checked. The abstract
    view is the byte string [content] between the two indices. *)

From S2P Require Import Prelude Endian StringPiece.

Definition kCheapPrepend : Z := 8.
Definition kInitialSize : Z := 1024.
Definition kCRLF : list byte := [Byte.x0d; Byte.x0a].

Record Buffer := mkBuffer {
  buffer_ : list byte;
  readerIndex_ : Z;
  writerIndex_ : Z
}.

(** ** Operations *)

Definition readableBytes (b : Buffer) : Z := u64 (writerIndex_ b - readerIndex_ b).
Definition writableBytes (b : Buffer) : Z := u64 (zlen (buffer_ b) - writerIndex_ b).
Definition prependableBytes (b : Buffer) : Z := readerIndex_ b.
Definition peek (b : Buffer) : Z := readerIndex_ b.
Definition beginWrite (b : Buffer) : Z := writerIndex_ b.

Definition newBuffer (initialSize : Z) : outcome Buffer :=
  let* v := vector_resize (u64 (kCheapPrepend + initialSize)) [] in
  let b := mkBuffer v kCheapPrepend kCheapPrepend in
  assert* bool_decide (readableBytes b = 0) in
  assert* bool_decide (writableBytes b = initialSize) in
  assert* bool_decide (prependableBytes b = kCheapPrepend) in
  Ret b.

Definition swap (b rhs : Buffer) : Buffer * Buffer :=
  (mkBuffer (buffer_ rhs) (readerIndex_ rhs) (writerIndex_ rhs),
   mkBuffer (buffer_ b) (readerIndex_ b) (writerIndex_ b)).

(** The memory from offset [p] up to [beginWrite()]. *)
Definition region (p : Z) (b : Buffer) : list byte := slice (buffer_ b) p (writerIndex_ b).

Definition findCRLF (b : Buffer) : option Z :=
  let crlf := peek b + std_search kCRLF (region (peek b) b) in
  if decide (crlf = beginWrite b) then None else Some crlf.

Definition findCRLF_from (start : Z) (b : Buffer) : outcome (option Z) :=
  assert* bool_decide (peek b <= start) in
  assert* bool_decide (start <= beginWrite b) in
  let crlf := start + std_search kCRLF (region start b) in
  Ret (if decide (crlf = beginWrite b) then None else Some crlf).

Definition findEOL (b : Buffer) : option Z :=
  (fun i => peek b + i) <$> memchr Byte.x0a (region (peek b) b).

Definition findEOL_from (start : Z) (b : Buffer) : outcome (option Z) :=
  assert* bool_decide (peek b <= start) in
  assert* bool_decide (start <= beginWrite b) in
  Ret ((fun i => start + i) <$> memchr Byte.x0a (region start b)).

Definition retrieveAll (b : Buffer) : Buffer :=
  mkBuffer (buffer_ b) kCheapPrepend kCheapPrepend.

Definition retrieve (len : Z) (b : Buffer) : outcome Buffer :=
  assert* bool_decide (len <= readableBytes b) in
  Ret (if decide (len < readableBytes b)
       then mkBuffer (buffer_ b) (u64 (readerIndex_ b + len)) (writerIndex_ b)
       else retrieveAll b).

Definition retrieveUntil (end_ : Z) (b : Buffer) : outcome Buffer :=
  assert* bool_decide (peek b <= end_) in
  assert* bool_decide (end_ <= beginWrite b) in
  retrieve (u64 (end_ - peek b)) b.

Definition retrieveInt64 (b : Buffer) : outcome Buffer := retrieve 8 b.
Definition retrieveInt32 (b : Buffer) : outcome Buffer := retrieve 4 b.
Definition retrieveInt16 (b : Buffer) : outcome Buffer := retrieve 2 b.
Definition retrieveInt8 (b : Buffer) : outcome Buffer := retrieve 1 b.

(** [string result(peek(), len); retrieve(len); return result;] *)
Definition retrieveAsString (len : Z) (b : Buffer) : outcome (list byte * Buffer) :=
  assert* bool_decide (len <= readableBytes b) in
  let* result := load len (zdrop (peek b) (buffer_ b)) in
  let* b' := retrieve len b in
  Ret (result, b').
Definition retrieveAllAsString (b : Buffer) : outcome (list byte * Buffer) :=
  retrieveAsString (readableBytes b) b.

Definition toStringPiece (b : Buffer) : StringPiece :=
  sp_of_ptr (zdrop (peek b) (buffer_ b)) (i32 (readableBytes b)).

Definition hasWritten (len : Z) (b : Buffer) : outcome Buffer :=
  assert* bool_decide (len <= writableBytes b) in
  Ret (mkBuffer (buffer_ b) (readerIndex_ b) (u64 (writerIndex_ b + len))).

Definition unwrite (len : Z) (b : Buffer) : outcome Buffer :=
  assert* bool_decide (len <= readableBytes b) in
  Ret (mkBuffer (buffer_ b) (readerIndex_ b) (u64 (writerIndex_ b - len))).

Definition makeSpace (len : Z) (b : Buffer) : outcome Buffer :=
  if decide (u64 (writableBytes b + prependableBytes b) < u64 (len + kCheapPrepend)) then
    let* v := vector_resize (u64 (writerIndex_ b + len)) (buffer_ b) in
    Ret (mkBuffer v (readerIndex_ b) (writerIndex_ b))
  else
    assert* bool_decide (kCheapPrepend < readerIndex_ b) in
    let readable := readableBytes b in
    let* v := store kCheapPrepend (slice (buffer_ b) (readerIndex_ b) (writerIndex_ b)) (buffer_ b) in
    let b' := mkBuffer v kCheapPrepend (u64 (kCheapPrepend + readable)) in
    assert* bool_decide (readable = readableBytes b') in
    Ret b'.

Definition ensureWritableBytes (len : Z) (b : Buffer) : outcome Buffer :=
  let* b' := (if decide (writableBytes b < len) then makeSpace len b else Ret b) in
  assert* bool_decide (writableBytes b' >= len) in
  Ret b'.

(** Writing [d] at [beginWrite()]. *)
Definition write_at_end (d : list byte) (b : Buffer) : outcome Buffer :=
  let* v := store (writerIndex_ b) d (buffer_ b) in
  Ret (mkBuffer v (readerIndex_ b) (writerIndex_ b)).

(** [append(data, len)]; [data] is the memory readable from the pointer. *)
Definition append (data : list byte) (len : Z) (b : Buffer) : outcome Buffer :=
  let* b1 := ensureWritableBytes len b in
  let* d := load len data in
  let* b2 := write_at_end d b1 in
  hasWritten len b2.

(** [append(const StringPiece&)]: the [int] size converts to [size_t]. *)
Definition append_piece (str : StringPiece) (b : Buffer) : outcome Buffer :=
  append (sp_data str) (u64 (sp_size str)) b.

(** [append] of a [string] or of a C string, which converts to a piece. *)
Definition append_string (d : list byte) (b : Buffer) : outcome Buffer :=
  append_piece (sp_of_string d) b.

Definition append_bytes (d : list byte) (b : Buffer) : outcome Buffer := append d (zlen d) b.

Definition prepend (data : list byte) (len : Z) (b : Buffer) : outcome Buffer :=
  assert* bool_decide (len <= prependableBytes b) in
  let r := u64 (readerIndex_ b - len) in
  let* d := load len data in
  let* v := store r d (buffer_ b) in
  Ret (mkBuffer v r (writerIndex_ b)).

Section Integers.
Context (host : endian).

Definition appendInt64 (x : Z) (b : Buffer) : outcome Buffer :=
  append (int_to_mem host 8 (i64 (hostToNetwork64 host (u64 x)))) 8 b.
Definition appendInt32 (x : Z) (b : Buffer) : outcome Buffer :=
  append (int_to_mem host 4 (i32 (hostToNetwork32 host (u32 x)))) 4 b.
Definition appendInt16 (x : Z) (b : Buffer) : outcome Buffer :=
  append (int_to_mem host 2 (i16 (hostToNetwork16 host (u16 x)))) 2 b.
Definition appendInt8 (x : Z) (b : Buffer) : outcome Buffer :=
  append (int_to_mem host 1 x) 1 b.

(** [memcpy(&be, peek(), n)] after the assert on [readableBytes()]. *)
Definition peek_mem (n : Z) (b : Buffer) : outcome (list byte) :=
  assert* bool_decide (readableBytes b >= n) in
  load n (zdrop (peek b) (buffer_ b)).

Definition peekInt64 (b : Buffer) : outcome Z :=
  let* m := peek_mem 8 b in Ret (i64 (networkToHost64 host (u64 (i64 (int_of_mem host m))))).
Definition peekInt32 (b : Buffer) : outcome Z :=
  let* m := peek_mem 4 b in Ret (i32 (networkToHost32 host (u32 (i32 (int_of_mem host m))))).
Definition peekInt16 (b : Buffer) : outcome Z :=
  let* m := peek_mem 2 b in Ret (i16 (networkToHost16 host (u16 (i16 (int_of_mem host m))))).
Definition peekInt8 (b : Buffer) : outcome Z :=
  let* m := peek_mem 1 b in Ret (i8 (int_of_mem host m)).

Definition readInt64 (b : Buffer) : outcome (Z * Buffer) :=
  let* result := peekInt64 b in let* b' := retrieveInt64 b in Ret (result, b').
Definition readInt32 (b : Buffer) : outcome (Z * Buffer) :=
  let* result := peekInt32 b in let* b' := retrieveInt32 b in Ret (result, b').
Definition readInt16 (b : Buffer) : outcome (Z * Buffer) :=
  let* result := peekInt16 b in let* b' := retrieveInt16 b in Ret (result, b').
Definition readInt8 (b : Buffer) : outcome (Z * Buffer) :=
  let* result := peekInt8 b in let* b' := retrieveInt8 b in Ret (result, b').

Definition prependInt64 (x : Z) (b : Buffer) : outcome Buffer :=
  prepend (int_to_mem host 8 (i64 (hostToNetwork64 host (u64 x)))) 8 b.
Definition prependInt32 (x : Z) (b : Buffer) : outcome Buffer :=
  prepend (int_to_mem host 4 (i32 (hostToNetwork32 host (u32 x)))) 4 b.
Definition prependInt16 (x : Z) (b : Buffer) : outcome Buffer :=
  prepend (int_to_mem host 2 (i16 (hostToNetwork16 host (u16 x)))) 2 b.
Definition prependInt8 (x : Z) (b : Buffer) : outcome Buffer :=
  prepend (int_to_mem host 1 x) 1 b.
End Integers.

Definition shrink (reserve : Z) (b : Buffer) : outcome Buffer :=
  let* other := newBuffer kInitialSize in
  let* other := ensureWritableBytes (u64 (readableBytes b + reserve)) other in
  let* other := append_piece (toStringPiece b) other in
  Ret (fst (swap b other)).

(** The result of [readv(2)]: the bytes the kernel scattered over the iovecs,
    or [-1] with an [errno]. *)
Inductive io_result :=
  | IoOk (data : list byte)
  | IoErr (err : Z).

Definition extrabuf_size : Z := 65536.

(** The lengths of the iovecs: with enough room, [extrabuf] is not used. *)
Definition readFd_iov (b : Buffer) : list Z :=
  let writable := writableBytes b in
  if decide (writable < extrabuf_size) then [writable; extrabuf_size] else [writable].

(** [readFd]: the return value, [*savedErrno] when it is set, and the buffer.
    [readv] maps the lengths of the iovecs to the kernel's answer. *)
Definition readFd (readv : list Z -> io_result) (b : Buffer) : outcome (Z * option Z * Buffer) :=
  let writable := writableBytes b in
  match readv (readFd_iov b) with
  | IoErr err => Ret (-1, Some err, b)
  | IoOk data =>
      let n := zlen data in
      let* b1 := write_at_end (ztake writable data) b in
      if decide (n <= writable) then
        Ret (n, None, mkBuffer (buffer_ b1) (readerIndex_ b1) (u64 (writerIndex_ b1 + n)))
      else
        let b2 := mkBuffer (buffer_ b1) (readerIndex_ b1) (zlen (buffer_ b1)) in
        let* b3 := append (zdrop writable data) (n - writable) b2 in
        Ret (n, None, b3)
  end.

(** ** Invariant and abstract view *)

(** [0 <= readerIndex <= writerIndex <= size], and room for the prepend area. *)
Definition wf (b : Buffer) : Prop :=
  0 <= readerIndex_ b <= writerIndex_ b /\
  writerIndex_ b <= zlen (buffer_ b) <= max_size /\ kCheapPrepend <= zlen (buffer_ b).

Definition content (b : Buffer) : list byte := slice (buffer_ b) (readerIndex_ b) (writerIndex_ b).

#[export] Instance wf_dec b : Decision (wf b).
Proof. unfold wf. apply _. Defined.

(** Goals over the indices of a buffer. *)
Ltac buf_lia :=
  unfold wf, retrieveAll, kCheapPrepend, kInitialSize, max_size in *;
  cbn [buffer_ readerIndex_ writerIndex_] in *; zlia.

Lemma readable_ok b : wf b -> readableBytes b = writerIndex_ b - readerIndex_ b.
Proof. intros H. unfold readableBytes. apply wrap_small. buf_lia. Qed.

Lemma writable_ok b : wf b -> writableBytes b = zlen (buffer_ b) - writerIndex_ b.
Proof. intros H. unfold writableBytes. apply wrap_small. buf_lia. Qed.

Lemma content_len b : wf b -> zlen (content b) = readableBytes b.
Proof. intros H. rewrite readable_ok by done. unfold content. destruct H. apply zlen_slice; lia. Qed.

Lemma content_bound b : wf b -> zlen (content b) <= max_size.
Proof. intros H. rewrite content_len, readable_ok by done. buf_lia. Qed.

(** The vector is the prepended bytes, the content and the writable bytes. *)
Lemma wf_split b :
  wf b ->
  exists p q, buffer_ b = p ++ content b ++ q /\ zlen p = readerIndex_ b /\
    zlen q = writableBytes b.
Proof.
  intros H. pose proof (writable_ok b H). destruct H as (? & ? & ?).
  exists (ztake (readerIndex_ b) (buffer_ b)), (zdrop (writerIndex_ b) (buffer_ b)).
  split_and!; [by apply slice_split| |]; zlia.
Qed.

Lemma content_app b p m q :
  buffer_ b = p ++ m ++ q -> zlen p = readerIndex_ b -> zlen m = writerIndex_ b - readerIndex_ b ->
  content b = m.
Proof. intros E ? ?. unfold content. rewrite E. by apply slice_app. Qed.

Lemma zdrop_peek b : wf b -> exists q, zdrop (peek b) (buffer_ b) = content b ++ q.
Proof.
  intros H. destruct (wf_split b H) as (p & q & E & Hp & _). exists q. unfold peek.
  rewrite E, zdrop_app_r by lia. apply zdrop_0. lia.
Qed.

Lemma newBuffer_ok n :
  0 <= n <= max_size - kCheapPrepend ->
  exists b, newBuffer n = Ret b /\ wf b /\ content b = [] /\ writableBytes b = n /\
    readerIndex_ b = kCheapPrepend /\ zlen (buffer_ b) = kCheapPrepend + n.
Proof.
  intros H. unfold kCheapPrepend in H. unfold max_size in H.
  unfold newBuffer, kCheapPrepend. rewrite wrap_small by lia.
  rewrite vector_resize_grow by (rewrite zlen_nil; unfold max_size; lia).
  change (@zlen byte []) with 0. rewrite Z.sub_0_r, app_nil_l. cbn [obind].
  set (b := mkBuffer _ _ _).
  assert (Hb : zlen (buffer_ b) = 8 + n) by (cbn; rewrite zlen_replicate; lia).
  assert (wf b) as W by (unfold wf, kCheapPrepend, max_size; rewrite Hb; cbn; lia).
  assert (writableBytes b = n) as Wr by (rewrite writable_ok, Hb by done; cbn; lia).
  exists b. rewrite !check_true; [..|].
  - split_and!; [done|done|apply slice_empty|done|done|done].
  - by apply bool_decide_eq_true.
  - by apply bool_decide_eq_true.
  - apply bool_decide_eq_true. rewrite readable_ok by done. done.
Qed.

Lemma retrieveAll_ok b : wf b -> wf (retrieveAll b) /\ content (retrieveAll b) = [].
Proof. intros H. split; [buf_lia|]. unfold content. apply slice_empty. Qed.

Lemma retrieve_ok n b :
  wf b -> 0 <= n <= readableBytes b ->
  exists b', retrieve n b = Ret b' /\ wf b' /\ content b' = zdrop n (content b) /\
    zlen (buffer_ b') = zlen (buffer_ b).
Proof.
  intros H Hn. pose proof (readable_ok b H) as R. unfold retrieve.
  rewrite check_true by (apply bool_decide_eq_true; lia).
  case_decide as C; eexists; (split; [done|]).
  - rewrite wrap_small by buf_lia. split_and!; [buf_lia| |done].
    unfold content. cbn. rewrite zdrop_slice; [done|buf_lia..].
  - destruct (retrieveAll_ok b H) as [? ->]. split_and!; [done| |done].
    rewrite zdrop_all; [done|]. rewrite content_len by done. lia.
Qed.

Lemma retrieve_stop n b : wf b -> readableBytes b < n -> retrieve n b = Stop AssertFailed.
Proof. intros H Hn. unfold retrieve, check. rewrite bool_decide_eq_false_2; [done|lia]. Qed.

Lemma retrieveUntil_ok e b :
  wf b -> peek b <= e <= beginWrite b ->
  exists b', retrieveUntil e b = Ret b' /\ wf b' /\ content b' = zdrop (e - peek b) (content b) /\
    zlen (buffer_ b') = zlen (buffer_ b).
Proof.
  intros H He. pose proof (readable_ok b H). unfold retrieveUntil, peek, beginWrite in *.
  rewrite !check_true by (apply bool_decide_eq_true; lia).
  rewrite wrap_small by buf_lia. apply retrieve_ok; [done|lia].
Qed.

(** Making room keeps the content and leaves at least [len] writable bytes;
    the vector grows only when moving the content cannot make the room. *)
Lemma makeSpace_ok len b :
  wf b -> 0 <= len -> writableBytes b < len -> zlen (buffer_ b) + len <= max_size ->
  exists b', makeSpace len b = Ret b' /\ wf b' /\ content b' = content b /\
    len <= writableBytes b' /\ Z.min kCheapPrepend (readerIndex_ b) <= readerIndex_ b' /\
    zlen (buffer_ b') =
      (if decide (writableBytes b + prependableBytes b < len + kCheapPrepend)
       then writerIndex_ b + len else zlen (buffer_ b)).
Proof.
  intros H Hl Hw Hm. pose proof (writable_ok b H) as W. pose proof (readable_ok b H) as R.
  destruct (wf_split b H) as (p & q & E & Hp & Hq).
  pose proof (content_len b H) as C. unfold makeSpace, prependableBytes, kCheapPrepend.
  rewrite !(wrap_small 64) by buf_lia.
  case_decide as D.
  - rewrite vector_resize_grow by buf_lia. cbn.
    set (b' := mkBuffer _ _ _). exists b'.
    assert (zlen (buffer_ b') = writerIndex_ b + len) as L by (cbn; buf_lia).
    assert (wf b') as W' by (unfold wf; rewrite L; cbn; buf_lia).
    split_and!; [done|done| | |cbn; lia|done].
    + apply (content_app _ p _ (q ++ replicate (Z.to_nat (writerIndex_ b + len - zlen (buffer_ b))) Byte.x00));
        [|cbn; lia..].
      cbn. rewrite E at 1. by rewrite <- !app_assoc.
    + rewrite writable_ok, L by done. cbn. lia.
  - rewrite check_true by (apply bool_decide_eq_true; unfold kCheapPrepend; buf_lia).
    change (slice (buffer_ b) (readerIndex_ b) (writerIndex_ b)) with (content b).
    assert (zlen (buffer_ b) = zlen p + zlen (content b) + zlen q) as T by (rewrite E at 1; zlia).
    rewrite store_ok by buf_lia. cbn [obind].
    set (b' := mkBuffer _ _ _).
    assert (zlen (buffer_ b') = zlen (buffer_ b)) as L by (cbn; rewrite zlen_overwrite by buf_lia; done).
    assert (wf b') as W' by (unfold wf; rewrite L; cbn; buf_lia).
    exists b'. rewrite check_true.
    2: { apply bool_decide_eq_true. rewrite (readable_ok b') by done. cbn. lia. }
    split_and!; [done|done| | |cbn; unfold kCheapPrepend; lia|done].
    + eapply (content_app _ (ztake 8 (buffer_ b)) _ (zdrop (8 + zlen (content b)) (buffer_ b)));
        cbn; [done| |lia]. rewrite zlen_ztake; buf_lia.
    + rewrite (writable_ok b'), L by done. cbn. lia.
Qed.

Lemma ensureWritableBytes_ok len b :
  wf b -> 0 <= len -> zlen (buffer_ b) + len <= max_size ->
  exists b', ensureWritableBytes len b = Ret b' /\ wf b' /\ content b' = content b /\
    len <= writableBytes b' /\ Z.min kCheapPrepend (readerIndex_ b) <= readerIndex_ b' /\
    zlen (buffer_ b) <= zlen (buffer_ b') <= zlen (buffer_ b) + len.
Proof.
  intros H Hl Hm. pose proof (writable_ok b H) as W. unfold ensureWritableBytes. case_decide as D.
  - destruct (makeSpace_ok len b H Hl D Hm) as (b' & -> & W' & C & G & Hr & S). cbn.
    exists b'. rewrite check_true by (apply bool_decide_eq_true; lia). split_and!; try done.
    all: rewrite S; case_decide; buf_lia.
  - cbn. exists b. rewrite check_true by (apply bool_decide_eq_true; lia). split_and!; (done || lia).
Qed.

Lemma write_at_end_ok d b :
  wf b -> zlen d <= writableBytes b ->
  exists b', write_at_end d b = Ret b' /\ wf b' /\ zlen (buffer_ b') = zlen (buffer_ b) /\
    readerIndex_ b' = readerIndex_ b /\ writerIndex_ b' = writerIndex_ b /\
    exists p q, buffer_ b' = p ++ content b ++ d ++ q /\ zlen p = readerIndex_ b.
Proof.
  intros H Hd. pose proof (writable_ok b H). unfold write_at_end. rewrite store_ok by buf_lia.
  cbn. eexists. split; [done|]. cbn.
  assert (zlen (overwrite (buffer_ b) (writerIndex_ b) d) = zlen (buffer_ b)) as L
    by (apply zlen_overwrite; buf_lia).
  split_and!; try done; [unfold wf; cbn; rewrite L; apply H|].
  destruct (wf_split b H) as (p & q & E & Hp & Hq).
  pose proof (content_len b H). pose proof (readable_ok b H).
  exists p, (zdrop (zlen d) q). split; [|done].
  rewrite E at 1. rewrite <- (ztake_zdrop (zlen d) q) at 1. rewrite !app_assoc.
  rewrite <- app_assoc, overwrite_app; [by rewrite <- !app_assoc|buf_lia|]. rewrite zlen_ztake; zlia.
Qed.

(** Moving the writer index over bytes already in place. *)
Lemma advance_ok b p c d q n :
  wf b -> buffer_ b = p ++ c ++ d ++ q -> zlen p = readerIndex_ b ->
  zlen c = readableBytes b -> zlen d = n ->
  let b' := mkBuffer (buffer_ b) (readerIndex_ b) (writerIndex_ b + n) in
  wf b' /\ content b' = c ++ d.
Proof.
  intros H E Hp Hc Hn b'. rewrite (readable_ok b H) in Hc.
  assert (zlen (buffer_ b) = zlen p + zlen c + zlen d + zlen q) by (rewrite E; zlia).
  split; [unfold b'; buf_lia|].
  apply (content_app _ p _ q); cbn; [by rewrite E, !app_assoc|done|zlia].
Qed.

Lemma append_ok data len b :
  wf b -> 0 <= len <= zlen data -> zlen (buffer_ b) + len <= max_size ->
  exists b', append data len b = Ret b' /\ wf b' /\ content b' = content b ++ ztake len data /\
    Z.min kCheapPrepend (readerIndex_ b) <= readerIndex_ b' /\
    zlen (buffer_ b) <= zlen (buffer_ b') <= zlen (buffer_ b) + len.
Proof.
  intros H Hl Hm. unfold append.
  destruct (ensureWritableBytes_ok len b H) as (b1 & -> & W1 & C1 & G1 & Hr1 & S1); [lia|lia|].
  cbn. rewrite load_ok by lia. cbn.
  destruct (write_at_end_ok (ztake len data) b1 W1) as (b2 & -> & W2 & S2 & R2 & Wi2 & p & q & E & Hp).
  { rewrite zlen_ztake; lia. }
  cbn. unfold hasWritten. pose proof (writable_ok b1 W1). pose proof (writable_ok b2 W2).
  rewrite check_true by (apply bool_decide_eq_true; lia). rewrite wrap_small by buf_lia.
  pose proof (readable_ok b1 W1). pose proof (readable_ok b2 W2).
  destruct (advance_ok b2 p (content b1) (ztake len data) q len) as [W3 C3]; try done.
  - lia.
  - rewrite content_len by done. lia.
  - apply zlen_ztake. lia.
  - eexists. split; [done|]. split; [done|]. rewrite C3, C1. split; [done|]. cbn. lia.
Qed.

Lemma append_bytes_ok d b :
  wf b -> zlen (buffer_ b) + zlen d <= max_size ->
  exists b', append_bytes d b = Ret b' /\ wf b' /\ content b' = content b ++ d /\
    Z.min kCheapPrepend (readerIndex_ b) <= readerIndex_ b' /\
    zlen (buffer_ b) <= zlen (buffer_ b') <= zlen (buffer_ b) + zlen d.
Proof.
  intros H Hm. pose proof (zlen_nonneg d).
  destruct (append_ok d (zlen d) b H) as (b' & ? & ? & C & ?); [lia|lia|].
  exists b'. rewrite ztake_all in C by lia. done.
Qed.

Lemma append_string_ok d b :
  wf b -> zlen d < 2 ^ 31 -> zlen (buffer_ b) + zlen d <= max_size ->
  exists b', append_string d b = Ret b' /\ wf b' /\ content b' = content b ++ d /\
    Z.min kCheapPrepend (readerIndex_ b) <= readerIndex_ b' /\
    zlen (buffer_ b) <= zlen (buffer_ b') <= zlen (buffer_ b) + zlen d.
Proof.
  intros H Hd Hm. pose proof (zlen_nonneg d).
  unfold append_string, append_piece, sp_of_string. cbn [sp_data sp_size ptr_ length_].
  rewrite swrap_small, wrap_small by lia. by apply append_bytes_ok.
Qed.

Lemma prepend_ok data len b :
  wf b -> 0 <= len <= zlen data -> len <= prependableBytes b ->
  exists b', prepend data len b = Ret b' /\ wf b' /\ content b' = ztake len data ++ content b /\
    zlen (buffer_ b') = zlen (buffer_ b) /\ prependableBytes b' = prependableBytes b - len.
Proof.
  intros H Hl Hp. unfold prependableBytes in *. unfold prepend.
  rewrite check_true by (apply bool_decide_eq_true; done). rewrite wrap_small by buf_lia.
  rewrite load_ok by lia. cbn. rewrite store_ok by buf_lia. cbn.
  destruct (wf_split b H) as (p & q & E & Hlp & Hq).
  pose proof (content_len b H). pose proof (readable_ok b H).
  assert (overwrite (buffer_ b) (readerIndex_ b - len) (ztake len data)
          = ztake (readerIndex_ b - len) p ++ ztake len data ++ content b ++ q) as O.
  { rewrite E at 1. rewrite <- (ztake_zdrop (readerIndex_ b - len) p) at 1. rewrite <- app_assoc.
    rewrite overwrite_app; [done|..]; buf_lia. }
  eexists. split; [done|]. rewrite O.
  assert (zlen (ztake (readerIndex_ b - len) p ++ ztake len data ++ content b ++ q)
          = zlen (buffer_ b)) as L by (rewrite E; buf_lia).
  split_and!; cbn; [unfold wf; cbn; rewrite L; buf_lia| |done|done].
  apply (content_app _ (ztake (readerIndex_ b - len) p) _ q); cbn;
    [by rewrite <- app_assoc|buf_lia|buf_lia].
Qed.

Lemma retrieveAsString_ok n b :
  wf b -> 0 <= n <= readableBytes b ->
  exists b', retrieveAsString n b = Ret (ztake n (content b), b') /\ wf b' /\
    content b' = zdrop n (content b).
Proof.
  intros H Hn. unfold retrieveAsString. rewrite check_true by (apply bool_decide_eq_true; lia).
  destruct (zdrop_peek b H) as (q & E). pose proof (content_len b H).
  rewrite E, load_ok by zlia. cbn.
  destruct (retrieve_ok n b H Hn) as (b' & -> & ? & ? & _). cbn. exists b'.
  by rewrite ztake_app_l by lia.
Qed.

Lemma unwrite_ok n b :
  wf b -> 0 <= n <= readableBytes b ->
  exists b', unwrite n b = Ret b' /\ wf b' /\ content b' = ztake (zlen (content b) - n) (content b) /\
    zlen (buffer_ b') = zlen (buffer_ b).
Proof.
  intros H Hn. pose proof (readable_ok b H). unfold unwrite.
  rewrite check_true by (apply bool_decide_eq_true; lia). rewrite wrap_small by buf_lia.
  eexists. split_and!; [done|buf_lia| |done]. rewrite content_len by done.
  unfold content. cbn. rewrite ztake_slice by lia. f_equal. lia.
Qed.

(** ** Integers in network byte order *)

Lemma swrap_32_mem e z : int_to_mem e 4 (i32 z) = int_to_mem e 4 z.
Proof. rewrite <- (int_to_mem_wrap e 4), <- (int_to_mem_wrap e 4 z). cbn. by rewrite wrap_swrap. Qed.
Lemma swrap_64_mem e z : int_to_mem e 8 (i64 z) = int_to_mem e 8 z.
Proof. rewrite <- (int_to_mem_wrap e 8), <- (int_to_mem_wrap e 8 z). cbn. by rewrite wrap_swrap. Qed.
Lemma swrap_16_mem e z : int_to_mem e 2 (i16 z) = int_to_mem e 2 z.
Proof. rewrite <- (int_to_mem_wrap e 2), <- (int_to_mem_wrap e 2 z). cbn. by rewrite wrap_swrap. Qed.

(** What the four [append]s and [prepend]s write: the value's bytes, most
    significant first, on a host of either byte order. *)
Lemma network_mem e x :
  int_to_mem e 8 (i64 (hostToNetwork64 e (u64 x))) = be_bytes 8 x /\
  int_to_mem e 4 (i32 (hostToNetwork32 e (u32 x))) = be_bytes 4 x /\
  int_to_mem e 2 (i16 (hostToNetwork16 e (u16 x))) = be_bytes 2 x /\
  int_to_mem e 1 x = be_bytes 1 x.
Proof.
  rewrite swrap_32_mem, swrap_64_mem, swrap_16_mem.
  unfold hostToNetwork64, hostToNetwork32, hostToNetwork16. rewrite !int_to_mem_htobe.
  split_and!; [apply (be_bytes_wrap 8)|apply (be_bytes_wrap 4)|apply (be_bytes_wrap 2)|].
  by destruct e.
Qed.

Lemma peek_mem_ok n b c rest :
  wf b -> content b = c ++ rest -> zlen c = n -> peek_mem n b = Ret c.
Proof.
  intros H E Hn. unfold peek_mem. rewrite <- content_len, E, zlen_app by done.
  pose proof (zlen_nonneg rest). pose proof (zlen_nonneg c).
  rewrite check_true by (apply bool_decide_eq_true; lia).
  destruct (zdrop_peek b H) as (q & ->). rewrite E, <- app_assoc, load_ok by zlia.
  by rewrite ztake_app_l, ztake_all by zlia.
Qed.

Lemma swrap_be n x e (w : Z) :
  w = 8 * Z.of_nat n -> 0 < w ->
  swrap w (htobe e n (wrap w (swrap w (int_of_mem e (be_bytes n x))))) = swrap w x.
Proof.
  intros -> Hw. rewrite wrap_swrap.
  pose proof (int_of_mem_range e (be_bytes n x)) as R.
  rewrite zlen_be_bytes in R. rewrite (wrap_small _ (int_of_mem _ _)) by done.
  rewrite htobe_int_of_mem by (unfold be_bytes; apply length_rev_le_bytes).
  by rewrite be_value_bytes, swrap_wrap.
Qed.

Section Reads.
Context (e : endian) (b : Buffer) (x : Z) (rest : list byte) (W : wf b).

Lemma peekInt64_ok : content b = be_bytes 8 x ++ rest -> peekInt64 e b = Ret (i64 x).
Proof.
  intros E. unfold peekInt64. erewrite peek_mem_ok; [|done|done|zlia]. cbn. f_equal.
  by apply (swrap_be 8).
Qed.
Lemma peekInt32_ok : content b = be_bytes 4 x ++ rest -> peekInt32 e b = Ret (i32 x).
Proof.
  intros E. unfold peekInt32. erewrite peek_mem_ok; [|done|done|zlia]. cbn. f_equal.
  by apply (swrap_be 4).
Qed.
Lemma peekInt16_ok : content b = be_bytes 2 x ++ rest -> peekInt16 e b = Ret (i16 x).
Proof.
  intros E. unfold peekInt16. erewrite peek_mem_ok; [|done|done|zlia]. cbn. f_equal.
  by apply (swrap_be 2).
Qed.
Lemma peekInt8_ok : content b = be_bytes 1 x ++ rest -> peekInt8 e b = Ret (i8 x).
Proof.
  intros E. unfold peekInt8. erewrite peek_mem_ok; [|done|done|zlia]. cbn [obind]. f_equal.
  replace (int_of_mem e (be_bytes 1 x)) with (wrap 8 x); [apply swrap_wrap|].
  pose proof (be_value_bytes 1 x) as V. change (8 * Z.of_nat 1) with 8 in V. rewrite <- V.
  by destruct e.
Qed.

(** Reading consumes exactly the bytes of the integer. *)
Lemma retrieve_int_ok n : content b = be_bytes n x ++ rest ->
  exists b', retrieve (Z.of_nat n) b = Ret b' /\ wf b' /\ content b' = rest.
Proof.
  intros E. destruct (retrieve_ok (Z.of_nat n) b W) as (b' & ? & ? & C & _).
  { rewrite <- content_len, E by done. zlia. }
  exists b'. split_and!; try done. rewrite C, E, zdrop_app_r, zdrop_0 by zlia. done.
Qed.
End Reads.

(** ** The byte queue a buffer implements *)

Module Queue.

Inductive op :=
  | Append (d : list byte)
  | Retrieve (n : Z)
  | RetrieveAll
  | EnsureWritable (n : Z)
  | Unwrite (n : Z).

(** The specification: a byte string, [None] when the caller breaks the
    contract. *)
Definition step_spec (o : op) (c : list byte) : option (list byte) :=
  match o with
  | Append d => Some (c ++ d)
  | Retrieve n => if decide (n <= zlen c) then Some (zdrop n c) else None
  | RetrieveAll => Some []
  | EnsureWritable _ => Some c
  | Unwrite n => if decide (n <= zlen c) then Some (ztake (zlen c - n) c) else None
  end.

Definition step (o : op) (b : Buffer) : outcome Buffer :=
  match o with
  | Append d => append_bytes d b
  | Retrieve n => retrieve n b
  | RetrieveAll => Ret (retrieveAll b)
  | EnsureWritable n => ensureWritableBytes n b
  | Unwrite n => unwrite n b
  end.

Fixpoint run_spec (os : list op) (c : list byte) : option (list byte) :=
  match os with
  | [] => Some c
  | o :: os => match step_spec o c with Some c => run_spec os c | None => None end
  end.

Fixpoint run (os : list op) (b : Buffer) : outcome Buffer :=
  match os with
  | [] => Ret b
  | o :: os => let* b := step o b in run os b
  end.

(** How much an operation may grow the vector; arguments are [size_t]. *)
Definition growth (o : op) : Z :=
  match o with
  | Append d => zlen d
  | EnsureWritable n => n
  | _ => 0
  end.
Definition arg_ok (o : op) : bool :=
  match o with
  | Retrieve n | EnsureWritable n | Unwrite n => bool_decide (0 <= n)
  | _ => true
  end.

Lemma step_ok o b :
  wf b -> arg_ok o = true -> zlen (buffer_ b) + growth o <= max_size ->
  match step_spec o (content b) with
  | Some c => exists b', step o b = Ret b' /\ wf b' /\ content b' = c /\
                zlen (buffer_ b') <= zlen (buffer_ b) + growth o
  | None => step o b = Stop AssertFailed
  end.
Proof.
  intros W A G. destruct o as [d|n| |n|n]; cbn in *; rewrite ?bool_decide_eq_true in A.
  - destruct (append_bytes_ok d b W G) as (b' & ? & ? & ? & ? & ?). exists b'. split_and!; (done || lia).
  - rewrite content_len by done. case_decide.
    + destruct (retrieve_ok n b W) as (b' & ? & ? & ? & ?); [lia|]. exists b'. split_and!; (done || lia).
    + apply retrieve_stop; [done|lia].
  - destruct (retrieveAll_ok b W). exists (retrieveAll b). split_and!; (done || cbn; lia).
  - destruct (ensureWritableBytes_ok n b W A G) as (b' & ? & ? & ? & ? & ? & ?).
    exists b'. split_and!; (done || lia).
  - pose proof (content_len b W) as L. rewrite L. case_decide.
    + destruct (unwrite_ok n b W) as (b' & ? & ? & C & ?); [lia|]. exists b'.
      rewrite L in C. split_and!; (done || lia).
    + unfold unwrite, check. rewrite bool_decide_eq_false_2; [done|lia].
Qed.

End Queue.

(** C1. For every sequence of appends, retrieves, reservations and unwrites
    whose total growth fits in a vector, the buffer behaves as the byte queue:
    it stops on an assertion exactly where the queue rejects the operation, and
    otherwise keeps the index invariant and holds the queue's bytes. The queue
    rejects a [retrieve] of more bytes than there are: the comment in Buffer.h
    says that [retrieveAll] is called then, but the code asserts. *)
Theorem buffer_refines_queue os b :
  wf b -> forallb Queue.arg_ok os = true ->
  zlen (buffer_ b) + foldr (fun o n => Queue.growth o + n) 0 os <= max_size ->
  match Queue.run_spec os (content b) with
  | Some c => exists b', Queue.run os b = Ret b' /\ wf b' /\ content b' = c
  | None => Queue.run os b = Stop AssertFailed
  end.
Proof.
  revert b. induction os as [|o os IH]; intros b W A G; cbn in *; [by exists b|].
  apply andb_true_iff in A as [A1 A2].
  assert (0 <= foldr (fun o n => Queue.growth o + n) 0 os) as P.
  { clear - A2. induction os as [|o os IH]; cbn in *; [done|].
    apply andb_true_iff in A2 as [A1 A2]. specialize (IH A2).
    destruct o; cbn in *; rewrite ?bool_decide_eq_true in A1; zlia. }
  pose proof (Queue.step_ok o b W A1 ltac:(lia)) as S.
  destruct (Queue.step_spec o (content b)) as [c|]; [|by rewrite S].
  destruct S as (b' & -> & W' & <- & G'). apply IH; (done || lia).
Qed.

Lemma buffer_refines_queue_witness :
  exists b b', newBuffer 16 = Ret b /\
    Queue.run [Queue.Append (bytes "hello"); Queue.Retrieve 2; Queue.EnsureWritable 40; Queue.Unwrite 1] b
      = Ret b' /\ content b' = bytes "ll".
Proof.
  destruct (newBuffer_ok 16) as (b & E & W & C & _ & _ & L); [done|]. exists b.
  pose proof (buffer_refines_queue
    [Queue.Append (bytes "hello"); Queue.Retrieve 2; Queue.EnsureWritable 40; Queue.Unwrite 1] b
    W eq_refl) as H.
  rewrite C, L in H. cbn in H. destruct H as (b' & R & _ & C'); [by unfold max_size|].
  by exists b'.
Defined.

(** ** Integers across hosts *)

(** The bytes each [append] adds, and what the matching [read] returns. *)
Lemma appendInt_ok e x b :
  wf b -> zlen (buffer_ b) + 8 <= max_size ->
  (exists b', appendInt64 e x b = Ret b' /\ wf b' /\ content b' = content b ++ be_bytes 8 x) /\
  (exists b', appendInt32 e x b = Ret b' /\ wf b' /\ content b' = content b ++ be_bytes 4 x) /\
  (exists b', appendInt16 e x b = Ret b' /\ wf b' /\ content b' = content b ++ be_bytes 2 x) /\
  (exists b', appendInt8 e x b = Ret b' /\ wf b' /\ content b' = content b ++ be_bytes 1 x).
Proof.
  intros W G. destruct (network_mem e x) as (M8 & M4 & M2 & M1).
  assert (forall n, (n <= 8)%nat -> exists b', append (be_bytes n x) (Z.of_nat n) b = Ret b' /\
    wf b' /\ content b' = content b ++ be_bytes n x) as A.
  { intros n Hn. destruct (append_ok (be_bytes n x) (Z.of_nat n) b W) as (b' & ? & ? & C & _);
      [zlia|lia|]. exists b'. rewrite ztake_all in C by zlia. done. }
  unfold appendInt64, appendInt32, appendInt16, appendInt8. rewrite M8, M4, M2, M1.
  split_and!; [apply (A 8%nat)|apply (A 4%nat)|apply (A 2%nat)|apply (A 1%nat)]; lia.
Qed.

Lemma readInt_ok e x b rest :
  wf b ->
  (content b = be_bytes 8 x ++ rest ->
     exists b', readInt64 e b = Ret (i64 x, b') /\ wf b' /\ content b' = rest) /\
  (content b = be_bytes 4 x ++ rest ->
     exists b', readInt32 e b = Ret (i32 x, b') /\ wf b' /\ content b' = rest) /\
  (content b = be_bytes 2 x ++ rest ->
     exists b', readInt16 e b = Ret (i16 x, b') /\ wf b' /\ content b' = rest) /\
  (content b = be_bytes 1 x ++ rest ->
     exists b', readInt8 e b = Ret (i8 x, b') /\ wf b' /\ content b' = rest).
Proof.
  intros W. split_and!; intros E.
  - destruct (retrieve_int_ok b x rest W 8 E) as (b' & R & ?). exists b'.
    unfold readInt64, retrieveInt64. rewrite (peekInt64_ok e b x rest W E). cbn [obind].
    by rewrite (R : retrieve 8 b = _).
  - destruct (retrieve_int_ok b x rest W 4 E) as (b' & R & ?). exists b'.
    unfold readInt32, retrieveInt32. rewrite (peekInt32_ok e b x rest W E). cbn [obind].
    by rewrite (R : retrieve 4 b = _).
  - destruct (retrieve_int_ok b x rest W 2 E) as (b' & R & ?). exists b'.
    unfold readInt16, retrieveInt16. rewrite (peekInt16_ok e b x rest W E). cbn [obind].
    by rewrite (R : retrieve 2 b = _).
  - destruct (retrieve_int_ok b x rest W 1 E) as (b' & R & ?). exists b'.
    unfold readInt8, retrieveInt8. rewrite (peekInt8_ok e b x rest W E). cbn [obind].
    by rewrite (R : retrieve 1 b = _).
Qed.

(** Integers survive the wire between hosts of any two byte orders: what
    a sender of order [e1] appends with [appendInt64/32/16/8] to an empty
    buffer, a receiver of order [e2] whose content starts with those bytes
    reads back as the same value, wrapped to the width, leaving the rest. *)
Theorem int_roundtrip (e1 e2 : endian) (x : Z) (b b2 : Buffer) (rest : list byte) :
  wf b -> content b = [] -> zlen (buffer_ b) + 8 <= max_size -> wf b2 ->
  (exists s, appendInt64 e1 x b = Ret s /\
    (content b2 = content s ++ rest -> exists r, readInt64 e2 b2 = Ret (i64 x, r) /\ content r = rest)) /\
  (exists s, appendInt32 e1 x b = Ret s /\
    (content b2 = content s ++ rest -> exists r, readInt32 e2 b2 = Ret (i32 x, r) /\ content r = rest)) /\
  (exists s, appendInt16 e1 x b = Ret s /\
    (content b2 = content s ++ rest -> exists r, readInt16 e2 b2 = Ret (i16 x, r) /\ content r = rest)) /\
  (exists s, appendInt8 e1 x b = Ret s /\
    (content b2 = content s ++ rest -> exists r, readInt8 e2 b2 = Ret (i8 x, r) /\ content r = rest)).
Proof.
  intros W C G W2. destruct (appendInt_ok e1 x b W G) as (A8 & A4 & A2 & A1).
  destruct (readInt_ok e2 x b2 rest W2) as (R8 & R4 & R2 & R1). rewrite C in *.
  split_and!.
  - destruct A8 as (s & ? & _ & Es). exists s. rewrite Es. split; [done|]. intros E.
    destruct (R8 E) as (r & ? & _ & ?). by exists r.
  - destruct A4 as (s & ? & _ & Es). exists s. rewrite Es. split; [done|]. intros E.
    destruct (R4 E) as (r & ? & _ & ?). by exists r.
  - destruct A2 as (s & ? & _ & Es). exists s. rewrite Es. split; [done|]. intros E.
    destruct (R2 E) as (r & ? & _ & ?). by exists r.
  - destruct A1 as (s & ? & _ & Es). exists s. rewrite Es. split; [done|]. intros E.
    destruct (R1 E) as (r & ? & _ & ?). by exists r.
Qed.

Definition sample_buffer (c : list byte) : Buffer :=
  mkBuffer (replicate 8 Byte.x00 ++ c ++ replicate 8 Byte.x00) 8 (8 + zlen c).

Lemma int_roundtrip_witness :
  exists s r, appendInt32 LittleEndian (-559038737) (sample_buffer []) = Ret s /\
    readInt32 BigEndian (sample_buffer (be_bytes 4 (-559038737) ++ bytes "x")) = Ret (-559038737, r) /\
    content r = bytes "x".
Proof.
  destruct (int_roundtrip LittleEndian BigEndian (-559038737) (sample_buffer [])
    (sample_buffer (be_bytes 4 (-559038737) ++ bytes "x")) (bytes "x")) as (_ & (s & A & R) & _).
  - by vm_compute.
  - reflexivity.
  - by vm_compute.
  - by vm_compute.
  - exists s. revert R. assert (E : appendInt32 LittleEndian (-559038737) (sample_buffer []) = Ret s) by done.
    vm_compute in E. injection E as <-. intros R. destruct R as (r & R & C); [reflexivity|].
    by exists r.
Defined.

(** ** Finding line ends *)

Lemma region_content b : region (peek b) b = content b.
Proof. done. Qed.

(** [findCRLF] returns the position of the first CRLF of the content:
    the content splits there into a part without any CRLF starting in it, the
    CRLF and the rest; and it returns NULL only if the content has no CRLF. *)
Lemma findCRLF_first (b : Buffer) :
  wf b ->
  match findCRLF b with
  | Some p => exists line rest,
      content b = line ++ kCRLF ++ rest /\ p = peek b + zlen line /\
      (forall i, 0 <= i < zlen line -> is_prefix kCRLF (zdrop i (content b)) = false)
  | None => forall i, 0 <= i < zlen (content b) -> is_prefix kCRLF (zdrop i (content b)) = false
  end.
Proof.
  intros W. unfold findCRLF. rewrite region_content. unfold peek, beginWrite.
  pose proof (std_search_range kCRLF (content b)) as R.
  pose proof (content_len b W) as L. rewrite readable_ok in L by done.
  case_decide as E.
  - intros i Hi. apply std_search_first. lia.
  - destruct (std_search_hit kCRLF (content b)) as (k & Hk); [done|lia|].
    exists (ztake (std_search kCRLF (content b)) (content b)), k.
    rewrite zlen_ztake by lia. split_and!; [done|done|]. intros. by apply std_search_first.
Qed.

(** ** Reading from a descriptor *)

(** [readv(2)] returns at most as many bytes as the iovecs hold. *)
Definition readv_bounded (readv : list Z -> io_result) : Prop :=
  forall iov data, Forall (fun n => 0 <= n) iov -> readv iov = IoOk data -> zlen data <= foldr Z.add 0 iov.

(** Shared by the property below and by the connection. *)
Lemma readFd_ok (readv : list Z -> io_result) (b : Buffer) :
  wf b -> zlen (buffer_ b) + extrabuf_size <= max_size -> readv_bounded readv ->
  match readv (readFd_iov b) with
  | IoOk data => exists b', readFd readv b = Ret (zlen data, None, b') /\ wf b' /\
      content b' = content b ++ data /\ zlen (buffer_ b') <= zlen (buffer_ b) + zlen data
  | IoErr err => readFd readv b = Ret (-1, Some err, b)
  end.
Proof.
  intros W G RV. unfold readFd. destruct (readv (readFd_iov b)) as [data|err] eqn:E; [|done].
  pose proof (writable_ok b W). pose proof (zlen_nonneg data).
  pose proof (content_len b W) as CL. pose proof (readable_ok b W).
  assert (0 <= writableBytes b) by buf_lia.
  assert (zlen data <= writableBytes b + extrabuf_size) as B.
  { apply RV in E; unfold readFd_iov, extrabuf_size in *; case_decide; cbn in *; try lia.
    all: repeat constructor; lia. }
  destruct (write_at_end_ok (ztake (writableBytes b) data) b W) as (b1 & -> & W1 & S1 & R1 & Wi1 & p & q & E1 & Hp).
  { unfold zlen, ztake. rewrite length_take. lia. }
  cbn [obind]. pose proof (readable_ok b1 W1).
  case_decide as D.
  - rewrite ztake_all in E1 by lia. rewrite wrap_small by buf_lia.
    destruct (advance_ok b1 p (content b) data q (zlen data)) as [W2 C2]; try done; [lia|lia|].
    eexists. split; [done|]. split; [done|]. split; [done|]. cbn [buffer_]. lia.
  - set (b2 := mkBuffer (buffer_ b1) (readerIndex_ b1) (zlen (buffer_ b1))).
    assert (zlen (ztake (writableBytes b) data) = writableBytes b) as LT by (apply zlen_ztake; lia).
    destruct (advance_ok b1 p (content b) (ztake (writableBytes b) data) q (writableBytes b)) as [W2 C2];
      try done; [lia|lia|].
    replace (writerIndex_ b1 + writableBytes b) with (zlen (buffer_ b1)) in W2, C2 by lia.
    destruct (append_ok (zdrop (writableBytes b) data) (zlen data - writableBytes b) b2 W2)
      as (b3 & -> & W3 & C3 & _ & L3).
    + rewrite zlen_zdrop; lia.
    + unfold b2, extrabuf_size in *. cbn. lia.
    + cbn. exists b3. split; [done|]. split; [done|]. cbn [b2 buffer_] in L3. split; [|lia]. rewrite C3.
      rewrite (ztake_all (zlen data - _)) by (rewrite zlen_zdrop; lia).
      replace (content b2) with (content b ++ ztake (writableBytes b) data) by (symmetry; exact C2).
      by rewrite <- app_assoc, ztake_zdrop.
Qed.

(** [readFd] appends to the content exactly the bytes the kernel returned,
    whether they fit in the writable area or spill over into [extrabuf], returns
    their number, keeps the invariant, and leaves the buffer unchanged with the
    errno saved when [readv] fails. *)
Theorem readFd_appends (readv : list Z -> io_result) (b : Buffer) :
  wf b -> zlen (buffer_ b) + extrabuf_size <= max_size -> readv_bounded readv ->
  match readv (readFd_iov b) with
  | IoOk data => exists b', readFd readv b = Ret (zlen data, None, b') /\ wf b' /\
      content b' = content b ++ data
  | IoErr err => readFd readv b = Ret (-1, Some err, b)
  end.
Proof.
  intros W G RV. pose proof (readFd_ok readv b W G RV) as H. destruct (readv (readFd_iov b)); [|done].
  destruct H as (b' & ? & ? & ? & _). by exists b'.
Qed.

Definition sample_readv (data : list byte) (iov : list Z) : io_result :=
  IoOk (ztake (foldr Z.add 0 iov) data).

Lemma sample_readv_bounded data : readv_bounded (sample_readv data).
Proof.
  intros iov d H [= <-]. assert (0 <= foldr Z.add 0 iov) by (induction H; cbn; lia).
  unfold zlen, ztake. rewrite length_take. lia.
Qed.

Lemma readFd_appends_witness :
  exists b', readFd (sample_readv (bytes "a long answer")) (sample_buffer (bytes "x")) = Ret (13, None, b')
    /\ content b' = bytes "xa long answer".
Proof.
  pose proof (readFd_appends (sample_readv (bytes "a long answer")) (sample_buffer (bytes "x"))
    ltac:(by vm_compute) ltac:(by vm_compute) (sample_readv_bounded _)) as H.
  change (sample_readv (bytes "a long answer") (readFd_iov (sample_buffer (bytes "x"))))
    with (IoOk (bytes "a long answer")) in H.
  destruct H as (b' & R & _ & C). exists b'. split; [exact R|exact C].
Defined.

(** ** Shrinking *)

(** The piece [toStringPiece] makes: the pointer is right, the [int] length is
    the low 32 bits of the number of readable bytes. *)
Lemma shrink_ok reserve b len :
  wf b -> 0 <= reserve -> len = i32 (readableBytes b) -> 0 <= len <= readableBytes b ->
  2 * readableBytes b + reserve + kInitialSize + kCheapPrepend <= max_size ->
  exists b', shrink reserve b = Ret b' /\ wf b' /\ content b' = ztake len (content b) /\
    readableBytes b + reserve <= zlen (buffer_ b') - kCheapPrepend.
Proof.
  intros W Hr El Hl Hm. pose proof (readable_ok b W).
  unfold shrink, append_piece, toStringPiece, sp_of_ptr. cbn [sp_data sp_size ptr_ length_].
  destruct (newBuffer_ok kInitialSize) as (o & -> & Wo & Co & _ & Ro & Lo); [done|]. cbn [obind].
  rewrite (wrap_small _ (_ + reserve)) by buf_lia.
  destruct (ensureWritableBytes_ok (readableBytes b + reserve) o) as (o1 & -> & W1 & C1 & G1 & R1 & L1);
    [done|lia|buf_lia|]. cbn [obind].
  pose proof (writable_ok o1 W1). rewrite <- El, wrap_small by buf_lia.
  destruct (zdrop_peek b W) as (q & ->). pose proof (content_len b W).
  destruct (append_ok (content b ++ q) len o1) as (o2 & -> & W2 & C2 & _ & L2);
    [done|zlia|buf_lia|]. cbn [obind].
  destruct o2 as [v r w]. eexists. split; [done|]. split; [done|]. split.
  - transitivity (ztake len (content b ++ q)); [by rewrite C1, Co in C2|].
    by rewrite ztake_app_l by lia.
  - cbn [fst swap]. buf_lia.
Qed.

(** [shrink] keeps the content and the invariant, and leaves room for the
    reservation, as long as there are fewer than 2^31 readable bytes. *)
Lemma shrink_keeps (reserve : Z) (b : Buffer) :
  wf b -> 0 <= reserve -> readableBytes b < 2 ^ 31 ->
  2 * readableBytes b + reserve + kInitialSize + kCheapPrepend <= max_size ->
  exists b', shrink reserve b = Ret b' /\ wf b' /\ content b' = content b /\
    readableBytes b + reserve <= zlen (buffer_ b') - kCheapPrepend.
Proof.
  intros W Hr Hs Hm. pose proof (readable_ok b W).
  destruct (shrink_ok reserve b (readableBytes b) W Hr) as (b' & ? & ? & C & ?); try lia.
  - rewrite swrap_small; buf_lia.
  - buf_lia.
  - exists b'. rewrite ztake_all in C by (rewrite content_len by done; lia). done.
Qed.

(** [shrink] goes through [toStringPiece], whose length is an [int]: with
    2^32 + k readable bytes (k < 2^31) it keeps only the first k of them and
    silently drops the other 2^32. *)
Theorem shrink_truncates (reserve k : Z) (b : Buffer) :
  wf b -> 0 <= reserve -> 0 <= k < 2 ^ 31 -> readableBytes b = 2 ^ 32 + k ->
  2 * readableBytes b + reserve + kInitialSize + kCheapPrepend <= max_size ->
  exists b', shrink reserve b = Ret b' /\ content b' = ztake k (content b) /\
    zlen (content b') = zlen (content b) - 2 ^ 32.
Proof.
  intros W Hr Hk Hs Hm.
  destruct (shrink_ok reserve b k W Hr) as (b' & ? & ? & C & ?); [|lia|lia|].
  - rewrite Hs, <- swrap_wrap, <- (swrap_small 32 k) at 1 by lia. f_equal.
    unfold wrap. rewrite <- (Z.mul_1_l (2 ^ 32)) at 1.
    rewrite Z.add_comm, Z_mod_plus_full, Z.mod_small; lia.
  - exists b'. rewrite C. split_and!; try done.
    rewrite zlen_ztake; rewrite content_len by done; lia.
Qed.

Definition zero_buffer (n : Z) : Buffer :=
  mkBuffer (replicate (Z.to_nat (kCheapPrepend + n)) Byte.x00) kCheapPrepend (kCheapPrepend + n).

Lemma zero_buffer_ok n :
  0 <= n <= 2 ^ 40 -> wf (zero_buffer n) /\ readableBytes (zero_buffer n) = n.
Proof.
  intros H. assert (zlen (buffer_ (zero_buffer n)) = kCheapPrepend + n) as L
    by (apply zlen_replicate; unfold kCheapPrepend; lia).
  assert (wf (zero_buffer n)) as W.
  { unfold wf. rewrite L. unfold zero_buffer. cbn [readerIndex_ writerIndex_].
    unfold kCheapPrepend, max_size. lia. }
  split; [done|]. rewrite readable_ok by done. unfold zero_buffer. cbn [readerIndex_ writerIndex_]. lia.
Qed.

Lemma shrink_truncates_witness :
  exists b', shrink 0 (zero_buffer (2 ^ 32 + 1)) = Ret b' /\
    zlen (content (zero_buffer (2 ^ 32 + 1))) = 2 ^ 32 + 1 /\ zlen (content b') = 1.
Proof.
  destruct (zero_buffer_ok (2 ^ 32 + 1)) as [W R]; [lia|]. revert W R.
  generalize (zero_buffer (2 ^ 32 + 1)). intros b W R.
  destruct (shrink_truncates 0 1 b W) as (b' & E & _ & C); [lia|lia|exact R| |].
  - rewrite R. unfold max_size, kInitialSize, kCheapPrepend. lia.
  - exists b'. rewrite C, content_len, R by exact W. split; [exact E|]. split; lia.
Defined.
