(* ===== verification/TcpConnection.v ===== *)
(** * TcpConnection (src/muduo/muduo/net/TcpConnection.h, TcpConnection.cc)

    One connection on its loop's thread, with the calls other threads make and
    the functors it posts. The kernel answers reads and writes as arbitrary
    functions of the whole history; the application's callbacks are arbitrary
    programs that may call the connection back.

    A handler of the loop's thread is one step. A call of another thread is not:
    it tests [state_], then sets it, then posts a functor, without a lock or a
    compare-and-swap, and each of these is a step of its own ([Begin] and
    [Continue]). The ghost flag [raced] records that a [setState(kDisconnecting)]
    of such a call came after the loop's thread had closed the connection; the
    properties are those of the runs in which this does not happen, and
    [late_set_closes_twice] is what happens otherwise. *)

From S2P Require Import Prelude StringPiece Buffer Channel.

Module TcpConnection.

Inductive StateE := kDisconnected | kConnecting | kConnected | kDisconnecting.

#[export] Instance StateE_eq_dec : EqDecision StateE.
Proof. solve_decision. Defined.

Definition EAGAIN : Z := 11.
Definition EWOULDBLOCK : Z := EAGAIN.
Definition EPIPE : Z := 32.
Definition ECONNRESET : Z := 104.

(** Calls posted to the loop. *)
Inductive call :=
  | CSend (data : list byte)
  | CShutdown
  | CForceClose
  | CStartRead
  | CStopRead
  | CWriteComplete
  | CHighWater (size : Z)
  | CConnectDestroyed.

(** The callbacks that were called: the connection's with [connected()], the
    message's, and the others. *)
Inductive note :=
  | NConnection (connected : bool)
  | NMessage (receiveTime : Z)
  | NClose
  | NWriteComplete
  | NHighWater (size : Z).

Record Conn := mkConn {
  state_ : StateE;
  reading_ : bool;
  channel_ : Channel;
  writeCompleteCallback_ : bool;
  highWaterMarkCallback_ : bool;
  highWaterMark_ : Z;
  inputBuffer_ : Buffer;
  outputBuffer_ : Buffer;
  (** the bytes the kernel took from [write], and whether [shutdownWrite] was called *)
  wire : list byte;
  write_shut : bool;
  posted : list call;
  notes : list note;
  (** for the properties: the bytes accepted for sending, and those received *)
  accepted : list byte;
  received : list byte
}.

Definition set_state v s := mkConn v (reading_ s) (channel_ s) (writeCompleteCallback_ s) (highWaterMarkCallback_ s)
  (highWaterMark_ s) (inputBuffer_ s) (outputBuffer_ s) (wire s) (write_shut s) (posted s) (notes s) (accepted s) (received s).
Definition set_reading v s := mkConn (state_ s) v (channel_ s) (writeCompleteCallback_ s) (highWaterMarkCallback_ s)
  (highWaterMark_ s) (inputBuffer_ s) (outputBuffer_ s) (wire s) (write_shut s) (posted s) (notes s) (accepted s) (received s).
Definition set_channel v s := mkConn (state_ s) (reading_ s) v (writeCompleteCallback_ s) (highWaterMarkCallback_ s)
  (highWaterMark_ s) (inputBuffer_ s) (outputBuffer_ s) (wire s) (write_shut s) (posted s) (notes s) (accepted s) (received s).
Definition set_input v r s := mkConn (state_ s) (reading_ s) (channel_ s) (writeCompleteCallback_ s) (highWaterMarkCallback_ s)
  (highWaterMark_ s) v (outputBuffer_ s) (wire s) (write_shut s) (posted s) (notes s) (accepted s) r.
Definition set_output v s := mkConn (state_ s) (reading_ s) (channel_ s) (writeCompleteCallback_ s) (highWaterMarkCallback_ s)
  (highWaterMark_ s) (inputBuffer_ s) v (wire s) (write_shut s) (posted s) (notes s) (accepted s) (received s).
Definition set_wire v s := mkConn (state_ s) (reading_ s) (channel_ s) (writeCompleteCallback_ s) (highWaterMarkCallback_ s)
  (highWaterMark_ s) (inputBuffer_ s) (outputBuffer_ s) v (write_shut s) (posted s) (notes s) (accepted s) (received s).
Definition shutdownWrite s := mkConn (state_ s) (reading_ s) (channel_ s) (writeCompleteCallback_ s) (highWaterMarkCallback_ s)
  (highWaterMark_ s) (inputBuffer_ s) (outputBuffer_ s) (wire s) true (posted s) (notes s) (accepted s) (received s).
Definition post c s := mkConn (state_ s) (reading_ s) (channel_ s) (writeCompleteCallback_ s) (highWaterMarkCallback_ s)
  (highWaterMark_ s) (inputBuffer_ s) (outputBuffer_ s) (wire s) (write_shut s) (posted s ++ [c]) (notes s) (accepted s) (received s).
Definition set_posted v s := mkConn (state_ s) (reading_ s) (channel_ s) (writeCompleteCallback_ s) (highWaterMarkCallback_ s)
  (highWaterMark_ s) (inputBuffer_ s) (outputBuffer_ s) (wire s) (write_shut s) v (notes s) (accepted s) (received s).
Definition add_note n s := mkConn (state_ s) (reading_ s) (channel_ s) (writeCompleteCallback_ s) (highWaterMarkCallback_ s)
  (highWaterMark_ s) (inputBuffer_ s) (outputBuffer_ s) (wire s) (write_shut s) (posted s) (notes s ++ [n]) (accepted s) (received s).
Definition accept d s := mkConn (state_ s) (reading_ s) (channel_ s) (writeCompleteCallback_ s) (highWaterMarkCallback_ s)
  (highWaterMark_ s) (inputBuffer_ s) (outputBuffer_ s) (wire s) (write_shut s) (posted s) (notes s) (accepted s ++ d) (received s).

Definition newConn (sockfd : Z) : outcome Conn :=
  let* input := newBuffer kInitialSize in
  let* output := newBuffer kInitialSize in
  Ret (mkConn kConnecting true (setCallbacks (newChannel sockfd) true true true true) false false (64 * 1024 * 1024)
         input output [] false [] [] [] []).

Definition setWriteCompleteCallback (s : Conn) : Conn := mkConn (state_ s) (reading_ s) (channel_ s) true (highWaterMarkCallback_ s)
  (highWaterMark_ s) (inputBuffer_ s) (outputBuffer_ s) (wire s) (write_shut s) (posted s) (notes s) (accepted s) (received s).
Definition setHighWaterMarkCallback (mark : Z) (s : Conn) : Conn := mkConn (state_ s) (reading_ s) (channel_ s)
  (writeCompleteCallback_ s) true mark (inputBuffer_ s) (outputBuffer_ s) (wire s) (write_shut s) (posted s) (notes s)
  (accepted s) (received s).

(** A connection as its owner sets it up, with the optional callbacks. *)
Definition setup (sockfd : Z) (writeComplete : bool) (highWater : option Z) : outcome Conn :=
  let* s := newConn sockfd in
  let s := if writeComplete then setWriteCompleteCallback s else s in
  Ret (match highWater with Some mark => setHighWaterMarkCallback mark s | None => s end).

Definition connected (s : Conn) : bool := bool_decide (state_ s = kConnected).
Definition disconnected (s : Conn) : bool := bool_decide (state_ s = kDisconnected).

Definition stateToString (s : Conn) : list byte :=
  match state_ s with
  | kDisconnected => bytes "kDisconnected"
  | kConnecting => bytes "kConnecting"
  | kConnected => bytes "kConnected"
  | kDisconnecting => bytes "kDisconnecting"
  end.

(** The destructor's assertion. *)
Definition destroy (s : Conn) : outcome unit :=
  assert* bool_decide (state_ s = kDisconnected) in Ret tt.

(** [channel_->enableReading()] and its siblings *)
Definition chan_op (op : interest_op) (s : Conn) : Conn :=
  set_channel (set_addedToLoop true (apply_op op (channel_ s))) s.
(** [channel_->remove()] *)
Definition chan_remove (s : Conn) : outcome Conn :=
  assert* isNoneEvent (channel_ s) in
  Ret (set_channel (set_addedToLoop false (channel_ s)) s).

(** What [write(2)] answers. *)
Inductive write_result :=
  | Wrote (n : Z)
  | WriteError (err : Z).

(** The calls an application makes on a connection. *)
Inductive ucall :=
  | USend (data : list byte)
  | UShutdown
  | UForceClose
  | UStartRead
  | UStopRead
  | URetrieve (n : Z).

Section Connection.
Context (kernel_write : Conn -> list byte -> write_result) (kernel_read : Conn -> list Z -> io_result).
(** What the application does in a callback. *)
Context (prog : note -> Conn -> list ucall).

(** ** Sending *)

(** The direct write of [sendInLoop]: nwrote, remaining, faultError. *)
Definition write_directly (data : list byte) (s : Conn) : Z * Z * bool * Conn :=
  let len := zlen data in
  match kernel_write s data with
  | Wrote n =>
      let remaining := len - n in
      let s := set_wire (wire s ++ ztake n data) s in
      let s := if bool_decide (remaining = 0) && writeCompleteCallback_ s then post CWriteComplete s else s in
      (n, remaining, false, s)
  | WriteError e =>
      (0, len, bool_decide (e <> EWOULDBLOCK) && (bool_decide (e = EPIPE) || bool_decide (e = ECONNRESET)), s)
  end.

Definition sendInLoop (inLoop : bool) (data : list byte) (s : Conn) : outcome Conn :=
  inloop* inLoop in
  let len := zlen data in
  if decide (state_ s = kDisconnected) then Ret s
  else
    let '(nwrote, remaining, faultError, s) :=
      (if negb (isWriting (channel_ s)) && bool_decide (readableBytes (outputBuffer_ s) = 0)
       then write_directly data s else (0, len, false, s)) in
    assert* bool_decide (remaining <= len) in
    if negb faultError && bool_decide (0 < remaining) then
      let oldLen := readableBytes (outputBuffer_ s) in
      let s := if bool_decide (highWaterMark_ s <= u64 (oldLen + remaining)) && bool_decide (oldLen < highWaterMark_ s)
                  && highWaterMarkCallback_ s
               then post (CHighWater (u64 (oldLen + remaining))) s else s in
      let* output := append (zdrop nwrote data) remaining (outputBuffer_ s) in
      let s := accept data (set_output output s) in
      Ret (if isWriting (channel_ s) then s else chan_op EnableWriting s)
    else Ret (accept (if faultError then [] else data) s).

(** [send(const StringPiece&)]: what follows the test of [state_] *)
Definition send_tested (inLoop : bool) (message : StringPiece) (s : Conn) : outcome Conn :=
  if inLoop then
    let* data := load (u64 (sp_size message)) (sp_data message) in
    sendInLoop inLoop data s
  else
    let* data := as_string message in
    Ret (post (CSend data) s).

Definition send_piece (inLoop : bool) (message : StringPiece) (s : Conn) : outcome Conn :=
  if decide (state_ s = kConnected) then send_tested inLoop message s else Ret s.

(** [send(const void*, int)] *)
Definition send_data (inLoop : bool) (data : list byte) (len : Z) (s : Conn) : outcome Conn :=
  send_piece inLoop (sp_of_ptr data len) s.

(** [send] of a [Buffer] *)
Definition send_buffer (inLoop : bool) (buf : Buffer) (s : Conn) : outcome (Buffer * Conn) :=
  if decide (state_ s = kConnected) then
    if inLoop then
      let* s := sendInLoop inLoop (content buf) s in
      Ret (retrieveAll buf, s)
    else
      let* (data, buf) := retrieveAllAsString buf in
      Ret (buf, post (CSend data) s)
  else Ret (buf, s).

(** ** Closing *)

Definition shutdownInLoop (inLoop : bool) (s : Conn) : outcome Conn :=
  inloop* inLoop in
  Ret (if isWriting (channel_ s) then s else shutdownWrite s).

(** [shutdown] and [forceClose] as the loop's thread runs them; another thread
    runs their test, their [setState] and their posting as separate steps, in
    [begin_call] and [continue_call] below. *)
Definition shutdown (s : Conn) : outcome Conn :=
  if decide (state_ s = kConnected)
  then shutdownInLoop true (set_state kDisconnecting s) else Ret s.

Definition forceClose (s : Conn) : Conn :=
  if decide (state_ s = kConnected \/ state_ s = kDisconnecting)
  then post CForceClose (set_state kDisconnecting s) else s.

(** [forceCloseWithDelay]: the connection, and the delay of the timer that will
    call [forceClose] if the connection is still alive then. *)
Definition forceCloseWithDelay (seconds : Z) (s : Conn) : Conn * option Z :=
  if decide (state_ s = kConnected \/ state_ s = kDisconnecting)
  then (set_state kDisconnecting s, Some seconds) else (s, None).

(** ** Reading on and off *)

Definition startReadInLoop (inLoop : bool) (s : Conn) : outcome Conn :=
  inloop* inLoop in
  Ret (if negb (reading_ s) || negb (isReading (channel_ s))
       then set_reading true (chan_op EnableReading s) else s).
Definition startRead (inLoop : bool) (s : Conn) : outcome Conn :=
  if inLoop then startReadInLoop inLoop s else Ret (post CStartRead s).

Definition stopReadInLoop (inLoop : bool) (s : Conn) : outcome Conn :=
  inloop* inLoop in
  Ret (if reading_ s || isReading (channel_ s)
       then set_reading false (chan_op DisableReading s) else s).
Definition stopRead (inLoop : bool) (s : Conn) : outcome Conn :=
  if inLoop then stopReadInLoop inLoop s else Ret (post CStopRead s).

(** ** The application's calls on the loop's thread *)

Definition do_ucall (u : ucall) (s : Conn) : outcome Conn :=
  match u with
  | USend data => send_piece true (sp_of_string data) s
  | UShutdown => shutdown s
  | UForceClose => Ret (forceClose s)
  | UStartRead => startRead true s
  | UStopRead => stopRead true s
  | URetrieve n => let* b := retrieve (u64 n) (inputBuffer_ s) in Ret (set_input b (received s) s)
  end.

Fixpoint do_ucalls (us : list ucall) (s : Conn) : outcome Conn :=
  match us with
  | [] => Ret s
  | u :: us => let* s := do_ucall u s in do_ucalls us s
  end.

(** A callback of the application. *)
Definition notify (n : note) (s : Conn) : outcome Conn :=
  let s := add_note n s in do_ucalls (prog n s) s.

(** [closeCallback_], which [TcpServer] and [TcpClient] set to remove the
    connection and queue [connectDestroyed]. *)
Definition closeCallback (s : Conn) : Conn := post CConnectDestroyed (add_note NClose s).

(** ** Events *)

Definition connectEstablished (inLoop : bool) (s : Conn) : outcome Conn :=
  inloop* inLoop in
  assert* bool_decide (state_ s = kConnecting) in
  let s := set_state kConnected s in
  let s := set_channel (tie (channel_ s)) s in
  let s := chan_op EnableReading s in
  notify (NConnection (connected s)) s.

Definition connectDestroyed (inLoop : bool) (s : Conn) : outcome Conn :=
  inloop* inLoop in
  let* s :=
    (if decide (state_ s = kConnected) then
       let s := chan_op DisableAll (set_state kDisconnected s) in
       notify (NConnection (connected s)) s
     else Ret s) in
  chan_remove s.

Definition handleClose (inLoop : bool) (s : Conn) : outcome Conn :=
  inloop* inLoop in
  assert* (bool_decide (state_ s = kConnected) || bool_decide (state_ s = kDisconnecting)) in
  let s := chan_op DisableAll (set_state kDisconnected s) in
  let* s := notify (NConnection (connected s)) s in
  Ret (closeCallback s).

Definition forceCloseInLoop (inLoop : bool) (s : Conn) : outcome Conn :=
  inloop* inLoop in
  if decide (state_ s = kConnected \/ state_ s = kDisconnecting) then handleClose inLoop s else Ret s.

Definition handleRead (inLoop : bool) (receiveTime : Z) (s : Conn) : outcome Conn :=
  inloop* inLoop in
  let* (n, savedErrno, b) := readFd (kernel_read s) (inputBuffer_ s) in
  let s := set_input b (received s ++ match kernel_read s (readFd_iov (inputBuffer_ s)) with IoOk d => d | IoErr _ => [] end) s in
  if decide (0 < n) then notify (NMessage receiveTime) s
  else if decide (n = 0) then handleClose inLoop s
  else Ret s.

Definition handleWrite (inLoop : bool) (s : Conn) : outcome Conn :=
  inloop* inLoop in
  if isWriting (channel_ s) then
    let data := content (outputBuffer_ s) in
    match kernel_write s data with
    | Wrote n =>
        if decide (0 < n) then
          let s := set_wire (wire s ++ ztake n data) s in
          let* output := retrieve n (outputBuffer_ s) in
          let s := set_output output s in
          if decide (readableBytes output = 0) then
            let s := chan_op DisableWriting s in
            let s := if writeCompleteCallback_ s then post CWriteComplete s else s in
            if decide (state_ s = kDisconnecting) then shutdownInLoop inLoop s else Ret s
          else Ret s
        else Ret s
    | WriteError _ => Ret s
    end
  else Ret s.

(** The loop runs a posted call. *)
Definition do_call (c : call) (s : Conn) : outcome Conn :=
  match c with
  | CSend data => sendInLoop true data s
  | CShutdown => shutdownInLoop true s
  | CForceClose => forceCloseInLoop true s
  | CStartRead => startReadInLoop true s
  | CStopRead => stopReadInLoop true s
  | CWriteComplete => notify NWriteComplete s
  | CHighWater n => notify (NHighWater n) s
  | CConnectDestroyed => connectDestroyed true s
  end.

Definition run_posted (s : Conn) : outcome Conn :=
  match posted s with
  | [] => Ret s
  | c :: rest => do_call c (set_posted rest s)
  end.

(** ** What can happen to a connection *)

Inductive event :=
  | Establish
  | Readable (receiveTime : Z)
  | Writable
  | HangUp
  | Posted
  | Destroy
  | User (u : ucall).

Definition do_event (e : event) (s : Conn) : outcome Conn :=
  match e with
  | Establish => connectEstablished true s
  | Readable t => handleRead true t s
  | Writable => handleWrite true s
  | HangUp => handleClose true s
  | Posted => run_posted s
  | Destroy => connectDestroyed true s
  | User u => do_ucall u s
  end.

(** The poller reports a descriptor only for the events asked for, and a
    hang-up for any; a server that is destroyed runs [connectDestroyed] of its
    connections. *)
Definition enabled (e : event) (s : Conn) : Prop :=
  match e with
  | Establish => state_ s = kConnecting
  | Readable _ => isReading (channel_ s) = true
  | Writable => isWriting (channel_ s) = true
  | HangUp => isNoneEvent (channel_ s) = false
  | Destroy => state_ s <> kConnecting
  | Posted | User _ => True
  end.

#[export] Instance enabled_dec e s : Decision (enabled e s).
Proof. destruct e; cbn; apply _. Defined.

(** *** Calls of other threads *)

Inductive tcall :=
  | TSend (data : list byte)
  | TShutdown
  | TForceClose
  | TStartRead
  | TStopRead.

(** How far a call is: it has tested [state_], or it has set it too. *)
Inductive stage := Tested | StateSet.

#[export] Instance stage_eq_dec : EqDecision stage.
Proof. solve_decision. Defined.

(** The connection, the calls of other threads that are under way, and whether
    one of them set [state_] after the connection was closed. *)
Record Sys := mkSys { conn : Conn; calls : list (tcall * stage); raced : bool }.

(** The test a call begins with. *)
Definition call_test (t : tcall) (s : Conn) : bool :=
  match t with
  | TSend _ | TShutdown => bool_decide (state_ s = kConnected)
  | TForceClose => bool_decide (state_ s = kConnected) || bool_decide (state_ s = kDisconnecting)
  | TStartRead | TStopRead => true
  end.

Definition begin_call (t : tcall) (s : Sys) : Sys :=
  if call_test t (conn s) then mkSys (conn s) (calls s ++ [(t, Tested)]) (raced s) else s.

(** The state is still one of those in which a connection can be closed. *)
Definition is_open (s : Conn) : bool := bool_decide (state_ s = kConnected) || bool_decide (state_ s = kDisconnecting).

(** The next access of a call: [setState(kDisconnecting)] or the posting. *)
Definition continue_call (k : nat) (s : Sys) : outcome Sys :=
  match calls s !! k with
  | None => Ret s
  | Some (t, g) =>
      let left := delete k (calls s) in
      match t, g with
      | TSend d, _ => let* c := send_tested false (sp_of_string d) (conn s) in Ret (mkSys c left (raced s))
      | TStartRead, _ => let* c := startRead false (conn s) in Ret (mkSys c left (raced s))
      | TStopRead, _ => let* c := stopRead false (conn s) in Ret (mkSys c left (raced s))
      | TShutdown, Tested | TForceClose, Tested =>
          Ret (mkSys (set_state kDisconnecting (conn s)) (<[k := (t, StateSet)]> (calls s)) (raced s || negb (is_open (conn s))))
      | TShutdown, StateSet => Ret (mkSys (post CShutdown (conn s)) left (raced s))
      | TForceClose, StateSet => Ret (mkSys (post CForceClose (conn s)) left (raced s))
      end
  end.

Inductive step :=
  | Loop (e : event)
  | Begin (t : tcall)
  | Continue (k : nat).

Definition do_step (e : step) (s : Sys) : outcome Sys :=
  match e with
  | Loop e => let* c := do_event e (conn s) in Ret (mkSys c (calls s) (raced s))
  | Begin t => Ret (begin_call t s)
  | Continue k => continue_call k s
  end.

Definition step_enabled (e : step) (s : Sys) : Prop :=
  match e with Loop e => enabled e (conn s) | Begin _ | Continue _ => True end.

#[export] Instance step_enabled_dec e s : Decision (step_enabled e s).
Proof. destruct e; cbn; apply _. Defined.

Definition start (s : Conn) : Sys := mkSys s [] false.

Inductive reaches (s : Sys) : Sys -> Prop :=
  | reaches_refl : reaches s s
  | reaches_step e s1 s2 : reaches s s1 -> step_enabled e s1 -> do_step e s1 = Ret s2 -> reaches s s2.

(** A run, step by step. *)
Fixpoint run_trace (es : list step) (s : Sys) : outcome Sys :=
  match es with
  | [] => Ret s
  | e :: es => assert* bool_decide (step_enabled e s) in let* s := do_step e s in run_trace es s
  end.

Lemma trace_reaches es s0 s s' : reaches s0 s -> run_trace es s = Ret s' -> reaches s0 s'.
Proof.
  revert s. induction es as [|e es IH]; intros s R H; cbn [run_trace] in H; [by injection H as <-|].
  apply check_ret in H as [En H]. apply bool_decide_eq_true in En. apply obind_ret in H as (s1 & H1 & H).
  eapply IH; [|exact H]. by eapply reaches_step.
Qed.

(** ** The invariant *)

Definition conn_notes (l : list note) : list bool :=
  flat_map (fun n => match n with NConnection b => [b] | _ => [] end) l.
Definition closes (l : list note) : nat :=
  length (flat_map (fun n => match n with NClose => [tt] | _ => [] end) l).

(** The notifications a connection has made in each state. *)
Definition notes_of (st : StateE) : list bool :=
  match st with
  | kConnecting => []
  | kConnected | kDisconnecting => [true]
  | kDisconnected => [true; false]
  end.

(** [x] are calls taken off the queue that are still to run. *)
Record Inv (x : list call) (s : Conn) : Prop := mkInv {
  inv_input : wf (inputBuffer_ s) /\ zlen (buffer_ (inputBuffer_ s)) <= 1032 + zlen (received s);
  inv_output : wf (outputBuffer_ s) /\ zlen (buffer_ (outputBuffer_ s)) <= 1032 + zlen (accepted s);
  inv_events : events_ok (channel_ s);
  (** nothing lost, nothing reordered *)
  inv_stream : wire s ++ content (outputBuffer_ s) = accepted s;
  (** the loop watches for writability exactly while something is buffered *)
  inv_writing : isWriting (channel_ s) =
    if decide (state_ s = kDisconnected) then false else bool_decide (content (outputBuffer_ s) <> []);
  (** the write side is closed only after everything was written *)
  inv_shut : write_shut s = true -> state_ s <> kDisconnected -> content (outputBuffer_ s) = [];
  (** and is not forgotten *)
  inv_pending : state_ s = kDisconnecting -> content (outputBuffer_ s) = [] ->
    write_shut s = true \/ CShutdown ∈ x ++ posted s \/ CForceClose ∈ x ++ posted s;
  inv_notes : conn_notes (notes s) = notes_of (state_ s);
  inv_closes : (closes (notes s) <= if decide (state_ s = kDisconnected) then 1 else 0)%nat
}.

(** [accepted] and [received] only grow. *)
Definition grows (s s' : Conn) : Prop :=
  accepted s `prefix_of` accepted s' /\ received s `prefix_of` received s'.

Lemma grows_refl s : grows s s.
Proof. by split. Qed.
Lemma grows_trans s1 s2 s3 : grows s1 s2 -> grows s2 s3 -> grows s1 s3.
Proof. intros [] []. split; by etransitivity. Qed.

Definition small (s : Conn) : Prop := zlen (accepted s) < 2 ^ 62 /\ zlen (received s) < 2 ^ 62.

Lemma grows_small s s' : grows s s' -> small s' -> small s.
Proof.
  intros [(k1 & E1) (k2 & E2)] [H1 H2]. rewrite E1, E2, !zlen_app in *. split; zlia.
Qed.

Ltac cs := cbn [state_ reading_ channel_ writeCompleteCallback_ highWaterMarkCallback_ highWaterMark_ inputBuffer_
  outputBuffer_ wire write_shut posted notes accepted received set_state set_reading set_channel set_input set_output
  set_wire shutdownWrite post set_posted add_note accept chan_op closeCallback] in *.

Lemma writing_added b c : isWriting (set_addedToLoop b c) = isWriting c.
Proof. done. Qed.
Lemma events_added b c : events_ok (set_addedToLoop b c) <-> events_ok c.
Proof. done. Qed.

(** Changing what the invariant does not read, or posting. *)
Lemma Inv_post x c s : Inv x s -> Inv x (post c s).
Proof.
  intros [I O E S W Sh P N C]. constructor; cs; try done. intros H1 H2. rewrite !elem_of_app.
  specialize (P H1 H2). rewrite !elem_of_app in P. naive_solver.
Qed.

Lemma Inv_read x op s :
  Inv x s -> op = EnableReading \/ op = DisableReading -> Inv x (chan_op op s).
Proof.
  intros [I O E S W Sh P N C] Hop. constructor; cs; try done.
  - rewrite events_added. by apply apply_op_ok.
  - rewrite writing_added. destruct (apply_op_reading op (channel_ s) E) as [_ ->]. by destruct Hop; subst.
Qed.

Lemma Inv_set_reading x b s : Inv x s -> Inv x (set_reading b s).
Proof. intros []. by constructor. Qed.

(** ** Preservation *)

(** The kernel writes at most what it is given, nothing after the write side was
    shut down, and reads at most what it is asked for. *)
Context (kernel_write_ok : forall s d, match kernel_write s d with Wrote n => 0 <= n <= zlen d | WriteError _ => True end).
Context (kernel_write_shut : forall s d, write_shut s = true -> kernel_write s d = WriteError EPIPE).
Context (kernel_read_ok : forall s, readv_bounded (kernel_read s)).

Lemma content_nil b : wf b -> readableBytes b = 0 <-> content b = [].
Proof.
  intros W. rewrite <- (content_len b W). split; [apply zlen_0|by intros ->].
Qed.

(** What is kept by the calls of an application. *)
Definition same_life (s s' : Conn) : Prop :=
  notes s' = notes s /\ (state_ s = kDisconnected -> state_ s' = kDisconnected).

Lemma accept_nil s : accept [] s = s.
Proof. unfold accept. rewrite app_nil_r. by destruct s. Qed.

(** The second half of [sendInLoop], after [n] bytes went out directly. *)
Lemma buffer_rest_inv x d n out s :
  Inv x s -> state_ s <> kDisconnected -> write_shut s = false -> 0 <= n < zlen d ->
  n = 0 \/ content (outputBuffer_ s) = [] ->
  append (zdrop n d) (zlen d - n) (outputBuffer_ s) = Ret out -> zlen (accepted s ++ d) < 2 ^ 62 ->
  let s3 := accept d (set_output out (set_wire (wire s ++ ztake n d) s)) in
  Inv x (if isWriting (channel_ s) then s3 else chan_op EnableWriting s3).
Proof.
  intros [I [O Os] E S W Sh P N C] Hs Hw Hn Hd Ha Hl s3. rewrite zlen_app in Hl. zlen_pos.
  destruct (append_ok (zdrop n d) (zlen d - n) (outputBuffer_ s) O) as (out' & Ea & Wo & Co & _ & Lo).
  { rewrite zlen_zdrop; lia. }
  { unfold max_size. lia. }
  rewrite Ha in Ea. injection Ea as <-. rewrite (ztake_all (zlen d - n)) in Co by (rewrite zlen_zdrop; lia).
  assert (content out <> []) as Nc.
  { rewrite Co. intros K. apply (f_equal zlen) in K. rewrite zlen_app, zlen_zdrop, zlen_nil in K by lia.
    pose proof (zlen_nonneg (content (outputBuffer_ s))). lia. }
  assert (Inv x (chan_op EnableWriting s3)) as I3.
  { unfold s3. constructor; cs; try done.
    - split; [done|]. rewrite zlen_app. lia.
    - rewrite events_added. by apply apply_op_ok.
    - rewrite Co, <- S. destruct Hd as [-> | ->].
      + rewrite ztake_0, zdrop_0 by lia. by rewrite app_nil_r, !app_assoc.
      + rewrite app_nil_l, app_nil_r. by rewrite <- app_assoc, ztake_zdrop.
    - rewrite writing_added. destruct (apply_op_reading EnableWriting (channel_ s) E) as [_ ->].
      rewrite decide_False by done. by rewrite bool_decide_eq_true_2.
    - congruence. }
  destruct (isWriting (channel_ s)) eqn:Wr; [|done].
  destruct I3 as [I' O' E' S' W' Sh' P' N' C']. unfold s3 in *. constructor; cs; try done.
  rewrite Wr. destruct (apply_op_reading EnableWriting (channel_ s) E) as [_ K]. rewrite writing_added, K in W'. done.
Qed.

Lemma sendInLoop_inv x d s s' :
  Inv x s -> sendInLoop true d s = Ret s' -> small s' ->
  Inv x s' /\ grows s s' /\ notes s' = notes s /\ state_ s' = state_ s.
Proof.
  intros I H Sm. unfold sendInLoop in H. cbn [assertInLoopThread] in H.
  case_decide as Ds; [injection H as <-; by split_and!|].
  pose proof (inv_output _ _ I) as [O _]. pose proof (inv_writing _ _ I) as Wr. rewrite decide_False in Wr by done.
  assert (forall r n, 0 <= n < zlen d -> n = 0 \/ content (outputBuffer_ s) = [] -> write_shut s = false ->
    r = zlen d - n ->
    (let oldLen := readableBytes (outputBuffer_ s) in
     let s1 := set_wire (wire s ++ ztake n d) s in
     let s2 := (if bool_decide (highWaterMark_ s1 <= u64 (oldLen + r)) && bool_decide (oldLen < highWaterMark_ s1)
                  && highWaterMarkCallback_ s1
               then post (CHighWater (u64 (oldLen + r))) s1 else s1) in
     let* output := append (zdrop n d) r (outputBuffer_ s2) in
     let s3 := accept d (set_output output s2) in
     Ret (if isWriting (channel_ s3) then s3 else chan_op EnableWriting s3)) = Ret s' ->
    Inv x s' /\ grows s s' /\ notes s' = notes s /\ state_ s' = state_ s) as Rest.
  { intros r n Hn Hd Hw -> Hr. cbv zeta in Hr. set (cnd := _ && _) in Hr.
    apply obind_ret in Hr as (out & Ea & Hr). injection Hr as <-.
    assert (append (zdrop n d) (zlen d - n) (outputBuffer_ s) = Ret out) as Ea' by (destruct cnd; exact Ea).
    assert (zlen (accepted s ++ d) < 2 ^ 62) as Hl by (destruct Sm as [Sm _]; destruct cnd; cs; destruct (isWriting _); exact Sm).
    destruct cnd.
    - pose proof (buffer_rest_inv x d n out _ (Inv_post x (CHighWater (u64 (readableBytes (outputBuffer_ s) + (zlen d - n)))) s I) Ds Hw Hn Hd Ea' Hl) as K.
      cs. destruct (isWriting (channel_ s)); (split; [exact K|split; [split; [by eexists|done]|done]]).
    - pose proof (buffer_rest_inv x d n out s I Ds Hw Hn Hd Ea' Hl) as K.
      cs. destruct (isWriting (channel_ s)); (split; [exact K|split; [split; [by eexists|done]|done]]). }
  destruct (negb (isWriting (channel_ s)) && bool_decide (readableBytes (outputBuffer_ s) = 0)) eqn:Dr.
  - apply andb_prop in Dr as [Dr1 Dr2]. apply bool_decide_eq_true in Dr2. rewrite content_nil in Dr2 by done.
    unfold write_directly in H. pose proof (kernel_write_ok s d) as Kw.
    destruct (write_shut s) eqn:Ws.
    + rewrite kernel_write_shut in H by done. cbn in H. rewrite check_true in H by (apply bool_decide_eq_true; lia).
      injection H as <-. rewrite accept_nil. split_and!; (done || apply grows_refl).
    + destruct (kernel_write s d) as [n|e].
      * rewrite check_true in H by (apply bool_decide_eq_true; lia). cbn [negb] in H.
        destruct (decide (n < zlen d)) as [Hr|Hr].
        -- rewrite (bool_decide_eq_false_2 (zlen d - n = 0)), (bool_decide_eq_true_2 (0 < zlen d - n)) in H by lia.
           cbn [andb] in H. apply (Rest (zlen d - n) n); [lia|by right|done|done|exact H].
        -- assert (n = zlen d) by lia. subst n. rewrite Z.sub_diag in H.
           rewrite (bool_decide_eq_true_2 (0 = 0)), (bool_decide_eq_false_2 (0 < 0)) in H by lia.
           cbn [andb] in H. rewrite ztake_all in H by lia.
           injection H as <-. destruct I as [I0 [O0 Os] E S W Sh P N C]. rewrite Dr2, app_nil_r in S.
           assert (Inv x (accept d (set_wire (wire s ++ d) s))) as K.
           { constructor; cs; try done; [split; [done|rewrite zlen_app; zlen_pos; lia]|]. by rewrite Dr2, S, app_nil_r. }
           destruct (writeCompleteCallback_ s) eqn:Wc; cs.
           ++ split; [exact (Inv_post x CWriteComplete _ K)|]. split; [split; [by eexists|done]|done].
           ++ split; [exact K|]. split; [split; [by eexists|done]|done].
      * rewrite check_true in H by (apply bool_decide_eq_true; lia).
        match type of H with context [negb ?f && _] => destruct f eqn:Ff end.
        -- cbn [negb andb] in H. injection H as <-. rewrite accept_nil. split_and!; (done || apply grows_refl).
        -- cbn [negb andb] in H. destruct (decide (0 < zlen d)) as [Hl|Hl]; [rewrite (bool_decide_eq_true_2 (0 < zlen d)) in H by done|rewrite (bool_decide_eq_false_2 (0 < zlen d)) in H by done].
           ++ apply (Rest (zlen d) 0); [lia|by left|done|lia|]. cbv zeta. rewrite ztake_0, app_nil_r by lia. by destruct s.
           ++ injection H as <-. assert (d = []) as -> by (apply zlen_0; pose proof (zlen_nonneg d); lia).
              rewrite accept_nil. split_and!; (done || apply grows_refl).
  - rewrite check_true in H by (apply bool_decide_eq_true; lia). cbn [negb andb] in H.
    assert (content (outputBuffer_ s) <> []) as Nc.
    { intros K. rewrite K in Wr. rewrite bool_decide_eq_false_2 in Wr by (by intros ?). rewrite Wr in Dr. cbn in Dr.
      apply bool_decide_eq_false in Dr. apply Dr. by apply content_nil. }
    assert (write_shut s = false) as Ws.
    { destruct (write_shut s) eqn:Ws; [|done]. destruct Nc. by apply (inv_shut _ _ I). }
    destruct (decide (0 < zlen d)) as [Hl|Hl]; [rewrite (bool_decide_eq_true_2 (0 < zlen d)) in H by done|rewrite (bool_decide_eq_false_2 (0 < zlen d)) in H by done].
    + apply (Rest (zlen d) 0); [lia|by left|done|lia|]. cbv zeta. rewrite ztake_0, app_nil_r by lia. by destruct s.
    + injection H as <-. assert (d = []) as -> by (apply zlen_0; pose proof (zlen_nonneg d); lia).
      rewrite accept_nil. split_and!; (done || apply grows_refl).
Qed.

Lemma conn_notes_app l k : conn_notes (l ++ k) = conn_notes l ++ conn_notes k.
Proof. apply flat_map_app. Qed.
Lemma closes_app l k : closes (l ++ k) = (closes l + closes k)%nat.
Proof. unfold closes. by rewrite flat_map_app, length_app. Qed.

Lemma shutdownInLoop_inv x s : Inv x s -> exists s', shutdownInLoop true s = Ret s' /\ Inv [] s' /\
  s' = (if isWriting (channel_ s) then s else shutdownWrite s).
Proof.
  intros I. eexists. split; [reflexivity|]. split; [|done]. pose proof (inv_writing _ _ I) as Wr.
  destruct I as [I O E S W Sh P N C]. destruct (isWriting (channel_ s)) eqn:Iw.
  - constructor; try done; [by rewrite Iw|]. intros H1 H2. rewrite decide_False in Wr by congruence. symmetry in Wr.
    by apply bool_decide_eq_true in Wr.
  - constructor; cs; try done; [by rewrite Iw|..].
    + intros _ Hs. rewrite decide_False in Wr by done. symmetry in Wr. apply bool_decide_eq_false in Wr.
      by apply dec_stable.
    + intros _ _. by left.
Qed.

Lemma Inv_mono x y s : Inv x s -> (forall c, c ∈ x -> c ∈ y) -> Inv y s.
Proof.
  intros [I O E S W Sh P N C] M. constructor; try done. intros H1 H2. specialize (P H1 H2).
  rewrite !elem_of_app in *. naive_solver.
Qed.

Lemma Inv_weaken x s : Inv [] s -> Inv x s.
Proof. intros I. eapply Inv_mono; [done|]. by intros c ?%elem_of_nil. Qed.

(** [setState(kDisconnecting)] on a connection that is not closed, by a call
    that goes on to post [c] *)
Lemma Inv_disconnecting x c s :
  Inv x s -> state_ s = kConnected \/ state_ s = kDisconnecting -> c = CShutdown \/ c = CForceClose ->
  Inv (c :: x) (set_state kDisconnecting s).
Proof.
  intros I Ds Hc. assert (state_ s <> kDisconnected) as Nd by (destruct Ds; congruence).
  destruct I as [I0 O E S W Sh P N C]. rewrite decide_False in W by done. rewrite decide_False in C by done. constructor; cs; try done.
  - intros K _. by apply Sh.
  - intros _ _. right. cbn [app]. destruct Hc as [-> | ->]; [left|right]; by left.
  - rewrite N. by destruct Ds as [-> | ->].
Qed.

(** Posting a call that was promised *)
Lemma Inv_posted c x s : Inv (c :: x) s -> Inv x (post c s).
Proof.
  intros [I O E S W Sh P N C]. constructor; cs; try done. intros H1 H2. specialize (P H1 H2). cbn [app] in P.
  rewrite !elem_of_app, !elem_of_cons, !elem_of_app in *. set_solver.
Qed.

Lemma shutdown_inv x s s' :
  Inv x s -> shutdown s = Ret s' ->
  Inv x s' /\ grows s s' /\ same_life s s'.
Proof.
  intros I H. unfold shutdown in H. case_decide as Ds; [|injection H as <-; split_and!; (done || apply grows_refl)].
  pose proof (Inv_disconnecting x CShutdown s I (or_introl Ds) (or_introl eq_refl)) as I1.
  destruct (shutdownInLoop_inv _ _ I1) as (s2 & E2 & I2 & K). rewrite E2 in H. injection H as <-.
  split; [by apply Inv_weaken|].
  subst s2; split; [cs; destruct (isWriting _); by split|split; cs; destruct (isWriting _); cs; congruence].
Qed.

Lemma forceClose_inv x s : Inv x s -> Inv x (forceClose s) /\ grows s (forceClose s) /\ same_life s (forceClose s).
Proof.
  intros I. unfold forceClose. case_decide as Ds; [|split_and!; (done || apply grows_refl)].
  split; [|split; [by split|split; cs; [done|destruct Ds; congruence]]].
  apply Inv_posted, Inv_disconnecting; auto.
Qed.

Lemma do_ucall_inv x u s s' :
  Inv x s -> do_ucall u s = Ret s' -> small s' -> Inv x s' /\ grows s s' /\ same_life s s'.
Proof.
  intros I H Sm. destruct u as [d| | | | |n]; cbn [do_ucall] in H.
  - unfold send_piece, send_tested in H. case_decide as Ds; [|injection H as <-; split_and!; (done || apply grows_refl)].
    apply obind_ret in H as (d0 & _ & H). destruct (sendInLoop_inv x d0 s s' I H Sm) as (K1 & K2 & K3 & K4).
    split_and!; try done. split; [done|]. congruence.
  - by apply (shutdown_inv x).
  - injection H as <-. by apply forceClose_inv.
  - unfold startRead, startReadInLoop in H.
    injection H as <-. destruct (negb _ || negb _); [|split_and!; (done || apply grows_refl)].
    split; [|by split]. apply Inv_set_reading, Inv_read; auto.
  - unfold stopRead, stopReadInLoop in H.
    injection H as <-. destruct (_ || _); [|split_and!; (done || apply grows_refl)].
    split; [|by split]. apply Inv_set_reading, Inv_read; auto.
  - apply obind_ret in H as (b & Hb & [= <-]). split; [|by split].
    destruct I as [[I0 Is] O E S W Sh P N C]. constructor; cs; try done.
    assert (0 <= u64 n <= readableBytes (inputBuffer_ s)) as Hn.
    { split; [apply wrap_range; lia|]. unfold retrieve in Hb. apply check_ret in Hb as [Hb _].
      by apply bool_decide_eq_true in Hb. }
    destruct (retrieve_ok (u64 n) (inputBuffer_ s) I0 Hn) as (b' & Eb & Wb & _ & Lb). rewrite Hb in Eb. injection Eb as <-.
    split; [done|lia].
Qed.

Lemma sendInLoop_grows inLoop d s s' : sendInLoop inLoop d s = Ret s' -> grows s s'.
Proof.
  unfold sendInLoop. destruct inLoop; [|done]. cbn [assertInLoopThread]. case_decide as Ds; [intros [= <-]; apply grows_refl|].
  assert (forall n r f s1, (if negb (isWriting (channel_ s)) && bool_decide (readableBytes (outputBuffer_ s) = 0)
       then write_directly d s else (0, zlen d, false, s)) = (n, r, f, s1) -> accepted s1 = accepted s /\ received s1 = received s) as K.
  { intros n r f s1. destruct (_ && _); [|by intros [= <- <- <- <-]]. unfold write_directly.
    destruct (kernel_write s d); intros [= <- <- <- <-]; [|done]. by destruct (_ && _). }
  destruct (if negb _ && _ then _ else _) as [[[n r] f] s1]. destruct (K n r f s1 eq_refl) as [Ka Kr].
  intros [_ H]%check_ret. destruct (negb f && _).
  - apply obind_ret in H as (out & _ & [= <-]). destruct (_ && _ && _); cs; destruct (isWriting _);
      split; cs; rewrite ?Ka, ?Kr; (done || by eexists).
  - injection H as <-. split; cs; rewrite ?Ka, ?Kr; (done || by eexists).
Qed.

Lemma do_ucall_grows u s s' : do_ucall u s = Ret s' -> grows s s'.
Proof.
  destruct u as [d| | | | |n]; cbn [do_ucall].
  - unfold send_piece, send_tested. case_decide as Ds; [|intros [= <-]; apply grows_refl].
    intros (d0 & _ & H)%obind_ret. by eapply sendInLoop_grows.
  - unfold shutdown. case_decide as Ds; [|intros [= <-]; apply grows_refl].
    cbn; intros [= <-]; destruct (isWriting _); by split.
  - intros [= <-]. unfold forceClose. case_decide; by split.
  - unfold startRead. cbn; intros [= <-]; destruct (_ || _); by split.
  - unfold stopRead. cbn; intros [= <-]; destruct (_ || _); by split.
  - intros (b & _ & [= <-])%obind_ret. by split.
Qed.

Lemma do_ucalls_grows us s s' : do_ucalls us s = Ret s' -> grows s s'.
Proof.
  revert s. induction us as [|u us IH]; intros s H; cbn [do_ucalls] in H; [injection H as <-; apply grows_refl|].
  apply obind_ret in H as (s1 & H1 & H). eapply grows_trans; [by eapply do_ucall_grows|by apply IH].
Qed.

Lemma notify_grows n s s' : notify n s = Ret s' -> grows s s'.
Proof. intros H%do_ucalls_grows. exact H. Qed.

Lemma do_ucalls_inv x us s s' :
  Inv x s -> do_ucalls us s = Ret s' -> small s' -> Inv x s' /\ grows s s' /\ same_life s s'.
Proof.
  revert s. induction us as [|u us IH]; intros s I H Sm; cbn [do_ucalls] in H.
  - injection H as <-. split_and!; (done || apply grows_refl).
  - apply obind_ret in H as (s1 & H1 & H).
    destruct (do_ucall_inv x u s s1 I H1) as (I1 & G1 & L1); [eapply grows_small; [by eapply do_ucalls_grows|done]|].
    destruct (IH s1 I1 H Sm) as (I2 & G2 & L2). split_and!; [done|by eapply grows_trans|].
    destruct L1 as [N1 D1], L2 as [N2 D2]. split; [congruence|auto].
Qed.

Lemma Inv_drop c x s : Inv (c :: x) s -> c <> CShutdown -> c <> CForceClose -> Inv x s.
Proof.
  intros [I O E S W Sh P N C] N1 N2. constructor; try done. intros H1 H2. specialize (P H1 H2).
  cbn [app] in P. rewrite !elem_of_cons in P. naive_solver.
Qed.

(** A note other than the connection's and the close's. *)
Lemma notify_inv x n s s' :
  Inv x s -> (match n with NConnection _ | NClose => False | _ => True end) ->
  notify n s = Ret s' -> small s' -> Inv x s' /\ grows s s'.
Proof.
  intros I Hn H Sm. unfold notify in H.
  assert (Inv x (add_note n s)) as I1.
  { destruct I as [I O E S W Sh P N C]. constructor; cs; try done.
    - rewrite conn_notes_app, N. destruct n; try done; by rewrite app_nil_r.
    - rewrite closes_app. destruct n; try done; cbn; lia. }
  destruct (do_ucalls_inv x _ _ _ I1 H Sm) as (I2 & G & _). done.
Qed.

(** The connection goes down: [handleClose], and [connectDestroyed] of a
    connection that is up. *)
Lemma go_down_inv x s s' :
  Inv x s -> state_ s = kConnected \/ state_ s = kDisconnecting ->
  let s1 := chan_op DisableAll (set_state kDisconnected s) in
  notify (NConnection (connected s1)) s1 = Ret s' -> small s' ->
  Inv [] s' /\ grows s s' /\ state_ s' = kDisconnected /\ closes (notes s') = 0%nat.
Proof.
  intros I Hs s1 H Sm. unfold notify in H. set (s2 := add_note _ s1) in H.
  assert (state_ s <> kDisconnected) as Nd by (destruct Hs; congruence).
  assert (Inv [] s2) as I2.
  { destruct I as [I O E S W Sh P N C]. rewrite decide_False in C by done. unfold s2, s1. constructor; cs; try done.
    - rewrite conn_notes_app, N. unfold connected. cs. by destruct Hs as [-> | ->].
    - rewrite closes_app. cbn. lia. }
  assert (closes (notes s2) = 0%nat) as C2.
  { pose proof (inv_closes _ _ I) as C. rewrite decide_False in C by done. unfold s2, s1. cs. rewrite closes_app. cbn. lia. }
  destruct (do_ucalls_inv [] _ _ _ I2 H Sm) as (I3 & G & [L1 L2]).
  split_and!; [done| |by apply L2|congruence]. eapply grows_trans; [|exact G]. by split.
Qed.

Lemma handleClose_inv x s s' :
  Inv x s -> handleClose true s = Ret s' -> small s' -> Inv [] s' /\ grows s s'.
Proof.
  intros I H Sm. unfold handleClose in H. cbn [assertInLoopThread] in H. apply check_ret in H as [Hs H].
  apply obind_ret in H as (s2 & H & [= <-]).
  assert (small s2) as Sm2 by exact Sm.
  destruct (go_down_inv x s s2 I) as (I2 & G & St & Cl); [|done|done|].
  { apply orb_prop in Hs as [Hs|Hs]; apply bool_decide_eq_true in Hs; auto. }
  split; [|done]. destruct I2 as [? ? ? ? ? ? P N C]. constructor; cs; try done.
  - intros K _. rewrite St in K. done.
  - rewrite conn_notes_app, N. cbn. by rewrite app_nil_r.
  - rewrite closes_app, Cl, decide_True by done. cbn. lia.
Qed.

Lemma connectDestroyed_inv x s s' :
  Inv x s -> connectDestroyed true s = Ret s' -> small s' -> Inv x s' /\ grows s s'.
Proof.
  intros I H Sm. unfold connectDestroyed in H. cbn [assertInLoopThread] in H. apply obind_ret in H as (s2 & H & R).
  unfold chan_remove in R. apply check_ret in R as [_ [= <-]]. assert (small s2) as Sm2 by exact Sm.
  assert (Inv x s2 /\ grows s s2) as [I2 G].
  { case_decide as Ds; [|injection H as <-; split; [done|apply grows_refl]].
    destruct (go_down_inv x s s2 I) as (I2 & G & _); [auto|done|done|]. split; [by apply Inv_weaken|done]. }
  split; [|done]. destruct I2. by constructor.
Qed.

Lemma connectEstablished_inv x s s' :
  Inv x s -> connectEstablished true s = Ret s' -> small s' -> Inv x s' /\ grows s s'.
Proof.
  intros I H Sm. unfold connectEstablished in H. cbn [assertInLoopThread] in H. apply check_ret in H as [Hs H].
  apply bool_decide_eq_true in Hs. unfold notify in H. set (s2 := add_note _ _) in H.
  assert (Inv x s2) as I2.
  { destruct I as [I O E S W Sh P N C]. rewrite Hs in *. unfold s2. constructor; cs; try done.
    - rewrite events_added. by apply (apply_op_ok EnableReading (tie (channel_ s))).
    - rewrite writing_added. destruct (apply_op_reading EnableReading (tie (channel_ s)) E) as [_ ->]. exact W.
    - intros K _. by apply Sh.
    - rewrite conn_notes_app, N. unfold connected. cs. done.
    - rewrite closes_app. by rewrite Nat.add_0_r. }
  destruct (do_ucalls_inv x _ _ _ I2 H Sm) as (I3 & G & _). split; [done|]. eapply grows_trans; [|exact G]. by split.
Qed.

Lemma handleRead_inv x tm s s' :
  Inv x s -> handleRead true tm s = Ret s' -> small s' -> small s -> Inv x s'.
Proof.
  intros I H Sm Sm0. unfold handleRead in H. cbn [assertInLoopThread] in H. apply obind_ret in H as ([[n e] b] & Hr & H).
  destruct (inv_input _ _ I) as [Wi Ls].
  pose proof (readFd_ok (kernel_read s) (inputBuffer_ s) Wi) as R.
  assert (zlen (buffer_ (inputBuffer_ s)) + extrabuf_size <= max_size) as B.
  { destruct Sm0. unfold max_size, extrabuf_size. lia. }
  specialize (R B (kernel_read_ok s)). set (got := match _ with IoOk d => d | IoErr _ => [] end) in H.
  assert (wf b /\ zlen (buffer_ b) <= zlen (buffer_ (inputBuffer_ s)) + zlen got) as [Wb Lb].
  { unfold got. destruct (kernel_read s (readFd_iov (inputBuffer_ s))) as [d|err].
    - destruct R as (b' & E & ? & _ & ?). rewrite Hr in E. injection E as _ _ <-. done.
    - rewrite Hr in R. injection R as _ _ ->. split; [done|]. rewrite zlen_nil. lia. }
  set (s1 := set_input b (received s ++ got) s) in H.
  assert (Inv x s1) as I1.
  { destruct I as [I O E S W Sh P N C]. unfold s1. constructor; cs; try done. split; [done|]. rewrite zlen_app. lia. }
  case_decide as D1; [by eapply (notify_inv x (NMessage tm))|].
  case_decide as D2; [|by injection H as <-]. apply Inv_weaken. by eapply handleClose_inv.
Qed.

Lemma handleWrite_inv x s s' :
  Inv x s -> handleWrite true s = Ret s' -> small s' -> Inv x s' /\ grows s s'.
Proof.
  intros I H Sm. unfold handleWrite in H. cbn [assertInLoopThread] in H.
  destruct (isWriting (channel_ s)) eqn:Iw; [|injection H as <-; split; [done|apply grows_refl]].
  pose proof (kernel_write_ok s (content (outputBuffer_ s))) as Kw.
  destruct (kernel_write s (content (outputBuffer_ s))) as [n|e]; [|injection H as <-; split; [done|apply grows_refl]].
  case_decide as D; [|injection H as <-; split; [done|apply grows_refl]].
  apply obind_ret in H as (out & Hr & H). cs.
  pose proof (inv_writing _ _ I) as Wr. rewrite Iw in Wr. case_decide as Ds; [done|]. symmetry in Wr. apply bool_decide_eq_true in Wr.
  assert (write_shut s = false) as Ws by (destruct (write_shut s) eqn:Ws; [destruct Wr; by apply (inv_shut _ _ I)|done]).
  destruct I as [I [O Os] E S W Sh P N C].
  destruct (retrieve_ok n (outputBuffer_ s) O) as (out' & Er & Wo & Co & Lo).
  { rewrite <- (content_len _ O). lia. }
  rewrite Hr in Er. injection Er as <-.
  set (s1 := set_output out (set_wire (wire s ++ ztake n (content (outputBuffer_ s))) s)) in *.
  assert ((wire s ++ ztake n (content (outputBuffer_ s))) ++ content out = accepted s) as Stream.
  { rewrite Co, <- app_assoc, ztake_zdrop. exact S. }
  assert (content out <> [] -> Inv x s1) as I1.
  { intros Nc. unfold s1. constructor; cs; try done; [split; [done|lia]| |].
    - rewrite Iw. by rewrite decide_False, bool_decide_eq_true_2 by done.
    - congruence. }
  case_decide as De; rewrite (content_nil out Wo) in De.
  2: { injection H as <-. split; [by apply I1|by split]. }
  clear I1. assert (Inv (CShutdown :: x) (chan_op DisableWriting s1)) as I2.
  { unfold s1. constructor; cs; try done; [split; [done|lia]|..].
    - rewrite events_added. by apply apply_op_ok.
    - rewrite writing_added. destruct (apply_op_reading DisableWriting (channel_ s) E) as [_ ->].
      rewrite decide_False by done. rewrite De. by rewrite bool_decide_eq_false_2 by (by intros ?).
    - intros _ _. right; left. by left. }
  assert (forall s3, Inv (CShutdown :: x) s3 -> state_ s3 <> kDisconnecting -> Inv x s3) as Dr.
  { intros s3 [? ? ? ? ? ? ? ? ?] Ns. constructor; try done. }
  assert (forall s3, Inv (CShutdown :: x) s3 -> grows s s3 -> state_ s3 = state_ s ->
    (if decide (state_ s3 = kDisconnecting) then shutdownInLoop true s3 else Ret s3) = Ret s' -> Inv x s' /\ grows s s') as Fin.
  { intros s3 I3 G3 St Hf. case_decide as Dd; [|injection Hf as <-; split; [by apply Dr|done]].
    destruct (shutdownInLoop_inv _ _ I3) as (s4 & E4 & I4 & K). rewrite E4 in Hf. injection Hf as <-. split.
    - destruct I4 as [? ? ? ? ? ? P4 ? ?]. constructor; try done. intros H1 H2. specialize (P4 H1 H2).
      cbn [app] in P4. rewrite !elem_of_app. tauto.
    - subst s4. eapply grows_trans; [exact G3|]. destruct (isWriting (channel_ s3)); [apply grows_refl|by split]. }
  cs. destruct (writeCompleteCallback_ s).
  - apply (Fin (post CWriteComplete (chan_op DisableWriting s1))); [by apply Inv_post|by split|done|exact H].
  - apply (Fin (chan_op DisableWriting s1)); [done|by split|done|exact H].
Qed.

Lemma Inv_run c x rest s : Inv x s -> posted s = c :: rest -> Inv (c :: x) (set_posted rest s).
Proof.
  intros [I O E S W Sh P N C] Hp. constructor; cs; try done. intros H1 H2. specialize (P H1 H2).
  rewrite Hp in P. cbn [app]. rewrite !elem_of_app, !elem_of_cons, !elem_of_app in *. naive_solver.
Qed.

Lemma do_call_inv c x s s' : Inv (c :: x) s -> do_call c s = Ret s' -> small s' -> Inv x s' /\ grows s s'.
Proof.
  intros I H Sm. destruct c as [d| | | | | |n|]; cbn [do_call] in H;
    try (apply Inv_drop in I; [|done..]).
  - destruct (sendInLoop_inv x d s s' I H Sm) as (? & ? & _). done.
  - destruct (shutdownInLoop_inv _ _ I) as (s2 & E2 & I2 & K). rewrite E2 in H. injection H as <-.
    split; [by apply Inv_weaken|]. subst s2. destruct (isWriting (channel_ s)); [apply grows_refl|by split].
  - unfold forceCloseInLoop in H. cbn [assertInLoopThread] in H. case_decide as Ds.
    { destruct (handleClose_inv _ s s' I H Sm). split; [by apply Inv_weaken|done]. }
    injection H as <-. split; [|apply grows_refl]. destruct I as [? ? ? ? ? ? P ? ?]. constructor; try done. tauto.
  - destruct (do_ucall_inv x UStartRead s s' I H Sm) as (? & ? & _). done.
  - destruct (do_ucall_inv x UStopRead s s' I H Sm) as (? & ? & _). done.
  - by apply (notify_inv x NWriteComplete).
  - by apply (notify_inv x (NHighWater n)).
  - by eapply connectDestroyed_inv.
Qed.

Lemma handleClose_grows s s' : handleClose true s = Ret s' -> grows s s'.
Proof.
  unfold handleClose. intros [_ H]%check_ret. apply obind_ret in H as (s2 & H%notify_grows & [= <-]). exact H.
Qed.

Lemma handleRead_grows tm s s' : handleRead true tm s = Ret s' -> grows s s'.
Proof.
  unfold handleRead. intros ([[n e] b] & _ & H)%obind_ret. set (s1 := set_input _ _ s) in H.
  assert (grows s s1) as G by (split; [done|by eexists]).
  repeat case_decide; [apply notify_grows in H|apply handleClose_grows in H|by injection H as <-]; by eapply grows_trans.
Qed.

Lemma do_event_inv e x s s' : Inv x s -> enabled e s -> do_event e s = Ret s' -> small s' -> Inv x s' /\ grows s s'.
Proof.
  intros I En H Sm. destruct e as [|tm| | | | |u]; cbn [do_event] in H.
  - by apply connectEstablished_inv.
  - pose proof (handleRead_grows _ _ _ H) as G. split; [|done].
    eapply (handleRead_inv x tm s s' I H Sm). by eapply grows_small.
  - by apply handleWrite_inv.
  - destruct (handleClose_inv _ s s' I H Sm). split; [by apply Inv_weaken|done].
  - unfold run_posted in H. destruct (posted s) as [|c rest] eqn:Hp; [injection H as <-; split; [done|apply grows_refl]|].
    destruct (do_call_inv c x _ s' (Inv_run c x rest s I Hp) H Sm). done.
  - by eapply connectDestroyed_inv.
  - destruct (do_ucall_inv x u s s' I H Sm) as (? & ? & _). done.
Qed.

Lemma handleWrite_grows s s' : handleWrite true s = Ret s' -> grows s s'.
Proof.
  unfold handleWrite. cbn [assertInLoopThread]. intros H.
  destruct (isWriting (channel_ s)); [|injection H as <-; apply grows_refl].
  destruct (kernel_write s (content (outputBuffer_ s))) as [n|e]; [|injection H as <-; apply grows_refl].
  case_decide as D; [|injection H as <-; apply grows_refl].
  apply obind_ret in H as (out & _ & H). case_decide; [|injection H as <-; by split].
  cs. destruct (writeCompleteCallback_ s); case_decide; injection H as <-; try (destruct (isWriting _)); by split.
Qed.

Lemma connectDestroyed_grows s s' : connectDestroyed true s = Ret s' -> grows s s'.
Proof.
  unfold connectDestroyed. cbn [assertInLoopThread]. intros (s2 & H & R)%obind_ret.
  apply check_ret in R as [_ [= <-]]. case_decide; [apply notify_grows in H; exact H|injection H as <-; by split].
Qed.

Lemma do_event_grows e s s' : do_event e s = Ret s' -> grows s s'.
Proof.
  destruct e as [|tm| | | | |u]; cbn [do_event].
  - unfold connectEstablished. cbn [assertInLoopThread]. intros [_ H]%check_ret. apply notify_grows in H. exact H.
  - apply handleRead_grows.
  - apply handleWrite_grows.
  - apply handleClose_grows.
  - unfold run_posted. destruct (posted s) as [|c rest]; [intros [= <-]; apply grows_refl|].
    destruct c as [d| | | | | |n|]; cbn [do_call]; intros H.
    + by apply sendInLoop_grows in H.
    + injection H as <-. destruct (isWriting _); by split.
    + unfold forceCloseInLoop in H. cbn [assertInLoopThread] in H. case_decide; [by apply handleClose_grows in H|].
      injection H as <-. by split.
    + by apply (do_ucall_grows UStartRead) in H.
    + by apply (do_ucall_grows UStopRead) in H.
    + by apply notify_grows in H.
    + by apply notify_grows in H.
    + by apply connectDestroyed_grows in H.
  - apply connectDestroyed_grows.
  - apply do_ucall_grows.
Qed.

(** The calls that other threads have promised to post. *)
Definition promised (l : list (tcall * stage)) : list call :=
  flat_map (fun x => match x with (TShutdown, StateSet) => [CShutdown] | (TForceClose, StateSet) => [CForceClose] | _ => [] end) l.

Lemma promised_app l1 l2 : promised (l1 ++ l2) = promised l1 ++ promised l2.
Proof. apply flat_map_app. Qed.

(** Taking call [k] out, and putting back what it is then. *)
Lemma elem_of_promised c l : c ∈ promised l <-> (c = CShutdown /\ (TShutdown, StateSet) ∈ l) \/ (c = CForceClose /\ (TForceClose, StateSet) ∈ l).
Proof.
  induction l as [|[t g] l IH]; cbn [promised flat_map]; [split; [by intros ?%elem_of_nil|by intros [[_ ?%elem_of_nil]|[_ ?%elem_of_nil]]]|].
  fold (promised l). rewrite elem_of_app, IH, !elem_of_cons. destruct t, g; cbn; rewrite ?list_elem_of_singleton, ?elem_of_nil; naive_solver.
Qed.

Lemma calls_at k l (x y : tcall * stage) : l !! k = Some x -> exists l1 l2, l = l1 ++ x :: l2 /\
  delete k l = l1 ++ l2 /\ <[k := y]> l = l1 ++ y :: l2.
Proof.
  intros E. exists (take k l), (drop (S k) l). pose proof (lookup_lt_Some _ _ _ E).
  split; [by rewrite take_drop_middle|]. split; [apply delete_take_drop|]. by rewrite insert_take_drop.
Qed.

Lemma do_step_grows e s s' : do_step e s = Ret s' -> grows (conn s) (conn s').
Proof.
  destruct e as [e|t|k]; cbn [do_step].
  - intros (c & H & [= <-])%obind_ret. by apply do_event_grows in H.
  - intros [= <-]. unfold begin_call. destruct (call_test _ _); apply grows_refl.
  - unfold continue_call. destruct (calls s !! k) as [[t g]|]; [|intros [= <-]; apply grows_refl].
    destruct t as [d| | | |]; [intros (c & (d' & _ & [= <-])%obind_ret & [= <-])%obind_ret; by split|..];
      destruct g; intros [= <-]; by split.
Qed.

Lemma do_step_raced e s s' : do_step e s = Ret s' -> raced s' = false -> raced s = false.
Proof.
  destruct e as [e|t|k]; cbn [do_step].
  - by intros (c & _ & [= <-])%obind_ret.
  - intros [= <-]. unfold begin_call. by destruct (call_test _ _).
  - unfold continue_call. destruct (calls s !! k) as [[t g]|]; [|by intros [= <-]].
    destruct t as [d| | | |]; [by intros (c & _ & [= <-])%obind_ret|..]; destruct g; intros [= <-]; try done;
      by intros [? _]%orb_false_elim.
Qed.

(** The invariant of a run: the promised calls count as queued ones. *)
Lemma do_step_inv e s s' :
  Inv (promised (calls s)) (conn s) -> step_enabled e s -> do_step e s = Ret s' -> small (conn s') -> raced s' = false ->
  Inv (promised (calls s')) (conn s').
Proof.
  intros I En H Sm R. destruct e as [e|t|k]; cbn [do_step] in H.
  - apply obind_ret in H as (c & H & [= <-]). by eapply do_event_inv.
  - injection H as <-. unfold begin_call. destruct (call_test _ _); [|done]. cbn [calls conn].
    rewrite promised_app. eapply Inv_mono; [done|]. intros c. rewrite elem_of_app. by left.
  - unfold continue_call in H. destruct (calls s !! k) as [[t g]|] eqn:E; [|by injection H as <-].
    destruct (calls_at k (calls s) (t, g) (t, StateSet) E) as (l1 & l2 & El & Ed & Ei). rewrite Ed, Ei in H.
    rewrite El, promised_app in I. unfold promised at 2 in I. cbn [flat_map] in I. fold (promised l2) in I.
    assert (forall c, Inv (promised l1 ++ c :: promised l2) (conn s) -> Inv (c :: promised (l1 ++ l2)) (conn s)) as Mv.
    { intros c K. eapply Inv_mono; [done|]. intros c'. rewrite promised_app, !elem_of_app, !elem_of_cons, !elem_of_app. tauto. }
    assert (forall c, c = CShutdown \/ c = CForceClose -> raced s || negb (is_open (conn s)) = false ->
      Inv (promised l1 ++ promised l2) (conn s) -> Inv (promised l1 ++ c :: promised l2) (set_state kDisconnecting (conn s))) as Set_.
    { intros c Hc [_ Ho]%orb_false_elim K. apply negb_false_iff in Ho. unfold is_open in Ho. apply orb_prop in Ho.
      rewrite !bool_decide_eq_true in Ho. eapply Inv_mono; [exact (Inv_disconnecting _ c _ K Ho Hc)|].
      intros c'. rewrite elem_of_cons, !elem_of_app, elem_of_cons. tauto. }
    destruct t as [d| | | |].
    + apply obind_ret in H as (c & (d' & _ & [= <-])%obind_ret & [= <-]). cbn [conn calls]. rewrite promised_app. by apply Inv_post.
    + destruct g; injection H as <-; cbn [conn calls raced] in *.
      * rewrite promised_app. apply (Set_ CShutdown); auto.
      * by apply Inv_posted, Mv.
    + destruct g; injection H as <-; cbn [conn calls raced] in *.
      * rewrite promised_app. apply (Set_ CForceClose); auto.
      * by apply Inv_posted, Mv.
    + injection H as <-. cbn [conn calls]. rewrite promised_app. by apply Inv_post.
    + injection H as <-. cbn [conn calls]. rewrite promised_app. by apply Inv_post.
Qed.

Lemma reaches_inv s0 s : Inv [] s0 -> reaches (start s0) s -> small (conn s) -> raced s = false -> Inv (promised (calls s)) (conn s).
Proof.
  intros I R. induction R as [|e s1 s2 R IH En H]; intros Sm Rc; [done|].
  eapply do_step_inv; [|done..]. apply IH; [eapply grows_small; [by eapply do_step_grows|done]|by eapply do_step_raced].
Qed.

Lemma setup_inv fd wc hw s : setup fd wc hw = Ret s -> Inv [] s /\ state_ s = kConnecting.
Proof.
  unfold setup, newConn. destruct (newBuffer_ok kInitialSize) as (b & -> & W & C & _ & _ & L); [done|]. cbn [obind].
  intros [= <-]. assert (zlen (buffer_ b) <= 1032) as Lb by (by rewrite L).
  split; [|by destruct wc, hw].
  destruct wc, hw; constructor; cbn; rewrite ?C; rewrite ?bool_decide_eq_false_2 by (by intros ?);
    (done || (split; [done|by rewrite zlen_nil]) || (by split) || (repeat constructor)).
Qed.

(** ** Properties *)


(** C15. A half close is graceful and is not forgotten: while the connection is
    not [kDisconnected], its write side is shut only if every accepted byte was
    given to the kernel; and a connection that is [kDisconnecting] with nothing
    left to write has shut its write side, or has the call that closes it in the
    loop's queue, or a call of another thread is about to post it. As long as no
    other thread sets [state_] after the loop's thread closed the connection. *)
Theorem shutdown_after_flush fd wc hw s0 s :
  setup fd wc hw = Ret s0 -> reaches (start s0) s -> raced s = false -> small (conn s) ->
  (write_shut (conn s) = true -> state_ (conn s) <> kDisconnected -> wire (conn s) = accepted (conn s)) /\
  (state_ (conn s) = kDisconnecting -> content (outputBuffer_ (conn s)) = [] ->
   write_shut (conn s) = true \/ CShutdown ∈ posted (conn s) \/ CForceClose ∈ posted (conn s) \/
   (TShutdown, StateSet) ∈ calls s \/ (TForceClose, StateSet) ∈ calls s).
Proof.
  intros [I0 _]%setup_inv R Rc Sm. destruct (reaches_inv _ _ I0 R Sm Rc) as [_ _ _ S _ Sh P _ _]. split.
  - intros H1 H2. rewrite (Sh H1 H2), app_nil_r in S. done.
  - intros H1 H2. specialize (P H1 H2). rewrite !elem_of_app, !elem_of_promised in P.
    destruct P as [|[[[[? ?]|[? ?]]|]|[[[? ?]|[? ?]]|]]]; (done || tauto).
Qed.

(** C37. The connection callback is called once when the connection comes up and
    once when it goes down, in that order and in step with the state, and the
    close callback at most once, after the connection went down; as long as no
    other thread sets [state_] after the loop's thread closed the connection. *)
Theorem lifecycle fd wc hw s0 s :
  setup fd wc hw = Ret s0 -> reaches (start s0) s -> raced s = false -> small (conn s) ->
  conn_notes (notes (conn s)) = notes_of (state_ (conn s)) /\
  (closes (notes (conn s)) <= 1)%nat /\ (closes (notes (conn s)) = 1%nat -> state_ (conn s) = kDisconnected).
Proof.
  intros [I0 _]%setup_inv R Rc Sm. destruct (reaches_inv _ _ I0 R Sm Rc) as [_ _ _ _ _ _ _ N C]. split; [done|].
  destruct (decide (state_ (conn s) = kDisconnected)); split; (done || lia).
Qed.

(** [handleWrite] never fails when the socket is writable, and when the
    kernel takes everything the output is flushed, the loop stops watching for
    writability, and a half close that was waiting is done. *)
Theorem handleWrite_flushes fd wc hw s0 sys :
  setup fd wc hw = Ret s0 -> reaches (start s0) sys -> raced sys = false -> small (conn sys) ->
  let s := conn sys in isWriting (channel_ s) = true ->
  exists s', handleWrite true s = Ret s' /\
    (kernel_write s (content (outputBuffer_ s)) = Wrote (zlen (content (outputBuffer_ s))) ->
     wire s' = accepted s /\ content (outputBuffer_ s') = [] /\ isWriting (channel_ s') = false /\
     write_shut s' = bool_decide (state_ s = kDisconnecting)).
Proof.
  intros [I0 _]%setup_inv R Rc Sm s Iw. pose proof (reaches_inv _ _ I0 R Sm Rc) as I. fold s in I.
  pose proof (inv_writing _ _ I) as Wr. rewrite Iw in Wr. case_decide as Ds; [done|]. symmetry in Wr. apply bool_decide_eq_true in Wr.
  assert (write_shut s = false) as Ws by (destruct (write_shut s) eqn:Ws; [destruct Wr; by apply (inv_shut _ _ I)|done]).
  destruct I as [_ [O _] E S _ _ _ _ _].
  unfold handleWrite. cbn [assertInLoopThread]. rewrite Iw.
  pose proof (kernel_write_ok s (content (outputBuffer_ s))) as Kw.
  assert (0 < zlen (content (outputBuffer_ s))) as Pos.
  { destruct (content (outputBuffer_ s)); [done|]. rewrite zlen_cons. zlen_pos. lia. }
  destruct (kernel_write s (content (outputBuffer_ s))) as [n|e]; [|by eexists].
  case_decide as D; [|eexists; split; [done|intros [= ->]; lia]]. cs.
  destruct (retrieve_ok n (outputBuffer_ s) O) as (out & -> & Wo & Co & _); [rewrite <- (content_len _ O); lia|]. cbn [obind].
  set (s1 := set_output out _). assert (isWriting (set_addedToLoop true (apply_op DisableWriting (channel_ s))) = false) as Dw.
  { rewrite writing_added. by destruct (apply_op_reading DisableWriting (channel_ s) E) as [_ ->]. }
  case_decide as De; rewrite (content_nil out Wo) in De.
  2: { eexists. split; [done|]. intros [= ->]. destruct De. rewrite Co. by apply zdrop_all. }
  assert (forall t, wire t = wire s1 -> state_ t = state_ s -> write_shut t = false -> outputBuffer_ t = out ->
    isWriting (channel_ t) = false ->
    exists s', (if decide (state_ t = kDisconnecting) then shutdownInLoop true t else Ret t) = Ret s' /\
     (Wrote n = Wrote (zlen (content (outputBuffer_ s))) ->
      wire s' = accepted s /\ content (outputBuffer_ s') = [] /\ isWriting (channel_ s') = false /\
      write_shut s' = bool_decide (state_ s = kDisconnecting))) as Fin.
  { intros t Tw Ts Tu To Ti. unfold shutdownInLoop. rewrite Ti, Ts.
    assert (n = zlen (content (outputBuffer_ s)) -> wire t = accepted s) as Tw'.
    { intros ->. rewrite Tw. unfold s1. cs. by rewrite ztake_all by lia. }
    case_decide as Dd; eexists; (split; [done|]); intros [= Hn]; cs; rewrite ?To, ?Ti, ?Tu;
      [rewrite bool_decide_eq_true_2 by done|rewrite bool_decide_eq_false_2 by done]; auto. }
  cs. destruct (writeCompleteCallback_ s); apply Fin; done.
Qed.
End Connection.

(** *** Witnesses: a kernel that takes two bytes at a time, and an application
    that sends a greeting and closes. *)

Definition w_write (s : Conn) (d : list byte) : write_result :=
  if write_shut s then WriteError EPIPE else Wrote (Z.min 2 (zlen d)).
Definition w_read (s : Conn) (iov : list Z) : io_result := IoErr EAGAIN.
Definition w_prog (n : note) (s : Conn) : list ucall :=
  match n with NConnection true => [USend (bytes "hello"); UShutdown] | _ => [] end.

Lemma w_write_ok s d : match w_write s d with Wrote n => 0 <= n <= zlen d | WriteError _ => True end.
Proof. unfold w_write. destruct (write_shut s); [done|]. zlen_pos. lia. Qed.
Lemma w_write_shut s d : write_shut s = true -> w_write s d = WriteError EPIPE.
Proof. unfold w_write. by intros ->. Qed.
Lemma w_read_ok s : readv_bounded (w_read s).
Proof. done. Qed.


Lemma shutdown_after_flush_witness : exists s0 s, setup 5 true None = Ret s0 /\
  run_trace w_write w_read w_prog [Loop Establish; Begin TShutdown; Loop Writable; Loop Writable] (start s0) = Ret s /\
  write_shut (conn s) = true /\ wire (conn s) = accepted (conn s).
Proof.
  eexists _, _. split; [vm_compute; reflexivity|]. split; [vm_compute; reflexivity|]. split; [reflexivity|].
  eapply (shutdown_after_flush w_write w_read w_prog w_write_ok w_write_shut w_read_ok 5 true None);
    [vm_compute; reflexivity|eapply (trace_reaches _ _ _ [Loop Establish; Begin TShutdown; Loop Writable; Loop Writable]);
     [apply reaches_refl|vm_compute; reflexivity]|done|by vm_compute|done|done].
Defined.

Lemma lifecycle_witness : exists s0 s, setup 5 true None = Ret s0 /\
  run_trace w_write w_read w_prog [Loop Establish; Begin TForceClose; Continue 0; Continue 0; Loop Posted; Loop Posted] (start s0) = Ret s /\
  conn_notes (notes (conn s)) = [true; false] /\ conn_notes (notes (conn s)) = notes_of (state_ (conn s)).
Proof.
  eexists _, _. split; [vm_compute; reflexivity|]. split; [vm_compute; reflexivity|]. split; [reflexivity|].
  eapply (lifecycle w_write w_read w_prog w_write_ok w_write_shut w_read_ok 5 true None);
    [vm_compute; reflexivity|eapply (trace_reaches _ _ _ [Loop Establish; Begin TForceClose; Continue 0; Continue 0; Loop Posted; Loop Posted]);
     [apply reaches_refl|vm_compute; reflexivity]|done|by vm_compute].
Defined.

Lemma handleWrite_flushes_witness : exists s0 s s', setup 5 true None = Ret s0 /\
  run_trace w_write w_read w_prog [Loop Establish; Loop Writable] (start s0) = Ret s /\
  handleWrite w_write true (conn s) = Ret s' /\ wire s' = accepted (conn s) /\ write_shut s' = true.
Proof.
  eexists _, _. edestruct (handleWrite_flushes w_write w_read w_prog w_write_ok w_write_shut w_read_ok 5 true None) as (s' & E & K);
    [vm_compute; reflexivity|eapply (trace_reaches _ _ _ [Loop Establish; Loop Writable]);
     [apply reaches_refl|vm_compute; reflexivity]|done|by vm_compute|reflexivity|].
  destruct K as (K1 & _ & _ & K4); [reflexivity|]. exists s'. split; [vm_compute; reflexivity|].
  split; [vm_compute; reflexivity|]. split; [exact E|]. split; [exact K1|exact K4].
Defined.

(** The condition of [shutdown_after_flush] is needed: after a partial write, a
    half close that another thread posts and a hang-up before it runs, the write
    side of the closed connection is shut with accepted bytes unwritten. *)
Example hang_up_loses_output : exists s0 s, setup 5 true None = Ret s0 /\
  run_trace w_write w_read (fun _ _ => [])
    [Loop Establish; Loop (User (USend (bytes "hello"))); Begin TShutdown; Continue 0; Continue 0; Loop HangUp; Loop Posted] (start s0) = Ret s /\
  raced s = false /\ state_ (conn s) = kDisconnected /\ write_shut (conn s) = true /\
  wire (conn s) = bytes "he" /\ accepted (conn s) = bytes "hello".
Proof. eexists _, _. split; [vm_compute; reflexivity|]. split; [vm_compute; reflexivity|]. done. Qed.

(** Another thread's [forceClose] that tests [state_] before the peer's hang-up
    and sets it after: [handleClose] runs a second time, and with it the
    connection callback and the close callback. *)
Theorem late_set_closes_twice (kernel_write : Conn -> list byte -> write_result)
    (kernel_read : Conn -> list Z -> io_result) fd wc hw :
  exists s0 s, setup fd wc hw = Ret s0 /\ run_trace kernel_write kernel_read (fun _ _ => [])
      [Loop Establish; Begin TForceClose; Loop HangUp; Continue 0; Continue 0; Loop Posted; Loop Posted] (start s0) = Ret s /\
    raced s = true /\ conn_notes (notes (conn s)) = [true; false; false] /\ closes (notes (conn s)) = 2%nat.
Proof. destruct wc, hw; eexists _, _; (split; [vm_compute; reflexivity|]); (split; [vm_compute; reflexivity|]); done. Qed.

(** A connection whose write side was shut down by the application, and that
    still reads, cannot be destroyed: [connectDestroyed] leaves its channel
    enabled because the state is not [kConnected], and [Channel::remove] asserts
    that it is disabled. [~TcpServer] runs it on every connection that is left. *)
Theorem destroy_half_closed_fails (kernel_write : Conn -> list byte -> write_result)
    (kernel_read : Conn -> list Z -> io_result) (prog : note -> Conn -> list ucall) fd wc hw s0 :
  (forall n s, prog n s = []) -> setup fd wc hw = Ret s0 ->
  exists s, run_trace kernel_write kernel_read prog [Loop Establish; Loop (User UShutdown)] (start s0) = Ret s /\
    state_ (conn s) = kDisconnecting /\ do_step kernel_write kernel_read prog (Loop Destroy) s = Stop AssertFailed.
Proof.
  intros Hp. unfold setup, newConn. destruct (newBuffer_ok kInitialSize) as (b & -> & _); [done|]. cbn [obind].
  intros [= <-]. destruct wc, hw; cbn -[newBuffer]; unfold notify; rewrite Hp; cbn -[newBuffer]; by eexists.
Qed.

Lemma destroy_half_closed_fails_witness : exists s0 s, setup 5 true None = Ret s0 /\
  do_step w_write w_read (fun _ _ => []) (Loop Destroy) s = Stop AssertFailed.
Proof.
  eexists. edestruct (destroy_half_closed_fails w_write w_read (fun _ _ => []) 5 true None) as (s & _ & _ & E);
    [done|vm_compute; reflexivity|]. exists s. split; [vm_compute; reflexivity|exact E].
Defined.
End TcpConnection.
