(* ===== verification/Connector.v ===== *)
(** * Connector (src/muduo/muduo/net/Connector.h, Connector.cc)

    The client's side of connecting: a non-blocking connect, its channel, and
    the retries with a growing delay. What [socket], [connect] and [getsockopt]
    answer are arguments; timers and queued functors are kept in the state and
    run as events. *)

From S2P Require Import Prelude Channel.

Module Connector.

Inductive States := kDisconnected | kConnecting | kConnected.

#[global] Instance States_eq_dec : EqDecision States.
Proof. solve_decision. Defined.

Definition kMaxRetryDelayMs : Z := 30 * 1000.
Definition kInitRetryDelayMs : Z := 500.

(** errno values *)
Definition EPERM : Z := 1.
Definition EINTR : Z := 4.
Definition EBADF : Z := 9.
Definition EAGAIN : Z := 11.
Definition EACCES : Z := 13.
Definition EFAULT : Z := 14.
Definition ENOTSOCK : Z := 88.
Definition EAFNOSUPPORT : Z := 97.
Definition EADDRINUSE : Z := 98.
Definition EADDRNOTAVAIL : Z := 99.
Definition ENETUNREACH : Z := 101.
Definition EISCONN : Z := 106.
Definition ECONNREFUSED : Z := 111.
Definition EALREADY : Z := 114.
Definition EINPROGRESS : Z := 115.

Inductive call := CStartInLoop | CStopInLoop | CResetChannel.

#[global] Instance call_eq_dec : EqDecision call.
Proof. solve_decision. Defined.

Record Connector := mkConnector {
  connect_ : bool;
  state_ : States;
  channel_ : option Channel;
  retryDelayMs_ : Z;
  posted : list call;
  (** delays, in milliseconds, of the timers that will run [startInLoop] *)
  timers : list Z;
  (** for the properties: the sockets opened, closed and given to the callback,
      and the number of retries since the delay was reset *)
  created : list Z;
  closed : list Z;
  given : list Z;
  retries : nat
}.

Definition set_connect v s := mkConnector v (state_ s) (channel_ s) (retryDelayMs_ s) (posted s) (timers s) (created s) (closed s) (given s) (retries s).
Definition set_state v s := mkConnector (connect_ s) v (channel_ s) (retryDelayMs_ s) (posted s) (timers s) (created s) (closed s) (given s) (retries s).
Definition set_channel v s := mkConnector (connect_ s) (state_ s) v (retryDelayMs_ s) (posted s) (timers s) (created s) (closed s) (given s) (retries s).
Definition set_delay v n s := mkConnector (connect_ s) (state_ s) (channel_ s) v (posted s) (timers s) (created s) (closed s) (given s) n.
Definition set_posted v s := mkConnector (connect_ s) (state_ s) (channel_ s) (retryDelayMs_ s) v (timers s) (created s) (closed s) (given s) (retries s).
Definition set_timers v s := mkConnector (connect_ s) (state_ s) (channel_ s) (retryDelayMs_ s) (posted s) v (created s) (closed s) (given s) (retries s).
Definition open fd s := mkConnector (connect_ s) (state_ s) (channel_ s) (retryDelayMs_ s) (posted s) (timers s) (fd :: created s) (closed s) (given s) (retries s).
Definition close fd s := mkConnector (connect_ s) (state_ s) (channel_ s) (retryDelayMs_ s) (posted s) (timers s) (created s) (fd :: closed s) (given s) (retries s).
Definition newConnectionCallback fd s := mkConnector (connect_ s) (state_ s) (channel_ s) (retryDelayMs_ s) (posted s) (timers s) (created s) (closed s) (fd :: given s) (retries s).
Definition post c s := set_posted (posted s ++ [c]) s.

Definition newConnector : Connector :=
  mkConnector false kDisconnected None kInitRetryDelayMs [] [] [] [] [] 0.

(** The destructor's assertion. *)
Definition destroy (s : Connector) : outcome unit :=
  assert* bool_decide (channel_ s = None) in Ret tt.

Section Operations.
Context (kernel_socket : Connector -> Z) (kernel_connect : Connector -> Z -> Z)
        (getSocketError : Connector -> Z -> Z) (isSelfConnect : Connector -> Z -> bool).

Definition retry (sockfd : Z) (s : Connector) : Connector :=
  let s := set_state kDisconnected (close sockfd s) in
  if connect_ s then
    let s := set_timers (timers s ++ [retryDelayMs_ s]) s in
    set_delay (Z.min (i32 (retryDelayMs_ s * 2)) kMaxRetryDelayMs) (S (retries s)) s
  else s.

Definition connecting (sockfd : Z) (s : Connector) : outcome Connector :=
  let s := set_state kConnecting s in
  assert* bool_decide (channel_ s = None) in
  let c := setCallbacks (newChannel sockfd) false true false true in
  Ret (set_channel (Some (set_addedToLoop true (apply_op EnableWriting c))) s).

Definition connect (s : Connector) : outcome Connector :=
  let sockfd := kernel_socket s in
  let s := open sockfd s in
  let savedErrno := kernel_connect s sockfd in
  if decide (savedErrno ∈ [0; EINPROGRESS; EINTR; EISCONN]) then connecting sockfd s
  else if decide (savedErrno ∈ [EAGAIN; EADDRINUSE; EADDRNOTAVAIL; ECONNREFUSED; ENETUNREACH])
  then Ret (retry sockfd s)
  else Ret (close sockfd s).

Definition startInLoop (inLoop : bool) (s : Connector) : outcome Connector :=
  inloop* inLoop in
  assert* bool_decide (state_ s = kDisconnected) in
  if connect_ s then connect s else Ret s.

Definition start (inLoop : bool) (s : Connector) : outcome Connector :=
  let s := set_connect true s in
  if inLoop then startInLoop inLoop s else Ret (post CStartInLoop s).

(** [disableAll] and [remove] on the channel, which is reset by a functor. A null
    [channel_] has no channel to call. *)
Definition removeAndResetChannel (s : Connector) : outcome (Z * Connector) :=
  match channel_ s with
  | None => Stop AssertFailed
  | Some c =>
      let c := set_addedToLoop true (apply_op DisableAll c) in
      assert* isNoneEvent c in
      let s := set_channel (Some (set_addedToLoop false c)) s in
      Ret (fd_ c, post CResetChannel s)
  end.

(** [channel_.reset()], with the assertions of the channel's destructor *)
Definition resetChannel (s : Connector) : outcome Connector :=
  match channel_ s with
  | None => Ret s
  | Some c =>
      assert* negb (eventHandling_ c) in
      assert* negb (addedToLoop_ c) in
      Ret (set_channel None s)
  end.

Definition stopInLoop (inLoop : bool) (s : Connector) : outcome Connector :=
  inloop* inLoop in
  if decide (state_ s = kConnecting) then
    let s := set_state kDisconnected s in
    let* (sockfd, s) := removeAndResetChannel s in
    Ret (retry sockfd s)
  else Ret s.

Definition stop (s : Connector) : Connector := post CStopInLoop (set_connect false s).

Definition restart (inLoop : bool) (s : Connector) : outcome Connector :=
  inloop* inLoop in
  let s := set_state kDisconnected s in
  let s := set_delay kInitRetryDelayMs 0 s in
  let s := set_connect true s in
  startInLoop inLoop s.

Definition handleWrite (s : Connector) : outcome Connector :=
  if decide (state_ s = kConnecting) then
    let* (sockfd, s) := removeAndResetChannel s in
    if decide (getSocketError s sockfd <> 0) then Ret (retry sockfd s)
    else if isSelfConnect s sockfd then Ret (retry sockfd s)
    else
      let s := set_state kConnected s in
      Ret (if connect_ s then newConnectionCallback sockfd s else close sockfd s)
  else
    assert* bool_decide (state_ s = kDisconnected) in Ret s.

Definition handleError (s : Connector) : outcome Connector :=
  if decide (state_ s = kConnecting) then
    let* (sockfd, s) := removeAndResetChannel s in
    Ret (retry sockfd s)
  else Ret s.

(** ** What can happen to a connector *)

Inductive event :=
  | Start (inLoop : bool)
  | StopReq
  | Restart
  | Posted
  | Timer (i : nat)
  (** the channel's events: the error callback and the write callback, in the
      order of [Channel::handleEvent] *)
  | Dispatch (err out : bool).

Definition do_call (c : call) (s : Connector) : outcome Connector :=
  match c with
  | CStartInLoop => startInLoop true s
  | CStopInLoop => stopInLoop true s
  | CResetChannel => resetChannel s
  end.

Definition handling (b : bool) (s : Connector) : Connector :=
  set_channel (option_map (set_eventHandling b) (channel_ s)) s.

Definition do_event (e : event) (s : Connector) : outcome Connector :=
  match e with
  | Start inLoop => start inLoop s
  | StopReq => Ret (stop s)
  | Restart => restart true s
  | Posted => match posted s with [] => Ret s | c :: rest => do_call c (set_posted rest s) end
  | Timer i => startInLoop true (set_timers (delete i (timers s)) s)
  | Dispatch err out =>
      let s := handling true s in
      let* s := (if err then handleError s else Ret s) in
      let* s := (if out then handleWrite s else Ret s) in
      Ret (handling false s)
  end.

(** The loop reports events of a channel that asks for them, and runs a timer
    that is pending, whatever is queued. *)
Definition fires (e : event) (s : Connector) : Prop :=
  match e with
  | Timer i => (i < length (timers s))%nat
  | Dispatch _ _ => match channel_ s with Some c => isNoneEvent c = false | None => False end
  | _ => True
  end.

Inductive reaches (s : Connector) : Connector -> Prop :=
  | reaches_refl : reaches s s
  | reaches_step e s1 s2 : reaches s s1 -> fires e s1 -> do_event e s1 = Ret s2 -> reaches s s2.

(** A run, event by event. *)
#[global] Instance fires_dec e s : Decision (fires e s).
Proof. destruct e; cbn; try apply _. destruct (channel_ s); apply _. Defined.

Fixpoint run_trace (es : list event) (s : Connector) : outcome Connector :=
  match es with
  | [] => Ret s
  | e :: es => assert* bool_decide (fires e s) in let* s := do_event e s in run_trace es s
  end.

Lemma connector_trace_reaches es s0 s s' : reaches s0 s -> run_trace es s = Ret s' -> reaches s0 s'.
Proof.
  revert s. induction es as [|e es IH]; intros s R H; cbn [run_trace] in H; [by injection H as <-|].
  apply check_ret in H as [En H]. apply bool_decide_eq_true in En. apply obind_ret in H as (s1 & H1 & H).
  eapply IH; [|exact H]. by eapply reaches_step.
Qed.

(** ** Sockets and delays, for every run *)

(** The socket a registered channel holds. *)
Definition held (s : Connector) : list Z :=
  match channel_ s with Some c => if addedToLoop_ c then [fd_ c] else [] | None => [] end.

Definition backoff (k : nat) : Z := Z.min (kInitRetryDelayMs * 2 ^ Z.of_nat k) kMaxRetryDelayMs.

Record Acc (s : Connector) : Prop := mkAcc {
  acc_sockets : created s ≡ₚ closed s ++ given s ++ held s;
  acc_connecting : state_ s = kConnecting -> exists c, channel_ s = Some c /\ addedToLoop_ c = true;
  acc_delay : retryDelayMs_ s = backoff (retries s);
  acc_timers : Forall (fun d => exists k, d = backoff k) (timers s)
}.

Ltac cs := cbn [connect_ state_ channel_ retryDelayMs_ posted timers created closed given retries set_connect set_state
  set_channel set_delay set_posted set_timers open close newConnectionCallback post] in *.

Lemma backoff_S k : Z.min (i32 (backoff k * 2)) kMaxRetryDelayMs = backoff (S k).
Proof.
  assert (0 <= backoff k <= 30000) as B.
  { unfold backoff, kInitRetryDelayMs, kMaxRetryDelayMs. pose proof (Z.pow_pos_nonneg 2 (Z.of_nat k)). lia. }
  rewrite swrap_small by lia. unfold backoff, kInitRetryDelayMs, kMaxRetryDelayMs.
  rewrite Nat2Z.inj_succ, Z.pow_succ_r by lia. lia.
Qed.

(** [retry] closes a socket that nothing else accounts for. *)
Lemma retry_acc fd s :
  created s ≡ₚ fd :: closed s ++ given s ++ held s -> retryDelayMs_ s = backoff (retries s) ->
  Forall (fun d => exists k, d = backoff k) (timers s) -> Acc (retry fd s).
Proof.
  intros P D T. unfold retry. cs. destruct (connect_ s); constructor; cs; try done.
  - rewrite D. apply backoff_S.
  - apply Forall_app. split; [done|]. constructor; [by eexists|done].
Qed.

Lemma removeAndResetChannel_acc s fd s' :
  Acc s -> state_ s = kConnecting -> removeAndResetChannel s = Ret (fd, s') ->
  created s' ≡ₚ fd :: closed s' ++ given s' ++ held s' /\ held s' = [] /\
  retryDelayMs_ s' = backoff (retries s') /\ Forall (fun d => exists k, d = backoff k) (timers s').
Proof.
  intros [A C D T] K H. destruct (C K) as (c & Hc & Ac). unfold removeAndResetChannel in H. rewrite Hc in H.
  apply check_ret in H as [_ [= <- <-]]. unfold held in *. rewrite Hc, Ac in A. cs. cbn. split_and!; try done.
  rewrite A. rewrite app_nil_r, app_assoc, Permutation_app_comm. done.
Qed.

Lemma connect_acc s s' : Acc s -> state_ s = kDisconnected -> connect s = Ret s' -> Acc s'.
Proof.
  intros [A C D T] K H. unfold connect in H. set (fd := kernel_socket s) in H.
  assert (created (open fd s) ≡ₚ fd :: closed s ++ given s ++ held s) as P by (cs; by rewrite A).
  case_decide as D1; [|case_decide as D2].
  - unfold connecting in H. cs. apply check_ret in H as [N [= <-]]. apply bool_decide_eq_true in N.
    constructor; cs; try done; [|by eexists].
    rewrite A. unfold held at 1. rewrite N, app_nil_r. cbn. rewrite app_assoc, (Permutation_app_comm _ [_]). done.
  - injection H as <-. by apply retry_acc.
  - injection H as <-. by constructor.
Qed.

Lemma startInLoop_acc s s' : Acc s -> startInLoop true s = Ret s' -> Acc s'.
Proof.
  intros A H. unfold startInLoop in H. cbn [assertInLoopThread] in H. apply check_ret in H as [K H].
  apply bool_decide_eq_true in K. destruct (connect_ s); [by eapply connect_acc|by injection H as <-].
Qed.

Lemma stopInLoop_acc s s' : Acc s -> stopInLoop true s = Ret s' -> Acc s'.
Proof.
  intros A H. unfold stopInLoop in H. cbn [assertInLoopThread] in H. case_decide as K; [|by injection H as <-].
  apply obind_ret in H as ([fd s1] & H & [= <-]).
  destruct (removeAndResetChannel s) as [[fd' s2]|] eqn:E.
  2: { unfold removeAndResetChannel in *. cs. by destruct (channel_ s); [destruct (check _ _) in *|]. }
  destruct (removeAndResetChannel_acc s fd' s2 A K E) as (P & _ & D & T).
  assert (fd = fd' /\ s1 = set_state kDisconnected s2) as [-> ->].
  { unfold removeAndResetChannel in *. cs. destruct (channel_ s); [|done].
    apply check_ret in H as [_ [= <- <-]]. apply check_ret in E as [_ [= <- <-]]. done. }
  by apply retry_acc.
Qed.

Lemma handleError_acc s s' : Acc s -> handleError s = Ret s' -> Acc s'.
Proof.
  intros A H. unfold handleError in H. case_decide as K; [|by injection H as <-].
  apply obind_ret in H as ([fd s1] & H & [= <-]).
  destruct (removeAndResetChannel_acc s fd s1 A K H) as (P & _ & D & T). by apply retry_acc.
Qed.

Lemma handleWrite_acc s s' : Acc s -> handleWrite s = Ret s' -> Acc s'.
Proof.
  intros A H. unfold handleWrite in H. case_decide as K; [|by apply check_ret in H as [_ [= <-]]].
  apply obind_ret in H as ([fd s1] & H & E).
  destruct (removeAndResetChannel_acc s fd s1 A K H) as (P & _ & D & T).
  case_decide; [injection E as <-; by apply retry_acc|].
  destruct (isSelfConnect s1 fd); [injection E as <-; by apply retry_acc|].
  injection E as <-. cs. destruct (connect_ s1); constructor; cs; try done. rewrite P. by rewrite Permutation_middle.
Qed.

Lemma handling_acc b s : Acc s -> Acc (handling b s).
Proof.
  intros [A C D T]. unfold handling. constructor; cs; try done.
  - unfold held in *. cs. destruct (channel_ s) as [c|]; [|done]. cbn. exact A.
  - intros K. destruct (C K) as (c & -> & Ac). by eexists.
Qed.

Lemma do_event_acc e s s' : Acc s -> do_event e s = Ret s' -> Acc s'.
Proof.
  intros A H. destruct e as [inLoop| | | |i|err out]; cbn [do_event] in H.
  - unfold start in H. assert (Acc (set_connect true s)) as A1 by (destruct A; by constructor).
    destruct inLoop; [by eapply startInLoop_acc|]. injection H as <-. destruct A1. by constructor.
  - injection H as <-. destruct A. by constructor.
  - unfold restart in H. cbn [assertInLoopThread] in H. eapply startInLoop_acc; [|exact H].
    destruct A. constructor; cs; try done.
  - destruct (posted s) as [|c rest]; [by injection H as <-|].
    assert (Acc (set_posted rest s)) as A1 by (destruct A; by constructor).
    destruct c; cbn [do_call] in H; [by eapply startInLoop_acc|by eapply stopInLoop_acc|].
    unfold resetChannel in H. cs. destruct (channel_ s) as [c|] eqn:Hc; [|by injection H as <-].
    apply check_ret in H as [_ H]. apply check_ret in H as [Na [= <-]]. apply negb_true_iff in Na.
    destruct A as [A C D T]. unfold held in *. rewrite Hc, Na in A. constructor; cs; try done.
    intros K. destruct (C K) as (c' & E & ?). congruence.
  - eapply startInLoop_acc; [|exact H]. destruct A as [A C D T]. constructor; cs; try done.
    rewrite delete_take_drop. apply Forall_app. split; [by apply Forall_take|by apply Forall_drop].
  - apply obind_ret in H as (s1 & H1 & H). apply obind_ret in H as (s2 & H2 & [= <-]).
    apply handling_acc. assert (Acc s1) as A1.
    { destruct err; [|injection H1 as <-; by apply handling_acc]. eapply handleError_acc; [|exact H1]. by apply handling_acc. }
    destruct out; [by eapply handleWrite_acc|by injection H2 as <-].
Qed.

Lemma reaches_acc s : reaches newConnector s -> Acc s.
Proof.
  intros R. induction R; [|by eapply do_event_acc].
  by constructor.
Qed.

(** Whatever the application asks for and the kernel answers, every socket the
    connector opened was closed once, was given to the new-connection callback
    once, or is the one its registered channel holds. *)
Theorem sockets_accounted s :
  reaches newConnector s -> created s ≡ₚ closed s ++ given s ++ held s.
Proof. intros R%reaches_acc. apply acc_sockets, R. Qed.

(** The delays of the retries double from half a second and stop at thirty:
    after [k] retries since the last (re)start the next one waits
    min(500 * 2^k, 30000) milliseconds, and every timer that is pending was
    armed with such a delay. *)
Theorem retry_backoff s :
  reaches newConnector s ->
  retryDelayMs_ s = Z.min (kInitRetryDelayMs * 2 ^ Z.of_nat (retries s)) kMaxRetryDelayMs /\
  Forall (fun d => kInitRetryDelayMs <= d <= kMaxRetryDelayMs) (timers s).
Proof.
  intros R%reaches_acc. split; [apply acc_delay, R|].
  eapply Forall_impl; [apply acc_timers, R|]. intros d (k & ->). unfold backoff, kInitRetryDelayMs, kMaxRetryDelayMs.
  pose proof (Z.pow_pos_nonneg 2 (Z.of_nat k)). lia.
Qed.

(** ** Runs without a failed assertion *)

(** How a connector is meant to be used: it is started when idle and restarted
    when its connection was given away, and a retry timer, of half a second at
    least, comes after the iteration of the loop in which [resetChannel] was
    queued. The code does not enforce the last point (a handler that blocks for
    longer than the delay breaks it): [early_timer_asserts]. *)
Definition proper (e : event) (s : Connector) : Prop :=
  match e with
  | Start _ => state_ s = kDisconnected /\ timers s = [] /\ posted s = []
  | Restart => state_ s = kConnected /\ CResetChannel ∉ posted s
  | Timer _ => CResetChannel ∉ posted s
  | _ => True
  end.

Inductive reaches_properly (s : Connector) : Connector -> Prop :=
  | properly_refl : reaches_properly s s
  | properly_step e s1 s2 : reaches_properly s s1 -> fires e s1 -> proper e s1 -> do_event e s1 = Ret s2 ->
      reaches_properly s s2.

#[global] Instance proper_dec e s : Decision (proper e s).
Proof. destruct e; cbn; apply _. Defined.

Fixpoint run_properly (es : list event) (s : Connector) : outcome Connector :=
  match es with
  | [] => Ret s
  | e :: es => assert* bool_decide (fires e s /\ proper e s) in let* s := do_event e s in run_properly es s
  end.

Lemma trace_reaches_properly es s0 s s' : reaches_properly s0 s -> run_properly es s = Ret s' -> reaches_properly s0 s'.
Proof.
  revert s. induction es as [|e es IH]; intros s R H; cbn [run_properly] in H; [by injection H as <-|].
  apply check_ret in H as [En H]. apply bool_decide_eq_true in En as [F P]. apply obind_ret in H as (s1 & H1 & H).
  eapply IH; [|exact H]. by eapply properly_step.
Qed.

Definition resets (s : Connector) : nat := count_occ call_eq_dec (posted s) CResetChannel.
Definition starts (s : Connector) : nat := (count_occ call_eq_dec (posted s) CStartInLoop + length (timers s))%nat.

(** [h] is whether the channel is inside [handleEvent]. *)
Record Safe (h : bool) (s : Connector) : Prop := mkSafe {
  safe_channel : match channel_ s with
    | Some c => eventHandling_ c = h /\
        (if addedToLoop_ c then state_ s = kConnecting /\ resets s = 0%nat
         else state_ s <> kConnecting /\ resets s = 1%nat /\ isNoneEvent c = true)
    | None => state_ s <> kConnecting /\ resets s = 0%nat
    end;
  safe_starts : (starts s <= if decide (state_ s = kDisconnected) then 1 else 0)%nat;
  (** a queued start finds no channel *)
  safe_queue : CStartInLoop ∈ posted s -> channel_ s = None
}.

(** After [removeAndResetChannel], whatever state is set next. *)
Definition Removed (h : bool) (s : Connector) : Prop :=
  (exists c, channel_ s = Some c /\ eventHandling_ c = h /\ addedToLoop_ c = false /\ isNoneEvent c = true) /\
  resets s = 1%nat /\ starts s = 0%nat.

Lemma in_starts s : CStartInLoop ∈ posted s -> (0 < starts s)%nat.
Proof.
  intros H. unfold starts. apply list_elem_of_In in H.
  apply (proj1 (count_occ_In call_eq_dec _ _)) in H. lia.
Qed.

Lemma removed_safe h st s : Removed h s -> st <> kConnecting -> Safe h (set_state st s).
Proof.
  intros ((c & Hc & Eh & Na & Nn) & R & S0) K. constructor; cs.
  - rewrite Hc, Na. by split_and!.
  - change (starts (set_state st s)) with (starts s). lia.
  - intros I%in_starts. lia.
Qed.

Lemma removed_state h st s : Removed h s -> Removed h (set_state st s).
Proof. done. Qed.

Lemma retry_safe h fd s : Removed h s -> Safe h (retry fd s).
Proof.
  intros R. unfold retry. cs. destruct (connect_ s); [|by apply (removed_safe h kDisconnected (close fd s))].
  destruct R as ((c & Hc & Eh & Na & Nn) & R & S0). constructor; cs.
  - rewrite Hc, Na. by split_and!.
  - unfold starts in *. cs. rewrite length_app, decide_True by done. cbn. lia.
  - intros I. apply in_starts in I. lia.
Qed.

Lemma removeAndResetChannel_safe h s :
  Safe h s -> state_ s = kConnecting ->
  exists fd s', (forall st, removeAndResetChannel (set_state st s) = Ret (fd, set_state st s')) /\
    removeAndResetChannel s = Ret (fd, s') /\ Removed h s' /\ connect_ s' = connect_ s.
Proof.
  intros [C S0 Q] K. rewrite K in *. unfold removeAndResetChannel. cs.
  destruct (channel_ s) as [c|] eqn:Hc; [|by destruct C].
  destruct C as [Eh C]. destruct (addedToLoop_ c) eqn:Ac; [|by destruct C]. destruct C as [_ R].
  eexists (fd_ c), (post CResetChannel (set_channel (Some (set_addedToLoop false (set_addedToLoop true (apply_op DisableAll c)))) s)).
  split; [done|]. split; [done|]. split; [|done].
  unfold Removed, resets, starts in *. cs. rewrite !count_occ_app. cbn. split_and!; [by eexists|lia|].
  rewrite decide_False in S0 by done. lia.
Qed.

Lemma connect_safe s :
  Safe false s -> state_ s = kDisconnected -> channel_ s = None -> starts s = 0%nat ->
  exists s', connect s = Ret s' /\ Safe false s'.
Proof.
  intros [C _ Q] K N Z0. rewrite N in C. destruct C as [_ R]. unfold connect. set (fd := kernel_socket s).
  assert (forall I : Prop, CStartInLoop ∈ posted s -> I) as NI by (intros ? I%in_starts; lia).
  case_decide; [|case_decide].
  - unfold connecting. cs. rewrite N. rewrite check_true by done. eexists. split; [reflexivity|].
    constructor; cs; [split_and!; [done|]; cbn; done| |by apply NI].
    unfold starts in *. cs. rewrite decide_False by done. lia.
  - eexists. split; [reflexivity|]. unfold retry. cs. destruct (connect_ s); constructor; cs; rewrite ?N; try done.
    + unfold starts in *. cs. rewrite length_app, decide_True by done. cbn. lia.
    + unfold starts in *. cs. rewrite decide_True by done. lia.
  - eexists. split; [reflexivity|]. constructor; cs; rewrite ?N, ?K; try done.
    unfold starts in *. cs. lia.
Qed.

(** A start that is not queued any more. *)
Lemma startInLoop_safe s :
  Safe false s -> state_ s = kDisconnected -> channel_ s = None -> starts s = 0%nat ->
  exists s', startInLoop true s = Ret s' /\ Safe false s'.
Proof.
  intros A K N Z0. unfold startInLoop. cbn [assertInLoopThread]. rewrite K, check_true by done.
  destruct (connect_ s); [by apply connect_safe|by eexists].
Qed.

Lemma stopInLoop_safe s : Safe false s -> exists s', stopInLoop true s = Ret s' /\ Safe false s'.
Proof.
  intros A. unfold stopInLoop. cbn [assertInLoopThread]. case_decide as K; [|by eexists].
  destruct (removeAndResetChannel_safe false s A K) as (fd & s1 & E & _ & R & _). rewrite E. cbn [obind].
  eexists. split; [reflexivity|]. by apply retry_safe.
Qed.

Lemma handleError_safe h s :
  Safe h s -> exists s', handleError s = Ret s' /\ Safe h s' /\ (state_ s = kConnecting -> state_ s' = kDisconnected) /\
    (state_ s <> kConnecting -> s' = s).
Proof.
  intros A. unfold handleError. case_decide as K; [|by eexists].
  destruct (removeAndResetChannel_safe h s A K) as (fd & s1 & _ & E & R & _). rewrite E. cbn [obind].
  eexists. split; [reflexivity|]. split; [by apply retry_safe|]. split; [|done].
  intros _. unfold retry. cs. by destruct (connect_ s1).
Qed.

Lemma handleWrite_safe h s :
  Safe h s -> state_ s <> kConnected -> exists s', handleWrite s = Ret s' /\ Safe h s'.
Proof.
  intros A N. unfold handleWrite. case_decide as K.
  - destruct (removeAndResetChannel_safe h s A K) as (fd & s1 & _ & E & R & _). rewrite E. cbn [obind].
    case_decide; [eexists; split; [reflexivity|by apply retry_safe]|].
    destruct (isSelfConnect s1 fd); [eexists; split; [reflexivity|by apply retry_safe]|].
    eexists. split; [reflexivity|]. cs. destruct (connect_ s1).
    + by apply (removed_safe h kConnected (newConnectionCallback fd s1)).
    + by apply (removed_safe h kConnected (close fd s1)).
  - rewrite check_true; [by eexists|]. apply bool_decide_eq_true. by destruct (state_ s).
Qed.

Lemma handling_safe b h s : Safe h s -> Safe b (handling b s).
Proof.
  intros [C S0 Q]. unfold handling. constructor; cs; [|done|].
  - destruct (channel_ s) as [c|]; [|done]. cbn. split; [done|]. by destruct C as [_ C].
  - intros I. by rewrite Q.
Qed.


Lemma no_reset_no_channel h s : Safe h s -> state_ s <> kConnecting -> resets s = 0%nat -> channel_ s = None.
Proof.
  intros [C _ _] K R. destruct (channel_ s) as [c|]; [|done]. destruct C as [_ C].
  destruct (addedToLoop_ c); [by destruct C|]. destruct C as (_ & R' & _). congruence.
Qed.

Lemma started_disconnected h s : Safe h s -> (0 < starts s)%nat -> state_ s = kDisconnected /\ starts s = 1%nat.
Proof. intros [_ S0 _] P. destruct (decide (state_ s = kDisconnected)); [split; [done|]|]; lia. Qed.

Lemma run_call_safe c rest s :
  Safe false s -> posted s = c :: rest -> exists s', do_call c (set_posted rest s) = Ret s' /\ Safe false s'.
Proof.
  intros A P. destruct (decide (c = CStartInLoop)) as [-> | N].
  - destruct (started_disconnected false s A) as [K S1]; [apply in_starts; rewrite P; by left|].
    pose proof (safe_queue _ _ A) as Q. rewrite P in Q. specialize (Q ltac:(by left)).
    pose proof (safe_channel _ _ A) as C. rewrite Q in C. destruct C as [_ R].
    assert (starts (set_posted rest s) = 0%nat) as S0.
    { unfold starts in *. rewrite P in S1. cbn in S1. cs. lia. }
    apply startInLoop_safe; [|done|done|done]. constructor; cs; [|lia|done].
    rewrite Q. split; [by rewrite K|]. unfold resets in *. rewrite P in R. exact R.
  - assert (starts (set_posted rest s) = starts s) as S0.
    { unfold starts. cs. rewrite P. cbn. by destruct (call_eq_dec c CStartInLoop). }
    destruct A as [C S1 Q]. unfold resets in C. rewrite P in C, Q. cbn [count_occ] in C.
    destruct c; [done| |]; cbn [do_call]; destruct (call_eq_dec _ CResetChannel) as [Er|Er]; try done.
    + apply stopInLoop_safe. constructor; cs; [exact C|by rewrite S0|]. intros I. apply Q. by right.
    + unfold resetChannel. cs. destruct (channel_ s) as [c|] eqn:Hc; [|by destruct C].
      destruct C as [Eh C]. destruct (addedToLoop_ c) eqn:Ac; [by destruct C|]. destruct C as (K & R & _).
      rewrite Eh, check_true, check_true by done. eexists. split; [reflexivity|].
      constructor; cs; [|by rewrite <- S0 in S1|done]. split; [done|]. unfold resets. cs. lia.
Qed.

Lemma do_event_safe e s :
  Safe false s -> fires e s -> proper e s -> exists s', do_event e s = Ret s' /\ Safe false s'.
Proof.
  intros A F P. destruct e as [inLoop| | | |i|err out]; cbn [do_event fires proper] in *.
  - destruct P as (K & T & Po).
    assert (channel_ s = None) as N.
    { eapply no_reset_no_channel; [exact A|by rewrite K|]. unfold resets. by rewrite Po. }
    unfold start. assert (starts s = 0%nat) as Z0 by (unfold starts; by rewrite T, Po).
    assert (Safe false (set_connect true s)) as A1 by (by destruct A).
    destruct inLoop; [by apply startInLoop_safe|]. eexists. split; [reflexivity|]. constructor; cs.
    + rewrite N. split; [by rewrite K|]. unfold resets. cs. by rewrite Po.
    + unfold starts. cs. rewrite K, T, Po, decide_True by done. cbn. lia.
    + done.
  - eexists. split; [reflexivity|]. destruct A as [C S0 Q]. unfold stop.
    constructor; cs; unfold resets, starts in *; cs; rewrite ?count_occ_app; cbn [count_occ].
    + destruct (call_eq_dec CStopInLoop CResetChannel); [done|]. by rewrite Nat.add_0_r.
    + destruct (call_eq_dec CStopInLoop CStartInLoop); [done|]. by rewrite Nat.add_0_r.
    + intros I. apply Q. apply elem_of_app in I as [I|I]; [done|]. by apply list_elem_of_singleton in I.
  - destruct P as [K NR]. assert (resets s = 0%nat) as R.
    { apply count_occ_not_In. by rewrite <- list_elem_of_In. }
    assert (channel_ s = None) as N by (eapply no_reset_no_channel; [exact A|by rewrite K|done]).
    pose proof (safe_starts _ _ A) as S0. rewrite decide_False in S0 by (by rewrite K).
    unfold restart. cbn [assertInLoopThread]. apply startInLoop_safe; [|done|done|unfold starts in *; cs; lia].
    constructor; cs; [by rewrite N|unfold starts in *; cs; lia|done].
  - destruct (posted s) as [|c rest] eqn:Hp; [by eexists|]. by apply run_call_safe.
  - destruct (started_disconnected false s A) as [K S1]; [unfold starts; lia|].
    assert (resets s = 0%nat) as R0 by (apply count_occ_not_In; by rewrite <- list_elem_of_In).
    assert (channel_ s = None) as N by (eapply no_reset_no_channel; [exact A|by rewrite K|done]).
    assert (starts (set_timers (delete i (timers s)) s) = 0%nat) as Z0.
    { unfold starts in *. cs. rewrite length_delete by (by apply lookup_lt_is_Some). lia. }
    apply startInLoop_safe; [|done|done|done]. destruct A as [C S0 Q]. rewrite N in C.
    constructor; cs; [by rewrite N|lia|done].
  - destruct (channel_ s) as [c|] eqn:Hc; [|done].
    assert (state_ s = kConnecting) as K.
    { pose proof (safe_channel _ _ A) as C. rewrite Hc in C. destruct C as [_ C].
      destruct (addedToLoop_ c); [by destruct C|]. destruct C as (_ & _ & C). congruence. }
    pose proof (handling_safe true false s A) as A1.
    assert (exists s1, (if err then handleError (handling true s) else Ret (handling true s)) = Ret s1 /\
      Safe true s1 /\ state_ s1 <> kConnected) as (s1 & E1 & A2 & K1).
    { destruct err; [|eexists; split; [done|split; [done|]]; change (state_ s <> kConnected); by rewrite K].
      destruct (handleError_safe true _ A1) as (s1 & E & A2 & D & _). exists s1. split_and!; [done|done|].
      by rewrite D. }
    rewrite E1. cbn [obind].
    assert (exists s2, (if out then handleWrite s1 else Ret s1) = Ret s2 /\ Safe true s2) as (s2 & E2 & A3).
    { destruct out; [by apply handleWrite_safe|by eexists]. }
    rewrite E2. cbn [obind]. eexists. split; [reflexivity|]. by eapply handling_safe.
Qed.

(** C17. A connector that is started when idle (no retry pending, nothing queued)
    and restarted when its connection was given away, and whose retry timers do not
    fire while a [resetChannel] is queued, never fails an assertion: every such
    event the loop delivers in a state it can reach returns, for every behaviour of
    the kernel and any stops in between; and when no functor is left over and it is
    not connecting, its channel is gone, so that it can be destroyed. *)
Theorem connector_safe s e :
  reaches_properly newConnector s -> fires e s -> proper e s ->
  (exists s', do_event e s = Ret s') /\
  (posted s = [] -> state_ s <> kConnecting -> destroy s = Ret tt).
Proof.
  intros R F P. assert (Safe false s) as A.
  { clear F P. induction R as [|e' s1 s2 R IH F P E]; [constructor; [done|apply Nat.le_0_l|done]|].
    destruct (do_event_safe e' s1 IH F P) as (s2' & E' & A). congruence. }
  split; [destruct (do_event_safe e s A F P) as (s' & E & _); by exists s'|].
  intros Hp K. unfold destroy. rewrite (no_reset_no_channel false s A K); [done|].
  unfold resets. by rewrite Hp.
Qed.

End Operations.

(** *** Witnesses: a server that refuses the first connection and accepts the
    others. *)

Definition w_socket (s : Connector) : Z := 3 + zlen (created s).
Definition w_connect (s : Connector) (fd : Z) : Z := if decide (fd = 3) then ECONNREFUSED else EINPROGRESS.
Definition w_error (s : Connector) (fd : Z) : Z := 0.
Definition w_self (s : Connector) (fd : Z) : bool := false.
Definition w_trace := run_trace w_socket w_connect w_error w_self.

Lemma sockets_accounted_witness : exists s, w_trace [Start true; Timer 0; Dispatch false true; Posted] newConnector = Ret s /\
  closed s = [3] /\ given s = [4] /\ created s ≡ₚ closed s ++ given s ++ held s.
Proof.
  eexists. split; [vm_compute; reflexivity|]. split; [vm_compute; reflexivity|]. split; [vm_compute; reflexivity|].
  apply (sockets_accounted w_socket w_connect w_error w_self).
  eapply (connector_trace_reaches _ _ _ _ [Start true; Timer 0; Dispatch false true; Posted]); [apply reaches_refl|vm_compute; reflexivity].
Defined.

Lemma retry_backoff_witness : exists s, w_trace [Start true] newConnector = Ret s /\ timers s = [500] /\
  retryDelayMs_ s = Z.min (kInitRetryDelayMs * 2 ^ Z.of_nat (retries s)) kMaxRetryDelayMs.
Proof.
  eexists. split; [vm_compute; reflexivity|]. split; [vm_compute; reflexivity|].
  apply (retry_backoff w_socket w_connect w_error w_self).
  eapply (connector_trace_reaches _ _ _ _ [Start true]); [apply reaches_refl|vm_compute; reflexivity].
Defined.

Lemma connector_safe_witness : exists s, w_trace [Start true; StopReq; Posted] newConnector = Ret s /\
  exists s', do_event w_socket w_connect w_error w_self (Timer 0) s = Ret s'.
Proof.
  eexists. split; [vm_compute; reflexivity|].
  eapply (connector_safe w_socket w_connect w_error w_self).
  - eapply (trace_reaches_properly _ _ _ _ [Start true; StopReq; Posted]); [apply properly_refl|vm_compute; reflexivity].
  - cbn. lia.
  - by intros ?%elem_of_nil.
Defined.

(** Stopping does not cancel the timer of a retry: a connector that was
    refused, is stopped and then started again while the timer is pending
    connects, and when the timer fires [startInLoop] fails its assertion that the
    state is kDisconnected. *)
Theorem stale_retry_asserts : exists s,
  w_trace [Start true; StopReq; Posted; Start true] newConnector = Ret s /\ fires (Timer 0) s /\
  do_event w_socket w_connect w_error w_self (Timer 0) s = Stop AssertFailed.
Proof.
  eexists. split; [vm_compute; reflexivity|]. split; [cbn; lia|vm_compute; reflexivity].
Qed.

(** A retry timer that fires in the iteration in which the channel of the failed
    attempt is still to be reset, because a handler of that iteration took longer
    than the delay or the clock was set: [connecting] fails [assert(!channel_)]. *)
Example early_timer_asserts : exists s,
  w_trace [Start true; Timer 0; Dispatch true false] newConnector = Ret s /\ fires (Timer 0) s /\ posted s = [CResetChannel] /\
  do_event w_socket w_connect w_error w_self (Timer 0) s = Stop AssertFailed.
Proof. eexists. split; [vm_compute; reflexivity|]. split; [cbn; lia|]. by vm_compute. Qed.
End Connector.
