(* ===== verification/TcpClient.v ===== *)
(** * TcpClient (src/muduo/muduo/net/TcpClient.h, TcpClient.cc)

    A [Connector] and the connection it gave: the client as it composes them in its
    loop. The connector is the model of [Connector]; a connection is the calls
    [connectEstablished] and [connectDestroyed] it receives, and the one call of its
    close callback. The connector is held by the client, by its retry timers and, for
    a second after a client without a connection was destroyed, by a timer of its
    destructor; when the last of these goes, [~Connector] runs. The functors the
    connector has queued hold a plain pointer to it. *)

From S2P Require Import Prelude Format StdMap Channel Connector.

Module Client.

Record conn := mkConn { cname : list byte; csock : Z }.
#[export] Instance conn_eq_dec : EqDecision conn.
Proof. solve_decision. Defined.

Record TcpClient := mkClient {
  connector_ : Connector.Connector;
  name_ : list byte;
  retry_ : bool;
  connect_ : bool;
  nextConnId_ : Z;
  connection_ : option conn;
  (** whether the object is alive; a connection it left behind *)
  alive : bool;
  (** whether the connector is alive, and whether the timer of the destructor that
      holds it is pending *)
  kalive : bool;
  hack : bool;
  orphan : option conn;
  (** functors queued in the loop: [connectDestroyed] *)
  queue : list conn;
  (** for the properties: the connections established, closed and destroyed, and
      the calls of [shutdown] and [forceClose] *)
  established : list conn;
  closed : list conn;
  destroyed : list conn;
  shutdowns : list conn;
  forced : list conn
}.

Definition newClient (name : list byte) : TcpClient :=
  mkClient Connector.newConnector name false true 1 None true true false None [] [] [] [] [] [].

Definition set_connector c s := mkClient c (name_ s) (retry_ s) (connect_ s) (nextConnId_ s) (connection_ s) (alive s) (kalive s) (hack s) (orphan s)
  (queue s) (established s) (closed s) (destroyed s) (shutdowns s) (forced s).
Definition set_connect b s := mkClient (connector_ s) (name_ s) (retry_ s) b (nextConnId_ s) (connection_ s) (alive s) (kalive s) (hack s) (orphan s)
  (queue s) (established s) (closed s) (destroyed s) (shutdowns s) (forced s).
Definition enableRetry s := mkClient (connector_ s) (name_ s) true (connect_ s) (nextConnId_ s) (connection_ s) (alive s) (kalive s) (hack s) (orphan s)
  (queue s) (established s) (closed s) (destroyed s) (shutdowns s) (forced s).

Section Client.
Context (kernel_socket : Connector.Connector -> Z) (kernel_connect : Connector.Connector -> Z -> Z)
        (getSocketError : Connector.Connector -> Z -> Z) (isSelfConnect : Connector.Connector -> Z -> bool).
(** [toIpPort] of the peer of a socket *)
Context (peer : Z -> list byte).

Definition connect (inLoop : bool) (s : TcpClient) : outcome TcpClient :=
  let s := set_connect true s in
  let* c := Connector.start kernel_socket kernel_connect inLoop (connector_ s) in
  Ret (set_connector c s).

Definition disconnect (s : TcpClient) : TcpClient :=
  let s := set_connect false s in
  match connection_ s with
  | Some c => mkClient (connector_ s) (name_ s) (retry_ s) (connect_ s) (nextConnId_ s) (connection_ s) (alive s) (kalive s) (hack s) (orphan s)
                (queue s) (established s) (closed s) (destroyed s) (shutdowns s ++ [c]) (forced s)
  | None => s
  end.

Definition stop (s : TcpClient) : TcpClient := set_connector (Connector.stop (connector_ s)) (set_connect false s).

Definition conn_name (s : TcpClient) (id fd : Z) : list byte :=
  name_ s ++ snprintf 32 (bytes ":" ++ peer fd ++ bytes "#" ++ fmt_d id).

(** The socket the connector gave to its callback in the last event, if it did. *)
Definition given_by (before after : list Z) : option Z :=
  if decide (before = after) then None else head after.

(** A connector that has outlived its client calls into a dead object. *)
Definition newConnection (inLoop : bool) (sockfd : Z) (s : TcpClient) : outcome TcpClient :=
  if alive s then
    inloop* inLoop in
    let c := mkConn (conn_name s (nextConnId_ s) sockfd) sockfd in
    Ret (mkClient (connector_ s) (name_ s) (retry_ s) (connect_ s) (i32 (nextConnId_ s + 1)) (Some c) (alive s) (kalive s) (hack s) (orphan s)
           (queue s) (established s ++ [c]) (closed s) (destroyed s) (shutdowns s) (forced s))
  else Stop OutOfRange.

Definition removeConnection (inLoop : bool) (c : conn) (s : TcpClient) : outcome TcpClient :=
  inloop* inLoop in
  assert* bool_decide (connection_ s = Some c) in
  let s := mkClient (connector_ s) (name_ s) (retry_ s) (connect_ s) (nextConnId_ s) None (alive s) (kalive s) (hack s) (orphan s)
             (queue s ++ [c]) (established s) (closed s ++ [c]) (destroyed s) (shutdowns s) (forced s) in
  if retry_ s && connect_ s then
    let* k := Connector.restart kernel_socket kernel_connect inLoop (connector_ s) in
    Ret (set_connector k s)
  else Ret s.

(** [detail::removeConnection], the close callback of a connection left behind *)
Definition detail_removeConnection (c : conn) (s : TcpClient) : TcpClient :=
  mkClient (connector_ s) (name_ s) (retry_ s) (connect_ s) (nextConnId_ s) (connection_ s) (alive s) (kalive s) (hack s) None
    (queue s ++ [c]) (established s) (closed s ++ [c]) (destroyed s) (shutdowns s) (forced s).

(** A reference to the connector goes: [~Connector] runs if it was the last. *)
Definition release (s : TcpClient) : outcome TcpClient :=
  if kalive s && negb (alive s) && negb (hack s) && bool_decide (Connector.timers (connector_ s) = []) then
    let* _ := Connector.destroy (connector_ s) in
    Ret (mkClient (connector_ s) (name_ s) (retry_ s) (connect_ s) (nextConnId_ s) (connection_ s) (alive s) false (hack s) (orphan s)
           (queue s) (established s) (closed s) (destroyed s) (shutdowns s) (forced s))
  else Ret s.

(** The destructor; [unique]: nobody else holds the connection. *)
Definition destroy (unique : bool) (s : TcpClient) : outcome TcpClient :=
  release
    match connection_ s with
    | Some c =>
        mkClient (connector_ s) (name_ s) (retry_ s) (connect_ s) (nextConnId_ s) None false (kalive s) (hack s) (Some c)
          (queue s) (established s) (closed s) (destroyed s) (shutdowns s) (if unique then forced s ++ [c] else forced s)
    | None =>
        mkClient (Connector.stop (connector_ s)) (name_ s) (retry_ s) (connect_ s) (nextConnId_ s) None false (kalive s) true (orphan s)
          (queue s) (established s) (closed s) (destroyed s) (shutdowns s) (forced s)
    end.

(** [detail::removeConnector], the timer of the destructor *)
Definition removeConnector (s : TcpClient) : outcome TcpClient :=
  release (mkClient (connector_ s) (name_ s) (retry_ s) (connect_ s) (nextConnId_ s) (connection_ s) (alive s) (kalive s) false (orphan s)
    (queue s) (established s) (closed s) (destroyed s) (shutdowns s) (forced s)).

(** ** What can happen *)

Inductive event :=
  | Connect (inLoop : bool)
  | Disconnect
  | StopReq
  | EnableRetry
  | Destroy (unique : bool)
  | RemoveConnector
  (** the connector's channel, timers and functors *)
  | OfConnector (e : Connector.event)
  (** the close callback of the connection *)
  | Close
  (** a queued [connectDestroyed] *)
  | RunDestroyed.

Abbreviation connector_event := (Connector.do_event kernel_socket kernel_connect getSocketError isSelfConnect).

Definition step (e : event) (s : TcpClient) : outcome TcpClient :=
  match e with
  | Connect inLoop => connect inLoop s
  | Disconnect => Ret (disconnect s)
  | StopReq => Ret (stop s)
  | EnableRetry => Ret (enableRetry s)
  | Destroy unique => destroy unique s
  | RemoveConnector => removeConnector s
  | OfConnector e =>
      if kalive s then
        let* c := connector_event e (connector_ s) in
        let s' := set_connector c s in
        let* s' := match given_by (Connector.given (connector_ s)) (Connector.given c) with
                   | Some fd => newConnection true fd s'
                   | None => Ret s'
                   end in
        (** the functor of a timer held a reference *)
        match e with Connector.Timer _ => release s' | _ => Ret s' end
      else match e, Connector.posted (connector_ s) with
           | Connector.Posted, [] => Ret s
           (** a functor of a connector that is gone *)
           | _, _ => Stop OutOfRange
           end
  | Close =>
      match connection_ s, orphan s with
      | Some c, _ => removeConnection true c s
      | None, Some c => Ret (detail_removeConnection c s)
      | None, None => Ret s
      end
  | RunDestroyed =>
      match queue s with
      | c :: q => Ret (mkClient (connector_ s) (name_ s) (retry_ s) (connect_ s) (nextConnId_ s) (connection_ s) (alive s) (kalive s) (hack s) (orphan s)
                    q (established s) (closed s) (destroyed s ++ [c]) (shutdowns s) (forced s))
      | [] => Ret s
      end
  end.

(** The loop delivers what the connector asked for; only a living client is called;
    it connects when its connector is idle; a retry timer does not fire while a
    [resetChannel] is queued. A connection closes in a later event or functor than
    the one it was made in, after the functor that was queued then. A client that
    has a connection is destroyed when no functor of its connector is queued; and
    when the timer of the destructor fires, a second later, none is queued any
    more. The client is destroyed in the thread of its loop. *)
Definition can (e : event) (s : TcpClient) : Prop :=
  match e with
  | Connect inLoop => alive s = true /\ Connector.proper (Connector.Start inLoop) (connector_ s)
  | Disconnect | StopReq | EnableRetry => alive s = true
  | Destroy _ => alive s = true /\ (connection_ s <> None -> Connector.posted (connector_ s) = [])
  | RemoveConnector => hack s = true /\ Connector.posted (connector_ s) = []
  | OfConnector e =>
      Connector.fires e (connector_ s) /\ Connector.proper e (connector_ s) /\
      match e with Connector.Posted | Connector.Timer _ | Connector.Dispatch _ _ => True | _ => False end
  | Close => Connector.CResetChannel ∉ Connector.posted (connector_ s)
  | RunDestroyed => True
  end.

Inductive reaches (s : TcpClient) : TcpClient -> Prop :=
  | client_refl : reaches s s
  | client_step e s1 s2 : reaches s s1 -> can e s1 -> step e s1 = Ret s2 -> reaches s s2.

(** ** What the connector promises the client *)

Lemma retry_frame fd k : Connector.given (Connector.retry fd k) = Connector.given k /\
  Connector.connect_ (Connector.retry fd k) = Connector.connect_ k /\ Connector.state_ (Connector.retry fd k) = Connector.kDisconnected.
Proof. unfold Connector.retry. cbn. destruct (Connector.connect_ k) eqn:E; cbn; by rewrite ?E. Qed.

Lemma removed_frame k fd k' : Connector.removeAndResetChannel k = Ret (fd, k') ->
  Connector.given k' = Connector.given k /\ Connector.connect_ k' = Connector.connect_ k /\ Connector.state_ k' = Connector.state_ k.
Proof. unfold Connector.removeAndResetChannel. destruct (Connector.channel_ k); [|done]. by intros [_ [= _ <-]]%check_ret. Qed.

Lemma removed_posted k fd k' : Connector.removeAndResetChannel k = Ret (fd, k') ->
  Connector.posted k' = Connector.posted k ++ [Connector.CResetChannel].
Proof. unfold Connector.removeAndResetChannel. destruct (Connector.channel_ k); [|done]. by intros [_ [= _ <-]]%check_ret. Qed.

Lemma retry_posted fd k : Connector.posted (Connector.retry fd k) = Connector.posted k.
Proof. unfold Connector.retry. cbn. by destruct (Connector.connect_ k). Qed.

Lemma start_frame k k' : Connector.startInLoop kernel_socket kernel_connect true k = Ret k' ->
  Connector.given k' = Connector.given k /\ Connector.connect_ k' = Connector.connect_ k /\ Connector.state_ k = Connector.kDisconnected.
Proof.
  unfold Connector.startInLoop. cbn [assertInLoopThread]. intros [K H]%check_ret. apply bool_decide_eq_true in K.
  destruct (Connector.connect_ k) eqn:Ec; [|by injection H as <-]. unfold Connector.connect in H.
  case_decide; [|case_decide; injection H as <-; [|by cbn]].
  - unfold Connector.connecting in H. apply check_ret in H as [_ [= <-]]. by cbn.
  - destruct (retry_frame (kernel_socket k) (Connector.open (kernel_socket k) k)) as (-> & -> & _). by cbn.
Qed.

(** A step of the connector gives at most one socket, only while it is connecting
    and wanted, and ends in kConnected then; kConnected is left only by a restart. *)
Lemma connector_gives e k k' :
  match e with Connector.Posted | Connector.Timer _ | Connector.Dispatch _ _ => True | _ => False end ->
  Connector.Safe false k -> Connector.fires e k -> connector_event e k = Ret k' ->
  Connector.connect_ k' = Connector.connect_ k /\
  ((Connector.given k' = Connector.given k /\ (Connector.state_ k = Connector.kConnected -> Connector.state_ k' = Connector.kConnected)) \/
   exists fd, Connector.given k' = fd :: Connector.given k /\ Connector.state_ k = Connector.kConnecting /\
     Connector.state_ k' = Connector.kConnected /\ Connector.connect_ k = true).
Proof.
  intros He A F H. destruct e as [| | | |i|err out]; try done; cbn [Connector.do_event Connector.fires] in H, F.
  - destruct (Connector.posted k) as [|c rest] eqn:Hp; [injection H as <-; split; [done|by left]|].
    destruct c; cbn [Connector.do_call] in H.
    + apply start_frame in H as (G & C & K). cbn in G, C, K. split; [done|]. left. split; [done|]. congruence.
    + unfold Connector.stopInLoop in H. cbn [assertInLoopThread] in H. cbn [Connector.state_ Connector.set_posted] in H.
      case_decide as K; [|injection H as <-; split; [done|by left]]. apply obind_ret in H as ([fd k1] & H & [= <-]).
      apply removed_frame in H as (G & C & _). destruct (retry_frame fd k1) as (-> & -> & _). cbn in G, C. split; [done|]. left. split; [done|]. congruence.
    + unfold Connector.resetChannel in H. cbn [Connector.channel_ Connector.set_posted] in H.
      destruct (Connector.channel_ k); [apply check_ret in H as [_ H]; apply check_ret in H as [_ H]|]; injection H as <-; (split; [done|by left]).
  - apply start_frame in H as (G & C & K). cbn in G, C, K. split; [done|]. left. split; [done|]. congruence.
  - assert (Connector.state_ k = Connector.kConnecting) as K.
    { destruct (Connector.channel_ k) as [c|] eqn:Hc; [|done]. pose proof (Connector.safe_channel _ _ A) as Sc. rewrite Hc in Sc.
      destruct Sc as [_ Sc]. destruct (addedToLoop_ c); [by destruct Sc|]. destruct Sc as (_ & _ & Sc). congruence. }
    apply obind_ret in H as (k1 & H1 & H). apply obind_ret in H as (k2 & H2 & [= <-]).
    assert (Connector.given k1 = Connector.given k /\ Connector.connect_ k1 = Connector.connect_ k /\
      (Connector.state_ k1 = Connector.kConnecting \/ Connector.state_ k1 = Connector.kDisconnected)) as (G1 & C1 & K1).
    { destruct err; [|injection H1 as <-; cbn; by rewrite K; split_and!; [..|left]]. unfold Connector.handleError in H1.
      cbn [Connector.state_ Connector.handling Connector.set_channel] in H1. rewrite decide_True in H1 by done.
      apply obind_ret in H1 as ([fd k3] & H3 & [= <-]). apply removed_frame in H3 as (G & C & _).
      destruct (retry_frame fd k3) as (-> & -> & ->). split_and!; [done|done|by right]. }
    cbn [Connector.connect_ Connector.given Connector.state_ Connector.handling Connector.set_channel].
    destruct out; [|injection H2 as <-; split; [done|left; split; [done|congruence]]]. unfold Connector.handleWrite in H2. case_decide as K2.
    + apply obind_ret in H2 as ([fd k3] & H3 & H2). apply removed_frame in H3 as (G & C & _). rewrite G1 in G. rewrite C1 in C.
      case_decide; [|destruct (isSelfConnect k3 fd)]; try (injection H2 as <-; destruct (retry_frame fd k3) as (-> & -> & _);
        split; [done|left; split; [done|congruence]]).
      injection H2 as <-. cbn [Connector.connect_ Connector.set_state]. rewrite C. destruct (Connector.connect_ k) eqn:Ek; cbn; rewrite C; (split; [done|]).
      * right. exists fd. by rewrite G.
      * left. split; [done|congruence].
    + apply check_ret in H2 as [_ [= <-]]. split; [done|]. left. split; [done|congruence].
Qed.

(** A connector with nothing queued and no channel. *)
Definition idle (k : Connector.Connector) : Prop := Connector.posted k = [] /\ Connector.channel_ k = None.

(** What the events of a stopped connector leave: it does not connect again, the
    [stopInLoop] in its queue finds it connecting at most, and once it is idle it
    stays so. *)
Lemma connector_stopped e k k' :
  match e with Connector.Posted | Connector.Timer _ | Connector.Dispatch _ _ => True | _ => False end ->
  Connector.Safe false k -> Connector.fires e k -> connector_event e k = Ret k' -> Connector.connect_ k = false ->
  (Connector.CStopInLoop ∈ Connector.posted k \/ Connector.state_ k <> Connector.kConnecting ->
   Connector.CStopInLoop ∈ Connector.posted k' \/ Connector.state_ k' <> Connector.kConnecting) /\
  (idle k -> idle k').
Proof.
  intros He A F H C. destruct e as [| | | |i|err out]; try done; cbn [Connector.do_event Connector.fires] in H, F.
  - destruct (Connector.posted k) as [|c rest] eqn:Hp; [injection H as <-; rewrite Hp; done|].
    split; [|intros [Hn _]; by rewrite Hp in Hn]. destruct c; cbn [Connector.do_call] in H.
    + unfold Connector.startInLoop in H. cbn [assertInLoopThread] in H. apply check_ret in H as [_ H].
      cbn [Connector.connect_ Connector.set_posted] in H. rewrite C in H. injection H as <-. cbn.
      intros [K|K]; [|by right]. apply elem_of_cons in K as [|K]; [done|by left].
    + intros _. right. unfold Connector.stopInLoop in H. cbn [assertInLoopThread] in H. cbn [Connector.state_ Connector.set_posted] in H.
      case_decide as K; [|by injection H as <-]. apply obind_ret in H as ([fd k1] & H & [= <-]).
      by destruct (retry_frame fd k1) as (_ & _ & ->).
    + unfold Connector.resetChannel in H. cbn [Connector.channel_ Connector.set_posted] in H.
      assert (Connector.posted k' = rest /\ Connector.state_ k' = Connector.state_ k) as [-> ->].
      { destruct (Connector.channel_ k); [apply check_ret in H as [_ H]; apply check_ret in H as [_ H]|]; by injection H as <-. }
      intros [K|K]; [|by right]. apply elem_of_cons in K as [|K]; [done|by left].
  - unfold Connector.startInLoop in H. cbn [assertInLoopThread] in H. apply check_ret in H as [_ H].
    cbn [Connector.connect_ Connector.set_timers] in H. rewrite C in H. injection H as <-. done.
  - split; [|intros [_ Hn]; by rewrite Hn in F].
    intros [K|K]; [|exfalso; destruct (Connector.channel_ k) as [c|] eqn:Hc; [|done]; pose proof (Connector.safe_channel _ _ A) as Sc;
      rewrite Hc in Sc; destruct Sc as [_ Sc]; destruct (addedToLoop_ c); [by destruct Sc|]; destruct Sc as (_ & _ & Sc); congruence].
    left. apply obind_ret in H as (k1 & H1 & H). apply obind_ret in H as (k2 & H2 & [= <-]).
    assert (Connector.CStopInLoop ∈ Connector.posted k1) as K1.
    { destruct err; [|by injection H1 as <-]. unfold Connector.handleError in H1. case_decide; [|by injection H1 as <-].
      apply obind_ret in H1 as ([fd k3] & H3 & [= <-]). apply removed_posted in H3. by rewrite retry_posted, H3, elem_of_app; left. }
    cbn. destruct out; [|by injection H2 as <-]. unfold Connector.handleWrite in H2. case_decide as K2; [|by apply check_ret in H2 as [_ [= <-]]].
    apply obind_ret in H2 as ([fd k3] & H3 & H2). apply removed_posted in H3.
    assert (Connector.CStopInLoop ∈ Connector.posted k3) as K3 by (rewrite H3, elem_of_app; by left).
    case_decide; [|destruct (isSelfConnect k3 fd)]; injection H2 as <-; rewrite ?retry_posted; try done.
    cbn [Connector.connect_ Connector.set_state]. by destruct (Connector.connect_ k3).
Qed.

(** ** The invariant *)

Record Inv (s : TcpClient) : Prop := mkInv {
  inv_connector : Connector.Safe false (connector_ s);
  (** while there is a connection, the connector is done *)
  inv_state : connection_ s <> None \/ orphan s <> None -> Connector.state_ (connector_ s) = Connector.kConnected;
  inv_one : connection_ s = None \/ orphan s = None;
  inv_made : established s = closed s ++ option_list (connection_ s) ++ option_list (orphan s);
  inv_closed : closed s = destroyed s ++ queue s;
  inv_given : rev (Connector.given (connector_ s)) = map csock (established s);
  (** a dead client gets no new connection: its connector is stopped or gone *)
  inv_dead : alive s = false -> connection_ s = None;
  inv_alive : alive s = true -> kalive s = true /\ hack s = false;
  inv_stopped : alive s = false -> kalive s = true -> Connector.connect_ (connector_ s) = false /\
    (Connector.CStopInLoop ∈ Connector.posted (connector_ s) \/ Connector.state_ (connector_ s) <> Connector.kConnecting) /\
    (hack s = false -> idle (connector_ s));
  inv_gone : kalive s = false -> idle (connector_ s) /\ Connector.timers (connector_ s) = []
}.

Lemma newClient_inv name : Inv (newClient name).
Proof. constructor; cbn; try done; [|by intros [|]|by left]. constructor; [done|apply Nat.le_0_l|done]. Qed.

(** The connector of a client that is dead: stopped, or gone. *)
Definition stopped (s : TcpClient) (k : Connector.Connector) : Prop :=
  (alive s = false -> kalive s = true -> Connector.connect_ k = false /\
    (Connector.CStopInLoop ∈ Connector.posted k \/ Connector.state_ k <> Connector.kConnecting) /\ (hack s = false -> idle k)) /\
  (kalive s = false -> idle k /\ Connector.timers k = []).

Lemma inv_stops s : Inv s -> stopped s (connector_ s).
Proof. intros [A B C D E F G G1 G2 G3]. by split. Qed.

Lemma alive_stops k s : Inv s -> alive s = true -> stopped s k.
Proof. intros I Al. destruct (inv_alive s I Al) as [Ka _]. split; congruence. Qed.

Ltac cl := cbn [connector_ name_ retry_ connect_ nextConnId_ connection_ alive kalive hack orphan queue established closed destroyed shutdowns forced
  set_connector set_connect enableRetry].

(** A step of the connector that gives no socket. *)
Lemma connector_quiet k s :
  Inv s -> Connector.Safe false k -> Connector.given k = Connector.given (connector_ s) ->
  (connection_ s <> None \/ orphan s <> None -> Connector.state_ k = Connector.kConnected) ->
  stopped s k -> Inv (set_connector k s).
Proof.
  intros [A B C D E F G G1 G2 G3] S1 S2 S3 [S4 S5]. constructor; cl; try done. by rewrite S2.
Qed.

(** A reference goes. *)
Lemma client_release_inv s : Inv s -> exists s', release s = Ret s' /\ Inv s' /\ connector_ s' = connector_ s.
Proof.
  intros Iv. unfold release. destruct (kalive s && _ && _ && _) eqn:R; [|by exists s].
  rewrite !andb_true_iff, !negb_true_iff, bool_decide_eq_true in R. destruct R as [[[Ka Al] Hk] Tm].
  destruct (inv_stopped s Iv Al Ka) as (_ & _ & Id). specialize (Id Hk). unfold Connector.destroy. destruct Id as [Ip Ic].
  rewrite Ic. rewrite check_true by done. cbn [obind]. eexists. split; [reflexivity|]. split; [|done].
  destruct Iv as [A B C D E F G G1 G2 G3]. constructor; cl; try done. by rewrite Al.
Qed.

Lemma set_connect_inv b s : Inv s -> Inv (set_connect b s).
Proof. by intros []; constructor. Qed.

Abbreviation safe_step := (Connector.do_event_safe kernel_socket kernel_connect getSocketError isSelfConnect).

Lemma stop_safe k : Connector.Safe false k -> Connector.Safe false (Connector.stop k).
Proof. intros A. by destruct (safe_step Connector.StopReq k A I I) as (k' & [= <-] & H). Qed.

(** [connect()] with an idle connector, and [restart] of one that is done. *)
Lemma connect_inv inLoop s : Inv s -> can (Connect inLoop) s -> exists s', connect inLoop s = Ret s' /\ Inv s'.
Proof.
  intros Iv [Al P]. pose proof Iv as [A B C D E F G _ _ _].
  destruct (safe_step (Connector.Start inLoop) (connector_ s) A I P) as (k & Ek & Sk). cbn [Connector.do_event] in Ek.
  unfold connect. cl. rewrite Ek. cbn [obind]. eexists. split; [reflexivity|].
  assert (Connector.given k = Connector.given (connector_ s)) as Gk.
  { unfold Connector.start in Ek. destruct inLoop; [|by injection Ek as <-]. by apply start_frame in Ek as (-> & _). }
  apply connector_quiet; [by apply set_connect_inv|done|done| |by apply alive_stops; [apply set_connect_inv|]].
  cl. intros Q. specialize (B Q). destruct P as (K & _). congruence.
Qed.

Lemma removeConnection_inv c s :
  Inv s -> can Close s -> connection_ s = Some c -> exists s', removeConnection true c s = Ret s' /\ Inv s'.
Proof.
  intros Iv Nr Ec. pose proof Iv as [A B C D E F G G1 G2 G3]. unfold removeConnection. cbn [assertInLoopThread].
  rewrite check_true by (by apply bool_decide_eq_true).
  assert (Connector.state_ (connector_ s) = Connector.kConnected) as K by (apply B; left; congruence).
  assert (orphan s = None) as No by (destruct C; [congruence|done]).
  set (s1 := mkClient _ _ _ _ _ _ _ _ _ _ _ _ _ _ _ _).
  assert (Inv s1) as I1.
  { unfold s1. constructor; cl; try done; [by left|..].
    - rewrite D, Ec, No. cbn. by rewrite !app_nil_r.
    - by rewrite E, <- app_assoc. }
  assert (alive s1 = true) as Al by (unfold s1; cl; destruct (alive s) eqn:Al; [done|]; by rewrite G in Ec).
  destruct (retry_ s1 && connect_ s1) eqn:R; [|by eexists].
  destruct (safe_step Connector.Restart (connector_ s1) A I) as (k & Ek & Sk); [by split|]. cbn [Connector.do_event] in Ek.
  rewrite Ek. cbn [obind]. eexists. split; [reflexivity|].
  assert (Connector.given k = Connector.given (connector_ s1)) as Gk.
  { unfold Connector.restart in Ek. cbn [assertInLoopThread] in Ek. by apply start_frame in Ek as (-> & _). }
  apply connector_quiet; [done..| |by apply alive_stops]. cl. intros [Q|Q]; done.
Qed.

Lemma OfConnector_inv e s :
  Inv s -> can (OfConnector e) s -> exists s', step (OfConnector e) s = Ret s' /\ Inv s'.
Proof.
  intros Iv (Fe & P & He). pose proof Iv as [A B C D E F G G1 G2 G3]. cbn [step].
  destruct (kalive s) eqn:Ka.
  2: { destruct (G3 eq_refl) as [[Ip Ic] It]. destruct e as [| | | |i|err out]; try done; cbn [Connector.fires] in Fe.
       - rewrite Ip. by exists s.
       - rewrite It in Fe. cbn in Fe. lia.
       - by rewrite Ic in Fe. }
  destruct (safe_step e (connector_ s) A Fe P) as (k & Ek & Sk). rewrite Ek. cbn [obind].
  assert (forall s1, Inv s1 -> exists s', match e with Connector.Timer _ => release s1 | _ => Ret s1 end = Ret s' /\ Inv s') as Fin.
  { intros s1 I1. destruct (client_release_inv s1 I1) as (s' & Es & I' & _). destruct e; (by exists s1) || by exists s'. }
  assert (Connector.connect_ (connector_ s) = false -> stopped s k) as St.
  { intros Cf. destruct (connector_stopped e _ k He A Fe Ek Cf) as [K1 K2]. split; [|congruence]. intros Al _.
    destruct (G2 Al eq_refl) as (_ & Q1 & Q2). split_and!; [by destruct (connector_gives e _ k He A Fe Ek) as [-> _]|auto|auto]. }
  destruct (connector_gives e _ k He A Fe Ek) as [Ck [[Gk Kk]|(fd & Gk & K0 & K1 & C0)]]; unfold given_by; rewrite Gk.
  - rewrite decide_True by done. cbn [obind]. apply Fin. apply connector_quiet; [done..| |].
    + intros Q. by apply Kk, B.
    + destruct (alive s) eqn:Al; [by apply alive_stops|]. apply St. by destruct (G2 eq_refl eq_refl).
  - rewrite decide_False by (intros X; apply (f_equal length) in X; cbn in X; lia). cbn [head].
    assert (connection_ s = None /\ orphan s = None) as [N1 N2].
    { split; [destruct (connection_ s)|destruct (orphan s)]; try done; exfalso; assert (Connector.state_ (connector_ s) = Connector.kConnected); try congruence; apply B; [by left|by right]. }
    unfold newConnection. cl. destruct (alive s) eqn:Al.
    2: { exfalso. destruct (G2 eq_refl eq_refl) as (X & _). congruence. }
    cbn [assertInLoopThread obind]. apply Fin. constructor; cl; try done; [by right|..].
    + rewrite D, N1, N2. cbn. by rewrite !app_nil_r.
    + rewrite Gk. cbn. rewrite F, map_app. done.
    + intros _. split; [done|]. by destruct (G1 eq_refl).
    + by rewrite Ka.
Qed.

Lemma stop_stops s : Connector.CStopInLoop ∈ Connector.posted (Connector.stop (connector_ s)).
Proof. unfold Connector.stop. cbn. rewrite elem_of_app. right. by left. Qed.

(** The destructor: of a client with a connection, whose connector goes with it, and
    of one without, whose connector is stopped. *)
Lemma destroy_inv unique s : Inv s -> can (Destroy unique) s -> exists s', destroy unique s = Ret s' /\ Inv s'.
Proof.
  intros Iv [Al Hp]. pose proof Iv as [A B C D E F G G1 G2 G3]. destruct (G1 Al) as [Ka Hk]. unfold destroy.
  destruct (connection_ s) as [c|] eqn:Ec.
  - assert (orphan s = None) as No by (by destruct C).
    assert (Connector.state_ (connector_ s) = Connector.kConnected) as K by (apply B; by left). specialize (Hp ltac:(done)).
    assert (Connector.channel_ (connector_ s) = None) as Nc.
    { eapply Connector.no_reset_no_channel; [exact A|by rewrite K|]. unfold Connector.resets. by rewrite Hp. }
    assert (Connector.timers (connector_ s) = []) as Nt.
    { pose proof (Connector.safe_starts _ _ A) as S0. rewrite K, decide_False in S0 by done. unfold Connector.starts in S0.
      apply length_zero_iff_nil. lia. }
    unfold release. cl. rewrite Ka, Hk, Nt. cbn [negb andb]. rewrite bool_decide_eq_true_2 by done. unfold Connector.destroy.
    rewrite Nc, check_true by done. cbn [obind]. eexists. split; [reflexivity|].
    constructor; cl; try done; [by left|by rewrite D, No].
  - unfold release. cl. rewrite Ka. cbn [negb andb]. eexists. split; [reflexivity|].
    constructor; cl; try done; [by apply stop_safe|]. intros _ _. split; [done|]. split; [left; apply stop_stops|done].
Qed.

Lemma client_step_inv e s : Inv s -> can e s -> exists s', step e s = Ret s' /\ Inv s'.
Proof.
  intros Iv Cn. destruct e as [inLoop| | | |unique| |e| |].
  - by apply connect_inv.
  - eexists. split; [reflexivity|]. unfold disconnect. cl. destruct (connection_ s) eqn:E; [|by apply set_connect_inv].
    destruct Iv as [A B C D F G H H1 H2 H3]. by constructor; cl; rewrite ?E in *.
  - eexists. split; [reflexivity|]. pose proof Iv as [A B C D E F G _ _ _].
    apply connector_quiet; [by apply set_connect_inv|by apply stop_safe|done|done|]. by apply alive_stops; [apply set_connect_inv|].
  - eexists. split; [reflexivity|]. destruct Iv. by constructor.
  - by apply destroy_inv.
  - destruct Cn as [Hk Hp]. cbn [step]. unfold removeConnector. set (s1 := mkClient _ _ _ _ _ _ _ _ _ _ _ _ _ _ _ _).
    assert (Inv s1) as I1; [|by destruct (client_release_inv s1 I1) as (s' & Es & I' & _); exists s'].
    pose proof Iv as [A B C D E F G G1 G2 G3]. unfold s1. constructor; cl; try done.
    + intros Al. destruct (G1 Al). congruence.
    + intros Al Ka. destruct (G2 Al Ka) as (Q1 & Q2 & _). split_and!; [done|done|]. intros _. split; [done|].
      destruct Q2 as [Q2|Q2]; [by rewrite Hp in Q2; apply elem_of_nil in Q2|].
      eapply Connector.no_reset_no_channel; [exact A|done|]. unfold Connector.resets. by rewrite Hp.
  - by apply OfConnector_inv.
  - cbn [step]. destruct (connection_ s) as [c|] eqn:Ec; [by apply removeConnection_inv|].
    destruct (orphan s) as [c|] eqn:Eo; [|by eexists]. eexists. split; [reflexivity|]. pose proof Iv as [A B C D E F G G1 G2 G3].
    unfold detail_removeConnection. constructor; cl; try done; rewrite ?Ec; try done; [by intros [|]|by left|..].
    + rewrite D, Ec, Eo. cbn. by rewrite app_nil_r.
    + by rewrite E, <- app_assoc.
  - cbn [step]. destruct (queue s) as [|c q] eqn:Eq; [by eexists|]. eexists. split; [reflexivity|].
    destruct Iv as [A B C D E F G G1 G2 G3]. constructor; cl; try done. by rewrite E, Eq, <- app_assoc.
Qed.

Lemma client_reaches_inv name s : reaches (newClient name) s -> Inv s.
Proof.
  induction 1 as [|e s1 s2 R IH Cn E]; [apply newClient_inv|].
  destruct (client_step_inv e s1 IH Cn) as (s' & E' & I'). congruence.
Qed.

(** C33. A client that is used as [can] says never fails an assertion and never runs
    a functor of a connector that is gone, whatever the kernel does: every such event
    returns (in particular [removeConnection] finds the connection that closed in
    [connection_], and [~Connector] finds no channel). The conditions are: it connects
    when its connector is idle; retry timers do not fire, and connections do not close,
    while a [resetChannel] is queued; a client with a connection is destroyed, in the
    loop's thread, when its connector has no functor queued ([destroy_asserts] and
    [destroy_dangles] show the other cases); and the timer of the destructor of a
    client without one finds none queued. The client has at most one connection at a
    time; every socket the connector gave became one connection, and the connections
    that closed were handed to [connectDestroyed] once each, in order; a destroyed
    client is never called back with a new connection. *)
Theorem client_connections name s :
  reaches (newClient name) s ->
  (forall e, can e s -> exists s', step e s = Ret s') /\
  established s = closed s ++ option_list (connection_ s) ++ option_list (orphan s) /\
  (connection_ s = None \/ orphan s = None) /\
  closed s = destroyed s ++ queue s /\
  map csock (established s) = rev (Connector.given (connector_ s)) /\
  (alive s = false -> connection_ s = None).
Proof.
  intros R. pose proof (client_reaches_inv name s R) as Iv. split.
  - intros e Cn. destruct (client_step_inv e s Iv Cn) as (s' & E & _). by exists s'.
  - destruct Iv as [A B C D E F G G1 G2 G3]. by split_and!.
Qed.

#[export] Instance can_dec e s : Decision (can e s).
Proof. destruct e as [| | | | | |e| |]; cbn; try apply _; destruct e; apply _. Defined.

Fixpoint run_client (es : list event) (s : TcpClient) : outcome TcpClient :=
  match es with
  | [] => Ret s
  | e :: es => assert* bool_decide (can e s) in let* s := step e s in run_client es s
  end.

Lemma run_client_reaches es s0 s s' : reaches s0 s -> run_client es s = Ret s' -> reaches s0 s'.
Proof.
  revert s. induction es as [|e es IH]; intros s R H; cbn [run_client] in H; [by injection H as <-|].
  apply check_ret in H as [En H]. apply bool_decide_eq_true in En. apply obind_ret in H as (s1 & H1 & H).
  eapply IH; [|exact H]. by eapply client_step.
Qed.
End Client.

(** *** Witnesses: a client with retry is refused, connects, is disconnected by the
    peer and connects again. *)
Abbreviation w_client := (run_client Connector.w_socket Connector.w_connect Connector.w_error Connector.w_self (fun _ => bytes "1.2.3.4:80")).
Definition reconnects : list event :=
  [EnableRetry; Connect true; OfConnector (Connector.Timer 0); OfConnector (Connector.Dispatch false true); OfConnector Connector.Posted;
   Close; RunDestroyed; OfConnector (Connector.Dispatch false true)].

Lemma client_connections_witness : exists s, w_client reconnects (newClient (bytes "c")) = Ret s /\
  closed s = [mkConn (bytes "c:1.2.3.4:80#1") 4] /\ connection_ s = Some (mkConn (bytes "c:1.2.3.4:80#2") 5) /\
  established s = closed s ++ option_list (connection_ s) ++ option_list (orphan s).
Proof.
  eexists. split; [vm_compute; reflexivity|]. split; [vm_compute; reflexivity|]. split; [vm_compute; reflexivity|].
  apply (client_connections Connector.w_socket Connector.w_connect Connector.w_error Connector.w_self (fun _ => bytes "1.2.3.4:80") (bytes "c")).
  eapply (run_client_reaches _ _ _ _ _ reconnects); [apply client_refl|vm_compute; reflexivity].
Defined.

(** A client without retry cannot connect again: after its connection has closed
    the connector is still in kConnected, and [connect()] fails the assertion of
    [startInLoop] that the state is kDisconnected. *)
Theorem reconnect_asserts : exists s,
  w_client [Connect true; OfConnector (Connector.Timer 0); OfConnector (Connector.Dispatch false true); OfConnector Connector.Posted;
            Close; RunDestroyed] (newClient (bytes "c")) = Ret s /\
  connection_ s = None /\ Connector.posted (connector_ s) = [] /\ Connector.timers (connector_ s) = [] /\
  connect Connector.w_socket Connector.w_connect true s = Stop AssertFailed.
Proof. eexists. split; [vm_compute; reflexivity|]. by split_and!. Qed.

(** A client destroyed in the callback of its new connection, or later in the same
    iteration of the loop, before the connector's [resetChannel] has run: the
    assertion of [~Connector] fails. *)
Example destroy_asserts : exists s,
  w_client [Connect true; OfConnector (Connector.Timer 0); OfConnector (Connector.Dispatch false true)] (newClient (bytes "c")) = Ret s /\
  connection_ s = Some (mkConn (bytes "c:1.2.3.4:80#1") 4) /\ destroy true s = Stop AssertFailed.
Proof. eexists. split; [vm_compute; reflexivity|]. by split_and!. Qed.

(** A client with a connection that is stopped and then destroyed: the [stopInLoop]
    in the queue of the loop runs on a connector that was deleted. *)
Example destroy_dangles : exists s s',
  w_client [Connect true; OfConnector (Connector.Timer 0); OfConnector (Connector.Dispatch false true); OfConnector Connector.Posted; StopReq]
    (newClient (bytes "c")) = Ret s /\
  destroy true s = Ret s' /\
  step Connector.w_socket Connector.w_connect Connector.w_error Connector.w_self (fun _ => bytes "1.2.3.4:80") (OfConnector Connector.Posted) s' = Stop OutOfRange.
Proof. eexists _, _. split; [vm_compute; reflexivity|]. split; [vm_compute; reflexivity|]. by vm_compute. Qed.
End Client.
