(* ===== verification/TcpServer.v ===== *)
(** * Acceptor and TcpServer (src/muduo/muduo/net/Acceptor.cc, TcpServer.h, TcpServer.cc)

    The server in its base loop: the acceptor, the map of connections, and the
    calls that travel between the base loop and the I/O loops of the
    connections. Each loop runs its queue in order; the loops interleave. The
    whole behaviour of a connection is in [TcpConnection]; here a connection is
    its [state_] and whether its channel is enabled, with the handlers that change
    them: [connectEstablished], [shutdown], [forceCloseInLoop], [handleClose] with
    the close callback, and [connectDestroyed] with the assertion of
    [Channel::remove]. The application does not stop reading. *)

From S2P Require Import Prelude Format StringPiece StdMap Channel EventLoopThreadPool TcpConnection.

(** ** Acceptor *)

Definition EMFILE : Z := 24.

Inductive accept_result :=
  | Accepted (connfd : Z)
  | AcceptError (err : Z).

Record Acceptor := mkAcceptor {
  acceptChannel_ : Channel;
  listenning_ : bool;
  idleFd_ : Z;
  newConnectionCallback_ : bool;
  (** the descriptors closed *)
  fds_closed : list Z
}.

Module Accept.

Definition newAcceptor (acceptSocket idleFd : Z) : outcome Acceptor :=
  assert* bool_decide (0 <= idleFd) in
  Ret (mkAcceptor (setCallbacks (newChannel acceptSocket) true false false false) false idleFd false []).

Definition setNewConnectionCallback (a : Acceptor) : Acceptor :=
  mkAcceptor (acceptChannel_ a) (listenning_ a) (idleFd_ a) true (fds_closed a).

Definition listen (inLoop : bool) (a : Acceptor) : outcome Acceptor :=
  inloop* inLoop in
  Ret (mkAcceptor (set_addedToLoop true (apply_op EnableReading (acceptChannel_ a))) true (idleFd_ a)
         (newConnectionCallback_ a) (fds_closed a)).

(** [handleRead]: the acceptor, and the socket given to the callback. [again] is
    what the second [accept], and [reopened] what [open("/dev/null")] answer when
    the process has run out of descriptors. *)
Definition handleRead (inLoop : bool) (first : accept_result) (again reopened : Z) (a : Acceptor)
    : outcome (Acceptor * option Z) :=
  inloop* inLoop in
  match first with
  | Accepted connfd =>
      if newConnectionCallback_ a then Ret (a, Some connfd)
      else Ret (mkAcceptor (acceptChannel_ a) (listenning_ a) (idleFd_ a) (newConnectionCallback_ a) (fds_closed a ++ [connfd]), None)
  | AcceptError err =>
      if decide (err = EMFILE)
      then Ret (mkAcceptor (acceptChannel_ a) (listenning_ a) reopened (newConnectionCallback_ a) (fds_closed a ++ [idleFd_ a; again]), None)
      else Ret (a, None)
  end.

(** The destructor. *)
Definition destroy (a : Acceptor) : outcome Acceptor :=
  let c := set_addedToLoop true (apply_op DisableAll (acceptChannel_ a)) in
  assert* isNoneEvent c in
  Ret (mkAcceptor (set_addedToLoop false c) (listenning_ a) (idleFd_ a) (newConnectionCallback_ a) (fds_closed a ++ [idleFd_ a])).

End Accept.

(** ** TcpServer *)

Record conn := mkConn { cname : list byte; cloop : Z; csock : Z }.

#[export] Instance conn_eq_dec : EqDecision conn.
Proof. solve_decision. Defined.

#[export] Existing Instance TcpConnection.StateE_eq_dec.

(** [state_] of a connection and whether its channel asks for events. *)
Record Life := mkLife { lstate : TcpConnection.StateE; lenabled : bool }.

(** [kConnected] or [kDisconnecting]. *)
Definition is_open (st : TcpConnection.StateE) : bool :=
  bool_decide (st = TcpConnection.kConnected) || bool_decide (st = TcpConnection.kDisconnecting).

(** What is queued in an I/O loop. *)
Inductive iocall := ConnectEstablished (c : conn) | ConnectDestroyed (c : conn).

Record TcpServer := mkServer {
  sname_ : list byte;
  ipPort_ : list byte;
  acceptor_ : Acceptor;
  threadPool_ : EventLoopThreadPool;
  sstarted_ : Z;
  nextConnId_ : Z;
  connections_ : list (list byte * conn);
  (** functors queued in the base loop: [removeConnectionInLoop] *)
  base_queue : list conn;
  (** functors queued in the I/O loops, each with its loop *)
  io_queue : list (Z * iocall);
  life : conn -> Life;
  (** for the properties: the connections created, those established, closed,
      removed from the map and destroyed *)
  created : list conn;
  established : list conn;
  closed : list conn;
  removed : list conn;
  destroyed : list conn
}.

Module Server.

Definition newServer (name ipPort : list byte) (acceptor : Acceptor) (baseLoop : Z) : TcpServer :=
  mkServer name ipPort (Accept.setNewConnectionCallback acceptor) (newPool baseLoop name) 0 1 [] [] []
    (fun _ => mkLife TcpConnection.kConnecting false) [] [] [] [] [].

Definition set_pool p s := mkServer (sname_ s) (ipPort_ s) (acceptor_ s) p (sstarted_ s) (nextConnId_ s) (connections_ s)
  (base_queue s) (io_queue s) (life s) (created s) (established s) (closed s) (removed s) (destroyed s).
Definition set_acceptor a s := mkServer (sname_ s) (ipPort_ s) a (threadPool_ s) (sstarted_ s) (nextConnId_ s) (connections_ s)
  (base_queue s) (io_queue s) (life s) (created s) (established s) (closed s) (removed s) (destroyed s).
Definition set_started v s := mkServer (sname_ s) (ipPort_ s) (acceptor_ s) (threadPool_ s) v (nextConnId_ s) (connections_ s)
  (base_queue s) (io_queue s) (life s) (created s) (established s) (closed s) (removed s) (destroyed s).
Definition set_base q s := mkServer (sname_ s) (ipPort_ s) (acceptor_ s) (threadPool_ s) (sstarted_ s) (nextConnId_ s) (connections_ s)
  q (io_queue s) (life s) (created s) (established s) (closed s) (removed s) (destroyed s).
Definition set_io q s := mkServer (sname_ s) (ipPort_ s) (acceptor_ s) (threadPool_ s) (sstarted_ s) (nextConnId_ s) (connections_ s)
  (base_queue s) q (life s) (created s) (established s) (closed s) (removed s) (destroyed s).

Definition set_life c l s := mkServer (sname_ s) (ipPort_ s) (acceptor_ s) (threadPool_ s) (sstarted_ s) (nextConnId_ s) (connections_ s)
  (base_queue s) (io_queue s) (fun d => if decide (d = c) then l else life s d) (created s) (established s) (closed s) (removed s) (destroyed s).

Definition setThreadNum (n : Z) (s : TcpServer) : outcome TcpServer :=
  assert* bool_decide (0 <= n) in Ret (set_pool (EventLoopThreadPool.setThreadNum n (threadPool_ s)) s).

(** [start()], called in the base loop's thread: the pool starts its threads, with
    an init callback or not, and the acceptor listens. *)
Definition start (startLoop : list byte -> Z) (cb : bool) (s : TcpServer) : outcome TcpServer :=
  if decide (sstarted_ s = 0) then
    let s := set_started 1 s in
    let* (p, _) := EventLoopThreadPool.start startLoop true cb (threadPool_ s) in
    let s := set_pool p s in
    assert* negb (listenning_ (acceptor_ s)) in
    let* a := Accept.listen true (acceptor_ s) in
    Ret (set_acceptor a s)
  else Ret (set_started 1 s).

(** A call of the connection's loop. *)
Definition run_io (call : iocall) (s : TcpServer) : outcome TcpServer :=
  match call with
  | ConnectEstablished c =>
      assert* bool_decide (lstate (life s c) = TcpConnection.kConnecting) in
      let s := set_life c (mkLife TcpConnection.kConnected true) s in
      Ret (mkServer (sname_ s) (ipPort_ s) (acceptor_ s) (threadPool_ s) (sstarted_ s) (nextConnId_ s)
        (connections_ s) (base_queue s) (io_queue s) (life s) (created s) (established s ++ [c]) (closed s) (removed s) (destroyed s))
  | ConnectDestroyed c =>
      let s := if decide (lstate (life s c) = TcpConnection.kConnected)
               then set_life c (mkLife TcpConnection.kDisconnected false) s else s in
      assert* negb (lenabled (life s c)) in
      Ret (mkServer (sname_ s) (ipPort_ s) (acceptor_ s) (threadPool_ s) (sstarted_ s) (nextConnId_ s)
        (connections_ s) (base_queue s) (io_queue s) (life s) (created s) (established s) (closed s) (removed s) (destroyed s ++ [c]))
  end.

(** [loop->queueInLoop(call)], and [loop->runInLoop(call)] from the base thread *)
Definition queueInIo (loop : Z) (call : iocall) (s : TcpServer) : TcpServer := set_io (io_queue s ++ [(loop, call)]) s.
Definition runInIo (loop : Z) (call : iocall) (s : TcpServer) : outcome TcpServer :=
  if decide (loop = baseLoop_ (threadPool_ s)) then run_io call s else Ret (queueInIo loop call s).

Definition conn_name (s : TcpServer) (id : Z) : list byte :=
  sname_ s ++ snprintf 64 (bytes "-" ++ ipPort_ s ++ bytes "#" ++ fmt_d id).

Definition newConnection (inLoop : bool) (sockfd : Z) (s : TcpServer) : outcome TcpServer :=
  inloop* inLoop in
  let* (ioLoop, p) := getNextLoop inLoop (threadPool_ s) in
  let c := mkConn (conn_name s (nextConnId_ s)) ioLoop sockfd in
  let s := mkServer (sname_ s) (ipPort_ s) (acceptor_ s) p (sstarted_ s) (i32 (nextConnId_ s + 1))
             (map_set (cname c) c (connections_ s)) (base_queue s) (io_queue s) (life s) (created s ++ [c]) (established s)
             (closed s) (removed s) (destroyed s) in
  runInIo ioLoop (ConnectEstablished c) (set_life c (mkLife TcpConnection.kConnecting false) s).

(** [connections_.erase(name)], with the number of elements erased *)
Definition erase (k : list byte) (m : list (list byte * conn)) : Z * list (list byte * conn) :=
  let m' := map_erase k m in (zlen m - zlen m', m').

Definition removeConnectionInLoop (inLoop : bool) (c : conn) (s : TcpServer) : outcome TcpServer :=
  inloop* inLoop in
  let '(n, m) := erase (cname c) (connections_ s) in
  assert* bool_decide (n = 1) in
  let s := mkServer (sname_ s) (ipPort_ s) (acceptor_ s) (threadPool_ s) (sstarted_ s) (nextConnId_ s) m
             (base_queue s) (io_queue s) (life s) (created s) (established s) (closed s) (removed s ++ [c]) (destroyed s) in
  Ret (queueInIo (cloop c) (ConnectDestroyed c) s).

(** The close callback of a connection, on the thread of its loop. *)
Definition removeConnection (c : conn) (s : TcpServer) : outcome TcpServer :=
  if decide (cloop c = baseLoop_ (threadPool_ s)) then removeConnectionInLoop true c s
  else Ret (set_base (base_queue s ++ [c]) s).

(** The destructor: [connectDestroyed] for every connection left. *)
Fixpoint destroy_all (l : list (list byte * conn)) (s : TcpServer) : outcome TcpServer :=
  match l with
  | [] => Ret s
  | (_, c) :: l => let* s := runInIo (cloop c) (ConnectDestroyed c) s in destroy_all l s
  end.
Definition destroy (inLoop : bool) (s : TcpServer) : outcome TcpServer :=
  inloop* inLoop in destroy_all (connections_ s) s.

(** [TcpConnection::handleClose] on the connection's loop, with its close callback. *)
Definition handleClose (c : conn) (s : TcpServer) : outcome TcpServer :=
  assert* is_open (lstate (life s c)) in
  let s := set_life c (mkLife TcpConnection.kDisconnected false) s in
  removeConnection c (mkServer (sname_ s) (ipPort_ s) (acceptor_ s) (threadPool_ s) (sstarted_ s) (nextConnId_ s) (connections_ s)
    (base_queue s) (io_queue s) (life s) (created s) (established s) (closed s ++ [c]) (removed s) (destroyed s)).

Definition forceCloseInLoop (c : conn) (s : TcpServer) : outcome TcpServer :=
  if is_open (lstate (life s c)) then handleClose c s else Ret s.

(** [TcpConnection::shutdown] by the application on the connection's loop. *)
Definition shutdown (c : conn) (s : TcpServer) : TcpServer :=
  if decide (lstate (life s c) = TcpConnection.kConnected)
  then set_life c (mkLife TcpConnection.kDisconnecting (lenabled (life s c))) s else s.

(** ** Steps *)

Inductive event :=
  | OnAccept (first : accept_result) (again reopened : Z)
  | OnClose (c : conn)
  | OnForceClose (c : conn)
  | OnShutdown (c : conn)
  | BaseLoop
  | IoLoop (loop : Z).

(** The first functor queued in a loop. *)
Fixpoint take_first (loop : Z) (q : list (Z * iocall)) : option (iocall * list (Z * iocall)) :=
  match q with
  | [] => None
  | (l, call) :: q =>
      if decide (l = loop) then Some (call, q)
      else match take_first loop q with Some (c, q') => Some (c, (l, call) :: q') | None => None end
  end.

(** The poller reports the end of a connection only while its channel is enabled. *)
Definition step (e : event) (s : TcpServer) : outcome TcpServer :=
  match e with
  | OnAccept first again reopened =>
      let* (a, sock) := Accept.handleRead true first again reopened (acceptor_ s) in
      let s := set_acceptor a s in
      match sock with Some fd => newConnection true fd s | None => Ret s end
  | OnClose c => if lenabled (life s c) then handleClose c s else Ret s
  | OnForceClose c => forceCloseInLoop c s
  | OnShutdown c => Ret (shutdown c s)
  | BaseLoop => match base_queue s with [] => Ret s | c :: q => removeConnectionInLoop true c (set_base q s) end
  | IoLoop loop => match take_first loop (io_queue s) with None => Ret s | Some (call, q) => run_io call (set_io q s) end
  end.

Fixpoint run (es : list event) (s : TcpServer) : outcome TcpServer :=
  match es with
  | [] => Ret s
  | e :: es => let* s := step e s in run es s
  end.

(** ** The invariant *)

Definition queued_up (q : list (Z * iocall)) : list conn :=
  flat_map (fun p => match p.2 with ConnectEstablished c => [c] | ConnectDestroyed _ => [] end) q.
Definition queued_down (q : list (Z * iocall)) : list conn :=
  flat_map (fun p => match p.2 with ConnectDestroyed c => [c] | ConnectEstablished _ => [] end) q.

Record Inv (s : TcpServer) : Prop := mkInv {
  inv_pool : pool_ok (threadPool_ s);
  inv_ip : zlen (ipPort_ s) <= 51;
  inv_next : nextConnId_ s = 1 + zlen (created s);
  inv_names : forall i c, created s !! i = Some c -> cname c = conn_name s (1 + Z.of_nat i);
  inv_created : created s ≡ₚ queued_up (io_queue s) ++ established s;
  (** the connections that are up are those established and not closed *)
  inv_closed : exists up, established s ≡ₚ up ++ closed s /\ forall c, is_open (lstate (life s c)) = true <-> c ∈ up;
  inv_connecting : forall c, c ∈ queued_up (io_queue s) -> life s c = mkLife TcpConnection.kConnecting false;
  inv_disconnected : forall c, c ∈ closed s -> lstate (life s c) = TcpConnection.kDisconnected;
  inv_enabled : forall c, lenabled (life s c) = is_open (lstate (life s c));
  inv_removed : closed s ≡ₚ base_queue s ++ removed s;
  inv_destroyed : removed s ≡ₚ queued_down (io_queue s) ++ destroyed s;
  inv_vals : forall kv, kv ∈ connections_ s -> kv.1 = cname kv.2 /\ kv.2 ∈ created s;
  inv_map : map cname (created s) ≡ₚ map_keys (connections_ s) ++ map cname (removed s)
}.

Lemma conn_name_inj s i j :
  zlen (ipPort_ s) <= 51 -> 0 <= i < 2 ^ 31 -> 0 <= j < 2 ^ 31 -> conn_name s i = conn_name s j -> i = j.
Proof.
  intros Hip Hi Hj E. unfold conn_name in E. apply app_inv_head in E.
  assert (forall k, 0 <= k < 2 ^ 31 -> snprintf 64 (bytes "-" ++ ipPort_ s ++ bytes "#" ++ fmt_d k) =
    bytes "-" ++ ipPort_ s ++ bytes "#" ++ fmt_d k) as K.
  { intros k Hk. unfold snprintf. apply ztake_all. rewrite !zlen_app. change (zlen (bytes "-")) with 1. change (zlen (bytes "#")) with 1.
    unfold fmt_d. rewrite decide_False by lia. pose proof (udec_length k 10 ltac:(lia) ltac:(lia)). unfold zlen in *. lia. }
  rewrite !K in E by done. do 3 apply app_inv_head in E. rewrite <- (parse_fmt_d i), <- (parse_fmt_d j). by f_equal.
Qed.

Lemma names_nodup s : Inv s -> zlen (created s) < 2 ^ 31 - 1 -> NoDup (map cname (created s)).
Proof.
  intros I L. apply NoDup_alt. intros i j x Hi Hj. rewrite list_lookup_fmap in Hi, Hj.
  destruct (created s !! i) as [c|] eqn:Ei; [|done]. destruct (created s !! j) as [d|] eqn:Ej; [|done].
  cbn in Hi, Hj. pose proof (lookup_lt_Some _ _ _ Ei). pose proof (lookup_lt_Some _ _ _ Ej).
  assert (conn_name s (1 + Z.of_nat i) = conn_name s (1 + Z.of_nat j)) as E.
  { rewrite <- (inv_names s I i c Ei), <- (inv_names s I j d Ej). congruence. }
  apply conn_name_inj in E; [lia|apply I|unfold zlen in L; lia..].
Qed.

Lemma getNextLoop_returns p : pool_ok p ->
  exists loop p', getNextLoop true p = Ret (loop, p') /\ pool_ok p' /\ baseLoop_ p' = baseLoop_ p.
Proof.
  intros P. destruct (decide (loops_ p = [])) as [E|E].
  - exists (baseLoop_ p), p. split; [|done]. unfold getNextLoop. destruct P as (S & _). rewrite S. cbn. by rewrite E.
  - destruct (getNextLoop_ok p P E) as (loop & _ & ->). eexists _, _. split; [reflexivity|]. split; [|done].
    destruct P as (S & L & N). unfold pool_ok, at_next. cbn. split; [done|]. split; [done|].
    assert (0 < zlen (loops_ p)) by (destruct (loops_ p); [done|rewrite zlen_cons; zlen_pos; lia]).
    pose proof (Z.mod_pos_bound (next_ p + 1) (zlen (loops_ p))). lia.
Qed.

Lemma take_first_perm loop q call q' : take_first loop q = Some (call, q') -> q ≡ₚ (loop, call) :: q'.
Proof.
  revert q'. induction q as [|[l c] q IH]; intros q' H; cbn in H; [done|]. case_decide as D.
  - injection H as <- <-. by subst.
  - destruct (take_first loop q) as [[c1 q1]|]; [|done]. injection H as <- <-. rewrite (IH q1) by done. apply Permutation_swap.
Qed.

Lemma queued_up_app q p : queued_up (q ++ p) = queued_up q ++ queued_up p.
Proof. apply flat_map_app. Qed.
Lemma queued_down_app q p : queued_down (q ++ p) = queued_down q ++ queued_down p.
Proof. apply flat_map_app. Qed.

Ltac ss := cbn [sname_ ipPort_ acceptor_ threadPool_ sstarted_ nextConnId_ connections_ base_queue io_queue life created established
  closed removed destroyed set_pool set_acceptor set_started set_base set_io set_life queueInIo newServer].

Lemma created_nodup s : Inv s -> zlen (created s) < 2 ^ 31 - 1 -> NoDup (created s).
Proof. intros I L. pose proof (names_nodup s I L) as ND. by eapply NoDup_fmap_1. Qed.

Lemma is_open_spec st : is_open st = true <-> st = TcpConnection.kConnected \/ st = TcpConnection.kDisconnecting.
Proof. unfold is_open. by rewrite orb_true_iff, !bool_decide_eq_true. Qed.

(** A loop runs a functor of its queue. *)
Lemma run_io_inv loop call q s :
  Inv s -> zlen (created s) < 2 ^ 31 - 1 -> io_queue s ≡ₚ (loop, call) :: q ->
  exists s', run_io call (set_io q s) = Ret s' /\ Inv s' /\ created s' = created s.
Proof.
  intros I L Hq. pose proof (created_nodup s I L) as ND.
  assert (queued_up (io_queue s) ≡ₚ queued_up ((loop, call) :: q)) as Qu by (unfold queued_up; by rewrite Hq).
  assert (queued_down (io_queue s) ≡ₚ queued_down ((loop, call) :: q)) as Qd by (unfold queued_down; by rewrite Hq).
  destruct I as [P Ip Nx Nm C (up & U & Up) Cg Dc En R D V M]. destruct call as [c|c]; cbn in Qu, Qd; cbn [run_io]; ss.
  - assert (life s c = mkLife TcpConnection.kConnecting false) as Lc by (apply Cg; rewrite Qu; by left).
    rewrite C, Qu in ND. cbn in ND. apply NoDup_cons in ND as [Nc ND]. rewrite elem_of_app in Nc.
    rewrite Lc, check_true by done. eexists. split; [reflexivity|]. split; [|done]. constructor; ss; try done.
    + rewrite C, Qu. cbn. rewrite app_assoc, (Permutation_app_comm _ [c]). done.
    + exists (c :: up). split; [rewrite U; by rewrite <- Permutation_cons_append|].
      intros d. rewrite elem_of_cons, <- Up. case_decide as Dd; [subst; cbn; tauto|tauto].
    + intros d Hd. rewrite decide_False; [apply Cg; rewrite Qu; by right|]. intros ->. tauto.
    + intros d Hd. rewrite decide_False; [by apply Dc|]. intros ->. apply Nc. right. rewrite U, elem_of_app. by right.
    + intros d. by case_decide.
    + by rewrite D, Qd.
  - assert (c ∈ closed s) as Cc by (rewrite R, elem_of_app, D, elem_of_app, Qd; right; left; by left).
    pose proof (Dc c Cc) as Lc. rewrite Lc. cbn [decide decide_rel]. rewrite decide_False by done.
    ss. rewrite En, Lc, check_true by done. eexists. split; [reflexivity|]. split; [|done]. constructor; ss; try done.
    + by rewrite C, Qu.
    + by exists up.
    + intros d Hd. apply Cg. by rewrite Qu.
    + rewrite D, Qd. cbn. rewrite app_assoc, (Permutation_app_comm _ [c]). done.
Qed.

(** A new connection, with [connectEstablished] queued. *)
Definition accepted (loop fd : Z) (p : EventLoopThreadPool) (s : TcpServer) : TcpServer :=
  let c := mkConn (conn_name s (nextConnId_ s)) loop fd in
  set_life c (mkLife TcpConnection.kConnecting false)
    (mkServer (sname_ s) (ipPort_ s) (acceptor_ s) p (sstarted_ s) (i32 (nextConnId_ s + 1)) (map_set (cname c) c (connections_ s))
      (base_queue s) (io_queue s) (life s) (created s ++ [c]) (established s) (closed s) (removed s) (destroyed s)).

Lemma accepted_inv loop fd p s :
  Inv s -> zlen (created s) < 2 ^ 31 - 2 -> pool_ok p ->
  Inv (queueInIo loop (ConnectEstablished (mkConn (conn_name s (nextConnId_ s)) loop fd)) (accepted loop fd p s)).
Proof.
  intros I L P'. pose proof (names_nodup s I ltac:(lia)) as ND. destruct I as [P Ip Nx Nm C (up & U & Up) Cg Dc En R D V M].
  unfold accepted. set (c := mkConn (conn_name s (nextConnId_ s)) loop fd).
  assert (cname c ∉ map cname (created s)) as Fresh.
  { rewrite list_elem_of_lookup. intros (i & Hi). rewrite list_lookup_fmap in Hi. destruct (created s !! i) as [d|] eqn:Ei; [|done].
    cbn in Hi. injection Hi as Hi. rewrite (Nm i d Ei) in Hi. pose proof (lookup_lt_Some _ _ _ Ei).
    apply conn_name_inj in Hi; unfold zlen in *; lia. }
  assert (cname c ∉ map_keys (connections_ s)) as Fk by (intros K; apply Fresh; rewrite M; apply elem_of_app; by left).
  assert (c ∉ created s) as Fc by (intros K; apply Fresh; by apply list_elem_of_fmap_2).
  assert (c ∉ established s) as Fe by (intros K; apply Fc; rewrite C, elem_of_app; by right).
  zlen_pos. constructor; ss; try done.
  - rewrite Nx, zlen_app, zlen_cons, zlen_nil, swrap_small; lia.
  - intros i d Hi. apply lookup_app_Some in Hi as [Hi|[Hl Hi]]; [by apply Nm|].
    apply list_lookup_singleton_Some in Hi as [Hi <-]. cbn [cname c]. change (conn_name _ ?x) with (conn_name s x).
    f_equal. rewrite Nx. unfold zlen in *. lia.
  - rewrite queued_up_app, C, <- !app_assoc. apply Permutation_app_head, Permutation_app_comm.
  - exists up. split; [done|]. intros d. case_decide as Dd; [|apply Up]. subst d. cbn. split; [done|].
    intros Hc. destruct Fe. rewrite U, elem_of_app. by left.
  - intros d. rewrite queued_up_app, elem_of_app. case_decide as Dd; [done|]. intros [Hd|Hd]; [by apply Cg|].
    apply list_elem_of_singleton in Hd. done.
  - intros d Hd. rewrite decide_False; [by apply Dc|]. intros ->. apply Fe. rewrite U, elem_of_app. by right.
  - intros d. by case_decide.
  - by rewrite queued_down_app, app_nil_r.
  - intros kv Hk. apply map_set_keys in Hk as [-> | Hk]; cbn; rewrite elem_of_app; [split; [done|right; by left]|].
    destruct (V kv Hk). by split; [|left].
  - rewrite map_app, M, (map_set_new _ c _ Fk). cbn. rewrite Permutation_app_comm. done.
Qed.

Lemma newConnection_inv fd s :
  Inv s -> zlen (created s) < 2 ^ 31 - 2 ->
  exists s', newConnection true fd s = Ret s' /\ Inv s' /\ zlen (created s') = zlen (created s) + 1.
Proof.
  intros I L. unfold newConnection. cbn [assertInLoopThread].
  destruct (getNextLoop_returns (threadPool_ s) (inv_pool s I)) as (loop & p & -> & P' & B). cbn [obind].
  pose proof (accepted_inv loop fd p s I L P') as I1. fold (accepted loop fd p s). set (c := mkConn _ loop fd) in *.
  assert (zlen (created (accepted loop fd p s)) = zlen (created s) + 1) as Lc.
  { unfold accepted. ss. by rewrite zlen_app, zlen_cons, zlen_nil. }
  unfold runInIo. case_decide as Db; [|by eexists].
  destruct (run_io_inv loop (ConnectEstablished c) (io_queue (accepted loop fd p s)) _ I1) as (s' & E & I' & Ec); ss.
  - rewrite Lc. lia.
  - by rewrite <- Permutation_cons_append.
  - exists s'. split; [exact E|]. split; [done|]. rewrite Ec. exact Lc.
Qed.

(** A connection that is closed and not removed is in the map. *)
Lemma removeConnectionInLoop_inv c s :
  Inv s -> zlen (created s) < 2 ^ 31 - 1 -> (exists q, base_queue s ≡ₚ c :: q) ->
  forall q, base_queue s ≡ₚ c :: q ->
  exists s', removeConnectionInLoop true c (set_base q s) = Ret s' /\ Inv s' /\ created s' = created s.
Proof.
  intros I L _ q Hq. pose proof (names_nodup s I L) as ND. destruct I as [P Ip Nx Nm C (up & U & Up) Cg Dc En R D V M].
  assert (exists rest, created s ≡ₚ c :: removed s ++ rest) as (rest & Hc).
  { exists (queued_up (io_queue s) ++ up ++ q). rewrite C, U, R, Hq.
    rewrite !app_assoc. rewrite (Permutation_app_comm _ (removed s)), !app_assoc. rewrite <- Permutation_middle.
    constructor. rewrite <- !app_assoc. done. }
  assert (cname c ∈ map_keys (connections_ s)) as Ik.
  { assert (map cname (created s) ≡ₚ cname c :: map cname (removed s) ++ map cname rest) as H.
    { rewrite Hc. cbn. by rewrite map_app. }
    rewrite H in ND. inversion_clear ND as [|? ? Nin _]. rewrite H in M.
    assert (cname c ∈ map_keys (connections_ s) ++ map cname (removed s)) as K by (rewrite <- M; by left).
    apply elem_of_app in K as [K|K]; [done|]. destruct Nin. apply elem_of_app. by left. }
  pose proof (map_erase_old _ _ Ik) as Er. unfold removeConnectionInLoop, erase. cbn [assertInLoopThread]. ss.
  assert (zlen (connections_ s) - zlen (map_erase (cname c) (connections_ s)) = 1) as Ern.
  { apply Permutation_length in Er. unfold map_keys in Er. cbn in Er. rewrite !length_map in Er. unfold zlen. lia. }
  rewrite check_true by (by apply bool_decide_eq_true). eexists. split; [reflexivity|]. split; [|done].
  constructor; ss; try done.
  - by rewrite queued_up_app, app_nil_r.
  - by exists up.
  - intros d. rewrite queued_up_app, app_nil_r. apply Cg.
  - rewrite R, Hq. cbn. rewrite (Permutation_app_comm (removed s)). cbn. by rewrite Permutation_middle.
  - rewrite queued_down_app, D. cbn. rewrite <- !app_assoc. apply Permutation_app_head, Permutation_app_comm.
  - intros kv Hk. apply V. by eapply map_erase_elem.
  - rewrite M, Er, map_app. cbn. rewrite app_assoc, (Permutation_app_comm _ [_]). done.
Qed.

Lemma server_handleClose_inv c s :
  Inv s -> zlen (created s) < 2 ^ 31 - 1 -> is_open (lstate (life s c)) = true ->
  exists s', handleClose c s = Ret s' /\ Inv s' /\ created s' = created s.
Proof.
  intros I L Oc. pose proof (created_nodup s I L) as ND. unfold handleClose. rewrite Oc. cbn [check].
  set (s1 := mkServer _ _ _ _ _ _ _ _ _ _ _ _ (closed _ ++ [c]) _ _).
  assert (Inv (set_base (base_queue s ++ [c]) s1)) as I1.
  { destruct I as [P Ip Nx Nm C (up & U & Up) Cg Dc En R D V M]. apply Up in Oc as Cu.
    apply elem_of_Permutation in Cu as (up' & Eu). rewrite C, U, Eu in ND. apply NoDup_app in ND as (_ & Nq & ND).
    cbn in ND. apply NoDup_cons in ND as [Nc _]. rewrite elem_of_app in Nc.
    constructor; try done; unfold s1; ss.
    - exists up'. split; [rewrite U, Eu; cbn; by rewrite app_assoc, <- Permutation_cons_append|].
      intros d. case_decide as Dd; [subst d; split; [done|tauto]|]. rewrite Up, Eu, elem_of_cons. tauto.
    - intros d Hd. rewrite decide_False; [by apply Cg|]. intros ->. apply (Nq c); [done|]. by left.
    - intros d. rewrite elem_of_app. case_decide as Dd; [done|]. intros [Hd|Hd]; [by apply Dc|]. by apply list_elem_of_singleton in Hd.
    - intros d. by case_decide.
    - rewrite R, <- !app_assoc. apply Permutation_app_head, Permutation_app_comm. }
  unfold removeConnection. case_decide as Db; [|by eexists].
  destruct (removeConnectionInLoop_inv c _ I1) with (q := base_queue s) as (s' & E & I' & Ec); ss.
  - unfold s1. ss. lia.
  - exists (base_queue s). by rewrite Permutation_app_comm.
  - by rewrite Permutation_app_comm.
  - exists s'. split; [|split; [done|rewrite Ec; unfold s1; ss; done]]. rewrite <- E. f_equal.
Qed.

Lemma server_shutdown_inv c s : Inv s -> Inv (shutdown c s).
Proof.
  intros I. unfold shutdown. case_decide as Sc; [|done]. destruct I as [P Ip Nx Nm C (up & U & Up) Cg Dc En R D V M].
  constructor; ss; try done.
  - exists up. split; [done|]. intros d. case_decide as Dd; [|apply Up]. subst d. rewrite <- Up, Sc. done.
  - intros d Hd. rewrite decide_False; [by apply Cg|]. intros ->. rewrite (Cg c Hd) in Sc. done.
  - intros d Hd. rewrite decide_False; [by apply Dc|]. intros ->. rewrite (Dc c Hd) in Sc. done.
  - intros d. case_decide as Dd; [|apply En]. subst d. cbn [lenabled lstate]. by rewrite En, Sc.
Qed.

Lemma server_step_inv e s :
  Inv s -> zlen (created s) < 2 ^ 31 - 2 ->
  exists s', step e s = Ret s' /\ Inv s' /\ zlen (created s') <= zlen (created s) + 1.
Proof.
  intros I L. destruct e as [first again reopened|c|c|c| |loop]; cbn [step].
  - assert (forall a, Inv (set_acceptor a s)) as Ia by (intros a; by destruct I).
    unfold Accept.handleRead. cbn [assertInLoopThread].
    destruct first as [fd|err].
    + destruct (newConnectionCallback_ (acceptor_ s)); cbn [obind].
      * destruct (newConnection_inv fd _ (Ia (acceptor_ s)) L) as (s' & E & I' & Le). exists s'. split_and!; [done|done|].
        rewrite Le. ss. lia.
      * eexists. split; [reflexivity|]. split; [apply Ia|ss; lia].
    + destruct (decide (err = EMFILE)); cbn [obind]; (eexists; split; [reflexivity|]; split; [apply Ia|ss; lia]).
  - destruct (lenabled (life s c)) eqn:El; [|exists s; split_and!; [done|done|lia]]. rewrite (inv_enabled s I) in El.
    destruct (server_handleClose_inv c s I ltac:(lia) El) as (s' & E & I' & Ec). exists s'. split_and!; [done|done|rewrite Ec; lia].
  - unfold forceCloseInLoop. destruct (is_open (lstate (life s c))) eqn:El; [|exists s; split_and!; [done|done|lia]].
    destruct (server_handleClose_inv c s I ltac:(lia) El) as (s' & E & I' & Ec). exists s'. split_and!; [done|done|rewrite Ec; lia].
  - exists (shutdown c s). split; [done|]. split; [by apply server_shutdown_inv|]. unfold shutdown. case_decide; ss; lia.
  - destruct (base_queue s) as [|c q] eqn:Hq; [exists s; split_and!; [done|done|lia]|].
    destruct (removeConnectionInLoop_inv c s I) with (q := q) as (s' & E & I' & Ec); [lia|exists q; by rewrite Hq|by rewrite Hq|].
    exists s'. split_and!; [done|done|rewrite Ec; lia].
  - destruct (take_first loop (io_queue s)) as [[call q]|] eqn:Ht; [|exists s; split_and!; [done|done|lia]].
    apply take_first_perm in Ht. destruct (run_io_inv loop call q s I ltac:(lia) Ht) as (s' & E & I' & Ec).
    exists s'. split_and!; [done|done|rewrite Ec; lia].
Qed.

Lemma started_inv startLoop cb name ipPort a base n :
  0 <= n < 2 ^ 31 -> zlen ipPort <= 51 -> listenning_ a = false ->
  exists s, (let* s := setThreadNum n (newServer name ipPort a base) in start startLoop cb s) = Ret s /\ Inv s /\ created s = [].
Proof.
  intros Hn Hi Hl. unfold setThreadNum. rewrite check_true by (apply bool_decide_eq_true; lia). cbn [obind].
  unfold start. cbn [sstarted_ set_pool newServer]. rewrite decide_True by done. unfold EventLoopThreadPool.start.
  cbn [threadPool_ set_started set_pool newServer EventLoopThreadPool.setThreadNum newPool EventLoopThreadPool.started_ negb check
    assertInLoopThread baseLoop_ name_ numThreads_ next_ threads_ loops_].
  rewrite start_loop_spec by (cbn [numThreads_]; lia). cbn [obind baseLoop_ name_ EventLoopThreadPool.started_ numThreads_ next_ threads_ loops_].
  ss. cbn [Accept.setNewConnectionCallback listenning_]. rewrite Hl. cbn [negb check]. unfold Accept.listen. cbn [assertInLoopThread obind].
  eexists. split; [reflexivity|]. split; [|done]. constructor; ss; try done.
  - unfold pool_ok. cbn [EventLoopThreadPool.started_ loops_ next_]. rewrite zlen_app, zlen_nil. unfold zlen.
    rewrite !length_map, length_seq. split_and!; [done|lia..].
  - exists []. split; [done|]. intros c. by split; [|intros ?%not_elem_of_nil].
  - by intros c ?%not_elem_of_nil.
  - by intros c ?%not_elem_of_nil.
Qed.

Lemma map_perm {A B} (f : A -> B) (l k : list A) :
  NoDup (map f l) -> map f l ≡ₚ map f k -> (forall x, x ∈ k -> x ∈ l) -> l ≡ₚ k.
Proof.
  intros ND P S. assert (NoDup (map f k)) as NDk by (by rewrite <- P).
  apply NoDup_Permutation; [by eapply NoDup_fmap_1|by eapply NoDup_fmap_1|].
  intros x. split; [|apply S]. intros Hx.
  assert (f x ∈ map f k) as Hf by (rewrite <- P; by apply list_elem_of_fmap_2).
  apply list_elem_of_fmap in Hf as (y & Ey & Hy). pose proof (S y Hy) as Hyl.
  apply list_elem_of_lookup in Hx as (i & Hi). apply list_elem_of_lookup in Hyl as (j & Hj).
  assert (i = j) as ->; [|congruence].
  eapply (NoDup_lookup (map f l)); [done|change (map f l) with (f <$> l); by rewrite list_lookup_fmap, Hi|].
  change (map f l) with (f <$> l). rewrite list_lookup_fmap, Hj. cbn. by f_equal.
Qed.

(** The connections in the map are those created and not removed. *)
Lemma inv_connections s : Inv s -> zlen (created s) < 2 ^ 31 - 1 -> created s ≡ₚ map snd (connections_ s) ++ removed s.
Proof.
  intros I L. pose proof (names_nodup s I L) as ND. destruct I as [P Ip Nx Nm C (up & U & Up) Cg Dc En R D V M].
  apply (map_perm cname); [done| |].
  - rewrite M, map_app. f_equiv. unfold map_keys. rewrite map_map.
    rewrite (map_ext_in fst (fun kv => cname kv.2)); [done|]. intros kv Hk. by apply V, list_elem_of_In.
  - intros c Hc. apply elem_of_app in Hc as [Hc|Hc].
    + apply list_elem_of_fmap in Hc as (kv & -> & Hk). by apply V.
    + rewrite C, U, R, !elem_of_app. by do 3 right.
Qed.

(** ** The destructor *)

(** While only [connectEstablished] and [connectDestroyed] are left to run, and
    none of the connections to destroy is half closed. *)
Record Ending (s : TcpServer) : Prop := mkEnding {
  end_connecting : forall c, c ∈ queued_up (io_queue s) -> life s c = mkLife TcpConnection.kConnecting false;
  end_nodup : NoDup (queued_up (io_queue s));
  end_enabled : forall c, lenabled (life s c) = is_open (lstate (life s c));
  end_down : forall c, c ∈ queued_down (io_queue s) -> lstate (life s c) <> TcpConnection.kDisconnecting
}.

Definition to_destroy (s : TcpServer) : list conn := queued_down (io_queue s) ++ destroyed s.

Lemma connectDestroyed_ending c s :
  Ending s -> lstate (life s c) <> TcpConnection.kDisconnecting ->
  exists s', run_io (ConnectDestroyed c) s = Ret s' /\ Ending s' /\ to_destroy s' ≡ₚ c :: to_destroy s /\
    forall d, lstate (life s d) <> TcpConnection.kDisconnecting -> lstate (life s' d) <> TcpConnection.kDisconnecting.
Proof.
  intros [Cg ND En Dn] Nc. cbn [run_io]. assert (forall s1, destroyed s1 = destroyed s -> io_queue s1 = io_queue s ->
    queued_down (io_queue s1) ++ destroyed s1 ++ [c] ≡ₚ c :: to_destroy s) as Pm.
  { intros s1 -> ->. rewrite app_assoc. by rewrite <- Permutation_cons_append. }
  case_decide as Sc; ss.
  - rewrite decide_True by done. cbn [lenabled negb check]. eexists. split; [reflexivity|]. split; [constructor|split]; ss; [| |..].
    + intros d Hd. rewrite decide_False; [by apply Cg|]. intros ->. rewrite (Cg c Hd) in Sc. done.
    + done.
    + intros d. by case_decide.
    + intros d Hd. case_decide; [done|]. by apply Dn.
    + by apply (Pm s).
    + intros d Hd. by case_decide.
  - rewrite En. replace (is_open (lstate (life s c))) with false
      by (symmetry; apply not_true_iff_false; rewrite is_open_spec; tauto).
    cbn [negb check]. eexists. split; [reflexivity|]. split; [by constructor|]. split; [by apply (Pm s)|done].
Qed.

Lemma destroy_all_ending l s :
  Ending s -> Forall (fun kv => lstate (life s kv.2) <> TcpConnection.kDisconnecting) l ->
  exists s', destroy_all l s = Ret s' /\ Ending s' /\ to_destroy s' ≡ₚ map snd l ++ to_destroy s.
Proof.
  revert s. induction l as [|[k c] l IH]; intros s E F; cbn [destroy_all map snd]; [by exists s|].
  apply Forall_cons in F as [Fc F]. cbn [snd] in Fc. unfold runInIo. case_decide as Db.
  - destruct (connectDestroyed_ending c s E Fc) as (s1 & -> & E1 & Pm & K). cbn [obind].
    destruct (IH s1 E1) as (s' & -> & E' & Pm'); [eapply Forall_impl; [exact F|]; intros; by apply K|].
    exists s'. split; [done|]. split; [done|]. rewrite Pm', Pm. by rewrite <- Permutation_middle.
  - cbn [obind]. destruct (IH (queueInIo (cloop c) (ConnectDestroyed c) s)) as (s' & -> & E' & Pm'); [|exact F|].
    + destruct E as [Cg ND En Dn]. constructor; ss; rewrite ?queued_up_app, ?queued_down_app, ?app_nil_r; try done.
      intros d [Hd|Hd%list_elem_of_singleton]%elem_of_app; [by apply Dn|by subst].
    + exists s'. split; [done|]. split; [done|]. rewrite Pm'. unfold to_destroy. ss. rewrite queued_down_app. cbn.
      rewrite <- !app_assoc. cbn. rewrite <- Permutation_middle. by rewrite <- !Permutation_middle.
Qed.

(** The I/O loops run what is queued. *)
Lemma io_ending loops s :
  Ending s -> exists s', run (map IoLoop loops) s = Ret s' /\ Ending s' /\ to_destroy s' ≡ₚ to_destroy s.
Proof.
  revert s. induction loops as [|loop loops IH]; intros s E; cbn [map run step]; [by exists s|].
  destruct (take_first loop (io_queue s)) as [[call q]|] eqn:Ht; [|cbn [obind]; by apply IH].
  apply take_first_perm in Ht.
  assert (queued_up (io_queue s) ≡ₚ queued_up ((loop, call) :: q)) as Qu by (unfold queued_up; by rewrite Ht).
  assert (queued_down (io_queue s) ≡ₚ queued_down ((loop, call) :: q)) as Qd by (unfold queued_down; by rewrite Ht).
  assert (exists s1, run_io call (set_io q s) = Ret s1 /\ Ending s1 /\ to_destroy s1 ≡ₚ to_destroy s) as (s1 & -> & E1 & Pm1).
  { destruct E as [Cg ND En Dn]. destruct call as [c|c]; cbn in Qu, Qd.
    - cbn [run_io]. ss. rewrite Qu in ND. apply NoDup_cons in ND as [Nc ND]. rewrite (Cg c), check_true by (done || (rewrite Qu; by left)).
      eexists. split; [reflexivity|]. split; [|by unfold to_destroy; ss; rewrite Qd]. constructor; ss; try done.
      + intros d Hd. rewrite decide_False by (by intros ->). apply Cg. rewrite Qu. by right.
      + intros d. by case_decide.
      + intros d Hd. case_decide; [done|]. apply Dn. by rewrite Qd.
    - destruct (connectDestroyed_ending c (set_io q s)) as (s1 & E1 & End1 & Pm & _); ss.
      + constructor; ss; [|by rewrite <- Qu|done|]; [intros d Hd; apply Cg; by rewrite Qu|].
        intros d Hd. apply Dn. rewrite Qd. by right.
      + apply Dn. rewrite Qd. by left.
      + exists s1. split; [done|]. split; [done|]. rewrite Pm. unfold to_destroy. ss. by rewrite Qd. }
  cbn [obind]. destruct (IH s1 E1) as (s' & -> & E' & Pm'). exists s'. split; [done|]. split; [done|]. by rewrite Pm'.
Qed.

Lemma inv_ending s : Inv s -> zlen (created s) < 2 ^ 31 - 1 -> Ending s.
Proof.
  intros I L. pose proof (created_nodup s I L) as ND. destruct I as [P Ip Nx Nm C (up & U & Up) Cg Dc En R D V M].
  constructor; try done.
  - rewrite C in ND. by apply NoDup_app in ND as [? _].
  - intros c Hc. rewrite (Dc c); [done|]. rewrite R, elem_of_app, D, elem_of_app. tauto.
Qed.

Lemma server_run_inv es s : Inv s -> zlen (created s) + zlen es < 2 ^ 31 - 2 ->
  exists s', run es s = Ret s' /\ Inv s' /\ zlen (created s') < 2 ^ 31 - 1.
Proof.
  revert s. induction es as [|e es IH]; intros s I L; cbn [run].
  - exists s. rewrite zlen_nil in L. split_and!; [done|done|lia].
  - rewrite zlen_cons in L. zlen_pos. destruct (server_step_inv e s I ltac:(lia)) as (s1 & -> & I1 & L1). cbn [obind]. apply IH; [done|lia].
Qed.

Lemma closed_nodup s : Inv s -> zlen (created s) < 2 ^ 31 - 1 -> NoDup (closed s).
Proof.
  intros I L. pose proof (created_nodup s I L) as ND. destruct I as [P Ip Nx Nm C (up & U & Up) Cg Dc En R D V M].
  rewrite C, U in ND. apply NoDup_app in ND as (_ & _ & ND). by apply NoDup_app in ND as (_ & _ & ?).
Qed.



(** A connection whose write side the application has shut and that still reads:
    the destructor queues its [connectDestroyed], which fails the assertion of
    [Channel::remove]. *)
Example destroy_half_closed :
  exists s s', (let* a := Accept.newAcceptor 5 6 in
             let* s := setThreadNum 1 (newServer (bytes "echo") (bytes "0.0.0.0:7") a 0) in
             let* s := start (fun nm => zlen nm) false s in
             run [OnAccept (Accepted 8) 0 0; IoLoop 5; OnShutdown (mkConn (bytes "echo-0.0.0.0:7#1") 5 8)] s) = Ret s /\
    destroy true s = Ret s' /\ step (IoLoop 5) s' = Stop AssertFailed.
Proof. eexists _, _. split; [vm_compute; reflexivity|]. split; [vm_compute; reflexivity|]. by vm_compute. Qed.
End Server.
