(* ===== verification/Codec.v ===== *)
(** * ProtobufCodecLite (src/muduo/muduo/net/protobuf/ProtobufCodecLite.h, .cc)

    The length-tag-payload-checksum codec over [Buffer]. Protocol buffer
    messages and zlib's [adler32] are parameters. User callbacks are recorded
    as events, in the order the code makes the calls. *)

From S2P Require Import Prelude Endian StringPiece Buffer.

Module Codec.

Definition kHeaderLen : Z := 4.
Definition kChecksumLen : Z := 4.
Definition kMaxMessageLen : Z := 64 * 1024 * 1024.

Inductive ErrorCode :=
  | kNoError
  | kInvalidLength
  | kCheckSumError
  | kInvalidNameLen
  | kUnknownMessageType
  | kParseError.

#[export] Instance ErrorCode_eq_dec : EqDecision ErrorCode.
Proof. solve_decision. Defined.

Definition errorCodeToString (e : ErrorCode) : string :=
  match e with
  | kNoError => "NoError"
  | kInvalidLength => "InvalidLength"
  | kCheckSumError => "CheckSumError"
  | kInvalidNameLen => "InvalidNameLen"
  | kUnknownMessageType => "UnknownMessageType"
  | kParseError => "ParseError"
  end.

Section Codec.
Context {message : Type}.
(** google::protobuf::Message and zlib, which the code only calls. *)
Context (IsInitialized : message -> bool) (ByteSize : message -> Z)
  (SerializeToArray : message -> list byte) (ParseFromArray : list byte -> option message)
  (adler32 : list byte -> Z) (host : endian).

(** The codec object: the tag and the optional raw-message callback. *)
Context (tag_ : list byte) (rawCb_ : option (list byte -> bool)).

Definition kMinMessageLen : Z := i32 (zlen tag_ + kChecksumLen).

Definition asInt32 (buf : list byte) : outcome Z :=
  let* m := load 4 buf in Ret (i32 (networkToHost32 host (u32 (i32 (int_of_mem host m))))).

Definition checksum (buf : list byte) (len : Z) : outcome Z :=
  let* d := load len buf in Ret (i32 (adler32 d)).

Definition validateChecksum (buf : list byte) (len : Z) : outcome bool :=
  let* expectedCheckSum := asInt32 (zdrop (len - kChecksumLen) buf) in
  let* checkSum := checksum buf (len - kChecksumLen) in
  Ret (bool_decide (checkSum = expectedCheckSum)).

Definition parseFromBuffer (buf : StringPiece) : outcome (option message) :=
  let* d := load (sp_size buf) (sp_data buf) in Ret (ParseFromArray d).

(** [parse]: the error code and the parsed message. *)
Definition parse (buf : list byte) (len : Z) : outcome (ErrorCode * option message) :=
  let* valid := validateChecksum buf len in
  if valid then
    let* head := load (zlen tag_) buf in
    if decide (head = tag_) then
      let data := zdrop (zlen tag_) buf in
      let dataLen := i32 (len - kChecksumLen - zlen tag_) in
      let* m := parseFromBuffer (sp_of_ptr data dataLen) in
      match m with
      | Some m => Ret (kNoError, Some m)
      | None => Ret (kParseError, None)
      end
    else Ret (kUnknownMessageType, None)
  else Ret (kCheckSumError, None).

(** The calls [onMessage] makes to user code. *)
Inductive event :=
  | RawCb (frame : list byte)
  | MessageCallback (m : message)
  | ErrorCallback (e : ErrorCode).

(** The loop body after [rawCb_]: parse the frame, then go on with [k] or
    report the error and [break]. *)
Definition parse_and_dispatch (k : Buffer -> outcome (list event * Buffer)) (len : Z) (buf : Buffer)
    : outcome (list event * Buffer) :=
  let* (errorCode, msg) := parse (zdrop (peek buf + kHeaderLen) (buffer_ buf)) len in
  match errorCode, msg with
  | kNoError, Some m =>
      let* buf' := retrieve (kHeaderLen + len) buf in
      let* (evs, buf'') := k buf' in
      Ret (MessageCallback m :: evs, buf'')
  | _, _ => Ret ([ErrorCallback errorCode], buf)
  end.

(** One run of the loop of [onMessage]: the events in order, and the buffer. *)
Fixpoint onMessage_loop (fuel : nat) (buf : Buffer) : outcome (list event * Buffer) :=
  match fuel with
  | O => Stop NoFuel
  | S fuel =>
    if decide (readableBytes buf >= u32 (i32 (kMinMessageLen + kHeaderLen))) then
      let* len := peekInt32 host buf in
      if decide (len > kMaxMessageLen \/ len < kMinMessageLen) then
        Ret ([ErrorCallback kInvalidLength], buf)
      else if decide (readableBytes buf >= u64 (kHeaderLen + len)) then
        let* frame := load (kHeaderLen + len) (zdrop (peek buf) (buffer_ buf)) in
        match rawCb_ with
        | Some cb =>
            if cb frame then
              let* (evs, buf') := parse_and_dispatch (onMessage_loop fuel) len buf in
              Ret (RawCb frame :: evs, buf')
            else
              let* buf' := retrieve (kHeaderLen + len) buf in
              let* (evs, buf'') := onMessage_loop fuel buf' in
              Ret (RawCb frame :: evs, buf'')
        | None => parse_and_dispatch (onMessage_loop fuel) len buf
        end
      else Ret ([], buf)
    else Ret ([], buf)
  end.

(** Every round of the loop consumes at least one byte of the buffer. *)
Definition onMessage (buf : Buffer) : outcome (list event * Buffer) :=
  onMessage_loop (S (length (content buf))) buf.

Definition serializeToBuffer (m : message) (buf : Buffer) : outcome (Z * Buffer) :=
  if IsInitialized m then
    let byte_size := ByteSize m in
    let* buf := ensureWritableBytes (u64 (i32 (byte_size + kChecksumLen))) buf in
    let* buf := write_at_end (SerializeToArray m) buf in
    if decide (zlen (SerializeToArray m) = byte_size) then
      let* buf := hasWritten (u64 byte_size) buf in
      Ret (byte_size, buf)
    else Stop LogFatal
  else Stop LogFatal.

Definition fillEmptyBuffer (m : message) (buf : Buffer) : outcome Buffer :=
  assert* bool_decide (readableBytes buf = 0) in
  let* buf := append_string tag_ buf in
  let* (byte_size, buf) := serializeToBuffer m buf in
  let* checkSum := checksum (zdrop (peek buf) (buffer_ buf)) (i32 (readableBytes buf)) in
  let* buf := appendInt32 host checkSum buf in
  assert* bool_decide (readableBytes buf = u64 (u64 (zlen tag_ + byte_size) + kChecksumLen)) in
  let len := i32 (hostToNetwork32 host (u32 (i32 (readableBytes buf)))) in
  prepend (int_to_mem host 4 len) 4 buf.

(** [send]: the bytes handed to [conn->send(&buf)]. *)
Definition send (m : message) : outcome (list byte) :=
  let* buf := newBuffer kInitialSize in
  let* buf := fillEmptyBuffer m buf in
  Ret (content buf).

(** ** The wire format *)

Definition body (m : message) : list byte := tag_ ++ SerializeToArray m.
Definition frame_of (bd : list byte) : list byte :=
  be_bytes 4 (zlen bd + kChecksumLen) ++ bd ++ be_bytes 4 (adler32 bd).
Definition frame (m : message) : list byte := frame_of (body m).

(** Messages the codec can carry. *)
Definition fits (m : message) : Prop :=
  IsInitialized m = true /\ zlen (body m) + kChecksumLen <= kMaxMessageLen.

Lemma zlen_frame_of bd : zlen (frame_of bd) = kHeaderLen + zlen bd + kChecksumLen.
Proof. unfold frame_of, kHeaderLen, kChecksumLen. zlia. Qed.

Context (tag_small : zlen tag_ + kChecksumLen <= kMaxMessageLen).

Lemma min_len : kMinMessageLen = zlen tag_ + kChecksumLen /\
  u32 (i32 (kMinMessageLen + kHeaderLen)) = zlen tag_ + kChecksumLen + kHeaderLen.
Proof.
  pose proof (zlen_nonneg tag_). unfold kMinMessageLen, kMaxMessageLen, kChecksumLen, kHeaderLen in *.
  split; [rewrite swrap_small; lia|].
  rewrite (swrap_small 32 (zlen tag_ + 4)) by lia. rewrite swrap_small by lia. rewrite wrap_small; lia.
Qed.

Lemma asInt32_ok x rest : asInt32 (be_bytes 4 x ++ rest) = Ret (i32 x).
Proof.
  unfold asInt32. rewrite load_ok by zlia. cbn [obind].
  rewrite ztake_app_l, ztake_all by zlia. f_equal. by apply (swrap_be 4).
Qed.

(** Any four bytes are the big-endian representation of some value, so
    [peekInt32] succeeds on every buffer of four bytes. *)
Lemma be_bytes_of l : zlen l = 4 -> l = be_bytes 4 (be_value l).
Proof. intros H. rewrite <- (be_bytes_value l) at 1. f_equal. unfold zlen in H. lia. Qed.

Lemma peekInt32_some b : wf b -> 4 <= readableBytes b -> exists x, peekInt32 host b = Ret x.
Proof.
  intros W H. rewrite <- content_len in H by done.
  exists (i32 (be_value (ztake 4 (content b)))).
  apply (peekInt32_ok host b _ (zdrop 4 (content b)) W).
  rewrite <- be_bytes_of by (apply zlen_ztake; lia). by rewrite ztake_zdrop.
Qed.

Lemma asInt32_some l : 4 <= zlen l -> exists x, asInt32 l = Ret x.
Proof.
  intros H. exists (i32 (be_value (ztake 4 l))).
  rewrite <- (ztake_zdrop 4 l) at 1. rewrite (be_bytes_of (ztake 4 l)) at 1 by (apply zlen_ztake; lia).
  apply asInt32_ok.
Qed.

(** [parse] never reads outside the [len] bytes it is given. *)
Lemma parse_some buf len :
  zlen tag_ + kChecksumLen <= len <= kMaxMessageLen -> len <= zlen buf ->
  exists r, parse buf len = Ret r.
Proof.
  intros Hl Hb. pose proof (zlen_nonneg tag_).
  unfold parse, validateChecksum, checksum, kChecksumLen, kMaxMessageLen in *.
  destruct (asInt32_some (zdrop (len - 4) buf)) as (x & ->); [zlia|].
  cbn [obind]. rewrite load_ok by lia. cbn [obind].
  case_bool_decide; [|by eexists]. rewrite load_ok by lia. cbn [obind].
  case_decide; [|by eexists]. unfold parseFromBuffer. cbn.
  rewrite swrap_small by lia. rewrite load_ok by zlia. cbn [obind].
  destruct (ParseFromArray _); by eexists.
Qed.

(** The memory [onMessage] hands to [parse] starts with the rest of the
    content. *)
Lemma zdrop_header b : wf b -> kHeaderLen <= readableBytes b ->
  exists q, zdrop (peek b + kHeaderLen) (buffer_ b) = zdrop kHeaderLen (content b) ++ q.
Proof.
  intros W H. destruct (zdrop_peek b W) as (q & E). exists q.
  rewrite <- content_len in H by done. unfold kHeaderLen, peek in *.
  destruct W. rewrite <- zdrop_zdrop by lia. rewrite E, zdrop_app_l; [done|lia].
Qed.

(** Consuming one frame: the step of the termination argument. *)
Lemma consume_ok b len :
  wf b -> zlen tag_ + kChecksumLen <= len -> kHeaderLen + len <= readableBytes b ->
  exists b', retrieve (kHeaderLen + len) b = Ret b' /\ wf b' /\
    content b' = zdrop (kHeaderLen + len) (content b) /\
    zlen (buffer_ b') = zlen (buffer_ b) /\ zlen (content b') < zlen (content b).
Proof.
  intros W Hl Hr. pose proof (zlen_nonneg tag_). unfold kHeaderLen, kChecksumLen in *.
  destruct (retrieve_ok (4 + len) b W) as (b' & ? & ? & C & ?); [lia|].
  exists b'. split_and!; try done. rewrite C, zlen_zdrop; rewrite content_len by done; lia.
Qed.

Definition good (b : Buffer) (r : outcome (list event * Buffer)) : Prop :=
  exists evs b', r = Ret (evs, b') /\ wf b' /\ zlen (buffer_ b') = zlen (buffer_ b) /\
    content b' `suffix_of` content b.

Lemma good_here b evs : wf b -> good b (Ret (evs, b)).
Proof. intros. exists evs, b. done. Qed.

Lemma good_consume b b' ev n r :
  content b' = zdrop n (content b) -> zlen (buffer_ b') = zlen (buffer_ b) -> good b' r ->
  good b (let* (evs, b'') := r in Ret (ev :: evs, b'')).
Proof.
  intros C L (evs & b'' & -> & W & L' & S). exists (ev :: evs), b''. split_and!; [done|done|lia|].
  etrans; [done|]. rewrite C. exists (ztake n (content b)). by rewrite ztake_zdrop.
Qed.

Lemma good_event b ev r : good b r -> good b (let* (evs, b'') := r in Ret (ev :: evs, b'')).
Proof. intros (evs & b'' & -> & ?). by exists (ev :: evs), b''. Qed.

Lemma parse_and_dispatch_good k len b :
  wf b -> zlen tag_ + kChecksumLen <= len <= kMaxMessageLen -> kHeaderLen + len <= readableBytes b ->
  (forall b', wf b' -> zlen (content b') < zlen (content b) -> good b' (k b')) ->
  good b (parse_and_dispatch k len b).
Proof.
  intros W Hl Hr K. pose proof (zlen_nonneg tag_). unfold parse_and_dispatch.
  destruct (zdrop_header b W) as (q & ->); [unfold kHeaderLen, kChecksumLen in *; lia|].
  destruct (parse_some (zdrop kHeaderLen (content b) ++ q) len) as ([ec m] & ->); [done| |].
  { rewrite <- content_len in Hr by done. unfold kHeaderLen, kChecksumLen in *. zlia. }
  cbn [obind]. destruct ec, m; try by apply good_here.
  destruct (consume_ok b len W) as (b' & -> & W' & C & L & LT); [lia|done|]. cbn [obind].
  eapply good_consume; [done..|]. by apply K.
Qed.

Lemma onMessage_loop_good fuel b :
  wf b -> (length (content b) < fuel)%nat -> good b (onMessage_loop fuel b).
Proof.
  revert b. induction fuel as [|fuel IH]; intros b W F; [lia|]. cbn [onMessage_loop].
  destruct min_len as [-> ->]. pose proof (zlen_nonneg tag_).
  case_decide as D1; [|by apply good_here].
  destruct (peekInt32_some b W) as (len & ->); [unfold kHeaderLen, kChecksumLen in *; lia|]. cbn [obind].
  case_decide as D2; [by apply good_here|].
  rewrite wrap_small by (unfold kHeaderLen, kChecksumLen, kMaxMessageLen in *; lia).
  case_decide as D3; [|by apply good_here].
  assert (K : forall b', wf b' -> zlen (content b') < zlen (content b) -> good b' (onMessage_loop fuel b')).
  { intros b' W' L. apply IH; [done|]. unfold zlen in L. lia. }
  destruct (zdrop_peek b W) as (q & Eq). pose proof (content_len b W).
  rewrite Eq, load_ok by (unfold kHeaderLen, kChecksumLen in *; zlia). cbn [obind].
  assert (good b (parse_and_dispatch (onMessage_loop fuel) len b)) as P.
  { apply parse_and_dispatch_good; (done || lia). }
  destruct rawCb_ as [cb|]; [|done]. destruct (cb _); [by apply good_event|].
  destruct (consume_ok b len W) as (b' & -> & W' & C & L & LT); [lia|lia|]. cbn [obind].
  eapply good_consume; [done..|]. by apply K.
Qed.

(** ** Frames of messages, without a raw callback *)

(** Documented behaviour of the protocol buffer library. *)
Context (ByteSize_spec : forall m, ByteSize m = zlen (SerializeToArray m))
  (parse_serialize : forall m, ParseFromArray (SerializeToArray m) = Some m).

Lemma frame_header_value m : fits m -> i32 (zlen (body m) + kChecksumLen) = zlen (body m) + kChecksumLen.
Proof.
  intros [_ F]. pose proof (zlen_nonneg (body m)). unfold kMaxMessageLen, kChecksumLen in *.
  apply swrap_small; lia.
Qed.

(** What a frame with the bytes [bd] before its checksum [cks] deserves. *)
Definition classify (bd : list byte) (cks : Z) : ErrorCode * option message :=
  if decide (i32 (adler32 bd) = i32 cks) then
    if decide (ztake (zlen tag_) bd = tag_) then
      match ParseFromArray (zdrop (zlen tag_) bd) with
      | Some m => (kNoError, Some m)
      | None => (kParseError, None)
      end
    else (kUnknownMessageType, None)
  else (kCheckSumError, None).

Lemma parse_classify bd cks rest :
  zlen tag_ <= zlen bd -> zlen bd + kChecksumLen <= kMaxMessageLen ->
  parse ((bd ++ be_bytes 4 cks) ++ rest) (zlen bd + kChecksumLen) = Ret (classify bd cks).
Proof.
  intros T F. pose proof (zlen_nonneg bd). pose proof (zlen_nonneg tag_).
  unfold parse, validateChecksum, checksum, classify, kChecksumLen, kMaxMessageLen in *.
  rewrite <- app_assoc. replace (zlen bd + 4 - 4) with (zlen bd) by lia.
  rewrite zdrop_app_r, zdrop_0, asInt32_ok, load_ok by zlia. cbn [obind].
  rewrite ztake_app_l, ztake_all by lia. case_bool_decide as D; [|by rewrite decide_False].
  rewrite (decide_True (P := _ = _)) by done.
  rewrite load_ok by zlia. cbn [obind]. rewrite (ztake_app_l (zlen tag_)) by lia.
  case_decide; [|done]. unfold parseFromBuffer. cbn [sp_size sp_data sp_of_ptr ptr_ length_].
  replace (i32 _) with (zlen bd - zlen tag_) by (rewrite swrap_small; lia).
  rewrite zdrop_app_l, load_ok by zlia. cbn [obind].
  rewrite ztake_app_l, ztake_all by zlia. by destruct (ParseFromArray _).
Qed.

Lemma classify_body m : classify (body m) (adler32 (body m)) = (kNoError, Some m).
Proof.
  unfold classify, body. rewrite decide_True by done.
  rewrite ztake_app_l, ztake_all, zdrop_app_r, zdrop_0, decide_True by (done || zlia).
  by rewrite parse_serialize.
Qed.

Lemma body_tag m : zlen tag_ <= zlen (body m).
Proof. unfold body. zlia. Qed.

(** A complete frame at the front of the content reaches [parse]. *)
Lemma loop_classify fuel b bd cks rest :
  rawCb_ = None -> wf b -> zlen tag_ <= zlen bd -> zlen bd + kChecksumLen <= kMaxMessageLen ->
  content b = (be_bytes 4 (zlen bd + kChecksumLen) ++ bd ++ be_bytes 4 cks) ++ rest ->
  exists b', wf b' /\ content b' = rest /\ zlen (buffer_ b') = zlen (buffer_ b) /\
    onMessage_loop (S fuel) b =
      match classify bd cks with
      | (kNoError, Some m) =>
          let* (evs, b'') := onMessage_loop fuel b' in Ret (MessageCallback m :: evs, b'')
      | (e, _) => Ret ([ErrorCallback e], b)
      end.
Proof.
  intros Raw W T F C. pose proof (zlen_nonneg bd). pose proof (zlen_nonneg tag_).
  pose proof (zlen_nonneg rest). pose proof (content_len b W) as L.
  pose proof L as L0. rewrite C in L. unfold kHeaderLen, kChecksumLen, kMaxMessageLen in *.
  autorewrite with zlist in L.
  destruct (retrieve_ok (4 + (zlen bd + 4)) b W) as (b' & R & W' & C' & L'); [lia|].
  exists b'. split_and!; [done| |done|].
  { rewrite C', C, zdrop_app_r, zdrop_0; (done || zlia). }
  cbn [onMessage_loop]. destruct min_len as [-> ->]. unfold kHeaderLen, kChecksumLen.
  rewrite decide_True by lia. rewrite <- app_assoc in C.
  rewrite (peekInt32_ok host b _ _ W C), (swrap_small 32 (zlen bd + 4)) by lia. cbn [obind].
  rewrite decide_False by (unfold kMaxMessageLen; lia). rewrite wrap_small, decide_True by lia.
  destruct (zdrop_peek b W) as (q & Eq). rewrite Eq, load_ok by zlia. cbn [obind].
  rewrite Raw. unfold parse_and_dispatch.
  destruct (zdrop_header b W) as (q' & ->); [unfold kHeaderLen; lia|].
  rewrite C, zdrop_app_r, zdrop_0 by (rewrite ?zlen_be_bytes; unfold kHeaderLen; lia).
  rewrite <- (app_assoc _ rest q'), (parse_classify bd cks) by (unfold kChecksumLen, kMaxMessageLen; lia).
  cbn [obind]. unfold kHeaderLen. rewrite R. by destruct (classify bd cks) as [[] []].
Qed.

(** A complete frame at the front of the content is delivered and consumed. *)
Lemma loop_frame fuel b m rest :
  rawCb_ = None -> wf b -> fits m -> content b = frame m ++ rest ->
  exists b', wf b' /\ content b' = rest /\ zlen (buffer_ b') = zlen (buffer_ b) /\
    onMessage_loop (S fuel) b =
      (let* (evs, b'') := onMessage_loop fuel b' in Ret (MessageCallback m :: evs, b'')).
Proof.
  intros Raw W F C. pose proof F as [_ Fl].
  destruct (loop_classify fuel b (body m) (adler32 (body m)) rest) as (b' & ? & ? & ? & E);
    [done|done|apply body_tag|done|done|]. exists b'. by rewrite classify_body in E.
Qed.

(** A strict prefix of a frame is left in the buffer. *)
Lemma loop_partial fuel b m x :
  wf b -> fits m -> content b ++ x = frame m -> x <> [] -> onMessage_loop (S fuel) b = Ret ([], b).
Proof.
  intros W F C X. pose proof F as [_ Fl]. pose proof (zlen_nonneg (body m)).
  pose proof (content_len b W) as L. cbn [onMessage_loop]. destruct min_len as [-> ->].
  case_decide as D; [|done].
  assert (0 < zlen x) by (destruct x; [done|rewrite zlen_cons; zlia]).
  pose proof (f_equal zlen C) as LC. unfold frame in LC. rewrite zlen_app, zlen_frame_of in LC.
  pose proof (zlen_nonneg tag_). unfold kHeaderLen, kChecksumLen in *.
  assert (content b = be_bytes 4 (zlen (body m) + 4) ++ zdrop 4 (content b)) as E.
  { rewrite <- (ztake_zdrop 4 (content b)) at 1. f_equal.
    rewrite <- (ztake_app_l 4 (content b) x), C by lia. unfold frame, frame_of, kChecksumLen.
    by rewrite ztake_app_l, ztake_all by zlia. }
  rewrite (peekInt32_ok host b _ _ W E). cbn [obind].
  pose proof (frame_header_value m F) as Hv. unfold kChecksumLen in Hv. rewrite Hv.
  case_decide as D2; [|].
  - exfalso. assert (zlen (body m) = zlen tag_ + zlen (SerializeToArray m)) as Lb by apply zlen_app.
    unfold kMaxMessageLen, kMinMessageLen, kChecksumLen in *. pose proof (zlen_nonneg (SerializeToArray m)). lia.
  - unfold kMaxMessageLen in *. rewrite wrap_small, decide_False by lia. done.
Qed.

Lemma be_bytes_i32 x : be_bytes 4 (i32 x) = be_bytes 4 x.
Proof. rewrite <- (be_bytes_wrap 4), <- (be_bytes_wrap 4 x). cbn. by rewrite wrap_swrap. Qed.

Lemma serializeToBuffer_ok m b :
  wf b -> fits m -> zlen (buffer_ b) + zlen (SerializeToArray m) + kChecksumLen <= max_size ->
  exists b', serializeToBuffer m b = Ret (zlen (SerializeToArray m), b') /\ wf b' /\
    content b' = content b ++ SerializeToArray m /\
    Z.min kCheapPrepend (readerIndex_ b) <= readerIndex_ b' /\
    zlen (buffer_ b') <= zlen (buffer_ b) + zlen (SerializeToArray m) + kChecksumLen.
Proof.
  intros W [I F] G. unfold serializeToBuffer. rewrite I, ByteSize_spec.
  pose proof (zlen_nonneg (SerializeToArray m)). pose proof (zlen_nonneg tag_).
  assert (zlen (body m) = zlen tag_ + zlen (SerializeToArray m)) as Lb by apply zlen_app.
  unfold kChecksumLen, kMaxMessageLen in *. rewrite swrap_small, wrap_small by lia.
  destruct (ensureWritableBytes_ok (zlen (SerializeToArray m) + 4) b) as (b1 & -> & W1 & C1 & G1 & R1 & L1);
    [done|lia|lia|]. cbn [obind].
  destruct (write_at_end_ok (SerializeToArray m) b1) as (b2 & -> & W2 & L2 & R2 & Wi2 & p & q & E & Hp);
    [done|lia|]. cbn [obind]. rewrite decide_True by done. unfold hasWritten.
  pose proof (writable_ok b1 W1). pose proof (writable_ok b2 W2).
  pose proof (readable_ok b1 W1). pose proof (readable_ok b2 W2).
  rewrite (wrap_small 64 (zlen _)) by lia.
  rewrite check_true by (apply bool_decide_eq_true; lia). rewrite wrap_small by buf_lia.
  destruct (advance_ok b2 p (content b1) (SerializeToArray m) q (zlen (SerializeToArray m))) as [W3 C3];
    try done; [lia|rewrite content_len by done; lia|].
  eexists. split; [done|]. rewrite C3, C1. split_and!; try done; cbn; lia.
Qed.

Lemma fillEmptyBuffer_ok m b :
  wf b -> fits m -> content b = [] -> kCheapPrepend <= readerIndex_ b ->
  zlen (buffer_ b) + zlen (body m) + 2 * kChecksumLen <= max_size ->
  exists b', fillEmptyBuffer m b = Ret b' /\ wf b' /\ content b' = frame m.
Proof.
  intros W Hf C0 R0 G. pose proof Hf as [_ F].
  pose proof (zlen_nonneg (SerializeToArray m)). pose proof (zlen_nonneg tag_).
  assert (zlen (body m) = zlen tag_ + zlen (SerializeToArray m)) as Lb by apply zlen_app.
  unfold fillEmptyBuffer. rewrite check_true
    by (apply bool_decide_eq_true; rewrite <- content_len, C0 by done; done).
  unfold kChecksumLen, kMaxMessageLen, kCheapPrepend in *.
  destruct (append_string_ok tag_ b) as (b1 & -> & W1 & C1 & R1 & L1); [done|lia|lia|]. cbn [obind].
  rewrite C0, app_nil_l in C1. unfold kCheapPrepend in *.
  destruct (serializeToBuffer_ok m b1) as (b2 & -> & W2 & C2 & R2 & L2);
    [done|done|unfold kChecksumLen in *; lia|]. cbn [obind].
  rewrite C1 in C2. change (tag_ ++ SerializeToArray m) with (body m) in C2.
  unfold kChecksumLen, kCheapPrepend in *.
  pose proof (content_len b2 W2) as Lc. rewrite C2 in Lc.
  destruct (zdrop_peek b2 W2) as (q & ->). unfold checksum. rewrite <- Lc, swrap_small by lia.
  rewrite load_ok, C2, ztake_app_l, ztake_all by (rewrite ?C2; zlia). cbn [obind].
  unfold appendInt32. destruct (network_mem host (i32 (adler32 (body m)))) as (_ & -> & _).
  rewrite be_bytes_i32.
  destruct (append_ok (be_bytes 4 (adler32 (body m))) 4 b2) as (b3 & -> & W3 & C3 & R3 & L3);
    [done|zlia|lia|]. cbn [obind]. rewrite C2, ztake_all in C3 by zlia. unfold kCheapPrepend in *.
  pose proof (content_len b3 W3) as Lc3. rewrite C3, zlen_app, zlen_be_bytes in Lc3.
  rewrite (wrap_small 64 (zlen tag_ + _)), (wrap_small 64 (_ + 4)) by lia.
  rewrite check_true by (apply bool_decide_eq_true; lia).
  rewrite <- Lc3, (swrap_small 32 (zlen (body m) + _)) by lia.
  destruct (network_mem host (zlen (body m) + Z.of_nat 4)) as (_ & -> & _).
  destruct (prepend_ok (be_bytes 4 (zlen (body m) + Z.of_nat 4)) 4 b3) as (b4 & -> & W4 & C4 & _);
    [done|zlia|unfold prependableBytes; lia|].
  exists b4. split_and!; [done|done|]. rewrite C4, ztake_all, C3 by zlia. done.
Qed.

Lemma send_ok m : fits m -> send m = Ret (frame m).
Proof.
  intros F. unfold send.
  destruct (newBuffer_ok kInitialSize) as (b & -> & W & C & _ & R & L); [done|]. cbn [obind].
  destruct (fillEmptyBuffer_ok m b) as (b' & -> & _ & C'); [done|done|done|lia| |].
  - destruct F as [_ F]. rewrite L. unfold kMaxMessageLen, kInitialSize, kCheapPrepend, kChecksumLen, max_size in *. lia.
  - cbn. by rewrite C'.
Qed.

(** ** A stream cut into arbitrary chunks *)

(** Each chunk is appended to the input buffer and [onMessage] is called. *)
Fixpoint receive (chunks : list (list byte)) (b : Buffer) : outcome (list event * Buffer) :=
  match chunks with
  | [] => Ret ([], b)
  | c :: chunks =>
      let* b := append_bytes c b in
      let* (evs, b) := onMessage b in
      let* (evs', b) := receive chunks b in
      Ret (evs ++ evs', b)
  end.

Definition frames (ms : list message) : list byte := concat (map frame ms).

(** No complete frame is left. *)
Definition incomplete (b : Buffer) (ms : list message) : Prop :=
  match ms with [] => True | m :: _ => zlen (content b) < zlen (frame m) end.

Lemma loop_frames ms fuel b tail :
  rawCb_ = None -> wf b -> Forall fits ms -> content b ++ tail = frames ms ->
  (length (content b) < fuel)%nat ->
  exists ms1 ms2 b', ms = ms1 ++ ms2 /\
    onMessage_loop fuel b = Ret (map MessageCallback ms1, b') /\ wf b' /\
    content b' ++ tail = frames ms2 /\ zlen (buffer_ b') = zlen (buffer_ b) /\ incomplete b' ms2.
Proof.
  intros Raw. revert fuel b. induction ms as [|m ms IH]; intros fuel b W F E L.
  - exists [], [], b. apply app_eq_nil in E as [E ->]. rewrite E in L. destruct fuel; [cbn in L; lia|].
    split_and!; try done; [|by rewrite E].
    cbn [onMessage_loop]. destruct min_len as [_ ->]. pose proof (zlen_nonneg tag_).
    rewrite decide_False; [done|]. rewrite <- content_len, E by done.
    unfold kChecksumLen, kHeaderLen. rewrite zlen_nil. lia.
  - apply Forall_cons in F as [Fm F]. change (frames (m :: ms)) with (frame m ++ frames ms) in E.
    destruct fuel as [|fuel]; [lia|].
    destruct (decide (zlen (content b) < zlen (frame m))) as [S|S].
    + exists [], (m :: ms), b. split_and!; try done.
      assert (content b ++ zdrop (zlen (content b)) (frame m) = frame m) as E'.
      { rewrite <- (ztake_zdrop (zlen (content b)) (frame m)) at 2. f_equal.
        pose proof (f_equal (ztake (zlen (content b))) E) as T.
        rewrite !ztake_app_l in T by zlia. by rewrite ztake_all in T by lia. }
      apply (loop_partial fuel b m (zdrop (zlen (content b)) (frame m))); try done.
      intros X. apply (f_equal zlen) in X. rewrite zlen_zdrop in X by zlia. rewrite zlen_nil in X. lia.
    + pose proof (f_equal (ztake (zlen (frame m))) E) as T.
      rewrite !ztake_app_l in T by zlia. rewrite (ztake_all _ (frame m)) in T by lia.
      rewrite <- (ztake_zdrop (zlen (frame m)) (content b)), T, <- app_assoc in E.
      apply app_inv_head in E.
      destruct (loop_frame fuel b m (zdrop (zlen (frame m)) (content b)) Raw W Fm) as (b1 & W1 & C1 & L1 & ->).
      { transitivity (ztake (zlen (frame m)) (content b) ++ zdrop (zlen (frame m)) (content b));
          [by rewrite ztake_zdrop|by rewrite T]. }
      destruct (IH fuel b1) as (ms1 & ms2 & b2 & -> & -> & W2 & C2 & L2 & I2); try done; [by rewrite C1| |].
      { rewrite C1. assert (0 < zlen (frame m)) by (unfold frame; rewrite zlen_frame_of; unfold kHeaderLen, kChecksumLen; zlia).
        pose proof (zlen_zdrop (zlen (frame m)) (content b) ltac:(zlia)) as Z. unfold zlen in *. lia. }
      exists (m :: ms1), ms2, b2. split_and!; try done. lia.
Qed.

Lemma receive_frames chunks ms b :
  rawCb_ = None -> wf b -> Forall fits ms -> content b ++ concat chunks = frames ms -> incomplete b ms ->
  zlen (buffer_ b) + zlen (concat chunks) <= max_size ->
  exists b', receive chunks b = Ret (map MessageCallback ms, b') /\ wf b' /\ content b' = [].
Proof.
  intros Raw. revert ms b. induction chunks as [|c chunks IH]; intros ms b W F E I G; cbn [receive concat] in *.
  - rewrite app_nil_r in E. exists b. destruct ms as [|m ms]; [done|]. exfalso. unfold incomplete in I.
    rewrite E in I. change (frames (m :: ms)) with (frame m ++ frames ms) in I. rewrite zlen_app in I. pose proof (zlen_nonneg (frames ms)). lia.
  - rewrite zlen_app in G. pose proof (zlen_nonneg (concat chunks)).
    destruct (append_bytes_ok c b W) as (b1 & -> & W1 & C1 & _ & L1); [lia|]. cbn [obind].
    destruct (loop_frames ms (S (length (content b1))) b1 (concat chunks)) as (ms1 & ms2 & b2 & -> & E2 & W2 & C2 & L2 & I2);
      try done; [by rewrite C1, <- app_assoc|lia|].
    unfold onMessage. rewrite E2. cbn [obind].
    apply Forall_app in F as [_ F2].
    destruct (IH ms2 b2) as (b' & -> & W' & C'); try done; [lia|]. cbn. exists b'.
    by rewrite map_app.
Qed.
End Codec.

(** Whatever bytes a peer sends, [onMessage] returns: no assertion fails,
    nothing is read outside the buffer and the loop ends. It keeps the buffer's
    invariant, never reallocates, and leaves a suffix of the bytes it was
    given. *)
Theorem onMessage_total {message} (ParseFromArray : list byte -> option message)
    (adler32 : list byte -> Z) (host : endian) (tag : list byte)
    (rawCb : option (list byte -> bool)) (b : Buffer) :
  zlen tag + kChecksumLen <= kMaxMessageLen -> wf b ->
  exists evs b', onMessage ParseFromArray adler32 host tag rawCb b = Ret (evs, b') /\
    wf b' /\ zlen (buffer_ b') = zlen (buffer_ b) /\ content b' `suffix_of` content b.
Proof. intros T W. apply onMessage_loop_good; [done|done|]. lia. Qed.

(** A toy instance: messages are byte strings, the checksum is their length. *)
Definition toy_parse (d : list byte) : option (list byte) := Some d.
Definition toy_adler (d : list byte) : Z := zlen d.

Lemma onMessage_total_witness :
  exists evs b', onMessage toy_parse toy_adler LittleEndian (bytes "RPC0") None
    (sample_buffer (be_bytes 4 5 ++ bytes "garbage!")) = Ret (evs, b') /\ evs = [ErrorCallback kInvalidLength].
Proof.
  destruct (onMessage_total toy_parse toy_adler LittleEndian (bytes "RPC0") None
    (sample_buffer (be_bytes 4 5 ++ bytes "garbage!"))) as (evs & b' & E & _); [by vm_compute..|].
  exists evs, b'. split; [exact E|]. by vm_compute in E; injection E as <- _.
Defined.

(** C3. The codec's round trip: the bytes [send] produces for a sequence of
    messages, cut into chunks in any way on their way to the receiver, make
    [onMessage] deliver exactly those messages, once each and in order, with no
    error, and leave the input buffer empty. Sender and receiver may have
    different byte orders. *)
Theorem codec_stream_roundtrip {message} (IsInitialized : message -> bool) (ByteSize : message -> Z)
    (Serialize : message -> list byte) (Parse : list byte -> option message)
    (adler32 : list byte -> Z) (sender receiver : endian) (tag : list byte)
    (ms : list message) (chunks : list (list byte)) (b : Buffer) :
  (forall m, ByteSize m = zlen (Serialize m)) -> (forall m, Parse (Serialize m) = Some m) ->
  zlen tag + kChecksumLen <= kMaxMessageLen ->
  Forall (fits IsInitialized Serialize tag) ms ->
  wf b -> content b = [] -> zlen (buffer_ b) + zlen (concat chunks) <= max_size ->
  Forall2 (fun m sent => send IsInitialized ByteSize Serialize adler32 sender tag m = Ret sent) ms
    (map (frame Serialize adler32 tag) ms) /\
  (concat chunks = concat (map (frame Serialize adler32 tag) ms) ->
   exists b', receive Parse adler32 receiver tag None chunks b = Ret (map MessageCallback ms, b') /\
     wf b' /\ content b' = []).
Proof.
  intros HB HP T F W C G. split.
  - clear - HB T F. induction F; cbn; constructor; [|done]. by apply send_ok.
  - intros E. eapply receive_frames; try done; [by rewrite C|].
    unfold incomplete. destruct ms; [done|]. rewrite C, zlen_nil. unfold frame. rewrite zlen_frame_of.
    unfold kHeaderLen, kChecksumLen. zlia.
Qed.

Lemma codec_stream_roundtrip_witness :
  let ms := [bytes "hi"; bytes ""; bytes "there"] in
  let fr := frame id toy_adler (bytes "T0") in
  exists b', receive toy_parse toy_adler BigEndian (bytes "T0") None
     [ztake 3 (concat (map fr ms)); []; zdrop 3 (concat (map fr ms))] (sample_buffer []) =
     Ret (map MessageCallback ms, b') /\ content b' = [].
Proof.
  intros ms fr.
  destruct (codec_stream_roundtrip (fun _ => true) zlen id toy_parse toy_adler LittleEndian BigEndian
    (bytes "T0") ms [ztake 3 (concat (map fr ms)); []; zdrop 3 (concat (map fr ms))] (sample_buffer []))
    as [_ R].
  - intros m. reflexivity.
  - intros m. reflexivity.
  - by vm_compute.
  - repeat apply Forall_cons_2; [split; [reflexivity|by vm_compute]..|apply Forall_nil_2].
  - by vm_compute.
  - reflexivity.
  - by vm_compute.
  - destruct R as (b' & R & _ & C); [reflexivity|]. exists b'. split; [exact R|exact C].
Defined.

(** C40. How [onMessage] treats the frame at the front of the buffer when no
    raw callback is set: a length field out of range, a wrong checksum, a
    foreign tag and an unparsable payload are reported with their error codes
    and leave the buffer as it was (the loop breaks). *)
Theorem onMessage_rejects {message} (Parse : list byte -> option message)
    (adler32 : list byte -> Z) (host : endian) (tag : list byte) (b : Buffer) :
  zlen tag + kChecksumLen <= kMaxMessageLen -> wf b ->
  (forall len rest, content b = be_bytes 4 len ++ rest -> zlen tag + kChecksumLen <= zlen rest ->
     i32 len < zlen tag + kChecksumLen \/ kMaxMessageLen < i32 len ->
     onMessage Parse adler32 host tag None b = Ret ([ErrorCallback kInvalidLength], b)) /\
  (forall bd cks rest, content b = (be_bytes 4 (zlen bd + kChecksumLen) ++ bd ++ be_bytes 4 cks) ++ rest ->
     zlen tag <= zlen bd -> zlen bd + kChecksumLen <= kMaxMessageLen ->
     (i32 cks <> i32 (adler32 bd) ->
        onMessage Parse adler32 host tag None b = Ret ([ErrorCallback kCheckSumError], b)) /\
     (i32 cks = i32 (adler32 bd) -> ztake (zlen tag) bd <> tag ->
        onMessage Parse adler32 host tag None b = Ret ([ErrorCallback kUnknownMessageType], b)) /\
     (i32 cks = i32 (adler32 bd) -> ztake (zlen tag) bd = tag -> Parse (zdrop (zlen tag) bd) = None ->
        onMessage Parse adler32 host tag None b = Ret ([ErrorCallback kParseError], b))).
Proof.
  intros T W. split.
  - intros len rest C Hr Hl. unfold onMessage. cbn [onMessage_loop].
    destruct (min_len tag T) as [-> ->]. pose proof (content_len b W) as L. rewrite C in L.
    autorewrite with zlist in L. unfold kHeaderLen, kChecksumLen in *.
    rewrite decide_True by lia. rewrite (peekInt32_ok host b _ _ W C). cbn [obind].
    by rewrite decide_True by lia.
  - intros bd cks rest C Ht Hm. unfold onMessage.
    destruct (loop_classify Parse adler32 host tag None T (length (content b)) b bd cks rest)
      as (b' & _ & _ & _ & ->); try done. unfold classify.
    split_and!; intros E; [by rewrite decide_False by done|intros Et|intros Et Ep].
    + by rewrite decide_True, decide_False by done.
    + by rewrite decide_True, decide_True, Ep by done.
Qed.

Lemma onMessage_rejects_witness :
  onMessage toy_parse toy_adler LittleEndian (bytes "T0") None
    (sample_buffer ((be_bytes 4 8 ++ bytes "T0ab" ++ be_bytes 4 5) ++ [])) =
    Ret ([ErrorCallback kCheckSumError],
         sample_buffer ((be_bytes 4 8 ++ bytes "T0ab" ++ be_bytes 4 5) ++ [])).
Proof.
  destruct (onMessage_rejects toy_parse toy_adler LittleEndian (bytes "T0")
    (sample_buffer ((be_bytes 4 8 ++ bytes "T0ab" ++ be_bytes 4 5) ++ []))) as [_ R];
    [by vm_compute..|].
  destruct (R (bytes "T0ab") 5 []) as [R1 _]; [reflexivity|by vm_compute..|].
  apply R1. by vm_compute.
Defined.
End Codec.
