(* ===== verification/Http.v ===== *)
(** * HTTP (src/muduo/muduo/net/http/)

    [HttpRequest], the incremental parser [HttpContext], [HttpResponse] and the
    callbacks of [HttpServer]. Pointers into the input buffer are the byte
    strings between them; calls on the connection are recorded as actions. *)

From S2P Require Import Prelude Format StringPiece StdMap Buffer.

Module Http.

(** ** HttpRequest *)

Inductive Method := kInvalid | kGet | kPost | kHead | kPut | kDelete.
Inductive Version := kUnknown | kHttp10 | kHttp11.

#[export] Instance Method_eq_dec : EqDecision Method.
Proof. solve_decision. Defined.
#[export] Instance Version_eq_dec : EqDecision Version.
Proof. solve_decision. Defined.

Record HttpRequest := mkRequest {
  method_ : Method;
  version_ : Version;
  path_ : list byte;
  query_ : list byte;
  receiveTime_ : Z;
  headers_ : list (list byte * list byte)
}.

Definition newRequest : HttpRequest := mkRequest kInvalid kUnknown [] [] 0 [].

Definition setVersion (v : Version) (r : HttpRequest) : HttpRequest :=
  mkRequest (method_ r) v (path_ r) (query_ r) (receiveTime_ r) (headers_ r).
Definition setPath (p : list byte) (r : HttpRequest) : HttpRequest :=
  mkRequest (method_ r) (version_ r) p (query_ r) (receiveTime_ r) (headers_ r).
Definition setQuery (q : list byte) (r : HttpRequest) : HttpRequest :=
  mkRequest (method_ r) (version_ r) (path_ r) q (receiveTime_ r) (headers_ r).
Definition setReceiveTime (t : Z) (r : HttpRequest) : HttpRequest :=
  mkRequest (method_ r) (version_ r) (path_ r) (query_ r) t (headers_ r).

Definition method_of (m : list byte) : Method :=
  if decide (m = bytes "GET") then kGet
  else if decide (m = bytes "POST") then kPost
  else if decide (m = bytes "HEAD") then kHead
  else if decide (m = bytes "PUT") then kPut
  else if decide (m = bytes "DELETE") then kDelete
  else kInvalid.

Definition setMethod (m : list byte) (r : HttpRequest) : outcome (bool * HttpRequest) :=
  assert* bool_decide (method_ r = kInvalid) in
  let r' := mkRequest (method_of m) (version_ r) (path_ r) (query_ r) (receiveTime_ r) (headers_ r) in
  Ret (bool_decide (method_ r' <> kInvalid), r').

Definition methodString (r : HttpRequest) : list byte :=
  match method_ r with
  | kGet => bytes "GET"
  | kPost => bytes "POST"
  | kHead => bytes "HEAD"
  | kPut => bytes "PUT"
  | kDelete => bytes "DELETE"
  | kInvalid => bytes "UNKNOWN"
  end.

Fixpoint skip_spaces (l : list byte) : list byte :=
  match l with
  | b :: l' => if isspace b then skip_spaces l' else l
  | [] => []
  end.
Definition trim_right (l : list byte) : list byte := rev (skip_spaces (rev l)).

(** [addHeader(start, colon, end)]; [after] is what follows the colon. *)
Definition addHeader (field after : list byte) (r : HttpRequest) : HttpRequest :=
  let value := trim_right (skip_spaces after) in
  mkRequest (method_ r) (version_ r) (path_ r) (query_ r) (receiveTime_ r)
    (map_set field value (headers_ r)).

Definition getHeader (field : list byte) (r : HttpRequest) : list byte :=
  match map_find field (headers_ r) with Some v => v | None => [] end.

(** [swap]: the two requests afterwards. *)
Definition req_swap (this that : HttpRequest) : HttpRequest * HttpRequest := (that, this).

(** ** HttpContext *)

Inductive HttpRequestParseState := kExpectRequestLine | kExpectHeaders | kExpectBody | kGotAll.

Record HttpContext := mkContext {
  state_ : HttpRequestParseState;
  request_ : HttpRequest
}.

Definition newContext : HttpContext := mkContext kExpectRequestLine newRequest.
Definition gotAll (c : HttpContext) : bool :=
  match state_ c with kGotAll => true | _ => false end.
Definition reset (c : HttpContext) : HttpContext :=
  let '(request, dummy) := req_swap (request_ c) newRequest in mkContext kExpectRequestLine request.

Definition SP : byte := Byte.x20.
Definition QM : byte := Byte.x3f.
Definition COLON : byte := Byte.x3a.

(** [processRequestLine(begin, end)] on the line [l] without its CRLF: the
    result and the request, which the failing paths leave partly filled. *)
Definition processRequestLine (l : list byte) (r : HttpRequest) : outcome (bool * HttpRequest) :=
  let space := std_find SP l in
  if decide (space = zlen l) then Ret (false, r)
  else
    let* (okm, r) := setMethod (ztake space l) r in
    if okm then
      let l := zdrop (space + 1) l in
      let space := std_find SP l in
      if decide (space = zlen l) then Ret (false, r)
      else
        let target := ztake space l in
        let question := std_find QM target in
        let r := if decide (question = zlen target) then setPath target r
                 else setQuery (zdrop question target) (setPath (ztake question target) r) in
        let l := zdrop (space + 1) l in
        if decide (zlen l = 8 /\ ztake 7 l = bytes "HTTP/1.") then
          match l !! 7%nat with
          | Some c => if decide (c = digit 1) then Ret (true, setVersion kHttp11 r)
                      else if decide (c = digit 0) then Ret (true, setVersion kHttp10 r)
                      else Ret (false, r)
          | None => Stop OutOfRange
          end
        else Ret (false, r)
    else Ret (false, r).

(** [parseRequest]: the loop on [hasMore]. *)
Fixpoint parseRequest_loop (fuel : nat) (receiveTime : Z) (c : HttpContext) (buf : Buffer)
    : outcome (bool * HttpContext * Buffer) :=
  match fuel with
  | O => Stop NoFuel
  | S fuel =>
    match state_ c with
    | kExpectRequestLine =>
        match findCRLF buf with
        | Some crlf =>
            let* (ok, r) := processRequestLine (slice (buffer_ buf) (peek buf) crlf) (request_ c) in
            if ok then
              let* buf' := retrieveUntil (crlf + 2) buf in
              parseRequest_loop fuel receiveTime (mkContext kExpectHeaders (setReceiveTime receiveTime r)) buf'
            else Ret (false, mkContext (state_ c) r, buf)
        | None => Ret (true, c, buf)
        end
    | kExpectHeaders =>
        match findCRLF buf with
        | Some crlf =>
            let line := slice (buffer_ buf) (peek buf) crlf in
            let colon := std_find COLON line in
            if decide (colon = zlen line) then
              let* buf' := retrieveUntil (crlf + 2) buf in
              Ret (true, mkContext kGotAll (request_ c), buf')
            else
              let r := addHeader (ztake colon line) (zdrop (colon + 1) line) (request_ c) in
              let* buf' := retrieveUntil (crlf + 2) buf in
              parseRequest_loop fuel receiveTime (mkContext kExpectHeaders r) buf'
        | None => Ret (true, c, buf)
        end
    | kExpectBody | kGotAll => parseRequest_loop fuel receiveTime c buf
    end
  end.

(** Each round that continues consumes a line, at least two bytes. *)
Definition parseRequest (receiveTime : Z) (c : HttpContext) (buf : Buffer)
    : outcome (bool * HttpContext * Buffer) :=
  parseRequest_loop (S (length (content buf))) receiveTime c buf.

(** ** HttpResponse *)

Record HttpResponse := mkResponse {
  resp_headers_ : list (list byte * list byte);
  statusCode_ : Z;
  statusMessage_ : list byte;
  closeConnection_ : bool;
  body_ : list byte
}.

Definition newResponse (close : bool) : HttpResponse := mkResponse [] 0 [] close [].
Definition setStatusCode (code : Z) (r : HttpResponse) : HttpResponse :=
  mkResponse (resp_headers_ r) code (statusMessage_ r) (closeConnection_ r) (body_ r).
Definition setStatusMessage (msg : list byte) (r : HttpResponse) : HttpResponse :=
  mkResponse (resp_headers_ r) (statusCode_ r) msg (closeConnection_ r) (body_ r).
Definition setCloseConnection (on : bool) (r : HttpResponse) : HttpResponse :=
  mkResponse (resp_headers_ r) (statusCode_ r) (statusMessage_ r) on (body_ r).
Definition resp_addHeader (k v : list byte) (r : HttpResponse) : HttpResponse :=
  mkResponse (map_set k v (resp_headers_ r)) (statusCode_ r) (statusMessage_ r) (closeConnection_ r) (body_ r).
Definition setContentType (t : list byte) (r : HttpResponse) : HttpResponse :=
  resp_addHeader (bytes "Content-Type") t r.
Definition setBody (b : list byte) (r : HttpResponse) : HttpResponse :=
  mkResponse (resp_headers_ r) (statusCode_ r) (statusMessage_ r) (closeConnection_ r) b.

Fixpoint append_headers (hs : list (list byte * list byte)) (output : Buffer) : outcome Buffer :=
  match hs with
  | [] => Ret output
  | (k, v) :: hs =>
      let* output := append_string k output in
      let* output := append_string (bytes ": ") output in
      let* output := append_string v output in
      let* output := append_string kCRLF output in
      append_headers hs output
  end.

Definition appendToBuffer (r : HttpResponse) (output : Buffer) : outcome Buffer :=
  let* output := append_string (snprintf 32 (bytes "HTTP/1.1 " ++ fmt_d (statusCode_ r) ++ [SP])) output in
  let* output := append_string (statusMessage_ r) output in
  let* output := append_string kCRLF output in
  let* output :=
    (if closeConnection_ r then append_string (bytes "Connection: close" ++ kCRLF) output
     else
       let* output := append_string
         (snprintf 32 (bytes "Content-Length: " ++ fmt_d (zlen (body_ r)) ++ kCRLF)) output in
       append_string (bytes "Connection: Keep-Alive" ++ kCRLF) output) in
  let* output := append_headers (resp_headers_ r) output in
  let* output := append_string kCRLF output in
  append_string (body_ r) output.

(** ** HttpServer *)

(** The calls a callback of the server makes on the connection. *)
Inductive action :=
  | ConnSend (data : list byte)
  | ConnShutdown.

Definition defaultHttpCallback (req : HttpRequest) (resp : HttpResponse) : HttpResponse :=
  setCloseConnection true (setStatusMessage (bytes "Not Found") (setStatusCode 404 resp)).

(** The context of a connection, set when it is established. *)
Definition onConnection (connected : bool) (context : option HttpContext) : option HttpContext :=
  if connected then Some newContext else context.

Section Server.
Context (httpCallback_ : HttpRequest -> HttpResponse -> HttpResponse).

Definition onRequest (req : HttpRequest) : outcome (list action) :=
  let connection := getHeader (bytes "Connection") req in
  let close := bool_decide (connection = bytes "close") ||
    (bool_decide (version_ req = kHttp10) && bool_decide (connection <> bytes "Keep-Alive")) in
  let response := httpCallback_ req (newResponse close) in
  let* buf := newBuffer kInitialSize in
  let* buf := appendToBuffer response buf in
  Ret (ConnSend (content buf) :: if closeConnection_ response then [ConnShutdown] else []).

Definition onMessage (receiveTime : Z) (context : HttpContext) (buf : Buffer)
    : outcome (list action * HttpContext * Buffer) :=
  let* (ok, context, buf) := parseRequest receiveTime context buf in
  let acts := if ok then []
    else [ConnSend (bytes "HTTP/1.1 400 Bad Request" ++ kCRLF ++ kCRLF); ConnShutdown] in
  if gotAll context then
    let* acts' := onRequest (request_ context) in
    Ret (acts ++ acts', reset context, buf)
  else Ret (acts, context, buf).
End Server.

(** ** The parser on byte strings *)

(** The line up to the first CRLF and what follows it. *)
Definition split_line (c : list byte) : option (list byte * list byte) :=
  let i := std_search kCRLF c in
  if decide (i = zlen c) then None else Some (ztake i c, zdrop (i + 2) c).

Fixpoint parse_text (fuel : nat) (t : Z) (c : HttpContext) (text : list byte)
    : outcome (bool * HttpContext * list byte) :=
  match fuel with
  | O => Stop NoFuel
  | S fuel =>
    match state_ c with
    | kExpectRequestLine =>
        match split_line text with
        | Some (line, rest) =>
            let* (ok, r) := processRequestLine line (request_ c) in
            if ok then parse_text fuel t (mkContext kExpectHeaders (setReceiveTime t r)) rest
            else Ret (false, mkContext (state_ c) r, text)
        | None => Ret (true, c, text)
        end
    | kExpectHeaders =>
        match split_line text with
        | Some (line, rest) =>
            let colon := std_find COLON line in
            if decide (colon = zlen line) then Ret (true, mkContext kGotAll (request_ c), rest)
            else parse_text fuel t
              (mkContext kExpectHeaders (addHeader (ztake colon line) (zdrop (colon + 1) line) (request_ c))) rest
        | None => Ret (true, c, text)
        end
    | kExpectBody | kGotAll => parse_text fuel t c text
    end
  end.

Lemma split_line_spec c line rest :
  split_line c = Some (line, rest) -> c = line ++ kCRLF ++ rest /\ zlen line = std_search kCRLF c.
Proof.
  unfold split_line. pose proof (std_search_range kCRLF c) as R. case_decide as D; [done|].
  intros [= <- <-]. rewrite zlen_ztake by lia. split; [|done].
  destruct (std_search_hit kCRLF c) as (k & E); [done|done|].
  assert (zdrop (std_search kCRLF c) c = kCRLF ++ k) as Z.
  { apply (app_inv_head (ztake (std_search kCRLF c) c)). by rewrite ztake_zdrop. }
  rewrite <- zdrop_zdrop by zlia. rewrite Z. rewrite zdrop_app_r by (unfold kCRLF; zlia).
  rewrite zdrop_0 by (unfold kCRLF; zlia). done.
Qed.

Lemma split_line_shorter c line rest :
  split_line c = Some (line, rest) -> (length rest + 2 <= length c)%nat.
Proof. intros H. apply split_line_spec in H as [-> _]. rewrite !length_app. cbn. lia. Qed.

(** What [findCRLF], the slice up to it and [retrieveUntil] past it compute. *)
Lemma line_ops b :
  wf b ->
  match split_line (content b) with
  | Some (line, rest) => exists crlf b', findCRLF b = Some crlf /\
      slice (buffer_ b) (peek b) crlf = line /\
      retrieveUntil (crlf + 2) b = Ret b' /\ wf b' /\ content b' = rest
  | None => findCRLF b = None
  end.
Proof.
  intros W. destruct (split_line (content b)) as [[line rest]|] eqn:E.
  - pose proof (content_len b W) as L. rewrite readable_ok in L by done.
    pose proof E as E'. apply split_line_spec in E' as [C Hl].
    assert (zlen (content b) = zlen line + 2 + zlen rest) as Lc by (rewrite C at 1; unfold kCRLF; zlia).
    unfold findCRLF. rewrite region_content. unfold peek, beginWrite in *.
    rewrite decide_False by (rewrite <- Hl; zlia). rewrite <- Hl.
    destruct (retrieveUntil_ok (readerIndex_ b + zlen line + 2) b W) as (b' & R & W' & C' & _).
    { unfold peek, beginWrite. zlia. }
    exists (readerIndex_ b + zlen line), b'. split_and!; try done.
    + transitivity (ztake (zlen line) (content b)).
      * unfold content. rewrite ztake_slice by zlia. done.
      * rewrite C, ztake_app_l, ztake_all by zlia. done.
    + rewrite C'. unfold peek. replace (_ - _) with (zlen line + 2) by lia.
      rewrite C, zdrop_app_r, zdrop_app_r, zdrop_0 by (unfold kCRLF; zlia). done.
  - unfold split_line in E. case_decide as D; [|done]. unfold findCRLF. rewrite region_content, D.
    rewrite content_len, readable_ok by done. rewrite decide_True; [done|].
    unfold peek, beginWrite. lia.
Qed.

(** The loop on the buffer computes the parser on its content. *)
Lemma parseRequest_loop_text fuel t c b :
  wf b ->
  match parse_text fuel t c (content b) with
  | Ret (ok, c', rest) => exists b', parseRequest_loop fuel t c b = Ret (ok, c', b') /\ wf b' /\
      content b' = rest
  | Stop f => parseRequest_loop fuel t c b = Stop f
  end.
Proof.
  revert c b. induction fuel as [|fuel IH]; intros c b W; [done|]. cbn [parse_text parseRequest_loop].
  pose proof (line_ops b W) as L. destruct (state_ c) eqn:S; [| |by apply IH..].
  - destruct (split_line (content b)) as [[line rest]|]; [|rewrite L; by exists b].
    destruct L as (crlf & b' & -> & -> & -> & W' & <-).
    destruct (processRequestLine line (request_ c)) as [[[] r]|]; cbn [obind]; [by apply IH|by exists b|done].
  - destruct (split_line (content b)) as [[line rest]|]; [|rewrite L; by exists b].
    destruct L as (crlf & b' & -> & -> & -> & W' & <-). cbn [obind].
    case_decide; [by exists b'|by apply IH].
Qed.

(** ** Totality, and independence of the chunking *)

(** A context [parseRequest] may be called on: no request is complete, and the
    method has not been set yet while the request line is expected. *)
Definition ready (c : HttpContext) : Prop :=
  match state_ c with
  | kExpectRequestLine => method_ (request_ c) = kInvalid
  | kExpectHeaders => True
  | _ => False
  end.

Lemma processRequestLine_ret l r :
  method_ r = kInvalid -> exists ok r', processRequestLine l r = Ret (ok, r').
Proof.
  intros M. unfold processRequestLine, setMethod. case_decide; [by do 2 eexists|].
  rewrite check_true by (by apply bool_decide_eq_true). cbn [obind].
  case_bool_decide; [|by do 2 eexists]. case_decide; [by do 2 eexists|].
  case_decide as D; [|by do 2 eexists]. destruct D as [D _].
  destruct (lookup_lt_is_Some_2 (zdrop (std_find SP (zdrop (std_find SP l + 1) l) + 1)
    (zdrop (std_find SP l + 1) l)) 7) as (c & ->); [unfold zlen in D; lia|].
  repeat case_decide; by do 2 eexists.
Qed.

Lemma parse_text_total fuel t c text :
  ready c -> (length text < fuel)%nat ->
  exists ok c' rest, parse_text fuel t c text = Ret (ok, c', rest) /\
    rest `suffix_of` text /\ (ok = true -> ready c' \/ state_ c' = kGotAll) /\
    (ok = false -> state_ c' = kExpectRequestLine).
Proof.
  revert c text. induction fuel as [|fuel IH]; intros c text Hc Hf; [lia|]. cbn [parse_text].
  assert (suffix_split : forall line rest rest', split_line text = Some (line, rest) ->
    rest' `suffix_of` rest -> rest' `suffix_of` text).
  { intros line rest rest' E S. apply split_line_spec in E as [-> _]. etrans; [done|].
    exists (line ++ kCRLF). by rewrite <- app_assoc. }
  unfold ready in Hc. destruct (state_ c) eqn:S; [| |done..].
  - destruct (split_line text) as [[line rest]|] eqn:E.
    2: { exists true, c, text. split_and!; try done. intros _. left. unfold ready. by rewrite S. }
    destruct (processRequestLine_ret line (request_ c) Hc) as (ok & r & ->). cbn [obind].
    destruct ok; [|by exists false, (mkContext kExpectRequestLine r), text].
    pose proof (split_line_shorter _ _ _ E).
    destruct (IH (mkContext kExpectHeaders (setReceiveTime t r)) rest) as (ok & c' & rest' & ? & ? & ?);
      [done|lia|]. exists ok, c', rest'. eauto.
  - destruct (split_line text) as [[line rest]|] eqn:E.
    2: { exists true, c, text. split_and!; try done. intros _. left. unfold ready. by rewrite S. }
    pose proof (split_line_shorter _ _ _ E). case_decide.
    + eexists true, _, rest. split_and!; [done|by eapply suffix_split|by right|done].
    + destruct (IH (mkContext kExpectHeaders (addHeader (ztake (std_find COLON line) line)
        (zdrop (std_find COLON line + 1) line) (request_ c))) rest) as (ok & c' & rest' & ? & ? & ?);
        [done|lia|]. exists ok, c', rest'. eauto.
Qed.

(** More fuel than needed changes nothing. *)
Lemma parse_text_fuel fuel fuel' t c text :
  ready c -> (length text < fuel <= fuel')%nat ->
  parse_text fuel' t c text = parse_text fuel t c text.
Proof.
  revert fuel' c text. induction fuel as [|fuel IH]; intros fuel' c text Hc Hf; [lia|].
  destruct fuel' as [|fuel']; [lia|]. cbn [parse_text]. unfold ready in Hc.
  destruct (state_ c); [| |done..].
  - destruct (split_line text) as [[line rest]|] eqn:E; [|done]. pose proof (split_line_shorter _ _ _ E).
    destruct (processRequestLine_ret line (request_ c) Hc) as ([] & r & ->); cbn [obind]; [|done].
    apply IH; [done|lia].
  - destruct (split_line text) as [[line rest]|] eqn:E; [|done]. pose proof (split_line_shorter _ _ _ E).
    case_decide; [done|]. apply IH; [done|lia].
Qed.

Lemma std_search_cons p x l :
  std_search p (x :: l) = if is_prefix p (x :: l) then 0 else 1 + std_search p l.
Proof. done. Qed.

Lemma is_prefix_CRLF_app c d :
  (2 <= length c)%nat -> is_prefix kCRLF (c ++ d) = is_prefix kCRLF c.
Proof. destruct c as [|x [|y c]]; cbn; [lia|lia|done]. Qed.

Lemma split_line_app c d line rest :
  split_line c = Some (line, rest) -> split_line (c ++ d) = Some (line, rest ++ d).
Proof.
  intros H. pose proof H as E. apply split_line_spec in E as [E L].
  assert (std_search kCRLF (c ++ d) = zlen line) as S.
  { rewrite L. clear H. subst c. clear L.
    induction line as [|x line IH]; [done|]. rewrite <- !app_comm_cons, !std_search_cons, IH.
    rewrite app_comm_cons, is_prefix_CRLF_app; [done|]. cbn. rewrite length_app. cbn. lia. }
  unfold split_line. rewrite S, decide_False by (rewrite E; unfold kCRLF; zlia).
  rewrite E, <- app_assoc. rewrite ztake_app_l, ztake_all by zlia.
  rewrite zdrop_app_r by zlia. rewrite <- app_assoc, zdrop_app_r, zdrop_0 by (unfold kCRLF; zlia). done.
Qed.

(** Parsing a longer text resumes where parsing the shorter one stopped. *)
Lemma parse_text_app fuel t c text d ok c' rest :
  ready c -> (length (text ++ d) < fuel)%nat ->
  parse_text fuel t c text = Ret (ok, c', rest) ->
  parse_text fuel t c (text ++ d) =
    if ok && negb (gotAll c') then parse_text fuel t c' (rest ++ d) else Ret (ok, c', rest ++ d).
Proof.
  revert c text. induction fuel as [|fuel IH]; intros c text Hc Hf H; [done|].
  assert (resume : forall c1 rest1, ready c1 -> (length (rest1 ++ d) < fuel)%nat ->
    parse_text fuel t c1 rest1 = Ret (ok, c', rest) ->
    parse_text fuel t c1 (rest1 ++ d) =
      if ok && negb (gotAll c') then parse_text (S fuel) t c' (rest ++ d) else Ret (ok, c', rest ++ d)).
  { intros c1 rest1 R1 L1 H1. rewrite (IH c1 rest1 R1 L1 H1).
    destruct (parse_text_total fuel t c1 rest1 R1) as (ok2 & c2 & r2 & H2 & S2 & G2 & _).
    { rewrite length_app in L1. lia. }
    rewrite H1 in H2. injection H2 as <- <- <-. destruct ok; [|done]. cbn [andb].
    destruct (G2 eq_refl) as [G|G]; [|by unfold gotAll; rewrite G].
    destruct (gotAll c'); [done|]. cbn [negb]. symmetry. apply parse_text_fuel; [done|].
    destruct S2 as (k & ->). rewrite !length_app in *. lia. }
  cbn [parse_text] in H |- *. unfold ready in Hc.
  destruct (state_ c) eqn:S; [| |done..].
  - destruct (split_line text) as [[line rest1]|] eqn:E.
    + rewrite (split_line_app _ d _ _ E). pose proof (split_line_shorter _ _ _ E).
      destruct (processRequestLine_ret line (request_ c) Hc) as ([] & r & Er); rewrite Er in *; cbn [obind] in *.
      * apply resume; [done| |done]. rewrite !length_app in *. lia.
      * injection H as <- <- <-. done.
    + injection H as <- <- <-. unfold gotAll. by rewrite S.
  - destruct (split_line text) as [[line rest1]|] eqn:E.
    + rewrite (split_line_app _ d _ _ E). pose proof (split_line_shorter _ _ _ E).
      case_decide; [by injection H as <- <- <-|]. apply resume; [done| |done]. rewrite !length_app in *. lia.
    + injection H as <- <- <-. unfold gotAll. by rewrite S.
Qed.

(** ** Requests as text *)

Definition CR : byte := Byte.x0d.

(** The request line and the header lines a client writes for [r]; the query
    starts with its question mark. *)
Definition method_text (m : Method) : list byte :=
  match m with
  | kGet => bytes "GET" | kPost => bytes "POST" | kHead => bytes "HEAD"
  | kPut => bytes "PUT" | kDelete => bytes "DELETE" | kInvalid => []
  end.
Definition version_text (v : Version) : list byte :=
  match v with
  | kHttp10 => bytes "HTTP/1.0" | kHttp11 => bytes "HTTP/1.1" | kUnknown => []
  end.
Definition request_line (m : Method) (path query : list byte) (v : Version) : list byte :=
  method_text m ++ [SP] ++ (path ++ query) ++ [SP] ++ version_text v.
Definition header_line (kv : list byte * list byte) : list byte := kv.1 ++ COLON :: SP :: kv.2.
Definition request_text (m : Method) (path query : list byte) (v : Version)
    (hs : list (list byte * list byte)) : list byte :=
  request_line m path query v ++ kCRLF ++ concat (map (fun kv => header_line kv ++ kCRLF) hs) ++ kCRLF.

(** No leading or trailing white space. *)
Definition trimmed (v : list byte) : Prop :=
  match v with [] => True | b :: _ => isspace b = false end /\
  match rev v with [] => True | b :: _ => isspace b = false end.

Record valid_request (m : Method) (path query : list byte) (v : Version)
    (hs : list (list byte * list byte)) : Prop := {
  vr_method : m <> kInvalid;
  vr_version : v <> kUnknown;
  vr_path : SP ∉ path /\ QM ∉ path /\ CR ∉ path;
  vr_query : SP ∉ query /\ CR ∉ query /\ (query = [] \/ exists q, query = QM :: q);
  vr_headers : Forall (fun kv => COLON ∉ kv.1 /\ CR ∉ kv.1 /\ CR ∉ kv.2 /\ trimmed kv.2) hs
}.

Lemma split_line_CR line rest : CR ∉ line -> split_line (line ++ kCRLF ++ rest) = Some (line, rest).
Proof.
  intros H. rewrite app_assoc.
  change rest with ([] ++ rest) at 2. apply split_line_app.
  induction line as [|x line IH]; [done|]. apply not_elem_of_cons in H as [Hx H].
  specialize (IH H). unfold split_line in *. rewrite <- app_comm_cons, std_search_cons.
  assert (is_prefix kCRLF (x :: line ++ kCRLF) = false) as ->.
  { cbn. rewrite bool_decide_eq_false_2; [done|]. intros E. by apply Hx. }
  rewrite zlen_cons. case_decide as D; [done|]. injection IH as E1 E2.
  pose proof (std_search_range kCRLF (line ++ kCRLF)).
  rewrite decide_False by lia. unfold ztake, zdrop in *.
  replace (Z.to_nat (1 + std_search kCRLF (line ++ kCRLF))) with
    (S (Z.to_nat (std_search kCRLF (line ++ kCRLF)))) by lia.
  replace (Z.to_nat (1 + std_search kCRLF (line ++ kCRLF) + 2)) with
    (S (Z.to_nat (std_search kCRLF (line ++ kCRLF) + 2))) by lia.
  cbn. by rewrite E1, E2.
Qed.

Lemma std_find_split x l k : x ∉ l ->
  let t := l ++ x :: k in
  std_find x t = zlen l /\ std_find x t <> zlen t /\ ztake (std_find x t) t = l /\
  zdrop (std_find x t + 1) t = k /\ zdrop (std_find x t) t = x :: k.
Proof.
  intros H t. unfold t. rewrite std_find_app by done.
  split_and!; [done|zlia|by rewrite ztake_app_l, ztake_all by zlia| |].
  - rewrite zdrop_app_r by zlia. replace (zlen l + 1 - zlen l) with 1 by lia. done.
  - by rewrite zdrop_app_r, zdrop_0 by zlia.
Qed.

Lemma method_text_ok m : m <> kInvalid ->
  method_of (method_text m) = m /\ SP ∉ method_text m /\ CR ∉ method_text m.
Proof.
  destruct m; intros N; try done; split_and!; try (by vm_compute);
    refine (bool_decide_unpack _ _); by vm_compute.
Qed.

Lemma version_text_ok v : CR ∉ version_text v.
Proof. destruct v; refine (bool_decide_unpack _ _); by vm_compute. Qed.

Lemma processRequestLine_text m path query v r :
  m <> kInvalid -> v <> kUnknown -> SP ∉ path -> QM ∉ path -> SP ∉ query ->
  (query = [] \/ exists q, query = QM :: q) -> method_ r = kInvalid -> query_ r = [] ->
  processRequestLine (request_line m path query v) r =
    Ret (true, mkRequest m v path query (receiveTime_ r) (headers_ r)).
Proof.
  intros Hm Hv Hp Hq Hqs Hqf M Q. destruct (method_text_ok m Hm) as (M1 & M2 & _).
  unfold processRequestLine, request_line. cbn [app].
  destruct (std_find_split SP (method_text m) ((path ++ query) ++ SP :: version_text v) M2)
    as (_ & D1 & T1 & R1 & _).
  rewrite decide_False by done. rewrite T1, R1. unfold setMethod.
  rewrite check_true by (by apply bool_decide_eq_true). cbn [obind method_]. rewrite M1.
  rewrite bool_decide_eq_true_2 by done.
  assert (SP ∉ path ++ query) as Hpq by (rewrite elem_of_app; tauto).
  destruct (std_find_split SP (path ++ query) (version_text v) Hpq) as (_ & D2 & T2 & R2 & _).
  rewrite decide_False by done. rewrite T2, R2.
  assert ((if decide (std_find QM (path ++ query) = zlen (path ++ query))
           then setPath (path ++ query) (mkRequest m (version_ r) (path_ r) (query_ r) (receiveTime_ r) (headers_ r))
           else setQuery (zdrop (std_find QM (path ++ query)) (path ++ query))
                  (setPath (ztake (std_find QM (path ++ query)) (path ++ query))
                     (mkRequest m (version_ r) (path_ r) (query_ r) (receiveTime_ r) (headers_ r))))
          = mkRequest m (version_ r) path query (receiveTime_ r) (headers_ r)) as ->.
  { destruct Hqf as [->|(q & ->)].
    - rewrite app_nil_r, decide_True by (by apply std_find_absent). unfold setPath. cbn. by rewrite Q.
    - destruct (std_find_split QM path q Hq) as (_ & D3 & T3 & _ & R3).
      rewrite decide_False by done. rewrite T3, R3. done. }
  destruct v; [done|by vm_compute..].
Qed.

Lemma skip_spaces_id l :
  match l with [] => True | b :: _ => isspace b = false end -> skip_spaces l = l.
Proof. destruct l; cbn; [done|]. by intros ->. Qed.

Lemma header_line_ok kv r :
  COLON ∉ kv.1 -> trimmed kv.2 ->
  std_find COLON (header_line kv) <> zlen (header_line kv) /\
  addHeader (ztake (std_find COLON (header_line kv)) (header_line kv))
    (zdrop (std_find COLON (header_line kv) + 1) (header_line kv)) r =
  mkRequest (method_ r) (version_ r) (path_ r) (query_ r) (receiveTime_ r)
    (map_set kv.1 kv.2 (headers_ r)).
Proof.
  intros H [T1 T2]. unfold header_line.
  destruct (std_find_split COLON kv.1 (SP :: kv.2) H) as (_ & D & E1 & E2 & _).
  split; [done|]. rewrite E1, E2. unfold addHeader. f_equal. f_equal.
  change (skip_spaces (SP :: kv.2)) with (skip_spaces kv.2).
  rewrite skip_spaces_id by done. unfold trim_right. rewrite skip_spaces_id by done.
  apply rev_involutive.
Qed.

Lemma parse_text_headers hs fuel t r rest :
  Forall (fun kv => COLON ∉ kv.1 /\ CR ∉ kv.1 /\ CR ∉ kv.2 /\ trimmed kv.2) hs ->
  (length hs < fuel)%nat ->
  parse_text fuel t (mkContext kExpectHeaders r)
    (concat (map (fun kv => header_line kv ++ kCRLF) hs) ++ kCRLF ++ rest) =
  Ret (true, mkContext kGotAll (mkRequest (method_ r) (version_ r) (path_ r) (query_ r) (receiveTime_ r)
    (foldl (fun m kv => map_set kv.1 kv.2 m) (headers_ r) hs)), rest).
Proof.
  intros F. revert fuel r. induction F as [|kv hs (Hc & Hk & Hv & Ht) F IH]; intros fuel r L;
    (destruct fuel as [|fuel]; [cbn in L; lia|]).
  - cbn [map concat app parse_text state_].
    pose proof (split_line_CR [] rest ltac:(apply not_elem_of_nil)) as E. cbn [app] in E.
    rewrite E. cbn. by destruct r.
  - cbn [map concat]. rewrite <- !app_assoc. cbn [parse_text state_].
    rewrite split_line_CR.
    2: { unfold header_line. rewrite elem_of_app, !elem_of_cons. intros [?|[?|[?|?]]]; done. }
    destruct (header_line_ok kv r Hc Ht) as [D E]. rewrite decide_False by done.
    cbn [request_]. rewrite E, IH by (cbn in L; lia). done.
Qed.

(** Shared by the properties below: the parser on the text of a request. *)
Lemma parse_text_request m path query v hs fuel t rest :
  valid_request m path query v hs -> (S (length hs) < fuel)%nat ->
  parse_text fuel t newContext (request_text m path query v hs ++ rest) =
    Ret (true, mkContext kGotAll (mkRequest m v path query t
           (foldl (fun mp kv => map_set kv.1 kv.2 mp) [] hs)), rest).
Proof.
  intros [Hm Hv (Hp1 & Hp2 & Hp3) (Hq1 & Hq2 & Hq3) Hh] F. destruct fuel as [|fuel]; [lia|].
  unfold request_text. rewrite <- !app_assoc. cbn [parse_text newContext state_].
  rewrite split_line_CR.
  2: { unfold request_line. destruct (method_text_ok m Hm) as (_ & _ & NM).
       rewrite !elem_of_app, !list_elem_of_singleton. intros H.
       destruct H as [?|[?|[[?|?]|[?|H]]]]; try done. by apply (version_text_ok v). }
  rewrite processRequestLine_text by done. cbn [obind].
  rewrite parse_text_headers by (done || lia). done.
Qed.

Lemma length_headers_text hs :
  (length hs <= length (concat (map (fun kv => header_line kv ++ kCRLF) hs)))%nat.
Proof. induction hs; cbn; [done|]. rewrite !length_app. cbn. lia. Qed.

Lemma request_text_fuel m path query v hs rest :
  (S (length hs) < S (length (request_text m path query v hs ++ rest)))%nat.
Proof.
  unfold request_text. rewrite !length_app. pose proof (length_headers_text hs). cbn. lia.
Qed.

Definition equiv_result (x y : outcome (bool * HttpContext * Buffer)) : Prop :=
  match x, y with
  | Ret (ok1, c1, b1), Ret (ok2, c2, b2) => ok1 = ok2 /\ c1 = c2 /\ content b1 = content b2
  | Stop f, Stop g => f = g
  | _, _ => False
  end.

Lemma parseRequest_text t c b :
  wf b ->
  match parse_text (S (length (content b))) t c (content b) with
  | Ret (ok, c', rest) => exists b', parseRequest t c b = Ret (ok, c', b') /\ wf b' /\ content b' = rest
  | Stop f => parseRequest t c b = Stop f
  end.
Proof. apply parseRequest_loop_text. Qed.

(** ** Responses as text *)

Definition headers_text (hs : list (list byte * list byte)) : list byte :=
  concat (map (fun kv => kv.1 ++ bytes ": " ++ kv.2 ++ kCRLF) hs).
Definition response_text (r : HttpResponse) : list byte :=
  (bytes "HTTP/1.1 " ++ fmt_d (statusCode_ r) ++ [SP]) ++ statusMessage_ r ++ kCRLF ++
  (if closeConnection_ r then bytes "Connection: close" ++ kCRLF
   else (bytes "Content-Length: " ++ fmt_d (zlen (body_ r)) ++ kCRLF) ++
        (bytes "Connection: Keep-Alive" ++ kCRLF)) ++
  headers_text (resp_headers_ r) ++ kCRLF ++ body_ r.

Lemma fmt_d_length z k :
  - 10 ^ Z.of_nat k < z < 10 ^ Z.of_nat k -> (0 < k)%nat -> zlen (fmt_d z) <= Z.of_nat k + 1.
Proof.
  intros H Hk. unfold fmt_d. case_decide.
  - pose proof (udec_length (- z) k ltac:(lia) Hk). rewrite zlen_cons. unfold zlen. lia.
  - pose proof (udec_length z k ltac:(lia) Hk). unfold zlen. lia.
Qed.

Lemma snprintf_fits n l : zlen l <= n - 1 -> snprintf n l = l.
Proof. intros. unfold snprintf. by apply ztake_all. Qed.

Lemma append_headers_ok hs b :
  wf b -> zlen (headers_text hs) < 2 ^ 31 -> zlen (buffer_ b) + zlen (headers_text hs) <= max_size ->
  exists b', append_headers hs b = Ret b' /\ wf b' /\ content b' = content b ++ headers_text hs /\
    zlen (buffer_ b') <= zlen (buffer_ b) + zlen (headers_text hs).
Proof.
  revert b. induction hs as [|[k v] hs IH]; intros b W S G.
  - exists b. unfold headers_text. cbn [map concat]. rewrite app_nil_r. split_and!; try done.
    rewrite zlen_nil. lia.
  - change (headers_text ((k, v) :: hs)) with ((k ++ bytes ": " ++ v ++ kCRLF) ++ headers_text hs) in *.
    rewrite !zlen_app in *. cbn [append_headers]. zlen_pos.
    destruct (append_string_ok k b W) as (b1 & -> & W1 & C1 & _ & L1); [lia|lia|]. cbn [obind].
    destruct (append_string_ok (bytes ": ") b1 W1) as (b2 & -> & W2 & C2 & _ & L2); [lia|lia|]. cbn [obind].
    destruct (append_string_ok v b2 W2) as (b3 & -> & W3 & C3 & _ & L3); [lia|lia|]. cbn [obind].
    destruct (append_string_ok kCRLF b3 W3) as (b4 & -> & W4 & C4 & _ & L4); [lia|lia|]. cbn [obind].
    destruct (IH b4 W4) as (b' & -> & W' & C' & L'); [lia|lia|].
    exists b'. split_and!; try done; [|lia]. rewrite C', C4, C3, C2, C1. by rewrite <- !app_assoc.
Qed.

Lemma appendToBuffer_ok r b :
  wf b -> - 2 ^ 31 <= statusCode_ r < 2 ^ 31 -> zlen (response_text r) < 2 ^ 31 ->
  zlen (buffer_ b) + zlen (response_text r) <= max_size ->
  exists b', appendToBuffer r b = Ret b' /\ wf b' /\ content b' = content b ++ response_text r.
Proof.
  intros W Hc S G. pose proof (fmt_d_length (statusCode_ r) 10 ltac:(lia) ltac:(lia)) as Lc.
  assert (zlen (body_ r) <= zlen (response_text r)) as Lb by (unfold response_text; zlia).
  pose proof (zlen_nonneg (body_ r)).
  pose proof (fmt_d_length (zlen (body_ r)) 10 ltac:(lia) ltac:(lia)) as Ll.
  unfold appendToBuffer. rewrite !snprintf_fits.
  2, 3: rewrite !zlen_app; unfold zlen in *; cbn; lia.
  unfold response_text in *. rewrite !zlen_app in S, G. zlen_pos.
  destruct (append_string_ok (bytes "HTTP/1.1 " ++ fmt_d (statusCode_ r) ++ [SP]) b W)
    as (b1 & -> & W1 & C1 & _ & L1); [rewrite !zlen_app; lia|rewrite !zlen_app; lia|]. cbn [obind].
  destruct (append_string_ok (statusMessage_ r) b1 W1) as (b2 & -> & W2 & C2 & _ & L2);
    [lia|rewrite !zlen_app in *; lia|]. cbn [obind].
  destruct (append_string_ok kCRLF b2 W2) as (b3 & -> & W3 & C3 & _ & L3);
    [lia|rewrite !zlen_app in *; lia|]. cbn [obind].
  set (conn := if closeConnection_ r then bytes "Connection: close" ++ kCRLF
     else (bytes "Content-Length: " ++ fmt_d (zlen (body_ r)) ++ kCRLF) ++ bytes "Connection: Keep-Alive" ++ kCRLF) in *.
  rewrite !zlen_app in L1.
  assert (exists b4, (if closeConnection_ r then append_string (bytes "Connection: close" ++ kCRLF) b3
     else let* output := append_string (bytes "Content-Length: " ++ fmt_d (zlen (body_ r)) ++ kCRLF) b3 in
       append_string (bytes "Connection: Keep-Alive" ++ kCRLF) output) = Ret b4 /\ wf b4 /\
     content b4 = content b3 ++ conn /\ zlen (buffer_ b4) <= zlen (buffer_ b3) + zlen conn)
    as (b4 & -> & W4 & C4 & L4).
  { unfold conn in *. destruct (closeConnection_ r).
    - destruct (append_string_ok (bytes "Connection: close" ++ kCRLF) b3 W3) as (b4 & ? & ? & ? & _ & ?);
        [lia|lia|]. exists b4. split_and!; (done || lia).
    - rewrite zlen_app in S, G |- *. zlen_pos.
      destruct (append_string_ok (bytes "Content-Length: " ++ fmt_d (zlen (body_ r)) ++ kCRLF) b3 W3)
        as (b4 & -> & W4 & C4 & _ & L4); [lia|lia|]. cbn [obind].
      destruct (append_string_ok (bytes "Connection: Keep-Alive" ++ kCRLF) b4 W4) as (b5 & ? & ? & C5 & _ & ?);
        [lia|lia|]. exists b5. split_and!; try done; [|lia]. by rewrite C5, C4, <- !app_assoc. }
  cbn [obind].
  destruct (append_headers_ok (resp_headers_ r) b4 W4) as (b5 & -> & W5 & C5 & L5); [lia|lia|]. cbn [obind].
  destruct (append_string_ok kCRLF b5 W5) as (b6 & -> & W6 & C6 & _ & L6); [lia|lia|]. cbn [obind].
  destruct (append_string_ok (body_ r) b6 W6) as (b7 & -> & W7 & C7 & _ & L7); [lia|lia|].
  exists b7. split_and!; try done. rewrite C7, C6, C5, C4, C3, C2, C1. by rewrite <- !app_assoc.
Qed.

(** The rule of [onRequest] for the initial value of [closeConnection_]. *)
Definition wants_close (req : HttpRequest) : bool :=
  bool_decide (getHeader (bytes "Connection") req = bytes "close") ||
  (bool_decide (version_ req = kHttp10) && bool_decide (getHeader (bytes "Connection") req <> bytes "Keep-Alive")).

Lemma onRequest_ok cb req :
  let resp := cb req (newResponse (wants_close req)) in
  - 2 ^ 31 <= statusCode_ resp < 2 ^ 31 -> zlen (response_text resp) < 2 ^ 31 ->
  onRequest cb req = Ret (ConnSend (response_text resp) ::
    if closeConnection_ resp then [ConnShutdown] else []).
Proof.
  intros resp Hc S. unfold onRequest.
  destruct (newBuffer_ok kInitialSize) as (b & -> & W & C & _ & _ & L); [done|]. cbn [obind].
  fold (wants_close req). fold resp.
  destruct (appendToBuffer_ok resp b W Hc S) as (b' & -> & _ & C').
  { rewrite L. unfold kCheapPrepend, kInitialSize, max_size. lia. }
  cbn [obind]. by rewrite C', C.
Qed.

Lemma processRequestLine_method_set l r r' :
  method_ r = kInvalid -> processRequestLine l r = Ret (false, r') -> method_ r' <> kInvalid ->
  processRequestLine l r' = Stop AssertFailed.
Proof.
  intros M P N. unfold processRequestLine in *. case_decide; [by injection P as <-|].
  unfold setMethod at 1. by rewrite bool_decide_eq_false_2.
Qed.

Lemma parse_text_false fuel t c text c' rest :
  state_ c = kExpectRequestLine -> method_ (request_ c) = kInvalid ->
  parse_text (S fuel) t c text = Ret (false, c', rest) ->
  rest = text /\ state_ c' = kExpectRequestLine /\
  exists line rest', split_line text = Some (line, rest') /\
    processRequestLine line (request_ c) = Ret (false, request_ c').
Proof.
  intros S M. cbn [parse_text]. rewrite S.
  destruct (split_line text) as [[line rest']|]; [|done].
  destruct (processRequestLine line (request_ c)) as [[[] r]|] eqn:P; cbn [obind]; [|..|done].
  - intros H. exfalso. revert H. generalize (setReceiveTime t r). generalize rest'. clear.
    induction fuel as [|fuel IH]; intros text1 r1; [done|]. cbn [parse_text state_].
    destruct (split_line text1) as [[line1 rest1]|]; [|done]. case_decide; [done|]. apply IH.
  - intros [= <- <-]. split_and!; [done|done|]. by exists line, rest'.
Qed.

(** Setting the fields in order keeps the last value of each. *)
Lemma map_find_foldl (hs : list (list byte * list byte)) (k : list byte) :
  map_find k (foldl (fun mp kv => map_set kv.1 kv.2 mp) [] hs) =
  match list_find (fun kv => kv.1 = k) (reverse hs) with Some p => Some p.2.2 | None => None end.
Proof.
  induction hs as [|[k' v'] hs IH] using rev_ind; [done|].
  rewrite foldl_app, reverse_snoc. cbn. case_decide as D.
  - subst. by rewrite map_find_set.
  - rewrite map_find_set_ne by done. rewrite IH. by destruct (list_find _ _) as [[??]|].
Qed.
End Http.

(** From a context that is waiting for a request, [parseRequest] returns on
    every input: no assertion fails, nothing is read outside the buffer, the
    loop ends. It keeps the buffer's invariant and consumes a prefix; on success
    the context is either complete or waiting for more. *)
Theorem parseRequest_total (t : Z) (c : Http.HttpContext) (b : Buffer) :
  wf b -> Http.ready c ->
  exists ok c' b', Http.parseRequest t c b = Ret (ok, c', b') /\ wf b' /\
    content b' `suffix_of` content b /\
    (ok = true -> Http.ready c' \/ Http.state_ c' = Http.kGotAll).
Proof.
  intros W R. pose proof (Http.parseRequest_text t c b W) as H.
  destruct (Http.parse_text_total (S (length (content b))) t c (content b) R) as (ok & c' & rest & E & S & G & _);
    [lia|]. rewrite E in H. destruct H as (b' & ? & ? & <-). by exists ok, c', b'.
Qed.

Lemma parseRequest_total_witness :
  exists b', Http.parseRequest 5 Http.newContext (sample_buffer (bytes "GET / HT")) = Ret (true, Http.newContext, b')
    /\ wf b'.
Proof.
  destruct (parseRequest_total 5 Http.newContext (sample_buffer (bytes "GET / HT"))) as (ok & c' & b' & E & W & _);
    [by vm_compute|reflexivity|].
  exists b'. split; [|exact W]. rewrite E. by vm_compute in E; injection E as <- <- _.
Defined.

(** C10. The parser does not depend on how the request was cut into pieces: if
    it has consumed what it could of the first bytes and waits for more, then
    feeding it the remaining bytes gives the same result, context and leftover
    as parsing everything at once. *)
Theorem parseRequest_chunks (t : Z) (c c1 : Http.HttpContext) (b b1 whole b2 : Buffer) (d : list byte) :
  wf b -> wf whole -> wf b2 -> Http.ready c ->
  Http.parseRequest t c b = Ret (true, c1, b1) -> Http.gotAll c1 = false ->
  content whole = content b ++ d -> content b2 = content b1 ++ d ->
  Http.equiv_result (Http.parseRequest t c1 b2) (Http.parseRequest t c whole).
Proof.
  intros W Ww W2 R P G Cw C2. pose proof (Http.parseRequest_text t c b W) as H.
  destruct (Http.parse_text_total (S (length (content b))) t c (content b) R) as (ok & c' & rest & E & Sf & Rd & _);
    [lia|]. rewrite E in H. destruct H as (b' & P' & _ & <-). rewrite P in P'. injection P' as <- <- <-.
  destruct (Rd eq_refl) as [R1|R1]; [|by unfold Http.gotAll in G; rewrite R1 in G].
  pose proof (Http.parseRequest_text t c whole Ww) as Hw. pose proof (Http.parseRequest_text t c1 b2 W2) as H2.
  set (n := S (length (content b ++ d))).
  rewrite <- (Http.parse_text_fuel _ n) in E by (unfold n; rewrite ?length_app; done || lia).
  rewrite Cw in Hw. rewrite C2 in H2. fold n in Hw.
  assert (length (content b ++ d) < n)%nat as Ln by (unfold n; lia).
  rewrite (Http.parse_text_app n t c _ d _ _ _ R Ln E), G in Hw. cbn [andb negb] in Hw.
  rewrite <- (Http.parse_text_fuel _ n) in H2.
  2: done.
  2: { unfold n. destruct Sf as (k & ->). rewrite !length_app. lia. }
  destruct (Http.parse_text n t c1 (content b1 ++ d)) as [[[ok' c'] rest]|f].
  - destruct Hw as (w' & -> & _ & Ew). destruct H2 as (b2' & -> & _ & E2). cbn. by rewrite Ew, E2.
  - by rewrite Hw, H2.
Qed.

Lemma parseRequest_chunks_witness :
  exists c1 b1, Http.parseRequest 5 Http.newContext (sample_buffer (bytes "GET / HTTP/1.1" ++ kCRLF ++ bytes "A:")) = Ret (true, c1, b1) /\
  Http.equiv_result (Http.parseRequest 5 c1 (sample_buffer (bytes "A:" ++ bytes "b" ++ kCRLF ++ kCRLF)))
    (Http.parseRequest 5 Http.newContext (sample_buffer ((bytes "GET / HTTP/1.1" ++ kCRLF ++ bytes "A:") ++ bytes "b" ++ kCRLF ++ kCRLF))).
Proof.
  eexists _, _. split; [vm_compute; reflexivity|].
  eapply (parseRequest_chunks 5 Http.newContext _ (sample_buffer (bytes "GET / HTTP/1.1" ++ kCRLF ++ bytes "A:"))
    _ _ _ (bytes "b" ++ kCRLF ++ kCRLF)).
  - by vm_compute.
  - by vm_compute.
  - by vm_compute.
  - reflexivity.
  - vm_compute. reflexivity.
  - reflexivity.
  - reflexivity.
  - reflexivity.
Defined.

(** C4. Parsing inverts printing: on a buffer holding the text of a valid
    request and anything after it, [parseRequest] from a fresh context gives
    the method, version, path, query and headers of the request (a repeated
    header keeps its last value), records the receive time, reports the request
    as complete and leaves exactly the bytes after it. *)
Theorem parseRequest_roundtrip (m : Http.Method) (path query : list byte) (v : Http.Version)
    (hs : list (list byte * list byte)) (t : Z) (rest : list byte) (b : Buffer) :
  Http.valid_request m path query v hs -> wf b ->
  content b = Http.request_text m path query v hs ++ rest ->
  exists b' req, Http.parseRequest t Http.newContext b = Ret (true, Http.mkContext Http.kGotAll req, b') /\
    wf b' /\ content b' = rest /\
    Http.method_ req = m /\ Http.version_ req = v /\ Http.path_ req = path /\ Http.query_ req = query /\
    Http.receiveTime_ req = t /\
    forall k, Http.getHeader k req =
      match list_find (fun kv => kv.1 = k) (reverse hs) with Some (_, kv) => kv.2 | None => [] end.
Proof.
  intros V W C. pose proof (Http.parseRequest_text t Http.newContext b W) as H.
  rewrite C, (Http.parse_text_request m path query v hs) in H by (done || apply Http.request_text_fuel).
  destruct H as (b' & P & W' & C'). eexists b', _. split; [exact P|]. split_and!; try done.
  intros k. unfold Http.getHeader. cbn [Http.headers_]. rewrite Http.map_find_foldl.
  by destruct (list_find _ _) as [[??]|].
Qed.

Lemma parseRequest_roundtrip_witness :
  exists b' req, Http.parseRequest 7 Http.newContext
      (sample_buffer (Http.request_text Http.kGet (bytes "/a") (bytes "?q=1") Http.kHttp11 [(bytes "Host", bytes "x y")] ++ bytes "zz"))
      = Ret (true, Http.mkContext Http.kGotAll req, b') /\
    content b' = bytes "zz" /\ Http.getHeader (bytes "Host") req = bytes "x y".
Proof.
  destruct (parseRequest_roundtrip Http.kGet (bytes "/a") (bytes "?q=1") Http.kHttp11 [(bytes "Host", bytes "x y")]
    7 (bytes "zz") (sample_buffer (Http.request_text Http.kGet (bytes "/a") (bytes "?q=1") Http.kHttp11 [(bytes "Host", bytes "x y")] ++ bytes "zz")))
    as (b' & req & E & _ & C & _ & _ & _ & _ & _ & G).
  - constructor; [done|done|..]; split_and?; try (eapply bool_decide_unpack; by vm_compute).
    + right. by exists (bytes "q=1").
    + repeat constructor; eapply bool_decide_unpack; by vm_compute.
  - by vm_compute.
  - by vm_compute.
  - exists b', req. split_and!; [exact E|exact C|]. rewrite G. by vm_compute.
Defined.

(** On a valid request, [onMessage] sends exactly the text of the response
    the application built, once, shuts the connection down exactly when the
    response asks for it, and leaves a fresh context and the bytes that follow
    the request. The response starts out with the close flag of the rule of
    [onRequest] for the request's [Connection] header and version. *)
Theorem onMessage_answers (cb : Http.HttpRequest -> Http.HttpResponse -> Http.HttpResponse)
    (m : Http.Method) (path query : list byte) (v : Http.Version)
    (hs : list (list byte * list byte)) (t : Z) (rest : list byte) (b : Buffer) :
  Http.valid_request m path query v hs -> wf b ->
  content b = Http.request_text m path query v hs ++ rest ->
  (forall req close, let resp := cb req (Http.newResponse close) in
     - 2 ^ 31 <= Http.statusCode_ resp < 2 ^ 31 /\ zlen (Http.response_text resp) < 2 ^ 31) ->
  exists b' req, Http.onMessage cb t Http.newContext b =
      Ret (let resp := cb req (Http.newResponse (Http.wants_close req)) in
           Http.ConnSend (Http.response_text resp) ::
             (if Http.closeConnection_ resp then [Http.ConnShutdown] else []), Http.newContext, b') /\
    wf b' /\ content b' = rest /\ Http.method_ req = m /\ Http.version_ req = v /\ Http.path_ req = path.
Proof.
  intros V W C B. pose proof (Http.parseRequest_text t Http.newContext b W) as H.
  rewrite C, (Http.parse_text_request m path query v hs) in H by (done || apply Http.request_text_fuel).
  destruct H as (b' & P & W' & C'). eexists b', _. split; [|split_and!; [done|done|..]].
  - unfold Http.onMessage. rewrite P. cbn [obind Http.gotAll Http.state_ Http.request_].
    rewrite Http.onRequest_ok by apply B. cbn [obind app]. reflexivity.
  - done.
  - done.
  - done.
Qed.

Lemma onMessage_answers_witness :
  exists b' req, Http.onMessage Http.defaultHttpCallback 7 Http.newContext
      (sample_buffer (Http.request_text Http.kGet (bytes "/a") [] Http.kHttp11 [] ++ bytes "zz")) =
    Ret ([Http.ConnSend (Http.response_text (Http.defaultHttpCallback req (Http.newResponse false))); Http.ConnShutdown],
         Http.newContext, b') /\ content b' = bytes "zz".
Proof.
  destruct (onMessage_answers Http.defaultHttpCallback Http.kGet (bytes "/a") [] Http.kHttp11 []
    7 (bytes "zz") (sample_buffer (Http.request_text Http.kGet (bytes "/a") [] Http.kHttp11 [] ++ bytes "zz")))
    as (b' & req & E & _ & C & _).
  - constructor; [done|done|..]; split_and?; try (eapply bool_decide_unpack; by vm_compute).
    + by left.
    + repeat constructor; eapply bool_decide_unpack; by vm_compute.
  - by vm_compute.
  - by vm_compute.
  - intros req close. by destruct close; vm_compute.
  - exists b', req. split; [|exact C]. by rewrite E.
Defined.

(** A request line that is rejected after its method was recognised makes
    [onMessage] answer 400 and shut down, but leaves the context waiting for a
    request line with the method already set and the line still in the buffer:
    the next bytes the peer sends fail the assertion of [setMethod]. *)
Theorem onMessage_bad_request_asserts (cb : Http.HttpRequest -> Http.HttpResponse -> Http.HttpResponse)
    (t t' : Z) (b b2 : Buffer) (line rest more : list byte) (r : Http.HttpRequest) :
  wf b -> content b = line ++ kCRLF ++ rest -> Http.CR ∉ line ->
  Http.processRequestLine line Http.newRequest = Ret (false, r) -> Http.method_ r <> Http.kInvalid ->
  wf b2 -> content b2 = content b ++ more ->
  exists c b', Http.onMessage cb t Http.newContext b =
      Ret ([Http.ConnSend (bytes "HTTP/1.1 400 Bad Request" ++ kCRLF ++ kCRLF); Http.ConnShutdown], c, b') /\
    content b' = content b /\
    Http.onMessage cb t' c b2 = Stop AssertFailed.
Proof.
  intros W C N P M W2 C2. pose proof (Http.parseRequest_text t Http.newContext b W) as H.
  rewrite C in H. set (fuel := length _) in H. unfold Http.newContext in H at 1.
  cbn [Http.parse_text Http.state_] in H. rewrite Http.split_line_CR in H by done.
  cbn [Http.request_] in H. rewrite P in H. cbn [obind] in H. destruct H as (b' & E & W' & C').
  eexists _, b'. split; [unfold Http.onMessage; rewrite E; reflexivity|]. split; [by rewrite C', C|].
  set (c := Http.mkContext _ r). pose proof (Http.parseRequest_text t' c b2 W2) as H.
  cbn [Http.parse_text Http.state_ c] in H. rewrite C2, C, <- !app_assoc in H.
  rewrite Http.split_line_CR in H by done. cbn [c Http.request_] in H.
  rewrite (Http.processRequestLine_method_set line Http.newRequest r) in H by done. cbn [obind] in H.
  unfold Http.onMessage. fold c. by rewrite H.
Qed.

Lemma onMessage_bad_request_asserts_witness :
  exists c b', Http.onMessage Http.defaultHttpCallback 1 Http.newContext (sample_buffer (bytes "GET / HTTP/2.0" ++ kCRLF)) =
      Ret ([Http.ConnSend (bytes "HTTP/1.1 400 Bad Request" ++ kCRLF ++ kCRLF); Http.ConnShutdown], c, b') /\
    content b' = bytes "GET / HTTP/2.0" ++ kCRLF /\
    Http.onMessage Http.defaultHttpCallback 2 c (sample_buffer (bytes "GET / HTTP/2.0" ++ kCRLF ++ bytes "x")) = Stop AssertFailed.
Proof.
  apply (onMessage_bad_request_asserts Http.defaultHttpCallback 1 2
    (sample_buffer (bytes "GET / HTTP/2.0" ++ kCRLF)) (sample_buffer (bytes "GET / HTTP/2.0" ++ kCRLF ++ bytes "x"))
    (bytes "GET / HTTP/2.0") [] (bytes "x")
    (Http.mkRequest Http.kGet Http.kUnknown (bytes "/") [] 0 [])); try (by vm_compute).
  eapply bool_decide_unpack. by vm_compute.
Defined.
