(* ===== verification/Rpc.v ===== *)
(** * RPC (src/muduo/muduo/net/protorpc/RpcChannel.h, RpcChannel.cc, RpcServer.cc)

    Both ends of a remote procedure call: the table of outstanding calls of the
    channel that calls, the dispatch to services of the channel that is called, and
    the two connected by streams that deliver the messages in order, as the codec
    does. The services, which answer when they like, are arguments, with the
    parsing and printing of their messages. *)

From S2P Require Import Prelude StdMap.

Inductive MessageType := REQUEST | RESPONSE | ERROR.
Inductive ErrorCode := NO_ERROR | WRONG_PROTO | NO_SERVICE | NO_METHOD | INVALID_REQUEST | INVALID_RESPONSE | TIMEOUT.
#[export] Instance ErrorCode_eq_dec : EqDecision ErrorCode.
Proof. solve_decision. Defined.

Record RpcMessage := mkMessage {
  type : MessageType;
  (** a [fixed64] *)
  id : Z;
  service : list byte;
  method : list byte;
  request : list byte;
  response : option (list byte);
  error : option ErrorCode
}.

(** Whether there is a response object and a closure to run. *)
Record OutstandingCall := mkCall { out_response : bool; out_done : bool }.

Section Rpc.
(** What the services parse and print: the request of a method of a service, and
    the response. *)
Context {Req Resp : Type}.
Context (ParseRequest : list byte -> list byte -> list byte -> option Req) (SerializeResponse : Resp -> list byte).

(** A service is the names of its methods. *)
Definition Service : Type := list (list byte).

(** [sent]: what it gave to [codec_.send], in order. [pending]: the calls its
    services have not answered. [ran]: the closures run, with the bytes the
    response was parsed from. *)
Record RpcChannel := mkChannel {
  id_ : Z;
  outstandings_ : gmap Z OutstandingCall;
  services_ : option (list (list byte * Service));
  sent : list RpcMessage;
  pending : list (Z * (list byte * list byte * Req));
  ran : list (Z * option (list byte))
}.

Definition newRpcChannel : RpcChannel := mkChannel 0 ∅ None [] [] [].
Definition setServices (services : list (list byte * Service)) (c : RpcChannel) : RpcChannel :=
  mkChannel (id_ c) (outstandings_ c) (Some services) (sent c) (pending c) (ran c).
(** [RpcServer::registerService] on its map *)
Definition registerService (name : list byte) (methods : Service) (services : list (list byte * Service)) : list (list byte * Service) :=
  map_set name methods services.

(** [codec_.send(conn_, message)] *)
Definition send (message : RpcMessage) (c : RpcChannel) : RpcChannel :=
  mkChannel (id_ c) (outstandings_ c) (services_ c) (sent c ++ [message]) (pending c) (ran c).

(** [CallMethod] runs in any thread, in three steps that others can come between:
    it takes a number, it enters the call in the table, it sends the request. A
    call that is under way is after its first or its second step. *)
Inductive stage := HasId | Entered.
#[export] Instance stage_eq_dec : EqDecision stage.
Proof. solve_decision. Defined.

Definition takeId (c : RpcChannel) : Z * RpcChannel :=
  let id := i64 (id_ c + 1) in
  (id, mkChannel id (outstandings_ c) (services_ c) (sent c) (pending c) (ran c)).
Definition enterCall (id : Z) (hasResponse hasDone : bool) (c : RpcChannel) : RpcChannel :=
  mkChannel (id_ c) (<[id := mkCall hasResponse hasDone]> (outstandings_ c)) (services_ c) (sent c) (pending c) (ran c).
Definition call_message (id : Z) (svc meth req : list byte) : RpcMessage :=
  mkMessage REQUEST (u64 id) svc meth req None None.

(** What the call does next, and the stage it is at then, if it has not returned. *)
Definition CallMethod_next (st : stage) (id : Z) (svc meth req : list byte) (hasResponse hasDone : bool) (c : RpcChannel) : option stage * RpcChannel :=
  match st with
  | HasId => (Some Entered, enterCall id hasResponse hasDone c)
  | Entered => (None, send (call_message id svc meth req) c)
  end.

(** The whole of it, when nothing comes between. *)
Definition CallMethod (svc meth req : list byte) (hasResponse hasDone : bool) (c : RpcChannel) : RpcChannel :=
  let '(id, c) := takeId c in
  let '(_, c) := CallMethod_next HasId id svc meth req hasResponse hasDone c in
  let '(_, c) := CallMethod_next Entered id svc meth req hasResponse hasDone c in
  c.

(** [doneCallback(response, id)], the closure of a call to a service *)
Definition doneCallback (resp : Resp) (id : Z) (c : RpcChannel) : RpcChannel :=
  send (mkMessage RESPONSE (u64 id) [] [] [] (Some (SerializeResponse resp)) None) c.

(** What a request is answered with, if it is not handed to a service. *)
Definition dispatch (message : RpcMessage) (services : option (list (list byte * Service))) : ErrorCode + Req :=
  match services with
  | Some services =>
      match map_find (service message) services with
      | Some svc =>
          if decide (method message ∈ svc) then
            match ParseRequest (service message) (method message) (request message) with
            | Some req => inr req
            | None => inl INVALID_REQUEST
            end
          else inl NO_METHOD
      | None => inl NO_SERVICE
      end
  | None => inl NO_SERVICE
  end.

Definition onRpcMessage (message : RpcMessage) (c : RpcChannel) : outcome RpcChannel :=
  match type message with
  | RESPONSE =>
      let id := i64 (id message) in
      assert* bool_decide (response message <> None) || bool_decide (error message <> None) in
      match outstandings_ c !! id with
      | Some out =>
          Ret (mkChannel (id_ c) (delete id (outstandings_ c)) (services_ c) (sent c) (pending c)
                 (if out_response out && out_done out then ran c ++ [(id, response message)] else ran c))
      | None => Ret c
      end
  | REQUEST =>
      match dispatch message (services_ c) with
      | inr req =>
          let id := i64 (id message) in
          Ret (mkChannel (id_ c) (outstandings_ c) (services_ c) (sent c) (pending c ++ [(id, (service message, method message, req))]) (ran c))
      | inl err => Ret (send (mkMessage RESPONSE (id message) [] [] [] None (Some err)) c)
      end
  | ERROR => Ret c
  end.

(** ** A caller and a callee *)

Abbreviation args := (list byte * list byte * list byte)%type.

(** The channels, and how many of the messages each has sent the other has got. *)
Record system := mkSystem {
  caller : RpcChannel;
  callee : RpcChannel;
  to_callee : nat;
  to_caller : nat;
  (** the calls under way in the caller's threads *)
  calling : list (stage * (Z * args));
  (** for the properties: the calls made, with what was asked, and the answers of
      the services *)
  calls : list (Z * args);
  answers : list (Z * (list byte * list byte * Req) * Resp)
}.

Inductive event :=
  (** some thread calls, with a response and a closure *)
  | Call (svc meth req : list byte)
  (** the [i]-th call under way takes its next step *)
  | Proceed (i : nat)
  | DeliverRequest
  (** the [i]-th pending call is answered *)
  | Answer (i : nat) (resp : Resp)
  | DeliverResponse.

Definition remove_pending (i : nat) (c : RpcChannel) : RpcChannel :=
  mkChannel (id_ c) (outstandings_ c) (services_ c) (sent c) (delete i (pending c)) (ran c).

Definition step (e : event) (s : system) : outcome system :=
  match e with
  | Call svc meth req =>
      let '(id, c) := takeId (caller s) in
      let k := (id, (svc, meth, req)) in
      Ret (mkSystem c (callee s) (to_callee s) (to_caller s) (calling s ++ [(HasId, k)]) (calls s ++ [k]) (answers s))
  | Proceed i =>
      match calling s !! i with
      | Some (st, (id, (svc, meth, req))) =>
          let '(st, c) := CallMethod_next st id svc meth req true true (caller s) in
          let calling := delete i (calling s) ++ match st with Some st => [(st, (id, (svc, meth, req)))] | None => [] end in
          Ret (mkSystem c (callee s) (to_callee s) (to_caller s) calling (calls s) (answers s))
      | None => Ret s
      end
  | DeliverRequest =>
      match sent (caller s) !! to_callee s with
      | Some m => let* c := onRpcMessage m (callee s) in
          Ret (mkSystem (caller s) c (S (to_callee s)) (to_caller s) (calling s) (calls s) (answers s))
      | None => Ret s
      end
  | Answer i resp =>
      match pending (callee s) !! i with
      | Some (id, q) =>
          Ret (mkSystem (caller s) (doneCallback resp id (remove_pending i (callee s))) (to_callee s) (to_caller s) (calling s) (calls s)
                 (answers s ++ [(id, q, resp)]))
      | None => Ret s
      end
  | DeliverResponse =>
      match sent (callee s) !! to_caller s with
      | Some m => let* c := onRpcMessage m (caller s) in
          Ret (mkSystem c (callee s) (to_callee s) (S (to_caller s)) (calling s) (calls s) (answers s))
      | None => Ret s
      end
  end.

Fixpoint run (es : list event) (s : system) : outcome system :=
  match es with
  | [] => Ret s
  | e :: es => let* s := step e s in run es s
  end.

Definition start (services : list (list byte * Service)) : system :=
  mkSystem newRpcChannel (setServices services newRpcChannel) 0 0 [] [] [].

(** ** The invariant *)

(** Compute the fields of the states that the steps build. *)
Ltac projections :=
  cbn [caller callee to_callee to_caller calling calls answers id_ outstandings_ services_ sent pending ran
       send enterCall takeId remove_pending doneCallback fst snd app type id service method request response error call_message map] in *.

(** What becomes of a call: an error or a request that is handed to the service. *)
Definition fate (services : list (list byte * Service)) (svc meth req : list byte) : ErrorCode + Req :=
  dispatch (call_message 0 svc meth req) (Some services).

(** The closure of call [i] is right to run with [b]. *)
Definition right_answer (services : list (list byte * Service)) (s : system) (i : Z) (b : option (list byte)) : Prop :=
  exists svc meth req, (i, (svc, meth, req)) ∈ calls s /\
    match fate services svc meth req with
    | inl err => b = None
    | inr r => exists resp, (i, (svc, meth, r), resp) ∈ answers s /\ b = Some (SerializeResponse resp)
    end.

(** Where a call can be: in [CallMethod], before and after it is in the table, on its
    way to the callee, with its service, on its way back. *)
Definition at_stage (st : stage) (l : list (stage * (Z * args))) : list Z := map (fun k => k.2.1) (filter (fun k => k.1 = st) l).
Definition unsent (s : system) : list Z := map id (drop (to_callee s) (sent (caller s))).
Definition unanswered (s : system) : list Z := map fst (pending (callee s)).
Definition unreceived (s : system) : list Z := map id (drop (to_caller s) (sent (callee s))).
Definition open_calls (s : system) : list Z := at_stage Entered (calling s) ++ unsent s ++ unanswered s ++ unreceived s.

(** The table holds exactly the calls of a list. *)
Definition holds (table : gmap Z OutstandingCall) (w : list Z) : Prop :=
  forall i out, table !! i = Some out <-> out = mkCall true true /\ i ∈ w.

Record Inv (services : list (list byte * Service)) (s : system) : Prop := mkInv {
  inv_ids : forall k e, calls s !! k = Some e -> e.1 = Z.of_nat k + 1;
  inv_next : id_ (caller s) = zlen (calls s);
  inv_to : (to_callee s <= length (sent (caller s)) /\ to_caller s <= length (sent (callee s)))%nat;
  inv_services : services_ (callee s) = Some services;
  inv_calling : forall st k, (st, k) ∈ calling s -> k ∈ calls s;
  inv_sent : forall m, m ∈ sent (caller s) -> exists i svc meth req, (i, (svc, meth, req)) ∈ calls s /\ m = call_message i svc meth req;
  inv_where : map fst (calls s) ≡ₚ at_stage HasId (calling s) ++ open_calls s ++ map fst (ran (caller s));
  inv_out : holds (outstandings_ (caller s)) (open_calls s);
  inv_pending : forall i svc meth r, (i, (svc, meth, r)) ∈ pending (callee s) ->
    exists req, (i, (svc, meth, req)) ∈ calls s /\ fate services svc meth req = inr r;
  inv_reply : forall m, m ∈ sent (callee s) -> type m = RESPONSE /\ (response m <> None \/ error m <> None) /\
    right_answer services s (id m) (response m);
  inv_ran : forall i b, (i, b) ∈ ran (caller s) -> right_answer services s i b
}.

#[local] Instance holds_perm table : Proper ((≡ₚ) ==> iff) (holds table).
Proof. intros w w' P. unfold holds. by setoid_rewrite P. Qed.

Lemma holds_enter table w i : holds table w -> holds (<[i := mkCall true true]> table) (i :: w).
Proof.
  intros H j out. rewrite lookup_insert_Some, elem_of_cons, (H j out). destruct (decide (i = j)) as [->|N]; naive_solver.
Qed.

Lemma holds_remove table w i : NoDup (i :: w) -> holds table (i :: w) ->
  table !! i = Some (mkCall true true) /\ holds (delete i table) w.
Proof.
  intros [N _]%NoDup_cons H. split; [apply H; split; [done|]; apply elem_of_cons; by left|].
  intros j out. rewrite lookup_delete_Some, (H j out), elem_of_cons. destruct (decide (i = j)) as [<-|D]; naive_solver.
Qed.

Lemma at_nil st : at_stage st [] = [].
Proof. done. Qed.
Lemma at_same st k l : at_stage st ((st, k) :: l) = k.1 :: at_stage st l.
Proof. unfold at_stage. by rewrite filter_cons_True. Qed.
Lemma at_other st st' k l : st <> st' -> at_stage st ((st', k) :: l) = at_stage st l.
Proof. intros N. unfold at_stage. rewrite filter_cons_False; [done|]. cbn. congruence. Qed.
#[local] Instance at_stage_perm st : Proper ((≡ₚ) ==> (≡ₚ)) (at_stage st).
Proof. intros l l' P. unfold at_stage. by rewrite P. Qed.

Lemma at_stage_app st l l' : at_stage st (l ++ l') = at_stage st l ++ at_stage st l'.
Proof. unfold at_stage. by rewrite filter_app, map_app. Qed.

(** Permutations of lists that are put together from the same parts, by counting. *)
Definition is_one (i x : Z) : nat := if Z.eq_dec i x then 1 else 0.
Lemma count_one_cons (i x : Z) l : count_occ Z.eq_dec (i :: l) x = (is_one i x + count_occ Z.eq_dec l x)%nat.
Proof. unfold is_one. cbn. by destruct (Z.eq_dec i x). Qed.

Lemma start_inv services : Inv services (start services).
Proof.
  constructor; cbn; try done; try (intros; by match goal with E : _ ∈ [] |- _ => apply elem_of_nil in E end).
  intros i out. rewrite lookup_empty. split; [done|]. intros [_ E]. by apply elem_of_nil in E.
Qed.

Lemma calls_range services s k : Inv services s -> k ∈ calls s -> 1 <= k.1 <= zlen (calls s).
Proof.
  intros Iv [n Ek]%list_elem_of_lookup. rewrite (inv_ids _ _ Iv n k Ek). apply lookup_lt_Some in Ek. unfold zlen. lia.
Qed.

Lemma calls_nodup services s : Inv services s -> NoDup (map fst (calls s)).
Proof.
  intros Iv. apply NoDup_alt. intros i j x Hi Hj. rewrite list_lookup_fmap in Hi, Hj.
  destruct (calls s !! i) as [e|] eqn:Ei; [|done]. destruct (calls s !! j) as [d|] eqn:Ej; [|done]. cbn in Hi, Hj.
  pose proof (inv_ids _ _ Iv i e Ei). pose proof (inv_ids _ _ Iv j d Ej). assert (e.1 = d.1) by congruence. lia.
Qed.

(** Right answers stay right. *)
Lemma right_mono services s s' i b :
  calls s ⊆ calls s' -> answers s ⊆ answers s' -> right_answer services s i b -> right_answer services s' i b.
Proof.
  intros Hc Ha (svc & meth & req & E & F). exists svc, meth, req. split; [by apply Hc|].
  destruct (fate services svc meth req); [done|]. destruct F as (resp & Er & ->). exists resp. split; [by apply Ha|done].
Qed.

(** [fixed64] on the wire and [int64_t] in the table. *)
Lemma id_wire i : 0 <= i < 2 ^ 63 -> u64 i = i /\ i64 i = i.
Proof. intros B. split; [apply wrap_small; lia|apply swrap_small; lia]. Qed.

Ltac count_parts := rewrite ?map_app, ?map_cons, ?count_occ_app, ?count_one_cons, ?count_occ_app; rewrite ?at_nil; cbn [map count_occ fst snd].
Ltac perms := clear; apply (Permutation_count_occ Z.eq_dec); intros; count_parts; lia.

Lemma call_inv services svc meth req s :
  Inv services s -> zlen (calls s) < 2 ^ 62 ->
  exists s', step (Call svc meth req) s = Ret s' /\ Inv services s'.
Proof.
  intros Iv B. cbn [step takeId]. rewrite (inv_next _ _ Iv). pose proof (zlen_nonneg (calls s)).
  rewrite (swrap_small 64) by lia. eexists. split; [reflexivity|]. set (i := zlen (calls s) + 1).
  assert (calls s ⊆ calls s ++ [(i, (svc, meth, req))]) as Sub by set_solver.
  destruct Iv as [I1 I2 I3 I4 I5 I6 I7 I8 I9 I10 I11]. constructor; projections.
  - intros k e Ek. apply lookup_app_Some in Ek as [Ek|[Ge Ek]]; [by apply I1|].
    apply list_lookup_singleton_Some in Ek as [Ek <-]. cbn. unfold i, zlen. lia.
  - by rewrite zlen_app, zlen_cons, zlen_nil.
  - done.
  - done.
  - intros st k [E|E]%elem_of_app; [apply Sub; by eapply I5|]. apply list_elem_of_singleton in E. injection E as -> ->. set_solver.
  - intros m E. destruct (I6 m E) as (j & a & b & c & Ej & ->). exists j, a, b, c. auto.
  - unfold open_calls, unsent, unanswered, unreceived in *. projections.
    rewrite !at_stage_app, at_same, at_other by done. cbn [fst map]. rewrite map_app, I7. perms.
  - unfold open_calls, unsent, unanswered, unreceived in *. projections. by rewrite at_stage_app, at_other, app_nil_r.
  - intros j a b r E. destruct (I9 j a b r E) as (q & Eq & F). exists q. auto.
  - intros m E. destruct (I10 m E) as (T & R & A). do 2 (split; [done|]). eapply right_mono; [..|exact A]; cbn; set_solver.
  - intros j b E. eapply right_mono; [..|exact (I11 j b E)]; cbn; set_solver.
Qed.

Lemma proceed_inv services i s : Inv services s -> zlen (calls s) < 2 ^ 62 ->
  exists s', step (Proceed i) s = Ret s' /\ Inv services s'.
Proof.
  intros Iv B. cbn [step]. destruct (calling s !! i) as [[st [j [[svc meth] req]]]|] eqn:Ei; [|eauto].
  destruct (CallMethod_next st j svc meth req true true (caller s)) as [st' c] eqn:En. eexists. split; [reflexivity|].
  assert (exists rest, delete i (calling s) = rest /\ calling s ≡ₚ (st, (j, (svc, meth, req))) :: rest) as (rest & -> & P)
    by (eexists; split; [reflexivity|by apply delete_Permutation]).
  assert (rest ⊆ calling s) as Sub by (intros x Hx; rewrite P; set_solver).
  assert ((j, (svc, meth, req)) ∈ calls s) as Hj by (eapply (inv_calling _ _ Iv); by apply list_elem_of_lookup_2 in Ei).
  pose proof (calls_range _ _ _ Iv Hj) as Rg. cbn in Rg.
  destruct Iv as [I1 I2 I3 I4 I5 I6 I7 I8 I9 I10 I11]. unfold open_calls, unsent, unanswered, unreceived in *.
  rewrite P in I7, I8.
  destruct st; cbn in En; injection En as <- <-; constructor; projections; try done;
    unfold open_calls, unsent, unanswered, unreceived; projections.
  - intros st k [E|E]%elem_of_app; [eapply I5; eauto|]. apply list_elem_of_singleton in E. by injection E as -> ->.
  - rewrite at_same, at_other in I7 by done. rewrite I7, !at_stage_app, at_same, (at_other HasId) by done. projections. perms.
  - rewrite at_other in I8 by done. eapply holds_perm; [|apply holds_enter, I8]. rewrite at_stage_app, at_same. projections. perms.
  - rewrite length_app. cbn. lia.
  - rewrite app_nil_r. eauto.
  - intros m [E|E%list_elem_of_singleton]%elem_of_app; [by apply I6|]. subst. eauto 6.
  - rewrite at_same, at_other in I7 by done. rewrite app_nil_r, drop_app_le by lia. rewrite map_app. cbn [map id call_message].
    destruct (id_wire j) as [-> _]; [lia|]. rewrite I7. projections. perms.
  - rewrite at_same in I8. rewrite app_nil_r, drop_app_le by lia. rewrite map_app. cbn [map id call_message].
    destruct (id_wire j) as [-> _]; [lia|]. eapply holds_perm; [|exact I8]. projections. perms.
Qed.
Lemma deliver_request_inv services s : Inv services s -> zlen (calls s) < 2 ^ 62 ->
  exists s', step DeliverRequest s = Ret s' /\ Inv services s'.
Proof.
  intros Iv B. cbn [step]. destruct (sent (caller s) !! to_callee s) as [m|] eqn:Em; [|eauto].
  destruct (inv_sent _ _ Iv m (list_elem_of_lookup_2 _ _ _ Em)) as (j & svc & meth & req & Hj & ->).
  pose proof (calls_range _ _ _ Iv Hj) as Rg. cbn in Rg. destruct (id_wire j) as [Wu Wi]; [lia|].
  pose proof (drop_S _ _ _ Em) as Ed. apply lookup_lt_Some in Em.
  destruct Iv as [I1 I2 I3 I4 I5 I6 I7 I8 I9 I10 I11]. unfold open_calls, unsent, unanswered, unreceived in *.
  rewrite Ed in I7, I8. cbn [map id call_message] in I7, I8. rewrite Wu in I7, I8.
  unfold onRpcMessage. cbn [type call_message]. rewrite I4. change (dispatch _ _) with (fate services svc meth req).
  destruct (fate services svc meth req) as [err|r] eqn:Ef; cbn [obind]; eexists; (split; [reflexivity|]);
    constructor; projections; try done; unfold open_calls, unsent, unanswered, unreceived; projections; rewrite ?Wu, ?Wi; try lia.
  - rewrite length_app. lia.
  - rewrite I7, (drop_app_le (sent (callee s))), map_app by lia. projections. rewrite ?Wu. perms.
  - eapply holds_perm; [|exact I8]. rewrite (drop_app_le (sent (callee s))), map_app by lia. projections. rewrite ?Wu. perms.
  - intros m [E|E%list_elem_of_singleton]%elem_of_app; [by apply I10|]. subst m. projections.
    rewrite ?Wu. split; [done|]. split; [by right|]. exists svc, meth, req. by rewrite Ef.
  - rewrite I7. perms.
  - eapply holds_perm; [|exact I8]. perms.
  - intros i' svc' meth' r' [E|E%list_elem_of_singleton]%elem_of_app; [by apply I9|]. injection E as -> -> -> ->. eauto.
Qed.

Lemma answer_inv services i resp s : Inv services s -> zlen (calls s) < 2 ^ 62 ->
  exists s', step (Answer i resp) s = Ret s' /\ Inv services s'.
Proof.
  intros Iv B. cbn [step]. destruct (pending (callee s) !! i) as [[j [[svc meth] r]]|] eqn:Ei; [|eauto].
  eexists. split; [reflexivity|]. pose proof (list_elem_of_lookup_2 _ _ _ Ei) as Hp.
  destruct (inv_pending _ _ Iv j svc meth r Hp) as (req & Hj & Ef).
  pose proof (calls_range _ _ _ Iv Hj) as Rg. cbn in Rg. destruct (id_wire j) as [Wu Wi]; [lia|].
  assert (exists rest, delete i (pending (callee s)) = rest /\ pending (callee s) ≡ₚ (j, (svc, meth, r)) :: rest) as (rest & Er & P)
    by (eexists; split; [reflexivity|by apply delete_Permutation]).
  destruct Iv as [I1 I2 I3 I4 I5 I6 I7 I8 I9 I10 I11]. unfold open_calls, unsent, unanswered, unreceived in *.
  rewrite P in I7, I8. cbn [map fst] in I7, I8.
  constructor; projections; try done; unfold open_calls, unsent, unanswered, unreceived; projections; rewrite ?Er.
  - rewrite length_app. lia.
  - rewrite I7, (drop_app_le (sent (callee s))), map_app by lia. projections. rewrite ?Wu. perms.
  - eapply holds_perm; [|exact I8]. rewrite (drop_app_le (sent (callee s))), map_app by lia. projections. rewrite ?Wu. perms.
  - intros j' a b r' E. apply I9. rewrite P. by apply elem_of_cons; right.
  - intros m [E|E%list_elem_of_singleton]%elem_of_app.
    + destruct (I10 m E) as (T & R & A). do 2 (split; [done|]). eapply right_mono; [..|exact A]; cbn; set_solver.
    + subst m. projections. rewrite ?Wu. split; [done|]. split; [by left|]. exists svc, meth, req. rewrite Ef. split; [done|].
      exists resp. split; [set_solver|done].
  - intros j' b E. eapply right_mono; [..|exact (I11 j' b E)]; cbn; set_solver.
Qed.

Lemma deliver_response_inv services s : Inv services s -> zlen (calls s) < 2 ^ 62 ->
  exists s', step DeliverResponse s = Ret s' /\ Inv services s'.
Proof.
  intros Iv B. cbn [step]. destruct (sent (callee s) !! to_caller s) as [m|] eqn:Em; [|eauto].
  destruct (inv_reply _ _ Iv m (list_elem_of_lookup_2 _ _ _ Em)) as (T & R & A).
  pose proof A as (svc & meth & req & Hj & _).
  pose proof (calls_range _ _ _ Iv Hj) as Rg. cbn in Rg. destruct (id_wire (id m)) as [Wu Wi]; [lia|].
  pose proof (drop_S _ _ _ Em) as Ed. apply lookup_lt_Some in Em. pose proof (calls_nodup _ _ Iv) as ND.
  destruct Iv as [I1 I2 I3 I4 I5 I6 I7 I8 I9 I10 I11]. unfold open_calls, unsent, unanswered, unreceived in *.
  rewrite Ed in I7, I8. cbn [map] in I7, I8.
  set (w := at_stage Entered (calling s) ++ map id (drop (to_callee s) (sent (caller s))) ++ map fst (pending (callee s))
              ++ map id (drop (S (to_caller s)) (sent (callee s)))).
  assert (map fst (calls s) ≡ₚ at_stage HasId (calling s) ++ map fst (ran (caller s)) ++ id m :: w) as I7' by (unfold w; rewrite I7; perms).
  rewrite I7' in ND. apply NoDup_app in ND as (_ & _ & ND). apply NoDup_app in ND as (_ & _ & ND).
  destruct (holds_remove (outstandings_ (caller s)) w (id m) ND) as [Lk Hh].
  { eapply holds_perm; [|exact I8]. unfold w. perms. }
  unfold onRpcMessage. rewrite T, Wi, Lk.
  assert (bool_decide (response m <> None) || bool_decide (error m <> None) = true) as ->.
  { apply orb_true_iff. destruct R; [left|right]; by apply bool_decide_eq_true. }
  cbn [out_response out_done andb obind]. eexists. split; [reflexivity|].
  constructor; projections; try done; unfold open_calls, unsent, unanswered, unreceived; projections; rewrite ?map_app; projections.
  - lia.
  - rewrite I7'. unfold w. perms.
  - intros j b [E|E%list_elem_of_singleton]%elem_of_app; [by apply I11|]. by injection E as -> ->.
Qed.

Lemma rpc_step_inv services e s : Inv services s -> zlen (calls s) < 2 ^ 62 ->
  exists s', step e s = Ret s' /\ Inv services s'.
Proof.
  destruct e; auto using call_inv, proceed_inv, deliver_request_inv, answer_inv, deliver_response_inv.
Qed.

Lemma step_calls e s s' : step e s = Ret s' -> zlen (calls s') <= zlen (calls s) + 1.
Proof.
  destruct e; cbn [step]; intros E.
  - injection E as <-. cbn [calls takeId]. rewrite zlen_app, zlen_cons, zlen_nil. lia.
  - destruct (calling s !! i) as [[st [j [[a b] c]]]|]; [|injection E as <-; lia].
    destruct (CallMethod_next _ _ _ _ _ _ _ _). injection E as <-. cbn. lia.
  - destruct (sent (caller s) !! _) as [m|]; [|injection E as <-; lia].
    destruct (onRpcMessage m (callee s)); [|done]. injection E as <-. cbn. lia.
  - destruct (pending (callee s) !! i) as [[j q]|]; injection E as <-; cbn; lia.
  - destruct (sent (callee s) !! _) as [m|]; [|injection E as <-; lia].
    destruct (onRpcMessage m (caller s)); [|done]. injection E as <-. cbn. lia.
Qed.

Lemma run_inv services es s : Inv services s -> zlen (calls s) + zlen es < 2 ^ 62 ->
  exists s', run es s = Ret s' /\ Inv services s'.
Proof.
  revert s. induction es as [|e es IH]; intros s Iv B; cbn [run]; [eauto|]. rewrite zlen_cons in B.
  pose proof (zlen_nonneg es). destruct (rpc_step_inv services e s Iv) as (s1 & E & Iv1); [lia|]. rewrite E. cbn [obind].
  apply IH; [done|]. pose proof (step_calls _ _ _ E). lia.
Qed.
(** ** Rest *)

(** The event has something to do, and is not a new call. *)
Definition enabled (e : event) (s : system) : bool :=
  match e with
  | Call _ _ _ => false
  | Proceed i => bool_decide (i < length (calling s))%nat
  | DeliverRequest => bool_decide (to_callee s < length (sent (caller s)))%nat
  | Answer i _ => bool_decide (i < length (pending (callee s)))%nat
  | DeliverResponse => bool_decide (to_caller s < length (sent (callee s)))%nat
  end.
(** How many steps the calls have before them, at most. *)
Definition work (s : system) : nat :=
  5 * length (at_stage HasId (calling s)) + 4 * length (at_stage Entered (calling s)) +
  3 * (length (sent (caller s)) - to_callee s) + 2 * length (pending (callee s)) + (length (sent (callee s)) - to_caller s).

Lemma length_at_stage_le services s : Inv services s -> (work s <= 5 * length (calls s))%nat.
Proof.
  intros Iv. pose proof (Permutation_length (inv_where _ _ Iv)) as L. unfold open_calls, unsent, unanswered, unreceived in L.
  rewrite !length_app, !length_map, !length_drop in L. unfold work. lia.
Qed.

Lemma step_work services e s s' : Inv services s -> enabled e s = true -> step e s = Ret s' ->
  (work s' < work s)%nat /\ calls s' = calls s.
Proof.
  intros Iv En E. destruct (inv_to _ _ Iv) as [T1 T2]. unfold work.
  destruct e as [| i | | i resp |]; cbn [enabled step] in *; [done|apply bool_decide_eq_true in En..].
  - apply lookup_lt_is_Some_2 in En as [[st [j [[svc meth] req]]] Ei]. rewrite Ei in E.
    assert (forall st', length (at_stage st' (calling s)) = length (at_stage st' ((st, (j, (svc, meth, req))) :: delete i (calling s)))) as L
      by (intros st'; by rewrite (delete_Permutation _ _ _ Ei) at 1).
    destruct st; cbn [CallMethod_next] in E; injection E as <-; projections; (split; [|done]); rewrite !at_stage_app, !length_app, !L.
    + rewrite at_same, (at_other Entered HasId), (at_other HasId Entered), at_same, !at_nil by done. cbn [length]. lia.
    + rewrite at_same, (at_other HasId Entered), !at_nil by done. cbn [length]. lia.
  - pose proof En as [m Em]%lookup_lt_is_Some_2. rewrite Em in E.
    destruct (inv_sent _ _ Iv m (list_elem_of_lookup_2 _ _ _ Em)) as (j & svc & meth & req & _ & ->).
    unfold onRpcMessage in E. cbn [type call_message] in E.
    destruct (dispatch _ _); cbn [obind] in E; injection E as <-; projections; (split; [|done]); rewrite length_app; cbn; lia.
  - pose proof En as [[j q] Ei]%lookup_lt_is_Some_2. rewrite Ei in E.
    injection E as <-; projections. split; [|done]. rewrite length_app, length_delete by done. cbn. lia.
  - pose proof En as [m Em]%lookup_lt_is_Some_2. rewrite Em in E.
    destruct (inv_reply _ _ Iv m (list_elem_of_lookup_2 _ _ _ Em)) as (T & _ & _).
    unfold onRpcMessage in E. rewrite T in E. destruct (_ || _); [|done]. cbn [obind] in E.
    destruct (outstandings_ (caller s) !! _); cbn [obind] in E; injection E as <-; projections; (split; [|done]); lia.
Qed.

(** Every event of the list has something to do when its turn comes. *)
Fixpoint busy (es : list event) (s : system) : bool :=
  match es with
  | [] => true
  | e :: es => enabled e s && match step e s with Ret s => busy es s | Stop _ => false end
  end.

Lemma busy_bounded services es s : Inv services s -> zlen (calls s) < 2 ^ 62 -> busy es s = true -> (length es <= work s)%nat.
Proof.
  revert s. induction es as [|e es IH]; intros s Iv B H; cbn [busy length] in *; [lia|]. apply andb_true_iff in H as [En H].
  destruct (rpc_step_inv services e s Iv B) as (s1 & E & Iv1). rewrite E in H. destruct (step_work _ _ _ _ Iv En E) as [W Ec].
  specialize (IH s1 Iv1 ltac:(by rewrite Ec) H). lia.
Qed.

(** Nothing is left to do. *)
Definition at_rest (s : system) : Prop := forall e, enabled e s = false.

Lemma rest_places (resp : Resp) services s : Inv services s -> at_rest s ->
  at_stage HasId (calling s) = [] /\ open_calls s = [].
Proof.
  intros Iv R. pose proof (R (Proceed 0)) as R1. pose proof (R DeliverRequest) as R2. pose proof (R (Answer 0 resp)) as R3. pose proof (R DeliverResponse) as R4.
  cbn in R1, R2, R3, R4. apply bool_decide_eq_false in R1, R2, R3, R4.
  assert (calling s = []) as C by (apply length_zero_iff_nil; lia).
  assert (pending (callee s) = []) as P by (apply length_zero_iff_nil; lia).
  unfold open_calls, unsent, unanswered, unreceived. rewrite C, P, !drop_ge by lia. done.
Qed.

(** C18. Remote calls are matched with their answers. Whatever calls threads make of a
    channel, however the steps of [CallMethod] in them interleave with each other, with the
    messages delivered and with the services, which answer in any order: no assertion
    fails; a call is found in exactly one of the table of outstanding calls, the closures
    run and the calls not yet entered, so each closure runs at most once; and a closure that runs has the answer its service gave
    to this call's request, or no response if there is no such service or method or the
    request does not parse. *)
Theorem rpc_calls_match (services : list (list byte * Service)) (es : list event) (H : zlen es < 2 ^ 62) :
  exists s, run es (start services) = Ret s /\
    NoDup (map fst (calls s)) /\
    map fst (calls s) ≡ₚ at_stage HasId (calling s) ++ open_calls s ++ map fst (ran (caller s)) /\
    (forall i, i ∈ open_calls s <-> outstandings_ (caller s) !! i = Some (mkCall true true)) /\
    (forall i b, (i, b) ∈ ran (caller s) -> right_answer services s i b).
Proof.
  destruct (run_inv services es (start services)) as (s & E & Iv); [apply start_inv|by cbn|].
  exists s. split; [done|]. split; [by apply (calls_nodup services)|]. split; [apply (inv_where _ _ Iv)|]. split; [|apply (inv_ran _ _ Iv)].
  intros i. rewrite (inv_out _ _ Iv i (mkCall true true)). naive_solver.
Qed.

(** C35. Remote calls come to an end. After any history, the steps that remain, in any order
    they are taken, are at most five for each call made (it enters the table, it sends, the
    request is delivered, the service answers, the response is delivered); and
    when none remains the closure of every call has run exactly once and the table of
    outstanding calls is empty. *)
Theorem rpc_calls_end (services : list (list byte * Service)) (es : list event) (H : zlen es < 2 ^ 62) :
  exists s, run es (start services) = Ret s /\
    (forall more, busy more s = true -> (length more <= 5 * length (calls s))%nat) /\
    (forall resp : Resp, at_rest s -> outstandings_ (caller s) = ∅ /\ map fst (calls s) ≡ₚ map fst (ran (caller s))).
Proof.
  destruct (run_inv services es (start services)) as (s & E & Iv); [apply start_inv|by cbn|].
  assert (zlen (calls s) <= zlen es) as B.
  { change (zlen es) with (0 + zlen es). change 0 with (zlen (calls (start services))). revert E. generalize (start services).
    clear. induction es as [|e es IH]; intros s0 E; cbn in *; [injection E as ->; unfold zlen; cbn; lia|].
    destruct (step e s0) as [s1|] eqn:E1; [|done]. pose proof (step_calls _ _ _ E1). specialize (IH s1 E). rewrite zlen_cons. lia. }
  exists s. split; [done|]. split.
  - intros more Hb. pose proof (length_at_stage_le _ _ Iv). pose proof (busy_bounded services more s Iv ltac:(lia) Hb). lia.
  - intros resp R. destruct (rest_places resp services s Iv R) as [C O]. split.
    + apply map_eq. intros i. rewrite lookup_empty. destruct (outstandings_ (caller s) !! i) as [out|] eqn:Ei; [|done].
      apply (inv_out _ _ Iv) in Ei as [_ Ei]. rewrite O in Ei. by apply elem_of_nil in Ei.
    + rewrite (inv_where _ _ Iv), C, O. done.
Qed.
End Rpc.

(** An echo service; a call to it, a call to a service that is not there, and the two
    interleaved and answered out of order. *)
Definition echo : list byte := bytes "echo".
Definition echo_services : list (list byte * Service) := registerService echo [echo] [].
Definition echo_events : list (event (Resp := list byte)) :=
  [Call echo echo echo; Call echo [] echo; Proceed 0; Proceed 0; Proceed 1; DeliverRequest; Proceed 0; DeliverRequest;
   DeliverResponse; Answer 0 echo; DeliverResponse].
Definition echo_parse (_ _ req : list byte) : option (list byte) := Some req.
Definition echo_run := run echo_parse (fun r => r) echo_events (start echo_services).

Lemma rpc_calls_match_witness : exists s, echo_run = Ret s /\ NoDup (map fst (calls s)) /\
  (forall i b, (i, b) ∈ ran (caller s) -> right_answer echo_parse (fun r => r) echo_services s i b).
Proof.
  destruct (rpc_calls_match echo_parse (fun r => r) echo_services echo_events) as (s & E & N & _ & _ & R); [vm_compute; reflexivity|].
  exists s. auto.
Defined.

Lemma rpc_calls_end_witness : exists s, echo_run = Ret s /\ ran (caller s) = [(2, None); (1, Some echo)] /\
  outstandings_ (caller s) = ∅ /\ map fst (calls s) ≡ₚ map fst (ran (caller s)).
Proof.
  destruct (rpc_calls_end echo_parse (fun r => r) echo_services echo_events) as (s & E & _ & R); [vm_compute; reflexivity|].
  exists s. split; [done|]. pose proof E as C. vm_compute in C. injection C as C.
  split; [by rewrite <- C|]. apply (R []). rewrite <- C. intros [|i| |i r|]; try done; by destruct i.
Defined.

(** A response with neither a response nor an error, which a peer is free to send, fails the
    assertion of [onRpcMessage]: the peer ends the process. *)
Theorem empty_response_asserts (i : Z) (c : RpcChannel (Req := list byte)) :
  onRpcMessage echo_parse (mkMessage RESPONSE i [] [] [] None None) c = Stop AssertFailed.
Proof. done. Qed.
