(* ===== verification/Inspector.v ===== *)
(** * Inspector (src/muduo/muduo/net/inspect/Inspector.h, Inspector.cc)

    Commands registered under a module and a name, and the callback of the HTTP server
    that runs them: the split of the path, the index page, the dispatch. *)

From S2P Require Import Prelude StringPiece StdMap Buffer Http.

Module Inspect.

Definition slash : byte := z2b 47.

(** [str.find('/', start)]: the position, or the length for [npos] *)
Definition find_from (str : list byte) (start : Z) : Z := start + std_find slash (zdrop start str).

(** The loop of [split] and what follows it; each round moves [start] forward. *)
Fixpoint split_loop (fuel : nat) (str : list byte) (start pos : Z) (result : list (list byte)) : outcome (list (list byte)) :=
  if decide (pos <> zlen str) then
    match fuel with
    | O => Stop NoFuel
    | S fuel =>
        let result := if decide (pos > start) then result ++ [slice str start pos] else result in
        let start := pos + 1 in
        split_loop fuel str start (find_from str start) result
    end
  else Ret (if decide (start < zlen str) then result ++ [zdrop start str] else result).
Definition split (str : list byte) : outcome (list (list byte)) :=
  split_loop (length str) str 0 (find_from str 0) [].

(** A callback may be empty. *)
Definition Callback : Type := option (Http.Method -> list (list byte) -> list byte).

Record Inspector := mkInspector {
  modules_ : list (list byte * list (list byte * Callback));
  helps_ : list (list byte * list (list byte * list byte))
}.
Definition newInspector : Inspector := mkInspector [] [].

(** [m[k]], made if it is not there *)
Definition at_or_new {V} (k : list byte) (m : list (list byte * list (list byte * V))) : list (list byte * V) := default [] (map_find k m).

Definition add (module command : list byte) (cb : Callback) (help : list byte) (s : Inspector) : Inspector :=
  mkInspector (map_set module (map_set command cb (at_or_new module (modules_ s))) (modules_ s))
    (map_set module (map_set command help (at_or_new module (helps_ s))) (helps_ s)).

Definition remove (module command : list byte) (s : Inspector) : Inspector :=
  match map_find module (modules_ s) with
  | Some commands =>
      mkInspector (map_set module (map_erase command commands) (modules_ s))
        (map_set module (map_erase command (at_or_new module (helps_ s))) (helps_ s))
  | None => s
  end.

(** The line of a command on the index page *)
Definition help_line (module command help : list byte) : list byte :=
  let len := zlen module + zlen command in
  bytes "/" ++ module ++ bytes "/" ++ command ++ replicate (Z.to_nat (if decide (len >= 25) then 1 else 25 - len)) Byte.x20 ++ help ++ [z2b 10].
Definition index (helps : list (list byte * list (list byte * list byte))) : list byte :=
  flat_map (fun e => flat_map (fun h => help_line e.1 h.1 h.2) e.2) helps.

Section Requests.
(** The picture in the source. *)
Context (favicon : list byte).

Definition k200Ok : Z := 200.
Definition k404NotFound : Z := 404.
Definition ok_response (contentType body : list byte) (resp : Http.HttpResponse) : Http.HttpResponse :=
  Http.setBody body (Http.setContentType contentType (Http.setStatusMessage (bytes "OK") (Http.setStatusCode k200Ok resp))).
Definition not_found (resp : Http.HttpResponse) : Http.HttpResponse :=
  Http.setStatusMessage (bytes "Not Found") (Http.setStatusCode k404NotFound resp).

Definition dispatch (method : Http.Method) (result : list (list byte)) (s : Inspector) (resp : Http.HttpResponse) : Http.HttpResponse * bool :=
  match result with
  | [] => (resp, false)
  | [module] =>
      if decide (module = bytes "favicon.ico") then (ok_response (bytes "image/png") favicon resp, true) else (resp, false)
  | module :: command :: args =>
      match map_find module (modules_ s) with
      | Some commands =>
          match map_find command commands with
          | Some (Some cb) => (ok_response (bytes "text/plain") (cb method args) resp, true)
          | _ => (resp, false)
          end
      | None => (resp, false)
      end
  end.

Definition onRequest (path : list byte) (method : Http.Method) (s : Inspector) (resp : Http.HttpResponse) : outcome Http.HttpResponse :=
  if decide (path = bytes "/") then Ret (ok_response (bytes "text/plain") (index (helps_ s)) resp)
  else
    let* result := split path in
    let '(resp, ok) := dispatch method result s resp in
    Ret (if ok : bool then resp else not_found resp).
End Requests.

(** ** The split *)

(** The pieces between slashes that are not empty; [acc] is the piece read so far. *)
Fixpoint pieces (acc str : list byte) : list (list byte) :=
  match str with
  | [] => if decide (acc = []) then [] else [acc]
  | c :: str =>
      if decide (c = slash) then (if decide (acc = []) then pieces [] str else acc :: pieces [] str)
      else pieces (acc ++ [c]) str
  end.

Lemma pieces_plain acc p str : slash ∉ p -> pieces acc (p ++ str) = pieces (acc ++ p) str.
Proof.
  revert acc. induction p as [|c p IH]; intros acc N; cbn; [by rewrite app_nil_r|].
  apply not_elem_of_cons in N as [N1 N2]. rewrite decide_False by done. rewrite IH by done. by rewrite <- app_assoc.
Qed.

Lemma pieces_slash p str : slash ∉ p -> pieces [] (p ++ slash :: str) = (if decide (p = []) then [] else [p]) ++ pieces [] str.
Proof.
  intros N. rewrite pieces_plain by done. cbn [pieces app]. rewrite decide_True by done. by case_decide.
Qed.
Lemma pieces_last p : slash ∉ p -> pieces [] p = (if decide (p = []) then [] else [p]).
Proof. intros N. rewrite <- (app_nil_r p) at 1. rewrite pieces_plain by done. done. Qed.

Lemma split_loop_ok fuel str start result : 0 <= start <= zlen str -> zlen str - start <= Z.of_nat fuel ->
  split_loop fuel str start (find_from str start) result = Ret (result ++ pieces [] (zdrop start str)).
Proof.
  revert start result. induction fuel as [|fuel IH]; intros start result B F; unfold find_from; cbn [split_loop].
  - assert (start = zlen str) as -> by lia. rewrite zdrop_all by lia. cbn [std_find]. rewrite Z.add_0_r, decide_False by (by intros []).
    rewrite decide_False by lia. cbn. by rewrite app_nil_r.
  - pose proof (std_find_range slash (zdrop start str)) as R. rewrite zlen_zdrop in R by lia.
    set (k := std_find slash (zdrop start str)) in *. pose proof (std_find_before slash (zdrop start str)) as N. fold k in N.
    destruct (decide (start + k <> zlen str)) as [D|D].
    + assert (zdrop start str = ztake k (zdrop start str) ++ slash :: zdrop (start + k + 1) str) as E.
      { rewrite <- (ztake_zdrop k (zdrop start str)) at 1. f_equal. rewrite zdrop_zdrop by lia.
        pose proof (std_find_at slash (zdrop start str)) as L. fold k in L. rewrite zlen_zdrop in L by lia. specialize (L ltac:(lia)).
        unfold zdrop in *. rewrite lookup_drop in L. replace (Z.to_nat (start + k + 1)) with (S (Z.to_nat (start + k))) by lia.
        rewrite <- (drop_S _ slash); [done|]. rewrite <- L. f_equal. lia. }
      rewrite E, pieces_slash by done. change (start + k + 1 + std_find slash (zdrop (start + k + 1) str)) with (find_from str (start + k + 1)).
      rewrite IH by lia. rewrite app_assoc. do 2 f_equal. assert (slice str start (start + k) = ztake k (zdrop start str)) as ->.
      { unfold slice. f_equal. lia. }
      destruct (decide (start + k > start)) as [P|P].
      * rewrite decide_False; [done|]. intros En. apply (f_equal zlen) in En. rewrite zlen_ztake, zlen_nil in En by (rewrite zlen_zdrop; lia). lia.
      * replace k with 0 by lia. rewrite decide_True by done. by rewrite app_nil_r.
    + rewrite ztake_all in N by (rewrite zlen_zdrop; lia). rewrite pieces_last by done. f_equal. destruct (decide (start < zlen str)) as [P|P].
      * rewrite decide_False; [done|]. intros En. apply (f_equal zlen) in En. rewrite zlen_zdrop, zlen_nil in En by lia. lia.
      * rewrite zdrop_all by lia. rewrite decide_True by done. by rewrite app_nil_r.
Qed.

Lemma split_ok str : split str = Ret (pieces [] str).
Proof.
  unfold split. rewrite split_loop_ok; [by rewrite zdrop_0|zlen_pos; lia|]. unfold zlen. lia.
Qed.

(** The path of a list of names. *)
Definition path_of (names : list (list byte)) : list byte := flat_map (fun n => slash :: n) names.
Definition name_ok (n : list byte) : Prop := n <> [] /\ slash ∉ n.
#[export] Instance name_ok_dec n : Decision (name_ok n).
Proof. unfold name_ok. apply _. Defined.

Lemma pieces_path names : Forall name_ok names -> pieces [] (path_of names) = names.
Proof.
  intros F. assert (forall acc, slash ∉ acc -> pieces acc (path_of names) = (if decide (acc = []) then [] else [acc]) ++ names) as K.
  { induction F as [|n names [Nn Ns] F IH]; intros acc Na; cbn; [by rewrite app_nil_r|]. rewrite decide_True by done.
    change (flat_map _ names) with (path_of names). rewrite pieces_plain by done. cbn [app]. rewrite IH by done.
    destruct (decide (n = [])) as [|_]; [done|].
    by case_decide. }
  by rewrite K by apply not_elem_of_nil.
Qed.

(** ** The registry *)

Inductive op := Add (module command : list byte) (cb : Callback) (help : list byte) | Remove (module command : list byte).
Definition apply_op (s : Inspector) (o : op) : Inspector :=
  match o with Add m c cb help => add m c cb help s | Remove m c => remove m c s end.
Definition apply_all (ops : list op) : Inspector := fold_left apply_op ops newInspector.

(** What the last operation on a command left. *)
Definition after_op (module command : list byte) (r : option (Callback * list byte)) (o : op) : option (Callback * list byte) :=
  match o with
  | Add m c cb help => if decide (m = module /\ c = command) then Some (cb, help) else r
  | Remove m c => if decide (m = module /\ c = command) then None else r
  end.
Definition registered (ops : list op) (module command : list byte) : option (Callback * list byte) :=
  fold_left (after_op module command) ops None.

Definition find2 {V} (module command : list byte) (m : list (list byte * list (list byte * V))) : option V :=
  match map_find module m with Some l => map_find command l | None => None end.

(** The lists of commands are maps, and modules and helps have the same commands. *)
Definition inner_sorted {V} (m : list (list byte * list (list byte * V))) : Prop := forall k l, map_find k m = Some l -> sorted l.

Lemma at_or_new_sorted {V} k (m : list (list byte * list (list byte * V))) : inner_sorted m -> sorted (at_or_new k m).
Proof. intros S. unfold at_or_new. destruct (map_find k m) eqn:E; [by eapply S|done]. Qed.

Lemma inner_sorted_set {V} k l (m : list (list byte * list (list byte * V))) : inner_sorted m -> sorted l -> inner_sorted (map_set k l m).
Proof.
  intros S L k' l' E. destruct (decide (k' = k)) as [->|N]; [|rewrite map_find_set_ne in E by done; by eapply S].
  rewrite map_find_set in E. by injection E as <-.
Qed.

Lemma map_erase_sorted {V} k (l : list (list byte * V)) : sorted l -> sorted (map_erase k l).
Proof.
  induction l as [|[k' v'] l IH]; cbn; [done|]. intros [F S]. case_decide; [done|]. split; [|by apply IH].
  rewrite Forall_forall in *. intros x Hx. apply F. by eapply map_erase_elem.
Qed.

Record registry_ok (s : Inspector) (r : list byte -> list byte -> option (Callback * list byte)) : Prop := mkRegistry {
  ro_modules : inner_sorted (modules_ s);
  ro_helps : inner_sorted (helps_ s);
  ro_callback : forall m c, find2 m c (modules_ s) = option_map fst (r m c);
  ro_help : forall m c, find2 m c (helps_ s) = option_map snd (r m c)
}.

Lemma find2_at_or_new {V} m c (ms : list (list byte * list (list byte * V))) : map_find c (at_or_new m ms) = find2 m c ms.
Proof. unfold at_or_new, find2. by destruct (map_find m ms). Qed.

Lemma find2_update {V} m c m' c' (v : V) ms :
  find2 m' c' (map_set m (map_set c v (at_or_new m ms)) ms) = if decide (m = m' /\ c = c') then Some v else find2 m' c' ms.
Proof.
  unfold find2 at 1. destruct (decide (m = m')) as [<-|N].
  - rewrite map_find_set. destruct (decide (c = c')) as [<-|N].
    + by rewrite map_find_set, decide_True.
    + rewrite map_find_set_ne, decide_False, find2_at_or_new by naive_solver. done.
  - rewrite map_find_set_ne, decide_False by naive_solver. done.
Qed.
Lemma find2_erase {V} m c m' c' (ms : list (list byte * list (list byte * V))) : inner_sorted ms ->
  find2 m' c' (map_set m (map_erase c (at_or_new m ms)) ms) = if decide (m = m' /\ c = c') then None else find2 m' c' ms.
Proof.
  intros S. unfold find2 at 1. destruct (decide (m = m')) as [<-|N].
  - rewrite map_find_set. destruct (decide (c = c')) as [<-|N].
    + rewrite map_find_erase, decide_True by (done || by apply at_or_new_sorted). done.
    + rewrite map_find_erase_ne, decide_False, find2_at_or_new by naive_solver. done.
  - rewrite map_find_set_ne, decide_False by naive_solver. done.
Qed.

Lemma registry_op_ok s r o : registry_ok s r -> registry_ok (apply_op s o) (fun m c => after_op m c (r m c) o).
Proof.
  intros [S1 S2 F1 F2]. destruct o as [m c cb help|m c]; cbn [apply_op after_op].
  - constructor; cbn [modules_ helps_ add].
    + apply inner_sorted_set; [done|]. by apply map_set_sorted, at_or_new_sorted.
    + apply inner_sorted_set; [done|]. by apply map_set_sorted, at_or_new_sorted.
    + intros m' c'. rewrite find2_update, F1. by case_decide.
    + intros m' c'. rewrite find2_update, F2. by case_decide.
  - unfold remove. destruct (map_find m (modules_ s)) as [l|] eqn:E.
    + assert (l = at_or_new m (modules_ s)) as -> by (unfold at_or_new; by rewrite E). constructor; cbn [modules_ helps_].
      * apply inner_sorted_set; [done|]. by apply map_erase_sorted, at_or_new_sorted.
      * apply inner_sorted_set; [done|]. by apply map_erase_sorted, at_or_new_sorted.
      * intros m' c'. rewrite find2_erase, F1 by done. by case_decide.
      * intros m' c'. rewrite find2_erase, F2 by done. by case_decide.
    + assert (forall c', r m c' = None) as R.
      { intros c'. specialize (F1 m c'). unfold find2 in F1. rewrite E in F1. by destruct (r m c'). }
      constructor; [done|done|..]; intros m' c'; case_decide as D; rewrite ?F1, ?F2; try done; destruct D as [<- <-]; by rewrite R.
Qed.

Lemma apply_all_ok ops : registry_ok (apply_all ops) (registered ops).
Proof.
  assert (forall s r, registry_ok s r -> registry_ok (fold_left apply_op ops s) (fun m c => fold_left (after_op m c) ops (r m c))) as K.
  { induction ops as [|o ops IH]; intros s r H; cbn [fold_left]; [by destruct H|].
    apply (IH _ (fun m c => after_op m c (r m c) o)). by apply registry_op_ok. }
  apply (K newInspector (fun _ _ => None)). by constructor.
Qed.

(** The inspector runs what is registered. [split], which a comment calls buggy, cuts every
    path into its pieces between slashes that are not empty; and after any sequence of
    additions and removals, a request for a command runs the callback that was last added
    under its module and name with the rest of the path as arguments, and a
    command that was removed, never added or added without a callback is not found. The index page has the
    help of exactly the commands registered. *)
Theorem inspector_serves favicon ops module command args method resp :
  Forall name_ok (module :: command :: args) ->
  split (path_of (module :: command :: args)) = Ret (module :: command :: args) /\
  onRequest favicon (path_of (module :: command :: args)) method (apply_all ops) resp =
    Ret (match registered ops module command with
         | Some (Some cb, _) => ok_response (bytes "text/plain") (cb method args) resp
         | _ => not_found resp
         end) /\
  (onRequest favicon (bytes "/") method (apply_all ops) resp = Ret (ok_response (bytes "text/plain") (index (helps_ (apply_all ops))) resp) /\
   find2 module command (helps_ (apply_all ops)) = option_map snd (registered ops module command)).
Proof.
  intros F. destruct (apply_all_ok ops) as [_ _ F1 F2]. assert (split (path_of (module :: command :: args)) = Ret (module :: command :: args)) as E
    by (by rewrite split_ok, pieces_path).
  split; [done|]. split; [|by split].
  unfold onRequest. rewrite decide_False. 2: { apply Forall_cons in F as [[Nn _] _]. destruct module; [done|]. intros X. by inversion X. }
  rewrite E. cbn [obind]. unfold dispatch. specialize (F1 module command). unfold find2 in F1.
  destruct (map_find module (modules_ (apply_all ops))) as [l|]; [rewrite F1|].
  - by destruct (registered ops module command) as [[[cb|] help]|].
  - by destruct (registered ops module command) as [[[cb|] help]|].
Qed.

Definition sample_ops : list op :=
  [Add (bytes "proc") (bytes "pid") (Some (fun _ _ => bytes "1234")) (bytes "print pid");
   Add (bytes "echo") (bytes "args") (Some (fun _ args => concat args)) (bytes "echo"); Remove (bytes "proc") (bytes "pid")].

Lemma inspector_serves_witness : exists resp,
  onRequest [] (bytes "/echo/args/a/b") Http.kGet (apply_all sample_ops) (Http.newResponse true) = Ret resp /\ Http.body_ resp = bytes "ab".
Proof.
  destruct (inspector_serves [] sample_ops (bytes "echo") (bytes "args") [bytes "a"; bytes "b"] Http.kGet (Http.newResponse true)) as (_ & E & _).
  { apply (bool_decide_unpack _). vm_compute. exact Logic.I. }
  eexists. split; [exact E|vm_compute; reflexivity].
Defined.
End Inspect.
