(* ===== verification/DancingLinks.v ===== *)
(** * Dancing links (src/muduo/examples/sudoku/sudoku.cc)

    The search of [SudokuSolver]: a heap of nodes in rings, columns that are covered and
    uncovered, and the recursion of [solve]. The file shows, for any rings that
    represent an exact cover problem, that uncovering restores the heap exactly
    and that the search finds an exact cover if there is one. *)

From S2P Require Import Prelude.

(** ** Nodes *)

(** A pointer is an index of [nodes_]; a node that is not there is not initialised. *)
Record Node := mkNode { left : Z; right : Z; up : Z; down : Z; col : Z; name : Z; size : Z }.
#[export] Instance Node_inhabited : Inhabited Node := populate (mkNode 0 0 0 0 0 0 0).
Abbreviation heap := (gmap Z Node).

Definition set_left v n := mkNode v (right n) (up n) (down n) (col n) (name n) (size n).
Definition set_right v n := mkNode (left n) v (up n) (down n) (col n) (name n) (size n).
Definition set_up v n := mkNode (left n) (right n) v (down n) (col n) (name n) (size n).
Definition set_down v n := mkNode (left n) (right n) (up n) v (col n) (name n) (size n).
Definition set_col v n := mkNode (left n) (right n) (up n) (down n) v (name n) (size n).
Definition add_size d n := mkNode (left n) (right n) (up n) (down n) (col n) (name n) (i32 (size n + d)).

Definition get (p : Z) (h : heap) : outcome Node := match h !! p with Some n => Ret n | None => Stop OutOfRange end.
Definition modify (p : Z) (f : Node -> Node) (h : heap) : outcome heap :=
  match h !! p with Some n => Ret (<[p := f n]> h) | None => Stop OutOfRange end.

Definition kMaxNodes : nat := 1 + 81 * 4 + 9 * 9 * 9 * 4.
Definition root_ : Z := 0.

(** ** Covering *)

(** [for (p = start; p != stop; p = next(p)) body(p)]; a ring has at most all nodes. *)
Fixpoint walk (fuel : nat) (next : Node -> Z) (body : Z -> heap -> outcome heap) (stop p : Z) (h : heap) : outcome heap :=
  if decide (p = stop) then Ret h
  else match fuel with
       | O => Stop NoFuel
       | S fuel =>
           let* h := body p h in
           let* n := get p h in
           walk fuel next body stop (next n) h
       end.
Definition around (next : Node -> Z) (body : Z -> heap -> outcome heap) (p : Z) (h : heap) : outcome heap :=
  let* n := get p h in walk kMaxNodes next body p (next n) h.

(** The bodies of the inner loops of [cover] and [uncover] *)
Definition unlink (j : Z) (h : heap) : outcome heap :=
  let* n := get j h in
  let* h := modify (down n) (set_up (up n)) h in
  let* n := get j h in
  let* h := modify (up n) (set_down (down n)) h in
  let* n := get j h in
  modify (col n) (add_size (-1)) h.
Definition relink (j : Z) (h : heap) : outcome heap :=
  let* n := get j h in
  let* h := modify (col n) (add_size 1) h in
  let* n := get j h in
  let* h := modify (down n) (set_up j) h in
  let* n := get j h in
  modify (up n) (set_down j) h.

(** The statements of [cover] and [uncover] about the ring of headers *)
Definition detach (c : Z) (h : heap) : outcome heap :=
  let* n := get c h in
  let* h := modify (right n) (set_left (left n)) h in
  let* n := get c h in
  modify (left n) (set_right (right n)) h.
Definition attach (c : Z) (h : heap) : outcome heap :=
  let* n := get c h in
  let* h := modify (right n) (set_left c) h in
  let* n := get c h in
  modify (left n) (set_right c) h.

Definition cover (c : Z) (h : heap) : outcome heap :=
  let* h := detach c h in
  around down (around right unlink) c h.
Definition uncover (c : Z) (h : heap) : outcome heap :=
  let* h := around up (around left relink) c h in
  attach c h.

(** The loop of [get_min_column] from [cc] on *)
Fixpoint min_loop (fuel : nat) (h : heap) (cc c min_size : Z) : outcome Z :=
  if decide (cc = root_) then Ret c
  else match fuel with
       | O => Stop NoFuel
       | S fuel =>
           let* n := get cc h in
           if decide (min_size > size n) then
             if decide (size n <= 1) then Ret cc else min_loop fuel h (right n) cc (size n)
           else min_loop fuel h (right n) c min_size
       end.
Definition get_min_column (h : heap) : outcome Z :=
  let* r := get root_ h in
  let c := right r in
  let* n := get c h in
  if decide (size n > 1) then min_loop kMaxNodes h (right n) c (size n) else Ret c.

(** ** Solving *)

(** [nodes_], [stack_] and the board behind [inout_] *)
Record Search := mkSearch { nodes_ : heap; stack_ : list Z; inout_ : list Z }.
Definition with_nodes (h : heap) (s : Search) : Search := mkSearch h (stack_ s) (inout_ s).

(** The loop that finds the cell and the value in the row of a node *)
Fixpoint cell_value (fuel : nat) (h : heap) (n cell val : Z) : outcome (Z * Z) :=
  if decide (cell = -1 \/ val = -1) then
    match fuel with
    | O => Stop NoFuel
    | S fuel =>
        let* m := get n h in
        if decide (name m < 100) then cell_value fuel h (right m) (name m) val
        else cell_value fuel h (right m) cell (name m %c 10)
    end
  else Ret (cell, val).
Fixpoint fill (h : heap) (stack : list Z) (board : list Z) : outcome (list Z) :=
  match stack with
  | [] => Ret board
  | n :: stack =>
      let* (cell, val) := cell_value kMaxNodes h n (-1) (-1) in
      if decide (0 <= cell < zlen board) then fill h stack (<[Z.to_nat cell := val]> board) else Stop OutOfRange
  end.

(** The loops over [j] around the recursive call *)
Definition cover_others (row : Z) (h : heap) : outcome heap :=
  around right (fun j h => let* n := get j h in cover (col n) h) row h.
Definition uncover_others (row : Z) (h : heap) : outcome heap :=
  around left (fun j h => let* n := get j h in uncover (col n) h) row h.

(** The loop over the rows of [c], with the recursive call as an argument *)
Fixpoint try_rows (fuel : nat) (rec : Search -> outcome (bool * Search)) (c row : Z) (s : Search) : outcome (bool * Search) :=
  if decide (row = c) then Ret (false, s)
  else match fuel with
       | O => Stop NoFuel
       | S fuel =>
           let* h := cover_others row (nodes_ s) in
           let* (found, s) := rec (mkSearch h (stack_ s ++ [row]) (inout_ s)) in
           if found : bool then Ret (true, s)
           else
             let* h := uncover_others row (nodes_ s) in
             let s := mkSearch h (removelast (stack_ s)) (inout_ s) in
             let* n := get row (nodes_ s) in
             try_rows fuel rec c (down n) s
       end.

Fixpoint solve (depth : nat) (s : Search) : outcome (bool * Search) :=
  match depth with
  | O => Stop NoFuel
  | S depth =>
      let* r := get root_ (nodes_ s) in
      if decide (left r = root_) then
        let* board := fill (nodes_ s) (stack_ s) (inout_ s) in
        Ret (true, mkSearch (nodes_ s) (stack_ s) board)
      else
        let* c := get_min_column (nodes_ s) in
        let* h := cover c (nodes_ s) in
        let* n := get c h in
        let* (found, s) := try_rows kMaxNodes (solve depth) c (down n) (with_nodes h s) in
        if found : bool then Ret (true, s)
        else let* h := uncover c (nodes_ s) in Ret (false, with_nodes h s)
  end.

(** ** Rings *)

(** From [x] over the nodes [l] to [z], linked in both directions *)
Fixpoint chain (nx pv : Z -> Z) (x : Z) (l : list Z) (z : Z) : Prop :=
  match l with
  | [] => nx x = z /\ pv z = x
  | y :: l => nx x = y /\ pv y = x /\ chain nx pv y l z
  end.

Lemma chain_app nx pv x l1 y l2 z : chain nx pv x (l1 ++ y :: l2) z <-> chain nx pv x l1 y /\ chain nx pv y l2 z.
Proof. revert x. induction l1 as [|a l1 IH]; intros x; cbn; [tauto|]. rewrite IH. tauto. Qed.

Lemma chain_ext nx pv nx' pv' x l z :
  (forall y, y ∈ x :: l -> nx' y = nx y) -> (forall y, y ∈ l ++ [z] -> pv' y = pv y) -> chain nx pv x l z -> chain nx' pv' x l z.
Proof.
  revert x. induction l as [|y l IH]; intros x N P; cbn.
  - rewrite N, P by (apply elem_of_cons; by left). done.
  - rewrite N, P by (apply elem_of_cons; by left). intros (E1 & E2 & C). split_and!; [done..|].
    apply IH; [| |done]; intros; [apply N|apply P]; apply elem_of_cons; by right.
Qed.

Lemma chain_rev nx pv x l z : chain nx pv x l z -> chain pv nx z (reverse l) x.
Proof.
  revert x. induction l as [|y l IH]; intros x; cbn [chain]; [by intros [? ?]|]. intros (E1 & E2 & C). rewrite reverse_cons. apply chain_app. split; [by apply IH|done].
Qed.

Lemma chain_pred nx pv x l1 j l2 z : chain nx pv x (l1 ++ j :: l2) z -> pv j ∈ x :: l1.
Proof.
  revert x. induction l1 as [|y l1 IH]; intros x; cbn.
  - intros (_ & -> & _). by left.
  - intros (_ & _ & C). right. by apply IH.
Qed.
Lemma chain_succ nx pv x l1 j l2 z : chain nx pv x (l1 ++ j :: l2) z -> nx j ∈ l2 ++ [z].
Proof. intros [_ C]%chain_app. destruct l2; destruct C as [-> _]; by left. Qed.

(** The links of the nodes are determined. *)
Lemma chain_det nx pv nx' pv' x l z :
  chain nx pv x l z -> chain nx' pv' x l z -> (forall y, y ∈ x :: l -> nx' y = nx y) /\ (forall y, y ∈ l ++ [z] -> pv' y = pv y).
Proof.
  revert x. induction l as [|w l IH]; intros x; cbn [chain app].
  - intros [E1 E2] [E3 E4]. split; intros y ->%list_elem_of_singleton; congruence.
  - intros (E1 & E2 & C) (E3 & E4 & C'). destruct (IH w C C') as [N P]. split; intros y [-> | Hy]%elem_of_cons; [congruence|by apply N|congruence|by apply P].
Qed.
Lemma ring_det nx pv nx' pv' x l : chain nx pv x l x -> chain nx' pv' x l x -> forall y, y ∈ x :: l -> nx' y = nx y /\ pv' y = pv y.
Proof. intros C C' y Hy. destruct (chain_det _ _ _ _ _ _ _ C C') as [N P]. split; [by apply N|apply P; set_solver]. Qed.

(** Both neighbours of a node point back at it. *)
Lemma chain_linked nx pv x l1 j l2 z : chain nx pv x (l1 ++ j :: l2) z -> nx (pv j) = j /\ pv (nx j) = j.
Proof.
  intros C. split.
  - revert x C. induction l1 as [|y l1 IH]; intros x; cbn; [by intros (<- & -> & _)|]. intros (_ & _ & C). by eapply IH.
  - apply chain_app in C as [_ C]. destruct l2; cbn in C; [by destruct C as [-> ->]|by destruct C as (-> & -> & _)].
Qed.

(** A node is taken out by joining its neighbours. *)
Lemma chain_remove nx pv nx' pv' x l1 j l2 z :
  NoDup (x :: l1 ++ j :: l2) -> NoDup (l1 ++ j :: l2 ++ [z]) -> chain nx pv x (l1 ++ j :: l2) z ->
  (forall y, nx' y = if decide (y = pv j) then nx j else nx y) -> (forall y, pv' y = if decide (y = nx j) then pv j else pv y) ->
  chain nx' pv' x (l1 ++ l2) z.
Proof.
  intros N1 N2 C Hn Hp. revert x N1 C. induction l1 as [|y l1 IH]; intros x N1 C.
  - destruct C as (E1 & E2 & C). cbn in N1, N2 |- *. rewrite E2 in Hn, Hp. destruct l2 as [|b l2]; destruct C as [Eb C].
    + cbn. rewrite Hn, Hp, decide_True, Eb, decide_True by done. done.
    + destruct C as [Ep C]. cbn. rewrite Hn, Hp, decide_True, Eb, decide_True by done. split_and!; [done..|].
      apply NoDup_cons in N1 as [N1 _]. apply NoDup_cons in N2 as [_ N2]. cbn in N2. apply NoDup_cons in N2 as [N2 _].
      eapply chain_ext; [..|exact C]; intros w Hw.
      * rewrite Hn. apply decide_False. intros ->. apply N1. right. done.
      * rewrite Hp, Eb. apply decide_False. intros ->. done.
  - pose proof C as (E1 & E2 & C'). cbn in N1, N2 |- *. apply NoDup_cons in N1 as [N1 N1']. apply NoDup_cons in N2 as [N2 N2'].
    split_and!; [| |by apply IH].
    + rewrite Hn, decide_False; [done|]. intros ->. apply chain_pred in C'. apply N1. apply elem_of_cons in C' as [-> | C']; [by left|].
      right. apply elem_of_app. by left.
    + rewrite Hp, decide_False; [done|]. intros ->. apply chain_succ in C'. apply N2. apply elem_of_app. right. by right.
Qed.

Lemma nodup_ring {A} (x : A) l : NoDup (x :: l) -> NoDup (l ++ [x]).
Proof. intros N. by rewrite Permutation_app_comm. Qed.

(** A node is put in before the end. *)
Lemma chain_snoc nx pv nx' pv' x l z n :
  NoDup (x :: l) -> NoDup (l ++ [z]) -> n ∉ x :: l -> n ∉ l ++ [z] -> chain nx pv x l z ->
  (forall y, nx' y = if decide (y = n) then z else if decide (y = pv z) then n else nx y) ->
  (forall y, pv' y = if decide (y = z) then n else if decide (y = n) then pv z else pv y) ->
  chain nx' pv' x (l ++ [n]) z.
Proof.
  intros N1 N2 F1 F2 C Hn Hp. revert x N1 F1 C. induction l as [|y l IH]; intros x N1 F1 C; cbn in *.
  - destruct C as [E1 E2]. rewrite E2 in Hn, Hp. apply not_elem_of_cons in F1 as [F1 _]. apply not_elem_of_cons in F2 as [F2 _].
    rewrite !Hn, !Hp. repeat case_decide; done.
  - destruct C as (E1 & E2 & C). apply not_elem_of_cons in F1 as [F1 F1']. apply not_elem_of_cons in F2 as [F2 F2'].
    apply NoDup_cons in N1 as [N1 N1']. apply NoDup_cons in N2 as [N2 N2'].
    assert (pv z ∈ y :: l) as Pz by (apply chain_rev in C; destruct (reverse l) as [|w k] eqn:Er; destruct C as [-> _];
      [by left|right; rewrite <- elem_of_reverse, Er; by left]).
    split_and!; [| |by apply IH].
    + rewrite Hn. repeat case_decide; [congruence|by subst|done].
    + rewrite Hp. repeat case_decide; [|by subst|done]. subst. exfalso. apply N2. apply elem_of_app. right. by left.
Qed.

(** ** Fields as functions of the pointer *)

Definition lf (h : heap) p := left (h !!! p).
Definition rt (h : heap) p := right (h !!! p).
Definition upw (h : heap) p := up (h !!! p).
Definition dnw (h : heap) p := down (h !!! p).
Definition cl (h : heap) p := col (h !!! p).
Definition nm (h : heap) p := name (h !!! p).
Definition sz (h : heap) p := size (h !!! p).

Lemma heap_total (h : heap) p : p ∈ dom h -> h !! p = Some (h !!! p).
Proof. intros [n E]%elem_of_dom. by rewrite lookup_total_alt, E. Qed.
Lemma get_ok p h : p ∈ dom h -> get p h = Ret (h !!! p).
Proof. intros H%heap_total. unfold get. by rewrite H. Qed.
Lemma modify_ok p f h : p ∈ dom h -> modify p f h = Ret (alter f p h).
Proof.
  intros H%heap_total. unfold modify. rewrite H. f_equal. symmetry. apply map_eq. intros q.
  rewrite lookup_alter, lookup_insert. case_decide as E; [|done]. by rewrite H.
Qed.
Lemma alter_total f p q (h : heap) : p ∈ dom h -> alter f p h !!! q = if decide (q = p) then f (h !!! p) else h !!! q.
Proof.
  intros H%heap_total. rewrite lookup_total_alter. destruct (decide (p = q)) as [->|E].
  - by rewrite decide_True, H.
  - by rewrite decide_False.
Qed.
Lemma heap_ext (h k : heap) : dom h = dom k -> (forall p, p ∈ dom h -> h !!! p = k !!! p) -> h = k.
Proof.
  intros D E. apply map_eq. intros p. destruct (decide (p ∈ dom h)) as [H|H].
  - rewrite !heap_total by (by rewrite <- ?D). f_equal. by apply E.
  - rewrite (proj1 (not_elem_of_dom h p)) by done. rewrite D in H. by rewrite (proj1 (not_elem_of_dom k p)).
Qed.

(** Evaluates an access to a node that is there. *)
Ltac heap_step :=
  first [ rewrite get_ok by (rewrite ?dom_alter_L; done) | rewrite modify_ok by (rewrite ?dom_alter_L; done) ]; cbn [obind].
Ltac heap_alter := repeat rewrite alter_total by (rewrite ?dom_alter_L; done).

(** What the vertical links leave alone *)
Record hsame (h k : heap) : Prop := mkHsame {
  hs_dom : dom k = dom h;
  hs_lf : forall p, lf k p = lf h p;
  hs_rt : forall p, rt k p = rt h p;
  hs_cl : forall p, cl k p = cl h p;
  hs_nm : forall p, nm k p = nm h p }.
#[export] Instance hsame_po : PreOrder hsame.
Proof. split; [done|]. intros a b c [] []. split; intros; congruence. Qed.

(** A node with other links and another size *)
Definition relinked (h : heap) (p d w u v c a : Z) : Node :=
  mkNode (left (h !!! p)) (right (h !!! p)) (if decide (p = d) then w else up (h !!! p))
    (if decide (p = u) then v else down (h !!! p)) (col (h !!! p)) (name (h !!! p))
    (if decide (p = c) then i32 (size (h !!! p) + a) else size (h !!! p)).
Ltac relinked_solve :=
  heap_alter; unfold relinked; repeat case_decide; subst; try done; unfold add_size, set_down, set_up; cbn [left right up down col name size];
  by destruct (_ !!! _).
Lemma unlinks_total h p d w u v c a :
  d ∈ dom h -> u ∈ dom h -> c ∈ dom h -> alter (add_size a) c (alter (set_down v) u (alter (set_up w) d h)) !!! p = relinked h p d w u v c a.
Proof. intros. relinked_solve. Qed.
Lemma relinks_total h p d w u v c a :
  d ∈ dom h -> u ∈ dom h -> c ∈ dom h -> alter (set_down v) u (alter (set_up w) d (alter (add_size a) c h)) !!! p = relinked h p d w u v c a.
Proof. intros. relinked_solve. Qed.

(** Taking a node out of its vertical ring, and back *)
Lemma unlink_relink j h :
  j ∈ dom h -> dnw h j ∈ dom h -> upw h j ∈ dom h -> cl h j ∈ dom h -> dnw h j <> j -> upw h j <> j -> cl h j <> j ->
  upw h (dnw h j) = j -> dnw h (upw h j) = j -> - 2 ^ 31 < sz h (cl h j) < 2 ^ 31 ->
  exists k, unlink j h = Ret k /\ relink j k = Ret h /\ hsame h k /\
    (forall p, dnw k p = if decide (p = upw h j) then dnw h j else dnw h p) /\
    (forall p, upw k p = if decide (p = dnw h j) then upw h j else upw h p) /\
    (forall p, sz k p = if decide (p = cl h j) then sz h p - 1 else sz h p).
Proof.
  unfold dnw, upw, cl, sz.
  destruct (h !!! j) as [l r u d c n s] eqn:Ej. cbn [up down col]. intros Hj Hd Hu Hc Nd Nu Nc Bd Bu R.
  exists (alter (add_size (-1)) c (alter (set_down d) u (alter (set_up u) d h))).
  pose proof (fun p => unlinks_total h p d u u d c (-1) Hd Hu Hc) as K.
  assert (unlink j h = Ret (alter (add_size (-1)) c (alter (set_down d) u (alter (set_up u) d h)))) as U.
  { unfold unlink. heap_step. rewrite Ej. cbn [up down]. do 2 heap_step. heap_alter. rewrite decide_False by done. rewrite Ej. cbn [up down].
    do 2 heap_step. heap_alter. rewrite !decide_False by done. rewrite Ej. cbn [col]. by heap_step. }
  set (k := alter _ _ _) in *. assert (dom k = dom h) as Dk by (unfold k; by rewrite !dom_alter_L).
  assert (k !!! j = mkNode l r u d c n (size (k !!! j))) as Kj by (rewrite !K; unfold relinked; by rewrite !decide_False, Ej by done).
  split; [done|]. split.
  - unfold relink. rewrite get_ok by (by rewrite Dk). cbn [obind]. rewrite Kj. cbn [col].
    rewrite modify_ok by (by rewrite Dk). cbn [obind]. rewrite get_ok by (by rewrite dom_alter_L, Dk). cbn [obind].
    rewrite alter_total, decide_False, Kj by (by rewrite ?Dk). cbn [down].
    rewrite modify_ok by (by rewrite dom_alter_L, Dk). cbn [obind]. rewrite get_ok by (by rewrite !dom_alter_L, Dk). cbn [obind].
    rewrite !alter_total, !decide_False, Kj by (by rewrite ?dom_alter_L, ?Dk). cbn [up].
    rewrite modify_ok by (by rewrite !dom_alter_L, Dk). f_equal. apply heap_ext; [by rewrite !dom_alter_L|]. intros p _.
    rewrite relinks_total by (by rewrite Dk). unfold relinked. rewrite K. unfold relinked. cbn [left right up down col name size].
    destruct (h !!! p) as [l' r' u' d' c' n' s'] eqn:Ep. cbn [left right up down col name size]. f_equal.
    + case_decide; [by subst p; rewrite Ep in Bd|done].
    + case_decide; [by subst p; rewrite Ep in Bu|done].
    + case_decide; [|done]. subst p. rewrite Ep in R. cbn [size] in R. rewrite swrap_add, swrap_small; lia.
  - split_and!; [split; [done|..]| ..]; unfold lf, rt, cl, nm; intros p; rewrite K; unfold relinked; cbn [left right up down col name size]; [done..|].
    repeat case_decide; subst; rewrite ?swrap_small by lia; done.
Qed.

Lemma detach_total (h : heap) p r w l v :
  r ∈ dom h -> l ∈ dom h -> alter (set_right v) l (alter (set_left w) r h) !!! p =
    mkNode (if decide (p = r) then w else left (h !!! p)) (if decide (p = l) then v else right (h !!! p)) (up (h !!! p))
      (down (h !!! p)) (col (h !!! p)) (name (h !!! p)) (size (h !!! p)).
Proof.
  intros. heap_alter. repeat case_decide; subst; try done; unfold set_left, set_right; cbn [left right up down col name size]; by destruct (_ !!! _).
Qed.

(** The same for a header and the ring of headers *)
Lemma detach_attach c h :
  c ∈ dom h -> rt h c ∈ dom h -> lf h c ∈ dom h -> rt h c <> c -> lf h c <> c -> lf h (rt h c) = c -> rt h (lf h c) = c ->
  exists k, detach c h = Ret k /\ attach c k = Ret h /\ dom k = dom h /\
    (forall p, rt k p = if decide (p = lf h c) then rt h c else rt h p) /\
    (forall p, lf k p = if decide (p = rt h c) then lf h c else lf h p) /\
    (forall p, upw k p = upw h p /\ dnw k p = dnw h p /\ cl k p = cl h p /\ nm k p = nm h p /\ sz k p = sz h p).
Proof.
  unfold rt, lf, upw, dnw, cl, nm, sz.
  destruct (h !!! c) as [l r u d c' n s] eqn:Ec. cbn [left right]. intros Hc Hr Hl Nr Nl Br Bl.
  exists (alter (set_right r) l (alter (set_left l) r h)).
  pose proof (fun p => detach_total h p r l l r Hr Hl) as K.
  split; [|split].
  - unfold detach. heap_step. rewrite Ec. cbn [left right]. do 2 heap_step. heap_alter. rewrite decide_False, Ec by done. by heap_step.
  - unfold attach. heap_step. rewrite K, Ec, !decide_False by done. cbn [left right]. do 2 heap_step.
    rewrite alter_total, decide_False, K, Ec, !decide_False by (rewrite ?dom_alter_L; done). cbn [left right]. heap_step.
    f_equal. apply heap_ext; [by rewrite !dom_alter_L|]. intros p _. rewrite detach_total, K by (by rewrite !dom_alter_L).
    cbn [left right up down col name size]. destruct (h !!! p) as [l' r' u' d' c'' n' s'] eqn:Ep. cbn [left right up down col name size]. f_equal.
    + case_decide; [by subst p; rewrite Ep in Br|done].
    + case_decide; [by subst p; rewrite Ep in Bl|done].
  - split; [by rewrite !dom_alter_L|]. split_and!; intros p; rewrite K; cbn [left right up down col name size]; done.
Qed.

(** ** Walks

    A walk over a ring that does something at every node, and the walk the
    other way round that undoes it: the invariant [I] is indexed by the nodes
    that are done. *)
Section Walk.
Context (next prev : Node -> Z) (body inv : Z -> heap -> outcome heap).
Context (g g' : Z -> Z) (c : Z) (l : list Z) (I : list Z -> heap -> Prop).
Hypothesis ring : chain g g' c l c.
Hypothesis fresh : c ∉ l.
Hypothesis links : forall pre h, I pre h -> forall y, y ∈ c :: l -> y ∈ dom h /\ next (h !!! y) = g y /\ prev (h !!! y) = g' y.
Hypothesis step : forall pre y post h, l = pre ++ y :: post -> I pre h ->
  exists h', body y h = Ret h' /\ inv y h' = Ret h /\ I (pre ++ [y]) h'.

Lemma walk_there_and_back pre a post h fuel :
  l = pre ++ post -> chain g g' a post c -> I pre h -> (length post <= fuel)%nat ->
  exists h', walk fuel next body c (g a) h = Ret h' /\ I l h' /\
    (forall fuel', (length post <= fuel')%nat -> walk fuel' prev inv c (g' c) h' = walk (fuel' - length post) prev inv c a h).
Proof.
  revert pre a h fuel. induction post as [|y post IH]; intros pre a h fuel El C Hi Hf.
  - destruct C as [Ea Ec]. exists h. rewrite Ea, Ec. split_and!.
    + destruct fuel; cbn [walk]; by rewrite decide_True.
    + rewrite El, app_nil_r. done.
    + intros. by rewrite Nat.sub_0_r.
  - destruct C as (Ea & Ey & C). destruct fuel as [|fuel]; [cbn in Hf; lia|]. cbn [length] in *.
    destruct (step pre y post h El Hi) as (h1 & B & V & Hi1).
    assert (y ∈ c :: l) as Yl by (right; rewrite El; apply elem_of_app; right; by left).
    assert (y <> c) as Yc by (intros ->; apply fresh; rewrite El; apply elem_of_app; right; by left).
    destruct (links _ _ Hi1 y Yl) as (D1 & N1 & _). destruct (links _ _ Hi y Yl) as (D0 & _ & P0).
    destruct (IH (pre ++ [y]) y h1 fuel) as (h' & W & Hl & Bk); [by rewrite <- app_assoc|done|done|lia|].
    exists h'. split_and!; [|done|].
    + rewrite Ea. cbn [walk]. rewrite decide_False, B by done. cbn [obind]. rewrite get_ok by done. cbn [obind]. by rewrite N1.
    + intros fuel' Hf'. rewrite Bk by lia. destruct (fuel' - length post)%nat as [|k] eqn:Ek; [lia|].
      cbn [walk]. rewrite decide_False, V by done. cbn [obind]. rewrite get_ok by done. cbn [obind]. rewrite P0, Ey. f_equal. lia.
Qed.

Lemma around_there_and_back h :
  I [] h -> (length l <= kMaxNodes)%nat -> exists h', around next body c h = Ret h' /\ around prev inv c h' = Ret h /\ I l h'.
Proof.
  intros Hi Hl. destruct (walk_there_and_back [] c l h kMaxNodes) as (h' & W & Hi' & Bk); [done..|]. exists h'.
  destruct (links _ _ Hi c) as (D & N & _); [by left|]. destruct (links _ _ Hi' c) as (D' & _ & P); [by left|].
  unfold around. rewrite !get_ok by done. cbn [obind]. rewrite N, P, W, Bk by done. split_and!; [done| |done].
  destruct (kMaxNodes - length l)%nat; cbn [walk]; by rewrite decide_True.
Qed.
End Walk.

Lemma filter_id {A} (P : A -> Prop) `{!forall x, Decision (P x)} (l : list A) : (forall x, x ∈ l -> P x) -> filter P l = l.
Proof.
  intros Hl. induction l as [|x l IH]; [done|]. rewrite filter_cons, decide_True by (apply Hl; by left). f_equal. apply IH.
  intros y Hy. apply Hl. by right.
Qed.

Lemma filter_iff_in {A} (P Q : A -> Prop) `{!forall x, Decision (P x), !forall x, Decision (Q x)} (l : list A) :
  (forall x, x ∈ l -> P x <-> Q x) -> filter P l = filter Q l.
Proof.
  intros Hl. induction l as [|x l IH]; [done|]. rewrite !filter_cons, IH by (intros; apply Hl; by right).
  pose proof (Hl x ltac:(by left)). repeat case_decide; tauto.
Qed.

Lemma nodup_map_inj {A B} (f : A -> B) l x y : NoDup (map f l) -> x ∈ l -> y ∈ l -> f x = f y -> x = y.
Proof.
  intros N (i & Ha)%list_elem_of_lookup (j & Hb)%list_elem_of_lookup E.
  assert (i = j) as ->; [|congruence]. eapply NoDup_lookup; [exact N|rewrite list_lookup_fmap, Ha; done|rewrite list_lookup_fmap, Hb, E; done].
Qed.

(** ** The exact cover problem

    The nodes come in rows, [others n] is the rest of the row of [n] in the order
    of the ring, and [cf n] its column. *)
Section ExactCover.
Context (hdrs nodes : list Z) (cf nf : Z -> Z) (others : Z -> list Z).
Definition row (n : Z) : list Z := n :: others n.
Hypothesis all_nodup : NoDup (root_ :: hdrs ++ nodes).
Hypothesis all_small : (length (root_ :: hdrs ++ nodes) <= kMaxNodes)%nat.
Hypothesis cf_hdrs : forall n, n ∈ nodes -> cf n ∈ hdrs.
Hypothesis row_nodes : forall n m, n ∈ nodes -> m ∈ row n -> m ∈ nodes.
Hypothesis row_nodup : forall n, n ∈ nodes -> NoDup (map cf (row n)).
Hypothesis row_perm : forall n m, n ∈ nodes -> m ∈ row n -> Permutation (row m) (row n).

(** What covering does not change *)
Record Static (h : heap) : Prop := mkStatic {
  st_dom : dom h = list_to_set (root_ :: hdrs ++ nodes);
  st_row : forall n, n ∈ nodes -> chain (rt h) (lf h) n (others n) n;
  st_cl : forall n, n ∈ nodes -> cl h n = cf n;
  st_nm : forall n, n ∈ nodes -> nm h n = nf n }.

(** The vertical rings: [vl c] are the nodes of column [c]. *)
Record Vertical (h : heap) (vl : Z -> list Z) : Prop := mkVertical {
  v_ring : forall c, c ∈ hdrs -> chain (dnw h) (upw h) c (vl c) c;
  v_size : forall c, c ∈ hdrs -> sz h c = zlen (vl c) }.
Record Wf (vl : Z -> list Z) : Prop := mkWf {
  wf_nodup : forall c, c ∈ hdrs -> NoDup (vl c);
  wf_col : forall c n, c ∈ hdrs -> n ∈ vl c -> n ∈ nodes /\ cf n = c }.
Definition without (js : list Z) (vl : Z -> list Z) (c : Z) : list Z := filter (fun n => n ∉ js) (vl c).

Lemma node_dom h n : Static h -> n ∈ nodes -> n ∈ dom h.
Proof. intros S H. rewrite (st_dom _ S). set_solver. Qed.
Lemma hdr_dom h c : Static h -> c ∈ hdrs -> c ∈ dom h.
Proof. intros S H. rewrite (st_dom _ S). set_solver. Qed.
Lemma hdr_not_node c : c ∈ hdrs -> c ∉ nodes.
Proof. intros H H'. apply NoDup_cons in all_nodup as [_ N]. apply NoDup_app in N as (_ & N & _). by apply (N c). Qed.
Lemma vl_fresh vl c : Wf vl -> c ∈ hdrs -> NoDup (c :: vl c).
Proof.
  intros W H. apply NoDup_cons. split; [|by apply wf_nodup]. intros [D _]%(wf_col _ W); [|done]. by apply (hdr_not_node c).
Qed.
Lemma vl_small vl c : Wf vl -> c ∈ hdrs -> (length (vl c) < kMaxNodes)%nat.
Proof.
  intros W H. cbn [length] in all_small. rewrite length_app in all_small.
  assert (length (vl c) <= length nodes)%nat; [|lia]. apply submseteq_length, NoDup_submseteq; [by apply wf_nodup|].
  intros n [D _]%(wf_col _ W); done.
Qed.
Lemma hsame_static h k : Static h -> hsame h k -> Static k.
Proof.
  intros S E. split.
  - rewrite (hs_dom _ _ E). apply S.
  - intros n H. eapply chain_ext; [..|by apply (st_row _ S)]; intros; [apply (hs_rt _ _ E)|apply (hs_lf _ _ E)].
  - intros n H. rewrite (hs_cl _ _ E). by apply S.
  - intros n H. rewrite (hs_nm _ _ E). by apply S.
Qed.

Lemma ring_disjoint vl c1 c2 y : Wf vl -> c1 ∈ hdrs -> c2 ∈ hdrs -> y ∈ c1 :: vl c1 -> y ∈ c2 :: vl c2 -> c1 = c2.
Proof.
  intros W H1 H2 [-> | Y1]%elem_of_cons [E | Y2]%elem_of_cons; [done|..].
  - apply (wf_col _ W) in Y2 as [Y2 _]; [|done]. by apply hdr_not_node in H1.
  - subst y. apply (wf_col _ W) in Y1 as [Y1 _]; [|done]. by apply hdr_not_node in H2.
  - apply (wf_col _ W) in Y1 as [_ <-]; [|done]. by apply (wf_col _ W) in Y2 as [_ <-].
Qed.
Lemma without_other vl j c : Wf vl -> j ∈ nodes -> c ∈ hdrs -> c <> cf j -> without [j] vl c = vl c.
Proof.
  intros W J H N. apply filter_id. intros n Hn E%list_elem_of_singleton. subst n.
  apply (wf_col _ W) in Hn as [_ E]; [|done]. done.
Qed.
Lemma without_split vl j c l1 l2 : NoDup (vl c) -> vl c = l1 ++ j :: l2 -> without [j] vl c = l1 ++ l2.
Proof.
  intros N E. unfold without. rewrite E in N |- *. apply NoDup_app in N as (_ & N1 & N2). apply NoDup_cons in N2 as [N2 _].
  rewrite filter_app, filter_cons, decide_False by (intros D; by apply D, list_elem_of_singleton).
  f_equal; apply filter_id; intros n Hn ->%list_elem_of_singleton; [|done]. apply (N1 j); [done|by left].
Qed.

(** Taking a node out of its column *)
Lemma unlink_ok h vl j :
  Static h -> Wf vl -> Vertical h vl -> j ∈ nodes -> j ∈ vl (cf j) ->
  exists k, unlink j h = Ret k /\ relink j k = Ret h /\ hsame h k /\ Vertical k (without [j] vl).
Proof.
  intros S W V J Hj. pose proof (cf_hdrs j J) as Hc. pose proof (vl_fresh vl _ W Hc) as N. pose proof (vl_small vl _ W Hc) as Sm.
  pose proof (v_ring _ _ V _ Hc) as C. pose proof (v_size _ _ V _ Hc) as Z. unfold zlen in Z.
  apply list_elem_of_split in Hj as (l1 & l2 & El). rewrite El in C. pose proof N as N'. rewrite El in N'.
  assert (forall y, y ∈ cf j :: vl (cf j) -> y ∈ dom h) as R.
  { intros y [-> | Hy]%elem_of_cons; [by apply hdr_dom|]. apply node_dom; [done|]. by apply (wf_col vl W (cf j)). }
  pose proof (chain_pred _ _ _ _ _ _ _ C) as Pu. pose proof (chain_succ _ _ _ _ _ _ _ C) as Pd.
  assert (upw h j ∈ cf j :: vl (cf j)) as Ru by (rewrite El; set_solver).
  assert (dnw h j ∈ cf j :: vl (cf j)) as Rd by (rewrite El; set_solver).
  destruct (unlink_relink j h) as (k & U & B & HS & Kd & Ku & Ks); rewrite ?(st_cl _ S) by done; [| | | | | | | | | |].
  - by apply node_dom.
  - by apply R.
  - by apply R.
  - apply R. by left.
  - intros E. rewrite E in Pd. apply NoDup_cons in N' as [N1 N2]. apply NoDup_app in N2 as (_ & _ & [N2 _]%NoDup_cons). set_solver.
  - intros E. rewrite E in Pu. apply NoDup_cons in N' as [N1 N2]. apply NoDup_app in N2 as (_ & N2 & _). set_solver.
  - intros E. apply (hdr_not_node (cf j)); [done|]. by rewrite E.
  - apply (chain_linked _ _ _ _ _ _ _ C).
  - apply (chain_linked _ _ _ _ _ _ _ C).
  - rewrite Z. cbv [kMaxNodes] in Sm. lia.
  - exists k. split_and!; [done..|]. rewrite (st_cl _ S) in Ks by done. split; intros c H.
    + destruct (decide (c = cf j)) as [->|Nc].
      * rewrite (without_split vl j _ l1 l2) by first [by apply wf_nodup|done]. eapply chain_remove; [..|exact Kd|exact Ku]; [done| |done].
        rewrite app_comm_cons, app_assoc. by apply nodup_ring.
      * rewrite without_other by done. eapply chain_ext; [..|by apply (v_ring _ _ V)]; intros y Hy; rewrite ?Kd, ?Ku; apply decide_False; intros ->;
          apply Nc; eapply ring_disjoint; [..|eassumption| |eassumption| |eassumption]; try done; set_solver.
    + rewrite Ks, (v_size _ _ V) by done. case_decide; [subst|by rewrite without_other].
      rewrite (without_split vl j _ l1 l2), El, !zlen_app, zlen_cons by first [by apply wf_nodup|done]. lia.
Qed.

(** Taking the rest of a row out of the columns, and back *)
Lemma without_without js ks vl c : without ks (without js vl) c = without (js ++ ks) vl c.
Proof. unfold without. rewrite list_filter_filter. apply list_filter_iff. intros n. rewrite not_elem_of_app. tauto. Qed.
Lemma without_wf js vl : Wf vl -> Wf (without js vl).
Proof.
  intros W. split; intros c; [intros H|intros n H [_ Hn]%list_elem_of_filter].
  - apply NoDup_filter. by apply wf_nodup.
  - by apply (wf_col _ W).
Qed.
Lemma vertical_ext h vl vl' : Vertical h vl -> (forall c, c ∈ hdrs -> vl' c = vl c) -> Vertical h vl'.
Proof. intros V E. split; intros c H; rewrite E by done; by apply V. Qed.

Lemma others_nodup n : n ∈ nodes -> NoDup (row n).
Proof. intros H. by eapply NoDup_fmap_1, row_nodup. Qed.
Lemma others_node n m : n ∈ nodes -> m ∈ others n -> m ∈ nodes.
Proof. intros H M. apply (row_nodes n); [done|by right]. Qed.

Lemma others_small n : n ∈ nodes -> (length (others n) <= kMaxNodes)%nat.
Proof.
  intros H. cbn [length] in all_small. rewrite length_app in all_small.
  assert (length (others n) <= length nodes)%nat; [|lia].
  apply submseteq_length, NoDup_submseteq; [by apply others_nodup in H as [_ ?]%NoDup_cons|]. intros m. by apply others_node.
Qed.

Lemma unlink_row h vl r :
  Static h -> Wf vl -> Vertical h vl -> r ∈ nodes -> (forall j, j ∈ others r -> j ∈ vl (cf j)) ->
  exists k, around right unlink r h = Ret k /\ around left relink r k = Ret h /\ hsame h k /\ Vertical k (without (others r) vl).
Proof.
  intros S W V R A. pose proof (others_nodup r R) as [F N]%NoDup_cons.
  destruct (around_there_and_back right left unlink relink (rt h) (lf h) r (others r)
    (fun pre k => hsame h k /\ Vertical k (without pre vl))) with (h := h) as (k & U & B & HS & Vk).
  - by apply (st_row _ S).
  - done.
  - intros pre k [HS _] y Hy. rewrite (hs_dom _ _ HS). split_and!; [|apply (hs_rt _ _ HS)|apply (hs_lf _ _ HS)].
    apply node_dom; [done|]. by apply (row_nodes r).
  - intros pre y post k El [HS Vk]. assert (y ∈ others r) as Y by (rewrite El; set_solver).
    destruct (unlink_ok k (without pre vl) y) as (k' & U & B & HS' & Vk').
    + by eapply hsame_static.
    + by apply without_wf.
    + done.
    + by apply (others_node r).
    + apply list_elem_of_filter. split; [|by apply A]. rewrite El in N. apply NoDup_app in N as (_ & N & _). set_solver.
    + exists k'. split_and!; [done..|by etrans|]. eapply vertical_ext; [done|]. intros c _. by rewrite without_without.
  - split; [done|]. eapply vertical_ext; [done|]. intros c _. apply filter_id. set_solver.
  - by apply others_small.
  - exists k. done.
Qed.

(** The state when the columns [K] are covered: the other headers are in their ring,
    and their columns hold the nodes of the rows that meet none of [K]. *)
Definition active (K : list Z) (n : Z) : Prop := Forall (fun m => cf m ∉ K) (row n).
#[local] Instance active_dec K n : Decision (active K n) := _.
Definition open_columns (K : list Z) : list Z := filter (fun c => c ∉ K) hdrs.
Definition open_nodes (K : list Z) (c : Z) : list Z := filter (fun n => cf n = c /\ active K n) nodes.
Record Rep (h : heap) (K : list Z) (vl : Z -> list Z) : Prop := mkRep {
  rep_static : Static h;
  rep_wf : Wf vl;
  rep_vertical : Vertical h vl;
  rep_headers : chain (rt h) (lf h) root_ (open_columns K) root_;
  rep_open : forall c, c ∈ hdrs -> c ∉ K -> vl c = open_nodes K c }.

Lemma open_nodup K : NoDup (root_ :: open_columns K).
Proof.
  apply NoDup_cons in all_nodup as [R N]. apply NoDup_app in N as (N & _ & _). apply NoDup_cons. split; [|by apply NoDup_filter].
  intros [_ H]%list_elem_of_filter. set_solver.
Qed.

Lemma detach_ok h K vl c :
  Rep h K vl -> c ∈ hdrs -> c ∉ K ->
  exists k, detach c h = Ret k /\ attach c k = Ret h /\ Static k /\ Vertical k vl /\
    chain (rt k) (lf k) root_ (open_columns (c :: K)) root_.
Proof.
  intros [S W V C _] Hc Kc. pose proof (open_nodup K) as N. pose proof N as [_ N0]%NoDup_cons.
  assert (c ∈ open_columns K) as (l1 & l2 & El)%list_elem_of_split by (by apply list_elem_of_filter).
  assert (open_columns (c :: K) = l1 ++ l2) as El'.
  { transitivity (without [c] (fun _ => open_columns K) c); [|by apply without_split].
    unfold without, open_columns. rewrite list_filter_filter. apply list_filter_iff. intros n. rewrite not_elem_of_cons, list_elem_of_singleton. tauto. }
  rewrite El in C, N. rewrite El'.
  assert (forall y, y ∈ root_ :: l1 ++ c :: l2 -> y ∈ dom h /\ y ∉ nodes) as R.
  { intros y Hy. rewrite <- El in Hy. apply elem_of_cons in Hy as [-> | [_ Hy]%list_elem_of_filter].
    - rewrite (st_dom _ S). split; [set_solver|]. apply NoDup_cons in all_nodup as [R _]. set_solver.
    - split; [by apply hdr_dom|by apply hdr_not_node]. }
  pose proof (chain_pred _ _ _ _ _ _ _ C) as Pl. pose proof (chain_succ _ _ _ _ _ _ _ C) as Pr.
  destruct (R (lf h c)) as [Dl Nl]; [set_solver|]. destruct (R (rt h c)) as [Dr Nr]; [set_solver|].
  pose proof N as [N1 N2]%NoDup_cons. apply NoDup_app in N2 as (_ & N2 & [N3 _]%NoDup_cons).
  destruct (detach_attach c h) as (k & D & A & Dk & Kr & Kl & Ko); [by apply hdr_dom|done|done| | |apply (chain_linked _ _ _ _ _ _ _ C)..|].
  { intros E. rewrite E in Pr. set_solver. }
  { intros E. rewrite E in Pl. set_solver. }
  exists k. split_and!; [done..| | |].
  - split; [by rewrite Dk; apply S|..]; intros n Hn; [|destruct (Ko n) as (_ & _ & -> & _); by apply S|destruct (Ko n) as (_ & _ & _ & -> & _); by apply S].
    eapply chain_ext; [..|by apply (st_row _ S)]; intros y Hy; rewrite ?Kr, ?Kl; apply decide_False; intros ->;
      [apply Nl|apply Nr]; apply (row_nodes n); [done|done|done|]; unfold row; set_solver.
  - split; intros x Hx; [|destruct (Ko x) as (_ & _ & _ & _ & ->); by apply V].
    eapply chain_ext; [..|by apply (v_ring _ _ V)]; intros y _; apply Ko.
  - eapply chain_remove; [exact N| |exact C|exact Kr|exact Kl]. rewrite app_comm_cons, app_assoc. by apply nodup_ring.
Qed.

Lemma row_same n m : n ∈ nodes -> m ∈ row n -> forall y, y ∈ row m <-> y ∈ row n.
Proof. intros Hn Hm y. by rewrite (row_perm n m). Qed.
Lemma row_inj n a b : n ∈ nodes -> a ∈ row n -> b ∈ row n -> cf a = cf b -> a = b.
Proof. intros Hn. by apply nodup_map_inj, row_nodup. Qed.
Lemma others_row n m : m ∈ others n -> m ∈ row n.
Proof. by right. Qed.
Lemma active_row K n m : n ∈ nodes -> m ∈ row n -> active K m <-> active K n.
Proof. intros Hn Hm. unfold active. by rewrite (row_perm n m). Qed.
Lemma open_node K c n : n ∈ open_nodes K c <-> n ∈ nodes /\ cf n = c /\ active K n.
Proof. unfold open_nodes. rewrite list_elem_of_filter. tauto. Qed.

(** The nodes taken out when the rows of [c] are hidden *)
Definition hidden (rs : list Z) : list Z := rs ≫= others.
Lemma hidden_elem rs j : j ∈ hidden rs <-> exists r, r ∈ rs /\ j ∈ others r.
Proof. unfold hidden. rewrite list_elem_of_bind. naive_solver. Qed.

Section Hide.
Context (K : list Z) (vl : Z -> list Z) (c : Z).
Hypothesis W : Wf vl.
Hypothesis O : forall x, x ∈ hdrs -> x ∉ K -> vl x = open_nodes K x.
Hypothesis Hc : c ∈ hdrs.
Hypothesis Kc : c ∉ K.

Lemma ring_row r : r ∈ vl c -> r ∈ nodes /\ cf r = c /\ active K r.
Proof. rewrite O by done. apply open_node. Qed.
Lemma hidden_not_c rs n : (forall r, r ∈ rs -> r ∈ vl c) -> n ∈ hidden rs -> cf n <> c.
Proof.
  intros Hr (r & Rr & Hn)%hidden_elem E. destruct (ring_row r (Hr r Rr)) as (Nr & Er & _).
  assert (n = r) as ->; [|apply (others_nodup r) in Nr as [? _]%NoDup_cons; done].
  apply (row_inj r); [done|by apply others_row|by left|by rewrite Er].
Qed.
Lemma hide_c rs : (forall r, r ∈ rs -> r ∈ vl c) -> without (hidden rs) vl c = vl c.
Proof. intros Hr. apply filter_id. intros n Hn H%hidden_not_c; [|done]. apply H. by apply (wf_col _ W). Qed.

(** The nodes of a row of [c] are there until the row is hidden. *)
Lemma hide_next pre y post j : vl c = pre ++ y :: post -> j ∈ others y -> j ∈ without (hidden pre) vl (cf j).
Proof.
  intros El Hj. assert (forall r, r ∈ pre ++ [y] -> r ∈ vl c) as Pre by (intros r; rewrite El; set_solver).
  destruct (ring_row y) as (Ny & Ey & Ay); [apply Pre; set_solver|].
  assert (j ∈ nodes) as Nj by (by apply (others_node y)). assert (active K j) as Aj by (apply (active_row K y); [done|by apply others_row|done]).
  apply list_elem_of_filter. split.
  - intros (r & Rr & Jr)%hidden_elem. destruct (ring_row r) as (Nr & Er & _); [apply Pre; set_solver|].
    assert (r = y) as ->.
    { apply (row_inj y); [done| |by left|congruence]. apply (row_same y j); [done|by apply others_row|]. apply (row_same r j); [done|by apply others_row|by left]. }
    pose proof (wf_nodup _ W c Hc) as N. rewrite El in N. apply NoDup_app in N as (_ & N & _). apply (N y); [done|by left].
  - rewrite O; [by apply open_node|by apply cf_hdrs|]. apply Forall_cons in Aj as [? _]. done.
Qed.

(** All rows of [c] hidden: what is left meets neither [K] nor [c]. *)
Lemma hide_all x : x ∈ hdrs -> x ∉ c :: K -> without (hidden (vl c)) vl x = open_nodes (c :: K) x.
Proof.
  intros Hx [Nx Kx]%not_elem_of_cons. unfold without. rewrite (O x), (O c) by done. unfold open_nodes. rewrite list_filter_filter.
  apply filter_iff_in. intros n Hn. split.
  - intros [Nh [<- A]]. split; [done|]. apply Forall_forall. intros m Hm. apply not_elem_of_cons. split; [|by apply (proj1 (Forall_forall _ _) A)].
    intros Em. apply Nh, hidden_elem. exists m. split; [apply open_node; split_and!; [by apply (row_nodes n)|done|by apply (active_row K n)]|].
    assert (n ∈ row m) as [-> | ?]%elem_of_cons by (apply (row_same n m); [done|done|by left]); done.
  - intros [<- A]. assert (active K n) as A' by (eapply Forall_impl; [exact A|]; cbn; set_solver). split_and!; [|done..].
    intros (r & (Nr & Er & _)%open_node & Hr)%hidden_elem. unfold active in A. rewrite Forall_forall in A. apply (A r); [|rewrite Er; by left].
    apply (row_same r n); [done|by apply others_row|by left].
Qed.
End Hide.

(** [cover] covers, and [uncover] restores the heap. *)
Lemma cover_ok h K vl c :
  Rep h K vl -> c ∈ hdrs -> c ∉ K ->
  exists k vl', cover c h = Ret k /\ uncover c k = Ret h /\ Rep k (c :: K) vl' /\ vl' c = open_nodes K c.
Proof.
  intros R Hc Kc. destruct (detach_ok h K vl c R Hc Kc) as (h1 & D & A & S1 & V1 & C1). destruct R as [_ W _ _ O].
  pose proof (vl_fresh vl c W Hc) as [F N]%NoDup_cons. pose proof (v_ring _ _ V1 c Hc) as Cc.
  destruct (around_there_and_back down up (around right unlink) (around left relink) (dnw h1) (upw h1) c (vl c)
    (fun pre k => hsame h1 k /\ (forall r, r ∈ pre -> r ∈ vl c) /\ Vertical k (without (hidden pre) vl))) with (h := h1)
    as (k & U & B & HS & _ & Vk).
  - done.
  - done.
  - intros pre k (HS & Pre & Vk) y Hy. pose proof (v_ring _ _ Vk c Hc) as Ck. rewrite (hide_c K) in Ck by done.
    split; [|exact (ring_det _ _ _ _ _ _ Cc Ck y Hy)]. rewrite (hs_dom _ _ HS). apply elem_of_cons in Hy as [-> | Hy]; [by apply hdr_dom|].
    apply node_dom; [done|]. by apply (wf_col _ W c).
  - intros pre y post k El (HS & Pre & Vk). assert (y ∈ vl c) as Y by (rewrite El; set_solver).
    destruct (unlink_row k (without (hidden pre) vl) y) as (k' & U & B & HS' & Vk').
    + by eapply hsame_static.
    + by apply without_wf.
    + done.
    + by apply (wf_col _ W c).
    + intros j Hj. by eapply (hide_next K vl c).
    + exists k'. split_and!; [done..|by etrans|set_solver|]. eapply vertical_ext; [done|]. intros x _. rewrite without_without.
      f_equal. unfold hidden. rewrite bind_app. cbn. by rewrite app_nil_r.
  - split_and!; [done|set_solver|]. eapply vertical_ext; [done|]. intros x _. apply filter_id. set_solver.
  - apply Nat.lt_le_incl. by apply vl_small.
  - exists k, (without (hidden (vl c)) vl). split_and!.
    + unfold cover. by rewrite D.
    + unfold uncover. by rewrite B.
    + split; [by eapply hsame_static|by apply without_wf|done| |].
      * eapply chain_ext; [..|exact C1]; intros; [apply (hs_rt _ _ HS)|apply (hs_lf _ _ HS)].
      * intros x Hx Nx. by apply hide_all.
    + rewrite (hide_c K) by done. by apply O.
Qed.

(** The columns that are covered when the row of [r] has been chosen *)
Definition chosen (r : Z) (K : list Z) : list Z := reverse (map cf (others r)) ++ cf r :: K.

Lemma cover_others_ok h K vl r :
  Rep h (cf r :: K) vl -> r ∈ nodes -> active K r ->
  exists k vl', cover_others r h = Ret k /\ uncover_others r k = Ret h /\ Rep k (chosen r K) vl'.
Proof.
  intros R Hr A. pose proof (others_nodup r Hr) as [F N]%NoDup_cons. pose proof (st_row _ (rep_static _ _ _ R) r Hr) as C.
  pose proof (row_nodup r Hr) as [Nr No]%NoDup_cons. fold (map cf) in Nr, No.
  unfold active in A. rewrite Forall_forall in A.
  destruct (around_there_and_back right left (fun j h => let* n := get j h in cover (col n) h) (fun j h => let* n := get j h in uncover (col n) h)
    (rt h) (lf h) r (others r) (fun pre k => exists vl', Rep k (reverse (map cf pre) ++ cf r :: K) vl')) with (h := h) as (k & U & B & vl' & Rk).
  - done.
  - done.
  - intros pre k (vl' & Rk) y Hy. split; [|exact (ring_det _ _ _ _ _ _ C (st_row _ (rep_static _ _ _ Rk) r Hr) y Hy)].
    apply node_dom; [apply Rk|]. by apply (row_nodes r).
  - intros pre y post k El (vl' & Rk). assert (y ∈ others r) as Y by (rewrite El; set_solver).
    assert (y ∈ nodes) as Ny by (by apply (others_node r)).
    destruct (cover_ok k _ vl' (cf y) Rk) as (k' & vl'' & U & B & R' & _).
    + by apply cf_hdrs.
    + rewrite elem_of_app, elem_of_reverse, elem_of_cons. intros [(z & E & Hz)%list_elem_of_fmap | [E | H]].
      * assert (z = y) as ->; [|rewrite El in N; apply NoDup_app in N as (_ & N & _); set_solver].
        apply (row_inj r); [done|apply others_row; rewrite El; set_solver|by apply others_row|done].
      * apply Nr. rewrite <- E. by apply list_elem_of_fmap_2.
      * by apply (A y); [apply others_row|].
    + exists k'. rewrite !get_ok by (apply node_dom; [by first [apply Rk|apply R']|done]). cbn [obind].
      assert (col (k !!! y) = cf y) as -> by (by apply (st_cl _ (rep_static _ _ _ Rk))).
      assert (col (k' !!! y) = cf y) as -> by (by apply (st_cl _ (rep_static _ _ _ R'))).
      split_and!; [done..|]. exists vl''. by rewrite map_app, reverse_app.
  - by exists vl.
  - by apply others_small.
  - exists k, vl'. done.
Qed.

(** [get_min_column] finds a column that is open. *)
Lemma min_loop_ok h a post c ms fuel :
  chain (rt h) (lf h) a post root_ -> root_ ∉ post -> (forall y, y ∈ post -> y ∈ dom h) -> (length post <= fuel)%nat ->
  exists x, min_loop fuel h (rt h a) c ms = Ret x /\ x ∈ c :: post.
Proof.
  revert a c ms fuel. induction post as [|y post IH]; intros a c ms fuel C N D L.
  - destruct C as [-> _]. exists c. split; [destruct fuel; cbn [min_loop]; by rewrite decide_True|by left].
  - destruct C as (-> & _ & C). apply not_elem_of_cons in N as [N1 N]. destruct fuel as [|fuel]; cbn [length] in L; [lia|].
    cbn [min_loop]. rewrite decide_False, get_ok by first [done|apply D; by left]. cbn [obind].
    change (right (h !!! y)) with (rt h y).
    assert (forall c' ms', exists x, min_loop fuel h (rt h y) c' ms' = Ret x /\ x ∈ c' :: post) as IH' by
      (intros; apply IH; [done|done|intros; apply D; by right|lia]).
    case_decide; [case_decide|]; [by exists y; split; [|set_solver]|..].
    + destruct (IH' y (size (h !!! y))) as (x & -> & Hx). exists x. split; [done|set_solver].
    + destruct (IH' c ms) as (x & -> & Hx). exists x. split; [done|set_solver].
Qed.
Lemma root_dom h : Static h -> root_ ∈ dom h.
Proof. intros S. rewrite (st_dom _ S). set_solver. Qed.
Lemma open_small K : (length (open_columns K) <= kMaxNodes)%nat.
Proof.
  cbn [length] in all_small. rewrite length_app in all_small. unfold open_columns.
  pose proof (length_filter (fun c => c ∉ K) hdrs). lia.
Qed.

Lemma get_min_column_ok h K vl :
  Rep h K vl -> lf h root_ <> root_ -> exists c, get_min_column h = Ret c /\ c ∈ open_columns K.
Proof.
  intros R NE. pose proof (rep_headers _ _ _ R) as C. pose proof (open_nodup K) as [N _]%NoDup_cons. pose proof (open_small K) as Sm.
  assert (forall y, y ∈ open_columns K -> y ∈ dom h) as D by (intros y [_ Hy]%list_elem_of_filter; apply hdr_dom; [apply R|done]).
  unfold get_min_column. rewrite get_ok by (apply root_dom, R). cbn [obind]. change (right (h !!! root_)) with (rt h root_).
  destruct (open_columns K) as [|c l]; [by destruct C as [_ ?]|]. destruct C as (-> & _ & C).
  rewrite get_ok by (apply D; by left). cbn [obind]. case_decide; [|exists c; split; [done|by left]].
  apply min_loop_ok; [done|set_solver|set_solver|cbn [length] in Sm; lia].
Qed.

(** An exact cover of the open columns, by one node of each chosen row *)
Definition columns_of (ns : list Z) : list Z := ns ≫= fun n => map cf (row n).
Definition exact (K : list Z) (ns : list Z) : Prop :=
  (forall n, n ∈ ns -> n ∈ nodes) /\ Permutation (columns_of ns) (open_columns K).

Lemma row_columns n m : n ∈ nodes -> m ∈ row n -> Permutation (map cf (row m)) (map cf (row n)).
Proof. intros Hn Hm. apply Permutation_map. by apply row_perm. Qed.
Lemma open_column K c : c ∈ open_columns K <-> c ∈ hdrs /\ c ∉ K.
Proof. unfold open_columns. rewrite list_elem_of_filter. tauto. Qed.

Lemma open_chosen r K : r ∈ nodes -> active K r -> Permutation (open_columns K) (map cf (row r) ++ open_columns (chosen r K)).
Proof.
  intros Hr A. unfold active in A. rewrite Forall_forall in A.
  assert (forall x, x ∈ map cf (row r) <-> x = cf r \/ x ∈ map cf (others r)) as Er by (intros x; cbn [row map]; by rewrite elem_of_cons).
  assert (forall x, x ∈ chosen r K <-> x ∈ map cf (row r) \/ x ∈ K) as Ec.
  { intros x. rewrite Er. unfold chosen. rewrite elem_of_app, elem_of_reverse, elem_of_cons. tauto. }
  apply NoDup_Permutation.
  - by apply (NoDup_cons_1_2 root_), open_nodup.
  - apply NoDup_app. split_and!; [by apply row_nodup| |by apply (NoDup_cons_1_2 root_), open_nodup].
    intros x Hx [_ Hn]%open_column. apply Hn, Ec. by left.
  - intros x. rewrite elem_of_app, !open_column, Ec. split.
    + intros [Hx Kx]. destruct (decide (x ∈ map cf (row r))); [by left|right]. tauto.
    + intros [Hx | ?]; [|tauto]. apply list_elem_of_fmap in Hx as (m & -> & Hm). split; [apply cf_hdrs; by apply (row_nodes r)|by apply A].
Qed.
Lemma open_chosen_length r K : r ∈ nodes -> active K r -> (length (open_columns (chosen r K)) < length (open_columns K))%nat.
Proof. intros Hr A. rewrite (open_chosen r K) by done. rewrite length_app. cbn [row map length]. lia. Qed.

Lemma exact_cons r K ns : r ∈ nodes -> active K r -> exact (chosen r K) ns -> exact K (r :: ns).
Proof.
  intros Hr A [Hn P]. split; [intros n [-> | ?]%elem_of_cons; [done|by apply Hn]|].
  rewrite (open_chosen r K) by done. unfold columns_of in *. cbn [mbind list_bind]. by rewrite <- P.
Qed.
Lemma exact_inv c K ns :
  c ∈ open_columns K -> exact K ns -> exists r ns', r ∈ open_nodes K c /\ exact (chosen r K) ns'.
Proof.
  intros Hc [Hn P]. rewrite <- P in Hc. apply list_elem_of_bind in Hc as (n & (r & -> & Hr)%list_elem_of_fmap & Nn).
  pose proof (Hn n Nn) as Nd. assert (r ∈ nodes) as Nr by (by apply (row_nodes n)).
  apply list_elem_of_split in Nn as (n1 & n2 & ->).
  assert (Permutation (columns_of (n1 ++ n :: n2)) (map cf (row r) ++ columns_of (n1 ++ n2))) as E.
  { unfold columns_of. rewrite !bind_app. cbn [mbind list_bind]. rewrite (row_columns n r) by done. rewrite Permutation_app_swap_app. done. }
  assert (active K r) as A.
  { apply Forall_forall. intros m Hm. apply (proj1 (open_column K (cf m))). rewrite <- P, E. apply elem_of_app. left. by apply list_elem_of_fmap_2. }
  exists r, (n1 ++ n2). split; [by apply open_node|]. split; [set_solver|].
  apply (Permutation_app_inv_l (map cf (row r))). by rewrite <- E, P, <- open_chosen.
Qed.
Lemma exact_done K : open_columns K = [] -> exact K [].
Proof. intros E. split; [set_solver|]. by rewrite E. Qed.

(** ** The search *)

Context (cellf valf : Z -> Z).
Hypothesis cells : forall h n, Static h -> n ∈ nodes -> cell_value kMaxNodes h n (-1) (-1) = Ret (cellf n, valf n).
Definition filled (ns : list Z) (board : list Z) : list Z := fold_left (fun b n => <[Z.to_nat (cellf n) := valf n]> b) ns board.

Lemma fill_ok h ns board :
  Static h -> (forall n, n ∈ ns -> n ∈ nodes /\ 0 <= cellf n < zlen board) -> fill h ns board = Ret (filled ns board).
Proof.
  intros S. revert board. induction ns as [|n ns IH]; intros board H; [done|]. cbn [fill filled fold_left].
  destruct (H n) as [Hn Hc]; [by left|]. rewrite cells by done. cbn [obind]. rewrite decide_True by done. apply IH.
  intros m Hm. destruct (H m) as [? ?]; [by right|]. split; [done|]. unfold zlen in *. by rewrite length_insert.
Qed.

Context (ncells : Z).
Hypothesis cell_range : forall n, n ∈ nodes -> 0 <= cellf n < ncells.
Definition sound (s : Search) : Prop := (forall n, n ∈ stack_ s -> n ∈ nodes) /\ zlen (inout_ s) = ncells.

(** What the search answers when the columns [K] are covered: an exact cover of the
    others that extends the stack, with the board filled in, or that there is none
    and nothing has changed. *)
Definition found (s : Search) (ns : list Z) (r : outcome (bool * Search)) : Prop :=
  exists k, r = Ret (true, mkSearch k (stack_ s ++ ns) (filled (stack_ s ++ ns) (inout_ s))).
Definition answer (K : list Z) (s : Search) (r : outcome (bool * Search)) : Prop :=
  (exists ns, exact K ns /\ found s ns r) \/ (r = Ret (false, s) /\ forall ns, ~ exact K ns).

Section Rows.
Context (rec : Search -> outcome (bool * Search)) (K : list Z) (vl : Z -> list Z) (c : Z).
Hypothesis rec_ok : forall s' r vl', r ∈ open_nodes K c -> Rep (nodes_ s') (chosen r K) vl' -> sound s' -> answer (chosen r K) s' (rec s').

Lemma try_rows_ok s a post fuel :
  Rep (nodes_ s) (c :: K) vl -> sound s -> c ∈ hdrs -> chain (dnw (nodes_ s)) (upw (nodes_ s)) a post c ->
  (forall r, r ∈ post -> r ∈ open_nodes K c) -> (length post <= fuel)%nat ->
  let res := try_rows fuel rec c (dnw (nodes_ s) a) s in
  (exists r ns, r ∈ post /\ exact (chosen r K) ns /\ found s (r :: ns) res) \/
  (res = Ret (false, s) /\ forall r ns, r ∈ post -> ~ exact (chosen r K) ns).
Proof.
  intros R So Hc. revert a fuel. induction post as [|r post IH]; intros a fuel C Hp Hf.
  - destruct C as [-> _]. right. split; [destruct fuel; cbn [try_rows]; by rewrite decide_True|]. intros r ns Hr. by apply not_elem_of_nil in Hr.
  - destruct C as (-> & _ & C). destruct fuel as [|fuel]; cbn [length] in Hf; [lia|].
    assert (r ∈ open_nodes K c) as Hr by (apply Hp; by left). pose proof Hr as (Nr & Er & Ar)%open_node.
    assert (r <> c) as Nc by (intros ->; by apply (hdr_not_node c)).
    destruct (cover_others_ok (nodes_ s) K vl r) as (k & vl' & Cv & Uc & Rk); [rewrite Er; exact R|exact Nr|exact Ar|].
    destruct So as [Ss Sb]. specialize (rec_ok (mkSearch k (stack_ s ++ [r]) (inout_ s)) r vl' Hr Rk) as An.
    destruct An as [(ns & X & k' & E) | [E X]]; [split; [|done]; intros n [Hn | Hn%list_elem_of_singleton]%elem_of_app; [by apply Ss|by subst n]|..]; cbn [nodes_ stack_ inout_] in E; cbn [try_rows];
      rewrite decide_False, Cv by done; cbn [obind]; rewrite E; cbn [obind].
    + left. exists r, ns. split_and!; [by left|done|]. exists k'. by rewrite <- app_assoc.
    + cbn [nodes_ stack_ inout_]. rewrite Uc. cbn [obind nodes_ stack_ inout_]. rewrite removelast_last. cbn [nodes_]. rewrite get_ok by (apply node_dom; [apply R|done]). cbn [obind].
      change (down (nodes_ s !!! r)) with (dnw (nodes_ s) r).
      replace (mkSearch (nodes_ s) (stack_ s) (inout_ s)) with s by (by destruct s).
      destruct (IH r fuel) as [(r' & ns & Hr' & Y & F) | [F Y]]; [done|intros; apply Hp; by right|lia|..].
      * left. exists r', ns. split_and!; [by right|done|done].
      * right. split; [done|]. intros r' ns [-> | Hr']%elem_of_cons; [apply X|by apply Y].
Qed.
End Rows.

Lemma solve_ok depth s K vl :
  (length (open_columns K) < depth)%nat -> Rep (nodes_ s) K vl -> sound s -> answer K s (solve depth s).
Proof.
  revert s K vl. induction depth as [|depth IH]; intros s K vl Hd R So; [lia|]. cbn [solve].
  rewrite get_ok by (apply root_dom, R). cbn [obind]. case_decide as E.
  - left. exists []. split.
    + apply exact_done. pose proof (rep_headers _ _ _ R) as C%chain_rev.
      destruct (reverse (open_columns K)) as [|x l] eqn:El; [by rewrite <- (reverse_involutive (open_columns K)), El|].
      destruct C as [C _]. change (lf (nodes_ s) root_ = root_) in E. exfalso. pose proof (open_nodup K) as [N _]%NoDup_cons. apply N.
      rewrite <- elem_of_reverse, El, <- C, E. by left.
    + exists (nodes_ s). destruct So as [Ss Sb]. rewrite fill_ok; [by rewrite app_nil_r|apply R|].
      intros n Hn. split; [by apply Ss|]. rewrite Sb. by apply cell_range, Ss.
  - destruct (get_min_column_ok _ _ _ R E) as (c & Mc & Oc). rewrite Mc. cbn [obind]. apply open_column in Oc as Hc. destruct Hc as [Hc Kc].
    destruct (cover_ok _ _ _ c R Hc Kc) as (k & vl' & Cv & Uc & Rk & Ec). rewrite Cv. cbn [obind].
    rewrite get_ok by (apply hdr_dom; [apply Rk|done]). cbn [obind]. change (down (k !!! c)) with (dnw k c).
    pose proof (v_ring _ _ (rep_vertical _ _ _ Rk) c Hc) as C. pose proof (vl_small _ c (rep_wf _ _ _ Rk) Hc) as Sm. rewrite Ec in C, Sm.
    destruct (try_rows_ok (solve depth) K vl' c) with (s := with_nodes k s) (a := c) (post := open_nodes K c) (fuel := kMaxNodes)
      as [(r & ns & Hr & X & k' & F) | [F X]]; try done; [|lia| |].
    + intros s' r vl'' (Nr & Er & Ar)%open_node R' S'. apply (IH s' _ vl''); [|done|done].
      pose proof (open_chosen_length r K Nr Ar). lia.
    + cbn [nodes_ with_nodes] in F. rewrite F. cbn [obind stack_ inout_]. left. exists (r :: ns). split; [|by exists k'].
      apply open_node in Hr as (Nr & _ & Ar). by apply exact_cons.
    + cbn [nodes_ with_nodes] in F. rewrite F. cbn [obind nodes_ with_nodes]. rewrite Uc. right. split; [by destruct s|].
      intros ns (r & ns' & Hr & Y)%(exact_inv c); [|done]. by apply (X r ns').
Qed.
End ExactCover.
