(* ===== verification/Sudoku.v ===== *)
(** * The sudoku solver (src/muduo/examples/sudoku/sudoku.cc, sudoku.h)

    [SudokuSolver] builds the rings of an exact cover problem from a board and searches it
    with the dancing links of [DancingLinks]; [solveSudoku] reads and prints boards. The file
    shows that a puzzle is solved if it can be. *)

From S2P Require Import Prelude DancingLinks.

Definition kCells : Z := 81.
Definition kRow : Z := 100.
Definition kCol : Z := 200.
Definition kBox : Z := 300.
Definition kNoSolution : list byte := bytes "NoSolution".

(** ** Building the rings *)

(** [nodes_], [cur_node_] and [columns_] (where NULL is no entry) *)
Record Builder := mkBuilder { b_nodes : heap; cur_node_ : Z; columns_ : gmap Z Z }.

Definition put_left (old nnew : Z) (h : heap) : outcome heap :=
  let* o := get old h in
  let* h := modify nnew (set_left (left o)) h in
  let* h := modify nnew (set_right old) h in
  let* o := get old h in
  let* h := modify (left o) (set_right nnew) h in
  modify old (set_left nnew) h.

Definition put_up (old nnew : Z) (h : heap) : outcome heap :=
  let* o := get old h in
  let* h := modify nnew (set_up (up o)) h in
  let* h := modify nnew (set_down old) h in
  let* o := get old h in
  let* h := modify (up o) (set_down nnew) h in
  let* h := modify old (set_up nnew) h in
  let* h := modify old (add_size 1) h in
  modify nnew (set_col old) h.

Definition new_column (n : Z) (b : Builder) : outcome (Z * Builder) :=
  assert* bool_decide (cur_node_ b < Z.of_nat kMaxNodes) in
  let c := cur_node_ b in
  Ret (c, mkBuilder (<[c := mkNode c c c c c n 0]> (b_nodes b)) (c + 1) (columns_ b)).

Definition append_column (n : Z) (b : Builder) : outcome Builder :=
  if decide (0 <= n < 400) then
    assert* bool_decide (columns_ b !! n = None) in
    let* (c, b) := new_column n b in
    let* h := put_left root_ c (b_nodes b) in
    Ret (mkBuilder h (cur_node_ b) (<[n := c]> (columns_ b)))
  else Stop OutOfRange.

Definition new_row (col : Z) (b : Builder) : outcome (Z * Builder) :=
  if decide (0 <= col < 400) then
    match columns_ b !! col with
    | None => Stop AssertFailed
    | Some c =>
        assert* bool_decide (cur_node_ b < Z.of_nat kMaxNodes) in
        let r := cur_node_ b in
        let* h := put_up c r (<[r := mkNode r r r r c col 0]> (b_nodes b)) in
        Ret (r, mkBuilder h (r + 1) (columns_ b))
    end
  else Stop OutOfRange.

Definition get_row_col (row val : Z) : Z := kRow + row * 10 + val.
Definition get_col_col (col val : Z) : Z := kCol + col * 10 + val.
Definition get_box_col (box val : Z) : Z := kBox + box * 10 + val.

(** [for (int i = ...)] over the values [l] *)
Fixpoint for_each {S} (l : list Z) (body : Z -> S -> outcome S) (s : S) : outcome S :=
  match l with
  | [] => Ret s
  | i :: l => let* s := body i s in for_each l body s
  end.

Definition row_of (i : Z) : Z := i /c 9.
Definition col_of (i : Z) : Z := i %c 9.
Definition box_of (i : Z) : Z := row_of i /c 3 * 3 + col_of i /c 3.

(** The entries of [bool rows[kCells][10]] and its like that are true *)
Definition set_entry (i v : Z) (t : gset (Z * Z)) : outcome (gset (Z * Z)) :=
  if decide (0 <= i < kCells /\ 0 <= v < 10) then Ret ({[(i, v)]} ∪ t) else Stop OutOfRange.
Abbreviation tables := (gset (Z * Z) * gset (Z * Z) * gset (Z * Z))%type.
Definition mark_cell (board : list Z) (i : Z) (t : tables) : outcome tables :=
  let '(rows, cols, boxes) := t in
  let val := board !!! Z.to_nat i in
  let* rows := set_entry (row_of i) val rows in
  let* cols := set_entry (col_of i) val cols in
  let* boxes := set_entry (box_of i) val boxes in
  Ret (rows, cols, boxes).

Definition cell_column (board : list Z) (i : Z) (b : Builder) : outcome Builder :=
  if decide (board !!! Z.to_nat i = 0) then append_column i b else Ret b.
Definition value_columns (t : tables) (i v : Z) (b : Builder) : outcome Builder :=
  let '(rows, cols, boxes) := t in
  let* b := if decide ((i, v) ∈ rows) then Ret b else append_column (get_row_col i v) b in
  let* b := if decide ((i, v) ∈ cols) then Ret b else append_column (get_col_col i v) b in
  if decide ((i, v) ∈ boxes) then Ret b else append_column (get_box_col i v) b.

Definition add_row (i v : Z) (b : Builder) : outcome Builder :=
  let* (n0, b) := new_row i b in
  let* (nr, b) := new_row (get_row_col (row_of i) v) b in
  let* (nc, b) := new_row (get_col_col (col_of i) v) b in
  let* (nb, b) := new_row (get_box_col (box_of i) v) b in
  let* h := put_left n0 nr (b_nodes b) in
  let* h := put_left n0 nc h in
  let* h := put_left n0 nb h in
  Ret (mkBuilder h (cur_node_ b) (columns_ b)).
Definition cell_rows (board : list Z) (t : tables) (i : Z) (b : Builder) : outcome Builder :=
  let '(rows, cols, boxes) := t in
  if decide (board !!! Z.to_nat i = 0) then
    for_each (seqZ 1 9) (fun v b =>
      if decide ((row_of i, v) ∈ rows \/ (col_of i, v) ∈ cols \/ (box_of i, v) ∈ boxes) then Ret b else add_row i v b) b
  else Ret b.

(** The constructor *)
Definition SudokuSolver (board : list Z) : outcome Search :=
  let* (_, b) := new_column 0 (mkBuilder ∅ 0 ∅) in
  let* t := for_each (seqZ 0 kCells) (mark_cell board) (∅, ∅, ∅) in
  let* b := for_each (seqZ 0 kCells) (cell_column board) b in
  let* b := for_each (seqZ 0 9) (fun i => for_each (seqZ 1 9) (value_columns t i)) b in
  let* b := for_each (seqZ 0 kCells) (cell_rows board t) b in
  Ret (mkSearch (b_nodes b) [] board).

(** A recursion per column and one more *)
Definition max_depth : nat := 1 + 81 * 4.

(** The value of a [char] after subtracting ['0'] *)
Definition digit (c : byte) : Z := i8 (b2z c) - 48.
Definition solveSudoku (puzzle : list byte) : outcome (list byte) :=
  assert* bool_decide (zlen puzzle = kCells) in
  let board := map digit puzzle in
  if forallb (fun v => bool_decide (0 <= v <= 9)) board then
    let* s := SudokuSolver board in
    let* (found, s) := solve max_depth s in
    if found : bool then Ret (map (fun v => z2b (v + 48)) (inout_ s)) else Ret kNoSolution
  else Ret kNoSolution.

(** ** The links *)

Ltac put_solve :=
  unfold rt, lf, upw, dnw, cl, nm, sz in *; heap_alter; repeat case_decide; subst; try done;
  unfold set_left, set_right, set_up, set_down, set_col, add_size; cbn [left right up down col name size]; congruence.

Lemma put_left_run x n h :
  x ∈ dom h -> n ∈ dom h -> lf h x ∈ dom h -> n <> x -> lf h x <> n ->
  exists k, put_left x n h = Ret k /\ dom k = dom h /\
    (forall y, rt k y = if decide (y = n) then x else if decide (y = lf h x) then n else rt h y) /\
    (forall y, lf k y = if decide (y = x) then n else if decide (y = n) then lf h x else lf h y) /\
    (forall y, upw k y = upw h y /\ dnw k y = dnw h y /\ cl k y = cl h y /\ nm k y = nm h y /\ sz k y = sz h y).
Proof.
  intros Hx Hn Hl Nx Nl. unfold put_left. eexists. split_and!.
  - heap_step. fold (lf h x). do 2 heap_step. heap_step. heap_alter. rewrite !decide_False by done. fold (lf h x). do 2 heap_step. done.
  - by rewrite !dom_alter_L.
  - intros y. put_solve.
  - intros y. put_solve.
  - intros y. split_and!; put_solve.
Qed.

Lemma put_up_run x n h :
  x ∈ dom h -> n ∈ dom h -> upw h x ∈ dom h -> n <> x -> upw h x <> n ->
  exists k, put_up x n h = Ret k /\ dom k = dom h /\
    (forall y, dnw k y = if decide (y = n) then x else if decide (y = upw h x) then n else dnw h y) /\
    (forall y, upw k y = if decide (y = x) then n else if decide (y = n) then upw h x else upw h y) /\
    (forall y, sz k y = if decide (y = x) then i32 (sz h x + 1) else sz h y) /\
    (forall y, cl k y = if decide (y = n) then x else cl h y) /\
    (forall y, lf k y = lf h y /\ rt k y = rt h y /\ nm k y = nm h y).
Proof.
  intros Hx Hn Hl Nx Nl. unfold put_up. eexists. split_and!.
  - heap_step. fold (upw h x). do 2 heap_step. heap_step. heap_alter. rewrite !decide_False by done. fold (upw h x). do 4 heap_step. done.
  - by rewrite !dom_alter_L.
  - intros y. put_solve.
  - intros y. put_solve.
  - intros y. put_solve.
  - intros y. put_solve.
  - intros y. split_and!; put_solve.
Qed.

(** Appending to a ring *)
Lemma ring_before nx pv x l : chain nx pv x l x -> pv x ∈ x :: l.
Proof. intros C. destruct l as [|y l] using rev_ind; [destruct C as [_ ->]; by left|]. apply chain_app in C as [_ [_ ->]]. set_solver. Qed.

Lemma put_left_ok x n l h :
  chain (rt h) (lf h) x l x -> NoDup (x :: l) -> n ∉ x :: l -> (forall y, y ∈ n :: x :: l -> y ∈ dom h) ->
  exists k, put_left x n h = Ret k /\ dom k = dom h /\ chain (rt k) (lf k) x (l ++ [n]) x /\
    (forall y, y ∉ n :: x :: l -> rt k y = rt h y /\ lf k y = lf h y) /\
    (forall y, upw k y = upw h y /\ dnw k y = dnw h y /\ cl k y = cl h y /\ nm k y = nm h y /\ sz k y = sz h y).
Proof.
  intros C N F D. pose proof (ring_before _ _ _ _ C) as B.
  destruct (put_left_run x n h) as (k & P & Dk & Kr & Kl & Ko); [apply D; set_solver..| | |].
  { intros ->. apply F. by left. }
  { intros E. rewrite E in B. done. }
  exists k. split_and!; [done..| | |done].
  - eapply chain_snoc; [exact N|by apply nodup_ring|done| |exact C|exact Kr|exact Kl]. set_solver.
  - intros y Hy. rewrite Kr, Kl, !decide_False; set_solver.
Qed.

Lemma put_up_ok x n l h :
  chain (dnw h) (upw h) x l x -> NoDup (x :: l) -> n ∉ x :: l -> (forall y, y ∈ n :: x :: l -> y ∈ dom h) ->
  exists k, put_up x n h = Ret k /\ dom k = dom h /\ chain (dnw k) (upw k) x (l ++ [n]) x /\
    (forall y, y ∉ n :: x :: l -> dnw k y = dnw h y /\ upw k y = upw h y) /\
    (forall y, sz k y = if decide (y = x) then i32 (sz h x + 1) else sz h y) /\
    (forall y, cl k y = if decide (y = n) then x else cl h y) /\
    (forall y, lf k y = lf h y /\ rt k y = rt h y /\ nm k y = nm h y).
Proof.
  intros C N F D. pose proof (ring_before _ _ _ _ C) as B.
  destruct (put_up_run x n h) as (k & P & Dk & Kd & Ku & Ks & Kc & Ko); [apply D; set_solver..| | |].
  { intros ->. apply F. by left. }
  { intros E. rewrite E in B. done. }
  exists k. split_and!; [done..| | |done|done|done].
  - eapply chain_snoc; [exact N|by apply nodup_ring|done| |exact C|exact Kd|exact Ku]. set_solver.
  - intros y Hy. rewrite Kd, Ku, !decide_False; set_solver.
Qed.

(** ** The rings that are built

    [cols] are the names of the columns and [names] those of the nodes, in the order in
    which they were made: the headers are [1, 2, ...] and the nodes follow. *)

Definition base (cols : list Z) : Z := 1 + zlen cols.
Definition headers (cols : list Z) : list Z := seqZ 1 (zlen cols).
Definition made (cols names : list Z) : list Z := seqZ (base cols) (zlen names).
Definition node_name (cols names : list Z) (p : Z) : Z := names !!! Z.to_nat (p - base cols).
Definition in_column (columns : gmap Z Z) (cols names : list Z) (a : Z) : list Z :=
  filter (fun p => columns !! node_name cols names p = Some a) (made cols names).

Record Built (b : Builder) (cols names : list Z) : Prop := mkBuilt {
  bl_cur : cur_node_ b = base cols + zlen names;
  bl_columns : forall n a, columns_ b !! n = Some a <-> a ∈ headers cols /\ cols !! Z.to_nat (a - 1) = Some n;
  bl_dom : forall p, p ∈ dom (b_nodes b) <-> 0 <= p < cur_node_ b;
  bl_headers : chain (rt (b_nodes b)) (lf (b_nodes b)) root_ (headers cols) root_;
  bl_ring : forall a, a ∈ headers cols -> chain (dnw (b_nodes b)) (upw (b_nodes b)) a (in_column (columns_ b) cols names a) a;
  bl_size : forall a, a ∈ headers cols -> sz (b_nodes b) a = zlen (in_column (columns_ b) cols names a);
  bl_node : forall p, p ∈ made cols names -> nm (b_nodes b) p = node_name cols names p /\ columns_ b !! node_name cols names p = Some (cl (b_nodes b) p) }.

Lemma elem_headers cols a : a ∈ headers cols <-> 1 <= a < base cols.
Proof. unfold headers, base. rewrite elem_of_seqZ. lia. Qed.
Lemma elem_made cols names p : p ∈ made cols names <-> base cols <= p < base cols + zlen names.
Proof. apply elem_of_seqZ. Qed.
Lemma in_column_elem cs cols names a p :
  p ∈ in_column cs cols names a <-> base cols <= p < base cols + zlen names /\ cs !! node_name cols names p = Some a.
Proof. unfold in_column. rewrite list_elem_of_filter, elem_made. tauto. Qed.
Lemma seqZ_snoc m n : 0 <= n -> seqZ m (n + 1) = seqZ m n ++ [m + n].
Proof. intros. by rewrite seqZ_app. Qed.

(** A node that is new *)
Lemma insert_fields r x (h : heap) p : (<[r := x]> h : heap) !!! p = if decide (p = r) then x else h !!! p.
Proof. rewrite lookup_total_insert. repeat case_decide; congruence. Qed.

Lemma start_built : exists b, new_column 0 (mkBuilder ∅ 0 ∅) = Ret (0, b) /\ Built b [] [].
Proof.
  exists (mkBuilder (<[0 := mkNode 0 0 0 0 0 0 0]> ∅) 1 ∅). split; [done|]. split; try done; cbn [b_nodes columns_].
  - intros n a. rewrite lookup_empty. split; [done|]. by intros [_ H].
  - intros p. rewrite dom_insert_L, dom_empty_L, elem_of_union, elem_of_singleton, elem_of_empty. cbn. lia.
  - intros a H%elem_headers. unfold base, zlen in H. cbn in H. lia.
  - intros a H%elem_headers. unfold base, zlen in H. cbn in H. lia.
  - intros p H%elem_made. unfold zlen in H. cbn in H. lia.
Qed.

Lemma header_lookup cols n a :
  a ∈ headers cols ++ [base cols] ->
  (a ∈ headers cols /\ (cols ++ [n]) !! Z.to_nat (a - 1) = cols !! Z.to_nat (a - 1)) \/ (a = base cols /\ (cols ++ [n]) !! Z.to_nat (a - 1) = Some n).
Proof.
  intros [H | ->%list_elem_of_singleton]%elem_of_app; [left|right]; (split; [done|]).
  - apply elem_headers in H. unfold base, zlen in H. apply lookup_app_l. lia.
  - apply list_lookup_middle. unfold base, zlen. lia.
Qed.
Lemma headers_snoc cols n : headers (cols ++ [n]) = headers cols ++ [base cols].
Proof. unfold headers, base. rewrite zlen_app, seqZ_snoc by zlia. done. Qed.
Lemma columns_snoc (cs : gmap Z Z) cols n :
  n ∉ cols -> (forall x a, cs !! x = Some a <-> a ∈ headers cols /\ cols !! Z.to_nat (a - 1) = Some x) ->
  forall x a, <[n := base cols]> cs !! x = Some a <-> a ∈ headers (cols ++ [n]) /\ (cols ++ [n]) !! Z.to_nat (a - 1) = Some x.
Proof.
  intros Nn H x a. rewrite headers_snoc, lookup_insert. case_decide as E; [subst x|]; (split; [intros A|intros [Ha A]]).
  - injection A as <-. split; [set_solver|]. destruct (header_lookup cols n (base cols)) as [[Hb _]|[_ ->]]; [set_solver| |done].
    apply elem_headers in Hb. lia.
  - destruct (header_lookup cols n a Ha) as [[_ Eq]|[-> _]]; [|done]. rewrite Eq in A. by apply list_elem_of_lookup_2 in A.
  - apply H in A as [Ha A]. split; [set_solver|]. destruct (header_lookup cols n a) as [[_ ->]|[-> _]]; [set_solver|done|].
    apply elem_headers in Ha. lia.
  - destruct (header_lookup cols n a Ha) as [[Hb Eq]|[_ Eq]]; rewrite Eq in A; [by apply H|congruence].
Qed.

Lemma append_column_ok b cols n :
  Built b cols [] -> n ∉ cols -> 0 <= n < 400 -> zlen cols < 81 * 4 ->
  exists b', append_column n b = Ret b' /\ Built b' (cols ++ [n]) [].
Proof.
  intros B Nn Hn Hs. pose proof (bl_cur _ _ _ B) as Ec. rewrite zlen_nil, Z.add_0_r in Ec.
  assert (columns_ b !! n = None) as Ecn.
  { destruct (columns_ b !! n) as [a|] eqn:E; [|done]. apply (bl_columns _ _ _ B) in E as [_ E]. apply list_elem_of_lookup_2 in E. done. }
  unfold append_column. rewrite decide_True, Ecn, bool_decide_true by done. unfold check at 1.
  unfold new_column. rewrite bool_decide_true by (rewrite Ec; unfold base; cbv [kMaxNodes]; zlia). cbn [check obind b_nodes cur_node_ columns_].
  pose proof (bl_dom _ _ _ B) as Db. rewrite Ec in Db |- *. set (c := base cols) in *. set (h := <[c := _]> (b_nodes b)).
  pose proof (fun p => insert_fields c (mkNode c c c c c n 0) (b_nodes b) p) as F. fold h in F.
  assert (root_ < c) as Rc by (unfold c, root_, base; zlia).
  assert (c ∉ root_ :: headers cols) as Nc by (rewrite elem_of_cons, elem_headers; unfold c in *; lia).
  assert (forall p, p ∈ dom h <-> p = c \/ 0 <= p < c) as Dh.
  { intros p. unfold h. rewrite dom_insert_L, elem_of_union, elem_of_singleton, Db. done. }
  assert (forall y, y ∈ headers cols ++ [root_] -> y ∈ root_ :: headers cols) as Rot by set_solver.
  destruct (put_left_ok root_ c (headers cols) h) as (k & P & Dk & Ck & Kf & Ko).
  - eapply chain_ext; [..|apply (bl_headers _ _ _ B)]; intros y Hy; unfold rt, lf; rewrite F, decide_False; try done; intros ->;
      apply Nc; [done|by apply Rot].
  - apply NoDup_cons. split; [rewrite elem_headers; unfold root_; lia|apply NoDup_seqZ].
  - done.
  - intros y. rewrite Dh, !elem_of_cons, elem_headers. unfold root_ in *. fold c. lia.
  - rewrite P. cbn [obind]. eexists. split; [done|].
    assert (forall a, a ∈ headers (cols ++ [n]) -> dnw k a = a /\ upw k a = a /\ sz k a = 0) as Fk.
    { intros a. rewrite headers_snoc. intros [Ha | Ha%list_elem_of_singleton]%elem_of_app; destruct (Ko a) as (-> & -> & _ & _ & ->);
        unfold dnw, upw, sz; rewrite F; case_decide as E; try done.
      pose proof (bl_ring _ _ _ B a Ha) as [? ?]. pose proof (bl_size _ _ _ B a Ha). done. }
    split; cbn [b_nodes cur_node_ columns_].
    + unfold base in *. rewrite zlen_app. unfold c, zlen. cbn [length]. lia.
    + apply columns_snoc; [done|apply (bl_columns _ _ _ B)].
    + intros p. rewrite Dk, Dh. unfold root_ in *. lia.
    + by rewrite headers_snoc.
    + intros a Ha. split; by apply Fk.
    + intros a Ha. by apply Fk.
    + intros p Hp%elem_made. rewrite zlen_nil in Hp. lia.
Qed.

Lemma node_name_old cols names x p : p ∈ made cols names -> node_name cols (names ++ [x]) p = node_name cols names p.
Proof. intros H%elem_made. unfold node_name. rewrite !list_lookup_total_alt, lookup_app_l; [done|]. unfold zlen in H. lia. Qed.
Lemma node_name_new cols names x : node_name cols (names ++ [x]) (base cols + zlen names) = x.
Proof. unfold node_name. rewrite list_lookup_total_alt, list_lookup_middle; [done|]. unfold zlen. lia. Qed.
Lemma made_snoc cols names x : made cols (names ++ [x]) = made cols names ++ [base cols + zlen names].
Proof. unfold made. rewrite zlen_app, seqZ_snoc by zlia. done. Qed.
Lemma in_column_snoc cs cols names x a :
  in_column cs cols (names ++ [x]) a =
  in_column cs cols names a ++ (if decide (cs !! x = Some a) then [base cols + zlen names] else []).
Proof.
  unfold in_column. rewrite made_snoc, filter_app. f_equal.
  - apply filter_iff_in. intros p Hp. by rewrite node_name_old.
  - rewrite filter_cons, node_name_new. by repeat case_decide.
Qed.

(** The nodes of a column are its header and the nodes in it; those of other columns are others. *)
Lemma in_column_ring b cols names a : Built b cols names -> a ∈ headers cols ->
  NoDup (a :: in_column (columns_ b) cols names a) /\ (forall y, y ∈ a :: in_column (columns_ b) cols names a -> 0 <= y < cur_node_ b).
Proof.
  intros B Ha%elem_headers. rewrite (bl_cur _ _ _ B). split.
  - apply NoDup_cons. split; [intros [? _]%in_column_elem; lia|]. apply NoDup_filter, NoDup_seqZ.
  - intros y [-> | [? _]%in_column_elem]%elem_of_cons; unfold base in *; zlia.
Qed.

Lemma in_column_disjoint b cols names a c y : Built b cols names -> a ∈ headers cols -> c ∈ headers cols ->
  y ∈ a :: in_column (columns_ b) cols names a -> y ∈ c :: in_column (columns_ b) cols names c -> a = c.
Proof.
  intros B Ha%elem_headers Hc%elem_headers. rewrite !elem_of_cons, !in_column_elem. intros [-> | [R1 E1]] [E2 | [R2 E2]]; [done|lia|lia|congruence].
Qed.
Lemma in_column_length cs cols names a : zlen (in_column cs cols names a) <= zlen names.
Proof.
  unfold zlen at 1. unfold in_column. pose proof (length_filter (fun p => cs !! node_name cols names p = Some a) (made cols names)) as L.
  unfold made in L at 2. rewrite length_seqZ in L. zlia.
Qed.

Lemma new_row_ok b cols names x c :
  Built b cols names -> columns_ b !! x = Some c -> 0 <= x < 400 -> cur_node_ b < Z.of_nat kMaxNodes ->
  exists b', new_row x b = Ret (cur_node_ b, b') /\ Built b' cols (names ++ [x]) /\ columns_ b' = columns_ b /\
    (forall p, p <> cur_node_ b -> lf (b_nodes b') p = lf (b_nodes b) p /\ rt (b_nodes b') p = rt (b_nodes b) p) /\
    lf (b_nodes b') (cur_node_ b) = cur_node_ b /\ rt (b_nodes b') (cur_node_ b) = cur_node_ b.
Proof.
  intros B Ex Hx Hs. unfold new_row. rewrite decide_True, Ex, bool_decide_true by done. cbn [check].
  pose proof (bl_cur _ _ _ B) as Ec. pose proof (bl_dom _ _ _ B) as Db.
  assert (c ∈ headers cols) as Hc by (by apply (bl_columns _ _ _ B) in Ex as [? _]).
  assert (1 <= c < base cols) as Rc by (by apply elem_headers).
  destruct (in_column_ring b cols names c B Hc) as [Nd Rg].
  set (r := cur_node_ b) in *. set (h := <[r := _]> (b_nodes b)).
  pose proof (fun p => insert_fields r (mkNode r r r r c x 0) (b_nodes b) p) as F. fold h in F.
  assert (forall p, p ∈ dom h <-> 0 <= p < r + 1) as Dh.
  { intros p. unfold h. rewrite dom_insert_L, elem_of_union, elem_of_singleton, Db. zlia. }
  assert (forall p, p <> r -> h !!! p = b_nodes b !!! p) as Fo by (intros p Hp; by rewrite F, decide_False).
  assert (forall a y, a ∈ headers cols -> y ∈ a :: in_column (columns_ b) cols names a -> y <> r) as Ne.
  { intros a y Ha Hy ->. destruct (in_column_ring b cols names a B Ha) as [_ R]. apply R in Hy. fold r in Hy. lia. }
  assert (forall a, a ∈ headers cols -> chain (dnw h) (upw h) a (in_column (columns_ b) cols names a) a) as Ch.
  { intros a Ha. eapply chain_ext; [..|by apply (bl_ring _ _ _ B)]; intros y Hy; unfold dnw, upw; rewrite Fo; try done; apply (Ne a); [done|done|done|].
    apply elem_of_app in Hy as [Hy | ->%list_elem_of_singleton]; [by right|by left]. }
  destruct (put_up_ok c r (in_column (columns_ b) cols names c) h) as (k & P & Dk & Ck & Kf & Ks & Kc & Ko).
  - by apply Ch.
  - done.
  - intros Hr. by apply (Ne c r).
  - intros y [-> | Hy]%elem_of_cons; apply Dh; [pose proof (proj1 (elem_headers cols c) Hc); unfold base in *; zlia|].
    apply Rg in Hy. lia.
  - rewrite P. cbn [obind]. eexists. split; [done|]. cbn [b_nodes cur_node_ columns_].
    split_and!; [|done|..].
    2: { intros p Hp. destruct (Ko p) as (-> & -> & _). unfold lf, rt. by rewrite Fo. }
    2: { destruct (Ko r) as (-> & _). unfold lf. by rewrite F, decide_True. }
    2: { destruct (Ko r) as (_ & -> & _). unfold rt. by rewrite F, decide_True. }
    split; cbn [b_nodes cur_node_ columns_].
    + rewrite Ec, zlen_app. unfold zlen. cbn [length]. lia.
    + apply (bl_columns _ _ _ B).
    + intros p. by rewrite Dk, Dh.
    + eapply chain_ext; [..|apply (bl_headers _ _ _ B)]; intros y Hy; destruct (Ko y) as (E1 & E2 & _); rewrite ?E1, ?E2; unfold rt, lf;
        rewrite Fo; try done; rewrite ?elem_of_app, ?elem_of_cons, ?elem_of_nil, ?elem_headers in Hy; unfold base, root_ in *; zlia.
    + intros a Ha. rewrite in_column_snoc, <- Ec. case_decide as Ea.
      * assert (a = c) as -> by congruence. done.
      * rewrite app_nil_r. assert (forall y, y ∈ a :: in_column (columns_ b) cols names a -> y ∉ r :: c :: in_column (columns_ b) cols names c) as Dj.
        { intros y Hy. pose proof (Ne a y Ha Hy). apply not_elem_of_cons. split; [done|]. intros Hy'. apply Ea. by rewrite (in_column_disjoint b cols names a c y). }
        eapply chain_ext; [..|by apply Ch]; intros y Hy; apply Kf, Dj; [done|].
        apply elem_of_app in Hy as [Hy | ->%list_elem_of_singleton]; [by right|by left].
    + intros a Ha. rewrite in_column_snoc, Ks. unfold sz. apply elem_headers in Ha as Ra. rewrite (Fo c), (Fo a) by zlia. case_decide as Ea.
      * subst a. rewrite decide_True by done. pose proof (bl_size _ _ _ B c Hc) as Z. unfold sz in Z. rewrite Z, zlen_app.
        apply swrap_small; [lia|]. pose proof (in_column_length (columns_ b) cols names c). cbv [kMaxNodes] in Hs. unfold base in *. zlia.
      * rewrite decide_False by congruence. rewrite app_nil_r. by apply (bl_size _ _ _ B).
    + intros p. rewrite made_snoc, <- Ec. destruct (Ko p) as (_ & _ & ->). rewrite Kc. intros [Hp | ->%list_elem_of_singleton]%elem_of_app.
      * rewrite node_name_old by done. apply elem_made in Hp as Rp. unfold nm, cl. rewrite Fo, decide_False by lia. by apply (bl_node _ _ _ B).
      * rewrite Ec, node_name_new, <- Ec. unfold nm. by rewrite F, !decide_True.
Qed.

(** ** Rows of four nodes *)

(** The columns a value [v] in the cell [i] meets *)
Definition names4 (g : Z * Z) : list Z :=
  let '(i, v) := g in [i; get_row_col (row_of i) v; get_col_col (col_of i) v; get_box_col (box_of i) v].
Definition names_of (gs : list (Z * Z)) : list Z := gs ≫= names4.
(** The first node of the row of [p], and the others from [p] on to the right *)
Definition first_of (b p : Z) : Z := b + (p - b) / 4 * 4.
Definition others (b p : Z) : list Z := seqZ (p + 1) (first_of b p + 3 - p) ++ seqZ (first_of b p) (p - first_of b p).

Lemma first_of_range b p : b <= p -> first_of b p <= p <= first_of b p + 3 /\ b <= first_of b p.
Proof. intros. unfold first_of. pose proof (Z.div_mod (p - b) 4 ltac:(lia)). pose proof (Z.mod_pos_bound (p - b) 4 ltac:(lia)). lia. Qed.
Lemma first_of_eq b r p : (r - b) mod 4 = 0 -> r <= p <= r + 3 -> first_of b p = r.
Proof.
  intros E H. unfold first_of. pose proof (Z.div_mod (p - b) 4 ltac:(lia)). pose proof (Z.mod_pos_bound (p - b) 4 ltac:(lia)).
  pose proof (Z.div_mod (r - b) 4 ltac:(lia)). lia.
Qed.
Lemma others_four b r j : (r - b) mod 4 = 0 -> 0 <= j <= 3 ->
  r + j :: others b (r + j) =
  if decide (j = 0) then [r; r + 1; r + 2; r + 3] else if decide (j = 1) then [r + 1; r + 2; r + 3; r]
  else if decide (j = 2) then [r + 2; r + 3; r; r + 1] else [r + 3; r; r + 1; r + 2].
Proof.
  intros E H. unfold others. rewrite (first_of_eq b r) by lia.
  replace (r + 3 - (r + j)) with (3 - j) by lia. replace (r + j - r) with j by lia.
  assert (j = 0 \/ j = 1 \/ j = 2 \/ j = 3) as [-> | [-> | [-> | ->]]] by lia;
    repeat first [rewrite seqZ_cons by lia | rewrite seqZ_nil by lia]; cbn [app]; repeat case_decide; try lia;
    repeat (apply (f_equal2 cons); [lia|]); done.
Qed.

Lemma others_elem b p y : b <= p -> y ∈ p :: others b p <-> first_of b p <= y <= first_of b p + 3.
Proof.
  intros H%first_of_range. unfold others. rewrite elem_of_cons, elem_of_app, !elem_of_seqZ. lia.
Qed.
(** A ring of four may be entered anywhere. *)
Lemma ring_four nx pv b r p :
  chain nx pv r [r + 1; r + 2; r + 3] r -> (r - b) mod 4 = 0 -> r <= p <= r + 3 -> chain nx pv p (others b p) p.
Proof.
  intros (A1 & A2 & A3 & A4 & A5 & A6 & A7 & A8) E H. pose proof (others_four b r (p - r) E ltac:(lia)) as O.
  replace (r + (p - r)) with p in O by lia.
  repeat case_decide; injection O as -> ->; cbn [chain]; tauto.
Qed.

Lemma length_names_of gs : zlen (names_of gs) = 4 * zlen gs.
Proof.
  induction gs as [|[i v] gs IH]; [done|]. unfold names_of in *. cbn [mbind list_bind]. rewrite zlen_app, zlen_cons, IH.
  unfold zlen at 1. cbn [names4 length]. lia.
Qed.

Record BuiltRows (b : Builder) (cols : list Z) (gs : list (Z * Z)) : Prop := mkBuiltRows {
  br_built : Built b cols (names_of gs);
  br_rows : forall p, p ∈ made cols (names_of gs) -> chain (rt (b_nodes b)) (lf (b_nodes b)) p (others (base cols) p) p }.

Lemma built_horizontal b cols names k :
  Built b cols names -> dom k = dom (b_nodes b) ->
  (forall y, 0 <= y < base cols -> rt k y = rt (b_nodes b) y /\ lf k y = lf (b_nodes b) y) ->
  (forall y, upw k y = upw (b_nodes b) y /\ dnw k y = dnw (b_nodes b) y /\ cl k y = cl (b_nodes b) y /\ nm k y = nm (b_nodes b) y /\ sz k y = sz (b_nodes b) y) ->
  Built (mkBuilder k (cur_node_ b) (columns_ b)) cols names.
Proof.
  intros B D H V. split; cbn [b_nodes cur_node_ columns_]; [apply B|apply B|by rewrite D; apply B|..].
  - eapply chain_ext; [..|apply (bl_headers _ _ _ B)]; intros y Hy; apply H;
      rewrite ?elem_of_app, ?elem_of_cons, ?elem_of_nil, ?elem_headers in Hy; unfold root_, base in *; zlia.
  - intros a Ha. eapply chain_ext; [..|by apply (bl_ring _ _ _ B)]; intros y _; apply V.
  - intros a Ha. destruct (V a) as (_ & _ & _ & _ & ->). by apply (bl_size _ _ _ B).
  - intros p Hp. destruct (V p) as (_ & _ & -> & -> & _). by apply (bl_node _ _ _ B).
Qed.

(** The three [put_left]s of a row *)
Lemma link_row h r :
  (forall y, r <= y <= r + 3 -> y ∈ dom h /\ rt h y = y /\ lf h y = y) ->
  exists k, (let* h := put_left r (r + 1) h in let* h := put_left r (r + 2) h in put_left r (r + 3) h) = Ret k /\ dom k = dom h /\
    chain (rt k) (lf k) r [r + 1; r + 2; r + 3] r /\
    (forall y, ~ r <= y <= r + 3 -> rt k y = rt h y /\ lf k y = lf h y) /\
    (forall y, upw k y = upw h y /\ dnw k y = dnw h y /\ cl k y = cl h y /\ nm k y = nm h y /\ sz k y = sz h y).
Proof.
  intros H.
  destruct (put_left_ok r (r + 1) [] h) as (k1 & P1 & D1 & C1 & F1 & O1).
  { apply H. lia. }
  { apply NoDup_singleton. }
  { rewrite list_elem_of_singleton. lia. }
  { intros y Hy. rewrite !elem_of_cons, elem_of_nil in Hy. apply H. lia. }
  destruct (put_left_ok r (r + 2) [r + 1] k1) as (k2 & P2 & D2 & C2 & F2 & O2).
  { done. }
  { repeat (apply NoDup_cons; split; [rewrite ?elem_of_cons, elem_of_nil; lia|]). apply NoDup_nil_2. }
  { rewrite !elem_of_cons, elem_of_nil. lia. }
  { intros y Hy. rewrite !elem_of_cons, elem_of_nil in Hy. rewrite D1. apply H. lia. }
  destruct (put_left_ok r (r + 3) [r + 1; r + 2] k2) as (k3 & P3 & D3 & C3 & F3 & O3).
  { done. }
  { repeat (apply NoDup_cons; split; [rewrite ?elem_of_cons, elem_of_nil; lia|]). apply NoDup_nil_2. }
  { rewrite !elem_of_cons, elem_of_nil. lia. }
  { intros y Hy. rewrite !elem_of_cons, elem_of_nil in Hy. rewrite D2, D1. apply H. lia. }
  exists k3. rewrite P1. cbn [obind]. rewrite P2. cbn [obind]. split_and!; [done|congruence|done|..].
  - intros y Hy. destruct (F3 y) as [-> ->]; [rewrite !elem_of_cons, elem_of_nil; lia|].
    destruct (F2 y) as [-> ->]; [rewrite !elem_of_cons, elem_of_nil; lia|]. apply F1. rewrite !elem_of_cons, elem_of_nil. lia.
  - intros y. destruct (O3 y) as (-> & -> & -> & -> & ->), (O2 y) as (-> & -> & -> & -> & ->). apply O1.
Qed.

Lemma names_of_snoc gs i v :
  names_of (gs ++ [(i, v)]) = (((names_of gs ++ [i]) ++ [get_row_col (row_of i) v]) ++ [get_col_col (col_of i) v]) ++ [get_box_col (box_of i) v].
Proof. unfold names_of. rewrite bind_app. cbn [mbind list_bind names4 app]. by rewrite <- !app_assoc. Qed.

Lemma add_row_ok b cols gs i v :
  BuiltRows b cols gs -> (forall x, x ∈ names4 (i, v) -> 0 <= x < 400 /\ is_Some (columns_ b !! x)) ->
  cur_node_ b + 4 <= Z.of_nat kMaxNodes ->
  exists b', add_row i v b = Ret b' /\ BuiltRows b' cols (gs ++ [(i, v)]) /\ columns_ b' = columns_ b.
Proof.
  intros [B R] Hx Hs. unfold add_row. set (r := cur_node_ b) in *.
  assert (r = base cols + 4 * zlen gs) as Er by (unfold r; by rewrite (bl_cur _ _ _ B), length_names_of).
  destruct (Hx i) as (X0 & c0 & E0); [set_solver|]. destruct (Hx (get_row_col (row_of i) v)) as (X1 & c1 & E1); [set_solver|].
  destruct (Hx (get_col_col (col_of i) v)) as (X2 & c2 & E2); [set_solver|]. destruct (Hx (get_box_col (box_of i) v)) as (X3 & c3 & E3); [set_solver|].
  destruct (new_row_ok b _ _ _ c0 B E0 X0) as (b1 & N0 & B1 & Q1 & F1 & S1); [lia|]. rewrite N0. cbn [obind].
  assert (cur_node_ b1 = r + 1) as C1 by (rewrite (bl_cur _ _ _ B1), zlen_app, length_names_of, Er; unfold zlen; cbn [length]; lia).
  rewrite <- Q1 in E1. destruct (new_row_ok b1 _ _ _ c1 B1 E1 X1) as (b2 & N1 & B2 & Q2 & F2 & S2); [lia|]. rewrite N1. cbn [obind].
  assert (cur_node_ b2 = r + 2) as C2 by (rewrite (bl_cur _ _ _ B2), !zlen_app, length_names_of, Er; unfold zlen; cbn [length]; lia).
  rewrite <- Q1, <- Q2 in E2. destruct (new_row_ok b2 _ _ _ c2 B2 E2 X2) as (b3 & N2 & B3 & Q3 & F3 & S3); [lia|]. rewrite N2. cbn [obind].
  assert (cur_node_ b3 = r + 3) as C3 by (rewrite (bl_cur _ _ _ B3), !zlen_app, length_names_of, Er; unfold zlen; cbn [length]; lia).
  rewrite <- Q1, <- Q2, <- Q3 in E3. destruct (new_row_ok b3 _ _ _ c3 B3 E3 X3) as (b4 & N3 & B4 & Q4 & F4 & S4); [lia|]. rewrite N3. cbn [obind].
  assert (cur_node_ b4 = r + 4) as C4 by (rewrite (bl_cur _ _ _ B4), !zlen_app, length_names_of, Er; unfold zlen; cbn [length]; lia).
  rewrite <- names_of_snoc in B4. rewrite C1 in F2, S2 |- *. rewrite C2 in F3, S3 |- *. rewrite C3 in F4, S4 |- *. fold r in F1, S1 |- *.
  destruct (link_row (b_nodes b4) r) as (k & P & Dk & Ck & Fk & Ok).
  - intros y Hy. split; [apply (bl_dom _ _ _ B4); unfold base in *; zlia|].
    assert (y = r \/ y = r + 1 \/ y = r + 2 \/ y = r + 3) as [-> | [-> | [-> | ->]]] by lia.
    + destruct (F4 r) as [-> ->]; [lia|]. destruct (F3 r) as [-> ->]; [lia|]. destruct (F2 r) as [-> ->]; [lia|]. tauto.
    + destruct (F4 (r + 1)) as [-> ->]; [lia|]. destruct (F3 (r + 1)) as [-> ->]; [lia|]. tauto.
    + destruct (F4 (r + 2)) as [-> ->]; [lia|]. tauto.
    + tauto.
  - apply obind_ret in P as (k1 & P1 & P). apply obind_ret in P as (k2 & P2 & P3). rewrite P1. cbn [obind]. rewrite P2. cbn [obind]. rewrite P3. cbn [obind].
    eexists. split; [done|]. split; [|cbn [columns_]; congruence]. split.
    + apply built_horizontal; [done|done| |done]. intros y Hy. apply Fk. pose proof (zlen_nonneg gs). lia.
    + intros p. cbn [b_nodes]. rewrite elem_made, length_names_of, zlen_app. intros Hp.
      destruct (decide (p < r)) as [Old|New].
      * assert (forall y, y ∈ p :: others (base cols) p -> rt k y = rt (b_nodes b) y /\ lf k y = lf (b_nodes b) y) as Fo.
        { intros y Hy%others_elem; [|lia]. assert (y < r) as Yr.
          { unfold first_of in Hy. pose proof (Z.div_mod (p - base cols) 4 ltac:(lia)). pose proof (Z.mod_pos_bound (p - base cols) 4 ltac:(lia)). lia. }
          destruct (Fk y) as [-> ->]; [lia|]. destruct (F4 y) as [-> ->]; [lia|]. destruct (F3 y) as [-> ->]; [lia|].
          destruct (F2 y) as [-> ->]; [lia|]. destruct (F1 y) as [-> ->]; [lia|done]. }
        eapply chain_ext; [..|apply R; apply elem_made; rewrite length_names_of; lia]; intros y Hy; apply Fo; [done|].
        apply elem_of_app in Hy as [Hy | ->%list_elem_of_singleton]; [by right|by left].
      * apply (ring_four _ _ _ r); [done| |unfold zlen in *; cbn [length] in *; lia]. rewrite Er.
        replace (_ - _) with (zlen gs * 4) by lia. apply Z.mod_mul. lia.
Qed.

(** ** The loops of the constructor

    A loop whose bodies add [f i] to what was made so far *)
Lemma for_each_adds {S B} (I : list B -> S -> Prop) (f : Z -> list B) body l L acc rest s :
  (forall acc i rest s, i ∈ l -> L = acc ++ f i ++ rest -> I acc s -> exists s', body i s = Ret s' /\ I (acc ++ f i) s') ->
  L = acc ++ (l ≫= f) ++ rest -> I acc s -> exists s', for_each l body s = Ret s' /\ I (acc ++ (l ≫= f)) s'.
Proof.
  revert acc s. induction l as [|i l IH]; intros acc s H EL Hi.
  - exists s. split; [done|]. cbn. by rewrite app_nil_r.
  - rewrite bind_cons in *. destruct (H acc i ((l ≫= f) ++ rest) s) as (s1 & B1 & I1); [by left|by rewrite EL, <- app_assoc|done|].
    destruct (IH (acc ++ f i) s1) as (s2 & B2 & I2); [intros; eapply H; [by right|done|done]|by rewrite EL, <- !app_assoc|done|].
    exists s2. cbn [for_each]. rewrite B1. cbn [obind]. split; [done|]. by rewrite app_assoc.
Qed.

Definition cell (board : list Z) (i : Z) : Z := board !!! Z.to_nat i.
Definition cell_names (board : list Z) (i : Z) : list Z := if decide (cell board i = 0) then [i] else [].
Definition value_names (t : tables) (i v : Z) : list Z :=
  let '(rows, cols, boxes) := t in
  (if decide ((i, v) ∈ rows) then [] else [get_row_col i v]) ++
  (if decide ((i, v) ∈ cols) then [] else [get_col_col i v]) ++
  (if decide ((i, v) ∈ boxes) then [] else [get_box_col i v]).
Definition cols_of (board : list Z) (t : tables) : list Z :=
  (seqZ 0 kCells ≫= cell_names board) ++ (seqZ 0 9 ≫= fun i => seqZ 1 9 ≫= value_names t i).
Definition options (t : tables) (i v : Z) : list (Z * Z) :=
  let '(rows, cols, boxes) := t in
  if decide ((row_of i, v) ∈ rows \/ (col_of i, v) ∈ cols \/ (box_of i, v) ∈ boxes) then [] else [(i, v)].
Definition cell_options (board : list Z) (t : tables) (i : Z) : list (Z * Z) :=
  if decide (cell board i = 0) then seqZ 1 9 ≫= options t i else [].
Definition gs_of (board : list Z) (t : tables) : list (Z * Z) := seqZ 0 kCells ≫= cell_options board t.

(** All columns and rows there could be *)
Definition all_columns : list Z := seqZ 0 kCells ++ (seqZ 0 9 ≫= fun i => seqZ 1 9 ≫= fun v => [get_row_col i v; get_col_col i v; get_box_col i v]).
Lemma all_columns_nodup : NoDup all_columns.
Proof. apply (bool_decide_unpack _). vm_compute. exact Logic.I. Qed.
Lemma all_columns_length : zlen all_columns = 81 * 4.
Proof. vm_compute. done. Qed.
Lemma all_columns_range x : x ∈ all_columns -> 0 <= x < 400.
Proof.
  assert (Forall (fun x => 0 <= x < 400) all_columns) as F by (apply (bool_decide_unpack _); vm_compute; exact Logic.I).
  intros H. by apply (proj1 (Forall_forall _ _) F).
Qed.

Lemma bind_id {A} (l : list A) : (l ≫= fun x => [x]) = l.
Proof. induction l as [|x l IH]; [done|]. rewrite bind_cons, IH. done. Qed.
Lemma bind_sublist {A B} (f g : A -> list B) l : (forall x, f x `sublist_of` g x) -> l ≫= f `sublist_of` l ≫= g.
Proof. intros H. induction l as [|x l IH]; [done|]. rewrite !bind_cons. by apply sublist_app. Qed.
Lemma cols_sublist board t : cols_of board t `sublist_of` all_columns.
Proof.
  unfold cols_of, all_columns. apply sublist_app.
  - transitivity (seqZ 0 kCells ≫= fun i => [i]); [|by rewrite bind_id].
    apply bind_sublist. intros i. unfold cell_names. case_decide; [done|apply sublist_nil_l].
  - apply bind_sublist. intros i. apply bind_sublist. intros v. destruct t as [[rows cols] boxes]. unfold value_names.
    change [get_row_col i v; get_col_col i v; get_box_col i v] with ([get_row_col i v] ++ [get_col_col i v] ++ [get_box_col i v]).
    repeat apply sublist_app; case_decide; first [done|apply sublist_nil_l].
Qed.

Record Marks (board : list Z) (l : list Z) (t : tables) : Prop := mkMarks {
  mk_rows : forall k v, (k, v) ∈ t.1.1 <-> exists i, i ∈ l /\ row_of i = k /\ cell board i = v;
  mk_cols : forall k v, (k, v) ∈ t.1.2 <-> exists i, i ∈ l /\ col_of i = k /\ cell board i = v;
  mk_boxes : forall k v, (k, v) ∈ t.2 <-> exists i, i ∈ l /\ box_of i = k /\ cell board i = v }.

Definition good_board (board : list Z) : Prop := zlen board = kCells /\ forall i, 0 <= i < kCells -> 0 <= cell board i <= 9.

(** Rows, columns and boxes are numbered from 0 to 8. *)
Lemma unit_range i : i ∈ seqZ 0 kCells -> 0 <= row_of i < 9 /\ 0 <= col_of i < 9 /\ 0 <= box_of i < 9.
Proof.
  assert (Forall (fun i => 0 <= row_of i < 9 /\ 0 <= col_of i < 9 /\ 0 <= box_of i < 9) (seqZ 0 kCells)) as F
    by (apply (bool_decide_unpack _); vm_compute; exact Logic.I).
  intros H. by apply (proj1 (Forall_forall _ _) F).
Qed.

Lemma set_entry_ok i v t : 0 <= i < 9 -> 0 <= v <= 9 -> set_entry i v t = Ret ({[(i, v)]} ∪ t).
Proof. intros. unfold set_entry. rewrite decide_True; [done|]. unfold kCells. lia. Qed.

Lemma mark_cells_ok board : good_board board -> exists t, for_each (seqZ 0 kCells) (mark_cell board) (∅, ∅, ∅) = Ret t /\ Marks board (seqZ 0 kCells) t.
Proof.
  intros [_ G]. destruct (for_each_adds (fun acc t => Marks board acc t) (fun i => [i]) (mark_cell board) (seqZ 0 kCells) (seqZ 0 kCells) [] [] (∅, ∅, ∅))
    as (t & F & M).
  - intros acc i rest [[rows cols] boxes] Hi _ [M1 M2 M3]. cbn [fst snd] in *. destruct (unit_range i Hi) as (U1 & U2 & U3).
    unfold kCells in *. apply elem_of_seqZ in Hi. specialize (G i ltac:(lia)). unfold mark_cell. fold (cell board i).
    rewrite !set_entry_ok by done. cbn [obind]. eexists. split; [done|].
    split; cbn [fst snd]; intros k v; rewrite elem_of_union, elem_of_singleton, ?M1, ?M2, ?M3; setoid_rewrite elem_of_app; setoid_rewrite list_elem_of_singleton; naive_solver.
  - cbn [app]. by rewrite bind_id, app_nil_r.
  - split; intros k v; cbn [fst snd]; rewrite elem_of_empty; setoid_rewrite elem_of_nil; naive_solver.
  - rewrite bind_id in M. by exists t.
Qed.

(** A column is appended unless [c]. *)
Lemma append_unless (c : Prop) `{Decision c} L acc x rest b :
  L `sublist_of` all_columns -> L = acc ++ (if decide c then [] else [x]) ++ rest -> Built b acc [] ->
  exists b', (if decide c then Ret b else append_column x b) = Ret b' /\ Built b' (acc ++ (if decide c then [] else [x])) [].
Proof.
  intros SL EL B. case_decide; [exists b; by rewrite app_nil_r|].
  assert (NoDup L) as N by (eapply sublist_NoDup; [exact all_columns_nodup|done]). rewrite EL in N, SL.
  apply append_column_ok; [done|..].
  - apply NoDup_app in N as (_ & N & _). intros Hx. apply (N x Hx). by left.
  - apply all_columns_range. eapply elem_of_submseteq; [|by apply sublist_submseteq]. apply elem_of_app. right. by left.
  - apply sublist_length in SL. pose proof all_columns_length as A. rewrite length_app in SL. cbn [app length] in SL. unfold zlen in *. lia.
Qed.

Lemma columns_ok board t b :
  Built b [] [] ->
  exists b1 b', for_each (seqZ 0 kCells) (cell_column board) b = Ret b1 /\
    for_each (seqZ 0 9) (fun i => for_each (seqZ 1 9) (value_columns t i)) b1 = Ret b' /\ Built b' (cols_of board t) [].
Proof.
  intros B. pose proof (cols_sublist board t) as SL.
  destruct (for_each_adds (fun acc b => Built b acc []) (cell_names board) (cell_column board) (seqZ 0 kCells) (cols_of board t) []
    (seqZ 0 9 ≫= fun i => seqZ 1 9 ≫= value_names t i) b) as (b1 & F1 & B1); [|done|done|].
  { intros acc i rest b0 _ EL B0. unfold cell_names, cell_column in *. fold (cell board i).
    destruct (append_unless (cell board i <> 0) (cols_of board t) acc i rest b0) as (b' & A & B'); [done| |done|].
    - rewrite EL. by repeat case_decide.
    - exists b'. repeat case_decide; done. }
  destruct (for_each_adds (fun acc b => Built b acc []) (fun i => seqZ 1 9 ≫= value_names t i) (fun i => for_each (seqZ 1 9) (value_columns t i))
    (seqZ 0 9) (cols_of board t) (seqZ 0 kCells ≫= cell_names board) [] b1) as (b' & F2 & B'); [|by rewrite app_nil_r|done|by exists b1, b'].
  intros acc i rest b0 _ EL B0. eapply (for_each_adds (fun acc b => Built b acc [])); [|exact EL|done].
  clear acc rest b0 EL B0. intros acc v rest b0 _ EL B0. destruct t as [[rows cols] boxes]. unfold value_names, value_columns in *.
  rewrite <- !app_assoc in EL. destruct (append_unless _ _ acc _ _ b0 SL EL B0) as (c1 & A1 & C1). rewrite A1. cbn [obind].
  rewrite app_assoc in EL. destruct (append_unless _ _ _ _ _ c1 SL EL C1) as (c2 & A2 & C2). rewrite A2. cbn [obind].
  rewrite app_assoc in EL. destruct (append_unless _ _ _ _ _ c2 SL EL C2) as (c3 & A3 & C3). rewrite A3.
  exists c3. split; [done|]. by rewrite !app_assoc.
Qed.

Lemma gs_length board t : zlen (gs_of board t) <= 729.
Proof.
  assert (gs_of board t `sublist_of` seqZ 0 kCells ≫= fun i => seqZ 1 9 ≫= fun v => [(i, v)]) as SL.
  { apply bind_sublist. intros i. unfold cell_options. case_decide; [|apply sublist_nil_l]. apply bind_sublist. intros v.
    destruct t as [[rows cols] boxes]. unfold options. case_decide; [apply sublist_nil_l|done]. }
  apply sublist_length in SL.
  assert (length (seqZ 0 kCells ≫= fun i => seqZ 1 9 ≫= fun v => [(i, v)]) = 729)%nat as E by (vm_compute; done).
  rewrite E in SL. unfold zlen. lia.
Qed.

(** Membership in the lists of columns and options *)
Lemma cols_of_elem board t x :
  x ∈ cols_of board t <->
  (x ∈ seqZ 0 kCells /\ cell board x = 0) \/
  (exists k v, k ∈ seqZ 0 9 /\ v ∈ seqZ 1 9 /\
    ((x = get_row_col k v /\ (k, v) ∉ t.1.1) \/ (x = get_col_col k v /\ (k, v) ∉ t.1.2) \/ (x = get_box_col k v /\ (k, v) ∉ t.2))).
Proof.
  unfold cols_of. rewrite elem_of_app, !list_elem_of_bind. f_equiv.
  - unfold cell_names. split.
    + intros (i & Hx & Hi). case_decide; [|by apply elem_of_nil in Hx]. apply list_elem_of_singleton in Hx. by subst.
    + intros [Hx E]. exists x. rewrite decide_True by done. split; [by left|done].
  - setoid_rewrite list_elem_of_bind. destruct t as [[rows cols] boxes]. unfold value_names. cbn [fst snd].
    assert (forall (c : Prop) (D : Decision c) y, x ∈ (if decide c then [] else [y]) <-> x = y /\ ~ c) as E.
    { intros c D y. case_decide; rewrite ?elem_of_nil, ?list_elem_of_singleton; tauto. }
    setoid_rewrite elem_of_app. setoid_rewrite elem_of_app. setoid_rewrite E. naive_solver.
Qed.
Lemma gs_of_elem board t i v :
  (i, v) ∈ gs_of board t <-> i ∈ seqZ 0 kCells /\ cell board i = 0 /\ v ∈ seqZ 1 9 /\
    (row_of i, v) ∉ t.1.1 /\ (col_of i, v) ∉ t.1.2 /\ (box_of i, v) ∉ t.2.
Proof.
  unfold gs_of. rewrite list_elem_of_bind. destruct t as [[rows cols] boxes]. cbn [fst snd]. unfold cell_options. split.
  - intros (i' & Hx & Hi). case_decide; [|by apply elem_of_nil in Hx]. apply list_elem_of_bind in Hx as (v' & Hx & Hv).
    unfold options in Hx. case_decide; [by apply elem_of_nil in Hx|]. apply list_elem_of_singleton in Hx. injection Hx as -> ->. tauto.
  - intros (Hi & E & Hv & H). exists i. split; [|done]. rewrite decide_True by done. apply list_elem_of_bind. exists v. split; [|done].
    unfold options. rewrite decide_False by tauto. by left.
Qed.
Lemma names4_cols board t i v x : (i, v) ∈ gs_of board t -> x ∈ names4 (i, v) -> x ∈ cols_of board t.
Proof.
  intros (Hi & E & Hv & N1 & N2 & N3)%gs_of_elem Hx. apply cols_of_elem. destruct (unit_range i Hi) as (U1 & U2 & U3).
  cbn [names4] in Hx. rewrite !elem_of_cons, elem_of_nil in Hx. destruct Hx as [-> | [-> | [-> | [-> | []]]]]; [by left|right..].
  - exists (row_of i), v. rewrite elem_of_seqZ. split_and!; [lia|lia|done|tauto].
  - exists (col_of i), v. rewrite elem_of_seqZ. split_and!; [lia|lia|done|tauto].
  - exists (box_of i), v. rewrite elem_of_seqZ. split_and!; [lia|lia|done|tauto].
Qed.

Lemma rows_ok board t b :
  Built b (cols_of board t) [] ->
  exists b', for_each (seqZ 0 kCells) (cell_rows board t) b = Ret b' /\ BuiltRows b' (cols_of board t) (gs_of board t).
Proof.
  intros B. pose proof (gs_length board t) as Lg. pose proof (sublist_length _ _ (cols_sublist board t)) as Lc. pose proof all_columns_length as La.
  eapply (for_each_adds (fun acc b => BuiltRows b (cols_of board t) acc) _ _ _ (gs_of board t) [] []); [|by rewrite app_nil_r|].
  2: { split; [done|]. intros p Hp%elem_made. unfold zlen in Hp. cbn in Hp. lia. }
  intros acc i rest b0 _ EL B0. unfold cell_options, cell_rows in *. fold (cell board i).
  destruct t as [[rows cols] boxes] eqn:Et. rewrite <- Et in *. case_decide as Ei; [|exists b0; by rewrite app_nil_r].
  eapply (for_each_adds (fun acc b => BuiltRows b (cols_of board t) acc)); [|exact EL|done].
  clear acc rest b0 EL B0. intros acc v rest b0 _ EL B0. rewrite Et in EL |- *. unfold options in *. rewrite <- Et in *.
  case_decide as Ev; [exists b0; by rewrite app_nil_r|].
  assert ((i, v) ∈ gs_of board t) as Hg by (rewrite EL; apply elem_of_app; right; by left).
  destruct (add_row_ok b0 (cols_of board t) acc i v) as (b' & A & B' & _); [done| | |by exists b'].
  - intros x Hx. apply (names4_cols board t) in Hx; [|done].
    split; [apply all_columns_range; eapply elem_of_submseteq; [done|apply sublist_submseteq, cols_sublist]|].
    apply list_elem_of_lookup in Hx as (k & Hk). exists (1 + Z.of_nat k). apply (bl_columns _ _ _ (br_built _ _ _ B0)). split.
    + apply elem_headers. unfold base, zlen. apply lookup_lt_Some in Hk. lia.
    + by replace (Z.to_nat _) with k by lia.
  - rewrite (bl_cur _ _ _ (br_built _ _ _ B0)), length_names_of. rewrite EL in Lg. cbv [kMaxNodes]. unfold base, zlen in *.
    rewrite !length_app in Lg. cbn [length] in Lg. lia.
Qed.

(** The kind of column is the place in the row. *)
Lemma name_kind i v j x : i ∈ seqZ 0 kCells -> v ∈ seqZ 1 9 -> names4 (i, v) !! j = Some x -> x / 100 = Z.of_nat j.
Proof.
  intros Hi Hv Hx. destruct (unit_range i Hi) as (U1 & U2 & U3). rewrite elem_of_seqZ in Hi, Hv.
  destruct j as [|[|[|[|j]]]]; cbn in Hx; [injection Hx as <-..|done]; unfold get_row_col, get_col_col, get_box_col, kRow, kCol, kBox, kCells in *; symmetry.
  - by apply Z.div_unique_pos with i; lia.
  - by apply Z.div_unique_pos with (row_of i * 10 + v); lia.
  - by apply Z.div_unique_pos with (col_of i * 10 + v); lia.
  - by apply Z.div_unique_pos with (box_of i * 10 + v); lia.
Qed.

(** ** The rings represent an exact cover problem *)

Section Problem.
Context (b : Builder) (cols : list Z) (gs : list (Z * Z)).
Hypothesis B : BuiltRows b cols gs.
Hypothesis small_cols : zlen cols <= 81 * 4.
Hypothesis small_gs : zlen gs <= 729.
Hypothesis cells_range : forall i v, (i, v) ∈ gs -> i ∈ seqZ 0 kCells /\ v ∈ seqZ 1 9.

Let h0 : heap := b_nodes b.
Let names : list Z := names_of gs.
Let hdrs : list Z := headers cols.
Let nodes : list Z := made cols names.
Let row (p : Z) : list Z := p :: others (base cols) p.
(** The cell and the value of the row of a node *)
Definition group (p : Z) : Z * Z := gs !!! Z.to_nat ((p - base cols) / 4).

Lemma group_elem p : p ∈ nodes -> group p ∈ gs.
Proof.
  intros Hp%elem_made. unfold names in Hp. rewrite length_names_of in Hp. unfold group. rewrite list_lookup_total_alt.
  destruct (lookup_lt_is_Some_2 gs (Z.to_nat ((p - base cols) / 4))) as [g E].
  - pose proof (Z.div_pos (p - base cols) 4). pose proof (Z.div_lt_upper_bound (p - base cols) 4 (zlen gs)). unfold zlen in *. lia.
  - rewrite E. cbn. by apply list_elem_of_lookup_2 in E.
Qed.
Lemma names_of_lookup l k j : (j < 4)%nat -> (k < length l)%nat -> names_of l !! (4 * k + j)%nat = names4 (l !!! k) !! j.
Proof.
  intros Hj. revert k. induction l as [|[i v] l IH]; intros k Hk; [cbn in Hk; lia|]. unfold names_of in *. rewrite bind_cons.
  destruct k as [|k].
  - rewrite lookup_app_l by (cbn [names4 length]; lia). done.
  - rewrite lookup_app_r by (cbn [names4 length]; lia). cbn [names4 length] in *.
    replace (4 * S k + j - 4)%nat with (4 * k + j)%nat by lia. rewrite IH by lia. done.
Qed.
Lemma node_name_group p : p ∈ nodes -> names4 (group p) !! Z.to_nat ((p - base cols) mod 4) = Some (node_name cols names p).
Proof.
  intros Hp. apply elem_made in Hp as Rp. unfold names in Rp. rewrite length_names_of in Rp.
  pose proof (Z.div_pos (p - base cols) 4). pose proof (Z.div_lt_upper_bound (p - base cols) 4 (zlen gs)).
  pose proof (Z.div_mod (p - base cols) 4). pose proof (Z.mod_pos_bound (p - base cols) 4).
  unfold group, node_name, names. rewrite <- names_of_lookup by (unfold zlen in *; lia).
  replace (4 * _ + _)%nat with (Z.to_nat (p - base cols)) by lia. rewrite list_lookup_total_alt.
  destruct (lookup_lt_is_Some_2 (names_of gs) (Z.to_nat (p - base cols))) as [x E]; [|by rewrite E].
  pose proof (length_names_of gs). unfold zlen in *. lia.
Qed.

Lemma node_kind p : p ∈ nodes -> node_name cols names p / 100 = (p - base cols) mod 4.
Proof.
  intros Hp. pose proof (node_name_group p Hp) as E. pose proof (group_elem p Hp) as G. destruct (group p) as [i v].
  apply cells_range in G as [Gi Gv]. rewrite (name_kind i v _ _ Gi Gv E). pose proof (Z.mod_pos_bound (p - base cols) 4). lia.
Qed.
Lemma node_column p : p ∈ nodes -> columns_ b !! node_name cols names p = Some (cl h0 p).
Proof. intros Hp. by apply (bl_node _ _ _ (br_built _ _ _ B)). Qed.
Lemma same_column p q : p ∈ nodes -> q ∈ nodes -> cl h0 p = cl h0 q -> node_name cols names p = node_name cols names q.
Proof.
  intros Hp%node_column Hq%node_column E. rewrite E in Hp.
  apply (bl_columns _ _ _ (br_built _ _ _ B)) in Hp as [_ Hp], Hq as [_ Hq]. congruence.
Qed.

Lemma row_elem p y : p ∈ nodes -> y ∈ row p <-> first_of (base cols) p <= y <= first_of (base cols) p + 3.
Proof. intros Hp%elem_made. apply others_elem. lia. Qed.
Lemma row_first p y : p ∈ nodes -> y ∈ row p -> first_of (base cols) y = first_of (base cols) p.
Proof.
  intros Hp Hy%row_elem; [|done]. apply elem_made in Hp. apply first_of_eq; [|lia].
  unfold first_of. replace (_ - _) with ((p - base cols) / 4 * 4) by lia. apply Z.mod_mul. lia.
Qed.
Lemma row_in p y : p ∈ nodes -> y ∈ row p -> y ∈ nodes.
Proof.
  intros Hp Hy%row_elem; [|done]. apply elem_made in Hp. apply elem_made. unfold names in *. rewrite length_names_of in *.
  unfold first_of in Hy. pose proof (Z.div_pos (p - base cols) 4). pose proof (Z.div_lt_upper_bound (p - base cols) 4 (zlen gs)). lia.
Qed.
Lemma row_nodup0 p : NoDup (row p).
Proof.
  unfold row, others. apply NoDup_cons. rewrite elem_of_app, !elem_of_seqZ. split; [lia|]. apply NoDup_app.
  split_and!; [apply NoDup_seqZ| |apply NoDup_seqZ]. intros y. rewrite !elem_of_seqZ. lia.
Qed.

Lemma all_nodup : NoDup (root_ :: hdrs ++ nodes).
Proof.
  apply NoDup_cons. rewrite elem_of_app. unfold hdrs, nodes. rewrite elem_headers, elem_made. split; [unfold root_, base; zlia|].
  apply NoDup_app. split_and!; [apply NoDup_seqZ| |apply NoDup_seqZ]. intros x. rewrite elem_headers, elem_made. lia.
Qed.
Lemma all_small : (length (root_ :: hdrs ++ nodes) <= kMaxNodes)%nat.
Proof.
  cbn [length]. rewrite length_app. unfold hdrs, nodes, headers, made, names. rewrite !length_seqZ, length_names_of. cbv [kMaxNodes]. zlia.
Qed.
Lemma cl_hdrs p : p ∈ nodes -> cl h0 p ∈ hdrs.
Proof. intros Hp%node_column. by apply (bl_columns _ _ _ (br_built _ _ _ B)) in Hp as [? _]. Qed.
Lemma row_nodup p : p ∈ nodes -> NoDup (map (cl h0) (row p)).
Proof.
  intros Hp. apply NoDup_fmap_2_strong; [|apply row_nodup0]. intros x y Hx Hy E.
  apply same_column in E; [|by apply (row_in p)..].
  pose proof (node_kind x (row_in p x Hp Hx)) as Kx. pose proof (node_kind y (row_in p y Hp Hy)) as Ky. rewrite E, Ky in Kx.
  apply row_first in Hx, Hy; [|done..]. unfold first_of in Hx, Hy.
  pose proof (Z.div_mod (x - base cols) 4). pose proof (Z.div_mod (y - base cols) 4). lia.
Qed.
Lemma row_perm p q : p ∈ nodes -> q ∈ row p -> Permutation (row q) (row p).
Proof.
  intros Hp Hq. apply NoDup_Permutation; [apply row_nodup0..|]. intros x. rewrite !row_elem; [|done|by apply (row_in p)]. by rewrite (row_first p q).
Qed.

Abbreviation StaticB := (Static hdrs nodes (cl h0) (nm h0) (others (base cols))).

Lemma built_static : StaticB h0.
Proof.
  split.
  - apply set_eq. intros p. unfold h0. rewrite (bl_dom _ _ _ (br_built _ _ _ B)), (bl_cur _ _ _ (br_built _ _ _ B)), elem_of_list_to_set, elem_of_cons, elem_of_app.
    unfold hdrs, nodes. rewrite elem_headers, elem_made. unfold names, root_, base. zlia.
  - intros p Hp. by apply (br_rows _ _ _ B).
  - done.
  - done.
Qed.
Lemma built_rep : Rep hdrs nodes (cl h0) (nm h0) (others (base cols)) h0 [] (in_column (columns_ b) cols names).
Proof.
  split.
  - apply built_static.
  - split.
    + intros c _. apply NoDup_filter, NoDup_seqZ.
    + intros c n _ [Hn E]%in_column_elem. apply elem_made in Hn. split; [done|]. rewrite node_column in E by done. congruence.
  - split; apply B.
  - unfold open_columns. rewrite filter_id by set_solver. apply B.
  - intros c _ _. unfold in_column, open_nodes. apply filter_iff_in. intros p Hp. rewrite node_column by done. split.
    + intros [= <-]. split; [done|]. apply Forall_forall. set_solver.
    + by intros [-> _].
Qed.

(** Walking through the row of a node finds its cell and its value. *)
Lemma name_static h p : StaticB h -> p ∈ nodes -> p ∈ dom h /\ name (h !!! p) = node_name cols names p.
Proof.
  intros S Hp. split; [rewrite (st_dom _ _ _ _ _ _ S); apply elem_of_list_to_set; right; apply elem_of_app; by right|]. change (nm h p = node_name cols names p). rewrite (st_nm _ _ _ _ _ _ S p Hp).
  by apply (bl_node _ _ _ (br_built _ _ _ B)).
Qed.
Lemma next_static h p : StaticB h -> p ∈ nodes -> right (h !!! p) = if decide ((p - base cols) mod 4 = 3) then p - 3 else p + 1.
Proof.
  intros S Hp. pose proof (st_row _ _ _ _ _ _ S p Hp) as C. unfold others, first_of in C. apply elem_made in Hp.
  pose proof (Z.div_mod (p - base cols) 4 ltac:(lia)) as D. pose proof (Z.mod_pos_bound (p - base cols) 4 ltac:(lia)) as M.
  change (right (h !!! p)) with (rt h p). case_decide as E.
  - rewrite seqZ_nil, app_nil_l, seqZ_cons in C by lia. destruct C as [-> _]. lia.
  - rewrite (seqZ_cons (p + 1)) in C by lia. by destruct C as [-> _].
Qed.
Lemma group_row p y : p ∈ nodes -> y ∈ row p -> group y = group p.
Proof. intros Hp Hy%row_first; [|done]. unfold group. do 2 f_equal. unfold first_of in Hy. lia. Qed.

Lemma node_value p : p ∈ nodes ->
  if decide ((p - base cols) mod 4 = 0) then node_name cols names p = (group p).1 /\ 0 <= node_name cols names p < 100
  else node_name cols names p %c 10 = (group p).2 /\ 100 <= node_name cols names p.
Proof.
  intros Hp. pose proof (node_name_group p Hp) as E. pose proof (group_elem p Hp) as G. destruct (group p) as [i v]. cbn [fst snd].
  apply cells_range in G as [Hi Hv]. destruct (unit_range i Hi) as (U1 & U2 & U3). rewrite elem_of_seqZ in Hi, Hv. unfold kCells in Hi.
  pose proof (Z.mod_pos_bound (p - base cols) 4 ltac:(lia)) as M.
  assert (forall k, 0 <= k < 9 -> forall c, 0 <= c -> (c * 10 + k * 10 + v) %c 10 = v) as R.
  { intros k Hk c Hc. replace (c * 10 + k * 10 + v) with (v + (c + k) * 10) by lia. rewrite Z.rem_add by lia. apply Z.rem_small. lia. }
  case_decide as Z0; [rewrite Z0 in E; injection E as <-; lia|].
  assert ((p - base cols) mod 4 = 1 \/ (p - base cols) mod 4 = 2 \/ (p - base cols) mod 4 = 3) as [Z1 | [Z1 | Z1]] by lia;
    rewrite Z1 in E; injection E as <-; unfold get_row_col, get_col_col, get_box_col, kRow, kCol, kBox; (split; [|lia]).
  - by apply (R (row_of i) U1 10).
  - by apply (R (col_of i) U2 20).
  - by apply (R (box_of i) U3 30).
Qed.
Lemma cell_value_step h p fuel c v : StaticB h -> p ∈ nodes -> c = -1 \/ v = -1 ->
  cell_value (Datatypes.S fuel) h p c v =
  if decide ((p - base cols) mod 4 = 0) then cell_value fuel h (p + 1) (group p).1 v
  else cell_value fuel h (if decide ((p - base cols) mod 4 = 3) then p - 3 else p + 1) c (group p).2.
Proof.
  intros S Hp Hc. destruct (name_static h p S Hp) as [D N]. pose proof (node_value p Hp) as V. cbn [cell_value].
  rewrite decide_True, get_ok by done. cbn [obind]. rewrite N, (next_static h p) by done.
  destruct (decide ((p - base cols) mod 4 = 0)) as [E|E].
  - rewrite (decide_True (P := node_name cols names p < 100)), E, (decide_False (P := 0 = 3)) by (try lia; done). by destruct V as [-> _].
  - rewrite (decide_False (P := node_name cols names p < 100)) by lia. by destruct V as [-> _].
Qed.

Lemma next_node p : p ∈ nodes -> let q := if decide ((p - base cols) mod 4 = 3) then p - 3 else p + 1 in
  q ∈ nodes /\ group q = group p /\ (q - base cols) mod 4 = ((p - base cols) mod 4 + 1) mod 4.
Proof.
  intros Hp q. pose proof (Z.div_mod (p - base cols) 4 ltac:(lia)) as D. pose proof (Z.mod_pos_bound (p - base cols) 4 ltac:(lia)) as M.
  assert (q ∈ row p) as Hq by (apply row_elem; [done|]; unfold q, first_of; case_decide; lia).
  split_and!; [by apply (row_in p)|by apply group_row|]. unfold q. case_decide as E.
  - rewrite E. change ((3 + 1) mod 4) with 0. symmetry. apply Z.mod_unique_pos with ((p - base cols) / 4); lia.
  - rewrite (Z.mod_small (_ + 1)) by lia. symmetry. apply Z.mod_unique_pos with ((p - base cols) / 4); lia.
Qed.
Lemma cell_value_done fuel h p c v : c <> -1 -> v <> -1 -> cell_value fuel h p c v = Ret (c, v).
Proof. intros. destruct fuel; cbn [cell_value]; rewrite decide_False by lia; done. Qed.
Lemma group_range p : p ∈ nodes -> 0 <= (group p).1 < kCells /\ 1 <= (group p).2 <= 9.
Proof. intros G%group_elem. destruct (group p) as [i v]. apply cells_range in G as [Hi Hv]. rewrite elem_of_seqZ in Hi, Hv. cbn [fst snd]. lia. Qed.

(** From a node that is not the first, to the first one *)
Lemma cell_value_on h p fuel v : StaticB h -> p ∈ nodes -> (4 - (p - base cols) mod 4) mod 4 < Z.of_nat fuel -> v <> -1 \/ (p - base cols) mod 4 <> 0 ->
  v = -1 \/ v = (group p).2 -> cell_value fuel h p (-1) v = Ret (group p).
Proof.
  intros S Hp. revert p v Hp. induction fuel as [|fuel IH]; intros p v Hp Hf Hv Ev;
    [pose proof (Z.mod_pos_bound (4 - (p - base cols) mod 4) 4); lia|].
  destruct (next_node p Hp) as (Nq & Gq & Mq). destruct (group_range p Hp) as [G1 G2]. pose proof (Z.mod_pos_bound (p - base cols) 4 ltac:(lia)) as M.
  rewrite cell_value_step by (first [done|by left]). destruct (decide ((p - base cols) mod 4 = 0)) as [E|E].
  - rewrite cell_value_done by lia. destruct (group p) as [i w]. cbn [fst snd] in *. destruct Ev as [-> | ->]; [lia|done].
  - set (q := if decide ((p - base cols) mod 4 = 3) then p - 3 else p + 1) in *. rewrite <- Gq. apply IH; [done| |rewrite Gq; lia|by right].
    rewrite Mq. assert ((p - base cols) mod 4 = 3 \/ (p - base cols) mod 4 < 3) as [E3 | E3] by lia.
    + rewrite E3 in *. change ((4 - 3) mod 4) with 1 in Hf. change ((4 - (3 + 1) mod 4) mod 4) with 0. lia.
    + rewrite (Z.mod_small (_ + 1)) by lia. rewrite Z.mod_small in Hf |- * by lia. lia.
Qed.
Lemma cells_ok h p : StaticB h -> p ∈ nodes -> cell_value kMaxNodes h p (-1) (-1) = Ret ((group p).1, (group p).2).
Proof.
  intros S Hp. assert (exists f, kMaxNodes = Datatypes.S (Datatypes.S f) /\ 5 < Z.of_nat f) as (f & -> & Hf) by (exists 3239%nat; cbv [kMaxNodes]; lia).
  destruct (group_range p Hp) as [G1 G2]. destruct (next_node p Hp) as (Nq & Gq & Mq). destruct (decide ((p - base cols) mod 4 = 0)) as [E|E].
  - rewrite cell_value_step, decide_True by (first [done|by left]). rewrite E, decide_False in Nq, Gq, Mq by done.
    rewrite cell_value_step, decide_False, Gq by (first [done|by right|rewrite Mq; done]). by rewrite cell_value_done by lia.
  - rewrite (cell_value_on h p) by (first [done|by left|by right|pose proof (Z.mod_pos_bound (4 - (p - base cols) mod 4) 4); lia]). by destruct (group p).
Qed.

(** The search on the rings that were built *)
Lemma solve_built board : zlen board = kCells ->
  answer hdrs nodes (cl h0) (others (base cols)) (fun p => (group p).1) (fun p => (group p).2) [] (mkSearch h0 [] board) (solve max_depth (mkSearch h0 [] board)).
Proof.
  intros L. eapply (solve_ok _ _ _ (nm h0)) with (ncells := kCells).
  - apply all_nodup.
  - apply all_small.
  - apply cl_hdrs.
  - apply row_in.
  - apply row_nodup.
  - apply row_perm.
  - apply cells_ok.
  - intros p Hp. by apply group_range.
  - unfold open_columns. rewrite filter_id by set_solver. unfold hdrs, headers. rewrite length_seqZ. cbv [max_depth]. zlia.
  - apply built_rep.
  - split; [set_solver|done].
Qed.

(** Columns by name *)
Definition colname (a : Z) : Z := cols !!! Z.to_nat (a - 1).
Definition coladdr (x : Z) : Z := default 0 (columns_ b !! x).
Lemma colname_node p : p ∈ nodes -> colname (cl h0 p) = node_name cols names p.
Proof.
  intros Hp%node_column. apply (bl_columns _ _ _ (br_built _ _ _ B)) in Hp as [_ Hp]. unfold colname. by rewrite list_lookup_total_alt, Hp.
Qed.
Lemma coladdr_colname a : a ∈ hdrs -> coladdr (colname a) = a.
Proof.
  intros Ha. unfold coladdr, colname. rewrite list_lookup_total_alt. apply elem_headers in Ha as Ra. unfold base, zlen in Ra.
  destruct (lookup_lt_is_Some_2 cols (Z.to_nat (a - 1))) as [x E]; [lia|]. rewrite E. cbn [default from_option id].
  by rewrite (proj2 (bl_columns _ _ _ (br_built _ _ _ B) x a)).
Qed.
Lemma map_coladdr l : (forall a, a ∈ l -> a ∈ hdrs) -> map coladdr (map colname l) = l.
Proof.
  induction l as [|a l IH]; intros H; [done|]. cbn [map]. rewrite coladdr_colname by (apply H; by left). f_equal. apply IH. intros; apply H; by right.
Qed.
Lemma map_colname : map colname hdrs = cols.
Proof.
  apply list_eq. intros k. rewrite list_lookup_fmap. unfold hdrs, headers. destruct (decide (k < length cols)%nat) as [Hk|Hk].
  - rewrite lookup_seqZ_lt by (unfold zlen; lia). cbn [fmap option_fmap option_map]. unfold colname. rewrite list_lookup_total_alt.
    replace (Z.to_nat (1 + Z.of_nat k - 1)) with k by lia. destruct (lookup_lt_is_Some_2 cols k Hk) as [x ->]. done.
  - rewrite lookup_seqZ_ge by (unfold zlen; lia). by rewrite lookup_ge_None_2 by lia.
Qed.
Lemma row_names p : p ∈ nodes -> Permutation (map colname (map (cl h0) (row p))) (names4 (group p)).
Proof.
  intros Hp. set (f := first_of (base cols) p). apply elem_made in Hp as Rp. pose proof (first_of_range (base cols) p ltac:(lia)) as Rf. fold f in Rf.
  assert (f ∈ row p) as Hf by (apply row_elem; [done|]; fold f; lia). rewrite <- (row_perm p f) by done. rewrite <- (group_row p f) by done.
  assert ((f - base cols) mod 4 = 0) as Mf.
  { unfold f, first_of. replace (_ - _) with ((p - base cols) / 4 * 4) by lia. apply Z.mod_mul. lia. }
  pose proof (others_four (base cols) f 0 Mf ltac:(lia)) as O. rewrite decide_True, Z.add_0_r in O by done.
  unfold row. rewrite O. assert (forall j, 0 <= j <= 3 -> names4 (group f) !! Z.to_nat j = Some (colname (cl h0 (f + j)))) as Nj.
  { intros j Hj. assert (f + j ∈ row f) as Hr by (apply row_elem; [by apply (row_in p)|]; rewrite (first_of_eq _ f) by lia; lia).
    assert (f + j ∈ nodes) as Hn by (apply (row_in f); [by apply (row_in p)|done]). rewrite colname_node by done.
    rewrite <- (node_name_group (f + j)) by done. rewrite (group_row f (f + j)) by (first [done|by apply (row_in p)]). do 2 f_equal.
    apply Z.mod_unique_pos with ((f - base cols) / 4); [lia|]. pose proof (Z.div_mod (f - base cols) 4). lia. }
  pose proof (Nj 0 ltac:(lia)) as N0. pose proof (Nj 1 ltac:(lia)) as N1. pose proof (Nj 2 ltac:(lia)) as N2. pose proof (Nj 3 ltac:(lia)) as N3.
  destruct (group f) as [i v]. rewrite Z.add_0_r in N0. cbn in N0, N1, N2, N3. cbn [map names4]. injection N0 as ->. injection N1 as ->. injection N2 as ->. injection N3 as ->. done.
Qed.
Lemma exact_names ns : (forall n, n ∈ ns -> n ∈ nodes) ->
  exact hdrs nodes (cl h0) (others (base cols)) [] ns <-> Permutation (names_of (map group ns)) cols.
Proof.
  intros Hn. assert (Permutation (map colname (columns_of (cl h0) (others (base cols)) ns)) (names_of (map group ns))) as E.
  { unfold columns_of, names_of. induction ns as [|n ns IH]; [done|]. cbn [map]. rewrite !bind_cons, map_app.
    apply Permutation_app; [apply row_names, Hn; by left|]. apply IH. intros; apply Hn; by right. }
  assert (open_columns hdrs [] = hdrs) as Eo by (unfold open_columns; apply filter_id; set_solver).
  unfold exact. rewrite Eo, <- E. split.
  - intros [_ P]. by rewrite P, map_colname.
  - intros P. split; [done|]. apply (Permutation_map coladdr) in P. assert (map coladdr cols = hdrs) as Ec by
      (transitivity (map coladdr (map colname hdrs)); [by rewrite map_colname|by apply map_coladdr]).
    rewrite Ec, map_coladdr in P; [done|]. intros a (n & (p & -> & Hp)%list_elem_of_fmap & Hr)%list_elem_of_bind.
    apply cl_hdrs. apply (row_in n); [by apply Hn|done].
Qed.
End Problem.

(** ** What a solution is *)

(** The cells of a row, a column or a box *)
Definition unit (f : Z -> Z) (k : Z) : list Z := filter (fun i => f i = k) (seqZ 0 kCells).
(** Every row, column and box has every digit once. *)
Definition solved (b : list Z) : Prop :=
  zlen b = kCells /\ forall f, f ∈ [row_of; col_of; box_of] -> forall k, 0 <= k < 9 -> Permutation (map (cell b) (unit f k)) (seqZ 1 9).
(** The solution keeps the digits of the puzzle. *)
Definition extends (board b : list Z) : Prop := forall i, 0 <= i < kCells -> cell board i <> 0 -> cell b i = cell board i.

Lemma unit_elem f k i : i ∈ unit f k <-> i ∈ seqZ 0 kCells /\ f i = k.
Proof. unfold unit. rewrite list_elem_of_filter. tauto. Qed.
Lemma unit_length f k : f ∈ [row_of; col_of; box_of] -> 0 <= k < 9 -> length (unit f k) = 9%nat.
Proof.
  intros Hf Hk. assert (k ∈ seqZ 0 9) as Hs by (apply elem_of_seqZ; lia).
  assert (forall g, Forall (fun k => length (unit g k) = 9%nat) (seqZ 0 9) -> length (unit g k) = 9%nat) as F
    by (intros g F; by apply (proj1 (Forall_forall _ _) F)).
  rewrite !elem_of_cons, elem_of_nil in Hf. destruct Hf as [-> | [-> | [-> | []]]]; apply F; apply (bool_decide_unpack _); vm_compute; exact Logic.I.
Qed.

(** A unit that has every digit has every digit once. *)
Lemma all_digits b f k : f ∈ [row_of; col_of; box_of] -> 0 <= k < 9 ->
  (forall v, 1 <= v <= 9 -> exists i, i ∈ seqZ 0 kCells /\ f i = k /\ cell b i = v) -> Permutation (map (cell b) (unit f k)) (seqZ 1 9).
Proof.
  intros Hf Hk H. symmetry. apply submseteq_length_Permutation.
  - apply NoDup_submseteq; [apply NoDup_seqZ|]. intros v Hv%elem_of_seqZ. destruct (H v) as (i & Hi & Fi & E); [lia|].
    apply list_elem_of_fmap. exists i. split; [done|]. by apply unit_elem.
  - rewrite length_map, unit_length, length_seqZ by done. done.
Qed.
Lemma solved_inj b f i j : solved b -> f ∈ [row_of; col_of; box_of] -> i ∈ seqZ 0 kCells -> j ∈ seqZ 0 kCells -> 0 <= f i < 9 ->
  f i = f j -> cell b i = cell b j -> i = j.
Proof.
  intros [_ S] Hf Hi Hj Hk E Ec. apply (nodup_map_inj (cell b) (unit f (f i))); [|by apply unit_elem..|done].
  rewrite S by done. apply NoDup_seqZ.
Qed.
Lemma solved_range b i : solved b -> i ∈ seqZ 0 kCells -> 1 <= cell b i <= 9.
Proof.
  intros [_ S] Hi. destruct (unit_range i Hi) as (U & _ & _). assert (cell b i ∈ seqZ 1 9) as H; [|apply elem_of_seqZ in H; lia].
  rewrite <- (S row_of ltac:(by left) _ U). apply list_elem_of_fmap. exists i. split; [done|]. by apply unit_elem.
Qed.

(** The board after the digits of some rows were filled in *)
Lemma filled_cells cellf valf ns board :
  NoDup (map cellf ns) -> (forall n, n ∈ ns -> 0 <= cellf n < zlen board) ->
  zlen (filled cellf valf ns board) = zlen board /\ (forall n, n ∈ ns -> cell (filled cellf valf ns board) (cellf n) = valf n) /\
  (forall i, 0 <= i -> i ∉ map cellf ns -> cell (filled cellf valf ns board) i = cell board i).
Proof.
  revert board. induction ns as [|n ns IH]; intros board N H; [split_and!; [done|set_solver|done]|].
  cbn [map] in N. apply NoDup_cons in N as [N1 N2]. pose proof (H n ltac:(by left)) as Hn.
  unfold filled. cbn [fold_left]. fold (filled cellf valf ns (<[Z.to_nat (cellf n) := valf n]> board)).
  assert (zlen (<[Z.to_nat (cellf n) := valf n]> board) = zlen board) as L by (unfold zlen; by rewrite length_insert).
  destruct (IH (<[Z.to_nat (cellf n) := valf n]> board)) as (L' & C & O); [done|intros m Hm; rewrite L; apply H; by right|].
  split_and!; [by rewrite L'| |].
  - intros m [-> | Hm]%elem_of_cons; [|by apply C]. rewrite O by (first [lia|done]). unfold cell.
    rewrite list_lookup_total_insert_eq; [done|]. unfold zlen in Hn. lia.
  - intros i Hi [Ni1 Ni2]%not_elem_of_cons. rewrite O by done. unfold cell. apply list_lookup_total_insert_ne. lia.
Qed.

(** ** Exact covers are solutions

    Rows, columns and boxes are alike: the kinds are numbered 1, 2 and 3. *)

Definition ufun (j : nat) : Z -> Z := match j with 1%nat => row_of | 2%nat => col_of | _ => box_of end.
Definition utab (j : nat) (t : tables) : gset (Z * Z) := match j with 1%nat => t.1.1 | 2%nat => t.1.2 | _ => t.2 end.
Definition uname (j : nat) (k v : Z) : Z := Z.of_nat j * 100 + k * 10 + v.
Definition kind (j : nat) : Prop := (1 <= j <= 3)%nat.

Lemma kind_cases (P : nat -> Prop) : P 1%nat -> P 2%nat -> P 3%nat -> forall j, kind j -> P j.
Proof. intros P1 P2 P3 j Hj. unfold kind in Hj. assert (j = 1 \/ j = 2 \/ j = 3)%nat as [-> | [-> | ->]] by lia; done. Qed.
Lemma ufun_range j i : kind j -> i ∈ seqZ 0 kCells -> 0 <= ufun j i < 9.
Proof. intros Hj Hi%unit_range. revert j Hj. apply kind_cases; cbn [ufun]; tauto. Qed.
Lemma kind_fun f : f ∈ [row_of; col_of; box_of] <-> exists j, kind j /\ f = ufun j.
Proof.
  rewrite !elem_of_cons, elem_of_nil. unfold kind. split.
  - intros [-> | [-> | [-> | []]]]; [exists 1%nat|exists 2%nat|exists 3%nat]; (split; [lia|done]).
  - intros (j & Hj & ->). revert j Hj. apply kind_cases; cbn [ufun]; tauto.
Qed.
Lemma kind_name j i v : kind j -> names4 (i, v) !! j = Some (uname j (ufun j i) v).
Proof. revert j. apply kind_cases; done. Qed.
Lemma uname_inj j j' k v k' v' : kind j -> kind j' -> 0 <= k < 9 -> 0 <= k' < 9 -> 1 <= v <= 9 -> 1 <= v' <= 9 ->
  uname j k v = uname j' k' v' -> j = j' /\ k = k' /\ v = v'.
Proof. unfold uname, kind. lia. Qed.
Lemma names4_elem i v x : x ∈ names4 (i, v) <-> x = i \/ exists j, kind j /\ x = uname j (ufun j i) v.
Proof.
  split.
  - intros ([|j] & Hj)%list_elem_of_lookup; [injection Hj as ->; by left|]. right. exists (S j).
    assert (kind (S j)) as K by (apply lookup_lt_Some in Hj; cbn in Hj; unfold kind; lia). split; [done|]. rewrite kind_name in Hj by done. congruence.
  - intros [-> | (j & K & ->)]; [by left|]. apply list_elem_of_lookup. exists j. by apply kind_name.
Qed.

Section Solutions.
Context (board : list Z) (t : tables).
Hypothesis good : good_board board.
Hypothesis marks : Marks board (seqZ 0 kCells) t.

Lemma mark_elem j k v : kind j -> (k, v) ∈ utab j t <-> exists i, i ∈ seqZ 0 kCells /\ ufun j i = k /\ cell board i = v.
Proof. revert j. apply kind_cases; cbn [utab ufun]; apply marks. Qed.
Lemma col_elem x : x ∈ cols_of board t <-> (x ∈ seqZ 0 kCells /\ cell board x = 0) \/
  exists j k v, kind j /\ 0 <= k < 9 /\ 1 <= v <= 9 /\ x = uname j k v /\ (k, v) ∉ utab j t.
Proof.
  rewrite cols_of_elem. f_equiv. setoid_rewrite elem_of_seqZ. split.
  - intros (k & v & Hk & Hv & [[-> H] | [[-> H] | [-> H]]]); [exists 1%nat|exists 2%nat|exists 3%nat]; exists k, v; unfold kind; split_and!; first [lia|done].
  - intros (j & k & v & Hj & Hk & Hv & -> & H). exists k, v. split; [lia|]. split; [lia|]. revert j Hj H.
    apply (kind_cases (fun j => (k, v) ∉ utab j t -> _)); cbn [utab]; intros H; [left|right; left|right; right]; (split; [done|done]).
Qed.
Lemma option_elem i v : (i, v) ∈ gs_of board t <-> i ∈ seqZ 0 kCells /\ cell board i = 0 /\ 1 <= v <= 9 /\ forall j, kind j -> (ufun j i, v) ∉ utab j t.
Proof.
  rewrite gs_of_elem, (elem_of_seqZ 1 9). split.
  - intros (Hi & E & Hv & H1 & H2 & H3). split_and!; [done|done|lia|lia|]. apply kind_cases; done.
  - intros (Hi & E & Hv & H). split_and!; [done|done|lia|lia|..]; [apply (H 1%nat)|apply (H 2%nat)|apply (H 3%nat)]; unfold kind; lia.
Qed.

(** Where the columns are in a set of options *)
Lemma cell_in G i : (forall g, g ∈ G -> g ∈ gs_of board t) -> i ∈ seqZ 0 kCells -> i ∈ names_of G <-> exists v, (i, v) ∈ G.
Proof.
  intros HG Hi. unfold names_of. rewrite list_elem_of_bind. split.
  - intros ([i' v] & [-> | (j & K & E)]%names4_elem & Hg); [by exists v|]. exfalso.
    apply HG, option_elem in Hg as (Hi' & _ & Hv & _). pose proof (ufun_range j i' K Hi'). rewrite elem_of_seqZ in Hi. unfold kCells, uname, kind in *. lia.
  - intros (v & Hg). exists (i, v). split; [by left|done].
Qed.
Lemma unit_in G j k v : (forall g, g ∈ G -> g ∈ gs_of board t) -> kind j -> 0 <= k < 9 -> 1 <= v <= 9 ->
  uname j k v ∈ names_of G <-> exists i, (i, v) ∈ G /\ ufun j i = k.
Proof.
  intros HG K Hk Hv. unfold names_of. rewrite list_elem_of_bind. split.
  - intros ([i v'] & [E | (j' & K' & E)]%names4_elem & Hg); pose proof (HG _ Hg) as (Hi & _ & Hv' & _)%option_elem.
    + rewrite elem_of_seqZ in Hi. unfold kCells, uname, kind in *. lia.
    + apply uname_inj in E as (Ej & Ek & Ev); [subst j' k v'; by exists i|done|done|done|by apply ufun_range|done|done].
  - intros (i & Hg & <-). exists (i, v). split; [apply names4_elem; right; by exists j|done].
Qed.

Lemma cols_nodup : NoDup (cols_of board t).
Proof. eapply sublist_NoDup; [exact all_columns_nodup|apply cols_sublist]. Qed.
Lemma names_nodup_cells G : NoDup (names_of G) -> NoDup (map fst G).
Proof.
  unfold names_of. induction G as [|[i v] G IH]; [constructor|]. rewrite bind_cons. intros (_ & N & NG)%NoDup_app. cbn [map fst].
  apply NoDup_cons. split; [|by apply IH]. intros ([i' v'] & E & Hg)%list_elem_of_fmap. cbn [fst] in E. subst i'.
  apply (N i); [by left|]. apply list_elem_of_bind. exists (i, v'). split; [by left|done].
Qed.

Lemma names4_nodup i v : i ∈ seqZ 0 kCells -> 1 <= v <= 9 -> NoDup (names4 (i, v)).
Proof.
  intros Hi Hv. destruct (unit_range i Hi) as (U1 & U2 & U3). apply elem_of_seqZ in Hi. unfold kCells in Hi. cbn [names4].
  repeat (apply NoDup_cons; split; [rewrite ?elem_of_cons, elem_of_nil; unfold get_row_col, get_col_col, get_box_col, kRow, kCol, kBox; lia|]).
  apply NoDup_nil_2.
Qed.
(** Options that differ in their cells, and in their values where they share a unit, meet different columns. *)
Lemma option_names_nodup G : (forall g, g ∈ G -> g ∈ gs_of board t) ->
  (forall i v i' v', (i, v) ∈ G -> (i', v') ∈ G -> forall j, kind j -> ufun j i = ufun j i' -> v = v' -> i = i') -> NoDup G ->
  (forall i v v', (i, v) ∈ G -> (i, v') ∈ G -> v = v') -> NoDup (names_of G).
Proof.
  intros HG Inj N F. apply NoDup_bind; [|intros [i v] (Hi & _ & Hv & _)%HG%option_elem; by apply names4_nodup|done].
  intros [i v] [i' v'] x Hg Hg'. pose proof (HG _ Hg) as (Hi & _ & Hv & _)%option_elem. pose proof (HG _ Hg') as (Hi' & _ & Hv' & _)%option_elem.
  pose proof (proj1 (elem_of_seqZ _ _ _) Hi) as Ri. pose proof (proj1 (elem_of_seqZ _ _ _) Hi') as Ri'. unfold kCells in Ri, Ri'.
  intros [-> | (j & K & ->)]%names4_elem [E | (j' & K' & E)]%names4_elem.
  - subst i'. by rewrite (F i v v').
  - pose proof (ufun_range j' i' K' Hi'). unfold uname, kind in *. lia.
  - pose proof (ufun_range j i K Hi). unfold uname, kind in *. lia.
  - apply uname_inj in E as (<- & Ek & <-); [|done|done|by apply ufun_range|by apply ufun_range|done|done].
    by rewrite (Inj i v i' v Hg Hg' j).
Qed.

(** An exact cover, filled in, solves the puzzle. *)
Lemma cover_solves ns (cellf valf : Z -> Z) (G := map (fun n => (cellf n, valf n)) ns) :
  (forall g, g ∈ G -> g ∈ gs_of board t) -> Permutation (names_of G) (cols_of board t) ->
  solved (filled cellf valf ns board) /\ extends board (filled cellf valf ns board).
Proof.
  intros HG P. assert (NoDup (map cellf ns)) as N.
  { replace (map cellf ns) with (map fst G) by (unfold G; by rewrite map_map). apply names_nodup_cells. rewrite P. apply cols_nodup. }
  assert (forall n, n ∈ ns -> (cellf n, valf n) ∈ G) as Gn by (intros n Hn; apply list_elem_of_fmap; by exists n).
  destruct good as [L R]. destruct (filled_cells cellf valf ns board N) as (L' & C & O).
  { intros n Hn. apply Gn, HG, option_elem in Hn as (Hi & _). apply elem_of_seqZ in Hi. lia. }
  set (b := filled cellf valf ns board) in *.
  assert (forall i v, (i, v) ∈ G -> cell b i = v) as Cg by (intros i v (n & [= -> ->] & Hn)%list_elem_of_fmap; by apply C).
  assert (forall i, i ∈ seqZ 0 kCells -> cell board i <> 0 -> cell b i = cell board i) as Og.
  { intros i Hi E. apply O; [apply elem_of_seqZ in Hi; lia|]. intros (n & -> & Hn)%list_elem_of_fmap. by apply Gn, HG, option_elem in Hn as (_ & ? & _). }
  split; [split; [by rewrite L'|]|intros i Hi; apply Og, elem_of_seqZ; lia].
  intros f Hf k Hk. apply all_digits; [done|done|]. apply kind_fun in Hf as (j & K & ->). intros v Hv.
  destruct (decide ((k, v) ∈ utab j t)) as [M|M].
  - apply mark_elem in M as (i & Hi & <- & E); [|done]. exists i. split_and!; [done|done|]. rewrite Og; [done|done|lia].
  - assert (uname j k v ∈ names_of G) as U by (rewrite P; apply col_elem; right; by exists j, k, v).
    apply unit_in in U as (i & Hg & <-); [|done..].
    exists i. split_and!; [by apply HG, option_elem in Hg as (? & _)|done|by apply Cg].
Qed.

(** A solution is an exact cover. *)
Lemma solution_covers b : solved b -> extends board b ->
  exists G, (forall g, g ∈ G -> g ∈ gs_of board t) /\ Permutation (names_of G) (cols_of board t).
Proof.
  intros S X. set (E := filter (fun i => cell board i = 0) (seqZ 0 kCells)).
  assert (forall i, i ∈ E <-> i ∈ seqZ 0 kCells /\ cell board i = 0) as HE by (intros i; unfold E; rewrite list_elem_of_filter; tauto).
  assert (forall j i i', kind j -> i ∈ seqZ 0 kCells -> i' ∈ seqZ 0 kCells -> ufun j i = ufun j i' -> cell b i = cell b i' -> i = i') as Inj.
  { intros j i i' K Hi Hi'. apply solved_inj; [done|apply kind_fun; by exists j|done|done|by apply ufun_range]. }
  assert (forall j i v, kind j -> i ∈ seqZ 0 kCells -> cell b i = v -> cell board i <> 0 -> (ufun j i, v) ∈ utab j t) as Mk.
  { intros j i v K Hi Ev Nz. apply mark_elem; [done|]. exists i. split_and!; [done|done|]. rewrite <- X; [done|apply elem_of_seqZ in Hi; lia|done]. }
  exists (map (fun i => (i, cell b i)) E).
  assert (forall g, g ∈ map (fun i => (i, cell b i)) E -> g ∈ gs_of board t) as HG.
  { intros g (i & -> & [Hi Ei]%HE)%list_elem_of_fmap. apply option_elem. split_and!; [done|done|by apply solved_range..|].
    intros j K (i' & Hi' & Ej & Ec)%mark_elem; [|done]. pose proof (solved_range b i S Hi).
    assert (i = i') as ->; [|lia]. apply (Inj j); [done..|]. rewrite (X i'); [done|apply elem_of_seqZ in Hi'; lia|lia]. }
  split; [done|]. apply NoDup_Permutation; [|apply cols_nodup|].
  - apply option_names_nodup; [done|..].
    + intros i v i' v' Hg Hg'. pose proof (HG _ Hg) as (Hi & _)%option_elem. pose proof (HG _ Hg') as (Hi' & _)%option_elem.
      apply list_elem_of_fmap in Hg as (? & [= <- ->] & _), Hg' as (? & [= <- ->] & _).
      intros j K Ej Ec. by apply (Inj j).
    + apply NoDup_fmap_2; [intros ? ? [= ->]; done|]. apply NoDup_filter, NoDup_seqZ.
    + intros i v v' (? & [= <- ->] & _)%list_elem_of_fmap (? & [= <- ->] & _)%list_elem_of_fmap. done.
  - intros x. split.
    + intros ([i v] & Hx & Hg)%list_elem_of_bind. apply (names4_cols board t i v); [by apply HG|done].
    + intros [[Hx Ex] | (j & k & v & K & Hk & Hv & -> & N)]%col_elem.
      * apply cell_in; [done|done|]. exists (cell b x). apply list_elem_of_fmap. exists x. split; [done|]. by apply HE.
      * apply unit_in; [done..|]. assert (v ∈ map (cell b) (unit (ufun j) k)) as (i & -> & [Hi <-]%unit_elem)%list_elem_of_fmap.
        { destruct S as [_ S]. rewrite S; [apply elem_of_seqZ; lia|apply kind_fun; by exists j|done]. }
        exists i. split; [|done]. apply list_elem_of_fmap. exists i. split; [done|]. apply HE. split; [done|].
        destruct (decide (cell board i = 0)); [done|]. exfalso. by apply N, Mk.
Qed.
End Solutions.

Lemma SudokuSolver_ok board : good_board board ->
  exists b t, Marks board (seqZ 0 kCells) t /\ BuiltRows b (cols_of board t) (gs_of board t) /\ SudokuSolver board = Ret (mkSearch (b_nodes b) [] board).
Proof.
  intros G. destruct start_built as (b0 & E0 & B0). destruct (mark_cells_ok board G) as (t & Et & M).
  destruct (columns_ok board t b0 B0) as (b1 & b2 & E1 & E2 & B2). destruct (rows_ok board t b2 B2) as (b & E3 & B).
  exists b, t. split_and!; [done|done|]. unfold SudokuSolver. rewrite E0. cbn [obind]. rewrite Et. cbn [obind]. rewrite E1. cbn [obind]. rewrite E2. cbn [obind].
  rewrite E3. done.
Qed.

Lemma group_exists cols gs g : g ∈ gs -> exists p, p ∈ made cols (names_of gs) /\ group cols gs p = g.
Proof.
  intros (k & Hk)%list_elem_of_lookup. exists (base cols + 4 * Z.of_nat k). apply lookup_lt_Some in Hk as L. split.
  - apply elem_made. rewrite length_names_of. unfold zlen. lia.
  - unfold group. replace (_ - _) with (Z.of_nat k * 4) by lia. rewrite Z.div_mul, Nat2Z.id, list_lookup_total_alt, Hk by lia. done.
Qed.
Lemma groups_exist cols gs G : (forall g, g ∈ G -> g ∈ gs) -> exists ns, (forall n, n ∈ ns -> n ∈ made cols (names_of gs)) /\ map (group cols gs) ns = G.
Proof.
  induction G as [|g G IH]; intros H; [exists []; split; [set_solver|done]|].
  destruct IH as (ns & Hn & <-); [intros; apply H; by right|]. destruct (group_exists cols gs g) as (p & Hp & <-); [apply H; by left|].
  exists (p :: ns). split; [intros n [-> | ?]%elem_of_cons; [done|by apply Hn]|done].
Qed.

(** The board is solved if it can be. *)
Lemma solve_board board : good_board board -> exists s,
  SudokuSolver board = Ret s /\
  ((exists s', solve max_depth s = Ret (true, s') /\ solved (inout_ s') /\ extends board (inout_ s')) \/
   (exists s', solve max_depth s = Ret (false, s') /\ forall b, solved b -> ~ extends board b)).
Proof.
  intros G. destruct (SudokuSolver_ok board G) as (b & t & M & B & E). rewrite E. eexists. split; [done|].
  assert (zlen (cols_of board t) <= 81 * 4) as Lc.
  { pose proof (sublist_length _ _ (cols_sublist board t)). pose proof all_columns_length. unfold zlen in *. lia. }
  assert (forall i v, (i, v) ∈ gs_of board t -> i ∈ seqZ 0 kCells /\ v ∈ seqZ 1 9) as Rg by (intros i v (? & _ & ? & _)%gs_of_elem; done).
  pose proof (solve_built b _ _ B Lc (gs_length board t) Rg board (proj1 G)) as [(ns & X & k & F) | [F X]].
  - left. eexists. split; [exact F|]. cbn [stack_ inout_ app]. destruct X as [Hn P].
    apply (cover_solves board t G M).
    + intros g (n & -> & Hg)%list_elem_of_fmap. rewrite <- surjective_pairing. by apply group_elem, Hn.
    + replace (map _ ns) with (map (group (cols_of board t) (gs_of board t)) ns) by (apply map_ext; intros; apply surjective_pairing).
      apply (exact_names b _ _ B Lc (gs_length board t) Rg); done.
  - right. eexists. split; [exact F|]. intros b' S Ex. destruct (solution_covers board t M b' S Ex) as (Gs & HG & P).
    destruct (groups_exist (cols_of board t) (gs_of board t) Gs HG) as (ns & Hn & <-). apply (X ns), (exact_names b _ _ B Lc (gs_length board t) Rg); done.
Qed.

(** ** [solveSudoku] *)

Definition print (b : list Z) : list byte := map (fun v => z2b (v + 48)) b.
(** A solution of a puzzle: its characters are digits, where 0 is an empty cell *)
Definition solution (puzzle : list byte) (b : list Z) : Prop :=
  Forall (fun c => 0 <= digit c <= 9) puzzle /\ solved b /\ extends (map digit puzzle) b.

Lemma cell_digits puzzle i : zlen puzzle = kCells -> 0 <= i < kCells -> exists c, c ∈ puzzle /\ cell (map digit puzzle) i = digit c.
Proof.
  intros L Hi. destruct (lookup_lt_is_Some_2 puzzle (Z.to_nat i)) as [c E]; [unfold zlen in L; lia|]. exists c. split; [by apply list_elem_of_lookup_2 in E|].
  unfold cell. by rewrite list_lookup_total_alt, list_lookup_fmap, E.
Qed.

(** The two cases of [solveSudoku] *)
Lemma solveSudoku_ok puzzle : zlen puzzle = kCells ->
  exists r, solveSudoku puzzle = Ret r /\
    ((exists b, solution puzzle b /\ r = print b) \/ (r = kNoSolution /\ forall b, ~ solution puzzle b)).
Proof.
  intros L. unfold solveSudoku. rewrite bool_decide_true by done. cbn [check].
  destruct (forallb _ _) eqn:V.
  - assert (Forall (fun c => 0 <= digit c <= 9) puzzle) as D.
    { apply Forall_forall. intros c Hc. apply (bool_decide_unpack _), Is_true_true. apply (proj1 (forallb_forall _ _) V (digit c)).
      apply list_elem_of_In, list_elem_of_fmap. by exists c. }
    assert (good_board (map digit puzzle)) as G.
    { split; [unfold zlen; by rewrite length_map|]. intros i Hi. destruct (cell_digits puzzle i L Hi) as (c & Hc & ->).
      by apply (proj1 (Forall_forall _ _) D). }
    destruct (solve_board _ G) as (s & E & [(s' & F & S & X) | (s' & F & X)]); rewrite E; cbn [obind]; rewrite F; cbn [obind].
    + eexists. split; [done|]. left. exists (inout_ s'). done.
    + eexists. split; [done|]. right. split; [done|]. intros b (_ & S & Ex). by apply (X b).
  - eexists. split; [done|]. right. split; [done|]. intros b (D & _). apply not_true_iff_false in V. apply V, forallb_forall.
    intros v (c & -> & Hc)%list_elem_of_In%list_elem_of_fmap. apply bool_decide_eq_true. by apply (proj1 (Forall_forall _ _) D).
Qed.

(** C5. [solveSudoku] returns for every puzzle of 81 characters, without a failed
    assertion or an access outside the arrays: it prints a solution, in which every row,
    column and box has every digit once and the digits of the puzzle are kept, or [NoSolution] if there is none. *)
Theorem solveSudoku_correct puzzle : zlen puzzle = kCells ->
  exists r, solveSudoku puzzle = Ret r /\
    ((exists b, solution puzzle b /\ r = print b) \/ (r = kNoSolution /\ forall b, ~ solution puzzle b)).
Proof. apply solveSudoku_ok. Qed.

(** A puzzle that is solved, and one that has a digit twice in a row *)
Lemma solveSudoku_correct_witness :
  (exists b, solution (bytes "000000010400000000020000000000050407008000300001090000300400200050100000000806000") b /\
    solveSudoku (bytes "000000010400000000020000000000050407008000300001090000300400200050100000000806000") = Ret (print b)) /\
  solveSudoku (bytes "110000000000000000000000000000000000000000000000000000000000000000000000000000000") = Ret kNoSolution.
Proof.
  split; [|vm_compute; reflexivity].
  destruct (solveSudoku_correct (bytes "000000010400000000020000000000050407008000300001090000300400200050100000000806000"))
    as (r & E & [(b & S & Er) | [Er _]]).
  - vm_compute. reflexivity.
  - exists b. split; [exact S|]. rewrite <- Er. exact E.
  - exfalso. rewrite Er in E. vm_compute in E. discriminate E.
Defined.
