(* ===== verification/Lines.v ===== *)
(** * Lines in buffers

    What [Buffer::findCRLF] finds when a buffer holds a line, or only a part of one, and
    what a prefix of a sequence of messages looks like. The protocols of the examples are read with these lemmas. *)

From S2P Require Import Prelude StringPiece Buffer Http.

Definition CR : byte := Byte.x0d.

Lemma take_line b line rest : wf b -> content b = line ++ kCRLF ++ rest -> CR ∉ line ->
  exists crlf b', findCRLF b = Some crlf /\ crlf - peek b = zlen line /\ retrieveUntil (crlf + 2) b = Ret b' /\ wf b' /\ content b' = rest /\
    zlen (buffer_ b') = zlen (buffer_ b) /\ exists q, zdrop (peek b) (buffer_ b) = line ++ CR :: q.
Proof.
  intros W C N. pose proof (Http.split_line_CR line rest N) as Sp. apply Http.split_line_spec in Sp as [_ F]. rewrite <- C in F.
  pose proof (content_len b W) as L. rewrite readable_ok in L by done. pose proof (f_equal zlen C) as Lc. assert (zlen kCRLF = 2) as Lk by done.
  rewrite !zlen_app, Lk in Lc. pose proof (zlen_nonneg rest). pose proof (zlen_nonneg line).
  destruct (retrieveUntil_ok (peek b + zlen line + 2) b W) as (b' & R & W' & C' & S'); [unfold peek, beginWrite; lia|].
  exists (peek b + zlen line), b'. split_and!; [|lia|done|done| |done|].
  - unfold findCRLF. rewrite region_content, <- F. unfold peek, beginWrite. rewrite decide_False by lia. done.
  - rewrite C'. replace (_ - _) with (zlen (line ++ kCRLF)) by (rewrite zlen_app, Lk; lia). rewrite C, app_assoc, zdrop_app_r, Z.sub_diag by lia. by apply zdrop_0.
  - destruct (zdrop_peek b W) as (q & E). exists (Byte.x0a :: rest ++ q). rewrite E, C, <- !app_assoc. done.
Qed.
(** A part of a line has no end of line. *)
Lemma split_line_none q line : q `prefix_of` line ++ [CR] -> CR ∉ line -> Http.split_line q = None.
Proof.
  intros [k P] N. destruct (Http.split_line q) as [[l r]|] eqn:E; [exfalso|done].
  apply Http.split_line_spec in E as [E _]. rewrite E, <- !app_assoc in P. unfold kCRLF in P. cbn [app] in P.
  destruct k as [|x k _] using rev_ind.
  - rewrite app_nil_r in P. destruct r as [|y r _] using rev_ind.
    + assert (line ++ [CR] = (l ++ [CR]) ++ [Byte.x0a]) as P' by (by rewrite P, <- app_assoc). apply app_inj_tail in P' as [_ P']. done.
    + assert (line ++ [CR] = (l ++ Byte.x0d :: Byte.x0a :: r) ++ [y]) as P' by (by rewrite P, <- app_assoc). apply app_inj_tail in P' as [P' _].
      apply N. rewrite P'. set_solver.
  - assert (line ++ [CR] = (l ++ Byte.x0d :: Byte.x0a :: r ++ k) ++ [x]) as P' by (rewrite P, <- app_assoc; cbn [app]; by rewrite <- app_assoc).
    apply app_inj_tail in P' as [P' _]. apply N. rewrite P'. set_solver.
Qed.
Lemma no_line b q line : wf b -> content b = q -> q `prefix_of` line ++ [CR] -> CR ∉ line -> findCRLF b = None.
Proof. intros W C P N. pose proof (Http.line_ops b W) as L. by rewrite C, (split_line_none q line) in L. Qed.
Lemma search_line line rest : CR ∉ line -> std_search kCRLF (line ++ kCRLF ++ rest) = zlen line.
Proof. intros N. pose proof (Http.split_line_CR line rest N) as Sp. apply Http.split_line_spec in Sp as [_ F]. done. Qed.
Lemma search_none q line : q `prefix_of` line ++ [CR] -> CR ∉ line -> std_search kCRLF q = zlen q.
Proof. intros P N. pose proof (split_line_none q line P N) as E. unfold Http.split_line in E. by case_decide. Qed.

(** Parts of the contents by their addresses *)
Lemma content_slice b i j : wf b -> 0 <= i <= j -> j <= zlen (content b) -> slice (buffer_ b) (peek b + i) (peek b + j) = slice (content b) i j.
Proof.
  intros W H1 H2. pose proof (content_len b W) as L. rewrite readable_ok in L by done. unfold content. destruct W as (W1 & W2 & W3). rewrite slice_slice by lia. done.
Qed.
Lemma content_region b i : wf b -> 0 <= i <= zlen (content b) -> region (peek b + i) b = zdrop i (content b).
Proof.
  intros W H. pose proof (content_len b W) as L. rewrite readable_ok in L by done. unfold region, content, peek. destruct W as (W1 & W2 & W3). rewrite zdrop_slice by lia. done.
Qed.

(** A prefix of two texts in a row *)
Lemma prefix_split (q more a b : list byte) : q ++ more = a ++ b -> zlen a <= zlen q -> exists q2, q = a ++ q2 /\ q2 ++ more = b.
Proof.
  intros E L. zlen_pos. exists (zdrop (zlen a) q). assert (ztake (zlen a) q = a) as Et.
  { pose proof (f_equal (ztake (zlen a)) E) as Ez. rewrite ztake_app_l in Ez by lia. rewrite Ez, ztake_app_l, ztake_all by lia. done. }
  assert (q = a ++ zdrop (zlen a) q) as Eq by (by rewrite <- Et at 1; rewrite ztake_zdrop). split; [done|].
  rewrite Eq, <- app_assoc in E. by apply app_inv_head in E.
Qed.
Lemma prefix_short (q more a b : list byte) : q ++ more = a ++ b -> zlen q <= zlen a -> q `prefix_of` a.
Proof.
  intros E L. zlen_pos. exists (zdrop (zlen q) a). pose proof (f_equal (ztake (zlen q)) E) as Ez.
  rewrite !ztake_app_l, (ztake_all _ q) in Ez by lia. by rewrite Ez at 1; rewrite ztake_zdrop.
Qed.
