(* ===== verification/Conn.v ===== *)
(** * Connections as applications use them (src/muduo/muduo/net/TcpConnection.cc)

    For an application a connection is what it has sent and whether it is [kConnected]. That what
    is sent goes out in order is shown of [TcpConnection] itself in TcpConnection.v. A string goes through a [StringPiece], whose length
    is an [int]: [conn_send] of a longer one reads past its end ([conn_send_long]). *)

From S2P Require Import Prelude StringPiece Buffer.

(** Connections and topics are found by their names. *)
#[export] Instance byte_countable : Countable byte := inj_countable' b2z z2b z2b_b2z.

Record Conn := mkConn { sent_ : list byte; connected_ : bool }.
Definition newConn : Conn := mkConn [] true.

(** What [sendInLoop] is given, on the thread of the loop: the bytes of [send(const void*, int)] with a length that is an
    [int] of the caller, of [send(Buffer* )] with its [size_t], or of a literal *)
Definition conn_write (d : list byte) (c : Conn) : Conn := if connected_ c then mkConn (sent_ c ++ d) true else c.
(** [send(const StringPiece&)] of a [string], whose length becomes an [int] on the way and a [size_t] again *)
Definition conn_send (message : list byte) (c : Conn) : outcome Conn :=
  if connected_ c then
    let piece := sp_of_string message in
    let* d := load (u64 (sp_size piece)) (sp_data piece) in
    Ret (conn_write d c)
  else Ret c.
(** The same by another thread: if the connection is up, a copy is left to [sendInLoop] on the thread of the loop, which does not look whether [shutdown] was called in between. *)
Definition conn_post (message : list byte) (c : Conn) : outcome (option (list byte)) :=
  if connected_ c then let* d := as_string (sp_of_string message) in Ret (Some d) else Ret None.
Definition conn_sendInLoop (d : list byte) (c : Conn) : Conn := mkConn (sent_ c ++ d) (connected_ c).
(** [shutdown]; a closed connection *)
Definition conn_shutdown (c : Conn) : Conn := mkConn (sent_ c) false.
(** [send(Buffer* )] takes the contents of the buffer if the connection is up. *)
Definition conn_send_buffer (buf : Buffer) (c : Conn) : Conn * Buffer :=
  if connected_ c then (conn_write (content buf) c, retrieveAll buf) else (c, buf).

(** The most bytes that one [readv] transfers on Linux, so that what is read at once can be sent at once *)
Definition max_read : Z := 2147479552.

(** A string whose length is an [int] is sent as it is; of a longer one the length is wrong. *)
Lemma conn_send_ok d c : zlen d < 2 ^ 31 -> conn_send d c = Ret (conn_write d c).
Proof.
  intros L. pose proof (zlen_nonneg d). unfold conn_send. destruct (connected_ c) eqn:U; [|unfold conn_write; by rewrite U]. cbn [sp_of_string sp_size sp_data length_ ptr_].
  rewrite swrap_small by lia. rewrite wrap_small by lia. rewrite load_ok by lia. cbn [obind]. by rewrite ztake_all by lia.
Qed.
Lemma conn_post_ok d c : zlen d < 2 ^ 31 -> conn_post d c = Ret (if connected_ c then Some d else None).
Proof.
  intros L. pose proof (zlen_nonneg d). unfold conn_post. destruct (connected_ c); [|done]. assert (i32 (zlen d) = zlen d) as E by (apply swrap_small; lia).
  rewrite as_string_ok by (unfold sp_wf, sp_of_string; cbn [ptr_ length_]; rewrite E; lia). cbn [obind]. unfold sp_chars, sp_of_string. cbn [ptr_ length_]. by rewrite E, ztake_all by lia.
Qed.
Lemma conn_send_long d c : 2 ^ 31 <= zlen d < 2 ^ 32 -> connected_ c = true -> conn_send d c = Stop OutOfRange.
Proof.
  intros L U. unfold conn_send. rewrite U. cbn [sp_of_string sp_size sp_data length_ ptr_]. assert (i32 (zlen d) = zlen d - 2 ^ 32) as ->.
  { unfold swrap. replace (zlen d + 2 ^ (32 - 1)) with (zlen d - 2 ^ 31 + 1 * 2 ^ 32) by lia. rewrite Z_mod_plus_full, Z.mod_small by lia. lia. }
  unfold load. rewrite decide_False; [done|]. unfold wrap. replace (zlen d - 2 ^ 32) with (zlen d - 2 ^ 32 + 2 ^ 64 + (-1) * 2 ^ 64) by lia. rewrite Z_mod_plus_full, Z.mod_small by lia. lia.
Qed.

(** A handler that takes all there is leaves the buffer empty. *)
Lemma retrieveAllAsString_ok b : wf b -> exists b', retrieveAllAsString b = Ret (content b, b') /\ wf b' /\ content b' = [] /\ zlen (buffer_ b') = zlen (buffer_ b).
Proof.
  intros W. pose proof (content_len b W) as L. pose proof (zlen_nonneg (content b)). unfold retrieveAllAsString, retrieveAsString. rewrite check_true by (apply bool_decide_eq_true; lia).
  destruct (zdrop_peek b W) as (q & ->). rewrite load_ok by (rewrite zlen_app; pose proof (zlen_nonneg q); lia). cbn [obind]. rewrite <- L, ztake_app_l, ztake_all by lia.
  destruct (retrieve_ok (zlen (content b)) b W) as (b' & -> & W' & C' & S'); [lia|]. cbn [obind]. exists b'. rewrite C', zdrop_all by lia. done.
Qed.

(** Changing the state of a connection that is there *)
Lemma alter_is_insert `{Countable K} {A} (f : A -> A) (c : K) (x : A) (m : gmap K A) : m !! c = Some x -> alter f c m = <[c := f x]> m.
Proof. intros E. apply map_eq. intros j. destruct (decide (j = c)) as [->|N]; [by rewrite lookup_alter_eq, lookup_insert_eq, E|by rewrite lookup_alter_ne, lookup_insert_ne]. Qed.
