(* ===== verification/MemcacheStore.v ===== *)
(** * The store of the memcached server (src/muduo/examples/memcached/server/)

    [Item] (Item.h, Item.cc) is a key and a value in one piece of memory that is filled
    as the value arrives; [MemcacheServer] (MemcacheServer.h, .cc) keeps the items in shards by the
    hash of their keys. The file shows that the shards implement one map from keys to values. *)

From S2P Require Import Prelude Format StringPiece LogStream Buffer Conn.

(** ** Items *)

(** [data_] is the memory that [malloc] gave. *)
Record Item := mkItem {
  keylen_ : Z; flags_ : Z; rel_exptime_ : Z; valuelen_ : Z; receivedBytes_ : Z; cas_ : Z; hash_ : Z; item_data_ : list byte }.
Definition set_received n it := mkItem (keylen_ it) (flags_ it) (rel_exptime_ it) (valuelen_ it) n (cas_ it) (hash_ it) (item_data_ it).
Definition set_data d it := mkItem (keylen_ it) (flags_ it) (rel_exptime_ it) (valuelen_ it) (receivedBytes_ it) (cas_ it) (hash_ it) d.
Definition setCas c it := mkItem (keylen_ it) (flags_ it) (rel_exptime_ it) (valuelen_ it) (receivedBytes_ it) c (hash_ it) (item_data_ it).
Definition set_key n h it := mkItem n (flags_ it) (rel_exptime_ it) (valuelen_ it) (receivedBytes_ it) (cas_ it) h (item_data_ it).

Inductive UpdatePolicy := kInvalid | kSet | kAdd | kReplace | kAppend | kPrepend | kCas.
#[export] Instance UpdatePolicy_eq_dec : EqDecision UpdatePolicy.
Proof. solve_decision. Defined.

Definition totalLen (it : Item) : Z := i32 (keylen_ it + valuelen_ it).
Definition neededBytes (it : Item) : Z := u64 (totalLen it - receivedBytes_ it).
Definition item_key (it : Item) : StringPiece := sp_of_ptr (item_data_ it) (keylen_ it).
Definition item_value (it : Item) : list byte := zdrop (keylen_ it) (item_data_ it).
Definition valueLength (it : Item) : Z := u64 (valuelen_ it).

Definition item_append (data : list byte) (len : Z) (it : Item) : outcome Item :=
  assert* bool_decide (len <= neededBytes it) in
  let* d := load len data in
  let* mem := store (receivedBytes_ it) d (item_data_ it) in
  let it := set_received (i32 (receivedBytes_ it + i32 len)) (set_data mem it) in
  assert* bool_decide (receivedBytes_ it <= totalLen it) in
  Ret it.

Definition endsWithCRLF (it : Item) : outcome bool :=
  if decide (receivedBytes_ it = totalLen it) then
    let* a := sp_at (sp_of_ptr (item_data_ it) 0) (totalLen it - 2) in
    if decide (a = Byte.x0d) then
      let* b := sp_at (sp_of_ptr (item_data_ it) 0) (totalLen it - 1) in
      Ret (bool_decide (b = Byte.x0a))
    else Ret false
  else Ret false.

Section Store.
(** [boost::hash_range] *)
Context (hash : list byte -> Z).

Definition hash_range (key : StringPiece) : outcome Z := omap (fun k => u64 (hash k)) (as_string key).

Definition makeItem (key : StringPiece) (flags exptime valuelen cas : Z) : outcome Item :=
  let* h := hash_range key in
  let total := i32 (sp_size key + valuelen) in
  let it := mkItem (sp_size key) flags exptime valuelen 0 cas h (replicate (Z.to_nat total) Byte.x00) in
  assert* bool_decide (2 <= valuelen) in
  assert* bool_decide (0 < totalLen it) in
  item_append (sp_data key) (u64 (keylen_ it)) it.

Definition resetKey (k : StringPiece) (it : Item) : outcome Item :=
  assert* bool_decide (sp_size k <= 250) in
  let* it := item_append (sp_data k) (u64 (sp_size k)) (set_received 0 (set_key (sp_size k) (hash_ it) it)) in
  let* h := hash_range k in
  Ret (set_key (keylen_ it) h it).

(** The stream on the stack that [output] formats its line with *)
Definition stack_stream : LogStream := FixedBuf.new (replicate (Z.to_nat kSmallBuffer) Byte.x00).
Definition output (out : Buffer) (needCas : bool) (it : Item) : outcome Buffer :=
  let* out := append_string (bytes "VALUE ") out in
  let* out := append (item_data_ it) (u64 (keylen_ it)) out in
  let* buf := put_char Byte.x20 stack_stream in
  let* buf := formatInteger (flags_ it) buf in
  let* buf := put_char Byte.x20 buf in
  let* buf := formatInteger (i32 (valuelen_ it - 2)) buf in
  let* buf := (if needCas then
    let* buf := put_char Byte.x20 buf in
    formatInteger (cas_ it) buf
  else Ret buf) in
  let* buf := put_cstr (Some (kCRLF ++ [Byte.x00])) buf in
  let* out := append (data_ buf) (u64 (FixedBuf.length buf)) out in
  append (item_value it) (u64 (valuelen_ it)) out.

(** ** The server *)

(** [boost::unordered_set<ConstItemPtr, Hash, Equal>]: items by their keys *)
Abbreviation ItemMap := (gmap (list byte) Item).
(** [shards_], the counter [g_cas], [startTime_], and whether [stop()] was called *)
Record Server := mkServer { shards_ : gmap Z ItemMap; g_cas : Z; startTime_ : Z; stopping_ : bool }.

Definition kShards : Z := 4096.
Definition shard (h : Z) (s : Server) : ItemMap := default ∅ (shards_ s !! (h mod kShards)).
Definition set_shard (h : Z) (items : ItemMap) (s : Server) : Server :=
  mkServer (<[h mod kShards := items]> (shards_ s)) (g_cas s) (startTime_ s) (stopping_ s).
Definition key_of (it : Item) : outcome (list byte) := as_string (item_key it).
(** [insert] leaves an equal element as it is. *)
Definition items_insert (k : list byte) (it : Item) (items : ItemMap) : ItemMap :=
  match items !! k with Some _ => items | None => <[k := it]> items end.
Definition incrementAndGet (s : Server) : Z * Server :=
  let n := i64 (g_cas s + 1) in (n, mkServer (shards_ s) n (startTime_ s) (stopping_ s)).

Definition storeItem (it : Item) (policy : UpdatePolicy) (s : Server) : outcome (bool * bool * Server) :=
  assert* bool_decide (neededBytes it = 0) in
  let* k := key_of it in
  let items := shard (hash_ it) s in
  let found := items !! k in
  let exists_ := bool_decide (is_Some found) in
  match policy with
  | kSet =>
      let (c, s) := incrementAndGet s in
      let items := if exists_ then delete k items else items in
      Ret (true, exists_, set_shard (hash_ it) (items_insert k (setCas (u64 c) it) items) s)
  | kAdd =>
      match found with
      | Some _ => Ret (false, exists_, s)
      | None =>
          let (c, s) := incrementAndGet s in
          Ret (true, exists_, set_shard (hash_ it) (items_insert k (setCas (u64 c) it) items) s)
      end
  | kReplace =>
      match found with
      | Some _ =>
          let (c, s) := incrementAndGet s in
          Ret (true, exists_, set_shard (hash_ it) (items_insert k (setCas (u64 c) it) (delete k items)) s)
      | None => Ret (false, exists_, s)
      end
  | kAppend | kPrepend =>
      match found with
      | Some old =>
          let newLen := i32 (u64 (valueLength it + valueLength old - 2)) in
          let (c, s) := incrementAndGet s in
          let* new := makeItem (item_key it) (flags_ old) (rel_exptime_ old) newLen (u64 c) in
          let* new :=
            (if decide (policy = kAppend) then
               let* new := item_append (item_value old) (u64 (valueLength old - 2)) new in
               item_append (item_value it) (valueLength it) new
             else
               let* new := item_append (item_value it) (u64 (valueLength it - 2)) new in
               item_append (item_value old) (valueLength old) new) in
          assert* bool_decide (neededBytes new = 0) in
          let* e := endsWithCRLF new in
          assert* e in
          Ret (true, exists_, set_shard (hash_ it) (items_insert k new (delete k items)) s)
      | None => Ret (false, exists_, s)
      end
  | kCas =>
      match found with
      | Some old =>
          if decide (cas_ old = cas_ it) then
            let (c, s) := incrementAndGet s in
            Ret (true, exists_, set_shard (hash_ it) (items_insert k (setCas (u64 c) it) (delete k items)) s)
          else Ret (false, exists_, s)
      | None => Ret (false, exists_, s)
      end
  | kInvalid => Stop AssertFailed
  end.

Definition getItem (key : Item) (s : Server) : outcome (option Item) :=
  let* k := key_of key in
  Ret (shard (hash_ key) s !! k).

Definition deleteItem (key : Item) (s : Server) : outcome (bool * Server) :=
  let* k := key_of key in
  let items := shard (hash_ key) s in
  Ret (bool_decide (is_Some (items !! k)), set_shard (hash_ key) (delete k items) s).

Definition stop (s : Server) : Server := mkServer (shards_ s) (g_cas s) (startTime_ s) true.

(** ** Items and what they hold *)

(** An item for a value of [n] bytes with its end of line, of which [got] have come *)
Definition partial (k : list byte) (f e n c : Z) (got : list byte) : Item :=
  mkItem (zlen k) f e n (zlen k + zlen got) c (u64 (hash k)) (k ++ got ++ replicate (Z.to_nat (n - zlen got)) Byte.x00).

Record Entry := mkEntry { e_flags : Z; e_exptime : Z; e_value : list byte; e_cas : Z }.
Definition item_of (k : list byte) (e : Entry) : Item :=
  partial k (e_flags e) (e_exptime e) (zlen (e_value e) + 2) (e_cas e) (e_value e ++ kCRLF).

Lemma partial_lengths k f e n c got : 0 <= n -> zlen k + n < 2 ^ 31 -> zlen got <= n ->
  totalLen (partial k f e n c got) = zlen k + n /\ neededBytes (partial k f e n c got) = n - zlen got /\
  zlen (item_data_ (partial k f e n c got)) = zlen k + n.
Proof.
  intros. zlen_pos. unfold neededBytes, totalLen, partial. cbn [keylen_ valuelen_ receivedBytes_ item_data_].
  rewrite swrap_small, wrap_small, !zlen_app, zlen_replicate by lia. lia.
Qed.
Lemma item_append_ok k f e n c got data len :
  0 <= n -> zlen k + n < 2 ^ 31 -> 0 <= len <= zlen data -> zlen got + len <= n ->
  item_append data len (partial k f e n c got) = Ret (partial k f e n c (got ++ ztake len data)).
Proof.
  intros Hn Hk Hl Hg. zlen_pos. destruct (partial_lengths k f e n c got) as (T & N & D); [lia..|].
  unfold item_append. rewrite N, bool_decide_true by lia. cbn [check]. rewrite load_ok by lia. cbn [obind].
  rewrite store_ok by (rewrite ?D, ?zlen_ztake by lia; unfold partial; cbn [receivedBytes_]; lia). cbn [obind].
  unfold totalLen, set_received, set_data. set (R := partial k f e n c (got ++ _)). unfold partial. cbn [keylen_ flags_ rel_exptime_ valuelen_ receivedBytes_ cas_ hash_ item_data_].
  rewrite (swrap_small 32 len), !swrap_small by lia. rewrite bool_decide_true by lia. cbn [check].
  unfold R, partial. rewrite zlen_app, zlen_ztake by lia. do 2 f_equal; [lia|].
  rewrite (app_assoc k got). replace (Z.to_nat (n - zlen got)) with (Z.to_nat len + Z.to_nat (n - (zlen got + len)))%nat by lia.
  rewrite replicate_add, overwrite_app; [by rewrite <- !app_assoc|zlia|]. rewrite zlen_ztake by lia. by rewrite zlen_replicate by lia.
Qed.

(** A key as the code has it *)
Definition key_piece (p : StringPiece) (k : list byte) : Prop := sp_wf p /\ sp_chars p = k.
Lemma key_piece_len p k : key_piece p k -> sp_size p = zlen k /\ zlen k < 2 ^ 31 /\ zlen k <= zlen (sp_data p) /\ ztake (zlen k) (sp_data p) = k.
Proof. intros [W <-]. pose proof (sp_chars_len p W) as L. rewrite L. destruct W as [[] ?]. done. Qed.
Lemma hash_range_ok p k : key_piece p k -> hash_range p = Ret (u64 (hash k)).
Proof. intros [W <-]. unfold hash_range. by rewrite as_string_ok. Qed.
Lemma makeItem_ok p k f e n c :
  key_piece p k -> 2 <= n -> zlen k + n < 2 ^ 31 -> makeItem p f e n c = Ret (partial k f e n c []).
Proof.
  intros P Hn Hk. destruct (key_piece_len p k P) as (L & _ & D & T). unfold makeItem. rewrite (hash_range_ok p k P). cbn [obind].
  zlen_pos. rewrite bool_decide_true by lia. cbn [check]. unfold totalLen. cbn [keylen_ valuelen_]. rewrite L, swrap_small by lia. rewrite bool_decide_true by lia. cbn [check].
  unfold item_append, neededBytes, totalLen. cbn [keylen_ flags_ rel_exptime_ valuelen_ receivedBytes_ cas_ hash_ item_data_].
  rewrite (swrap_small 32 (zlen k + n)), (wrap_small 64 (zlen k)), wrap_small by lia. rewrite bool_decide_true by lia. cbn [check].
  rewrite load_ok, T by lia. cbn [obind]. rewrite store_ok by (rewrite ?zlen_replicate; lia). cbn [obind].
  unfold set_received, set_data. cbn [keylen_ flags_ rel_exptime_ valuelen_ receivedBytes_ cas_ hash_ item_data_].
  rewrite (swrap_small 32 (zlen k)), !swrap_small by lia. rewrite bool_decide_true by lia. cbn [check]. unfold partial. do 2 f_equal; [unfold zlen; cbn [length]; lia|].
  replace (Z.to_nat (zlen k + n)) with (Z.to_nat (zlen k) + Z.to_nat (n - zlen (@nil byte)))%nat by (unfold zlen; cbn [length]; lia).
  rewrite replicate_add. apply (overwrite_app [] _ _ k); [done|]. by rewrite zlen_replicate by lia.
Qed.

Lemma item_key_ok k f e n c got : 0 <= n -> zlen k + n < 2 ^ 31 -> zlen got <= n -> key_piece (item_key (partial k f e n c got)) k.
Proof.
  intros. zlen_pos. unfold item_key, partial. cbn [item_data_ keylen_]. split.
  - unfold sp_wf, sp_of_ptr. cbn [ptr_ StringPiece.length_]. rewrite !zlen_app, zlen_replicate by lia. lia.
  - unfold sp_chars, sp_of_ptr. cbn [ptr_ StringPiece.length_]. rewrite ztake_app_l by lia. by apply ztake_all.
Qed.
Lemma key_of_ok k f e n c got : 0 <= n -> zlen k + n < 2 ^ 31 -> zlen got <= n -> key_of (partial k f e n c got) = Ret k.
Proof. intros. destruct (item_key_ok k f e n c got) as [W C]; [lia..|]. unfold key_of. by rewrite as_string_ok, C. Qed.
Lemma item_value_ok k f e n c got : zlen got = n -> item_value (partial k f e n c got) = got.
Proof.
  intros <-. unfold item_value, partial. cbn [keylen_ item_data_]. rewrite zdrop_app_r, Z.sub_diag, zdrop_0 by lia.
  rewrite Z.sub_diag. by rewrite app_nil_r.
Qed.
Lemma endsWithCRLF_ok k f e n c v x y : zlen v + 2 = n -> zlen k + n < 2 ^ 31 ->
  endsWithCRLF (partial k f e n c (v ++ [x; y])) = Ret (bool_decide ([x; y] = kCRLF)).
Proof.
  intros Hn Hk. zlen_pos. destruct (partial_lengths k f e n c (v ++ [x; y])) as (T & _ & _); [lia|lia|rewrite zlen_app; unfold zlen at 2; cbn [length]; lia|].
  unfold endsWithCRLF. rewrite T. unfold partial. cbn [receivedBytes_ item_data_]. rewrite decide_True by (rewrite zlen_app; unfold zlen at 3; cbn [length]; lia).
  assert (forall i b, i = 0 \/ i = 1 -> [x; y] !! Z.to_nat i = Some b ->
    sp_at (sp_of_ptr (k ++ (v ++ [x; y]) ++ replicate (Z.to_nat (n - zlen (v ++ [x; y]))) Byte.x00) 0) (zlen k + n - 2 + i) = Ret b) as At.
  { intros i b Hi Hb. unfold sp_at, sp_of_ptr. cbn [ptr_]. rewrite decide_True by lia. rewrite <- app_assoc, app_assoc, lookup_app_r by (rewrite length_app; unfold zlen in *; lia).
    rewrite lookup_app_l by (rewrite length_app; unfold zlen in *; cbn [length]; lia).
    replace (_ - _)%nat with (Z.to_nat i) by (rewrite length_app; unfold zlen in *; lia). by rewrite Hb. }
  pose proof (At 0 x ltac:(lia) ltac:(done)) as A0. pose proof (At 1 y ltac:(lia) ltac:(done)) as A1. rewrite Z.add_0_r in A0.
  rewrite A0. cbn [obind]. replace (zlen k + n - 1) with (zlen k + n - 2 + 1) by lia. case_decide as Ex.
  - rewrite A1. cbn [obind]. subst x. f_equal. apply bool_decide_ext. unfold kCRLF. split; [by intros ->|by intros [= ->]].
  - f_equal. symmetry. apply bool_decide_false. unfold kCRLF. by intros [= -> ->].
Qed.

(** ** The store as one map *)

Record Map := mkMap { entries : gmap (list byte) Entry; counter : Z }.
Definition put_entry (k : list byte) (e : Entry) (m : Map) : Map :=
  mkMap (<[k := mkEntry (e_flags e) (e_exptime e) (e_value e) (counter m + 1)]> (entries m)) (counter m + 1).

(** What an update promises: whether it was stored, whether the key existed, and the map *)
Definition update (policy : UpdatePolicy) (k : list byte) (e : Entry) (m : Map) : bool * bool * Map :=
  let ex := bool_decide (is_Some (entries m !! k)) in
  match policy, entries m !! k with
  | kSet, _ | kAdd, None | kReplace, Some _ => (true, ex, put_entry k e m)
  | kAppend, Some o => (true, ex, put_entry k (mkEntry (e_flags o) (e_exptime o) (e_value o ++ e_value e) 0) m)
  | kPrepend, Some o => (true, ex, put_entry k (mkEntry (e_flags o) (e_exptime o) (e_value e ++ e_value o) 0) m)
  | kCas, Some o => if decide (e_cas o = e_cas e) then (true, ex, put_entry k e m) else (false, ex, m)
  | _, _ => (false, ex, m)
  end.

(** The shards hold the map. *)
Definition StoreRep (s : Server) (m : Map) : Prop :=
  (forall k, shard (u64 (hash k)) s !! k = item_of k <$> entries m !! k) /\ g_cas s = counter m.

Lemma shard_set h h' items s : shard h' (set_shard h items s) = if decide (h' mod kShards = h mod kShards) then items else shard h' s.
Proof.
  unfold shard, set_shard. cbn [shards_]. rewrite lookup_insert. repeat case_decide; try done; congruence.
Qed.
Lemma items_insert_fresh (k : list byte) it items : items !! k = None -> items_insert k it items = <[k := it]> items.
Proof. intros E. unfold items_insert. by rewrite E. Qed.

(** One shard changed at one key *)
Lemma StoreRep_set s m k (it : option Item) (e : option Entry) n st x :
  StoreRep s m -> it = item_of k <$> e ->
  StoreRep (set_shard (u64 (hash k)) (partial_alter (fun _ => it) k (shard (u64 (hash k)) s)) (mkServer (shards_ s) n st x))
    (mkMap (partial_alter (fun _ => e) k (entries m)) n).
Proof.
  intros [R _] E. split; [|done]. intros k'. rewrite shard_set. cbn [entries]. rewrite lookup_partial_alter.
  case_decide as Eh; [rewrite lookup_partial_alter; case_decide as Ek; [by subst k'|]|].
  - rewrite <- R. unfold shard. by rewrite Eh.
  - rewrite decide_False by (intros ->; done). rewrite <- R. done.
Qed.
Lemma StoreRep_put s m k e n st x :
  StoreRep s m ->
  StoreRep (set_shard (u64 (hash k)) (<[k := item_of k e]> (shard (u64 (hash k)) s)) (mkServer (shards_ s) n st x))
    (mkMap (<[k := e]> (entries m)) n).
Proof. intros R. by apply (StoreRep_set s m k (Some (item_of k e)) (Some e)). Qed.

Lemma item_of_lengths k e : zlen k + zlen (e_value e) + 2 < 2 ^ 31 ->
  neededBytes (item_of k e) = 0 /\ key_of (item_of k e) = Ret k /\ item_value (item_of k e) = e_value e ++ kCRLF /\
  valueLength (item_of k e) = zlen (e_value e) + 2 /\ key_piece (item_key (item_of k e)) k.
Proof.
  intros H. zlen_pos. assert (zlen (e_value e ++ kCRLF) = zlen (e_value e) + 2) as L by (rewrite zlen_app; done).
  unfold item_of. split_and!.
  - destruct (partial_lengths k (e_flags e) (e_exptime e) (zlen (e_value e) + 2) (e_cas e) (e_value e ++ kCRLF)) as (_ & -> & _); lia.
  - apply key_of_ok; lia.
  - by apply item_value_ok.
  - unfold valueLength. cbn [valuelen_ partial]. rewrite wrap_small; lia.
  - apply item_key_ok; lia.
Qed.
Lemma setCas_item k e c : setCas c (item_of k e) = item_of k (mkEntry (e_flags e) (e_exptime e) (e_value e) c).
Proof. done. Qed.
Lemma delete_insert_item (k : list byte) (it : Item) (items : ItemMap) : items_insert k it (delete k items) = <[k := it]> items.
Proof. rewrite items_insert_fresh by apply lookup_delete_eq. by rewrite insert_delete_eq. Qed.

(** Both ways of joining two values *)
Lemma join_items k o e c (pol : UpdatePolicy) (v := if decide (pol = kAppend) then e_value o ++ e_value e else e_value e ++ e_value o) :
  zlen k + zlen (e_value o) + zlen (e_value e) + 2 < 2 ^ 31 ->
  (let* new := makeItem (item_key (item_of k e)) (flags_ (item_of k o)) (rel_exptime_ (item_of k o))
     (i32 (u64 (valueLength (item_of k e) + valueLength (item_of k o) - 2))) c in
   if decide (pol = kAppend) then
     let* new := item_append (item_value (item_of k o)) (u64 (valueLength (item_of k o) - 2)) new in
     item_append (item_value (item_of k e)) (valueLength (item_of k e)) new
   else
     let* new := item_append (item_value (item_of k e)) (u64 (valueLength (item_of k e) - 2)) new in
     item_append (item_value (item_of k o)) (valueLength (item_of k o)) new)
  = Ret (item_of k (mkEntry (e_flags o) (e_exptime o) v c)).
Proof.
  intros H. zlen_pos. destruct (item_of_lengths k o) as (_ & _ & Vo & Lo & _); [lia|]. destruct (item_of_lengths k e) as (_ & _ & Ve & Le & Ke); [lia|].
  rewrite Lo, Le, Vo, Ve. rewrite (wrap_small 64 (_ + _ - 2)), swrap_small by lia. rewrite (makeItem_ok _ k) by (first [done|lia]). cbn [obind].
  rewrite !wrap_small by lia. assert (zlen kCRLF = 2) as Lc by done.
  unfold v. unfold item_of at 1. cbn [flags_ rel_exptime_ partial e_value]. unfold item_of at 1. cbn [flags_ rel_exptime_ partial].
  destruct (decide (pol = kAppend)).
  - rewrite item_append_ok by zlia. cbn [obind]. rewrite item_append_ok by (rewrite ?zlen_app, ?zlen_ztake by zlia; zlia).
    unfold item_of. cbn [e_flags e_exptime e_value e_cas]. f_equal. f_equal; [zlia|]. rewrite app_nil_l, ztake_app_l, !ztake_all by zlia.
    by rewrite <- app_assoc.
  - rewrite item_append_ok by zlia. cbn [obind]. rewrite item_append_ok by (rewrite ?zlen_app, ?zlen_ztake by zlia; zlia).
    unfold item_of. cbn [e_flags e_exptime e_value e_cas]. f_equal. f_equal; [zlia|]. rewrite app_nil_l, ztake_app_l, !ztake_all by zlia.
    by rewrite <- app_assoc.
Qed.

Lemma item_of_CRLF k e : zlen k + zlen (e_value e) + 2 < 2 ^ 31 -> endsWithCRLF (item_of k e) = Ret true.
Proof. intros H. unfold item_of, kCRLF. rewrite endsWithCRLF_ok by lia. done. Qed.

Lemma storeItem_ok s m k e pol :
  StoreRep s m -> 0 <= counter m < 2 ^ 62 -> pol <> kInvalid -> zlen k + zlen (e_value e) + 2 < 2 ^ 31 ->
  (forall o, entries m !! k = Some o -> zlen k + zlen (e_value o) + zlen (e_value e) + 2 < 2 ^ 31) ->
  exists s', storeItem (item_of k e) pol s = Ret ((update pol k e m).1.1, (update pol k e m).1.2, s') /\ StoreRep s' (update pol k e m).2 /\
    startTime_ s' = startTime_ s.
Proof.
  intros R Hc Hp Hs Ho. pose proof R as [Rk Rc]. destruct (item_of_lengths k e Hs) as (N & K & _). unfold storeItem. rewrite N, K, bool_decide_true by done. cbn [check obind].
  cbv zeta. change (hash_ (item_of k e)) with (u64 (hash k)). rewrite Rk. unfold incrementAndGet, update, put_entry. cbv zeta. rewrite Rc, (swrap_small 64 (counter m + 1)), (wrap_small 64 (counter m + 1)) by lia.
  assert (forall c, setCas c (item_of k e) = item_of k (mkEntry (e_flags e) (e_exptime e) (e_value e) c)) as SC by done. rewrite !SC.
  assert (forall e' items, items = shard (u64 (hash k)) s \/ items = delete k (shard (u64 (hash k)) s) ->
    (items = shard (u64 (hash k)) s -> entries m !! k = None) ->
    StoreRep (set_shard (u64 (hash k)) (items_insert k (item_of k e') items) (mkServer (shards_ s) (counter m + 1) (startTime_ s) (stopping_ s)))
      (mkMap (<[k := e']> (entries m)) (counter m + 1))) as Put.
  { intros e' items Hi Hn. assert (items_insert k (item_of k e') items = <[k := item_of k e']> (shard (u64 (hash k)) s)) as ->; [|by apply StoreRep_put].
    destruct Hi as [-> | ->]; [|apply delete_insert_item]. apply items_insert_fresh. rewrite Rk, Hn; done. }
  destruct (entries m !! k) as [o|] eqn:Eo; cbn [fmap option_fmap option_map].
  - specialize (Ho o eq_refl). rewrite !bool_decide_true by done.
    assert (delete k (shard (u64 (hash k)) s) = shard (u64 (hash k)) s -> Some o = None) as Dn.
    { intros E. pose proof (Rk k) as Ek. rewrite <- E, lookup_delete_eq, Eo in Ek. done. }
    pose proof (join_items k o e (counter m + 1) pol Ho) as J. apply obind_ret in J as (new & Mk & J).
    destruct pol; cbn [fst snd]; try done.
    + eexists. split; [done|]. split; [|done]. apply Put; [by right|done].
    + by exists s.
    + eexists. split; [done|]. split; [|done]. apply Put; [by right|done].
    + rewrite Mk. cbn [obind]. rewrite decide_True in J |- * by done. rewrite J. cbn [obind]. rewrite decide_True by done.
      destruct (item_of_lengths k (mkEntry (e_flags o) (e_exptime o) (e_value o ++ e_value e) (counter m + 1))) as (-> & _); [cbn [e_value]; zlia|].
      rewrite item_of_CRLF by (cbn [e_value]; zlia). rewrite bool_decide_true by done. cbn [check obind].
      eexists. split; [done|]. split; [|done]. cbn [e_flags e_exptime e_value]. apply Put; [by right|done].
    + rewrite Mk. cbn [obind]. rewrite decide_False in J |- * by done. rewrite J. cbn [obind]. rewrite decide_False by done.
      destruct (item_of_lengths k (mkEntry (e_flags o) (e_exptime o) (e_value e ++ e_value o) (counter m + 1))) as (-> & _); [cbn [e_value]; zlia|].
      rewrite item_of_CRLF by (cbn [e_value]; zlia). rewrite bool_decide_true by done. cbn [check obind].
      eexists. split; [done|]. split; [|done]. cbn [e_flags e_exptime e_value]. apply Put; [by right|done].
    + change (cas_ (item_of k o)) with (e_cas o). change (cas_ (item_of k e)) with (e_cas e). destruct (decide (e_cas o = e_cas e)); [|by exists s].
      eexists. split; [done|]. split; [|done]. apply Put; [by right|done].
  - rewrite !bool_decide_false by (by intros [? ?]). destruct pol; cbn [fst snd]; try done; try (by exists s).
    + eexists. split; [done|]. split; [|done]. apply Put; [by left|done].
    + eexists. split; [done|]. split; [|done]. apply Put; [by left|done].
Qed.

(** The item that lookups use as a key *)
Definition needle_ok (it : Item) : Prop := valuelen_ it = 2 /\ zlen (item_data_ it) = 252.
Lemma resetKey_ok p k it : key_piece p k -> zlen k <= 250 -> needle_ok it ->
  exists it', resetKey p it = Ret it' /\ needle_ok it' /\ key_of it' = Ret k /\ hash_ it' = u64 (hash k).
Proof.
  intros P Hk [Hv Hd]. destruct (key_piece_len p k P) as (L & _ & D & T). zlen_pos. unfold resetKey. rewrite L, bool_decide_true by done. cbn [check].
  unfold item_append, neededBytes, totalLen, set_received, set_key, set_data. cbn [keylen_ flags_ rel_exptime_ valuelen_ receivedBytes_ cas_ hash_ item_data_].
  rewrite Hv, (swrap_small 32 (zlen k + 2)), (wrap_small 64 (zlen k)), wrap_small by lia. rewrite bool_decide_true by lia. cbn [check].
  rewrite load_ok, T by lia. cbn [obind]. rewrite store_ok by (rewrite ?Hd; lia). cbn [obind].
  rewrite (swrap_small 32 (zlen k)), swrap_small by lia. rewrite bool_decide_true by lia. cbn [check obind]. rewrite (hash_range_ok p k P). cbn [obind].
  assert (zlen (overwrite (item_data_ it) 0 k) = 252) as Lo by (rewrite zlen_overwrite; lia).
  eexists. split; [done|]. split_and!; [done| |done]. unfold needle_ok, key_of, item_key, as_string, sp_of_ptr. cbn [ptr_ StringPiece.length_ keylen_ item_data_].
  rewrite wrap_small, decide_True, load_ok by (unfold max_size; lia). f_equal. unfold overwrite. rewrite (ztake_0 0) by lia. cbn [app].
  rewrite ztake_app_l, ztake_all by lia. done.
Qed.

Lemma getItem_ok s m it k : StoreRep s m -> key_of it = Ret k -> hash_ it = u64 (hash k) -> getItem it s = Ret (item_of k <$> entries m !! k).
Proof. intros [R _] K H. unfold getItem. by rewrite K, H, <- R. Qed.
Lemma deleteItem_ok s m it k : StoreRep s m -> key_of it = Ret k -> hash_ it = u64 (hash k) ->
  exists s', deleteItem it s = Ret (bool_decide (is_Some (entries m !! k)), s') /\ StoreRep s' (mkMap (delete k (entries m)) (counter m)) /\ startTime_ s' = startTime_ s.
Proof.
  intros R K H. pose proof R as [Rk Rc]. unfold deleteItem. rewrite K, H. cbn [obind]. rewrite Rk, (bool_decide_ext _ _ (fmap_is_Some _ _)). eexists. split; [done|].
  split; [|done]. rewrite <- Rc. exact (StoreRep_set s m k None None (g_cas s) (startTime_ s) (stopping_ s) R eq_refl).
Qed.

(** The answer for an item *)
Definition value_line (k : list byte) (needCas : bool) (e : Entry) : list byte :=
  bytes "VALUE " ++ k ++ bytes " " ++ fmt_d (e_flags e) ++ bytes " " ++ fmt_d (zlen (e_value e)) ++
  (if needCas then bytes " " ++ fmt_d (e_cas e) else []) ++ kCRLF ++ e_value e ++ kCRLF.

(** An item that fits is appended to the stream. *)
Lemma put_fits (it : item (double := unit)) st : stream_ok st -> printable it -> zlen (text (fun _ => []) it) < 32 -> zlen (contents st) < 3900 ->
  exists st', put (fun _ => []) it st = Ret st' /\ stream_ok st' /\ contents st' = contents st ++ text (fun _ => []) it.
Proof.
  intros W P L Room. destruct (put_ok (fun _ : unit => []) ltac:(done) it st W P) as (st' & E & W' & C). exists st'. split_and!; [done|done|].
  rewrite C. unfold add_text, kSmallBuffer, kMaxNumericSize. destruct (numeric it); rewrite bool_decide_true by lia; done.
Qed.
(** What [output] formats on its stream *)
Lemma line_stream f n c (needCas : bool) : 0 <= f < 2 ^ 32 -> 0 <= n < 2 ^ 31 -> 0 <= c < 2 ^ 64 ->
  exists b1 b2 b3 b4 b5 b6, put_char Byte.x20 stack_stream = Ret b1 /\ formatInteger f b1 = Ret b2 /\ put_char Byte.x20 b2 = Ret b3 /\
    formatInteger n b3 = Ret b4 /\ (if needCas then let* buf := put_char Byte.x20 b4 in formatInteger c buf else Ret b4) = Ret b5 /\
    put_cstr (Some (kCRLF ++ [Byte.x00])) b5 = Ret b6 /\ stream_ok b6 /\
    contents b6 = bytes " " ++ fmt_d f ++ bytes " " ++ fmt_d n ++ (if needCas then bytes " " ++ fmt_d c else []) ++ kCRLF.
Proof.
  intros Hf Hn Hc. assert (zlen (bytes " ") = 1) as Ls by done.
  pose proof (fmt_d_short f ltac:(lia)) as Lf. pose proof (fmt_d_short n ltac:(lia)) as Ln. pose proof (fmt_d_short c ltac:(lia)) as Lc. unfold kMaxNumericSize in *.
  assert (stream_ok stack_stream) as W0 by (split; [done|by vm_compute]). assert (contents stack_stream = []) as C0 by done.
  destruct (put_fits (IChar Byte.x20) stack_stream W0) as (b1 & E1 & W1 & C1); [done|done|by rewrite C0|].
  destruct (put_fits (IInteger f) b1 W1) as (b2 & E2 & W2 & C2); [cbn; lia|done|rewrite C1, C0; done|].
  cbn [text] in *. change [Byte.x20] with (bytes " ") in *. rewrite C0, app_nil_l in C1. rewrite C1 in C2.
  destruct (put_fits (IChar Byte.x20) b2 W2) as (b3 & E3 & W3 & C3); [done|done|rewrite C2; zlia|].
  cbn [text] in C3. change [Byte.x20] with (bytes " ") in C3. rewrite C2 in C3.
  destruct (put_fits (IInteger n) b3 W3) as (b4 & E4 & W4 & C4); [cbn; lia|done|rewrite C3; zlia|]. cbn [text] in C4. rewrite C3 in C4.
  assert (exists b5, (if needCas then let* buf := put_char Byte.x20 b4 in formatInteger c buf else Ret b4) = Ret b5 /\ stream_ok b5 /\
    contents b5 = contents b4 ++ (if needCas then bytes " " ++ fmt_d c else [])) as (b5 & E5 & W5 & C5).
  { destruct needCas; [|exists b4; by rewrite app_nil_r].
    destruct (put_fits (IChar Byte.x20) b4 W4) as (b & E & W & C); [done|done|rewrite C4; zlia|].
    cbn [text] in C. change [Byte.x20] with (bytes " ") in C.
    destruct (put_fits (IInteger c) b W) as (b' & E' & W' & C'); [cbn; lia|done|rewrite C, C4; zlia|].
    exists b'. cbn [put] in E, E'. rewrite E. cbn [obind]. split_and!; [done|done|]. cbn [text] in C'. by rewrite C', C, <- app_assoc. }
  destruct (put_fits (ICStr (Some (kCRLF ++ [Byte.x00]))) b5 W5) as (b6 & E6 & W6 & C6).
  { cbn. set_solver. }
  { done. }
  { rewrite C5, C4. destruct needCas; zlia. }
  exists b1, b2, b3, b4, b5, b6. cbn [put] in E1, E2, E3, E4, E6. split_and!; [done..|]. rewrite C6, C5, C4. rewrite <- !app_assoc. done.
Qed.

(** [output] appends the lines of the item. *)
Lemma output_ok k e needCas out :
  wf out -> zlen k + zlen (e_value e) + 2 < 2 ^ 31 -> 0 <= e_flags e < 2 ^ 32 -> 0 <= e_cas e < 2 ^ 64 ->
  zlen (buffer_ out) + zlen (value_line k needCas e) <= max_size ->
  exists out', output out needCas (item_of k e) = Ret out' /\ wf out' /\ content out' = content out ++ value_line k needCas e /\
    zlen (buffer_ out) <= zlen (buffer_ out') <= zlen (buffer_ out) + zlen (value_line k needCas e).
Proof.
  intros W Hs Hf Hc Hm. zlen_pos. destruct (item_of_lengths k e Hs) as (_ & _ & V & _ & _).
  destruct (line_stream (e_flags e) (zlen (e_value e)) (e_cas e) needCas) as (b1 & b2 & b3 & b4 & b5 & b6 & E1 & E2 & E3 & E4 & E5 & E6 & W6 & C6); [lia..|].
  set (mid := bytes " " ++ fmt_d (e_flags e) ++ bytes " " ++ fmt_d (zlen (e_value e)) ++ (if needCas then bytes " " ++ fmt_d (e_cas e) else []) ++ kCRLF) in *.
  assert (value_line k needCas e = bytes "VALUE " ++ k ++ mid ++ e_value e ++ kCRLF) as EL by (unfold value_line, mid; by rewrite <- !app_assoc).
  rewrite EL, !zlen_app in Hm. assert (zlen kCRLF = 2) as Lk by done. assert (zlen (bytes "VALUE ") = 6) as Lv by done.
  unfold output. destruct (append_string_ok (bytes "VALUE ") out W) as (o1 & -> & W1 & C1 & _ & S1); [done|zlia|]. cbn [obind].
  destruct (append_ok (item_data_ (item_of k e)) (zlen k) o1 W1) as (o2 & A2 & W2 & C2 & _ & S2); [cbn [item_data_ item_of partial]; zlia|zlia|].
  change (keylen_ (item_of k e)) with (zlen k). rewrite wrap_small, A2 by lia. cbn [obind].
  rewrite E1. cbn [obind]. change (flags_ (item_of k e)) with (e_flags e). rewrite E2. cbn [obind]. rewrite E3. cbn [obind].
  change (valuelen_ (item_of k e)) with (zlen (e_value e) + 2). rewrite Z.add_simpl_r, swrap_small, E4 by lia. cbn [obind].
  change (cas_ (item_of k e)) with (e_cas e). rewrite E5. cbn [obind]. rewrite E6. cbn [obind].
  pose proof (contents_len b6 W6) as L6. destruct W6 as [R6 D6]. unfold FixedBuf.length. unfold kSmallBuffer in *. rewrite swrap_small, (wrap_small 64 (cur_ b6)) by lia.
  destruct (append_ok (data_ b6) (cur_ b6) o2 W2) as (o3 & -> & W3 & C3 & _ & S3); [lia|rewrite <- L6, C6; zlia|]. cbn [obind].
  rewrite V, (wrap_small 64) by lia.
  destruct (append_ok (e_value e ++ kCRLF) (zlen (e_value e) + 2) o3 W3) as (o4 & -> & W4 & C4 & _ & S4); [zlia|rewrite <- L6, C6 in S3; zlia|].
  exists o4. split_and!; [done|done| |lia|rewrite EL; rewrite <- L6, C6 in S3; zlia].
  rewrite C4, C3, C2, C1, EL. fold (contents b6). rewrite C6. rewrite (ztake_all (zlen (e_value e) + 2)) by zlia.
  cbn [item_data_ item_of partial]. rewrite ztake_app_l, ztake_all by lia. by rewrite <- !app_assoc.
Qed.
End Store.
