(* ===== verification/Memcache.v ===== *)
(** * Sessions of the memcached server (src/muduo/examples/memcached/server/Session.h, Session.cc)

    A session reads commands and values from the input buffer of its connection,
    in whatever pieces they come, and answers from the store of [MemcacheStore]. The file shows that many
    sessions together behave like one map that executes one request after the other. *)

From S2P Require Import Prelude Format StringPiece LogStream Buffer Http Lines Conn MemcacheStore.

(** ** The parts of the C library *)

(** [strtoull(p, &end, 10)]: blanks, a sign and digits; the value and the number of
    characters up to [end]. Without a digit nothing is consumed. A scan that reaches the end of the memory is undefined. *)
Fixpoint strtoull_digits (mem : list byte) (n : Z) (count : Z) : outcome (Z * Z) :=
  match mem with
  | [] => Stop OutOfRange
  | b :: mem' => if is_digit b then strtoull_digits mem' (n * 10 + (b2z b - 48)) (count + 1) else Ret (n, count)
  end.
Definition strtoull_unsigned (neg : bool) (before : Z) (mem : list byte) : outcome (Z * Z) :=
  let* (n, count) := strtoull_digits mem 0 0 in
  if decide (count = 0) then Ret (0, 0)
  else Ret (if decide (n > 2 ^ 64 - 1) then 2 ^ 64 - 1 else if neg then u64 (- n) else n, before + count).
Fixpoint strtoull_from (before : Z) (mem : list byte) : outcome (Z * Z) :=
  match mem with
  | [] => Stop OutOfRange
  | b :: mem' =>
      if isspace b then strtoull_from (before + 1) mem'
      else if decide (b = minus) then strtoull_unsigned true (before + 1) mem'
      else if decide (b = Byte.x2b) then strtoull_unsigned false (before + 1) mem'
      else strtoull_unsigned false before mem
  end.
Definition strtoull (mem : list byte) : outcome (Z * Z) := strtoull_from 0 mem.

(** ** Tokens *)

Definition SP : byte := Byte.x20.

(** [SpaceSeparator] on the [n] characters that [mem] starts with *)
Fixpoint skip_blanks (mem : list byte) (n : Z) : list byte * Z :=
  if decide (n = 0) then (mem, n)
  else match mem with
       | b :: mem' => if decide (b = SP) then skip_blanks mem' (n - 1) else (mem, n)
       | [] => (mem, n)
       end.
Definition SpaceSeparator (mem : list byte) (n : Z) : option (StringPiece * list byte * Z) :=
  let (mem, n) := skip_blanks mem n in
  if decide (n = 0) then None
  else match memchr SP (ztake n mem) with
       | Some sp => Some (sp_of_ptr mem (i32 sp), zdrop sp mem, n - sp)
       | None => Some (sp_of_ptr mem (i32 n), zdrop n mem, 0)
       end.

(** [boost::tokenizer]: the tokens the separator finds from [begin()] on. An iterator is the
    tokens from it on; the end may be neither dereferenced nor incremented. *)
Fixpoint tokens (fuel : nat) (mem : list byte) (n : Z) : list StringPiece :=
  match fuel with
  | O => []
  | S fuel =>
      match SpaceSeparator mem n with
      | None => []
      | Some (tok, mem, n) => tok :: tokens fuel mem n
      end
  end.
Definition Tokenizer (request : StringPiece) : list StringPiece :=
  tokens (S (Z.to_nat (sp_size request))) (sp_data request) (sp_size request).
Definition deref (it : list StringPiece) : outcome StringPiece :=
  match it with tok :: _ => Ret tok | [] => Stop OutOfRange end.
Definition next (it : list StringPiece) : outcome (list StringPiece) :=
  match it with _ :: it => Ret it | [] => Stop OutOfRange end.

(** [Reader::read]: the number, if the token is one, and the reader after it *)
Definition read (first : list StringPiece) : outcome (option (Z * list StringPiece)) :=
  match first with
  | [] => Ret None
  | tok :: rest =>
      let* (x, count) := strtoull (sp_data tok) in
      Ret (if decide (count = sp_size tok) then Some (x, rest) else None)
  end.

(** ** Sessions *)

Inductive SessionState := kNewCommand | kReceiveValue | kDiscardValue.
Inductive Protocol := kAscii | kBinary | kAuto.
#[export] Instance Protocol_eq_dec : EqDecision Protocol.
Proof. solve_decision. Defined.

(** The members for the current request *)
Record Request := mkRequest { command_ : list byte; noreply_ : bool; policy_ : UpdatePolicy; currItem_ : option Item; bytesToDiscard_ : Z }.
Record Session := mkSession {
  ses_state_ : SessionState; protocol_ : Protocol; request_ : Request; needle_ : Item; outputBuf_ : Buffer; bytesRead_ : Z; requestsProcessed_ : Z }.
(** A session with its connection and the server *)
Record World := mkWorld { server_ : Server; conn_ : Conn; session_ : Session }.

Definition with_server v w := mkWorld v (conn_ w) (session_ w).
Definition with_conn v w := mkWorld (server_ w) v (session_ w).
Definition with_session v w := mkWorld (server_ w) (conn_ w) v.
Definition with_state v s := mkSession v (protocol_ s) (request_ s) (needle_ s) (outputBuf_ s) (bytesRead_ s) (requestsProcessed_ s).
Definition with_protocol v s := mkSession (ses_state_ s) v (request_ s) (needle_ s) (outputBuf_ s) (bytesRead_ s) (requestsProcessed_ s).
Definition with_request v s := mkSession (ses_state_ s) (protocol_ s) v (needle_ s) (outputBuf_ s) (bytesRead_ s) (requestsProcessed_ s).
Definition with_needle v s := mkSession (ses_state_ s) (protocol_ s) (request_ s) v (outputBuf_ s) (bytesRead_ s) (requestsProcessed_ s).
Definition with_output v s := mkSession (ses_state_ s) (protocol_ s) (request_ s) (needle_ s) v (bytesRead_ s) (requestsProcessed_ s).
Definition with_bytesRead v s := mkSession (ses_state_ s) (protocol_ s) (request_ s) (needle_ s) (outputBuf_ s) v (requestsProcessed_ s).
Definition with_processed v s := mkSession (ses_state_ s) (protocol_ s) (request_ s) (needle_ s) (outputBuf_ s) (bytesRead_ s) v.
Definition with_command v r := mkRequest v (noreply_ r) (policy_ r) (currItem_ r) (bytesToDiscard_ r).
Definition with_noreply v r := mkRequest (command_ r) v (policy_ r) (currItem_ r) (bytesToDiscard_ r).
Definition with_policy v r := mkRequest (command_ r) (noreply_ r) v (currItem_ r) (bytesToDiscard_ r).
Definition with_currItem v r := mkRequest (command_ r) (noreply_ r) (policy_ r) v (bytesToDiscard_ r).
Definition with_discard v r := mkRequest (command_ r) (noreply_ r) (policy_ r) (currItem_ r) v.
Definition update_request (f : Request -> Request) (w : World) : World :=
  with_session (with_request (f (request_ (session_ w))) (session_ w)) w.
Definition goto (st : SessionState) (w : World) : World := with_session (with_state st (session_ w)) w.

Definition kLongestKeySize : Z := 250.
Definition kLongestKey : list byte := replicate 250 Byte.x78.
Definition CRLF (msg : list byte) : list byte := msg ++ kCRLF.

Definition resetRequest (w : World) : World := update_request (fun _ => mkRequest [] false kInvalid None 0) w.
Definition reply (msg : list byte) (w : World) : World :=
  if noreply_ (request_ (session_ w)) then w else with_conn (conn_write msg (conn_ w)) w.

Section Sessions.
Context (hash : list byte -> Z).

Definition newSession : outcome Session :=
  let* needle := makeItem hash (sp_of_string kLongestKey) 0 0 2 0 in
  let* out := newBuffer kInitialSize in
  Ret (mkSession kNewCommand kAscii (mkRequest [] false kInvalid None 0) needle out 0 0).

Definition policy_of (command : list byte) : option UpdatePolicy :=
  if decide (command = bytes "set") then Some kSet
  else if decide (command = bytes "add") then Some kAdd
  else if decide (command = bytes "replace") then Some kReplace
  else if decide (command = bytes "append") then Some kAppend
  else if decide (command = bytes "prepend") then Some kPrepend
  else if decide (command = bytes "cas") then Some kCas
  else None.

(** The four numbers of an update; [cas] only if it is asked for *)
Definition read_numbers (beg : list StringPiece) (needCas : bool) : outcome (option (Z * Z * Z * Z)) :=
  let* r1 := read beg in
  match r1 with None => Ret None | Some (flags, beg) =>
    let* r2 := read beg in
    match r2 with None => Ret None | Some (exptime, beg) =>
      let* r3 := read beg in
      match r3 with None => Ret None | Some (len, beg) =>
        if needCas then
          let* r4 := read beg in
          Ret (match r4 with None => None | Some (cas, _) => Some (u32 flags, i64 exptime, i32 len, cas) end)
        else Ret (Some (u32 flags, i64 exptime, i32 len, 0))
      end
    end
  end.
Definition relative_exptime (startTime exptime : Z) : Z :=
  if decide (exptime > 60 * 60 * 24 * 30) then
    let rel := i32 (exptime - startTime) in if decide (rel < 1) then 1 else rel
  else i32 exptime.

Definition doUpdate (beg : list StringPiece) (w : World) : outcome (bool * World) :=
  match policy_of (command_ (request_ (session_ w))) with
  | None => Stop AssertFailed
  | Some policy =>
      let w := update_request (with_policy policy) w in
      let* key := deref beg in
      let* beg := next beg in
      let* nums := (if decide (sp_size key <= kLongestKeySize) then read_numbers beg (bool_decide (policy = kCas)) else Ret None) in
      match nums with
      | None => Ret (true, reply (CRLF (bytes "CLIENT_ERROR bad command line format")) w)
      | Some (flags, exptime, len, cas) =>
          if decide (len > 1024 * 1024) then
            let w := reply (CRLF (bytes "SERVER_ERROR object too large for cache")) w in
            let* needle := resetKey hash key (needle_ (session_ w)) in
            let w := with_session (with_needle needle (session_ w)) w in
            let* (_, srv) := deleteItem needle (server_ w) in
            let w := update_request (with_discard (u64 (i32 (len + 2)))) (with_server srv w) in
            Ret (false, goto kDiscardValue w)
          else
            let* it := makeItem hash key flags (relative_exptime (startTime_ (server_ w)) exptime) (i32 (len + 2)) cas in
            Ret (false, goto kReceiveValue (update_request (with_currItem (Some it)) w))
      end
  end.

Definition doDelete (beg : list StringPiece) (w : World) : outcome World :=
  assert* bool_decide (command_ (request_ (session_ w)) = bytes "delete") in
  let* key := deref beg in
  let* beg := next beg in
  if decide (sp_size key <= kLongestKeySize) then
    let* old := match beg with [] => Ret false | tok :: _ => sp_ne tok (sp_of_string (bytes "0")) end in
    if old : bool then Ret (reply (CRLF (bytes "CLIENT_ERROR bad command line format.  Usage: delete <key> [noreply]")) w)
    else
      let* needle := resetKey hash key (needle_ (session_ w)) in
      let w := with_session (with_needle needle (session_ w)) w in
      let* (deleted, srv) := deleteItem needle (server_ w) in
      let w := with_server srv w in
      Ret (reply (CRLF (if deleted : bool then bytes "DELETED" else bytes "NOT_FOUND")) w)
  else Ret (reply (CRLF (bytes "CLIENT_ERROR bad command line format")) w).

(** The loop over the keys of [get]; false if a key is bad *)
Fixpoint get_loop (cas : bool) (beg : list StringPiece) (w : World) : outcome (bool * World) :=
  match beg with
  | [] => Ret (true, w)
  | key :: beg =>
      if decide (sp_size key <= kLongestKeySize) then
        let* needle := resetKey hash key (needle_ (session_ w)) in
        let w := with_session (with_needle needle (session_ w)) w in
        let* it := getItem needle (server_ w) in
        let* w := match it with
                  | Some it => let* out := output (outputBuf_ (session_ w)) cas it in Ret (with_session (with_output out (session_ w)) w)
                  | None => Ret w
                  end in
        get_loop cas beg w
      else Ret (false, reply (CRLF (bytes "CLIENT_ERROR bad command line format")) w)
  end.
Definition doGet (cas : bool) (beg : list StringPiece) (w : World) : outcome World :=
  let* (good, w) := get_loop cas beg w in
  if good : bool then
    let* out := append_string (CRLF (bytes "END")) (outputBuf_ (session_ w)) in
    let w := with_session (with_output out (session_ w)) w in
    let (cn, out) := conn_send_buffer out (conn_ w) in
    Ret (with_session (with_output out (session_ w)) (with_conn cn w))
  else Ret w.

(** [noreply] at the end of a request *)
Definition strip_noreply (request : StringPiece) : outcome (bool * StringPiece) :=
  if decide (sp_size request >= 8) then
    let* e := sp_eq (sp_of_ptr (zdrop (sp_size request - 8) (sp_data request)) 8) (sp_of_string (bytes " noreply")) in
    Ret (e, if e : bool then remove_suffix 8 request else request)
  else Ret (false, request).

(** The commands, after the first word was read *)
Definition dispatch (command : list byte) (beg : list StringPiece) (w : World) : outcome (bool * World) :=
  let w := update_request (with_command command) w in
  if bool_decide (is_Some (policy_of command)) then doUpdate beg w
  else if decide (command = bytes "get" \/ command = bytes "gets") then
    let* w := doGet (bool_decide (command = bytes "gets")) beg w in Ret (true, w)
  else if decide (command = bytes "delete") then let* w := doDelete beg w in Ret (true, w)
  else if decide (command = bytes "version") then Ret (true, reply (CRLF (bytes "VERSION 0.01 muduo")) w)
  else if decide (command = bytes "quit") then Ret (true, with_conn (conn_shutdown (conn_ w)) w)
  else if decide (command = bytes "shutdown") then
    Ret (true, with_server (stop (server_ w)) (with_conn (conn_shutdown (conn_ w)) w))
  else Ret (true, reply (CRLF (bytes "ERROR")) w).

Definition processRequest (request : StringPiece) (w : World) : outcome (bool * World) :=
  let r := request_ (session_ w) in
  assert* bool_decide (command_ r = []) in
  assert* negb (noreply_ r) in
  assert* bool_decide (policy_ r = kInvalid) in
  assert* bool_decide (currItem_ r = None) in
  assert* bool_decide (bytesToDiscard_ r = 0) in
  let w := with_session (with_processed (u64 (requestsProcessed_ (session_ w) + 1)) (session_ w)) w in
  let* (noreply, request) := strip_noreply request in
  let w := update_request (with_noreply noreply) w in
  match Tokenizer request with
  | [] => Ret (true, reply (CRLF (bytes "ERROR")) w)
  | tok :: beg =>
      let* command := as_string tok in
      dispatch command beg w
  end.

Definition receiveValue (buf : Buffer) (w : World) : outcome (World * Buffer) :=
  match currItem_ (request_ (session_ w)) with
  | None => Stop AssertFailed
  | Some it =>
      let avail := Z.min (readableBytes buf) (neededBytes it) in
      let* it := item_append (zdrop (peek buf) (buffer_ buf)) avail it in
      let w := update_request (with_currItem (Some it)) w in
      let* buf := retrieve avail buf in
      if decide (neededBytes it = 0) then
        let* e := endsWithCRLF it in
        let* w := (if e : bool then
          let policy := policy_ (request_ (session_ w)) in
          let* (stored, exists_, srv) := storeItem hash it policy (server_ w) in
          let w := with_server srv w in
          Ret (reply (CRLF (if stored : bool then bytes "STORED"
                            else if decide (policy = kCas) then (if exists_ : bool then bytes "EXISTS" else bytes "NOT_FOUND")
                            else bytes "NOT_STORED")) w)
        else Ret (reply (CRLF (bytes "CLIENT_ERROR bad data chunk")) w)) in
        Ret (goto kNewCommand (resetRequest w), buf)
      else Ret (w, buf)
  end.

Definition discardValue (buf : Buffer) (w : World) : outcome (World * Buffer) :=
  let r := request_ (session_ w) in
  assert* bool_decide (currItem_ r = None) in
  if decide (readableBytes buf < bytesToDiscard_ r) then
    Ret (update_request (with_discard (bytesToDiscard_ r - readableBytes buf)) w, retrieveAll buf)
  else
    let* buf := retrieve (bytesToDiscard_ r) buf in
    Ret (goto kNewCommand (resetRequest w), buf).

Definition isBinaryProtocol (firstByte : byte) : bool := bool_decide (firstByte = Byte.x80).

(** The loop of [onMessage]; every round but the last takes a byte. *)
Fixpoint onMessage_loop (fuel : nat) (w : World) (buf : Buffer) : outcome (World * Buffer) :=
  match fuel with
  | O => Stop NoFuel
  | S fuel =>
      if decide (readableBytes buf > 0) then
        match ses_state_ (session_ w) with
        | kNewCommand =>
            let* w := match protocol_ (session_ w) with
                      | kAuto =>
                          assert* bool_decide (bytesRead_ (session_ w) = 0) in
                          let* b := sp_at (sp_of_ptr (content buf) 1) 0 in
                          Ret (with_session (with_protocol (if isBinaryProtocol b then kBinary else kAscii) (session_ w)) w)
                      | _ => Ret w
                      end in
            if decide (protocol_ (session_ w) = kBinary) then onMessage_loop fuel w buf
            else
              match findCRLF buf with
              | Some crlf =>
                  let len := i32 (crlf - peek buf) in
                  let* (finished, w) := processRequest (sp_of_ptr (zdrop (peek buf) (buffer_ buf)) len) w in
                  let w := if finished : bool then resetRequest w else w in
                  let* buf := retrieveUntil (crlf + 2) buf in
                  onMessage_loop fuel w buf
              | None =>
                  Ret (if decide (readableBytes buf > 1024) then with_conn (conn_shutdown (conn_ w)) w else w, buf)
              end
        | kReceiveValue => let* (w, buf) := receiveValue buf w in onMessage_loop fuel w buf
        | kDiscardValue => let* (w, buf) := discardValue buf w in onMessage_loop fuel w buf
        end
      else Ret (w, buf)
  end.
Definition onMessage (w : World) (buf : Buffer) : outcome (World * Buffer) :=
  let initialReadable := readableBytes buf in
  let* (w, buf) := onMessage_loop (S (Z.to_nat initialReadable)) w buf in
  Ret (with_session (with_bytesRead (u64 (bytesRead_ (session_ w) + (initialReadable - readableBytes buf))) (session_ w)) w, buf).
End Sessions.

(** ** Reading numbers and words *)

Lemma strtoull_digits_ok ds b rest n count :
  Forall (fun d => is_digit d = true) ds -> is_digit b = false ->
  strtoull_digits (ds ++ b :: rest) n count = Ret (fold_left (fun a d => a * 10 + (b2z d - 48)) ds n, count + zlen ds).
Proof.
  intros F Hb. revert n count. induction F as [|d ds Hd F IH]; intros n count; cbn [app strtoull_digits fold_left].
  - rewrite Hb, zlen_nil, Z.add_0_r. done.
  - rewrite Hd, IH, zlen_cons. do 2 f_equal. lia.
Qed.
Lemma strtoull_ok x b rest : 0 <= x < 2 ^ 64 -> is_digit b = false -> strtoull (udec x ++ b :: rest) = Ret (x, zlen (udec x)).
Proof.
  intros Hx Hb. pose proof (strtoull_digits_ok (udec x) b rest 0 0 (udec_digits x ltac:(lia)) Hb) as S. rewrite undec_fold, undec_udec in S by lia.
  destruct (udec_nonempty x ltac:(lia)) as (d & l & E & Hd). destruct (digit_plain d Hd) as (N1 & N2 & N3).
  unfold strtoull. rewrite E. cbn [app strtoull_from]. rewrite N1, !decide_False by done.
  unfold strtoull_unsigned. rewrite app_comm_cons, <- E, S. cbn [obind]. rewrite decide_False by (rewrite E; zlia). rewrite decide_False by lia. done.
Qed.

(** A token for the word [w]: it is followed by a character that is no digit. *)
Definition tok_piece (p : StringPiece) (w : list byte) : Prop :=
  key_piece p w /\ exists b rest, sp_data p = w ++ b :: rest /\ is_digit b = false.
Lemma read_ok p x rest : tok_piece p (udec x) -> 0 <= x < 2 ^ 64 -> read (p :: rest) = Ret (Some (x, rest)).
Proof.
  intros (K & b & r & E & Hb) Hx. destruct (key_piece_len _ _ K) as (L & _). unfold read. rewrite E, strtoull_ok by done. cbn [obind].
  by rewrite L, decide_True.
Qed.

Definition blank_words (ws : list (list byte)) : list byte := concat (map (cons SP) ws).
Definition join (ws : list (list byte)) : list byte := match ws with [] => [] | w :: ws => w ++ blank_words ws end.
Definition word (w : list byte) : Prop := w <> [] /\ SP ∉ w.

Lemma skip_blanks_word w mem n : word w -> n <> 0 -> skip_blanks (w ++ mem) n = (w ++ mem, n).
Proof.
  intros [Nw Hw] Hn. destruct w as [|b w]; [done|]. cbn [app skip_blanks]. rewrite decide_False by done.
  rewrite decide_False; [done|]. intros ->. apply Hw. by left.
Qed.
Lemma SpaceSeparator_word w tail m : word w -> 0 <= m <= zlen tail -> zlen w + m < 2 ^ 31 -> (m = 0 \/ exists t, tail = SP :: t) ->
  SpaceSeparator (w ++ tail) (zlen w + m) = Some (sp_of_ptr (w ++ tail) (zlen w), tail, m).
Proof.
  intros W Hm Hl Ht. pose proof W as [Nw Hw]. assert (0 < zlen w) by (destruct w; [done|]; zlia). unfold SpaceSeparator.
  rewrite skip_blanks_word, decide_False by (first [done|lia]). rewrite ztake_app_r by lia. replace (zlen w + m - zlen w) with m by lia. unfold memchr.
  destruct (decide (m = 0)) as [->|Hm0].
  - rewrite ztake_0, app_nil_r, std_find_absent, decide_True, Z.add_0_r, swrap_small by (first [done|lia]).
    by rewrite zdrop_app_r, Z.sub_diag, zdrop_0 by lia.
  - destruct Ht as [? | (t & ->)]; [done|]. rewrite zlen_cons in Hm.
    assert (ztake m (SP :: t) = SP :: ztake (m - 1) t) as -> by (unfold ztake; by replace (Z.to_nat m) with (S (Z.to_nat (m - 1))) by lia).
    rewrite std_find_app by done. rewrite decide_False by zlia. rewrite swrap_small, zdrop_app_r, Z.sub_diag, zdrop_0 by lia. do 2 f_equal. lia.
Qed.
Lemma SpaceSeparator_blank tail m : 0 <= m -> SpaceSeparator (SP :: tail) (1 + m) = SpaceSeparator tail m.
Proof.
  intros Hm. unfold SpaceSeparator. cbn [skip_blanks]. rewrite decide_False, decide_True by (first [done|lia]). by replace (1 + m - 1) with m by lia.
Qed.
Lemma zlen_blank_words w ws : zlen (blank_words (w :: ws)) = 1 + zlen w + zlen (blank_words ws).
Proof. unfold blank_words. cbn [map concat]. zlia. Qed.

Lemma tok_piece_word w ws b rest : zlen w < 2 ^ 31 -> is_digit b = false -> tok_piece (sp_of_ptr (w ++ blank_words ws ++ b :: rest) (zlen w)) w.
Proof.
  intros Hw Hb. pose proof (zlen_nonneg w). split; [split; [unfold sp_wf, sp_of_ptr; cbn [ptr_ StringPiece.length_]; zlia|]|].
  - unfold sp_chars, sp_of_ptr. cbn [ptr_ StringPiece.length_]. by rewrite ztake_app_l, ztake_all by lia.
  - unfold sp_data, sp_of_ptr. cbn [ptr_]. destruct ws as [|w' ws]; [by eexists _, _|]. unfold blank_words. cbn [map concat app]. by eexists _, _.
Qed.

Lemma tokens_blank ws b rest fuel :
  Forall word ws -> is_digit b = false -> zlen (blank_words ws) < 2 ^ 31 -> (length ws < fuel)%nat ->
  exists ps, tokens fuel (blank_words ws ++ b :: rest) (zlen (blank_words ws)) = ps /\ Forall2 tok_piece ps ws.
Proof.
  intros F Hb. revert fuel. induction F as [|w ws W F IH]; intros fuel Hl Hf; (destruct fuel as [|fuel]; [lia|]).
  - exists []. split; [|constructor]. cbn [tokens]. done.
  - rewrite zlen_blank_words in *. pose proof (zlen_nonneg (blank_words ws)). pose proof (zlen_nonneg w).
    destruct (IH fuel) as (ps & E & P); [lia|cbn in Hf; lia|].
    assert (blank_words (w :: ws) ++ b :: rest = SP :: w ++ blank_words ws ++ b :: rest) as Eb by (unfold blank_words; cbn [map concat app]; by rewrite <- app_assoc).
    exists (sp_of_ptr (w ++ blank_words ws ++ b :: rest) (zlen w) :: ps). split.
    + rewrite Eb, <- Z.add_assoc. cbn [tokens]. rewrite SpaceSeparator_blank by lia.
      rewrite SpaceSeparator_word; [by rewrite E|done|zlia|lia|]. destruct ws as [|w' ws]; [by left|right]. by eexists.
    + constructor; [|done]. apply tok_piece_word; [lia|done].
Qed.
Lemma tokens_join ws b rest :
  Forall word ws -> is_digit b = false -> zlen (join ws) < 2 ^ 31 ->
  exists ps, Tokenizer (sp_of_ptr (join ws ++ b :: rest) (zlen (join ws))) = ps /\ Forall2 tok_piece ps ws.
Proof.
  intros F Hb Hl. destruct F as [|w ws W F]; [exists []; split; [done|constructor]|]. cbn [join] in *.
  pose proof (zlen_nonneg (blank_words ws)). assert (0 < zlen w) by (destruct W as [Nw _]; destruct w; [done|]; zlia). rewrite zlen_app in *.
  assert (Z.of_nat (length ws) <= zlen (blank_words ws)) as Lw.
  { clear. induction ws as [|w ws IH]; [done|]. rewrite zlen_blank_words. cbn [length]. zlia. }
  destruct (tokens_blank ws b rest (Z.to_nat (zlen w + zlen (blank_words ws)))) as (ps & E & P); [done|done|lia|lia|].
  exists (sp_of_ptr (w ++ blank_words ws ++ b :: rest) (zlen w) :: ps). split.
  - unfold Tokenizer, sp_of_ptr, sp_data, sp_size. cbn [ptr_ StringPiece.length_ tokens]. rewrite <- app_assoc, SpaceSeparator_word; [by rewrite E|done|zlia|lia|].
    destruct ws as [|w' ws]; [by left|right]. by eexists.
  - constructor; [|done]. apply tok_piece_word; [lia|done].
Qed.

(** ** Commands *)

Inductive Command :=
  | CUpdate (pol : UpdatePolicy) (k : list byte) (flags exptime : Z) (v : list byte) (cas : Z) (nr : bool)
  | CGet (gets : bool) (ks : list (list byte))
  | CDelete (k : list byte) (nr : bool)
  | CVersion.

Definition policy_name (p : UpdatePolicy) : list byte :=
  match p with
  | kInvalid => [] | kSet => bytes "set" | kAdd => bytes "add" | kReplace => bytes "replace"
  | kAppend => bytes "append" | kPrepend => bytes "prepend" | kCas => bytes "cas"
  end.
Definition command_words (c : Command) : list (list byte) :=
  match c with
  | CUpdate p k f x v cas _ => [policy_name p; k; udec f; udec x; udec (zlen v)] ++ (if decide (p = kCas) then [udec cas] else [])
  | CGet gets ks => (if gets then bytes "gets" else bytes "get") :: ks
  | CDelete k _ => [bytes "delete"; k]
  | CVersion => [bytes "version"]
  end.
Definition is_noreply (c : Command) : bool := match c with CUpdate _ _ _ _ _ _ nr | CDelete _ nr => nr | _ => false end.
(** The request as it is sent: a line, and the value after an update *)
Definition command_line (c : Command) : list byte := join (command_words c) ++ (if is_noreply c then bytes " noreply" else []).
Definition command_data (c : Command) : list byte := match c with CUpdate _ _ _ _ v _ _ => v ++ kCRLF | _ => [] end.
Definition command_text (c : Command) : list byte := command_line c ++ kCRLF ++ command_data c.

Definition good_key (k : list byte) : Prop := word k /\ CR ∉ k /\ zlen k <= 250 /\ k <> bytes "noreply".
Definition good_command (c : Command) : Prop :=
  zlen (command_line c) < 1024 /\
  match c with
  | CUpdate p k f x v cas _ => p <> kInvalid /\ good_key k /\ 0 <= f < 2 ^ 32 /\ 0 <= x < 2 ^ 63 /\ zlen v <= 1024 * 1024 /\ 0 <= cas < 2 ^ 64
  | CGet _ ks => Forall good_key ks
  | CDelete k _ => good_key k
  | CVersion => True
  end.

(** What a request does to the map, and the answer *)
Definition execute (startTime : Z) (c : Command) (m : Map) : list byte * Map :=
  match c with
  | CUpdate p k f x v cas nr =>
      let '(stored, ex, m') := update p k (mkEntry f (relative_exptime startTime x) v cas) m in
      (if nr then [] else CRLF (if stored : bool then bytes "STORED"
        else if decide (p = kCas) then (if ex : bool then bytes "EXISTS" else bytes "NOT_FOUND") else bytes "NOT_STORED"), m')
  | CGet gets ks =>
      (concat (map (fun k => match entries m !! k with Some e => value_line k gets e | None => [] end) ks) ++ CRLF (bytes "END"), m)
  | CDelete k nr =>
      (if nr then [] else CRLF (if bool_decide (is_Some (entries m !! k)) then bytes "DELETED" else bytes "NOT_FOUND"), mkMap (delete k (entries m)) (counter m))
  | CVersion => (CRLF (bytes "VERSION 0.01 muduo"), m)
  end.

Lemma word_udec x : 0 <= x -> word (udec x) /\ CR ∉ udec x /\ udec x <> bytes "noreply".
Proof.
  intros H. pose proof (udec_digits x H) as F. rewrite Forall_forall in F. destruct (udec_nonempty x H) as (d & l & E & Hd).
  split_and!; [split; [by rewrite E|]|..].
  - intros D%F. by vm_compute in D.
  - intros D%F. by vm_compute in D.
  - rewrite E. intros [= -> _]. by vm_compute in Hd.
Qed.
Lemma good_words c : good_command c -> Forall word (command_words c) /\ Forall (fun w => CR ∉ w) (command_words c) /\ command_words c <> [] /\
  (is_noreply c = false -> last (command_words c) <> Some (bytes "noreply")).
Proof.
  assert (forall w, bool_decide (w <> [] /\ SP ∉ w /\ CR ∉ w) = true -> word w /\ CR ∉ w) as Dec by (intros w H%bool_decide_eq_true; split; [split|]; tauto).
  intros [_ G]. destruct c as [p k f x v cas nr|gets ks|k nr|]; cbn [command_words is_noreply].
  - destruct G as (Hp & (Wk & Ck & _) & Hf & Hx & _ & Hc). destruct (word_udec f) as (W1 & C1 & _); [lia|]. destruct (word_udec x) as (W2 & C2 & _); [lia|].
    destruct (word_udec (zlen v)) as (W3 & C3 & N3); [zlia|]. destruct (word_udec cas) as (W4 & C4 & N4); [lia|].
    destruct (Dec (policy_name p)) as [W0 C0]; [by destruct p|]. split_and!; [| |done|].
    + apply Forall_app. split; [by rewrite !Forall_cons, Forall_nil|case_decide; by rewrite ?Forall_cons, Forall_nil].
    + apply Forall_app. split; [by rewrite !Forall_cons, Forall_nil|case_decide; by rewrite ?Forall_cons, Forall_nil].
    + intros _. case_decide; cbn [app last]; congruence.
  - destruct (Dec (if gets then bytes "gets" else bytes "get")) as [W0 C0]; [by destruct gets|]. split_and!; [| |done|].
    + constructor; [done|]. eapply Forall_impl; [exact G|]. by intros k (? & _).
    + constructor; [done|]. eapply Forall_impl; [exact G|]. by intros k (_ & ? & _).
    + intros _. destruct ks as [|k ks' _] using rev_ind; [by destruct gets|]. rewrite app_comm_cons, last_snoc. intros [= ->].
      apply Forall_app in G as [_ G]. apply Forall_cons in G as [(_ & _ & _ & N) _]. done.
  - destruct G as (Wk & Ck & _ & Nk). destruct (Dec (bytes "delete")) as [W0 C0]; [done|]. split_and!; [by rewrite !Forall_cons, Forall_nil..|done|].
    intros _. cbn [last]. congruence.
  - destruct (Dec (bytes "version")) as [W0 C0]; [done|]. split_and!; [by rewrite !Forall_cons, Forall_nil..|done|done].
Qed.

(** The last word after a blank is determined. *)
Lemma last_word_inj (x y w v : list byte) : SP ∉ w -> SP ∉ v -> x ++ SP :: w = y ++ SP :: v -> w = v.
Proof.
  intros Hw Hv E. apply (f_equal (@rev byte)) in E. rewrite !rev_app_distr in E. cbn [rev] in E. rewrite <- !app_assoc in E. cbn [app] in E.
  assert (forall a b : list byte, SP ∉ a -> std_find SP (rev a ++ SP :: b) = zlen a) as F.
  { intros a b Ha. rewrite std_find_app; [by rewrite zlen_rev|]. intros H. apply Ha. by apply list_elem_of_In, in_rev, list_elem_of_In. }
  pose proof (f_equal (std_find SP) E) as L. rewrite !F in L by done.
  apply app_inj_1 in E as [E _]; [|unfold zlen in L; rewrite !length_rev; lia]. rewrite <- (rev_involutive w), E. apply rev_involutive.
Qed.
Lemma blank_words_snoc ws w : blank_words (ws ++ [w]) = blank_words ws ++ SP :: w.
Proof. unfold blank_words. rewrite map_app, concat_app. cbn [map concat]. by rewrite app_nil_r. Qed.
Lemma join_last ws x w : Forall word ws -> SP ∉ w -> join ws = x ++ SP :: w -> last ws = Some w.
Proof.
  intros F Hw E. destruct ws as [|w0 ws]; [by destruct x|]. apply Forall_cons in F as [[_ F0] F].
  destruct ws as [|w1 ws _] using rev_ind.
  - cbn [join blank_words map concat] in E. rewrite app_nil_r in E. exfalso. apply F0. rewrite E. apply elem_of_app. right. by left.
  - cbn [join] in E. rewrite blank_words_snoc, app_assoc in E. apply Forall_app in F as [_ F]. apply Forall_cons in F as [[_ F1] _].
    apply last_word_inj in E; [|done|done]. subst w1. by rewrite app_comm_cons, last_snoc.
Qed.
Lemma CR_join ws : Forall (fun w => CR ∉ w) ws -> CR ∉ join ws.
Proof.
  assert (forall ws, Forall (fun w => CR ∉ w) ws -> CR ∉ blank_words ws) as B.
  { intros l F. induction F as [|w l Hw F IH]; [apply not_elem_of_nil|]. unfold blank_words. cbn [map concat].
    rewrite elem_of_app, elem_of_cons. intros [[D | D] | D]; done. }
  intros F. destruct F as [|w l Hw F]; [apply not_elem_of_nil|]. cbn [join]. rewrite elem_of_app. intros [D | D]; [done|by apply B in D].
Qed.
Lemma CR_line c : good_command c -> CR ∉ command_line c.
Proof.
  intros G. destruct (good_words c G) as (_ & C & _). unfold command_line. rewrite elem_of_app. intros [D | D]; [by apply CR_join in D|].
  destruct (is_noreply c); [|by apply not_elem_of_nil in D]. by apply (bool_decide_unpack (CR ∉ bytes " noreply")).
Qed.

Lemma strip_ok c rest : good_command c ->
  strip_noreply (sp_of_ptr (command_line c ++ CR :: rest) (zlen (command_line c))) =
  Ret (is_noreply c, sp_of_ptr (command_line c ++ CR :: rest) (zlen (join (command_words c)))).
Proof.
  intros G. pose proof G as [Lc _]. destruct (good_words c G) as (W & _ & _ & Nr). unfold strip_noreply, sp_of_ptr, sp_size, sp_data, command_line in *.
  cbn [StringPiece.length_ ptr_]. set (J := join (command_words c)) in *. assert (zlen (bytes " noreply") = 8) as L8 by done.
  assert (forall d m, zlen d = 8 -> 8 <= zlen m -> sp_eq (mkStringPiece m 8) (sp_of_string d) = Ret (bool_decide (ztake 8 m = d))) as Eq.
  { intros d m Hd Hm. rewrite sp_eq_ok; [|unfold sp_wf; cbn [ptr_ StringPiece.length_]; lia|by apply sp_of_string_wf; lia].
    unfold sp_chars. cbn [ptr_ StringPiece.length_]. destruct (sp_of_string_wf d) as [_ C]; [lia|]. unfold sp_chars in C. by rewrite C. }
  destruct (is_noreply c) eqn:En.
  - rewrite decide_True by zlia. rewrite Eq by (first [done|rewrite zlen_zdrop by zlia; zlia]). rewrite <- app_assoc, zlen_app, L8, Z.add_simpl_r, zdrop_app_r, Z.sub_diag, zdrop_0 by lia.
    rewrite ztake_app_l, ztake_all by lia. rewrite bool_decide_true by done. cbn [obind]. unfold remove_suffix. cbn [ptr_ StringPiece.length_].
    rewrite swrap_small by zlia. do 3 f_equal. zlia.
  - rewrite app_nil_r in *. case_decide as D; [|done]. rewrite Eq by (first [done|rewrite zlen_zdrop by zlia; zlia]). rewrite bool_decide_false; [done|]. intros E.
    rewrite zdrop_app_l in E by zlia. rewrite ztake_app_l, ztake_all in E by zlia.
    apply (Nr eq_refl). apply (join_last _ (ztake (zlen J - 8) J)); [done| |].
    + apply (bool_decide_unpack _). vm_compute. exact Logic.I.
    + fold J. rewrite <- (ztake_zdrop (zlen J - 8) J) at 1. by rewrite E.
Qed.

(** ** Sessions between requests *)

Section SessionProofs.
Context (hash : list byte -> Z).

Definition idle_request : Request := mkRequest [] false kInvalid None 0.

(** Everything is small enough while [T] bytes are still to come. *)
Definition Bounded (m : Map) (T : Z) : Prop :=
  (forall k e, entries m !! k = Some e -> zlen k <= 250 /\ zlen (e_value e) + T <= 2 ^ 30 /\ 0 <= e_flags e < 2 ^ 32 /\ 0 <= e_cas e < 2 ^ 63) /\
  0 <= counter m /\ counter m + T <= 2 ^ 62.
Record WorldOk (w : World) (m : Map) (T : Z) : Prop := mkWorldOk {
  wo_store : StoreRep hash (server_ w) m;
  wo_bounded : Bounded m T;
  wo_conn : connected_ (conn_ w) = true;
  wo_protocol : protocol_ (session_ w) = kAscii;
  wo_needle : needle_ok (needle_ (session_ w));
  wo_wf : wf (outputBuf_ (session_ w));
  wo_output : content (outputBuf_ (session_ w)) = [];
  wo_room : zlen (buffer_ (outputBuf_ (session_ w))) + T * 2 ^ 31 <= 2 ^ 62;
  wo_small : 0 <= T <= 2 ^ 30 }.
Definition idle (w : World) : Prop := ses_state_ (session_ w) = kNewCommand /\ request_ (session_ w) = idle_request.
(** [resp] was sent and the clock is the same. *)
Definition answered (w w' : World) (resp : list byte) : Prop :=
  conn_ w' = mkConn (sent_ (conn_ w) ++ resp) true /\ startTime_ (server_ w') = startTime_ (server_ w).

(** Up to the command word *)
Lemma processRequest_start c rest w :
  good_command c -> idle w ->
  exists p ps, Forall2 tok_piece (p :: ps) (command_words c) /\
    processRequest hash (sp_of_ptr (command_line c ++ CR :: rest) (zlen (command_line c))) w =
    dispatch hash (hd [] (command_words c)) ps
      (with_session (with_processed (u64 (requestsProcessed_ (session_ w) + 1))
        (with_request (mkRequest [] (is_noreply c) kInvalid None 0) (session_ w))) w).
Proof.
  intros G [St Rq]. pose proof G as [Lc _]. destruct (good_words c G) as (W & _ & Ne & _). unfold processRequest. rewrite Rq. cbn [idle_request command_ noreply_ policy_ currItem_ bytesToDiscard_ negb].
  rewrite !bool_decide_true by done. cbn [check]. rewrite strip_ok by done. cbn [obind].
  assert (exists b r, command_line c ++ CR :: rest = join (command_words c) ++ b :: r /\ is_digit b = false) as (b & r & E & Hb).
  { unfold command_line. destruct (is_noreply c); [|rewrite app_nil_r; by exists CR, rest].
    exists SP, (bytes "noreply" ++ CR :: rest). by rewrite <- app_assoc. }
  rewrite E. destruct (tokens_join (command_words c) b r W Hb) as (ps & -> & P).
  { unfold command_line in Lc. rewrite zlen_app in Lc. zlia. }
  destruct (command_words c) as [|w0 ws] eqn:Ew; [done|]. inversion P as [|p ? ps' ? Hp Hps Ep]; subst. exists p, ps'. split; [done|].
  destruct Hp as [[Wp <-] _]. rewrite as_string_ok by done. cbn [obind hd]. f_equal.
  destruct w as [srv cn [st pr rq nd ob br rp]]. cbn [request_ session_] in *. by subst rq.
Qed.

Definition get_lines (gets : bool) (ks : list (list byte)) (m : Map) : list byte :=
  concat (map (fun k => match entries m !! k with Some e => value_line k gets e | None => [] end) ks).
Lemma value_line_length k gets e : zlen k <= 250 -> zlen (e_value e) <= 2 ^ 30 -> 0 <= e_flags e < 2 ^ 32 -> 0 <= e_cas e < 2 ^ 63 -> zlen (value_line k gets e) <= 2 ^ 31.
Proof.
  intros Hk Hv Hf Hc. pose proof (fmt_d_short (e_flags e) ltac:(lia)) as L1. pose proof (fmt_d_short (zlen (e_value e)) ltac:(zlia)) as L2.
  pose proof (fmt_d_short (e_cas e) ltac:(lia)) as L3. unfold kMaxNumericSize in *. assert (zlen kCRLF = 2) by done.
  assert (zlen (bytes "VALUE ") = 6) by done. assert (zlen (bytes " ") = 1) by done. unfold value_line. destruct gets; zlia.
Qed.

Lemma get_loop_ok gets ps ks w m T :
  Forall2 tok_piece ps ks -> Forall good_key ks -> StoreRep hash (server_ w) m -> Bounded m T -> 0 <= T -> needle_ok (needle_ (session_ w)) ->
  wf (outputBuf_ (session_ w)) -> zlen (buffer_ (outputBuf_ (session_ w))) + zlen ks * 2 ^ 31 <= max_size ->
  exists needle out, get_loop hash gets ps w = Ret (true, with_session (with_output out (with_needle needle (session_ w))) w) /\
    needle_ok needle /\ wf out /\ content out = content (outputBuf_ (session_ w)) ++ get_lines gets ks m /\
    zlen (buffer_ out) <= zlen (buffer_ (outputBuf_ (session_ w))) + zlen ks * 2 ^ 31.
Proof.
  intros P F R [Bk _] HT. revert w R. induction P as [|p k ps ks Hp P IH]; intros w R Nd Wo Hm.
  - exists (needle_ (session_ w)), (outputBuf_ (session_ w)). split_and!; [|done|done|by rewrite app_nil_r|zlia].
    cbn [get_loop]. by destruct w as [srv cn [st pr rq nd ob br rp]].
  - apply Forall_cons in F as [(Wk & _ & Lk & _) F]. destruct Hp as [Kp _]. rewrite zlen_cons in Hm. pose proof (zlen_nonneg ks).
    destruct (key_piece_len p k Kp) as (Ls & _). cbn [get_loop]. unfold kLongestKeySize. rewrite Ls, decide_True by done.
    destruct (resetKey_ok hash p k (needle_ (session_ w)) Kp Lk Nd) as (nd' & -> & Nd' & Kn & Hn). cbn [obind].
    change (server_ (with_session _ _)) with (server_ w). rewrite (getItem_ok hash (server_ w) m nd' k) by done. cbn [obind].
    unfold get_lines. cbn [map concat]. fold (get_lines gets ks m). destruct (entries m !! k) as [e|] eqn:Ee; cbn [fmap option_fmap option_map].
    + destruct (Bk k e Ee) as (B1 & B2 & B3 & B4). pose proof (value_line_length k gets e B1 ltac:(lia) B3 B4) as Lv. pose proof (zlen_nonneg (e_value e)).
      destruct (output_ok hash k e gets (outputBuf_ (session_ w)) Wo) as (out & E & W' & C & S); [lia|lia|lia|lia|].
      change (outputBuf_ (session_ (with_session (with_needle nd' (session_ w)) w))) with (outputBuf_ (session_ w)). rewrite E. cbn [obind].
      destruct (IH F (with_session (with_output out (with_needle nd' (session_ w))) w)) as (nd2 & out2 & G & N2 & W2 & C2 & S2); [done|done|done|cbn [session_ outputBuf_ with_session with_output]; lia|].
      exists nd2, out2. split_and!; [|done|done| |].
      * etransitivity; [exact G|]. by destruct w as [srv cn [st pr rq nd ob br rp]].
      * rewrite C2. cbn [session_ outputBuf_ with_session with_output]. by rewrite C, <- app_assoc.
      * cbn [session_ outputBuf_ with_session with_output] in S2. rewrite zlen_cons. lia.
    + destruct (IH F (with_session (with_needle nd' (session_ w)) w)) as (nd2 & out2 & G & N2 & W2 & C2 & S2); [done|done|done|cbn [session_ outputBuf_ with_session with_needle]; lia|].
      exists nd2, out2. split_and!; [|done|done| |].
      * etransitivity; [exact G|]. by destruct w as [srv cn [st pr rq nd ob br rp]].
      * rewrite C2. done.
      * cbn [session_ outputBuf_ with_session with_needle] in S2. rewrite zlen_cons. lia.
Qed.

(** What is left of [T] bytes after a request *)
Lemma Bounded_less m T T' : Bounded m T -> T' <= T -> Bounded m T'.
Proof. intros (B & C1 & C2) H. split; [|lia]. intros k e E. destruct (B k e E). lia. Qed.

(** A request without data that answers [resp] *)
Definition completes (c : Command) (w : World) (m : Map) (T : Z) (r : outcome (bool * World)) : Prop :=
  exists w', r = Ret (true, w') /\ WorldOk w' (execute (startTime_ (server_ w)) c m).2 T /\ ses_state_ (session_ w') = kNewCommand /\
    answered w w' (execute (startTime_ (server_ w)) c m).1.

Lemma doGet_ok gets ks ps w m T rp (w0 := with_session (with_processed rp (with_request (mkRequest [] false kInvalid None 0) (session_ w))) w) :
  good_command (CGet gets ks) -> idle w -> WorldOk w m (zlen (command_text (CGet gets ks)) + T) -> 0 <= T -> Forall2 tok_piece ps ks ->
  completes (CGet gets ks) w m T (dispatch hash (if gets then bytes "gets" else bytes "get") ps w0).
Proof.
  intros G [St Rq] [R Bd Cn Pr Nd Wf Out Rm Sm] HT P. destruct G as [_ Gk].
  assert (zlen ks + 1 <= zlen (command_text (CGet gets ks))) as Lt.
  { unfold command_text, command_line. cbn [command_words is_noreply command_data join]. rewrite !zlen_app, !zlen_nil. assert (zlen kCRLF = 2) as -> by done.
    assert (zlen ks <= zlen (blank_words ks)); [|zlia]. clear. induction ks as [|k ks IH]; [done|]. rewrite zlen_blank_words, zlen_cons. zlia. }
  set (w1 := update_request (with_command (if gets then bytes "gets" else bytes "get")) w0).
  destruct (get_loop_ok gets ps ks w1 m (zlen (command_text (CGet gets ks)) + T) P Gk R Bd ltac:(zlia) Nd Wf) as (nd & out & E & N' & W' & C' & S').
  { change (outputBuf_ (session_ w1)) with (outputBuf_ (session_ w)). unfold max_size. zlia. }
  change (outputBuf_ (session_ w1)) with (outputBuf_ (session_ w)) in *.
  destruct (append_string_ok (CRLF (bytes "END")) out W') as (o2 & A & W2 & C2 & _ & S2); [done|unfold max_size; change (zlen (CRLF (bytes "END"))) with 5; zlia|].
  assert (dispatch hash (if gets then bytes "gets" else bytes "get") ps w0 =
    Ret (true, with_session (with_output (retrieveAll o2) (with_needle nd (session_ w1))) (with_conn (conn_write (content o2) (conn_ w)) w))) as ->.
  { unfold dispatch. fold w1. destruct gets; cbn [bool_decide policy_of is_Some].
    all: rewrite bool_decide_false by (apply (bool_decide_unpack _); vm_compute; exact Logic.I).
    all: rewrite decide_True by (first [by left|by right]). all: unfold doGet.
    - rewrite bool_decide_true by done. rewrite E. cbn [obind].
      change (outputBuf_ (session_ (with_session _ _))) with out. rewrite A. cbn [obind]. unfold conn_send_buffer. change (conn_ (with_session _ _)) with (conn_ w). rewrite Cn. done.
    - rewrite bool_decide_false by done. rewrite E. cbn [obind].
      change (outputBuf_ (session_ (with_session _ _))) with out. rewrite A. cbn [obind]. unfold conn_send_buffer. change (conn_ (with_session _ _)) with (conn_ w). rewrite Cn. done. }
  eexists. split; [done|]. unfold conn_write. rewrite Cn. cbn [execute fst snd].
  assert (content o2 = get_lines gets ks m ++ CRLF (bytes "END")) as Co by (rewrite C2, C', Out; done).
  split; [|split; [done|split; [|done]]].
  - destruct (retrieveAll_ok o2 W2) as [Wr Cr]. split; cbn [server_ conn_ session_ with_session with_conn with_output with_needle connected_ protocol_ needle_ outputBuf_]; try done.
    + eapply Bounded_less; [exact Bd|zlia].
    + unfold retrieveAll. cbn [buffer_]. change (zlen (CRLF (bytes "END"))) with 5 in *. zlia.
    + zlia.
  - rewrite Co. done.
Qed.

Lemma reply_sends msg w : connected_ (conn_ w) = true ->
  reply msg w = with_conn (mkConn (sent_ (conn_ w) ++ (if noreply_ (request_ (session_ w)) then [] else msg)) true) w.
Proof.
  intros C. unfold reply, conn_write. rewrite C. destruct w as [srv [sent cn] ses]. cbn in *. subst cn.
  destruct (noreply_ (request_ ses)); [by rewrite app_nil_r|done].
Qed.

Lemma delete_ok k nr p w m T rp (w0 := with_session (with_processed rp (with_request (mkRequest [] nr kInvalid None 0) (session_ w))) w) :
  good_command (CDelete k nr) -> idle w -> WorldOk w m (zlen (command_text (CDelete k nr)) + T) -> 0 <= T -> tok_piece p k ->
  completes (CDelete k nr) w m T (dispatch hash (bytes "delete") [p] w0).
Proof.
  intros [_ (Wk & _ & Lk & _)] [St Rq] [R Bd Cn Pr Nd Wf Out Rm Sm] HT [Kp _]. destruct (key_piece_len p k Kp) as (Ls & _).
  destruct (resetKey_ok hash p k (needle_ (session_ w)) Kp Lk Nd) as (nd & E & Nd' & Kn & Hn).
  destruct (deleteItem_ok hash (server_ w) m nd k R Kn Hn) as (srv & D & R' & S').
  pose proof (zlen_nonneg (command_text (CDelete k nr))).
  unfold dispatch. rewrite bool_decide_false by (apply (bool_decide_unpack _); vm_compute; exact Logic.I).
  rewrite decide_False, decide_True by (apply (bool_decide_unpack _); vm_compute; exact Logic.I).
  unfold doDelete. rewrite bool_decide_true by done. cbn [check deref next obind]. unfold kLongestKeySize. rewrite Ls, decide_True by done.
  change (needle_ (session_ (update_request _ w0))) with (needle_ (session_ w)). rewrite E. cbn [obind].
  change (server_ (with_session _ _)) with (server_ w). rewrite D. cbn [obind]. rewrite reply_sends by done.
  eexists. split; [done|]. cbn [execute fst snd]. split; [|split; [done|split; [done|done]]].
  - split; cbn [server_ conn_ session_ with_session with_conn with_server with_needle connected_ protocol_ needle_ outputBuf_ update_request with_request]; try done.
    + destruct Bd as (B & C1 & C2). split; [|cbn [counter]; lia]. intros k' e. cbn [entries]. intros [_ H']%lookup_delete_Some. destruct (B k' e H'). lia.
    + unfold w0. cbn [server_ conn_ session_ with_session with_processed with_request outputBuf_]. lia.
    + lia.
Qed.
Lemma version_ok w m T rp (w0 := with_session (with_processed rp (with_request (mkRequest [] false kInvalid None 0) (session_ w))) w) :
  idle w -> WorldOk w m (zlen (command_text CVersion) + T) -> 0 <= T -> completes CVersion w m T (dispatch hash (bytes "version") [] w0).
Proof.
  intros [St Rq] [R Bd Cn Pr Nd Wf Out Rm Sm] HT. pose proof (zlen_nonneg (command_text CVersion)).
  unfold dispatch. rewrite bool_decide_false by (apply (bool_decide_unpack _); vm_compute; exact Logic.I).
  rewrite !decide_False, decide_True by (apply (bool_decide_unpack _); vm_compute; exact Logic.I).
  rewrite reply_sends by done. eexists. split; [done|]. cbn [execute fst snd]. split; [|done].
  split; try done; [by eapply Bounded_less; [|]; [exact Bd|lia]|cbn [session_ with_conn outputBuf_]; change (outputBuf_ _) with (outputBuf_ (session_ w)); lia|lia].
Qed.

(** The line of an update *)
Definition entry_item (startTime : Z) (c : Command) (got : list byte) : option Item :=
  match c with
  | CUpdate p k f x v cas _ => Some (partial hash k f (relative_exptime startTime x) (zlen v + 2) (if decide (p = kCas) then cas else 0) got)
  | _ => None
  end.
Lemma policy_of_name p : p <> kInvalid -> policy_of (policy_name p) = Some p.
Proof. by destruct p. Qed.
Lemma read_numbers_ok ps f x n cas p :
  Forall2 tok_piece ps ([udec f; udec x; udec n] ++ (if decide (p = kCas) then [udec cas] else [])) ->
  0 <= f < 2 ^ 32 -> 0 <= x < 2 ^ 63 -> 0 <= n < 2 ^ 31 -> 0 <= cas < 2 ^ 64 ->
  read_numbers ps (bool_decide (p = kCas)) = Ret (Some (f, x, n, if decide (p = kCas) then cas else 0)).
Proof.
  intros P Hf Hx Hn Hc. inversion P as [|p1 ? ps1 ? H1 P1]; subst. inversion P1 as [|p2 ? ps2 ? H2 P2]; subst. inversion P2 as [|p3 ? ps3 ? H3 P3]; subst.
  unfold read_numbers. rewrite (read_ok p1 f) by (first [done|lia]). cbn [obind]. rewrite (read_ok p2 x) by (first [done|lia]). cbn [obind].
  rewrite (read_ok p3 n) by (first [done|lia]). cbn [obind]. rewrite (wrap_small 32 f), (swrap_small 64 x), (swrap_small 32 n) by lia.
  destruct (decide (p = kCas)) as [E|E].
  - rewrite bool_decide_true by done. inversion P3 as [|p4 ? ps4 ? H4 P4]; subst. rewrite (read_ok p4 cas) by done. done.
  - by rewrite bool_decide_false.
Qed.
Lemma update_line_ok p k f x v cas nr ps w rp (w0 := with_session (with_processed rp (with_request (mkRequest [] nr kInvalid None 0) (session_ w))) w) :
  good_command (CUpdate p k f x v cas nr) -> Forall2 tok_piece ps (tl (command_words (CUpdate p k f x v cas nr))) ->
  dispatch hash (policy_name p) ps w0 =
  Ret (false, with_session (with_state kReceiveValue (with_processed rp (with_request
    (mkRequest (policy_name p) nr p (entry_item (startTime_ (server_ w)) (CUpdate p k f x v cas nr) []) 0) (session_ w)))) w).
Proof.
  intros [_ (Hp & (_ & _ & Lk & _) & Hf & Hx & Hv & Hc)] P. cbn [command_words tl app] in P. inversion P as [|q ? ps' ? [Kq _] P']; subst.
  destruct (key_piece_len q k Kq) as (Ls & _). zlen_pos. unfold dispatch. rewrite (policy_of_name p Hp), bool_decide_true by done.
  unfold doUpdate. change (command_ _) with (policy_name p). rewrite (policy_of_name p Hp). cbn [deref next obind]. unfold kLongestKeySize. rewrite Ls, decide_True by done.
  rewrite (read_numbers_ok ps' f x (zlen v) cas p) by (first [done|lia]). cbn [obind]. rewrite decide_False by lia. rewrite (swrap_small 32 (zlen v + 2)) by lia.
  rewrite (makeItem_ok hash q k) by (first [done|lia]). cbn [obind]. done.
Qed.

(** ** Values in the input buffer *)

(** A session that has received [got] of the data of the update [c] *)
Definition receiving (w : World) (c : Command) (got : list byte) : Prop :=
  ses_state_ (session_ w) = kReceiveValue /\
  match c with
  | CUpdate p k f x v cas nr => request_ (session_ w) = mkRequest (policy_name p) nr p (entry_item (startTime_ (server_ w)) c got) 0
  | _ => False
  end.
Definition with_req (r : Request) (w : World) : World := with_session (with_request r (session_ w)) w.

Lemma WorldOk_req w m T r : WorldOk w m T -> WorldOk (with_req r w) m T.
Proof. intros []. by split. Qed.

(** One round of the loop that takes [d] of the data *)
Lemma receive_append c got w buf d rest :
  good_command c -> receiving w c got -> wf buf -> content buf = d ++ rest -> zlen got + zlen d <= zlen (command_data c) ->
  (rest = [] \/ zlen got + zlen d = zlen (command_data c)) ->
  exists it it' buf', currItem_ (request_ (session_ w)) = Some it /\ entry_item (startTime_ (server_ w)) c (got ++ d) = Some it' /\
    Z.min (readableBytes buf) (neededBytes it) = zlen d /\ item_append (zdrop (peek buf) (buffer_ buf)) (zlen d) it = Ret it' /\
    retrieve (zlen d) buf = Ret buf' /\ wf buf' /\ content buf' = rest /\ zlen (buffer_ buf') = zlen (buffer_ buf).
Proof.
  intros G [St Rq] W C Hd Hr. destruct c as [p k f x v cas nr|gets ks|k nr|]; try done. destruct G as [_ (Hp & (_ & _ & Lk & _) & Hf & Hx & Hv & Hc)].
  cbn [command_data entry_item] in *. assert (zlen kCRLF = 2) as L2 by done. rewrite zlen_app, L2 in Hd, Hr. zlen_pos.
  destruct (zdrop_peek buf W) as (q & Eq). pose proof (content_len buf W) as Lb. rewrite C, zlen_app in Lb.
  destruct (retrieve_ok (zlen d) buf W) as (buf' & R & W' & C' & S'); [zlia|].
  eexists _, _, buf'. rewrite Rq. cbn [currItem_]. split_and!; [done|done| | |done|done| |done].
  - destruct (partial_lengths hash k f (relative_exptime (startTime_ (server_ w)) x) (zlen v + 2) (if decide (p = kCas) then cas else 0) got) as (_ & -> & _); [lia..|].
    destruct Hr as [-> | Hr]; [rewrite zlen_nil in Lb|]; zlia.
  - rewrite item_append_ok by (rewrite ?Eq, ?C; zlia). do 2 f_equal. by rewrite Eq, C, <- app_assoc, ztake_app_l, ztake_all by zlia.
  - rewrite C', C, zdrop_app_r, Z.sub_diag by lia. by apply zdrop_0.
Qed.

Lemma receive_part c got w buf m T :
  good_command c -> receiving w c got -> WorldOk w m T -> wf buf -> zlen got + zlen (content buf) < zlen (command_data c) ->
  exists w' buf', receiveValue hash buf w = Ret (w', buf') /\ receiving w' c (got ++ content buf) /\ WorldOk w' m T /\ wf buf' /\ content buf' = [] /\
    zlen (buffer_ buf') = zlen (buffer_ buf) /\ conn_ w' = conn_ w /\ server_ w' = server_ w.
Proof.
  intros G Rc Ok W H. destruct (receive_append c got w buf (content buf) [] G Rc W) as (it & it' & buf' & E1 & E2 & E3 & E4 & E5 & W' & C' & S');
    [by rewrite app_nil_r|lia|by left|].
  pose proof Rc as [St Rq]. destruct c as [p k f x v cas nr|gets ks|k nr|]; try done. pose proof G as [_ (Hp & (_ & _ & Lk & _) & Hf & Hx & Hv & Hc)].
  cbn [command_data entry_item] in *. assert (zlen kCRLF = 2) as L2 by done. rewrite zlen_app, L2 in H. zlen_pos. injection E2 as E2.
  unfold receiveValue. rewrite E1, E3, E4. cbn [obind]. rewrite E5. cbn [obind]. rewrite <- E2.
  destruct (partial_lengths hash k f (relative_exptime (startTime_ (server_ w)) x) (zlen v + 2) (if decide (p = kCas) then cas else 0) (got ++ content buf)) as (_ & Nb & _); [lia|lia|zlia|].
  rewrite Nb, decide_False by zlia. eexists _, buf'. split; [done|]. split_and!; [|by apply (WorldOk_req w)|done..].
  split; [done|]. cbn [session_ request_ update_request with_session with_request server_ entry_item]. by rewrite Rq.
Qed.

Lemma update_cas p k f x v cas m :
  update p k (mkEntry f x v cas) m = update p k (mkEntry f x v (if decide (p = kCas) then cas else 0)) m.
Proof. destruct p; unfold update; destruct (entries m !! k); done. Qed.
Lemma Bounded_put k e m T T' : Bounded m T -> zlen k <= 250 -> T' + 1 <= T -> zlen (e_value e) + T' <= 2 ^ 30 -> 0 <= e_flags e < 2 ^ 32 -> 0 <= T' ->
  Bounded (put_entry k e m) T'.
Proof.
  intros (B & C1 & C2) Hk HT Hv Hf H0. unfold put_entry. split; [|cbn [counter]; lia]. intros k' e'. cbn [entries].
  intros [[<- <-] | [_ E]]%lookup_insert_Some; [cbn [e_value e_flags e_cas]; lia|]. destruct (B k' e' E). lia.
Qed.
Lemma Bounded_update p k f x v cas m T T' : Bounded m T -> zlen k <= 250 -> zlen v + 1 + T' <= T -> T <= 2 ^ 30 -> 0 <= f < 2 ^ 32 -> 0 <= T' ->
  Bounded (update p k (mkEntry f x v cas) m).2 T'.
Proof.
  intros B Hk HT HT' Hf H0. pose proof B as (Bk & _). zlen_pos.
  assert (Bounded m T') as Same by (eapply Bounded_less; [exact B|lia]).
  assert (Bounded (put_entry k (mkEntry f x v cas) m) T') as Put by (eapply Bounded_put; [exact B|..]; cbn [e_value e_flags]; lia).
  unfold update. destruct (entries m !! k) as [o|] eqn:E.
  - destruct (Bk k o E) as (B1 & B2 & B3 & B4). destruct p; cbn [snd]; try done; [..|by destruct (decide _)];
      (eapply Bounded_put; [exact B|lia|lia| |done|done]; cbn [e_value]; zlia).
  - by destruct p.
Qed.

Lemma receive_full c got d rest w buf m T :
  good_command c -> receiving w c got -> WorldOk w m (zlen (command_text c) + T) -> 0 <= T -> wf buf -> content buf = d ++ rest -> got ++ d = command_data c ->
  exists w' buf', receiveValue hash buf w = Ret (w', buf') /\ idle w' /\ WorldOk w' (execute (startTime_ (server_ w)) c m).2 T /\
    answered w w' (execute (startTime_ (server_ w)) c m).1 /\ wf buf' /\ content buf' = rest /\ zlen (buffer_ buf') = zlen (buffer_ buf).
Proof.
  intros G Rc Ok HT W C Eg. pose proof (f_equal zlen Eg) as Lg. rewrite zlen_app in Lg.
  destruct (receive_append c got w buf d rest G Rc W C) as (it & it' & buf' & E1 & E2 & E3 & E4 & E5 & W' & C' & S'); [lia|by right|].
  pose proof Rc as [St Rq]. destruct c as [p k f x v cas nr|gets ks|k nr|]; try done. pose proof G as [_ (Hp & (_ & _ & Lk & _) & Hf & Hx & Hv & Hc)].
  destruct Ok as [R Bd Cn Pr Nd Wf Out Rm Sm]. set (T0 := zlen (command_text _) + T) in *.
  assert (zlen v + 1 + T <= T0) as HT0 by (unfold T0, command_text; cbn [command_data]; assert (zlen kCRLF = 2) by done; zlia).
  cbn [command_data entry_item] in *. set (e := mkEntry f (relative_exptime (startTime_ (server_ w)) x) v (if decide (p = kCas) then cas else 0)).
  assert (it' = item_of hash k e) as -> by (injection E2 as <-; unfold item_of, e; cbn [e_flags e_exptime e_value e_cas]; by rewrite Eg). zlen_pos.
  destruct (item_of_lengths hash k e) as (N0 & _); [cbn [e e_value]; lia|]. pose proof (item_of_CRLF hash k e ltac:(cbn [e e_value]; lia)) as Ecr.
  destruct (storeItem_ok hash (server_ w) m k e p R) as (srv & Es & R' & S0).
  { destruct Bd as (_ & ? & ?). lia. }
  { done. }
  { cbn [e e_value]. lia. }
  { intros o Eo. destruct Bd as (Bk & _). destruct (Bk k o Eo). cbn [e e_value]. lia. }
  unfold receiveValue. rewrite E1, E3, E4. cbn [obind]. rewrite E5. cbn [obind]. rewrite N0, decide_True, Ecr by done. cbn [obind].
  change (server_ (update_request _ w)) with (server_ w). assert (policy_ (request_ (session_ (update_request (with_currItem (Some (item_of hash k e))) w))) = p) as ->
    by (cbn [session_ request_ update_request with_session with_request]; by rewrite Rq).
  rewrite Es. cbn [obind]. rewrite reply_sends by done. eexists _, buf'. split; [done|]. split; [done|].
  cbn [execute]. rewrite update_cas. fold e. destruct (update p k e m) as [[st ex] m'] eqn:Eu. cbn [fst snd] in *. split_and!; [|split; [|done]|done..].
  - split; cbn [server_ conn_ session_ with_session with_conn with_server connected_ protocol_ needle_ outputBuf_ update_request with_request goto resetRequest with_state]; try done.
    + replace m' with (update p k e m).2 by (by rewrite Eu). eapply Bounded_update; [exact Bd|..]; lia.
    + lia.
    + lia.
  - cbn [server_ conn_ session_ with_session with_conn with_server update_request with_request goto resetRequest with_state request_ noreply_ with_currItem sent_]. rewrite Rq. done.
Qed.

(** ** Any number of requests *)

Definition texts (cs : list Command) : list byte := concat (map command_text cs).
Fixpoint execute_all (startTime : Z) (cs : list Command) (m : Map) : list byte * Map :=
  match cs with
  | [] => ([], m)
  | c :: cs =>
      let (resp, m) := execute startTime c m in
      let (resps, m) := execute_all startTime cs m in
      (resp ++ resps, m)
  end.

(** A request that is only a line *)
Lemma quick_ok c p ps w m T rp :
  good_command c -> idle w -> WorldOk w m (zlen (command_text c) + T) -> 0 <= T -> command_data c = [] -> Forall2 tok_piece (p :: ps) (command_words c) ->
  completes c w m T (dispatch hash (hd [] (command_words c)) ps
    (with_session (with_processed rp (with_request (mkRequest [] (is_noreply c) kInvalid None 0) (session_ w))) w)).
Proof.
  intros G Id Ok HT Ed P. destruct c as [pol k f x v cas nr|gets ks|k nr|]; cbn [command_words hd is_noreply] in *; apply Forall2_cons in P as [_ P].
  - cbn [command_data] in Ed. by apply app_eq_nil in Ed as [_ Ed].
  - by apply doGet_ok.
  - inversion P as [|p1 ? ps1 ? P1 P2]; subst. inversion P2; subst. by apply delete_ok.
  - inversion P; subst. by apply version_ok.
Qed.

(** One round of the loop that takes the line of [c]: the session is after it, or it has answered. *)
Lemma loop_line fuel c rest w buf m T :
  good_command c -> idle w -> WorldOk w m (zlen (command_text c) + T) -> 0 <= T -> wf buf -> content buf = command_line c ++ kCRLF ++ rest ->
  exists w' buf', onMessage_loop hash (S fuel) w buf = onMessage_loop hash fuel w' buf' /\
    wf buf' /\ content buf' = rest /\ zlen (buffer_ buf') = zlen (buffer_ buf) /\
    ((command_data c <> [] /\ receiving w' c [] /\ WorldOk w' m (zlen (command_text c) + T) /\ conn_ w' = conn_ w /\ server_ w' = server_ w) \/
     (command_data c = [] /\ idle w' /\ WorldOk w' (execute (startTime_ (server_ w)) c m).2 T /\ answered w w' (execute (startTime_ (server_ w)) c m).1)).
Proof.
  intros G Id Ok HT W C. pose proof Id as [St Rq]. pose proof G as [Lc _].
  destruct (take_line buf (command_line c) rest W C (CR_line c G)) as (crlf & buf' & F & Lf & R & W' & C' & S' & q & Eq).
  destruct (processRequest_start c q w G Id) as (p & ps & P & E). pose proof (zlen_nonneg (command_line c)).
  assert (readableBytes buf > 0) as Rd by (pose proof (content_len buf W) as L; rewrite C in L; assert (zlen kCRLF = 2) by done; zlia).
  cbn [onMessage_loop]. rewrite decide_True by done. rewrite St, (wo_protocol _ _ _ Ok). cbn [obind].
  rewrite decide_False by (rewrite (wo_protocol _ _ _ Ok); done). rewrite F, Lf, swrap_small, Eq, E by lia.
  destruct (decide (command_data c = [])) as [Ed|Ed].
  - destruct (quick_ok c p ps w m T (u64 (requestsProcessed_ (session_ w) + 1)) G Id Ok HT Ed P) as (w1 & -> & Ok1 & St1 & A1).
    cbn [obind]. rewrite R. cbn [obind]. exists (resetRequest w1), buf'. split_and!; [done..|]. right. split_and!; [done|done|by apply (WorldOk_req w1)|done].
  - destruct c as [pol k f x v cas nr|gets ks|k nr|]; try done. apply Forall2_cons in P as [_ P]. cbn [command_words hd app]. cbn [is_noreply].
    rewrite (update_line_ok pol k f x v cas nr) by done. cbn [obind]. rewrite R. cbn [obind].
    eexists _, buf'. split_and!; [done..|]. left. split_and!; [done|done| |done|done]. destruct Ok. by split.
Qed.

(** The session has received [q] of the requests [cs]: the line of the first one, or the line and some of its data. *)
Definition pending (w : World) (buf : Buffer) (cs : list Command) (q : list byte) : Prop :=
  (idle w /\ content buf = q) \/
  (exists c cs' got, cs = c :: cs' /\ receiving w c got /\ zlen got < zlen (command_data c) /\ q = command_line c ++ kCRLF ++ got ++ content buf).
(** The first of the requests has not been received. *)
Definition waiting (cs : list Command) (q : list byte) : Prop :=
  match cs with [] => q = [] | c :: _ => zlen q < zlen (command_text c) end.
(** Some of the requests are executed, and for the next one the session waits. *)
Definition handled (w : World) (buf : Buffer) (cs : list Command) (q : list byte) (m : Map) (T : Z) (r : outcome (World * Buffer)) : Prop :=
  exists done rest q' w' buf', r = Ret (w', buf') /\ cs = done ++ rest /\ q = texts done ++ q' /\ waiting rest q' /\ pending w' buf' rest q' /\
    WorldOk w' (execute_all (startTime_ (server_ w)) done m).2 (zlen (texts rest) + T) /\
    answered w w' (execute_all (startTime_ (server_ w)) done m).1 /\ wf buf' /\ zlen (buffer_ buf') = zlen (buffer_ buf).

Lemma handled_cons c cs q w w1 buf buf1 m T r :
  answered w w1 (execute (startTime_ (server_ w)) c m).1 -> zlen (buffer_ buf1) = zlen (buffer_ buf) ->
  handled w1 buf1 cs q (execute (startTime_ (server_ w)) c m).2 T r -> handled w buf (c :: cs) (command_text c ++ q) m T r.
Proof.
  intros [Ec Es] Sz (done & rest & q' & w' & buf' & Er & E1 & E2 & Wt & Pd & Ok & [Ec' Es'] & W & Sz'). rewrite Es in *.
  exists (c :: done), rest, q', w', buf'. cbn [execute_all]. destruct (execute (startTime_ (server_ w)) c m) as [resp m1]. cbn [fst snd] in *.
  destruct (execute_all (startTime_ (server_ w)) done m1) as [resps m2]. cbn [fst snd] in *. split_and!; try done.
  - by rewrite E1.
  - unfold texts. cbn [map concat]. fold (texts done). by rewrite E2, app_assoc.
  - split; [|done]. rewrite Ec', Ec. cbn [sent_]. by rewrite app_assoc.
  - lia.
Qed.
Lemma handled_same w w1 buf buf1 cs q m T r :
  conn_ w1 = conn_ w -> server_ w1 = server_ w -> zlen (buffer_ buf1) = zlen (buffer_ buf) -> handled w1 buf1 cs q m T r -> handled w buf cs q m T r.
Proof.
  intros Ec Es Sz (done & rest & q' & w' & buf' & Er & E1 & E2 & Wt & Pd & Ok & [Ec' Es'] & W & Sz'). rewrite Es in *. rewrite Ec in *.
  exists done, rest, q', w', buf'. split_and!; try done. lia.
Qed.
(** Nothing more to do *)
Lemma handled_nothing w buf cs q m T :
  waiting cs q -> pending w buf cs q -> WorldOk w m (zlen (texts cs) + T) -> wf buf -> handled w buf cs q m T (Ret (w, buf)).
Proof.
  intros Wt Pd Ok W. exists [], cs, q, w, buf. split_and!; try done. pose proof (wo_conn _ _ _ Ok) as Cn. split; [|done].
  destruct (conn_ w) as [snt cn]. cbn [connected_ sent_ execute_all fst] in *. by rewrite app_nil_r, Cn.
Qed.

Lemma texts_cons c cs : texts (c :: cs) = command_line c ++ kCRLF ++ command_data c ++ texts cs.
Proof. unfold texts, command_text. cbn [map concat]. by rewrite <- !app_assoc. Qed.

(** The loop executes the requests that are complete. *)
Lemma loop_stops fuel w buf : (0 < fuel)%nat -> wf buf -> content buf = [] -> onMessage_loop hash fuel w buf = Ret (w, buf).
Proof.
  intros Hf W C. destruct fuel as [|fuel]; [lia|]. cbn [onMessage_loop]. pose proof (content_len buf W) as L. rewrite C in L.
  rewrite decide_False by (rewrite <- L; unfold zlen; cbn [length]; lia). done.
Qed.
(** A line that is not complete stays in the buffer. *)
Lemma loop_no_line fuel c w buf m T : (0 < fuel)%nat ->
  good_command c -> idle w -> WorldOk w m T -> wf buf -> content buf `prefix_of` command_line c ++ [CR] -> onMessage_loop hash fuel w buf = Ret (w, buf).
Proof.
  intros Hf G [St Rq] Ok W P. destruct fuel as [|fuel]; [lia|]. cbn [onMessage_loop]. destruct (decide (readableBytes buf > 0)) as [_|_]; [|done].
  rewrite St, (wo_protocol _ _ _ Ok). cbn [obind]. rewrite decide_False by (rewrite (wo_protocol _ _ _ Ok); done).
  rewrite (no_line buf (content buf) (command_line c)) by (first [done|by apply CR_line]). pose proof (content_len buf W) as L.
  apply prefix_length in P. rewrite length_app in P. destruct G as [Lc _]. rewrite decide_False; [done|]. rewrite <- L. unfold zlen in *. cbn [length] in P. lia.
Qed.

Lemma loop_ok fuel w buf cs q more m T :
  pending w buf cs q -> Forall good_command cs -> q ++ more = texts cs -> WorldOk w m (zlen (texts cs) + T) -> 0 <= T -> wf buf ->
  zlen (content buf) < Z.of_nat fuel -> handled w buf cs q m T (onMessage_loop hash fuel w buf).
Proof.
  revert w buf cs q m. induction fuel as [|fuel IH]; intros w buf cs q m Pd F Eq Ok HT W Hf; [zlia|]. assert (zlen kCRLF = 2) as L2 by done.
  destruct Pd as [[Id <-] | (c & cs' & got & -> & Rc & Lg & ->)].
  - destruct cs as [|c cs]; [apply app_eq_nil in Eq as [Eq _]; rewrite loop_stops by (first [done|lia]); apply handled_nothing; first [done|by left]|].
    apply Forall_cons in F as [G F]. rewrite texts_cons in Eq. rewrite app_assoc in Eq.
    destruct (decide (zlen (command_line c ++ kCRLF) <= zlen (content buf))) as [Ll|Ll].
    + destruct (prefix_split _ _ _ _ Eq Ll) as (q2 & C & E2). rewrite <- app_assoc in C. clear Eq.
      assert (zlen (texts (c :: cs)) + T = zlen (command_text c) + (zlen (texts cs) + T)) as EL by (unfold texts; cbn [map concat]; zlia).
      rewrite EL in Ok. pose proof (zlen_nonneg (texts cs)).
      destruct (loop_line fuel c q2 w buf m (zlen (texts cs) + T) G Id Ok ltac:(lia) W C) as (w' & buf' & -> & W' & C' & S' & D). rewrite C in *.
      destruct D as [(Nd & Rc & Ok' & Ec & Es) | (Nd & Id' & Ok' & A)].
      * apply (handled_same w w' buf buf'); [done..|]. apply (IH w' buf' (c :: cs)); [right|by constructor| |by rewrite EL|done|done|rewrite C'; zlia].
        -- exists c, cs, []. rewrite C'. split_and!; [done|done| |done]. destruct (command_data c); [done|zlia].
        -- by rewrite texts_cons, <- E2, <- !app_assoc.
      * rewrite Nd, app_nil_l in E2. assert (command_text c = command_line c ++ kCRLF) as Et by (unfold command_text; by rewrite Nd, app_nil_r).
        rewrite app_assoc, <- Et. apply (handled_cons c cs q2 w w' buf buf'); [done..|].
        apply IH; [by left|done|done|done|done|done|rewrite C'; zlia].
    + rewrite (loop_no_line _ c w buf m (zlen (texts (c :: cs)) + T)); [|lia|done|done|done|done|].
      * apply handled_nothing; [cbn [waiting]; unfold command_text; zlia|by left|done|done].
      * change kCRLF with ([CR] ++ [Byte.x0a]) in Eq. rewrite (app_assoc _ [CR]), <- (app_assoc _ [Byte.x0a]) in Eq. eapply prefix_short; [exact Eq|]. unfold zlen in *. rewrite !length_app in *. cbn [length kCRLF] in *. lia.
  - apply Forall_cons in F as [G F]. rewrite texts_cons, <- !app_assoc in Eq. do 2 apply app_inv_head in Eq.
    assert (zlen (texts (c :: cs')) + T = zlen (command_text c) + (zlen (texts cs') + T)) as EL by (unfold texts; cbn [map concat]; zlia).
    pose proof (zlen_nonneg (texts cs')). destruct (decide (content buf = [])) as [Eb|Eb].
    { rewrite loop_stops by (first [done|lia]). apply handled_nothing; [|right; by exists c, cs', got|done|done].
      rewrite Eb. cbn [waiting]. unfold command_text. rewrite app_nil_r. zlia. }
    assert (0 < zlen (content buf)) as Lb by (destruct (content buf); [done|zlia]). rewrite EL in Ok.
    assert (onMessage_loop hash (S fuel) w buf = let* (w, buf) := receiveValue hash buf w in onMessage_loop hash fuel w buf) as ->.
    { cbn [onMessage_loop]. rewrite decide_True by (rewrite <- (content_len buf W); lia). by rewrite (proj1 Rc). }
    rewrite app_assoc in Eq. destruct (decide (zlen got + zlen (content buf) < zlen (command_data c))) as [Lt|Ge].
    + destruct (receive_part c got w buf m _ G Rc Ok W Lt) as (w' & buf' & -> & Rc' & Ok' & W' & C' & S' & Ec & Es). cbn [obind].
      rewrite loop_stops by (first [done|lia]). apply (handled_same w w' buf buf'); [done..|]. apply handled_nothing; [| |by rewrite EL|done].
      * cbn [waiting]. unfold command_text. zlia.
      * right. exists c, cs', (got ++ content buf). rewrite C'. split_and!; [done|done|zlia|]. by rewrite app_nil_r.
    + destruct (prefix_split _ _ _ _ Eq) as (q2 & E1 & E2); [zlia|]. assert (zlen got <= zlen (command_data c)) as Lg' by lia.
      destruct (prefix_split (command_data c) q2 got (content buf)) as (d & Ed & Ec); [by rewrite E1|lia|].
      destruct (receive_full c got d q2 w buf m (zlen (texts cs') + T) G Rc Ok ltac:(lia) W) as (w' & buf' & -> & Id' & Ok' & A & W' & C' & S'); [done|done|]. cbn [obind].
      replace (command_line c ++ kCRLF ++ got ++ content buf) with (command_text c ++ q2) by (unfold command_text; by rewrite E1, <- !app_assoc).
      apply (handled_cons c cs' q2 w w' buf buf'); [done..|]. apply IH; [by left|done|done|done|done|done|]. rewrite C'.
      assert (0 < zlen d) by (rewrite Ed in Lg; zlia). rewrite <- Ec in Hf. zlia.
Qed.

Lemma onMessage_ok w buf cs q more m T :
  pending w buf cs q -> Forall good_command cs -> q ++ more = texts cs -> WorldOk w m (zlen (texts cs) + T) -> 0 <= T -> wf buf ->
  handled w buf cs q m T (onMessage hash w buf).
Proof.
  intros Pd F Eq Ok HT W. pose proof (content_len buf W) as L.
  destruct (loop_ok (S (Z.to_nat (readableBytes buf))) w buf cs q more m T Pd F Eq Ok HT W) as (done & rest & q' & w' & buf' & E & R); [zlia|].
  unfold onMessage. rewrite E. cbn [obind]. eexists done, rest, q', _, buf'. split; [done|].
  destruct R as (E1 & E2 & Wt & Pd' & Ok' & A & W' & S'). split_and!; try done. destruct Ok'. by split.
Qed.

(** A session after the server was used by another one *)
Lemma WorldOk_move w1 w2 m1 m2 T1 T2 : WorldOk w1 m1 T1 -> WorldOk w2 m2 T2 -> T1 <= T2 -> WorldOk (with_server (server_ w1) w2) m1 T1.
Proof. intros [R Bd ? ? ? ? ? ? ?] [? ? ? ? ? ? ? ? ?] H. split; try done. cbn [session_ with_server]. lia. Qed.
Lemma pending_move w srv buf cs q : startTime_ srv = startTime_ (server_ w) -> pending w buf cs q -> pending (with_server srv w) buf cs q.
Proof.
  intros E [[Id C] | (c & cs' & got & -> & [St Rc] & L & P)]; [left; by split|]. right. exists c, cs', got. split_and!; [done| |done|done].
  split; [done|]. cbn [session_ server_ with_server]. rewrite E. exact Rc.
Qed.
End SessionProofs.
