(* ===== verification/MemcacheServer.v ===== *)
(** * The memcached server with its connections (src/muduo/examples/memcached/server/MemcacheServer.cc)

    Connections come up, have input in pieces, and go down; each has its own session and all share one store.
    The file shows that the sessions together answer like one map that executes the requests one after the other, on a server with one IO thread:
    with several, which is the default of server.cc, only the accesses to the store are atomic, and a [get] of several keys is not ([get_of_two_keys]). *)

From S2P Require Import Prelude Format StringPiece LogStream Buffer Http Lines Conn MemcacheStore Memcache.

(** ** The server and its connections *)

(** The connections by their names, with their input buffers, and the sessions *)
Record System := mkSystem { sys_server : Server; sys_conns : gmap (list byte) (Conn * Buffer); sessions_ : gmap (list byte) Session }.
Inductive Event := EUp (n : list byte) | EData (n d : list byte) | EDown (n : list byte).

Section Systems.
Context (hash : list byte -> Z).

(** [MemcacheServer::onConnection] *)
Definition onConnection (connected : bool) (n : list byte) (sys : System) : outcome System :=
  if connected then
    let* ses := newSession hash in
    assert* bool_decide (sessions_ sys !! n = None) in
    Ret (mkSystem (sys_server sys) (sys_conns sys) (<[n := ses]> (sessions_ sys)))
  else
    assert* bool_decide (is_Some (sessions_ sys !! n)) in
    Ret (mkSystem (sys_server sys) (sys_conns sys) (delete n (sessions_ sys))).

(** A connection comes up, has input, or goes down. The handlers of one loop run one after the other, so that each is one step. *)
Definition sys_step (e : Event) (sys : System) : outcome System :=
  match e with
  | EUp n =>
      let* buf := newBuffer kInitialSize in
      onConnection true n (mkSystem (sys_server sys) (<[n := (mkConn [] true, buf)]> (sys_conns sys)) (sessions_ sys))
  | EData n d =>
      match sys_conns sys !! n, sessions_ sys !! n with
      | Some (cn, buf), Some ses =>
          let* buf := append_bytes d buf in
          let* (w, buf) := onMessage hash (mkWorld (sys_server sys) cn ses) buf in
          Ret (mkSystem (server_ w) (<[n := (conn_ w, buf)]> (sys_conns sys)) (<[n := session_ w]> (sessions_ sys)))
      | _, _ => Stop OutOfRange
      end
  | EDown n =>
      match sys_conns sys !! n with
      | Some (cn, buf) => onConnection false n (mkSystem (sys_server sys) (<[n := (conn_shutdown cn, buf)]> (sys_conns sys)) (sessions_ sys))
      | None => Stop OutOfRange
      end
  end.
Fixpoint sys_run (evs : list Event) (sys : System) : outcome System :=
  match evs with
  | [] => Ret sys
  | e :: evs => let* sys := sys_step e sys in sys_run evs sys
  end.
Definition newSystem (now : Z) : System := mkSystem (mkServer ∅ 0 (now - 1) false) ∅ ∅.
End Systems.

(** Connections come up once, and have input while they are up. *)
Fixpoint legal (seen up : gset (list byte)) (evs : list Event) : Prop :=
  match evs with
  | [] => True
  | EUp n :: evs => n ∉ seen /\ legal ({[n]} ∪ seen) ({[n]} ∪ up) evs
  | EData n _ :: evs => n ∈ up /\ legal seen up evs
  | EDown n :: evs => n ∈ up /\ legal seen (up ∖ {[n]}) evs
  end.
(** What a connection received *)
Definition received (n : list byte) (evs : list Event) : list byte :=
  concat (map (fun e => match e with EData n' d => if decide (n' = n) then d else [] | _ => [] end) evs).

(** Requests of many connections, one after the other: those of one connection, its answers, and the map *)
Abbreviation History := (list (list byte * Command)).
Definition own (n : list byte) (h : History) : list Command := map snd (filter (fun x => x.1 = n) h).
Fixpoint answers (startTime : Z) (n : list byte) (h : History) (m : Map) : list byte :=
  match h with
  | [] => []
  | (n', c) :: h => (if decide (n' = n) then (execute startTime c m).1 else []) ++ answers startTime n h (execute startTime c m).2
  end.
Definition final (startTime : Z) (h : History) (m : Map) : Map := fold_left (fun m x => (execute startTime x.2 m).2) h m.

Lemma own_app n h1 h2 : own n (h1 ++ h2) = own n h1 ++ own n h2.
Proof. unfold own. by rewrite filter_app, map_app. Qed.
Lemma own_same n cs : own n (map (pair n) cs) = cs.
Proof.
  unfold own. induction cs as [|c cs IH]; [done|]. cbn [map]. rewrite filter_cons_True by done. cbn [map]. by rewrite IH.
Qed.
Lemma own_other n n' cs : n' <> n -> own n (map (pair n') cs) = [].
Proof.
  intros N. unfold own. induction cs as [|c cs IH]; [done|]. cbn [map]. by rewrite filter_cons_False.
Qed.
Lemma final_app st h1 h2 m : final st (h1 ++ h2) m = final st h2 (final st h1 m).
Proof. apply fold_left_app. Qed.
Lemma answers_app st n h1 h2 m : answers st n (h1 ++ h2) m = answers st n h1 m ++ answers st n h2 (final st h1 m).
Proof.
  revert m. induction h1 as [|[n' c] h1 IH]; intros m; [done|]. cbn [app answers]. by rewrite IH, <- app_assoc.
Qed.
Lemma history_same st n cs m : answers st n (map (pair n) cs) m = (execute_all st cs m).1 /\ final st (map (pair n) cs) m = (execute_all st cs m).2.
Proof.
  revert m. induction cs as [|c cs IH]; intros m; [done|]. cbn [map answers execute_all]. rewrite decide_True by done. unfold final. cbn [fold_left snd].
  fold (final st (map (pair n) cs) (execute st c m).2). destruct (execute st c m) as [resp m1]. cbn [fst snd]. destruct (IH m1) as [-> ->].
  by destruct (execute_all st cs m1).
Qed.
Lemma answers_other st n n' cs m : n' <> n -> answers st n (map (pair n') cs) m = [].
Proof. intros N. revert m. induction cs as [|c cs IH]; intros m; [done|]. cbn [map answers]. by rewrite decide_False, IH. Qed.

(** ** The invariant of a run *)

(** The bytes of the requests that are not executed *)
Definition weight (rest : gmap (list byte) (list Command)) : Z := map_fold (fun _ cs t => zlen (texts cs) + t) 0 rest.
Abbreviation requests n rest := (default [] ((rest : gmap (list byte) (list Command)) !! n)).
Lemma weight_insert n cs rest : weight (<[n := cs]> rest) = zlen (texts cs) + weight (delete n rest).
Proof.
  rewrite <- insert_delete_eq. unfold weight. rewrite map_fold_insert_L; [done| |apply lookup_delete_eq]. intros. lia.
Qed.
Lemma weight_split n rest : weight rest = zlen (texts (requests n rest)) + weight (delete n rest).
Proof.
  destruct (rest !! n) as [cs|] eqn:E; cbn [default from_option id].
  - rewrite <- weight_insert. by rewrite insert_id.
  - by rewrite delete_id.
Qed.
Lemma weight_nonneg rest : 0 <= weight rest.
Proof.
  unfold weight. apply (map_fold_weak_ind (fun t _ => 0 <= t)); [done|]. intros. zlia.
Qed.
Lemma texts_app a b : texts (a ++ b) = texts a ++ texts b.
Proof. unfold texts. by rewrite map_app, concat_app. Qed.

Lemma pending_append hash w buf buf' cs q d : content buf' = content buf ++ d -> pending hash w buf cs q -> pending hash w buf' cs (q ++ d).
Proof.
  intros C [[Id <-] | (c & cs' & got & -> & Rc & L & ->)]; [left; by rewrite C|]. right. exists c, cs', got. rewrite C, <- !app_assoc. done.
Qed.

Definition empty_map : Map := mkMap ∅ 0.

Section Linearization.
Context (hash : list byte -> Z) (script : gmap (list byte) (list Command)) (start : Z).

(** The session of [n], which has received [q] after the requests that are executed *)
Definition ClientOk (sys : System) (rcv : list byte -> list byte) (rest : gmap (list byte) (list Command)) (m : Map) (n : list byte) (ses : Session) (q : list byte) : Prop :=
  exists cn buf, sys_conns sys !! n = Some (cn, buf) /\ pending hash (mkWorld (sys_server sys) cn ses) buf (requests n rest) q /\
    WorldOk hash (mkWorld (sys_server sys) cn ses) m (weight rest) /\ wf buf /\ zlen (buffer_ buf) <= 2 ^ 11 + zlen (rcv n).
(** After the requests [h] were executed, with [rest] to come and [rcv] received *)
Record Inv (sys : System) (seen up : gset (list byte)) (rcv : list byte -> list byte) (rest : gmap (list byte) (list Command)) (h : History) : Prop := mkInv {
  i_dom : dom (sessions_ sys) = up;
  i_up : up ⊆ seen;
  i_new : forall n, n ∉ seen -> rcv n = [] /\ own n h = [];
  i_script : forall n, exists q, requests n script = own n h ++ requests n rest /\ rcv n = texts (own n h) ++ q /\ waiting (requests n rest) q /\
    forall ses, sessions_ sys !! n = Some ses -> ClientOk sys rcv rest (final start h empty_map) n ses q;
  i_sent : forall n, n ∈ seen -> exists cn buf, sys_conns sys !! n = Some (cn, buf) /\ sent_ cn = answers start n h empty_map;
  i_store : StoreRep hash (sys_server sys) (final start h empty_map);
  i_bounded : Bounded (final start h empty_map) (weight rest);
  i_weight : weight rest <= 2 ^ 30;
  i_start : startTime_ (sys_server sys) = start }.

Lemma newSession_ok srv m T :
  StoreRep hash srv m -> Bounded m T -> 0 <= T <= 2 ^ 30 ->
  exists ses, newSession hash = Ret ses /\ idle (mkWorld srv (mkConn [] true) ses) /\ WorldOk hash (mkWorld srv (mkConn [] true) ses) m T.
Proof.
  intros R B HT. unfold newSession. rewrite (makeItem_ok hash _ kLongestKey).
  - cbn [obind]. destruct (newBuffer_ok kInitialSize) as (out & -> & W & C & _ & _ & L); [by vm_compute|]. cbn [obind].
    eexists. split; [done|]. split; [done|]. split; try done; cbn [session_ outputBuf_]. rewrite L. unfold kCheapPrepend, kInitialSize. lia.
  - destruct (sp_of_string_wf kLongestKey) as [W C]; [done|]. by split.
  - lia.
  - by vm_compute.
Qed.

Lemma up_ok n sys m T :
  StoreRep hash (sys_server sys) m -> Bounded m T -> 0 <= T <= 2 ^ 30 -> sessions_ sys !! n = None ->
  exists ses buf, sys_step hash (EUp n) sys = Ret (mkSystem (sys_server sys) (<[n := (mkConn [] true, buf)]> (sys_conns sys)) (<[n := ses]> (sessions_ sys))) /\
    idle (mkWorld (sys_server sys) (mkConn [] true) ses) /\ WorldOk hash (mkWorld (sys_server sys) (mkConn [] true) ses) m T /\
    wf buf /\ content buf = [] /\ zlen (buffer_ buf) <= 2 ^ 11.
Proof.
  intros R B HT Es. destruct (newSession_ok (sys_server sys) m T R B HT) as (ses & En & Id & Ok).
  destruct (newBuffer_ok kInitialSize) as (buf & Eb & W & C & _ & _ & L); [by vm_compute|].
  exists ses, buf. split_and!; [|done..|rewrite L; unfold kCheapPrepend, kInitialSize; lia].
  unfold sys_step. rewrite Eb. cbn [obind]. unfold onConnection. rewrite En. cbn [obind]. by rewrite bool_decide_true.
Qed.
(** A connection without requests has no answers. *)
Lemma answers_none n h m : own n h = [] -> answers start n h m = [].
Proof.
  unfold own. revert m. induction h as [|[n' c] h IH]; intros m No; [done|]. cbn [answers].
  destruct (decide (n' = n)) as [->|Nn]; [by rewrite filter_cons_True in No|]. rewrite filter_cons_False in No by done. by apply IH.
Qed.

Lemma inv_up n sys seen up rcv rest h :
  Inv sys seen up rcv rest h -> n ∉ seen -> exists sys', sys_step hash (EUp n) sys = Ret sys' /\ Inv sys' ({[n]} ∪ seen) ({[n]} ∪ up) rcv rest h.
Proof.
  intros [Dm Up Nw Sc Sn St Bd Wt Sr] Hn. pose proof (weight_nonneg rest) as W0.
  assert (sessions_ sys !! n = None) as Es by (apply not_elem_of_dom; rewrite Dm; clear - Up Hn; set_solver).
  destruct (up_ok n sys _ _ St Bd (conj W0 Wt) Es) as (ses & buf & E & Id & Ok & W & C & L). eexists. split; [exact E|]. clear E.
  destruct (Nw n Hn) as [Nr No]. split; cbn [sys_server sys_conns sessions_]; try done.
  - rewrite dom_insert_L. by rewrite Dm.
  - clear - Up. set_solver.
  - intros n' Hn'. apply Nw. clear - Hn'. set_solver.
  - intros n'. destruct (Sc n') as (q & E1 & E2 & Wq & Cl). exists q. split_and!; [done..|]. intros ses'. cbn [sessions_]. rewrite lookup_insert_Some.
    intros [[<- <-] | [Nn Hs]].
    + rewrite Nr, No in E2. cbn [texts map concat app] in E2. exists (mkConn [] true), buf. cbn [sys_conns sys_server]. rewrite lookup_insert_eq.
      split_and!; [done|left; by rewrite C, E2|done|done|zlia].
    + destruct (Cl ses' Hs) as (cn & b & El & P). exists cn, b. cbn [sys_conns sys_server]. by rewrite lookup_insert_ne.
  - intros n' Hn'. destruct (decide (n' = n)) as [->|Nn].
    + exists (mkConn [] true), buf. rewrite lookup_insert_eq. split; [done|]. cbn [sent_]. by rewrite answers_none.
    + rewrite lookup_insert_ne by done. apply Sn. clear - Hn' Nn. set_solver.
Qed.

Lemma inv_down n sys seen up rcv rest h :
  Inv sys seen up rcv rest h -> n ∈ up -> exists sys', sys_step hash (EDown n) sys = Ret sys' /\ Inv sys' seen (up ∖ {[n]}) rcv rest h.
Proof.
  intros [Dm Up Nw Sc Sn St Bd Wt Sr] Hn. destruct (Sn n) as (cn & buf & El & Es); [by apply Up|].
  assert (is_Some (sessions_ sys !! n)) as Hs by (apply elem_of_dom; by rewrite Dm).
  eexists. split; [unfold sys_step; rewrite El; unfold onConnection; cbn [sessions_]; by rewrite bool_decide_true|].
  split; cbn [sys_server sys_conns sessions_]; try done.
  - rewrite dom_delete_L. by rewrite Dm.
  - clear - Up. set_solver.
  - intros n'. destruct (Sc n') as (q & E1 & E2 & Wq & Cl). exists q. split_and!; [done..|]. intros ses'. cbn [sessions_]. rewrite lookup_delete_Some.
    intros [Nn Hs']. destruct (Cl ses' Hs') as (cn' & b & El' & P). exists cn', b. cbn [sys_conns sys_server]. by rewrite lookup_insert_ne.
  - intros n' Hn'. destruct (decide (n' = n)) as [->|Nn]; [rewrite lookup_insert_eq; by eexists _, _|]. rewrite lookup_insert_ne by done. by apply Sn.
Qed.

Definition rcv_more (n d : list byte) (rcv : list byte -> list byte) (n' : list byte) : list byte := rcv n' ++ (if decide (n = n') then d else []).
(** The requests are well formed and small enough together. *)
Definition good_script : Prop := (forall n cs, script !! n = Some cs -> Forall good_command cs) /\ weight script <= 2 ^ 30.
Lemma good_requests n : good_script -> Forall good_command (requests n script).
Proof. intros [G _]. destruct (script !! n) as [cs|] eqn:E; [by apply (G n)|constructor]. Qed.

(** The step of one connection *)
Lemma data_ok n d sys seen up rcv rest h :
  good_script -> Inv sys seen up rcv rest h -> n ∈ up -> rcv n ++ d `prefix_of` texts (requests n script) ->
  exists done cs q ses cn buf srv, sys_step hash (EData n d) sys = Ret (mkSystem srv (<[n := (cn, buf)]> (sys_conns sys)) (<[n := ses]> (sessions_ sys))) /\
    requests n rest = done ++ cs /\ rcv n ++ d = texts (own n h ++ done) ++ q /\ waiting cs q /\
    pending hash (mkWorld srv cn ses) buf cs q /\ WorldOk hash (mkWorld srv cn ses) (execute_all start done (final start h empty_map)).2 (weight (<[n := cs]> rest)) /\
    sent_ cn = answers start n h empty_map ++ (execute_all start done (final start h empty_map)).1 /\ startTime_ srv = start /\
    wf buf /\ zlen (buffer_ buf) <= 2 ^ 11 + zlen (rcv n ++ d).
Proof.
  intros G [Dm Up Nw Sc Sn St Bd Wt Sr] Hn [more Pf]. destruct (Sc n) as (q & E1 & E2 & Wq & Cl).
  assert (is_Some (sessions_ sys !! n)) as [ses Es] by (apply elem_of_dom; by rewrite Dm).
  destruct (Cl ses Es) as (cn & buf & El & Pd & Ok & W & Sz). destruct (Sn n (Up _ Hn)) as (cn' & buf' & El' & Sent).
  rewrite El in El'. injection El' as <- <-. pose proof (good_requests n G) as Gr. rewrite E1 in Gr. apply Forall_app in Gr as [_ Gr].
  rewrite E1, E2, texts_app, <- !app_assoc in Pf. apply app_inv_head in Pf. pose proof (weight_nonneg (delete n rest)).
  pose proof (proj2 G) as Gw. rewrite (weight_split n), E1, texts_app, zlen_app in Gw. pose proof (weight_nonneg (delete n script)).
  pose proof (f_equal zlen Pf) as Lp. rewrite !zlen_app in Lp. rewrite (weight_split n) in Ok, Wt. zlen_pos.
  assert (zlen (rcv n) = zlen (texts (own n h)) + zlen q) as Lr by (rewrite E2; apply zlen_app).
  destruct (append_bytes_ok d buf W) as (buf1 & Ea & W1 & C1 & _ & S1); [unfold max_size in *; zlia|].
  destruct (onMessage_ok hash (mkWorld (sys_server sys) cn ses) buf1 (requests n rest) (q ++ d) more _ _ (pending_append hash _ _ _ _ _ _ C1 Pd) Gr
    ltac:(by rewrite <- app_assoc) Ok ltac:(lia) W1) as (done & cs & q' & w' & buf' & Eo & Ec & Eq & Wq' & Pd' & Ok' & [A1 A2] & W' & S').
  cbn [server_] in *. rewrite Sr in *. destruct w' as [srv cn2 ses2]. cbn [server_ conn_] in *.
  exists done, cs, q', ses2, cn2, buf', srv. split_and!; try done.
  - unfold sys_step. rewrite El, Es, Ea. cbn [obind]. rewrite Eo. cbn [obind]. done.
  - by rewrite E2, <- app_assoc, Eq, texts_app, <- app_assoc.
  - by rewrite weight_insert.
  - rewrite A1. cbn [sent_]. by rewrite Sent.
  - rewrite zlen_app. lia.
Qed.

Lemma inv_data n d sys seen up rcv rest h :
  good_script -> Inv sys seen up rcv rest h -> n ∈ up -> rcv n ++ d `prefix_of` texts (requests n script) ->
  exists sys' rest' h', sys_step hash (EData n d) sys = Ret sys' /\ h `prefix_of` h' /\ Inv sys' seen up (rcv_more n d rcv) rest' h'.
Proof.
  intros G I Hn Pf. destruct (data_ok n d sys seen up rcv rest h G I Hn Pf) as (done & cs & q & ses & cn & buf & srv & E & Er & Eq & Wq & Pd & Ok & Es & Et & W & Sz).
  destruct I as [Dm Up Nw Sc Sn St Bd Wt Sr]. set (m := final start h empty_map) in *.
  exists (mkSystem srv (<[n := (cn, buf)]> (sys_conns sys)) (<[n := ses]> (sessions_ sys))), (<[n := cs]> rest), (h ++ map (pair n) done).
  split; [done|]. split; [by eexists|]. clear E. destruct (history_same start n done m) as [Ha Hf].
  assert (weight (<[n := cs]> rest) <= weight rest) as Lw by (rewrite weight_insert, (weight_split n rest), Er, texts_app; zlia).
  assert (final start (h ++ map (pair n) done) empty_map = (execute_all start done m).2) as Fm by (by rewrite final_app).
  split; cbn [sys_server sys_conns sessions_]; rewrite ?Fm; try done.
  - rewrite dom_insert_L, Dm. clear - Hn. set_solver.
  - intros n' Hn'. destruct (Nw n' Hn') as [Nr No]. assert (n <> n') as Nn by (intros ->; apply Hn'; by apply Up).
    unfold rcv_more. rewrite Nr, decide_False, own_app, No, own_other by done. done.
  - intros n'. unfold rcv_more. destruct (decide (n = n')) as [<-|Nn].
    + exists q. rewrite lookup_insert_eq, own_app, own_same. cbn [default from_option id]. destruct (Sc n) as (q0 & E1 & _).
      split_and!; [by rewrite E1, Er, app_assoc|done|done|]. intros ses'. cbn [sessions_]. rewrite lookup_insert_eq. intros [= <-].
      exists cn, buf. cbn [sys_conns sys_server]. rewrite !lookup_insert_eq. cbn [default from_option id]. rewrite decide_True by done. done.
    + destruct (Sc n') as (q' & E1 & E2 & Wq' & Cl). exists q'. rewrite lookup_insert_ne, own_app, own_other, !app_nil_r by done. split_and!; [done..|].
      intros ses'. cbn [sessions_]. rewrite lookup_insert_ne by done. intros Hs. destruct (Cl ses' Hs) as (cn' & b' & El & Pd' & Ok' & W' & Sz').
      exists cn', b'. cbn [sys_conns sys_server]. rewrite !lookup_insert_ne, decide_False, app_nil_r by done. split_and!; [done| | |done|done].
      * apply (pending_move hash (mkWorld (sys_server sys) cn' ses')); [cbn [server_]; congruence|done].
      * exact (WorldOk_move hash _ _ _ _ _ _ Ok Ok' Lw).
  - intros n' Hn'. rewrite answers_app. fold m. destruct (decide (n = n')) as [<-|Nn].
    + rewrite lookup_insert_eq, Ha. by eexists _, _.
    + rewrite lookup_insert_ne, answers_other, app_nil_r by done. by apply Sn.
  - apply (wo_store _ _ _ _ Ok).
  - apply (wo_bounded _ _ _ _ Ok).
  - lia.
Qed.


Lemma received_cons n e evs : received n (e :: evs) = received n [e] ++ received n evs.
Proof. unfold received. cbn [map concat]. by rewrite app_nil_r. Qed.
Lemma inv_step e evs sys seen up rcv rest h :
  good_script -> Inv sys seen up rcv rest h -> legal seen up (e :: evs) -> (forall n, rcv n ++ received n [e] `prefix_of` texts (requests n script)) ->
  exists sys' seen' up' rcv' rest' h', sys_step hash e sys = Ret sys' /\ Inv sys' seen' up' rcv' rest' h' /\ legal seen' up' evs /\ h `prefix_of` h' /\
    (forall n, rcv' n = rcv n ++ received n [e]) /\ (forall n, n ∈ seen \/ e = EUp n -> n ∈ seen').
Proof.
  intros G I L P. destruct e as [n|n d|n]; destruct L as [Hn L].
  - destruct (inv_up n sys seen up rcv rest h I Hn) as (sys' & E & I'). exists sys', ({[n]} ∪ seen), ({[n]} ∪ up), rcv, rest, h. split_and!; try done.
    + intros n'. by rewrite app_nil_r.
    + intros n' [H | [= ->]]; apply elem_of_union; [by right|left; by apply elem_of_singleton].
  - destruct (inv_data n d sys seen up rcv rest h G I Hn) as (sys' & rest' & h' & E & Ph & I').
    { specialize (P n). unfold received in P. cbn [map concat] in P. by rewrite decide_True, app_nil_r in P. }
    exists sys', seen, up, (rcv_more n d rcv), rest', h'. split_and!; try done.
    + intros n'. unfold rcv_more, received. cbn [map concat]. by rewrite app_nil_r.
    + by intros n' [H | H].
  - destruct (inv_down n sys seen up rcv rest h I Hn) as (sys' & E & I'). exists sys', seen, (up ∖ {[n]}), rcv, rest, h. split_and!; try done.
    + intros n'. by rewrite app_nil_r.
    + by intros n' [H | H].
Qed.

Lemma inv_run evs sys seen up rcv rest h :
  good_script -> Inv sys seen up rcv rest h -> legal seen up evs -> (forall n, rcv n ++ received n evs `prefix_of` texts (requests n script)) ->
  exists hs : nat -> History, hs O = h /\ forall i, hs i `prefix_of` hs (S i) /\
    exists sys' seen' up' rcv' rest', sys_run hash (take i evs) sys = Ret sys' /\ Inv sys' seen' up' rcv' rest' (hs i) /\
      (forall n, rcv' n = rcv n ++ received n (take i evs)) /\ (forall n, n ∈ seen \/ EUp n ∈ take i evs -> n ∈ seen').
Proof.
  intros G. revert sys seen up rcv rest h. induction evs as [|e evs IH]; intros sys seen up rcv rest h I L P.
  - exists (fun _ => h). split; [done|]. intros i. split; [done|]. rewrite take_nil. exists sys, seen, up, rcv, rest. split_and!; try done.
    + intros n. by rewrite app_nil_r.
    + intros n [H | H]; [done|by apply not_elem_of_nil in H].
  - destruct (inv_step e evs sys seen up rcv rest h G I L) as (sys1 & seen1 & up1 & rcv1 & rest1 & h1 & E1 & I1 & L1 & P1 & R1 & S1).
    { intros n. etransitivity; [|apply P]. rewrite (received_cons n e evs), app_assoc. by eexists. }
    destruct (IH sys1 seen1 up1 rcv1 rest1 h1 I1 L1) as (hs & H0 & Hs); [intros n; by rewrite R1, <- app_assoc, <- received_cons|].
    exists (fun i => match i with O => h | S i => hs i end). split; [done|]. intros [|i].
    + split; [by rewrite H0|]. exists sys, seen, up, rcv, rest. split_and!; try done.
      * intros n. by rewrite app_nil_r.
      * intros n [H | H]; [done|by apply not_elem_of_nil in H].
    + destruct (Hs i) as (Pi & sys' & seen' & up' & rcv' & rest' & Er & Ii & Ri & Si). split; [done|]. exists sys', seen', up', rcv', rest'. cbn [take]. split_and!.
      * cbn [sys_run]. by rewrite E1.
      * done.
      * intros n. by rewrite Ri, R1, (received_cons n e (take i evs)), app_assoc.
      * intros n [H | H]; [apply Si; left; apply S1; by left|]. apply elem_of_cons in H as [H | H]; [apply Si; left; apply S1; by right|apply Si; by right].
Qed.
End Linearization.

(** What a run has done when the requests [h] were executed: of the requests of each connection the complete ones in the order they came,
    with their answers sent, and the store is their map. *)
Definition Executed (hash : list byte -> Z) (script : gmap (list byte) (list Command)) (start : Z) (evs : list Event) (h : History) (sys : System) : Prop :=
  (forall n, exists cs q, requests n script = own n h ++ cs /\ received n evs = texts (own n h) ++ q /\ waiting cs q) /\
  (forall n, EUp n ∈ evs -> exists cn buf, sys_conns sys !! n = Some (cn, buf) /\ sent_ cn = answers start n h empty_map) /\
  StoreRep hash (sys_server sys) (final start h empty_map).

Lemma inv_init hash script now : good_script script -> Inv hash script (now - 1) (newSystem now) ∅ ∅ (fun _ => []) script [].
Proof.
  intros [_ Gw]. split; try done.
  - intros n. exists []. split_and!; try done. destruct (requests n script) as [|c cs]; [done|]. cbn [waiting]. unfold command_text. assert (zlen kCRLF = 2) by done. zlia.
  - split; [|cbn; lia]. intros k e. cbn. by rewrite lookup_empty.
Qed.


(** ** Two connections *)

#[export] Instance good_command_dec c : Decision (good_command c).
Proof. unfold good_command, good_key, word. destruct c; apply _. Defined.
Definition example_script : gmap (list byte) (list Command) :=
  <[bytes "a" := [CUpdate kSet (bytes "k") 7 0 (bytes "one") 0 false; CGet false [bytes "k"; bytes "j"]]]>
  (<[bytes "b" := [CUpdate kAppend (bytes "k") 0 0 (bytes "two") 0 false; CDelete (bytes "k") true; CGet true [bytes "k"]]]> ∅).
(** [b] appends between the request of [a] and its value: nothing is there yet. *)
Definition example_events : list Event :=
  [EUp (bytes "a"); EUp (bytes "b");
   EData (bytes "a") (bytes "set k 7 0 3" ++ kCRLF ++ bytes "o");
   EData (bytes "b") (bytes "append k 0 0 3" ++ kCRLF ++ bytes "two" ++ kCRLF ++ bytes "dele");
   EData (bytes "a") (bytes "ne" ++ kCRLF ++ bytes "get k j" ++ kCRLF);
   EDown (bytes "a");
   EData (bytes "b") (bytes "te k noreply" ++ kCRLF ++ bytes "gets k" ++ kCRLF)].

Lemma example_answers :
  match sys_run (fun k => zlen k) example_events (newSystem 1000) with
  | Ret sys => (fun c => sent_ c.1) <$> sys_conns sys
  | Stop _ => ∅
  end =
  <[bytes "a" := bytes "STORED" ++ kCRLF ++ bytes "VALUE k 7 3" ++ kCRLF ++ bytes "one" ++ kCRLF ++ bytes "END" ++ kCRLF]>
  (<[bytes "b" := bytes "NOT_STORED" ++ kCRLF ++ bytes "END" ++ kCRLF]> ∅).
Proof. apply (bool_decide_unpack _). vm_compute. exact Logic.I. Qed.

(** ** Several IO threads *)

(** The shards are locked for each key. A thread gets [j], another one stores [j] and [k], and the first one gets [k]: it answers with the old value of [j] and the new one of [k], which no order of the requests as wholes gives. *)
Definition value_item (k v : list byte) : Item := item_of (fun k => zlen k) k (mkEntry 0 0 v 0).
Definition found (k : list byte) (s : Server) : outcome (option (list byte)) :=
  let* it := getItem (value_item k []) s in Ret ((fun it => ztake (valuelen_ it - 2) (item_value it)) <$> it).
Definition put (k v : list byte) (s : Server) : outcome Server := let* (_, s) := storeItem (fun k => zlen k) (value_item k v) kSet s in Ret s.
Example get_of_two_keys :
  (let* s0 := put (bytes "j") (bytes "old") (mkServer ∅ 0 999 false) in
   let* j := found (bytes "j") s0 in
   let* s1 := put (bytes "j") (bytes "new") s0 in
   let* s2 := put (bytes "k") (bytes "new") s1 in
   let* k := found (bytes "k") s2 in
   let* k0 := found (bytes "k") s0 in
   let* k1 := found (bytes "k") s1 in
   let* j2 := found (bytes "j") s2 in
   Ret ((j, k), (k0, k1), j2)) =
  Ret ((Some (bytes "old"), Some (bytes "new")), (None, None), Some (bytes "new")).
Proof. vm_compute. done. Qed.

(** ** Requests that the code does not expect *)

(** One connection that sends [d] *)
Definition one_client (d : list byte) : outcome System := sys_run (fun k => zlen k) [EUp (bytes "a"); EData (bytes "a") d] (newSystem 1000).
Definition one_client_sent (d : list byte) : option (list byte) :=
  match one_client d with Ret sys => (fun c => sent_ c.1) <$> sys_conns sys !! bytes "a" | Stop _ => None end.

(** An update or a deletion without a key dereferences the end of the tokens. *)
Lemma no_key_undefined : one_client (CRLF (bytes "set")) = Stop OutOfRange /\ one_client (CRLF (bytes "delete noreply")) = Stop OutOfRange.
Proof. vm_compute. done. Qed.
(** A length of -1 (or of 2^32 - 1) fails an assertion of [Item]. *)
Lemma negative_length_aborts : one_client (CRLF (bytes "set k 0 0 -1")) = Stop AssertFailed /\ one_client (CRLF (bytes "set k 0 0 4294967295")) = Stop AssertFailed.
Proof. vm_compute. done. Qed.
(** The values found before a bad key are sent with the next [get]. *)
Lemma stale_values_sent :
  one_client_sent (CRLF (bytes "set k 0 0 1") ++ CRLF (bytes "v") ++ CRLF (bytes "get k " ++ replicate 251 Byte.x61) ++ CRLF (bytes "get j")) =
  Some (CRLF (bytes "STORED") ++ CRLF (bytes "CLIENT_ERROR bad command line format") ++ CRLF (bytes "VALUE k 0 1") ++ CRLF (bytes "v") ++ CRLF (bytes "END")).
Proof. vm_compute. done. Qed.
(** [bytes + 2] overflows for the longest value; then nearly 2^64 bytes are discarded. *)
Lemma discard_overflows :
  match one_client (CRLF (bytes "set k 0 0 2147483647")) with
  | Ret sys => (fun s => bytesToDiscard_ (request_ s)) <$> sessions_ sys !! bytes "a"
  | Stop _ => None
  end = Some (2 ^ 64 - 2 ^ 31 + 1).
Proof. vm_compute. done. Qed.
