(* ===== verification/Packet.v ===== *)
(** * Packets of the multiplexer example (src/muduo/examples/multiplexer/)

    multiplexer_simple.cc and demux.cc send the data of many connections over one, in packets of
    at most 255 bytes with a header: a byte for the length and two for the number of the connection. The code that
    frames and reads packets is the same in both programs. *)

From S2P Require Import Prelude Format StringPiece Buffer.

Definition kMaxPacketLen : Z := 255.
Definition kHeaderLen : Z := 3.

(** The header that [sendBackendPacket] and [sendServerPacket] put before the contents of a buffer *)
Definition header (len id : Z) : list byte := [z2b (u8 len); z2b (u8 (Z.land id 255)); z2b (u8 (Z.shiftr (Z.land id 65280) 8))].
Definition add_header (id : Z) (buf : Buffer) : outcome Buffer :=
  let len := readableBytes buf in
  assert* bool_decide (len <= kMaxPacketLen) in
  prepend (header len id) kHeaderLen buf.

Section Packets.
Context {A : Type}.

(** Cutting a buffer into packets *)
Fixpoint cut_loop (fuel : nat) (send : Buffer -> A -> outcome (A * Buffer)) (buf : Buffer) (s : A) : outcome (A * Buffer) :=
  match fuel with
  | O => Stop NoFuel
  | S fuel =>
      if decide (readableBytes buf > kMaxPacketLen) then
        let* packet := newBuffer kInitialSize in
        let* packet := append (zdrop (peek buf) (buffer_ buf)) kMaxPacketLen packet in
        let* buf := retrieve kMaxPacketLen buf in
        let* (s, _) := send packet s in
        cut_loop fuel send buf s
      else if decide (readableBytes buf > 0) then send buf s
      else Ret (s, buf)
  end.

Definition byte_at (i : Z) (buf : Buffer) : outcome Z := omap b2z (sp_at (sp_of_ptr (content buf) 0) i).

(** Taking packets off a buffer: [handle] is what is done for the packet of a connection. *)
Fixpoint packets_loop (fuel : nat) (handle : Z -> list byte -> A -> outcome A) (buf : Buffer) (s : A) : outcome (A * Buffer) :=
  match fuel with
  | O => Stop NoFuel
  | S fuel =>
      if decide (readableBytes buf > kHeaderLen) then
        let* len := byte_at 0 buf in
        if decide (readableBytes buf < len + kHeaderLen) then Ret (s, buf)
        else
          let* lo := byte_at 1 buf in
          let* hi := byte_at 2 buf in
          let id := Z.lor lo (Z.shiftl hi 8) in
          let* s := handle id (ztake len (zdrop kHeaderLen (content buf))) s in
          let* buf := retrieve (u64 (len + kHeaderLen)) buf in
          packets_loop fuel handle buf s
      else Ret (s, buf)
  end.
Definition packets_fuel (buf : Buffer) : nat := S (Z.to_nat (readableBytes buf)).

(** ** The packets and their bytes *)

Definition Packet : Type := Z * list byte.
Definition encode (p : Packet) : list byte := header (zlen p.2) p.1 ++ p.2.
Definition encodes (ps : list Packet) : list byte := concat (map encode ps).
Definition good_packet (p : Packet) : Prop := 0 <= p.1 < 2 ^ 16 /\ 0 < zlen p.2 <= kMaxPacketLen.
(** [q] is not a whole packet of those to come. *)
Definition partial_packet (q : list byte) (rest : list Packet) : Prop :=
  (exists more, q ++ more = encodes rest) /\ match rest with [] => True | p :: _ => zlen q < zlen (encode p) end.

Fixpoint handles (handle : Z -> list byte -> A -> outcome A) (ps : list Packet) (s : A) : outcome A :=
  match ps with
  | [] => Ret s
  | p :: ps => let* s := handle p.1 p.2 s in handles handle ps s
  end.
Lemma handles_app handle ps1 ps2 s : handles handle (ps1 ++ ps2) s = let* s := handles handle ps1 s in handles handle ps2 s.
Proof. revert s. induction ps1 as [|p ps1 IH]; intros s; [done|]. cbn [app handles]. destruct (handle p.1 p.2 s); [cbn [obind]; apply IH|done]. Qed.

Lemma id_of_header id : 0 <= id < 2 ^ 16 -> Z.lor (Z.land id 255) (Z.shiftl (Z.shiftr (Z.land id 65280) 8) 8) = id.
Proof.
  intros H. apply Z.bits_inj'. intros n Hn. rewrite Z.lor_spec, Z.land_spec. change 255 with (Z.ones 8).
  destruct (decide (n < 8)).
  - rewrite Z.ones_spec_low, Z.shiftl_spec_low by lia. by rewrite andb_true_r, orb_false_r.
  - rewrite Z.ones_spec_high, andb_false_r, orb_false_l, Z.shiftl_spec, Z.shiftr_spec, Z.land_spec by lia.
    replace (n - 8 + 8) with n by lia. change 65280 with (Z.shiftl (Z.ones 8) 8). rewrite Z.shiftl_spec by lia.
    destruct (decide (n < 16)); [by rewrite Z.ones_spec_low, andb_true_r by lia|]. rewrite Z.ones_spec_high, andb_false_r by lia.
    symmetry. apply Z.bits_above_log2; [lia|]. destruct (decide (id = 0)) as [->|]; [cbn; lia|]. apply Z.log2_lt_pow2; [lia|].
    apply Z.lt_le_trans with (2 ^ 16); [lia|]. apply Z.pow_le_mono_r; lia.
Qed.

Lemma encode_length p : zlen (encode p) = 3 + zlen p.2.
Proof. unfold encode. rewrite zlen_app. done. Qed.
Lemma add_header_ok id buf : wf buf -> kCheapPrepend <= readerIndex_ buf -> zlen (content buf) <= kMaxPacketLen ->
  exists buf', add_header id buf = Ret buf' /\ wf buf' /\ content buf' = encode (id, content buf) /\ zlen (buffer_ buf') = zlen (buffer_ buf).
Proof.
  intros W Hr Hl. pose proof (content_len buf W) as L. assert (zlen (header (readableBytes buf) id) = 3) as Lh by done. unfold add_header. rewrite bool_decide_true by lia. cbn [check].
  destruct (prepend_ok (header (readableBytes buf) id) kHeaderLen buf W) as (b & -> & W' & C & S & _); [unfold kHeaderLen; lia|unfold kHeaderLen, prependableBytes, kCheapPrepend in *; lia|].
  exists b. split_and!; [done|done| |done]. rewrite C. unfold encode. cbn [fst snd]. by rewrite L, (ztake_all kHeaderLen).
Qed.

(** The header at the front of the contents *)
Lemma byte_at_ok i (buf : Buffer) b : 0 <= i -> content buf !! Z.to_nat i = Some b -> byte_at i buf = Ret (b2z b).
Proof. intros H E. unfold byte_at, sp_at, sp_of_ptr. cbn [ptr_]. rewrite decide_True, E by lia. done. Qed.
Lemma header_read p buf rest : good_packet p -> content buf = encode p ++ rest ->
  byte_at 0 buf = Ret (zlen p.2) /\ (exists lo hi, byte_at 1 buf = Ret lo /\ byte_at 2 buf = Ret hi /\ Z.lor lo (Z.shiftl hi 8) = p.1) /\
  ztake (zlen p.2) (zdrop kHeaderLen (content buf)) = p.2.
Proof.
  intros [Hi Hl] C. unfold kMaxPacketLen in *. unfold encode, header in C. cbn [app] in C. split_and!.
  - rewrite (byte_at_ok 0 buf (z2b (u8 (zlen p.2)))) by (first [lia|by rewrite C]). by rewrite b2z_z2b, wrap_small, Z.mod_small by lia.
  - eexists _, _. rewrite (byte_at_ok 1 buf (z2b (u8 (Z.land p.1 255)))), (byte_at_ok 2 buf (z2b (u8 (Z.shiftr (Z.land p.1 65280) 8)))) by (first [lia|by rewrite C]).
    split_and!; [done..|]. rewrite !b2z_z2b. rewrite <- (id_of_header p.1 Hi) at 3.
    assert (0 <= Z.land p.1 255 < 256) by (change 255 with (Z.ones 8); rewrite Z.land_ones by lia; apply Z.mod_pos_bound; lia).
    assert (0 <= Z.shiftr (Z.land p.1 65280) 8 < 256).
    { change 65280 with (Z.shiftl (Z.ones 8) 8). rewrite Z.shiftr_land, Z.shiftr_shiftl_l, Z.sub_diag, Z.shiftl_0_r, Z.land_ones by lia. apply Z.mod_pos_bound. lia. }
    by rewrite !wrap_small, !Z.mod_small by lia.
  - assert (zdrop kHeaderLen (content buf) = p.2 ++ rest) as -> by (by rewrite C). rewrite ztake_app_l, ztake_all by lia. done.
Qed.

Lemma packets_stop fuel handle buf s q rest : (0 < fuel)%nat -> wf buf -> content buf = q -> partial_packet q rest -> Forall good_packet rest ->
  packets_loop fuel handle buf s = Ret (s, buf).
Proof.
  intros Hf W C [[more E] P] F. destruct fuel as [|fuel]; [lia|]. cbn [packets_loop]. pose proof (content_len buf W) as L. rewrite C in L.
  destruct (decide (readableBytes buf > kHeaderLen)) as [Hr|]; [|done]. unfold kHeaderLen in *. destruct rest as [|p rest].
  - apply app_eq_nil in E as [E _]. rewrite E, zlen_nil in L. lia.
  - apply Forall_cons in F as [[_ G] _]. unfold kMaxPacketLen in G. rewrite encode_length in P.
    assert (q !! O = Some (z2b (u8 (zlen p.2)))) as E0.
    { pose proof (f_equal (fun l => l !! O) E) as E0. cbn in E0. destruct q as [|b q]; [rewrite zlen_nil in L; lia|]. cbn in E0. done. }
    rewrite (byte_at_ok 0 buf (z2b (u8 (zlen p.2)))) by (first [lia|by rewrite C]). cbn [obind].
    rewrite b2z_z2b, wrap_small, Z.mod_small by lia. rewrite decide_True by lia. done.
Qed.
Lemma packets_loop_ok handle ps q rest fuel buf s s' :
  wf buf -> content buf = encodes ps ++ q -> partial_packet q rest -> Forall good_packet ps -> Forall good_packet rest ->
  handles handle ps s = Ret s' -> zlen (content buf) < Z.of_nat fuel ->
  exists buf', packets_loop fuel handle buf s = Ret (s', buf') /\ wf buf' /\ content buf' = q /\ zlen (buffer_ buf') = zlen (buffer_ buf).
Proof.
  intros W C P F1 F2. revert fuel buf s W C. induction F1 as [|p ps G F1 IH]; intros fuel buf s W C H Hf.
  - injection H as <-. exists buf. rewrite (packets_stop fuel handle buf s q rest) by (first [done|zlia]). done.
  - destruct fuel as [|fuel]; [zlia|]. cbn [handles] in H. destruct (handle p.1 p.2 s) as [s1|] eqn:E1; [|done]. cbn [obind] in H.
    unfold encodes in C. cbn [map concat] in C. rewrite <- app_assoc in C. fold (encodes ps) in C.
    destruct (header_read p buf (encodes ps ++ q) G C) as (B0 & (lo & hi & B1 & B2 & Ei) & Ed). destruct G as [_ Gl]. unfold kMaxPacketLen in Gl.
    pose proof (content_len buf W) as L. pose proof (encode_length p) as Le. rewrite C, zlen_app, Le in L. pose proof (zlen_nonneg (encodes ps ++ q)). unfold kHeaderLen in *.
    destruct (retrieve_ok (zlen p.2 + 3) buf W) as (buf1 & R & W1 & C1 & S1); [lia|]. rewrite C in C1.
    replace (zlen p.2 + 3) with (zlen (encode p)) in C1 by lia. rewrite zdrop_app_r, Z.sub_diag, zdrop_0 in C1 by lia.
    destruct (IH fuel buf1 s1 W1 C1 H) as (buf' & E & W' & C' & S'); [rewrite C1; rewrite C, zlen_app, Le in Hf; lia|].
    exists buf'. split_and!; [|done|done|lia]. cbn [packets_loop]. unfold kHeaderLen. rewrite decide_True by lia. rewrite B0. cbn [obind].
    rewrite decide_False by lia. rewrite B1. cbn [obind]. rewrite B2. cbn [obind]. rewrite Ei, Ed, E1. cbn [obind]. by rewrite wrap_small, R by lia.
Qed.

(** ** Cutting *)

Fixpoint pieces (fuel : nat) (d : list byte) : list (list byte) :=
  match fuel with
  | O => []
  | S fuel => if decide (zlen d > kMaxPacketLen) then ztake kMaxPacketLen d :: pieces fuel (zdrop kMaxPacketLen d)
              else if decide (zlen d > 0) then [d] else []
  end.
Definition cut (d : list byte) : list (list byte) := pieces (S (length d)) d.
Lemma pieces_ok fuel d : (length d < fuel)%nat -> concat (pieces fuel d) = d /\ Forall (fun x => 0 < zlen x <= kMaxPacketLen) (pieces fuel d).
Proof.
  revert d. induction fuel as [|fuel IH]; intros d Hf; [lia|]. cbn [pieces]. unfold kMaxPacketLen in *. repeat case_decide.
  - destruct (IH (zdrop 255 d)) as [E F]; [unfold zdrop; rewrite length_drop; unfold zlen in *; lia|]. cbn [concat]. rewrite E, ztake_zdrop. split; [done|].
    constructor; [|done]. rewrite zlen_ztake by lia. lia.
  - cbn [concat]. rewrite app_nil_r. split; [done|]. by repeat constructor; lia.
  - destruct d; [done|]. zlia.
Qed.
Lemma cut_ok d : concat (cut d) = d /\ Forall (fun x => 0 < zlen x <= kMaxPacketLen) (cut d).
Proof. apply pieces_ok. lia. Qed.

(** A buffer that a header fits in front of *)
Definition roomy (b : Buffer) : Prop := wf b /\ kCheapPrepend <= readerIndex_ b.
Lemma retrieve_roomy n b : roomy b -> 0 <= n <= readableBytes b ->
  exists b', retrieve n b = Ret b' /\ roomy b' /\ content b' = zdrop n (content b) /\ zlen (buffer_ b') = zlen (buffer_ b).
Proof.
  intros [W R] H. destruct (retrieve_ok n b W H) as (b' & E & W' & C & S). exists b'. split_and!; [done| |done|done]. split; [done|].
  unfold retrieve in E. rewrite bool_decide_true in E by lia. injection E as <-. case_decide; [|done]. cbn [readerIndex_].
  destruct W as (W1 & W2 & W3). rewrite readable_ok in H by done. unfold max_size in W2. rewrite wrap_small by lia. lia.
Qed.
Lemma new_roomy : exists b, newBuffer kInitialSize = Ret b /\ roomy b /\ content b = [] /\ zlen (buffer_ b) = kCheapPrepend + kInitialSize.
Proof.
  destruct (newBuffer_ok kInitialSize) as (b & E & W & C & _ & R & L); [by vm_compute|]. exists b. split_and!; try done. split; [done|]. lia.
Qed.
Lemma append_roomy d len b : roomy b -> 0 <= len <= zlen d -> zlen (buffer_ b) + len <= max_size ->
  exists b', append d len b = Ret b' /\ roomy b' /\ content b' = content b ++ ztake len d /\ zlen (buffer_ b') <= zlen (buffer_ b) + len.
Proof.
  intros [W R] H1 H2. destruct (append_ok d len b W H1 H2) as (b' & E & W' & C & R' & S). exists b'. split_and!; try done; [split; [done|lia]|lia].
Qed.

Section Cutting.
Context (send : Buffer -> A -> outcome (A * Buffer)) (good : A -> Prop) (f : A -> list byte -> A).
Context (send_ok : forall b s, good s -> roomy b -> 0 < zlen (content b) <= kMaxPacketLen ->
  exists b', send b s = Ret (f s (content b), b') /\ roomy b' /\ content b' = [] /\ zlen (buffer_ b') = zlen (buffer_ b) /\ good (f s (content b))).

Lemma cut_loop_ok fuel buf s : good s -> roomy buf -> (length (content buf) < fuel)%nat ->
  exists buf', cut_loop fuel send buf s = Ret (fold_left f (pieces fuel (content buf)) s, buf') /\ roomy buf' /\ content buf' = [] /\
    zlen (buffer_ buf') = zlen (buffer_ buf) /\ good (fold_left f (pieces fuel (content buf)) s).
Proof.
  revert buf s. induction fuel as [|fuel IH]; intros buf s G R Hf; [lia|]. pose proof (content_len buf (proj1 R)) as L. cbn [cut_loop pieces]. rewrite <- L.
  unfold kMaxPacketLen in *. destruct (decide (zlen (content buf) > 255)) as [Hl|Hl]; [|destruct (decide (zlen (content buf) > 0)) as [Hz|Hz]].
  - destruct new_roomy as (p0 & -> & R0 & C0 & L0). cbn [obind]. destruct (zdrop_peek buf (proj1 R)) as (q & Eq). rewrite Eq.
    destruct (append_roomy (content buf ++ q) 255 p0 R0) as (p1 & -> & R1 & C1 & _); [zlia|rewrite L0; by vm_compute|]. cbn [obind].
    rewrite C0, app_nil_l, ztake_app_l in C1 by lia.
    destruct (retrieve_roomy 255 buf R) as (b1 & -> & Rb & Cb & Lb); [lia|]. cbn [obind].
    destruct (send_ok p1 s G R1) as (b2 & -> & _ & _ & _ & G2); [rewrite C1, zlen_ztake by lia; lia|]. cbn [obind]. rewrite C1 in G2 |- *.
    destruct (IH b1 (f s (ztake 255 (content buf))) G2 Rb) as (b3 & E & R3 & C3 & L3 & G3); [rewrite Cb; unfold zdrop; rewrite length_drop; unfold zlen in *; lia|].
    rewrite Cb in E, G3. cbn [fold_left]. exists b3. split_and!; try done. lia.
  - destruct (send_ok buf s G R) as (b2 & -> & R2 & C2 & L2 & G2); [lia|]. exists b2. done.
  - exists buf. split_and!; try done. destruct (content buf); [done|zlia].
Qed.
End Cutting.
End Packets.

(** ** Numbers in commands *)

(** [atoi] of a string: blanks, a sign and digits, as [strtol] reads them *)
Fixpoint atoi_digits (l : list byte) (n : Z) : Z :=
  match l with
  | b :: l => if is_digit b then atoi_digits l (n * 10 + (b2z b - 48)) else n
  | [] => n
  end.
Definition atoi_signed (neg : bool) (l : list byte) : Z :=
  let n := atoi_digits l 0 in
  i32 (if neg then Z.max (- n) (- 2 ^ 63) else Z.min n (2 ^ 63 - 1)).
Fixpoint atoi (l : list byte) : Z :=
  match l with
  | [] => 0
  | b :: l' =>
      if isspace b then atoi l'
      else if decide (b = Byte.x2d) then atoi_signed true l'
      else if decide (b = Byte.x2b) then atoi_signed false l'
      else atoi_signed false l
  end.
(** [string::find] of a text, up to whether it is there *)
Fixpoint contains (sub l : list byte) : bool :=
  bool_decide (sub `prefix_of` l) || match l with [] => false | _ :: l => contains sub l end.
(** A pointer to a character of a string, or to its end *)
Definition c_str_at (i : Z) (s : list byte) : outcome (list byte) :=
  if decide (0 <= i <= zlen s) then Ret (zdrop i s) else Stop OutOfRange.
