(* ===== verification/Multiplexer.v ===== *)
(** * The multiplexer (src/muduo/examples/multiplexer/multiplexer_simple.cc)

    [MultiplexServer] gives each client a number and sends what it receives from clients over one connection to
    the backend, in packets. *)

From S2P Require Import Prelude Format StringPiece Buffer Conn Packet.

Module Mux.

Definition kMaxConns : Z := 10.

(** A connection from a client, with its context, its input buffer and the text of its peer address *)
Record Client := mkClient { cl_conn : Conn; cl_context : option Z; cl_input : Buffer; cl_peer : list byte }.
(** The server; [clients] are the connections that exist, by a number of their own. *)
Record MultiplexServer := mkMux {
  backendConn_ : option Conn; backend_input : Buffer; clientConns_ : gmap Z nat; availIds_ : list Z; clients : gmap nat Client }.
Definition set_backend v s := mkMux v (backend_input s) (clientConns_ s) (availIds_ s) (clients s).
Definition set_backend_input v s := mkMux (backendConn_ s) v (clientConns_ s) (availIds_ s) (clients s).
Definition set_clientConns v s := mkMux (backendConn_ s) (backend_input s) v (availIds_ s) (clients s).
Definition set_availIds v s := mkMux (backendConn_ s) (backend_input s) (clientConns_ s) v (clients s).
Definition set_clients v s := mkMux (backendConn_ s) (backend_input s) (clientConns_ s) (availIds_ s) v.
Definition set_conn v c := mkClient v (cl_context c) (cl_input c) (cl_peer c).
Definition set_context v c := mkClient (cl_conn c) v (cl_input c) (cl_peer c).
Definition set_input v c := mkClient (cl_conn c) (cl_context c) v (cl_peer c).
Definition change (c : nat) (f : Client -> Client) (s : MultiplexServer) : MultiplexServer := set_clients (alter f c (clients s)) s.
Definition client_send (d : list byte) (c : nat) : MultiplexServer -> MultiplexServer := change c (fun x => set_conn (conn_write d (cl_conn x)) x).
Definition client_shutdown (c : nat) : MultiplexServer -> MultiplexServer := change c (fun x => set_conn (conn_shutdown (cl_conn x)) x).

Definition sendBackendPacket (id : Z) (buf : Buffer) (s : MultiplexServer) : outcome (MultiplexServer * Buffer) :=
  let* buf := add_header id buf in
  match backendConn_ s with
  | Some cn => let (cn, buf) := conn_send_buffer buf cn in Ret (set_backend (Some cn) s, buf)
  | None => Ret (s, buf)
  end.
Definition sendBackendString (id : Z) (msg : list byte) (s : MultiplexServer) : outcome MultiplexServer :=
  assert* bool_decide (zlen msg <= kMaxPacketLen) in
  let* buf := newBuffer kInitialSize in
  let* buf := append_string msg buf in
  let* (s, _) := sendBackendPacket id buf s in
  Ret s.
Definition sendBackendBuffer (id : Z) (buf : Buffer) (s : MultiplexServer) : outcome (MultiplexServer * Buffer) :=
  cut_loop (packets_fuel buf) (sendBackendPacket id) buf s.

Definition conn_text (id : Z) (peer : list byte) (up : bool) : list byte :=
  snprintf 256 (bytes "CONN " ++ fmt_d id ++ bytes " FROM " ++ peer ++ (if up then bytes " IS UP" else bytes " IS DOWN") ++ kCRLF).

Definition onClientConnection (connected : bool) (c : nat) (s : MultiplexServer) : outcome MultiplexServer :=
  match clients s !! c with
  | None => Stop OutOfRange
  | Some x =>
      if connected then
        let (id, s) := match availIds_ s with
                       | [] => (-1, s)
                       | id :: ids => (id, set_clientConns (<[id := c]> (clientConns_ s)) (set_availIds ids s))
                       end in
        if decide (id <= 0) then Ret (client_shutdown c s)
        else sendBackendString 0 (conn_text id (cl_peer x) true) (change c (set_context (Some id)) s)
      else
        match cl_context x with
        | None => Ret s
        | Some id =>
            assert* bool_decide (0 < id <= kMaxConns) in
            let* s := sendBackendString 0 (conn_text id (cl_peer x) false) s in
            match backendConn_ s with
            | Some _ => Ret (set_clientConns (delete id (clientConns_ s)) (set_availIds (availIds_ s ++ [id]) s))
            | None =>
                assert* bool_decide (availIds_ s = []) in
                assert* bool_decide (clientConns_ s = ∅) in
                Ret s
            end
        end
  end.

Definition onClientMessage (c : nat) (s : MultiplexServer) : outcome MultiplexServer :=
  match clients s !! c with
  | None => Stop OutOfRange
  | Some x =>
      match cl_context x with
      | Some id => let* (s, buf) := sendBackendBuffer id (cl_input x) s in Ret (change c (set_input buf) s)
      | None => Ret (change c (set_input (retrieveAll (cl_input x))) s)
      end
  end.

Definition onBackendConnection (conn : option Conn) (s : MultiplexServer) : outcome MultiplexServer :=
  match conn with
  | Some cn =>
      let s := set_backend (Some cn) s in
      assert* bool_decide (availIds_ s = []) in
      Ret (set_availIds (seqZ 1 kMaxConns) s)
  | None =>
      let s := set_backend None s in
      let s := foldr client_shutdown s ((map_to_list (clientConns_ s)).*2) in
      Ret (set_availIds [] (set_clientConns ∅ s))
  end.

Definition kDisconnectCmd : list byte := bytes "DISCONNECT ".
Definition doCommand (cmd : list byte) (s : MultiplexServer) : outcome MultiplexServer :=
  if decide (zlen cmd > zlen kDisconnectCmd /\ kDisconnectCmd `prefix_of` cmd) then
    let* p := c_str_at (zlen kDisconnectCmd) cmd in
    match clientConns_ s !! atoi p with
    | Some c => Ret (client_shutdown c s)
    | None => Ret s
    end
  else Ret s.
(** A packet from the backend *)
Definition handle (id : Z) (d : list byte) (s : MultiplexServer) : outcome MultiplexServer :=
  if decide (id <> 0) then
    match clientConns_ s !! id with
    | Some c => Ret (client_send d c s)
    | None => Ret s
    end
  else doCommand d s.
Definition sendToClient (buf : Buffer) (s : MultiplexServer) : outcome (MultiplexServer * Buffer) :=
  packets_loop (packets_fuel buf) handle buf s.
Definition onBackendMessage (s : MultiplexServer) : outcome MultiplexServer :=
  let* (s, buf) := sendToClient (backend_input s) s in
  Ret (set_backend_input buf s).
End Mux.
