(* ===== verification/Demux.v ===== *)
(** * The demultiplexer (src/muduo/examples/multiplexer/demux.cc)

    [DemuxServer] opens a connection to the socks server for each client of the multiplexer and
    passes its data on, both ways. *)

From S2P Require Import Prelude Format StringPiece Buffer Conn Packet.

Module Demux.

(** An entry has a [TcpClient], here by a number, and its connection once it is established. *)
Record Entry := mkEntry { client : nat; connection : option nat; pending : Buffer }.
(** The connection of a [TcpClient], with the number that its callbacks are bound to, and its input buffer *)
Record Socks := mkSocks { sk_connId : Z; sk_conn : Conn; sk_input : Buffer }.
(** The server; [servers] are the connections that were accepted and [socks] those of the clients. *)
Record DemuxServer := mkDemux {
  serverConn_ : option nat; servers : gmap nat (Conn * Buffer); socksConns_ : gmap Z Entry; socks : gmap nat Socks; created : nat }.
Definition set_serverConn v s := mkDemux v (servers s) (socksConns_ s) (socks s) (created s).
Definition set_servers v s := mkDemux (serverConn_ s) v (socksConns_ s) (socks s) (created s).
Definition set_socksConns v s := mkDemux (serverConn_ s) (servers s) v (socks s) (created s).
Definition set_socks v s := mkDemux (serverConn_ s) (servers s) (socksConns_ s) v (created s).
Definition set_created v s := mkDemux (serverConn_ s) (servers s) (socksConns_ s) (socks s) v.
Definition set_sk_conn v k := mkSocks (sk_connId k) v (sk_input k).
Definition set_sk_input v k := mkSocks (sk_connId k) (sk_conn k) v.
Definition change (k : nat) (f : Socks -> Socks) (s : DemuxServer) : DemuxServer := set_socks (alter f k (socks s)) s.
Definition socks_send (d : list byte) (k : nat) : DemuxServer -> DemuxServer := change k (fun x => set_sk_conn (conn_write d (sk_conn x)) x).
Definition socks_shutdown (k : nat) : DemuxServer -> DemuxServer := change k (fun x => set_sk_conn (conn_shutdown (sk_conn x)) x).
Definition put (connId : Z) (e : Entry) (s : DemuxServer) : DemuxServer := set_socksConns (<[connId := e]> (socksConns_ s)) s.

Definition onServerConnection (connected : bool) (j : nat) (s : DemuxServer) : DemuxServer :=
  if connected then
    match serverConn_ s with
    | Some _ => set_servers (alter (fun x => (conn_shutdown x.1, x.2)) j (servers s)) s
    | None => set_serverConn (Some j) s
    end
  else if decide (serverConn_ s = Some j) then set_socksConns ∅ (set_serverConn None s) else s.

Definition sendServerPacket (connId : Z) (buf : Buffer) (s : DemuxServer) : outcome (DemuxServer * Buffer) :=
  let* buf := add_header connId buf in
  match serverConn_ s with
  | Some j =>
      match servers s !! j with
      | Some (cn, inp) => let (cn, buf) := conn_send_buffer buf cn in Ret (set_servers (<[j := (cn, inp)]> (servers s)) s, buf)
      | None => Stop OutOfRange
      end
  | None => Ret (s, buf)
  end.

Definition kConn : list byte := bytes "CONN ".
Definition doCommand (cmd : list byte) (s : DemuxServer) : outcome DemuxServer :=
  let* p := c_str_at (zlen kConn) cmd in
  let connId := atoi p in
  if contains (bytes " IS UP") cmd then
    assert* bool_decide (socksConns_ s !! connId = None) in
    let* pending := newBuffer kInitialSize in
    Ret (put connId (mkEntry (created s) None pending) (set_created (S (created s)) s))
  else
    match socksConns_ s !! connId with
    | None => Stop AssertFailed
    | Some e =>
        match connection e with
        | Some k => Ret (socks_shutdown k s)
        | None => Ret (set_socksConns (delete connId (socksConns_ s)) s)
        end
    end.
(** A packet from the multiplexer *)
Definition handle (connId : Z) (d : list byte) (s : DemuxServer) : outcome DemuxServer :=
  if decide (connId <> 0) then
    match socksConns_ s !! connId with
    | None => Stop AssertFailed
    | Some e =>
        match connection e with
        | Some k =>
            assert* bool_decide (readableBytes (pending e) = 0) in
            Ret (socks_send d k s)
        | None =>
            let* p := append d (zlen d) (pending e) in
            Ret (put connId (mkEntry (client e) None p) s)
        end
    end
  else doCommand d s.
Definition onServerMessage (j : nat) (s : DemuxServer) : outcome DemuxServer :=
  match servers s !! j with
  | None => Stop OutOfRange
  | Some (_, buf) =>
      let* (s, buf) := packets_loop (packets_fuel buf) handle buf s in
      Ret (set_servers (alter (fun x => (x.1, buf)) j (servers s)) s)
  end.

(** The callbacks of the connection [k], bound to the number of its entry *)
Definition onSocksConnection (connId : Z) (connected : bool) (k : nat) (s : DemuxServer) : outcome DemuxServer :=
  match socksConns_ s !! connId with
  | None => Stop AssertFailed
  | Some e =>
      if connected then
        let e := mkEntry (client e) (Some k) (pending e) in
        if decide (readableBytes (pending e) > 0) then
          match socks s !! k with
          | None => Stop OutOfRange
          | Some x =>
              let (cn, p) := conn_send_buffer (pending e) (sk_conn x) in
              Ret (put connId (mkEntry (client e) (connection e) p) (change k (set_sk_conn cn) s))
          end
        else Ret (put connId e s)
      else
        match serverConn_ s with
        | Some _ =>
            let* buffer := newBuffer kInitialSize in
            let* buffer := append_string (snprintf 256 (bytes "DISCONNECT " ++ fmt_d connId ++ kCRLF)) buffer in
            let* (s, _) := sendServerPacket 0 buffer s in
            Ret s
        | None => Ret (set_socksConns (delete connId (socksConns_ s)) s)
        end
  end.
Definition onSocksMessage (connId : Z) (k : nat) (s : DemuxServer) : outcome DemuxServer :=
  match socksConns_ s !! connId, socks s !! k with
  | Some _, Some x =>
      let* (s, buf) := cut_loop (packets_fuel (sk_input x)) (sendServerPacket connId) (sk_input x) s in
      Ret (change k (set_sk_input buf) s)
  | None, _ => Stop AssertFailed
  | _, None => Stop OutOfRange
  end.
End Demux.
