(* ===== verification/Multiplex.v ===== *)
(** * The multiplexer and the demultiplexer together (src/muduo/examples/multiplexer/)

    Clients talk to a socks server through [Mux], one connection with packets, and [Demux]. The file shows
    that while no number is used twice each client is connected to its own socks connection: what one sends the other gets, in order. *)

From S2P Require Import Prelude Format StringPiece Buffer Http Lines Conn Packet Multiplexer Demux.

(** ** The two programs and the connection between them *)

(** [to_demux] and [to_mux] bytes of what was sent on the connection have arrived. [given] is the number of clients that have got a
    number; the connections of [gone] and of [dead] are closed. *)
Record Net := mkNet { mux : Mux.MultiplexServer; demux : Demux.DemuxServer; to_demux : Z; to_mux : Z; given : Z; gone : gset nat; dead : gset nat }.
Definition set_mux v n := mkNet v (demux n) (to_demux n) (to_mux n) (given n) (gone n) (dead n).
Definition set_demux v n := mkNet (mux n) v (to_demux n) (to_mux n) (given n) (gone n) (dead n).

Definition backend_sent (n : Net) : list byte := match Mux.backendConn_ (mux n) with Some c => sent_ c | None => [] end.
Definition server_sent (n : Net) : list byte := match Demux.servers (demux n) !! O with Some (c, _) => sent_ c | None => [] end.

Inductive NetEvent :=
  | ClientUp (c : nat) (peer : list byte) | ClientData (c : nat) (d : list byte) | ClientDown (c : nat)
  | SocksUp (connId : Z) | SocksData (k : nat) (d : list byte) | SocksDown (k : nat)
  | ToDemux (d : list byte) | ToMux (d : list byte).

Definition net_step (e : NetEvent) (n : Net) : outcome Net :=
  match e with
  | ClientUp c peer =>
      let* buf := newBuffer kInitialSize in
      let g := given n + (if decide (Mux.availIds_ (mux n) = []) then 0 else 1) in
      let* m := Mux.onClientConnection true c (Mux.set_clients (<[c := Mux.mkClient newConn None buf peer]> (Mux.clients (mux n))) (mux n)) in
      Ret (mkNet m (demux n) (to_demux n) (to_mux n) g (gone n) (dead n))
  | ClientData c d =>
      match Mux.clients (mux n) !! c with
      | None => Stop OutOfRange
      | Some x =>
          let* buf := append_bytes d (Mux.cl_input x) in
          let* m := Mux.onClientMessage c (Mux.change c (Mux.set_input buf) (mux n)) in
          Ret (set_mux m n)
      end
  | ClientDown c =>
      let* m := Mux.onClientConnection false c (Mux.client_shutdown c (mux n)) in
      Ret (mkNet m (demux n) (to_demux n) (to_mux n) (given n) ({[c]} ∪ gone n) (dead n))
  | SocksUp connId =>
      match Demux.socksConns_ (demux n) !! connId with
      | None => Stop OutOfRange
      | Some e =>
          let* buf := newBuffer kInitialSize in
          let k := Demux.client e in
          let* m := Demux.onSocksConnection connId true k (Demux.set_socks (<[k := Demux.mkSocks connId newConn buf]> (Demux.socks (demux n))) (demux n)) in
          Ret (set_demux m n)
      end
  | SocksData k d =>
      match Demux.socks (demux n) !! k with
      | None => Stop OutOfRange
      | Some x =>
          let* buf := append_bytes d (Demux.sk_input x) in
          let* m := Demux.onSocksMessage (Demux.sk_connId x) k (Demux.change k (Demux.set_sk_input buf) (demux n)) in
          Ret (set_demux m n)
      end
  | SocksDown k =>
      match Demux.socks (demux n) !! k with
      | None => Stop OutOfRange
      | Some x =>
          let* m := Demux.onSocksConnection (Demux.sk_connId x) false k (Demux.socks_shutdown k (demux n)) in
          Ret (mkNet (mux n) m (to_demux n) (to_mux n) (given n) (gone n) ({[k]} ∪ dead n))
      end
  | ToDemux d =>
      match Demux.servers (demux n) !! O with
      | None => Stop OutOfRange
      | Some (cn, inp) =>
          let* buf := append_bytes d inp in
          let* m := Demux.onServerMessage 0 (Demux.set_servers (<[O := (cn, buf)]> (Demux.servers (demux n))) (demux n)) in
          Ret (mkNet (mux n) m (to_demux n + zlen d) (to_mux n) (given n) (gone n) (dead n))
      end
  | ToMux d =>
      let* buf := append_bytes d (Mux.backend_input (mux n)) in
      let* m := Mux.onBackendMessage (Mux.set_backend_input buf (mux n)) in
      Ret (mkNet m (demux n) (to_demux n) (to_mux n + zlen d) (given n) (gone n) (dead n))
  end.
Fixpoint net_run (evs : list NetEvent) (n : Net) : outcome Net :=
  match evs with
  | [] => Ret n
  | e :: evs => let* n := net_step e n in net_run evs n
  end.
(** The connection between the two programs has come up. *)
Definition newNet : outcome Net :=
  let* b1 := newBuffer kInitialSize in
  let* b2 := newBuffer kInitialSize in
  let* m := Mux.onBackendConnection (Some newConn) (Mux.mkMux None b1 ∅ [] ∅) in
  Ret (mkNet m (Demux.onServerConnection true 0 (Demux.mkDemux None {[O := (newConn, b2)]} ∅ ∅ 0)) 0 0 0 ∅ ∅).

(** What can happen: connections come up once and have input until they are down; what arrives was sent; no number is used twice. *)
Definition good_peer (peer : list byte) : Prop := zlen peer <= 64 /\ Byte.x55 ∉ peer.
Definition enabled (e : NetEvent) (n : Net) : Prop :=
  match e with
  | ClientUp c peer => Mux.clients (mux n) !! c = None /\ good_peer peer /\ (given n < Mux.kMaxConns \/ Mux.availIds_ (mux n) = [])
  | ClientData c _ | ClientDown c => is_Some (Mux.clients (mux n) !! c) /\ c ∉ gone n
  | SocksUp connId => match Demux.socksConns_ (demux n) !! connId with Some e => Demux.connection e = None | None => False end
  | SocksData k _ | SocksDown k => is_Some (Demux.socks (demux n) !! k) /\ k ∉ dead n
  | ToDemux d => d `prefix_of` zdrop (to_demux n) (backend_sent n)
  | ToMux d => d `prefix_of` zdrop (to_mux n) (server_sent n)
  end.
Fixpoint legal (evs : list NetEvent) (n : Net) : Prop :=
  match evs with
  | [] => True
  | e :: evs => enabled e n /\ match net_step e n with Ret n' => legal evs n' | Stop _ => True end
  end.
Definition event_size (e : NetEvent) : Z := match e with ClientData _ d | SocksData _ d | ToDemux d | ToMux d => 1 + zlen d | _ => 1 end.
Definition traffic (evs : list NetEvent) : Z := foldr (fun e t => event_size e + t) 0 evs.
Definition client_received (c : nat) (evs : list NetEvent) : list byte :=
  concat (map (fun e => match e with ClientData c' d => if decide (c' = c) then d else [] | _ => [] end) evs).
Definition socks_received (k : nat) (evs : list NetEvent) : list byte :=
  concat (map (fun e => match e with SocksData k' d => if decide (k' = k) then d else [] | _ => [] end) evs).

(** ** The packets that are sent *)

Inductive Pk := PUp (id : Z) (peer : list byte) | PData (id : Z) (d : list byte) | PDown (id : Z) (peer : list byte).
Definition pk_id (p : Pk) : Z := match p with PUp id _ | PData id _ | PDown id _ => id end.
Definition pk_packet (p : Pk) : Packet :=
  match p with PUp id peer => (0, Mux.conn_text id peer true) | PData id d => (id, d) | PDown id peer => (0, Mux.conn_text id peer false) end.
Definition pk_good (p : Pk) : Prop :=
  1 <= pk_id p <= Mux.kMaxConns /\ match p with PUp _ peer | PDown _ peer => good_peer peer | PData _ d => 0 < zlen d <= kMaxPacketLen end.
(** The data for one connection, and how far the connection is *)
Definition pdata (i : Z) (P : list Pk) : list byte := concat (map (fun p => match p with PData id d => if decide (id = i) then d else [] | _ => [] end) P).
Inductive Phase := PhNone | PhOpen | PhClosed | PhBad.
#[export] Instance Phase_eq_dec : EqDecision Phase.
Proof. solve_decision. Defined.
Definition phase_step (i : Z) (ph : Phase) (p : Pk) : Phase :=
  if decide (pk_id p = i) then
    match ph, p with PhNone, PUp _ _ => PhOpen | PhOpen, PData _ _ => PhOpen | PhOpen, PDown _ _ => PhClosed | _, _ => PhBad end
  else ph.
Definition phase (i : Z) (P : list Pk) : Phase := fold_left (phase_step i) P PhNone.

(** The other way *)
Inductive Qk := QData (id : Z) (d : list byte) | QDisc (id : Z).
Definition qk_id (p : Qk) : Z := match p with QData id _ | QDisc id => id end.
Definition disc_text (id : Z) : list byte := snprintf 256 (bytes "DISCONNECT " ++ fmt_d id ++ kCRLF).
Definition qk_packet (p : Qk) : Packet := match p with QData id d => (id, d) | QDisc id => (0, disc_text id) end.
Definition qk_good (p : Qk) : Prop := 1 <= qk_id p <= Mux.kMaxConns /\ match p with QData _ d => 0 < zlen d <= kMaxPacketLen | QDisc _ => True end.
Definition qdata (i : Z) (Q : list Qk) : list byte := concat (map (fun p => match p with QData id d => if decide (id = i) then d else [] | _ => [] end) Q).
(** Open, closed, or data after the close *)
Definition qphase_step (i : Z) (ph : Phase) (p : Qk) : Phase :=
  if decide (qk_id p = i) then
    match ph, p with PhOpen, QData _ _ => PhOpen | PhOpen, QDisc _ => PhClosed | _, _ => PhBad end
  else ph.
Definition qphase (i : Z) (Q : list Qk) : Phase := fold_left (qphase_step i) Q PhOpen.

(** ** Commands *)

Lemma atoi_digits_ok ds b rest n : Forall (fun d => is_digit d = true) ds -> is_digit b = false ->
  atoi_digits (ds ++ b :: rest) n = fold_left (fun a d => a * 10 + (b2z d - 48)) ds n.
Proof.
  intros F Hb. revert n. induction F as [|d ds Hd F IH]; intros n; cbn [app atoi_digits fold_left]; [by rewrite Hb|]. by rewrite Hd, IH.
Qed.
Lemma fmt_d_nonneg z : 0 <= z -> fmt_d z = udec z.
Proof. intros H. unfold fmt_d. by rewrite decide_False by lia. Qed.
Lemma atoi_ok i b rest : 0 <= i < 2 ^ 31 -> is_digit b = false -> atoi (fmt_d i ++ b :: rest) = i.
Proof.
  intros Hi Hb. rewrite fmt_d_nonneg by lia. pose proof (udec_digits i ltac:(lia)) as F. destruct (udec_nonempty i ltac:(lia)) as (d & l & E & Hd).
  destruct (digit_plain d Hd) as (N1 & N2 & N3). rewrite E. cbn [app atoi]. rewrite N1, !decide_False by done. unfold atoi_signed.
  rewrite app_comm_cons, <- E, atoi_digits_ok, undec_fold, undec_udec, Z.min_l, swrap_small by (first [done|lia]). done.
Qed.
Lemma contains_app sub a b : contains sub (a ++ sub ++ b) = true.
Proof.
  induction a as [|x a IH]; cbn [app].
  - destruct (sub ++ b) eqn:E; cbn [contains]; rewrite <- E, bool_decide_true by (by eexists); done.
  - cbn [contains]. by rewrite IH, orb_true_r.
Qed.
Lemma contains_elem x sub l : x ∈ sub -> contains sub l = true -> x ∈ l.
Proof.
  intros H. induction l as [|y l IH]; cbn [contains].
  - rewrite orb_false_r, bool_decide_eq_true. intros [q E]. destruct sub; [by apply not_elem_of_nil in H|done].
  - rewrite orb_true_iff, bool_decide_eq_true. intros [[q ->] | E]; [apply elem_of_app; by left|right; by apply IH].
Qed.

Lemma fmt_d_id i : 1 <= i <= Mux.kMaxConns -> 0 < zlen (fmt_d i) <= 2 /\ Byte.x55 ∉ fmt_d i.
Proof.
  unfold Mux.kMaxConns. intros Hi. assert (i ∈ seqZ 1 10) as Ei by (apply elem_of_seqZ; lia).
  assert (Forall (fun i => 0 < zlen (fmt_d i) <= 2 /\ Byte.x55 ∉ fmt_d i) (seqZ 1 10)) as F by (apply (bool_decide_unpack _); vm_compute; exact Logic.I).
  rewrite Forall_forall in F. by apply F.
Qed.
Lemma conn_text_ok i peer up : 1 <= i <= Mux.kMaxConns -> good_peer peer ->
  exists rest, Mux.conn_text i peer up = Demux.kConn ++ fmt_d i ++ Byte.x20 :: rest /\ contains (bytes " IS UP") (Mux.conn_text i peer up) = up /\
    0 < zlen (Mux.conn_text i peer up) <= 100.
Proof.
  intros Hi [Hp Up]. destruct (fmt_d_id i Hi) as [Li Ui]. assert (zlen kCRLF = 2) as L2 by done. unfold Mux.conn_text.
  set (t := bytes "CONN " ++ fmt_d i ++ bytes " FROM " ++ peer ++ (if up then bytes " IS UP" else bytes " IS DOWN") ++ kCRLF).
  assert (0 < zlen t <= 100) as Lt.
  { unfold t. rewrite !zlen_app. assert (zlen (bytes "CONN ") = 5) as -> by done. assert (zlen (bytes " FROM ") = 6) as -> by done.
    assert (zlen (if up then bytes " IS UP" else bytes " IS DOWN") <= 8) by (by destruct up). zlia. }
  rewrite Http.snprintf_fits by lia. eexists. split_and!; [|..|lia|lia].
  - unfold t, Demux.kConn. reflexivity.
  - destruct up; unfold t.
    + rewrite !app_assoc, <- app_assoc. apply contains_app.
    + apply not_true_iff_false. intros H. apply (contains_elem Byte.x55) in H; [|apply (bool_decide_unpack _); vm_compute; exact Logic.I].
      rewrite !elem_of_app in H. assert (forall l : list byte, bool_decide (Byte.x55 ∉ l) = true -> Byte.x55 ∉ l) as B by (by intros l Hl%bool_decide_eq_true).
      destruct H as [H | [H | [H | [H | [H | H]]]]]; revert H; first [done|by apply B].
Qed.

(** ** Sequences of packets *)

Lemma pdata_snoc i P p : pdata i (P ++ [p]) = pdata i P ++ match p with PData id d => if decide (id = i) then d else [] | _ => [] end.
Proof. unfold pdata. rewrite map_app, concat_app. cbn [map concat]. by rewrite app_nil_r. Qed.
Lemma pdata_app i P P' : pdata i (P ++ P') = pdata i P ++ pdata i P'.
Proof. unfold pdata. by rewrite map_app, concat_app. Qed.
Lemma qdata_snoc i Q p : qdata i (Q ++ [p]) = qdata i Q ++ match p with QData id d => if decide (id = i) then d else [] | _ => [] end.
Proof. unfold qdata. rewrite map_app, concat_app. cbn [map concat]. by rewrite app_nil_r. Qed.
Lemma qdata_app i Q Q' : qdata i (Q ++ Q') = qdata i Q ++ qdata i Q'.
Proof. unfold qdata. by rewrite map_app, concat_app. Qed.
Lemma phase_snoc i P p : phase i (P ++ [p]) = phase_step i (phase i P) p.
Proof. unfold phase. by rewrite fold_left_app. Qed.
Lemma qphase_snoc i Q p : qphase i (Q ++ [p]) = qphase_step i (qphase i Q) p.
Proof. unfold qphase. by rewrite fold_left_app. Qed.
(** Bad is for ever. *)
Lemma phase_app i P P' : phase i (P ++ P') <> PhBad -> phase i P <> PhBad.
Proof.
  unfold phase. rewrite fold_left_app. set (ph := fold_left _ P PhNone). intros H ->. apply H. clear. induction P' as [|p P' IH]; [done|]. cbn [fold_left].
  replace (phase_step i PhBad p) with PhBad; [done|]. unfold phase_step. by case_decide.
Qed.
Lemma qphase_app i Q Q' : qphase i (Q ++ Q') <> PhBad -> qphase i Q <> PhBad.
Proof.
  unfold qphase. rewrite fold_left_app. set (ph := fold_left _ Q PhOpen). intros H ->. apply H. clear. induction Q' as [|p Q' IH]; [done|]. cbn [fold_left].
  replace (qphase_step i PhBad p) with PhBad; [done|]. unfold qphase_step. by case_decide.
Qed.
Lemma pk_packet_good p : pk_good p -> good_packet (pk_packet p).
Proof.
  unfold good_packet, kMaxPacketLen. intros [Hi G]. destruct p as [i peer|i d|i peer]; cbn [pk_packet fst snd pk_id] in *; unfold Mux.kMaxConns in *.
  - destruct (conn_text_ok i peer true Hi G) as (_ & _ & _ & L). lia.
  - unfold kMaxPacketLen in G. lia.
  - destruct (conn_text_ok i peer false Hi G) as (_ & _ & _ & L). lia.
Qed.
Lemma disc_text_ok i : 1 <= i <= Mux.kMaxConns -> disc_text i = Mux.kDisconnectCmd ++ fmt_d i ++ kCRLF /\ 0 < zlen (disc_text i) <= 100.
Proof.
  intros Hi. destruct (fmt_d_id i Hi) as [Li _]. unfold disc_text. assert (zlen (Mux.kDisconnectCmd ++ fmt_d i ++ kCRLF) <= 100) as L.
  { rewrite !zlen_app. assert (zlen Mux.kDisconnectCmd = 11) as -> by done. assert (zlen kCRLF = 2) as -> by done. lia. }
  rewrite Http.snprintf_fits by (change (bytes "DISCONNECT ") with Mux.kDisconnectCmd; lia). split; [done|]. split; [|done].
  rewrite zlen_app. assert (zlen (bytes "DISCONNECT ") = 11) as -> by done. zlia.
Qed.
Lemma qk_packet_good p : qk_good p -> good_packet (qk_packet p).
Proof.
  unfold good_packet, kMaxPacketLen. intros [Hi G]. destruct p as [i d|i]; cbn [qk_packet fst snd qk_id] in *; unfold Mux.kMaxConns in *.
  - unfold kMaxPacketLen in G. lia.
  - destruct (disc_text_ok i Hi) as (_ & L). lia.
Qed.

(** ** The demultiplexer *)

Definition quiet (qd : list byte) (qp : Phase) : Prop := qd = [] /\ qp = PhOpen.
(** The connection to the socks server for [pd], which the client has sent so far; [qd] was sent back. *)
Definition socks_ok (i : Z) (closed : bool) (pd qd : list byte) (qp : Phase) (dead : bool) (kin : list byte) (y : Demux.Socks) : Prop :=
  Demux.sk_connId y = i /\ roomy (Demux.sk_input y) /\ content (Demux.sk_input y) = [] /\ zlen (buffer_ (Demux.sk_input y)) <= 2 ^ 11 + zlen kin /\ qd = kin /\
  (if dead then sent_ (Demux.sk_conn y) `prefix_of` pd /\ connected_ (Demux.sk_conn y) = false /\ qp = PhClosed
   else sent_ (Demux.sk_conn y) = pd /\ connected_ (Demux.sk_conn y) = negb closed /\ qp = PhOpen).
Definition entry_ok (i : Z) (closed : bool) (pd qd : list byte) (qp : Phase) (dead : gset nat) (kin : nat -> list byte) (sk : nat -> option Demux.Socks) (e : Demux.Entry) : Prop :=
  wf (Demux.pending e) /\ zlen (buffer_ (Demux.pending e)) <= 2 ^ 11 + zlen pd /\
  match Demux.connection e with
  | None => content (Demux.pending e) = pd /\ sk (Demux.client e) = None /\ quiet qd qp
  | Some k => k = Demux.client e /\ content (Demux.pending e) = [] /\ exists y, sk k = Some y /\ socks_ok i closed pd qd qp (bool_decide (k ∈ dead)) (kin k) y
  end.
Definition conn_state (i : Z) (ph : Phase) (pd qd : list byte) (qp : Phase) (dead : gset nat) (kin : nat -> list byte) (en : option Demux.Entry) (sk : nat -> option Demux.Socks) : Prop :=
  match ph, en with
  | PhNone, None => quiet qd qp
  | PhOpen, Some e => entry_ok i false pd qd qp dead kin sk e
  | PhClosed, None => quiet qd qp
  | PhClosed, Some e => Demux.connection e <> None /\ entry_ok i true pd qd qp dead kin sk e
  | _, _ => False
  end.

Record DemuxInv (d : Demux.DemuxServer) (dead : gset nat) (P : list Pk) (Q : list Qk) (kin : nat -> list byte) : Prop := mkDemuxInv {
  d_server : Demux.serverConn_ d = Some O;
  d_sent : exists inp, Demux.servers d !! O = Some (mkConn (encodes (map qk_packet Q)) true, inp);
  d_good : Forall qk_good Q;
  d_conns : forall i, conn_state i (phase i P) (pdata i P) (qdata i Q) (qphase i Q) dead kin (Demux.socksConns_ d !! i) (fun k => Demux.socks d !! k);
  d_socks : forall k y, Demux.socks d !! k = Some y -> exists e, Demux.socksConns_ d !! Demux.sk_connId y = Some e /\ Demux.connection e = Some k;
  d_inj : forall i i' e e', Demux.socksConns_ d !! i = Some e -> Demux.socksConns_ d !! i' = Some e' -> Demux.client e = Demux.client e' -> i = i';
  d_fresh : forall i e, Demux.socksConns_ d !! i = Some e -> (Demux.client e < Demux.created d)%nat /\ 1 <= i <= Mux.kMaxConns;
  d_dead : forall k, k ∈ dead -> is_Some (Demux.socks d !! k);
  d_kin : forall k, Demux.socks d !! k = None -> kin k = [] }.

(** Only what a connection uses matters to it. *)
Lemma conn_state_frame i ph pd qd qp dead dead' kin kin' en sk sk' :
  (forall e, en = Some e -> sk' (Demux.client e) = sk (Demux.client e) /\ kin' (Demux.client e) = kin (Demux.client e) /\ (Demux.client e ∈ dead' <-> Demux.client e ∈ dead)) ->
  conn_state i ph pd qd qp dead kin en sk -> conn_state i ph pd qd qp dead' kin' en sk'.
Proof.
  intros H. assert (forall cl e, en = Some e -> entry_ok i cl pd qd qp dead kin sk e -> entry_ok i cl pd qd qp dead' kin' sk' e) as E.
  { intros cl e Ee (W & L & M). destruct (H e Ee) as (H1 & H2 & H3). split_and!; [done..|]. destruct (Demux.connection e) as [k|]; [|by rewrite H1].
    destruct M as (-> & Cp & y & Ey & Y). split_and!; [done..|]. exists y. rewrite H1, H2. split; [done|].
    by rewrite (bool_decide_ext _ _ H3). }
  unfold conn_state. destruct ph, en as [e|]; try done; [by apply E|]. intros [N O]. split; [done|]. by apply E.
Qed.
Lemma other_packet i P p : pk_id p <> i -> phase i (P ++ [p]) = phase i P /\ pdata i (P ++ [p]) = pdata i P.
Proof.
  intros N. rewrite phase_snoc, pdata_snoc. unfold phase_step. rewrite decide_False by done. split; [done|]. destruct p; try by rewrite app_nil_r.
  cbn [pk_id] in N. by rewrite decide_False, app_nil_r.
Qed.
Lemma entry_of d dead P Q kin i e : DemuxInv d dead P Q kin -> Demux.socksConns_ d !! i = Some e ->
  exists closed : bool, phase i P = (if closed then PhClosed else PhOpen) /\ entry_ok i closed (pdata i P) (qdata i Q) (qphase i Q) dead kin (fun k : nat => Demux.socks d !! k) e /\
    (closed = true -> Demux.connection e <> None).
Proof.
  intros I E. pose proof (d_conns _ _ _ _ _ I i) as C. rewrite E in C. unfold conn_state in C. destruct (phase i P); try done.
  - exists false. done.
  - exists true. split_and!; [done|apply C|intros _; apply C].
Qed.
Lemma socks_of d dead P Q kin k y : DemuxInv d dead P Q kin -> Demux.socks d !! k = Some y ->
  exists e, Demux.socksConns_ d !! Demux.sk_connId y = Some e /\ Demux.connection e = Some k /\ Demux.client e = k.
Proof.
  intros I E. destruct (d_socks _ _ _ _ _ I k y E) as (e & Ee & Ec). exists e. split_and!; [done..|].
  destruct (entry_of _ _ _ _ _ _ _ I Ee) as (cl & _ & (_ & _ & M) & _). rewrite Ec in M. by destruct M as [-> _].
Qed.

(** A new entry *)
Lemma demux_up d dead P Q kin i peer :
  DemuxInv d dead P Q kin -> 1 <= i <= Mux.kMaxConns -> phase i P = PhNone -> good_peer peer -> pdata i P = [] ->
  exists d', Demux.doCommand (Mux.conn_text i peer true) d = Ret d' /\ DemuxInv d' dead (P ++ [PUp i peer]) Q kin /\ Demux.servers d' = Demux.servers d.
Proof.
  intros I Hi Ph Gp Pd0. destruct (conn_text_ok i peer true Hi Gp) as (rest & Et & Ec & Lt). unfold Demux.doCommand.
  unfold c_str_at. rewrite decide_True by (assert (zlen Demux.kConn = 5) as -> by done; rewrite Et; rewrite !zlen_app; assert (zlen Demux.kConn = 5) as -> by done; zlia).
  cbn [obind]. rewrite Ec. rewrite Et, zdrop_app_r, Z.sub_diag, zdrop_0, atoi_ok by (first [done|lia|unfold Mux.kMaxConns in *; lia]).
  pose proof (d_conns _ _ _ _ _ I i) as Ci. rewrite Ph in Ci. unfold conn_state in Ci. destruct (Demux.socksConns_ d !! i) as [e|] eqn:Ei; [done|].
  rewrite bool_decide_true by done. cbn [check]. destruct new_roomy as (b & -> & [Wb _] & Cb & Lb). cbn [obind]. eexists. split; [done|]. split; [|done].
  destruct I as [Sv Sn Qg Cn Sk Ij Fr Dd Kn]. split; cbn [Demux.put Demux.set_socksConns Demux.set_created Demux.socksConns_ Demux.socks Demux.servers Demux.serverConn_ Demux.created]; try done.
  - intros i'. destruct (decide (i = i')) as [<-|Ni].
    + rewrite lookup_insert_eq, phase_snoc, pdata_snoc, Ph, app_nil_r, Pd0. unfold phase_step. rewrite decide_True by done. cbn [conn_state]. split; [done|]. split.
      * cbn [Demux.pending]. rewrite Lb. by vm_compute.
      * cbn [Demux.connection Demux.pending Demux.client]. split; [done|]. split; [|done]. destruct (Demux.socks d !! Demux.created d) as [y|] eqn:Ey; [|done].
        destruct (Sk _ _ Ey) as (e' & Ee & Ec'). destruct (Fr _ _ Ee) as [Lf _]. specialize (Cn (Demux.sk_connId y)). rewrite Ee in Cn.
        assert (Demux.created d = Demux.client e') as Eq; [|lia]. unfold conn_state, entry_ok in Cn. rewrite Ec' in Cn. destruct (phase _ P); try done; tauto.
    + rewrite lookup_insert_ne by done. destruct (other_packet i' P (PUp i peer)) as [-> ->]; [done|]. apply Cn.
  - intros k y Ey. destruct (Sk k y Ey) as (e & Ee & Ec'). exists e. rewrite lookup_insert_ne; [done|]. intros Eq. rewrite <- Eq in Ee. congruence.
  - intros i1 i2 e1 e2. rewrite !lookup_insert_Some. intros [[<- <-] | [N1 E1]] [[<- <-] | [N2 E2]]; cbn [Demux.client]; intros Ek; try done.
    + destruct (Fr _ _ E2). lia.
    + destruct (Fr _ _ E1). lia.
    + by apply (Ij i1 i2 e1 e2).
  - intros i1 e1. rewrite lookup_insert_Some. intros [[<- <-] | [N1 E1]]; cbn [Demux.client]; [lia|]. destruct (Fr _ _ E1). lia.
Qed.

(** A step that concerns the entry of one number *)
Lemma demux_update d d' dead dead' P P' Q Q' kin kin' i e en :
  DemuxInv d dead P Q kin -> Demux.socksConns_ d !! i = Some e ->
  Demux.serverConn_ d' = Some O -> (exists inp, Demux.servers d' !! O = Some (mkConn (encodes (map qk_packet Q')) true, inp)) -> Forall qk_good Q' ->
  Demux.created d' = Demux.created d ->
  Demux.socksConns_ d' = partial_alter (fun _ => en) i (Demux.socksConns_ d) -> (forall e1, en = Some e1 -> Demux.client e1 = Demux.client e) ->
  (forall k, k <> Demux.client e -> Demux.socks d' !! k = Demux.socks d !! k /\ kin' k = kin k /\ (k ∈ dead' <-> k ∈ dead)) ->
  (forall j, j <> i -> phase j P' = phase j P /\ pdata j P' = pdata j P /\ qdata j Q' = qdata j Q /\ qphase j Q' = qphase j Q) ->
  conn_state i (phase i P') (pdata i P') (qdata i Q') (qphase i Q') dead' kin' en (fun k => Demux.socks d' !! k) ->
  (forall y, Demux.socks d' !! Demux.client e = Some y -> Demux.sk_connId y = i /\ exists e1, en = Some e1 /\ Demux.connection e1 = Some (Demux.client e)) ->
  (Demux.socks d' !! Demux.client e = None -> kin' (Demux.client e) = [] /\ Demux.client e ∉ dead') ->
  DemuxInv d' dead' P' Q' kin'.
Proof.
  intros I Ei Sv Sn Qg Cr Sc Ce Hk Hj Ci Hy Hn. pose proof I as [Sv0 Sn0 Qg0 Cn Sk Ij Fr Dd Kn].
  assert (forall j, Demux.socksConns_ d' !! j = if decide (i = j) then en else Demux.socksConns_ d !! j) as Lk.
  { intros j. rewrite Sc, lookup_partial_alter. by destruct (decide (i = j)). }
  split; try done.
  - intros j. rewrite Lk. destruct (decide (i = j)) as [<-|Nj]; [done|]. destruct (Hj j) as (-> & -> & -> & ->); [done|].
    apply (conn_state_frame j _ _ _ _ dead dead' kin kin' _ (fun k => Demux.socks d !! k)); [|apply Cn]. intros e1 E1. apply Hk. intros E2. by specialize (Ij j i e1 e E1 Ei E2).
  - intros k y Ey. destruct (decide (k = Demux.client e)) as [->|Nk].
    + destruct (Hy y Ey) as (E1 & e1 & E2 & E3). exists e1. rewrite Lk, E1, decide_True by done. done.
    + destruct (Hk k Nk) as (Es & _). rewrite Es in Ey. destruct (socks_of d dead P Q kin k y I Ey) as (e1 & E1 & E2 & E3). exists e1.
      rewrite Lk, decide_False; [done|]. intros E. rewrite <- E in E1. congruence.
  - intros j j' e1 e2. rewrite !Lk. destruct (decide (i = j)) as [<-|N1], (decide (i = j')) as [<-|N2]; intros E1 E2 E3; try done.
    + apply Ce in E1. apply (Ij i j' e e2); [done..|congruence].
    + apply Ce in E2. apply (Ij j i e1 e); [done..|congruence].
    + by apply (Ij j j' e1 e2).
  - intros j e1. rewrite Lk, Cr. destruct (decide (i = j)) as [<-|N1]; intros E1; [|by apply (Fr j e1)]. rewrite (Ce e1 E1). by apply (Fr i e).
  - intros k Hd. destruct (decide (k = Demux.client e)) as [->|Nk].
    + destruct (Demux.socks d' !! Demux.client e) as [y|] eqn:E; [done|]. by destruct (Hn eq_refl).
    + destruct (Hk k Nk) as (-> & _ & E). apply Dd. by apply E.
  - intros k E. destruct (decide (k = Demux.client e)) as [->|Nk]; [by apply Hn|]. destruct (Hk k Nk) as (Es & -> & _). apply Kn. by rewrite <- Es.
Qed.
Lemma same_packet i P p : pk_id p = i -> forall Q : list Qk, forall j, j <> i -> phase j (P ++ [p]) = phase j P /\ pdata j (P ++ [p]) = pdata j P /\ qdata j Q = qdata j Q /\ qphase j Q = qphase j Q.
Proof. intros E Q j N. destruct (other_packet j P p) as [-> ->]; [congruence|]. done. Qed.

Lemma demux_data d dead P Q kin i x :
  DemuxInv d dead P Q kin -> 1 <= i <= Mux.kMaxConns -> phase i P = PhOpen -> zlen (pdata i P) + zlen x <= 2 ^ 60 ->
  exists d', Demux.handle i x d = Ret d' /\ DemuxInv d' dead (P ++ [PData i x]) Q kin /\ Demux.servers d' = Demux.servers d.
Proof.
  intros I Hi Ph Sz. pose proof (d_conns _ _ _ _ _ I i) as Ci. rewrite Ph in Ci. unfold conn_state in Ci. destruct (Demux.socksConns_ d !! i) as [e|] eqn:Ei; [|done].
  assert (phase i (P ++ [PData i x]) = PhOpen) as Ph' by (rewrite phase_snoc, Ph; unfold phase_step; by rewrite decide_True).
  assert (pdata i (P ++ [PData i x]) = pdata i P ++ x) as Pd' by (rewrite pdata_snoc; by rewrite decide_True).
  unfold Demux.handle. rewrite decide_True by lia. rewrite Ei. destruct Ci as (Wp & Lp & M). destruct (Demux.connection e) as [k|] eqn:Ek.
  - destruct M as (Ec & Cp & y & Ey & Y). pose proof (content_len _ Wp) as Lc. rewrite Cp, zlen_nil in Lc. rewrite bool_decide_true by done. cbn [check].
    eexists. split; [done|]. split; [|done]. set (y' := Demux.set_sk_conn (conn_write x (Demux.sk_conn y)) y).
    assert (Demux.socks (Demux.socks_send x k d) !! k = Some y') as Ey' by (cbn; by rewrite lookup_alter_eq, Ey).
    apply (demux_update d _ dead dead P _ Q Q kin kin i e (Some e)); try done; [apply (d_server _ _ _ _ _ I)|apply (d_sent _ _ _ _ _ I)|apply (d_good _ _ _ _ _ I)|..].
    + symmetry. exact (insert_id (Demux.socksConns_ d) i e Ei).
    + by intros e1 [= <-].
    + intros k' Nk. cbn. rewrite lookup_alter_ne; [done|]. congruence.
    + by apply same_packet.
    + rewrite Ph', Pd'. cbn [conn_state]. split; [done|]. split; [zlia|]. rewrite Ek. split; [done|]. split; [done|]. exists y'. split; [done|].
      destruct Y as (Y1 & Y2 & Y3 & Y4 & Y5 & Y6). do 5 (split; [done|]). unfold y'. cbn [Demux.sk_conn Demux.set_sk_conn]. unfold conn_write. destruct (bool_decide (k ∈ dead)).
      * destruct Y6 as (Z1 & Z2 & Z3). rewrite Z2. split; [|done]. by apply prefix_app_r.
      * destruct Y6 as (Z1 & Z2 & Z3). rewrite Z2. cbn [negb sent_ connected_]. by rewrite Z1.
    + rewrite <- Ec. intros y1. rewrite Ey'. intros [= <-]. split; [by destruct Y as (Y1 & _)|]. by exists e.
    + rewrite <- Ec, Ey'. done.
  - destruct M as (Cp & Ns & Qt). destruct (append_ok x (zlen x) (Demux.pending e) Wp) as (b & -> & Wb & Cb & _ & Lb); [zlia|unfold max_size; zlia|]. cbn [obind].
    eexists. split; [done|]. split; [|done]. rewrite ztake_all, Cp in Cb by lia.
    apply (demux_update d _ dead dead P _ Q Q kin kin i e (Some (Demux.mkEntry (Demux.client e) None b))); try done; [apply (d_server _ _ _ _ _ I)|apply (d_sent _ _ _ _ _ I)|apply (d_good _ _ _ _ _ I)|..].
    + by intros e1 [= <-].
    + by apply same_packet.
    + rewrite Ph', Pd'. cbn [conn_state]. split; [done|]. cbn [Demux.pending Demux.connection Demux.client]. split; [zlia|]. done.
    + cbn. by rewrite Ns.
    + intros _. split; [by apply (d_kin _ _ _ _ _ I)|]. intros D. destruct (d_dead _ _ _ _ _ I _ D) as [y E]. congruence.
Qed.

Lemma demux_down d dead P Q kin i peer :
  DemuxInv d dead P Q kin -> 1 <= i <= Mux.kMaxConns -> phase i P = PhOpen -> good_peer peer ->
  exists d', Demux.doCommand (Mux.conn_text i peer false) d = Ret d' /\ DemuxInv d' dead (P ++ [PDown i peer]) Q kin /\ Demux.servers d' = Demux.servers d.
Proof.
  intros I Hi Ph Gp. destruct (conn_text_ok i peer false Hi Gp) as (rest & Et & Ec & Lt). unfold Demux.doCommand.
  unfold c_str_at. rewrite decide_True by (assert (zlen Demux.kConn = 5) as -> by done; rewrite Et; rewrite !zlen_app; assert (zlen Demux.kConn = 5) as -> by done; zlia).
  cbn [obind]. rewrite Ec. rewrite Et, zdrop_app_r, Z.sub_diag, zdrop_0, atoi_ok by (first [done|lia|unfold Mux.kMaxConns in *; lia]).
  pose proof (d_conns _ _ _ _ _ I i) as Ci. rewrite Ph in Ci. unfold conn_state in Ci. destruct (Demux.socksConns_ d !! i) as [e|] eqn:Ei; [|done].
  assert (phase i (P ++ [PDown i peer]) = PhClosed) as Ph' by (rewrite phase_snoc, Ph; unfold phase_step; by rewrite decide_True).
  assert (pdata i (P ++ [PDown i peer]) = pdata i P) as Pd' by (rewrite pdata_snoc; by rewrite app_nil_r).
  destruct Ci as (Wp & Lp & M). destruct (Demux.connection e) as [k|] eqn:Ek.
  - destruct M as (Ec' & Cp & y & Ey & Y). eexists. split; [done|]. split; [|done]. set (y' := Demux.set_sk_conn (conn_shutdown (Demux.sk_conn y)) y).
    assert (Demux.socks (Demux.socks_shutdown k d) !! k = Some y') as Ey' by (cbn; by rewrite lookup_alter_eq, Ey).
    apply (demux_update d _ dead dead P _ Q Q kin kin i e (Some e)); try done; [apply (d_server _ _ _ _ _ I)|apply (d_sent _ _ _ _ _ I)|apply (d_good _ _ _ _ _ I)|..].
    + symmetry. exact (insert_id (Demux.socksConns_ d) i e Ei).
    + by intros e1 [= <-].
    + intros k' Nk. cbn. rewrite lookup_alter_ne; [done|]. congruence.
    + by apply same_packet.
    + rewrite Ph', Pd'. cbn [conn_state]. split; [by rewrite Ek|]. split; [done|]. split; [done|]. rewrite Ek. split; [done|]. split; [done|]. exists y'. split; [done|].
      destruct Y as (Y1 & Y2 & Y3 & Y4 & Y5 & Y6). do 5 (split; [done|]). unfold y'. cbn [Demux.sk_conn Demux.set_sk_conn conn_shutdown sent_ connected_].
      destruct (bool_decide (k ∈ dead)); destruct Y6 as (Z1 & Z2 & Z3); done.
    + rewrite <- Ec'. intros y1. rewrite Ey'. intros [= <-]. split; [by destruct Y as (Y1 & _)|]. by exists e.
    + rewrite <- Ec', Ey'. done.
  - destruct M as (Cp & Ns & Qt). eexists. split; [done|]. split; [|done].
    apply (demux_update d _ dead dead P _ Q Q kin kin i e None); try done; [apply (d_server _ _ _ _ _ I)|apply (d_sent _ _ _ _ _ I)|apply (d_good _ _ _ _ _ I)|..].
    + by apply same_packet.
    + rewrite Ph'. done.
    + cbn. by rewrite Ns.
    + intros _. split; [by apply (d_kin _ _ _ _ _ I)|]. intros D. destruct (d_dead _ _ _ _ _ I _ D) as [y E]. congruence.
Qed.

Lemma phase_none_data i P : phase i P = PhNone -> pdata i P = [].
Proof.
  induction P as [|p P IH] using rev_ind; [done|]. destruct (decide (pk_id p = i)) as [E|N].
  - rewrite phase_snoc. unfold phase_step. rewrite decide_True by done. by destruct (phase i P), p.
  - destruct (other_packet i P p N) as [-> ->]. done.
Qed.
Lemma demux_handle d dead P Q kin p :
  DemuxInv d dead P Q kin -> pk_good p -> phase (pk_id p) (P ++ [p]) <> PhBad -> zlen (pdata (pk_id p) (P ++ [p])) <= 2 ^ 60 ->
  exists d', Demux.handle (pk_packet p).1 (pk_packet p).2 d = Ret d' /\ DemuxInv d' dead (P ++ [p]) Q kin /\ Demux.servers d' = Demux.servers d.
Proof.
  intros I [Hi G] B L. rewrite phase_snoc in B. rewrite pdata_snoc in L. unfold phase_step in B. rewrite decide_True in B by done.
  destruct p as [i peer|i x|i peer]; cbn [pk_packet fst snd pk_id] in *; destruct (phase i P) eqn:Ph; try done.
  - apply demux_up; try done. by apply phase_none_data.
  - rewrite decide_True, zlen_app in L by done. by apply demux_data.
  - by apply demux_down.
Qed.
Lemma demux_handles ps d dead P Q kin :
  DemuxInv d dead P Q kin -> Forall pk_good ps -> (forall i, phase i (P ++ ps) <> PhBad) -> (forall i, zlen (pdata i (P ++ ps)) <= 2 ^ 60) ->
  exists d', handles Demux.handle (map pk_packet ps) d = Ret d' /\ DemuxInv d' dead (P ++ ps) Q kin /\ Demux.servers d' = Demux.servers d.
Proof.
  intros I F. revert d P I. induction F as [|p ps G F IH]; intros d P I B L.
  - exists d. by rewrite app_nil_r.
  - change (p :: ps) with ([p] ++ ps) in *. setoid_rewrite (app_assoc P [p] ps) in B. setoid_rewrite (app_assoc P [p] ps) in L.
    destruct (demux_handle d dead P Q kin p I G) as (d1 & E1 & I1 & S1).
    + by eapply phase_app.
    + specialize (L (pk_id p)). rewrite pdata_app in L. zlia.
    + destruct (IH d1 (P ++ [p]) I1 B L) as (d2 & E2 & I2 & S2). exists d2. rewrite app_assoc. split_and!; [|done|congruence].
      cbn [app map handles]. by rewrite E1.
Qed.

(** What [Demux] sends to the multiplexer *)
Definition push (bs : list byte) (d : Demux.DemuxServer) : Demux.DemuxServer :=
  Demux.set_servers (alter (fun p => (mkConn (sent_ p.1 ++ bs) true, p.2)) O (Demux.servers d)) d.
Definition linked (d : Demux.DemuxServer) : Prop := Demux.serverConn_ d = Some O /\ exists snt inp, Demux.servers d !! O = Some (mkConn snt true, inp).
Lemma push_linked bs d : linked d -> linked (push bs d).
Proof. intros [E (snt & inp & S)]. split; [done|]. exists (snt ++ bs), inp. cbn. by rewrite lookup_alter_eq, S. Qed.
Lemma push_fold i xs d : linked d -> fold_left (fun d x => push (encode (i, x)) d) xs d = push (encodes (map (pair i) xs)) d.
Proof.
  intros L. revert d L. induction xs as [|x xs IH]; intros d L.
  - destruct L as [_ (snt & inp & S)]. unfold push. cbn [fold_left map encodes concat]. destruct d as [sv svs sc sk cr]. unfold Demux.set_servers. cbn [Demux.servers Demux.serverConn_ Demux.socksConns_ Demux.socks Demux.created] in *.
    f_equal. symmetry. apply map_eq. intros j. destruct (decide (j = O)) as [->|N]; [by rewrite lookup_alter_eq, S; cbn; rewrite app_nil_r|by rewrite lookup_alter_ne].
  - cbn [fold_left]. rewrite IH by (by apply push_linked). unfold push, encodes, Demux.set_servers. cbn [map concat Demux.servers Demux.serverConn_ Demux.socksConns_ Demux.socks Demux.created]. f_equal.
    destruct L as [_ (snt & inp & S)]. apply map_eq. intros j. destruct (decide (j = O)) as [->|N]; [|by rewrite !lookup_alter_ne].
    rewrite !lookup_alter_eq, S. cbn. by rewrite <- app_assoc.
Qed.
Lemma sendServerPacket_ok i b d : linked d -> roomy b -> 0 < zlen (content b) <= kMaxPacketLen ->
  exists b', Demux.sendServerPacket i b d = Ret (push (encode (i, content b)) d, b') /\ roomy b' /\ content b' = [] /\ zlen (buffer_ b') = zlen (buffer_ b) /\
    linked (push (encode (i, content b)) d).
Proof.
  intros L [W R] H. destruct (add_header_ok i b W R) as (b1 & E1 & W1 & C1 & S1); [lia|]. pose proof L as [Ev (snt & inp & Es)].
  unfold Demux.sendServerPacket. rewrite E1. cbn [obind]. rewrite Ev, Es. unfold conn_send_buffer, conn_write. cbn [connected_ sent_].
  destruct (retrieveAll_ok b1 W1) as [W2 C2]. exists (retrieveAll b1). split; [|split; [done|split; [done|split; [done|by apply push_linked]]]].
  rewrite C1. do 2 f_equal. unfold push. f_equal. apply map_eq. intros j. destruct (decide (j = O)) as [->|N]; [by rewrite lookup_insert_eq, lookup_alter_eq, Es|].
  by rewrite lookup_insert_ne, lookup_alter_ne.
Qed.

(** The connection of an entry is established: what was pending is sent. *)
Lemma demux_socks_up d dead P Q kin i e buf :
  DemuxInv d dead P Q kin -> Demux.socksConns_ d !! i = Some e -> Demux.connection e = None -> roomy buf -> content buf = [] -> zlen (buffer_ buf) <= 2 ^ 11 ->
  exists d', Demux.onSocksConnection i true (Demux.client e) (Demux.set_socks (<[Demux.client e := Demux.mkSocks i newConn buf]> (Demux.socks d)) d) = Ret d' /\
    DemuxInv d' dead P Q kin /\ Demux.servers d' = Demux.servers d.
Proof.
  intros I Ei Ek R C L. destruct (entry_of _ _ _ _ _ _ _ I Ei) as (cl & Ph & (Wp & Lp & M) & Cl). rewrite Ek in M. destruct M as (Cp & Ns & Q1 & Q2).
  destruct cl; [by specialize (Cl eq_refl)|]. clear Cl. pose proof (content_len _ Wp) as Lc. rewrite Cp in Lc. pose proof (d_kin _ _ _ _ _ I _ Ns) as Kn.
  assert (Demux.client e ∉ dead) as Nd by (intros D; destruct (d_dead _ _ _ _ _ I _ D) as [y E]; congruence).
  assert (forall sk p, Demux.socks (Demux.set_socks (<[Demux.client e := sk]> (Demux.socks d)) d) !! Demux.client e = Some sk -> wf p -> content p = [] ->
    zlen (buffer_ p) <= 2 ^ 11 + zlen (pdata i P) -> sk = Demux.mkSocks i (mkConn (pdata i P) true) buf ->
    DemuxInv (Demux.put i (Demux.mkEntry (Demux.client e) (Some (Demux.client e)) p) (Demux.set_socks (<[Demux.client e := sk]> (Demux.socks d)) d)) dead P Q kin) as G.
  { intros sk p _ W1 C1 L1 ->. apply (demux_update d _ dead dead P P Q Q kin kin i e (Some (Demux.mkEntry (Demux.client e) (Some (Demux.client e)) p))); try done;
      [apply (d_server _ _ _ _ _ I)|apply (d_sent _ _ _ _ _ I)|apply (d_good _ _ _ _ _ I)|..].
    - by intros e1 [= <-].
    - intros k Nk. cbn. by rewrite lookup_insert_ne.
    - rewrite Ph. cbn [conn_state]. split; [done|]. split; [done|]. cbn [Demux.connection Demux.client Demux.pending]. split; [done|]. split; [done|].
      eexists. cbn. rewrite lookup_insert_eq. split; [done|]. rewrite bool_decide_false by done. split; [done|]. split; [done|]. split; [done|]. cbn [Demux.sk_input]. split; [zlia|].
      split; [by rewrite Q1, Kn|]. done.
    - intros y. cbn. rewrite lookup_insert_eq. intros [= <-]. split; [done|]. by eexists. }
  unfold Demux.onSocksConnection. cbn [Demux.socksConns_ Demux.set_socks]. rewrite Ei. cbn [Demux.pending Demux.client Demux.connection]. rewrite <- Lc. case_decide as Hp.
  - cbn [Demux.socks Demux.set_socks]. rewrite lookup_insert_eq. unfold conn_send_buffer, conn_write, newConn. cbn [Demux.sk_conn connected_ sent_].
    eexists. split; [done|]. split; [|done]. destruct (retrieveAll_ok _ Wp) as [W2 C2].
    unfold Demux.change. cbn [Demux.socks Demux.set_socks]. rewrite alter_insert_eq. apply (G _ (retrieveAll (Demux.pending e))); [cbn; by rewrite lookup_insert_eq|done|done|done|].
    unfold Demux.set_sk_conn. cbn [Demux.sk_connId Demux.sk_input]. by rewrite Cp.
  - assert (pdata i P = []) as E0 by (destruct (pdata i P); [done|zlia]). eexists. split; [done|]. split; [|done].
    apply (G _ (Demux.pending e)); [cbn; by rewrite lookup_insert_eq|done|by rewrite Cp|done|]. by rewrite E0.
Qed.

Lemma qdata_pieces i j Q xs : qdata j (Q ++ map (QData i) xs) = qdata j Q ++ (if decide (i = j) then concat xs else []).
Proof.
  rewrite qdata_app. f_equal. unfold qdata. rewrite map_map. induction xs as [|x xs IH]; [by case_decide|]. cbn [map concat]. rewrite IH. by case_decide.
Qed.
Lemma qphase_pieces i j Q xs : (i = j -> qphase j Q = PhOpen) -> qphase j (Q ++ map (QData i) xs) = qphase j Q.
Proof.
  intros H. induction xs as [|x xs IH] using rev_ind; [by rewrite app_nil_r|]. rewrite map_app, app_assoc. cbn [map]. rewrite qphase_snoc, IH. unfold qphase_step. cbn [qk_id].
  case_decide as E; [|done]. by rewrite (H E).
Qed.
Definition more (k : nat) (x : list byte) (kin : nat -> list byte) (j : nat) : list byte := kin j ++ (if decide (k = j) then x else []).

Lemma demux_socks_data d dead P Q kin k y x buf :
  DemuxInv d dead P Q kin -> Demux.socks d !! k = Some y -> k ∉ dead -> roomy buf -> content buf = x -> zlen (buffer_ buf) <= 2 ^ 11 + zlen (kin k) + zlen x ->
  exists d' pcs, Demux.onSocksMessage (Demux.sk_connId y) k (Demux.change k (Demux.set_sk_input buf) d) = Ret d' /\
    concat pcs = x /\ Forall (fun p => 0 < zlen p <= kMaxPacketLen) pcs /\
    DemuxInv d' dead P (Q ++ map (QData (Demux.sk_connId y)) pcs) (more k x kin) /\
    exists snt inp, Demux.servers d !! O = Some (mkConn snt true, inp) /\
      Demux.servers d' = <[O := (mkConn (snt ++ encodes (map qk_packet (map (QData (Demux.sk_connId y)) pcs))) true, inp)]> (Demux.servers d).
Proof.
  intros I Ey Nd R C L. destruct (socks_of _ _ _ _ _ _ _ I Ey) as (e & Ei & Ek & Ec). set (i := Demux.sk_connId y) in *.
  destruct (entry_of _ _ _ _ _ _ _ I Ei) as (cl & Ph & (Wp & Lp & M) & Cl). rewrite Ek in M. destruct M as (_ & Cp & y0 & Ey0 & Y). rewrite Ey in Ey0. injection Ey0 as <-.
  rewrite bool_decide_false in Y by done. destruct Y as (_ & Y2 & Y3 & Y4 & Y5 & Y6 & Y7 & Y8). destruct (d_sent _ _ _ _ _ I) as (inp & Es).
  assert (linked (Demux.change k (Demux.set_sk_input buf) d)) as Lk by (split; [apply (d_server _ _ _ _ _ I)|]; by eexists _, _).
  unfold Demux.onSocksMessage. cbn [Demux.change Demux.socksConns_ Demux.set_socks Demux.socks]. rewrite Ei, lookup_alter_eq, Ey. cbn [fmap option_fmap option_map]. cbn [Demux.sk_input Demux.set_sk_input].
  pose proof (content_len _ (proj1 R)) as Lb. set (pcs := pieces (packets_fuel buf) (content buf)).
  destruct (pieces_ok (packets_fuel buf) (content buf)) as [P1 P2]; [unfold packets_fuel; unfold zlen in Lb; lia|]. fold pcs in P1, P2.
  destruct (cut_loop_ok (Demux.sendServerPacket i) linked (fun d x => push (encode (i, x)) d) (fun b s G => sendServerPacket_ok i b s G) (packets_fuel buf) buf _ Lk R)
    as (b' & E & R' & C' & L' & _); [unfold packets_fuel; unfold zlen in Lb; lia|]. rewrite E. cbn [obind]. fold pcs. rewrite push_fold by done. clear E. clearbody pcs.
  assert (map qk_packet (map (QData i) pcs) = map (pair i) pcs) as Em by (by rewrite map_map).
  assert (Demux.servers (push (encodes (map (pair i) pcs)) (Demux.change k (Demux.set_sk_input buf) d)) =
    <[O := (mkConn (encodes (map qk_packet Q) ++ encodes (map (pair i) pcs)) true, inp)]> (Demux.servers d)) as Sv.
  { cbn. apply map_eq. intros j. destruct (decide (j = O)) as [->|N]; [by rewrite lookup_alter_eq, lookup_insert_eq, Es|]. by rewrite lookup_alter_ne, lookup_insert_ne. }
  eexists _, pcs. split; [done|]. split; [by rewrite P1|]. split; [done|]. split; [|exists (encodes (map qk_packet Q)), inp; rewrite Em; done].
  pose proof (d_fresh _ _ _ _ _ I _ _ Ei) as [_ Hi]. apply (demux_update d _ dead dead P P Q _ kin _ i e (Some e) I Ei).
  - apply (d_server _ _ _ _ _ I).
  - exists inp. cbn [Demux.servers Demux.change Demux.set_socks] in Sv |- *. rewrite Sv, lookup_insert_eq, map_app, Em. unfold encodes. by rewrite map_app, concat_app.
  - apply Forall_app. split; [apply (d_good _ _ _ _ _ I)|]. apply Forall_map. eapply Forall_impl; [exact P2|]. done.
  - done.
  - symmetry. exact (insert_id (Demux.socksConns_ d) i e Ei).
  - by intros e1 [= <-].
  - intros k' Nk. cbn. rewrite !lookup_alter_ne by congruence. unfold more. rewrite decide_False by congruence. by rewrite app_nil_r.
  - intros j Nj. rewrite qdata_pieces, qphase_pieces by (by intros ->). rewrite decide_False by done. by rewrite app_nil_r.
  - rewrite qdata_pieces, qphase_pieces, decide_True by done. assert (entry_ok i cl (pdata i P) (qdata i Q ++ concat pcs) (qphase i Q) dead (more k x kin)
      (fun k0 => Demux.socks (Demux.change k (Demux.set_sk_input b') (push (encodes (map (pair i) pcs)) (Demux.change k (Demux.set_sk_input buf) d))) !! k0) e) as Eo.
    { split; [done|]. split; [done|]. rewrite Ek. split; [done|]. split; [done|]. cbn. rewrite !lookup_alter_eq, Ey. eexists. split; [done|]. rewrite bool_decide_false by done.
      split; [done|]. cbn [Demux.sk_input Demux.set_sk_input]. split; [done|]. split; [done|]. unfold more. rewrite decide_True by done. split; [zlia|]. split; [by rewrite Y5, P1, C|]. done. }
    rewrite Ph. destruct cl; cbn [conn_state]; [split; [by apply Cl|done]|done].
  - intros y1. rewrite Ec. cbn. rewrite !lookup_alter_eq, Ey. intros [= <-]. split; [done|]. by exists e.
  - rewrite Ec. cbn. by rewrite !lookup_alter_eq, Ey.
Qed.

Lemma demux_socks_down d dead P Q kin k y :
  DemuxInv d dead P Q kin -> Demux.socks d !! k = Some y -> k ∉ dead ->
  exists d', Demux.onSocksConnection (Demux.sk_connId y) false k (Demux.socks_shutdown k d) = Ret d' /\
    DemuxInv d' ({[k]} ∪ dead) P (Q ++ [QDisc (Demux.sk_connId y)]) kin /\
    exists snt inp, Demux.servers d !! O = Some (mkConn snt true, inp) /\
      Demux.servers d' = <[O := (mkConn (snt ++ encodes (map qk_packet [QDisc (Demux.sk_connId y)])) true, inp)]> (Demux.servers d).
Proof.
  intros I Ey Nd. destruct (socks_of _ _ _ _ _ _ _ I Ey) as (e & Ei & Ek & Ec). set (i := Demux.sk_connId y) in *.
  destruct (entry_of _ _ _ _ _ _ _ I Ei) as (cl & Ph & (Wp & Lp & M) & Cl). rewrite Ek in M. destruct M as (_ & Cp & y0 & Ey0 & Y). rewrite Ey in Ey0. injection Ey0 as <-.
  rewrite bool_decide_false in Y by done. destruct Y as (_ & Y2 & Y3 & Y4 & Y5 & Y6 & Y7 & Y8). destruct (d_sent _ _ _ _ _ I) as (inp & Es).
  pose proof (d_fresh _ _ _ _ _ I _ _ Ei) as [_ Hi]. destruct (disc_text_ok i Hi) as [_ Ld].
  assert (linked (Demux.socks_shutdown k d)) as Lk by (split; [apply (d_server _ _ _ _ _ I)|]; by eexists _, _).
  unfold Demux.onSocksConnection. cbn [Demux.socks_shutdown Demux.change Demux.socksConns_ Demux.set_socks Demux.serverConn_]. rewrite Ei, (d_server _ _ _ _ _ I).
  destruct new_roomy as (b & -> & Rb & Cb & Lb). cbn [obind]. change (snprintf 256 _) with (disc_text i).
  destruct (append_string_ok (disc_text i) b (proj1 Rb)) as (b1 & -> & W1 & C1 & R1 & _); [lia|rewrite Lb; unfold max_size, kCheapPrepend, kInitialSize; lia|]. cbn [obind].
  rewrite Cb, app_nil_l in C1. assert (roomy b1) as Rb1 by (split; [done|]; destruct Rb as [_ Rb]; lia).
  destruct (sendServerPacket_ok 0 b1 (Demux.socks_shutdown k d) Lk Rb1) as (b2 & -> & _); [rewrite C1; unfold kMaxPacketLen; lia|]. cbn [obind]. rewrite C1.
  assert (Demux.servers (push (encode (0, disc_text i)) (Demux.socks_shutdown k d)) = <[O := (mkConn (encodes (map qk_packet Q) ++ encodes (map qk_packet [QDisc i])) true, inp)]> (Demux.servers d)) as Sv.
  { unfold encodes. cbn [map concat qk_packet]. rewrite app_nil_r. cbn. apply map_eq. intros j.
    destruct (decide (j = O)) as [->|N]; [by rewrite lookup_alter_eq, lookup_insert_eq, Es|]. by rewrite lookup_alter_ne, lookup_insert_ne. }
  eexists. split; [done|]. split; [|by exists (encodes (map qk_packet Q)), inp].
  apply (demux_update d _ dead ({[k]} ∪ dead) P P Q _ kin kin i e (Some e) I Ei).
  - apply (d_server _ _ _ _ _ I).
  - exists inp. rewrite Sv, lookup_insert_eq, map_app. unfold encodes. by rewrite map_app, concat_app.
  - apply Forall_app. split; [apply (d_good _ _ _ _ _ I)|]. apply Forall_singleton. by split.
  - done.
  - symmetry. exact (insert_id (Demux.socksConns_ d) i e Ei).
  - by intros e1 [= <-].
  - intros k' Nk. cbn. rewrite !lookup_alter_ne by congruence. split_and!; [done|done|]. rewrite elem_of_union, elem_of_singleton. split; [intros [? | ?]; [congruence|done]|by right].
  - intros j Nj. rewrite qdata_snoc, qphase_snoc. unfold qphase_step. cbn [qk_id]. rewrite decide_False by done. by rewrite app_nil_r.
  - rewrite qdata_snoc, qphase_snoc, app_nil_r, Y8. unfold qphase_step. cbn [qk_id]. rewrite decide_True by done.
    assert (entry_ok i cl (pdata i P) (qdata i Q) PhClosed ({[k]} ∪ dead) kin (fun k0 => Demux.socks (push (encode (0, disc_text i)) (Demux.socks_shutdown k d)) !! k0) e) as Eo.
    { split; [done|]. split; [done|]. rewrite Ek. split; [done|]. split; [done|]. cbn. rewrite !lookup_alter_eq, Ey. eexists. split; [done|].
      rewrite bool_decide_true by (apply elem_of_union; left; by apply elem_of_singleton). do 5 (split; [done|]). cbn. by rewrite Y6. }
    rewrite Ph. destruct cl; cbn [conn_state]; [split; [by apply Cl|done]|done].
  - intros y1. rewrite Ec. cbn. rewrite !lookup_alter_eq, Ey. intros [= <-]. split; [done|]. by exists e.
  - rewrite Ec. cbn. by rewrite !lookup_alter_eq, Ey.
Qed.

(** ** The multiplexer *)

(** The client with the number [i], whose data are [pd] and who was sent what it was sent of [qd] *)
Definition client_ok (ph : Phase) (pd qd : list byte) (qp : Phase) (isgone : bool) (cin : list byte) (cc : option nat) (c : nat) (x : Mux.Client) : Prop :=
  good_peer (Mux.cl_peer x) /\ roomy (Mux.cl_input x) /\ content (Mux.cl_input x) = [] /\ zlen (buffer_ (Mux.cl_input x)) <= 2 ^ 11 + zlen cin /\ pd = cin /\
  (if isgone then ph = PhClosed /\ cc = None /\ sent_ (Mux.cl_conn x) `prefix_of` qd
   else ph = PhOpen /\ cc = Some c /\ sent_ (Mux.cl_conn x) = qd /\ connected_ (Mux.cl_conn x) = bool_decide (qp = PhOpen)).
Record MuxInv (m : Mux.MultiplexServer) (g : Z) (gone : gset nat) (P : list Pk) (Q : list Qk) (cin : nat -> list byte) : Prop := mkMuxInv {
  m_sent : Mux.backendConn_ m = Some (mkConn (encodes (map pk_packet P)) true);
  m_good : Forall pk_good P;
  m_avail : 0 <= g <= Mux.kMaxConns /\ exists fin, Mux.availIds_ m = seqZ (g + 1) (Mux.kMaxConns - g) ++ fin;
  m_unused : forall i, ~ 1 <= i <= g -> phase i P = PhNone /\ Mux.clientConns_ m !! i = None;
  m_used : forall i, 1 <= i <= g -> exists c x, Mux.clients m !! c = Some x /\ Mux.cl_context x = Some i;
  m_ctx : forall c x i, Mux.clients m !! c = Some x -> Mux.cl_context x = Some i -> 1 <= i <= g /\
    client_ok (phase i P) (pdata i P) (qdata i Q) (qphase i Q) (bool_decide (c ∈ gone)) (cin c) (Mux.clientConns_ m !! i) c x;
  m_inj : forall c c' x x' i, Mux.clients m !! c = Some x -> Mux.clients m !! c' = Some x' -> Mux.cl_context x = Some i -> Mux.cl_context x' = Some i -> c = c';
  m_noctx : forall c x, Mux.clients m !! c = Some x -> Mux.cl_context x = None ->
    roomy (Mux.cl_input x) /\ content (Mux.cl_input x) = [] /\ zlen (buffer_ (Mux.cl_input x)) <= 2 ^ 11 + zlen (cin c) /\ sent_ (Mux.cl_conn x) = [] /\ connected_ (Mux.cl_conn x) = false;
  m_gone : forall c, c ∈ gone -> is_Some (Mux.clients m !! c);
  m_cin : forall c, Mux.clients m !! c = None -> cin c = [] }.

(** A step that concerns one client with a number *)
Lemma mux_update m m' g gone gone' P P' Q Q' cin cin' c x x' i cc fin :
  MuxInv m g gone P Q cin -> Mux.clients m !! c = Some x -> Mux.cl_context x = Some i ->
  Mux.backendConn_ m' = Some (mkConn (encodes (map pk_packet P')) true) -> Forall pk_good P' ->
  Mux.availIds_ m' = Mux.availIds_ m ++ fin -> Mux.clientConns_ m' = partial_alter (fun _ => cc) i (Mux.clientConns_ m) ->
  Mux.clients m' = <[c := x']> (Mux.clients m) -> Mux.cl_context x' = Some i ->
  (forall c', c' <> c -> cin' c' = cin c' /\ (c' ∈ gone' <-> c' ∈ gone)) ->
  (forall j, j <> i -> phase j P' = phase j P /\ pdata j P' = pdata j P /\ qdata j Q' = qdata j Q /\ qphase j Q' = qphase j Q) ->
  client_ok (phase i P') (pdata i P') (qdata i Q') (qphase i Q') (bool_decide (c ∈ gone')) (cin' c) cc c x' ->
  MuxInv m' g gone' P' Q' cin'.
Proof.
  intros I Ec Ei Sn Pg Av Cs Cl Ei' Hc Hj Ok. pose proof I as [_ _ [Hg (fin0 & Av0)] Un Us Ct Ij Nc Gn Ci].
  destruct (Ct c x i Ec Ei) as [Ri _]. split; try done.
  - split; [done|]. exists (fin0 ++ fin). by rewrite Av, Av0, app_assoc.
  - intros j Hj'. assert (j <> i) as N by (intros ->; done). destruct (Hj j N) as (-> & _). rewrite Cs, lookup_partial_alter_ne by done. by apply Un.
  - intros j Rj. destruct (Us j Rj) as (c1 & x1 & E1 & E2). rewrite Cl. destruct (decide (c1 = c)) as [->|N].
    + exists c, x'. rewrite lookup_insert_eq. split; [done|]. rewrite Ec in E1. injection E1 as <-. congruence.
    + exists c1, x1. by rewrite lookup_insert_ne.
  - intros c1 x1 j. rewrite Cl, lookup_insert_Some. intros [[<- <-] | [N E1]] E2.
    + rewrite Ei' in E2. injection E2 as <-. split; [done|]. by rewrite Cs, lookup_partial_alter_eq.
    + destruct (Ct c1 x1 j E1 E2) as [Rj Ok1]. split; [done|]. assert (j <> i) as Nj by (intros ->; apply N; by apply (Ij c c1 x x1 i)).
      destruct (Hj j Nj) as (-> & -> & -> & ->). rewrite Cs, lookup_partial_alter_ne by done. destruct (Hc c1) as [-> Hg1]; [done|]. by rewrite (bool_decide_ext _ _ Hg1).
  - intros c1 c2 x1 x2 j. rewrite Cl, !lookup_insert_Some. intros [[<- <-] | [N1 E1]] [[<- <-] | [N2 E2]] F1 F2; try done.
    + rewrite Ei' in F1. injection F1 as <-. by apply (Ij c c2 x x2 i).
    + rewrite Ei' in F2. injection F2 as <-. by apply (Ij c1 c x1 x i).
    + by apply (Ij c1 c2 x1 x2 j).
  - intros c1 x1. rewrite Cl, lookup_insert_Some. intros [[<- <-] | [N E1]] E2; [congruence|]. destruct (Hc c1) as [-> _]; [done|]. by apply Nc.
  - intros c1 H1. rewrite Cl. destruct (decide (c1 = c)) as [->|N]; [by rewrite lookup_insert_eq|]. rewrite lookup_insert_ne by done. apply Gn. by apply Hc.
  - intros c1. rewrite Cl. destruct (decide (c1 = c)) as [->|N]; [by rewrite lookup_insert_eq|]. rewrite lookup_insert_ne by done. intros E1. destruct (Hc c1 N) as [-> _]. by apply Ci.
Qed.

Lemma other_q i Q p : qk_id p <> i -> qdata i (Q ++ [p]) = qdata i Q /\ qphase i (Q ++ [p]) = qphase i Q.
Proof.
  intros N. rewrite qphase_snoc, qdata_snoc. unfold qphase_step. rewrite decide_False by done. split; [|done]. destruct p; [|by rewrite app_nil_r].
  cbn [qk_id] in N. by rewrite decide_False, app_nil_r.
Qed.
(** What a packet from the backend does, by the table of clients *)
Lemma mux_handle_is p m : qk_good p ->
  Mux.handle (qk_packet p).1 (qk_packet p).2 m =
  Ret (match Mux.clientConns_ m !! qk_id p with Some c => match p with QData _ x => Mux.client_send x c m | QDisc _ => Mux.client_shutdown c m end | None => m end).
Proof.
  intros [Hi G]. unfold Mux.handle. destruct p as [i x|i]; cbn [qk_packet fst snd qk_id] in *.
  - rewrite decide_True by lia. by destruct (Mux.clientConns_ m !! i).
  - rewrite decide_False by (intros N; by apply N). destruct (disc_text_ok i Hi) as [Et _]. destruct (fmt_d_id i Hi) as [Lf _]. unfold Mux.doCommand. rewrite Et.
    assert (zlen kCRLF = 2) as L2 by done. rewrite decide_True by (split; [zlia|by eexists]). unfold c_str_at. rewrite decide_True by zlia. cbn [obind].
    rewrite zdrop_app_r, Z.sub_diag, zdrop_0 by lia. change kCRLF with (Byte.x0d :: [Byte.x0a]). rewrite atoi_ok by (first [done|unfold Mux.kMaxConns in *; lia]).
    by destruct (Mux.clientConns_ m !! i).
Qed.
Lemma mux_handle m g gone P Q cin p :
  MuxInv m g gone P Q cin -> qk_good p -> qphase (qk_id p) (Q ++ [p]) <> PhBad ->
  exists m', Mux.handle (qk_packet p).1 (qk_packet p).2 m = Ret m' /\ MuxInv m' g gone P (Q ++ [p]) cin /\
    Mux.backendConn_ m' = Mux.backendConn_ m /\ Mux.backend_input m' = Mux.backend_input m.
Proof.
  intros I G B. rewrite mux_handle_is by done. eexists. split; [done|]. split; [|by destruct (_ !! qk_id p), p]. set (i := qk_id p) in *.
  assert (forall j, j <> i -> phase j P = phase j P /\ pdata j P = pdata j P /\ qdata j (Q ++ [p]) = qdata j Q /\ qphase j (Q ++ [p]) = qphase j Q) as Hj.
  { intros j N. destruct (other_q j Q p) as [-> ->]; [intros E; by apply N|]. done. }
  destruct (decide (1 <= i <= g)) as [Ri|Ri].
  - destruct (m_used _ _ _ _ _ _ I i Ri) as (c & x & Ec & Ei). destruct (m_ctx _ _ _ _ _ _ I c x i Ec Ei) as [_ (O1 & O2 & O3 & O4 & O5 & O6)].
    rewrite qphase_snoc in B. unfold qphase_step in B. rewrite decide_True in B by done. case_bool_decide as Gn.
    + destruct O6 as (A1 & A2 & A3). rewrite A2. apply (mux_update m m g gone gone P P Q _ cin cin c x x i None []); try done.
      * apply (m_sent _ _ _ _ _ _ I).
      * apply (m_good _ _ _ _ _ _ I).
      * by rewrite app_nil_r.
      * rewrite <- A2. symmetry. apply partial_alter_self.
      * symmetry. by apply insert_id.
      * rewrite bool_decide_true by done. do 5 (split; [done|]). split; [done|]. split; [done|]. rewrite qdata_snoc. by apply prefix_app_r.
    + destruct O6 as (A1 & A2 & A3 & A4). rewrite A2.
      assert (forall m' x', match p with QData _ d => Mux.client_send d c m | QDisc _ => Mux.client_shutdown c m end = m' -> Mux.clients m' = <[c := x']> (Mux.clients m) ->
        Mux.cl_context x' = Some i -> client_ok (phase i P) (pdata i P) (qdata i (Q ++ [p])) (qphase i (Q ++ [p])) false (cin c) (Some c) c x' ->
        MuxInv m' g gone P (Q ++ [p]) cin) as Up.
      { intros m' x' Em Ecl Ex Ok. assert (Mux.backendConn_ m' = Mux.backendConn_ m /\ Mux.availIds_ m' = Mux.availIds_ m /\ Mux.clientConns_ m' = Mux.clientConns_ m) as (Eb & Ea & Es)
          by (rewrite <- Em; by destruct p).
        apply (mux_update m m' g gone gone P P Q _ cin cin c x x' i (Some c) []); try done.
        - rewrite Eb. apply (m_sent _ _ _ _ _ _ I).
        - apply (m_good _ _ _ _ _ _ I).
        - by rewrite app_nil_r.
        - rewrite Es, <- A2. symmetry. apply partial_alter_self.
        - by rewrite bool_decide_false. }
      destruct p as [i' d|i']; cbn [qk_id] in *; destruct (qphase i Q) eqn:Eq; try done.
      * eapply Up; [done|cbn; apply alter_is_insert; exact Ec|done|]. rewrite qdata_snoc, qphase_snoc, Eq. unfold qphase_step. cbn [qk_id]. rewrite !decide_True by done.
        do 5 (split; [done|]). do 2 (split; [done|]). cbn [Mux.cl_conn Mux.set_conn]. unfold conn_write. rewrite A4. cbn [sent_ connected_]. by rewrite A3.
      * eapply Up; [done|cbn; apply alter_is_insert; exact Ec|done|]. rewrite qdata_snoc, qphase_snoc, Eq. unfold qphase_step. cbn [qk_id]. rewrite !decide_True by done.
        do 5 (split; [done|]). do 2 (split; [done|]). cbn [Mux.cl_conn Mux.set_conn conn_shutdown sent_ connected_]. by rewrite A3, app_nil_r.
  - destruct (m_unused _ _ _ _ _ _ I i Ri) as [_ En]. rewrite En. destruct I as [Sn Pg Av Un Us Ct Ij Nc Gn Ci]. split; try done.
    intros c x j Ec Ej. destruct (Ct c x j Ec Ej) as [Rj Ok]. split; [done|]. destruct (Hj j) as (_ & _ & -> & ->); [by intros ->|done].
Qed.
Lemma mux_handles qs m g gone P Q cin :
  MuxInv m g gone P Q cin -> Forall qk_good qs -> (forall i, qphase i (Q ++ qs) <> PhBad) ->
  exists m', handles Mux.handle (map qk_packet qs) m = Ret m' /\ MuxInv m' g gone P (Q ++ qs) cin /\
    Mux.backendConn_ m' = Mux.backendConn_ m /\ Mux.backend_input m' = Mux.backend_input m.
Proof.
  intros I F. revert m Q I. induction F as [|q qs G F IH]; intros m Q I B.
  - exists m. by rewrite app_nil_r.
  - change (q :: qs) with ([q] ++ qs) in *. setoid_rewrite (app_assoc Q [q] qs) in B.
    destruct (mux_handle m g gone P Q cin q I G) as (m1 & E1 & I1 & S1 & S2); [by eapply qphase_app|].
    destruct (IH m1 (Q ++ [q]) I1 B) as (m2 & E2 & I2 & S3 & S4). exists m2. rewrite app_assoc. split_and!; [|done|congruence|congruence].
    cbn [app map handles]. by rewrite E1.
Qed.

(** What [Mux] sends to the backend *)
Definition mpush (bs : list byte) (m : Mux.MultiplexServer) : Mux.MultiplexServer :=
  Mux.set_backend (match Mux.backendConn_ m with Some cn => Some (mkConn (sent_ cn ++ bs) true) | None => None end) m.
Definition mlinked (m : Mux.MultiplexServer) : Prop := exists snt, Mux.backendConn_ m = Some (mkConn snt true).
Lemma mpush_linked bs m : mlinked m -> mlinked (mpush bs m).
Proof. intros [snt E]. exists (snt ++ bs). cbn. by rewrite E. Qed.
Lemma mpush_fold i xs m : mlinked m -> fold_left (fun m x => mpush (encode (i, x)) m) xs m = mpush (encodes (map (pair i) xs)) m.
Proof.
  intros L. revert m L. induction xs as [|x xs IH]; intros m L.
  - destruct L as [snt E]. unfold mpush. rewrite E. cbn [fold_left map encodes concat sent_]. destruct m as [b bi cc av cl]. cbn [Mux.backendConn_] in E. subst b. by rewrite app_nil_r.
  - cbn [fold_left]. rewrite IH by (by apply mpush_linked). destruct L as [snt E]. unfold mpush, encodes. cbn [Mux.backendConn_ Mux.set_backend]. rewrite E. cbn [sent_ map concat].
    by rewrite <- app_assoc.
Qed.
Lemma sendBackendPacket_ok i b m : mlinked m -> roomy b -> 0 < zlen (content b) <= kMaxPacketLen ->
  exists b', Mux.sendBackendPacket i b m = Ret (mpush (encode (i, content b)) m, b') /\ roomy b' /\ content b' = [] /\ zlen (buffer_ b') = zlen (buffer_ b) /\
    mlinked (mpush (encode (i, content b)) m).
Proof.
  intros L [W R] H. destruct (add_header_ok i b W R) as (b1 & E1 & W1 & C1 & S1); [lia|]. pose proof L as [snt Es].
  unfold Mux.sendBackendPacket. rewrite E1. cbn [obind]. rewrite Es. unfold conn_send_buffer, conn_write. cbn [connected_ sent_].
  destruct (retrieveAll_ok b1 W1) as [W2 C2]. exists (retrieveAll b1). split; [|split; [done|split; [done|split; [done|by apply mpush_linked]]]].
  rewrite C1. unfold mpush. by rewrite Es.
Qed.
Lemma sendBackendString_ok msg m : mlinked m -> 0 < zlen msg <= 100 -> Mux.sendBackendString 0 msg m = Ret (mpush (encode (0, msg)) m).
Proof.
  intros L H. unfold Mux.sendBackendString, kMaxPacketLen. rewrite bool_decide_true by lia. cbn [check]. destruct new_roomy as (b & -> & Rb & Cb & Lb). cbn [obind].
  destruct (append_string_ok msg b (proj1 Rb)) as (b1 & -> & W1 & C1 & R1 & _); [lia|rewrite Lb; unfold max_size, kCheapPrepend, kInitialSize; lia|]. cbn [obind].
  rewrite Cb, app_nil_l in C1. assert (roomy b1) as Rb1 by (split; [done|]; destruct Rb as [_ Rb]; lia).
  destruct (sendBackendPacket_ok 0 b1 m L Rb1) as (b2 & -> & _); [rewrite C1; unfold kMaxPacketLen; lia|]. cbn [obind]. by rewrite C1.
Qed.
Lemma encodes_snoc P p : encodes (map pk_packet (P ++ [p])) = encodes (map pk_packet P) ++ encode (pk_packet p).
Proof. unfold encodes. rewrite !map_app, concat_app. cbn [map concat]. by rewrite app_nil_r. Qed.

Lemma mux_up m g gone P Q cin c peer buf :
  MuxInv m g gone P Q cin -> Mux.clients m !! c = None -> good_peer peer -> g < Mux.kMaxConns -> roomy buf -> content buf = [] -> zlen (buffer_ buf) <= 2 ^ 11 ->
  (qdata (g + 1) Q = [] /\ qphase (g + 1) Q = PhOpen) ->
  exists m', Mux.onClientConnection true c (Mux.set_clients (<[c := Mux.mkClient newConn None buf peer]> (Mux.clients m)) m) = Ret m' /\
    MuxInv m' (g + 1) gone (P ++ [PUp (g + 1) peer]) Q cin /\ Mux.backend_input m' = Mux.backend_input m.
Proof.
  intros I Nc Gp Hg R C L [Q1 Q2]. destruct I as [Sn Pg [Rg (fin & Av)] Un Us Ct Ij Nx Gn Ci]. set (i := g + 1) in *.
  assert (1 <= i <= Mux.kMaxConns) as Hi by lia. destruct (conn_text_ok i peer true Hi Gp) as (_ & _ & _ & Lt).
  assert (c ∉ gone) as Ng by (intros H; destruct (Gn c H); congruence). pose proof (Ci c Nc) as Cc.
  rewrite seqZ_cons in Av by lia. fold i in Av. cbn [app] in Av. destruct (Un i ltac:(lia)) as [Ph Cn].
  unfold Mux.onClientConnection. cbn [Mux.clients Mux.set_clients]. rewrite lookup_insert_eq. cbn [Mux.availIds_ Mux.set_clients]. rewrite Av. rewrite decide_False by lia. cbn [Mux.cl_peer].
  set (m1 := Mux.change _ _ _). assert (mlinked m1) as L1 by (by eexists). rewrite sendBackendString_ok by done. eexists. split; [done|]. split; [|done].
  assert (Mux.clients m1 = <[c := Mux.mkClient newConn (Some i) buf peer]> (Mux.clients m)) as Ecl by (cbn; by rewrite alter_insert_eq).
  assert (Mux.clientConns_ m1 = <[i := c]> (Mux.clientConns_ m)) as Ecc by done.
  split; cbn [mpush Mux.set_backend Mux.clients Mux.clientConns_ Mux.backendConn_ Mux.availIds_]; rewrite ?Ecl, ?Ecc; try done.
  - replace (Mux.backendConn_ m1) with (Mux.backendConn_ m) by done. rewrite Sn. cbn [sent_]. by rewrite encodes_snoc.
  - apply Forall_app. split; [done|]. apply Forall_singleton. done.
  - split; [lia|]. exists fin. cbn. replace (Mux.kMaxConns - i) with (Z.pred (Mux.kMaxConns - g)) by lia. by replace (i + 1) with (Z.succ i) by lia.
  - intros j Hj. destruct (other_packet j P (PUp i peer)) as [-> _]; [cbn [pk_id]; lia|]. rewrite lookup_insert_ne by lia. apply Un. lia.
  - intros j Hj. destruct (decide (j = i)) as [->|N]; [eexists c, _; by rewrite lookup_insert_eq|]. destruct (Us j) as (c1 & x1 & E1 & E2); [lia|].
    exists c1, x1. rewrite lookup_insert_ne; [done|]. congruence.
  - intros c1 x1 j. rewrite lookup_insert_Some. intros [[<- <-] | [N E1]] E2.
    + injection E2 as <-. split; [lia|]. rewrite lookup_insert_eq, phase_snoc, pdata_snoc, Ph, app_nil_r. unfold phase_step. rewrite decide_True, bool_decide_false by done.
      unfold client_ok. cbn [Mux.cl_peer Mux.cl_input Mux.cl_conn]. split; [done|]. split; [done|]. split; [done|]. split; [pose proof (zlen_nonneg (cin c)); lia|]. split; [rewrite Cc; by apply phase_none_data|].
      split; [done|]. split; [done|]. rewrite Q1, Q2. done.
    + destruct (Ct c1 x1 j E1 E2) as [Rj Ok]. split; [lia|]. destruct (other_packet j P (PUp i peer)) as [-> ->]; [cbn [pk_id]; lia|]. by rewrite lookup_insert_ne by lia.
  - intros c1 c2 x1 x2 j. rewrite !lookup_insert_Some. intros [[<- <-] | [N1 E1]] [[<- <-] | [N2 E2]] F1 F2; try done.
    + injection F1 as <-. destruct (Ct c2 x2 i E2 F2). lia.
    + injection F2 as <-. destruct (Ct c1 x1 i E1 F1). lia.
    + by apply (Ij c1 c2 x1 x2 j).
  - intros c1 x1. rewrite lookup_insert_Some. intros [[<- <-] | [N E1]] E2; [done|]. by apply Nx.
  - intros c1 H1. rewrite lookup_insert_ne; [by apply Gn|]. by intros ->.
  - intros c1. destruct (decide (c1 = c)) as [->|N]; [by rewrite lookup_insert_eq|]. rewrite lookup_insert_ne by done. apply Ci.
Qed.

Lemma phase_pieces i j P xs : (i = j -> phase j P = PhOpen) -> phase j (P ++ map (PData i) xs) = phase j P.
Proof.
  intros H. induction xs as [|x xs IH] using rev_ind; [by rewrite app_nil_r|]. rewrite map_app, app_assoc. cbn [map]. rewrite phase_snoc, IH. unfold phase_step. cbn [pk_id].
  case_decide as E; [|done]. by rewrite (H E).
Qed.
Lemma pdata_pieces i j P xs : pdata j (P ++ map (PData i) xs) = pdata j P ++ (if decide (i = j) then concat xs else []).
Proof.
  rewrite pdata_app. f_equal. unfold pdata. rewrite map_map. induction xs as [|x xs IH]; [by case_decide|]. cbn [map concat]. rewrite IH. by case_decide.
Qed.

Lemma mux_data m g gone P Q cin c x d buf :
  MuxInv m g gone P Q cin -> Mux.clients m !! c = Some x -> c ∉ gone -> roomy buf -> content buf = d -> zlen (buffer_ buf) <= 2 ^ 11 + zlen (cin c) + zlen d ->
  exists m' P', Mux.onClientMessage c (Mux.change c (Mux.set_input buf) m) = Ret m' /\ MuxInv m' g gone (P ++ P') Q (more c d cin) /\
    Forall pk_good P' /\ zlen (encodes (map pk_packet P')) <= 4 * zlen d /\ Mux.backend_input m' = Mux.backend_input m.
Proof.
  intros I Ec Ng R C L. pose proof (content_len _ (proj1 R)) as Lb. unfold Mux.onClientMessage. cbn [Mux.clients Mux.change Mux.set_clients]. rewrite lookup_alter_eq, Ec. cbn [fmap option_fmap option_map].
  cbn [Mux.cl_context Mux.set_input Mux.cl_input]. destruct (Mux.cl_context x) as [i|] eqn:Ei.
  - destruct (m_ctx _ _ _ _ _ _ I c x i Ec Ei) as [Ri (O1 & O2 & O3 & O4 & O5 & O6)]. rewrite bool_decide_false in O6 by done. destruct O6 as (A1 & A2 & A3 & A4).
    assert (mlinked (Mux.change c (Mux.set_input buf) m)) as Lk by (eexists; apply (m_sent _ _ _ _ _ _ I)). unfold Mux.sendBackendBuffer.
    set (pcs := pieces (packets_fuel buf) (content buf)). destruct (pieces_ok (packets_fuel buf) (content buf)) as [P1 P2]; [unfold packets_fuel; unfold zlen in Lb; lia|]. fold pcs in P1, P2.
    destruct (cut_loop_ok (Mux.sendBackendPacket i) mlinked (fun m x => mpush (encode (i, x)) m) (fun b s G => sendBackendPacket_ok i b s G) (packets_fuel buf) buf _ Lk R)
      as (b' & E & R' & C' & L' & _); [unfold packets_fuel; unfold zlen in Lb; lia|]. rewrite E. cbn [obind]. fold pcs. rewrite mpush_fold by done. clear E. clearbody pcs.
    assert (map pk_packet (map (PData i) pcs) = map (pair i) pcs) as Em by (by rewrite map_map).
    assert (1 <= i <= Mux.kMaxConns) as Hi by (destruct (m_avail _ _ _ _ _ _ I); lia).
    assert (Forall pk_good (map (PData i) pcs)) as Pg by (apply Forall_map; eapply Forall_impl; [exact P2|done]).
    eexists _, (map (PData i) pcs). split; [done|]. split; [|split; [done|split; [|done]]].
    + apply (mux_update m _ g gone gone P _ Q Q cin (more c d cin) c x (Mux.set_input b' x) i (Some c) [] I Ec Ei).
      * cbn. rewrite (m_sent _ _ _ _ _ _ I). cbn [sent_]. by rewrite map_app, Em; unfold encodes; rewrite map_app, concat_app.
      * apply Forall_app. split; [apply (m_good _ _ _ _ _ _ I)|done].
      * by rewrite app_nil_r.
      * rewrite <- A2. symmetry. apply partial_alter_self.
      * cbn. rewrite (alter_is_insert _ _ _ _ Ec), alter_insert_eq. done.
      * done.
      * intros c' Nc. unfold more. rewrite decide_False by done. by rewrite app_nil_r.
      * intros j Nj. rewrite phase_pieces, pdata_pieces by (by intros ->). rewrite decide_False by done. by rewrite app_nil_r.
      * rewrite phase_pieces, pdata_pieces, decide_True, bool_decide_false by done. unfold client_ok, more. rewrite decide_True by done. cbn [Mux.cl_peer Mux.set_input Mux.cl_input Mux.cl_conn].
        split; [done|]. split; [done|]. split; [done|]. split; [zlia|]. split; [by rewrite O5, P1, C|]. done.
    + rewrite Em, <- C, <- P1. clear -P2. induction P2 as [|p ps Hp F IH]; [done|]. unfold encodes in *. cbn [map concat]. rewrite !zlen_app, encode_length. cbn [snd]. lia.
  - eexists _, []. rewrite app_nil_r. split; [done|]. split; [|split; [constructor|split; [cbn; zlia|done]]].
    destruct (m_noctx _ _ _ _ _ _ I c x Ec Ei) as (O1 & O2 & O3 & O4 & O5). destruct I as [Sn Pg Av Un Us Ct Ij Nx Gn Ci].
    assert (Mux.clients (Mux.change c (Mux.set_input (retrieveAll buf)) (Mux.change c (Mux.set_input buf) m)) = <[c := Mux.set_input (retrieveAll buf) x]> (Mux.clients m)) as Ecl
      by (cbn; rewrite (alter_is_insert _ _ _ _ Ec), alter_insert_eq; done).
    split; try done; rewrite ?Ecl.
    + intros j Rj. destruct (Us j Rj) as (c1 & x1 & E1 & E2). exists c1, x1. rewrite lookup_insert_ne; [done|]. congruence.
    + intros c1 x1 j. rewrite lookup_insert_Some. intros [[<- <-] | [N E1]] E2; [change (Mux.cl_context x = Some j) in E2; congruence|]. unfold more. rewrite decide_False, app_nil_r by done. by apply Ct.
    + intros c1 c2 x1 x2 j. rewrite !lookup_insert_Some. intros [[<- <-] | [N1 E1]] [[<- <-] | [N2 E2]] F1 F2; try done; [change (Mux.cl_context x = Some j) in F1; congruence|change (Mux.cl_context x = Some j) in F2; congruence|]. by apply (Ij c1 c2 x1 x2 j).
    + intros c1 x1. rewrite lookup_insert_Some. unfold more. intros [[<- <-] | [N E1]] E2.
      * destruct (retrieveAll_ok buf (proj1 R)) as [W2 C2]. rewrite decide_True by done. cbn [Mux.cl_input Mux.set_input Mux.cl_conn]. split; [done|]. split; [done|]. split; [cbn [retrieveAll buffer_]; zlia|done].
      * rewrite decide_False, app_nil_r by done. by apply Nx.
    + intros c1 H1. destruct (decide (c1 = c)) as [->|N]; [by rewrite lookup_insert_eq|]. rewrite lookup_insert_ne by done. by apply Gn.
    + intros c1. destruct (decide (c1 = c)) as [->|N]; [by rewrite lookup_insert_eq|]. rewrite lookup_insert_ne by done. unfold more. rewrite decide_False, app_nil_r by done. apply Ci.
Qed.

(** No number is left. *)
Lemma mux_up_none m g gone P Q cin c peer buf :
  MuxInv m g gone P Q cin -> Mux.clients m !! c = None -> Mux.availIds_ m = [] -> roomy buf -> content buf = [] -> zlen (buffer_ buf) <= 2 ^ 11 ->
  exists m', Mux.onClientConnection true c (Mux.set_clients (<[c := Mux.mkClient newConn None buf peer]> (Mux.clients m)) m) = Ret m' /\
    MuxInv m' g gone P Q cin /\ Mux.backend_input m' = Mux.backend_input m.
Proof.
  intros I Nc Av R C L. unfold Mux.onClientConnection. cbn [Mux.clients Mux.set_clients]. rewrite lookup_insert_eq. cbn [Mux.availIds_ Mux.set_clients]. rewrite Av. rewrite decide_True by lia.
  eexists. split; [done|]. split; [|done]. set (x := Mux.mkClient (conn_shutdown newConn) None buf peer). destruct I as [Sn Pg Av' Un Us Ct Ij Nx Gn Ci].
  set (m' := Mux.client_shutdown _ _). assert (Mux.clients m' = <[c := x]> (Mux.clients m)) as Ecl by (cbn; by rewrite alter_insert_eq). clearbody x.
  assert (Mux.cl_context x = None /\ Mux.cl_input x = buf /\ Mux.cl_conn x = conn_shutdown newConn) as (X1 & X2 & X3).
  { pose proof (f_equal (fun m => m !! c) Ecl) as E. cbn in E. rewrite lookup_alter_eq, !lookup_insert_eq in E. by injection E as <-. }
  split; try done; rewrite ?Ecl.
  - intros j Rj. destruct (Us j Rj) as (c1 & x1 & E1 & E2). exists c1, x1. rewrite lookup_insert_ne; [done|]. congruence.
  - intros c1 x1 j. rewrite lookup_insert_Some. intros [[<- <-] | [N E1]] E2; [congruence|]. by apply Ct.
  - intros c1 c2 x1 x2 j. rewrite !lookup_insert_Some. intros [[<- <-] | [N1 E1]] [[<- <-] | [N2 E2]] F1 F2; [done|congruence|congruence|]. by apply (Ij c1 c2 x1 x2 j).
  - intros c1 x1. rewrite lookup_insert_Some. intros [[<- <-] | [N E1]] E2; [|by apply Nx]. rewrite X2, X3. split; [done|]. split; [done|]. split; [zlia|done].
  - intros c1 H1. rewrite lookup_insert_ne; [by apply Gn|]. intros <-. destruct (Gn c H1). congruence.
  - intros c1. destruct (decide (c1 = c)) as [->|N]; [by rewrite lookup_insert_eq|]. rewrite lookup_insert_ne by done. apply Ci.
Qed.

Lemma mux_down m g gone P Q cin c x :
  MuxInv m g gone P Q cin -> Mux.clients m !! c = Some x -> c ∉ gone ->
  exists m' P', Mux.onClientConnection false c (Mux.client_shutdown c m) = Ret m' /\ MuxInv m' g ({[c]} ∪ gone) (P ++ P') Q cin /\
    Forall pk_good P' /\ zlen (encodes (map pk_packet P')) <= 103 /\ Mux.backend_input m' = Mux.backend_input m.
Proof.
  intros I Ec Ng. set (x' := Mux.set_conn (conn_shutdown (Mux.cl_conn x)) x).
  assert (Mux.clients (Mux.client_shutdown c m) = <[c := x']> (Mux.clients m)) as Ecl by (exact (alter_is_insert (fun x => Mux.set_conn (conn_shutdown (Mux.cl_conn x)) x) c x _ Ec)).
  unfold Mux.onClientConnection. rewrite Ecl, lookup_insert_eq. change (Mux.cl_context x') with (Mux.cl_context x). change (Mux.cl_peer x') with (Mux.cl_peer x).
  assert (forall c', c' <> c -> cin c' = cin c' /\ (c' ∈ {[c]} ∪ gone <-> c' ∈ gone)) as Hc.
  { intros c' N. split; [done|]. rewrite elem_of_union, elem_of_singleton. split; [intros [H | H]; done|by right]. }
  assert (c ∈ {[c]} ∪ gone) as Hg by (apply elem_of_union; left; by apply elem_of_singleton).
  destruct (Mux.cl_context x) as [i|] eqn:Ei.
  - destruct (m_ctx _ _ _ _ _ _ I c x i Ec Ei) as [Ri (O1 & O2 & O3 & O4 & O5 & O6)]. rewrite bool_decide_false in O6 by done. destruct O6 as (A1 & A2 & A3 & A4).
    assert (1 <= i <= Mux.kMaxConns) as Hi by (destruct (m_avail _ _ _ _ _ _ I); lia). destruct (conn_text_ok i (Mux.cl_peer x) false Hi O1) as (_ & _ & _ & Lt).
    rewrite bool_decide_true by lia. cbn [check]. rewrite sendBackendString_ok by (first [lia|eexists; apply (m_sent _ _ _ _ _ _ I)]). cbn [obind].
    set (p := PDown i (Mux.cl_peer x)). assert (pk_good p) as Gp by done.
    assert (Mux.backendConn_ (mpush (encode (0, Mux.conn_text i (Mux.cl_peer x) false)) (Mux.client_shutdown c m)) = Some (mkConn (encodes (map pk_packet (P ++ [p]))) true)) as Eb.
    { cbn. rewrite (m_sent _ _ _ _ _ _ I), encodes_snoc. done. }
    rewrite Eb. eexists _, [p]. split; [done|]. split; [|split; [by apply Forall_singleton|split; [|done]]].
    + apply (mux_update m _ g gone ({[c]} ∪ gone) P (P ++ [p]) Q Q cin cin c x x' i None [i] I Ec Ei); try done.
      * apply Forall_app. split; [apply (m_good _ _ _ _ _ _ I)|]. by apply Forall_singleton.
      * intros j Nj. destruct (other_packet j P p) as [-> ->]; [by intros E; apply Nj|]. done.
      * rewrite phase_snoc, pdata_snoc, A1, app_nil_r. unfold phase_step. rewrite decide_True, bool_decide_true by done. do 5 (split; [done|]). split; [done|]. split; [done|].
        cbn [Mux.cl_conn Mux.set_conn conn_shutdown sent_ x']. by rewrite A3.
    + unfold encodes. cbn [map concat]. rewrite app_nil_r, encode_length. cbn [pk_packet snd p]. lia.
  - eexists _, []. rewrite app_nil_r. split; [done|]. split; [|split; [by apply Forall_nil|split; [by vm_compute|done]]].
    destruct (m_noctx _ _ _ _ _ _ I c x Ec Ei) as (O1 & O2 & O3 & O4 & O5). destruct I as [Sn Pg Av' Un Us Ct Ij Nx Gn Ci]. split; try done; rewrite ?Ecl.
    + intros j Rj. destruct (Us j Rj) as (c1 & x1 & E1 & E2). exists c1, x1. rewrite lookup_insert_ne; [done|]. congruence.
    + intros c1 x1 j. rewrite lookup_insert_Some. intros [[<- <-] | [N E1]] E2; [change (Mux.cl_context x = Some j) in E2; congruence|].
      destruct (Hc c1) as [_ H1]; [done|]. rewrite (bool_decide_ext _ _ H1). by apply Ct.
    + intros c1 c2 x1 x2 j. rewrite !lookup_insert_Some. intros [[<- <-] | [N1 E1]] [[<- <-] | [N2 E2]] F1 F2; try done;
        [change (Mux.cl_context x = Some j) in F1; congruence|change (Mux.cl_context x = Some j) in F2; congruence|]. by apply (Ij c1 c2 x1 x2 j).
    + intros c1 x1. rewrite lookup_insert_Some. intros [[<- <-] | [N E1]] E2; [done|by apply Nx].
    + intros c1 H1. destruct (decide (c1 = c)) as [->|N]; [by rewrite lookup_insert_eq|]. rewrite lookup_insert_ne by done. apply Gn. by apply Hc.
    + intros c1. destruct (decide (c1 = c)) as [->|N]; [by rewrite lookup_insert_eq|]. rewrite lookup_insert_ne by done. apply Ci.
Qed.

(** ** Both together *)

Lemma split_packets {B} (f : B -> Packet) (rest : list B) (q more : list byte) : q ++ more = encodes (map f rest) ->
  exists ps rest' q', rest = ps ++ rest' /\ q = encodes (map f ps) ++ q' /\ partial_packet q' (map f rest').
Proof.
  revert q. induction rest as [|p rest IH]; intros q E.
  - apply app_eq_nil in E as [-> ->]. exists [], [], []. split_and!; try done. by split; [exists []|].
  - destruct (decide (zlen (encode (f p)) <= zlen q)) as [H|H].
    + unfold encodes in E. cbn [map concat] in E. fold (encodes (map f rest)) in E. destruct (prefix_split _ _ _ _ E H) as (q2 & Eq & E2).
      destruct (IH _ E2) as (ps & rest' & q' & -> & E3 & Pq). exists (p :: ps), rest', q'. split_and!; [done| |done].
      rewrite Eq, E3. unfold encodes. cbn [map concat]. by rewrite app_assoc.
    + exists [], (p :: rest), q. split_and!; [done..|]. split; [by exists more|]. cbn [map]. lia.
Qed.
Lemma partial_extend (q : list byte) (rest new : list Packet) : partial_packet q rest -> partial_packet q (rest ++ new).
Proof.
  intros [[more E] H]. split.
  - exists (more ++ encodes new). unfold encodes. rewrite map_app, concat_app, app_assoc. by rewrite E.
  - destruct rest as [|p rest]; [|done]. apply app_eq_nil in E as [-> _]. destruct new as [|p new]; [done|]. cbn [app]. rewrite encode_length. zlia.
Qed.

Lemma phase_none_app i P P' : phase i (P ++ P') = PhNone -> phase i P = PhNone.
Proof.
  induction P' as [|p P' IH] using rev_ind; [by rewrite app_nil_r|]. rewrite app_assoc, phase_snoc. unfold phase_step. case_decide; [by destruct (phase i (P ++ P')), p|done].
Qed.
Lemma qphase_open_app i Q Q' : qphase i (Q ++ Q') = PhOpen -> qphase i Q = PhOpen.
Proof.
  induction Q' as [|p Q' IH] using rev_ind; [by rewrite app_nil_r|]. rewrite app_assoc, qphase_snoc. unfold qphase_step. case_decide; [|done].
  intros E. apply IH. by destruct (qphase i (Q ++ Q')), p.
Qed.
Lemma mux_phases m g gone P Q cin w : MuxInv m g gone P Q cin -> (forall c, zlen (cin c) <= w) -> 0 <= w -> forall i, phase i P <> PhBad /\ zlen (pdata i P) <= w.
Proof.
  intros I Hc Hw i. destruct (decide (1 <= i <= g)) as [R|R].
  - destruct (m_used _ _ _ _ _ _ I i R) as (c & x & Ec & Ei). destruct (m_ctx _ _ _ _ _ _ I c x i Ec Ei) as [_ (_ & _ & _ & _ & -> & H)]. split; [|done].
    case_bool_decide; destruct H as [-> _]; done.
  - destruct (m_unused _ _ _ _ _ _ I i R) as [Ph _]. rewrite (phase_none_data i P Ph), Ph. done.
Qed.
Lemma demux_phases d dead P Q kin : DemuxInv d dead P Q kin -> forall i, qphase i Q <> PhBad.
Proof.
  intros I i. destruct (Demux.socksConns_ d !! i) as [e|] eqn:E.
  - destruct (entry_of _ _ _ _ _ _ _ I E) as (cl & _ & (_ & _ & M) & _). destruct (Demux.connection e) as [k|].
    + destruct M as (_ & _ & y & _ & (_ & _ & _ & _ & _ & H)). case_bool_decide; destruct H as (_ & _ & ->); done.
    + destruct M as (_ & _ & _ & ->). done.
  - pose proof (d_conns _ _ _ _ _ I i) as C. rewrite E in C. unfold conn_state in C. destruct (phase i P); try done; by destruct C as [_ ->].
Qed.

(** [w] is the traffic so far. [P] and [Q] have been handled, [P'] and [Q'] are on their way. *)
Definition in_flight (inp : Buffer) (arrived : Z) (sent : list byte) (rest : list Packet) : Prop :=
  wf inp /\ zlen (buffer_ inp) <= 2 ^ 11 + arrived /\ 0 <= arrived <= zlen sent /\ content inp ++ zdrop arrived sent = encodes rest /\ partial_packet (content inp) rest.
Record NetInv (n : Net) (w : Z) (P P' : list Pk) (Q Q' : list Qk) (cin kin : nat -> list byte) : Prop := mkNetInv {
  n_mux : MuxInv (mux n) (given n) (gone n) (P ++ P') Q cin;
  n_demux : DemuxInv (demux n) (dead n) P (Q ++ Q') kin;
  n_down : exists cn inp, Demux.servers (demux n) !! O = Some (cn, inp) /\ in_flight inp (to_demux n) (backend_sent n) (map pk_packet P');
  n_up : in_flight (Mux.backend_input (mux n)) (to_mux n) (server_sent n) (map qk_packet Q');
  n_size : zlen (backend_sent n) <= 300 * w /\ zlen (server_sent n) <= 300 * w /\ (forall c, zlen (cin c) <= w) /\ (forall k, zlen (kin k) <= w) /\ 0 <= w <= 2 ^ 50 }.

Lemma in_flight_more inp arrived sent rest bs new : in_flight inp arrived sent rest -> bs = encodes new -> in_flight inp arrived (sent ++ bs) (rest ++ new).
Proof.
  intros (W & L & A & E & Pq) ->. split; [done|]. split; [done|]. split; [zlia|]. split; [|by apply partial_extend].
  rewrite zdrop_app_l, app_assoc, E by lia. unfold encodes. by rewrite map_app, concat_app.
Qed.

Lemma backend_sent_is n P : Mux.backendConn_ (mux n) = Some (mkConn (encodes (map pk_packet P)) true) -> backend_sent n = encodes (map pk_packet P).
Proof. unfold backend_sent. by intros ->. Qed.
Lemma encodes_app (ps qs : list Packet) : encodes (ps ++ qs) = encodes ps ++ encodes qs.
Proof. unfold encodes. by rewrite map_app, concat_app. Qed.

(** A step of the multiplexer that sends the packets [new] *)
Lemma net_mux_step n m g gn w s P P' Q Q' cin cin' kin new :
  NetInv n w P P' Q Q' cin kin -> 0 <= s -> w + s <= 2 ^ 50 ->
  MuxInv m g gn (P ++ P' ++ new) Q cin' -> Mux.backend_input m = Mux.backend_input (mux n) -> zlen (encodes (map pk_packet new)) <= 300 * s -> (forall c, zlen (cin' c) <= w + s) ->
  NetInv (mkNet m (demux n) (to_demux n) (to_mux n) g gn (dead n)) (w + s) P (P' ++ new) Q Q' cin' kin.
Proof.
  intros [Im Id (cn & inp & Es & Fl) Up (S1 & S2 & S3 & S4 & S5)] Hs Hw Im' Ei Ln Lc.
  pose proof (backend_sent_is n _ (m_sent _ _ _ _ _ _ Im)) as B0. set (n' := mkNet _ _ _ _ _ _ _).
  pose proof (backend_sent_is n' _ (m_sent _ _ _ _ _ _ Im')) as B1. rewrite app_assoc, map_app, encodes_app, <- B0 in B1.
  split; cbn [mux demux to_demux to_mux given gone dead n']; try done.
  - exists cn, inp. split; [done|]. fold n'. rewrite B1, map_app. by apply in_flight_more.
  - rewrite Ei. done.
  - fold n'. rewrite B1, zlen_app. change (server_sent n') with (server_sent n). split_and!; try done; try lia. intros k. specialize (S4 k). lia.
Qed.
(** A step of the demultiplexer that sends the packets [new] *)
Lemma net_demux_step n d dd w s P P' Q Q' cin kin kin' new :
  NetInv n w P P' Q Q' cin kin -> 0 <= s -> w + s <= 2 ^ 50 ->
  DemuxInv d dd P (Q ++ Q' ++ new) kin' ->
  (exists snt inp, Demux.servers (demux n) !! O = Some (mkConn snt true, inp) /\ Demux.servers d = <[O := (mkConn (snt ++ encodes (map qk_packet new)) true, inp)]> (Demux.servers (demux n))) ->
  zlen (encodes (map qk_packet new)) <= 300 * s -> (forall k, zlen (kin' k) <= w + s) ->
  NetInv (mkNet (mux n) d (to_demux n) (to_mux n) (given n) (gone n) dd) (w + s) P P' Q (Q' ++ new) cin kin'.
Proof.
  intros [Im Id (cn & inp & Es & Fl) Up (S1 & S2 & S3 & S4 & S5)] Hs Hw Id' (snt & inp' & E1 & E2) Ln Lk. rewrite Es in E1. injection E1 as -> <-. set (n' := mkNet _ _ _ _ _ _ _).
  assert (server_sent n = snt) as B0 by (unfold server_sent; by rewrite Es).
  assert (server_sent n' = server_sent n ++ encodes (map qk_packet new)) as B1 by (unfold server_sent at 1; cbn [demux n']; by rewrite E2, lookup_insert_eq, B0).
  split; cbn [mux demux to_demux to_mux given gone dead n']; try done.
  - eexists _, inp. rewrite E2, lookup_insert_eq. split; [done|]. exact Fl.
  - fold n'. rewrite B1, map_app. by apply in_flight_more.
  - fold n'. rewrite B1, zlen_app. change (backend_sent n') with (backend_sent n). split_and!; try done; try lia. intros c. specialize (S3 c). lia.
Qed.

(** The event [e] keeps the invariant and adds what it brings to what was received. *)
Definition Steps (e : NetEvent) (n : Net) (w : Z) (cin kin : nat -> list byte) : Prop :=
  exists n' P P' Q Q' cin' kin', net_step e n = Ret n' /\ NetInv n' (w + event_size e) P P' Q Q' cin' kin' /\
    (forall c, cin' c = cin c ++ client_received c [e]) /\ (forall k, kin' k = kin k ++ socks_received k [e]).
Lemma more_received c d (cin : nat -> list byte) x : more c d cin x = cin x ++ client_received x [ClientData c d].
Proof. unfold more, client_received. cbn [map concat]. by rewrite app_nil_r. Qed.
Lemma more_socks k d (kin : nat -> list byte) x : more k d kin x = kin x ++ socks_received x [SocksData k d].
Proof. unfold more, socks_received. cbn [map concat]. by rewrite app_nil_r. Qed.
Lemma more_size k d (kin : nat -> list byte) w : (forall x, zlen (kin x) <= w) -> 0 <= w -> forall x, zlen (more k d kin x) <= w + (1 + zlen d).
Proof. intros H Hw x. specialize (H x). unfold more. pose proof (zlen_nonneg d). case_decide; zlia. Qed.

Lemma step_client_up n w P P' Q Q' cin kin c peer :
  NetInv n w P P' Q Q' cin kin -> enabled (ClientUp c peer) n -> w + 1 <= 2 ^ 50 -> Steps (ClientUp c peer) n w cin kin.
Proof.
  intros I (Nc & Gp & Av) Hw. pose proof I as [Im Id _ _ (S1 & S2 & S3 & S4 & S5)]. destruct new_roomy as (b & Eb & Rb & Cb & Lb).
  assert (zlen (buffer_ b) <= 2 ^ 11) as Lb' by (rewrite Lb; by vm_compute). unfold Steps, net_step. rewrite Eb. cbn [obind event_size].
  destruct (m_avail _ _ _ _ _ _ Im) as [Rg (fin & Ea)]. destruct (decide (Mux.availIds_ (mux n) = [])) as [E0|N0].
  - destruct (mux_up_none _ _ _ _ _ _ c peer b Im Nc E0 Rb Cb Lb') as (m & -> & Im' & Ei). cbn [obind]. eexists _, P, (P' ++ []), Q, Q', cin, kin. split; [done|].
    split; [|split; intros j; by rewrite app_nil_r]. rewrite Z.add_0_r. apply (net_mux_step n m _ (gone n) w 1 P P' Q Q' cin cin kin []); [exact I|lia|lia|by rewrite app_nil_r|exact Ei|by vm_compute|].
    intros j. specialize (S3 j). lia.
  - assert (given n < Mux.kMaxConns) as Hg by tauto.
    assert (quiet (qdata (given n + 1) Q) (qphase (given n + 1) Q)) as Qt.
    { destruct (m_unused _ _ _ _ _ _ Im (given n + 1)) as [Ph _]; [lia|]. apply phase_none_app in Ph. pose proof (d_conns _ _ _ _ _ Id (given n + 1)) as Ci. rewrite Ph in Ci.
      unfold conn_state in Ci. destruct (Demux.socksConns_ (demux n) !! (given n + 1)); [done|]. destruct Ci as [Q1 Q2]. rewrite qdata_app in Q1. apply app_eq_nil in Q1 as [Q1 _]. apply qphase_open_app in Q2. done. }
    destruct (mux_up _ _ _ _ _ _ c peer b Im Nc Gp Hg Rb Cb Lb' Qt) as (m & -> & Im' & Ei). cbn [obind]. set (p := PUp (given n + 1) peer) in *.
    eexists _, P, (P' ++ [p]), Q, Q', cin, kin. split; [done|]. split; [|split; intros j; by rewrite app_nil_r].
    apply (net_mux_step n m _ (gone n) w 1 P P' Q Q' cin cin kin [p]); [exact I|lia|lia|by rewrite app_assoc|exact Ei|..].
    + destruct (conn_text_ok (given n + 1) peer true) as (_ & _ & _ & Lt); [lia|done|]. unfold encodes. cbn [map concat]. rewrite app_nil_r, encode_length. cbn [pk_packet snd p]. lia.
    + intros j. specialize (S3 j). lia.
Qed.
Lemma step_client_data n w P P' Q Q' cin kin c d :
  NetInv n w P P' Q Q' cin kin -> enabled (ClientData c d) n -> w + (1 + zlen d) <= 2 ^ 50 -> Steps (ClientData c d) n w cin kin.
Proof.
  intros I ([x Ec] & Ng) Hw. pose proof I as [Im Id _ _ (S1 & S2 & S3 & S4 & S5)]. pose proof (S3 c) as S3c. unfold Steps, net_step. rewrite Ec. cbn [event_size].
  assert (roomy (Mux.cl_input x) /\ content (Mux.cl_input x) = [] /\ zlen (buffer_ (Mux.cl_input x)) <= 2 ^ 11 + zlen (cin c)) as (R & C & L).
  { destruct (Mux.cl_context x) as [i|] eqn:Ei; [destruct (m_ctx _ _ _ _ _ _ Im c x i Ec Ei) as [_ (_ & H1 & H2 & H3 & _)]|destruct (m_noctx _ _ _ _ _ _ Im c x Ec Ei) as (H1 & H2 & H3 & _)]; done. }
  destruct (append_roomy d (zlen d) (Mux.cl_input x) R) as (b & Eb & Rb & Cb & Lb); [zlia|unfold max_size; zlia|]. unfold append_bytes. rewrite Eb. cbn [obind]. rewrite C, app_nil_l, ztake_all in Cb by lia.
  destruct (mux_data _ _ _ _ _ _ c x d b Im Ec Ng Rb Cb) as (m & new & -> & Im' & Gn & Ln & Ei); [lia|]. cbn [obind]. pose proof (zlen_nonneg d).
  eexists _, P, (P' ++ new), Q, Q', (more c d cin), kin. split; [done|]. split; [|split; [intros j; apply more_received|intros j; by rewrite app_nil_r]].
  apply (net_mux_step n m _ (gone n) w (1 + zlen d) P P' Q Q' cin); try done; try lia; [by rewrite app_assoc|]. apply more_size; [done|lia].
Qed.
Lemma step_client_down n w P P' Q Q' cin kin c :
  NetInv n w P P' Q Q' cin kin -> enabled (ClientDown c) n -> w + 1 <= 2 ^ 50 -> Steps (ClientDown c) n w cin kin.
Proof.
  intros I ([x Ec] & Ng) Hw. pose proof I as [Im Id _ _ (S1 & S2 & S3 & S4 & S5)]. unfold Steps, net_step. cbn [event_size].
  destruct (mux_down _ _ _ _ _ _ c x Im Ec Ng) as (m & new & -> & Im' & Gn & Ln & Ei). cbn [obind].
  eexists _, P, (P' ++ new), Q, Q', cin, kin. split; [done|]. split; [|split; intros j; by rewrite app_nil_r].
  apply (net_mux_step n m _ _ w 1 P P' Q Q' cin); try done; try lia; [by rewrite app_assoc|]. intros j. specialize (S3 j). lia.
Qed.
Lemma step_socks_up n w P P' Q Q' cin kin i :
  NetInv n w P P' Q Q' cin kin -> enabled (SocksUp i) n -> w + 1 <= 2 ^ 50 -> Steps (SocksUp i) n w cin kin.
Proof.
  intros I En Hw. cbn [enabled] in En. destruct (Demux.socksConns_ (demux n) !! i) as [e|] eqn:Ei; [rename En into Ek|done].
  pose proof I as [Im Id _ _ (S1 & S2 & S3 & S4 & S5)]. unfold Steps, net_step. rewrite Ei. cbn [event_size].
  destruct new_roomy as (b & -> & Rb & Cb & Lb). cbn [obind]. assert (zlen (buffer_ b) <= 2 ^ 11) as Lb' by (rewrite Lb; by vm_compute).
  destruct (demux_socks_up _ _ _ _ _ i e b Id Ei Ek Rb Cb Lb') as (d & -> & Id' & Es). cbn [obind]. destruct (d_sent _ _ _ _ _ Id) as (inp & E0).
  eexists _, P, P', Q, (Q' ++ []), cin, kin. split; [done|]. split; [|split; intros j; by rewrite app_nil_r].
  apply (net_demux_step n d _ w 1 P P' Q Q' cin kin kin []); [done|lia|lia|by rewrite app_nil_r| |by vm_compute|intros j; specialize (S4 j); lia].
  eexists _, inp. split; [exact E0|]. rewrite Es. change (encodes (map qk_packet [])) with (@nil byte). rewrite app_nil_r. symmetry. by apply insert_id.
Qed.
Lemma step_socks_data n w P P' Q Q' cin kin k d :
  NetInv n w P P' Q Q' cin kin -> enabled (SocksData k d) n -> w + (1 + zlen d) <= 2 ^ 50 -> Steps (SocksData k d) n w cin kin.
Proof.
  intros I ([y Ey] & Nd) Hw. pose proof I as [Im Id _ _ (S1 & S2 & S3 & S4 & S5)]. pose proof (S4 k) as S4k. unfold Steps, net_step. rewrite Ey. cbn [event_size].
  destruct (socks_of _ _ _ _ _ _ _ Id Ey) as (e & Ei & Ek & Ec). destruct (entry_of _ _ _ _ _ _ _ Id Ei) as (cl & _ & (_ & _ & M) & _). rewrite Ek in M.
  destruct M as (_ & _ & y0 & Ey0 & (_ & R & C & L & _)). rewrite Ey in Ey0. injection Ey0 as <-.
  destruct (append_roomy d (zlen d) (Demux.sk_input y) R) as (b & Eb & Rb & Cb & Lb); [zlia|unfold max_size; zlia|]. unfold append_bytes. rewrite Eb. cbn [obind]. rewrite C, app_nil_l, ztake_all in Cb by lia.
  destruct (demux_socks_data _ _ _ _ _ k y d b Id Ey Nd Rb Cb) as (m & pcs & -> & E1 & F1 & Id' & Sv); [lia|]. cbn [obind]. pose proof (zlen_nonneg d).
  eexists _, P, P', Q, (Q' ++ map (QData (Demux.sk_connId y)) pcs), cin, (more k d kin). split; [done|]. split; [|split; [intros j; by rewrite app_nil_r|intros j; apply more_socks]].
  apply (net_demux_step n m _ w (1 + zlen d) P P' Q Q' cin kin); [done|lia|lia|by rewrite app_assoc|done| |apply more_size; [done|lia]].
  assert (map qk_packet (map (QData (Demux.sk_connId y)) pcs) = map (pair (Demux.sk_connId y)) pcs) as -> by (by rewrite map_map).
  assert (zlen (encodes (map (pair (Demux.sk_connId y)) pcs)) <= 4 * zlen (concat pcs)) as Le; [|rewrite E1 in Le; lia].
  clear -F1. induction F1 as [|p ps Hp F IH]; [done|]. unfold encodes in *. cbn [map concat]. rewrite !zlen_app, encode_length. cbn [snd]. lia.
Qed.
Lemma step_socks_down n w P P' Q Q' cin kin k :
  NetInv n w P P' Q Q' cin kin -> enabled (SocksDown k) n -> w + 1 <= 2 ^ 50 -> Steps (SocksDown k) n w cin kin.
Proof.
  intros I ([y Ey] & Nd) Hw. pose proof I as [Im Id _ _ (S1 & S2 & S3 & S4 & S5)]. unfold Steps, net_step. rewrite Ey. cbn [event_size].
  destruct (demux_socks_down _ _ _ _ _ k y Id Ey Nd) as (m & -> & Id' & Sv). cbn [obind]. destruct (socks_of _ _ _ _ _ _ _ Id Ey) as (e & Ei & _).
  destruct (d_fresh _ _ _ _ _ Id _ _ Ei) as [_ Hi]. destruct (disc_text_ok _ Hi) as [_ Ld].
  eexists _, P, P', Q, (Q' ++ [QDisc (Demux.sk_connId y)]), cin, kin. split; [done|]. split; [|split; intros j; by rewrite app_nil_r].
  apply (net_demux_step n m _ w 1 P P' Q Q' cin kin); [done|lia|lia|by rewrite app_assoc|done| |intros j; specialize (S4 j); lia].
  unfold encodes. cbn [map concat]. rewrite app_nil_r, encode_length. cbn [qk_packet snd]. lia.
Qed.

(** Some of what is in flight arrives. *)
Lemma arrival {B} (f : B -> Packet) inp arrived sent (rest : list B) d :
  in_flight inp arrived sent (map f rest) -> d `prefix_of` zdrop arrived sent -> zlen sent <= 2 ^ 60 ->
  exists inp' ps rest' q, append_bytes d inp = Ret inp' /\ rest = ps ++ rest' /\ wf inp' /\ content inp' = encodes (map f ps) ++ q /\ partial_packet q (map f rest') /\
    forall inp2, wf inp2 -> content inp2 = q -> zlen (buffer_ inp2) = zlen (buffer_ inp') -> in_flight inp2 (arrived + zlen d) sent (map f rest').
Proof.
  intros (W & L & A & E & Pq) [more Ed] Ls. pose proof (f_equal zlen Ed) as Lz. rewrite zlen_zdrop, zlen_app in Lz by lia. zlen_pos.
  destruct (append_bytes_ok d inp W) as (inp' & Ea & W' & C' & _ & L'); [unfold max_size; lia|]. rewrite Ed, app_assoc, <- C' in E.
  destruct (split_packets f rest _ _ E) as (ps & rest' & q & -> & Eq & Pq'). exists inp', ps, rest', q. split_and!; try done. intros inp2 W2 C2 L2.
  split; [done|]. split; [lia|]. split; [lia|]. split; [|by rewrite C2]. rewrite Eq, map_app, encodes_app, <- app_assoc in E. apply app_inv_head in E. rewrite C2, <- E. f_equal.
  unfold zdrop in *. rewrite Z2Nat.inj_add by lia. rewrite <- drop_drop, Ed.
  rewrite drop_app_length' by (unfold zlen; lia). done.
Qed.
Lemma step_to_demux n w P P' Q Q' cin kin d :
  NetInv n w P P' Q Q' cin kin -> enabled (ToDemux d) n -> w + (1 + zlen d) <= 2 ^ 50 -> Steps (ToDemux d) n w cin kin.
Proof.
  intros I Pf Hw. pose proof I as [Im Id (cn & inp & Es & Fl) Up (S1 & S2 & S3 & S4 & S5)]. cbn [enabled] in Pf. zlen_pos.
  destruct (arrival pk_packet inp (to_demux n) (backend_sent n) P' d Fl Pf) as (inp1 & ps & rest & q & Ea & -> & W1 & C1 & Pq & Fl'); [lia|].
  unfold Steps, net_step. rewrite Es, Ea. cbn [obind event_size]. set (d1 := Demux.set_servers _ _).
  pose proof (m_good _ _ _ _ _ _ Im) as Gd. apply Forall_app in Gd as [_ Gd]. apply Forall_app in Gd as [Gp Gr].
  assert (DemuxInv d1 (dead n) P (Q ++ Q') kin) as Id1.
  { destruct Id as [Sv (inp0 & Sn) Qg Cn Sk Ij Fr Dd Kn]. rewrite Es in Sn. injection Sn as -> <-. split; try done. exists inp1. cbn. by rewrite lookup_insert_eq. }
  pose proof (mux_phases _ _ _ _ _ _ w Im S3 ltac:(lia)) as Mp. rewrite app_assoc in Mp.
  destruct (demux_handles ps d1 (dead n) P (Q ++ Q') kin Id1 Gp) as (d2 & Eh & Id2 & Sv2).
  { intros i. destruct (Mp i) as [B _]. by eapply phase_app. }
  { intros i. destruct (Mp i) as [_ B]. rewrite pdata_app in B. zlia. }
  unfold Demux.onServerMessage. cbn [d1 Demux.servers Demux.set_servers]. rewrite lookup_insert_eq. fold d1. pose proof (content_len _ W1) as Lc.
  destruct (packets_loop_ok Demux.handle (map pk_packet ps) q (map pk_packet rest) (packets_fuel inp1) inp1 d1 d2 W1 C1 Pq) as (inp2 & -> & W2 & C2 & L2);
    [apply Forall_map; eapply Forall_impl; [exact Gp|apply pk_packet_good]|apply Forall_map; eapply Forall_impl; [exact Gr|apply pk_packet_good]|done|unfold packets_fuel; zlia|]. cbn [obind].
  eexists _, (P ++ ps), rest, Q, Q', cin, kin. split; [done|]. split; [|split; intros j; by rewrite app_nil_r].
  assert (Demux.servers d2 !! O = Some (cn, inp1)) as Ed2 by (rewrite Sv2; cbn; by rewrite lookup_insert_eq).
  assert (Demux.servers (Demux.set_servers (alter (fun x => (x.1, inp2)) O (Demux.servers d2)) d2) !! O = Some (cn, inp2)) as Ed3 by (cbn; by rewrite lookup_alter_eq, Ed2).
  split; cbn [mux demux to_demux to_mux given gone dead]; try done.
  - by rewrite <- app_assoc.
  - destruct Id2 as [Sv (inp0 & Sn) Qg Cn Sk Ij Fr Dd Kn]. rewrite Ed2 in Sn. injection Sn as -> <-. split; try done. by exists inp2.
  - exists cn, inp2. split; [done|]. by apply Fl'.
  - assert (server_sent n = sent_ cn) as B0 by (unfold server_sent; by rewrite Es). unfold server_sent. cbn [demux]. rewrite Ed3, <- B0. exact Up.
  - assert (server_sent n = sent_ cn) as B0 by (unfold server_sent; by rewrite Es). unfold server_sent, backend_sent. cbn [demux mux]. rewrite Ed3, <- B0. fold (backend_sent n).
    split_and!; try lia; [intros j; specialize (S3 j); lia|intros j; specialize (S4 j); lia].
Qed.
Lemma step_to_mux n w P P' Q Q' cin kin d :
  NetInv n w P P' Q Q' cin kin -> enabled (ToMux d) n -> w + (1 + zlen d) <= 2 ^ 50 -> Steps (ToMux d) n w cin kin.
Proof.
  intros I Pf Hw. pose proof I as [Im Id Dn Fl (S1 & S2 & S3 & S4 & S5)]. cbn [enabled] in Pf. zlen_pos.
  destruct (arrival qk_packet _ (to_mux n) (server_sent n) Q' d Fl Pf) as (inp1 & ps & rest & q & Ea & -> & W1 & C1 & Pq & Fl'); [lia|].
  unfold Steps, net_step. rewrite Ea. cbn [obind event_size]. set (m1 := Mux.set_backend_input inp1 (mux n)).
  pose proof (d_good _ _ _ _ _ Id) as Gd. apply Forall_app in Gd as [_ Gd]. apply Forall_app in Gd as [Gp Gr].
  assert (MuxInv m1 (given n) (gone n) (P ++ P') Q cin) as Im1 by (destruct Im; by split).
  pose proof (demux_phases _ _ _ _ _ Id) as Mp. rewrite app_assoc in Mp.
  destruct (mux_handles ps m1 (given n) (gone n) (P ++ P') Q cin Im1 Gp) as (m2 & Eh & Im2 & Eb & Ei).
  { intros i. by eapply qphase_app. }
  unfold Mux.onBackendMessage, Mux.sendToClient. cbn [m1 Mux.backend_input Mux.set_backend_input]. fold m1. pose proof (content_len _ W1) as Lc.
  destruct (packets_loop_ok Mux.handle (map qk_packet ps) q (map qk_packet rest) (packets_fuel inp1) inp1 m1 m2 W1 C1 Pq) as (inp2 & -> & W2 & C2 & L2);
    [apply Forall_map; eapply Forall_impl; [exact Gp|apply qk_packet_good]|apply Forall_map; eapply Forall_impl; [exact Gr|apply qk_packet_good]|done|unfold packets_fuel; zlia|]. cbn [obind].
  eexists _, P, P', (Q ++ ps), rest, cin, kin. split; [done|]. split; [|split; intros j; by rewrite app_nil_r]. set (n' := mkNet _ _ _ _ _ _ _).
  assert (backend_sent n' = backend_sent n) as B0 by (unfold backend_sent; cbn [mux n' Mux.set_backend_input Mux.backendConn_]; by rewrite Eb).
  split; try done.
  - cbn [mux n' given gone]. destruct Im2. by split.
  - cbn [demux n' dead]. by rewrite <- app_assoc.
  - rewrite B0. exact Dn.
  - cbn [mux n' Mux.set_backend_input Mux.backend_input to_mux]. by apply Fl'.
  - rewrite B0. change (server_sent n') with (server_sent n). split_and!; try lia; [intros j; specialize (S3 j); lia|intros j; specialize (S4 j); lia].
Qed.

(** ** The tunnel *)

(** A client with a number is connected to the socks connection with that number, if there is one: each gets what the other sends, in order, as long as it is there,
    and has got all of it when everything has arrived. *)
Definition Tunnelled (n : Net) (evs : list NetEvent) : Prop :=
  forall c x k y i, Mux.clients (mux n) !! c = Some x -> Mux.cl_context x = Some i -> Demux.socks (demux n) !! k = Some y -> Demux.sk_connId y = i ->
    sent_ (Demux.sk_conn y) `prefix_of` client_received c evs /\ (to_demux n = zlen (backend_sent n) -> k ∉ dead n -> sent_ (Demux.sk_conn y) = client_received c evs) /\
    sent_ (Mux.cl_conn x) `prefix_of` socks_received k evs /\ (to_mux n = zlen (server_sent n) -> c ∉ gone n -> sent_ (Mux.cl_conn x) = socks_received k evs).
(** Numbers are not shared. *)
Definition Separate (n : Net) : Prop :=
  (forall c c' x x' i, Mux.clients (mux n) !! c = Some x -> Mux.clients (mux n) !! c' = Some x' -> Mux.cl_context x = Some i -> Mux.cl_context x' = Some i -> c = c') /\
  (forall k k' y y', Demux.socks (demux n) !! k = Some y -> Demux.socks (demux n) !! k' = Some y' -> Demux.sk_connId y = Demux.sk_connId y' -> k = k').

Lemma net_inv_step e n w P P' Q Q' cin kin :
  NetInv n w P P' Q Q' cin kin -> enabled e n -> w + event_size e <= 2 ^ 50 -> Steps e n w cin kin.
Proof.
  intros I En Hw. destruct e; cbn [event_size] in Hw.
  - by eapply step_client_up.
  - by eapply step_client_data.
  - by eapply step_client_down.
  - by eapply step_socks_up.
  - by eapply step_socks_data.
  - by eapply step_socks_down.
  - by eapply step_to_demux.
  - by eapply step_to_mux.
Qed.
Lemma net_inv_run evs n w P P' Q Q' cin kin :
  NetInv n w P P' Q Q' cin kin -> legal evs n -> w + traffic evs <= 2 ^ 50 ->
  exists n' w' P1 P1' Q1 Q1' cin' kin', net_run evs n = Ret n' /\ NetInv n' w' P1 P1' Q1 Q1' cin' kin' /\
    (forall c, cin' c = cin c ++ client_received c evs) /\ (forall k, kin' k = kin k ++ socks_received k evs).
Proof.
  revert n w P P' Q Q' cin kin. induction evs as [|e evs IH]; intros n w P P' Q Q' cin kin I L Hw.
  - exists n, w, P, P', Q, Q', cin, kin. split_and!; try done; intros j; by rewrite app_nil_r.
  - destruct L as [En L]. cbn [traffic foldr] in Hw. fold (traffic evs) in Hw.
    assert (0 <= traffic evs) as Ht by (clear; induction evs as [|e evs IH]; [done|]; cbn [traffic foldr]; fold (traffic evs); destruct e; cbn [event_size]; zlia).
    destruct (net_inv_step e n w P P' Q Q' cin kin I En) as (n1 & P1 & P1' & Q1 & Q1' & cin1 & kin1 & E1 & I1 & C1 & K1); [lia|].
    rewrite E1 in L. destruct (IH n1 _ _ _ _ _ _ _ I1 L) as (n2 & w2 & P2 & P2' & Q2 & Q2' & cin2 & kin2 & E2 & I2 & C2 & K2); [lia|].
    exists n2, w2, P2, P2', Q2, Q2', cin2, kin2. cbn [net_run]. rewrite E1. split_and!; try done.
    + intros c. rewrite C2, C1, <- app_assoc. f_equal. unfold client_received. cbn [map concat]. by rewrite app_nil_r.
    + intros k. rewrite K2, K1, <- app_assoc. f_equal. unfold socks_received. cbn [map concat]. by rewrite app_nil_r.
Qed.
Lemma all_arrived inp arrived sent (rest : list Packet) : in_flight inp arrived sent rest -> arrived = zlen sent -> rest = [].
Proof.
  intros (W & L & A & E & Pq) ->. unfold zdrop in E. rewrite drop_ge, app_nil_r in E by (unfold zlen; lia).
  destruct rest as [|p rest]; [done|]. destruct Pq as [_ Pq]. rewrite E in Pq. unfold encodes in Pq. cbn [map concat] in Pq. rewrite zlen_app in Pq. zlen_pos. lia.
Qed.
Lemma inv_tunnelled n w P P' Q Q' cin kin evs :
  NetInv n w P P' Q Q' cin kin -> (forall c, cin c = client_received c evs) -> (forall k, kin k = socks_received k evs) -> Tunnelled n evs /\ Separate n.
Proof.
  intros [Im Id (cn & inp & Es & Dn) Up _] Hc Hk. split; [|split].
  - intros c x k y i Ec Ei Ey Ek. destruct (m_ctx _ _ _ _ _ _ Im c x i Ec Ei) as [_ (_ & _ & _ & _ & O5 & O6)]. destruct (socks_of _ _ _ _ _ _ _ Id Ey) as (e & Ee & Ek' & _).
    rewrite Ek in Ee. destruct (entry_of _ _ _ _ _ _ _ Id Ee) as (cl & _ & (_ & _ & M) & _). rewrite Ek' in M. destruct M as (_ & _ & y0 & Ey0 & (_ & _ & _ & _ & Y5 & Y6)).
    rewrite Ey in Ey0. injection Ey0 as <-. rewrite <- Hc, <- Hk, <- O5, <- Y5, pdata_app, qdata_app.
    assert (sent_ (Demux.sk_conn y) `prefix_of` pdata i P /\ (k ∉ dead n -> sent_ (Demux.sk_conn y) = pdata i P)) as [D1 D2].
    { destruct (bool_decide_reflect (k ∈ dead n)) as [Hd|Hd]; destruct Y6 as (Y6 & _); [split; [done|by intros []]|]. by rewrite Y6. }
    assert (sent_ (Mux.cl_conn x) `prefix_of` qdata i Q /\ (c ∉ gone n -> sent_ (Mux.cl_conn x) = qdata i Q)) as [U1 U2].
    { destruct (bool_decide_reflect (c ∈ gone n)) as [Hd|Hd]; [destruct O6 as (_ & _ & O6); split; [done|by intros []]|]. destruct O6 as (_ & _ & -> & _). done. }
    split_and!; [by apply prefix_app_r| |by apply prefix_app_r|].
    + intros Ea Nd. pose proof (all_arrived _ _ _ _ Dn Ea) as E0. apply map_eq_nil in E0. subst P'. cbn. rewrite app_nil_r. by apply D2.
    + intros Ea Ng. pose proof (all_arrived _ _ _ _ Up Ea) as E0. apply map_eq_nil in E0. subst Q'. cbn. rewrite app_nil_r. by apply U2.
  - apply (m_inj _ _ _ _ _ _ Im).
  - intros k k' y y' Ey Ey' E. destruct (socks_of _ _ _ _ _ _ _ Id Ey) as (e & Ee & Ek & _). destruct (socks_of _ _ _ _ _ _ _ Id Ey') as (e' & Ee' & Ek' & _). congruence.
Qed.

Lemma newNet_ok : exists n, newNet = Ret n /\ NetInv n 0 [] [] [] [] (fun _ => []) (fun _ => []).
Proof.
  destruct new_roomy as (b & Eb & [Wb _] & Cb & Lb). unfold newNet. rewrite Eb. cbn [obind]. unfold Mux.onBackendConnection. cbn [Mux.set_backend Mux.availIds_].
  rewrite bool_decide_true by done. cbn [check obind]. eexists. split; [done|].
  assert (zlen (buffer_ b) <= 2 ^ 11) as Lb' by (rewrite Lb; by vm_compute).
  assert (in_flight b 0 [] []) as F. { split; [done|]. split; [lia|]. split; [done|]. rewrite Cb. split; [done|]. split; [by exists []|done]. }
  split; cbn [mux demux to_demux to_mux given gone dead].
  - split; try done.
    + split; [done|]. by exists [].
    + intros i Hi. lia.
  - split; try done. by exists b.
  - by exists newConn, b.
  - done.
  - split_and!; try done.
Qed.

(** C11. For every interleaving of clients that come, send and go, of socks connections that are established, send and close, and of bytes that arrive over the
    connection between the two programs in any pieces, while no number is given to a second client: no assertion of either program fails, numbers are not shared, and a client and the
    socks connection with its number are tunnelled: each has been sent a prefix of what was received from the other, and all of it once everything has arrived, unless it is closed. *)
Theorem multiplex_tunnels evs n : newNet = Ret n -> legal evs n -> traffic evs <= 2 ^ 50 ->
  exists n', net_run evs n = Ret n' /\ Tunnelled n' evs /\ Separate n'.
Proof.
  intros E L Hw. destruct newNet_ok as (n0 & E0 & I). rewrite E in E0. injection E0 as <-.
  destruct (net_inv_run evs n 0 _ _ _ _ _ _ I L Hw) as (n' & w & P & P' & Q & Q' & cin & kin & E' & I' & C & K). exists n'. split; [done|].
  eapply inv_tunnelled; [exact I'|done|done].
Qed.

#[export] Instance enabled_dec e n : Decision (enabled e n).
Proof. unfold enabled, good_peer. destruct e; try apply _. destruct (_ !! _); apply _. Defined.
#[export] Instance legal_dec evs n : Decision (legal evs n).
Proof. revert n. induction evs as [|e evs IH]; intros n; cbn [legal]; [apply _|]. destruct (net_step e n); apply _. Defined.

(** Two clients whose packets are cut in the middle *)
Definition example_net : Net := match newNet with Ret n => n | Stop _ => mkNet (Mux.mkMux None (mkBuffer [] 0 0) ∅ [] ∅) (Demux.mkDemux None ∅ ∅ ∅ 0) 0 0 0 ∅ ∅ end.
Definition example_packets : list byte :=
  encode (pk_packet (PUp 1 (bytes "1.1.1.1:1"))) ++ encode (1, bytes "hello") ++ encode (pk_packet (PUp 2 (bytes "2.2.2.2:2"))) ++ encode (2, bytes "x") ++ encode (1, bytes " world").
Definition example_evs : list NetEvent :=
  [ClientUp 7 (bytes "1.1.1.1:1"); ClientData 7 (bytes "hello"); ClientUp 9 (bytes "2.2.2.2:2"); ClientData 9 (bytes "x"); ClientData 7 (bytes " world");
   ToDemux (ztake 40 example_packets); SocksUp 1; SocksData 0 (bytes "answer"); ToDemux (zdrop 40 example_packets); SocksUp 2; ToMux (encode (1, bytes "answer"));
   SocksDown 1; ClientDown 7].
Lemma multiplex_tunnels_witness : exists n', net_run example_evs example_net = Ret n' /\ Tunnelled n' example_evs /\ Separate n'.
Proof.
  apply (multiplex_tunnels example_evs example_net).
  - vm_compute. reflexivity.
  - apply (bool_decide_unpack _). vm_compute. exact Logic.I.
  - vm_compute. discriminate.
Defined.

(** ** Where the programs fail *)

(** Everything that was sent arrives. *)
Definition deliver (n : Net) : outcome Net := net_step (ToDemux (zdrop (to_demux n) (backend_sent n))) n.
(** A client comes, its socks connection is established, and it goes. *)
Definition session (c : nat) (n : Net) : outcome Net :=
  let* n := net_step (ClientUp c (bytes "1.1.1.1:1")) n in
  let* n := deliver n in
  let* n := net_step (SocksUp (Z.of_nat c)) n in
  let* n := net_step (ClientDown c) n in
  deliver n.
Fixpoint sessions (cs : list nat) (n : Net) : outcome Net := match cs with [] => Ret n | c :: cs => let* n := session c n in sessions cs n end.
(** [DemuxServer] keeps the entry of a client that is gone: the eleventh client, which gets the number of the first, fails an assertion. *)
Lemma reused_number_aborts :
  (let* n := newNet in let* n := sessions (seq 1 10) n in net_step (ClientUp 11 (bytes "1.1.1.1:1")) n) <> Stop AssertFailed /\
  (let* n := newNet in let* n := sessions (seq 1 10) n in let* n := net_step (ClientUp 11 (bytes "1.1.1.1:1")) n in deliver n) = Stop AssertFailed.
Proof. split; [vm_compute; discriminate|vm_compute; reflexivity]. Qed.
(** When the multiplexer is gone all entries are erased: the callback of a socks connection that closes then fails an assertion. *)
Lemma lost_server_aborts d j connId k : Demux.serverConn_ d = Some j -> Demux.onSocksConnection connId false k (Demux.onServerConnection false j d) = Stop AssertFailed.
Proof. intros E. unfold Demux.onServerConnection. rewrite decide_True by done. unfold Demux.onSocksConnection. cbn [Demux.socksConns_ Demux.set_socksConns]. by rewrite lookup_empty. Qed.
(** When the backend is gone the header stays in the input buffer of the client: the third piece of input has no room for another. *)
Definition after_loss (ds : list (list byte)) : outcome Net :=
  let* n := newNet in
  let* n := net_step (ClientUp 1 (bytes "1.1.1.1:1")) n in
  let* m := Mux.onBackendConnection None (mux n) in
  net_run (map (ClientData 1) ds) (set_mux m n).
Lemma lost_backend_aborts : (exists n, after_loss [bytes "a"; bytes "b"] = Ret n) /\ after_loss [bytes "a"; bytes "b"; bytes "c"] = Stop AssertFailed.
Proof. split; [eexists; vm_compute; reflexivity|vm_compute; reflexivity]. Qed.
