(* ===== verification/Hub.v ===== *)
(** * Publish and subscribe (src/muduo/examples/hub/)

    [PubSubServer] (hub.cc) passes what is published on a topic to the connections that have subscribed to it;
    [PubSubClient] (pubsub.cc) is its client and [parseMessage] (codec.cc) reads the messages of both. The file shows that every subscriber
    is told exactly what was published while it was subscribed, in order, however the bytes are cut. *)

From S2P Require Import Prelude Format StringPiece Buffer Http Lines Conn Timestamp.

(** ** Messages *)

Definition SP : byte := Byte.x20.
Inductive ParseResult := kError | kSuccess | kContinue.
#[export] Instance ParseResult_eq_dec : EqDecision ParseResult.
Proof. solve_decision. Defined.
Record Parsed := mkParsed { p_result : ParseResult; p_cmd : list byte; p_topic : list byte; p_content : list byte }.

Definition parseMessage (buf : Buffer) : outcome (Parsed * Buffer) :=
  match findCRLF buf with
  | Some crlf =>
      let space := peek buf + std_find SP (slice (buffer_ buf) (peek buf) crlf) in
      if decide (space <> crlf) then
        let cmd := slice (buffer_ buf) (peek buf) space in
        let topic := slice (buffer_ buf) (space + 1) crlf in
        if decide (cmd = bytes "pub") then
          let start := crlf + 2 in
          let* crlf := findCRLF_from start buf in
          match crlf with
          | Some crlf =>
              let content := slice (buffer_ buf) start crlf in
              let* buf := retrieveUntil (crlf + 2) buf in
              Ret (mkParsed kSuccess cmd topic content, buf)
          | None => Ret (mkParsed kContinue cmd topic [], buf)
          end
        else
          let* buf := retrieveUntil (crlf + 2) buf in
          Ret (mkParsed kSuccess cmd topic [], buf)
      else Ret (mkParsed kError [] [] [], buf)
  | None => Ret (mkParsed kContinue [] [] [], buf)
  end.

(** ** The hub *)

Record Topic := mkTopic { topic_ : list byte; content_ : list byte; lastPubTime_ : Z; audiences_ : gset (list byte) }.
(** A connection with its context, which holds its subscriptions, and its input buffer *)
Record Client := mkClient { cl_conn : Conn; cl_context : gset (list byte); cl_input : Buffer }.
(** The connections by their names *)
Record PubSubServer := mkHub { topics_ : gmap (list byte) Topic; clients : gmap (list byte) Client }.
Definition set_topic (t : list byte) (v : Topic) (s : PubSubServer) : PubSubServer := mkHub (<[t := v]> (topics_ s)) (clients s).
Definition change (n : list byte) (f : Client -> Client) (s : PubSubServer) : PubSubServer := mkHub (topics_ s) (alter f n (clients s)).
Definition with_conn v c := mkClient v (cl_context c) (cl_input c).
Definition with_context v c := mkClient (cl_conn c) v (cl_input c).
Definition with_input v c := mkClient (cl_conn c) (cl_context c) v.
(** [conn->send(message)], and to every connection of a set *)
Definition send_to (msg n : list byte) (s : PubSubServer) : outcome PubSubServer :=
  match clients s !! n with
  | Some c => let* cn := conn_send msg (cl_conn c) in Ret (change n (with_conn cn) s)
  | None => Stop OutOfRange
  end.
Fixpoint send_all (msg : list byte) (l : list (list byte)) (s : PubSubServer) : outcome PubSubServer :=
  match l with
  | [] => Ret s
  | n :: l => let* s := send_to msg n s in send_all msg l s
  end.

Definition makeMessage (t : Topic) : list byte := bytes "pub " ++ topic_ t ++ kCRLF ++ content_ t ++ kCRLF.
Definition getTopic (t : list byte) (s : PubSubServer) : Topic * PubSubServer :=
  match topics_ s !! t with
  | Some v => (v, s)
  | None => let v := mkTopic t [] invalid ∅ in (v, set_topic t v s)
  end.

Definition doSubscribe (n t : list byte) (s : PubSubServer) : outcome PubSubServer :=
  let s := change n (fun c => with_context ({[t]} ∪ cl_context c) c) s in
  let (v, s) := getTopic t s in
  let v := mkTopic (topic_ v) (content_ v) (lastPubTime_ v) ({[n]} ∪ audiences_ v) in
  let s := set_topic t v s in
  if valid (lastPubTime_ v) then send_to (makeMessage v) n s else Ret s.
Definition doUnsubscribe (n t : list byte) (s : PubSubServer) : PubSubServer :=
  let (v, s) := getTopic t s in
  let s := set_topic t (mkTopic (topic_ v) (content_ v) (lastPubTime_ v) (audiences_ v ∖ {[n]})) s in
  change n (fun c => with_context (cl_context c ∖ {[t]}) c) s.
Definition doPublish (t content : list byte) (time : Z) (s : PubSubServer) : outcome PubSubServer :=
  let (v, s) := getTopic t s in
  let v := mkTopic (topic_ v) content time (audiences_ v) in
  send_all (makeMessage v) (elements (audiences_ v)) (set_topic t v s).
Definition timePublish (gmtime_r : Z -> tm) (now : Z) : PubSubServer -> outcome PubSubServer :=
  doPublish (bytes "utc_time") (toFormattedString gmtime_r now true) now.

Definition onConnection (connected : bool) (n : list byte) (s : PubSubServer) : outcome PubSubServer :=
  match clients s !! n with
  | None => Stop OutOfRange
  | Some c =>
      if connected then Ret (change n (with_context ∅) s)
      else Ret (foldr (doUnsubscribe n) s (elements (cl_context c)))
  end.

(** The loop of [onMessage]; every message has a byte. *)
Fixpoint message_loop (fuel : nat) (n : list byte) (time : Z) (buf : Buffer) (s : PubSubServer) : outcome (PubSubServer * Buffer) :=
  match fuel with
  | O => Stop NoFuel
  | S fuel =>
      let* (p, buf) := parseMessage buf in
      match p_result p with
      | kSuccess =>
          if decide (p_cmd p = bytes "pub") then
            let* s := doPublish (p_topic p) (p_content p) time s in message_loop fuel n time buf s
          else if decide (p_cmd p = bytes "sub") then
            let* s := doSubscribe n (p_topic p) s in message_loop fuel n time buf s
          else if decide (p_cmd p = bytes "unsub") then message_loop fuel n time buf (doUnsubscribe n (p_topic p) s)
          else Ret (change n (fun c => with_conn (conn_shutdown (cl_conn c)) c) s, buf)
      | kError => Ret (change n (fun c => with_conn (conn_shutdown (cl_conn c)) c) s, buf)
      | kContinue => Ret (s, buf)
      end
  end.
Definition onMessage (n : list byte) (time : Z) (s : PubSubServer) : outcome PubSubServer :=
  match clients s !! n with
  | None => Stop OutOfRange
  | Some c =>
      let* (s, buf) := message_loop (S (Z.to_nat (readableBytes (cl_input c)))) n time (cl_input c) s in
      Ret (change n (with_input buf) s)
  end.

(** ** The client *)

(** The connection, if it is up, and what [subscribeCallback_] was called with, if it is set *)
Record PubSubClient := mkPub { conn_ : option Conn; subscribeCallback_ : option (list (list byte * list byte)) }.
Definition pub_send (message : list byte) (p : PubSubClient) : outcome (bool * PubSubClient) :=
  match conn_ p with
  | Some c =>
      if connected_ c then
        let* c := conn_send message c in
        Ret (true, mkPub (Some c) (subscribeCallback_ p))
      else Ret (false, p)
  | None => Ret (false, p)
  end.
Definition subscribe (topic : list byte) (p : PubSubClient) : outcome (bool * PubSubClient) :=
  pub_send (bytes "sub " ++ topic ++ kCRLF) (mkPub (conn_ p) (Some (default [] (subscribeCallback_ p)))).
Definition unsubscribe (topic : list byte) (p : PubSubClient) : outcome PubSubClient :=
  let* (_, p) := pub_send (bytes "unsub " ++ topic ++ kCRLF) p in Ret p.
Definition publish (topic content : list byte) (p : PubSubClient) : outcome (bool * PubSubClient) :=
  pub_send (bytes "pub " ++ topic ++ kCRLF ++ content ++ kCRLF) p.
Definition client_onConnection (conn : option Conn) (p : PubSubClient) : PubSubClient := mkPub conn (subscribeCallback_ p).
Fixpoint client_loop (fuel : nat) (buf : Buffer) (p : PubSubClient) : outcome (PubSubClient * Buffer) :=
  match fuel with
  | O => Stop NoFuel
  | S fuel =>
      let* (m, buf) := parseMessage buf in
      match p_result m with
      | kSuccess =>
          let p := match subscribeCallback_ p with
                   | Some calls => if decide (p_cmd m = bytes "pub") then mkPub (conn_ p) (Some (calls ++ [(p_topic m, p_content m)])) else p
                   | None => p
                   end in
          client_loop fuel buf p
      | kError => Ret (mkPub (conn_shutdown <$> conn_ p) (subscribeCallback_ p), buf)
      | kContinue => Ret (p, buf)
      end
  end.
Definition client_onMessage (buf : Buffer) (p : PubSubClient) : outcome (PubSubClient * Buffer) :=
  client_loop (S (Z.to_nat (readableBytes buf))) buf p.

(** ** Requests as texts *)

Inductive HCmd := HPub (t c : list byte) | HSub (t : list byte) | HUnsub (t : list byte).
Definition h_name (c : HCmd) : list byte := match c with HPub _ _ => bytes "pub" | HSub _ => bytes "sub" | HUnsub _ => bytes "unsub" end.
Definition h_topic (c : HCmd) : list byte := match c with HPub t _ | HSub t | HUnsub t => t end.
Definition h_content (c : HCmd) : list byte := match c with HPub _ x => x | _ => [] end.
Definition h_line (c : HCmd) : list byte := h_name c ++ SP :: h_topic c.
Definition h_data (c : HCmd) : list byte := match c with HPub _ x => x ++ kCRLF | _ => [] end.
Definition h_text (c : HCmd) : list byte := h_line c ++ kCRLF ++ h_data c.
Definition h_texts (cs : list HCmd) : list byte := concat (map h_text cs).
(** One line is the topic, one the content, and the length of what is published is an [int]. *)
Definition h_short (c : HCmd) : Prop := match c with HPub _ _ => zlen (h_text c) < 2 ^ 31 | _ => True end.
Definition h_good (c : HCmd) : Prop := CR ∉ h_topic c /\ CR ∉ h_content c /\ h_short c.

Lemma h_name_plain c : SP ∉ h_name c /\ CR ∉ h_name c.
Proof. destruct c; split; apply (bool_decide_unpack _); vm_compute; exact Logic.I. Qed.
Lemma h_line_CR c : h_good c -> CR ∉ h_line c.
Proof.
  intros [G _]. unfold h_line. rewrite elem_of_app, elem_of_cons. destruct (h_name_plain c) as [_ N]. intros [H | [H | H]]; [done| |done]. discriminate H.
Qed.
(** The first line of a request that is in the buffer *)
Lemma first_line c buf rest : h_good c -> wf buf -> content buf = h_line c ++ kCRLF ++ rest ->
  exists crlf b', findCRLF buf = Some crlf /\ crlf = peek buf + zlen (h_line c) /\ retrieveUntil (crlf + 2) buf = Ret b' /\ wf b' /\ content b' = rest /\ zlen (buffer_ b') = zlen (buffer_ buf) /\
    peek buf + std_find SP (slice (buffer_ buf) (peek buf) crlf) = peek buf + zlen (h_name c) /\
    slice (buffer_ buf) (peek buf) (peek buf + zlen (h_name c)) = h_name c /\ slice (buffer_ buf) (peek buf + zlen (h_name c) + 1) crlf = h_topic c.
Proof.
  intros G W C. destruct (take_line buf (h_line c) rest W C (h_line_CR c G)) as (crlf & b' & F & Lc & R & W' & C' & S' & _).
  assert (zlen (content buf) = zlen (h_line c) + 2 + zlen rest) as Lb by (rewrite C, !zlen_app; assert (zlen kCRLF = 2) as -> by done; lia).
  assert (zlen (h_line c) = zlen (h_name c) + 1 + zlen (h_topic c)) as Ll by (unfold h_line; rewrite zlen_app, zlen_cons; lia). zlen_pos.
  assert (crlf = peek buf + zlen (h_line c)) as -> by lia. exists (peek buf + zlen (h_line c)), b'. do 6 (split; [done|]).
  assert (forall i j, 0 <= i <= j -> j <= zlen (h_line c) -> slice (buffer_ buf) (peek buf + i) (peek buf + j) = slice (h_line c) i j) as Sl.
  { intros i j Hi Hj. rewrite content_slice by (first [done|lia]). rewrite C. unfold slice. rewrite zdrop_app_l by lia. by rewrite ztake_app_l by (rewrite zlen_zdrop by lia; lia). }
  pose proof (Sl 0 (zlen (h_line c)) ltac:(lia) ltac:(lia)) as S0. pose proof (Sl 0 (zlen (h_name c)) ltac:(lia) ltac:(lia)) as S1. rewrite Z.add_0_r in S0, S1.
  split; [|split].
  - rewrite S0. unfold slice. rewrite zdrop_0, Z.sub_0_r, ztake_all by lia. unfold h_line. rewrite std_find_app by (apply h_name_plain). done.
  - rewrite S1. unfold slice. rewrite zdrop_0, Z.sub_0_r by lia. unfold h_line. by rewrite ztake_app_l, ztake_all by lia.
  - rewrite <- Z.add_assoc, Sl by lia. unfold slice, h_line. rewrite zdrop_app_r by lia. replace (zlen (h_name c) + 1 - zlen (h_name c)) with 1 by lia.
    change (zdrop 1 (SP :: h_topic c)) with (h_topic c). apply ztake_all. rewrite zlen_app, zlen_cons. lia.
Qed.

Lemma parse_full c buf rest : h_good c -> wf buf -> content buf = h_text c ++ rest ->
  exists buf', parseMessage buf = Ret (mkParsed kSuccess (h_name c) (h_topic c) (h_content c), buf') /\ wf buf' /\ content buf' = rest /\ zlen (buffer_ buf') = zlen (buffer_ buf).
Proof.
  intros G W C. unfold h_text in C. rewrite <- !app_assoc in C. destruct (first_line c buf _ G W C) as (crlf & b' & F & Ec & R & W' & C' & S' & E1 & E2 & E3).
  unfold parseMessage. rewrite F. rewrite E1. rewrite decide_True by (rewrite Ec; unfold h_line; rewrite zlen_app, zlen_cons; zlia). rewrite E2, E3.
  destruct c as [t x|t|t]; cbn [h_name h_topic h_content] in *.
  - rewrite decide_True by done. cbn [h_data] in C, C'. set (l := h_line (HPub t x)) in *. assert (zlen kCRLF = 2) as L2 by done. rewrite <- app_assoc in C.
    assert (zlen (content buf) = zlen l + 2 + zlen x + 2 + zlen rest) as Lb by (rewrite C, !zlen_app; lia). pose proof (content_len buf W) as Lr. rewrite readable_ok in Lr by done. zlen_pos.
    assert (region (crlf + 2) buf = x ++ kCRLF ++ rest) as Er.
    { rewrite Ec, <- Z.add_assoc, content_region, C by (first [done|lia]). rewrite app_assoc, zdrop_app_r, zdrop_0 by (rewrite zlen_app; lia). done. }
    unfold findCRLF_from. rewrite !bool_decide_true by (unfold peek, beginWrite in *; lia). cbn [check]. destruct G as (_ & G & _). cbn [h_content] in G. rewrite Er, search_line by done.
    rewrite decide_False by (unfold peek, beginWrite in *; lia). cbn [obind].
    destruct (retrieveUntil_ok (crlf + 2 + zlen x + 2) buf W) as (b2 & -> & W2 & C2 & S2); [unfold peek, beginWrite in *; lia|]. cbn [obind]. exists b2.
    split; [|split; [done|split; [|done]]].
    + do 3 f_equal. rewrite Ec, <- !Z.add_assoc, content_slice by (first [done|lia]). rewrite C. unfold slice. rewrite app_assoc, zdrop_app_r, zdrop_0 by (rewrite zlen_app; lia).
      rewrite ztake_app_l by lia. apply ztake_all. lia.
    + rewrite C2, C. replace (crlf + 2 + zlen x + 2 - peek buf) with (zlen (l ++ kCRLF ++ x ++ kCRLF)) by (rewrite !zlen_app; lia). replace (l ++ kCRLF ++ x ++ kCRLF ++ rest) with ((l ++ kCRLF ++ x ++ kCRLF) ++ rest) by (by rewrite <- !app_assoc).
      rewrite zdrop_app_r, Z.sub_diag, zdrop_0 by lia. done.
  - rewrite decide_False by done. rewrite R. cbn [obind]. exists b'. done.
  - rewrite decide_False by done. rewrite R. cbn [obind]. exists b'. done.
Qed.

(** A part of a request stays in the buffer. *)
Lemma short_prefix (q more line tail : list byte) : q ++ more = line ++ kCRLF ++ tail -> zlen q < zlen line + 2 -> q `prefix_of` line ++ [CR].
Proof.
  intros E L. change kCRLF with ([CR] ++ [Byte.x0a]) in E. rewrite <- app_assoc, app_assoc in E. eapply prefix_short; [exact E|]. rewrite zlen_app. unfold zlen at 3. cbn [length]. lia.
Qed.
Lemma parse_part c buf more tail : h_good c -> wf buf -> content buf ++ more = h_text c ++ tail -> zlen (content buf) < zlen (h_text c) ->
  exists p, parseMessage buf = Ret (p, buf) /\ p_result p = kContinue.
Proof.
  intros G W E L. unfold h_text in E, L. rewrite <- !app_assoc in E. assert (zlen kCRLF = 2) as L2 by done. rewrite !zlen_app, L2 in L.
  destruct (decide (zlen (content buf) < zlen (h_line c) + 2)) as [H|H].
  { unfold parseMessage. rewrite (no_line buf (content buf) (h_line c)); [by eexists|done|done|by eapply short_prefix|by apply h_line_CR]. }
  rewrite (app_assoc (h_line c)) in E. destruct (prefix_split _ _ _ _ E) as (q2 & C & E2); [rewrite zlen_app; lia|]. rewrite <- app_assoc in C.
  destruct (first_line c buf q2 G W C) as (crlf & b' & F & Ec & _ & _ & _ & _ & E1 & E3 & E4).
  unfold parseMessage. rewrite F, E1. rewrite decide_True by (rewrite Ec; unfold h_line; rewrite zlen_app, zlen_cons; zlia). rewrite E3, E4.
  assert (zlen (content buf) = zlen (h_line c) + 2 + zlen q2) as Lb by (rewrite C, !zlen_app; lia). zlen_pos.
  destruct c as [t x|t|t]; cbn [h_data] in *; try (rewrite zlen_nil in L; lia). rewrite zlen_app, L2 in L. rewrite decide_True by done.
  pose proof (content_len buf W) as Lr. rewrite readable_ok in Lr by done. unfold findCRLF_from. rewrite !bool_decide_true by (unfold peek, beginWrite in *; lia). cbn [check].
  assert (region (crlf + 2) buf = q2) as ->.
  { rewrite Ec, <- Z.add_assoc, content_region, C by (first [done|lia]). rewrite app_assoc, zdrop_app_r, zdrop_0 by (rewrite zlen_app; lia). done. }
  rewrite (search_none q2 x); [|rewrite <- app_assoc in E2; eapply short_prefix; [exact E2|lia]|by destruct G as (_ & G & _)].
  rewrite decide_True by (unfold peek, beginWrite in *; lia). cbn [obind]. by eexists.
Qed.
Lemma parse_nothing buf : wf buf -> content buf = [] -> exists p, parseMessage buf = Ret (p, buf) /\ p_result p = kContinue.
Proof.
  intros W C. unfold parseMessage. rewrite (no_line buf [] []); [by eexists|done|done|by apply prefix_nil|apply not_elem_of_nil].
Qed.
(** The requests that are complete, and what is left *)
Definition h_waiting (cs : list HCmd) (q : list byte) : Prop := match cs with [] => q = [] | c :: _ => zlen q < zlen (h_text c) end.
Lemma parse_waits cs buf more : Forall h_good cs -> wf buf -> content buf ++ more = h_texts cs -> h_waiting cs (content buf) ->
  exists p, parseMessage buf = Ret (p, buf) /\ p_result p = kContinue.
Proof.
  intros F W E Wt. destruct cs as [|c cs]; [by apply parse_nothing|]. apply Forall_cons in F as [G _]. unfold h_texts in E. cbn [map concat] in E. by eapply parse_part.
Qed.
Lemma h_split cs (q more : list byte) : q ++ more = h_texts cs -> exists done rest q', cs = done ++ rest /\ q = h_texts done ++ q' /\ q' ++ more = h_texts rest /\ h_waiting rest q'.
Proof.
  revert q. induction cs as [|c cs IH]; intros q E.
  - apply app_eq_nil in E as [-> ->]. by exists [], [], [].
  - destruct (decide (zlen (h_text c) <= zlen q)) as [H|H]; [|exists [], (c :: cs), q; split_and!; [done..|cbn [h_waiting]; lia]].
    unfold h_texts in E. cbn [map concat] in E. destruct (prefix_split _ _ _ _ E H) as (q2 & -> & E2). destruct (IH q2 E2) as (done & rest & q' & -> & -> & E3 & Wt).
    exists (c :: done), rest, q'. split_and!; try done. unfold h_texts. cbn [map concat]. by rewrite app_assoc.
Qed.

(** ** The client is told what it was sent *)

Lemma client_loop_ok ms fuel buf p rest more q :
  Forall h_good (map (fun m => HPub m.1 m.2) ms ++ rest) -> wf buf -> content buf = h_texts (map (fun m => HPub m.1 m.2) ms) ++ q -> q ++ more = h_texts rest -> h_waiting rest q ->
  (length ms < fuel)%nat -> is_Some (subscribeCallback_ p) ->
  exists buf', client_loop fuel buf p = Ret (mkPub (conn_ p) (Some (default [] (subscribeCallback_ p) ++ ms)), buf') /\ wf buf' /\ content buf' = q /\ zlen (buffer_ buf') = zlen (buffer_ buf).
Proof.
  revert fuel buf p. induction ms as [|[t x] ms IH]; intros fuel buf p F W C E Wt Hf [calls Sc]; (destruct fuel as [|fuel]; [cbn in Hf; lia|]); cbn [client_loop].
  - cbn in C. rewrite app_nil_l in F. rewrite <- C in E, Wt. destruct (parse_waits rest buf more F W E Wt) as (m & -> & Er). cbn [obind]. rewrite Er. exists buf.
    destruct p as [cn cb]. cbn in Sc. subst cb. cbn. by rewrite app_nil_r.
  - cbn [map app fst snd] in F. apply Forall_cons in F as [G F]. unfold h_texts in C. cbn [map concat fst snd] in C. rewrite <- app_assoc in C.
    destruct (parse_full (HPub t x) buf _ G W C) as (b1 & -> & W1 & C1 & S1). cbn [obind p_result p_cmd p_topic p_content h_name h_topic h_content]. rewrite Sc, decide_True by done.
    destruct (IH fuel b1 (mkPub (conn_ p) (Some (calls ++ [(t, x)]))) F W1 C1 E Wt) as (b2 & -> & W2 & C2 & S2); [cbn in Hf; lia|done|].
    exists b2. cbn [conn_ subscribeCallback_ default from_option id]. rewrite <- app_assoc. split_and!; try done. lia.
Qed.

(** ** What the hub promises *)

(** Who has subscribed to what, what was published last on each topic, and what each connection was told *)
Record Spec := mkSpec { subs : gset (list byte * list byte); last_pub : gmap (list byte) (list byte); told : gmap (list byte) (list (list byte * list byte)) }.
Definition spec_pub (t x : list byte) (a : Spec) : Spec :=
  mkSpec (subs a) (<[t := x]> (last_pub a)) (map_imap (fun n l => Some (if decide ((n, t) ∈ subs a) then l ++ [(t, x)] else l)) (told a)).
Definition spec_cmd (n : list byte) (c : HCmd) (a : Spec) : Spec :=
  match c with
  | HPub t x => spec_pub t x a
  | HSub t => mkSpec ({[(n, t)]} ∪ subs a) (last_pub a) (alter (fun l => l ++ match last_pub a !! t with Some x => [(t, x)] | None => [] end) n (told a))
  | HUnsub t => mkSpec (subs a ∖ {[(n, t)]}) (last_pub a) (told a)
  end.
Definition spec_up (n : list byte) (a : Spec) : Spec := mkSpec (subs a) (last_pub a) (<[n := []]> (told a)).
Definition spec_down (n : list byte) (a : Spec) : Spec := mkSpec (filter (fun x => x.1 <> n) (subs a)) (last_pub a) (told a).

Definition pub_text (m : list byte * list byte) : list byte := h_text (HPub m.1 m.2).
Definition pub_texts (ms : list (list byte * list byte)) : list byte := concat (map pub_text ms).

(** The hub is in the state [a] and the connections [up] are up. *)
Record Rep (s : PubSubServer) (a : Spec) (up : gset (list byte)) : Prop := mkRep {
  r_dom : dom (clients s) = dom (told a);
  r_sent : forall n c l, clients s !! n = Some c -> told a !! n = Some l -> sent_ (cl_conn c) = pub_texts l;
  r_up : forall n c, clients s !! n = Some c -> connected_ (cl_conn c) = bool_decide (n ∈ up);
  r_context : forall n c t, clients s !! n = Some c -> (t ∈ cl_context c <-> (n, t) ∈ subs a);
  r_topics : forall t v, topics_ s !! t = Some v -> topic_ v = t /\ last_pub a !! t = (if valid (lastPubTime_ v) then Some (content_ v) else None) /\ forall n, n ∈ audiences_ v <-> (n, t) ∈ subs a;
  r_none : forall t, topics_ s !! t = None -> last_pub a !! t = None /\ forall n, (n, t) ∉ subs a;
  r_subs : forall n t, (n, t) ∈ subs a -> n ∈ up;
  r_clients : forall n, n ∈ up -> is_Some (clients s !! n) }.

Lemma pub_texts_app a b : pub_texts (a ++ b) = pub_texts a ++ pub_texts b.
Proof. unfold pub_texts. by rewrite map_app, concat_app. Qed.
Lemma makeMessage_text v : makeMessage v = pub_text (topic_ v, content_ v).
Proof. unfold makeMessage, pub_text, h_text, h_line. cbn [h_name h_topic h_data fst snd]. by rewrite <- !app_assoc. Qed.

(** [getTopic] does not change what the hub means. *)
Lemma getTopic_rep s a up t : Rep s a up -> Rep (getTopic t s).2 a up /\ topics_ (getTopic t s).2 !! t = Some (getTopic t s).1 /\ clients (getTopic t s).2 = clients s.
Proof.
  intros R. unfold getTopic. destruct (topics_ s !! t) as [v|] eqn:E; cbn [fst snd]; [done|]. split; [|split; [cbn; by rewrite lookup_insert_eq|done]].
  destruct R as [Dm Sn Up Cx Tp Nn Sb Cl]. destruct (Nn t E) as [N1 N2]. split; try done.
  - intros t' v. cbn. rewrite lookup_insert_Some. intros [[<- <-] | [N Ev]]; [|by apply Tp]. cbn. split; [done|]. split; [by rewrite N1|]. intros n. split; [set_solver|intros H; by apply N2 in H].
  - intros t'. cbn. rewrite lookup_insert_None. intros [Et N]. by apply Nn.
Qed.

(** A step that changes one topic, what was told and the subscriptions to that topic *)
Lemma Rep_topic s s' a a' up t v v' :
  Rep s a up -> topics_ s !! t = Some v -> topics_ s' = <[t := v']> (topics_ s) -> topic_ v' = t ->
  last_pub a' = (if valid (lastPubTime_ v') then <[t := content_ v']> (last_pub a) else last_pub a) -> (valid (lastPubTime_ v') = false -> lastPubTime_ v' = lastPubTime_ v) ->
  (forall n, n ∈ audiences_ v' <-> (n, t) ∈ subs a') -> (forall n t', t' <> t -> (n, t') ∈ subs a' <-> (n, t') ∈ subs a) -> (forall n, (n, t) ∈ subs a' -> n ∈ up) ->
  dom (clients s') = dom (clients s) -> dom (told a') = dom (told a) ->
  (forall n c' l', clients s' !! n = Some c' -> told a' !! n = Some l' -> sent_ (cl_conn c') = pub_texts l') ->
  (forall n c', clients s' !! n = Some c' -> exists c, clients s !! n = Some c /\ connected_ (cl_conn c') = connected_ (cl_conn c) /\
    forall t', t' ∈ cl_context c' <-> (if decide (t' = t) then (n, t) ∈ subs a' else t' ∈ cl_context c)) ->
  Rep s' a' up.
Proof.
  intros [Dm Sn Up Cx Tp Nn Sb Cl] Ev Es Ht Hl Hl2 Ha Ho Hu Dc Dt Hs Hc. destruct (Tp t v Ev) as (T1 & T2 & T3). split.
  - congruence.
  - done.
  - intros n c' E. destruct (Hc n c' E) as (c & Ec & -> & _). by apply Up.
  - intros n c' t' E. destruct (Hc n c' E) as (c & Ec & _ & H). rewrite H. case_decide as D; [by subst t'|]. rewrite Ho by done. by apply Cx.
  - intros t' v1. rewrite Es, lookup_insert_Some. intros [[<- <-] | [N E]].
    + split; [done|]. split; [|done]. rewrite Hl. destruct (valid (lastPubTime_ v')) eqn:V; [by rewrite lookup_insert_eq|]. rewrite T2, <- Hl2, V by done. done.
    + destruct (Tp t' v1 E) as (U1 & U2 & U3). split; [done|]. split; [|intros n; rewrite Ho by done; apply U3]. rewrite Hl, <- U2. destruct (valid (lastPubTime_ v')); [by rewrite lookup_insert_ne|done].
  - intros t'. rewrite Es, lookup_insert_None. intros [E N]. destruct (Nn t' E) as [U1 U2]. split; [|intros n; rewrite Ho by done; apply U2].
    rewrite Hl. destruct (valid (lastPubTime_ v')); [by rewrite lookup_insert_ne|done].
  - intros n t' H. destruct (decide (t' = t)) as [->|N]; [by apply Hu|]. rewrite Ho in H by done. by eapply Sb.
  - intros n H. apply elem_of_dom. rewrite Dc. apply elem_of_dom. by apply Cl.
Qed.

(** ** Short messages are sent as they are *)

Definition written (msg n : list byte) : PubSubServer -> PubSubServer := change n (fun c => with_conn (conn_write msg (cl_conn c)) c).
Definition written_all (msg : list byte) (l : list (list byte)) (s : PubSubServer) : PubSubServer := foldr (written msg) s l.
Definition published (t content : list byte) (time : Z) (s : PubSubServer) : PubSubServer :=
  let (v, s) := getTopic t s in
  let v := mkTopic (topic_ v) content time (audiences_ v) in
  written_all (makeMessage v) (elements (audiences_ v)) (set_topic t v s).
Definition subscribed (n t : list byte) (s : PubSubServer) : PubSubServer :=
  let s := change n (fun c => with_context ({[t]} ∪ cl_context c) c) s in
  let (v, s) := getTopic t s in
  let v := mkTopic (topic_ v) (content_ v) (lastPubTime_ v) ({[n]} ∪ audiences_ v) in
  let s := set_topic t v s in
  if valid (lastPubTime_ v) then written (makeMessage v) n s else s.

Lemma send_to_ok msg n s : zlen msg < 2 ^ 31 -> is_Some (clients s !! n) -> send_to msg n s = Ret (written msg n s).
Proof.
  intros L [c E]. unfold send_to. rewrite E, conn_send_ok by done. cbn [obind]. unfold written, change. do 2 f_equal. by rewrite !(alter_is_insert _ n c) by done.
Qed.
Lemma written_comm msg n m s : written msg n (written msg m s) = written msg m (written msg n s).
Proof.
  unfold written, change. cbn [topics_ clients]. f_equal. destruct (decide (n = m)) as [->|N]; [done|]. apply map_eq. intros k. destruct (decide (k = n)) as [Nn|Nn], (decide (k = m)) as [Nm|Nm]; subst; [done| | |by rewrite !lookup_alter_ne].
  - rewrite lookup_alter_eq, (lookup_alter_ne _ _ m), (lookup_alter_ne _ _ m), lookup_alter_eq by done. done.
  - rewrite (lookup_alter_ne _ _ n), lookup_alter_eq, lookup_alter_eq, (lookup_alter_ne _ _ n) by done. done.
Qed.
Lemma written_all_cons msg n l s : written_all msg l (written msg n s) = written_all msg (n :: l) s.
Proof. unfold written_all. cbn [foldr]. induction l as [|m l IH]; [done|]. cbn [foldr]. by rewrite IH, written_comm. Qed.
Lemma hub_send_all_ok msg l s : zlen msg < 2 ^ 31 -> Forall (fun n => is_Some (clients s !! n)) l -> send_all msg l s = Ret (written_all msg l s).
Proof.
  intros L. revert s. induction l as [|n l IH]; intros s F; [done|]. apply Forall_cons in F as [Hn F]. cbn [send_all]. rewrite send_to_ok by done. cbn [obind].
  rewrite IH; [by rewrite written_all_cons|]. eapply Forall_impl; [exact F|]. intros m Hm. cbn [written change clients]. apply elem_of_dom. rewrite dom_alter_L. by apply elem_of_dom.
Qed.

Lemma written_all_ok msg l s : NoDup l ->
  topics_ (written_all msg l s) = topics_ s /\
  forall n, clients (written_all msg l s) !! n = (fun c => if decide (n ∈ l) then with_conn (conn_write msg (cl_conn c)) c else c) <$> clients s !! n.
Proof.
  unfold written_all. induction l as [|m l IH]; intros Nd; cbn [foldr].
  - split; [done|]. intros n. destruct (clients s !! n); [|done]. cbn. by rewrite decide_False by apply not_elem_of_nil.
  - apply NoDup_cons in Nd as [Nm Nd]. destruct (IH Nd) as [Et Ec]. split; [done|]. intros n. cbn. destruct (decide (n = m)) as [->|N].
    + rewrite lookup_alter_eq, Ec. destruct (clients s !! m); [|done]. cbn. rewrite (decide_False (P := m ∈ l)) by done. by rewrite decide_True by (by left).
    + rewrite lookup_alter_ne, Ec by done. destruct (clients s !! n); [|done]. cbn. f_equal. assert (n ∈ m :: l <-> n ∈ l) as H by set_solver.
      destruct (decide (n ∈ l)), (decide (n ∈ m :: l)); tauto || done.
Qed.
Lemma doPublish_ok s a up t x time : Rep s a up -> zlen (pub_text (t, x)) < 2 ^ 31 -> doPublish t x time s = Ret (published t x time s).
Proof.
  intros R L. destruct (getTopic_rep s a up t R) as (R1 & Ev & _). unfold doPublish, published. destruct (getTopic t s) as [v s1]. cbn [fst snd] in *.
  destruct (r_topics _ _ _ R1 t v Ev) as (T1 & _ & T3). apply hub_send_all_ok; [rewrite makeMessage_text; cbn [topic_ content_]; by rewrite T1|].
  apply Forall_forall. intros n. cbn [audiences_ set_topic clients]. rewrite elem_of_elements, T3. intros H%(r_subs _ _ _ R1). by apply (r_clients _ _ _ R1).
Qed.
Lemma doSubscribe_ok s a up n t : Rep s a up -> n ∈ up -> (forall x, last_pub a !! t = Some x -> zlen (pub_text (t, x)) < 2 ^ 31) -> doSubscribe n t s = Ret (subscribed n t s).
Proof.
  intros R Hn L. unfold doSubscribe, subscribed. set (s0 := change n _ s).
  assert (getTopic t s0 = ((getTopic t s).1, mkHub (topics_ (getTopic t s).2) (clients s0))) as ->.
  { unfold getTopic. change (topics_ s0) with (topics_ s). by destruct (topics_ s !! t). }
  destruct (getTopic_rep s a up t R) as (R1 & Ev & _). destruct (getTopic t s) as [v s1]. cbn [fst snd] in *.
  destruct (r_topics _ _ _ R1 t v Ev) as (T1 & T2 & _). cbn [lastPubTime_]. destruct (valid (lastPubTime_ v)); [|done]. apply send_to_ok.
  - rewrite makeMessage_text. cbn [topic_ content_]. rewrite T1. by apply L.
  - cbn [set_topic clients s0 change]. apply elem_of_dom. rewrite dom_alter_L. apply elem_of_dom. by apply (r_clients _ _ _ R).
Qed.
Lemma published_rep s a up t x time : Rep s a up -> 0 < time -> Rep (published t x time s) (spec_pub t x a) up.
Proof.
  intros R Ht. destruct (getTopic_rep s a up t R) as (R1 & Ev & Ecl). unfold published. destruct (getTopic t s) as [v s1]. cbn [fst snd] in *.
  set (v' := mkTopic (topic_ v) x time (audiences_ v)). destruct (written_all_ok (makeMessage v') (elements (audiences_ v')) (set_topic t v' s1) (NoDup_elements _)) as [Et Ec].
  destruct (r_topics _ _ _ R1 t v Ev) as (T1 & T2 & T3). assert (valid time = true) as Vt by (by apply bool_decide_eq_true).
  apply (Rep_topic s1 _ a _ up t v v' R1 Ev); try done.
  - cbn [lastPubTime_ v']. by rewrite Vt.
  - cbn [lastPubTime_ v']. by rewrite Vt.
  - intros n H. by apply (r_subs _ _ _ R1 n t).
  - apply set_eq. intros n. rewrite !elem_of_dom, Ec, fmap_is_Some. done.
  - apply set_eq. intros n. rewrite !elem_of_dom. cbn [told spec_pub]. rewrite map_lookup_imap. destruct (told a !! n); cbn; split; by intros [? ?].
  - intros n c' l' E1 E2. rewrite Ec in E1. cbn [clients set_topic] in E1. cbn [told spec_pub] in E2. rewrite map_lookup_imap in E2.
    destruct (clients s1 !! n) as [c|] eqn:En; [|done]. destruct (told a !! n) as [l|] eqn:El; [|done]. cbn [fmap option_fmap option_map mbind option_bind] in E1, E2. injection E1 as <-. injection E2 as <-.
    pose proof (r_sent _ _ _ R1 n c l En El) as Sn. assert (n ∈ elements (audiences_ v) <-> (n, t) ∈ subs a) as H by (rewrite elem_of_elements; apply T3).
    destruct (decide (n ∈ elements (audiences_ v))) as [D|D], (decide ((n, t) ∈ subs a)) as [D'|D']; try (exfalso; tauto); [|done].
    cbn [with_conn cl_conn]. unfold conn_write. rewrite (r_up _ _ _ R1 n c En), bool_decide_true by (by apply (r_subs _ _ _ R1 n t)). cbn [sent_].
    rewrite Sn, pub_texts_app, makeMessage_text. cbn [v' topic_ content_]. rewrite T1. unfold pub_texts at 3. cbn [map concat]. by rewrite app_nil_r.
  - intros n c' E. rewrite Ec in E. cbn [clients set_topic] in E. destruct (clients s1 !! n) as [c|] eqn:En; [|done]. injection E as <-. exists c. split; [done|].
    assert (forall t', t' ∈ cl_context c <-> (if decide (t' = t) then (n, t) ∈ subs a else t' ∈ cl_context c)) as Hx
      by (intros t'; case_decide as D; [subst t'; by apply (r_context _ _ _ R1)|done]).
    case_decide; [|done]. cbn [with_conn cl_conn cl_context]. split; [|done]. unfold conn_write. by destruct (connected_ (cl_conn c)) eqn:Ed.
Qed.
Lemma subscribed_rep s a up n t : Rep s a up -> n ∈ up -> Rep (subscribed n t s) (spec_cmd n (HSub t) a) up.
Proof.
  intros R Hn. unfold subscribed. set (s0 := change n _ s).
  assert (topics_ s0 = topics_ s) as Et0 by done. assert (getTopic t s0 = ((getTopic t s).1, mkHub (topics_ (getTopic t s).2) (clients s0))) as Eg.
  { unfold getTopic. rewrite Et0. by destruct (topics_ s !! t). }
  destruct (getTopic_rep s a up t R) as (R1 & Ev & Ecl). rewrite Eg. destruct (getTopic t s) as [v s1]. cbn [fst snd] in *.
  set (v' := mkTopic (topic_ v) (content_ v) (lastPubTime_ v) ({[n]} ∪ audiences_ v)). cbn [lastPubTime_ v'].
  destruct (r_topics _ _ _ R1 t v Ev) as (T1 & T2 & T3). destruct (r_clients _ _ _ R1 n Hn) as [c0 E0].
  set (msg := if valid (lastPubTime_ v) then pub_text (t, content_ v) else []).
  set (s2 := if valid (lastPubTime_ v) then written (makeMessage v') n _ else _).
  assert (topics_ s2 = <[t := v']> (topics_ s1)) as Et2 by (unfold s2; by destruct (valid _)).
  assert (forall m, clients s2 !! m = (fun c => if decide (m = n) then mkClient (conn_write msg (cl_conn c)) ({[t]} ∪ cl_context c) (cl_input c) else c) <$> clients s1 !! m) as Ec.
  { intros m. rewrite Ecl. unfold s2, msg. destruct (valid (lastPubTime_ v)); cbn [written change set_topic clients s0].
    - destruct (decide (m = n)) as [->|N]; [|rewrite !lookup_alter_ne by done; by destruct (clients s !! m)]. rewrite !lookup_alter_eq. destruct (clients s !! n); [|done]. cbn [fmap option_fmap option_map with_conn with_context cl_conn cl_context cl_input]. unfold with_conn, with_context. cbn [cl_conn cl_context cl_input].
      rewrite makeMessage_text. cbn [v' topic_ content_]. by rewrite T1.
    - destruct (decide (m = n)) as [->|N]; [|rewrite !lookup_alter_ne by done; by destruct (clients s !! m)]. rewrite !lookup_alter_eq. destruct (clients s !! n) as [c|]; [|done]. cbn.
      unfold with_context, conn_write. destruct (cl_conn c) as [snt [|]]; cbn; [by rewrite app_nil_r|done]. }
  clearbody s2. apply (Rep_topic s1 s2 a _ up t v v' R1 Ev Et2); try done.
  - cbn [last_pub spec_cmd v' lastPubTime_ content_]. destruct (valid (lastPubTime_ v)) eqn:V; [|done]. symmetry. by apply insert_id.
  - intros m. cbn [v' audiences_ spec_cmd subs]. rewrite !elem_of_union, !elem_of_singleton, T3. split; intros [H | H]; [left; by subst m|by right|left; congruence|by right].
  - intros m t' N. cbn [spec_cmd subs]. rewrite elem_of_union, elem_of_singleton. split; [intros [H | H]; [congruence|done]|by right].
  - intros m. cbn [spec_cmd subs]. rewrite elem_of_union, elem_of_singleton. intros [H | H]; [by injection H as ->|by apply (r_subs _ _ _ R1 m t)].
  - apply set_eq. intros m. rewrite !elem_of_dom, Ec, fmap_is_Some. done.
  - cbn [spec_cmd told]. apply dom_alter_L.
  - intros m c' l' E1 E2. rewrite Ec in E1. destruct (clients s1 !! m) as [c|] eqn:Em; [|done]. cbn in E1. injection E1 as <-. cbn [spec_cmd told] in E2. destruct (decide (m = n)) as [->|N].
    + rewrite lookup_alter_eq in E2. destruct (told a !! n) as [l|] eqn:El; [|done]. cbn in E2. injection E2 as <-. cbn [cl_conn].
      pose proof (r_sent _ _ _ R1 n c l Em El) as Sn. unfold conn_write. rewrite (r_up _ _ _ R1 n c Em), bool_decide_true by done. cbn [sent_]. rewrite Sn, pub_texts_app. f_equal.
      rewrite T2. unfold msg. destruct (valid (lastPubTime_ v)); [|done]. unfold pub_texts. cbn [map concat]. by rewrite app_nil_r.
    + rewrite lookup_alter_ne in E2 by done. by apply (r_sent _ _ _ R1 m).
  - intros m c' E. rewrite Ec in E. destruct (clients s1 !! m) as [c|] eqn:Em; [|done]. cbn in E. injection E as <-. exists c. split; [done|].
    pose proof (fun t' => r_context _ _ _ R1 m c t' Em) as Cx. cbn [spec_cmd subs]. destruct (decide (m = n)) as [->|N].
    + split; [unfold conn_write; cbn [cl_conn]; by destruct (connected_ (cl_conn c)) eqn:Ed|]. intros t'. cbn [cl_context]. rewrite elem_of_union, elem_of_singleton.
      case_decide as D; [subst t'; rewrite elem_of_union, elem_of_singleton; split; by left|]. split; [intros [? | ?]; done|by right].
    + split; [done|]. intros t'. case_decide as D; [|done]. subst t'. rewrite Cx, elem_of_union, elem_of_singleton. split; [by right|intros [H | H]; [congruence|done]].
Qed.
Lemma doUnsubscribe_rep s a up n t : Rep s a up -> Rep (doUnsubscribe n t s) (spec_cmd n (HUnsub t) a) up.
Proof.
  intros R. destruct (getTopic_rep s a up t R) as (R1 & Ev & Ecl). unfold doUnsubscribe. destruct (getTopic t s) as [v s1]. cbn [fst snd] in *.
  set (v' := mkTopic (topic_ v) (content_ v) (lastPubTime_ v) (audiences_ v ∖ {[n]})). destruct (r_topics _ _ _ R1 t v Ev) as (T1 & T2 & T3).
  set (s2 := change n _ _). assert (forall m, clients s2 !! m = (fun c => if decide (m = n) then with_context (cl_context c ∖ {[t]}) c else c) <$> clients s1 !! m) as Ec.
  { intros m. cbn [s2 change set_topic clients]. destruct (decide (m = n)) as [->|N]; [by rewrite lookup_alter_eq|]. rewrite lookup_alter_ne by done. by destruct (clients s1 !! m). }
  assert (topics_ s2 = <[t := v']> (topics_ s1)) as Et2 by done. clearbody s2.
  apply (Rep_topic s1 s2 a _ up t v v' R1 Ev Et2); try done.
  - cbn [last_pub spec_cmd v' lastPubTime_ content_]. destruct (valid (lastPubTime_ v)) eqn:V; [|done]. symmetry. by apply insert_id.
  - intros m. cbn [v' audiences_ spec_cmd subs]. rewrite !elem_of_difference, !elem_of_singleton, T3. split; intros [H1 H2]; (split; [done|]); congruence.
  - intros m t' N. cbn [spec_cmd subs]. rewrite elem_of_difference, elem_of_singleton. split; [by intros [H _]|intros H; split; [done|congruence]].
  - intros m. cbn [spec_cmd subs]. rewrite elem_of_difference. intros [H _]. by apply (r_subs _ _ _ R1 m t).
  - apply set_eq. intros m. rewrite !elem_of_dom, Ec, fmap_is_Some. done.
  - intros m c' l' E1 E2. rewrite Ec in E1. destruct (clients s1 !! m) as [c|] eqn:Em; [|done]. cbn in E1. injection E1 as <-. cbn [spec_cmd told] in E2.
    pose proof (r_sent _ _ _ R1 m c l' Em E2) as Sn. by case_decide.
  - intros m c' E. rewrite Ec in E. destruct (clients s1 !! m) as [c|] eqn:Em; [|done]. cbn in E. injection E as <-. exists c. split; [done|].
    pose proof (fun t' => r_context _ _ _ R1 m c t' Em) as Cx. cbn [spec_cmd subs]. destruct (decide (m = n)) as [->|N].
    + split; [done|]. intros t'. cbn [with_context cl_context]. rewrite elem_of_difference, elem_of_singleton.
      case_decide as D; [subst t'; rewrite elem_of_difference, elem_of_singleton; split; intros [? N]; by destruct N|]. split; [by intros [? _]|done].
    + split; [done|]. intros t'. case_decide as D; [|done]. subst t'. rewrite Cx, elem_of_difference, elem_of_singleton. split; [intros H; split; [done|congruence]|by intros [? _]].
Qed.
Lemma input_unchanged n t x time s :
  (forall m c, clients (published t x time s) !! m = Some c -> exists c0, clients s !! m = Some c0 /\ cl_input c = cl_input c0) /\
  (forall m c, clients (subscribed n t s) !! m = Some c -> exists c0, clients s !! m = Some c0 /\ cl_input c = cl_input c0) /\
  (forall m c, clients (doUnsubscribe n t s) !! m = Some c -> exists c0, clients s !! m = Some c0 /\ cl_input c = cl_input c0).
Proof.
  assert (forall k (f : Client -> Client) cs m c, (forall c, cl_input (f c) = cl_input c) -> alter f k cs !! m = Some c -> exists c0, (cs : gmap (list byte) Client) !! m = Some c0 /\ cl_input c = cl_input c0) as Al.
  { intros k f cs m c Hf E. destruct (decide (m = k)) as [->|N]; [|rewrite lookup_alter_ne in E by done; by exists c].
    rewrite lookup_alter_eq in E. destruct (cs !! k) as [c0|]; [|done]. injection E as <-. by exists c0. }
  assert (clients (getTopic t s).2 = clients s) as Eg by (unfold getTopic; by destruct (topics_ s !! t)). split_and!; intros m c.
  - unfold published. destruct (getTopic t s) as [v s1]. cbn [fst snd] in Eg. destruct (written_all_ok (makeMessage (mkTopic (topic_ v) x time (audiences_ v))) (elements (audiences_ v)) (set_topic t (mkTopic (topic_ v) x time (audiences_ v)) s1) (NoDup_elements _)) as [_ Ec].
    cbn [audiences_]. rewrite Ec. cbn [set_topic clients]. rewrite Eg. destruct (clients s !! m) as [c0|]; [|done]. cbn [fmap option_fmap option_map]. intros [= <-]. exists c0. split; [done|]. by case_decide.
  - unfold subscribed. set (s0 := change n _ s). assert (clients (getTopic t s0).2 = clients s0) as Eg0 by (unfold getTopic; by destruct (topics_ s0 !! t)).
    destruct (getTopic t s0) as [v s1]. cbn [fst snd] in Eg0. destruct (valid _); cbn [written change set_topic clients]; rewrite Eg0.
    + intros E. apply Al in E as (c1 & E1 & ->); [|done]. by apply Al in E1.
    + intros E. by apply Al in E.
  - unfold doUnsubscribe. destruct (getTopic t s) as [v s1]. cbn [fst snd] in Eg. cbn [change set_topic clients]. rewrite Eg. intros E. by apply Al in E.
Qed.

(** The inputs of the connections are those of [s]. *)
Definition same_inputs (s s' : PubSubServer) : Prop := forall m c, clients s' !! m = Some c -> exists c0, clients s !! m = Some c0 /\ cl_input c = cl_input c0.
Lemma same_inputs_trans s1 s2 s3 : same_inputs s1 s2 -> same_inputs s2 s3 -> same_inputs s1 s3.
Proof. intros H1 H2 m c E. destruct (H2 m c E) as (c1 & E1 & ->). by apply H1. Qed.
Definition spec_cmds (n : list byte) (cs : list HCmd) (a : Spec) : Spec := fold_left (fun a c => spec_cmd n c a) cs a.

(** ** What is told can be read *)

Definition good_msg (m : list byte * list byte) : Prop := h_good (HPub m.1 m.2).
Definition good_spec (a : Spec) : Prop := map_Forall (fun _ l => Forall good_msg l) (told a) /\ map_Forall (fun t x => good_msg (t, x)) (last_pub a).
Lemma good_pub t x a : good_spec a -> good_msg (t, x) -> good_spec (spec_pub t x a).
Proof.
  intros [G1 G2] G. split; cbn [spec_pub told last_pub].
  - intros n l. rewrite map_lookup_imap. destruct (told a !! n) as [l0|] eqn:E; [|done]. cbn. intros [= <-]. specialize (G1 n l0 E). cbn in G1. case_decide; [|done]. apply Forall_app. split; [done|]. by apply Forall_singleton.
  - by apply map_Forall_insert_2.
Qed.
Lemma good_cmd n c a : good_spec a -> h_good c -> good_spec (spec_cmd n c a).
Proof.
  intros [G1 G2] G. destruct c as [t x|t|t]; cbn [spec_cmd]; [by apply good_pub| |by split]. split; [|done]. cbn [told]. intros m l. destruct (decide (m = n)) as [->|N]; [rewrite lookup_alter_eq|rewrite lookup_alter_ne by done; apply G1].
  destruct (told a !! n) as [l0|] eqn:E; [|done]. cbn. intros [= <-]. apply Forall_app. split; [by apply (G1 n)|]. destruct (last_pub a !! t) as [x|] eqn:El; [|by apply Forall_nil]. apply Forall_singleton. by apply (G2 t).
Qed.
Lemma good_cmds n cs a : good_spec a -> Forall h_good cs -> good_spec (spec_cmds n cs a).
Proof. unfold spec_cmds. revert a. induction cs as [|c cs IH]; intros a G F; [done|]. apply Forall_cons in F as [Gc F]. cbn [fold_left]. apply IH; [|done]. by apply good_cmd. Qed.
Lemma good_up n a : good_spec a -> good_spec (spec_up n a).
Proof. intros [G1 G2]. split; [|done]. cbn [spec_up told]. apply map_Forall_insert_2; [by apply Forall_nil|done]. Qed.
Lemma good_down n a : good_spec a -> good_spec (spec_down n a).
Proof. done. Qed.

Lemma message_loop_ok cs fuel n time buf s a up rest more q :
  Rep s a up -> good_spec a -> n ∈ up -> Forall h_good (cs ++ rest) -> wf buf -> content buf = h_texts cs ++ q -> q ++ more = h_texts rest -> h_waiting rest q -> (length cs < fuel)%nat -> 0 < time ->
  exists s' buf', message_loop fuel n time buf s = Ret (s', buf') /\ Rep s' (spec_cmds n cs a) up /\ wf buf' /\ content buf' = q /\ zlen (buffer_ buf') = zlen (buffer_ buf) /\ same_inputs s s'.
Proof.
  revert fuel buf s a. induction cs as [|c cs IH]; intros fuel buf s a R Gs Hn F W C E Wt Hf Ht; (destruct fuel as [|fuel]; [cbn in Hf; lia|]); cbn [message_loop].
  - cbn in C. rewrite app_nil_l in F. rewrite <- C in E, Wt. destruct (parse_waits rest buf more F W E Wt) as (m & -> & Er). cbn [obind]. rewrite Er. exists s, buf. split_and!; try done. intros m' c E'. by exists c.
  - cbn [app] in F. apply Forall_cons in F as [G F]. unfold h_texts in C. cbn [map concat] in C. rewrite <- app_assoc in C.
    destruct (parse_full c buf _ G W C) as (b1 & -> & W1 & C1 & S1). cbn [obind p_result p_cmd p_topic p_content].
    assert (exists s1, Rep s1 (spec_cmd n c a) up /\ same_inputs s s1 /\
      (if decide (h_name c = bytes "pub") then let* s := doPublish (h_topic c) (h_content c) time s in message_loop fuel n time b1 s
       else if decide (h_name c = bytes "sub") then let* s := doSubscribe n (h_topic c) s in message_loop fuel n time b1 s
       else if decide (h_name c = bytes "unsub") then message_loop fuel n time b1 (doUnsubscribe n (h_topic c) s)
       else Ret (change n (fun c => with_conn (conn_shutdown (cl_conn c)) c) s, b1)) = message_loop fuel n time b1 s1) as (s1 & R1 & I1 & ->).
    { destruct c as [t x|t|t]; cbn [h_name h_topic h_content]; destruct (input_unchanged n t [] time s) as (I1 & I2 & I3).
      - rewrite decide_True by done. rewrite (doPublish_ok s a up) by (first [done|by destruct G as (_ & _ & G)]). eexists. split; [by apply published_rep|]. split; [exact (proj1 (input_unchanged n t x time s))|done].
      - rewrite decide_False, decide_True by done. rewrite (doSubscribe_ok s a up); [|done|done|intros x Hx; by destruct (proj2 Gs t x Hx) as (_ & _ & L)]. eexists. split; [by apply subscribed_rep|]. done.
      - rewrite !decide_False, decide_True by done. eexists. split; [by apply doUnsubscribe_rep|]. done. }
    destruct (IH fuel b1 s1 _ R1 (good_cmd n c a Gs G) Hn F W1 C1 E Wt) as (s2 & b2 & -> & R2 & W2 & C2 & S2 & I2); [cbn in Hf; lia|done|].
    exists s2, b2. split_and!; try done; [lia|]. by eapply same_inputs_trans.
Qed.

Lemma Rep_set_input s a up n buf : Rep s a up -> Rep (change n (with_input buf) s) a up.
Proof.
  intros [Dm Sn Up Cx Tp Nn Sb Cl]. assert (forall m c, clients (change n (with_input buf) s) !! m = Some c -> exists c0, clients s !! m = Some c0 /\ cl_conn c = cl_conn c0 /\ cl_context c = cl_context c0) as H.
  { intros m c. cbn. destruct (decide (m = n)) as [->|N]; [|rewrite lookup_alter_ne by done; by exists c]. rewrite lookup_alter_eq. destruct (clients s !! n) as [c0|]; [|done]. intros [= <-]. by exists c0. }
  split; try done.
  - cbn. by rewrite dom_alter_L.
  - intros m c l E El. destruct (H m c E) as (c0 & E0 & -> & _). by apply (Sn m).
  - intros m c E. destruct (H m c E) as (c0 & E0 & -> & _). by apply Up.
  - intros m c t E. destruct (H m c E) as (c0 & E0 & _ & ->). by apply Cx.
  - intros m Hm. cbn. apply elem_of_dom. rewrite dom_alter_L. apply elem_of_dom. by apply Cl.
Qed.
Lemma Rep_up s a up n buf : Rep s a up -> n ∉ up -> clients s !! n = None ->
  exists s', onConnection true n (mkHub (topics_ s) (<[n := mkClient newConn ∅ buf]> (clients s))) = Ret s' /\ Rep s' (spec_up n a) ({[n]} ∪ up) /\ clients s' = <[n := mkClient newConn ∅ buf]> (clients s).
Proof.
  intros R Hu Hn. unfold onConnection. cbn [clients]. rewrite lookup_insert_eq. eexists. split; [done|]. unfold change, with_context. cbn [clients topics_]. rewrite alter_insert_eq. cbn [cl_conn cl_input].
  split; [|done]. destruct R as [Dm Sn Up Cx Tp Nn Sb Cl]. assert (forall t, (n, t) ∉ subs a) as Ns by (intros t H; by apply Sb in H).
  split; cbn [clients topics_ spec_up subs last_pub told]; try done.
  - by rewrite !dom_insert_L, Dm.
  - intros m c l. rewrite !lookup_insert_Some. intros [[<- <-] | [N E]] [[H <-] | [N' El]]; try done. by apply (Sn m).
  - intros m c. rewrite lookup_insert_Some. intros [[<- <-] | [N E]]; [rewrite bool_decide_true by set_solver; done|]. rewrite (Up m c E). apply bool_decide_ext. set_solver.
  - intros m c t. rewrite lookup_insert_Some. intros [[<- <-] | [N E]]; [cbn [cl_context]; split; [set_solver|intros H; by apply Ns in H]|by apply Cx].
  - intros m t H. apply elem_of_union. right. by eapply Sb.
  - intros m. rewrite elem_of_union, elem_of_singleton. intros [-> | H]; [by rewrite lookup_insert_eq|]. destruct (decide (m = n)) as [->|N]; [by rewrite lookup_insert_eq|]. rewrite lookup_insert_ne by done. by apply Cl.
Qed.
