(* ===== verification/HubRun.v ===== *)
(** * The hub with its connections (src/muduo/examples/hub/)

    Connections come, send pieces of requests and go, and the timer of the hub publishes the time. Whatever the order, a connection is sent
    what an abstract hub, which executes whole requests, says it is told; and [PubSubClient] calls its callback with exactly that. *)

From S2P Require Import Prelude Format StringPiece Buffer Http Lines Conn Timestamp Hub.

(** ** Events *)

Inductive HEvent := HUp (n : list byte) | HData (n d : list byte) (time : Z) | HDown (n : list byte) | HTick (now : Z).

Section Run.
Context (gmtime_r : Z -> tm).

(** [TcpServer] establishes a connection, reads from it, and closes it; the timer expires. *)
Definition hub_step (e : HEvent) (s : PubSubServer) : outcome PubSubServer :=
  match e with
  | HUp n =>
      let* buf := newBuffer kInitialSize in
      onConnection true n (mkHub (topics_ s) (<[n := mkClient newConn ∅ buf]> (clients s)))
  | HData n d time =>
      match clients s !! n with
      | None => Stop OutOfRange
      | Some c =>
          let* buf := append_bytes d (cl_input c) in
          onMessage n time (change n (with_input buf) s)
      end
  | HDown n => onConnection false n (change n (fun c => with_conn (conn_shutdown (cl_conn c)) c) s)
  | HTick now => timePublish gmtime_r now s
  end.
Fixpoint hub_run (evs : list HEvent) (s : PubSubServer) : outcome PubSubServer :=
  match evs with
  | [] => Ret s
  | e :: evs => let* s := hub_step e s in hub_run evs s
  end.
Definition newHub : PubSubServer := mkHub ∅ ∅.

(** What arrives at a client, piece by piece *)
Fixpoint client_run (chunks : list (list byte)) (buf : Buffer) (p : PubSubClient) : outcome (PubSubClient * Buffer) :=
  match chunks with
  | [] => Ret (p, buf)
  | d :: chunks =>
      let* buf := append_bytes d buf in
      let* (p, buf) := client_onMessage buf p in
      client_run chunks buf p
  end.

(** ** What is expected *)

(** The requests that are complete with [k] bytes, those that are not, and the bytes there are of them *)
Fixpoint arrive (cs : list HCmd) (k : Z) : list HCmd * (list HCmd * Z) :=
  match cs with
  | [] => ([], ([], k))
  | c :: cs' =>
      if decide (zlen (h_text c) <= k) then let '(done, rest) := arrive cs' (k - zlen (h_text c)) in (c :: done, rest)
      else ([], (cs, k))
  end.
(** The abstract hub, and what each connection still has to send *)
Record Expect := mkExpect { x_spec : Spec; x_rest : gmap (list byte) (list HCmd * Z) }.
Context (script : list byte -> list HCmd).
Definition expect_step (e : HEvent) (x : Expect) : Expect :=
  match e with
  | HUp n => mkExpect (spec_up n (x_spec x)) (<[n := (script n, 0)]> (x_rest x))
  | HData n d _ =>
      match x_rest x !! n with
      | Some (cs, k) => let '(done, rest) := arrive cs (k + zlen d) in mkExpect (spec_cmds n done (x_spec x)) (<[n := rest]> (x_rest x))
      | None => x
      end
  | HDown n => mkExpect (spec_down n (x_spec x)) (x_rest x)
  | HTick now => mkExpect (spec_pub (bytes "utc_time") (toFormattedString gmtime_r now true) (x_spec x)) (x_rest x)
  end.
Definition expect (evs : list HEvent) : Expect := fold_left (fun x e => expect_step e x) evs (mkExpect (mkSpec ∅ ∅ ∅) ∅).

(** Names are not used twice, only connections that are up send, and the clock is past the epoch. *)
Fixpoint legal (evs : list HEvent) (seen up : gset (list byte)) : Prop :=
  match evs with
  | [] => True
  | e :: evs =>
      match e with
      | HUp n => n ∉ seen /\ legal evs ({[n]} ∪ seen) ({[n]} ∪ up)
      | HData n _ time => n ∈ up /\ 0 < time /\ legal evs seen up
      | HDown n => n ∈ up /\ legal evs seen (up ∖ {[n]})
      | HTick now => 0 < now /\ legal evs seen up
      end
  end.
Definition received (n : list byte) (evs : list HEvent) : list byte :=
  concat (map (fun e => match e with HData m d _ => if decide (m = n) then d else [] | _ => [] end) evs).

(** ** Requests that arrive in pieces *)

Lemma arrive_ok cs q more : q ++ more = h_texts cs ->
  exists done rest q', arrive cs (zlen q) = (done, (rest, zlen q')) /\ cs = done ++ rest /\ q = h_texts done ++ q' /\ q' ++ more = h_texts rest /\ h_waiting rest q'.
Proof.
  revert q. induction cs as [|c cs IH]; intros q E; cbn [arrive].
  - apply app_eq_nil in E as [-> ->]. by exists [], [], [].
  - case_decide as H; [|exists [], (c :: cs), q; split_and!; [done..|cbn [h_waiting]; lia]].
    unfold h_texts in E. cbn [map concat] in E. destruct (prefix_split _ _ _ _ E H) as (q2 & -> & E2). destruct (IH q2 E2) as (dn & rest & q' & Ea & -> & -> & E3 & Wt).
    exists (c :: dn), rest, q'. replace (zlen (h_text c ++ h_texts dn ++ q') - zlen (h_text c)) with (zlen (h_texts dn ++ q')) by (rewrite (zlen_app (h_text c)); lia).
    rewrite Ea. split_and!; try done. unfold h_texts. cbn [map concat]. by rewrite app_assoc.
Qed.
Lemma texts_length cs : Z.of_nat (length cs) <= zlen (h_texts cs).
Proof.
  induction cs as [|c cs IH]; [done|]. unfold h_texts in *. cbn [map concat length]. rewrite zlen_app. assert (1 <= zlen (h_text c)) by (unfold h_text, h_line; rewrite !zlen_app, zlen_cons; zlia). lia.
Qed.

(** ** What [timePublish] publishes is one line *)

Lemma CR_digits l : Forall (fun b => is_digit b = true) l -> CR ∉ l.
Proof. intros F H. rewrite Forall_forall in F. apply F in H. discriminate H. Qed.
Lemma CR_fmt w z : CR ∉ fmt_0d w z /\ CR ∉ fmt_pd w z.
Proof.
  assert (forall n, CR ∉ replicate n (digit 0)) as N1 by (intros n H; apply elem_of_replicate in H as [H _]; discriminate H).
  assert (forall n, CR ∉ replicate n Byte.x20) as N2 by (intros n H; apply elem_of_replicate in H as [H _]; discriminate H).
  assert (forall x, 0 <= x -> CR ∉ udec x) as N3 by (intros x Hx; by apply CR_digits, udec_digits).
  unfold fmt_0d, fmt_pd, fmt_d. destruct (decide (z < 0)); rewrite ?elem_of_app, ?elem_of_cons, ?elem_of_app.
  - split; [intros [H | [H | H]]; [discriminate H|by apply N1 in H|apply N3 in H; [done|lia]]|intros [H | [H | H]]; [by apply N2 in H|discriminate H|apply N3 in H; [done|lia]]].
  - split; intros [H | H]; [by apply N1 in H|apply N3 in H; [done|lia]|by apply N2 in H|apply N3 in H; [done|lia]].
Qed.
Lemma CR_time t b : CR ∉ toFormattedString gmtime_r t b.
Proof.
  assert (forall n (l : list byte), CR ∉ l -> CR ∉ ztake n l) as T by (intros n l N H; apply N; rewrite <- (take_drop (Z.to_nat n) l); apply elem_of_app; by left).
  assert (forall t, CR ∉ format_tm t) as F.
  { intros x. unfold format_tm. rewrite !elem_of_app. pose proof (fun w z => proj1 (CR_fmt w z)) as A. pose proof (fun w z => proj2 (CR_fmt w z)) as B.
    assert (CR ∉ bytes " ") as C1 by (apply (bool_decide_unpack _); by vm_compute). assert (CR ∉ bytes ":") as C2 by (apply (bool_decide_unpack _); by vm_compute).
    intuition (try (by eapply A); try (by eapply B)). }
  unfold toFormattedString, snprintf. destruct b; apply T; [|apply F]. rewrite !elem_of_app. intros [H | [H | H]]; [by apply F in H| |by apply CR_fmt in H].
  revert H. apply (bool_decide_unpack _). by vm_compute.
Qed.

Lemma time_short t b : zlen (toFormattedString gmtime_r t b) <= 31.
Proof. unfold toFormattedString, snprintf. destruct b; unfold zlen, ztake; rewrite length_take; lia. Qed.

(** ** The client *)

Definition as_pubs (ms : list (list byte * list byte)) : list HCmd := map (fun m => HPub m.1 m.2) ms.
Lemma pub_texts_pubs ms : pub_texts ms = h_texts (as_pubs ms).
Proof. unfold pub_texts, h_texts, as_pubs. by rewrite map_map. Qed.
Lemma client_run_ok chunks ms buf p calls :
  Forall h_good (as_pubs ms) -> wf buf -> content buf ++ concat chunks = h_texts (as_pubs ms) -> h_waiting (as_pubs ms) (content buf) ->
  zlen (buffer_ buf) + zlen (concat chunks) <= 2 ^ 61 -> subscribeCallback_ p = Some calls ->
  exists buf', client_run chunks buf p = Ret (mkPub (conn_ p) (Some (calls ++ ms)), buf').
Proof.
  revert ms buf p calls. induction chunks as [|d chunks IH]; intros ms buf p calls G W E Wt L Sc; cbn [client_run].
  - cbn [concat] in E. rewrite app_nil_r in E. exists buf. destruct ms as [|m ms].
    + destruct p as [cn cb]. cbn in Sc |- *. by rewrite Sc, app_nil_r.
    + cbn [as_pubs map h_waiting] in Wt. rewrite E in Wt. unfold h_texts in Wt. cbn [as_pubs map concat] in Wt. rewrite zlen_app in Wt. zlen_pos. lia.
  - cbn [concat] in E, L. rewrite zlen_app in L. zlen_pos. destruct (append_bytes_ok d buf W) as (b1 & -> & W1 & C1 & _ & L1); [unfold max_size; lia|]. cbn [obind].
    rewrite app_assoc, <- C1 in E. destruct (h_split _ _ _ E) as (dn & rest & q & Es & Eq & Er & Wq). unfold as_pubs in Es.
    apply map_eq_app in Es as (ms1 & ms2 & -> & <- & <-). change (map _ ms1) with (as_pubs ms1) in *. change (map _ ms2) with (as_pubs ms2) in *.
    unfold client_onMessage. rewrite <- content_len, Eq by done. pose proof (texts_length (as_pubs ms1)) as Ln. unfold as_pubs in Ln. rewrite length_map in Ln.
    destruct (client_loop_ok ms1 (S (Z.to_nat (zlen (h_texts (as_pubs ms1) ++ q)))) b1 p (as_pubs ms2) (concat chunks) q) as (b2 & -> & W2 & C2 & S2); try done.
    { unfold as_pubs in *. by rewrite <- map_app. }
    { rewrite zlen_app. unfold as_pubs. zlia. }
    cbn [obind]. rewrite Sc. cbn [default from_option id]. unfold as_pubs in G. rewrite map_app in G. apply Forall_app in G as [_ G].
    destruct (IH ms2 b2 (mkPub (conn_ p) (Some (calls ++ ms1))) (calls ++ ms1)) as [b3 ->]; rewrite ?C2; try done; [lia|]. exists b3. cbn [conn_]. by rewrite <- app_assoc.
Qed.

(** ** A connection that goes *)

Definition shut (n : list byte) : PubSubServer -> PubSubServer := change n (fun c => with_conn (conn_shutdown (cl_conn c)) c).
Lemma unsubscribe_shut n t s : doUnsubscribe n t (shut n s) = shut n (doUnsubscribe n t s).
Proof.
  unfold doUnsubscribe, getTopic, shut, change. cbn [topics_ clients]. destruct (topics_ s !! t); unfold set_topic; cbn [topics_ clients]; f_equal; apply map_eq; intros m.
  all: destruct (decide (m = n)) as [->|N]; [rewrite !lookup_alter_eq|by rewrite !lookup_alter_ne by done]; by destruct (clients s !! n).
Qed.
Lemma unsubscribe_all_shut n l s : foldr (doUnsubscribe n) (shut n s) l = shut n (foldr (doUnsubscribe n) s l).
Proof. induction l as [|t l IH]; [done|]. cbn [foldr]. by rewrite IH, unsubscribe_shut. Qed.
Lemma unsubscribe_all n l s a up : Rep s a up ->
  exists a', Rep (foldr (doUnsubscribe n) s l) a' up /\ last_pub a' = last_pub a /\ told a' = told a /\ (forall m t, (m, t) ∈ subs a' <-> (m, t) ∈ subs a /\ ~ (m = n /\ t ∈ l)) /\
    same_inputs s (foldr (doUnsubscribe n) s l).
Proof.
  intros R. induction l as [|t l IH]; cbn [foldr].
  - exists a. split; [done|]. split; [done|]. split; [done|]. split; [|intros m c E; by exists c]. intros m t. split; [intros H; split; [done|intros [_ N]; by apply not_elem_of_nil in N]|by intros [H _]].
  - destruct IH as (a1 & R1 & E1 & E2 & S1 & I1). exists (spec_cmd n (HUnsub t) a1). split; [by apply doUnsubscribe_rep|]. split; [done|]. split; [done|]. split.
    + intros m t'. cbn [spec_cmd subs]. rewrite elem_of_difference, elem_of_singleton, S1, elem_of_cons. split.
      * intros [[H N] N']. split; [done|]. intros [-> [-> | H']]; [by apply N'|by apply N].
      * intros [H N]. split; [split; [done|]|]; [intros [-> H']; apply N; by auto|intros [= -> ->]; apply N; by auto].
    + eapply same_inputs_trans; [exact I1|]. by destruct (input_unchanged n t [] 0 (foldr (doUnsubscribe n) s l)) as (_ & _ & I3).
Qed.
Lemma Rep_down s a up n : Rep s a up -> n ∈ up ->
  exists s', onConnection false n (shut n s) = Ret s' /\ Rep s' (spec_down n a) (up ∖ {[n]}) /\ same_inputs s s' /\ dom (clients s') = dom (clients s).
Proof.
  intros R Hn. destruct (r_clients _ _ _ R n Hn) as [c Ec]. unfold onConnection. cbn [shut change clients]. rewrite lookup_alter_eq, Ec. cbn [fmap option_fmap option_map with_conn cl_context].
  eexists. split; [done|]. change (mkHub _ _) with (shut n s). rewrite unsubscribe_all_shut. destruct (unsubscribe_all n (elements (cl_context c)) s a up R) as (a' & R' & E1 & E2 & S' & I').
  set (s1 := foldr _ s _) in *. clearbody s1. assert (subs (spec_down n a) = subs a') as Es.
  { apply set_eq. intros [m t]. rewrite S', elem_of_elements, (r_context _ _ _ R n c t Ec). cbn [spec_down subs]. rewrite elem_of_filter. cbn [fst]. split; [intros [N H]; split; [done|tauto]|].
    intros [H N]. split; [|done]. intros ->. by apply N. }
  assert (forall m c', clients (shut n s1) !! m = Some c' -> exists c0, clients s1 !! m = Some c0 /\ cl_context c' = cl_context c0 /\ cl_input c' = cl_input c0 /\ sent_ (cl_conn c') = sent_ (cl_conn c0) /\
    connected_ (cl_conn c') = (if decide (m = n) then false else connected_ (cl_conn c0))) as Sh.
  { intros m c'. cbn [shut change clients]. destruct (decide (m = n)) as [->|N]; [rewrite lookup_alter_eq|rewrite lookup_alter_ne by done; by exists c'].
    destruct (clients s1 !! n) as [c0|]; [|done]. intros [= <-]. by exists c0. }
  destruct R' as [Dm Sn Up Cx Tp Nn Sb Cl]. split; [split|split].
  - cbn [shut change clients spec_down told]. by rewrite dom_alter_L, Dm, E2.
  - intros m c' l E El. destruct (Sh m c' E) as (c0 & E0 & _ & _ & -> & _). cbn [spec_down told] in El. rewrite <- E2 in El. by apply (Sn m).
  - intros m c' E. destruct (Sh m c' E) as (c0 & E0 & _ & _ & _ & ->). rewrite (Up m c0 E0). case_decide as D; [subst m; symmetry; apply bool_decide_eq_false; set_solver|].
    apply bool_decide_ext. set_solver.
  - intros m c' t E. destruct (Sh m c' E) as (c0 & E0 & -> & _). rewrite Es. by apply Cx.
  - intros t v E. destruct (Tp t v E) as (T1 & T2 & T3). split; [done|]. cbn [spec_down last_pub]. rewrite <- E1. split; [done|]. intros m. rewrite T3. by rewrite <- Es.
  - intros t E. destruct (Nn t E) as [U1 U2]. cbn [spec_down last_pub]. rewrite <- E1. split; [done|]. intros m. rewrite Es. apply U2.
  - intros m t H. apply elem_of_difference. rewrite not_elem_of_singleton. cbn [spec_down subs] in H. apply elem_of_filter in H as [N H]. split; [by apply (r_subs _ _ _ R m t)|done].
  - intros m [Hm _]%elem_of_difference. cbn [shut change clients]. apply elem_of_dom. rewrite dom_alter_L. apply elem_of_dom. by apply Cl.
  - intros m c' E. destruct (Sh m c' E) as (c0 & E0 & _ & -> & _). by apply I'.
  - cbn [shut change clients]. rewrite dom_alter_L, Dm, E2. symmetry. apply (r_dom _ _ _ R).
Qed.

(** ** The run *)

(** [rest] is still to come from a connection with the input [buf], and [more] of it will. *)
Definition Waits (rest : list HCmd) (buf : Buffer) (more : list byte) : Prop :=
  wf buf /\ Forall h_good rest /\ content buf ++ more `prefix_of` h_texts rest /\ h_waiting rest (content buf) /\ zlen (buffer_ buf) + zlen more <= 2 ^ 61.
Record HInv (s : PubSubServer) (x : Expect) (seen up : gset (list byte)) (evs : list HEvent) : Prop := mkHInv {
  i_rep : Rep s (x_spec x) up;
  i_seen : dom (clients s) = seen;
  i_good : good_spec (x_spec x);
  i_input : forall n c, n ∈ up -> clients s !! n = Some c -> exists rest, x_rest x !! n = Some (rest, zlen (content (cl_input c))) /\ Waits rest (cl_input c) (received n evs);
  i_new : forall n, n ∉ seen -> received n evs `prefix_of` h_texts (script n) /\ zlen (received n evs) <= 2 ^ 60 }.
Context (scripts_good : forall n, Forall h_good (script n)).

Lemma hub_received_cons n e evs : received n (e :: evs) = (match e with HData m d _ => if decide (m = n) then d else [] | _ => [] end) ++ received n evs.
Proof. done. Qed.
Lemma h_waiting_nil cs : h_waiting cs [].
Proof. destruct cs as [|c cs]; [done|]. cbn. unfold h_text, h_line. rewrite !zlen_app, zlen_cons. change (@zlen byte []) with 0. zlia. Qed.
Lemma told_cmds n cs a : dom (told (spec_cmds n cs a)) = dom (told a).
Proof.
  unfold spec_cmds. revert a. induction cs as [|c cs IH]; intros a; [done|]. cbn [fold_left]. rewrite IH. destruct c; cbn [spec_cmd told spec_pub]; [|by rewrite dom_alter_L|done].
  apply set_eq. intros m. rewrite !elem_of_dom, map_lookup_imap. destruct (told a !! m); cbn; split; by intros [? ?].
Qed.
Lemma step_up n evs s x seen up : HInv s x seen up (HUp n :: evs) -> n ∉ seen ->
  exists s', hub_step (HUp n) s = Ret s' /\ HInv s' (expect_step (HUp n) x) ({[n]} ∪ seen) ({[n]} ∪ up) evs.
Proof.
  intros [R Sn G Inp New] Hn. assert (clients s !! n = None) as En by (apply not_elem_of_dom; by rewrite Sn).
  assert (n ∉ up) as Hu by (intros H; destruct (r_clients _ _ _ R n H); congruence). cbn [hub_step]. destruct (newBuffer_ok kInitialSize) as (b & -> & W & C & _ & _ & Lb); [by vm_compute|]. cbn [obind].
  destruct (Rep_up s _ up n b R Hu En) as (s' & -> & R' & Ec). exists s'. split; [done|]. destruct (New n Hn) as [P L]. cbn [hub_received_cons] in P, L. split; cbn [expect_step x_spec x_rest].
  - done.
  - by rewrite Ec, dom_insert_L, Sn.
  - by apply good_up.
  - intros m c Hm. rewrite Ec, lookup_insert_Some. intros [[<- <-] | [N E]].
    + exists (script n). cbn [cl_input]. rewrite lookup_insert_eq, C. split; [done|]. split; [done|]. rewrite C, app_nil_l. split; [done|]. split; [done|]. split; [apply h_waiting_nil|].
      rewrite Lb. change (received n (HUp n :: evs)) with (received n evs) in L. unfold kCheapPrepend, kInitialSize. lia.
    + rewrite lookup_insert_ne by done. apply Inp; [set_solver|done].
  - intros m Hm. apply (New m). set_solver.
Qed.
Lemma step_down n evs s x seen up : HInv s x seen up (HDown n :: evs) -> n ∈ up ->
  exists s', hub_step (HDown n) s = Ret s' /\ HInv s' (expect_step (HDown n) x) seen (up ∖ {[n]}) evs.
Proof.
  intros [R Sn G Inp New] Hn. cbn [hub_step]. destruct (Rep_down s _ up n R Hn) as (s' & E & R' & I' & D'). exists s'. split; [done|]. split; cbn [expect_step x_spec x_rest]; try done.
  - by rewrite D'.
  - intros m c [Hm _]%elem_of_difference Ec. destruct (I' m c Ec) as (c0 & E0 & ->). by apply Inp.
Qed.
Lemma step_tick now evs s x seen up : HInv s x seen up (HTick now :: evs) -> 0 < now ->
  exists s', hub_step (HTick now) s = Ret s' /\ HInv s' (expect_step (HTick now) x) seen up evs.
Proof.
  intros [R Sn G Inp New] Hn. cbn [hub_step]. unfold timePublish. pose proof (time_short now true) as Lw. pose proof (CR_time now true) as Cw. set (w := toFormattedString _ _ _) in *.
  assert (zlen (pub_text (bytes "utc_time", w)) < 2 ^ 31) as Ls.
  { unfold pub_text, h_text, h_line. cbn [h_name h_topic h_data fst snd]. rewrite !zlen_app, zlen_cons. change (zlen (bytes "pub")) with 3. change (zlen (bytes "utc_time")) with 8. change (zlen kCRLF) with 2. lia. }
  rewrite (doPublish_ok s (x_spec x) up) by done. eexists. split; [done|]. split; cbn [expect_step x_spec x_rest].
  - by apply published_rep.
  - rewrite (r_dom _ _ _ (published_rep s _ up (bytes "utc_time") w now R Hn)). rewrite <- Sn, (r_dom _ _ _ R). apply (told_cmds [] [HPub (bytes "utc_time") w] (x_spec x)).
  - apply good_pub; [done|]. split; [|split]; cbn [fst snd h_topic h_content]; [apply (bool_decide_unpack _); by vm_compute|done..].
  - intros m c Hm Ec. destruct (proj1 (input_unchanged [] (bytes "utc_time") w now s) m c Ec) as (c0 & E0 & ->). by apply Inp.
  - done.
Qed.
Lemma step_data n d time evs s x seen up : HInv s x seen up (HData n d time :: evs) -> n ∈ up -> 0 < time ->
  exists s', hub_step (HData n d time) s = Ret s' /\ HInv s' (expect_step (HData n d time) x) seen up evs.
Proof.
  intros [R Sn G Inp New] Hn Ht. cbn [hub_step]. destruct (r_clients _ _ _ R n Hn) as [c Ec]. destruct (Inp n c Hn Ec) as (rest & Er & W & Gr & [tl P] & Wt & L). rewrite Ec.
  rewrite hub_received_cons, decide_True in P, L by done. rewrite zlen_app in L. zlen_pos. destruct (append_bytes_ok d (cl_input c) W) as (b & -> & Wb & Cb & _ & Lb); [unfold max_size; lia|]. cbn [obind].
  rewrite !app_assoc, <- Cb, <- app_assoc in P. destruct (arrive_ok rest (content b) _ (eq_sym P)) as (dn & rest' & q & Ea & -> & Eq & Eq' & Wq).
  unfold onMessage. cbn [change clients]. rewrite lookup_alter_eq, Ec. cbn [fmap option_fmap option_map with_input cl_input].
  pose proof (texts_length dn) as Ln. rewrite <- content_len, Eq by done.
  destruct (message_loop_ok dn (S (Z.to_nat (zlen (h_texts dn ++ q)))) n time b (change n (with_input b) s) (x_spec x) up rest' _ q (Rep_set_input _ _ _ n b R) G Hn Gr Wb Eq Eq' Wq) as (s1 & b1 & E1 & R1 & W1 & C1 & L1 & I1);
    [rewrite zlen_app; zlia|done|]. change (mkHub (topics_ s) _) with (change n (with_input b) s). rewrite E1. cbn [obind]. eexists. split; [done|]. apply Forall_app in Gr as [Gd Gr].
  cbn [expect_step]. rewrite Er. replace (zlen (content (cl_input c)) + zlen d) with (zlen (content b)) by (rewrite Cb, zlen_app; lia). rewrite Ea. split; cbn [x_spec x_rest].
  - by apply Rep_set_input.
  - cbn [change clients]. rewrite dom_alter_L, (r_dom _ _ _ R1), told_cmds, <- (r_dom _ _ _ R). done.
  - by apply good_cmds.
  - intros m c' Hm. cbn [change clients]. destruct (decide (m = n)) as [->|N].
    + rewrite lookup_alter_eq, lookup_insert_eq. destruct (clients s1 !! n) as [c1|]; [|done]. intros [= <-]. cbn [with_input cl_input]. rewrite C1. exists rest'. split; [done|]. split; [done|]. split; [done|]. rewrite C1.
      split; [rewrite <- Eq', app_assoc; by apply prefix_app_r|]. split; [done|]. lia.
    + rewrite lookup_alter_ne, lookup_insert_ne by done. intros E'. destruct (I1 m c' E') as (c0 & E0 & ->). cbn [change clients] in E0. rewrite lookup_alter_ne in E0 by done.
      destruct (Inp m c0 Hm E0) as (r0 & Er0 & Wr). rewrite hub_received_cons, decide_False in Wr by done. by exists r0.
  - intros m Hm. destruct (decide (m = n)) as [->|N]; [exfalso; apply Hm; rewrite <- Sn; by apply elem_of_dom|]. specialize (New m Hm). by rewrite hub_received_cons, decide_False in New.
Qed.
Lemma hub_run_inv evs s x seen up : HInv s x seen up evs -> legal evs seen up ->
  exists s' seen' up', hub_run evs s = Ret s' /\ HInv s' (fold_left (fun x e => expect_step e x) evs x) seen' up' [] /\ seen ⊆ seen' /\ forall n, HUp n ∈ evs -> n ∈ seen'.
Proof.
  revert s x seen up. induction evs as [|e evs IH]; intros s x seen up I Lg.
  - exists s, seen, up. split; [done|]. split; [done|]. split; [done|]. intros n H. by apply not_elem_of_nil in H.
  - assert (exists s1 seen1 up1, hub_step e s = Ret s1 /\ HInv s1 (expect_step e x) seen1 up1 evs /\ legal evs seen1 up1 /\ seen ⊆ seen1 /\ forall n, e = HUp n -> n ∈ seen1) as (s1 & seen1 & up1 & E1 & I1 & L1 & S1 & U1).
    { destruct e as [n|n d time|n|now]; cbn [legal] in Lg.
      - destruct Lg as [Hn Lg]. destruct (step_up n evs s x seen up I Hn) as (s1 & E1 & I1). exists s1, ({[n]} ∪ seen), ({[n]} ∪ up). split_and!; try done; [set_solver|]. intros m [= ->]. set_solver.
      - destruct Lg as (Hn & Ht & Lg). destruct (step_data n d time evs s x seen up I Hn Ht) as (s1 & E1 & I1). by exists s1, seen, up.
      - destruct Lg as [Hn Lg]. destruct (step_down n evs s x seen up I Hn) as (s1 & E1 & I1). by exists s1, seen, (up ∖ {[n]}).
      - destruct Lg as [Hn Lg]. destruct (step_tick now evs s x seen up I Hn) as (s1 & E1 & I1). by exists s1, seen, up. }
    destruct (IH s1 _ seen1 up1 I1 L1) as (s' & seen' & up' & E' & I' & S' & U'). exists s', seen', up'. cbn [hub_run fold_left]. rewrite E1. split; [done|]. split; [done|]. split; [set_solver|].
    intros n [H | H]%elem_of_cons; [apply S', U1; by symmetry|by apply U'].
Qed.
End Run.

Lemma new_inv script evs : (forall n, received n evs `prefix_of` h_texts (script n) /\ zlen (received n evs) <= 2 ^ 60) ->
  HInv script newHub (mkExpect (mkSpec ∅ ∅ ∅) ∅) ∅ ∅ evs.
Proof.
  intros H. split; cbn [x_spec newHub clients]; done.
Qed.

(** C12. Connections come, send the requests of their scripts in any pieces and in any interleaving, and go, while the timer publishes the time; what is published is one line, and shorter than 2^31 bytes, since its length becomes an [int]. The hub runs without failing; every connection has been
    sent exactly the messages it is told by a hub that executes each request when it is complete (on subscription the last message of the topic, then every message that is published on it
    until the subscription ends), and a [PubSubClient] that gets those bytes in any pieces calls its callback with exactly these messages, in order. *)
Theorem hub_delivers gmtime_r script evs :
  (forall n, Forall h_good (script n)) -> (forall n, received n evs `prefix_of` h_texts (script n) /\ zlen (received n evs) <= 2 ^ 60) -> legal evs ∅ ∅ ->
  exists s, hub_run gmtime_r evs newHub = Ret s /\
    forall n, HUp n ∈ evs -> exists c l, clients s !! n = Some c /\ told (x_spec (expect gmtime_r script evs)) !! n = Some l /\ sent_ (cl_conn c) = pub_texts l /\
      forall chunks buf, concat chunks = sent_ (cl_conn c) -> zlen (sent_ (cl_conn c)) <= 2 ^ 60 -> newBuffer kInitialSize = Ret buf ->
        exists buf', client_run chunks buf (mkPub (Some newConn) (Some [])) = Ret (mkPub (Some newConn) (Some l), buf').
Proof.
  intros Gs Hr Lg. destruct (hub_run_inv gmtime_r script Gs evs _ _ ∅ ∅ (new_inv script evs Hr) Lg) as (s & seen & up & E & [R Sn G _ _] & _ & U). exists s. split; [done|].
  intros n Hn%U. rewrite <- Sn in Hn. pose proof Hn as Hn'. rewrite (r_dom _ _ _ R) in Hn'. apply elem_of_dom in Hn as [c Ec]. apply elem_of_dom in Hn' as [l El]. exists c, l.
  pose proof (r_sent _ _ _ R n c l Ec El) as Es. split; [done|]. split; [done|]. split; [done|]. intros chunks buf Ech L Eb. destruct (newBuffer_ok kInitialSize) as (b & Eb' & W & C & _ & _ & Lb); [by vm_compute|].
  rewrite Eb in Eb'. injection Eb' as <-. destruct (client_run_ok chunks l buf (mkPub (Some newConn) (Some [])) []) as [buf' E'].
  - apply Forall_map. apply (proj1 G n l El).
  - done.
  - by rewrite C, Ech, Es, pub_texts_pubs.
  - rewrite C. apply h_waiting_nil.
  - rewrite Lb, Ech. unfold kCheapPrepend, kInitialSize. lia.
  - done.
  - by exists buf'.
Qed.

#[export] Instance h_good_dec c : Decision (h_good c).
Proof. unfold h_good, h_short. destruct c; apply _. Defined.
#[export] Instance legal_dec evs seen up : Decision (legal evs seen up).
Proof. revert seen up. induction evs as [|e evs IH]; intros seen up; cbn [legal]; [apply _|]. destruct e; apply _. Defined.

(** [a] subscribes, gets a message and the time, and goes; [b] publishes and then subscribes to what it has published. *)
Definition example_script (n : list byte) : list HCmd :=
  if decide (n = bytes "a") then [HSub (bytes "x"); HSub (bytes "utc_time"); HUnsub (bytes "x")]
  else if decide (n = bytes "b") then [HPub (bytes "x") (bytes "one"); HPub (bytes "x") (bytes "two"); HSub (bytes "x")] else [].
Definition example_evs : list HEvent :=
  let a := h_texts (example_script (bytes "a")) in let b := h_texts (example_script (bytes "b")) in
  [HUp (bytes "a"); HData (bytes "a") (ztake 25 a) 5; HUp (bytes "b"); HData (bytes "b") (ztake 20 b) 6; HTick 7; HData (bytes "a") (zdrop 25 a) 8; HData (bytes "b") (zdrop 20 b) 9; HDown (bytes "a"); HTick 10].
Definition example_tm (_ : Z) : tm := mkTm 70 0 1 0 0 0.
Example example_told : told (x_spec (expect example_tm example_script example_evs)) =
  <[bytes "a" := [(bytes "x", bytes "one"); (bytes "utc_time", bytes "19700101 00:00:00.000007")]]> (<[bytes "b" := [(bytes "x", bytes "two")]]> ∅).
Proof. apply (bool_decide_unpack _). vm_compute. exact Logic.I. Qed.
Lemma hub_delivers_witness : exists s, hub_run example_tm example_evs newHub = Ret s /\
  forall n, HUp n ∈ example_evs -> exists c l, clients s !! n = Some c /\ told (x_spec (expect example_tm example_script example_evs)) !! n = Some l /\ sent_ (cl_conn c) = pub_texts l /\
    forall chunks buf, concat chunks = sent_ (cl_conn c) -> zlen (sent_ (cl_conn c)) <= 2 ^ 60 -> newBuffer kInitialSize = Ret buf ->
      exists buf', client_run chunks buf (mkPub (Some newConn) (Some [])) = Ret (mkPub (Some newConn) (Some l), buf').
Proof.
  apply (hub_delivers example_tm example_script example_evs).
  - intros n. unfold example_script. repeat case_decide; apply (bool_decide_unpack _); vm_compute; exact Logic.I.
  - intros n. destruct (decide (n = bytes "a")) as [->|N1]; [|destruct (decide (n = bytes "b")) as [->|N2]].
    1-2: split; [apply (bool_decide_unpack _); vm_compute; exact Logic.I|vm_compute; discriminate].
    unfold example_evs, received. cbn [map concat]. rewrite !(decide_False (P := bytes "a" = n)), !(decide_False (P := bytes "b" = n)) by (intros <-; first [by apply N1|by apply N2]). split; [apply prefix_nil|vm_compute; discriminate].
  - apply (bool_decide_unpack _). vm_compute. exact Logic.I.
Defined.
