(* ===== verification/IdleWheel.v ===== *)
(** * Closing idle connections with a timing wheel (src/muduo/examples/idleconnection/echo.h, echo.cc)

    An [Entry] is shared by the buckets of the last [idleSeconds] seconds its connection was active in; when the last of them is
    overwritten its destructor shuts the connection down. The file shows that a connection is shut down exactly when it has been idle for that many ticks. *)

From S2P Require Import Prelude StringPiece Buffer Conn.

Module Wheel.

(** ** The server *)

(** A [TcpConnection] that has not been destroyed, its input buffer and its context, a [WeakEntryPtr] *)
Record EConn := mkEConn { ec_conn : Conn; ec_input : Buffer; ec_context : option nat }.
(** [entries] holds the entries that are alive with their [weakConn_]; [connectionBuckets_] begins with the oldest bucket. *)
Record EchoServer := mkEcho { connectionBuckets_ : list (gset nat); entries : gmap nat nat; next_entry : nat; conns : gmap nat EConn }.
Definition set_buckets v s := mkEcho v (entries s) (next_entry s) (conns s).
Definition set_conn c v s := mkEcho (connectionBuckets_ s) (entries s) (next_entry s) (<[c := v]> (conns s)).

(** [circular_buffer(idleSeconds)] and [resize(idleSeconds)] *)
Definition newEchoServer (idleSeconds : Z) : outcome EchoServer :=
  if decide (idleSeconds < 0) then Stop LengthError else Ret (mkEcho (replicate (Z.to_nat idleSeconds) ∅) ∅ 0 ∅).

(** [connectionBuckets_.back().insert(entry)] *)
Definition insert_back (e : nat) (s : EchoServer) : outcome EchoServer :=
  match last (connectionBuckets_ s) with
  | None => Stop OutOfRange
  | Some b => Ret (set_buckets (removelast (connectionBuckets_ s) ++ [{[e]} ∪ b]) s)
  end.

Definition onConnection (connected : bool) (c : nat) (s : EchoServer) : outcome EchoServer :=
  match conns s !! c with
  | None => Stop OutOfRange
  | Some x =>
      if connected then
        let e := next_entry s in
        let s := mkEcho (connectionBuckets_ s) (<[e := c]> (entries s)) (S e) (conns s) in
        let* s := insert_back e s in
        Ret (set_conn c (mkEConn (ec_conn x) (ec_input x) (Some e)) s)
      else
        assert* bool_decide (ec_context x <> None) in Ret s
  end.

Definition onMessage (c : nat) (s : EchoServer) : outcome EchoServer :=
  match conns s !! c with
  | None => Stop OutOfRange
  | Some x =>
      let* (msg, buf) := retrieveAllAsString (ec_input x) in
      let* conn := conn_send msg (ec_conn x) in
      let s := set_conn c (mkEConn conn buf (ec_context x)) s in
      assert* bool_decide (ec_context x <> None) in
      match ec_context x with
      | Some e => if decide (is_Some (entries s !! e)) then insert_back e s else Ret s
      | None => Ret s
      end
  end.

(** [~Entry] *)
Definition destroy_entry (e : nat) (s : EchoServer) : EchoServer :=
  match entries s !! e with
  | None => s
  | Some w =>
      let s := mkEcho (connectionBuckets_ s) (delete e (entries s)) (next_entry s) (conns s) in
      match conns s !! w with
      | Some x => set_conn w (mkEConn (conn_shutdown (ec_conn x)) (ec_input x) (ec_context x)) s
      | None => s
      end
  end.
(** A bucket gives its references up; the last reference destroys the entry. *)
Definition release (e : nat) (s : EchoServer) : EchoServer := if decide (Exists (fun b => e ∈ b) (connectionBuckets_ s)) then s else destroy_entry e s.
Definition onTimer (s : EchoServer) : EchoServer :=
  match connectionBuckets_ s with
  | [] => s
  | oldest :: rest => foldr release (set_buckets (rest ++ [∅]) s) (elements oldest)
  end.

(** ** Events *)

(** A connection is established, sends, is closed, and is destroyed; a second passes. *)
Inductive WEvent := WUp (c : nat) | WData (c : nat) (d : list byte) | WDown (c : nat) | WGone (c : nat) | WTick.
Definition wheel_step (e : WEvent) (s : EchoServer) : outcome EchoServer :=
  match e with
  | WUp c =>
      let* buf := newBuffer kInitialSize in
      onConnection true c (set_conn c (mkEConn newConn buf None) s)
  | WData c d =>
      match conns s !! c with
      | None => Stop OutOfRange
      | Some x =>
          let* buf := append_bytes d (ec_input x) in
          onMessage c (set_conn c (mkEConn (ec_conn x) buf (ec_context x)) s)
      end
  | WDown c =>
      match conns s !! c with
      | None => Stop OutOfRange
      | Some x => onConnection false c (set_conn c (mkEConn (conn_shutdown (ec_conn x)) (ec_input x) (ec_context x)) s)
      end
  | WGone c => Ret (mkEcho (connectionBuckets_ s) (entries s) (next_entry s) (delete c (conns s)))
  | WTick => Ret (onTimer s)
  end.
Fixpoint wheel_run (evs : list WEvent) (s : EchoServer) : outcome EchoServer :=
  match evs with
  | [] => Ret s
  | e :: evs => let* s := wheel_step e s in wheel_run evs s
  end.

(** ** What is expected *)

(** The seconds a connection has been idle, what was echoed, and whether the peer is there *)
Record Idle := mkIdle { idle : nat; echoed : list byte; up : bool }.
Section Spec.
Context (N : nat).
Definition idle_step (e : WEvent) (m : gmap nat Idle) : gmap nat Idle :=
  match e with
  | WUp c => <[c := mkIdle 0 [] true]> m
  | WData c d => alter (fun i => if decide (idle i < N)%nat then mkIdle 0 (echoed i ++ d) (up i) else i) c m
  | WDown c => alter (fun i => mkIdle (idle i) (echoed i) false) c m
  | WGone c => delete c m
  | WTick => (fun i => mkIdle (if decide (idle i < N)%nat then S (idle i) else idle i) (echoed i) (up i)) <$> m
  end.
Definition idle_run (evs : list WEvent) (m : gmap nat Idle) : gmap nat Idle := fold_left (fun m e => idle_step e m) evs m.
(** A connection is established once, sends only while it is up, of which at most [max_read] bytes are read at a time, and is destroyed after it is closed. *)
Fixpoint legal (evs : list WEvent) (seen : gset nat) (m : gmap nat Idle) : Prop :=
  match evs with
  | [] => True
  | e :: evs =>
      match e with
      | WUp c => c ∉ seen
      | WData c d => match m !! c with Some i => up i = true /\ zlen d <= max_read | None => False end
      | WDown c => match m !! c with Some i => up i = true | None => False end
      | WGone c => match m !! c with Some i => up i = false | None => False end
      | WTick => True
      end /\ legal evs (match e with WUp c => {[c]} ∪ seen | _ => seen end) (idle_step e m)
  end.
End Spec.
Definition traffic (evs : list WEvent) : Z := foldr (fun e n => match e with WData _ d => zlen d | _ => 0 end + n) 0 evs.

(** ** The wheel keeps the idle times *)

Ltac wheel_simpl := cbn [set_conn set_buckets conns connectionBuckets_ entries next_entry ec_conn ec_input ec_context idle_step idle echoed up].

Section Invariant.
Context (N : nat) (N_pos : (0 < N)%nat).

(** The entry of a connection that is idle for [a] seconds is in the bucket of that age and in none that is younger. *)
Definition at_age (s : EchoServer) (e a : nat) : Prop :=
  (exists b, connectionBuckets_ s !! (N - 1 - a)%nat = Some b /\ e ∈ b) /\ forall i b, (N - 1 - a < i)%nat -> connectionBuckets_ s !! i = Some b -> e ∉ b.
Definition ConnInv (s : EchoServer) (w : Z) (c : nat) (x : EConn) (i : Idle) : Prop :=
  connected_ (ec_conn x) = (up i && bool_decide (idle i < N)%nat) /\ sent_ (ec_conn x) = echoed i /\
  wf (ec_input x) /\ content (ec_input x) = [] /\ zlen (buffer_ (ec_input x)) <= 2 ^ 11 + w /\
  exists e, ec_context x = Some e /\ (e < next_entry s)%nat /\ if decide (idle i < N)%nat then entries s !! e = Some c /\ at_age s e (idle i) else entries s !! e = None.
Record WInv (s : EchoServer) (seen : gset nat) (m : gmap nat Idle) (w : Z) : Prop := mkWInv {
  w_len : length (connectionBuckets_ s) = N;
  w_dom : dom (conns s) = dom m;
  w_seen : dom (conns s) ⊆ seen;
  w_conn : forall c x i, conns s !! c = Some x -> m !! c = Some i -> ConnInv s w c x i;
  w_entry : forall e c, entries s !! e = Some c -> c ∈ seen /\ (e < next_entry s)%nat /\ forall x, conns s !! c = Some x -> ec_context x = Some e;
  w_bucket : forall i b e, connectionBuckets_ s !! i = Some b -> e ∈ b -> is_Some (entries s !! e);
  w_uniq : forall c c' x x' e, conns s !! c = Some x -> conns s !! c' = Some x' -> ec_context x = Some e -> ec_context x' = Some e -> c = c';
  w_pos : 0 <= w }.

Lemma bucket_split s : length (connectionBuckets_ s) = N -> exists bs b, connectionBuckets_ s = bs ++ [b] /\ length bs = (N - 1)%nat.
Proof.
  intros L. destruct (connectionBuckets_ s) as [|b bs _] using rev_ind; [cbn in L; lia|]. exists bs, b. split; [done|]. rewrite length_app in L. cbn in L. lia.
Qed.
Lemma insert_back_eq e s bs b : connectionBuckets_ s = bs ++ [b] -> insert_back e s = Ret (set_buckets (bs ++ [{[e]} ∪ b]) s).
Proof. intros E. unfold insert_back. by rewrite E, last_snoc, removelast_last. Qed.
Lemma buckets_snoc (bs : list (gset nat)) b i b' : (bs ++ [b]) !! i = Some b' <-> bs !! i = Some b' \/ i = length bs /\ b' = b.
Proof.
  destruct (decide (i < length bs)%nat) as [H|H].
  - rewrite lookup_app_l by done. split; [by left|]. intros [? | [-> _]]; [done|lia].
  - rewrite lookup_app_r by lia. destruct (decide (i = length bs)) as [->|Hn].
    + rewrite Nat.sub_diag. cbn. split; [intros [= ->]; by right|]. intros [E | [_ ->]]; [|done]. apply lookup_lt_Some in E. lia.
    + destruct (i - length bs)%nat as [|k] eqn:Ek; [lia|]. cbn. split; [done|]. intros [E | [? _]]; [|lia]. apply lookup_lt_Some in E. lia.
Qed.

(** An entry that is put in the youngest bucket has age 0, and the others keep their ages. *)
Lemma at_age_insert s bs b e : connectionBuckets_ s = bs ++ [b] -> length bs = (N - 1)%nat ->
  at_age (set_buckets (bs ++ [{[e]} ∪ b]) s) e 0 /\ forall e' a, e' <> e -> at_age s e' a -> at_age (set_buckets (bs ++ [{[e]} ∪ b]) s) e' a.
Proof.
  intros E L. split.
  - split; cbn [set_buckets connectionBuckets_].
    + exists ({[e]} ∪ b). split; [|set_solver]. rewrite buckets_snoc. right. split; [lia|done].
    + intros i b' Hi. rewrite buckets_snoc. intros [H | [-> _]]; [apply lookup_lt_Some in H; lia|lia].
  - intros e' a Ne [(b0 & E0 & H0) Y]. rewrite E in E0, Y. split; cbn [set_buckets connectionBuckets_].
    + apply buckets_snoc in E0 as [E0 | [E0 ->]]; [exists b0; split; [|done]; apply buckets_snoc; by left|]. exists ({[e]} ∪ b). split; [apply buckets_snoc; by right|set_solver].
    + intros i b' Hi. rewrite buckets_snoc. intros [H | [-> ->]]; [eapply Y; [done|apply buckets_snoc; by left]|]. assert (e' ∉ b) as Nb by (eapply Y; [done|apply buckets_snoc; by right]). set_solver.
Qed.

Lemma ConnInv_mono s s' w w' c x i : ConnInv s w c x i -> w <= w' -> (next_entry s <= next_entry s')%nat ->
  (forall e, ec_context x = Some e -> entries s' !! e = entries s !! e) -> (forall e, ec_context x = Some e -> at_age s e (idle i) -> at_age s' e (idle i)) -> ConnInv s' w' c x i.
Proof.
  intros (C1 & C2 & C3 & C4 & C5 & e & E1 & E2 & E3) Hw Hn He Ha. do 4 (split; [done|]). split; [lia|]. exists e. split; [done|]. split; [lia|]. rewrite (He e E1). case_decide; [|done]. destruct E3 as [E3 E4]. split; [done|]. by apply Ha.
Qed.
Lemma wheel_step_up c s seen m w : WInv s seen m w -> c ∉ seen -> exists s', wheel_step (WUp c) s = Ret s' /\ WInv s' ({[c]} ∪ seen) (idle_step N (WUp c) m) w.
Proof.
  intros I Hc. cbn [wheel_step]. destruct (newBuffer_ok kInitialSize) as (buf & -> & W & C & _ & _ & Lb); [by vm_compute|]. cbn [obind]. unfold onConnection. cbn [set_conn conns]. rewrite lookup_insert_eq. cbn [next_entry].
  destruct (bucket_split s (w_len _ _ _ _ I)) as (bs & b & Eb & Lbs). rewrite (insert_back_eq _ _ bs b) by done. cbn [obind]. set (e := next_entry s). eexists. split; [done|].
  destruct (at_age_insert s bs b e Eb Lbs) as [A0 A1]. destruct I as [Ln Dm Sn Cn En Bk Un Hw].
  assert (entries s !! e = None) as Ee by (destruct (entries s !! e) as [c0|] eqn:E; [apply En in E as (_ & E & _); lia|done]).
  assert (forall e', entries s !! e' <> None -> e <> e') as Ne0 by (intros e' H <-; by apply H).
  assert (conns s !! c = None) as Ecn by (apply not_elem_of_dom; set_solver).
  split; wheel_simpl.
  - rewrite length_app. cbn. lia.
  - rewrite !dom_insert_L, Dm. set_solver.
  - rewrite !dom_insert_L. set_solver.
  - intros c' x i. rewrite !lookup_insert_Some. intros [[<- <-] | [Ne E]] [[H <-] | [Ne' Ei]]; try done.
    + split; [cbn; by rewrite bool_decide_true|]. do 3 (split; [done|]). split; [cbn; rewrite Lb; unfold kCheapPrepend, kInitialSize; lia|]. exists e. cbn [ec_context idle]. split; [done|]. split; [cbn; lia|]. rewrite decide_True by done.
      wheel_simpl. rewrite lookup_insert_eq. done.
    + destruct E as [[-> _] | [_ E]]; [done|]. eapply ConnInv_mono; [by eapply Cn|lia|cbn; lia| |].
      * intros e' E'. wheel_simpl. rewrite lookup_insert_ne; [done|]. destruct (Cn c' x i E Ei) as (_ & _ & _ & _ & _ & e2 & E2 & L2 & _). assert (e' = e2) by congruence. lia.
      * intros e' E' A. apply (A1 e' (idle i)); [|done]. destruct (Cn c' x i E Ei) as (_ & _ & _ & _ & _ & e2 & E2 & L2 & _). assert (e' = e2) by congruence. lia.
  - intros e' c'. rewrite lookup_insert_Some. intros [[<- <-] | [Ne E]].
    + split; [set_solver|]. split; [lia|]. intros x. rewrite lookup_insert_eq. by intros [= <-].
    + destruct (En e' c' E) as (E1 & E2 & E3). split; [set_solver|]. split; [lia|]. assert (c' <> c) by (intros ->; done). intros x. rewrite !lookup_insert_ne by done. apply E3.
  - intros i b' e'. rewrite buckets_snoc. intros [H | [-> ->]] He.
    + assert (is_Some (entries s !! e')) as [c0 E0] by (eapply Bk; [rewrite Eb; apply buckets_snoc; left; exact H|done]). rewrite lookup_insert_ne by (apply Ne0; congruence). by exists c0.
    + apply elem_of_union in He as [->%elem_of_singleton | He]; [by rewrite lookup_insert_eq|].
      assert (is_Some (entries s !! e')) as [c0 E0] by (eapply Bk; [rewrite Eb; apply buckets_snoc; right; split; reflexivity|done]). rewrite lookup_insert_ne by (apply Ne0; congruence). by exists c0.
  - assert (forall c' x', conns s !! c' = Some x' -> ec_context x' = Some e -> False) as Nw.
    { intros c' x' E E'. assert (c' ∈ dom m) as [i Ei]%elem_of_dom by (rewrite <- Dm; by apply elem_of_dom). destruct (Cn c' x' i E Ei) as (_ & _ & _ & _ & _ & e2 & E2 & L2 & _). assert (e = e2) by congruence. lia. }
    intros c1 c2 x1 x2 e'. rewrite !insert_insert_eq, !lookup_insert_Some. intros [[<- <-] | [N1 E1]] [[<- <-] | [N2 E2]]; cbn [ec_context]; try done.
    + intros [= <-] H. by destruct (Nw c2 x2 E2).
    + intros H [= <-]. by destruct (Nw c1 x1 E1).
    + by apply Un.
  - done.
Qed.

(** One connection changes. *)
Lemma WInv_conn s seen m w w' c x x' i' : WInv s seen m w -> conns s !! c = Some x -> ec_context x' = ec_context x -> ConnInv s w' c x' i' -> w <= w' ->
  WInv (set_conn c x' s) seen (<[c := i']> m) w'.
Proof.
  intros [Ln Dm Sn Cn En Bk Un Hw] Ec Ex C' Hw'. assert (c ∈ dom (conns s)) as Hc by (by apply elem_of_dom). split; wheel_simpl; try done.
  - by rewrite !dom_insert_L, Dm.
  - rewrite dom_insert_L. set_solver.
  - intros c1 x1 i1. rewrite !lookup_insert_Some. intros [[<- <-] | [N1 E1]] [[H <-] | [N2 E2]]; try done. eapply ConnInv_mono; [by eapply Cn|done|done|done|done].
  - intros e c1 E. destruct (En e c1 E) as (E1 & E2 & E3). split; [done|]. split; [done|]. intros x1. rewrite lookup_insert_Some. intros [[<- <-] | [N1 E4]]; [|by apply E3]. rewrite Ex. by apply E3.
  - intros c1 c2 x1 x2 e. rewrite !lookup_insert_Some. intros [[<- <-] | [N1 E1]] [[<- <-] | [N2 E2]]; rewrite ?Ex; try done; by apply Un.
  - lia.
Qed.
(** Its entry is put in the youngest bucket. *)
Lemma WInv_back s seen m w c x i e bs b : WInv s seen m w -> conns s !! c = Some x -> m !! c = Some i -> ec_context x = Some e -> (idle i < N)%nat ->
  connectionBuckets_ s = bs ++ [b] -> length bs = (N - 1)%nat -> WInv (set_buckets (bs ++ [{[e]} ∪ b]) s) seen (<[c := mkIdle 0 (echoed i) (up i)]> m) w.
Proof.
  intros [Ln Dm Sn Cn En Bk Un Hw] Ec Em Ex Hi Eb Lb. destruct (at_age_insert s bs b e Eb Lb) as [A0 A1]. pose proof (Cn c x i Ec Em) as (C1 & C2 & C3 & C4 & C5 & e0 & E1 & E2 & E3). rewrite decide_True in E3 by done. destruct E3 as [E3 _].
  assert (e0 = e) as -> by congruence. split; wheel_simpl; try done.
  - rewrite length_app. cbn. lia.
  - rewrite dom_insert_L, <- Dm. assert (c ∈ dom (conns s)) by (by apply elem_of_dom). set_solver.
  - intros c1 x1 i1 H1. rewrite lookup_insert_Some. intros [[<- <-] | [N1 H2]].
    + assert (x1 = x) as -> by congruence. split; [wheel_simpl; by rewrite C1, !bool_decide_true by lia|]. do 4 (split; [done|]). exists e. split; [done|]. split; [done|]. rewrite decide_True by (cbn; lia). by split.
    + eapply ConnInv_mono; [by eapply Cn|done|done|done|]. intros e1 H3 A. apply A1; [|done]. intros ->. apply N1. by eapply Un.
  - intros k b' e'. rewrite buckets_snoc. intros [H | [-> ->]] He; [eapply Bk; [rewrite Eb; apply buckets_snoc; left; exact H|done]|].
    apply elem_of_union in He as [->%elem_of_singleton | He]; [by exists c|]. eapply Bk; [rewrite Eb; apply buckets_snoc; right; split; reflexivity|done].
Qed.
Lemma legal_conn s seen m w c i : WInv s seen m w -> m !! c = Some i -> exists x, conns s !! c = Some x /\ ConnInv s w c x i.
Proof. intros I E. assert (c ∈ dom (conns s)) as [x Ex]%elem_of_dom by (rewrite (w_dom _ _ _ _ I); by apply elem_of_dom). exists x. split; [done|]. by apply (w_conn _ _ _ _ I). Qed.

Lemma wheel_step_data c d s seen m w i : WInv s seen m w -> m !! c = Some i -> up i = true -> zlen d <= max_read -> w + zlen d <= 2 ^ 60 ->
  exists s', wheel_step (WData c d) s = Ret s' /\ WInv s' seen (idle_step N (WData c d) m) (w + zlen d).
Proof.
  intros I Em Hu Hd Hw. destruct (legal_conn _ _ _ _ _ _ I Em) as (x & Ec & C). cbn [wheel_step]. rewrite Ec. destruct C as (C1 & C2 & C3 & C4 & C5 & e & E1 & E2 & E3). zlen_pos. pose proof (w_pos _ _ _ _ I) as Hw0.
  destruct (append_bytes_ok d (ec_input x) C3) as (buf & -> & Wb & Cb & _ & Lb); [unfold max_size; lia|]. cbn [obind]. unfold onMessage. wheel_simpl. rewrite lookup_insert_eq. wheel_simpl.
  destruct (retrieveAllAsString_ok buf Wb) as (b' & -> & Wb' & Cb' & Lb'). cbn [obind]. rewrite Cb, C4, app_nil_l. rewrite conn_send_ok by (unfold max_read in Hd; lia). cbn [obind]. rewrite E1, bool_decide_true by done. cbn [check].
  cbn [idle_step]. rewrite (alter_is_insert (fun i => if decide (idle i < N)%nat then mkIdle 0 (echoed i ++ d) (up i) else i) c i m Em). rewrite Hu, andb_true_l in C1. unfold set_conn. wheel_simpl.
  set (x' := mkEConn (conn_write d (ec_conn x)) b' (Some e)). rewrite !insert_insert_eq. change (mkEcho _ _ _ (<[c := x']> (conns s))) with (set_conn c x' s).
  assert (forall i', up i' = true -> idle i' = idle i -> echoed i' = (if decide (idle i < N)%nat then echoed i ++ d else echoed i) -> WInv (set_conn c x' s) seen (<[c := i']> m) (w + zlen d)) as I'.
  { intros i' U A B. apply (WInv_conn s seen m w (w + zlen d) c x x' i' I Ec); [done| |lia]. unfold ConnInv. rewrite U, A, B. cbn [x' ec_conn ec_input ec_context]. unfold conn_write. rewrite C1.
    destruct (bool_decide_reflect (idle i < N)%nat) as [D|D]; (destruct (decide (idle i < N)%nat); [|try done]); try done; cbn [connected_ sent_]; rewrite ?C1, ?bool_decide_true, ?bool_decide_false, ?C2 by done;
      do 4 (split; [done|]); (split; [lia|]); exists e; done. }
  destruct (decide (idle i < N)%nat) as [Hi|Hi].
  - destruct E3 as [E3 _]. rewrite decide_True by (by exists c). destruct (bucket_split s (w_len _ _ _ _ I)) as (bs & b & Eb & Lbs). rewrite (insert_back_eq e _ bs b) by done. eexists. split; [done|].
    pose proof (I' (mkIdle (idle i) (echoed i ++ d) true) eq_refl eq_refl eq_refl) as I1. pose proof (WInv_back _ _ _ _ c x' (mkIdle (idle i) (echoed i ++ d) true) e bs b I1) as I2. rewrite Hu. wheel_simpl.
    rewrite insert_insert_eq in I2. apply I2; try done; cbn [set_conn conns]; by rewrite lookup_insert_eq.
  - rewrite decide_False by (rewrite E3; by intros [? ?]). eexists. split; [done|]. by apply I'.
Qed.
Lemma wheel_step_down c s seen m w i : WInv s seen m w -> m !! c = Some i -> exists s', wheel_step (WDown c) s = Ret s' /\ WInv s' seen (idle_step N (WDown c) m) w.
Proof.
  intros I Em. destruct (legal_conn _ _ _ _ _ _ I Em) as (x & Ec & C). cbn [wheel_step]. rewrite Ec. pose proof C as (C1 & C2 & C3 & C4 & C5 & e & E1 & E2 & E3). unfold onConnection. wheel_simpl. rewrite lookup_insert_eq. wheel_simpl.
  rewrite E1, bool_decide_true by done. cbn [check]. eexists. split; [done|]. rewrite (alter_is_insert (fun i => mkIdle (idle i) (echoed i) false) c i m Em). apply (WInv_conn s seen m w w c x _ _ I Ec); [done| |done].
  split; [done|]. do 4 (split; [done|]). by exists e.
Qed.
Lemma wheel_step_gone c s seen m w : WInv s seen m w -> exists s', wheel_step (WGone c) s = Ret s' /\ WInv s' seen (idle_step N (WGone c) m) w.
Proof.
  intros [Ln Dm Sn Cn En Bk Un Hw]. cbn [wheel_step]. eexists. split; [done|]. split; wheel_simpl; try done.
  - by rewrite !dom_delete_L, Dm.
  - rewrite dom_delete_L. set_solver.
  - intros c1 x1 i1. rewrite !lookup_delete_Some. intros [N1 E1] [_ E2]. eapply ConnInv_mono; [by eapply Cn|done|done|done|done].
  - intros e c1 E. destruct (En e c1 E) as (E1 & E2 & E3). split; [done|]. split; [done|]. intros x1. rewrite lookup_delete_Some. intros [_ H]. by apply E3.
  - intros c1 c2 x1 x2 e. rewrite !lookup_delete_Some. intros [_ H1] [_ H2]. by apply Un.
Qed.

(** The entries of [l] that are in no bucket any more are destroyed, and their connections shut down. *)
Definition dropped (s : EchoServer) (l : list nat) (e : nat) : Prop := e ∈ l /\ ~ Exists (fun b => e ∈ b) (connectionBuckets_ s).
Definition shut_conn (x : EConn) : EConn := mkEConn (conn_shutdown (ec_conn x)) (ec_input x) (ec_context x).
Definition released (s : EchoServer) (l : list nat) (c : nat) (x : EConn) : EConn :=
  match ec_context x with
  | Some e => if decide (dropped s l e /\ entries s !! e = Some c) then shut_conn x else x
  | None => x
  end.
Lemma release_all l s : NoDup l -> (forall e c x, entries s !! e = Some c -> conns s !! c = Some x -> ec_context x = Some e) ->
  let s' := foldr release s l in
  connectionBuckets_ s' = connectionBuckets_ s /\ next_entry s' = next_entry s /\ (forall e, entries s' !! e = if decide (dropped s l e) then None else entries s !! e) /\
  forall c, conns s' !! c = released s l c <$> conns s !! c.
Proof.
  intros Nd Cx. induction l as [|e l IH]; cbn [foldr]; cbv zeta.
  - split; [done|]. split; [done|]. assert (forall e, ~ dropped s [] e) as No by (intros e [H _]; by apply not_elem_of_nil in H). split; [intros e; by rewrite decide_False|].
    intros c. destruct (conns s !! c) as [x|]; [|done]. cbn. unfold released. destruct (ec_context x); [|done]. by rewrite decide_False by (intros [H _]; by apply No in H).
  - apply NoDup_cons in Nd as [Ne Nd]. destruct (IH Nd) as (B & Nx & En & Cn). set (s1 := foldr release s l) in *. clearbody s1. clear IH.
    assert (forall e', dropped s (e :: l) e' <-> dropped s l e' \/ (e' = e /\ ~ Exists (fun b => e ∈ b) (connectionBuckets_ s))) as Dr.
    { intros e'. unfold dropped. rewrite elem_of_cons. split; [intros [[-> | H] H']; [by right|by left]|]. intros [[H1 H2] | [-> H]]; (split; [auto|done]). }
    assert (entries s1 !! e = entries s !! e) as Ee by (rewrite En, decide_False; [done|by intros [H _]]).
    unfold release. rewrite B. destruct (decide (Exists (fun b => e ∈ b) (connectionBuckets_ s))) as [Hx|Hx].
    + assert (forall e', dropped s (e :: l) e' <-> dropped s l e') as Dq by (intros e'; rewrite Dr; tauto). split; [done|]. split; [done|]. split.
      * intros e'. rewrite En. destruct (decide (dropped s l e')), (decide (dropped s (e :: l) e')); try done; exfalso; by rewrite Dq in *.
      * intros c. rewrite Cn. destruct (conns s !! c) as [x|]; [|done]. cbn. f_equal. unfold released. destruct (ec_context x) as [e'|]; [|done]. destruct (decide (dropped s l e' /\ _)), (decide (dropped s (e :: l) e' /\ _)); try done; exfalso; by rewrite Dq in *.
    + unfold destroy_entry. rewrite Ee. assert (forall e', e' <> e -> dropped s (e :: l) e' <-> dropped s l e') as Dq by (intros e' H; rewrite Dr; tauto). assert (dropped s (e :: l) e) as De by (apply Dr; by right). assert (~ dropped s l e) as De' by (by intros [H _]).
      assert (forall c x, conns s !! c = Some x -> (entries s !! e = Some c -> False) -> released s (e :: l) c x = released s l c x) as Rl.
      { intros c x Ex Hc. unfold released. destruct (ec_context x) as [e'|]; [|done]. destruct (decide (e' = e)) as [->|Ne']; [by rewrite !decide_False by tauto|].
        destruct (decide (dropped s l e' /\ _)), (decide (dropped s (e :: l) e' /\ _)); try done; exfalso; by rewrite Dq in *. }
      destruct (entries s !! e) as [c0|] eqn:E0.
      * wheel_simpl. rewrite Cn. set (s2 := match _ <$> _ with Some _ => _ | None => _ end).
        assert (connectionBuckets_ s2 = connectionBuckets_ s /\ next_entry s2 = next_entry s /\ entries s2 = delete e (entries s1)) as (B2 & N2 & E2) by (unfold s2; destruct (conns s !! c0); wheel_simpl; done).
        split; [done|]. split; [done|]. split.
        { intros e'. rewrite E2. destruct (decide (e' = e)) as [->|Ne']; [rewrite lookup_delete_eq, decide_True by done; done|]. rewrite lookup_delete_ne, En by done.
          destruct (decide (dropped s l e')), (decide (dropped s (e :: l) e')); try done; exfalso; by rewrite Dq in *. }
        intros c. unfold s2. destruct (decide (c = c0)) as [->|Nc].
        -- destruct (conns s !! c0) as [x|] eqn:Ex; cbn [fmap option_fmap option_map]; wheel_simpl; [|by rewrite Cn, Ex]. rewrite lookup_insert_eq. cbn [fmap option_fmap option_map]. f_equal. pose proof (Cx e c0 x E0 Ex) as Ecx. unfold released.
           rewrite Ecx, (decide_False (P := dropped s l e /\ _)), (decide_True (P := dropped s (e :: l) e /\ _)) by (try split; tauto || done). unfold shut_conn. by rewrite Ecx.
        -- assert (conns s1 !! c = released s (e :: l) c <$> conns s !! c) as <-. { rewrite Cn. destruct (conns s !! c) as [x|] eqn:Ex; [|done]. cbn. f_equal. rewrite Rl; [done|done|congruence]. }
           destruct (conns s !! c0); cbn [fmap option_fmap option_map]; wheel_simpl; [by rewrite lookup_insert_ne|done].
      * split; [done|]. split; [done|]. split.
        { intros e'. rewrite En. destruct (decide (e' = e)) as [->|Ne']; [rewrite (decide_True (P := dropped s (e :: l) e)), decide_False by done; done|].
          destruct (decide (dropped s l e')), (decide (dropped s (e :: l) e')); try done; exfalso; by rewrite Dq in *. }
        intros c. rewrite Cn. destruct (conns s !! c) as [x|] eqn:Ex; [|done]. cbn. f_equal. by rewrite Rl.
Qed.
Lemma wheel_step_tick s seen m w : WInv s seen m w -> exists s', wheel_step WTick s = Ret s' /\ WInv s' seen (idle_step N WTick m) w.
Proof.
  intros [Ln Dm Sn Cn En Bk Un Hw]. cbn [wheel_step]. eexists. split; [done|]. unfold onTimer. destruct (connectionBuckets_ s) as [|old rest] eqn:Eb; [cbn in Ln; lia|]. cbn in Ln.
  set (s0 := set_buckets (rest ++ [∅]) s). destruct (release_all (elements old) s0 (NoDup_elements _)) as (B & Nx & En' & Cn').
  { intros e c x E Ex. destruct (En e c E) as (_ & _ & H). by apply H. }
  set (s' := foldr release s0 (elements old)) in *. clearbody s'. cbn [s0 set_buckets connectionBuckets_ next_entry] in B, Nx.
  assert (forall e, Exists (fun b => e ∈ b) (rest ++ [∅]) <-> exists i b, rest !! i = Some b /\ e ∈ b) as Ex.
  { intros e. rewrite Exists_app, Exists_exists. split; [intros [(b & Hb & He) | H]; [apply list_elem_of_lookup in Hb as [i Hi]; by exists i, b|]; apply Exists_cons in H as [H | H]; [set_solver|by apply Exists_nil in H]|].
    intros (i & b & Hi & He). left. exists b. split; [by eapply list_elem_of_lookup_2|done]. }
  assert (forall e, dropped s0 (elements old) e <-> e ∈ old /\ forall i b, rest !! i = Some b -> e ∉ b) as Dr.
  { intros e. unfold dropped. cbn [s0 set_buckets connectionBuckets_]. rewrite elem_of_elements, Ex. split; intros [H1 H2]; (split; [done|]); [intros i b Hi He; apply H2; by exists i, b|intros (i & b & Hi & He); by apply (H2 i b)]. }
  change (entries s0) with (entries s) in En'. change (conns s0) with (conns s) in Cn'. split; wheel_simpl.
  - rewrite B, length_app. cbn. lia.
  - rewrite dom_fmap_L, <- Dm. apply set_eq. intros c. rewrite !elem_of_dom, Cn', fmap_is_Some. done.
  - intros c. rewrite elem_of_dom, Cn', fmap_is_Some, <- elem_of_dom. apply Sn.
  - intros c x' i' Ex' Ei. rewrite Cn' in Ex'. rewrite lookup_fmap in Ei. destruct (conns s !! c) as [x|] eqn:Ec; [|done]. destruct (m !! c) as [i|] eqn:Em; [|done]. cbn [fmap option_fmap option_map] in Ex', Ei. injection Ex' as <-. injection Ei as <-.
    pose proof (Cn c x i Ec Em) as (C1 & C2 & C3 & C4 & C5 & e & E1 & E2 & E3). unfold released. rewrite E1. change (entries s0) with (entries s). unfold ConnInv. cbn [idle up echoed]. destruct (decide (idle i < N)%nat) as [Hi|Hi].
    + destruct E3 as [E3 [(b & Hb & He) Y]]. rewrite Eb in Hb, Y. destruct (decide (S (idle i) < N)%nat) as [Hs|Hs].
      * assert (~ dropped s0 (elements old) e) as Nd.
        { rewrite Dr. intros [_ H]. replace (N - 1 - idle i)%nat with (S (N - 1 - S (idle i)))%nat in Hb by lia. by apply (H _ _ Hb). }
        rewrite decide_False by tauto. rewrite C1, !bool_decide_true by lia. do 5 (split; [done|]). exists e. split; [done|]. split; [lia|]. rewrite En', decide_False by done. split; [done|]. split; rewrite B.
        -- exists b. split; [|done]. replace (N - 1 - idle i)%nat with (S (N - 1 - S (idle i)))%nat in Hb by lia. cbn in Hb. rewrite lookup_app_l; [done|]. by apply lookup_lt_Some in Hb.
        -- intros k b' Hk. rewrite buckets_snoc. intros [H | [_ ->]]; [|set_solver]. apply (Y (S k) b'); [lia|done].
      * assert (idle i = N - 1)%nat as Ea by lia. rewrite Ea, Nat.sub_diag in Hb, Y. cbn in Hb. injection Hb as ->. assert (dropped s0 (elements b) e) as Dd by (apply Dr; split; [done|]; intros k b' Hk; apply (Y (S k) b'); [lia|done]).
        rewrite decide_True by done. cbn [shut_conn ec_conn ec_input ec_context conn_shutdown connected_ sent_]. rewrite (bool_decide_false (S (idle i) < N)%nat) by done. split; [by rewrite andb_false_r|]. do 4 (split; [done|]). exists e. split; [done|]. split; [lia|]. by rewrite En', decide_True.
    + rewrite decide_False by (intros [_ H]; congruence). rewrite C1, bool_decide_false by done. do 5 (split; [done|]). exists e. split; [done|]. split; [lia|]. rewrite decide_False by done. rewrite En'. by destruct (decide (dropped s0 (elements old) e)).
  - intros e c. rewrite En', Nx. case_decide as D; [done|]. intros E. destruct (En e c E) as (E1 & E2 & E3). split; [done|]. split; [done|]. intros x'. rewrite Cn'. destruct (conns s !! c) as [x|] eqn:Ec; [|done]. cbn. intros [= <-].
    assert (forall x, ec_context (released s0 (elements old) c x) = ec_context x) as Er by (intros y; unfold released; destruct (ec_context y) eqn:Ey; [case_decide|]; done). rewrite Er. by apply E3.
  - intros k b e. rewrite B, buckets_snoc. intros [H | [-> ->]] He; [|set_solver]. rewrite En', decide_False; [apply (Bk (S k) b); done|]. rewrite Dr. intros [_ Hd]. by apply (Hd k b).
  - intros c c' x x' e. rewrite !Cn'. destruct (conns s !! c) as [y|] eqn:Ec; [|done]. destruct (conns s !! c') as [y'|] eqn:Ec'; [|done]. cbn. intros [= <-] [= <-].
    assert (forall c x, ec_context (released s0 (elements old) c x) = ec_context x) as Er by (intros k z; unfold released; destruct (ec_context z) eqn:Ez; [case_decide|]; done). rewrite !Er. by eapply Un.
  - done.
Qed.
Lemma wheel_run_inv evs s seen m w : WInv s seen m w -> legal N evs seen m -> w + traffic evs <= 2 ^ 60 ->
  exists s' seen' w', wheel_run evs s = Ret s' /\ WInv s' seen' (idle_run N evs m) w'.
Proof.
  revert s seen m w. induction evs as [|e evs IH]; intros s seen m w I L Hw; [by exists s, seen, w|]. cbn [traffic foldr] in Hw. fold (traffic evs) in Hw. cbn [legal] in L. destruct L as [Le L].
  assert (0 <= traffic evs) as Ht by (clear; induction evs as [|e evs IH]; [done|]; cbn [traffic foldr]; fold (traffic evs); destruct e; zlia).
  assert (exists s1 w1, wheel_step e s = Ret s1 /\ WInv s1 (match e with WUp c => {[c]} ∪ seen | _ => seen end) (idle_step N e m) w1 /\ w1 + traffic evs <= 2 ^ 60) as (s1 & w1 & E1 & I1 & Hw1).
  { destruct e as [c|c d|c|c|].
    - destruct (wheel_step_up c s seen m w I Le) as (s1 & E1 & I1). by exists s1, w.
    - destruct (m !! c) as [i|] eqn:Em; [|done]. destruct Le as [Le Ld]. destruct (wheel_step_data c d s seen m w i I Em Le Ld) as (s1 & E1 & I1); [lia|]. exists s1, (w + zlen d). split_and!; [done|done|lia].
    - destruct (m !! c) as [i|] eqn:Em; [|done]. destruct (wheel_step_down c s seen m w i I Em) as (s1 & E1 & I1). by exists s1, w.
    - destruct (wheel_step_gone c s seen m w I) as (s1 & E1 & I1). by exists s1, w.
    - destruct (wheel_step_tick s seen m w I) as (s1 & E1 & I1). by exists s1, w. }
  destruct (IH s1 _ _ w1 I1 L Hw1) as (s' & seen' & w' & E' & I'). exists s', seen', w'. cbn [wheel_run]. rewrite E1. done.
Qed.
End Invariant.

(** C14. Connections come, send, are closed and are destroyed, and seconds pass, in any order: no assertion of the server fails, and every connection that has not been destroyed has been sent back what it has sent
    and is still connected exactly if the peer has not closed it and fewer than [idleSeconds] ticks have passed since it was established or last sent something; one that was idle for that long is shut down for good. *)
Theorem wheel_closes_idle (idleSeconds : Z) (evs : list WEvent) (s : EchoServer) :
  0 < idleSeconds -> newEchoServer idleSeconds = Ret s -> legal (Z.to_nat idleSeconds) evs ∅ ∅ -> traffic evs <= 2 ^ 60 ->
  exists s', wheel_run evs s = Ret s' /\ dom (conns s') = dom (idle_run (Z.to_nat idleSeconds) evs ∅) /\
    forall c x i, conns s' !! c = Some x -> idle_run (Z.to_nat idleSeconds) evs ∅ !! c = Some i ->
      sent_ (ec_conn x) = echoed i /\ connected_ (ec_conn x) = (up i && bool_decide (Z.of_nat (idle i) < idleSeconds)).
Proof.
  intros Hi E L Ht. unfold newEchoServer in E. rewrite decide_False in E by lia. injection E as <-.
  destruct (wheel_run_inv (Z.to_nat idleSeconds) ltac:(lia) evs (mkEcho (replicate (Z.to_nat idleSeconds) ∅) ∅ 0 ∅) ∅ ∅ 0) as (s' & seen' & w' & E' & I'); [|done|lia|].
  - split; wheel_simpl; try done.
    + apply length_replicate.
    + intros k b e H. apply lookup_replicate in H as [-> _]. set_solver.
  - exists s'. split; [done|]. split; [apply (w_dom _ _ _ _ _ I')|]. intros c x i Ec Ei. destruct (w_conn _ _ _ _ _ I' c x i Ec Ei) as (C1 & C2 & _). split; [done|]. rewrite C1. f_equal. apply bool_decide_ext. lia.
Qed.

#[export] Instance legal_dec N evs seen m : Decision (legal N evs seen m).
Proof. revert seen m. induction evs as [|e evs IH]; intros seen m; cbn [legal]; [apply _|]. destruct e; apply and_dec; try apply _; destruct (m !! c); apply _. Defined.
(** With two seconds the second connection, which keeps sending, stays; the first is closed although it sends once more, too late. *)
Definition example_evs : list WEvent := [WUp 1; WTick; WUp 2; WData 2 (bytes "a"); WTick; WData 1 (bytes "late"); WData 2 (bytes "b"); WTick; WDown 1; WGone 1].
Definition example_wheel : EchoServer := mkEcho [∅; ∅] ∅ 0 ∅.
Example example_first : (let* s := wheel_run (take 6 example_evs) example_wheel in Ret ((fun x => (sent_ (ec_conn x), connected_ (ec_conn x))) <$> conns s)) = Ret (<[1%nat := ([], false)]> (<[2%nat := (bytes "a", true)]> ∅)).
Proof. vm_compute. reflexivity. Qed.
Lemma wheel_closes_idle_witness : exists s', wheel_run example_evs example_wheel = Ret s' /\ dom (conns s') = dom (idle_run (Z.to_nat 2) example_evs ∅) /\
  forall c x i, conns s' !! c = Some x -> idle_run (Z.to_nat 2) example_evs ∅ !! c = Some i -> sent_ (ec_conn x) = echoed i /\ connected_ (ec_conn x) = (up i && bool_decide (Z.of_nat (idle i) < 2)).
Proof.
  apply (wheel_closes_idle 2 example_evs example_wheel).
  - lia.
  - reflexivity.
  - apply (bool_decide_unpack _). vm_compute. exact Logic.I.
  - vm_compute. discriminate.
Defined.

(** With [idleSeconds = 0] there is no bucket: the first connection uses the last of none. *)
Lemma no_bucket_fails c s : newEchoServer 0 = Ret s -> wheel_step (WUp c) s = Stop OutOfRange.
Proof.
  intros [= <-]. cbn [wheel_step]. destruct (newBuffer_ok kInitialSize) as (buf & -> & _); [by vm_compute|]. cbn [obind]. unfold onConnection. wheel_simpl. by rewrite lookup_insert_eq.
Qed.

End Wheel.
