(* ===== verification/Framing.v ===== *)
(** * Messages in a stream of bytes

    What the codecs of the examples share: messages are written one after the other, and their bytes reach the input buffer of a
    connection in pieces. If a handler takes the complete messages from the front of the buffer, then every message is handled once and in order, however the
    bytes are cut. The second part is about messages with a length of four bytes before them. *)

From S2P Require Import Prelude Endian StringPiece Buffer Http Lines.

Section Stream.
Context {A St : Type} (enc : A -> list byte).
Definition encs (ms : list A) : list byte := concat (map enc ms).
(** [q] is not a complete message. *)
Definition waits (ms : list A) (q : list byte) : Prop := match ms with [] => q = [] | m :: _ => zlen q < zlen (enc m) end.

Lemma stream_split ms (q more : list byte) : q ++ more = encs ms -> exists done rest q', ms = done ++ rest /\ q = encs done ++ q' /\ q' ++ more = encs rest /\ waits rest q'.
Proof.
  revert q. induction ms as [|m ms IH]; intros q E.
  - apply app_eq_nil in E as [-> ->]. by exists [], [], [].
  - destruct (decide (zlen (enc m) <= zlen q)) as [H|H]; [|exists [], (m :: ms), q; split_and!; [done..|cbn [waits]; lia]].
    unfold encs in E. cbn [map concat] in E. destruct (prefix_split _ _ _ _ E H) as (q2 & -> & E2). destruct (IH q2 E2) as (dn & rest & q' & -> & -> & E3 & Wt).
    exists (m :: dn), rest, q'. split_and!; try done. unfold encs. cbn [map concat]. by rewrite app_assoc.
Qed.
Lemma encs_length ms : Forall (fun m => 0 < zlen (enc m)) ms -> Z.of_nat (length ms) <= zlen (encs ms).
Proof. intros F. induction F as [|m ms H F IH]; [done|]. unfold encs in *. cbn [map concat length]. rewrite zlen_app. lia. Qed.

(** A handler is called whenever something has arrived. *)
Context (onMessage : Buffer -> St -> outcome (St * Buffer)).
Fixpoint receive (chunks : list (list byte)) (buf : Buffer) (s : St) : outcome (St * Buffer) :=
  match chunks with
  | [] => Ret (s, buf)
  | d :: chunks =>
      let* buf := append_bytes d buf in
      let* (s, buf) := onMessage buf s in
      receive chunks buf s
  end.
(** It handles the messages that are complete: a state [s] of the program stands for an abstract state [a], on which each message is a [step]. [ok] says up to where the program works, and holds of a
    state if it holds of a later one. *)
Context {Abs : Type} (R : Abs -> St -> Prop) (ok : Abs -> Prop) (good : A -> Prop) (step : Abs -> A -> Abs).
Definition handles : Prop := forall dn rest q more buf a s,
  Forall good (dn ++ rest) -> R a s -> ok (fold_left step dn a) -> wf buf -> content buf = encs dn ++ q -> q ++ more = encs rest -> waits rest q ->
  exists s' buf', onMessage buf s = Ret (s', buf') /\ R (fold_left step dn a) s' /\ wf buf' /\ content buf' = q /\ zlen (buffer_ buf') = zlen (buffer_ buf).
Context (handles_ok : handles) (ok_back : forall a m, ok (step a m) -> ok a).

Lemma ok_before ms a : ok (fold_left step ms a) -> ok a.
Proof. revert a. induction ms as [|m ms IH]; intros a H; [done|]. apply (ok_back a m), IH, H. Qed.
Lemma receive_pieces chunks ms buf a s more :
  Forall good ms -> R a s -> ok (fold_left step ms a) -> wf buf -> content buf ++ concat chunks ++ more = encs ms -> waits ms (content buf) -> zlen (buffer_ buf) + zlen (concat chunks) <= max_size ->
  exists dn rest s' buf', ms = dn ++ rest /\ receive chunks buf s = Ret (s', buf') /\ R (fold_left step dn a) s' /\ wf buf' /\ content buf' ++ more = encs rest /\ waits rest (content buf') /\
    zlen (buffer_ buf') <= zlen (buffer_ buf) + zlen (concat chunks).
Proof.
  revert ms buf a s. induction chunks as [|d chunks IH]; intros ms buf a s G Ra Hk W E Wt L; cbn [receive concat] in *.
  - exists [], ms, s, buf. split_and!; try done. zlia.
  - rewrite zlen_app in L |- *. zlen_pos. destruct (append_bytes_ok d buf W) as (b1 & -> & W1 & C1 & _ & L1); [lia|]. cbn [obind]. rewrite <- app_assoc, app_assoc, <- C1 in E.
    destruct (stream_split _ _ _ E) as (d1 & r1 & q & -> & Eq & Er & Wq). rewrite fold_left_app in Hk. destruct (handles_ok d1 r1 q (concat chunks ++ more) b1 a s G Ra (ok_before _ _ Hk) W1 Eq Er Wq) as (s1 & b2 & -> & R1 & W2 & C2 & S2). cbn [obind].
    apply Forall_app in G as [_ G]. destruct (IH r1 b2 _ s1 G R1 Hk) as (d2 & r2 & s2 & b3 & -> & -> & R2 & W3 & C3 & Wt3 & L3); rewrite ?C2; try done; [lia|].
    exists (d1 ++ d2), r2, s2, b3. rewrite fold_left_app, app_assoc. split_and!; try done. lia.
Qed.
Lemma waits_all ms q : waits ms q -> q = encs ms -> ms = [].
Proof. destruct ms as [|m ms]; [done|]. cbn [waits]. intros H ->. unfold encs in H. cbn [map concat] in H. rewrite zlen_app in H. zlen_pos. lia. Qed.
Lemma waits_nil ms : Forall (fun m => 0 < zlen (enc m)) ms -> waits ms [].
Proof. intros F. destruct ms as [|m ms]; [done|]. by apply Forall_cons in F as [H _]. Qed.
Lemma receive_all chunks ms buf a s :
  Forall good ms -> R a s -> ok (fold_left step ms a) -> Forall (fun m => 0 < zlen (enc m)) ms -> wf buf -> content buf = [] -> concat chunks = encs ms -> zlen (buffer_ buf) + zlen (concat chunks) <= max_size ->
  exists s' buf', receive chunks buf s = Ret (s', buf') /\ R (fold_left step ms a) s' /\ wf buf' /\ content buf' = [] /\ zlen (buffer_ buf') <= zlen (buffer_ buf) + zlen (concat chunks).
Proof.
  intros G Ra Hk P W C E L. destruct (receive_pieces chunks ms buf a s [] G Ra Hk W) as (dn & rest & s' & buf' & -> & Er & R' & W' & C' & Wt & L'); [by rewrite C, app_nil_r|rewrite C; by apply waits_nil|done|].
  rewrite app_nil_r in C'. pose proof (waits_all _ _ Wt C') as ->. rewrite app_nil_r. by exists s', buf'.
Qed.
End Stream.

(** ** Handlers that are loops *)

(** The messages handled so far, as an abstract state *)
Lemma fold_left_snoc {A} (l k : list A) : fold_left (fun a r => a ++ [r]) l k = k ++ l.
Proof. revert k. induction l as [|x l IH]; intros k; cbn [fold_left]; [by rewrite app_nil_r|]. by rewrite IH, <- app_assoc. Qed.

Section Loop.
Context {A St Abs : Type} (enc : A -> list byte) (loop : nat -> Buffer -> St -> outcome (St * Buffer)) (R : Abs -> St -> Prop) (good : A -> Prop) (step : Abs -> A -> Abs).
(** A round takes one message, and the loop ends if there is none. *)
Context (enc_pos : forall m, 0 < zlen (enc m))
  (loop_one : forall fuel buf a s m rest, R a s -> good m -> wf buf -> content buf = enc m ++ rest ->
     exists s' buf', loop (S fuel) buf s = loop fuel buf' s' /\ R (step a m) s' /\ wf buf' /\ content buf' = rest /\ zlen (buffer_ buf') = zlen (buffer_ buf))
  (loop_none : forall fuel buf s ms more, Forall good ms -> wf buf -> content buf ++ more = encs enc ms -> waits enc ms (content buf) -> loop (S fuel) buf s = Ret (s, buf)).
Lemma loop_handles : handles enc (fun buf => loop (S (Z.to_nat (readableBytes buf))) buf) R (fun _ => True) good step.
Proof.
  intros dn rest q more buf a s F Ra _ W C E Wt. assert (length dn < S (Z.to_nat (readableBytes buf)))%nat as Hf.
  { rewrite <- content_len, C, zlen_app by done. assert (Z.of_nat (length dn) <= zlen (encs enc dn)) by (apply encs_length, Forall_true; apply enc_pos). zlia. }
  revert Hf. generalize (S (Z.to_nat (readableBytes buf))). intros fuel. revert fuel buf a s F Ra W C. induction dn as [|m dn IH]; intros fuel buf a s F Ra W C Hf; (destruct fuel as [|fuel]; [cbn in Hf; lia|]).
  - cbn in C. rewrite <- C in E, Wt. rewrite (loop_none fuel buf s rest more) by done. by exists s, buf.
  - cbn [app] in F. apply Forall_cons in F as [Gm F]. unfold encs in C. cbn [map concat] in C. rewrite <- app_assoc in C. destruct (loop_one fuel buf a s m _ Ra Gm W C) as (s1 & b1 & -> & R1 & W1 & C1 & S1).
    destruct (IH fuel b1 _ s1 F R1 W1 C1) as (s2 & b2 & -> & R2 & W2 & C2 & S2); [cbn in Hf; lia|]. exists s2, b2. split_and!; try done. lia.
Qed.
End Loop.

(** ** Other events in between *)

Section Interleaved.
Context {A St X E : Type} (enc : A -> list byte) (onMessage : X -> Buffer -> St -> outcome (St * Buffer)) (other : E -> St -> outcome St).
(** Bytes arrive, with what the handler is told besides them, or something else happens. *)
Inductive Event := Arrive (x : X) (d : list byte) | Other (e : E).
Fixpoint run_events (evs : list Event) (buf : Buffer) (s : St) : outcome (St * Buffer) :=
  match evs with
  | [] => Ret (s, buf)
  | Arrive x d :: evs =>
      let* buf := append_bytes d buf in
      let* (s, buf) := onMessage x buf s in
      run_events evs buf s
  | Other e :: evs =>
      let* s := other e s in
      run_events evs buf s
  end.
Definition arrived (evs : list Event) : list byte := concat (map (fun e => match e with Arrive _ d => d | Other _ => [] end) evs).
Definition other_events (evs : list Event) : list E := concat (map (fun e => match e with Arrive _ _ => [] | Other e => [e] end) evs).
Definition legal_event (legal : X -> Prop) (enabled : E -> Prop) (e : Event) : Prop := match e with Arrive x _ => legal x | Other e => enabled e end.

(** The messages change one part of the abstract state, and the other events another. *)
Lemma run_noted {Abs N : Type} (R : N -> Abs -> St -> Prop) (good : A -> Prop) (step : Abs -> A -> Abs) (note : N -> E -> N) (legal : X -> Prop) (enabled : E -> Prop) evs ms buf a b s more :
  (forall x b, legal x -> handles enc (onMessage x) (R b) (fun _ => True) good step) -> (forall e a b s, enabled e -> R b a s -> exists s', other e s = Ret s' /\ R (note b e) a s') ->
  Forall good ms -> Forall (legal_event legal enabled) evs -> R b a s -> wf buf -> content buf ++ arrived evs ++ more = encs enc ms -> waits enc ms (content buf) -> zlen (buffer_ buf) + zlen (arrived evs) <= max_size ->
  exists dn rest s' buf', ms = dn ++ rest /\ run_events evs buf s = Ret (s', buf') /\ R (fold_left note (other_events evs) b) (fold_left step dn a) s' /\ wf buf' /\ content buf' ++ more = encs enc rest /\ waits enc rest (content buf').
Proof.
  intros handles_ok other_ok G Le Ra W Ec Wt L. revert ms buf a b s G Ra W Ec Wt L. induction Le as [|[x d|e] evs Lx Le IH]; intros ms buf a b s G Ra W Ec Wt L; cbn [run_events].
  - by exists [], ms, s, buf.
  - unfold arrived in Ec, L. cbn [map concat] in Ec, L. fold (arrived evs) in Ec, L. rewrite zlen_app in L. zlen_pos. destruct (append_bytes_ok d buf W) as (b1 & -> & W1 & C1 & _ & L1); [lia|]. cbn [obind]. rewrite <- app_assoc, app_assoc, <- C1 in Ec.
    destruct (stream_split enc _ _ _ Ec) as (d1 & r1 & q & -> & Eq & Er & Wq). destruct (handles_ok x b Lx d1 r1 q (arrived evs ++ more) b1 a s G Ra Logic.I W1 Eq Er Wq) as (s1 & b2 & -> & R1 & W2 & C2 & S2). cbn [obind].
    apply Forall_app in G as [_ G]. destruct (IH r1 b2 _ b s1 G R1) as (d2 & r2 & s2 & b3 & -> & -> & R2 & W3 & C3 & Wt3); rewrite ?C2; try done; [lia|]. exists (d1 ++ d2), r2, s2, b3. rewrite fold_left_app, app_assoc. done.
  - destruct (other_ok e a b s Lx Ra) as (s1 & -> & R1). cbn [obind]. by apply (IH ms buf a (note b e) s1).
Qed.
Lemma run_pieces {Abs : Type} (R : Abs -> St -> Prop) (good : A -> Prop) (step : Abs -> A -> Abs) (legal : X -> Prop) (enabled : E -> Prop) :
  (forall x, legal x -> handles enc (onMessage x) R (fun _ => True) good step) -> (forall e a s, enabled e -> R a s -> exists s', other e s = Ret s' /\ R a s') ->
  forall evs ms buf a s more,
  Forall good ms -> Forall (legal_event legal enabled) evs -> R a s -> wf buf -> content buf ++ arrived evs ++ more = encs enc ms -> waits enc ms (content buf) -> zlen (buffer_ buf) + zlen (arrived evs) <= max_size ->
  exists dn rest s' buf', ms = dn ++ rest /\ run_events evs buf s = Ret (s', buf') /\ R (fold_left step dn a) s' /\ wf buf' /\ content buf' ++ more = encs enc rest /\ waits enc rest (content buf').
Proof. intros Hh Ho evs ms buf a s more. apply (run_noted (fun _ : Datatypes.unit => R) good step (fun b _ => b) legal enabled evs ms buf a tt s more); [intros x _; apply Hh|intros e a0 _; apply Ho]. Qed.
End Interleaved.

(** ** Lengths of four bytes *)

Definition frame32 (p : list byte) : list byte := be_bytes 4 (zlen p) ++ p.
Lemma zlen_frame32 p : zlen (frame32 p) = 4 + zlen p.
Proof. unfold frame32. rewrite zlen_app, zlen_be_bytes. lia. Qed.
(** The length is there as soon as there are four bytes, also of a frame that is not complete. *)
Lemma frame_header buf p more tail : content buf ++ more = frame32 p ++ tail -> 4 <= zlen (content buf) -> exists rest, content buf = be_bytes 4 (zlen p) ++ rest.
Proof.
  intros E L. unfold frame32 in E. rewrite <- app_assoc in E. destruct (prefix_split _ _ _ _ E) as (q & -> & _); [rewrite zlen_be_bytes; lia|]. by exists q.
Qed.
