(* ===== verification/ProtoCodec.v ===== *)
(** * Protocol buffer messages with their type names (src/muduo/examples/protobuf/codec/)

    [ProtobufCodec] (codec.h, codec.cc) writes the name of the type before a message, so that the receiver can create the message it parses;
    [ProtobufDispatcher] and [ProtobufDispatcherLite] (dispatcher.h, dispatcher_lite.h) pass it to the callback that is registered for its type. Protocol buffer messages and zlib's [adler32] are parameters. *)

From S2P Require Import Prelude Endian StringPiece Buffer Conn Lines Codec Framing.

Module ProtobufCodec.

Definition kHeaderLen : Z := 4.
Definition kMinMessageLen : Z := 2 * kHeaderLen + 2.
Definition kMaxMessageLen : Z := 64 * 1024 * 1024.

Inductive ErrorCode := kNoError | kInvalidLength | kCheckSumError | kInvalidNameLen | kUnknownMessageType | kParseError.
Definition errorCodeToString (e : ErrorCode) : string :=
  match e with
  | kNoError => "NoError"
  | kInvalidLength => "InvalidLength"
  | kCheckSumError => "CheckSumError"
  | kInvalidNameLen => "InvalidNameLen"
  | kUnknownMessageType => "UnknownMessageType"
  | kParseError => "ParseError"
  end.
(** [defaultErrorCallback]; a connection that is not there is [None]. *)
Definition defaultErrorCallback (conn : option Conn) : option Conn :=
  match conn with
  | Some c => if connected_ c then Some (conn_shutdown c) else conn
  | None => None
  end.

Section Codec.
Context {message descriptor prototype : Type}.
Context (GetTypeName : message -> list byte) (IsInitialized : message -> bool) (ByteSize : message -> Z) (SerializeToArray : message -> list byte)
  (FindMessageTypeByName : list byte -> option descriptor) (GetPrototype : descriptor -> option prototype) (ParseFromArray : prototype -> list byte -> option message)
  (adler32 : list byte -> Z) (host : endian).

Definition asInt32 (buf : list byte) : outcome Z :=
  let* m := load 4 buf in Ret (i32 (networkToHost32 host (u32 (i32 (int_of_mem host m))))).

(** A new message is known by the prototype it was made from. *)
Definition createMessage (typeName : list byte) : option prototype :=
  match FindMessageTypeByName typeName with
  | Some d => GetPrototype d
  | None => None
  end.

(** [parse]: the error, and the message if there is no error *)
Definition parse (buf : list byte) (len : Z) : outcome (ErrorCode * option message) :=
  let* expectedCheckSum := asInt32 (zdrop (len - kHeaderLen) buf) in
  let* d := load (i32 (len - kHeaderLen)) buf in
  let checkSum := i32 (adler32 d) in
  if decide (checkSum = expectedCheckSum) then
    let* nameLen := asInt32 buf in
    if decide (nameLen >= 2 /\ nameLen <= len - 2 * kHeaderLen) then
      let* typeName := load (nameLen - 1) (zdrop kHeaderLen buf) in
      match createMessage typeName with
      | Some p =>
          let dataLen := i32 (len - nameLen - 2 * kHeaderLen) in
          let* data := load dataLen (zdrop (kHeaderLen + nameLen) buf) in
          match ParseFromArray p data with
          | Some m => Ret (kNoError, Some m)
          | None => Ret (kParseError, None)
          end
      | None => Ret (kUnknownMessageType, None)
      end
    else Ret (kInvalidNameLen, None)
  else Ret (kCheckSumError, None).

Definition fillEmptyBuffer (m : message) (buf : Buffer) : outcome Buffer :=
  assert* bool_decide (readableBytes buf = 0) in
  let typeName := GetTypeName m in
  let nameLen := i32 (zlen typeName + 1) in
  let* buf := appendInt32 host nameLen buf in
  let* buf := append (typeName ++ [Byte.x00]) (u64 nameLen) buf in
  if IsInitialized m then
    let byte_size := ByteSize m in
    let* buf := ensureWritableBytes (u64 byte_size) buf in
    let* buf := write_at_end (SerializeToArray m) buf in
    if decide (zlen (SerializeToArray m) = byte_size) then
      let* buf := hasWritten (u64 byte_size) buf in
      let* d := load (i32 (readableBytes buf)) (zdrop (peek buf) (buffer_ buf)) in
      let checkSum := i32 (adler32 d) in
      let* buf := appendInt32 host checkSum buf in
      assert* bool_decide (readableBytes buf = u64 (4 + nameLen + byte_size + 4)) in
      let len := i32 (hostToNetwork32 host (u32 (i32 (readableBytes buf)))) in
      prepend (int_to_mem host 4 len) 4 buf
    else Stop LogFatal
  else Stop LogFatal.

(** [send]: what [conn->send(&buf)] is given *)
Definition send (m : message) (conn : Conn) : outcome Conn :=
  let* buf := newBuffer kInitialSize in
  let* buf := fillEmptyBuffer m buf in
  Ret (conn_send_buffer buf conn).1.

(** The callbacks work on a state [St]. *)
Context {St : Type} (messageCallback : message -> St -> outcome St) (errorCallback : ErrorCode -> St -> St).
Fixpoint onMessage_loop (fuel : nat) (buf : Buffer) (s : St) : outcome (St * Buffer) :=
  match fuel with
  | O => Stop NoFuel
  | S fuel =>
      if decide (readableBytes buf >= kMinMessageLen + kHeaderLen) then
        let* len := peekInt32 host buf in
        if decide (len > kMaxMessageLen \/ len < kMinMessageLen) then Ret (errorCallback kInvalidLength s, buf)
        else if decide (readableBytes buf >= u64 (len + kHeaderLen)) then
          let* (errorCode, msg) := parse (zdrop (peek buf + kHeaderLen) (buffer_ buf)) len in
          match errorCode, msg with
          | kNoError, Some m =>
              let* s := messageCallback m s in
              let* buf := retrieve (u64 (kHeaderLen + len)) buf in
              onMessage_loop fuel buf s
          | _, _ => Ret (errorCallback errorCode s, buf)
          end
        else Ret (s, buf)
      else Ret (s, buf)
  end.
(** Every message has a byte. *)
Definition onMessage (buf : Buffer) (s : St) : outcome (St * Buffer) := onMessage_loop (S (Z.to_nat (readableBytes buf))) buf s.

(** ** The format *)

Definition body (m : message) : list byte := be_bytes 4 (zlen (GetTypeName m) + 1) ++ (GetTypeName m ++ [Byte.x00]) ++ SerializeToArray m.
Definition payload (m : message) : list byte := body m ++ be_bytes 4 (adler32 (body m)).
Definition frame (m : message) : list byte := frame32 (payload m).
(** Messages that can be sent, of types the receiver knows *)
Record fits (m : message) : Prop := mkFits {
  f_init : IsInitialized m = true;
  f_size : ByteSize m = zlen (SerializeToArray m);
  f_len : zlen (payload m) <= kMaxMessageLen;
  f_name : GetTypeName m <> [];
  f_known : exists p, createMessage (GetTypeName m) = Some p /\ ParseFromArray p (SerializeToArray m) = Some m }.

Lemma zlen_body m : zlen (body m) = 4 + zlen (GetTypeName m) + 1 + zlen (SerializeToArray m).
Proof. unfold body. rewrite !zlen_app, zlen_be_bytes. change (zlen [Byte.x00]) with 1. lia. Qed.
Lemma zlen_payload m : zlen (payload m) = 9 + zlen (GetTypeName m) + zlen (SerializeToArray m).
Proof. unfold payload. rewrite zlen_app, zlen_body, zlen_be_bytes. lia. Qed.
Lemma name_pos m : fits m -> 1 <= zlen (GetTypeName m).
Proof. intros F. pose proof (f_name m F). destruct (GetTypeName m); [done|]. rewrite zlen_cons. zlia. Qed.
Lemma asInt32_be x rest : asInt32 (be_bytes 4 x ++ rest) = Ret (i32 x).
Proof.
  unfold asInt32. rewrite load_ok by zlia. cbn [obind]. rewrite ztake_app_l, ztake_all by zlia. f_equal. by apply (swrap_be 4).
Qed.

Lemma parse_payload m rest : fits m -> parse (payload m ++ rest) (zlen (payload m)) = Ret (kNoError, Some m).
Proof.
  intros F. pose proof (name_pos m F) as Np. pose proof (f_len m F) as Lm. pose proof (zlen_payload m) as Lp. pose proof (zlen_body m) as Lb. unfold kMaxMessageLen in Lm. zlen_pos. destruct (f_known m F) as (p & Ep & Ed). unfold parse, kHeaderLen.
  replace (zlen (payload m) - 4) with (zlen (body m)) by lia. unfold payload. rewrite <- app_assoc, zdrop_app_r, Z.sub_diag, zdrop_0, asInt32_be by lia. cbn [obind].
  rewrite swrap_small by lia. rewrite load_ok by (rewrite !zlen_app; zlia). cbn [obind]. rewrite ztake_app_l, ztake_all by lia. rewrite decide_True by done.
  replace (zlen (body m ++ be_bytes 4 (adler32 (body m)))) with (zlen (payload m)) by done. set (tl := be_bytes 4 (adler32 (body m)) ++ rest). unfold body. rewrite <- !app_assoc, asInt32_be. cbn [obind].
  rewrite swrap_small by lia. rewrite decide_True by lia. rewrite (zdrop_app_r 4) by (rewrite zlen_be_bytes; lia). rewrite zlen_be_bytes, zdrop_0 by lia. rewrite load_ok by (rewrite !zlen_app; zlia). cbn [obind].
  replace (zlen (GetTypeName m) + 1 - 1) with (zlen (GetTypeName m)) by lia. rewrite ztake_app_l, ztake_all by lia. rewrite Ep.
  assert (i32 (zlen (payload m) - (zlen (GetTypeName m) + 1) - 2 * 4) = zlen (SerializeToArray m)) as -> by (rewrite swrap_small; lia).
  assert (zdrop (4 + (zlen (GetTypeName m) + 1)) (be_bytes 4 (zlen (GetTypeName m) + 1) ++ GetTypeName m ++ [Byte.x00] ++ SerializeToArray m ++ tl) = SerializeToArray m ++ tl) as ->.
  { replace (be_bytes 4 (zlen (GetTypeName m) + 1) ++ GetTypeName m ++ [Byte.x00] ++ SerializeToArray m ++ tl) with ((be_bytes 4 (zlen (GetTypeName m) + 1) ++ GetTypeName m ++ [Byte.x00]) ++ SerializeToArray m ++ tl) by (by rewrite <- !app_assoc).
    rewrite zdrop_app_r by (rewrite !zlen_app, zlen_be_bytes; change (zlen [Byte.x00]) with 1; lia). apply zdrop_0. rewrite !zlen_app, zlen_be_bytes. change (zlen [Byte.x00]) with 1. lia. }
  rewrite load_ok by (rewrite zlen_app; zlia). cbn [obind]. rewrite ztake_app_l, ztake_all by lia. by rewrite Ed.
Qed.

(** ** Receiving *)

Lemma frame_pos m : 0 < zlen (frame m).
Proof. unfold frame. rewrite zlen_frame32. zlia. Qed.
Lemma proto_loop_frame fuel buf s m rest : fits m -> wf buf -> content buf = frame m ++ rest ->
  exists buf', wf buf' /\ content buf' = rest /\ zlen (buffer_ buf') = zlen (buffer_ buf) /\
    onMessage_loop (S fuel) buf s = (let* s := messageCallback m s in onMessage_loop fuel buf' s).
Proof.
  intros F W C. pose proof (f_len m F) as Lm. pose proof (zlen_payload m) as Lp. pose proof (name_pos m F) as Np. unfold kMaxMessageLen in Lm. pose proof (content_len buf W) as L. pose proof L as L0. rewrite C in L. unfold frame in L. rewrite zlen_app, zlen_frame32 in L. zlen_pos.
  destruct (retrieve_ok (4 + zlen (payload m)) buf W) as (b' & R & W' & C' & L'); [lia|]. exists b'. split; [done|].
  assert (zlen (frame m) = 4 + zlen (payload m)) as Lf by apply zlen_frame32. split; [rewrite C', C, zdrop_app_r by lia; apply zdrop_0; lia|]. split; [done|].
  cbn [onMessage_loop]. unfold kMinMessageLen, kHeaderLen. rewrite decide_True by lia. unfold frame, frame32 in C. rewrite <- app_assoc in C. rewrite (peekInt32_ok host buf _ _ W C). cbn [obind]. rewrite swrap_small by lia.
  rewrite decide_False by (unfold kMaxMessageLen; lia). rewrite wrap_small, decide_True by lia. destruct (Codec.zdrop_header buf W) as (q' & Eq); [unfold Codec.kHeaderLen; lia|]. unfold Codec.kHeaderLen in Eq. rewrite Eq.
  rewrite C, zdrop_app_r by (rewrite zlen_be_bytes; lia). rewrite zlen_be_bytes, zdrop_0 by lia. rewrite <- app_assoc, parse_payload by done. cbn [obind]. rewrite wrap_small, R by lia. done.
Qed.
Lemma loop_waits fuel buf s ms more : Forall fits ms -> wf buf -> content buf ++ more = encs frame ms -> waits frame ms (content buf) -> onMessage_loop (S fuel) buf s = Ret (s, buf).
Proof.
  intros F W E Wt. cbn [onMessage_loop]. pose proof (content_len buf W) as L. unfold kMinMessageLen, kHeaderLen. case_decide as D; [|done]. destruct ms as [|m ms]; cbn [waits] in Wt; [rewrite Wt, zlen_nil in L; lia|].
  apply Forall_cons in F as [F _]. unfold encs in E. cbn [map concat] in E. unfold frame in E, Wt. rewrite zlen_frame32 in Wt. destruct (frame_header buf (payload m) more _ E) as (r & C); [lia|]. rewrite (peekInt32_ok host buf _ _ W C). cbn [obind].
  pose proof (f_len m F) as Lm. pose proof (zlen_payload m) as Lp. pose proof (name_pos m F) as Np. unfold kMaxMessageLen in *. zlen_pos. rewrite swrap_small by lia. rewrite decide_False by lia. rewrite wrap_small, decide_False by lia. done.
Qed.
Context (step : St -> message -> St) (callback_ok : forall m s, fits m -> messageCallback m s = Ret (step s m)).
Lemma onMessage_handles : handles frame onMessage eq (fun _ => True) fits step.
Proof.
  apply (loop_handles frame onMessage_loop); [apply frame_pos| |intros; by eapply loop_waits]. intros fuel buf a s m rest <- F W C. destruct (proto_loop_frame fuel buf a m rest F W C) as (b & W' & C' & S' & ->). rewrite callback_ok by done. by exists (step a m), b.
Qed.

(** ** Sending *)

Lemma appendInt32_at x b : wf b -> zlen (buffer_ b) + 4 <= max_size ->
  exists b', appendInt32 host x b = Ret b' /\ wf b' /\ content b' = content b ++ be_bytes 4 x /\ Z.min kCheapPrepend (readerIndex_ b) <= readerIndex_ b' /\ zlen (buffer_ b') <= zlen (buffer_ b) + 4.
Proof.
  intros W L. unfold appendInt32. destruct (network_mem host x) as (_ & -> & _). destruct (append_ok (be_bytes 4 x) 4 b W) as (b' & -> & W' & C' & R' & L'); [zlia|done|].
  exists b'. rewrite ztake_all in C' by zlia. split_and!; try done. lia.
Qed.
(** The bytes of the message, at the end of the buffer *)
Lemma write_message d b : wf b -> zlen (buffer_ b) + zlen d <= max_size ->
  exists b1 b2 b3, ensureWritableBytes (u64 (zlen d)) b = Ret b1 /\ write_at_end d b1 = Ret b2 /\ hasWritten (u64 (zlen d)) b2 = Ret b3 /\ wf b3 /\ content b3 = content b ++ d /\
    Z.min kCheapPrepend (readerIndex_ b) <= readerIndex_ b3 /\ zlen (buffer_ b3) <= zlen (buffer_ b) + zlen d.
Proof.
  intros W L. zlen_pos. unfold max_size in L. rewrite wrap_small by lia. destruct (ensureWritableBytes_ok (zlen d) b) as (b1 & E1 & W1 & C1 & G1 & R1 & L1); [done|lia|unfold max_size; lia|].
  destruct (write_at_end_ok d b1) as (b2 & E2 & W2 & L2 & R2 & Wi2 & p & q & E & Hp); [done|lia|]. exists b1, b2. pose proof (writable_ok b1 W1). pose proof (writable_ok b2 W2). pose proof (readable_ok b1 W1). pose proof (readable_ok b2 W2).
  destruct (advance_ok b2 p (content b1) d q (zlen d)) as [W3 C3]; try done; [lia|rewrite content_len by done; lia|].
  eexists. split; [done|]. split; [done|]. unfold hasWritten. rewrite check_true by (apply bool_decide_eq_true; lia). rewrite wrap_small by buf_lia. split; [done|]. split; [done|]. rewrite C3, C1. split_and!; try done; cbn; lia.
Qed.
Lemma proto_fillEmptyBuffer_ok m b : fits m -> wf b -> content b = [] -> kCheapPrepend <= readerIndex_ b -> zlen (buffer_ b) <= 2 ^ 20 -> exists b', fillEmptyBuffer m b = Ret b' /\ wf b' /\ content b' = frame m.
Proof.
  intros F W C R L. pose proof (f_len m F) as Lm. pose proof (zlen_payload m) as Lp. pose proof (zlen_body m) as Lb. unfold kMaxMessageLen, kCheapPrepend in *. zlen_pos. unfold fillEmptyBuffer.
  rewrite check_true by (apply bool_decide_eq_true; by rewrite <- content_len, C by done). rewrite swrap_small by lia.
  destruct (appendInt32_at (zlen (GetTypeName m) + 1) b W) as (b1 & -> & W1 & C1 & R1 & L1); [unfold max_size; lia|]. cbn [obind]. rewrite wrap_small by lia.
  destruct (append_ok (GetTypeName m ++ [Byte.x00]) (zlen (GetTypeName m) + 1) b1 W1) as (b2 & -> & W2 & C2 & R2 & L2); [rewrite zlen_app; change (zlen [Byte.x00]) with 1; lia|unfold max_size; lia|]. cbn [obind].
  rewrite ztake_all in C2 by (rewrite zlen_app; change (zlen [Byte.x00]) with 1; lia). rewrite (f_init m F), (f_size m F).
  destruct (write_message (SerializeToArray m) b2 W2) as (b3 & b4 & b5 & -> & E4 & E5 & W5 & C5 & R5 & L5); [unfold max_size; lia|]. cbn [obind]. rewrite E4. cbn [obind]. rewrite decide_True by done. rewrite E5. cbn [obind].
  assert (content b5 = body m) as Cb by (rewrite C5, C2, C1, C; unfold body; by rewrite <- !app_assoc). pose proof (content_len b5 W5) as Lc. rewrite Cb in Lc.
  destruct (zdrop_peek b5 W5) as (q & ->). rewrite <- Lc, swrap_small by lia. rewrite load_ok, Cb, ztake_app_l, ztake_all by (rewrite ?Cb; zlia). cbn [obind].
  unfold kCheapPrepend in *. destruct (appendInt32_at (i32 (adler32 (body m))) b5 W5) as (b6 & -> & W6 & C6 & R6 & L6); [unfold max_size; lia|]. cbn [obind]. rewrite Codec.be_bytes_i32, Cb in C6. change (body m ++ _) with (payload m) in C6.
  pose proof (content_len b6 W6) as Lc6. rewrite C6 in Lc6. rewrite (wrap_small 64) by lia. rewrite check_true by (apply bool_decide_eq_true; lia). rewrite <- Lc6, (swrap_small 32 (zlen (payload m))) by lia.
  destruct (network_mem host (zlen (payload m))) as (_ & -> & _). destruct (prepend_ok (be_bytes 4 (zlen (payload m))) 4 b6 W6) as (b7 & -> & W7 & C7 & _); [zlia|unfold prependableBytes, kCheapPrepend in *; lia|].
  exists b7. split_and!; [done|done|]. rewrite C7, ztake_all, C6 by zlia. done.
Qed.
Lemma proto_send_ok m conn : fits m -> connected_ conn = true -> send m conn = Ret (conn_write (frame m) conn).
Proof.
  intros F Hc. unfold send. destruct (newBuffer_ok kInitialSize) as (b & -> & W & C & _ & R & L); [done|]. cbn [obind].
  destruct (proto_fillEmptyBuffer_ok m b) as (b' & -> & _ & C'); [done|done|done|lia|rewrite L; by vm_compute|]. cbn [obind]. unfold conn_send_buffer. rewrite Hc. cbn [fst]. by rewrite C'.
Qed.

(** ** Arbitrary input *)

Lemma asInt32_any l : 4 <= zlen l -> exists x, asInt32 l = Ret x.
Proof. intros H. unfold asInt32. rewrite load_ok by lia. by eexists. Qed.
(** [parse] reads nothing outside the bytes it is given. *)
Lemma parse_any buf len : kMinMessageLen <= len <= kMaxMessageLen -> len <= zlen buf -> exists r, parse buf len = Ret r.
Proof.
  unfold kMinMessageLen, kMaxMessageLen, kHeaderLen. intros H L. unfold parse, kHeaderLen. destruct (asInt32_any (zdrop (len - 4) buf)) as (x & ->); [rewrite zlen_zdrop by lia; lia|]. cbn [obind].
  rewrite swrap_small by lia. rewrite load_ok by lia. cbn [obind]. case_decide; [|by eexists]. destruct (asInt32_any buf) as (n & ->); [lia|]. cbn [obind]. case_decide as D; [|by eexists].
  rewrite load_ok by (rewrite zlen_zdrop by lia; lia). cbn [obind]. destruct (createMessage _) as [p|]; [|by eexists]. rewrite swrap_small by lia. rewrite load_ok by (rewrite zlen_zdrop by lia; lia). cbn [obind]. destruct (ParseFromArray _ _); by eexists.
Qed.
Lemma onMessage_any : (forall m s, exists s', messageCallback m s = Ret s') -> forall buf s, wf buf ->
  exists s' buf', onMessage buf s = Ret (s', buf') /\ wf buf' /\ content buf' `suffix_of` content buf.
Proof.
  intros Cb buf s W. unfold onMessage. assert (zlen (content buf) < Z.of_nat (S (Z.to_nat (readableBytes buf)))) as Hf by (rewrite content_len by done; lia).
  revert Hf W s. generalize (S (Z.to_nat (readableBytes buf))). intros fuel. revert buf. induction fuel as [|fuel IH]; intros buf Hf W s; [zlen_pos; lia|]. cbn [onMessage_loop].
  pose proof (content_len buf W) as L. assert (forall s : St, exists s' buf', Ret (s, buf) = Ret (s', buf') /\ wf buf' /\ content buf' `suffix_of` content buf) as Stay by (intros s0; exists s0, buf; split_and!; [done|done|by exists []]).
  unfold kMinMessageLen at 1, kHeaderLen at 1 2. case_decide as D; [|apply Stay]. destruct (Codec.peekInt32_some host buf W) as (len & ->); [lia|]. cbn [obind]. case_decide as D2; [apply Stay|].
  unfold kMinMessageLen, kMaxMessageLen, kHeaderLen in *. rewrite wrap_small by lia. case_decide as D3; [|apply Stay]. destruct (Codec.zdrop_header buf W) as (q & Eq); [unfold Codec.kHeaderLen; lia|]. unfold Codec.kHeaderLen in Eq. rewrite Eq.
  destruct (parse_any (zdrop 4 (content buf) ++ q) len) as ([ec m] & ->); [unfold kMinMessageLen, kMaxMessageLen, kHeaderLen; lia|rewrite zlen_app, zlen_zdrop by lia; zlia|]. cbn [obind].
  destruct ec, m as [m|]; try apply Stay. destruct (Cb m s) as (s1 & ->). cbn [obind]. rewrite wrap_small by lia. destruct (retrieve_ok (4 + len) buf W) as (b' & -> & W' & C' & _); [lia|]. cbn [obind].
  assert (zlen (content b') = zlen (content buf) - (4 + len)) as Lc by (rewrite C', zlen_zdrop by lia; lia). destruct (IH b' ltac:(lia) W' s1) as (s2 & b2 & -> & W2 & Sf). exists s2, b2. split_and!; try done. etrans; [exact Sf|]. rewrite C'.
  exists (ztake (4 + len) (content buf)). by rewrite ztake_zdrop.
Qed.
End Codec.
End ProtobufCodec.

(** ** Dispatchers *)

Section Dispatch.
Context {message : Type} `{Countable descriptor} (GetDescriptor : message -> descriptor) {St : Type}.

(** [CallbackT<T>]: the type and the function; [down_pointer_cast] asserts that the message has the type. *)
Record CallbackT := mkCallback { cb_type : descriptor; callback_ : message -> St -> St }.
Definition callback_onMessage (c : CallbackT) (m : message) (s : St) : outcome St :=
  assert* bool_decide (GetDescriptor m = cb_type c) in Ret (callback_ c m s).
Record ProtobufDispatcher := mkDispatcher { callbacks_ : gmap descriptor CallbackT; defaultCallback_ : message -> St -> St }.
Definition newDispatcher (defaultCb : message -> St -> St) : ProtobufDispatcher := mkDispatcher ∅ defaultCb.
Definition onProtobufMessage (d : ProtobufDispatcher) (m : message) (s : St) : outcome St :=
  match callbacks_ d !! GetDescriptor m with
  | Some c => callback_onMessage c m s
  | None => Ret (defaultCallback_ d m s)
  end.
Definition registerMessageCallback (T : descriptor) (callback : message -> St -> St) (d : ProtobufDispatcher) : ProtobufDispatcher :=
  mkDispatcher (<[T := mkCallback T callback]> (callbacks_ d)) (defaultCallback_ d).

Record ProtobufDispatcherLite := mkLite { lite_callbacks_ : gmap descriptor (message -> St -> St); lite_defaultCallback_ : message -> St -> St }.
Definition newDispatcherLite (defaultCb : message -> St -> St) : ProtobufDispatcherLite := mkLite ∅ defaultCb.
Definition lite_onProtobufMessage (d : ProtobufDispatcherLite) (m : message) (s : St) : St :=
  match lite_callbacks_ d !! GetDescriptor m with
  | Some c => c m s
  | None => lite_defaultCallback_ d m s
  end.
Definition lite_registerMessageCallback (desc : descriptor) (callback : message -> St -> St) (d : ProtobufDispatcherLite) : ProtobufDispatcherLite :=
  mkLite (<[desc := callback]> (lite_callbacks_ d)) (lite_defaultCallback_ d).

(** The callback that was registered last for a type, or the default *)
Definition chosen (regs : list (descriptor * (message -> St -> St))) (defaultCb : message -> St -> St) (m : message) : message -> St -> St :=
  fold_left (fun f r => if decide (r.1 = GetDescriptor m) then r.2 else f) regs defaultCb.
Definition register_all (regs : list (descriptor * (message -> St -> St))) (d : ProtobufDispatcher) : ProtobufDispatcher := fold_left (fun d r => registerMessageCallback r.1 r.2 d) regs d.
Definition lite_register_all (regs : list (descriptor * (message -> St -> St))) (d : ProtobufDispatcherLite) : ProtobufDispatcherLite := fold_left (fun d r => lite_registerMessageCallback r.1 r.2 d) regs d.

Lemma dispatch_ok regs d m s : map_Forall (fun T c => cb_type c = T) (callbacks_ d) ->
  onProtobufMessage (register_all regs d) m s = Ret (chosen regs (match callbacks_ d !! GetDescriptor m with Some c => callback_ c | None => defaultCallback_ d end) m m s).
Proof.
  unfold register_all, chosen. revert d. induction regs as [|[T f] regs IH]; intros d Ty; cbn [fold_left].
  - unfold onProtobufMessage. destruct (callbacks_ d !! GetDescriptor m) as [c|] eqn:E; [|done]. unfold callback_onMessage. by rewrite bool_decide_true by (symmetry; apply (Ty _ _ E)).
  - rewrite IH by (by apply map_Forall_insert_2). f_equal. cbn [registerMessageCallback callbacks_ defaultCallback_ fst snd]. destruct (decide (T = GetDescriptor m)) as [->|Ne]; [by rewrite lookup_insert_eq|by rewrite lookup_insert_ne].
Qed.
Lemma lite_dispatch_ok regs d m s :
  lite_onProtobufMessage (lite_register_all regs d) m s = chosen regs (match lite_callbacks_ d !! GetDescriptor m with Some c => c | None => lite_defaultCallback_ d end) m m s.
Proof.
  unfold lite_register_all, chosen. revert d. induction regs as [|[T f] regs IH]; intros d; cbn [fold_left].
  - unfold lite_onProtobufMessage. by destruct (lite_callbacks_ d !! GetDescriptor m).
  - rewrite IH. cbn [lite_registerMessageCallback lite_callbacks_ lite_defaultCallback_ fst snd]. destruct (decide (T = GetDescriptor m)) as [->|Ne]; [by rewrite lookup_insert_eq|by rewrite lookup_insert_ne].
Qed.
(** Both dispatchers do the same with the same registrations. *)
Lemma dispatchers_agree regs defaultCb m s :
  onProtobufMessage (register_all regs (newDispatcher defaultCb)) m s = Ret (lite_onProtobufMessage (lite_register_all regs (newDispatcherLite defaultCb)) m s).
Proof. rewrite dispatch_ok by (by apply map_Forall_empty). by rewrite lite_dispatch_ok. Qed.
End Dispatch.

(** ** Messages reach their callbacks *)

(** C20. What [ProtobufCodec::send] writes for any messages, cut into pieces anywhere, makes [onMessage] of the receiver call, through [ProtobufDispatcher], for each message exactly once and in order the callback that
    was registered last for its type, or the default one; no error is reported, no assertion fails and nothing is left. Sender and receiver may have different byte orders. *)
Theorem protobuf_dispatched {message : Type} `{Countable descriptor} {prototype St : Type}
    (GetTypeName : message -> list byte) (IsInitialized : message -> bool) (ByteSize : message -> Z) (Serialize : message -> list byte)
    (FindType : list byte -> option descriptor) (GetPrototype : descriptor -> option prototype) (Parse : prototype -> list byte -> option message) (GetDescriptor : message -> descriptor)
    (adler32 : list byte -> Z) (sender receiver : endian) (regs : list (descriptor * (message -> St -> St))) (defaultCb : message -> St -> St) (errorCb : ProtobufCodec.ErrorCode -> St -> St)
    (ms : list message) (conn : Conn) (chunks : list (list byte)) (buf : Buffer) (s : St) :
  Forall (ProtobufCodec.fits GetTypeName IsInitialized ByteSize Serialize FindType GetPrototype Parse adler32) ms ->
  connected_ conn = true -> sent_ conn = [] -> wf buf -> content buf = [] -> zlen (buffer_ buf) + zlen (concat chunks) <= max_size ->
  exists conn', fold_left (fun c m => let* c := c in ProtobufCodec.send GetTypeName IsInitialized ByteSize Serialize adler32 sender m c) ms (Ret conn) = Ret conn' /\
    (concat chunks = sent_ conn' ->
     exists buf', receive (ProtobufCodec.onMessage FindType GetPrototype Parse adler32 receiver (onProtobufMessage GetDescriptor (register_all regs (newDispatcher defaultCb))) errorCb) chunks buf s =
         Ret (fold_left (fun s m => chosen GetDescriptor regs defaultCb m m s) ms s, buf') /\ content buf' = []).
Proof.
  intros F Hc Hs W C L. set (fr := ProtobufCodec.frame GetTypeName Serialize adler32).
  assert (fold_left (fun c m => let* c := c in ProtobufCodec.send GetTypeName IsInitialized ByteSize Serialize adler32 sender m c) ms (Ret conn) = Ret (mkConn (sent_ conn ++ encs fr ms) true)) as ->.
  { clear Hs C L. revert conn Hc. induction F as [|m ms Fm F IH]; intros conn Hc; cbn [fold_left obind]; [destruct conn as [o c]; cbn in *; subst c; by rewrite app_nil_r|].
    rewrite (ProtobufCodec.proto_send_ok _ _ _ _ FindType GetPrototype Parse) by done. unfold conn_write. rewrite Hc, IH by done. cbn [sent_]. unfold encs. cbn [map concat]. by rewrite app_assoc. }
  eexists. split; [done|]. cbn [sent_]. rewrite Hs, app_nil_l. intros E.
  destruct (receive_all fr (ProtobufCodec.onMessage FindType GetPrototype Parse adler32 receiver (onProtobufMessage GetDescriptor (register_all regs (newDispatcher defaultCb))) errorCb)
    eq (fun _ => True) (ProtobufCodec.fits GetTypeName IsInitialized ByteSize Serialize FindType GetPrototype Parse adler32) (fun s m => chosen GetDescriptor regs defaultCb m m s)) with (chunks := chunks) (ms := ms) (buf := buf) (a := s) (s := s)
    as (s' & buf' & E' & Es & _ & C' & _); try done; [|apply Forall_true; apply ProtobufCodec.frame_pos|exists buf'; by subst s'].
  apply ProtobufCodec.onMessage_handles. intros m s' _. rewrite dispatch_ok by (by apply map_Forall_empty). done.
Qed.

(** Two types of messages, a callback for one of them, and everything in three pieces *)
Definition toy_type (m : bool * list byte) : list byte := if m.1 then bytes "Query" else bytes "Answer".
Definition toy_find (n : list byte) : option bool := if decide (n = bytes "Query") then Some true else if decide (n = bytes "Answer") then Some false else None.
Definition toy_stream : list byte := encs (ProtobufCodec.frame toy_type snd zlen) [(true, bytes "x"); (false, bytes "yz"); (true, [])].
Lemma protobuf_dispatched_witness :
  exists conn', fold_left (fun c m => let* c := c in ProtobufCodec.send toy_type (fun _ => true) (fun m => zlen m.2) snd zlen LittleEndian m c) [(true, bytes "x"); (false, bytes "yz"); (true, [])] (Ret newConn) = Ret conn' /\
    (concat [ztake 9 toy_stream; ztake 30 (zdrop 9 toy_stream); zdrop 39 toy_stream] = sent_ conn' ->
     exists buf', receive (ProtobufCodec.onMessage toy_find Some (fun p d => Some (p, d)) zlen BigEndian
         (onProtobufMessage fst (register_all [(true, fun m l => l ++ [m])] (newDispatcher (fun _ l => l ++ [(false, [])])))) (fun _ l => l)) [ztake 9 toy_stream; ztake 30 (zdrop 9 toy_stream); zdrop 39 toy_stream] (sample_buffer []) [] =
       Ret ([(true, bytes "x"); (false, []); (true, [])], buf') /\ content buf' = []).
Proof.
  destruct (protobuf_dispatched toy_type (fun _ => true) (fun m => zlen m.2) snd toy_find Some (fun p d => Some (p, d)) fst zlen LittleEndian BigEndian [(true, fun m l => l ++ [m])] (fun _ l => l ++ [(false, [])]) (fun _ l => l)
    [(true, bytes "x"); (false, bytes "yz"); (true, [])] newConn [ztake 9 toy_stream; ztake 30 (zdrop 9 toy_stream); zdrop 39 toy_stream] (sample_buffer []) []) as (conn' & E & R).
  - repeat apply Forall_cons_2; try apply Forall_nil_2; (split; [reflexivity|reflexivity|by vm_compute|discriminate|eexists; split; [vm_compute; reflexivity|reflexivity]]).
  - reflexivity.
  - reflexivity.
  - by vm_compute.
  - reflexivity.
  - by vm_compute.
  - exists conn'. split; [exact E|exact R].
Defined.
