(* ===== verification/FastCgi.v ===== *)
(** * FastCGI (src/muduo/examples/fastcgi/fastcgi.h, fastcgi.cc)

    [FastCgiCodec] reads the records of a web server: the parameters and the body of a request come in pieces, each piece a record with padding. The file
    shows that the callback gets exactly the parameters and the body, however the records and the bytes are cut, and what [respond] writes. *)

From S2P Require Import Prelude Endian StringPiece Buffer Conn Lines Codec Framing.

Module FastCgi.

(** ** Records *)

Definition kRecordHeader : Z := 8.
Definition kFcgiBeginRequest : Z := 1.
Definition kFcgiEndRequest : Z := 3.
Definition kFcgiParams : Z := 4.
Definition kFcgiStdin : Z := 5.
Definition kFcgiStdout : Z := 6.
Definition kFcgiResponder : Z := 1.
Definition kFcgiKeepConn : Z := 1.

(** [RecordHeader] as it is in memory: two bytes, two 16 bit integers, two bytes *)
Record RecordHeader := mkHeader { version : Z; rtype : Z; rid : Z; rlength : Z; padding : Z; unused : Z }.

Section Codec.
Context (host : endian).

Definition header_of_mem (m : list byte) : RecordHeader :=
  mkHeader (int_of_mem host (slice m 0 1)) (int_of_mem host (slice m 1 2)) (u16 (int_of_mem host (slice m 2 4))) (u16 (int_of_mem host (slice m 4 6))) (int_of_mem host (slice m 6 7)) (int_of_mem host (slice m 7 8)).
Definition mem_of_header (h : RecordHeader) : list byte :=
  int_to_mem host 1 (version h) ++ int_to_mem host 1 (rtype h) ++ int_to_mem host 2 (rid h) ++ int_to_mem host 2 (rlength h) ++ int_to_mem host 1 (padding h) ++ int_to_mem host 1 (unused h).

(** ** The codec *)

Record FastCgiCodec := mkFcgi {
  gotRequest_ : bool; keepConn_ : bool; stdin_ : Buffer; paramsStream_ : Buffer; params_ : gmap (list byte) (list byte) }.
Definition set_gotRequest v c := mkFcgi v (keepConn_ c) (stdin_ c) (paramsStream_ c) (params_ c).
Definition set_keepConn v c := mkFcgi (gotRequest_ c) v (stdin_ c) (paramsStream_ c) (params_ c).
Definition set_stdin v c := mkFcgi (gotRequest_ c) (keepConn_ c) v (paramsStream_ c) (params_ c).
Definition set_paramsStream v c := mkFcgi (gotRequest_ c) (keepConn_ c) (stdin_ c) v (params_ c).
Definition set_params v c := mkFcgi (gotRequest_ c) (keepConn_ c) (stdin_ c) (paramsStream_ c) v.
Definition newFastCgiCodec : outcome FastCgiCodec :=
  let* stdin := newBuffer kInitialSize in
  let* params := newBuffer kInitialSize in
  Ret (mkFcgi false false stdin params ∅).

(** [readLen] on [paramsStream_] *)
Definition no_len : Z := u32 (-1).
Definition readLen (b : Buffer) : outcome (Z * Buffer) :=
  if decide (readableBytes b >= 1) then
    let* x := peekInt8 host b in
    let byte := u8 x in
    if decide (Z.land byte 128 <> 0) then
      if decide (readableBytes b >= 4) then
        let* (x, b) := readInt32 host b in Ret (u32 (Z.land x 2147483647), b)
      else Ret (no_len, b)
    else
      let* (x, b) := readInt8 host b in Ret (u32 x, b)
  else Ret (no_len, b).
(** A parameter takes at least two bytes. *)
Fixpoint params_loop (fuel : nat) (b : Buffer) (ps : gmap (list byte) (list byte)) : outcome (bool * Buffer * gmap (list byte) (list byte)) :=
  match fuel with
  | O => Stop NoFuel
  | S fuel =>
      if decide (readableBytes b > 0) then
        let* (nameLen, b) := readLen b in
        if decide (nameLen = no_len) then Ret (false, b, ps)
        else
          let* (valueLen, b) := readLen b in
          if decide (valueLen = no_len) then Ret (false, b, ps)
          else if decide (readableBytes b >= u32 (nameLen + valueLen)) then
            let* (name, b) := retrieveAsString nameLen b in
            let* (value, b) := retrieveAsString valueLen b in
            params_loop fuel b (<[name := value]> ps)
          else Ret (false, b, ps)
      else Ret (true, b, ps)
  end.
Definition parseAllParams (c : FastCgiCodec) : outcome (bool * FastCgiCodec) :=
  let* (r, ps) := params_loop (S (Z.to_nat (readableBytes (paramsStream_ c)))) (paramsStream_ c) (params_ c) in
  let (ok, b) := (r : bool * Buffer) in Ret (ok, set_params ps (set_paramsStream b c)).

Definition onParams (content : list byte) (length : Z) (c : FastCgiCodec) : outcome (bool * FastCgiCodec) :=
  if decide (length > 0) then
    let* b := append content length (paramsStream_ c) in Ret (true, set_paramsStream b c)
  else parseAllParams c.
Definition onStdin (content : list byte) (length : Z) (c : FastCgiCodec) : outcome FastCgiCodec :=
  if decide (length > 0) then
    let* b := append content length (stdin_ c) in Ret (set_stdin b c)
  else Ret (set_gotRequest true c).
Definition readInt16 (p : list byte) : outcome Z :=
  let* m := load 2 p in Ret (u16 (networkToHost16 host (u16 (int_of_mem host m)))).
Definition onBeginRequest (header : RecordHeader) (buf : Buffer) (c : FastCgiCodec) : outcome (bool * FastCgiCodec) :=
  assert* bool_decide (readableBytes buf >= rlength header) in
  assert* bool_decide (rtype header = kFcgiBeginRequest) in
  if decide (rlength header >= kRecordHeader) then
    let* role := readInt16 (zdrop (peek buf + kRecordHeader) (buffer_ buf)) in
    let* m := load 1 (zdrop (peek buf + kRecordHeader + 2) (buffer_ buf)) in
    let flags := u8 (int_of_mem host m) in
    if decide (role = kFcgiResponder) then Ret (true, set_keepConn (bool_decide (flags = kFcgiKeepConn)) c) else Ret (false, c)
  else Ret (false, c).

(** The loop of [parseRequest]; a record has at least eight bytes. *)
Fixpoint parseRequest_loop (fuel : nat) (buf : Buffer) (c : FastCgiCodec) : outcome (FastCgiCodec * Buffer) :=
  match fuel with
  | O => Stop NoFuel
  | S fuel =>
      if decide (readableBytes buf >= kRecordHeader) then
        let* m := load kRecordHeader (zdrop (peek buf) (buffer_ buf)) in
        let h := header_of_mem m in
        let h := mkHeader (version h) (rtype h) (networkToHost16 host (rid h)) (networkToHost16 host (rlength h)) (padding h) (unused h) in
        let total := u64 (kRecordHeader + rlength h + padding h) in
        if decide (readableBytes buf >= total) then
          let content := zdrop (peek buf + kRecordHeader) (buffer_ buf) in
          let* c :=
            if decide (rtype h = kFcgiBeginRequest) then let* (_, c) := onBeginRequest h buf c in Ret c
            else if decide (rtype h = kFcgiParams) then let* (_, c) := onParams content (rlength h) c in Ret c
            else if decide (rtype h = kFcgiStdin) then onStdin content (rlength h) c
            else Ret c in
          let* buf := retrieve total buf in
          parseRequest_loop fuel buf c
        else Ret (c, buf)
      else Ret (c, buf)
  end.
Definition parseRequest (buf : Buffer) (c : FastCgiCodec) : outcome (FastCgiCodec * Buffer) := parseRequest_loop (S (Z.to_nat (readableBytes buf))) buf c.

(** The codec, its connection, and the parameters and the body [cb_] was called with *)
Record World := mkWorld { codec : FastCgiCodec; conn : Conn; calls : list (gmap (list byte) (list byte) * list byte) }.
Definition onMessage (buf : Buffer) (w : World) : outcome (World * Buffer) :=
  let* (c, buf) := parseRequest buf (codec w) in
  if gotRequest_ c then
    let calls := calls w ++ [(params_ c, content (stdin_ c))] in
    let c := set_stdin (retrieveAll (stdin_ c)) c in
    let c := set_paramsStream (retrieveAll (paramsStream_ c)) c in
    let c := set_params ∅ c in
    let c := set_gotRequest false c in
    Ret (mkWorld c (if keepConn_ c then conn w else conn_shutdown (conn w)) calls, buf)
  else Ret (mkWorld c (conn w) (calls w), buf).

(** ** The response *)

Definition endStdout (buf : Buffer) : outcome Buffer :=
  append (mem_of_header (mkHeader 1 kFcgiStdout (hostToNetwork16 host 1) 0 0 0)) kRecordHeader buf.
Definition endRequest (buf : Buffer) : outcome Buffer :=
  let* buf := append (mem_of_header (mkHeader 1 kFcgiEndRequest (hostToNetwork16 host 1) (hostToNetwork16 host (u16 kRecordHeader)) 0 0)) kRecordHeader buf in
  let* buf := appendInt32 host 0 buf in
  appendInt32 host 0 buf.
Definition respond (response : Buffer) : outcome Buffer :=
  let* response :=
    if decide (readableBytes response < 65536 /\ prependableBytes response >= kRecordHeader) then
      let pad := u8 (Z.land (u64 (- readableBytes response)) 7) in
      let* response := prepend (mem_of_header (mkHeader 1 kFcgiStdout (hostToNetwork16 host 1) (hostToNetwork16 host (u16 (readableBytes response))) pad 0)) kRecordHeader response in
      append (replicate 8 Byte.x00) pad response
    else Ret response in
  let* response := endStdout response in
  endRequest response.

(** ** Parameters *)

(** A length is one byte, or four with the highest bit set. *)
Definition enc_len (n : Z) : list byte := if decide (n < 128) then be_bytes 1 n else be_bytes 4 (n + 2 ^ 31).
Definition enc_param (p : list byte * list byte) : list byte := enc_len (zlen p.1) ++ enc_len (zlen p.2) ++ p.1 ++ p.2.
Definition enc_params (ps : list (list byte * list byte)) : list byte := concat (map enc_param ps).
Definition put_params (ps : list (list byte * list byte)) (m : gmap (list byte) (list byte)) : gmap (list byte) (list byte) := fold_left (fun m p => <[p.1 := p.2]> m) ps m.
Definition good_param (p : list byte * list byte) : Prop := zlen p.1 < 2 ^ 31 /\ zlen p.2 < 2 ^ 31.

Lemma read_byte b x rest : wf b -> 0 <= x < 128 -> content b = be_bytes 1 x ++ rest ->
  exists b', readInt8 host b = Ret (x, b') /\ wf b' /\ content b' = rest /\ zlen (buffer_ b') = zlen (buffer_ b).
Proof.
  intros W Hx C. unfold readInt8. rewrite (peekInt8_ok host b x rest W C). cbn [obind]. rewrite swrap_small by lia. unfold retrieveInt8. destruct (retrieve_ok 1 b W) as (b' & -> & W' & C' & L'); [rewrite <- content_len, C, zlen_app, zlen_be_bytes by done; zlia|].
  cbn [obind]. exists b'. split_and!; try done. rewrite C', C, zdrop_app_r by (rewrite zlen_be_bytes; lia). apply zdrop_0. rewrite zlen_be_bytes. lia.
Qed.
Lemma read_word b x rest : wf b -> content b = be_bytes 4 x ++ rest ->
  exists b', readInt32 host b = Ret (i32 x, b') /\ wf b' /\ content b' = rest /\ zlen (buffer_ b') = zlen (buffer_ b).
Proof.
  intros W C. unfold readInt32. rewrite (peekInt32_ok host b x rest W C). cbn [obind]. unfold retrieveInt32. destruct (retrieve_ok 4 b W) as (b' & -> & W' & C' & L'); [rewrite <- content_len, C, zlen_app, zlen_be_bytes by done; zlia|].
  cbn [obind]. exists b'. split_and!; try done. rewrite C', C, zdrop_app_r by (rewrite zlen_be_bytes; lia). apply zdrop_0. rewrite zlen_be_bytes. lia.
Qed.
(** The first of four bytes with the highest bit set *)
Lemma high_byte x : be_bytes 4 x = be_bytes 1 (x / 2 ^ 24) ++ be_bytes 3 x.
Proof. unfold be_bytes. cbn [le_bytes rev app]. rewrite !Z.div_div by lia. done. Qed.
Lemma byte_flag y : 0 <= y < 256 -> Z.land y 128 = if decide (y < 128) then 0 else 128.
Proof.
  intros H. assert (forallb (fun n => Z.land (Z.of_nat n) 128 =? if decide (Z.of_nat n < 128) then 0 else 128) (seq 0 256) = true) as T by (by vm_compute).
  rewrite forallb_forall in T. specialize (T (Z.to_nat y)). rewrite Z2Nat.id in T by lia. apply Z.eqb_eq, T. apply in_seq. lia.
Qed.
Lemma readLen_ok b n rest : wf b -> 0 <= n < 2 ^ 31 -> content b = enc_len n ++ rest ->
  exists b', readLen b = Ret (n, b') /\ wf b' /\ content b' = rest /\ zlen (buffer_ b') = zlen (buffer_ b).
Proof.
  intros W Hn C. unfold readLen. assert (readableBytes b = zlen (enc_len n) + zlen rest) as L by (rewrite <- content_len, C, zlen_app by done; lia). unfold enc_len in *. zlen_pos. destruct (decide (n < 128)) as [D|D].
  - rewrite zlen_be_bytes in L. rewrite (decide_True (P := readableBytes b >= 1)) by lia. rewrite (peekInt8_ok host b n rest W C). cbn [obind]. rewrite wrap_swrap, wrap_small by lia. rewrite byte_flag, (decide_True (P := n < 128)) by lia. rewrite (decide_False (P := 0 <> 0)) by (by intros []).
    destruct (read_byte b n rest W ltac:(lia) C) as (b' & -> & W' & C' & L'). cbn [obind]. rewrite wrap_small by lia. by exists b'.
  - rewrite zlen_be_bytes in L. rewrite (decide_True (P := readableBytes b >= 1)) by lia. pose proof C as C0. rewrite high_byte, <- app_assoc in C0. rewrite (peekInt8_ok host b _ _ W C0). cbn [obind]. assert (128 <= (n + 2 ^ 31) / 2 ^ 24 < 256) as Hd by (split; [apply Z.div_le_lower_bound; lia|apply Z.div_lt_upper_bound; lia]).
    rewrite wrap_swrap, wrap_small by lia. rewrite byte_flag, (decide_False (P := _ < 128)) by lia. rewrite (decide_True (P := 128 <> 0)) by done. rewrite (decide_True (P := readableBytes b >= 4)) by lia. destruct (read_word b _ rest W C) as (b' & -> & W' & C' & L'). cbn [obind]. exists b'. split; [|done]. do 2 f_equal.
    change 2147483647 with (Z.ones 31). rewrite Z.land_ones by lia. assert (i32 (n + 2 ^ 31) mod 2 ^ 31 = n) as ->; [|apply wrap_small; lia].
    assert (i32 (n + 2 ^ 31) = n - 2 ^ 31) as ->.
    { unfold swrap. change (32 - 1) with 31. replace (n + 2 ^ 31 + 2 ^ 31) with (n + 1 * 2 ^ 32) by lia. rewrite Z.mod_add, Z.mod_small by lia. done. }
    replace (n - 2 ^ 31) with (n + (-1) * 2 ^ 31) by lia. rewrite Z.mod_add by lia. apply Z.mod_small. lia.
Qed.

Lemma take_string n b d rest : wf b -> content b = d ++ rest -> zlen d = n -> exists b', retrieveAsString n b = Ret (d, b') /\ wf b' /\ content b' = rest /\ zlen (buffer_ b') = zlen (buffer_ b).
Proof.
  intros W C <-. zlen_pos. assert (zlen d <= readableBytes b) as L by (rewrite <- content_len, C, zlen_app by done; zlia). unfold retrieveAsString. rewrite check_true by (apply bool_decide_eq_true; lia).
  destruct (zdrop_peek b W) as (q & ->). rewrite C, <- app_assoc, load_ok by (rewrite zlen_app; zlia). cbn [obind]. rewrite ztake_app_l, ztake_all by lia. destruct (retrieve_ok (zlen d) b W) as (b' & -> & W' & C' & L'); [lia|]. cbn [obind]. exists b'. split_and!; try done.
  rewrite C', C, zdrop_app_r by lia. apply zdrop_0. lia.
Qed.
Lemma zlen_enc_len n : 1 <= zlen (enc_len n).
Proof. unfold enc_len. case_decide; rewrite zlen_be_bytes; lia. Qed.
Lemma params_loop_ok ps fuel b m : Forall good_param ps -> wf b -> content b = enc_params ps -> (length ps < fuel)%nat ->
  exists b', params_loop fuel b m = Ret (true, b', put_params ps m) /\ wf b' /\ content b' = [] /\ zlen (buffer_ b') = zlen (buffer_ b).
Proof.
  revert fuel b m. induction ps as [|[k v] ps IH]; intros fuel b m G W C Hf; (destruct fuel as [|fuel]; [cbn in Hf; lia|]); cbn [params_loop]; pose proof (content_len b W) as L.
  - rewrite C in L. change (zlen (enc_params [])) with 0 in L. rewrite decide_False by lia. by exists b.
  - apply Forall_cons in G as [[Gk Gv] G]. cbn [fst snd] in Gk, Gv. unfold enc_params in C. cbn [map concat enc_param fst snd] in C. unfold enc_param in C. cbn [fst snd] in C. rewrite <- !app_assoc in C. zlen_pos.
    assert (0 < readableBytes b) by (rewrite <- L, C, zlen_app; pose proof (zlen_enc_len (zlen k)); zlia). rewrite decide_True by lia. unfold no_len. change (u32 (-1)) with (2 ^ 32 - 1).
    destruct (readLen_ok b (zlen k) _ W ltac:(lia) C) as (b1 & -> & W1 & C1 & L1). cbn [obind]. rewrite decide_False by lia. destruct (readLen_ok b1 (zlen v) _ W1 ltac:(lia) C1) as (b2 & -> & W2 & C2 & L2). cbn [obind]. rewrite decide_False by lia.
    rewrite wrap_small by lia. rewrite decide_True by (rewrite <- content_len, C2, !zlen_app by done; zlia). destruct (take_string (zlen k) b2 k _ W2 C2 eq_refl) as (b3 & -> & W3 & C3 & L3). cbn [obind]. destruct (take_string (zlen v) b3 v _ W3 C3 eq_refl) as (b4 & -> & W4 & C4 & L4). cbn [obind].
    destruct (IH fuel b4 (<[k := v]> m) G W4 C4) as (b5 & -> & W5 & C5 & L5); [cbn in Hf; lia|]. exists b5. split_and!; try done. lia.
Qed.
Lemma params_length ps : Z.of_nat (length ps) <= zlen (enc_params ps).
Proof. induction ps as [|p ps IH]; [done|]. unfold enc_params in *. cbn [map concat length]. unfold enc_param at 1. rewrite !zlen_app. pose proof (zlen_enc_len (zlen p.1)). zlia. Qed.

(** ** Records on the wire *)

Record Rec := mkRec { c_version : Z; c_type : Z; c_id : Z; c_unused : Z; c_data : list byte; c_pad : list byte }.
Definition rec_bytes (r : Rec) : list byte :=
  (be_bytes 1 (c_version r) ++ be_bytes 1 (c_type r) ++ be_bytes 2 (c_id r) ++ be_bytes 2 (zlen (c_data r)) ++ be_bytes 1 (zlen (c_pad r)) ++ be_bytes 1 (c_unused r)) ++ c_data r ++ c_pad r.
Definition good_rec (r : Rec) : Prop := 0 <= c_type r < 256 /\ zlen (c_data r) < 2 ^ 16 /\ zlen (c_pad r) < 2 ^ 8.

Lemma be_bytes_2 x : exists a b, be_bytes 2 x = [a; b].
Proof. unfold be_bytes. cbn. by eexists _, _. Qed.
Lemma be_bytes_1 x : be_bytes 1 x = [z2b x].
Proof. done. Qed.
Lemma byte_mem x : 0 <= x < 256 -> int_of_mem host [z2b x] = x.
Proof. intros H. destruct host; cbn; unfold be_value; cbn; rewrite b2z_z2b, Z.mod_small by lia; lia. Qed.
Lemma word_mem x : 0 <= x < 2 ^ 16 -> networkToHost16 host (u16 (int_of_mem host (be_bytes 2 x))) = x.
Proof.
  intros H. pose proof (int_of_mem_range host (be_bytes 2 x)) as R. rewrite zlen_be_bytes in R. change (8 * Z.of_nat 2) with 16 in R. rewrite wrap_small by lia. unfold networkToHost16.
  rewrite htobe_int_of_mem by (unfold be_bytes; apply length_rev_le_bytes). rewrite be_value_bytes. apply wrap_small. change (8 * Z.of_nat 2) with 16. lia.
Qed.
Lemma header_ok v t i l p u : 0 <= t < 256 -> 0 <= l < 2 ^ 16 -> 0 <= p < 256 ->
  let h := header_of_mem (be_bytes 1 v ++ be_bytes 1 t ++ be_bytes 2 i ++ be_bytes 2 l ++ be_bytes 1 p ++ be_bytes 1 u) in
  rtype h = t /\ networkToHost16 host (rlength h) = l /\ padding h = p.
Proof.
  intros Ht Hl Hp. pose proof (word_mem l Hl) as Wl. destruct (be_bytes_2 i) as (i1 & i2 & ->). destruct (be_bytes_2 l) as (l1 & l2 & El). rewrite El in *. rewrite !be_bytes_1. cbn [app]. unfold header_of_mem, slice. cbn [rtype rlength padding].
  split_and!; [by apply byte_mem|exact Wl|by apply byte_mem].
Qed.
Lemma zlen_rec r : zlen (rec_bytes r) = 8 + zlen (c_data r) + zlen (c_pad r).
Proof. unfold rec_bytes. rewrite !zlen_app, !zlen_be_bytes. lia. Qed.

(** ** What a request means *)

(** The text of the parameters so far, of which all is [enc_params (a_goal a)], the body so far, and how many bytes there were; nothing may follow the end of the request. *)
Record Abs := mkAbs { a_goal : list (list byte * list byte); a_text : list byte; a_params : gmap (list byte) (list byte); a_stdin : list byte; a_keep : bool; a_done : bool; a_bad : bool; a_w : Z }.
Definition rec_step (a : Abs) (r : Rec) : Abs :=
  let w := a_w a + zlen (c_data r) in
  let bad := mkAbs (a_goal a) (a_text a) (a_params a) (a_stdin a) (a_keep a) (a_done a) true w in
  if a_bad a || a_done a then bad
  else if decide (c_type r = kFcgiBeginRequest) then
    let keep := if decide (8 <= zlen (c_data r) /\ be_value (ztake 2 (c_data r)) = kFcgiResponder) then bool_decide (slice (c_data r) 2 3 = [z2b kFcgiKeepConn]) else a_keep a in
    mkAbs (a_goal a) (a_text a) (a_params a) (a_stdin a) keep false false w
  else if decide (c_type r = kFcgiParams) then
    if decide (c_data r = []) then
      if decide (a_text a = enc_params (a_goal a)) then mkAbs (a_goal a) [] (put_params (a_goal a) (a_params a)) (a_stdin a) (a_keep a) false false w else bad
    else mkAbs (a_goal a) (a_text a ++ c_data r) (a_params a) (a_stdin a) (a_keep a) false false w
  else if decide (c_type r = kFcgiStdin) then
    mkAbs (a_goal a) (a_text a) (a_params a) (a_stdin a ++ c_data r) (a_keep a) (bool_decide (c_data r = [])) false w
  else mkAbs (a_goal a) (a_text a) (a_params a) (a_stdin a) (a_keep a) false false w.
Definition ok (a : Abs) : Prop := a_bad a = false /\ a_w a <= 2 ^ 50 /\ Forall good_param (a_goal a).
Definition Holds (b : Buffer) (d : list byte) (w : Z) : Prop := wf b /\ content b = d /\ zlen (buffer_ b) <= 2 ^ 11 + w.
Definition RC (a : Abs) (c : FastCgiCodec) : Prop :=
  gotRequest_ c = a_done a /\ keepConn_ c = a_keep a /\ Holds (stdin_ c) (a_stdin a) (a_w a) /\ Holds (paramsStream_ c) (a_text a) (a_w a) /\ params_ c = a_params a.

Lemma ok_step_back a r : ok (rec_step a r) -> ok a.
Proof.
  unfold ok, rec_step. destruct (a_bad a) eqn:Eb; [by intros (? & _)|]. zlen_pos. destruct (a_done a); [by intros (? & _)|]. cbn [orb]. repeat case_decide; cbn [a_bad a_w a_goal]; intros (? & ? & ?); try done; (split_and!; [done|lia|done]).
Qed.
Lemma Holds_more b d w w' : Holds b d w -> w <= w' -> Holds b d w'.
Proof. intros (W & C & L) H. split_and!; [done|done|lia]. Qed.
Lemma Holds_append b d w x len : Holds b d w -> 0 <= len <= zlen x -> 0 <= w -> w + len <= 2 ^ 50 -> exists b', append x len b = Ret b' /\ Holds b' (d ++ ztake len x) (w + len).
Proof.
  intros (W & C & L) Hl Hw Hs. destruct (append_ok x len b W) as (b' & E & W' & C' & _ & L'); [done|unfold max_size; lia|]. exists b'. split; [done|]. split_and!; [done|by rewrite C', C|lia].
Qed.
Lemma empty_data (d : list byte) : d = [] <-> ~ zlen d > 0.
Proof. destruct d; [done|]. rewrite zlen_cons. zlen_pos. split; [done|lia]. Qed.

(** What a record does to the codec; [mem] is the memory from the data of the record on. *)
Definition dispatch (t l : Z) (mem : list byte) (begin_ : FastCgiCodec -> outcome FastCgiCodec) (c : FastCgiCodec) : outcome FastCgiCodec :=
  if decide (t = kFcgiBeginRequest) then begin_ c
  else if decide (t = kFcgiParams) then let* (_, c) := onParams mem l c in Ret c
  else if decide (t = kFcgiStdin) then onStdin mem l c
  else Ret c.
Lemma fcgi_dispatch_ok a c r mem q begin_ : RC a c -> 0 <= a_w a -> ok (rec_step a r) -> mem = c_data r ++ q ->
  (c_type r = kFcgiBeginRequest -> exists v, begin_ c = Ret (set_keepConn v c) /\ v = a_keep (rec_step a r)) ->
  exists c', dispatch (c_type r) (zlen (c_data r)) mem begin_ c = Ret c' /\ RC (rec_step a r) c'.
Proof.
  intros (R1 & R2 & R3 & R4 & R5) Hw Hk -> Hb. zlen_pos. pose proof (ok_step_back _ _ Hk) as (Hbad & _ & Hg). unfold dispatch. destruct Hk as (K1 & K2 & K3). unfold rec_step in *. rewrite Hbad, orb_false_l in *.
  destruct (a_done a) eqn:Ed; [by cbn in K1|].
  assert (zlen (ztake (zlen (c_data r)) (c_data r ++ q)) = zlen (c_data r) /\ ztake (zlen (c_data r)) (c_data r ++ q) = c_data r) as [_ Et] by (rewrite ztake_app_l, ztake_all by lia; done).
  destruct (decide (c_type r = kFcgiBeginRequest)) as [D1|D1]; [|destruct (decide (c_type r = kFcgiParams)) as [D2|D2]; [|destruct (decide (c_type r = kFcgiStdin)) as [D3|D3]]]; cbn [a_w] in K2.
  - destruct (Hb D1) as (v & -> & ->). eexists. split; [done|]. split_and!; try done; cbn [set_keepConn stdin_ paramsStream_ a_stdin a_text a_w]; eapply Holds_more; (done || lia).
  - unfold onParams. destruct (decide (c_data r = [])) as [D|D].
    + rewrite decide_False by (by apply empty_data). destruct (decide (a_text a = enc_params (a_goal a))) as [E|E]; [|by cbn in K1]. unfold parseAllParams. destruct R4 as (Wp & Cp & Lp).
      destruct (params_loop_ok (a_goal a) (S (Z.to_nat (readableBytes (paramsStream_ c)))) (paramsStream_ c) (params_ c) Hg Wp) as (b & -> & Wb & Cb & Lb); [by rewrite Cp|rewrite <- content_len, Cp, E by done; pose proof (params_length (a_goal a)); lia|].
      cbn [obind]. eexists. split; [done|]. rewrite R5. split_and!; try done; cbn [set_params set_paramsStream stdin_ paramsStream_ a_stdin a_text a_w]; [eapply Holds_more; (done || lia)|]. split_and!; [done|done|lia].
    + assert (zlen (c_data r) > 0) as Hp by (destruct (decide (zlen (c_data r) > 0)); [done|by rewrite <- empty_data in *]). rewrite decide_True by done. cbn [a_w] in K2. destruct (Holds_append _ _ _ (c_data r ++ q) (zlen (c_data r)) R4) as (b & -> & Hb'); [rewrite zlen_app; zlia|done|lia|]. rewrite Et in Hb'. cbn [obind].
      eexists. split; [done|]. split_and!; try done. cbn [set_paramsStream stdin_ a_stdin a_w]. eapply Holds_more; (done || lia).
  - unfold onStdin. destruct (decide (zlen (c_data r) > 0)) as [Hp|Hp].
    + destruct (Holds_append _ _ _ (c_data r ++ q) (zlen (c_data r)) R3) as (b & -> & Hb'); [rewrite zlen_app; zlia|done|lia|]. rewrite Et in Hb'. cbn [obind]. eexists. split; [done|].
      rewrite bool_decide_false by (intros E; rewrite E in Hp; by vm_compute in Hp). split_and!; try done. cbn [set_stdin paramsStream_ a_text a_w]. eapply Holds_more; (done || lia).
    + apply empty_data in Hp. rewrite Hp in *. eexists. split; [done|]. rewrite app_nil_r. split_and!; try done; cbn [set_gotRequest stdin_ paramsStream_ a_stdin a_text a_w]; eapply Holds_more; (done || lia).
  - eexists. split; [done|]. split_and!; try done; eapply Holds_more; (done || cbn; lia).
Qed.

Lemma memory_at buf i : wf buf -> 0 <= i <= zlen (content buf) -> exists q, zdrop (peek buf + i) (buffer_ buf) = zdrop i (content buf) ++ q.
Proof.
  intros W H. destruct (zdrop_peek buf W) as (q & E). exists q. unfold peek in *. destruct W as [[W _] _]. rewrite <- zdrop_zdrop by lia. by rewrite E, zdrop_app_l by lia.
Qed.
Lemma begin_ok a c r buf rest h : ok (rec_step a r) -> keepConn_ c = a_keep a -> wf buf -> good_rec r -> content buf = rec_bytes r ++ rest -> rtype h = c_type r -> rlength h = zlen (c_data r) -> c_type r = kFcgiBeginRequest ->
  exists v, (let* (_, c) := onBeginRequest h buf c in Ret c) = Ret (set_keepConn v c) /\ v = a_keep (rec_step a r).
Proof.
  intros (K1 & _) Hk W (_ & G2 & G3) C Et El E1. unfold onBeginRequest. pose proof (zlen_rec r) as Lr. zlen_pos. assert (zlen (content buf) = 8 + zlen (c_data r) + zlen (c_pad r) + zlen rest) as Lc by (rewrite C, zlen_app; lia). zlen_pos.
  rewrite !bool_decide_true by (rewrite ?Et, ?El, <- ?content_len by done; done || lia). cbn [check]. rewrite El. unfold rec_step in *. destruct (a_bad a || a_done a); [done|]. clear K1. rewrite (decide_True (P := c_type r = kFcgiBeginRequest)) by done. cbn [a_keep].
  unfold kRecordHeader. destruct (decide (zlen (c_data r) >= 8)) as [D|D].
  - destruct (memory_at buf 8 W ltac:(lia)) as (q & Eq). destruct (memory_at buf 10 W ltac:(lia)) as (q2 & Eq2). rewrite Eq. replace (peek buf + 8 + 2) with (peek buf + 10) by lia. rewrite Eq2.
    assert (zdrop 8 (content buf) = (c_data r ++ c_pad r) ++ rest) as E8.
    { rewrite C. unfold rec_bytes. rewrite <- app_assoc, zdrop_app_r by (rewrite !zlen_app, !zlen_be_bytes; lia). apply zdrop_0. rewrite !zlen_app, !zlen_be_bytes. lia. }
    assert (zdrop 10 (content buf) = zdrop 2 ((c_data r ++ c_pad r) ++ rest)) as E10 by (rewrite <- E8, zdrop_zdrop by lia; done).
    rewrite E8, E10. clear Eq Eq2 E8 E10. destruct (c_data r) as [|x0 [|x1 [|x2 d]]]; [unfold zlen in D; cbn in D; lia|unfold zlen in D; cbn in D; lia|unfold zlen in D; cbn in D; lia|].
    unfold readInt16. cbn [app]. rewrite load_ok by (rewrite !zlen_cons; zlia). cbn [obind]. change (zdrop 2 _) with (x2 :: ((d ++ c_pad r) ++ rest)). cbn [app]. rewrite load_ok by (rewrite !zlen_cons; zlia). cbn [obind].
    change (ztake 2 (x0 :: x1 :: x2 :: ((d ++ c_pad r) ++ rest) ++ q)) with [x0; x1]. change (ztake 1 (x2 :: ((d ++ c_pad r) ++ rest) ++ q2)) with [x2]. change (ztake 2 (x0 :: x1 :: x2 :: d)) with [x0; x1].
    change (slice (x0 :: x1 :: x2 :: d) 2 3) with [x2]. assert (u16 (networkToHost16 host (u16 (int_of_mem host [x0; x1]))) = be_value [x0; x1]) as ->.
    { pose proof (be_bytes_value [x0; x1]) as B. change (length [x0; x1]) with 2%nat in B. pose proof (int_of_mem_range BigEndian [x0; x1]) as Rg. change (int_of_mem BigEndian [x0; x1]) with (be_value [x0; x1]) in Rg. change (8 * zlen [x0; x1]) with 16 in Rg.
      rewrite <- B at 1. rewrite word_mem by lia. apply wrap_small. lia. }
    assert (bool_decide (u8 (int_of_mem host [x2]) = kFcgiKeepConn) = bool_decide ([x2] = [z2b kFcgiKeepConn])) as Ef.
    { apply bool_decide_ext. replace (int_of_mem host [x2]) with (b2z x2) by (destruct host; cbn; unfold be_value; cbn; lia). pose proof (b2z_range x2). rewrite wrap_small by lia. split; [intros E; rewrite <- E, z2b_b2z; done|intros [= E]; rewrite E; done]. }
    destruct (decide (be_value [x0; x1] = kFcgiResponder)) as [Dr|Dr].
    + rewrite decide_True by (split; [rewrite !zlen_cons in *; lia|done]). eexists. split; [reflexivity|exact Ef].
    + rewrite decide_False by (by intros [_ ?]). exists (keepConn_ c). split; [by destruct c|done].
  - rewrite decide_False by (intros [? _]; lia). exists (keepConn_ c). split; [by destruct c|done].
Qed.
Lemma loop_record fuel buf a c r rest : RC a c -> 0 <= a_w a -> ok (rec_step a r) -> good_rec r -> wf buf -> content buf = rec_bytes r ++ rest ->
  exists c' buf', parseRequest_loop (S fuel) buf c = parseRequest_loop fuel buf' c' /\ RC (rec_step a r) c' /\ wf buf' /\ content buf' = rest /\ zlen (buffer_ buf') = zlen (buffer_ buf).
Proof.
  intros Ra Hw Hk G W C. pose proof G as (G1 & G2 & G3). pose proof (zlen_rec r) as Lr. zlen_pos. assert (readableBytes buf = 8 + zlen (c_data r) + zlen (c_pad r) + zlen rest) as Lc by (rewrite <- content_len, C, zlen_app by done; lia). zlen_pos.
  cbn [parseRequest_loop]. unfold kRecordHeader. rewrite (decide_True (P := readableBytes buf >= 8)) by lia. destruct (zdrop_peek buf W) as (q & Eq). rewrite Eq. rewrite load_ok by (rewrite zlen_app, content_len by done; zlia). cbn [obind].
  assert (ztake 8 (content buf ++ q) = be_bytes 1 (c_version r) ++ be_bytes 1 (c_type r) ++ be_bytes 2 (c_id r) ++ be_bytes 2 (zlen (c_data r)) ++ be_bytes 1 (zlen (c_pad r)) ++ be_bytes 1 (c_unused r)) as ->.
  { rewrite C. unfold rec_bytes. rewrite <- !(app_assoc (be_bytes 1 (c_version r) ++ _)). rewrite ztake_app_l by (rewrite !zlen_app, !zlen_be_bytes; lia). apply ztake_all. rewrite !zlen_app, !zlen_be_bytes. lia. }
  destruct (header_ok (c_version r) (c_type r) (c_id r) (zlen (c_data r)) (zlen (c_pad r)) (c_unused r)) as (Hh1 & Hh2 & Hh3); [done|lia|lia|]. set (h := header_of_mem _) in *. clearbody h. cbn [rlength padding rtype]. rewrite Hh1, Hh2, Hh3.
  rewrite wrap_small by lia. rewrite (decide_True (P := readableBytes buf >= 8 + zlen (c_data r) + zlen (c_pad r))) by lia. destruct (memory_at buf 8 W) as (q8 & E8); [rewrite content_len by done; lia|]. rewrite E8.
  assert (zdrop 8 (content buf) ++ q8 = c_data r ++ (c_pad r ++ rest ++ q8)) as ->.
  { rewrite C. unfold rec_bytes. rewrite <- !(app_assoc (be_bytes 1 (c_version r) ++ _)), zdrop_app_r by (rewrite !zlen_app, !zlen_be_bytes; lia). rewrite zdrop_0 by (rewrite !zlen_app, !zlen_be_bytes; lia). by rewrite <- !app_assoc. }
  destruct (fcgi_dispatch_ok a c r (c_data r ++ c_pad r ++ rest ++ q8) (c_pad r ++ rest ++ q8) (fun c => let* (_, c) := onBeginRequest (mkHeader (version h) (c_type r) (networkToHost16 host (rid h)) (zlen (c_data r)) (zlen (c_pad r)) (unused h)) buf c in Ret c) Ra Hw Hk eq_refl) as (c' & E' & R').
  { intros E1. apply (begin_ok a c r buf rest); try done. by destruct Ra as (_ & ? & _). }
  unfold dispatch in E'. rewrite E'. cbn [obind]. destruct (retrieve_ok (8 + zlen (c_data r) + zlen (c_pad r)) buf W) as (b' & -> & W' & C' & L'); [lia|]. cbn [obind]. exists c', b'. split_and!; try done.
  rewrite C', C, zdrop_app_r by lia. apply zdrop_0. lia.
Qed.
Lemma rec_pos r : 0 < zlen (rec_bytes r).
Proof. rewrite zlen_rec. zlia. Qed.
Lemma records_stop fuel buf c rs more : Forall good_rec rs -> wf buf -> content buf ++ more = encs rec_bytes rs -> waits rec_bytes rs (content buf) -> parseRequest_loop (S fuel) buf c = Ret (c, buf).
Proof.
  intros G W E Wt. cbn [parseRequest_loop]. pose proof (content_len buf W) as L. unfold kRecordHeader. destruct (decide (readableBytes buf >= 8)) as [D|D]; [|done]. destruct rs as [|r rs]; cbn [waits] in Wt; [rewrite Wt, zlen_nil in L; lia|].
  apply Forall_cons in G as [(G1 & G2 & G3) _]. unfold encs in E. cbn [map concat] in E. rewrite zlen_rec in Wt. zlen_pos.
  destruct (zdrop_peek buf W) as (q & Eq). rewrite Eq. rewrite load_ok by (rewrite zlen_app; zlia). cbn [obind].
  assert (ztake 8 (content buf ++ q) = be_bytes 1 (c_version r) ++ be_bytes 1 (c_type r) ++ be_bytes 2 (c_id r) ++ be_bytes 2 (zlen (c_data r)) ++ be_bytes 1 (zlen (c_pad r)) ++ be_bytes 1 (c_unused r)) as ->.
  { pose proof (f_equal (ztake 8) E) as E8. rewrite ztake_app_l in E8 by lia. rewrite ztake_app_l by lia. rewrite E8. unfold rec_bytes. rewrite <- !(app_assoc (be_bytes 1 (c_version r) ++ _)). rewrite ztake_app_l by (rewrite !zlen_app, !zlen_be_bytes; lia). apply ztake_all. rewrite !zlen_app, !zlen_be_bytes. lia. }
  destruct (header_ok (c_version r) (c_type r) (c_id r) (zlen (c_data r)) (zlen (c_pad r)) (c_unused r)) as (Hh1 & Hh2 & Hh3); [done|lia|lia|]. set (h := header_of_mem _) in *. clearbody h. cbn [rlength padding rtype]. rewrite Hh2, Hh3.
  rewrite wrap_small by lia. rewrite (decide_False (P := readableBytes buf >= 8 + zlen (c_data r) + zlen (c_pad r))) by lia. done.
Qed.
Lemma w_nonneg dn a : 0 <= a_w a -> 0 <= a_w (fold_left rec_step dn a).
Proof.
  revert a. induction dn as [|r dn IH]; intros a H; [done|]. apply IH. zlen_pos. unfold rec_step. repeat (case_decide || destruct (_ || _)); cbn [a_w]; zlia.
Qed.
Lemma loop_records dn fuel rest q more buf a c : Forall good_rec (dn ++ rest) -> RC a c -> 0 <= a_w a -> ok (fold_left rec_step dn a) -> wf buf -> content buf = encs rec_bytes dn ++ q -> q ++ more = encs rec_bytes rest -> waits rec_bytes rest q -> (length dn < fuel)%nat ->
  exists c' buf', parseRequest_loop fuel buf c = Ret (c', buf') /\ RC (fold_left rec_step dn a) c' /\ wf buf' /\ content buf' = q /\ zlen (buffer_ buf') = zlen (buffer_ buf).
Proof.
  revert fuel buf a c. induction dn as [|r dn IH]; intros fuel buf a c G Ra Hw Hk W C E Wt Hf; (destruct fuel as [|fuel]; [cbn in Hf; lia|]).
  - cbn in C. rewrite <- C in E, Wt. rewrite (records_stop fuel buf c rest more); try done. by exists c, buf.
  - cbn [app] in G. apply Forall_cons in G as [Gr G]. unfold encs in C. cbn [map concat] in C. rewrite <- app_assoc in C. cbn [fold_left] in Hk |- *.
    destruct (loop_record fuel buf a c r _ Ra Hw (ok_before ok rec_step ok_step_back _ _ Hk) Gr W C) as (c1 & b1 & -> & R1 & W1 & C1 & S1).
    destruct (IH fuel b1 _ c1 G R1 (w_nonneg [r] a Hw) Hk W1 C1 E Wt) as (c2 & b2 & -> & R2 & W2 & C2 & S2); [cbn in Hf; lia|]. exists c2, b2. split_and!; try done. lia.
Qed.

(** ** Requests *)

(** The state of the program while it reads a request, and after it. *)
Definition RW (conn0 : Conn) (calls0 : list (gmap (list byte) (list byte) * list byte)) (a : Abs) (w : World) : Prop :=
  0 <= a_w a /\
  if a_done a then
    gotRequest_ (codec w) = false /\ keepConn_ (codec w) = a_keep a /\ params_ (codec w) = ∅ /\ Holds (stdin_ (codec w)) [] (a_w a) /\ Holds (paramsStream_ (codec w)) [] (a_w a) /\
    conn w = (if a_keep a then conn0 else conn_shutdown conn0) /\ calls w = calls0 ++ [(a_params a, a_stdin a)]
  else RC a (codec w) /\ conn w = conn0 /\ calls w = calls0.
Lemma world_eta w : mkWorld (codec w) (conn w) (calls w) = w.
Proof. by destruct w. Qed.
Lemma Holds_all b d w : Holds b d w -> Holds (retrieveAll b) [] w.
Proof. intros (W & C & L). destruct (retrieveAll_ok b W) as [W' C']. split_and!; done. Qed.
Lemma fcgi_handles conn0 calls0 : handles rec_bytes onMessage (RW conn0 calls0) ok good_rec rec_step.
Proof.
  intros dn rest q more buf a w G [Hw Ra] Hk W C E Wt. unfold onMessage, parseRequest. destruct (a_done a) eqn:Ed.
  - destruct dn as [|r dn].
    + cbn in C. rewrite <- C in E, Wt. rewrite (records_stop _ buf (codec w) rest more) by done. cbn [obind]. destruct Ra as (R1 & R2). rewrite R1, world_eta. exists w, buf. split; [done|]. cbn [fold_left]. split; [split; [done|by rewrite Ed]|done].
    + exfalso. cbn [fold_left] in Hk. pose proof (ok_before ok rec_step ok_step_back _ _ Hk) as (Hb & _). unfold rec_step in Hb. rewrite Ed, orb_true_r in Hb. done.
  - destruct Ra as (Rc & Ec & El). destruct (loop_records dn (S (Z.to_nat (readableBytes buf))) rest q more buf a (codec w)) as (c' & buf' & E' & R' & W' & C' & L'); try done.
    { rewrite <- content_len, C, zlen_app by done. assert (Z.of_nat (length dn) <= zlen (encs rec_bytes dn)) by (apply encs_length, Forall_true; apply rec_pos). zlia. }
    rewrite E'. cbn [obind]. pose proof (w_nonneg dn a Hw) as Hw'. destruct R' as (R1 & R2 & R3 & R4 & R5). rewrite R1. destruct (a_done (fold_left rec_step dn a)) eqn:Ed'.
    + eexists _, buf'. split; [done|]. split; [|done]. split; [done|]. rewrite Ed'. destruct R3 as (W3 & C3 & L3). cbn [codec set_gotRequest set_params set_paramsStream set_stdin gotRequest_ keepConn_ params_ stdin_ paramsStream_ conn calls].
      rewrite R2, Ec, El, C3, R5. split_and!; try done; [by eapply Holds_all|by eapply Holds_all].
    + eexists _, buf'. split; [done|]. split; [|done]. split; [done|]. rewrite Ed'. cbn [codec conn calls]. split_and!; try done. split_and!; try done. by rewrite R1, Ed'.
Qed.

Record Request := mkRequest { q_id : Z; q_flags : byte; q_params : list (list byte * list byte); q_params_records : list (list byte * list byte); q_params_pad : list byte; q_body_records : list (list byte * list byte); q_body_pad : list byte }.
Definition piece (t id : Z) (p : list byte * list byte) : Rec := mkRec 1 t id 0 p.1 p.2.
Definition request_records (q : Request) : list Rec :=
  mkRec 1 kFcgiBeginRequest (q_id q) 0 (be_bytes 2 kFcgiResponder ++ [q_flags q] ++ replicate 5 Byte.x00) [] ::
  map (piece kFcgiParams (q_id q)) (q_params_records q) ++ [piece kFcgiParams (q_id q) ([], q_params_pad q)] ++
  map (piece kFcgiStdin (q_id q)) (q_body_records q) ++ [piece kFcgiStdin (q_id q) ([], q_body_pad q)].
Definition good_piece (p : list byte * list byte) : Prop := p.1 <> [] /\ zlen p.1 < 2 ^ 16 /\ zlen p.2 < 2 ^ 8.
(** The records of the parameters hold their text, cut anywhere. *)
Record good_request (q : Request) : Prop := mkGood {
  g_params : Forall good_param (q_params q);
  g_text : concat (map fst (q_params_records q)) = enc_params (q_params q);
  g_pieces : Forall good_piece (q_params_records q) /\ Forall good_piece (q_body_records q);
  g_pads : zlen (q_params_pad q) < 2 ^ 8 /\ zlen (q_body_pad q) < 2 ^ 8 }.
Definition q_body (q : Request) : list byte := concat (map fst (q_body_records q)).
Definition q_keep (q : Request) : bool := bool_decide (q_flags q = z2b kFcgiKeepConn).
Definition q_bytes (q : Request) : list byte := encs rec_bytes (request_records q).

Lemma request_good q : good_request q -> Forall good_rec (request_records q).
Proof.
  intros [_ _ [G1 G2] [P1 P2]]. unfold request_records. rewrite Forall_cons, !Forall_app, !Forall_map. split; [split_and!; (done || by vm_compute)|]. split_and!.
  - eapply Forall_impl; [exact G1|]. intros p (? & ? & ?). done.
  - apply Forall_singleton. done.
  - eapply Forall_impl; [exact G2|]. intros p (? & ? & ?). done.
  - apply Forall_singleton. done.
Qed.
Lemma pieces_fold t id ps a : t = kFcgiParams \/ t = kFcgiStdin -> Forall good_piece ps -> a_bad a = false -> a_done a = false ->
  fold_left rec_step (map (piece t id) ps) a =
    mkAbs (a_goal a) (if decide (t = kFcgiParams) then a_text a ++ concat (map fst ps) else a_text a) (a_params a) (if decide (t = kFcgiParams) then a_stdin a else a_stdin a ++ concat (map fst ps)) (a_keep a) false false (a_w a + zlen (concat (map fst ps))).
Proof.
  intros Ht G. revert a. induction G as [|[d pad] ps (Nd & _ & _) G IH]; intros a Hb Hd; cbn [map fold_left concat].
  - destruct a; cbn in *. subst. rewrite !app_nil_r, zlen_nil, Z.add_0_r. by case_decide.
  - assert (rec_step a (piece t id (d, pad)) = mkAbs (a_goal a) (if decide (t = kFcgiParams) then a_text a ++ d else a_text a) (a_params a) (if decide (t = kFcgiParams) then a_stdin a else a_stdin a ++ d) (a_keep a) false false (a_w a + zlen d)) as ->.
    { unfold rec_step. rewrite Hb, Hd. cbn [orb piece c_type c_data fst snd] in *. destruct Ht as [-> | ->].
      - rewrite decide_False, !decide_True, decide_False by done. done.
      - rewrite !decide_False, decide_True by done. by rewrite bool_decide_false. }
    rewrite IH by done. cbn [a_goal a_text a_params a_stdin a_keep a_w fst]. rewrite zlen_app. f_equal; [..|lia]; case_decide; by rewrite ?app_assoc.
Qed.
Lemma request_fold q a : good_request q -> a = mkAbs (q_params q) [] ∅ [] (a_keep a) false false (a_w a) ->
  exists w, fold_left rec_step (request_records q) a = mkAbs (q_params q) [] (put_params (q_params q) ∅) (q_body q) (q_keep q) true false w /\ w = a_w a + 8 + zlen (enc_params (q_params q)) + zlen (q_body q).
Proof.
  intros [_ Tx [G1 G2] _] ->. cbn [a_w]. unfold request_records. cbn [fold_left]. rewrite !fold_left_app.
  assert (forall k w, rec_step (mkAbs (q_params q) [] ∅ [] k false false w) (mkRec 1 kFcgiBeginRequest (q_id q) 0 (be_bytes 2 kFcgiResponder ++ [q_flags q] ++ replicate 5 Byte.x00) []) =
    mkAbs (q_params q) [] ∅ [] (q_keep q) false false (w + 8)) as ->.
  { intros k w. unfold rec_step. cbn [a_bad a_done orb c_type]. rewrite (decide_True (P := kFcgiBeginRequest = kFcgiBeginRequest)) by done. cbn [a_goal a_text a_params a_stdin a_w c_data]. f_equal. rewrite decide_True by (split; [by vm_compute|reflexivity]).
    unfold q_keep. apply bool_decide_ext. change (slice _ 2 3) with [q_flags q]. split; [by intros [= ->]|by intros ->]. }
  rewrite (pieces_fold kFcgiParams (q_id q) (q_params_records q)) by (done || by left). rewrite !(decide_True (P := kFcgiParams = kFcgiParams)) by done. cbn [a_goal a_text a_params a_stdin a_keep a_w]. rewrite app_nil_l, Tx. cbn [fold_left].
  assert (forall k w, rec_step (mkAbs (q_params q) (enc_params (q_params q)) ∅ [] k false false w) (piece kFcgiParams (q_id q) ([], q_params_pad q)) = mkAbs (q_params q) [] (put_params (q_params q) ∅) [] k false false w) as ->.
  { intros k w. unfold rec_step. cbn [a_bad a_done orb c_type c_data piece fst snd a_goal a_text a_params a_stdin a_keep a_w].
    rewrite (decide_False (P := kFcgiParams = kFcgiBeginRequest)), (decide_True (P := kFcgiParams = kFcgiParams)), (decide_True (P := [] = [])), (decide_True (P := enc_params (q_params q) = _)) by done. by rewrite zlen_nil, Z.add_0_r. }
  rewrite (pieces_fold kFcgiStdin (q_id q) (q_body_records q)) by (done || by right). rewrite !(decide_False (P := kFcgiStdin = kFcgiParams)) by done. cbn [a_goal a_text a_params a_stdin a_keep a_w]. rewrite app_nil_l. unfold rec_step. cbn [a_bad a_done orb c_type c_data piece fst snd a_goal a_text a_params a_stdin a_keep a_w].
  rewrite (decide_False (P := kFcgiStdin = kFcgiBeginRequest)), (decide_False (P := kFcgiStdin = kFcgiParams)), (decide_True (P := kFcgiStdin = kFcgiStdin)) by done. rewrite app_nil_r, zlen_nil, bool_decide_true by done. eexists. split; [done|]. unfold q_body. lia.
Qed.

(** The requests of a connection, one after the other, each in pieces of its own *)
Fixpoint serve (reqs : list (list (list byte))) (buf : Buffer) (w : World) : outcome (World * Buffer) :=
  match reqs with
  | [] => Ret (w, buf)
  | chunks :: reqs => let* (w, buf) := receive onMessage chunks buf w in serve reqs buf w
  end.
Definition newConnection : outcome (World * Buffer) :=
  let* c := newFastCgiCodec in
  let* buf := newBuffer kInitialSize in
  Ret (mkWorld c newConn [], buf).

Lemma data_length rs : zlen (concat (map c_data rs)) <= zlen (encs rec_bytes rs).
Proof. induction rs as [|r rs IH]; [done|]. unfold encs in *. cbn [map concat]. rewrite !zlen_app, zlen_rec. zlia. Qed.
Lemma request_data q : good_request q -> 8 + zlen (enc_params (q_params q)) + zlen (q_body q) <= zlen (q_bytes q).
Proof.
  intros [_ Tx _ _]. unfold q_bytes. pose proof (data_length (request_records q)) as H. unfold request_records in H at 1. cbn [map concat c_data] in H. rewrite !map_app, !concat_app, !map_map in H. cbn [map concat piece c_data fst] in H.
  assert (forall ps : list (list byte * list byte), map (fun x => x.1) ps = map fst ps) as E by done. rewrite !E, Tx, !zlen_app in H. change (concat (map (fun x => x.1) (q_body_records q))) with (q_body q) in H.
  change (zlen (be_bytes 2 kFcgiResponder)) with 2 in H. change (zlen [q_flags q]) with 1 in H. change (zlen (replicate 5 Byte.x00)) with 5 in H. zlen_pos. lia.
Qed.
Definition ready (w : World) (n : Z) : Prop :=
  gotRequest_ (codec w) = false /\ params_ (codec w) = ∅ /\ Holds (stdin_ (codec w)) [] n /\ Holds (paramsStream_ (codec w)) [] n.
Lemma serve_requests qs : forall css buf w n, Forall good_request qs -> Forall2 (fun q cs => concat cs = q_bytes q) qs css -> ready w n -> 0 <= n -> wf buf -> content buf = [] -> zlen (buffer_ buf) <= 2 ^ 11 + n -> n + zlen (concat (concat css)) <= 2 ^ 50 ->
  exists w' buf', serve css buf w = Ret (w', buf') /\ calls w' = calls w ++ map (fun q => (put_params (q_params q) ∅, q_body q)) qs /\ sent_ (conn w') = sent_ (conn w) /\
    connected_ (conn w') = (connected_ (conn w) && forallb q_keep qs) /\ content buf' = [].
Proof.
  induction qs as [|q qs IH]; intros css buf w n G F2 Rd Hn W C L Hs; inversion F2 as [|? cs ? css' Eq F2']; subst; cbn [serve].
  - exists w, buf. cbn. rewrite app_nil_r, andb_true_r. done.
  - apply Forall_cons in G as [Gq G]. cbn [concat] in Hs. rewrite concat_app, zlen_app in Hs. zlen_pos. set (a := mkAbs (q_params q) [] ∅ [] (keepConn_ (codec w)) false false n).
    destruct (request_fold q a Gq eq_refl) as (n' & Ef & En). pose proof (request_data q Gq) as Hq. rewrite <- Eq in Hq. zlen_pos. destruct Rd as (R1 & R2 & R3 & R4).
    destruct (receive_all rec_bytes onMessage (RW (conn w) (calls w)) ok good_rec rec_step (fcgi_handles _ _) ok_step_back cs (request_records q) buf a w) as (w1 & b1 & -> & Rw & W1 & C1 & L1); try done.
    + by apply request_good.
    + rewrite Ef. split; [done|]. cbn [a_w a_goal]. split; [cbn [a a_w] in En; lia|apply Gq].
    + apply Forall_true. apply rec_pos.
    + unfold max_size. lia.
    + cbn [obind]. rewrite Ef in Rw. destruct Rw as [Hw' (S1 & S2 & S3 & S4 & S5 & S6 & S7)]. cbn [a_keep a_params a_stdin a_w] in *. cbn [a a_w] in En.
      destruct (IH css' b1 w1 (n + zlen (concat cs)) G F2') as (w2 & b2 & -> & E2 & E3 & E4 & E5); try done; [split_and!; try done; eapply Holds_more; (done || lia)|lia..|].
      exists w2, b2. split; [done|]. rewrite E2, S7, <- app_assoc. split; [done|]. split; [rewrite E3, S6; by destruct (q_keep q)|]. split; [|done]. rewrite E4, S6. cbn [forallb]. destruct (q_keep q); cbn [andb]; [done|]. cbn. by rewrite andb_false_r.
Qed.

(** ** The response *)

Definition stdout_rec (d pad : list byte) : Rec := mkRec 1 kFcgiStdout 1 0 d pad.
Definition end_rec : Rec := mkRec 1 kFcgiEndRequest 1 0 (be_bytes 4 0 ++ be_bytes 4 0) [].
Lemma header_mem t l p : mem_of_header (mkHeader 1 t (hostToNetwork16 host 1) (hostToNetwork16 host l) p 0) = be_bytes 1 1 ++ be_bytes 1 t ++ be_bytes 2 1 ++ be_bytes 2 l ++ be_bytes 1 p ++ be_bytes 1 0.
Proof.
  unfold mem_of_header, hostToNetwork16. cbn [version rtype rid rlength padding unused]. rewrite !int_to_mem_htobe. destruct (network_mem host 1) as (_ & _ & _ & ->). destruct (network_mem host t) as (_ & _ & _ & ->). destruct (network_mem host p) as (_ & _ & _ & ->). destruct (network_mem host 0) as (_ & _ & _ & ->). done.
Qed.
Lemma header_zero t : mem_of_header (mkHeader 1 t (hostToNetwork16 host 1) 0 0 0) = be_bytes 1 1 ++ be_bytes 1 t ++ be_bytes 2 1 ++ be_bytes 2 0 ++ be_bytes 1 0 ++ be_bytes 1 0.
Proof. rewrite <- header_mem. do 2 f_equal. by destruct host. Qed.
Lemma append_all d b : wf b -> zlen (buffer_ b) + zlen d <= max_size -> exists b', append d (zlen d) b = Ret b' /\ wf b' /\ content b' = content b ++ d /\ zlen (buffer_ b') <= zlen (buffer_ b) + zlen d.
Proof. intros W L. zlen_pos. destruct (append_ok d (zlen d) b W) as (b' & E & W' & C' & _ & L'); [lia|done|]. exists b'. rewrite ztake_all in C' by lia. split_and!; try done. lia. Qed.
Lemma header_len v t i l p u : zlen (be_bytes 1 v ++ be_bytes 1 t ++ be_bytes 2 i ++ be_bytes 2 l ++ be_bytes 1 p ++ be_bytes 1 u) = 8.
Proof. rewrite !zlen_app, !zlen_be_bytes. lia. Qed.
(** The body and its padding are a record of a multiple of eight bytes, followed by the end of the output and of the request. *)
Lemma respond_ok b : wf b -> zlen (buffer_ b) <= 2 ^ 20 -> readableBytes b < 2 ^ 16 -> kRecordHeader <= prependableBytes b ->
  exists b' pad, respond b = Ret b' /\ wf b' /\ content b' = encs rec_bytes [stdout_rec (content b) (replicate pad Byte.x00); stdout_rec [] []; end_rec] /\ (pad < 8)%nat /\ (zlen (content b) + Z.of_nat pad) mod 8 = 0.
Proof.
  intros W L R P. unfold respond. rewrite decide_True by (unfold kRecordHeader in *; lia). pose proof (content_len b W) as Lc. zlen_pos. set (n := readableBytes b) in *. unfold kRecordHeader in *.
  assert (u8 (Z.land (u64 (- n)) 7) = (- n) mod 8) as ->.
  { change 7 with (Z.ones 3). rewrite Z.land_ones by lia. change (2 ^ 3) with 8. assert (u64 (- n) mod 8 = (- n) mod 8) as ->; [|apply wrap_small; pose proof (Z.mod_pos_bound (- n) 8 ltac:(lia)); lia].
    unfold wrap. change (2 ^ 64) with (8 * 2 ^ 61). rewrite Z.rem_mul_r by lia. rewrite Z.add_mod, Z.mul_comm, Z.mod_mul, Z.add_0_r, !Z.mod_mod by lia. done. }
  pose proof (Z.mod_pos_bound (- n) 8 ltac:(lia)) as Hp. set (p := (- n) mod 8) in *. rewrite header_mem.
  destruct (prepend_ok (be_bytes 1 1 ++ be_bytes 1 kFcgiStdout ++ be_bytes 2 1 ++ be_bytes 2 (u16 n) ++ be_bytes 1 p ++ be_bytes 1 0) 8 b W) as (b1 & -> & W1 & C1 & L1 & _); [by vm_compute|done|]. cbn [obind].
  destruct (append_ok (replicate 8 Byte.x00) p b1 W1) as (b2 & -> & W2 & C2 & _ & L2); [change (zlen (replicate 8 Byte.x00)) with 8; lia|unfold max_size; lia|]. cbn [obind].
  assert (ztake p (replicate 8 Byte.x00) = replicate (Z.to_nat p) Byte.x00) as Ep by (unfold ztake; rewrite take_replicate; f_equal; lia). unfold endStdout. rewrite header_zero. unfold kRecordHeader.
  destruct (append_all (be_bytes 1 1 ++ be_bytes 1 kFcgiStdout ++ be_bytes 2 1 ++ be_bytes 2 0 ++ be_bytes 1 0 ++ be_bytes 1 0) b2 W2) as (b3 & E3 & W3 & C3 & L3); [rewrite header_len; unfold max_size; lia|]. rewrite header_len in E3, L3. rewrite E3. cbn [obind].
  unfold endRequest. rewrite header_mem. unfold kRecordHeader.
  destruct (append_all (be_bytes 1 1 ++ be_bytes 1 kFcgiEndRequest ++ be_bytes 2 1 ++ be_bytes 2 (u16 8) ++ be_bytes 1 0 ++ be_bytes 1 0) b3 W3) as (b4 & E4 & W4 & C4 & L4); [rewrite header_len; unfold max_size; lia|]. rewrite header_len in E4, L4. rewrite E4. cbn [obind].
  unfold appendInt32. destruct (network_mem host 0) as (_ & -> & _).
  destruct (append_all (be_bytes 4 0) b4 W4) as (b5 & E5 & W5 & C5 & L5); [rewrite zlen_be_bytes; unfold max_size; lia|]. rewrite zlen_be_bytes in E5, L5. change (Z.of_nat 4) with 4 in E5, L5. rewrite E5. cbn [obind].
  destruct (append_all (be_bytes 4 0) b5 W5) as (b6 & E6 & W6 & C6 & L6); [rewrite zlen_be_bytes; unfold max_size; lia|]. rewrite zlen_be_bytes in E6. change (Z.of_nat 4) with 4 in E6. rewrite E6. exists b6, (Z.to_nat p). split; [done|]. split; [done|]. split; [|split; [lia|]].
  - rewrite C6, C5, C4, C3, C2, C1, Ep, (ztake_all 8) by (by vm_compute). unfold encs. cbn [map concat]. rewrite app_nil_r. unfold rec_bytes. cbn [stdout_rec end_rec c_version c_type c_id c_unused c_data c_pad]. rewrite zlen_replicate, Lc by lia.
    rewrite (wrap_small 16 n) by lia. change (u16 8) with 8. change (zlen (be_bytes 4 0 ++ be_bytes 4 0)) with 8. change (zlen []) with 0. rewrite <- !app_assoc, !app_nil_r. done.
  - rewrite Lc, Z2Nat.id by lia. unfold p. rewrite Z.add_mod_idemp_r by lia. rewrite Z.add_opp_diag_r. done.
Qed.

(** A body of 64 KiB or more gets no header: the first record of the response begins with the bytes of the body. *)
Lemma respond_large b : wf b -> zlen (buffer_ b) <= 2 ^ 20 -> 2 ^ 16 <= readableBytes b -> exists b', respond b = Ret b' /\ content b' = content b ++ encs rec_bytes [stdout_rec [] []; end_rec].
Proof.
  intros W L R. unfold respond. rewrite decide_False by lia. cbn [obind]. unfold endStdout. rewrite header_zero. unfold kRecordHeader.
  destruct (append_all (be_bytes 1 1 ++ be_bytes 1 kFcgiStdout ++ be_bytes 2 1 ++ be_bytes 2 0 ++ be_bytes 1 0 ++ be_bytes 1 0) b W) as (b3 & E3 & W3 & C3 & L3); [rewrite header_len; unfold max_size; lia|]. rewrite header_len in E3, L3. rewrite E3. cbn [obind].
  unfold endRequest. rewrite header_mem. unfold kRecordHeader.
  destruct (append_all (be_bytes 1 1 ++ be_bytes 1 kFcgiEndRequest ++ be_bytes 2 1 ++ be_bytes 2 (u16 8) ++ be_bytes 1 0 ++ be_bytes 1 0) b3 W3) as (b4 & E4 & W4 & C4 & L4); [rewrite header_len; unfold max_size; lia|]. rewrite header_len in E4, L4. rewrite E4. cbn [obind].
  unfold appendInt32. destruct (network_mem host 0) as (_ & -> & _).
  destruct (append_all (be_bytes 4 0) b4 W4) as (b5 & E5 & W5 & C5 & L5); [rewrite zlen_be_bytes; unfold max_size; lia|]. rewrite zlen_be_bytes in E5, L5. change (Z.of_nat 4) with 4 in E5, L5. rewrite E5. cbn [obind].
  destruct (append_all (be_bytes 4 0) b5 W5) as (b6 & E6 & W6 & C6 & L6); [rewrite zlen_be_bytes; unfold max_size; lia|]. rewrite zlen_be_bytes in E6. change (Z.of_nat 4) with 4 in E6. rewrite E6. exists b6. split; [done|].
  rewrite C6, C5, C4, C3. unfold encs. cbn [map concat]. rewrite app_nil_r. unfold rec_bytes. cbn [stdout_rec end_rec c_version c_type c_id c_unused c_data c_pad]. change (u16 8) with 8. change (zlen (be_bytes 4 0 ++ be_bytes 4 0)) with 8. change (zlen []) with 0. rewrite <- !app_assoc, !app_nil_r. done.
Qed.
End Codec.

(** C21. The requests of a connection, whose parameters and bodies are cut into records anywhere and with any padding, and whose bytes come in any pieces (the end of a request and the beginning of the next not in one
    piece, as the web server waits for the answer): the callback is called exactly once per request, with the parameters it has (the last value of a name) and its body, no assertion fails, nothing is read outside the buffers,
    and the connection stays up exactly if every request asks to keep it. *)
Theorem fastcgi_requests (host : endian) (qs : list Request) (css : list (list (list byte))) (w : World) (buf : Buffer) :
  newConnection = Ret (w, buf) -> Forall good_request qs -> Forall2 (fun q cs => concat cs = q_bytes q) qs css -> zlen (concat (concat css)) <= 2 ^ 50 ->
  exists w' buf', serve host css buf w = Ret (w', buf') /\ calls w' = map (fun q => (put_params (q_params q) ∅, q_body q)) qs /\ connected_ (conn w') = forallb q_keep qs /\ content buf' = [].
Proof.
  intros E G F L. unfold newConnection, newFastCgiCodec in E. destruct (newBuffer_ok kInitialSize) as (b & Eb & W & C & _ & _ & Lb); [by vm_compute|]. rewrite !Eb in E. cbn [obind] in E. injection E as <- <-.
  assert (zlen (buffer_ b) <= 2 ^ 11 + 0) as Lb' by (rewrite Lb; by vm_compute).
  destruct (serve_requests host qs css b (mkWorld (mkFcgi false false b b ∅) newConn []) 0 G F) as (w' & buf' & E' & E1 & _ & E3 & E4); try done. by exists w', buf'.
Qed.

#[export] Instance good_param_dec p : Decision (good_param p).
Proof. unfold good_param. apply _. Defined.
#[export] Instance good_piece_dec p : Decision (good_piece p).
Proof. unfold good_piece. apply _. Defined.
(** A request with two parameters, one of them with a long value, in two records with padding and in pieces of five bytes; and a second one that closes the connection *)
Definition example_params : list (list byte * list byte) := [(bytes "REQUEST_URI", bytes "/sudoku/"); (bytes "QUERY", replicate 130 Byte.x61)].
Definition example_text : list byte := enc_params example_params.
Definition example_requests : list Request :=
  [mkRequest 1 Byte.x01 example_params [(ztake 7 example_text, [Byte.x00]); (zdrop 7 example_text, [])] [] [(bytes "some", bytes "pad"); (bytes "body", [])] (bytes "p");
   mkRequest 1 Byte.x00 [] [] [] [] []].
Fixpoint cut (fuel : nat) (d : list byte) : list (list byte) := match fuel, d with S fuel, _ :: _ => ztake 5 d :: cut fuel (zdrop 5 d) | _, _ => [] end.
Definition example_chunks : list (list (list byte)) := map (fun q => cut 300 (q_bytes q)) example_requests.
Definition example_start : World * Buffer := match newConnection with Ret x => x | Stop _ => (mkWorld (mkFcgi false false (sample_buffer []) (sample_buffer []) ∅) newConn [], sample_buffer []) end.
Lemma fastcgi_requests_witness :
  exists w' buf', serve LittleEndian example_chunks example_start.2 example_start.1 = Ret (w', buf') /\ calls w' = map (fun q => (put_params (q_params q) ∅, q_body q)) example_requests /\
    connected_ (conn w') = forallb q_keep example_requests /\ content buf' = [].
Proof.
  apply (fastcgi_requests LittleEndian example_requests example_chunks example_start.1 example_start.2).
  - vm_compute. reflexivity.
  - apply Forall_cons_2; [|apply Forall_cons_2; [|apply Forall_nil_2]]; split; try (apply (bool_decide_unpack _); vm_compute; exact Logic.I).
  - constructor; [vm_compute; reflexivity|]. constructor; [vm_compute; reflexivity|]. constructor.
  - vm_compute. discriminate.
Defined.
(** Two requests in one piece are one call, with the bodies of both. *)
Lemma pipelined_requests_merge :
  (let* (w, buf) := newConnection in let* (w, _) := receive (onMessage LittleEndian) [concat (map q_bytes [mkRequest 1 Byte.x01 [] [] [] [(bytes "one", [])] []; mkRequest 1 Byte.x01 [] [] [] [(bytes "two", [])] []])] buf w in Ret (calls w)) = Ret [(∅, bytes "onetwo")].
Proof. vm_compute. reflexivity. Qed.
End FastCgi.
