(* ===== verification/SudokuStat.v ===== *)
(** * Statistics of the sudoku servers (src/muduo/examples/sudoku/stat.h, percentile.h)

    [SudokuStat] counts responses per second in two circular buffers of [kSeconds] seconds, whatever the clock does. The comment in its source states an
    invariant; the file proves it and what it is for: every second of the window has the number of its responses and the sum of their latencies. [Percentile] prints the
    percentiles of the load test. *)

From stdpp Require Import sorting.
From S2P Require Import Prelude Format Timestamp LogStream.

Module Stat.

Definition kSeconds : Z := 60.
(** Times are below [2 ^ 63 / 10 ^ 6] seconds, so that the arithmetic on [time_t] does not overflow; the counters are [int64_t]. *)
Record SudokuStat := mkStat {
  lastSecond_ : Z; requests_ : list Z; latencies_ : list Z; totalRequests_ : Z; totalResponses_ : Z; totalSolved_ : Z; badRequests_ : Z; droppedRequests_ : Z; totalLatency_ : Z; badLatency_ : Z }.
Definition newStat : SudokuStat := mkStat 0 [] [] 0 0 0 0 0 0 0.

(** [circular_buffer::push_back] with the capacity [kSeconds], and [back() += x] *)
Definition push_back (x : Z) (l : list Z) : list Z := if decide (zlen l < kSeconds) then l ++ [x] else tail l ++ [x].
Definition add_at (i : nat) (x : Z) (l : list Z) : outcome (list Z) :=
  match l !! i with
  | Some v => Ret (<[i := i64 (v + x)]> l)
  | None => Stop OutOfRange
  end.
Definition add_back (x : Z) (l : list Z) : outcome (list Z) := match l with [] => Stop OutOfRange | _ => add_at (length l - 1) x l end.

Definition with_window (last : Z) (r l : list Z) (s : SudokuStat) : SudokuStat :=
  mkStat last r l (totalRequests_ s) (totalResponses_ s) (totalSolved_ s) (badRequests_ s) (droppedRequests_ s) (totalLatency_ s) (badLatency_ s).
(** [++requests_.back(); latencies_.back() += elapsed_us] *)
Definition count_back (last : Z) (r l : list Z) (elapsed : Z) (s : SudokuStat) : outcome SudokuStat :=
  let* r := add_back 1 r in
  let* l := add_back elapsed l in
  Ret (with_window last r l s).
(** [while (lastSecond_ < second)] takes [second - lastSecond_] rounds. *)
Fixpoint ahead (n : nat) (last : Z) (r l : list Z) : Z * list Z * list Z :=
  match n with
  | O => (last, r, l)
  | S n => ahead n (last + 1) (push_back 0 r) (push_back 0 l)
  end.

Definition recordResponse (now receive : Z) (solved : bool) (s : SudokuStat) : outcome SudokuStat :=
  let second := secondsSinceEpoch now in
  let elapsed_us := i64 (now - receive) in
  assert* bool_decide (zlen (requests_ s) = zlen (latencies_ s)) in
  let s := mkStat (lastSecond_ s) (requests_ s) (latencies_ s) (totalRequests_ s) (i64 (totalResponses_ s + 1)) (if solved then i64 (totalSolved_ s + 1) else totalSolved_ s) (badRequests_ s) (droppedRequests_ s) (totalLatency_ s) (badLatency_ s) in
  if decide (elapsed_us < 0) then
    Ret (mkStat (lastSecond_ s) (requests_ s) (latencies_ s) (totalRequests_ s) (totalResponses_ s) (totalSolved_ s) (badRequests_ s) (droppedRequests_ s) (totalLatency_ s) (i64 (badLatency_ s + 1)))
  else
    let s := mkStat (lastSecond_ s) (requests_ s) (latencies_ s) (totalRequests_ s) (totalResponses_ s) (totalSolved_ s) (badRequests_ s) (droppedRequests_ s) (i64 (totalLatency_ s + elapsed_us)) (badLatency_ s) in
    let last := lastSecond_ s in
    let firstSecond := last - zlen (requests_ s) + 1 in
    let* s :=
      if decide (last = second) then count_back last (requests_ s) (latencies_ s) elapsed_us s
      else if decide (last + 1 = second \/ last = 0) then count_back second (push_back 0 (requests_ s)) (push_back 0 (latencies_ s)) elapsed_us s
      else if decide (second > last) then
        if decide (second < last + kSeconds) then
          let '(last, r, l) := ahead (Z.to_nat (second - last)) last (requests_ s) (latencies_ s) in count_back last r l elapsed_us s
        else count_back second (push_back 0 []) (push_back 0 []) elapsed_us s
      else if decide (second >= firstSecond) then
        let idx := second - firstSecond in
        assert* bool_decide (idx < zlen (requests_ s)) in
        let* r := add_at (Z.to_nat idx) 1 (requests_ s) in
        let* l := add_at (Z.to_nat idx) elapsed_us (latencies_ s) in
        Ret (with_window last r l s)
      else
        assert* bool_decide (second < firstSecond) in Ret s in
    assert* bool_decide (zlen (requests_ s) = zlen (latencies_ s)) in Ret s.

Definition reset (s : SudokuStat) : SudokuStat := mkStat 0 [] [] 0 0 0 0 (droppedRequests_ s) 0 0.
Definition recordRequest (s : SudokuStat) : SudokuStat :=
  mkStat (lastSecond_ s) (requests_ s) (latencies_ s) (i64 (totalRequests_ s + 1)) (totalResponses_ s) (totalSolved_ s) (badRequests_ s) (droppedRequests_ s) (totalLatency_ s) (badLatency_ s).
Definition recordBadRequest (s : SudokuStat) : SudokuStat :=
  mkStat (lastSecond_ s) (requests_ s) (latencies_ s) (totalRequests_ s) (totalResponses_ s) (totalSolved_ s) (i64 (badRequests_ s + 1)) (droppedRequests_ s) (totalLatency_ s) (badLatency_ s).
Definition recordDroppedRequest (s : SudokuStat) : SudokuStat :=
  mkStat (lastSecond_ s) (requests_ s) (latencies_ s) (totalRequests_ s) (totalResponses_ s) (totalSolved_ s) (badRequests_ s) (i64 (droppedRequests_ s + 1)) (totalLatency_ s) (badLatency_ s).

(** [report]: what is put into the [LogStream]; there are no doubles. *)
Definition no_double (v : Empty_set) : list byte := match v with end.
Definition str (s : string) : item (double := Empty_set) := ICStr (Some (bytes s ++ [Byte.x00])).
Definition int (v : Z) : item (double := Empty_set) := IInteger v.
Definition nl : item (double := Empty_set) := IChar Byte.x0a.
Definition sum64 (l : list Z) : Z := fold_left (fun a x => i64 (a + x)) l 0.
Definition report_items (queueSize : Z) (s : SudokuStat) : list (item (double := Empty_set)) :=
  let requests := sum64 (requests_ s) in
  let latency := sum64 (latencies_ s) in
  [str "task_queue_size "; int queueSize; nl; str "total_requests "; int (totalRequests_ s); nl; str "total_responses "; int (totalResponses_ s); nl; str "total_solved "; int (totalSolved_ s); nl;
   str "bad_requests "; int (badRequests_ s); nl; str "dropped_requests "; int (droppedRequests_ s); nl; str "latency_sum_us "; int (totalLatency_ s); nl] ++
  (if decide (badLatency_ s > 0) then [str "bad_latency"; int (badLatency_ s); nl] else []) ++
  [str "last_second "; int (lastSecond_ s); nl; str "requests_per_second"] ++ concat (map (fun x => [IChar Byte.x20; int x]) (requests_ s)) ++ [nl; str "requests_60s "; int requests; nl; str "latency_sum_us_per_second"] ++
  concat (map (fun x => [IChar Byte.x20; int x]) (latencies_ s)) ++ [nl; str "latency_sum_us_60s "; int latency; nl;
   str "latency_us_60s "; int (if decide (requests = 0) then 0 else i64 (latency /c requests)); nl; str "latency_us_avg "; int (if decide (totalResponses_ s = 0) then 0 else i64 (totalLatency_ s /c totalResponses_ s)); nl].
(** [mem] is what the new stream's buffer holds. *)
Definition report (mem : list byte) (queueSize : Z) (s : SudokuStat) : outcome (list byte) :=
  let* st := put_all no_double (report_items queueSize s) (FixedBuf.new mem) in
  FixedBuf.toString st.

(** ** The window *)

(** The responses since the last [reset] whose latency is not negative: their seconds and latencies *)
Definition total (f : Z * Z -> Z) (s : Z) (h : list (Z * Z)) : Z := foldr (fun x n => (if decide (x.1 = s) then f x else 0) + n) 0 h.
Definition count : Z -> list (Z * Z) -> Z := total (fun _ => 1).
Definition latency : Z -> list (Z * Z) -> Z := total snd.
Definition first_second (s : SudokuStat) : Z := lastSecond_ s - zlen (requests_ s) + 1.
(** The clock does not go back. *)
Definition forward (h : list (Z * Z)) : Prop := forall i j x y, (i <= j)%nat -> h !! i = Some x -> h !! j = Some y -> x.1 <= y.1.
(** What the comment in the source says, and what the buffers hold *)
Record Window (s : SudokuStat) (h : list (Z * Z)) : Prop := mkWindow {
  w_size : zlen (requests_ s) = zlen (latencies_ s) /\ zlen (requests_ s) <= kSeconds;
  w_empty : lastSecond_ s = 0 -> requests_ s = [] /\ h = [];
  w_last : 0 <= lastSecond_ s /\ (0 < lastSecond_ s -> requests_ s <> [] /\ exists e, (lastSecond_ s, e) ∈ h) /\ Forall (fun x => 0 < x.1 <= lastSecond_ s) h;
  w_count : forall i v, requests_ s !! i = Some v -> v = i64 (count (first_second s + Z.of_nat i) h);
  w_latency : forall i v, latencies_ s !! i = Some v -> v = i64 (latency (first_second s + Z.of_nat i) h);
  w_cover : forward h -> Forall (fun x => lastSecond_ s - kSeconds < x.1 -> first_second s <= x.1) h }.

Lemma total_snoc f s h x : total f s (h ++ [x]) = total f s h + (if decide (x.1 = s) then f x else 0).
Proof. unfold total. induction h as [|y h IH]; cbn [app foldr]; [lia|]. rewrite IH. lia. Qed.
Lemma total_none f s h : Forall (fun x => x.1 <> s) h -> total f s h = 0.
Proof. intros F. induction F as [|x h N F IH]; [done|]. unfold total in *. cbn [foldr]. rewrite IH, decide_False by done. done. Qed.

(** One buffer: [g] gives what each second has. *)
Definition Buf (l : list Z) (last : Z) (g : Z -> Z) : Prop := forall i v, l !! i = Some v -> v = i64 (g (last - zlen l + 1 + Z.of_nat i)).
Lemma zlen_push x l : zlen l <= kSeconds -> zlen (push_back x l) = Z.min (zlen l + 1) kSeconds.
Proof.
  intros H. unfold push_back, kSeconds in *. case_decide as D; [rewrite zlen_app; change (zlen [x]) with 1; lia|]. destruct l as [|y l]; [by vm_compute in D|]. cbn [tail]. rewrite zlen_app. pose proof (zlen_cons y l) as Ec. rewrite Ec in *. change (zlen [x]) with 1. lia.
Qed.
Lemma push_Buf l last g : zlen l <= kSeconds -> Buf l last g -> g (last + 1) = 0 -> Buf (push_back 0 l) (last + 1) g.
Proof.
  intros L B G i v E. rewrite zlen_push by done. unfold push_back, kSeconds in *. case_decide as D.
  - apply lookup_app_Some in E as [E | [Hi E]]; [rewrite (B i v E); do 2 f_equal; lia|]. apply list_lookup_singleton_Some in E as [Ei <-]. replace (last + 1 - Z.min (zlen l + 1) 60 + 1 + Z.of_nat i) with (last + 1) by (unfold zlen in *; lia). by rewrite G.
  - destruct l as [|y l]; [by vm_compute in D|]. cbn [tail] in E. pose proof (zlen_cons y l) as Ec. rewrite Ec in *. apply lookup_app_Some in E as [E | [Hi E]].
    + rewrite (B (S i) v E). rewrite Ec. do 2 f_equal. lia.
    + apply list_lookup_singleton_Some in E as [Ei <-]. replace (last + 1 - Z.min (1 + zlen l + 1) 60 + 1 + Z.of_nat i) with (last + 1) by (unfold zlen in *; lia). by rewrite G.
Qed.
Lemma push_nonempty x l : push_back x l <> [].
Proof. unfold push_back. case_decide; [by destruct l|]. by destruct (tail l). Qed.
Lemma ahead_ok n last r l : zlen r = zlen l -> zlen r <= kSeconds ->
  exists r' l', ahead n last r l = (last + Z.of_nat n, r', l') /\ zlen r' = zlen l' /\ zlen r' = Z.min (zlen r + Z.of_nat n) kSeconds /\ (r <> [] -> r' <> []) /\
    (forall g, Buf r last g -> (forall s, last < s <= last + Z.of_nat n -> g s = 0) -> Buf r' (last + Z.of_nat n) g) /\ (forall g, Buf l last g -> (forall s, last < s <= last + Z.of_nat n -> g s = 0) -> Buf l' (last + Z.of_nat n) g).
Proof.
  revert last r l. induction n as [|n IH]; intros last r l E L; cbn [ahead].
  - exists r, l. rewrite Z.add_0_r. split_and!; try done. lia.
  - pose proof (zlen_push 0 r L) as Pr. pose proof (zlen_push 0 l ltac:(lia)) as Pl. destruct (IH (last + 1) (push_back 0 r) (push_back 0 l)) as (r' & l' & -> & E' & L' & N' & Br & Bl); [lia|lia|]. exists r', l'.
    replace (last + 1 + Z.of_nat n) with (last + Z.of_nat (S n)) in * by lia. split_and!; [done|done|lia|intros _; apply N', push_nonempty| |].
    + intros g B G. apply Br; [apply push_Buf; [done|done|apply G; lia]|intros s Hs; apply G; lia].
    + intros g B G. apply Bl; [apply push_Buf; [lia|done|apply G; lia]|intros s Hs; apply G; lia].
Qed.
(** Adding to the second [s] *)
Lemma add_at_ok i x l last g g' s : Buf l last g -> (i < length l)%nat -> s = last - zlen l + 1 + Z.of_nat i -> (forall k, g' k = g k + (if decide (s = k) then x else 0)) ->
  exists l', add_at i x l = Ret l' /\ zlen l' = zlen l /\ (l <> [] -> l' <> []) /\ Buf l' last g'.
Proof.
  intros B Hi -> G. unfold add_at. destruct (lookup_lt_is_Some_2 l i Hi) as [v Ev]. rewrite Ev. eexists. split; [done|]. assert (zlen (<[i := i64 (v + x)]> l) = zlen l) as El by (unfold zlen; by rewrite length_insert). split; [done|]. split; [intros N E; apply N; apply length_zero_iff_nil; rewrite <- (length_insert l i (i64 (v + x))), E; done|].
  intros j u. rewrite El, G. intros E. destruct (decide (j = i)) as [->|N].
  - rewrite list_lookup_insert_eq in E by done. injection E as <-. rewrite decide_True by done. rewrite (B i v Ev). apply swrap_add.
  - rewrite list_lookup_insert_ne in E by done. rewrite decide_False by lia. rewrite Z.add_0_r. by apply B.
Qed.
Lemma add_back_ok x l last g g' : Buf l last g -> l <> [] -> (forall k, g' k = g k + (if decide (last = k) then x else 0)) ->
  exists l', add_back x l = Ret l' /\ zlen l' = zlen l /\ l' <> [] /\ Buf l' last g'.
Proof.
  intros B N G. unfold add_back. destruct l as [|y l]; [done|]. destruct (add_at_ok (length (y :: l) - 1) x (y :: l) last g g' last B) as (l' & E & L & N' & B'); [cbn; lia|unfold zlen; cbn [length]; lia|done|]. exists l'. split_and!; [done|done|by apply N'|done].
Qed.

Lemma forward_snoc h x : forward (h ++ [x]) -> forward h /\ Forall (fun y => y.1 <= x.1) h.
Proof.
  intros F. split.
  - intros i j a b H Ea Eb. apply (F i j a b H); apply lookup_app_l_Some; done.
  - apply Forall_forall. intros y Hy. apply list_elem_of_lookup in Hy as [i Hi]. apply (F i (length h) y x); [apply lookup_lt_Some in Hi; lia|by apply lookup_app_l_Some|]. by rewrite lookup_app_r, Nat.sub_diag by lia.
Qed.
(** A response of the second [second], after which the window ends with [last] and has [r] and [l] *)
Lemma window_add s h second e last r l : Window s h -> 0 < second -> zlen r = zlen l -> zlen r <= kSeconds -> r <> [] -> lastSecond_ s <= last -> second <= last -> (last = second \/ last = lastSecond_ s /\ second < last) ->
  Buf r last (fun k => count k (h ++ [(second, e)])) -> Buf l last (fun k => latency k (h ++ [(second, e)])) ->
  (lastSecond_ s <= second -> last - zlen r + 1 <= second /\ Forall (fun x => last - kSeconds < x.1 -> first_second s <= x.1 -> last - zlen r + 1 <= x.1) h) -> Window (with_window last r l s) (h ++ [(second, e)]).
Proof.
  intros [W1 W2 (W3 & W4 & W5) W6 W7 W8] Hs E L N Hl Hl2 Hc Br Bl Hf. split; unfold first_second; cbn [with_window lastSecond_ requests_ latencies_]; try done.
  - intros ->. lia.
  - split; [lia|]. split.
    + intros _. split; [done|]. destruct Hc as [-> | [-> Hlt]]; [exists e; apply elem_of_app; right; by apply list_elem_of_singleton|]. destruct (W4 ltac:(lia)) as [_ [e' H]]. exists e'. apply elem_of_app. by left.
    + apply Forall_app. split; [|apply Forall_singleton; cbn; lia]. eapply Forall_impl; [exact W5|]. cbn. intros x Hx. lia.
  - intros i v Ev. rewrite E. by apply Bl.
  - intros F. destruct (forward_snoc _ _ F) as [Fh Le]. cbn [fst] in Le. specialize (W8 Fh). assert (lastSecond_ s <= second) as Hls.
    { destruct (decide (0 < lastSecond_ s)) as [H|H]; [|lia]. destruct (W4 H) as [_ [e' He]]. rewrite Forall_forall in Le. by apply (Le _ He). }
    destruct (Hf Hls) as [Hf1 Hf2]. apply Forall_app. split; [|apply Forall_singleton; cbn; lia]. rewrite Forall_forall in *. intros x Hx Hk. apply Hf2; [done|done|]. apply W8; [done|]. lia.
Qed.
Lemma recordResponse_ok now receive solved s h : Window s h -> 1000000 <= now ->
  exists s', recordResponse now receive solved s = Ret s' /\ totalResponses_ s' = i64 (totalResponses_ s + 1) /\ totalRequests_ s' = totalRequests_ s /\ totalSolved_ s' = (if solved then i64 (totalSolved_ s + 1) else totalSolved_ s) /\
    Window s' (if decide (i64 (now - receive) < 0) then h else h ++ [(secondsSinceEpoch now, i64 (now - receive))]).
Proof.
  intros W Hn. pose proof W as [[W1 W1'] W2 (W3 & W4 & W5) W6 W7 W8]. unfold recordResponse. rewrite bool_decide_true by done. cbn [check]. set (e := i64 (now - receive)). set (second := secondsSinceEpoch now).
  assert (0 < second) as Hs. { unfold second, secondsSinceEpoch, kMicroSecondsPerSecond. rewrite Z.quot_div_nonneg by lia. apply Z.div_str_pos. lia. } clearbody second.
  destruct (decide (e < 0)) as [De|De]; [eexists; split; [done|]; split_and!; try done; destruct W; by split|]. clearbody e. cbn [lastSecond_ requests_ latencies_].
  match goal with |- context [with_window _ _ _ ?x] => set (s0 := x) end.
  assert (Window s0 h) as W0 by (destruct W; by split). assert (lastSecond_ s0 = lastSecond_ s) as E0 by done. assert (first_second s0 = first_second s) as F0 by done.
  assert (totalResponses_ s0 = i64 (totalResponses_ s + 1) /\ totalRequests_ s0 = totalRequests_ s /\ totalSolved_ s0 = if solved then i64 (totalSolved_ s + 1) else totalSolved_ s) as T0 by done. clearbody s0.
  set (gr := fun k => count k (h ++ [(second, e)])). set (gl := fun k => latency k (h ++ [(second, e)])).
  assert (forall k, gr k = count k h + (if decide (second = k) then 1 else 0)) as Gr by (intros k; apply (total_snoc (fun _ => 1))). assert (forall k, gl k = latency k h + (if decide (second = k) then e else 0)) as Gl by (intros k; apply (total_snoc snd)).
  assert (Buf (requests_ s) (lastSecond_ s) (fun k => count k h)) as Br by (intros i v Ev; by apply W6). assert (Buf (latencies_ s) (lastSecond_ s) (fun k => latency k h)) as Bl by (intros i v Ev; rewrite <- W1; by apply W7).
  assert (forall k, lastSecond_ s < k -> count k h = 0 /\ latency k h = 0) as Gz.
  { intros k Hk. split; apply total_none; (eapply Forall_impl; [exact W5|]); cbn; intros x Hx; lia. }
  (* The four ways the window can end at [second] *)
  assert (forall last r l, last = second -> zlen r = zlen l -> zlen r <= kSeconds -> r <> [] -> lastSecond_ s <= second -> Buf r last (fun k => count k h) -> Buf l last (fun k => latency k h) ->
    Forall (fun x => last - kSeconds < x.1 -> first_second s <= x.1 -> last - zlen r + 1 <= x.1) h ->
    exists s', (let* s := count_back last r l e s0 in assert* bool_decide (zlen (requests_ s) = zlen (latencies_ s)) in Ret s) = Ret s' /\ totalResponses_ s' = i64 (totalResponses_ s + 1) /\ totalRequests_ s' = totalRequests_ s /\
      totalSolved_ s' = (if solved then i64 (totalSolved_ s + 1) else totalSolved_ s) /\ Window s' (h ++ [(second, e)])) as Back.
  { intros last r l -> El Ll Nr Hle B1 B2 Hf. assert (l <> []) as Nl by (intros ->; apply Nr; destruct r; [done|]; rewrite zlen_cons, zlen_nil in El; zlen_pos; lia). unfold count_back.
    destruct (add_back_ok 1 r second _ gr B1 Nr Gr) as (r' & -> & Lr & Nr' & Br'). cbn [obind]. destruct (add_back_ok e l second _ gl B2 Nl Gl) as (l' & -> & Ll' & Nl' & Bl'). cbn [obind]. cbn [with_window requests_ latencies_]. rewrite bool_decide_true by lia. cbn [check].
    eexists. split; [done|]. destruct T0 as (T1 & T2 & T3). split_and!; try done. apply window_add; rewrite ?E0, ?F0; try done; try lia. intros _. split; [|by rewrite Lr]. assert (1 <= zlen r) by (destruct r; [done|rewrite zlen_cons; zlia]). lia. }
  destruct (decide (lastSecond_ s = second)) as [D1|D1].
  { apply Back; try done; [apply W4; lia|lia|]. apply Forall_forall. intros x _ _ Hx. unfold first_second in Hx. lia. }
  destruct (decide (lastSecond_ s + 1 = second \/ lastSecond_ s = 0)) as [D2|D2].
  { pose proof (zlen_push 0 (requests_ s) W1') as Pr. pose proof (zlen_push 0 (latencies_ s) ltac:(lia)) as Pl. apply Back; [done|lia|lia|apply push_nonempty|lia| | |].
    - destruct (decide (lastSecond_ s = 0)) as [Z0|Z0]; [|replace second with (lastSecond_ s + 1) by lia; apply push_Buf; [done|done|apply Gz; lia]]. destruct (W2 Z0) as [-> ->]. intros i v Ev. apply list_lookup_singleton_Some in Ev as [_ <-]. done.
    - destruct (decide (lastSecond_ s = 0)) as [Z0|Z0]; [|replace second with (lastSecond_ s + 1) by lia; apply push_Buf; [lia|done|apply Gz; lia]]. destruct (W2 Z0) as [Er ->]. rewrite Er in W1. assert (latencies_ s = []) as -> by (destruct (latencies_ s); [done|rewrite zlen_cons, zlen_nil in W1; zlen_pos; lia]).
      intros i v Ev. apply list_lookup_singleton_Some in Ev as [_ <-]. done.
    - destruct (decide (lastSecond_ s = 0)) as [Z0|Z0]; [destruct (W2 Z0) as [_ ->]; by apply Forall_nil|]. apply Forall_forall. intros x Hx Hk Hf. unfold first_second in Hf. rewrite Pr. lia. }
  destruct (decide (second > lastSecond_ s)) as [D3|D3].
  { destruct (decide (second < lastSecond_ s + kSeconds)) as [D4|D4].
    - destruct (ahead_ok (Z.to_nat (second - lastSecond_ s)) (lastSecond_ s) (requests_ s) (latencies_ s) W1 W1') as (r' & l' & -> & El & Ll & Nr & B1 & B2). apply Back; [lia|done|lia|apply Nr, W4; lia|lia|apply B1; [done|intros k Hk; apply Gz; lia]|apply B2; [done|intros k Hk; apply Gz; lia]|].
      apply Forall_forall. intros x Hx Hk Hf. unfold first_second in Hf. lia.
    - apply Back; try done; [lia|..].
      + intros i v Ev. apply list_lookup_singleton_Some in Ev as [-> <-]. change (zlen (push_back 0 [])) with 1. destruct (Gz (second - 1 + 1 + Z.of_nat 0)) as [Gz1 _]; [lia|]. by rewrite Gz1.
      + intros i v Ev. apply list_lookup_singleton_Some in Ev as [-> <-]. change (zlen (push_back 0 [])) with 1. destruct (Gz (second - 1 + 1 + Z.of_nat 0)) as [_ Gz1]; [lia|]. by rewrite Gz1.
      + rewrite Forall_forall in W5 |- *. intros x Hx Hk _. specialize (W5 x Hx). lia. }
  destruct T0 as (T1 & T2 & T3). destruct (decide (second >= lastSecond_ s - zlen (requests_ s) + 1)) as [D4|D4].
  - rewrite bool_decide_true by lia. cbn [check]. set (i := Z.to_nat (second - (lastSecond_ s - zlen (requests_ s) + 1))). assert (i < length (requests_ s))%nat as Hi by (unfold i, zlen in *; lia).
    destruct (add_at_ok i 1 (requests_ s) (lastSecond_ s) _ gr second Br Hi) as (r' & -> & Lr & Nr & Br'); [unfold i; lia|done|]. cbn [obind].
    destruct (add_at_ok i e (latencies_ s) (lastSecond_ s) _ gl second Bl) as (l' & -> & Ll & Nl & Bl'); [unfold i, zlen in *; lia|unfold i; lia|done|]. cbn [obind with_window requests_ latencies_]. rewrite bool_decide_true by lia. cbn [check]. eexists. split; [done|]. split_and!; try done.
    apply window_add; rewrite ?E0, ?F0; try done; try lia. apply Nr. intros E. rewrite E in Hi. cbn in Hi. lia.
  - rewrite !bool_decide_true by (lia || (destruct W0 as [[? _] _ _ _ _ _]; done)). cbn [check obind]. rewrite bool_decide_true by (destruct W0 as [[? _] _ _ _ _ _]; done). cbn [check]. eexists. split; [done|]. split_and!; try done.
    destruct W0 as [V1 V2 (V3 & V4 & V5) V6 V7 V8]. split; try done.
    + intros Z0. lia.
    + split; [done|]. split; [intros Hp; destruct (V4 Hp) as [? [e' He]]; split; [done|exists e'; apply elem_of_app; by left]|]. apply Forall_app. split; [done|]. apply Forall_singleton. cbn. lia.
    + intros i v Ev. rewrite (V6 i v Ev). f_equal. fold (gr (first_second s0 + Z.of_nat i)). rewrite Gr, decide_False by (rewrite F0; unfold first_second; lia). lia.
    + intros i v Ev. rewrite (V7 i v Ev). f_equal. fold (gl (first_second s0 + Z.of_nat i)). rewrite Gl, decide_False by (rewrite F0; unfold first_second; lia). lia.
    + intros F. destruct (forward_snoc _ _ F) as [Fh Le]. destruct (V4 ltac:(lia)) as [_ [e' He]]. rewrite Forall_forall in Le. specialize (Le _ He). cbn in Le. lia.
Qed.

(** ** Operations in any order *)

Inductive Op := OResponse (now receive : Z) (solved : bool) | ORequest | OBad | ODropped | OReset.
Definition stat_op (o : Op) (s : SudokuStat) : outcome SudokuStat :=
  match o with
  | OResponse now receive solved => recordResponse now receive solved s
  | ORequest => Ret (recordRequest s)
  | OBad => Ret (recordBadRequest s)
  | ODropped => Ret (recordDroppedRequest s)
  | OReset => Ret (reset s)
  end.
Fixpoint stat_run (os : list Op) (s : SudokuStat) : outcome SudokuStat := match os with [] => Ret s | o :: os => let* s := stat_op o s in stat_run os s end.
(** The responses with a latency, and the numbers of responses and requests, since the last reset *)
Definition op_history (h : list (Z * Z)) (o : Op) : list (Z * Z) :=
  match o with
  | OResponse now receive _ => if decide (i64 (now - receive) < 0) then h else h ++ [(secondsSinceEpoch now, i64 (now - receive))]
  | OReset => []
  | _ => h
  end.
Definition op_count (n : Z * Z) (o : Op) : Z * Z := match o with OResponse _ _ _ => (n.1 + 1, n.2) | ORequest => (n.1, n.2 + 1) | OReset => (0, 0) | _ => n end.
Definition op_legal (o : Op) : Prop := match o with OResponse now _ _ => 1000000 <= now | _ => True end.

Lemma count_back_dropped last r l e s s' : count_back last r l e s = Ret s' -> droppedRequests_ s' = droppedRequests_ s /\ badRequests_ s' = badRequests_ s.
Proof. unfold count_back. destruct (add_back 1 r); [|done]. cbn [obind]. destruct (add_back e l); [|done]. cbn [obind]. by intros [= <-]. Qed.
Lemma recordResponse_dropped now receive solved s s' : recordResponse now receive solved s = Ret s' -> droppedRequests_ s' = droppedRequests_ s /\ badRequests_ s' = badRequests_ s.
Proof.
  unfold recordResponse. destruct (bool_decide _); [|done]. cbn [check]. case_decide; [by intros [= <-]|]. cbn zeta. cbn [lastSecond_ requests_ latencies_]. match goal with |- obind ?x _ = _ -> _ => destruct x as [s1|] eqn:E end; [|discriminate]. cbn [obind]. destruct (bool_decide (zlen (requests_ s1) = zlen (latencies_ s1))); [|done]. cbn [check]. intros [= <-].
  repeat match type of E with
  | count_back _ _ _ _ _ = _ => apply count_back_dropped in E; exact E
  | (if decide ?P then _ else _) = _ => destruct (decide P)
  | check ?b _ = _ => destruct b; unfold check in E
  | obind ?x _ = _ => destruct x; cbn [obind] in E
  | Stop _ = _ => discriminate
  | Ret _ = _ => by injection E as <-
  | _ => destruct (ahead _ _ _ _) as [[? ?] ?]
  end.
Qed.
Lemma new_window : Window newStat [].
Proof. split; unfold first_second; by cbn. Qed.
Lemma stat_run_ok os s h n : Window s h -> totalResponses_ s = i64 n.1 -> totalRequests_ s = i64 n.2 -> Forall op_legal os ->
  exists s', stat_run os s = Ret s' /\ Window s' (fold_left op_history os h) /\ totalResponses_ s' = i64 (fold_left op_count os n).1 /\ totalRequests_ s' = i64 (fold_left op_count os n).2.
Proof.
  intros W T1 T2 F. revert s h n W T1 T2. induction F as [|o os L F IH]; intros s h n W T1 T2; cbn [stat_run fold_left]; [by exists s|].
  assert (exists s1, stat_op o s = Ret s1 /\ Window s1 (op_history h o) /\ totalResponses_ s1 = i64 (op_count n o).1 /\ totalRequests_ s1 = i64 (op_count n o).2) as (s1 & -> & W1 & T1' & T2'); [|by apply IH].
  destruct o as [now receive solved| | | |]; cbn [stat_op op_history op_count fst snd].
  - destruct (recordResponse_ok now receive solved s h W L) as (s1 & E & R1 & R2 & _ & W1). exists s1. split_and!; [done|done|by rewrite R1, T1, swrap_add|by rewrite R2].
  - eexists. split; [done|]. split; [destruct W; by split|]. split; [done|]. cbn [recordRequest totalRequests_]. by rewrite T2, swrap_add.
  - eexists. split; [done|]. split; [destruct W; by split|done].
  - eexists. split; [done|]. split; [destruct W; by split|done].
  - eexists. split; [done|]. split; [|done]. destruct new_window. by split.
Qed.


(** Two responses in a second, one three seconds later, one in between, one a century ago, and one with a negative latency *)
Definition example_ops : list Op :=
  [ORequest; OResponse 100000005 100000000 true; OResponse 100000009 100000002 false; OResponse 103000000 102000000 true; OResponse 101000000 100999999 true; OResponse 1000000 1000000 true; OResponse 103000000 104000000 true].
Example example_window : (let* s := stat_run example_ops newStat in Ret (lastSecond_ s, requests_ s, latencies_ s, badLatency_ s)) = Ret (103, [2; 1; 0; 1], [12; 1; 0; 1000000], 1).
Proof. vm_compute. reflexivity. Qed.

(** [reset] forgets the counter of the requests that were dropped. *)
Lemma reset_keeps_dropped s : droppedRequests_ (reset s) = droppedRequests_ s /\ totalRequests_ (reset s) = 0 /\ badRequests_ (reset s) = 0.
Proof. done. Qed.

(** ** The report *)

Definition int64 (v : Z) : Prop := - 2 ^ 63 <= v < 2 ^ 63.
Lemma i64_int64 x : int64 (i64 x).
Proof. pose proof (swrap_range 64 x ltac:(lia)). unfold int64. change (64 - 1) with 63 in *. lia. Qed.
Lemma fmt_d_20 v : int64 v -> zlen (fmt_d v) <= 20.
Proof.
  unfold int64. intros H. unfold fmt_d. case_decide; [rewrite zlen_cons|].
  - pose proof (udec_length (- v) 19 ltac:(change (10 ^ Z.of_nat 19) with 10000000000000000000; lia) ltac:(lia)). unfold zlen. lia.
  - pose proof (udec_length v 19 ltac:(change (10 ^ Z.of_nat 19) with 10000000000000000000; lia) ltac:(lia)). unfold zlen. lia.
Qed.
Lemma row_length l : Forall int64 l -> zlen (concat (map (text no_double) (concat (map (fun x => [IChar Byte.x20; int x]) l)))) <= 21 * zlen l.
Proof. intros F. induction F as [|x l H F IH]; [done|]. cbn [map concat app text int]. rewrite zlen_cons, zlen_app, zlen_cons. pose proof (fmt_d_20 x H). lia. Qed.
Lemma sum64_int64 l : int64 (sum64 l).
Proof. unfold sum64. destruct l as [|x l _] using rev_ind; [by vm_compute|]. rewrite fold_left_app. apply i64_int64. Qed.
Definition Fields (s : SudokuStat) : Prop :=
  int64 (lastSecond_ s) /\ Forall int64 (requests_ s) /\ Forall int64 (latencies_ s) /\
  Forall int64 [totalRequests_ s; totalResponses_ s; totalSolved_ s; badRequests_ s; droppedRequests_ s; totalLatency_ s; badLatency_ s].
(** All of the report fits in the stream: nothing is left out. *)
Lemma report_complete mem queueSize s : zlen mem = kSmallBuffer -> int64 queueSize -> Fields s -> zlen (requests_ s) <= kSeconds -> zlen (latencies_ s) <= kSeconds ->
  report mem queueSize s = Ret (concat (map (text no_double) (report_items queueSize s))).
Proof.
  intros M Q (Fl & Fr & Fy & Ft) Lr Ly. unfold report. repeat (apply Forall_cons in Ft as [? Ft]).
  assert (forall v, int64 v -> printable (int v)) as Pi by (unfold int64; cbn; intros v Hv; lia). pose proof (sum64_int64 (requests_ s)) as S1. pose proof (sum64_int64 (latencies_ s)) as S2.
  assert (forall b x, int64 (if decide (b = 0) then 0 else i64 x)) as Av by (intros b x; case_decide; [by vm_compute|apply i64_int64]).
  assert (forall t, printable (str t)) as Ps by (intros t; cbn; apply elem_of_app; right; by left).
  assert (forall l, Forall int64 l -> Forall (printable (double := Empty_set)) (concat (map (fun x => [IChar Byte.x20; int x]) l))) as Pr.
  { intros l Fl'. induction Fl' as [|x l Hx Fl' IH]; [by apply Forall_nil|]. cbn [map concat app]. apply Forall_cons. split; [done|]. apply Forall_cons. split; [by apply Pi|done]. }
  assert (Forall (printable (double := Empty_set)) (report_items queueSize s)) as P.
  { unfold report_items. cbv zeta. rewrite !Forall_app. split_and!; try (by apply Pr); try (case_decide; [|by apply Forall_nil]); repeat (apply Forall_cons; split); try (by apply Forall_nil); try done; try apply Ps; apply Pi; done || apply Av. }
  assert (stream_ok (FixedBuf.new mem)) as Ok by (split; [cbn; unfold kSmallBuffer; lia|done]).
  destruct (put_all_ok no_double ltac:(by intros []) (report_items queueSize s) (FixedBuf.new mem) Ok P) as (st & -> & Ok' & C). cbn [obind].
  assert (contents (FixedBuf.new mem) = []) as C0 by done. rewrite C0, add_texts in C.
  - unfold FixedBuf.toString, FixedBuf.length. destruct Ok' as [O1 O2]. unfold kSmallBuffer in *. rewrite swrap_small by lia. rewrite wrap_small by lia. rewrite load_ok by lia. f_equal. exact C.
  - rewrite zlen_nil. unfold report_items. cbv zeta. rewrite !map_app, !concat_app, !zlen_app. pose proof (row_length _ Fr) as R1. pose proof (row_length _ Fy) as R2. pose proof (fmt_d_20 _ Q). pose proof (fmt_d_20 _ Fl). pose proof (fmt_d_20 _ S1). pose proof (fmt_d_20 _ S2).
    repeat match goal with Hf : int64 ?v |- _ => assert_fails (assert (zlen (fmt_d v) <= 20) by assumption); pose proof (fmt_d_20 _ Hf) end.
    pose proof (fmt_d_20 _ (Av (sum64 (requests_ s)) (sum64 (latencies_ s) /c sum64 (requests_ s)))) as A1. pose proof (fmt_d_20 _ (Av (totalResponses_ s) (totalLatency_ s /c totalResponses_ s))) as A2.
    assert (zlen (concat (map (text no_double) (if decide (badLatency_ s > 0) then [str "bad_latency"; int (badLatency_ s); nl] else []))) <= 40) as A3.
    { destruct (decide (badLatency_ s > 0)); [|cbn [map concat]; rewrite zlen_nil; lia]. cbn [map concat text int nl]. rewrite !zlen_app. change (zlen (text no_double (str "bad_latency"))) with 11. change (zlen [Byte.x0a]) with 1. rewrite zlen_nil. lia. }
    cbn [map concat text int nl]. rewrite !zlen_app. repeat match goal with |- context [zlen (text no_double (str ?t))] => let n := eval vm_compute in (zlen (text no_double (str t))) in change (zlen (text no_double (str t))) with n end.
    change (zlen [Byte.x0a]) with 1. change (@zlen byte []) with 0. unfold kMaxNumericSize, kSmallBuffer, kSeconds in *. lia.
Qed.
End Stat.

Module Percentile.

(** [getPercentile]: the nearest rank *)
Definition getPercentile (latencies : list Z) (percent : Z) : outcome Z :=
  assert* bool_decide (zlen latencies > 0) in
  let idx := if decide (percent > 0) then (zlen latencies * percent + 99) / 100 - 1 else 0 in
  assert* (if decide (percent > 0) then bool_decide (idx < zlen latencies) else true) in
  match latencies !! Z.to_nat idx with
  | Some v => Ret v
  | None => Stop OutOfRange
  end.

(** The constructor: the sorted latencies and the numbers that are printed. [sum] is an [int]. *)
Record Numbers := mkNumbers { n_min : Z; n_max : Z; n_mean : Z; n_median : Z; n_p90 : Z; n_p99 : Z }.
Definition percentile (latencies : list Z) : outcome (list Z * option Numbers) :=
  match latencies with
  | [] => Ret ([], None)
  | _ =>
      let latencies := merge_sort Z.le latencies in
      let min := default 0 (head latencies) in
      let max := default 0 (last latencies) in
      let sum := fold_left (fun a x => i32 (a + x)) latencies 0 in
      let mean := i32 (sum /c i32 (zlen latencies)) in
      let* median := getPercentile latencies 50 in
      let* p90 := getPercentile latencies 90 in
      let* p99 := getPercentile latencies 99 in
      Ret (latencies, Some (mkNumbers min max mean median p90 p99))
  end.

(** The rows of the histogram that [save] writes: the lower end, the count and the count so far *)
Definition kInterval : Z := 5.
Fixpoint save_loop (l : list Z) (low count sum : Z) (rows : list (Z * Z * Z)) : outcome (Z * Z * Z * list (Z * Z * Z)) :=
  match l with
  | [] => Ret (low, count, sum, rows)
  | x :: l =>
      if decide (x < low + kInterval) then save_loop l low (i32 (count + 1)) sum rows
      else
        let sum := i32 (sum + count) in
        let rows := rows ++ [(low, count, sum)] in
        let low := x /c kInterval * kInterval in
        assert* bool_decide (x < low + kInterval) in
        save_loop l low 1 sum rows
  end.
Definition save (latencies : list Z) : outcome (list (Z * Z * Z)) :=
  match latencies with
  | [] => Ret []
  | x :: _ =>
      let* (r, rows) := save_loop latencies (x /c kInterval * kInterval) 0 0 [] in
      let '(low, count, sum) := (r : Z * Z * Z) in
      let sum := i32 (sum + count) in
      assert* bool_decide (sum = zlen latencies) in
      Ret (rows ++ [(low, count, sum)])
  end.

(** ** Percentiles *)

Definition below (P : Z -> bool) (l : list Z) : Z := zlen (List.filter P l).
Lemma getPercentile_index l p : 0 < zlen l -> 0 < p <= 100 -> exists i v, getPercentile l p = Ret v /\ l !! i = Some v /\ zlen l * p <= 100 * (Z.of_nat i + 1) /\ 100 * Z.of_nat i < zlen l * p.
Proof.
  intros Hl Hp. unfold getPercentile. rewrite bool_decide_true by lia. cbn [check]. rewrite !decide_True by lia. set (idx := (zlen l * p + 99) / 100 - 1). pose proof (Z.div_mod (zlen l * p + 99) 100 ltac:(lia)) as Dm. pose proof (Z.mod_pos_bound (zlen l * p + 99) 100 ltac:(lia)) as Mb.
  assert (0 <= idx < zlen l) as Hi by (unfold idx; nia). rewrite bool_decide_true by lia. cbn [check]. destruct (lookup_lt_is_Some_2 l (Z.to_nat idx)) as [v Ev]; [unfold zlen in *; lia|]. rewrite Ev. exists (Z.to_nat idx), v. split_and!; try done; unfold idx in *; lia.
Qed.
Lemma sorted_lookup l i j x y : Sorted Z.le l -> (i <= j)%nat -> l !! i = Some x -> l !! j = Some y -> x <= y.
Proof.
  intros S%Sorted_StronglySorted; [|intros a b c; lia]. revert i j. induction S as [|a l S IH F]; intros i j H Ex Ey; [done|]. destruct i as [|i], j as [|j]; cbn in Ex, Ey; try lia; simplify_eq; [lia| |by apply (IH i j); [lia|..]].
  rewrite Forall_forall in F. apply F. by eapply list_elem_of_lookup_2.
Qed.
Lemma filter_split (P : Z -> bool) (l k : list Z) : below P (l ++ k) = below P l + below P k.
Proof. unfold below. by rewrite List.filter_app, zlen_app. Qed.
Lemma filter_all (P : Z -> bool) l : (forall i x, l !! i = Some x -> P x = true) -> below P l = zlen l.
Proof. unfold below. induction l as [|x l IH]; intros H; [done|]. cbn [List.filter]. rewrite (H 0%nat x eq_refl), !zlen_cons, IH; [done|]. intros i y Ey. by apply (H (S i)). Qed.
Lemma filter_none (P : Z -> bool) l : (forall i x, l !! i = Some x -> P x = false) -> below P l = 0.
Proof. unfold below. induction l as [|x l IH]; intros H; [done|]. cbn [List.filter]. rewrite (H 0%nat x eq_refl), IH; [done|]. intros i y Ey. by apply (H (S i)). Qed.
(** At least [p] percent of the latencies are at most the percentile, and fewer are below it. *)
Lemma percentile_rank l p : 0 < zlen l -> 0 < p <= 100 -> Sorted Z.le l -> exists v, getPercentile l p = Ret v /\ v ∈ l /\ zlen l * p <= 100 * below (fun x => x <=? v) l /\ 100 * below (fun x => x <? v) l < zlen l * p.
Proof.
  intros Hl Hp Srt. destruct (getPercentile_index l p Hl Hp) as (i & v & E & Ei & H1 & H2). exists v. split; [done|]. split; [by eapply list_elem_of_lookup_2|]. pose proof (lookup_lt_Some _ _ _ Ei) as Li.
  assert (below (fun x => x <=? v) l = below (fun x => x <=? v) (take (S i) l) + below (fun x => x <=? v) (drop (S i) l)) as -> by (by rewrite <- filter_split, take_drop).
  assert (below (fun x => x <? v) l = below (fun x => x <? v) (take i l) + below (fun x => x <? v) (drop i l)) as -> by (by rewrite <- filter_split, take_drop).
  assert (below (fun x => x <=? v) (take (S i) l) = Z.of_nat i + 1) as ->.
  { rewrite filter_all; [unfold zlen; rewrite length_take; lia|]. intros j x Ex. apply lookup_take_Some in Ex as [Ex Hj]. apply Z.leb_le. apply (sorted_lookup l j i x v Srt ltac:(lia) Ex Ei). }
  assert (below (fun x => x <? v) (drop i l) = 0) as ->.
  { apply filter_none. intros j x Ex. rewrite lookup_drop in Ex. apply Z.ltb_ge. apply (sorted_lookup l i (i + j) v x Srt ltac:(lia) Ei Ex). }
  assert (below (fun x => x <? v) (take i l) <= Z.of_nat i) as Hb by (unfold below, zlen; pose proof (List.filter_length_le (fun x => x <? v) (take i l)); rewrite length_take in *; lia).
  assert (0 <= below (fun x => x <=? v) (drop (S i) l)) by (unfold below; zlia). lia.
Qed.
Lemma percentile_ok l : l <> [] -> exists m n, percentile l = Ret (m, Some n) /\ m ≡ₚ l /\ Sorted Z.le m /\ getPercentile m 50 = Ret (n_median n) /\ getPercentile m 99 = Ret (n_p99 n).
Proof.
  intros N. set (m := merge_sort Z.le l). assert (m ≡ₚ l) as Pm by apply merge_sort_Permutation. assert (Sorted Z.le m) as Sm by (apply Sorted_merge_sort; intros x y; lia).
  assert (0 < zlen m) as Lm by (unfold zlen; rewrite Pm; destruct l; [done|cbn; lia]). destruct (percentile_rank m 50 Lm ltac:(lia) Sm) as (v1 & E1 & _). destruct (percentile_rank m 90 Lm ltac:(lia) Sm) as (v2 & E2 & _). destruct (percentile_rank m 99 Lm ltac:(lia) Sm) as (v3 & E3 & _).
  unfold percentile. destruct l as [|x l]; [done|]. fold m. rewrite E1, E2, E3. cbn [obind]. by eexists _, _.
Qed.
(** Every latency is in one row. *)
Lemma save_loop_ok l : forall low count sum rows, 0 <= count -> 0 <= sum -> count + sum + zlen l < 2 ^ 31 -> exists low' count' sum' rows', save_loop l low count sum rows = Ret (low', count', sum', rows') /\ count' + sum' = count + sum + zlen l /\ 0 <= count' /\ 0 <= sum'.
Proof.
  induction l as [|x l IH]; intros low count sum rows Hc Hs Hl; cbn [save_loop]; [eexists _, _, _, _; split; [done|]; rewrite zlen_nil; lia|]. rewrite zlen_cons in Hl |- *. zlen_pos. case_decide.
  - rewrite swrap_small by lia. destruct (IH low (count + 1) sum rows) as (a & b & c & d & -> & E & ? & ?); [lia..|]. eexists _, _, _, _. split; [done|]. lia.
  - rewrite swrap_small by lia. rewrite bool_decide_true by (unfold kInterval; pose proof (Z.quot_rem' x 5); pose proof (Z.rem_bound_abs x 5 ltac:(lia)); lia). cbn [check].
    destruct (IH (x /c kInterval * kInterval) 1 (sum + count) (rows ++ [(low, count, sum + count)])) as (a & b & c & d & -> & E & ? & ?); [lia..|]. eexists _, _, _, _. split; [done|]. lia.
Qed.
Lemma save_ok l : zlen l < 2 ^ 31 -> exists rows, save l = Ret rows.
Proof.
  intros L. unfold save. destruct l as [|x l]; [by eexists|]. destruct (save_loop_ok (x :: l) (x /c kInterval * kInterval) 0 0 []) as (a & b & c & d & -> & E & ? & ?); [lia..|]. cbn [obind]. zlen_pos. rewrite swrap_small by lia. rewrite bool_decide_true by lia. cbn [check]. by eexists.
Qed.
(** The sum of the latencies is an [int]: half an hour in all is too much. *)
Lemma mean_overflows : exists n, percentile [1500000000; 1500000000] = Ret ([1500000000; 1500000000], Some n) /\ n_mean n = -647483648.
Proof. eexists. split; [vm_compute; reflexivity|reflexivity]. Qed.
End Percentile.
