(* ===== verification/SudokuServer.v ===== *)
(** * The sudoku servers (src/muduo/examples/sudoku/server_basic.cc, server_multiloop.cc, server_threadpool.cc, server_hybrid.cc, server_prod.cc)

    A request is a line with a puzzle, which may have an id before it. The servers solve it on the thread of the connection or in a thread pool; the last one
    drops requests when it is too busy. The file shows that every request is answered once, with a solution of its puzzle. *)

From S2P Require Import Prelude Format Timestamp StringPiece Buffer Http Lines Conn Framing DancingLinks Sudoku SudokuStat.

Definition colon : byte := Byte.x3a.
Definition bad_request : list byte := bytes "Bad Request!" ++ kCRLF.
Definition id_too_long : list byte := bytes "Id too long!" ++ kCRLF.

(** ** The loop of [onMessage] *)

Section Loop.
Context {St : Type} (record : St -> St) (processRequest : list byte -> St -> outcome (bool * St)) (refuse : list byte -> St -> St).
(** The servers differ in what they do with a request and with one that they [refuse]; [record] counts it. Every line has a byte. *)
Fixpoint server_loop (fuel : nat) (len : Z) (buf : Buffer) (s : St) : outcome (St * Buffer) :=
  match fuel with
  | O => Stop NoFuel
  | S fuel =>
      if decide (len >= kCells + 2) then
        match findCRLF buf with
        | Some crlf =>
            let request := slice (buffer_ buf) (peek buf) crlf in
            let* buf := retrieveUntil (crlf + 2) buf in
            let len := readableBytes buf in
            let s := record s in
            let* (good, s) := processRequest request s in
            if good : bool then server_loop fuel len buf s else Ret (refuse bad_request s, buf)
        | None => if decide (len > 100) then Ret (refuse id_too_long s, buf) else Ret (s, buf)
        end
      else Ret (s, buf)
  end.
Definition server_onMessage (buf : Buffer) (s : St) : outcome (St * Buffer) := server_loop (S (Z.to_nat (readableBytes buf))) (readableBytes buf) buf s.
End Loop.

(** [find(request.begin(), request.end(), ':')] *)
Definition split_id (request : list byte) : option (list byte * list byte) :=
  let c := std_find colon request in
  if decide (c <> zlen request) then Some (ztake c request, zdrop (c + 1) request) else None.
Definition answer_text (id result : list byte) : list byte := (if decide (id = []) then result else id ++ colon :: result) ++ kCRLF.

(** ** server_basic.cc and server_multiloop.cc *)

Module Basic.
Definition processRequest (request : list byte) (conn : Conn) : outcome (bool * Conn) :=
  let '(id, puzzle) := default ([], request) (split_id request) in
  if decide (zlen puzzle = kCells) then
    let* result := solveSudoku puzzle in
    let* conn := conn_send (answer_text id result) conn in
    Ret (true, conn)
  else Ret (false, conn).
Definition refuse (msg : list byte) (conn : Conn) : Conn := conn_shutdown (conn_write msg conn).
Definition onMessage : Buffer -> Conn -> outcome (Conn * Buffer) := server_onMessage id processRequest refuse.
End Basic.

(** The handlers of server_multiloop.cc are the same; its connections are on several loops. *)
Module Multiloop.
Definition processRequest : list byte -> Conn -> outcome (bool * Conn) := Basic.processRequest.
Definition onMessage : Buffer -> Conn -> outcome (Conn * Buffer) := server_onMessage id processRequest Basic.refuse.
End Multiloop.

(** ** server_threadpool.cc *)

Module Pool.
(** The connection, the answers that threads have left to its loop, and the tasks of the pool that have not been done *)
Record Server := mkServer { conn : Conn; posted : list (list byte); tasks : list (list byte * list byte) }.
(** On the thread of the loop, or on one of the pool *)
Definition solve (inLoop : bool) (puzzle id : list byte) (s : Server) : outcome Server :=
  let* result := solveSudoku puzzle in
  if inLoop then
    let* conn := conn_send (answer_text id result) (conn s) in
    Ret (mkServer conn (posted s) (tasks s))
  else
    let* d := conn_post (answer_text id result) (conn s) in
    Ret (mkServer (conn s) (posted s ++ option_list d) (tasks s)).
(** [ThreadPool::run] without threads runs the task at once. *)
Definition processRequest (numThreads : Z) (request : list byte) (s : Server) : outcome (bool * Server) :=
  let '(id, puzzle) := default ([], request) (split_id request) in
  if decide (zlen puzzle = kCells) then
    if decide (numThreads = 0) then let* s := solve true puzzle id s in Ret (true, s)
    else Ret (true, mkServer (conn s) (posted s) (tasks s ++ [(puzzle, id)]))
  else Ret (false, s).
Definition refuse (msg : list byte) (s : Server) : Server := mkServer (conn_shutdown (conn_write msg (conn s))) (posted s) (tasks s).
Definition onMessage (numThreads : Z) : Buffer -> Server -> outcome (Server * Buffer) := server_onMessage id (processRequest numThreads) refuse.
(** A thread of the pool finishes the task number [k]; the loop sends the next answer that was left to it. *)
Inductive PoolEvent := Finish (k : nat) | SendPosted.
Definition pool_event (e : PoolEvent) (s : Server) : outcome Server :=
  match e with
  | Finish k =>
      match tasks s !! k with
      | Some (puzzle, id) => solve false puzzle id (mkServer (conn s) (posted s) (delete k (tasks s)))
      | None => Ret s
      end
  | SendPosted =>
      match posted s with
      | d :: ds => Ret (mkServer (conn_sendInLoop d (conn s)) ds (tasks s))
      | [] => Ret s
      end
  end.
End Pool.

(** ** server_hybrid.cc and server_prod.cc *)

Record Request := mkRequest { id : list byte; puzzle : list byte; receiveTime : Z }.
(** The connection with the answers that threads have left to its loop, the tasks of the pool, the highest mark that is set, and whether [writeCompleteCallback_] is [writeComplete]; the context of the connection is [throttle]. *)
Record Server := mkServer { conn : Conn; posted : list (list byte); queue : list Request; stat : Stat.SudokuStat; throttle : bool; highWaterMark_ : Z; writeComplete_ : bool }.
Definition set_conn v s := mkServer v (posted s) (queue s) (stat s) (throttle s) (highWaterMark_ s) (writeComplete_ s).
Definition set_posted v s := mkServer (conn s) v (queue s) (stat s) (throttle s) (highWaterMark_ s) (writeComplete_ s).
Definition set_queue v s := mkServer (conn s) (posted s) v (stat s) (throttle s) (highWaterMark_ s) (writeComplete_ s).
Definition set_stat v s := mkServer (conn s) (posted s) (queue s) v (throttle s) (highWaterMark_ s) (writeComplete_ s).
(** [conn->send] on the thread of the loop, or on one of the pool *)
Definition send (inLoop : bool) (message : list byte) (s : Server) : outcome Server :=
  if inLoop then let* c := conn_send message (conn s) in Ret (set_conn c s)
  else let* d := conn_post message (conn s) in Ret (set_posted (posted s ++ option_list d) s).
Definition send_posted (s : Server) : Server :=
  match posted s with
  | d :: ds => set_posted ds (set_conn (conn_sendInLoop d (conn s)) s)
  | [] => s
  end.
Definition solve (inLoop : bool) (now : Z) (req : Request) (s : Server) : outcome Server :=
  let* result := solveSudoku (puzzle req) in
  let* s := send inLoop (answer_text (id req) result) s in
  let* st := Stat.recordResponse now (receiveTime req) (negb (bool_decide (result = kNoSolution))) (stat s) in
  Ret (set_stat st s).
Definition record (s : Server) : Server := set_stat (Stat.recordRequest (stat s)) s.
Definition refuse (msg : list byte) (s : Server) : Server := set_stat (Stat.recordBadRequest (stat s)) (set_conn (conn_shutdown (conn_write msg (conn s))) s).
(** The request, unless the pool has threads and there is no id *)
Definition request_of (numThreads receiveTime : Z) (request : list byte) : option Request :=
  match split_id request with
  | Some (id, puzzle) => Some (mkRequest id puzzle receiveTime)
  | None => if decide (numThreads > 1) then None else Some (mkRequest [] request receiveTime)
  end.
Definition pool_run (numThreads now : Z) (req : Request) (s : Server) : outcome Server :=
  if decide (numThreads = 0) then solve true now req s else Ret (set_queue (queue s ++ [req]) s).
Definition finish (now : Z) (k : nat) (s : Server) : outcome Server :=
  match queue s !! k with
  | Some req => solve false now req (set_queue (delete k (queue s)) s)
  | None => Ret s
  end.

Module Hybrid.
Definition processRequest (numThreads now receiveTime : Z) (request : list byte) (s : Server) : outcome (bool * Server) :=
  match request_of numThreads receiveTime request with
  | None => Ret (false, s)
  | Some req =>
      if decide (zlen (puzzle req) = kCells) then let* s := pool_run numThreads now req s in Ret (true, s)
      else Ret (false, s)
  end.
Definition onMessage (numThreads now receiveTime : Z) : Buffer -> Server -> outcome (Server * Buffer) := server_onMessage record (processRequest numThreads now receiveTime) refuse.
End Hybrid.

Module Prod.
Definition busy_text (req : Request) : list byte := (if decide (id req = []) then [] else id req ++ [colon]) ++ bytes "ServerTooBusy" ++ kCRLF.
Definition onConnection (connected : bool) (s : Server) : Server :=
  if connected then mkServer (conn s) (posted s) (queue s) (stat s) false (5 * 1024 * 1024) (writeComplete_ s) else s.
Definition highWaterMark (tosend : Z) (s : Server) : Server :=
  if decide (tosend < 10 * 1024 * 1024) then mkServer (conn s) (posted s) (queue s) (stat s) true (10 * 1024 * 1024) true
  else refuse bad_request s.
Definition writeComplete (s : Server) : Server := mkServer (conn s) (posted s) (queue s) (stat s) false (5 * 1024 * 1024) false.
(** [queueSize] is what [ThreadPool::queueSize()] says, which counts the tasks of all connections. *)
Definition processRequest (queueSize : Server -> Z) (numThreads now receiveTime : Z) (request : list byte) (s : Server) : outcome (bool * Server) :=
  match request_of numThreads receiveTime request with
  | None => Ret (false, s)
  | Some req =>
      if decide (zlen (puzzle req) = kCells) then
        if decide (queueSize s < 1000 * 1000 /\ throttle s = false) then let* s := pool_run numThreads now req s in Ret (true, s)
        else
          let* s := send true (busy_text req) s in
          Ret (true, set_stat (Stat.recordDroppedRequest (stat s)) s)
      else Ret (false, s)
  end.
Definition onMessage (queueSize : Server -> Z) (numThreads now receiveTime : Z) : Buffer -> Server -> outcome (Server * Buffer) := server_onMessage record (processRequest queueSize numThreads now receiveTime) refuse.
End Prod.

(** ** Requests *)

(** A request is an id, which may be empty, and a puzzle. *)
Definition line (r : list byte * list byte) : list byte := if decide (r.1 = []) then r.2 else r.1 ++ colon :: r.2.
Definition line_text (r : list byte * list byte) : list byte := line r ++ kCRLF.
Record good (r : list byte * list byte) : Prop := mkGood {
  g_cells : zlen r.2 = kCells;
  g_short : zlen (line r) <= 99;
  g_id : colon ∉ r.1;
  g_puzzle : r.1 = [] -> colon ∉ r.2;
  g_line : CR ∉ line r }.
Lemma split_line r : good r -> split_id (line r) = if decide (r.1 = []) then None else Some r.
Proof.
  intros [_ _ G1 G2 _]. destruct r as [i p]. unfold split_id, line. cbn [fst snd] in *. destruct (decide (i = [])) as [->|N].
  - rewrite std_find_absent by (by apply G2). by rewrite decide_False by (intros H; by apply H).
  - rewrite std_find_app by done. rewrite decide_True by (rewrite zlen_app, zlen_cons; zlia). f_equal. f_equal; [rewrite ztake_app_l, ztake_all by zlia; done|]. rewrite zdrop_app_r by zlia. by replace (zlen i + 1 - zlen i) with 1 by lia.
Qed.
(** What [solveSudoku] promises *)
Definition solves (p result : list byte) : Prop := solveSudoku p = Ret result /\ ((exists b, solution p b /\ result = print b) \/ (result = kNoSolution /\ forall b, ~ solution p b)).
Lemma solves_some p : zlen p = kCells -> exists result, solves p result.
Proof. intros L. destruct (solveSudoku_ok p L) as (r & E & H). by exists r. Qed.
Lemma solves_short p result : solves p result -> zlen result <= kCells.
Proof. intros [_ [(b & (_ & [L _] & _) & ->)|[-> _]]]; [|by vm_compute]. unfold print, zlen. rewrite length_map. unfold zlen in L. lia. Qed.
Lemma answer_short i p result : zlen i <= 99 -> solves p result -> zlen (answer_text i result) < 2 ^ 31.
Proof. intros Li H%solves_short. unfold kCells in H. unfold answer_text. assert (zlen kCRLF = 2) by done. case_decide; rewrite ?zlen_app, ?zlen_cons; lia. Qed.
Lemma good_short r : good r -> zlen r.1 <= 99.
Proof. intros G. pose proof (g_short r G) as L. unfold line in L. case_decide as D; [rewrite D; done|]. rewrite zlen_app, zlen_cons in L. zlia. Qed.

Section Handles.
Context {St : Type} (record : St -> St) (processRequest : list byte -> St -> outcome (bool * St)) (refuse : list byte -> St -> St).
Context (ok : list byte * list byte -> Prop) (ok_good : forall r, ok r -> good r) (R : list (list byte * list byte) -> St -> Prop).
Context (process_ok : forall a s r, R a s -> ok r -> exists s', processRequest (line r) (record s) = Ret (true, s') /\ R (a ++ [r]) s').
Abbreviation loop := (server_loop record processRequest refuse).

Lemma request_line_ok fuel buf a s r rest : R a s -> ok r -> wf buf -> content buf = line_text r ++ rest ->
  exists s' buf', loop (S fuel) (readableBytes buf) buf s = loop fuel (readableBytes buf') buf' s' /\ R (a ++ [r]) s' /\ wf buf' /\ content buf' = rest /\ zlen (buffer_ buf') = zlen (buffer_ buf).
Proof.
  intros Ra Or W C. pose proof (ok_good r Or) as G. unfold line_text in C. rewrite <- app_assoc in C. cbn [server_loop]. assert (kCells <= zlen (line r)) as Ll by (unfold line; pose proof (g_cells r G); case_decide; rewrite ?zlen_app, ?zlen_cons; zlia).
  assert (zlen kCRLF = 2) as L2 by done. rewrite decide_True by (rewrite <- content_len, C, !zlen_app by done; zlia). destruct (take_line buf (line r) rest W C (g_line r G)) as (crlf & b' & -> & Lc & -> & W' & C' & S' & _). cbn [obind].
  assert (slice (buffer_ buf) (peek buf) crlf = line r) as ->.
  { replace crlf with (peek buf + zlen (line r)) by lia. pose proof (content_slice buf 0 (zlen (line r)) W ltac:(zlia) ltac:(rewrite C, zlen_app; zlia)) as Sl. rewrite Z.add_0_r in Sl. rewrite Sl, C. unfold slice. rewrite zdrop_0, Z.sub_0_r by lia. rewrite ztake_app_l, ztake_all by zlia. done. }
  destruct (process_ok a s r Ra Or) as (s' & -> & R'). cbn [obind]. by exists s', b'.
Qed.
Lemma request_rest fuel buf s rs more : Forall ok rs -> wf buf -> content buf ++ more = encs line_text rs -> waits line_text rs (content buf) -> loop (S fuel) (readableBytes buf) buf s = Ret (s, buf).
Proof.
  intros F W E Wt. cbn [server_loop]. pose proof (content_len buf W) as L. destruct (decide (readableBytes buf >= kCells + 2)) as [D|D]; [|done]. destruct rs as [|r rs]; cbn [waits] in Wt; [rewrite Wt, zlen_nil in L; unfold kCells in D; lia|].
  apply Forall_cons in F as [Or _]. pose proof (ok_good r Or) as G. unfold encs in E. cbn [map concat] in E. unfold line_text at 1 in E. unfold line_text in Wt. rewrite zlen_app in Wt. assert (zlen kCRLF = 2) as L2 by done. rewrite <- app_assoc in E.
  assert (content buf `prefix_of` line r ++ [CR]) as P. { change kCRLF with ([CR] ++ [Byte.x0a]) in E. rewrite <- app_assoc, app_assoc in E. eapply prefix_short; [exact E|]. rewrite zlen_app. change (zlen [CR]) with 1. lia. }
  rewrite (no_line buf (content buf) (line r) W eq_refl P (g_line r G)). pose proof (g_short r G). rewrite decide_False by lia. done.
Qed.
Lemma line_pos r : 0 < zlen (line_text r).
Proof. unfold line_text. rewrite zlen_app. assert (zlen kCRLF = 2) by done. zlia. Qed.
Lemma server_handles : handles line_text (server_onMessage record processRequest refuse) R (fun _ => True) ok (fun a r => a ++ [r]).
Proof. apply (loop_handles line_text (fun fuel buf => loop fuel (readableBytes buf) buf)); [apply line_pos|intros; by apply request_line_ok|intros; by eapply request_rest]. Qed.
End Handles.

(** ** Answers *)

Abbreviation request := (list byte * list byte)%type.
(** The text [t] answers the request [r]. *)
Definition answers (r : request) (t : list byte) : Prop := exists result, solves r.2 result /\ t = answer_text r.1 result.
Lemma answers_some r : zlen r.2 = kCells -> zlen r.1 <= 99 -> exists result, solveSudoku r.2 = Ret result /\ answers r (answer_text r.1 result) /\ zlen (answer_text r.1 result) < 2 ^ 31.
Proof. intros L Li. destruct (solves_some r.2 L) as (x & H). exists x. split; [apply H|]. split; [by exists x|]. by eapply answer_short. Qed.
Lemma concat_snoc {A} (l : list (list A)) x : concat (l ++ [x]) = concat l ++ x.
Proof. by rewrite concat_app, concat_cons, app_nil_r. Qed.
(** The request that the server finds in a line *)
Lemma split_default r : good r -> default ([], line r) (split_id (line r)) = r.
Proof. intros G. rewrite split_line by done. destruct r as [i p]. unfold line. cbn [fst snd]. case_decide as D; cbn; by rewrite ?D. Qed.

(** server_basic.cc answers in the order of the requests. *)
Definition Basic_state (a : list request) (c : Conn) : Prop := connected_ c = true /\ exists outs, Forall2 answers a outs /\ sent_ c = concat outs.
Lemma basic_process a c r : Basic_state a c -> good r -> exists c', Basic.processRequest (line r) c = Ret (true, c') /\ Basic_state (a ++ [r]) c'.
Proof.
  intros (Cc & outs & F & Es) G. unfold Basic.processRequest. rewrite split_default by done. destruct (answers_some r (g_cells r G) (good_short r G)) as (x & E & An & Sh). destruct r as [i p]. pose proof (g_cells _ G) as L. cbn [fst snd] in *. rewrite decide_True by done. rewrite E. cbn [obind].
  rewrite conn_send_ok by done. cbn [obind]. eexists. split; [done|]. unfold conn_write. rewrite Cc. split; [done|]. exists (outs ++ [answer_text i x]). split; [by apply Forall2_app; [|repeat constructor]|]. by rewrite concat_snoc, <- Es.
Qed.
Theorem basic_answers rs chunks buf : Forall good rs -> wf buf -> content buf = [] -> concat chunks = encs line_text rs -> zlen (buffer_ buf) + zlen (concat chunks) <= max_size ->
  exists c buf', receive Basic.onMessage chunks buf newConn = Ret (c, buf') /\ Basic_state rs c /\ content buf' = [].
Proof.
  intros F W C E L. destruct (receive_all line_text Basic.onMessage Basic_state (fun _ => True) good (fun a r => a ++ [r])) with (chunks := chunks) (ms := rs) (buf := buf) (a := @nil request) (s := newConn) as (c & b' & -> & R' & _ & C' & _); try done.
  - apply (server_handles (@Datatypes.id Conn) Basic.processRequest Basic.refuse good ltac:(done) Basic_state). intros a s r Ra G. by apply basic_process.
  - by split; [|exists []].
  - apply Forall_true. apply line_pos.
  - exists c, b'. rewrite fold_left_snoc in R'. done.
Qed.

(** server_threadpool.cc answers every request; the answers are sent, or left to the loop. *)
Definition Pool_state (a : list request) (s : Pool.Server) : Prop :=
  connected_ (Pool.conn s) = true /\ Forall (fun t => zlen t.1 = kCells /\ zlen t.2 <= 99) (Pool.tasks s) /\
  exists done outs texts, a ≡ₚ done ++ map (fun t => (t.2, t.1)) (Pool.tasks s) /\ Forall2 answers done texts /\ sent_ (Pool.conn s) = concat outs /\ outs ++ Pool.posted s ≡ₚ texts.
Lemma pool_solve inLoop a c ps ts i p : Pool_state a (Pool.mkServer c ps ts) -> zlen p = kCells -> zlen i <= 99 -> exists s', Pool.solve inLoop p i (Pool.mkServer c ps ts) = Ret s' /\ Pool_state (a ++ [(i, p)]) s'.
Proof.
  intros (Cc & Ft & dn & outs & ws & P & F & Es & Pw) L Li. unfold Pool.solve. destruct (answers_some (i, p) L Li) as (x & E & An & Sh). cbn [fst snd Pool.conn Pool.posted Pool.tasks] in *. rewrite E. cbn [obind].
  assert (Forall2 answers (dn ++ [(i, p)]) (ws ++ [answer_text i x])) as F' by (by apply Forall2_app; [|repeat constructor]). destruct inLoop.
  - rewrite conn_send_ok by done. cbn [obind]. eexists. split; [done|]. unfold Pool_state. cbn [Pool.conn Pool.tasks Pool.posted]. unfold conn_write. rewrite Cc. split_and!; try done.
    exists (dn ++ [(i, p)]), (outs ++ [answer_text i x]), (ws ++ [answer_text i x]). split_and!; [rewrite P; solve_Permutation|done|by rewrite concat_snoc, <- Es|rewrite <- Pw; solve_Permutation].
  - rewrite conn_post_ok by done. cbn [obind]. eexists. split; [done|]. unfold Pool_state. cbn [Pool.conn Pool.tasks Pool.posted]. rewrite Cc. cbn [option_list]. split_and!; try done.
    exists (dn ++ [(i, p)]), outs, (ws ++ [answer_text i x]). split_and!; [rewrite P; solve_Permutation|done|done|rewrite <- Pw; solve_Permutation].
Qed.
Lemma pool_process n a s r : Pool_state a s -> good r -> exists s', Pool.processRequest n (line r) s = Ret (true, s') /\ Pool_state (a ++ [r]) s'.
Proof.
  intros Ra G. unfold Pool.processRequest. rewrite split_default by done. pose proof (good_short r G) as Li. destruct r as [i p]. pose proof (g_cells _ G) as L. cbn [fst snd] in L, Li. rewrite (decide_True (P := zlen p = kCells)) by done. destruct s as [c ps ts]. destruct (decide (n = 0)).
  - destruct (pool_solve true a c ps ts i p Ra L Li) as (s' & -> & R'). by exists s'.
  - eexists. split; [done|]. destruct Ra as (Cc & Ft & dn & outs & ws & P & R'). cbn [Pool.conn Pool.tasks] in *. split_and!; [done|cbn; apply Forall_app; split; [done|by repeat constructor]|]. exists dn, outs, ws. cbn [Pool.tasks]. split; [|done]. rewrite P, map_app. cbn. by rewrite app_assoc.
Qed.
Lemma pool_event_ok a s e : Pool_state a s -> exists s', Pool.pool_event e s = Ret s' /\ Pool_state a s'.
Proof.
  intros Ra. destruct e as [k|]; cbn [Pool.pool_event].
  - destruct (Pool.tasks s !! k) as [[p i]|] eqn:E; [|by exists s]. destruct s as [c ps ts]. destruct Ra as (Cc & Ft & dn & outs & ws & P & K). cbn [Pool.conn Pool.tasks Pool.posted] in *. pose proof (delete_Permutation ts k _ E) as Pd. revert Pd. generalize (delete k ts). intros ts' Pd. rewrite Pd in Ft. apply Forall_cons in Ft as [[L Li] Ft].
    destruct (pool_solve false (dn ++ map (fun t => (t.2, t.1)) ts') c ps ts' i p) as (s' & -> & Hc & Hf & dn' & outs' & ws' & P' & R'); [split_and!; try done; by exists dn, outs, ws|done|done|]. exists s'. split; [done|]. split_and!; [done..|]. exists dn', outs', ws'. split; [|done]. rewrite P, <- P', Pd. cbn [map fst snd]. solve_Permutation.
  - destruct s as [c ps ts]. cbn [Pool.posted]. destruct ps as [|d ps]; [by eexists|]. eexists. split; [done|]. destruct Ra as (Cc & Ft & dn & outs & ws & P & F & Es & Pw). cbn [Pool.conn Pool.tasks Pool.posted] in *. split_and!; [done..|].
    exists dn, (outs ++ [d]), ws. split_and!; [done..|by cbn; rewrite concat_snoc, <- Es|]. rewrite <- Pw, <- app_assoc. done.
Qed.
(** However the bytes of the requests arrive, and whenever the threads finish *)
Theorem pool_answers n rs evs buf : Forall good rs -> wf buf -> content buf = [] -> arrived evs = encs line_text rs -> zlen (buffer_ buf) + zlen (arrived evs) <= max_size ->
  exists s buf', run_events (fun _ : Datatypes.unit => Pool.onMessage n) Pool.pool_event evs buf (Pool.mkServer newConn [] []) = Ret (s, buf') /\ Pool_state rs s /\ content buf' = [].
Proof.
  intros F W C E L. destruct (run_pieces line_text (fun _ : Datatypes.unit => Pool.onMessage n) Pool.pool_event Pool_state good (fun a r => a ++ [r]) (fun _ => True) (fun _ => True)) with (evs := evs) (ms := rs) (buf := buf) (a := @nil request) (s := Pool.mkServer newConn [] []) (more := @nil byte) as (dn & rest & s' & b' & -> & -> & R' & _ & C' & Wt); try done.
  - intros _ _. apply (server_handles (@Datatypes.id Pool.Server) (Pool.processRequest n) Pool.refuse good ltac:(done) Pool_state). intros a s r Ra G. by apply pool_process.
  - intros k a s _ Ra. by apply pool_event_ok.
  - apply Forall_true. by intros [].
  - split_and!; try done. by exists [], [], [].
  - by rewrite C, app_nil_r.
  - rewrite C. apply waits_nil, Forall_true, line_pos.
  - rewrite app_nil_r in C'. pose proof (waits_all _ _ _ Wt C') as ->. exists s', b'. rewrite fold_left_snoc in R'. rewrite app_nil_r. done.
Qed.

(** ** The servers with statistics *)

Definition request_pair (q : Request) : request := (id q, puzzle q).
(** What becomes of a request, and the text that says so *)
Inductive Reply := Answered (result : list byte) | Busy.
Definition reply_text (d : request * Reply) : list byte := match d.2 with Answered x => answer_text d.1.1 x | Busy => Prod.busy_text (mkRequest d.1.1 d.1.2 0) end.
Definition right (d : request * Reply) : Prop := match d.2 with Answered x => solves d.1.2 x | Busy => True end.
Definition answered (l : list (request * Reply)) : Z := foldr (fun d n => match d.2 with Answered _ => 1 | Busy => 0 end + n) 0 l.
Definition refused (l : list (request * Reply)) : Z := foldr (fun d n => match d.2 with Answered _ => 0 | Busy => 1 end + n) 0 l.
Lemma answered_app l k : answered (l ++ k) = answered l + answered k.
Proof. induction l as [|d l IH]; [done|]. cbn [answered app foldr]. fold (answered (l ++ k)) (answered l). rewrite IH. lia. Qed.
Lemma refused_app l k : refused (l ++ k) = refused l + refused k.
Proof. induction l as [|d l IH]; [done|]. cbn [refused app foldr]. fold (refused (l ++ k)) (refused l). rewrite IH. lia. Qed.
Lemma counts_snoc told lost d : answered ((told ++ [d]) ++ lost) = answered (told ++ lost) + answered [d] /\ refused ((told ++ [d]) ++ lost) = refused (told ++ lost) + refused [d].
Proof. rewrite !answered_app, !refused_app. lia. Qed.

Section Stats.
(** The pool is never full and the output buffer never high; the pool is always full; how often the output buffer got to the second mark, and whether it is at the first *)
Context (calm full : Prop) (note : Z * bool).
(** Of the requests [a], those in [told] have a reply that was sent or is left to the loop, those in [lost] were dealt with after the connection was shut down, and the others wait for a thread. Besides the replies, "Bad Request!"
    is sent once if the connection is shut down. The statistics count what became of the requests. *)
Record Served (n : Z) (a : list request) (s : Server) : Prop := mkServed {
  sv_cells : Forall (fun q => zlen (puzzle q) = kCells /\ zlen (id q) <= 99) (queue s);
  sv_window : exists h, Stat.Window (stat s) h;
  sv_requests : Stat.totalRequests_ (stat s) = i64 n;
  sv_throttle : throttle s = note.2;
  sv_calm : calm -> throttle s = false;
  sv_full : full -> queue s = [];
  sv_bad : Stat.badRequests_ (stat s) = i64 note.1;
  sv_up : connected_ (conn s) = bool_decide (note.1 = 0);
  sv_done : exists told lost outs, a ≡ₚ map fst (told ++ lost) ++ map request_pair (queue s) /\ Forall right (told ++ lost) /\
    (connected_ (conn s) = true -> lost = []) /\ (calm -> refused (told ++ lost) = 0) /\ (full -> answered (told ++ lost) = 0) /\
    sent_ (conn s) = concat outs /\ outs ++ posted s ≡ₚ map reply_text told ++ (if connected_ (conn s) then [] else [bad_request]) /\
    Stat.droppedRequests_ (stat s) = i64 (refused (told ++ lost)) /\ Stat.totalResponses_ (stat s) = i64 (answered (told ++ lost)) }.
Definition Served_all (a : list request) : Server -> Prop := Served (zlen a) a.

Lemma record_served n a s : Served n a s -> Served (n + 1) a (record s).
Proof.
  intros [H1 (h & W) H3 H4 H5 H6 H7 Hu H8]. split; cbn [record set_stat conn posted queue throttle stat Stat.recordRequest Stat.totalRequests_ Stat.droppedRequests_ Stat.badRequests_ Stat.totalResponses_]; try done; [exists h; by destruct W|]. rewrite H3. apply swrap_add.
Qed.
(** A reply is made for a request: it is sent, left to the loop, or lost. *)
Lemma send_served inLoop n a s (d : request * Reply) st : Served n a s -> right d -> zlen (reply_text d) < 2 ^ 31 -> (calm -> refused [d] = 0) -> (full -> answered [d] = 0) ->
  (exists h, Stat.Window st h) -> Stat.totalRequests_ st = Stat.totalRequests_ (stat s) -> Stat.badRequests_ st = Stat.badRequests_ (stat s) ->
  Stat.droppedRequests_ st = i64 (Stat.droppedRequests_ (stat s) + refused [d]) -> Stat.totalResponses_ st = i64 (Stat.totalResponses_ (stat s) + answered [d]) ->
  exists s', send inLoop (reply_text d) s = Ret s' /\ stat s' = stat s /\ Served n (a ++ [d.1]) (set_stat st s').
Proof.
  intros [H1 H2 H3 H4 H5 H6 H7 Hu (told & lost & outs & P & F & Lo & Ca & Fu & Es & Po & Ed & Er)] Rd Sh Cd Fd Wd T1 T2 T3 T4. destruct (counts_snoc told lost d) as [N1 N2].
  assert (exists s', send inLoop (reply_text d) s = Ret s' /\ stat s' = stat s /\ queue s' = queue s /\ throttle s' = throttle s /\ connected_ (conn s') = connected_ (conn s) /\
    exists outs', sent_ (conn s') = concat outs' /\ outs' ++ posted s' ≡ₚ outs ++ posted s ++ (if connected_ (conn s) then [reply_text d] else [])) as (s' & Es' & Q1 & Q2 & Q3 & Q4 & outs' & Q5 & Q6).
  { unfold send. destruct inLoop; [rewrite conn_send_ok by done|rewrite conn_post_ok by done]; cbn [obind]; eexists; (split; [done|]); cbn [set_conn set_posted stat queue throttle conn posted]; (do 3 (split; [done|])).
    - unfold conn_write. destruct (connected_ (conn s)) eqn:U; (split; [done|]); cbn [sent_]; [exists (outs ++ [reply_text d])|exists outs]; (split; [by rewrite ?concat_snoc, Es|]); [solve_Permutation|by rewrite app_nil_r].
    - split; [done|]. exists outs. split; [done|]. by destruct (connected_ (conn s)). }
  exists s'. split; [done|]. split; [done|]. split; cbn [set_stat conn posted queue stat throttle]; rewrite ?Q2, ?Q3, ?Q4, ?T1, ?T2; try done.
  exists (if connected_ (conn s) then told ++ [d] else told), (if connected_ (conn s) then lost else lost ++ [d]), outs'. rewrite Ed in T3. rewrite Er in T4. rewrite swrap_add in T3, T4.
  assert (map fst ((told ++ [d]) ++ lost) ≡ₚ map fst (told ++ lost) ++ [d.1]) as Pm by (rewrite !map_app; cbn [map]; solve_Permutation).
  destruct (connected_ (conn s)) eqn:U; cbn [app] in *.
  - rewrite N1, N2. split_and!; try done.
    + rewrite P, Pm. solve_Permutation.
    + rewrite (Lo eq_refl), app_nil_r in F |- *. apply Forall_app. by split; [|repeat constructor].
    + intros c. rewrite (Ca c), (Cd c). lia.
    + intros f. rewrite (Fu f), (Fd f). lia.
    + rewrite Q6, map_app, app_nil_r, (app_assoc outs), Po, app_nil_r. done.
  - rewrite app_assoc, !(answered_app (told ++ lost)), !(refused_app (told ++ lost)). split_and!; try done.
    + rewrite P, (map_app _ (told ++ lost)). cbn [map]. solve_Permutation.
    + apply Forall_app. by split; [|repeat constructor].
    + intros c. rewrite (Ca c), (Cd c). lia.
    + intros f. rewrite (Fu f), (Fd f). lia.
    + rewrite Q6, app_nil_r, Po. done.
Qed.
Lemma solve_served inLoop now n a s q : Served n a s -> zlen (puzzle q) = kCells -> zlen (id q) <= 99 -> 1000000 <= now -> ~ full -> exists s', solve inLoop now q s = Ret s' /\ Served n (a ++ [request_pair q]) s'.
Proof.
  intros Sv L Li Hn Nf. unfold solve. destruct (solves_some (puzzle q) L) as (x & Sx). rewrite (proj1 Sx). cbn [obind]. destruct (sv_window _ _ _ Sv) as (h & W).
  destruct (Stat.recordResponse_ok now (receiveTime q) (negb (bool_decide (x = kNoSolution))) (stat s) h W Hn) as (st & E' & T1 & T2 & _ & W'). destruct (Stat.recordResponse_dropped _ _ _ _ _ E') as [T3 T4].
  destruct (send_served inLoop n a s (request_pair q, Answered x) st Sv) as (s' & Es & Q & Sv'); try done.
  - by eapply answer_short.
  - by eexists.
  - rewrite T3. change (refused [_]) with 0. destruct (sv_done _ _ _ Sv) as (? & ? & ? & _ & _ & _ & _ & _ & _ & _ & -> & _). by rewrite swrap_add, Z.add_0_r.
  - change (reply_text (request_pair q, Answered x)) with (answer_text (id q) x) in Es. rewrite Es. cbn [obind]. rewrite Q, E'. cbn [obind]. by eexists.
Qed.
Lemma pool_run_served threads now n a s q : Served n a s -> zlen (puzzle q) = kCells -> zlen (id q) <= 99 -> 1000000 <= now -> ~ full -> exists s', pool_run threads now q s = Ret s' /\ Served n (a ++ [request_pair q]) s'.
Proof.
  intros Sv L Li Hn Nf. unfold pool_run. case_decide; [by apply solve_served|]. eexists. split; [done|]. destruct Sv as [H1 H2 H3 H4 H5 H6 H7 Hu (told & lost & outs & P & R')]. split; cbn [set_queue conn posted queue stat throttle]; try done.
  - apply Forall_app. split; [done|]. by repeat constructor.
  - exists told, lost, outs. split; [|done]. rewrite P, (map_app _ (queue s)). cbn [map]. solve_Permutation.
Qed.
(** A thread of the pool answers a request that waits. *)
Lemma finish_served now n a s k : Served n a s -> 1000000 <= now -> exists s', finish now k s = Ret s' /\ Served n a s'.
Proof.
  intros Sv Hn. unfold finish. destruct (queue s !! k) as [q|] eqn:E; [|by exists s]. destruct Sv as [H1 H2 H3 H4 H5 H6 H7 Hu (told & lost & outs & P & R')]. assert (~ full) as Nf by (intros f; by rewrite (H6 f) in E).
  pose proof (delete_Permutation (queue s) k _ E) as Pd. revert Pd. generalize (delete k (queue s)). intros ts Pd. rewrite Pd in H1. apply Forall_cons in H1 as [[L Li] Ft].
  destruct (solve_served false now n (map fst (told ++ lost) ++ map request_pair ts) (set_queue ts s) q) as (s' & -> & Sv'); [by split; [..|exists told, lost, outs]|done..|]. exists s'. split; [done|].
  destruct Sv' as [G1 G2 G3 G4 G5 G6 G7 G9 (told' & lost' & outs' & P' & G8)]. split; try done. exists told', lost', outs'. split; [|done]. rewrite P, <- P', Pd. cbn [map]. solve_Permutation.
Qed.
(** The loop sends an answer that a thread has left to it. *)
Lemma posted_served n a s : Served n a s -> Served n a (send_posted s).
Proof.
  intros Sv. unfold send_posted. destruct (posted s) as [|d ds] eqn:E; [done|]. destruct Sv as [H1 H2 H3 H4 H5 H6 H7 Hu (told & lost & outs & P & F & Lo & Ca & Fu & Es & Po & R')]. split; cbn [set_posted set_conn conn posted queue stat throttle conn_sendInLoop connected_ sent_]; try done.
  exists told, lost, (outs ++ [d]). split_and!; try done; [by rewrite concat_snoc, Es| |by destruct R'..]. rewrite E in Po. by rewrite <- Po, <- app_assoc.
Qed.
(** With more than one thread a request must have an id. *)
Definition acceptable (threads : Z) (r : request) : Prop := good r /\ (threads > 1 -> r.1 <> []).
Lemma request_of_line threads t r : acceptable threads r -> request_of threads t (line r) = Some (mkRequest r.1 r.2 t).
Proof.
  intros [G Hi]. unfold request_of. rewrite split_line by done. destruct r as [i p]. cbn [fst snd] in *. destruct (decide (i = [])) as [->|N]; [|done]. rewrite decide_False by (intros H; by apply Hi). done.
Qed.
Lemma hybrid_process threads now t a s r : Served_all a s -> acceptable threads r -> 1000000 <= now -> ~ full -> exists s', Hybrid.processRequest threads now t (line r) (record s) = Ret (true, s') /\ Served_all (a ++ [r]) s'.
Proof.
  intros Sv A Hn Nf. unfold Hybrid.processRequest. rewrite request_of_line by done. destruct A as [G _]. rewrite decide_True by apply (g_cells r G). destruct (pool_run_served threads now _ a _ (mkRequest r.1 r.2 t) (record_served _ _ _ Sv) (g_cells r G) (good_short r G) Hn Nf) as (s' & -> & Sv').
  exists s'. split; [done|]. unfold Served_all. rewrite zlen_app. by destruct r.
Qed.
Lemma prod_process size threads now t a s r : Served_all a s -> acceptable threads r -> 1000000 <= now -> (calm -> size < 1000 * 1000) -> (full -> 1000 * 1000 <= size) ->
  exists s', Prod.processRequest (fun _ => size) threads now t (line r) (record s) = Ret (true, s') /\ Served_all (a ++ [r]) s'.
Proof.
  intros Sv A Hn Hc Hf. unfold Prod.processRequest. rewrite request_of_line by done. destruct A as [G _]. rewrite decide_True by apply (g_cells r G). pose proof (record_served _ _ _ Sv) as Sr. unfold Served_all. rewrite zlen_app. change (zlen [r]) with 1. case_decide as D.
  - assert (~ full) as Nf by (intros f; specialize (Hf f); lia). destruct (pool_run_served threads now _ a _ (mkRequest r.1 r.2 t) Sr (g_cells r G) (good_short r G) Hn Nf) as (s' & -> & Sv'). exists s'. split; [done|]. by destruct r.
  - assert (~ calm) as Nc by (intros c; apply D; split; [by apply Hc|apply (sv_calm _ _ _ Sr c)]). revert Sr. generalize (record s). clear s Sv D. intros s Sr.
    destruct (send_served true (zlen a + 1) a s (r, Busy) (Stat.recordDroppedRequest (stat s)) Sr) as (s' & Es & Q & Sv'); try done.
    + pose proof (good_short r G). unfold reply_text, Prod.busy_text. cbn [fst snd id]. assert (zlen (bytes "ServerTooBusy") = 13) by done. assert (zlen kCRLF = 2) by done. case_decide; rewrite ?zlen_app, ?zlen_cons, ?zlen_nil; lia.
    + destruct (sv_window _ _ _ Sr) as (h & W). exists h. by destruct W.
    + cbn [Stat.recordDroppedRequest Stat.totalResponses_]. change (answered [_]) with 0. destruct (sv_done _ _ _ Sr) as (? & ? & ? & _ & _ & _ & _ & _ & _ & _ & _ & ->). by rewrite swrap_add, Z.add_0_r.
    + change (reply_text (r, Busy)) with (Prod.busy_text (mkRequest r.1 r.2 t)) in Es. rewrite Es. cbn [obind]. rewrite Q. by eexists.
Qed.
End Stats.

(** The output buffer got to the second mark. *)
Lemma refuse_served calm full note n a s : Served calm full note n a s -> 0 <= note.1 -> Served calm full (note.1 + 1, note.2) n a (refuse bad_request s).
Proof.
  intros [H1 (h & W) H3 H4 H5 H6 H7 Hu (told & lost & outs & P & F & Lo & Ca & Fu & Es & Po & R')] Hp. split; cbn [refuse set_stat set_conn conn posted queue stat throttle conn_shutdown connected_ sent_ fst snd]; try done.
  - exists h. by destruct W.
  - cbn [Stat.recordBadRequest Stat.badRequests_]. rewrite H7. apply swrap_add.
  - symmetry. apply bool_decide_eq_false. lia.
  - unfold conn_write. destruct (connected_ (conn s)) eqn:U; cbn [sent_].
    + exists told, lost, (outs ++ [bad_request]). split_and!; try done; [by rewrite concat_snoc, Es| |by destruct R'..]. rewrite app_nil_r in Po. rewrite <- Po. solve_Permutation.
    + exists told, lost, outs. split_and!; try done; by destruct R'.
Qed.
Lemma throttle_served calm full note n a s t h w : Served calm full note n a s -> (calm -> t = false) -> Served calm full (note.1, t) n a (mkServer (conn s) (posted s) (queue s) (stat s) t h w).
Proof. intros [H1 H2 H3 H4 H5 H6 H7 Hu H8] Ht. by split. Qed.

(** What happens besides the arrival of bytes: a thread of the pool finishes a task, the loop sends an answer that was left to it, the output buffer is high, or empty. *)
Inductive ProdEvent := Finish (now : Z) (k : nat) | SendPosted | HighWaterMark (tosend : Z) | WriteComplete.
Definition prod_event (e : ProdEvent) (s : Server) : outcome Server :=
  match e with
  | Finish now k => finish now k s
  | SendPosted => Ret (send_posted s)
  | HighWaterMark tosend => Ret (Prod.highWaterMark tosend s)
  | WriteComplete => Ret (Prod.writeComplete s)
  end.
(** The clock is past 1970. *)
Definition prod_legal (e : ProdEvent) : Prop := match e with Finish now _ => 1000000 <= now | _ => True end.
(** What the runs are distinguished by: the size of the queue when bytes arrive, and how high the output buffer gets *)
Definition calm_event (e : Event (X := Z * Z * Z) (E := ProdEvent)) : Prop := match e with Arrive x _ => x.1.1 < 1000 * 1000 | Other (HighWaterMark _) => False | _ => True end.
Definition full_event (e : Event (X := Z * Z * Z) (E := ProdEvent)) : Prop := match e with Arrive x _ => 1000 * 1000 <= x.1.1 | _ => True end.
Definition allowed (calm : Prop) (e : ProdEvent) : Prop := prod_legal e /\ match e with HighWaterMark _ => ~ calm | _ => True end.
(** How often the output buffer got to the second mark, and whether it is at the first *)
Definition mark (note : Z * bool) (e : ProdEvent) : Z * bool :=
  match e with
  | HighWaterMark tosend => if decide (tosend < 10 * 1024 * 1024) then (note.1, true) else (note.1 + 1, note.2)
  | WriteComplete => (note.1, false)
  | _ => note
  end.
Definition Marked calm full (note : Z * bool) (a : list request) (s : Server) : Prop := 0 <= note.1 /\ Served_all calm full note a s.
Lemma prod_event_ok calm full note e a s : allowed calm e -> Marked calm full note a s -> exists s', prod_event e s = Ret s' /\ Marked calm full (mark note e) a s'.
Proof.
  intros [H Hm] [Hp Sv]. destruct e as [now k| |tosend|]; cbn [prod_event prod_legal mark] in *.
  - destruct (finish_served calm full note now _ a s k Sv H) as (s' & E & Sv'). by exists s'.
  - eexists. split; [done|]. split; [done|]. by apply posted_served.
  - eexists. split; [done|]. unfold Prod.highWaterMark. case_decide as D; (split; [cbn; lia|]); [|by apply refuse_served]. by apply throttle_served.
  - eexists. split; [done|]. split; [done|]. by apply throttle_served.
Qed.
(** What [onMessage] is called with: the size of the queue of the pool, the clock, and the time of the arrival *)
Definition prod_message (threads : Z) (x : Z * Z * Z) : Buffer -> Server -> outcome (Server * Buffer) := Prod.onMessage (fun _ => x.1.1) threads x.1.2 x.2.
Definition newServer : Server := Prod.onConnection true (mkServer newConn [] [] Stat.newStat false 0 false).
Definition prod_run (threads : Z) : list Event -> Buffer -> Server -> outcome (Server * Buffer) := run_events (prod_message threads) prod_event.

Lemma served_run {X} (process : X -> list byte -> Server -> outcome (bool * Server)) (legal : X -> Prop) calm full threads rs evs buf more :
  (forall x note a s r, legal x -> Served_all calm full note a s -> acceptable threads r -> exists s', process x (line r) (record s) = Ret (true, s') /\ Served_all calm full note (a ++ [r]) s') ->
  Forall (acceptable threads) rs -> Forall (legal_event legal (allowed calm)) evs -> wf buf -> content buf = [] -> arrived evs ++ more = encs line_text rs -> zlen (buffer_ buf) + zlen (arrived evs) <= max_size ->
  exists complete rest s buf', rs = complete ++ rest /\ run_events (fun x => server_onMessage record (process x) refuse) prod_event evs buf newServer = Ret (s, buf') /\
    Served_all calm full (fold_left mark (other_events evs) (0, false)) complete s /\ content buf' ++ more = encs line_text rest /\ waits line_text rest (content buf').
Proof.
  intros P A Le W C E L. destruct (run_noted line_text (fun x => server_onMessage record (process x) refuse) prod_event (Marked calm full) (acceptable threads) (fun a r => a ++ [r]) mark legal (allowed calm)) with (evs := evs) (ms := rs) (buf := buf) (a := @nil request) (b := (0, false)) (s := newServer) (more := more)
    as (dn & rest & s' & b' & Ers & Er & R' & _ & C' & Wt); try done.
  - intros x note Hx. apply (server_handles record (process x) refuse (acceptable threads) ltac:(by intros r []) (Marked calm full note)). intros a s r [Hp Sv] Ar. destruct (P x note a s r Hx Sv Ar) as (s' & E' & Sv'). by exists s'.
  - intros e a note s He Sv. by apply prod_event_ok.
  - split; [done|]. split; try done; [by exists []; apply Stat.new_window|by exists [], [], []].
  - by rewrite C.
  - rewrite C. apply waits_nil, Forall_true, line_pos.
  - exists dn, rest, s', b'. rewrite fold_left_snoc in R'. by destruct R'.
Qed.
(** server_hybrid.cc sets no mark, answers every request and refuses none. *)
Theorem hybrid_answers (threads : Z) (rs : list request) (evs : list Event) (buf : Buffer) (more : list byte) :
  Forall (acceptable threads) rs -> Forall (legal_event (fun x => 1000000 <= x.1) (allowed True)) evs -> wf buf -> content buf = [] -> arrived evs ++ more = encs line_text rs -> zlen (buffer_ buf) + zlen (arrived evs) <= max_size ->
  exists complete rest s buf', rs = complete ++ rest /\ run_events (fun x : Z * Z => Hybrid.onMessage threads x.1 x.2) prod_event evs buf newServer = Ret (s, buf') /\
    Served_all True False (fold_left mark (other_events evs) (0, false)) complete s /\ content buf' ++ more = encs line_text rest /\ waits line_text rest (content buf').
Proof. apply (served_run (fun x : Z * Z => Hybrid.processRequest threads x.1 x.2)). intros x note a s r Hn Sv Ar. apply hybrid_process; try done. by intros []. Qed.


(** Two requests with ids in three pieces; the second is refused since the output buffer was high. Later the output buffer gets to the second mark. *)
Definition example_puzzle : list byte := bytes "000000010400000000020000000000050407008000300001090000300400200050100000000806000".
Definition example_requests : list request := [(bytes "a", example_puzzle); (bytes "b", example_puzzle)].
Definition example_events : list (Event (X := Z * Z * Z) (E := ProdEvent)) :=
  let text := encs line_text example_requests in
  [Arrive (0, 2000000, 1000000) (ztake 10 text); Arrive (0, 2000000, 1500000) (slice text 10 90); Other (HighWaterMark 6000000); Other (Finish 3000000 0); Arrive (5, 4000000, 3500000) (zdrop 90 text); Other SendPosted; Other WriteComplete; Other (HighWaterMark 11000000)].
Definition example_buffer : Buffer := mkBuffer (replicate 1032 Byte.x00) 8 8.
Lemma example_acceptable i : zlen i = 1 -> colon ∉ i -> CR ∉ i -> acceptable 4 (i, example_puzzle).
Proof.
  intros L N1 N2. split; [|cbn; by destruct i]. assert (i <> []) as Hi by (by destruct i). assert (CR ∉ colon :: example_puzzle) as N3 by (by apply (bool_decide_unpack _); vm_compute).
  assert (line (i, example_puzzle) = i ++ colon :: example_puzzle) as El by (unfold line; by rewrite decide_False). split; rewrite ?El; try done; [rewrite zlen_app, L; by vm_compute|]. rewrite elem_of_app. intros []; contradiction.
Qed.
