(* ===== verification/Balancer.v ===== *)
(** * The RPC balancers (src/muduo/examples/protobuf/rpcbalancer/balancer.cc, balancer_raw.cc)

    A balancer gives the requests of its clients to several backends in turn, under numbers of its own, and gives each response back to the client that asked,
    under the number the client chose. balancer_raw.cc does not parse the messages but changes the numbers in their bytes. Everything of a client is on the loop of its connection, where each
    loop has its own connections to the backends; the assertions about the thread hold.

    The file shows that clients get the answers to their own requests, each at most once, and that both balancers send the same bytes. *)

From S2P Require Import Prelude Endian StringPiece Buffer Codec Conn.

Abbreviation name := (list byte).

(** What the templates over [MSG] use of a message: [id()], [set_id(x)] and [sendTo], which gives what is sent on the connection *)
Class Message (Msg W : Type) := { msg_id : Msg -> Z; msg_set_id : Z -> Msg -> Msg; sendTo : Msg -> outcome W }.

(** ** Sessions with backends, and the balancer *)

Section Balancer.
Context {Msg W : Type} `{Message Msg W}.

Record Request := mkRequest { origId : Z; clientConn : name }.
(** [conn_]: what was sent on the connection, if there is one *)
Record BackendSession := mkSession { conn_ : option (list W); nextId_ : Z; outstandings_ : gmap Z Request }.
Definition newSession : BackendSession := mkSession None 0 ∅.
(** A client's connection: whether it is there, so that a weak pointer to it can be locked, and what was sent on it *)
Record Client := mkClient { alive : bool; got : list W }.

Definition session_send (msg : Msg) (clientConn : name) (s : BackendSession) : outcome (bool * BackendSession) :=
  match conn_ s with
  | Some ws =>
      let id := u64 (nextId_ s + 1) in
      let r := mkRequest (msg_id msg) clientConn in
      assert* bool_decide (outstandings_ s !! id = None) in
      let* w := sendTo (msg_set_id id msg) in
      Ret (true, mkSession (Some (ws ++ [w])) id (<[id := r]> (outstandings_ s)))
  | None => Ret (false, s)
  end.
Definition session_onConnection (connected : bool) (s : BackendSession) : BackendSession :=
  mkSession (if connected then Some [] else None) (nextId_ s) (outstandings_ s).
Definition session_onMessageT (msg : Msg) (s : BackendSession) (clients : gmap name Client) : outcome (BackendSession * gmap name Client) :=
  match outstandings_ s !! msg_id msg with
  | Some r =>
      let s := mkSession (conn_ s) (nextId_ s) (delete (msg_id msg) (outstandings_ s)) in
      match clients !! clientConn r with
      | Some (mkClient true ws) =>
          let* w := sendTo (msg_set_id (origId r) msg) in
          Ret (s, <[clientConn r := mkClient true (ws ++ [w])]> clients)
      | _ => Ret (s, clients)
      end
  | None => Ret (s, clients)
  end.

Record PerThread := mkThread { current : Z; backends : list BackendSession }.
Definition initPerThread (count : Z) (n : nat) : PerThread := mkThread (count mod Z.of_nat n) (replicate n newSession).
(** [for (size_t i = 0; i < t.backends.size() && !succeed; ++i)] *)
Fixpoint forward (n : nat) (msg : Msg) (conn : name) (t : PerThread) : outcome (bool * PerThread) :=
  match n with
  | O => Ret (false, t)
  | S n =>
      match backends t !! Z.to_nat (current t) with
      | Some s =>
          let* (succeed, s) := session_send msg conn s in
          let t := mkThread (u64 (current t + 1) mod zlen (backends t)) (<[Z.to_nat (current t) := s]> (backends t)) in
          if succeed : bool then Ret (true, t) else forward n msg conn t
      | None => Stop OutOfRange
      end
  end.
Definition onMessageT (conn : name) (msg : Msg) (t : PerThread) : outcome (bool * PerThread) := forward (length (backends t)) msg conn t.

(** ** A thread of the balancer with its clients and backends *)

Context (decode : W -> option Msg) (serve : Msg -> Msg).
Record System := mkSystem { thread : PerThread; clients : gmap name Client }.
(** A client connects, disconnects or asks; a backend connects, disconnects, or answers, perhaps again, a message that came on its connection. *)
Inductive Event := ClientUp (c : name) | ClientDown (c : name) | Ask (c : name) (m : Msg) | BackendUp (k : nat) | BackendDown (k : nat) | Answer (k j : nat).
Definition with_session (k : nat) (f : BackendSession -> gmap name Client -> outcome (BackendSession * gmap name Client)) (y : System) : outcome System :=
  match backends (thread y) !! k with
  | Some s => let* (s, cs) := f s (clients y) in Ret (mkSystem (mkThread (current (thread y)) (<[k := s]> (backends (thread y)))) cs)
  | None => Ret y
  end.
Definition step (e : Event) (y : System) : outcome System :=
  match e with
  | ClientUp c => Ret (mkSystem (thread y) (<[c := mkClient true []]> (clients y)))
  | ClientDown c => Ret (mkSystem (thread y) (alter (fun x => mkClient false (got x)) c (clients y)))
  | Ask c m => let* (_, t) := onMessageT c m (thread y) in Ret (mkSystem t (clients y))
  | BackendUp k => with_session k (fun s cs => Ret (session_onConnection true s, cs)) y
  | BackendDown k => with_session k (fun s cs => Ret (session_onConnection false s, cs)) y
  | Answer k j => with_session k (fun s cs =>
      match mbind decode (default [] (conn_ s) !! j) with
      | Some m => session_onMessageT (serve m) s cs
      | None => Ret (s, cs)
      end) y
  end.
Fixpoint run (es : list Event) (y : System) : outcome System := match es with [] => Ret y | e :: es => let* y := step e y in run es y end.
End Balancer.
Arguments Event : clear implicits.
Arguments BackendSession : clear implicits.
Arguments PerThread : clear implicits.
Arguments System : clear implicits.
Arguments Client : clear implicits.

(** ** Answers reach those who asked *)

Section Transparent.
Context {Msg W : Type} `{Message Msg W} (decode : W -> option Msg) (serve : Msg -> Msg) (wire : Msg -> W) (good : Msg -> Prop).
(** Numbers have 64 bits, setting them changes nothing else, and a message comes out of what is sent as it was. A backend answers with the number of the request, and does not look at it. *)
Class Laws := {
  id_set : forall i m, 0 <= i < 2 ^ 64 -> msg_id (msg_set_id i m) = i;
  set_set : forall i j m, msg_set_id i (msg_set_id j m) = msg_set_id i m;
  set_same : forall m, good m -> msg_set_id (msg_id m) m = m;
  sends : forall m, good m -> sendTo m = Ret (wire m) /\ decode (wire m) = Some m;
  good_set : forall i m, 0 <= i < 2 ^ 64 -> good m -> good (msg_set_id i m);
  serve_good : forall m, good m -> good (serve m);
  serve_id : forall m, msg_id (serve m) = msg_id m;
  serve_set : forall i m, serve (msg_set_id i m) = msg_set_id i (serve m) }.
Context `{Laws}.
Abbreviation asked := (name * Msg)%type.

(** A session that has sent the requests [h], of which [F] wait for their answers *)
Record Session_ok (s : BackendSession W) (F : gmap Z asked) (h : list asked) : Prop := mkSession_ok {
  i_next : nextId_ s = zlen h;
  i_table : outstandings_ s = (fun x => mkRequest (msg_id x.2) x.1) <$> F;
  i_open : forall n x, F !! n = Some x -> 0 < n /\ h !! Z.to_nat (n - 1) = Some x;
  i_sent : forall ws w, conn_ s = Some ws -> w ∈ ws -> exists n x, 0 < n /\ h !! Z.to_nat (n - 1) = Some x /\ w = wire (msg_set_id n x.2);
  i_good : Forall (fun x => good x.2) h }.
(** Everything that waits was sent on the present connection. *)
Definition Session_live (s : BackendSession W) (F : gmap Z asked) : Prop := forall n x, F !! n = Some x -> exists ws, conn_ s = Some ws /\ wire (msg_set_id n x.2) ∈ ws.

Lemma new_session_ok : Session_ok newSession ∅ [].
Proof. split; cbn; try done; by rewrite fmap_empty. Qed.
Lemma open_fresh s F h : Session_ok s F h -> F !! (zlen h + 1) = None.
Proof.
  intros [_ _ O _ _]. destruct (F !! (zlen h + 1)) as [x|] eqn:E; [|done]. destruct (O _ _ E) as [_ L]. apply lookup_lt_Some in L. unfold zlen in L. lia.
Qed.
Lemma lookup_snoc_ne {A} (l : list A) x i y : l !! i = Some y -> (l ++ [x]) !! i = Some y.
Proof. apply lookup_app_l_Some. Qed.
Lemma session_send_ok s F h c m ws : Session_ok s F h -> conn_ s = Some ws -> zlen h + 1 < 2 ^ 64 -> good m ->
  exists s', session_send m c s = Ret (true, s') /\ is_Some (conn_ s') /\ Session_ok s' (<[zlen h + 1 := (c, m)]> F) (h ++ [(c, m)]) /\ (Session_live s F -> Session_live s' (<[zlen h + 1 := (c, m)]> F)).
Proof.
  intros I Ec Lh G. pose proof (open_fresh _ _ _ I) as Fr. destruct I as [I1 I2 I3 I4 I5]. zlen_pos. unfold session_send. rewrite Ec, I1, wrap_small by lia. rewrite I2, lookup_fmap, Fr. cbn [fmap option_fmap option_map]. rewrite bool_decide_true by done. cbn [check].
  destruct (sends (msg_set_id (zlen h + 1) m)) as [-> _]; [apply good_set; [lia|done]|]. cbn [obind]. eexists. split; [done|]. split; [done|]. split; [split; cbn [nextId_ outstandings_ conn_]|].
  - rewrite zlen_app. done.
  - by rewrite fmap_insert.
  - intros n x. rewrite lookup_insert_Some. intros [[<- <-]|[N E]]; [split; [lia|]; rewrite lookup_app_r by (unfold zlen; lia); by replace (Z.to_nat (zlen h + 1 - 1) - length h)%nat with 0%nat by (unfold zlen; lia)|].
    destruct (I3 n x E) as [P L]. split; [done|]. by apply lookup_snoc_ne.
  - intros ws' w [= <-] [Hw|Hw%list_elem_of_singleton]%elem_of_app.
    + destruct (I4 ws w Ec Hw) as (n & x & P & L & ->). exists n, x. split_and!; try done. by apply lookup_snoc_ne.
    + exists (zlen h + 1), (c, m). split_and!; [lia| |done]. rewrite lookup_app_r by (unfold zlen; lia). by replace (Z.to_nat (zlen h + 1 - 1) - length h)%nat with 0%nat by (unfold zlen; lia).
  - apply Forall_app. split; [done|]. by constructor.
  - intros L n x E. eexists. split; [done|]. rewrite elem_of_app, list_elem_of_singleton. apply lookup_insert_Some in E as [[<- <-]|[N E]]; [by right|left]. destruct (L n x E) as (ws' & E' & Hw). rewrite Ec in E'. by injection E' as <-.
Qed.

(** An answer is for the request that was sent, and the client gets it under its own number. *)
Definition deliver (x : asked) (cs : gmap name (Client W)) : gmap name (Client W) :=
  match cs !! x.1 with
  | Some (mkClient true ws) => <[x.1 := mkClient true (ws ++ [wire (serve x.2)])]> cs
  | _ => cs
  end.
Lemma answer_ok s F h j w cs : Session_ok s F h -> zlen h < 2 ^ 64 -> default [] (conn_ s) !! j = Some w ->
  exists n m, decode w = Some m /\
    match F !! n with
    | Some x => exists s', session_onMessageT (serve m) s cs = Ret (s', deliver x cs) /\ conn_ s' = conn_ s /\ Session_ok s' (delete n F) h /\ (Session_live s F -> Session_live s' (delete n F))
    | None => session_onMessageT (serve m) s cs = Ret (s, cs)
    end.
Proof.
  intros [I1 I2 I3 I4 I5] Lh E. destruct (conn_ s) as [ws|] eqn:Ec; [|done]. cbn [default] in E. rewrite <- Ec. apply list_elem_of_lookup_2 in E. destruct (I4 ws w eq_refl E) as (n & x & P & L & ->). assert (good x.2) as G by (rewrite Forall_forall in I5; apply I5; by eapply list_elem_of_lookup_2).
  exists n, (msg_set_id n x.2). pose proof (lookup_lt_Some _ _ _ L) as Ln. split; [apply sends, good_set; [unfold zlen in *; lia|done]|]. assert (msg_id (serve (msg_set_id n x.2)) = n) as En by (rewrite serve_id, id_set; [done|unfold zlen in *; lia]).
  unfold session_onMessageT. rewrite En, I2, lookup_fmap. destruct (F !! n) as [y|] eqn:Ey; [|done]. destruct (I3 n y Ey) as [_ Ly]. rewrite L in Ly. injection Ly as <-. cbn [fmap option_fmap option_map origId clientConn].
  assert (msg_set_id (msg_id x.2) (serve (msg_set_id n x.2)) = serve x.2) as Es by (rewrite serve_set, set_set, <- (serve_id x.2); by apply set_same, serve_good).
  set (s' := mkSession _ _ _). exists s'. split_and!.
  - unfold deliver. destruct (cs !! x.1) as [[[] ws']|]; try done. rewrite Es. destruct (sends (serve x.2)) as [-> _]; [by apply serve_good|done].
  - done.
  - split; cbn [s' nextId_ outstandings_ conn_]; try done; [by rewrite fmap_delete| |by rewrite Ec].
    intros k z. rewrite lookup_delete_Some. intros [_ Ez]. by apply I3.
  - intros Lv k z. rewrite lookup_delete_Some. intros [_ Ez]. by apply Lv.
Qed.

(** ** All sessions of a thread *)

Abbreviation ghost := (gmap Z asked * list asked)%type.
Definition Sessions (t : PerThread W) (gs : list ghost) : Prop := Forall2 (fun s g => Session_ok s g.1 g.2) (backends t) gs /\ 0 <= current t < zlen (backends t) /\ zlen (backends t) < 2 ^ 64.
Definition Live (t : PerThread W) (gs : list ghost) : Prop := Forall2 (fun s g => Session_live s g.1) (backends t) gs.
Definition waiting (gs : list ghost) : list asked := concat (map (fun g => map snd (map_to_list g.1)) gs).
Definition below (N : Z) (gs : list ghost) : Prop := Forall (fun g => zlen g.2 <= N) gs.

Lemma waiting_split gs k g : gs !! k = Some g -> exists rest, waiting gs ≡ₚ map snd (map_to_list g.1) ++ rest /\ forall g', waiting (<[k := g']> gs) ≡ₚ map snd (map_to_list g'.1) ++ rest.
Proof.
  revert k. induction gs as [|g0 gs IH]; intros k E; [done|]. destruct k as [|k]; cbn in E.
  - injection E as ->. by exists (waiting gs).
  - destruct (IH k E) as (rest & P & P'). exists (map snd (map_to_list g0.1) ++ rest). unfold waiting in *. cbn. split; [rewrite P|intros g'; rewrite P']; solve_Permutation.
Qed.
Lemma Sessions_insert t gs k s g c : Sessions t gs -> 0 <= c < zlen (backends t) -> Session_ok s g.1 g.2 -> Sessions (mkThread c (<[k := s]> (backends t))) (<[k := g]> gs).
Proof. intros (F & _ & L) Hc I. split_and!; cbn [backends current]; [by apply Forall2_insert|unfold zlen in *; rewrite ?length_insert; lia..]. Qed.
Lemma below_weaken N M gs : N <= M -> below N gs -> below M gs.
Proof. intros Hn B. eapply Forall_impl; [exact B|]. cbn. lia. Qed.
Lemma next_range t gs : Sessions t gs -> 0 <= u64 (current t + 1) mod zlen (backends t) < zlen (backends t).
Proof. intros (_ & C & L). apply Z.mod_pos_bound. lia. Qed.

Definition Up (t : PerThread W) (up : gset nat) : Prop := (forall k s, backends t !! k = Some s -> is_Some (conn_ s) <-> k ∈ up) /\ forall k, k ∈ up -> (k < length (backends t))%nat.
Lemma Up_insert t up c k s s0 : Up t up -> backends t !! k = Some s0 -> (is_Some (conn_ s) <-> is_Some (conn_ s0)) -> Up (mkThread c (<[k := s]> (backends t))) up.
Proof.
  intros [U1 U2] E Hs. split; cbn [backends]; [|intros j Hj; rewrite length_insert; by apply U2]. intros j sj. rewrite list_lookup_insert_Some. intros [(-> & <- & _)|[_ Ej]]; [rewrite Hs|]; by apply U1.
Qed.
(** How far the backend [k] is from the one whose turn it is *)
Lemma next_distance (c k n : Z) : 0 <= c < n -> 0 <= k < n -> k <> c -> n < 2 ^ 64 -> (k - u64 (c + 1) mod n) mod n = (k - c) mod n - 1.
Proof.
  intros Hc Hk Hn Hl. rewrite wrap_small by lia. rewrite Zminus_mod_idemp_r. destruct (decide (c < k)); [rewrite !Z.mod_small by lia; lia|].
  replace (k - (c + 1)) with (k - c - 1 + n + (-1) * n) by lia. replace (k - c) with (k - c + n + (-1) * n) at 2 by lia. rewrite !Z_mod_plus_full, !Z.mod_small by lia. lia.
Qed.
(** A request goes to a backend that is up, if there is one among the next [n]. *)
Lemma forward_ok n t gs up N c m : Sessions t gs -> Up t up -> below N gs -> N + 1 < 2 ^ 64 -> good m ->
  exists b t' gs', forward n m c t = Ret (b, t') /\ Sessions t' gs' /\ Up t' up /\ length (backends t') = length (backends t) /\ waiting gs' ≡ₚ (if b : bool then [(c, m)] else []) ++ waiting gs /\ below (N + 1) gs' /\ (Live t gs -> Live t' gs') /\
    (up = ∅ -> b = false) /\ (forall k, k ∈ up -> (Z.of_nat k - current t) mod zlen (backends t) < Z.of_nat n -> b = true).
Proof.
  intros I U B LN G. revert t I U B. induction n as [|n IH]; intros t I U B; cbn [forward].
  - exists false, t, gs. split_and!; try done; [by apply (below_weaken N); [lia|]|]. intros k _ L. pose proof I as (_ & C & _). pose proof (Z.mod_pos_bound (Z.of_nat k - current t) (zlen (backends t)) ltac:(lia)). lia.
  - pose proof I as (F & C & Lb). destruct (lookup_lt_is_Some_2 (backends t) (Z.to_nat (current t))) as [s Es]; [unfold zlen in *; lia|]. destruct (Forall2_lookup_l _ _ _ _ _ F Es) as (g & Eg & Is). rewrite Es. destruct (conn_ s) as [ws|] eqn:Ec.
    + assert (zlen g.2 <= N) as Ln by (by eapply (Forall_lookup_1 _ _ _ _ B Eg)). destruct (session_send_ok s g.1 g.2 c m ws Is Ec ltac:(lia) G) as (s' & -> & Cs & Is' & Lv). cbn [obind]. set (g' := (<[zlen g.2 + 1 := (c, m)]> g.1, g.2 ++ [(c, m)])).
      exists true. eexists. exists (<[Z.to_nat (current t) := g']> gs). split_and!; [done| | |cbn; by rewrite length_insert| | | | |done].
      * apply Sessions_insert; [done|by eapply next_range|done].
      * apply (Up_insert _ _ _ _ _ s); [done|done|]. by rewrite Ec.
      * destruct (waiting_split gs _ g Eg) as (rest & P & P'). rewrite (P' g'), P. cbn [g' fst]. rewrite map_to_list_insert by (by eapply open_fresh). done.
      * apply Forall_insert; [by apply (below_weaken N); [lia|]|]. cbn [g' snd]. rewrite zlen_app. change (zlen [(c, m)]) with 1. lia.
      * intros Lt. apply Forall2_insert; [done|]. apply Lv. destruct (Forall2_lookup_l _ _ _ _ _ Lt Es) as (g2 & Eg2 & Ls). rewrite Eg in Eg2. by injection Eg2 as <-.
      * intros ->. destruct U as [U _]. destruct (U _ _ Es) as [Hu _]. rewrite Ec in Hu. by specialize (Hu ltac:(done)).
    + unfold session_send. rewrite Ec. cbn [obind]. rewrite list_insert_id by done. set (t1 := mkThread _ _). destruct (IH t1) as (b & t' & gs' & E & I' & U' & L' & P & B' & Lv & Hn & Hk); [split; [done|]; split; [exact (next_range t gs I)|done]|done|done|].
      exists b, t', gs'. split_and!; try done. intros k Hu Hd. apply (Hk k Hu). cbn [t1 current backends]. pose proof (proj2 U k Hu). assert (Z.of_nat k <> current t) as Nk. { intros Ek. rewrite <- Ek, Nat2Z.id in Es. apply (proj1 U k s Es) in Hu. rewrite Ec in Hu. by destruct Hu. }
      rewrite next_distance by (unfold zlen in *; lia). lia.
Qed.

(** ** Runs *)

(** The requests [all] are delivered, waiting, [unsent] or [orphaned]; [down] says whether a backend has gone. *)
Record System_ok (y : System W) (gs : list ghost) (up : gset nat) (gone : gset name) (all delivered unsent orphaned : list asked) (calm : bool) : Prop := mkSystem_ok {
  y_sessions : Sessions (thread y) gs;
  y_up : Up (thread y) up;
  y_below : below (zlen all) gs;
  y_all : all ≡ₚ delivered ++ waiting gs ++ unsent ++ orphaned;
  y_known : forall x, x ∈ all -> is_Some (clients y !! x.1);
  y_got : forall c cl, clients y !! c = Some cl -> got cl = map (fun x => wire (serve x.2)) (filter (fun x => x.1 = c) delivered);
  y_alive : forall c cl, clients y !! c = Some cl -> alive cl = false -> c ∈ gone;
  y_orphaned : forall x, x ∈ orphaned -> x.1 ∈ gone;
  y_calm : calm = true -> Live (thread y) gs }.
Abbreviation event := (Event Msg).
(** The backends that are up, after an event *)
Definition ups (up : gset nat) (e : event) : gset nat := match e with BackendUp k => {[k]} ∪ up | BackendDown k => up ∖ {[k]} | _ => up end.
(** Connections have names of their own, and only connections that were there ask; of the [n] backends one connects when it is not connected. *)
Fixpoint legal (n : nat) (known : gset name) (up : gset nat) (es : list event) : Prop :=
  match es with
  | [] => True
  | e :: es =>
      match e with
      | ClientUp c => c ∉ known
      | ClientDown c => c ∈ known
      | Ask c m => c ∈ known /\ good m
      | BackendUp k => (k < n)%nat /\ k ∉ up
      | BackendDown k => k ∈ up
      | Answer _ _ => True
      end /\ legal n (match e with ClientUp c => {[c]} ∪ known | _ => known end) (ups up e) es
  end.
Definition asked_of (es : list event) : list asked := concat (map (fun e => match e with Ask c m => [(c, m)] | _ => [] end) es).
(** The requests that come while no backend is up, and the clients that go *)
Fixpoint unserved (up : gset nat) (es : list event) : list asked :=
  match es with
  | [] => []
  | e :: es => match e with Ask c m => if decide (up = ∅) then [(c, m)] else [] | _ => [] end ++ unserved (ups up e) es
  end.
Definition gone_clients (es : list event) : gset name := ⋃ (map (fun e => match e with ClientDown c => {[c]} | _ => ∅ end) es).
Definition stays (e : event) : bool := match e with BackendDown _ => false | _ => true end.

Lemma step_clientUp y gs up gone all dl un orp b c : System_ok y gs up gone all dl un orp b -> clients y !! c = None -> System_ok (mkSystem (thread y) (<[c := mkClient true []]> (clients y))) gs up gone all dl un orp b.
Proof.
  intros [Y1 Yu Y2 Y3 Y4 Y5 Ya Yo Y6] E. split; cbn [thread clients]; try done.
  - intros x Hx. rewrite lookup_insert. case_decide; [done|by apply Y4].
  - intros c' cl. rewrite lookup_insert_Some. intros [[<- <-]|[N Ec]]; [|by apply Y5]. cbn [got]. destruct (filter (fun x : asked => x.1 = c) dl) as [|x l] eqn:Ef; [done|]. assert (x ∈ filter (fun x : asked => x.1 = c) dl) as [<- Hd]%list_elem_of_filter by (rewrite Ef; by left). destruct (Y4 x) as [? Ex]; [|congruence]. rewrite Y3. by apply elem_of_app; left.
  - intros c' cl. rewrite lookup_insert_Some. intros [[<- <-]|[N Ec]]; [done|by apply Ya].
Qed.
Lemma step_clientDown y gs up gone all dl un orp b c : System_ok y gs up gone all dl un orp b -> System_ok (mkSystem (thread y) (alter (fun x => mkClient false (got x)) c (clients y))) gs up (gone ∪ {[c]}) all dl un orp b.
Proof.
  intros [Y1 Yu Y2 Y3 Y4 Y5 Ya Yo Y6]. split; cbn [thread clients]; try done.
  - intros x Hx. rewrite lookup_alter_is_Some. by apply Y4.
  - intros c' cl. rewrite lookup_alter_Some. intros [(<- & cl' & E & ->)|[N Ec]]; [cbn [got]; by apply Y5|by apply Y5].
  - intros c' cl. rewrite lookup_alter_Some. intros [(<- & cl' & E & ->)|[N Ec]] Hd; [set_solver|]. apply elem_of_union. left. by eapply Ya.
  - intros x Hx. apply elem_of_union. left. by apply Yo.
Qed.
Lemma step_ask y gs up gone all dl un orp b c m : System_ok y gs up gone all dl un orp b -> is_Some (clients y !! c) -> good m -> zlen all + 1 < 2 ^ 64 ->
  exists t gs', onMessageT c m (thread y) = Ret t /\ length (backends t.2) = length (backends (thread y)) /\ System_ok (mkSystem t.2 (clients y)) gs' up gone (all ++ [(c, m)]) dl (un ++ if decide (up = ∅) then [(c, m)] else []) orp b.
Proof.
  intros [Y1 Yu Y2 Y3 Y4 Y5 Ya Yo Y6] Hc G L. unfold onMessageT. destruct (forward_ok (length (backends (thread y))) (thread y) gs up (zlen all) c m Y1 Yu Y2 L G) as (r & t' & gs' & E & I & U & Lt & P & B & Lv & Hn & Hk). exists (r, t'), gs'. split; [done|]. split; [done|].
  assert (r = bool_decide (up <> ∅)) as Er.
  { destruct (decide (up = ∅)) as [Eu|Nu]; [rewrite (Hn Eu); symmetry; apply bool_decide_eq_false; by intros ?|]. rewrite bool_decide_true by done. apply set_choose_L in Nu as [k Hu]. apply (Hk k Hu). destruct Y1 as (_ & C & _). unfold zlen in *. apply Z.mod_pos_bound. lia. }
  split; cbn [thread clients snd]; try done.
  - rewrite zlen_app. done.
  - rewrite Y3, P, Er. destruct (decide (up = ∅)) as [Eu|Nu]; [rewrite bool_decide_false by (by intros ?)|rewrite bool_decide_true by done]; solve_Permutation.
  - intros x. rewrite elem_of_app, list_elem_of_singleton. intros [Hx| ->]; [by apply Y4|done].
  - intros Hb. apply Lv, (Y6 Hb).
Qed.
(** A connection to a backend comes up or goes down. *)
Lemma session_up_ok up s F h : Session_ok s F h -> Session_ok (session_onConnection up s) F h.
Proof. intros [I1 I2 I3 I4 I5]. split; cbn; try done. intros ws w E Hw. destruct up; [|done]. injection E as <-. by apply elem_of_nil in Hw. Qed.
Lemma step_backend y gs up gone all dl un orp b k (v : bool) : System_ok y gs up gone all dl un orp b -> (if v then (k < length (backends (thread y)))%nat /\ k ∉ up else k ∈ up) ->
  exists y', with_session k (fun s cs => Ret (session_onConnection v s, cs)) y = Ret y' /\ clients y' = clients y /\ length (backends (thread y')) = length (backends (thread y)) /\
    System_ok y' gs (if v then {[k]} ∪ up else up ∖ {[k]}) gone all dl un orp (b && v).
Proof.
  intros [Y1 Yu Y2 Y3 Y4 Y5 Ya Yo Y6] Hk. assert (k < length (backends (thread y)))%nat as Lk by (destruct v; [apply Hk|by apply Yu]). destruct (lookup_lt_is_Some_2 _ _ Lk) as [s Es]. unfold with_session. rewrite Es. cbn [obind]. eexists. split; [done|]. split; [done|]. split; [cbn; by rewrite length_insert|].
  pose proof Y1 as (F & C & _). destruct (Forall2_lookup_l _ _ _ _ _ F Es) as (g & Eg & Is). split; cbn [thread clients]; try done.
  - rewrite <- (list_insert_id gs k g Eg). apply Sessions_insert; [done|done|]. by apply session_up_ok.
  - destruct Yu as [U1 U2]. split; cbn [backends]; [|intros j Hj; rewrite length_insert; destruct v; [apply elem_of_union in Hj as [->%elem_of_singleton|Hj]; [done|by apply U2]|apply elem_of_difference in Hj as [Hj _]; by apply U2]].
    intros j sj. rewrite list_lookup_insert_Some. intros [(<- & <- & _)|[N Ej]]; [cbn [session_onConnection conn_]; destruct v; [set_solver|split; [by intros []|set_solver]]|]. rewrite (U1 j sj Ej). destruct v; set_solver.
  - intros [Hb ->]%andb_true_iff. rewrite <- (list_insert_id gs k g Eg). apply Forall2_insert; [by apply Y6|]. intros n x E. destruct (Forall2_lookup_l _ _ _ _ _ (Y6 Hb) Es) as (g2 & Eg2 & Lv). rewrite Eg in Eg2. injection Eg2 as <-. destruct (Lv n x E) as (ws & Ews & _).
    destruct Hk as [_ Nk]. exfalso. apply Nk, (proj1 Yu k s Es). by eexists.
Qed.
(** The answer of a backend *)
Lemma deliver_got x cs dl : (forall c cl, cs !! c = Some cl -> got cl = map (fun x => wire (serve x.2)) (filter (fun x => x.1 = c) dl)) ->
  (exists ws, cs !! x.1 = Some (mkClient true ws)) -> forall c cl, deliver x cs !! c = Some cl -> got cl = map (fun x => wire (serve x.2)) (filter (fun x => x.1 = c) (dl ++ [x])).
Proof.
  intros G (ws & E) c cl. unfold deliver. rewrite E, filter_app, map_app. rewrite lookup_insert_Some. intros [[<- <-]|[N Ec]].
  - cbn [got]. rewrite (filter_cons_True _ x) by done. by rewrite <- (G _ _ E).
  - rewrite (filter_cons_False _ x) by done. cbn. rewrite app_nil_r. by apply G.
Qed.
Lemma deliver_dom x cs c : is_Some (deliver x cs !! c) <-> is_Some (cs !! c).
Proof.
  unfold deliver. destruct (cs !! x.1) as [[[] ws]|] eqn:E; try done. rewrite lookup_insert. case_decide as D; [|done]. rewrite <- D, E. split; by eexists.
Qed.
Lemma deliver_alive x cs c cl : deliver x cs !! c = Some cl -> alive cl = false -> cs !! c = Some cl.
Proof. unfold deliver. destruct (cs !! x.1) as [[[] ws]|] eqn:E; try done. rewrite lookup_insert_Some. by intros [[<- <-]|[_ Ec]]. Qed.
Lemma step_answer y gs up gone all dl un orp b k j : System_ok y gs up gone all dl un orp b -> zlen all < 2 ^ 64 ->
  exists y' gs' dl' orp', step decode serve (Answer k j) y = Ret y' /\ System_ok y' gs' up gone all dl' un orp' b /\ dom (clients y') = dom (clients y) /\ length (backends (thread y')) = length (backends (thread y)).
Proof.
  intros Y La. cbn [step]. unfold with_session. destruct (backends (thread y) !! k) as [s|] eqn:Es; [|by exists y, gs, dl, orp]. pose proof Y as [Y1 Yu Y2 Y3 Y4 Y5 Ya Yo Y6]. pose proof Y1 as (F & C & _). destruct (Forall2_lookup_l _ _ _ _ _ F Es) as (g & Eg & Is).
  assert (forall y', y' = mkSystem (mkThread (current (thread y)) (<[k := s]> (backends (thread y)))) (clients y) -> y' = y) as Same by (intros y' ->; rewrite list_insert_id by done; by destruct y as [[]]).
  destruct (default [] (conn_ s) !! j) as [w|] eqn:Ew; cbn [mbind option_bind]; [|cbn [obind]; eexists _, gs, dl, orp; split; [done|]; by rewrite (Same _ eq_refl)].
  assert (zlen g.2 <= zlen all) as Lg by (by eapply (Forall_lookup_1 _ _ _ _ Y2 Eg)). destruct (answer_ok s g.1 g.2 j w (clients y) Is ltac:(lia) Ew) as (n & m & -> & R). destruct (g.1 !! n) as [x|] eqn:Ex; [|rewrite R; cbn [obind]; eexists _, gs, dl, orp; split; [done|]; by rewrite (Same _ eq_refl)].
  destruct R as (s' & -> & Cs & Is' & Lv). cbn [obind]. set (g' := (delete n g.1, g.2)). destruct (waiting_split gs k g Eg) as (rest & P & P'). assert (waiting gs ≡ₚ x :: waiting (<[k := g']> gs)) as Pw by (rewrite P, (P' g'); cbn [g' fst]; by rewrite <- (map_to_list_delete g.1 n x Ex)).
  assert (x ∈ all) as Hx by (rewrite Y3, !elem_of_app, Pw; right; left; by left). destruct (Y4 x Hx) as [[a ws] Ea].
  exists (mkSystem (mkThread (current (thread y)) (<[k := s']> (backends (thread y)))) (deliver x (clients y))), (<[k := g']> gs), (if a then dl ++ [x] else dl), (if a then orp else x :: orp). split; [done|].
  split; [|split; [apply set_eq; intros c; rewrite !elem_of_dom; apply deliver_dom|cbn; by rewrite length_insert]]. split; cbn [thread clients].
  - by apply Sessions_insert.
  - apply (Up_insert _ _ _ _ _ s); [done|done|by rewrite Cs].
  - apply Forall_insert; [done|]. by cbn.
  - rewrite Y3, Pw. destruct a; solve_Permutation.
  - intros z Hz. apply deliver_dom. by apply Y4.
  - destruct a; [apply deliver_got; [done|by exists ws]|]. unfold deliver. by rewrite Ea.
  - intros c cl E Hd. eapply Ya; [by eapply deliver_alive|done].
  - destruct a; [done|]. intros z [->|Hz]%elem_of_cons; [by eapply Ya|by apply Yo].
  - intros Hb. apply Forall2_insert; [by apply Y6|]. apply Lv. destruct (Forall2_lookup_l _ _ _ _ _ (Y6 Hb) Es) as (g2 & Eg2 & Ls). rewrite Eg in Eg2. by injection Eg2 as <-.
Qed.
Lemma run_ok n es y gs up gone all dl un orp b : System_ok y gs up gone all dl un orp b -> length (backends (thread y)) = n -> legal n (dom (clients y)) up es -> zlen all + zlen es < 2 ^ 64 ->
  exists y' gs' up' dl' orp', run decode serve es y = Ret y' /\ System_ok y' gs' up' (gone ∪ gone_clients es) (all ++ asked_of es) dl' (un ++ unserved up es) orp' (b && forallb stays es).
Proof.
  revert y gs up gone all dl un orp b. induction es as [|e es IH]; intros y gs up gone all dl un orp b Y Ln Lg L; cbn [run].
  { exists y, gs, up, dl, orp. unfold gone_clients. cbn [map]. rewrite union_list_nil, union_empty_r_L, !app_nil_r, andb_true_r. done. }
  rewrite zlen_cons in L. zlen_pos. assert (asked_of (e :: es) = asked_of [e] ++ asked_of es) as -> by (unfold asked_of; cbn [map concat]; by rewrite app_nil_r). rewrite app_assoc. cbn [forallb]. rewrite andb_assoc. cbn [legal] in Lg. destruct Lg as [Le Lg].
  assert (gone_clients (e :: es) = gone_clients [e] ∪ gone_clients es) as -> by (unfold gone_clients; cbn [map union_list foldr]; set_solver). rewrite union_assoc_L. cbn [unserved]. rewrite (app_assoc un). set (u1 := match e with Ask c m => _ | _ => [] end).
  assert (exists y1 gs1 dl1 orp1, step decode serve e y = Ret y1 /\ System_ok y1 gs1 (ups up e) (gone ∪ gone_clients [e]) (all ++ asked_of [e]) dl1 (un ++ u1) orp1 (b && stays e) /\ length (backends (thread y1)) = n /\
    dom (clients y1) = match e with ClientUp c => {[c]} ∪ dom (clients y) | _ => dom (clients y) end) as (y1 & gs1 & dl1 & orp1 & -> & Y' & Ln' & Ed).
  2: { cbn [obind]. apply (IH y1 gs1 _ _ (all ++ asked_of [e]) dl1 _ orp1); [done|done|by rewrite Ed|]. rewrite zlen_app. assert (zlen (asked_of [e]) <= 1) by (by destruct e). lia. }
  assert ((forall c, e <> ClientDown c) -> gone ∪ gone_clients [e] = gone) as Eg by (intros Nc; destruct e; unfold gone_clients; cbn [map union_list foldr]; [set_solver|by destruct (Nc c)|set_solver..]).
  destruct e as [c|c|c m|k|k|k j]; cbn [asked_of map concat app stays step ups u1] in *; rewrite ?app_nil_r, ?andb_true_r, ?andb_false_r; try rewrite Eg by done.
  - eexists _, gs, dl, orp. split; [done|]. split; [apply step_clientUp; [done|by apply not_elem_of_dom]|]. split; [done|]. cbn [clients]. by rewrite dom_insert_L.
  - assert (gone ∪ gone_clients [ClientDown c] = gone ∪ {[c]}) as -> by (unfold gone_clients; cbn [map union_list foldr]; set_solver). eexists _, gs, dl, orp. split; [done|]. split; [by apply step_clientDown|]. split; [done|]. cbn [clients]. by rewrite dom_alter_L.
  - destruct Le as (Hc & G). apply elem_of_dom in Hc. destruct (step_ask y gs up gone all dl un orp b c m Y Hc G ltac:(lia)) as ([r t] & gs1 & -> & Lt & Y'). cbn [obind snd] in *. eexists _, gs1, dl, orp. split; [done|]. split; [done|]. split; [by rewrite <- Ln|done].
  - rewrite <- Ln in Le. destruct (step_backend y gs up gone all dl un orp b k true Y Le) as (y1 & -> & Ec & Lk & Y'). exists y1, gs, dl, orp. rewrite andb_true_r in Y'. rewrite Ec, Lk. done.
  - destruct (step_backend y gs up gone all dl un orp b k false Y Le) as (y1 & -> & Ec & Lk & Y'). exists y1, gs, dl, orp. rewrite andb_false_r in Y'. rewrite Ec, Lk. done.
  - destruct (step_answer y gs up gone all dl un orp b k j Y ltac:(lia)) as (y1 & gs1 & dl1 & orp1 & E & Y' & Ed & Lk). exists y1, gs1, dl1, orp1. rewrite Ed, Lk. done.
Qed.

(** A thread after its [initPerThread]: the backends have been told to connect, and none is connected. *)
Definition start (count : Z) (n : nat) : System W := mkSystem (initPerThread count n) ∅.
Lemma start_ok count n : (0 < n)%nat -> Z.of_nat n < 2 ^ 64 -> System_ok (start count n) (replicate n (∅, [])) ∅ ∅ [] [] [] [] true.
Proof.
  intros Hn Hl. unfold start, initPerThread. set (t := mkThread _ _). assert (zlen (backends t) = Z.of_nat n) as L by (unfold t; cbn [backends]; unfold zlen; by rewrite length_replicate).
  assert (Forall2 (fun s g => Session_ok s g.1 g.2 /\ Session_live s g.1) (backends t) (replicate n ((∅, []) : ghost))) as F.
  { unfold t. cbn [backends]. clear. induction n as [|n IH]; [constructor|]. cbn [replicate]. constructor; [|done]. split; [apply new_session_ok|]. intros i x E. cbn [fst] in E. by rewrite lookup_empty in E. }
  split; cbn [thread clients]; try done.
  - split; [by eapply Forall2_impl; [exact F|]; intros ? ? []|]. rewrite L. split; [|done]. cbn [t current]. apply Z.mod_pos_bound. lia.
  - split; [|set_solver]. intros k s E. cbn [t backends] in E. apply lookup_replicate in E as [-> _]. cbn. split; [by intros []|set_solver].
  - apply Forall_replicate. by vm_compute.
  - enough (waiting (replicate n (∅, [])) = []) as -> by done. clear. induction n as [|n IH]; [done|]. unfold waiting in *. cbn [replicate map concat fst]. rewrite map_to_list_empty. exact IH.
  - intros x Hx. by apply elem_of_nil in Hx.
  - intros x Hx. by apply elem_of_nil in Hx.
  - intros _. by eapply Forall2_impl; [exact F|]; intros ? ? [].
Qed.
(** The requests that the sessions remember *)
Definition outstanding (t : PerThread W) : list Request := concat (map (fun s => map snd (map_to_list (outstandings_ s))) (backends t)).
Lemma outstanding_ok t gs : Sessions t gs -> outstanding t ≡ₚ map (fun x => mkRequest (msg_id x.2) x.1) (waiting gs).
Proof.
  intros (F & _). unfold outstanding, waiting. induction F as [|s g ss gs Is F IH]; [done|]. cbn [map concat]. rewrite map_app, IH. apply Permutation_app_tail. rewrite (i_table _ _ _ Is), map_to_list_fmap, map_map.
  by rewrite map_map.
Qed.
(** The backend of a request that waits has it. *)
Definition at_backend (x : asked) (y : System W) : Prop :=
  exists k s ws i, backends (thread y) !! k = Some s /\ conn_ s = Some ws /\ outstandings_ s !! i = Some (mkRequest (msg_id x.2) x.1) /\ wire (msg_set_id i x.2) ∈ ws.
Lemma waiting_at y gs x : Sessions (thread y) gs -> Live (thread y) gs -> x ∈ waiting gs -> at_backend x y.
Proof.
  intros (F & _) Lv Hx. unfold waiting in Hx. apply list_elem_of_In, in_concat in Hx as (l & Hl & Hx). apply list_elem_of_In in Hx. apply list_elem_of_In, list_elem_of_fmap in Hl as (g & -> & Hg). apply list_elem_of_fmap in Hx as ([i x'] & -> & Hi). apply elem_of_map_to_list in Hi. apply list_elem_of_lookup in Hg as [k Eg].
  destruct (Forall2_lookup_r _ _ _ _ _ F Eg) as (s & Es & Is). destruct (Forall2_lookup_r _ _ _ _ _ Lv Eg) as (s2 & Es2 & Hw). rewrite Es in Es2. injection Es2 as <-. destruct (Hw i x' Hi) as (ws & Ec & Hws). exists k, s, ws, i. split_and!; [done|done| |done]. rewrite (i_table _ _ _ Is), lookup_fmap, Hi. done.
Qed.
End Transparent.
Arguments Laws {Msg W} {_} decode serve wire good.

(** C22. The balancers with any number of backends, none of which is connected at first, and clients and backends that connect, disconnect, ask and answer in any order: nothing fails, and every request is exactly one of delivered, waiting, refused for
    want of a backend, and orphaned. A client has got, in this order, exactly the answers to its delivered requests, under the numbers that it chose and whatever the numbers of other clients are; an answer that a backend gives twice is delivered once. The requests
    that wait are those the sessions remember; those without a backend are exactly those that came while no backend was connected; and an orphan is the request of a client that has gone. If no backend goes down, those that wait are at a backend whose
    answer will be delivered. *)
Theorem balancer_transparent {Msg W : Type} `{Message Msg W} (decode : W -> option Msg) (serve : Msg -> Msg) (wire : Msg -> W) (good : Msg -> Prop) `{!Laws decode serve wire good}
    (count : Z) (n : nat) (es : list (Event Msg)) : (0 < n)%nat -> Z.of_nat n < 2 ^ 64 -> legal good n ∅ ∅ es -> zlen es < 2 ^ 64 ->
  exists y delivered waiting orphaned, run decode serve es (start count n) = Ret y /\ asked_of es ≡ₚ delivered ++ waiting ++ unserved ∅ es ++ orphaned /\
    (forall c cl, clients y !! c = Some cl -> got cl = map (fun x => wire (serve x.2)) (filter (fun x => x.1 = c) delivered)) /\
    outstanding (thread y) ≡ₚ map (fun x => mkRequest (msg_id x.2) x.1) waiting /\ (forall x, x ∈ orphaned -> x.1 ∈ gone_clients es) /\
    (forallb stays es = true -> forall x, x ∈ waiting -> at_backend wire x y).
Proof.
  intros Hn Hl Lg L. edestruct (run_ok decode serve wire good n es (start count n)) as (y & gs & up & dl & orp & E & [Y1 Yu Y2 Y3 Y4 Y5 Ya Yo Y6]); [by apply (start_ok decode serve wire good)|cbn; by rewrite length_replicate|unfold start; cbn [clients]; by rewrite dom_empty_L|done|].
  exists y, dl, (waiting gs), orp. split_and!; [done..|by eapply outstanding_ok| |].
  - intros x Hx. apply Yo in Hx. by rewrite union_empty_l_L in Hx.
  - intros Sm x. rewrite Sm in Y6. eapply waiting_at; [exact Y1|by apply Y6].
Qed.

#[export] Instance legal_dec {Msg : Type} (good : Msg -> Prop) `{!forall m, Decision (good m)} n known up (es : list (Event Msg)) : Decision (legal good n known up es).
Proof. revert known up. induction es as [|e es IH]; intros known up; cbn [legal]; [apply _|]. apply and_dec; [|apply IH]. destruct e; apply _. Defined.
(** Messages that are a number and a text, and backends that turn the text around *)
Module Toy.
#[global] Instance message : Message (Z * list byte) (Z * list byte) := {| msg_id := fst; msg_set_id i m := (i, m.2); sendTo := Ret |}.
Definition serve (m : Z * list byte) : Z * list byte := (m.1, rev m.2).
Definition good (m : Z * list byte) : Prop := 0 <= m.1 < 2 ^ 64.
#[global] Instance good_dec m : Decision (good m).
Proof. unfold good. apply _. Defined.
#[global] Instance laws : Laws Some serve (fun m => m) good.
Proof. split; try done. by intros [i t]. Qed.
(** Two clients that use the same number; the first request comes too early, the second backend answers twice, and the second client goes. *)
Definition events : list (Event (Z * list byte)) :=
  [ClientUp (bytes "a"); Ask (bytes "a") (6, bytes "early"); BackendUp 0; BackendUp 1; ClientUp (bytes "b"); Ask (bytes "a") (7, bytes "one"); Ask (bytes "b") (7, bytes "two"); Ask (bytes "a") (8, bytes "three"); Answer 0 0; Answer 0 0; ClientDown (bytes "b"); Answer 1 0].
End Toy.
Lemma balancer_transparent_witness : exists y delivered waiting orphaned, run Some Toy.serve Toy.events (start 0 2) = Ret y /\ asked_of Toy.events ≡ₚ delivered ++ waiting ++ unserved ∅ Toy.events ++ orphaned /\
    (forall c cl, clients y !! c = Some cl -> got cl = map (fun x => Toy.serve x.2) (filter (fun x => x.1 = c) delivered)) /\
    outstanding (thread y) ≡ₚ map (fun x => mkRequest (msg_id x.2) x.1) waiting /\ (forall x, x ∈ orphaned -> x.1 ∈ gone_clients Toy.events) /\
    (forallb stays Toy.events = true -> forall x, x ∈ waiting -> at_backend (fun m => m) x y).
Proof.
  apply (balancer_transparent Some Toy.serve (fun m => m) Toy.good 0 2 Toy.events); [lia|lia| |by vm_compute].
  apply (bool_decide_unpack _). vm_compute. exact Logic.I.
Defined.
Example early_request_unserved : unserved ∅ Toy.events = [(bytes "a", (6, bytes "early"))].
Proof. vm_compute. done. Qed.

(** ** balancer.cc: messages that are parsed, and balancer_raw.cc: messages that are not *)

Section Raw.
Context {message : Type} (IsInitialized : message -> bool) (ByteSize : message -> Z) (SerializeToArray : message -> list byte) (adler32 : list byte -> Z) (host : endian) (tag : list byte).
(** The generated class of [RpcMessage] *)
Context (id : message -> Z) (set_id : Z -> message -> message).

(** [codec_.send(conn, msg)] *)
#[local] Instance rpc_message : Message message (list byte) := {| msg_id := id; msg_set_id := set_id; sendTo := Codec.send IsInitialized ByteSize SerializeToArray adler32 host tag |}.
Definition onRpcMessage (conn : name) (msg : message) (t : PerThread (list byte)) : outcome (PerThread (list byte)) :=
  let* (_, t) := onMessageT conn msg t in Ret t.
Definition session_onRpcMessage (msg : message) (s : BackendSession (list byte)) (cs : gmap name (Client (list byte))) : outcome (BackendSession (list byte) * gmap name (Client (list byte))) :=
  session_onMessageT msg s cs.

(** [le64toh] and [htole64] *)
Definition le64 (z : Z) : Z := match host with LittleEndian => u64 z | BigEndian => bswap 8 z end.
(** [loc_] is an offset in the message. *)
Record RawMessage := mkRaw { message_ : list byte; id_ : Z; loc_ : option Z }.
Definition newRaw (m : list byte) : RawMessage := mkRaw m 0 None.
Definition raw_parse (r : RawMessage) : outcome (bool * RawMessage) :=
  let body := zdrop Codec.kHeaderLen (message_ r) in
  let bodylen := i32 (zlen (message_ r) - Codec.kHeaderLen) in
  let taglen := i32 (zlen tag) in
  let* valid := Codec.validateChecksum adler32 host body bodylen in
  if valid then
    let* head := load (zlen tag) body in
    if decide (head = tag /\ bodylen >= taglen + 3 + 8) then
      let p := zdrop taglen body in
      let* head := load 3 p in
      match head with
      | [p0; type; p2] =>
          if decide (p0 = Byte.x08 /\ (type = Byte.x01 \/ type = Byte.x02) /\ p2 = Byte.x11) then
            let* x := load 8 (zdrop 3 p) in
            Ret (true, mkRaw (message_ r) (le64 (int_of_mem host x)) (Some (Codec.kHeaderLen + taglen + 3)))
          else Ret (false, r)
      | _ => Stop OutOfRange
      end
    else Ret (false, r)
  else Ret (false, r).
Definition updateId (r : RawMessage) : outcome RawMessage :=
  match loc_ r with
  | Some loc =>
      let* message := store loc (int_to_mem host 8 (le64 (id_ r))) (message_ r) in
      let body := zdrop Codec.kHeaderLen message in
      let bodylen := i32 (zlen message - Codec.kHeaderLen) in
      let* checkSum := Codec.checksum adler32 body (bodylen - Codec.kChecksumLen) in
      let be32 := i32 (hostToNetwork32 host (u32 checkSum)) in
      let* message := store (Codec.kHeaderLen + bodylen - Codec.kChecksumLen) (int_to_mem host 4 be32) message in
      Ret (mkRaw message (id_ r) (loc_ r))
  | None => Stop OutOfRange
  end.
(** [sendTo(conn, RawMessage&)] *)
#[local] Instance raw_message : Message RawMessage (list byte) :=
  {| msg_id := id_; msg_set_id i r := mkRaw (message_ r) i (loc_ r); sendTo r := let* r := updateId r in Ret (message_ r) |}.
(** The result says whether the codec should go on and parse the message. *)
Definition onRawMessage (conn : name) (message : list byte) (t : PerThread (list byte)) : outcome (bool * PerThread (list byte)) :=
  let* (ok, raw) := raw_parse (newRaw message) in
  if ok : bool then let* (_, t) := onMessageT conn raw t in Ret (false, t) else Ret (true, t).
Definition session_onRawMessage (message : list byte) (s : BackendSession (list byte)) (cs : gmap name (Client (list byte))) : outcome (bool * (BackendSession (list byte) * gmap name (Client (list byte)))) :=
  let* (ok, raw) := raw_parse (newRaw message) in
  if ok : bool then let* r := session_onMessageT raw s cs in Ret (false, r) else Ret (true, (s, cs)).

(** *** Both send the same *)

(** The wire format of [RpcMessage] in rpc.proto: the type, then the number as eight bytes, then the other fields *)
Context (type : message -> byte) (rest : message -> list byte).
Context (size_spec : forall m, ByteSize m = zlen (SerializeToArray m)) (wire_format : forall m, SerializeToArray m = Byte.x08 :: type m :: Byte.x11 :: le_bytes 8 (id m) ++ rest m)
  (same_type : forall i m, type (set_id i m) = type m) (same_rest : forall i m, rest (set_id i m) = rest m) (same_init : forall i m, IsInitialized (set_id i m) = IsInitialized m)
  (set_get : forall i m, 0 <= i < 2 ^ 64 -> id (set_id i m) = i) (id_64 : forall m, 0 <= id m < 2 ^ 64).
Abbreviation frame := (Codec.frame SerializeToArray adler32 tag).
Abbreviation fits := (Codec.fits IsInitialized SerializeToArray tag).

Lemma le64_mem z : int_to_mem host 8 (le64 z) = le_bytes 8 z.
Proof.
  unfold le64. destruct host; cbn [int_to_mem]; [apply (le_bytes_wrap 8)|]. rewrite <- (rev_involutive (le_bytes 8 z)). unfold be_bytes. f_equal. unfold bswap, be_value. apply le_bytes_value_n, length_rev_le_bytes.
Qed.
Lemma le64_of_mem z : 0 <= z < 2 ^ 64 -> le64 (int_of_mem host (le_bytes 8 z)) = z.
Proof.
  intros H. unfold le64. destruct host; cbn [int_of_mem]; rewrite ?le_value_bytes, ?be_value_bytes.
  - rewrite (wrap_small 64); rewrite (wrap_small 64); lia.
  - unfold bswap, be_value. rewrite le_bytes_value_n by apply length_rev_le_bytes. rewrite rev_involutive, le_value_bytes. rewrite (wrap_small 64); lia.
Qed.
Lemma fits_set i m : 0 <= i < 2 ^ 64 -> fits m -> fits (set_id i m).
Proof.
  intros Hi [I F]. split; [by rewrite same_init|]. unfold Codec.body in *. rewrite wire_format, same_type, same_rest in *. rewrite !zlen_app, !zlen_cons, !zlen_app, !zlen_le_bytes in *. lia.
Qed.
(** Where the number is in a frame *)
Definition before_id (m : message) : list byte := be_bytes 4 (zlen (Codec.body SerializeToArray tag m) + 4) ++ tag ++ [Byte.x08; type m; Byte.x11].
Lemma frame_split m : frame m = before_id m ++ le_bytes 8 (id m) ++ rest m ++ be_bytes 4 (adler32 (Codec.body SerializeToArray tag m)).
Proof. unfold Codec.frame, Codec.frame_of, before_id, Codec.kChecksumLen. unfold Codec.body at 2. rewrite wire_format. rewrite <- !app_assoc. cbn [app]. by rewrite <- !app_assoc. Qed.
Lemma zlen_before m : zlen (before_id m) = 4 + zlen tag + 3.
Proof. unfold before_id. rewrite !zlen_app, zlen_be_bytes. change (zlen [_; _; _]) with 3. lia. Qed.
Lemma zlen_bd m : zlen (Codec.body SerializeToArray tag m) = zlen tag + 3 + 8 + zlen (rest m).
Proof. unfold Codec.body. rewrite wire_format, zlen_app, !zlen_cons, zlen_app, zlen_le_bytes. lia. Qed.
Lemma fits_small m : fits m -> zlen tag + 3 + 8 + zlen (rest m) + 4 <= 64 * 1024 * 1024.
Proof. intros [_ F]. rewrite zlen_bd in F. exact F. Qed.
Abbreviation bd m := (Codec.body SerializeToArray tag m).
Lemma zlen_frame m : zlen (frame m) = 4 + zlen (bd m) + 4.
Proof. unfold Codec.frame. rewrite Codec.zlen_frame_of. unfold Codec.kHeaderLen, Codec.kChecksumLen. lia. Qed.
Lemma drop_header m : zdrop Codec.kHeaderLen (frame m) = bd m ++ be_bytes 4 (adler32 (bd m)).
Proof. unfold Codec.frame, Codec.frame_of. rewrite zdrop_app_r by (rewrite zlen_be_bytes; done). rewrite zlen_be_bytes. by rewrite zdrop_0. Qed.
Lemma body_split m x : bd m ++ x = tag ++ [Byte.x08; type m; Byte.x11] ++ le_bytes 8 (id m) ++ rest m ++ x.
Proof. unfold Codec.body. rewrite wire_format, <- !app_assoc. cbn [app]. by rewrite <- !app_assoc. Qed.
Lemma valid_checksum m : Codec.validateChecksum adler32 host (bd m ++ be_bytes 4 (adler32 (bd m))) (zlen (bd m) + 4) = Ret true.
Proof.
  zlen_pos. unfold Codec.validateChecksum, Codec.kChecksumLen, Codec.checksum. replace (zlen (bd m) + 4 - 4) with (zlen (bd m)) by lia. rewrite zdrop_app_r, Z.sub_diag, zdrop_0 by lia. rewrite <- (app_nil_r (be_bytes 4 _)), (Codec.asInt32_ok host tag), app_nil_r. cbn [obind].
  rewrite load_ok by (rewrite zlen_app, zlen_be_bytes; lia). cbn [obind]. rewrite ztake_app_l, ztake_all by lia. by rewrite bool_decide_true.
Qed.
Lemma raw_parse_ok m : fits m -> type m = Byte.x01 \/ type m = Byte.x02 -> raw_parse (newRaw (frame m)) = Ret (true, mkRaw (frame m) (id m) (Some (4 + zlen tag + 3))).
Proof.
  intros F T. pose proof (fits_small m F). pose proof (zlen_bd m) as Lb. zlen_pos. unfold raw_parse. cbn [newRaw message_]. rewrite drop_header, zlen_frame. unfold Codec.kHeaderLen. rewrite !swrap_small by lia. replace (4 + zlen (bd m) + 4 - 4) with (zlen (bd m) + 4) by lia. rewrite valid_checksum. cbn [obind].
  rewrite body_split. rewrite load_app by done. cbn [obind]. rewrite decide_True by (split; [done|lia]). rewrite zdrop_app_eq, load_app by done. cbn [obind]. rewrite decide_True by done. rewrite zdrop_app_eq, load_app by (done || apply zlen_le_bytes). cbn [obind]. by rewrite le64_of_mem.
Qed.
Lemma updateId_ok i m : fits m -> 0 <= i < 2 ^ 64 -> updateId (mkRaw (frame m) i (Some (4 + zlen tag + 3))) = Ret (mkRaw (frame (set_id i m)) i (Some (4 + zlen tag + 3))).
Proof.
  intros F Hi. pose proof (fits_small m F). pose proof (zlen_bd m) as Lb. pose proof (zlen_bd (set_id i m)) as Lb'. rewrite same_rest in Lb'. zlen_pos. unfold updateId. cbn [loc_ message_ id_]. rewrite le64_mem. rewrite store_ok by (rewrite ?zlen_frame, ?zlen_le_bytes; lia). cbn [obind].
  set (x := be_bytes 4 (adler32 (bd m))). assert (overwrite (frame m) (4 + zlen tag + 3) (le_bytes 8 i) = be_bytes 4 (zlen (bd (set_id i m)) + 4) ++ bd (set_id i m) ++ x) as ->.
  { rewrite frame_split, overwrite_app by (rewrite ?zlen_before, ?zlen_le_bytes; lia). rewrite body_split, same_type, same_rest, set_get by done. unfold before_id. rewrite Lb, <- Lb'. by rewrite <- !app_assoc. }
  unfold Codec.kHeaderLen. rewrite zdrop_app_eq by apply zlen_be_bytes. rewrite !zlen_app, zlen_be_bytes. replace (zlen x) with 4 by (unfold x; by rewrite zlen_be_bytes). rewrite swrap_small by lia. unfold Codec.kChecksumLen, Codec.checksum. rewrite load_app by lia. cbn [obind]. destruct (network_mem host (i32 (adler32 (bd (set_id i m))))) as (_ & -> & _). rewrite Codec.be_bytes_i32.
  rewrite store_ok by (rewrite ?zlen_app, ?zlen_be_bytes; unfold x; rewrite ?zlen_be_bytes; lia). cbn [obind]. do 2 f_equal. rewrite app_assoc, <- (app_nil_r x). rewrite overwrite_app by (unfold x; rewrite ?zlen_app, ?zlen_be_bytes; lia). rewrite app_nil_r, <- app_assoc. done.
Qed.

(** The messages behave in the same way, so that the templates do. *)
Lemma forward_raw n m c t : fits m -> forward n (mkRaw (frame m) (id m) (Some (4 + zlen tag + 3))) c t = forward n m c t.
Proof.
  intros F. revert t. induction n as [|n IH]; intros t; [done|]. cbn [forward]. destruct (backends t !! Z.to_nat (current t)) as [s|]; [|done].
  assert (session_send (mkRaw (frame m) (id m) (Some (4 + zlen tag + 3))) c s = session_send m c s) as ->.
  { unfold session_send. destruct (conn_ s) as [ws|]; [|done]. cbn [msg_id msg_set_id sendTo raw_message rpc_message id_ message_ loc_]. set (i := u64 (nextId_ s + 1)). assert (0 <= i < 2 ^ 64) as Hi by (apply wrap_range; lia). rewrite updateId_ok by done. cbn [obind message_]. rewrite Codec.send_ok; [done|pose proof (fits_small m F); zlen_pos; unfold Codec.kChecksumLen, Codec.kMaxMessageLen; lia|done|by apply fits_set]. }
  destruct (session_send m c s) as [[[] s']|]; cbn [obind]; [done|apply IH|done].
Qed.
Lemma session_raw m s cs : fits m -> map_Forall (fun _ r => 0 <= origId r < 2 ^ 64) (outstandings_ s) ->
  session_onMessageT (mkRaw (frame m) (id m) (Some (4 + zlen tag + 3))) s cs = session_onMessageT m s cs.
Proof.
  intros F O. unfold session_onMessageT. cbn [msg_id msg_set_id sendTo raw_message rpc_message id_ message_ loc_]. destruct (outstandings_ s !! id m) as [r|] eqn:E; [|done]. destruct (cs !! clientConn r) as [[[] ws]|]; try done. pose proof (O _ _ E) as Hi. cbn in Hi. rewrite updateId_ok by done. cbn [obind message_].
  rewrite Codec.send_ok; [done|pose proof (fits_small m F); zlen_pos; unfold Codec.kChecksumLen, Codec.kMaxMessageLen; lia|done|by apply fits_set].
Qed.

(** C23. balancer_raw.cc does what balancer.cc does: on the frame of a request or a response of [RpcMessage], its raw callbacks, which change the number and the checksum in the bytes, send on every connection the bytes that parsing the message, setting its number and encoding it again gives, keep the same tables, and
    tell the codec to take the frame. This is so for hosts of both byte orders. *)
Theorem raw_equivalent :
  (forall conn m t, fits m -> type m = Byte.x01 \/ type m = Byte.x02 -> onRawMessage conn (frame m) t = let* t := onRpcMessage conn m t in Ret (false, t)) /\
  (forall m s cs, fits m -> type m = Byte.x01 \/ type m = Byte.x02 -> map_Forall (fun _ r => 0 <= origId r < 2 ^ 64) (outstandings_ s) ->
     session_onRawMessage (frame m) s cs = let* r := session_onRpcMessage m s cs in Ret (false, r)).
Proof.
  split.
  - intros conn m t F T. unfold onRawMessage, onRpcMessage. rewrite raw_parse_ok by done. cbn [obind]. unfold onMessageT. rewrite forward_raw by done. by destruct (forward _ m conn t) as [[]|].
  - intros m s cs F T O. unfold session_onRawMessage, session_onRpcMessage. rewrite raw_parse_ok by done. cbn [obind]. by rewrite session_raw.
Qed.
End Raw.

(** A message type with this format *)
Module ToyRpc.
Definition message : Type := byte * Z * list byte.
Definition id (m : message) : Z := u64 m.1.2.
Definition set_id (i : Z) (m : message) : message := (m.1.1, i, m.2).
Definition serialize (m : message) : list byte := Byte.x08 :: m.1.1 :: Byte.x11 :: le_bytes 8 (id m) ++ m.2.
Definition size (m : message) : Z := zlen (serialize m).
Definition example : message := (Byte.x01, 258, bytes "call").
Definition tag : list byte := bytes "RPC0".
Definition thread : PerThread (list byte) := mkThread 1 [newSession; mkSession (Some []) 299 ∅].
End ToyRpc.
Lemma raw_equivalent_witness :
  onRawMessage zlen BigEndian ToyRpc.tag (bytes "client") (Codec.frame ToyRpc.serialize zlen ToyRpc.tag ToyRpc.example) ToyRpc.thread =
    (let* t := onRpcMessage (fun _ => true) ToyRpc.size ToyRpc.serialize zlen BigEndian ToyRpc.tag ToyRpc.id ToyRpc.set_id (bytes "client") ToyRpc.example ToyRpc.thread in Ret (false, t)).
Proof.
  apply (raw_equivalent (fun _ => true) ToyRpc.size ToyRpc.serialize zlen BigEndian ToyRpc.tag ToyRpc.id ToyRpc.set_id (fun m => m.1.1) snd).
  - intros m. reflexivity.
  - intros m. reflexivity.
  - intros i m. reflexivity.
  - intros i m. reflexivity.
  - intros i m. reflexivity.
  - intros i m Hi. apply wrap_small. exact Hi.
  - intros m. apply wrap_range. lia.
  - split; [reflexivity|by vm_compute].
  - left. reflexivity.
Defined.
