(* ===== verification/Chat.v ===== *)
(** * The chat (src/muduo/examples/asio/chat/codec.h, server.cc, server_threaded.cc, server_threaded_efficient.cc, server_threaded_highperformance.cc)

    Whatever a client says is sent to all clients. The four servers differ in how they share the set of connections between their loops: it belongs to the only loop, it is behind a mutex,
    readers take a snapshot and writers copy it if somebody has one, or each loop has its own set and is given the messages.

    The file shows what clients get from each of them. *)

From Stdlib Require Import Sorted.
From S2P Require Import Prelude Endian StringPiece Buffer Http Lines Codec Conn Framing.

(** ** codec.h *)

Module LengthHeaderCodec.
Definition kHeaderLen : Z := 4.

Section Codec.
Context {St : Type} (host : endian) (messageCallback_ : list byte -> St -> outcome St) (shutdown : St -> St).
(** Every round takes a byte. *)
Fixpoint onMessage_loop (fuel : nat) (buf : Buffer) (s : St) : outcome (St * Buffer) :=
  match fuel with
  | O => Stop NoFuel
  | S fuel =>
      if decide (readableBytes buf >= kHeaderLen) then
        let* len := Codec.asInt32 host (zdrop (peek buf) (buffer_ buf)) in
        if decide (len > 65536 \/ len < 0) then Ret (shutdown s, buf)
        else if decide (readableBytes buf >= u64 (len + kHeaderLen)) then
          let* buf := retrieve kHeaderLen buf in
          let* message := load len (zdrop (peek buf) (buffer_ buf)) in
          let* s := messageCallback_ message s in
          let* buf := retrieve (u64 len) buf in
          onMessage_loop fuel buf s
        else Ret (s, buf)
      else Ret (s, buf)
  end.
Definition onMessage (buf : Buffer) (s : St) : outcome (St * Buffer) := onMessage_loop (S (Z.to_nat (readableBytes buf))) buf s.
End Codec.

(** What [conn->send(&buf)] gets *)
Definition send (host : endian) (message : StringPiece) : outcome (list byte) :=
  let* buf := newBuffer kInitialSize in
  let* buf := append (sp_data message) (u64 (sp_size message)) buf in
  let len := i32 (sp_size message) in
  let be32 := i32 (hostToNetwork32 host (u32 len)) in
  let* buf := prepend (int_to_mem host 4 be32) 4 buf in
  Ret (content buf).

Lemma chat_send_ok host m : zlen m <= 65536 -> send host (sp_of_string m) = Ret (frame32 m).
Proof.
  intros L. zlen_pos. unfold send, sp_of_string. cbn [sp_data sp_size ptr_ length_]. rewrite !(swrap_small 32 (zlen m)), wrap_small by lia. destruct (newBuffer_ok kInitialSize) as (b & -> & W & C & _ & R & Lb); [done|]. cbn [obind].
  destruct (append_ok m (zlen m) b) as (b1 & -> & W1 & C1 & R1 & L1); [done|lia|rewrite Lb; unfold kInitialSize, kCheapPrepend, max_size; lia|]. cbn [obind]. destruct (network_mem host (zlen m)) as (_ & -> & _).
  destruct (prepend_ok (be_bytes 4 (zlen m)) 4 b1) as (b2 & -> & W2 & C2 & _); [done|rewrite zlen_be_bytes; lia|unfold prependableBytes, kCheapPrepend in *; lia|]. cbn [obind]. rewrite C2, C1, C, app_nil_l, !ztake_all by (rewrite ?zlen_be_bytes; lia). done.
Qed.

(** ** Messages in a stream *)

Section Handles.
Context {St : Type} (host : endian) (messageCallback_ : list byte -> St -> outcome St) (shutdown : St -> St).
Context {Abs : Type} (R : Abs -> St -> Prop) (step : Abs -> list byte -> Abs).
Definition fits (m : list byte) : Prop := zlen m <= 65536.
Context (callback_ok : forall a s m, R a s -> fits m -> exists s', messageCallback_ m s = Ret s' /\ R (step a m) s').
Abbreviation loop := (onMessage_loop host messageCallback_ shutdown).

Lemma chat_loop_frame fuel buf a s m rest : R a s -> fits m -> wf buf -> content buf = frame32 m ++ rest ->
  exists s' buf', loop (S fuel) buf s = loop fuel buf' s' /\ R (step a m) s' /\ wf buf' /\ content buf' = rest /\ zlen (buffer_ buf') = zlen (buffer_ buf).
Proof.
  intros Ra F W C. unfold fits in F. zlen_pos. pose proof (content_len buf W) as L. rewrite C, zlen_app, zlen_frame32 in L. cbn [onMessage_loop]. unfold kHeaderLen. rewrite decide_True by zlia. destruct (zdrop_peek buf W) as (q & ->). rewrite C. unfold frame32 at 1. rewrite <- !app_assoc, (Codec.asInt32_ok host []). cbn [obind]. rewrite swrap_small by lia.
  rewrite decide_False by lia. rewrite wrap_small by lia. rewrite decide_True by zlia. destruct (retrieve_ok 4 buf W) as (b1 & -> & W1 & C1 & S1); [zlia|]. cbn [obind]. rewrite C in C1. unfold frame32 in C1. rewrite <- app_assoc, zdrop_app_r in C1 by (rewrite zlen_be_bytes; lia). rewrite zlen_be_bytes, zdrop_0 in C1 by lia.
  destruct (zdrop_peek b1 W1) as (q1 & ->). rewrite C1, <- app_assoc. rewrite load_ok by (rewrite zlen_app; zlia). rewrite ztake_app_l, ztake_all by lia. cbn [obind]. destruct (callback_ok a s m Ra F) as (s' & -> & R'). cbn [obind]. rewrite wrap_small by lia.
  destruct (retrieve_ok (zlen m) b1 W1) as (b2 & -> & W2 & C2 & S2); [rewrite <- content_len, C1, zlen_app by done; zlia|]. cbn [obind]. exists s', b2. rewrite C2, C1, zdrop_app_r, Z.sub_diag, zdrop_0 by lia. split_and!; try done. lia.
Qed.
Lemma chat_loop_waits fuel buf s ms more : Forall fits ms -> wf buf -> content buf ++ more = encs frame32 ms -> waits frame32 ms (content buf) -> loop (S fuel) buf s = Ret (s, buf).
Proof.
  intros F W E Wt. pose proof (content_len buf W) as L. cbn [onMessage_loop]. unfold kHeaderLen. case_decide as D; [|done]. destruct ms as [|m ms]; cbn [waits] in Wt; [rewrite Wt, zlen_nil in L; lia|]. apply Forall_cons in F as [F _]. unfold fits in F. zlen_pos.
  unfold encs in E. cbn [map concat] in E. destruct (frame_header buf m more _ E) as (rest & Eh); [lia|]. destruct (zdrop_peek buf W) as (q & ->). rewrite Eh, <- app_assoc, (Codec.asInt32_ok host []). cbn [obind]. rewrite zlen_frame32 in Wt. rewrite swrap_small by lia. rewrite decide_False by lia. rewrite wrap_small, decide_False by lia. done.
Qed.
Lemma frame32_pos m : 0 < zlen (frame32 m).
Proof. rewrite zlen_frame32. zlia. Qed.
Lemma chat_handles : handles frame32 (onMessage host messageCallback_ shutdown) R (fun _ => True) fits step.
Proof. apply (loop_handles frame32 loop); [apply frame32_pos|intros; by apply chat_loop_frame|intros; by eapply chat_loop_waits]. Qed.
End Handles.
End LengthHeaderCodec.

(** ** [std::set<TcpConnectionPtr>]: connections by their addresses, in order *)

Abbreviation sorted := (StronglySorted Z.lt).
Fixpoint set_insert (c : Z) (l : list Z) : list Z :=
  match l with
  | [] => [c]
  | x :: l' => if decide (c < x) then c :: l else if decide (c = x) then l else x :: set_insert c l'
  end.
Definition set_erase (c : Z) (l : list Z) : list Z := filter (fun x => x <> c) l.
(** [begin()], and where [++it] goes from [c] *)
Definition next_after (last : option Z) (l : list Z) : option Z := match last with None => head l | Some c => head (filter (fun x => c < x) l) end.

Lemma zset_insert_elem c l x : x ∈ set_insert c l <-> x = c \/ x ∈ l.
Proof. induction l as [|y l IH]; cbn [set_insert]; [set_solver|]. repeat case_decide; set_solver. Qed.
Lemma set_insert_sorted c l : sorted l -> sorted (set_insert c l).
Proof.
  intros S. induction S as [|y l S IH F]; cbn [set_insert]; [by repeat constructor|]. repeat case_decide; try by repeat constructor.
  - constructor; [by constructor|]. constructor; [done|]. eapply Forall_impl; [exact F|]. cbn. lia.
  - constructor; [done|]. apply Forall_forall. intros x. rewrite zset_insert_elem. rewrite Forall_forall in F. intros [->|Hx]; [lia|by apply F].
Qed.
Lemma filter_sorted (P : Z -> Prop) `{forall x, Decision (P x)} l : sorted l -> sorted (filter P l).
Proof.
  intros S. induction S as [|y l S IH F]; [constructor|]. rewrite filter_cons. case_decide; [|done]. constructor; [done|]. apply Forall_forall. intros x [_ Hx]%list_elem_of_filter. rewrite Forall_forall in F. by apply F.
Qed.
Lemma sorted_rest p c q : sorted (p ++ c :: q) -> filter (fun x => c < x) (p ++ c :: q) = q.
Proof.
  intros S. rewrite filter_app, filter_cons_False by lia. assert (filter (fun x => c < x) p = []) as ->.
  { induction p as [|y p IH]; [done|]. cbn [app] in S. apply StronglySorted_inv in S as [S F]. rewrite Forall_forall in F. rewrite filter_cons_False; [by apply IH|]. assert (y < c) by (apply F; set_solver). lia. }
  cbn [app]. induction p as [|y p IH]; cbn [app] in S; apply StronglySorted_inv in S as [S F]; [|by apply IH]. clear S. induction F as [|x q Hx F IH]; [done|]. rewrite filter_cons_True by done. by rewrite IH.
Qed.
Lemma next_after_split l seen rest : sorted l -> l = seen ++ rest -> next_after (last seen) l = head rest.
Proof.
  intros S ->. destruct seen as [|c seen _] using rev_ind; [done|]. rewrite last_snoc. cbn [next_after]. rewrite <- app_assoc in *. cbn [app] in *. by rewrite sorted_rest.
Qed.

(** ** server.cc and server_threaded.cc *)

Module Plain.
(** The set of connections, and the connections *)
Record ChatServer := mkChat { connections_ : list Z; conns : gmap Z Conn }.
Fixpoint send_all (host : endian) (message : list byte) (l : list Z) (cs : gmap Z Conn) : outcome (gmap Z Conn) :=
  match l with
  | [] => Ret cs
  | c :: l =>
      let* d := LengthHeaderCodec.send host (sp_of_string message) in
      send_all host message l (alter (conn_write d) c cs)
  end.
Definition onConnection (connected : bool) (c : Z) (s : ChatServer) : ChatServer :=
  mkChat (if connected then set_insert c (connections_ s) else set_erase c (connections_ s)) (conns s).
Definition onStringMessage (host : endian) (message : list byte) (s : ChatServer) : outcome ChatServer :=
  let* cs := send_all host message (connections_ s) (conns s) in Ret (mkChat (connections_ s) cs).

(** What happens: connections come and go, and somebody says something. *)
Inductive Ev := Up (c : Z) | Down (c : Z) | Say (c : Z) (m : list byte).
(** Addresses are not used again. *)
Definition step (host : endian) (e : Ev) (s : ChatServer) : outcome ChatServer :=
  match e with
  | Up c => if decide (is_Some (conns s !! c)) then Ret s else Ret (onConnection true c (mkChat (connections_ s) (<[c := newConn]> (conns s))))
  | Down c => Ret (onConnection false c (mkChat (connections_ s) (alter conn_shutdown c (conns s))))
  | Say _ m => onStringMessage host m s
  end.
(** Whether [c] is connected, and what it has heard *)
Definition hear (c : Z) (x : bool * list (list byte)) (e : Ev) : bool * list (list byte) :=
  match e with
  | Up c' => if decide (c' = c) then (true, x.2) else x
  | Down c' => if decide (c' = c) then (false, x.2) else x
  | Say _ m => if x.1 : bool then (true, x.2 ++ [m]) else x
  end.
Definition heard (c : Z) (h : list Ev) : bool * list (list byte) := fold_left (hear c) h (false, []).
Definition said_by (c : Z) (h : list Ev) : list (list byte) := concat (map (fun e => match e with Say c' m => if decide (c' = c) then [m] else [] | _ => [] end) h).
Record Inv (h : list Ev) (s : ChatServer) : Prop := mkInv {
  p_sorted : sorted (connections_ s);
  p_up : forall c, c ∈ connections_ s <-> (heard c h).1 = true;
  p_conn : forall c, c ∈ connections_ s -> exists k, conns s !! c = Some k /\ connected_ k = true;
  p_sent : forall c k, conns s !! c = Some k -> sent_ k = encs frame32 (heard c h).2;
  p_new : forall c, conns s !! c = None -> heard c h = (false, []) }.

Lemma heard_snoc c h e : heard c (h ++ [e]) = hear c (heard c h) e.
Proof. unfold heard. by rewrite fold_left_app. Qed.
Lemma encs_snoc ms m : encs frame32 (ms ++ [m]) = encs frame32 ms ++ frame32 m.
Proof. unfold encs. rewrite map_app, concat_app. cbn. by rewrite app_nil_r. Qed.
Lemma sorted_NoDup l : sorted l -> NoDup l.
Proof. intros S. induction S as [|x l S IH F]; constructor; [|done]. intros Hx. rewrite Forall_forall in F. apply F in Hx. lia. Qed.
Lemma send_all_ok host m l cs : zlen m <= 65536 -> NoDup l ->
  exists cs', send_all host m l cs = Ret cs' /\ forall c, cs' !! c = if decide (c ∈ l) then conn_write (frame32 m) <$> cs !! c else cs !! c.
Proof.
  intros F N. revert cs. induction N as [|x l Hx N IH]; intros cs; cbn [send_all]; [exists cs; split; [done|]; intros c; by rewrite decide_False by apply not_elem_of_nil|]. rewrite LengthHeaderCodec.chat_send_ok by done. cbn [obind]. destruct (IH (alter (conn_write (frame32 m)) x cs)) as (cs' & -> & L). exists cs'. split; [done|]. intros c. rewrite L.
  destruct (decide (c = x)) as [->|D]; [rewrite (decide_False (P := x ∈ l)), (decide_True (P := x ∈ x :: l)) by (done || by left); by rewrite lookup_alter_eq|]. rewrite lookup_alter_ne by done. destruct (decide (c ∈ l)); [rewrite decide_True by (by right)|rewrite decide_False by (rewrite not_elem_of_cons; done)]; done.
Qed.
Lemma say_ok host h s c m : Inv h s -> zlen m <= 65536 -> exists s', onStringMessage host m s = Ret s' /\ Inv (h ++ [Say c m]) s'.
Proof.
  intros [P1 P2 P3 P4 P5] F. unfold onStringMessage. destruct (send_all_ok host m (connections_ s) (conns s) F (sorted_NoDup _ P1)) as (cs & -> & L). cbn [obind]. eexists. split; [done|]. split; cbn [connections_ conns]; try done.
  - intros x. rewrite P2, heard_snoc. cbn [hear]. destruct (heard x h) as [[] ms]; done.
  - intros x Hx. destruct (P3 x Hx) as (k & E & U). rewrite L, decide_True, E by done. eexists. split; [done|]. unfold conn_write. by rewrite U.
  - intros x k. rewrite L, heard_snoc. cbn [hear]. pose proof (P2 x) as U. destruct (decide (x ∈ connections_ s)) as [D|D].
    + destruct (P3 x D) as (k0 & E & Uk). rewrite E. cbn. intros [= <-]. unfold conn_write. rewrite Uk. cbn [sent_]. rewrite (P4 x k0 E). destruct (heard x h) as [b ms]. cbn [fst snd] in *. destruct b; [|by apply U in D]. cbn [snd]. by rewrite encs_snoc.
    + intros E. rewrite (P4 x k E). destruct (heard x h) as [b ms]. cbn [fst snd] in *. destruct b; [by exfalso; apply D, U|done].
  - intros x. rewrite L, heard_snoc. case_decide as D; [destruct (P3 x D) as (k & E & _); by rewrite E|]. intros E. by rewrite (P5 x E).
Qed.
Lemma updown_ok host h s e : Inv h s -> (match e with Say _ m => False | _ => True end) -> exists s', step host e s = Ret s' /\ (Inv h s' \/ Inv (h ++ [e]) s').
Proof.
  intros I He. destruct e as [c|c|]; [| |done]; cbn [step].
  - case_decide as D; [exists s; by split; [|left]|]. apply eq_None_not_Some in D. eexists. split; [done|]. right. destruct I as [P1 P2 P3 P4 P5]. pose proof (P5 c D) as Hc. split; cbn [onConnection connections_ conns].
    + by apply set_insert_sorted.
    + intros x. rewrite zset_insert_elem, P2, heard_snoc. cbn [hear]. case_decide as Dx; [subst x; rewrite Hc; cbn; tauto|]. split; [intros [->|]; done|tauto].
    + intros x. rewrite zset_insert_elem. intros Hx. destruct (decide (x = c)) as [->|Nx]; [exists newConn; by rewrite lookup_insert_eq|]. destruct Hx as [|Hx]; [done|]. rewrite lookup_insert_ne by done. by apply P3.
    + intros x k. rewrite heard_snoc. cbn [hear]. rewrite lookup_insert_Some. intros [[<- <-]|[N E]]; [by rewrite decide_True, Hc|]. rewrite decide_False by done. by apply P4.
    + intros x. rewrite lookup_insert_None, heard_snoc. cbn [hear]. intros [E N]. rewrite decide_False by done. by apply P5.
  - eexists. split; [done|]. right. destruct I as [P1 P2 P3 P4 P5]. split; cbn [onConnection connections_ conns].
    + by apply filter_sorted.
    + intros x. unfold set_erase. rewrite list_elem_of_filter, P2, heard_snoc. cbn [hear]. case_decide as Dx; [subst x; cbn; split; [by intros []|done]|]. split; [by intros []|]. intros. by split; [intros ->|].
    + intros x. unfold set_erase. rewrite list_elem_of_filter. intros [Nx Hx]. rewrite lookup_alter_ne by done. by apply P3.
    + intros x k. rewrite heard_snoc. cbn [hear]. rewrite lookup_alter_Some. intros [(<- & k0 & E & ->)|[N E]]; [rewrite decide_True by done; cbn; by apply P4|]. rewrite decide_False by done. by apply P4.
    + intros x. rewrite lookup_alter_None, heard_snoc. cbn [hear]. intros E. rewrite (P5 x E). by case_decide.
Qed.
Lemma said_snoc c h e : said_by c (h ++ [e]) = said_by c h ++ match e with Say c' m => if decide (c' = c) then [m] else [] | _ => [] end.
Proof. unfold said_by. rewrite map_app, concat_app. cbn. by rewrite app_nil_r. Qed.

(** The client [c] sends messages whose bytes arrive in any pieces, while others come, go and speak: every complete message of [c] is said once and in order, and each connection is sent what was said while it was connected. *)
Definition other_ok (c : Z) (e : Ev) : Prop := match e with Say c' m => c' <> c /\ zlen m <= 65536 | _ => True end.
Theorem chat_broadcasts host c ms evs buf more :
  Forall LengthHeaderCodec.fits ms -> Forall (legal_event (fun _ : Datatypes.unit => True) (other_ok c)) evs -> wf buf -> content buf = [] -> arrived evs ++ more = encs frame32 ms -> zlen (buffer_ buf) + zlen (arrived evs) <= max_size ->
  exists complete rest s buf' h, ms = complete ++ rest /\
    run_events (fun _ => LengthHeaderCodec.onMessage host (onStringMessage host) (fun s => mkChat (connections_ s) (alter conn_shutdown c (conns s)))) (step host) evs buf (mkChat [] ∅) = Ret (s, buf') /\
    said_by c h = complete /\ Inv h s /\ content buf' ++ more = encs frame32 rest /\ waits frame32 rest (content buf').
Proof.
  intros F Le W C E L. set (R := fun a s => exists h, said_by c h = a /\ Inv h s).
  destruct (run_pieces frame32 (fun _ : Datatypes.unit => LengthHeaderCodec.onMessage host (onStringMessage host) (fun s => mkChat (connections_ s) (alter conn_shutdown c (conns s)))) (step host) R LengthHeaderCodec.fits (fun a m => a ++ [m]) (fun _ => True) (other_ok c))
    with (evs := evs) (ms := ms) (buf := buf) (a := @nil (list byte)) (s := mkChat [] ∅) (more := more) as (dn & rest & s' & b' & -> & Er & (h & Eh & I) & _ & C' & Wt); try done.
  - intros _ _. apply LengthHeaderCodec.chat_handles. intros a s m (h & <- & I) Fm. destruct (say_ok host h s c m I Fm) as (s' & -> & I'). exists s'. split; [done|]. exists (h ++ [Say c m]). split; [|done]. by rewrite said_snoc, decide_True.
  - intros e a s He (h & <- & I). destruct e as [x|x|x m]; [destruct (updown_ok host h s (Up x) I Logic.I) as (s' & -> & I')|destruct (updown_ok host h s (Down x) I Logic.I) as (s' & -> & I')|].
    1,2: exists s'; split; [done|]; destruct I' as [I'|I']; [by exists h|eexists; split; [|exact I']; by rewrite said_snoc, app_nil_r].
    destruct He as [N Fm]. cbn [step]. destruct (say_ok host h s x m I Fm) as (s' & -> & I'). exists s'. split; [done|]. exists (h ++ [Say x m]). split; [|done]. by rewrite said_snoc, decide_False, app_nil_r.
  - exists []. split; [done|]. split; cbn; [constructor|intros x; by rewrite elem_of_nil|intros x Hx; by apply elem_of_nil in Hx|done|done].
  - by rewrite C.
  - rewrite C. apply waits_nil, Forall_true, LengthHeaderCodec.frame32_pos.
  - exists dn, rest, s', b', h. split_and!; try done. by rewrite Eh, fold_left_snoc.
Qed.
End Plain.

(** ** server_threaded_efficient.cc *)

Module Efficient.
(** A call of [onStringMessage] that has its snapshot: the pointer, the message, the connection its iterator is at and whether it is done. [snap] and [sent] are not looked at: what the list had when the call got it, and to whom the call has sent. *)
Record Task := mkTask { ptr : Z; msg : list byte; at_ : option Z; finished : bool; snap : list Z; sent : list Z }.
(** How far [onConnection] is in its critical section: before [unique()], before the copy, before the change *)
Inductive stage := Testing | Copying | Changing.
(** The lists in memory, [connections_], and who has the mutex *)
Record ChatServer := mkChat { heap : gmap Z (list Z); connections_ : Z; writer : option (bool * Z * stage); tasks : list Task }.

(** Who points to a list: [connections_] and the calls that have it *)
Definition holds (p : Z) (t : Task) : bool := negb (finished t) && bool_decide (ptr t = p).
Definition use_count (p : Z) (s : ChatServer) : nat := (if decide (connections_ s = p) then 1 else 0) + length (filter (fun t => holds p t = true) (tasks s)).
(** The last pointer frees the list. *)
Definition release (p : Z) (s : ChatServer) : ChatServer :=
  if decide (use_count p s = 0%nat) then mkChat (delete p (heap s)) (connections_ s) (writer s) (tasks s) else s.
Definition fresh_ptr (s : ChatServer) : Z := fresh (dom (heap s) : gset Z).

(** [onConnection] takes the mutex if nobody has it. *)
Definition lock (connected : bool) (c : Z) (s : ChatServer) : ChatServer :=
  match writer s with None => mkChat (heap s) (connections_ s) (Some (connected, c, Testing)) (tasks s) | Some _ => s end.
Definition onConnection_next (s : ChatServer) : outcome ChatServer :=
  match writer s with
  | None => Ret s
  | Some (connected, c, Testing) =>
      let unique := bool_decide (use_count (connections_ s) s = 1%nat) in
      Ret (mkChat (heap s) (connections_ s) (Some (connected, c, if unique then Changing else Copying)) (tasks s))
  | Some (connected, c, Copying) =>
      match heap s !! connections_ s with
      | Some l =>
          let p := fresh_ptr s in
          Ret (release (connections_ s) (mkChat (<[p := l]> (heap s)) p (Some (connected, c, Changing)) (tasks s)))
      | None => Stop OutOfRange
      end
  | Some (connected, c, Changing) =>
      assert* bool_decide (use_count (connections_ s) s = 1%nat) in
      match heap s !! connections_ s with
      | Some l => Ret (mkChat (<[connections_ s := if connected then set_insert c l else set_erase c l]> (heap s)) (connections_ s) None (tasks s))
      | None => Stop OutOfRange
      end
  end.
(** [getConnectionList] in a new call of [onStringMessage], if nobody has the mutex *)
Definition getConnectionList (m : list byte) (s : ChatServer) : ChatServer :=
  match writer s with
  | None => mkChat (heap s) (connections_ s) (writer s) (tasks s ++ [mkTask (connections_ s) m None false (default [] (heap s !! connections_ s)) []])
  | Some _ => s
  end.
(** The next round of the loop of a call: the list must be there, and the connection the iterator is at must still be in it. *)
Definition onStringMessage_next (k : nat) (s : ChatServer) : outcome ChatServer :=
  match tasks s !! k with
  | Some t =>
      if finished t then Ret s
      else
        match heap s !! ptr t with
        | Some l =>
            if match at_ t with Some c => bool_decide (c ∈ l) | None => true end then
              match next_after (at_ t) l with
              | Some c => Ret (mkChat (heap s) (connections_ s) (writer s) (<[k := mkTask (ptr t) (msg t) (Some c) false (snap t) (sent t ++ [c])]> (tasks s)))
              | None => Ret (release (ptr t) (mkChat (heap s) (connections_ s) (writer s) (<[k := mkTask (ptr t) (msg t) (at_ t) true (snap t) (sent t)]> (tasks s))))
              end
            else Stop OutOfRange
        | None => Stop OutOfRange
        end
  | None => Ret s
  end.

(** The threads take turns in any order. *)
Inductive Ev := Lock (connected : bool) (c : Z) | Writer | Get (m : list byte) | Next (k : nat).
Definition step (e : Ev) (s : ChatServer) : outcome ChatServer :=
  match e with
  | Lock connected c => Ret (lock connected c s)
  | Writer => onConnection_next s
  | Get m => Ret (getConnectionList m s)
  | Next k => onStringMessage_next k s
  end.
Fixpoint run (es : list Ev) (s : ChatServer) : outcome ChatServer := match es with [] => Ret s | e :: es => let* s := step e s in run es s end.
Definition start : ChatServer := mkChat {[1 := []]} 1 None [].

Definition task_ok (s : ChatServer) (t : Task) : Prop :=
  sorted (snap t) /\ at_ t = last (sent t) /\
  if finished t then sent t = snap t else heap s !! ptr t = Some (snap t) /\ exists rest, snap t = sent t ++ rest.
Record Inv (s : ChatServer) : Prop := mkInv {
  e_list : exists l, heap s !! connections_ s = Some l /\ sorted l;
  e_tasks : Forall (task_ok s) (tasks s);
  e_writer : forall u c, writer s = Some (u, c, Changing) -> use_count (connections_ s) s = 1%nat }.

Lemma use_count_split p s : use_count p s = ((if decide (connections_ s = p) then 1 else 0) + length (filter (fun t => holds p t = true) (tasks s)))%nat.
Proof. done. Qed.
Lemma unique_iff s : use_count (connections_ s) s = 1%nat <-> Forall (fun t => holds (connections_ s) t = false) (tasks s).
Proof.
  rewrite use_count_split, decide_True by done. induction (tasks s) as [|t l IH]; [split; [constructor|done]|]. rewrite filter_cons, Forall_cons. destruct (holds (connections_ s) t); [rewrite decide_True by done; cbn [length]; split; [intros Hu; exfalso; lia|by intros []]|]. rewrite decide_False, IH by done. by split; [|intros []].
Qed.
Lemma holder_counts p s t : t ∈ tasks s -> holds p t = true -> use_count p s <> 0%nat.
Proof. intros Ht Hh. rewrite use_count_split. assert (t ∈ filter (fun t => holds p t = true) (tasks s)) as H by (by apply list_elem_of_filter). destruct (filter (fun t => holds p t = true) (tasks s)); [by apply elem_of_nil in H|]. cbn. lia. Qed.
Lemma release_fields p s : connections_ (release p s) = connections_ s /\ tasks (release p s) = tasks s /\ writer (release p s) = writer s.
Proof. unfold release. by case_decide. Qed.
Lemma release_use p q s : use_count q (release p s) = use_count q s.
Proof. unfold use_count. destruct (release_fields p s) as (-> & -> & _). done. Qed.
Lemma release_lookup p q s l : use_count q s <> 0%nat -> heap s !! q = Some l -> heap (release p s) !! q = Some l.
Proof. intros U E. unfold release. case_decide as D; [|done]. cbn [heap]. rewrite lookup_delete_ne; [done|]. intros ->. by apply U. Qed.
Lemma task_holds t : finished t = false -> holds (ptr t) t = true.
Proof. intros E. unfold holds. rewrite E. by rewrite bool_decide_true. Qed.
Lemma release_inv p s : Inv s -> Inv (release p s).
Proof.
  intros [(l & El & Sl) T Wr]. destruct (release_fields p s) as (Ec & Et & Ew). split.
  - exists l. split; [|done]. rewrite Ec. apply release_lookup; [|done]. rewrite use_count_split, decide_True by done. lia.
  - rewrite Et. apply Forall_forall. intros t Ht. rewrite Forall_forall in T. destruct (T t Ht) as (T1 & T2 & T3). split_and!; try done. destruct (finished t) eqn:Ef; [done|]. destruct T3 as [E R]. split; [|done]. apply release_lookup; [|done]. eapply holder_counts; [done|by apply task_holds].
  - intros u c. rewrite Ew, Ec, release_use. apply Wr.
Qed.
Lemma free_ptr p s : Inv s -> heap s !! p = None -> Forall (fun t => holds p t = false) (tasks s).
Proof.
  intros I E. apply Forall_forall. intros t Ht. pose proof (e_tasks s I) as T. rewrite Forall_forall in T. destruct (T t Ht) as (_ & _ & T3). unfold holds. destruct (finished t); [done|]. destruct T3 as [Eh _]. cbn. apply bool_decide_eq_false. intros <-. congruence.
Qed.
Lemma tasks_heap s s' : (forall t, t ∈ tasks s -> finished t = false -> heap s' !! ptr t = heap s !! ptr t) -> Forall (task_ok s) (tasks s) -> Forall (task_ok s') (tasks s).
Proof.
  intros Hh T. apply Forall_forall. intros t Ht. rewrite Forall_forall in T. destruct (T t Ht) as (T1 & T2 & T3). split_and!; try done. destruct (finished t) eqn:Ef; [done|]. by rewrite Hh.
Qed.

(** The list that is current *)
Definition contents (s : ChatServer) : list Z := default [] (heap s !! connections_ s).
Definition changed (e : Ev) (s : ChatServer) : list Z :=
  match e, writer s with
  | Writer, Some (u, c, Changing) => if u : bool then set_insert c (contents s) else set_erase c (contents s)
  | _, _ => contents s
  end.
Lemma release_contents p s : Inv s -> contents (release p s) = contents s.
Proof.
  intros I. unfold contents. destruct (release_fields p s) as (-> & _ & _). destruct (e_list s I) as (l & El & _). rewrite (release_lookup p _ s l), El; [done| |done]. rewrite use_count_split, decide_True by done. lia.
Qed.
Lemma writer_ok s : Inv s -> exists s', onConnection_next s = Ret s' /\ Inv s' /\ contents s' = changed Writer s.
Proof.
  intros I. unfold onConnection_next, changed. pose proof I as [(l & El & Sl) T Wr]. destruct (writer s) as [[[u c] []]|] eqn:Ew; [| | |by exists s].
  - eexists. split; [done|]. split; [|done]. split; cbn [heap connections_ writer tasks]; [by exists l|by apply (tasks_heap s)|]. intros u' c' [= <- <- E]. case_bool_decide as D; [exact D|done].
  - rewrite El. set (p := fresh_ptr s). assert (heap s !! p = None) as Ep by (apply not_elem_of_dom; unfold p, fresh_ptr; apply is_fresh). set (s1 := mkChat _ _ _ _). assert (Inv s1) as I1.
    { split; cbn [s1 heap connections_ writer tasks]; [exists l; by rewrite lookup_insert_eq| |].
      - apply (tasks_heap s); [|done]. intros t Ht Ef. cbn [s1 heap]. rewrite lookup_insert_ne; [done|]. intros Eq. pose proof (free_ptr p s I Ep) as Fr. rewrite Forall_forall in Fr. pose proof (Fr t Ht) as Hh. cbv beta in Hh. rewrite Eq, task_holds in Hh; done.
      - intros _ _ _. apply unique_iff. exact (free_ptr p s I Ep). }
    eexists. split; [done|]. split; [by apply release_inv|]. rewrite release_contents by done. unfold contents. cbn [s1 heap connections_]. by rewrite lookup_insert_eq, El.
  - pose proof (Wr u c eq_refl) as U. rewrite bool_decide_true by done. cbn [check]. rewrite El. eexists. split; [done|]. split; [|unfold contents; cbn [heap connections_]; by rewrite lookup_insert_eq, El].
    split; cbn [heap connections_ writer tasks]; [|apply (tasks_heap s); [|done]|done].
    + eexists. rewrite lookup_insert_eq. split; [done|]. destruct u; [by apply set_insert_sorted|by apply filter_sorted].
    + intros t Ht Ef. cbn [heap]. rewrite lookup_insert_ne; [done|]. intros Eq. apply unique_iff in U. rewrite Forall_forall in U. pose proof (U t Ht) as Hh. cbv beta in Hh. rewrite Eq, task_holds in Hh; done.
Qed.
Lemma snapshot_ok m s : Inv s -> Inv (getConnectionList m s) /\ contents (getConnectionList m s) = contents s.
Proof.
  intros I. unfold getConnectionList. destruct (writer s) eqn:Ew; [done|]. split; [|done]. destruct I as [(l & El & Sl) T Wr]. split; cbn [heap connections_ writer tasks]; [by exists l| |done]. apply Forall_app. split; [by apply (tasks_heap s)|].
  constructor; [|constructor]. rewrite El. cbn [default]. split_and!; cbn [snap at_ sent finished ptr heap]; [done..|]. split; [done|by exists l].
Qed.
Lemma replace_ok s k t t' : Inv s -> tasks s !! k = Some t -> ptr t' = ptr t -> task_ok s t' -> (finished t' = false -> finished t = false) -> Inv (mkChat (heap s) (connections_ s) (writer s) (<[k := t']> (tasks s))).
Proof.
  intros [(l & El & Sl) T Wr] Et Ep Ht Hf. split; cbn [heap connections_ writer tasks]; [by exists l|by apply Forall_insert|].
  intros u c E. pose proof (Wr u c E) as U. apply unique_iff in U. apply (proj2 (unique_iff (mkChat (heap s) (connections_ s) (writer s) (<[k := t']> (tasks s))))). cbn [connections_ tasks]. apply Forall_insert; [done|]. pose proof (Forall_lookup_1 _ _ _ _ U Et) as Hh. cbv beta in Hh. revert Hh. unfold holds. rewrite Ep. destruct (finished t'); [done|]. by rewrite Hf.
Qed.
Lemma next_ok k s : Inv s -> exists s', onStringMessage_next k s = Ret s' /\ Inv s' /\ contents s' = contents s /\
  forall t, tasks s !! k = Some t -> finished t = false -> exists t', tasks s' !! k = Some t' /\ snap t' = snap t /\ (sent t = snap t -> finished t' = true) /\ (sent t <> snap t -> finished t' = false /\ exists c, sent t' = sent t ++ [c]).
Proof.
  intros I. unfold onStringMessage_next. destruct (tasks s !! k) as [t|] eqn:Et; [|by exists s]. destruct (finished t) eqn:Ef; [exists s; split_and!; try done; intros t' [= <-]; congruence|]. pose proof (Forall_lookup_1 _ _ _ _ (e_tasks s I) Et) as (T1 & T2 & T3). rewrite Ef in T3. destruct T3 as [Eh (rest & Er)]. rewrite Eh, T2.
  assert (match last (sent t) with Some c => bool_decide (c ∈ snap t) | None => true end = true) as ->.
  { destruct (last (sent t)) as [c|] eqn:El; [|done]. apply bool_decide_eq_true. rewrite Er. apply last_Some in El as (l' & ->). set_solver. }
  rewrite (next_after_split (snap t) (sent t) rest T1 Er). pose proof (lookup_lt_Some _ _ _ Et) as Lk. destruct rest as [|c rest]; cbn [head].
  - rewrite app_nil_r in Er. set (t' := mkTask _ _ _ _ _ _). assert (Inv (mkChat (heap s) (connections_ s) (writer s) (<[k := t']> (tasks s)))) as I' by (eapply replace_ok; [done..| |done]; by split_and!; cbn).
    eexists. split; [done|]. split; [by apply release_inv|]. split; [by rewrite release_contents|]. intros t0 [= <-] _. exists t'. destruct (release_fields (ptr t) (mkChat (heap s) (connections_ s) (writer s) (<[k := t']> (tasks s)))) as (_ & -> & _). cbn [tasks]. rewrite list_lookup_insert_eq by done. by split_and!.
  - eexists. split; [done|]. split; [apply (replace_ok s k t _ I Et); [done| |done]; split_and!; cbn [snap at_ sent finished ptr]; [done|by rewrite last_snoc|split; [done|exists rest; by rewrite Er, <- app_assoc]]|]. split; [done|]. intros t0 [= <-] _. cbn [tasks]. rewrite list_lookup_insert_eq by done. eexists. split; [done|]. cbn [snap finished sent]. split_and!; [done| |intros _; split; [done|by exists c]]. intros E. rewrite E in Er. apply (f_equal length) in Er. rewrite length_app in Er. cbn in Er. lia.
Qed.
Lemma cow_step e s : Inv s -> exists s', step e s = Ret s' /\ Inv s' /\ contents s' = changed e s.
Proof.
  intros I. destruct e as [u c| |m|k]; cbn [step].
  - eexists. split; [done|]. unfold lock, changed. destruct (writer s) eqn:Ew; [done|]. split; [|done]. destruct I as [L T Wr]. split; [done|by apply (tasks_heap s)|done].
  - by apply writer_ok.
  - eexists. split; [done|]. unfold changed. by apply snapshot_ok.
  - destruct (next_ok k s I) as (s' & E & I' & C & _). unfold changed. by exists s'.
Qed.
Lemma cow_start : Inv start.
Proof. split; [exists []; split; [done|constructor]|constructor|done]. Qed.
Lemma efficient_run_ok es s : Inv s -> exists s', run es s = Ret s' /\ Inv s'.
Proof.
  revert s. induction es as [|e es IH]; intros s I; cbn [run]; [by exists s|]. destruct (cow_step e s I) as (s1 & -> & I1 & _). by apply IH.
Qed.
(** A call that goes on comes to its end. *)
Lemma finishes n k s t : Inv s -> tasks s !! k = Some t -> finished t = false -> length (snap t) = (length (sent t) + n)%nat ->
  exists s' t', run (replicate (S n) (Next k)) s = Ret s' /\ tasks s' !! k = Some t' /\ finished t' = true /\ snap t' = snap t.
Proof.
  revert s t. induction n as [|n IH]; intros s t I Et Ef L; cbn [replicate run step]; (destruct (next_ok k s I) as (s1 & -> & I1 & _ & N); cbn [obind]; destruct (N t Et Ef) as (t1 & Et1 & Es & N1 & N2)).
  - pose proof (Forall_lookup_1 _ _ _ _ (e_tasks s I) Et) as (_ & _ & T3). rewrite Ef in T3. destruct T3 as [_ (rest & Er)]. exists s1, t1. split_and!; try done. apply N1. rewrite Er, length_app in L. destruct rest; [by rewrite app_nil_r in Er|cbn in L; lia].
  - destruct N2 as [Ef1 (c & Ec)]; [intros E; rewrite E in L; lia|]. rewrite <- Es in L. destruct (IH s1 t1 I1 Et1 Ef1) as (s2 & t2 & E2 & Et2 & Ef2 & Es2); [rewrite Ec, length_app; cbn; lia|]. exists s2, t2. split_and!; try done. congruence.
Qed.

(** C25. server_threaded_efficient.cc, for every order in which its threads take turns: no assertion fails, no list is used after it was freed or changed while a call goes through it. Each call of [onStringMessage] sends its message to the connections that the list had when the call took it, each once and in order, and comes to its end when
    its thread goes on; the current list changes exactly when a connection is entered or taken out. *)
Theorem cow_broadcasts (es : list Ev) : exists s, run es start = Ret s /\
  (forall k t, tasks s !! k = Some t -> NoDup (snap t) /\ exists rest, snap t = sent t ++ rest /\ (finished t = true -> rest = []) /\
     (finished t = false -> exists s' t', run (replicate (S (length rest)) (Next k)) s = Ret s' /\ tasks s' !! k = Some t' /\ finished t' = true /\ sent t' = snap t)) /\
  (forall e, exists s', step e s = Ret s' /\ contents s' = changed e s) /\
  (forall m, writer s = None -> exists t, tasks (getConnectionList m s) = tasks s ++ [t] /\ msg t = m /\ snap t = contents s).
Proof.
  destruct (efficient_run_ok es start cow_start) as (s & E & I). exists s. split; [done|]. split_and!.
  - intros k t Et. pose proof (Forall_lookup_1 _ _ _ _ (e_tasks s I) Et) as (T1 & T2 & T3). split; [by apply Plain.sorted_NoDup|]. destruct (finished t) eqn:Ef; [exists []; rewrite app_nil_r; by split_and!|]. destruct T3 as [_ (rest & Er)]. exists rest. split_and!; try done. intros _.
    destruct (finishes (length rest) k s t I Et Ef) as (s' & t' & Es & Et' & Ef' & Eq); [by rewrite Er, length_app|]. exists s', t'. split_and!; try done. destruct (efficient_run_ok (replicate (S (length rest)) (Next k)) s I) as (s2 & Es2 & I2). rewrite Es in Es2. injection Es2 as <-. pose proof (Forall_lookup_1 _ _ _ _ (e_tasks s' I2) Et') as (_ & _ & T3'). rewrite Ef' in T3'. congruence.
  - intros e. destruct (cow_step e s I) as (s' & Es & _ & C). by exists s'.
  - intros m Ew. unfold getConnectionList. rewrite Ew. by eexists.
Qed.
End Efficient.

(** ** server_threaded_highperformance.cc *)

Module HighPerformance.
(** A loop: the calls of [distributeMessage] that are queued, its [LocalConnections] if there is an instance, and, not looked at, the messages of the calls that were run *)
Record Loop := mkLoop { pendingFunctors_ : list (list byte); local : option (list Z); ran : list (list byte) }.
Definition newLoop : Loop := mkLoop [] None [].
(** The loops, [loops_], and the call of [onStringMessage] that has the mutex, with the loops it has not reached *)
Record ChatServer := mkChat { io : list Loop; loops_ : list Z; poster : option (list byte * list Z); conns : gmap Z Conn }.

Definition threadInit (loop : nat) (s : ChatServer) : outcome ChatServer :=
  match io s !! loop with
  | Some l =>
      assert* bool_decide (local l = None) in
      let l := mkLoop (pendingFunctors_ l) (Some []) (ran l) in
      assert* bool_decide (local l <> None) in
      Ret (mkChat (<[loop := l]> (io s)) (set_insert (Z.of_nat loop) (loops_ s)) (poster s) (conns s))
  | None => Stop OutOfRange
  end.
(** [LocalConnections::instance()] makes the set if there is none. *)
Definition instance (l : Loop) : list Z := default [] (local l).
Definition onConnection (k : nat) (connected : bool) (c : Z) (s : ChatServer) : ChatServer :=
  mkChat (alter (fun l => mkLoop (pendingFunctors_ l) (Some (if connected then set_insert c (instance l) else set_erase c (instance l))) (ran l)) k (io s)) (loops_ s) (poster s) (conns s).
(** [onStringMessage] takes the mutex if nobody has it, gives the message to one loop after the other, and releases it. *)
Definition onStringMessage_lock (m : list byte) (s : ChatServer) : ChatServer :=
  match poster s with None => mkChat (io s) (loops_ s) (Some (m, loops_ s)) (conns s) | Some _ => s end.
Definition onStringMessage_next (s : ChatServer) : ChatServer :=
  match poster s with
  | None => s
  | Some (m, []) => mkChat (io s) (loops_ s) None (conns s)
  | Some (m, k :: rest) => mkChat (alter (fun l => mkLoop (pendingFunctors_ l ++ [m]) (local l) (ran l)) (Z.to_nat k) (io s)) (loops_ s) (Some (m, rest)) (conns s)
  end.
(** A loop runs the first functor of its queue. *)
Definition distributeMessage (host : endian) (k : nat) (s : ChatServer) : outcome ChatServer :=
  match io s !! k with
  | Some (mkLoop (m :: q) lc r) =>
      let* cs := Plain.send_all host m (default [] lc) (conns s) in
      Ret (mkChat (<[k := mkLoop q (Some (default [] lc)) (r ++ [m])]> (io s)) (loops_ s) (poster s) cs)
  | _ => Ret s
  end.

Inductive Ev := Up (k : nat) (c : Z) | Down (k : nat) (c : Z) | Say (m : list byte) | Post | Run (k : nat).
(** A connection is on one loop, and addresses are not used again. *)
Definition step (host : endian) (e : Ev) (s : ChatServer) : outcome ChatServer :=
  match e with
  | Up k c => if decide (is_Some (conns s !! c) \/ (length (io s) <= k)%nat) then Ret s else Ret (onConnection k true c (mkChat (io s) (loops_ s) (poster s) (<[c := newConn]> (conns s))))
  | Down k c => if decide (c ∈ default [] (instance <$> io s !! k)) then Ret (onConnection k false c (mkChat (io s) (loops_ s) (poster s) (alter conn_shutdown c (conns s)))) else Ret s
  | Say m => Ret (onStringMessage_lock m s)
  | Post => Ret (onStringMessage_next s)
  | Run k => distributeMessage host k s
  end.
Fixpoint run (host : endian) (es : list Ev) (s : ChatServer) : outcome ChatServer := match es with [] => Ret s | e :: es => let* s := step host e s in run host es s end.
(** The server starts with [n] loops. *)
Definition start (n : nat) : outcome ChatServer := fold_left (fun s k => let* s := s in threadInit k s) (seq 0 n) (Ret (mkChat (replicate n newLoop) [] None ∅)).

Lemma list_alter_Some {A} (f : A -> A) (i j : nat) (l : list A) y : alter f i l !! j = Some y -> (i = j /\ exists x, l !! j = Some x /\ y = f x) \/ (i <> j /\ l !! j = Some y).
Proof.
  destruct (decide (i = j)) as [->|N]; [|rewrite list_lookup_alter_ne by done; by right]. rewrite list_lookup_alter_eq. destruct (l !! j) as [x|]; [|done]. intros [= <-]. left. split; [done|]. by exists x.
Qed.
(** What a loop has not been given yet *)
Definition due (k : nat) (s : ChatServer) : list (list byte) := match poster s with Some (m, rest) => if decide (Z.of_nat k ∈ rest) then [m] else [] | None => [] end.
(** [G]: all messages, in the order in which their calls got the mutex *)
Record Inv (n : nat) (G : list (list byte)) (s : ChatServer) : Prop := mkInv {
  h_loops : NoDup (loops_ s) /\ Forall (fun k => 0 <= k) (loops_ s) /\ length (io s) = n /\ forall k, (k < n)%nat -> Z.of_nat k ∈ loops_ s;
  h_poster : forall m rest, poster s = Some (m, rest) -> NoDup rest /\ Forall (fun k => 0 <= k) rest;
  h_queue : forall k l, io s !! k = Some l -> ran l ++ pendingFunctors_ l ++ due k s = G;
  h_local : forall k l, io s !! k = Some l -> exists cs, local l = Some cs /\ sorted cs;
  h_conn : forall c cn, conns s !! c = Some cn -> exists k l pre mid post, io s !! k = Some l /\ ran l = pre ++ mid ++ post /\ sent_ cn = encs frame32 mid /\
    forall k' l', io s !! k' = Some l' -> c ∈ instance l' -> k' = k /\ post = [] /\ connected_ cn = true;
  h_known : forall k l c, io s !! k = Some l -> c ∈ instance l -> is_Some (conns s !! c);
  h_fits : Forall (fun m => zlen m <= 65536) G }.

Lemma say_inv n G m s : Inv n G s -> zlen m <= 65536 -> Inv n (match poster s with Some _ => G | None => G ++ [m] end) (onStringMessage_lock m s).
Proof.
  intros I F. unfold onStringMessage_lock. destruct (poster s) eqn:Ep; [done|]. destruct I as [H1 H2 H3 H4 H5 H6 H7]. destruct H1 as (N & P & L & A). split; cbn [io loops_ poster conns]; try done.
  - by intros m' rest [= <- <-].
  - intros k l E. specialize (H3 k l E). unfold due in *. rewrite Ep in H3. cbn [poster]. rewrite app_nil_r in H3. rewrite decide_True by (apply A; apply lookup_lt_Some in E; lia). by rewrite app_assoc, H3.
  - apply Forall_app. by split; [|constructor].
Qed.
Lemma post_inv n G s : Inv n G s -> Inv n G (onStringMessage_next s).
Proof.
  intros I. unfold onStringMessage_next. destruct (poster s) as [[m [|k rest]]|] eqn:Ep; [| |done].
  - destruct I as [H1 H2 H3 H4 H5 H6 H7]. split; cbn [io loops_ poster conns]; try done. intros k l E. specialize (H3 k l E). unfold due in *. rewrite Ep in H3. rewrite decide_False in H3 by apply not_elem_of_nil. exact H3.
  - destruct I as [(N & P & L & A) H2 H3 H4 H5 H6 H7]. destruct (H2 m (k :: rest) Ep) as [Nr Pr]. apply NoDup_cons in Nr as [Hk Nr]. apply Forall_cons in Pr as [Pk Pr]. split; cbn [io loops_ poster conns].
    + split_and!; try done. by rewrite length_alter.
    + by intros m' rest' [= <- <-].
    + intros j l' E. apply list_alter_Some in E as [(<- & l & E & ->)|[D E]]; specialize (H3 _ _ E); unfold due in *; rewrite Ep in H3; cbn [poster ran pendingFunctors_].
      * rewrite Z2Nat.id in * by done. rewrite decide_False by done. rewrite decide_True in H3 by (by left). by rewrite app_nil_r.
      * rewrite <- H3. do 2 f_equal. assert (Z.of_nat j <> k) as Nj by (intros <-; by rewrite Nat2Z.id in D). destruct (decide (Z.of_nat j ∈ rest)); [by rewrite decide_True by (by right)|by rewrite decide_False by (rewrite not_elem_of_cons; done)].
    + intros j l' E. apply list_alter_Some in E as [(<- & l & E & ->)|[D E]]; [exact (H4 _ l E)|by eapply H4].
    + intros c cn E. destruct (H5 c cn E) as (j & l & pre & mid & post & El & Er & Es & U). destruct (decide (j = Z.to_nat k)) as [->|Nj].
      * exists (Z.to_nat k), (mkLoop (pendingFunctors_ l ++ [m]) (local l) (ran l)), pre, mid, post. split_and!; try done; [by rewrite list_lookup_alter_eq, El|]. intros j' l' E'. apply list_alter_Some in E' as [(<- & l0 & E' & ->)|[D E']]; [exact (U _ l0 E')|exact (U _ l' E')].
      * exists j, l, pre, mid, post. split_and!; try done; [by rewrite list_lookup_alter_ne|]. intros j' l' E'. apply list_alter_Some in E' as [(<- & l0 & E' & ->)|[D E']]; [exact (U _ l0 E')|exact (U _ l' E')].
    + intros j l' c E. apply list_alter_Some in E as [(<- & l & E & ->)|[D E]]; [exact (H6 _ l c E)|exact (H6 _ l' c E)].
    + done.
Qed.
Lemma instance_some q cs r : instance (mkLoop q (Some cs) r) = cs.
Proof. done. Qed.
Lemma insert_cases {A} (k j : nat) (l l' : A) (io : list A) : <[k := l]> io !! j = Some l' -> (j = k /\ l' = l) \/ (j <> k /\ io !! j = Some l').
Proof. intros [(-> & <- & _)|[N E]]%list_lookup_insert_Some; [by left|by right]. Qed.
Lemma distribute_inv host n G k s : Inv n G s -> exists s', distributeMessage host k s = Ret s' /\ Inv n G s'.
Proof.
  intros I. unfold distributeMessage. destruct (io s !! k) as [[[|m q] lc r]|] eqn:Ek; [by exists s| |by exists s]. pose proof I as [(N & P & L & A) H2 H3 H4 H5 H6 H7]. pose proof (H3 k _ Ek) as Hq. cbn [ran pendingFunctors_] in Hq. destruct (H4 k _ Ek) as (cs & Elc & Scs). cbn [local] in Elc. subst lc. change (default [] (Some cs)) with cs.
  assert (zlen m <= 65536) as F by (rewrite Forall_forall in H7; apply H7; rewrite <- Hq; set_solver). destruct (Plain.send_all_ok host m cs (conns s) F (Plain.sorted_NoDup _ Scs)) as (cm & -> & Lc). cbn [obind]. eexists. split; [done|]. pose proof (lookup_lt_Some _ _ _ Ek) as Lk.
  assert (forall j l', <[k := mkLoop q (Some cs) (r ++ [m])]> (io s) !! j = Some l' -> exists l0, io s !! j = Some l0 /\ instance l' = instance l0) as Same.
  { intros j l' [[-> ->]|[D E]]%insert_cases; [by eexists|by exists l']. }
  split; cbn [io loops_ poster conns]; try done.
  - split_and!; try done. by rewrite length_insert.
  - intros j l' [[-> ->]|[D E]]%insert_cases; cbn [ran pendingFunctors_]; [|by apply H3]. rewrite <- Hq, <- app_assoc. done.
  - intros j l' [[-> ->]|[D E]]%insert_cases; [by exists cs|by eapply H4].
  - intros c cn. rewrite Lc. case_decide as Dc.
    + destruct (conns s !! c) as [cn0|] eqn:E0; [|done]. cbn. intros [= <-]. destruct (H5 c cn0 E0) as (j & l & pre & mid & post & El & Er & Es & U). destruct (U k _ Ek Dc) as (<- & -> & Uc). rewrite Ek in El. injection El as <-. cbn [ran] in Er. rewrite app_nil_r in Er.
      eexists k, _, pre, (mid ++ [m]), []. split_and!; [by apply list_lookup_insert_eq|cbn [ran]; by rewrite Er, app_nil_r, app_assoc|unfold conn_write; rewrite Uc; cbn [sent_]; by rewrite Es, Plain.encs_snoc|]. intros j' l' E' Hc. destruct (Same j' l' E') as (l0 & E0' & Ei). rewrite Ei in Hc. destruct (U j' l0 E0' Hc) as (-> & _ & _). split_and!; try done. unfold conn_write. by rewrite Uc.
    + intros E0. destruct (H5 c cn E0) as (j & l & pre & mid & post & El & Er & Es & U). destruct (decide (j = k)) as [->|Nj].
      * rewrite Ek in El. injection El as <-. cbn [ran] in Er. eexists k, _, pre, mid, (post ++ [m]). split_and!; [by apply list_lookup_insert_eq|cbn [ran]; by rewrite Er, <- !app_assoc|done|]. intros j' l' E' Hc. destruct (Same j' l' E') as (l0 & E0' & Ei). rewrite Ei in Hc. destruct (U j' l0 E0' Hc) as (-> & _ & _). rewrite Ek in E0'. injection E0' as <-. by exfalso; apply Dc.
      * exists j, l, pre, mid, post. split_and!; try done; [by rewrite list_lookup_insert_ne|]. intros j' l' E' Hc. destruct (Same j' l' E') as (l0 & E0' & Ei). rewrite Ei in Hc. by apply (U j' l0).
  - intros j l' c E' Hc. destruct (Same j l' E') as (l0 & E0' & Ei). rewrite Ei in Hc. rewrite Lc. destruct (H6 j l0 c E0' Hc) as [cn Ecn]. rewrite Ecn. case_decide; by eexists.
Qed.
Lemma up_inv n G k c s : Inv n G s -> conns s !! c = None -> (k < length (io s))%nat -> Inv n G (onConnection k true c (mkChat (io s) (loops_ s) (poster s) (<[c := newConn]> (conns s)))).
Proof.
  intros [(N & P & L & A) H2 H3 H4 H5 H6 H7] E0 Hk. split; cbn [onConnection io loops_ poster conns]; try done.
  - split_and!; try done. by rewrite length_alter.
  - intros j l' [(<- & l & E & ->)|[D E]]%list_alter_Some; [exact (H3 _ l E)|exact (H3 _ _ E)].
  - intros j l' [(<- & l & E & ->)|[D E]]%list_alter_Some; [|by eapply H4]. destruct (H4 _ l E) as (cs & El & Sc). eexists. split; [done|]. unfold instance. rewrite El. by apply set_insert_sorted.
  - intros x cn. rewrite lookup_insert_Some. intros [[<- <-]|[Nx Ex]].
    + destruct (lookup_lt_is_Some_2 _ _ Hk) as [l El]. eexists k, _, (ran l), [], []. split_and!; [by rewrite list_lookup_alter_eq, El|by rewrite !app_nil_r|done|]. intros j l' [(<- & l0 & E & ->)|[D E]]%list_alter_Some; [done|]. intros Hc. destruct (H6 j l' c E Hc) as [? ?]. congruence.
    + destruct (H5 x cn Ex) as (j & l & pre & mid & post & El & Er & Es & U). assert (forall j' l', alter (fun l => mkLoop (pendingFunctors_ l) (Some (set_insert c (instance l))) (ran l)) k (io s) !! j' = Some l' -> x ∈ instance l' -> j' = j /\ post = [] /\ connected_ cn = true) as U'.
      { intros j' l' [(<- & l0 & E & ->)|[D E]]%list_alter_Some; [|by apply U]. rewrite instance_some. rewrite zset_insert_elem. intros [->|Hx]; [done|]. by apply (U _ l0). }
      destruct (decide (j = k)) as [->|Nj]; [eexists k, _, pre, mid, post; split_and!; [by rewrite list_lookup_alter_eq, El|done..|exact U']|exists j, l, pre, mid, post; split_and!; [by rewrite list_lookup_alter_ne|done..|exact U']].
  - intros j l' x [(<- & l & E & ->)|[D E]]%list_alter_Some; rewrite lookup_insert; (case_decide; [done|]); [|intros Hx; exact (H6 j l' x E Hx)]. rewrite instance_some. rewrite zset_insert_elem. intros [->|Hx]; [done|]. exact (H6 _ l x E Hx).
Qed.
Lemma down_inv n G k c s : Inv n G s -> c ∈ default [] (instance <$> io s !! k) -> Inv n G (onConnection k false c (mkChat (io s) (loops_ s) (poster s) (alter conn_shutdown c (conns s)))).
Proof.
  intros [(N & P & L & A) H2 H3 H4 H5 H6 H7] Hc. destruct (io s !! k) as [lk|] eqn:Ek; [|by apply elem_of_nil in Hc]. cbn in Hc. split; cbn [onConnection io loops_ poster conns]; try done.
  - split_and!; try done. by rewrite length_alter.
  - intros j l' [(<- & l & E & ->)|[D E]]%list_alter_Some; [exact (H3 _ l E)|exact (H3 _ _ E)].
  - intros j l' [(<- & l & E & ->)|[D E]]%list_alter_Some; [|by eapply H4]. destruct (H4 _ l E) as (cs & El & Sc). eexists. split; [done|]. unfold instance. rewrite El. by apply filter_sorted.
  - intros x cn Ex. assert (exists cn0, conns s !! x = Some cn0 /\ sent_ cn = sent_ cn0 /\ (x <> c -> cn = cn0)) as (cn0 & E0 & Esn & Ecn).
    { apply lookup_alter_Some in Ex as [(<- & cn0 & E0 & ->)|[Nx E0]]; [by exists cn0|by exists cn]. }
    destruct (H5 x cn0 E0) as (j & l & pre & mid & post & El & Er & Es & U). assert (forall j' l', alter (fun l => mkLoop (pendingFunctors_ l) (Some (set_erase c (instance l))) (ran l)) k (io s) !! j' = Some l' -> x ∈ instance l' -> j' = j /\ post = [] /\ connected_ cn = true) as U'.
    { intros j' l' [(<- & l0 & E & ->)|[D E]]%list_alter_Some.
      - rewrite instance_some. unfold set_erase. rewrite list_elem_of_filter. intros [Nx Hx]. rewrite Ecn by done. by apply (U _ l0).
      - intros Hx. destruct (decide (x = c)) as [->|Nx]; [|rewrite Ecn by done; by apply (U _ l')]. destruct (U j' l' E Hx) as (-> & _). destruct (U k lk Ek Hc) as (-> & _). done. }
    rewrite <- Esn in Es. destruct (decide (j = k)) as [->|Nj]; [eexists k, _, pre, mid, post; split_and!; [by rewrite list_lookup_alter_eq, El|done..|exact U']|exists j, l, pre, mid, post; split_and!; [by rewrite list_lookup_alter_ne|done..|exact U']].
  - intros j l' x [(<- & l & E & ->)|[D E]]%list_alter_Some; rewrite lookup_alter_is_Some; [|intros Hx; exact (H6 j l' x E Hx)]. rewrite instance_some. unfold set_erase. rewrite list_elem_of_filter. intros [_ Hx]. exact (H6 _ l x E Hx).
Qed.
Definition fits_event (e : Ev) : Prop := match e with Say m => zlen m <= 65536 | _ => True end.
Definition said (es : list Ev) : list (list byte) := concat (map (fun e => match e with Say m => [m] | _ => [] end) es).
Lemma hp_step host n G e s : Inv n G s -> fits_event e -> exists s' g, step host e s = Ret s' /\ Inv n (G ++ g) s' /\ g `sublist_of` said [e].
Proof.
  intros I F. destruct e as [k c|k c|m| |k]; cbn [step].
  1, 2: case_decide as D.
  all: try by exists s, []; rewrite app_nil_r.
  - eexists _, []. rewrite app_nil_r. split; [done|]. split; [|done]. apply up_inv; [done|apply eq_None_not_Some; tauto|lia].
  - eexists _, []. rewrite app_nil_r. split; [done|]. split; [|done]. by apply down_inv.
  - eexists _, (match poster s with Some _ => [] | None => [m] end). split; [done|]. pose proof (say_inv n G m s I F) as I'. destruct (poster s); rewrite ?app_nil_r; (split; [done|]); [apply sublist_nil_l|done].
  - eexists _, []. rewrite app_nil_r. split; [done|]. split; [|done]. by apply post_inv.
  - destruct (distribute_inv host n G k s I) as (s' & E & I'). exists s', []. by rewrite app_nil_r.
Qed.
Lemma hp_run host n es s G : Inv n G s -> Forall fits_event es -> exists s' g, run host es s = Ret s' /\ Inv n (G ++ g) s' /\ g `sublist_of` said es.
Proof.
  intros I F. revert s G I. induction F as [|e es Fe F IH]; intros s G I; cbn [run]; [exists s, []; by rewrite app_nil_r|]. destruct (hp_step host n G e s I Fe) as (s1 & g1 & -> & I1 & S1). cbn [obind]. destruct (IH s1 (G ++ g1) I1) as (s2 & g2 & -> & I2 & S2). exists s2, (g1 ++ g2). rewrite app_assoc. split_and!; [done..|]. change (e :: es) with ([e] ++ es). unfold said. rewrite map_app, concat_app. by apply sublist_app.
Qed.
(** Every loop calls [threadInit] once. *)
Lemma init_all ks s : NoDup ks -> (forall k, k ∈ ks -> io s !! k = Some newLoop) -> sorted (loops_ s) ->
  exists s', fold_left (fun s k => let* s := s in threadInit k s) ks (Ret s) = Ret s' /\ poster s' = poster s /\ conns s' = conns s /\ length (io s') = length (io s) /\ sorted (loops_ s') /\
    (forall k, io s' !! k = if decide (k ∈ ks) then Some (mkLoop [] (Some []) []) else io s !! k) /\ (forall x, x ∈ loops_ s' <-> x ∈ loops_ s \/ exists k, k ∈ ks /\ x = Z.of_nat k).
Proof.
  intros N. revert s. induction N as [|k ks Hk N IH]; intros s Hn Ss; cbn [fold_left obind].
  - exists s. split_and!; try done. intros x. split; [by left|]. intros [|(k & Hk & _)]; [done|]. by apply elem_of_nil in Hk.
  - unfold threadInit at 2. rewrite (Hn k) by (by left). cbn [newLoop local pendingFunctors_ ran]. rewrite !bool_decide_true by done. cbn [check]. set (s1 := mkChat _ _ _ _). assert (k < length (io s))%nat as Lk by (eapply lookup_lt_Some, Hn; by left).
    destruct (IH s1) as (s' & E & Ep & Ec & El & S' & Hi & Hl); [intros j Hj; cbn [s1 io]; rewrite list_lookup_insert_ne by (by intros ->); apply Hn; by right|by apply set_insert_sorted|].
    exists s'. split_and!; try done; [by rewrite El; cbn [s1 io]; rewrite length_insert| |].
    + intros j. rewrite Hi. cbn [s1 io]. destruct (decide (j = k)) as [->|Nj]; [rewrite decide_False, decide_True by (done || by left); by apply list_lookup_insert_eq|]. rewrite list_lookup_insert_ne by done. destruct (decide (j ∈ ks)); [by rewrite decide_True by (by right)|by rewrite decide_False by (rewrite not_elem_of_cons; done)].
    + intros x. rewrite Hl. cbn [s1 loops_]. rewrite zset_insert_elem. split.
      * intros [[->|Hx]|(j & Hj & ->)]; [right; exists k; by split; [left|]|by left|right; exists j; by split; [right|]].
      * intros [Hx|(j & [->|Hj]%elem_of_cons & ->)]; [by left; right|by left; left|right; by exists j].
Qed.
Lemma hp_start n : exists s, start n = Ret s /\ Inv n [] s.
Proof.
  unfold start. destruct (init_all (seq 0 n) (mkChat (replicate n newLoop) [] None ∅)) as (s & E & Ep & Ec & El & S & Hi & Hl); [apply NoDup_seq|intros k Hk%elem_of_seq; apply lookup_replicate; split; [done|lia]|constructor|].
  cbn [io poster conns loops_] in *. rewrite length_replicate in El. exists s. split; [done|]. assert (forall k l, io s !! k = Some l -> l = mkLoop [] (Some []) []) as All. { intros k l Ek. pose proof (lookup_lt_Some _ _ _ Ek) as Lk. rewrite Hi, decide_True in Ek by (apply elem_of_seq; lia). by injection Ek. }
  split.
  - split_and!; [by apply Plain.sorted_NoDup| |done|].
    + apply Forall_forall. intros x Hx. apply Hl in Hx as [Hx|(k & _ & ->)]; [by apply elem_of_nil in Hx|lia].
    + intros k Hk. apply Hl. right. exists k. split; [apply elem_of_seq; lia|done].
  - intros m rest. by rewrite Ep.
  - intros k l Ek. rewrite (All k l Ek). unfold due. by rewrite Ep.
  - intros k l Ek. rewrite (All k l Ek). exists []. split; [done|constructor].
  - intros c cn. by rewrite Ec.
  - intros k l c Ek. rewrite (All k l Ek), instance_some. intros Hc. by apply elem_of_nil in Hc.
  - constructor.
Qed.

(** Two loops with a client each, and two messages *)
Definition example_events : list Ev := [Up 0 7; Say (bytes "a"); Post; Run 0; Up 1 9; Post; Run 1; Post; Say (bytes "b"); Post; Post; Post; Run 1; Run 0].
End HighPerformance.
