(* ===== verification/IdleList.v ===== *)
(** * Closing idle connections with a list in the order of activity (src/muduo/examples/idleconnection/sortedlist.cc)

    A connection that receives something moves to the end of a list, so that the timer only looks at the front. The times come from two clocks, [Timestamp::now()] and the time [poll] returned, so that the
    list may be out of order by the time between the two. The file shows that connections are closed if they are idle for long enough in spite of that. *)

From Stdlib Require Import Sorted.
From S2P Require Import Prelude StringPiece Buffer Conn.

Module SortedList.

(** A connection: its state, its input, [Node::lastReceiveTime] of its context, and whether [forceCloseWithDelay] was called. [Node::position] is the place of the connection in the list. *)
Record LConn := mkLConn { lc_conn : Conn; lc_input : Buffer; lc_context : option Z; lc_force : bool }.
(** [conns]: the connections that have not been destroyed, so that a weak pointer to them can be locked *)
Record EchoServer := mkEcho { idleSeconds_ : Z; connectionList_ : list nat; conns : gmap nat LConn }.
Definition newEchoServer (idleSeconds : Z) : EchoServer := mkEcho idleSeconds [] ∅.
Definition set_conn (c : nat) (x : LConn) (s : EchoServer) : EchoServer := mkEcho (idleSeconds_ s) (connectionList_ s) (<[c := x]> (conns s)).

(** [erase(position)] and [splice(end(), *this, position)]; the position must be in the list. *)
Definition list_erase (c : nat) (l : list nat) : outcome (list nat) := if decide (c ∈ l) then Ret (filter (fun x => x <> c) l) else Stop OutOfRange.
Definition list_splice_end (c : nat) (l : list nat) : outcome (list nat) := let* l := list_erase c l in Ret (l ++ [c]).

Definition onConnection (now : Z) (connected : bool) (c : nat) (s : EchoServer) : outcome EchoServer :=
  match conns s !! c with
  | None => Stop OutOfRange
  | Some x =>
      if connected then
        Ret (set_conn c (mkLConn (lc_conn x) (lc_input x) (Some now) (lc_force x)) (mkEcho (idleSeconds_ s) (connectionList_ s ++ [c]) (conns s)))
      else
        assert* bool_decide (lc_context x <> None) in
        let* l := list_erase c (connectionList_ s) in
        Ret (mkEcho (idleSeconds_ s) l (conns s))
  end.
Definition onMessage (time : Z) (c : nat) (s : EchoServer) : outcome EchoServer :=
  match conns s !! c with
  | None => Stop OutOfRange
  | Some x =>
      let* (msg, buf) := retrieveAllAsString (lc_input x) in
      let* conn := conn_send msg (lc_conn x) in
      assert* bool_decide (lc_context x <> None) in
      let s := set_conn c (mkLConn conn buf (Some time) (lc_force x)) s in
      let* l := list_splice_end c (connectionList_ s) in
      assert* bool_decide (last l = Some c) in
      Ret (mkEcho (idleSeconds_ s) l (conns s))
  end.

(** The loop of [onTimer] from a position of the list on: what is left of the list, and the connections. Seconds are compared as doubles, which is exact for an [int] and a difference of microseconds. *)
Fixpoint timer_loop (idleSeconds now : Z) (l : list nat) (cs : gmap nat LConn) : outcome (list nat * gmap nat LConn) :=
  match l with
  | [] => Ret ([], cs)
  | c :: l =>
      match cs !! c with
      | Some x =>
          match lc_context x with
          | Some t =>
              let age := now - t in
              if decide (age > idleSeconds * 1000000) then
                let cs := if connected_ (lc_conn x) then <[c := mkLConn (conn_shutdown (lc_conn x)) (lc_input x) (Some t) true]> cs else cs in
                let* (l, cs) := timer_loop idleSeconds now l cs in Ret (c :: l, cs)
              else if decide (age < 0) then
                let* (l, cs) := timer_loop idleSeconds now l (<[c := mkLConn (lc_conn x) (lc_input x) (Some now) (lc_force x)]> cs) in Ret (c :: l, cs)
              else Ret (c :: l, cs)
          | None => Stop OutOfRange
          end
      | None => timer_loop idleSeconds now l cs
      end
  end.
Definition onTimer (now : Z) (s : EchoServer) : outcome EchoServer :=
  let* (l, cs) := timer_loop (idleSeconds_ s) now (connectionList_ s) (conns s) in
  Ret (mkEcho (idleSeconds_ s) l cs).

(** ** Events *)

(** A connection is established, receives, goes down and is destroyed; the timer expires. *)
Inductive LEvent := LUp (c : nat) (now : Z) | LData (c : nat) (d : list byte) (time : Z) | LDown (c : nat) | LGone (c : nat) | LTimer (now : Z).
Definition list_step (e : LEvent) (s : EchoServer) : outcome EchoServer :=
  match e with
  | LUp c now =>
      let* buf := newBuffer kInitialSize in
      onConnection now true c (set_conn c (mkLConn newConn buf None false) s)
  | LData c d time =>
      match conns s !! c with
      | None => Stop OutOfRange
      | Some x =>
          let* buf := append_bytes d (lc_input x) in
          onMessage time c (set_conn c (mkLConn (lc_conn x) buf (lc_context x) (lc_force x)) s)
      end
  | LDown c =>
      match conns s !! c with
      | None => Stop OutOfRange
      | Some x => onConnection 0 false c (set_conn c (mkLConn (conn_shutdown (lc_conn x)) (lc_input x) (lc_context x) (lc_force x)) s)
      end
  | LGone c => Ret (mkEcho (idleSeconds_ s) (connectionList_ s) (delete c (conns s)))
  | LTimer now => onTimer now s
  end.
Fixpoint list_run (es : list LEvent) (s : EchoServer) : outcome EchoServer := match es with [] => Ret s | e :: es => let* s := list_step e s in list_run es s end.

(** ** What is expected *)

(** The last activity of the connections that are up *)
Definition act (e : LEvent) (m : gmap nat Z) : gmap nat Z :=
  match e with LUp c t | LData c _ t => <[c := t]> m | LDown c => delete c m | _ => m end.
Definition activity (es : list LEvent) : gmap nat Z := fold_left (fun m e => act e m) es ∅.
(** A connection is established once, receives only while it is up, at most [max_read] bytes at a time, and is destroyed when it is down. Clocks go back by at most [D]: no time is before an earlier one, of which [M] is the latest, by more than that. *)
Section Legal.
Context (D : Z).
Definition time_of (e : LEvent) : option Z := match e with LUp _ t | LData _ _ t | LTimer t => Some t | _ => None end.
Definition later (M : Z) (e : LEvent) : Z := match time_of e with Some t => Z.max M t | None => M end.
Fixpoint legal (es : list LEvent) (seen : gset nat) (m : gmap nat Z) (M : Z) : Prop :=
  match es with
  | [] => True
  | e :: es =>
      match e with
      | LUp c _ => c ∉ seen
      | LData c d _ => is_Some (m !! c) /\ zlen d <= max_read
      | LDown c => is_Some (m !! c)
      | LGone c => m !! c = None
      | LTimer _ => True
      end /\ (forall t, time_of e = Some t -> M - D <= t) /\ legal es (match e with LUp c _ => {[c]} ∪ seen | _ => seen end) (act e m) (later M e)
  end.
End Legal.
Definition traffic (es : list LEvent) : Z := foldr (fun e n => match e with LData _ d _ => zlen d | _ => 0 end + n) 0 es.

(** ** The list is almost in order *)

Section Order.
Context (D : Z) (D_pos : 0 <= D).
Definition tm (cs : gmap nat LConn) (c : nat) : Z := default 0 (cs !! c ≫= lc_context).
Definition ordered (cs : gmap nat LConn) : list nat -> Prop := StronglySorted (fun a b => tm cs a <= tm cs b + D).
Definition present (cs : gmap nat LConn) (c : nat) : Prop := exists x u, cs !! c = Some x /\ lc_context x = Some u.

Lemma tm_some cs c x u : cs !! c = Some x -> lc_context x = Some u -> tm cs c = u.
Proof. intros E Eu. unfold tm. rewrite E. cbn. by rewrite Eu. Qed.
Lemma tm_eq cs cs' c : cs' !! c = cs !! c -> tm cs' c = tm cs c.
Proof. intros E. unfold tm. by rewrite E. Qed.
Lemma ordered_ext cs cs' l : (forall c, c ∈ l -> tm cs' c = tm cs c) -> ordered cs l -> ordered cs' l.
Proof.
  intros E S. induction S as [|a l S IH F]; constructor; [apply IH; intros c Hc; apply E; by right|]. apply Forall_forall. intros b Hb. rewrite Forall_forall in F. rewrite !E by (by left || by right). by apply F.
Qed.
Lemma ordered_erase cs l c : ordered cs l -> ordered cs (filter (fun x => x <> c) l).
Proof.
  intros S. induction S as [|a l S IH F]; [constructor|]. rewrite filter_cons. case_decide; [|done]. constructor; [done|]. apply Forall_forall. intros b [_ Hb]%list_elem_of_filter. rewrite Forall_forall in F. by apply F.
Qed.
Lemma ordered_snoc cs l c : ordered cs l -> (forall a, a ∈ l -> tm cs a <= tm cs c + D) -> ordered cs (l ++ [c]).
Proof.
  intros S. induction S as [|a l S IH F]; intros H; cbn [app]; [by repeat constructor|]. constructor; [apply IH; intros b Hb; apply H; by right|]. apply Forall_app. split; [done|]. constructor; [apply H; by left|constructor].
Qed.

(** What the timer does to a connection *)
Record visited (I now : Z) (x x' : LConn) (u : Z) : Prop := mkVisited {
  v_input : lc_input x' = lc_input x;
  v_time : lc_context x' = Some u \/ lc_context x' = Some now /\ now < u;
  v_sent : sent_ (lc_conn x') = sent_ (lc_conn x);
  v_idle : now - u > I + D -> connected_ (lc_conn x') = false;
  v_busy : now - u <= I -> connected_ (lc_conn x') = connected_ (lc_conn x);
  v_shut : connected_ (lc_conn x) = false -> connected_ (lc_conn x') = false }.
Lemma visited_same I now x u : lc_context x = Some u -> now - u <= I + D -> visited I now x x u.
Proof. intros E H. split; try done. by left. Qed.
Lemma timer_ok sec now l cs : 0 <= sec -> ordered cs l -> NoDup l -> (forall c, c ∈ l -> present cs c) ->
  exists cs', timer_loop sec now l cs = Ret (l, cs') /\ (forall c, c ∉ l -> cs' !! c = cs !! c) /\ ordered cs' l /\
    forall c x u, c ∈ l -> cs !! c = Some x -> lc_context x = Some u -> exists x', cs' !! c = Some x' /\ visited (sec * 1000000) now x x' u.
Proof.
  intros Hs S. revert cs S. induction l as [|h l IH]; intros cs S N P; cbn [timer_loop]; [exists cs; split_and!; try done; intros c x u Hc; by apply elem_of_nil in Hc|].
  destruct (P h) as (x & u & Ex & Eu); [by left|]. rewrite Ex, Eu. apply NoDup_cons in N as [Hh N]. unfold ordered in S. apply StronglySorted_inv in S as [S F]. rewrite (Forall_forall _ l) in F. pose proof (tm_some _ _ _ _ Ex Eu) as Th. set (I := sec * 1000000) in *.
  assert (forall x1, (forall c, c ∈ l -> present (<[h := x1]> cs) c) /\ ordered (<[h := x1]> cs) l) as Hp.
  { intros x1. split; [intros c Hc; destruct (P c) as (y & v & Ey & Ev); [by right|]; exists y, v; by rewrite lookup_insert_ne by (by intros ->)|]. apply (ordered_ext cs); [|done]. intros c Hc. apply tm_eq. by rewrite lookup_insert_ne by (by intros ->). }
  (* the rest of the list, after the head has become [x1] *)
  assert (forall x1 u1, lc_context x1 = Some u1 -> visited I now x x1 u -> u1 <= u -> u1 <= now ->
    exists cs', (let* (l', cs') := timer_loop sec now l (<[h := x1]> cs) in Ret (h :: l', cs')) = Ret (h :: l, cs') /\ (forall c, c ∉ h :: l -> cs' !! c = cs !! c) /\ ordered cs' (h :: l) /\
      forall c y v, c ∈ h :: l -> cs !! c = Some y -> lc_context y = Some v -> exists y', cs' !! c = Some y' /\ visited I now y y' v) as Rest.
  { intros x1 u1 E1 V1 Hu1 Hu2. destruct (Hp x1) as [Hp1 Hp2]. destruct (IH (<[h := x1]> cs) Hp2 N Hp1) as (cs' & -> & K1 & K2 & K3). cbn [obind]. exists cs'. split; [done|].
    assert (cs' !! h = Some x1) as Eh by (by rewrite K1, lookup_insert_eq). split_and!.
    - intros c [N1 N2]%not_elem_of_cons. rewrite K1, lookup_insert_ne by done. done.
    - constructor; [exact K2|]. apply Forall_forall. intros b Hbl. rewrite (tm_some _ _ _ _ Eh E1). destruct (P b) as (y & v & Ey & Ev); [by right|]. destruct (K3 b y v Hbl) as (y' & Ey' & V); [by rewrite lookup_insert_ne by (by intros ->)|done|].
      pose proof (tm_some _ _ _ _ Ey Ev) as Tb. pose proof (F b Hbl) as Fb. cbv beta in Fb. rewrite Th, Tb in Fb. destruct (v_time _ _ _ _ _ V) as [E'|[E' Hlt]]; rewrite (tm_some _ _ _ _ Ey' E'); lia.
    - intros c y v [->|Hc]%elem_of_cons Ey Ev; [rewrite Ex in Ey; injection Ey as <-; rewrite Eu in Ev; injection Ev as <-; by exists x1|]. apply (K3 c y v Hc); [by rewrite lookup_insert_ne by (by intros ->)|done]. }
  case_decide as Da; [|case_decide as Dj].
  - destruct (connected_ (lc_conn x)) eqn:Ec; [|rewrite <- (insert_id cs h x Ex)].
    + apply (Rest _ u); [done| |lia|unfold I in *; lia]. split; cbn; try done; by left.
    + destruct (Rest x u Eu) as (cs' & E' & K); [split; try done; by left|lia|unfold I in *; lia|]. exists cs'. split; [exact E'|]. by rewrite insert_id.
  - apply (Rest _ now); [done| |lia|lia]. split; cbn; try done; [right; split; [done|lia]|unfold I in *; lia].
  - exists cs. split_and!; [done|done|by constructor; [|apply Forall_forall]|]. intros c y v Hc Ey Ev. exists y. split; [done|]. apply visited_same; [done|]. apply elem_of_cons in Hc as [->|Hc]; [rewrite Ex in Ey; injection Ey as <-; rewrite Eu in Ev; injection Ev as <-; lia|]. pose proof (F c Hc) as Fc. cbv beta in Fc. rewrite Th, (tm_some _ _ _ _ Ey Ev) in Fc. lia.
Qed.

(** ** Runs *)

Context (seconds : Z) (seconds_pos : 0 <= seconds).
Record Inv (seen : gset nat) (m : gmap nat Z) (M T : Z) (s : EchoServer) : Prop := mkInv {
  l_sec : idleSeconds_ s = seconds;
  l_nodup : NoDup (connectionList_ s);
  l_mem : forall c, c ∈ connectionList_ s <-> is_Some (m !! c);
  l_conn : forall c t, m !! c = Some t -> exists x u, conns s !! c = Some x /\ lc_context x = Some u /\ t - D <= u <= t /\ t <= M;
  l_order : ordered (conns s) (connectionList_ s);
  l_seen : forall c, is_Some (conns s !! c) -> c ∈ seen;
  l_buf : forall c x, conns s !! c = Some x -> wf (lc_input x) /\ content (lc_input x) = [] /\ zlen (buffer_ (lc_input x)) <= 2000 + T }.

Lemma tm_latest seen m M T s a : Inv seen m M T s -> a ∈ connectionList_ s -> tm (conns s) a <= M.
Proof. intros I Ha. apply (l_mem _ _ _ _ _ I) in Ha as [t Et]. destruct (l_conn _ _ _ _ _ I a t Et) as (x & u & Ex & Eu & Hu & Ht). rewrite (tm_some _ _ _ _ Ex Eu). lia. Qed.
(** The connection [c] is entered or moved to the end at the time [t]. *)
Lemma touch_ok seen m M T s c t x l : Inv seen m M T s -> M - D <= t -> lc_context x = Some t -> c ∉ l -> NoDup l -> ordered (conns s) l -> (forall a, a ∈ l -> a ∈ connectionList_ s) ->
  ordered (<[c := x]> (conns s)) (l ++ [c]).
Proof.
  intros I Ht Ex Hc N S Hl. apply ordered_snoc; [apply (ordered_ext (conns s)); [|done]; intros a Ha; apply tm_eq; by rewrite lookup_insert_ne by (by intros ->)|].
  intros a Ha. rewrite (tm_eq (conns s) _ a) by (by rewrite lookup_insert_ne by (by intros ->)). pose proof (tm_latest _ _ _ _ _ a I (Hl a Ha)). rewrite (tm_some _ c x t); [lia|by rewrite lookup_insert_eq|done].
Qed.
Lemma conn_touch (m : gmap nat Z) M c t x (cs : gmap nat LConn) : (forall c t, m !! c = Some t -> exists x u, cs !! c = Some x /\ lc_context x = Some u /\ t - D <= u <= t /\ t <= M) -> lc_context x = Some t ->
  forall c' t', <[c := t]> m !! c' = Some t' -> exists y u, <[c := x]> cs !! c' = Some y /\ lc_context y = Some u /\ t' - D <= u <= t' /\ t' <= Z.max M t.
Proof.
  intros H Ex c' t'. rewrite lookup_insert_Some. intros [[<- <-]|[N E]]; [exists x, t; rewrite lookup_insert_eq; split_and!; (done || lia)|]. destruct (H c' t' E) as (y & u & Ey & Eu & Hu & Ht). exists y, u. rewrite lookup_insert_ne by done. split_and!; (done || lia).
Qed.
Lemma list_up_ok seen m M T s c now : Inv seen m M T s -> 0 <= T -> c ∉ seen -> M - D <= now -> exists s', list_step (LUp c now) s = Ret s' /\ Inv ({[c]} ∪ seen) (<[c := now]> m) (Z.max M now) T s'.
Proof.
  intros I HT Hc Ht. assert (conns s !! c = None) as Ec by (apply eq_None_not_Some; intros H; by apply Hc, (l_seen _ _ _ _ _ I)). assert (c ∉ connectionList_ s) as Hl. { intros H. apply (l_mem _ _ _ _ _ I) in H as [t Et]. destruct (l_conn _ _ _ _ _ I c t Et) as (? & ? & ? & _). congruence. }
  cbn [list_step]. destruct (newBuffer_ok kInitialSize) as (b & -> & W & C & _ & _ & L); [done|]. cbn [obind]. unfold onConnection, set_conn. cbn [conns idleSeconds_ connectionList_]. rewrite lookup_insert_eq. rewrite insert_insert_eq. set (x := mkLConn _ _ _ _). eexists. split; [done|].
  split; cbn [conns idleSeconds_ connectionList_]; pose proof I as [P1 P2 P3 P4 P5 P6 P7].
  - done.
  - apply NoDup_app. split_and!; [done|intros a Ha ->%list_elem_of_singleton; done|apply NoDup_singleton].
  - intros a. rewrite elem_of_app, list_elem_of_singleton, P3, lookup_insert_is_Some. destruct (decide (c = a)); naive_solver.
  - by apply conn_touch.
  - by eapply touch_ok.
  - intros a. rewrite lookup_insert_is_Some. intros [->|[_ H]]; [set_solver|]. apply P6 in H. set_solver.
  - intros a y. rewrite lookup_insert_Some. intros [[<- <-]|[_ E]]; [|by eapply P7]. cbn [x lc_input lc_conn]. split_and!; try done. rewrite L. unfold kCheapPrepend, kInitialSize. lia.
Qed.
Lemma erased (c : nat) (l : list nat) : NoDup l -> NoDup (filter (fun x => x <> c) l) /\ c ∉ filter (fun x => x <> c) l /\ forall a, a ∈ filter (fun x => x <> c) l <-> a <> c /\ a ∈ l.
Proof. intros N. split_and!; [by apply NoDup_filter|intros [H _]%list_elem_of_filter; done|]. intros a. by rewrite list_elem_of_filter. Qed.
Lemma list_data_ok seen m M T s c d time : Inv seen m M T s -> 0 <= T -> T + zlen d <= 2 ^ 60 -> is_Some (m !! c) /\ zlen d <= max_read -> M - D <= time -> exists s', list_step (LData c d time) s = Ret s' /\ Inv seen (<[c := time]> m) (Z.max M time) (T + zlen d) s'.
Proof.
  intros I HT HT' [[t0 Em] Hd] Ht. pose proof I as [P1 P2 P3 P4 P5 P6 P7]. destruct (P4 c t0 Em) as (x & u & Ex & Eu & _). destruct (P7 c x Ex) as (W & C & L). zlen_pos. cbn [list_step]. rewrite Ex. destruct (append_bytes_ok d (lc_input x) W) as (b & -> & W1 & C1 & _ & L1); [unfold max_size; lia|]. cbn [obind].
  unfold onMessage, set_conn. cbn [conns idleSeconds_ connectionList_]. rewrite lookup_insert_eq. cbn [lc_input lc_context lc_conn lc_force]. destruct (retrieveAllAsString_ok b W1) as (b' & -> & W2 & C2 & S2). cbn [obind]. rewrite C1, C, app_nil_l, conn_send_ok by (unfold max_read in Hd; lia). cbn [obind]. rewrite Eu. rewrite bool_decide_true by done. cbn [check]. rewrite insert_insert_eq.
  assert (c ∈ connectionList_ s) as Hc by (apply P3; by eexists). unfold list_splice_end, list_erase. rewrite decide_True by done. cbn [obind]. rewrite last_snoc, bool_decide_true by done. cbn [check]. destruct (erased c (connectionList_ s) P2) as (N' & Hn & Mm). eexists. split; [done|]. split; cbn [conns idleSeconds_ connectionList_].
  - done.
  - apply NoDup_app. split_and!; [done|intros a Ha ->%list_elem_of_singleton; done|apply NoDup_singleton].
  - intros a. rewrite elem_of_app, list_elem_of_singleton, Mm, P3, lookup_insert_is_Some. destruct (decide (c = a)); naive_solver.
  - by apply conn_touch.
  - eapply touch_ok; try done; [by apply ordered_erase|]. intros a Ha. by apply Mm.
  - intros a. rewrite lookup_insert_is_Some. intros [<-|[_ Ha]]; apply P6; [by eexists|done].
  - intros a y. rewrite lookup_insert_Some. intros [[<- <-]|[_ E]]; [cbn [lc_input]; split_and!; try done; lia|]. destruct (P7 a y E) as (? & ? & ?). split_and!; try done. lia.
Qed.
Lemma list_down_ok seen m M T s c : Inv seen m M T s -> is_Some (m !! c) -> exists s', list_step (LDown c) s = Ret s' /\ Inv seen (delete c m) M T s'.
Proof.
  intros I [t0 Em]. pose proof I as [P1 P2 P3 P4 P5 P6 P7]. destruct (P4 c t0 Em) as (x & u & Ex & Eu & _). cbn [list_step]. rewrite Ex. unfold onConnection, set_conn. cbn [conns idleSeconds_ connectionList_]. rewrite lookup_insert_eq. cbn [lc_context]. rewrite Eu, bool_decide_true by done. cbn [check].
  assert (c ∈ connectionList_ s) as Hc by (apply P3; by eexists). unfold list_erase. rewrite decide_True by done. cbn [obind]. destruct (erased c (connectionList_ s) P2) as (N' & Hn & Mm). eexists. split; [done|]. split; cbn [conns idleSeconds_ connectionList_].
  - done.
  - done.
  - intros a. rewrite Mm, P3, lookup_delete_is_Some. naive_solver.
  - intros a t. rewrite lookup_delete_Some. intros [N E]. destruct (P4 a t E) as (y & v & Ey & K). exists y, v. by rewrite lookup_insert_ne by done.
  - apply (ordered_ext (conns s)); [|by apply ordered_erase]. intros a [Na _]%Mm. apply tm_eq. by rewrite lookup_insert_ne by done.
  - intros a. rewrite lookup_insert_is_Some. intros [<-|[_ H]]; apply P6; [by eexists|done].
  - intros a y. rewrite lookup_insert_Some. intros [[<- <-]|[_ E]]; [exact (P7 c x Ex)|by eapply P7].
Qed.
Lemma list_gone_ok seen m M T s c : Inv seen m M T s -> m !! c = None -> Inv seen m M T (mkEcho (idleSeconds_ s) (connectionList_ s) (delete c (conns s))).
Proof.
  intros [P1 P2 P3 P4 P5 P6 P7] E. assert (forall a, is_Some (m !! a) -> a <> c) as Na by (intros a [t Et] ->; congruence). split; cbn [conns idleSeconds_ connectionList_]; try done.
  - intros a t Et. destruct (P4 a t Et) as (x & u & Ex & K). exists x, u. rewrite lookup_delete_ne by (symmetry; apply Na; by eexists). done.
  - apply (ordered_ext (conns s)); [|done]. intros a Ha. apply tm_eq. apply P3 in Ha. by rewrite lookup_delete_ne by (symmetry; by apply Na).
  - intros a. rewrite lookup_delete_is_Some. intros [_ H]. by apply P6.
  - intros a x. rewrite lookup_delete_Some. intros [_ H]. by eapply P7.
Qed.
Lemma timer_step_ok seen m M T s now : Inv seen m M T s -> M - D <= now -> exists s', list_step (LTimer now) s = Ret s' /\ Inv seen m (Z.max M now) T s' /\
  forall c t, m !! c = Some t -> exists x x' u, conns s !! c = Some x /\ conns s' !! c = Some x' /\ t - D <= u <= t /\ visited (seconds * 1000000) now x x' u.
Proof.
  intros [P1 P2 P3 P4 P5 P6 P7] Ht. cbn [list_step]. unfold onTimer. rewrite P1. assert (forall c, c ∈ connectionList_ s -> present (conns s) c) as Pr by (intros c [t Et]%P3; destruct (P4 c t Et) as (x & u & Ex & Eu & _); by exists x, u).
  destruct (timer_ok seconds now (connectionList_ s) (conns s) seconds_pos P5 P2 Pr) as (cs' & -> & K1 & K2 & K3). cbn [obind]. eexists. split; [done|]. assert (forall c t, m !! c = Some t -> exists x x' u, conns s !! c = Some x /\ cs' !! c = Some x' /\ t - D <= u <= t /\ t <= M /\ visited (seconds * 1000000) now x x' u) as Each.
  { intros c t Et. destruct (P4 c t Et) as (x & u & Ex & Eu & Hu & Hm). destruct (K3 c x u) as (x' & Ex' & V); [apply P3; by eexists|done|done|]. by exists x, x', u. }
  assert (forall c x', cs' !! c = Some x' -> exists x, conns s !! c = Some x /\ lc_input x' = lc_input x) as Inp.
  { intros c x' E. destruct (decide (c ∈ connectionList_ s)) as [Hc|Hc]; [|exists x'; by rewrite <- K1]. apply P3 in Hc as [t Et]. destruct (Each c t Et) as (x & y & u & Ex & Ey & _ & _ & V). rewrite E in Ey. injection Ey as <-. exists x. split; [done|apply V]. }
  split; [|intros c t Et; destruct (Each c t Et) as (x & x' & u & ? & ? & ? & _ & ?); by exists x, x', u]. split; cbn [conns idleSeconds_ connectionList_]; try done.
  - intros c t Et. destruct (Each c t Et) as (x & x' & u & Ex & Ex' & Hu & Hm & V). destruct (v_time _ _ _ _ _ V) as [E|[E Hlt]]; [exists x', u|exists x', now]; split_and!; (done || lia).
  - intros c [x' E]. destruct (Inp c x' E) as (x & Ex & _). apply P6. by eexists.
  - intros c x' E. destruct (Inp c x' E) as (x & Ex & ->). by eapply P7.
Qed.
Lemma traffic_pos es : 0 <= traffic es.
Proof. induction es as [|e es IH]; [done|]. cbn [traffic foldr]. fold (traffic es). destruct e; zlia. Qed.
Lemma list_run_ok es seen m M T s : Inv seen m M T s -> 0 <= T -> T + traffic es <= 2 ^ 60 -> forall tail, legal D (es ++ tail) seen m M ->
  exists s' seen' M' T', list_run es s = Ret s' /\ Inv seen' (fold_left (fun m e => act e m) es m) M' T' s' /\ legal D tail seen' (fold_left (fun m e => act e m) es m) M'.
Proof.
  revert seen m M T s. induction es as [|e es IH]; intros seen m M T s I HT L tail Lg; cbn [list_run fold_left app]; [by exists s, seen, M, T|]. cbn [app legal] in Lg. destruct Lg as (Le & Lt & Lg). cbn [traffic foldr] in L. fold (traffic es) in L. pose proof (traffic_pos es) as Tp.
  assert (exists s1 T1, list_step e s = Ret s1 /\ Inv (match e with LUp c _ => {[c]} ∪ seen | _ => seen end) (act e m) (later M e) T1 s1 /\ 0 <= T1 /\ T1 + traffic es <= 2 ^ 60) as (s1 & T1 & -> & I1 & HT1 & L1); [|cbn [obind]; exact (IH _ _ _ T1 s1 I1 HT1 L1 tail Lg)].
  destruct e as [c now|c d time|c|c|now]; unfold later; cbn [act time_of] in *.
  - destruct (list_up_ok seen m M T s c now I HT Le (Lt now eq_refl)) as (s1 & E & I1). by exists s1, T.
  - zlen_pos. destruct (list_data_ok seen m M T s c d time I HT ltac:(lia) Le (Lt time eq_refl)) as (s1 & E & I1). exists s1, (T + zlen d). split_and!; try done; lia.
  - destruct (list_down_ok seen m M T s c I Le) as (s1 & E & I1). by exists s1, T.
  - eexists _, T. split; [done|]. split; [by apply list_gone_ok|done].
  - destruct (timer_step_ok seen m M T s now I (Lt now eq_refl)) as (s1 & E & I1 & _). by exists s1, T.
Qed.
End Order.

(** C27. However connections come, receive and go, if no clock goes back by more than [D], nothing fails and no iterator is invalid; when the timer expires, every connection that is up and received nothing for more than the idle time and [D] is shut down, one that received something within the idle time less [D] is not, and nothing is sent. With
    clocks that do not go back, the connections that are shut down are exactly those idle for too long. *)
Theorem list_closes_idle (D seconds M : Z) (es : list LEvent) (now : Z) : 0 <= D -> 0 <= seconds -> traffic es <= 2 ^ 60 -> legal D (es ++ [LTimer now]) ∅ ∅ M ->
  exists s s', list_run es (newEchoServer seconds) = Ret s /\ list_step (LTimer now) s = Ret s' /\
    forall c t, activity es !! c = Some t -> exists x x', conns s !! c = Some x /\ conns s' !! c = Some x' /\ sent_ (lc_conn x') = sent_ (lc_conn x) /\
      (now - t > seconds * 1000000 + D -> connected_ (lc_conn x') = false) /\ (now - t <= seconds * 1000000 - D -> connected_ (lc_conn x') = connected_ (lc_conn x)).
Proof.
  intros HD Hs Ht Lg. assert (Inv D seconds ∅ ∅ M 0 (newEchoServer seconds)) as I0.
  { split; cbn; try done; [constructor|intros c; rewrite elem_of_nil; split; [done|intros [? H]; by rewrite lookup_empty in H]|constructor|intros c [? H]; by rewrite lookup_empty in H]. }
  destruct (list_run_ok D HD seconds Hs es ∅ ∅ M 0 _ I0 ltac:(lia) ltac:(lia) [LTimer now] Lg) as (s & seen & M' & T' & E & I & Lt). destruct Lt as (_ & Lt & _). destruct (timer_step_ok D HD seconds Hs _ _ _ _ s now I (Lt now eq_refl)) as (s' & E' & _ & V). exists s, s'. split_and!; [done..|].
  intros c t Et. destruct (V c t Et) as (x & x' & u & Ex & Ex' & Hu & Vx). exists x, x'. split_and!; [done|done|apply Vx|intros H; apply (v_idle _ _ _ _ _ _ Vx); lia|intros H; apply (v_busy _ _ _ _ _ _ Vx); lia].
Qed.
(** Two connections; the first receives something, and only the second is idle for more than ten seconds. *)
Definition example_events : list LEvent := [LUp 1 1000000; LUp 2 2000000; LTimer 3000000; LData 1 (bytes "hi") 9000000].
Lemma list_closes_idle_witness : exists s s', list_run example_events (newEchoServer 10) = Ret s /\ list_step (LTimer 13000000) s = Ret s' /\
    forall c t, activity example_events !! c = Some t -> exists x x', conns s !! c = Some x /\ conns s' !! c = Some x' /\ sent_ (lc_conn x') = sent_ (lc_conn x) /\
      (13000000 - t > 10 * 1000000 + 0 -> connected_ (lc_conn x') = false) /\ (13000000 - t <= 10 * 1000000 - 0 -> connected_ (lc_conn x') = connected_ (lc_conn x)).
Proof.
  apply (list_closes_idle 0 10 0 example_events 13000000); [lia|lia|by vm_compute|].
  cbn [legal app example_events]. split_and!; try (exact Logic.I); try (by apply (bool_decide_unpack _); vm_compute); intros t Et; cbn in Et; injection Et as <-; cbn; lia.
Defined.
End SortedList.
