(* ===== verification/FileTransfer.v ===== *)
(** * File transfer (src/muduo/examples/filetransfer/download.cc, download2.cc, download3.cc)

    Three servers that send a file to whoever connects: all of it at once; in blocks, the next when the last has been written; the same with the file owned by the context of the connection. The file
    shows that the client gets the file, if the first server sends less than two gigabytes, that the second server can read a file that it has closed, and that the third cannot. *)

From S2P Require Import Prelude Conn.

(** An open file is what is left of it; [fread] takes a block from its front, and [None] is a file that was closed. *)
Definition fread (size : Z) (fp : option (list byte)) : outcome (list byte * option (list byte)) :=
  match fp with
  | Some rest => Ret (ztake size rest, Some (zdrop size rest))
  | None => Stop OutOfRange
  end.
Definition fclose (fp : option (list byte)) : outcome (option (list byte)) :=
  match fp with Some _ => Ret None | None => Stop OutOfRange end.

(** ** download.cc *)

Module Download1.
Definition kBufSize : Z := 1024 * 1024.
(** Every round reads a byte. *)
Fixpoint readFile_loop (fuel : nat) (content : list byte) (fp : option (list byte)) : outcome (list byte * option (list byte)) :=
  match fuel with
  | O => Stop NoFuel
  | S fuel =>
      let* (buf, fp) := fread kBufSize fp in
      if decide (zlen buf > 0) then readFile_loop fuel (content ++ buf) fp else Ret (content, fp)
  end.
Definition readFile (file : option (list byte)) : outcome (list byte) :=
  match file with
  | Some d =>
      let* (content, fp) := readFile_loop (S (length d)) [] (Some d) in
      let* _ := fclose fp in
      Ret content
  | None => Ret []
  end.
Definition onConnection (file : option (list byte)) (connected : bool) (conn : Conn) : outcome Conn :=
  if connected then
    let* fileContent := readFile file in
    let* conn := conn_send fileContent conn in
    Ret (conn_shutdown conn)
  else Ret conn.

Lemma zdrop_shorter (d : list byte) : zlen (ztake kBufSize d) > 0 -> (length (zdrop kBufSize d) < length d)%nat.
Proof. unfold kBufSize. intros H. destruct d as [|b d]; [by cbn in H|]. unfold zdrop. rewrite length_drop. cbn [length]. lia. Qed.
Lemma readFile_loop_ok fuel content d : (length d < fuel)%nat -> readFile_loop fuel content (Some d) = Ret (content ++ d, Some []).
Proof.
  revert content d. induction fuel as [|fuel IH]; intros content d L; [lia|]. cbn [readFile_loop fread obind]. case_decide as D.
  - pose proof (zdrop_shorter d D). rewrite IH by lia. by rewrite <- app_assoc, ztake_zdrop.
  - destruct d as [|b d]; [by rewrite app_nil_r|]. exfalso. apply D. unfold ztake, kBufSize, zlen. rewrite length_take. cbn [length]. lia.
Qed.
(** A client gets the file, and then the end. *)
Theorem download_ok d conn : connected_ conn = true -> zlen d < 2 ^ 31 -> onConnection (Some d) true conn = Ret (mkConn (sent_ conn ++ d) false).
Proof. intros U L. unfold onConnection, readFile. rewrite readFile_loop_ok by lia. cbn [obind fclose app]. rewrite conn_send_ok by done. cbn [obind]. unfold conn_write, conn_shutdown. by rewrite U. Qed.
(** The length of a file of two gigabytes is not an [int]. *)
Lemma download_large d conn : connected_ conn = true -> 2 ^ 31 <= zlen d < 2 ^ 32 -> onConnection (Some d) true conn = Stop OutOfRange.
Proof. intros U L. unfold onConnection, readFile. rewrite readFile_loop_ok by lia. cbn [obind fclose app]. by rewrite conn_send_long. Qed.
End Download1.

(** ** download2.cc and download3.cc *)

Definition kBufSize : Z := 64 * 1024.
(** The context of a connection: nothing, a null pointer, or the file *)
Inductive Context := Empty | Null | File.
(** [pending]: the calls of [onWriteComplete] that are due, one for each [send] *)
Record FConn := mkFConn { conn : Conn; context : Context; fp : option (list byte); pending : nat }.
Definition send (d : list byte) (x : FConn) : FConn := mkFConn (conn_write d (conn x)) (context x) (fp x) (if connected_ (conn x) then S (pending x) else pending x).
Definition shutdown (x : FConn) : FConn := mkFConn (conn_shutdown (conn x)) (context x) (fp x) (pending x).
Definition newFConn : FConn := mkFConn newConn Empty None 0.

(** Both open the file and send its first block. *)
Definition open_and_send (file : option (list byte)) (x : FConn) : outcome FConn :=
  match file with
  | Some d =>
      let* (buf, f) := fread kBufSize (Some d) in
      Ret (send buf (mkFConn (conn x) File f (pending x)))
  | None => Ret (shutdown x)
  end.

Module Download2.
Definition onConnection (file : option (list byte)) (connected : bool) (x : FConn) : outcome FConn :=
  if connected then open_and_send file x
  else
    match context x with
    | File => let* f := fclose (fp x) in Ret (mkFConn (conn x) (context x) f (pending x))
    | _ => Ret x
    end.
Definition onWriteComplete (x : FConn) : outcome FConn :=
  match context x with
  | File =>
      let* (buf, f) := fread kBufSize (fp x) in
      let x := mkFConn (conn x) (context x) f (pending x) in
      if decide (zlen buf > 0) then Ret (send buf x)
      else
        let* f := fclose (fp x) in
        Ret (shutdown (mkFConn (conn x) Null f (pending x)))
  (** [any_cast] throws, and [fread] gets a null pointer. *)
  | _ => Stop OutOfRange
  end.
End Download2.

Module Download3.
Definition onConnection (file : option (list byte)) (connected : bool) (x : FConn) : outcome FConn :=
  if connected then open_and_send file x else Ret x.
Definition onWriteComplete (x : FConn) : outcome FConn :=
  match context x with
  | File =>
      let* (buf, f) := fread kBufSize (fp x) in
      let x := mkFConn (conn x) (context x) f (pending x) in
      if decide (zlen buf > 0) then Ret (send buf x) else Ret (shutdown x)
  | _ => Stop OutOfRange
  end.
End Download3.

(** A block has been written, or the connection goes down. *)
Inductive Ev := Written | Down.
Section Run.
Context (onConnection : bool -> FConn -> outcome FConn) (onWriteComplete : FConn -> outcome FConn).
Definition step (e : Ev) (x : FConn) : outcome FConn :=
  match e with
  | Written => match pending x with S n => onWriteComplete (mkFConn (conn x) (context x) (fp x) n) | O => Ret x end
  | Down => onConnection false (shutdown x)
  end.
Fixpoint run (es : list Ev) (x : FConn) : outcome FConn := match es with [] => Ret x | e :: es => let* x := step e x in run es x end.
End Run.

(** ** What clients get *)

Definition sending (s rest : list byte) : FConn := mkFConn (mkConn s true) File (Some rest) 1.
Lemma opened d : open_and_send (Some d) newFConn = Ret (sending (ztake kBufSize d) (zdrop kBufSize d)).
Proof. done. Qed.
Lemma idle_runs onC onW n x : pending x = 0%nat -> run onC onW (replicate n Written) x = Ret x.
Proof. intros P. induction n as [|n IH]; cbn [replicate run step]; [done|]. rewrite P. exact IH. Qed.
Lemma block_length (rest : list byte) : zlen (ztake kBufSize rest) > 0 <-> rest <> [].
Proof. unfold ztake, kBufSize, zlen. rewrite length_take. destruct rest; cbn [length]; split; intros H; try done; lia. Qed.

(** Both send block after block and then shut down. *)
Section Blocks.
Context (onC : bool -> FConn -> outcome FConn) (onW : FConn -> outcome FConn) (ended : Context) (left_ : option (list byte)).
Context (more : forall s rest, rest <> [] -> onW (mkFConn (mkConn s true) File (Some rest) 0) = Ret (sending (s ++ ztake kBufSize rest) (zdrop kBufSize rest)))
  (done_ : forall s, onW (mkFConn (mkConn s true) File (Some []) 0) = Ret (mkFConn (mkConn s false) ended left_ 0)).
Lemma blocks_ok n s rest : zlen rest + kBufSize <= Z.of_nat n * kBufSize -> run onC onW (replicate n Written) (sending s rest) = Ret (mkFConn (mkConn (s ++ rest) false) ended left_ 0).
Proof.
  revert s rest. induction n as [|n IH]; intros s rest L; [zlen_pos; unfold kBufSize in L; lia|]. cbn [replicate run step sending pending conn context fp]. destruct rest as [|b rest].
  - rewrite done_. cbn [obind]. rewrite app_nil_r. by apply idle_runs.
  - rewrite more by done. cbn [obind]. rewrite IH; [by rewrite <- app_assoc, ztake_zdrop|]. unfold zdrop, zlen, kBufSize in *. rewrite length_drop. cbn [length] in *. destruct n; lia.
Qed.
End Blocks.

Lemma more2 s rest : rest <> [] -> Download2.onWriteComplete (mkFConn (mkConn s true) File (Some rest) 0) = Ret (sending (s ++ ztake kBufSize rest) (zdrop kBufSize rest)).
Proof. intros N. unfold Download2.onWriteComplete. cbn [context fp fread obind]. rewrite decide_True by (by apply block_length). done. Qed.
Lemma more3 s rest : rest <> [] -> Download3.onWriteComplete (mkFConn (mkConn s true) File (Some rest) 0) = Ret (sending (s ++ ztake kBufSize rest) (zdrop kBufSize rest)).
Proof. intros N. unfold Download3.onWriteComplete. cbn [context fp fread obind]. rewrite decide_True by (by apply block_length). done. Qed.

(** If the connection stays up, the client has the whole file and the end of it after as many callbacks as there are blocks, and one more. *)
Theorem download2_complete d n : zlen d <= Z.of_nat n * kBufSize ->
  (let* x := Download2.onConnection (Some d) true newFConn in run (Download2.onConnection (Some d)) Download2.onWriteComplete (replicate (S n) Written) x) = Ret (mkFConn (mkConn d false) Null None 0).
Proof.
  intros L. unfold Download2.onConnection at 1. rewrite opened. cbn [obind]. erewrite blocks_ok; [by rewrite ztake_zdrop|apply more2|done|]. unfold zdrop, zlen, kBufSize in *. rewrite length_drop. lia.
Qed.
Theorem download3_complete d n : zlen d <= Z.of_nat n * kBufSize ->
  (let* x := Download3.onConnection (Some d) true newFConn in run (Download3.onConnection (Some d)) Download3.onWriteComplete (replicate (S n) Written) x) = Ret (mkFConn (mkConn d false) File (Some []) 0).
Proof.
  intros L. unfold Download3.onConnection at 1. rewrite opened. cbn [obind]. erewrite blocks_ok; [by rewrite ztake_zdrop|apply more3|done|]. unfold zdrop, zlen, kBufSize in *. rewrite length_drop. lia.
Qed.

(** ** Connections that go down *)

(** download2.cc closes the file when the connection goes down; if a block was written just before, the callback that is due then reads the closed file. *)
Theorem download2_reads_closed d : (let* x := Download2.onConnection (Some d) true newFConn in run (Download2.onConnection (Some d)) Download2.onWriteComplete [Down; Written] x) = Stop OutOfRange.
Proof. done. Qed.
(** download3.cc does not fail, whenever the connection goes down, and the client has a part of the file from its beginning. *)
Definition sound (d : list byte) (x : FConn) : Prop := context x = File /\ exists rest, fp x = Some rest /\ exists lost, d = sent_ (conn x) ++ lost ++ rest /\ (connected_ (conn x) = true -> lost = []).
Theorem download3_safe d es : exists x, (let* x := Download3.onConnection (Some d) true newFConn in run (Download3.onConnection (Some d)) Download3.onWriteComplete es x) = Ret x /\ sent_ (conn x) `prefix_of` d.
Proof.
  unfold Download3.onConnection at 1. rewrite opened. cbn [obind]. assert (sound d (sending (ztake kBufSize d) (zdrop kBufSize d))) as S0 by (split; [done|]; eexists; split; [done|]; exists []; cbn; by rewrite ztake_zdrop). revert S0. generalize (sending (ztake kBufSize d) (zdrop kBufSize d)).
  induction es as [|e es IH]; intros x (Cx & rest & Ef & lost & Ed & Lo); cbn [run]; [exists x; split; [done|]; rewrite Ed; by apply prefix_app_r|].
  assert (exists x1, step (Download3.onConnection (Some d)) Download3.onWriteComplete e x = Ret x1 /\ sound d x1) as (x1 & -> & S1); [|by apply IH]. destruct e; cbn [step].
  - destruct (pending x) as [|n]; [exists x; split; [done|]; split; [done|]; exists rest; split; [done|]; by exists lost|]. unfold Download3.onWriteComplete. cbn [context fp]. rewrite Cx, Ef. cbn [fread obind]. case_decide.
    + eexists. split; [done|]. split; [done|]. eexists. split; [done|]. cbn [send conn]. unfold conn_write. destruct (connected_ (conn x)) eqn:U; cbn [sent_ connected_].
      * exists []. split; [|done]. rewrite (Lo eq_refl) in Ed. rewrite <- app_assoc. cbn [app] in *. by rewrite ztake_zdrop.
      * exists (lost ++ ztake kBufSize rest). split; [by rewrite <- app_assoc, ztake_zdrop|congruence].
    + eexists. split; [done|]. split; [done|]. eexists. split; [done|]. cbn. exists (lost ++ ztake kBufSize rest). split; [by rewrite <- app_assoc, ztake_zdrop|done].
  - eexists. split; [done|]. split; [done|]. exists rest. split; [done|]. exists lost. by split.
Qed.
