(* ===== verification/Socks4a.v ===== *)
(** * The SOCKS4a proxy (src/muduo/examples/socks4a/socks4a.cc) and the relays tcprelay.cc and balancer.cc

    A client asks the proxy for a connection with a request that ends in one or two texts; the proxy answers and then passes bytes on. The file shows that a request is understood in whatever pieces it
    arrives, and that nothing of what follows it is lost. *)

From S2P Require Import Prelude Endian StringPiece Buffer Http Lines Conn.

Module Socks4a.

(** An address: the port and the IP address as they are in memory, in network byte order *)
Record sockaddr := mkAddr { sin_port : list byte; s_addr : list byte }.
(** A connection of a client: its input, the tunnel of its name in [g_tunnels], and its context, the connection of the tunnel when that is up *)
Record SConn := mkSConn { conn : Conn; input : Buffer; tunnel : option sockaddr; context : option Conn }.

Section Socks.
(** [networkToHost32] on this host, and [InetAddress::resolve], which asks the name servers *)
Context (host : endian) (resolve : list byte -> option (list byte)).

Definition accept_reply (addr : sockaddr) : list byte := [Byte.x00; Byte.x5a] ++ sin_port addr ++ s_addr addr.
Definition reject_reply : list byte := [Byte.x00; Byte.x5b] ++ bytes "UVWXYZ".

(** The end of [onServerMessage], when the request is complete: [where] is the offset of its last byte. *)
Definition answer (ver cmd : byte) (addr : sockaddr) (okay : bool) (where_ : Z) (x : SConn) : outcome SConn :=
  if decide (ver = Byte.x04 /\ cmd = Byte.x01 /\ okay = true) then
    let* buf := retrieveUntil (peek (input x) + (where_ + 1)) (input x) in
    Ret (mkSConn (conn_write (accept_reply addr) (conn x)) buf (Some addr) (context x))
  else Ret (mkSConn (conn_shutdown (conn_write reject_reply (conn x))) (input x) (tunnel x) (context x)).
(** [d] is what can be read; pointers into it are offsets. *)
Definition onServerMessage (x : SConn) : outcome SConn :=
  let buf := input x in
  let d := content buf in
  match tunnel x with
  | None =>
      if decide (readableBytes buf > 128) then Ret (mkSConn (conn_shutdown (conn x)) buf (tunnel x) (context x))
      else if decide (readableBytes buf > 8) then
        let where_ := 8 + std_find Byte.x00 (zdrop 8 d) in
        if decide (where_ <> zlen d) then
          let* ver := load 1 d in
          let* cmd := load 1 (zdrop 1 d) in
          let* port := load 2 (zdrop 2 d) in
          let* ip := load 4 (zdrop 4 d) in
          let ver := default Byte.x00 (head ver) in
          let cmd := default Byte.x00 (head cmd) in
          let socks4a := bool_decide (networkToHost32 host (int_of_mem host ip) < 256) in
          if socks4a then
            let endOfHostName := where_ + 1 + std_find Byte.x00 (zdrop (where_ + 1) d) in
            if decide (endOfHostName <> zlen d) then
              let hostname := slice d (where_ + 1) endOfHostName in
              match resolve hostname with
              | Some tmp => answer ver cmd (mkAddr port tmp) true endOfHostName x
              | None => answer ver cmd (mkAddr port ip) false endOfHostName x
              end
            else Ret x
          else answer ver cmd (mkAddr port ip) true where_ x
        else Ret x
      else Ret x
  | Some _ =>
      match context x with
      | Some c => let '(c, buf) := conn_send_buffer buf c in Ret (mkSConn (conn x) buf (tunnel x) (Some c))
      | None => Ret x
      end
  end.
(** tcprelay.cc and balancer.cc *)
Definition relay_onServerMessage (x : SConn) : SConn :=
  match context x with
  | Some c => let '(c, buf) := conn_send_buffer (input x) c in mkSConn (conn x) buf (tunnel x) (Some c)
  | None => x
  end.

(** ** Requests *)

(** An IP address, or a name with an address that cannot be one *)
Record Request := mkRequest { port : list byte; ip : list byte; user : list byte; hostname : option (list byte) }.
Definition print (r : Request) : list byte :=
  [Byte.x04; Byte.x01] ++ port r ++ ip r ++ user r ++ [Byte.x00] ++ match hostname r with Some h => h ++ [Byte.x00] | None => [] end.
Record good (r : Request) : Prop := mkGood {
  g_port : zlen (port r) = 2;
  g_ip : zlen (ip r) = 4;
  g_user : Byte.x00 ∉ user r;
  g_host : match hostname r with Some h => be_value (ip r) < 256 /\ Byte.x00 ∉ h | None => be_value (ip r) >= 256 end }.
Definition target (r : Request) : option sockaddr :=
  match hostname r with Some h => mkAddr (port r) <$> resolve h | None => Some (mkAddr (port r) (ip r)) end.

Fixpoint receive (chunks : list (list byte)) (x : SConn) : outcome SConn :=
  match chunks with
  | [] => Ret x
  | d :: chunks =>
      let* buf := append_bytes d (input x) in
      let* x := onServerMessage (mkSConn (conn x) buf (tunnel x) (context x)) in
      receive chunks x
  end.

Definition header (r : Request) : list byte := [Byte.x04; Byte.x01] ++ port r ++ ip r.
Definition tail_of (r : Request) : list byte := match hostname r with Some h => h ++ [Byte.x00] | None => [] end.
Lemma print_split r : print r = header r ++ user r ++ Byte.x00 :: tail_of r.
Proof. unfold print, header. by rewrite <- !app_assoc. Qed.
Lemma zlen_header r : good r -> zlen (header r) = 8.
Proof. intros G. unfold header. rewrite !zlen_app, (g_port r G), (g_ip r G). done. Qed.
Lemma ip_value r : good r -> networkToHost32 host (int_of_mem host (ip r)) = be_value (ip r).
Proof. intros G. unfold networkToHost32. apply htobe_int_of_mem. pose proof (g_ip r G) as L. unfold zlen in L. lia. Qed.
Lemma find_prefix (a : list byte) (b : list byte) : a `prefix_of` b -> Byte.x00 ∉ b -> std_find Byte.x00 a = zlen a.
Proof. intros [k ->] H. apply std_find_absent. intros Ha. apply H. apply elem_of_app. by left. Qed.

(** The four loads, when the header is there *)
Lemma loads r rest : good r -> load 1 (header r ++ rest) = Ret [Byte.x04] /\ load 1 (zdrop 1 (header r ++ rest)) = Ret [Byte.x01] /\ load 2 (zdrop 2 (header r ++ rest)) = Ret (port r) /\ load 4 (zdrop 4 (header r ++ rest)) = Ret (ip r).
Proof.
  intros G. unfold header. change ([Byte.x04; Byte.x01] ++ port r ++ ip r) with ([Byte.x04] ++ [Byte.x01] ++ port r ++ ip r). rewrite <- !app_assoc. split_and!.
  - by apply load_app.
  - rewrite zdrop_app_eq by done. by apply load_app.
  - rewrite app_assoc, zdrop_app_eq by done. apply load_app, G.
  - rewrite !app_assoc, <- (app_assoc _ (ip r)). rewrite zdrop_app_eq; [|rewrite !zlen_app, (g_port r G); done]. apply load_app, G.
Qed.
Lemma waits_ok x r d more extra : good r -> tunnel x = None -> wf (input x) -> content (input x) = d -> d ++ more = print r ++ extra -> zlen d < zlen (print r) -> zlen d <= 128 -> onServerMessage x = Ret x.
Proof.
  intros G T W C E L1 L2. unfold onServerMessage. rewrite T, C. rewrite <- (content_len (input x) W), C. rewrite decide_False by lia. case_decide as D; [|done]. rewrite print_split, <- !app_assoc in E. pose proof (zlen_header r G) as Lh. destruct (prefix_split _ _ _ _ E) as (q & -> & E1); [lia|]. rewrite zdrop_app_eq by done. rewrite print_split, !zlen_app in L1. rewrite zlen_cons in L1. rewrite !zlen_app.
  destruct (decide (zlen q <= zlen (user r))) as [Lq|Lq].
  { rewrite (find_prefix q (user r)); [|by eapply prefix_short|apply G]. by rewrite decide_False by lia. }
  destruct (prefix_split _ _ _ _ E1) as (q1 & -> & E2); [lia|]. destruct q1 as [|b q1]; [rewrite app_nil_r in Lq; lia|]. cbn [app] in E2. injection E2 as -> E2. rewrite std_find_app by apply G. rewrite zlen_app, zlen_cons in *. zlen_pos. rewrite decide_True by lia.
  destruct (loads r (user r ++ Byte.x00 :: q1) G) as (-> & -> & -> & ->). cbn [obind]. rewrite ip_value by done. pose proof (g_host r G) as Gh. unfold tail_of in *. destruct (hostname r) as [h|]; [|rewrite zlen_nil in L1; lia]. destruct Gh as [Gi Gh]. rewrite bool_decide_true by done. rewrite zlen_app in L1. change (zlen [Byte.x00]) with 1 in L1.
  replace (header r ++ user r ++ Byte.x00 :: q1) with ((header r ++ user r ++ [Byte.x00]) ++ q1) by (by rewrite <- !app_assoc). rewrite zdrop_app_eq by (rewrite !zlen_app; change (zlen [Byte.x00]) with 1; lia). rewrite <- app_assoc in E2. rewrite (find_prefix q1 h); [|eapply prefix_short; [exact E2|lia]|done]. by rewrite decide_False by lia.
Qed.
Lemma grant_ok x addr where_ a extra : wf (input x) -> content (input x) = a ++ extra -> where_ + 1 = zlen a -> connected_ (conn x) = true ->
  exists buf, answer Byte.x04 Byte.x01 addr true where_ x = Ret (mkSConn (mkConn (sent_ (conn x) ++ accept_reply addr) true) buf (Some addr) (context x)) /\ wf buf /\ content buf = extra /\ zlen (buffer_ buf) = zlen (buffer_ (input x)).
Proof.
  intros W C Hw U. unfold answer. rewrite decide_True by done. pose proof (content_len (input x) W) as L. rewrite C, zlen_app in L. zlen_pos. destruct (retrieveUntil_ok (peek (input x) + (where_ + 1)) (input x) W) as (b & -> & W' & C' & S'); [pose proof (readable_ok (input x) W); unfold peek, beginWrite in *; lia|]. cbn [obind]. unfold conn_write. rewrite U. exists b. split; [done|]. split; [done|]. split; [|done].
  rewrite C', C. replace (peek (input x) + (where_ + 1) - peek (input x)) with (zlen a) by lia. by apply zdrop_app_eq.
Qed.
Lemma done_ok x r addr extra : good r -> target r = Some addr -> tunnel x = None -> connected_ (conn x) = true -> wf (input x) -> content (input x) = print r ++ extra -> zlen (print r ++ extra) <= 128 ->
  exists buf, onServerMessage x = Ret (mkSConn (mkConn (sent_ (conn x) ++ accept_reply addr) true) buf (Some addr) (context x)) /\ wf buf /\ content buf = extra /\ zlen (buffer_ buf) = zlen (buffer_ (input x)).
Proof.
  intros G Ta T U W C L. unfold onServerMessage. rewrite T, C. rewrite <- (content_len (input x) W), C. rewrite decide_False by lia. pose proof (zlen_header r G) as Lh. pose proof (f_equal zlen (print_split r)) as Lp. rewrite !zlen_app, zlen_cons in Lp. rewrite zlen_app in L |- *. zlen_pos. rewrite decide_True by lia.
  assert (print r ++ extra = header r ++ user r ++ Byte.x00 :: tail_of r ++ extra) as Ep by (rewrite print_split, <- !app_assoc; done). rewrite Ep. rewrite zdrop_app_eq by done. rewrite std_find_app by apply G. rewrite decide_True by lia. destruct (loads r (user r ++ Byte.x00 :: tail_of r ++ extra) G) as (-> & -> & -> & ->). cbn [obind]. rewrite ip_value by done.
  pose proof (g_host r G) as Gh. unfold target in Ta. unfold tail_of in *. destruct (hostname r) as [h|].
  - destruct Gh as [Gi Gh]. rewrite bool_decide_true by done. rewrite zlen_app in Lp. change (zlen [Byte.x00]) with 1 in Lp. replace (header r ++ user r ++ Byte.x00 :: (h ++ [Byte.x00]) ++ extra) with ((header r ++ user r ++ [Byte.x00]) ++ h ++ Byte.x00 :: extra) by (by rewrite <- !app_assoc).
    assert (zlen (header r ++ user r ++ [Byte.x00]) = 8 + zlen (user r) + 1) as La by (rewrite !zlen_app; change (zlen [Byte.x00]) with 1; lia). rewrite zdrop_app_eq by done. rewrite std_find_app by done. rewrite decide_True by lia. destruct (resolve h) as [tmp|] eqn:Er; cbn in Ta; [|done]. injection Ta as <-.
    assert (slice ((header r ++ user r ++ [Byte.x00]) ++ h ++ Byte.x00 :: extra) (8 + zlen (user r) + 1) (8 + zlen (user r) + 1 + zlen h) = h) as -> by (unfold slice; rewrite zdrop_app_eq by done; rewrite ztake_app_l, ztake_all by zlia; done). rewrite Er. apply (grant_ok x _ _ (print r) extra); [done|done|lia|done].
  - rewrite bool_decide_false by lia. injection Ta as <-. rewrite zlen_nil in Lp. apply (grant_ok x _ _ (print r) extra); [done|done|lia|done].
Qed.

(** While the tunnel has no connection, what arrives is kept for it. *)
Lemma kept chunks x d : tunnel x <> None -> context x = None -> wf (input x) -> content (input x) = d -> zlen (buffer_ (input x)) + zlen (concat chunks) <= max_size ->
  exists buf, receive chunks x = Ret (mkSConn (conn x) buf (tunnel x) None) /\ content buf = d ++ concat chunks.
Proof.
  revert x d. induction chunks as [|c chunks IH]; intros x d T Cx W C L; cbn [receive concat]; [exists (input x); rewrite app_nil_r; split; [|done]; destruct x; cbn in *; by subst|]. cbn [concat] in L. rewrite zlen_app in L. zlen_pos. destruct (append_bytes_ok c (input x) W) as (b & -> & W1 & C1 & _ & L1); [lia|]. cbn [obind].
  assert (onServerMessage (mkSConn (conn x) b (tunnel x) (context x)) = Ret (mkSConn (conn x) b (tunnel x) (context x))) as -> by (unfold onServerMessage; cbn [tunnel context]; destruct (tunnel x); [by rewrite Cx|done]). cbn [obind]. destruct (IH (mkSConn (conn x) b (tunnel x) (context x)) (d ++ c)) as (b' & -> & C'); cbn [tunnel context input]; try done; [by rewrite C1, C|lia|]. exists b'. split; [done|]. by rewrite C', <- app_assoc.
Qed.
(** A request in any pieces, with what the client sends after it: the proxy makes the tunnel to the right address, answers once, and keeps the rest. *)
Lemma request_ok chunks x r addr extra : good r -> target r = Some addr -> tunnel x = None -> context x = None -> connected_ (conn x) = true -> wf (input x) -> content (input x) ++ concat chunks = print r ++ extra -> zlen (content (input x)) < zlen (print r) -> zlen (print r ++ extra) <= 128 -> zlen (buffer_ (input x)) + 128 <= max_size - zlen (concat chunks) ->
  exists buf, receive chunks x = Ret (mkSConn (mkConn (sent_ (conn x) ++ accept_reply addr) true) buf (Some addr) None) /\ content buf = extra.
Proof.
  intros G Ta T Cx U W. revert x T Cx U W. induction chunks as [|c chunks IH]; intros x T Cx U W E Lc L Lb; cbn [receive concat] in *.
  { rewrite app_nil_r in E. rewrite E, zlen_app in Lc. zlen_pos. lia. }
  rewrite zlen_app in Lb. zlen_pos. destruct (append_bytes_ok c (input x) W) as (b & -> & W1 & C1 & _ & L1); [lia|]. cbn [obind]. rewrite app_assoc, <- C1 in E. pose proof (f_equal zlen E) as Ez. rewrite !zlen_app in Ez. rewrite zlen_app in L. destruct (decide (zlen (content b) < zlen (print r))) as [D|D].
  - rewrite (waits_ok _ r (content b) (concat chunks) extra) by (done || lia). cbn [obind]. apply (IH (mkSConn (conn x) b (tunnel x) (context x))); cbn [tunnel context conn input]; try done; [by rewrite zlen_app|lia].
  - destruct (prefix_split _ _ _ _ E) as (q & Eq & Er); [lia|]. rewrite Eq, zlen_app in Ez. destruct (done_ok (mkSConn (conn x) b (tunnel x) (context x)) r addr q) as (b1 & -> & W2 & C2 & S2); cbn [tunnel conn input]; try done; [rewrite zlen_app; zlia|]. cbn [obind input context] in *.
    destruct (kept chunks (mkSConn (mkConn (sent_ (conn x) ++ accept_reply addr) true) b1 (Some addr) (context x)) q) as (b2 & E2 & C3); cbn [tunnel context input]; try done; [lia|]. exists b2. split; [exact E2|]. by rewrite C3.
Qed.
End Socks.

(** A SOCKS4 or SOCKS4a request that arrives in any pieces, perhaps with bytes after it, up to 128 in all: the proxy waits until the request is complete, makes the tunnel to the address of the request, or to the one its name resolves to, answers exactly once that it is granted, and keeps the bytes after the request for the tunnel. *)
Theorem socks_granted (host : endian) (resolve : list byte -> option (list byte)) (r : Request) (addr : sockaddr) (extra : list byte) (chunks : list (list byte)) (buf : Buffer) :
  good r -> target resolve r = Some addr -> wf buf -> content buf = [] -> concat chunks = print r ++ extra -> zlen (print r ++ extra) <= 128 -> zlen (buffer_ buf) <= 2000 ->
  exists buf', receive host resolve chunks (mkSConn newConn buf None None) = Ret (mkSConn (mkConn (accept_reply addr) true) buf' (Some addr) None) /\ content buf' = extra.
Proof.
  intros G Ta W C E L Lb. apply (request_ok host resolve chunks (mkSConn newConn buf None None) r addr extra); try done; cbn [input]; [by rewrite C|rewrite C, zlen_nil; rewrite print_split, !zlen_app, zlen_cons; zlia|rewrite E; unfold max_size; lia].
Qed.
End Socks4a.
